(* ===== verification/_CoqProject ===== *)
-Q . S2P
Prelude.v
Paths.v
Namespace.v
RwLock.v
Scheduler.v
FsErrors.v
Quota.v
Json.v
Errors.v
Permissions.v
Address.v
Session.v
Auth.v
Prog.v
ToolRegistry.v
JobControl.v
Gateway.v
GatewaySafety.v
Host.v
SpawnWalk.v
Broker.v
BrokerSafety.v
BrokerQuota.v
BrokerState.v
Bridge.v
Service.v
HandlerMap.v
DeviceList.v
WorkerMessage.v
Supervisor.v
PeerChannel.v
PeerBroker.v
Metering.v
ModuleData.v
DeviceManager.v
PeerClient.v
Calls.v
Hop.v
Composition.v
CtxCall.v
HandlerCtx.v
Lifecycle.v
WorkerLimits.v
ModuleLoader.v
Lockdown.v
PatchedFs.v
PatchedOps.v
Packages.v
SandboxConfig.v
ModuleManager.v
ManagerSafety.v
Routes.v
ModuleTasks.v
Validation.v
Options.v
Hardened.v
Startup.v
ModuleValidator.v
Migration.v
Facade.v
LocalDevices.v
