(* ===== verification/Prelude.v ===== *)
(** * countinghouse: a verification development

    countinghouse (src/) loads Node.js modules, publishes the actions of their
    devices as MCP tools, and lets the tools call each other inside the server.
    The main thread owns identity, money and the host: it authenticates keys,
    bills calls, keeps jobs, decides which module may call which, and performs
    every file operation. Modules run in worker threads that reach all of this
    by messages only. This library models the server's own logic in src/lib/
    and framework.js and proves what makes it correct; file names below are
    relative to src/lib/ unless they say otherwise.

    ** The program's parts and the files that model them

    Every definition keeps its source's name where it can. A class is a Record
    of its fields and one function per method; a JavaScript value that is not
    checked yet is a [jsval]; a thrown or called-back error is a value of a
    sum ([result], [cherr], [jserr]).

    - Language and values. [Prelude]: strings, decimal text, association
      lists, [jsval], the error monad and shared tactics. [Paths]: path.posix.
      [Json]: coercions, [===], JSON.stringify, and mcp/output-schema-hash.js.
      [Errors]: countinghouse-error.js. [Prog]: asynchronous programs.
    - Files. [Namespace]: fs-broker/namespace.js. [RwLock]: rwlock.js.
      [Scheduler]: scheduler.js. [Quota]: quota.js. [FsErrors]: errors.js.
      [SpawnWalk]: spawn-walk.js. [Host] (its requests) and [Broker] (its
      operations): broker.js; [BrokerSafety], [BrokerQuota] and [BrokerState]
      are proved of it. [Bridge]: server.js and client.js. [ModuleData]:
      module-data.js. A worker's call goes through [Bridge] to [Broker], which
      places its paths by [Namespace], takes the module's [RwLock], waits for a
      slot of [Scheduler], accounts growth in [Quota] and answers by [FsErrors].
    - Identity and policy. [Permissions]: module-permissions.js and
      module-policy.js. [Auth]: auth/, couchdb-adapter/, user-auth.js and the
      gates of the routes. [Session]: session.js and timer.js. [Metering]:
      metering/.
    - HTTP. [Routes]: route-manager.js and routes/, from a request's first
      middleware to the handler that answers it or hands it to [Gateway],
      [Calls], [JobControl] or [ModuleManager].
    - MCP. [ToolRegistry]: mcp/tool-registry.js. [Gateway] and [GatewaySafety]:
      mcp/gateway.js, over [Auth], [Metering], [JobControl]. [JobControl]:
      job-control.js and the job routes. [Address]: call-address.js,
      plan-validator.js, mcp/tool-name.js.
    - Devices. [Service]: service.js, validator.js, countinghouse-device.js.
      [HandlerMap]: handler-map.js and the wiring of handler-map-module.js.
    - Start-up. [Options]: cli-options.js, bind-address.js and node-version.js.
      [Hardened]: hardened-launch.js and hardened-realpaths.js. [Startup]:
      src/framework.js, which reads [Options], starts itself again by
      [Hardened], and stops before any module is loaded unless every check of
      the address, the keys, the policy and the folders passes.
    - Authoring. [ModuleValidator]: module-validator.js and validator.js, which
      judge a module by [Packages], [Permissions] and [HandlerMap] as a load
      does. [Migration]: src/bin/countinghouse-migrate-spec.js.
    - Workers. [WorkerMessage]: worker-message.js and the worker's end of it
      in sandbox.js. [WorkerLimits]: worker-limits.js. [Supervisor]:
      module-supervisor.js. [Lifecycle]: module-lifecycle.js and the tasks of
      module-manager.js that run under it. [ModuleManager]: module-manager.js on
      the main thread (start-up, loads, unloads, restarts, reloads, the replies
      and the end of a worker); [ManagerSafety] is proved of it. [ModuleTasks]:
      its uninstall, with the files of a new worker (fs-broker/index.js and
      ensureDirs of module-data.js). [Validation]: validateModuleSandboxed.
    - A worker's own modules and devices. [LocalDevices]: module-manager.js,
      device-manager.js and handler-map-module.js as they run in a module
      worker, with the commands of sandbox.js: a module's code is loaded and
      assembled by [HandlerMap], its devices pass [ModuleValidator]'s check of
      their spec, and what it sends is what [DeviceManager] is told.
      [DeviceList]: what an operator is shown of a module's devices.
    - A module's code. [ModuleLoader]: fs-broker/identity.js (the hooks that
      resolve and load a module's files) with the grants and the routing of
      fs-broker/patch.js. [Packages]: module-tree-check.js and the dependency
      closure of identity.js. [SandboxConfig]: module-sandbox-config.js.
      [Lockdown]: module-lockdown.js (what each replaced function of Node
      decides, reports and passes on). [PatchedFs] and [PatchedOps]: the
      replaced methods of fs in fs-broker/patch.js, those of several requests
      and those of one. A load of [ModuleManager] asks [SandboxConfig],
      which checks the tree by [Packages] and narrows the declaration by
      [Permissions]; the worker then resolves the module's files through
      [ModuleLoader] and [Lockdown], and its file calls become the requests of
      [PatchedFs], which [Broker] serves. [Facade]: single-thread-facade.js,
      which gives modules that share the main thread their own file names.
    - Calls between workers, all in device-manager.js: [DeviceManager] (which
      worker hosts which device), [Calls] (clients and jobs), [Hop] (one
      worker's call of another through the main thread), [Composition] (what a
      module may call), [CtxCall] (handler-ctx.js, query-device.js and
      service-client.js: the call from a handler), [HandlerCtx] (the rest of a
      handler's ctx, with the helpers of countinghouse-util.js and redis-api.js
      behind it), [PeerChannel]
      (peer-channel.js), [PeerBroker] (peer-channel-broker.js) and [PeerClient]
      (both roles of a worker on its channels). A handler's [CtxCall] is
      refused unless [Composition] bound it, asks [DeviceManager] for the spec,
      and becomes a [Hop], or a call over [PeerClient]'s channels that
      [PeerBroker] granted.

    ** How stateful and asynchronous code is modelled

    - A synchronous handler is a pure function from a state to the next state
      and the list of what it sends. A component that others call back into is
      such a step function over all its events, and its theorems are about any
      list of events: no order of answers, timers and messages is assumed.
    - A handler that awaits is a [prog]: its requests, and a continuation for
      each answer. [safe env P Q] says that every request satisfies [P] of the
      history before it, for any answers the environment [env] allows; other
      handlers run between two requests, so [env] is unrestricted unless the
      statement says otherwise.
    - Code outside src/ is a parameter: express, Redis and bullmq, the
      authentication and metering databases, the host's file system, SHA-256,
      the compiled schema validators. What is relied on is a hypothesis of the
      Section or a class ([AuthProvider]), each instantiated by a witness.

    ** What the theorems show

    - File confinement: [resolve_path_classified] and [prepare_protects] of the
      namespace; [broker_confined] (each host call is of a checked path in a
      root the permission covers) and [broker_answers_granted], under any
      interleaving; [descriptor_accounted] (position and usage follow the
      host's file); [measure_exact] (the walk ends, counts every entry once, and
      lists the links that lead out while there is room); [broker_state_bounded]; [rwlock_exclusion_fifo];
      [bridge_answers_once] and [sync_call_wakes] (no lost wake-up).
    - Authority: [load_narrow_total], [narrow_within_declared] and
      [parseDeclaration_sound] (policy never widens a declaration: what is
      granted is a declared path or below it, segment by segment),
      [routes_gated] (no route's handler without its gates, and one answer),
      [doUserAuth_sound], [sqlite_provider_laws], [job_tenant_isolation],
      [list_matches_call], [one_owner_per_name].
    - MCP: [gateway_acts_for_caller], [gateway_answers_and_bills],
      [failure_code_roundtrip].
    - Modules: [workers_accounted] (the map names a running worker of each
      module, one per name, and no worker runs unaccounted for) and
      [requests_answered_once], over any order of loads, replies, exits and
      timers; [module_files_confined] (while Node resolves to real paths, a worker is
      served from the host, and resolves to, only the module's own files, or
      countinghouse's for its own code; a load reads the one file it names)
      and [module_paths_roundtrip]; [one_request_as_routed] (a method of fs asks
      for just the paths it was routed by, and only looks at granted paths and
      opens of granted files, whatever their flags, reach the host's own fs); [tree_check_exact] and [code_roots_exact]
      (the walks end, and find exactly the problems, and the packages, there
      are); [build_sound] (refused exactly when there are problems, and granted
      no more than declared and approved); [limits_enforced];
      [lockdown_enforced] (under enforce a guarded function is reached only by
      calls within the module's files, hosts and built-ins) and
      [audit_predicts_enforce]; [cp_confined]; [whole_file_written] and
      [whole_file_read] (all of it, in order, and closed in every case);
      [worker_files_ready] (a worker's directories are its own, emptied and
      measured before its broker exists), [uninstall_confined] (what is deleted
      is one module's data, while nothing uses it) and [validations_bounded];
      [worker_devices_sound] (in a worker, a device on the map is of a loaded
      module, the main thread knows it, and a load or unload takes exactly its
      module's devices).
    - Single thread: [own_names_roundtrip] (a module's names and its host paths
      are read back) and [prefix_in_place] (what is put into its source goes
      behind whole directives, never into an expression, and changes nothing
      else).
    - Start-up: [startup_gated] (nothing is served unless every check passed,
      and what the routes need is made before them),
      [hardened_child_ready], [flags_grant_exactly] (the permission flags name
      just the folders and files there are), [options_bounded] and
      [options_resent] (which options a worker reads back as they were sent).
    - Authoring: [validator_exact] (a module is judged fine exactly when nothing
      is wrong, and a load then does not refuse it) and [spec_converted] (what a
      converted spec keeps, drops and renames; a second conversion does nothing).
    - Money: [metering_exact], [session_billed_once], [hop_contract] (a hop's
      success is heard after metering has answered; that it was charged only
      when metering could: [metering_fails_open]).
    - Composition, end to end: [composition_verified] (a verdict binds only an
      identity authenticated for every declared action), [ctx_call_contract] (while
      no device, service or identity holds a bar),
      [hops_were_verified] (so every hop a handler sends carries the identity of
      the last verdict relayed to it, verified for the hop's own address),
      [peer_grants_authorized], [revoked_grants_close],
      [served_calls_granted]; [handler_reaches_its_own] (a handler is told who
      called, and reaches its own job, its own log and the listed redis commands).
    - Answers: [action_call_contract], [client_call_answered],
      [device_queries_settle], [worker_requests_settle], [peer_calls_settle]
      and [peer_channel_settles]: every call is answered at most once, and
      answered when what it waits for ends, but for those [action_call_contract]
      names and those a callback that throws calls again or leaves.
    - The device map and workers: [device_registry_sound],
      [jobs_read_by_their_worker], [restart_policy], [message_rate_bounded].

    Theorems named for a fault show one: a negative length that lowers the
    usage ([negative_truncate_frees]), a prefix that makes a directory beside
    its root ([mkdtemp_beside_root]), a promise rejected with nothing that is
    never answered ([reject_nothing_unanswered]), a hop charged after its
    timeout ([timed_out_hop_charged]), a module never counted as discovered
    ([startup_exit_uncounted]) or counted twice ([restart_counted_twice]), a
    worker a failed reload forgets ([reload_leaves_worker]), one channel kept for two directions
    ([grant_takes_served_channel]), a task's hops billed to the module
    ([task_hops_bill_module]), two clients a bar confuses
    ([bar_in_identity_confuses_clients]), a callback that throws and is called
    twice ([throwing_callback_called_twice]) or leaves the rest unanswered
    ([throw_at_end_drops_rest]), an open that writes a granted file
    ([granted_open_writes]), a spec the converter leaves for the validator to
    refuse ([top_level_only_unchanged]), a device that outlives its module
    ([late_device_outlives_its_module]), an error the next device hides
    ([last_device_decides]).

    ** Bounds and fuel

    - [Host.loop] runs at most [2^63] iterations, by doubling, of the loops
      over a directory's entries or a file's bytes; [loopn_total] shows a loop
      whose measure decreases ends with a value, and [measure_exact] applies it
      to trees of fewer entries than that. A file's offset has 63 bits.
    - [pump_fuel] gets one pass per free slot and one more: a pass that goes on
      started a task. [next_free] gets one try more than names are taken.
      [missing_from] gets one step more than the path has characters: dirname
      shortens it until the root. [replace_all_fuel] and [nat_text_fuel] get
      the length of the text and the number itself.
    - [walk] and [walk_files] of [Packages] get more than the real paths inside
      the module and its deepest nesting, and [closure_loop] one turn for each
      dependency of the packages there are: [tree_check_exact] and
      [code_roots_exact] show that this ends the walks. [packageType] gets one
      step more than the path has characters.
    - [write_loop] gets the length of the data and [read_all] one turn more
      than the file has bytes: each turn but the last moves a byte. [cpImpl] gets
      one level more than the source's directories are nested: [cp_confined]
      shows that no copy runs out. [glob_queue] has no such bound, and what is
      proved of a glob is proved of one that ends. [chmod_up] gets one step for
      each character of the path: the directory mkdir says it made first is on
      the way from the path to the root.
    - [prologue_end] of [Facade] gets one step more than the source is long, and
      each moves past a string or a semicolon.
    - The bridge's counter is an Int32 that wraps; [sync_call_wakes] needs
      fewer than [2^32] bumps while one call sleeps, which outlives any call.
    - Integers of JSON and of quotas are unbounded ([Z]), with NaN where the
      code can produce it; the doubles of the source are exact below [2^53].

    ** Restrictions of the model

    Strings are 8-bit units. Costs and balances are whole units, and the tokens
    of the message rate are thousandths. A JSON value that crosses a thread is
    a copy. Keys of an object keep insertion order. toISOString has four-digit
    years. File constants are Linux's. A cached client's key is told apart when
    identities have no bar in them; ids of requests on one peer channel are
    distinct, as the caller's counter makes them. What a callback answers at
    once is a step of its own. A start-up list has named packages with text
    versions. Log lines and trace spans are left out.

    ** Not modelled

    - Single-thread mode of the two managers (modules in the main thread, for
      debugging): the code is the same methods' other branches; [LocalDevices]
      and [Facade] model what the mode shares with a worker, and what it adds.
    - The database's list of modules, the device table (lib/device-db.js) and
      the wrappers of countinghouse-util.js are statements over sqlite, HTTP,
      SOAP and Redis, with no state of their own; logging and connections
      likewise.
    - Connecting to a device (connMan), the hardware address, and the queries
      by which the main thread reads a spec or a schema from a worker: the
      worker's end is in [LocalDevices], the way there in [WorkerMessage].
    - That Node calls the functions module-lockdown.js and patch.js put in place
      of its own, and no others, is a fact of Node, not of the source; sandbox.js
      wires the modelled parts together in the worker.
    - Of the authoring commands in src/bin/, migrate-module rewrites a module's
      source by regular expressions, and the others read and write files
      around modelled parts. The benchmarks and examples are no part of the
      server. *)
From Stdlib Require Import ZArith Lia Ascii String.
From stdpp Require Import base list strings gmap fin_maps sorting.

(** ** Strings as JavaScript sees them

    A string is modelled as its sequence of 8-bit code units. *)

Declare Scope js_scope.
Delimit Scope js_scope with js.
Open Scope js_scope.
Open Scope string_scope.
Open Scope list_scope.

(** [s.startsWith(p)] *)
Fixpoint starts_with (p s : string) : bool :=
  match p, s with
  | EmptyString, _ => true
  | String a p', String b s' => Ascii.eqb a b && starts_with p' s'
  | String _ _, EmptyString => false
  end.

(** [s.slice(n)] for [n >= 0] *)
Fixpoint sdrop (n : nat) (s : string) : string :=
  match n, s with
  | O, _ => s
  | S _, EmptyString => EmptyString
  | S m, String _ s' => sdrop m s'
  end.

(** [s.slice(0, n)] for [n >= 0] *)
Fixpoint stake (n : nat) (s : string) : string :=
  match n, s with
  | O, _ => EmptyString
  | S _, EmptyString => EmptyString
  | S m, String c s' => String c (stake m s')
  end.

(** [s.endsWith(p)] *)
Definition ends_with (p s : string) : bool :=
  (String.length p <=? String.length s)%nat &&
  String.eqb (sdrop (String.length s - String.length p) s) p.

(** [s.includes(c)] for a one-character string *)
Fixpoint has_char (c : ascii) (s : string) : bool :=
  match s with
  | EmptyString => false
  | String d s' => Ascii.eqb c d || has_char c s'
  end.

(** [s.split(c)] for a one-character separator: never the empty list *)
Fixpoint split_on (c : ascii) (s : string) : list string :=
  match s with
  | EmptyString => [EmptyString]
  | String d s' =>
      if Ascii.eqb c d then EmptyString :: split_on c s'
      else match split_on c s' with
           | [] => [String d EmptyString]
           | w :: ws => String d w :: ws
           end
  end.

(** [xs.join(sep)] *)
Fixpoint join (sep : string) (xs : list string) : string :=
  match xs with
  | [] => EmptyString
  | [x] => x
  | x :: ys => x +:+ sep +:+ join sep ys
  end.

(** [xs.indexOf(x) !== -1], [xs.includes(x)] *)
Definition includes {A} `{EqDecision A} (x : A) (xs : list A) : bool :=
  bool_decide (x ∈ xs).

(** [xs.length === 0] *)
Definition is_nil {A} (l : list A) : bool := match l with [] => true | _ => false end.

(** [toLowerCase] on code units below 256: A to Z, and the Latin-1 capitals
    (192 to 222 but for the multiplication sign). *)
Definition lower_char (c : ascii) : ascii :=
  let n := nat_of_ascii c in
  if ((65 <=? n) && (n <=? 90) || (192 <=? n) && (n <=? 222) && negb (n =? 215))%nat
  then ascii_of_nat (n + 32) else c.

Fixpoint lowercase (s : string) : string :=
  match s with
  | EmptyString => EmptyString
  | String c s' => String (lower_char c) (lowercase s')
  end.

(** Decimal text of a natural number, as a template literal prints it. *)
Definition digit (n : nat) : ascii := ascii_of_nat (48 + n).

Fixpoint nat_text_fuel (fuel n : nat) (acc : string) : string :=
  match fuel with
  | O => acc
  | S f => let acc' := String (digit (n mod 10)) acc in
           if (n <? 10)%nat then acc' else nat_text_fuel f (n / 10) acc'
  end.

Definition nat_text (n : nat) : string := nat_text_fuel (S n) n EmptyString.

Definition Z_text (z : Z) : string :=
  if (z <? 0)%Z then "-" +:+ nat_text (Z.to_nat (- z)) else nat_text (Z.to_nat z).

(** ** Errors

    A JavaScript [Error] with the properties the program sets on it. *)
Record jserr := mkErr {
  e_message : string;
  e_code : option string;
  e_errno : option Z;
  e_syscall : option string;
  e_path : option string;
  e_dest : option string
}.

(** [new Error(m)] *)
Definition plain_error (m : string) : jserr := mkErr m None None None None None.

(** [new Error(m)] with [.code] set *)
Definition coded_error (c m : string) : jserr := mkErr m (Some c) None None None None.

(** The outcome of a call: a value, or a thrown (rejected) error. *)
Inductive result (A : Type) : Type :=
| Ok (a : A)
| Throw (e : jserr).
Arguments Ok {A} a.
Arguments Throw {A} e.

Definition rbind {A B} (m : result A) (k : A -> result B) : result B :=
  match m with Ok a => k a | Throw e => Throw e end.

Notation "'let!' x ':=' m 'in' k" := (rbind m (fun x => k))
  (at level 200, x name, m at level 100, k at level 200) : js_scope.

Definition is_ok {A} (m : result A) : bool :=
  match m with Ok _ => true | Throw _ => false end.

(** ** JSON-like values

    What arrives from outside with no type: tool arguments, package.json, the
    policy file. A number is an integer or, for a non-integral or non-finite
    one, the text it prints as. *)
Inductive jsval : Type :=
| JUndef
| JNull
| JBool (b : bool)
| JNum (z : Z)
| JFrac (text : string)
| JStr (s : string)
| JArr (xs : list jsval)
| JObj (kvs : list (string * jsval)).

(** [v == null] *)
Definition is_nullish (v : jsval) : bool :=
  match v with JUndef | JNull => true | _ => false end.

(** The first binding of a key in an association list. *)
Fixpoint assoc {A} (k : string) (l : list (string * A)) : option A :=
  match l with
  | [] => None
  | (k', v) :: l' => if String.eqb k k' then Some v else assoc k l'
  end.

(** [v[k]] for an own key of an object; [undefined] otherwise. *)
Definition jget (k : string) (v : jsval) : jsval :=
  match v with
  | JObj kvs => match assoc k kvs with Some x => x | None => JUndef end
  | _ => JUndef
  end.

(** [xs.slice().sort((a, b) => key(b) - key(a))]: longest first, stable. *)
Fixpoint insert_desc {A} (key : A -> nat) (x : A) (l : list A) : list A :=
  match l with
  | [] => [x]
  | y :: l' => if (key y <=? key x)%nat then x :: l else y :: insert_desc key x l'
  end.

Definition sort_desc {A} (key : A -> nat) (l : list A) : list A :=
  foldr (insert_desc key) [] l.

(** [xs.sort()] on strings, by code units. *)
Fixpoint insert_str (x : string) (l : list string) : list string :=
  match l with
  | [] => [x]
  | y :: l' => if String.leb x y then x :: l else y :: insert_str x l'
  end.

Definition sort_str (l : list string) : list string := foldr insert_str [] l.

(** [map.set(k, v)] on an insertion-ordered [Map]. *)
Fixpoint assoc_set {A} (k : string) (v : A) (l : list (string * A)) : list (string * A) :=
  match l with
  | [] => [(k, v)]
  | (k', v') :: l' =>
      if String.eqb k k' then (k, v) :: l' else (k', v') :: assoc_set k v l'
  end.

(** ** Automation *)
Create HintDb js discriminated.

Ltac inv H := inversion H; subst; clear H.

(** Case analysis on the innermost [if]/[match] of the goal or a hypothesis. *)
Ltac split_match :=
  match goal with
  | |- context [match ?x with _ => _ end] =>
      lazymatch x with context [match _ with _ => _ end] => fail | _ => destruct x eqn:? end
  | H : context [match ?x with _ => _ end] |- _ =>
      lazymatch x with context [match _ with _ => _ end] => fail | _ => destruct x eqn:? end
  end.

Ltac bool_hyps :=
  repeat match goal with
  | H : _ && _ = true |- _ => apply andb_true_iff in H as [? ?]
  | H : _ || _ = false |- _ => apply orb_false_iff in H as [? ?]
  | H : negb _ = true |- _ => apply negb_true_iff in H
  | H : negb _ = false |- _ => apply negb_false_iff in H
  | H : (_ =? _)%string = true |- _ => apply String.eqb_eq in H
  | H : (_ =? _)%string = false |- _ => apply String.eqb_neq in H
  | H : (_ =? _)%nat = true |- _ => apply Nat.eqb_eq in H
  | H : (_ =? _)%nat = false |- _ => apply Nat.eqb_neq in H
  | H : (_ =? _)%Z = true |- _ => apply Z.eqb_eq in H
  | H : (_ =? _)%Z = false |- _ => apply Z.eqb_neq in H
  | H : (_ <=? _)%Z = true |- _ => apply Z.leb_le in H
  | H : (_ <=? _)%Z = false |- _ => apply Z.leb_gt in H
  | H : (_ <? _)%Z = true |- _ => apply Z.ltb_lt in H
  | H : (_ <? _)%Z = false |- _ => apply Z.ltb_ge in H
  | H : (_ <=? _)%nat = true |- _ => apply Nat.leb_le in H
  | H : (_ <=? _)%nat = false |- _ => apply Nat.leb_gt in H
  | H : (_ <? _)%nat = true |- _ => apply Nat.ltb_lt in H
  | H : (_ <? _)%nat = false |- _ => apply Nat.ltb_ge in H
  | H : bool_decide _ = true |- _ => apply bool_decide_eq_true in H
  | H : bool_decide _ = false |- _ => apply bool_decide_eq_false in H
  end.

(** ** Lemmas on strings *)

Lemma sapp_cons x (a b : string) : String x a +:+ b = String x (a +:+ b).
Proof. done. Qed.

Lemma sapp_nil_l (b : string) : "" +:+ b = b.
Proof. done. Qed.

Lemma sapp_assoc (a b c : string) : (a +:+ b) +:+ c = a +:+ (b +:+ c).
Proof. induction a as [|x a IH]; [done|]. by rewrite !sapp_cons, IH. Qed.

Lemma sapp_nil_r (a : string) : a +:+ "" = a.
Proof. induction a as [|x a IH]; [done|]. by rewrite sapp_cons, IH. Qed.

Lemma sapp_length (a b : string) :
  String.length (a +:+ b) = (String.length a + String.length b)%nat.
Proof. induction a as [|x a IH]; [done|]. rewrite sapp_cons. cbn. by rewrite IH. Qed.

Lemma sapp_inj_l (a b c : string) : a +:+ b = a +:+ c -> b = c.
Proof. induction a as [|x a IH]; [done|]. rewrite !sapp_cons. intros [=]. auto. Qed.

Lemma starts_with_iff p s : starts_with p s = true <-> exists u, s = p +:+ u.
Proof.
  revert s. induction p as [|x p IH]; intros s; simpl.
  - split; [by exists s|done].
  - destruct s as [|y s].
    + split; [done|]. intros [u [=]].
    + rewrite andb_true_iff, Ascii.eqb_eq, IH. split.
      * intros [-> [u ->]]. by exists u.
      * intros [u Hu]. rewrite sapp_cons in Hu. inv Hu. eauto.
Qed.

Lemma starts_with_app p u : starts_with p (p +:+ u) = true.
Proof. apply starts_with_iff. by exists u. Qed.

Lemma sdrop_app a b : sdrop (String.length a) (a +:+ b) = b.
Proof. induction a as [|x a IH]; [by destruct b|done]. Qed.

Lemma sdrop_all a : sdrop (String.length a) a = "".
Proof. induction a as [|x a IH]; done. Qed.

Lemma sdrop_0 a : sdrop 0 a = a.
Proof. by destruct a. Qed.

Lemma stake_app a b : stake (String.length a) (a +:+ b) = a.
Proof. induction a as [|x a IH]; [by destruct b|]. cbn. f_equal. done. Qed.

Lemma stake_sdrop n s : stake n s +:+ sdrop n s = s.
Proof.
  revert s. induction n as [|n IH]; intros [|c s]; cbn; try done.
  rewrite sapp_cons. by rewrite IH.
Qed.

Lemma stake_stake_app n m s : stake n s +:+ stake m (sdrop n s) = stake (n + m) s.
Proof. revert s. induction n as [|n IH]; intros [|c s]; cbn; [done|done|by destruct m|]. by rewrite sapp_cons, IH. Qed.

Lemma stake_stake n m s : (n <= m)%nat -> stake n (stake m s) = stake n s.
Proof. revert m s. induction n as [|n IH]; intros [|m] [|c s] Hle; cbn; try done; [lia|]. f_equal. apply IH. lia. Qed.

Lemma stake_all n s : (String.length s <= n)%nat -> stake n s = s.
Proof. revert n. induction s as [|c s IH]; intros [|n] H; cbn in *; [done|done|lia|]. f_equal. apply IH. lia. Qed.

Lemma stake_length n s : String.length (stake n s) = (n `min` String.length s)%nat.
Proof. revert n. induction s as [|c s IH]; intros [|n]; cbn; [done..|]. by rewrite IH. Qed.

Lemma sdrop_length n s : String.length (sdrop n s) = (String.length s - n)%nat.
Proof. revert n. induction s as [|c s IH]; intros [|n]; cbn; [done..|]. by rewrite IH. Qed.

Lemma has_char_app c a b : has_char c (a +:+ b) = has_char c a || has_char c b.
Proof.
  induction a as [|x a IH]; [done|]. rewrite sapp_cons. cbn. rewrite IH.
  by rewrite orb_assoc.
Qed.

Lemma ends_with_iff p s : ends_with p s = true <-> exists u, s = u +:+ p.
Proof.
  unfold ends_with. split.
  - intros H. apply andb_true_iff in H as [_ H]. apply String.eqb_eq in H.
    exists (stake (String.length s - String.length p) s).
    rewrite <-(stake_sdrop (String.length s - String.length p) s) at 1.
    by rewrite H.
  - intros [u ->]. rewrite sapp_length.
    replace (String.length u + String.length p - String.length p)%nat
      with (String.length u) by lia.
    rewrite sdrop_app, String.eqb_refl, andb_true_r.
    apply Nat.leb_le. lia.
Qed.

(** *** Splitting and joining *)

Lemma split_on_nonempty c s : split_on c s <> [].
Proof. destruct s as [|d s]; cbn; [done|]. repeat split_match; done. Qed.

Lemma split_on_none c s : has_char c s = false -> split_on c s = [s].
Proof.
  induction s as [|d s IH]; cbn; [done|].
  intros H. apply orb_false_iff in H as [-> H]. by rewrite IH.
Qed.

Lemma split_on_app c a b :
  has_char c a = false -> split_on c (a +:+ String c b) = a :: split_on c b.
Proof.
  induction a as [|d a IH]; intros H.
  - rewrite sapp_nil_l. cbn. by rewrite Ascii.eqb_refl.
  - rewrite sapp_cons. cbn in H |- *. apply orb_false_iff in H as [-> H]. by rewrite (IH H).
Qed.

Lemma split_on_parts c s : Forall (fun w => has_char c w = false) (split_on c s).
Proof.
  induction s as [|d s IH]; cbn; [by constructor|].
  destruct (Ascii.eqb c d) eqn:E; [by constructor|].
  destruct (split_on c s) as [|w ws]; [constructor; [|done]; cbn; by rewrite E|].
  inv IH. constructor; [|done]. cbn. by rewrite E.
Qed.

Lemma split_join c xs :
  xs <> [] -> Forall (fun w => has_char c w = false) xs ->
  split_on c (join (String c "") xs) = xs.
Proof.
  intros Hne H. induction H as [|x xs Hx Hxs IH]; [done|].
  destruct xs as [|y ys].
  - cbn. by apply split_on_none.
  - change (join (String c "") (x :: y :: ys)) with (x +:+ String c (join (String c "") (y :: ys))).
    rewrite split_on_app by done. by rewrite IH.
Qed.

Lemma join_cons sep x xs :
  xs <> [] -> join sep (x :: xs) = x +:+ sep +:+ join sep xs.
Proof. by destruct xs. Qed.

Lemma join_cons_char sep c w ws : join sep (String c w :: ws) = String c (join sep (w :: ws)).
Proof. by destruct ws. Qed.

Lemma join_split c s : join (String c "") (split_on c s) = s.
Proof.
  induction s as [|d s IH]; cbn [split_on]; [done|].
  destruct (Ascii.eqb_spec c d) as [->|Hne].
  - rewrite join_cons by apply split_on_nonempty. by rewrite IH.
  - destruct (split_on c s) as [|w ws] eqn:E; [by destruct (split_on_nonempty c s)|].
    by rewrite join_cons_char, IH.
Qed.

Lemma includes_spec {A} `{EqDecision A} (x : A) xs : includes x xs = true <-> x ∈ xs.
Proof. apply bool_decide_eq_true. Qed.

Lemma includes_false {A} `{EqDecision A} (x : A) xs : includes x xs = false <-> x ∉ xs.
Proof. apply bool_decide_eq_false. Qed.

(** ** Lemmas on results and lists *)

Lemma rbind_ok {A B} (m : result A) (k : A -> result B) b :
  rbind m k = Ok b -> exists a, m = Ok a /\ k a = Ok b.
Proof. destruct m; cbn; [eauto|done]. Qed.

Lemma find_some_first {A} (f : A -> bool) l x :
  List.find f l = Some x ->
  exists l1 l2, l = l1 ++ x :: l2 /\ f x = true /\ Forall (fun y => f y = false) l1.
Proof.
  induction l as [|a l IH]; cbn; [done|].
  destruct (f a) eqn:E.
  - intros [= ->]. by exists [], l.
  - intros H. destruct (IH H) as (l1 & l2 & -> & Hx & Hl1).
    exists (a :: l1), l2. split; [done|]. split; [done|]. by constructor.
Qed.

Lemma existsb_false_forall {A} (f : A -> bool) l :
  existsb f l = false <-> Forall (fun y => f y = false) l.
Proof.
  induction l as [|a l IH]; cbn; [by split; constructor|].
  rewrite orb_false_iff, IH, Forall_cons. done.
Qed.

(** *** Sorting *)

Lemma insert_desc_perm {A} (key : A -> nat) x l : insert_desc key x l ≡ₚ x :: l.
Proof.
  induction l as [|y l IH]; cbn; [done|]. split_match; [done|].
  rewrite IH. apply Permutation_swap.
Qed.

Lemma sort_desc_perm {A} (key : A -> nat) l : sort_desc key l ≡ₚ l.
Proof. induction l as [|x l IH]; cbn; [done|]. by rewrite insert_desc_perm, IH. Qed.

Lemma insert_desc_sorted {A} (key : A -> nat) x l :
  StronglySorted (fun a b => key b <= key a)%nat l ->
  StronglySorted (fun a b => key b <= key a)%nat (insert_desc key x l).
Proof.
  induction 1 as [|y l Hl IH Hy]; cbn; [by repeat constructor|].
  destruct (key y <=? key x)%nat eqn:E; bool_hyps.
  - constructor; [by constructor|]. constructor; [done|].
    eapply Forall_impl; [exact Hy|]. cbn. lia.
  - constructor; [done|]. rewrite insert_desc_perm. constructor; [lia|done].
Qed.

Lemma sort_desc_sorted {A} (key : A -> nat) l :
  StronglySorted (fun a b => key b <= key a)%nat (sort_desc key l).
Proof. induction l as [|x l IH]; cbn; [constructor|]. by apply insert_desc_sorted. Qed.

(** The first match in a longest-first list is a longest match. *)
Lemma find_longest {A} (key : A -> nat) (f : A -> bool) l x :
  List.find f (sort_desc key l) = Some x ->
  x ∈ l /\ f x = true /\ forall y, y ∈ l -> f y = true -> (key y <= key x)%nat.
Proof.
  intros H. destruct (find_some_first _ _ _ H) as (l1 & l2 & Hl & Hx & Hl1).
  assert (Hmem : forall y, y ∈ l <-> y ∈ l1 ++ x :: l2)
    by (intros y; by rewrite <-Hl, sort_desc_perm).
  split; [|split]; [rewrite Hmem; set_solver|done|].
  intros y Hy Hfy. rewrite Hmem in Hy.
  apply elem_of_app in Hy as [Hy|Hy].
  - rewrite Forall_forall in Hl1. specialize (Hl1 y Hy). congruence.
  - apply elem_of_cons in Hy as [->|Hy]; [done|].
    pose proof (sort_desc_sorted key l) as Hs. rewrite Hl in Hs.
    apply StronglySorted_app_1_r in Hs.
    inv Hs. rewrite Forall_forall in H3. by apply H3.
Qed.

Lemma find_none_forall {A} (f : A -> bool) l :
  List.find f l = None <-> forall y, y ∈ l -> f y = false.
Proof.
  split.
  - intros H y Hy. apply (List.find_none f l H). by apply list_elem_of_In.
  - induction l as [|a l IH]; cbn; [done|]. intros H.
    rewrite (H a) by set_solver. apply IH. set_solver.
Qed.

Lemma insert_str_perm x l : insert_str x l ≡ₚ x :: l.
Proof.
  induction l as [|y l IH]; cbn; [done|]. split_match; [done|].
  rewrite IH. apply Permutation_swap.
Qed.

Lemma sort_str_perm l : sort_str l ≡ₚ l.
Proof. induction l as [|x l IH]; cbn; [done|]. by rewrite insert_str_perm, IH. Qed.

Lemma assoc_elem {A} k (v : A) l : assoc k l = Some v -> (k, v) ∈ l.
Proof.
  induction l as [|[k' v'] l IH]; cbn; [done|].
  destruct (String.eqb_spec k k') as [->|]; [intros [= ->]; set_solver|]. right. auto.
Qed.


Lemma assoc_distinct {A} k (v : A) l : NoDup (map fst l) -> (k, v) ∈ l -> assoc k l = Some v.
Proof.
  induction l as [|[k' v'] l IH]; cbn; [by intros _ ?%not_elem_of_nil|].
  rewrite NoDup_cons. intros [Hk Hl] [[= -> ->]|Hin]%elem_of_cons; [by rewrite String.eqb_refl|].
  destruct (String.eqb_spec k k') as [->|]; [|by apply IH]. destruct Hk. apply list_elem_of_fmap. by exists (k', v).
Qed.

Lemma assoc_app {A} k (l1 l2 : list (string * A)) :
  assoc k (l1 ++ l2) = match assoc k l1 with Some v => Some v | None => assoc k l2 end.
Proof. induction l1 as [|[a b] l1 IH]; cbn; [done|]. by destruct (String.eqb k a). Qed.

Lemma assoc_set_lookup {A} k (v : A) l k' :
  assoc k' (assoc_set k v l) = if String.eqb k' k then Some v else assoc k' l.
Proof.
  induction l as [|[a b] l IH]; cbn; [done|].
  destruct (String.eqb_spec k a) as [->|Hne]; cbn.
  - by destruct (String.eqb_spec k' a).
  - rewrite IH. destruct (String.eqb_spec k' a) as [->|]; [|done].
    destruct (String.eqb_spec a k); congruence.
Qed.

Lemma assoc_set_keys {A} k (v : A) l :
  map fst (assoc_set k v l) = if bool_decide (k ∈ map fst l) then map fst l else map fst l ++ [k].
Proof.
  induction l as [|[a b] l IH]; [done|]. cbn [assoc_set map fst].
  destruct (String.eqb_spec k a) as [->|Hne].
  - cbn. rewrite bool_decide_eq_true_2 by set_solver. done.
  - cbn [map fst]. rewrite IH. repeat case_bool_decide; try done; set_solver.
Qed.

Lemma assoc_in_keys {A} k (l : list (string * A)) :
  assoc k l <> None <-> k ∈ map fst l.
Proof.
  induction l as [|[a b] l IH]; cbn; [set_solver|].
  destruct (String.eqb_spec k a) as [->|Hne]; [set_solver|].
  rewrite IH. set_solver.
Qed.

Lemma NoDup_snoc {A} (l : list A) x : NoDup l -> x ∉ l -> NoDup (l ++ [x]).
Proof.
  intros H Hx. apply NoDup_app. split; [done|]. split; [|apply NoDup_singleton].
  intros y Hy. rewrite list_elem_of_singleton. by intros ->.
Qed.

Lemma NoDup_map_snoc {A B} (f : A -> B) l x : NoDup (map f l) -> f x ∉ map f l -> NoDup (map f (l ++ [x])).
Proof. rewrite map_app. apply NoDup_snoc. Qed.

Lemma map_NoDup_filter {A B} (f : A -> B) (p : A -> bool) l : NoDup (map f l) -> NoDup (map f (List.filter p l)).
Proof.
  induction l as [|x l IH]; [done|]. cbn. intros [Hx Hn]%NoDup_cons. destruct (p x); [|by apply IH]. cbn. apply NoDup_cons.
  split; [|by apply IH]. intros H. apply Hx. apply list_elem_of_fmap in H as (y & Ey & Hy).
  apply list_elem_of_In, filter_In in Hy as [Hy _]. apply list_elem_of_fmap. exists y. split; [done|]. by apply list_elem_of_In.
Qed.

Lemma assoc_filter {A} (f : string * A -> bool) l id v :
  NoDup (map fst l) -> assoc id (List.filter f l) = Some v -> assoc id l = Some v.
Proof.
  intros Hn Ha. apply assoc_distinct; [done|]. apply assoc_elem in Ha. apply list_elem_of_In, List.filter_In in Ha as [Ha _].
  by apply list_elem_of_In.
Qed.

Lemma assoc_filter_keep {A} (f : string * A -> bool) l id v :
  NoDup (map fst l) -> assoc id l = Some v -> f (id, v) = true -> assoc id (List.filter f l) = Some v.
Proof.
  intros Hn Ha Hf. apply assoc_distinct; [by apply map_NoDup_filter|]. apply list_elem_of_In, List.filter_In.
  split; [|done]. apply list_elem_of_In. by apply assoc_elem.
Qed.

Lemma assoc_set_NoDup {A} k (v : A) l : NoDup (map fst l) -> NoDup (map fst (assoc_set k v l)).
Proof. intros H. rewrite assoc_set_keys. case_bool_decide; [done|]. by apply NoDup_snoc. Qed.

Lemma assoc_filter_key {A} (h : string -> bool) (l : list (string * A)) id :
  h id = true -> assoc id (List.filter (fun kv => h kv.1) l) = assoc id l.
Proof.
  intros Hh. induction l as [|[k v] l IH]; [done|]. cbn. destruct (h k) eqn:Hk; cbn; rewrite IH; [done|].
  destruct (String.eqb_spec id k); congruence.
Qed.

Lemma Forall_filter_ok {A} (P : A -> Prop) (p : A -> bool) l : Forall P l -> Forall P (List.filter p l).
Proof. intros H. induction H; cbn; [constructor|]. case_match; [by constructor|done]. Qed.

#[export] Hint Rewrite sapp_assoc sapp_nil_r sapp_length sdrop_app sdrop_all : js.
#[export] Hint Resolve starts_with_app split_on_nonempty split_on_parts : js.

(** *** Decimal text *)

Fixpoint parse_nat_from (a : nat) (s : string) : nat :=
  match s with
  | EmptyString => a
  | String c s' => parse_nat_from (a * 10 + (nat_of_ascii c - 48)) s'
  end.

Lemma digit_value d : (d < 10)%nat -> (nat_of_ascii (digit d) - 48 = d)%nat.
Proof. intros H. unfold digit. rewrite nat_ascii_embedding by lia. lia. Qed.

Lemma parse_nat_text_fuel fuel n acc :
  (n < fuel)%nat -> parse_nat_from 0 (nat_text_fuel fuel n acc) = parse_nat_from n acc.
Proof.
  revert n acc. induction fuel as [|f IH]; intros n acc Hn; [lia|]. cbn [nat_text_fuel].
  destruct (n <? 10)%nat eqn:E; bool_hyps.
  - cbn [parse_nat_from]. rewrite digit_value by (apply Nat.mod_upper_bound; lia).
    rewrite Nat.mod_small by lia. f_equal; lia.
  - rewrite IH by (apply Nat.lt_le_trans with n; [apply Nat.div_lt; lia|lia]). cbn [parse_nat_from].
    rewrite digit_value by (apply Nat.mod_upper_bound; lia). f_equal.
    pose proof (Nat.div_mod n 10 ltac:(lia)). lia.
Qed.

Lemma nat_text_inj a b : nat_text a = nat_text b -> a = b.
Proof.
  intros H. pose proof (parse_nat_text_fuel (S a) a "" ltac:(lia)) as Ha.
  pose proof (parse_nat_text_fuel (S b) b "" ltac:(lia)) as Hb.
  unfold nat_text in H. rewrite H in Ha. cbn [parse_nat_from] in Ha, Hb. congruence.
Qed.
