(* ===== verification/Paths.v ===== *)
(** * POSIX path arithmetic

    What the program uses of Node's [path.posix]: [isAbsolute], [normalize],
    [resolve], [join], [dirname], [basename]. Paths are strings; a path is
    split at its slashes into segments, and the ".." and "." segments are
    resolved on a stack, as [normalizeString] does. *)
From Stdlib Require Import Ascii String.
From stdpp Require Import prelude strings gmap.
From S2P Require Import Prelude.

Definition slash : ascii := "/"%char.

(** [path.posix.isAbsolute] *)
Definition is_absolute (p : string) : bool := starts_with "/" p.

(** One segment of [normalizeString(path, allowAboveRoot)], on the reversed
    stack of the segments kept so far. *)
Definition push_seg (above : bool) (st : list string) (seg : string) : list string :=
  if (String.eqb seg "" || String.eqb seg ".")%bool then st
  else if String.eqb seg ".." then
    match st with
    | top :: rest => if String.eqb top ".." then (if above then seg :: st else st) else rest
    | [] => if above then [seg] else []
    end
  else seg :: st.

Definition normalize_segs (above : bool) (segs : list string) : list string :=
  rev (fold_left (push_seg above) segs []).

Definition normalize_string (p : string) (above : bool) : string :=
  join "/" (normalize_segs above (split_on slash p)).

(** [path.posix.normalize] *)
Definition normalize (p : string) : string :=
  if String.eqb p "" then "."
  else
    let abs := is_absolute p in
    let trailing := ends_with "/" p in
    let n := normalize_string p (negb abs) in
    if String.eqb n "" then (if abs then "/" else if trailing then "./" else ".")
    else
      let n' := if trailing then n +:+ "/" else n in
      if abs then "/" +:+ n' else n'.

(** The unresolved path [path.posix.resolve] builds: the parts from the last
    absolute one on, each followed by a slash; [pcwd] is [process.cwd()],
    always absolute. *)
Fixpoint resolve_raw (pcwd : string) (rparts : list string) (acc : string) : string :=
  match rparts with
  | [] => pcwd +:+ "/" +:+ acc
  | p :: rest =>
      if String.eqb p "" then resolve_raw pcwd rest acc
      else let acc' := p +:+ "/" +:+ acc in
           if is_absolute p then acc' else resolve_raw pcwd rest acc'
  end.

(** [path.posix.resolve(...parts)] *)
Definition resolve (pcwd : string) (parts : list string) : string :=
  "/" +:+ normalize_string (resolve_raw pcwd (rev parts) "") false.

(** [path.posix.join(...parts)] *)
Definition path_join (parts : list string) : string :=
  let nonempty := List.filter (fun p => negb (String.eqb p "")) parts in
  match nonempty with
  | [] => "."
  | _ => normalize (join "/" nonempty)
  end.

Fixpoint drop_while (f : ascii -> bool) (s : list ascii) : list ascii :=
  match s with
  | c :: s' => if f c then drop_while f s' else s
  | [] => []
  end.

Fixpoint take_while (f : ascii -> bool) (s : list ascii) : list ascii :=
  match s with
  | c :: s' => if f c then c :: take_while f s' else []
  | [] => []
  end.

Definition is_slash (c : ascii) : bool := Ascii.eqb c slash.

(** [path.posix.dirname] *)
Definition dirname (p : string) : string :=
  match p with
  | EmptyString => "."
  | String c t =>
      let r := drop_while is_slash (rev (list_ascii_of_string t)) in
      let r := drop_while (fun d => negb (is_slash d)) r in
      match r with
      | [] => if is_slash c then "/" else "."
      | [_] => if is_slash c then "//" else String c EmptyString
      | _ :: r' => String c (string_of_list_ascii (rev r'))
      end
  end.

(** [path.posix.basename] *)
Definition basename (p : string) : string :=
  let r := drop_while is_slash (rev (list_ascii_of_string p)) in
  string_of_list_ascii (rev (take_while (fun d => negb (is_slash d)) r)).

(** [path.posix.extname]: the text from the last dot of the base name on,
    empty when there is none or it starts the name. *)
Definition is_dot (c : ascii) : bool := Ascii.eqb c "."%char.

Definition extname (p : string) : string :=
  let b := rev (list_ascii_of_string (basename p)) in
  let ext := take_while (fun d => negb (is_dot d)) b in
  match drop_while (fun d => negb (is_dot d)) b with
  | [] => ""
  | _ :: [] => ""
  | dot :: before =>
      if (forallb is_dot (dot :: before) && Nat.eqb (List.length ext) 0 && Nat.eqb (List.length before) 1)%bool
      then "" else string_of_list_ascii (dot :: rev ext)
  end.

(** ** Canonical paths *)

(** A segment that names something: neither empty nor "." nor "..", and with
    no slash in it. *)
Definition good_seg (w : string) : Prop :=
  w <> "" /\ w <> "." /\ w <> ".." /\ has_char slash w = false.

Definition canonical (p : string) : Prop :=
  exists segs, p = "/" +:+ join "/" segs /\ Forall good_seg segs.

Lemma push_seg_good st w :
  Forall good_seg st -> has_char slash w = false -> Forall good_seg (push_seg false st w).
Proof.
  intros Hst Hw. unfold push_seg.
  destruct (String.eqb_spec w ""); [done|].
  destruct (String.eqb_spec w "."); [done|]. cbn [orb].
  destruct (String.eqb_spec w "..").
  - destruct Hst as [|top rest Htop Hrest]; [done|].
    destruct (String.eqb_spec top ".."); [by constructor|done].
  - by constructor.
Qed.

Lemma normalize_segs_good segs :
  Forall (fun w => has_char slash w = false) segs ->
  Forall good_seg (normalize_segs false segs).
Proof.
  intros H. unfold normalize_segs. apply Forall_rev.
  assert (Hacc : Forall good_seg []) by constructor.
  revert H Hacc. generalize (@nil string) as st.
  induction segs as [|w segs IH]; intros st H Hacc; [done|]. inv H.
  cbn. apply IH; [done|]. by apply push_seg_good.
Qed.

(** Whatever it is given, [resolve] answers a canonical absolute path: no
    ".." and no "." survives it. *)
Lemma resolve_canonical pcwd parts : canonical (resolve pcwd parts).
Proof.
  eexists. split; [done|]. apply normalize_segs_good, split_on_parts.
Qed.

Lemma normalize_segs_id segs :
  Forall good_seg segs -> normalize_segs false segs = segs.
Proof.
  intros H. unfold normalize_segs.
  enough (Hgen : forall st, rev (fold_left (push_seg false) segs st) = rev st ++ segs)
    by apply (Hgen []).
  induction H as [|w segs Hw Hs IH]; intros st; cbn.
  - by rewrite app_nil_r.
  - rewrite IH. destruct Hw as (H1 & H2 & H3 & _). unfold push_seg.
    apply String.eqb_neq in H1, H2, H3. rewrite H1, H2, H3. cbn.
    by rewrite <-app_assoc.
Qed.

Lemma good_seg_no_slash segs :
  Forall good_seg segs -> Forall (fun w => has_char slash w = false) segs.
Proof. intros H. eapply Forall_impl; [done|]. by intros w (_ & _ & _ & Hw). Qed.

Lemma fold_push_empty above st : push_seg above st "" = st.
Proof. done. Qed.

Lemma split_on_snoc c a b :
  split_on c (a +:+ String c b) = split_on c a ++ split_on c b.
Proof.
  induction a as [|d a IH].
  - rewrite sapp_nil_l. cbn. by rewrite Ascii.eqb_refl.
  - rewrite sapp_cons. cbn. destruct (Ascii.eqb c d); [by rewrite IH|].
    rewrite IH. destruct (split_on c a) eqn:E; [by destruct (split_on_nonempty c a)|done].
Qed.

Lemma normalize_string_segs segs :
  Forall good_seg segs ->
  normalize_string ("/" +:+ join "/" segs +:+ "/") false = join "/" segs.
Proof.
  intros H. unfold normalize_string, normalize_segs.
  change ("/" +:+ join "/" segs +:+ "/") with ("" +:+ String slash (join "/" segs +:+ String slash "")).
  rewrite split_on_app by done. rewrite split_on_snoc.
  cbn [fold_left]. rewrite fold_push_empty, fold_left_app. cbn [split_on fold_left].
  rewrite fold_push_empty.
  destruct segs as [|w ws].
  - done.
  - change "/" with (String slash "") at 2.
    rewrite split_join by (done || by apply good_seg_no_slash).
    fold (normalize_segs false (w :: ws)). by rewrite normalize_segs_id.
Qed.

(** [resolve] leaves a canonical path as it is, whatever precedes it. *)
Lemma resolve_canonical_id pcwd parts p :
  canonical p -> resolve pcwd (parts ++ [p]) = p.
Proof.
  intros (segs & -> & H). unfold resolve. rewrite rev_app_distr. cbn [rev app resolve_raw].
  change (String.eqb ("/" +:+ join "/" segs) "") with false. cbn iota zeta.
  change (is_absolute ("/" +:+ join "/" segs)) with true. cbn iota.
  rewrite sapp_assoc, sapp_nil_r. by rewrite normalize_string_segs.
Qed.

#[export] Hint Resolve resolve_canonical : js.

(** The path of some segments. *)
Definition path_of (segs : list string) : string := "/" +:+ join "/" segs.

Lemma split_path segs : Forall good_seg segs -> segs <> [] -> split_on slash (path_of segs) = "" :: segs.
Proof.
  intros H Hne. unfold path_of. change ("/" +:+ join "/" segs) with ("" +:+ String slash (join "/" segs)).
  rewrite split_on_app by done. f_equal. change "/" with (String slash ""). rewrite split_join; [done|done|by apply good_seg_no_slash].
Qed.

(** [p] is [q] or below it: some segments more, each naming something. *)
Definition within_path (p q : string) : Prop :=
  exists a b, a <> [] /\ Forall good_seg (a ++ b) /\ q = path_of a /\ p = path_of (a ++ b).

Lemma canonical_path p : canonical p -> p <> "/" -> exists a, a <> [] /\ Forall good_seg a /\ p = path_of a.
Proof. intros (a & -> & Ha) Hne. exists a. split; [by intros ->|done]. Qed.

Lemma within_path_refl p : canonical p -> p <> "/" -> within_path p p.
Proof.
  intros Hc Hne. destruct (canonical_path p Hc Hne) as (a & Ha & Hg & ->). exists a, []. by rewrite app_nil_r.
Qed.

Lemma within_path_below p q : canonical p -> canonical q -> q <> "/" -> starts_with (q +:+ "/") p = true -> within_path p q.
Proof.
  intros Hp Hq Hne [u Hu]%starts_with_iff. destruct (canonical_path q Hq Hne) as (a & Ha & Hga & ->).
  destruct (decide (p = "/")) as [->|Hp'].
  { unfold path_of in Hu. change "/" with (String slash "") in Hu. rewrite !sapp_cons, !sapp_nil_l in Hu. injection Hu as Hu.
    by destruct (join (String slash "") a). }
  destruct (canonical_path p Hp Hp') as (b & Hb & Hgb & ->).
  pose proof (split_path b Hgb Hb) as E. rewrite Hu, sapp_assoc in E. change ("/" +:+ u) with (String slash u) in E.
  rewrite split_on_snoc, (split_path a Hga Ha) in E. injection E as E. exists a, (split_on slash u). by rewrite E.
Qed.

(** An absolute path [normalize] leaves alone, and that does not end in a
    slash, is canonical. *)
Lemma normalize_fixed_canonical p :
  is_absolute p = true -> normalize p = p -> ends_with "/" p = false -> canonical p.
Proof.
  intros Habs Hn Ht. unfold normalize in Hn. rewrite Habs, Ht in Hn. cbn [negb] in Hn.
  destruct (String.eqb_spec p ""); [by subst|].
  destruct (String.eqb_spec (normalize_string p false) "") as [E|E].
  - by subst p.
  - exists (normalize_segs false (split_on slash p)). split; [by rewrite <-Hn at 1|].
    apply normalize_segs_good, split_on_parts.
Qed.
