(* ===== verification/Namespace.v ===== *)
(** * A module's file namespace (lib/fs-broker/namespace.js)

    The virtual roots /app, /data, /tmp and the declared paths, the
    synthesised directories above them, and everything else ("outside").
    [prepare] resolves every root once; [resolve_path], [root_for_real] and
    [to_virtual] are then pure path arithmetic. *)
From Stdlib Require Import Ascii String.
From stdpp Require Import prelude strings gmap.
From S2P Require Import Prelude Paths.

Set Default Proof Using "Type".

(** ** Data *)

Inductive access := R | RW.

#[export] Instance access_eq_dec : EqDecision access.
Proof. solve_decision. Defined.

(** What [typeOf] answers for a host path. *)
Inductive ftype := TDir | TFile | TMissing.

#[export] Instance ftype_eq_dec : EqDecision ftype.
Proof. solve_decision. Defined.

Record root := mkRoot {
  r_vroot : string;
  r_host : string;
  r_access : access;
  r_writable : bool;
  r_quota : bool;
  r_name : string;
  r_real : string;
  r_type : ftype
}.

#[export] Instance root_eq_dec : EqDecision root.
Proof. solve_decision. Defined.

Record decl := mkDecl { d_path : string; d_access : access }.

(** The configuration [createNamespace] takes. *)
Record ns_config := mkCfg {
  cfg_moduleRoot : string;
  cfg_dataDir : string;
  cfg_tmpDir : string;
  cfg_declared : list decl;
  cfg_protectedPaths : list string
}.

(** [self], with the three sorted copies of the roots [prepare] keeps. *)
Record namespace := mkNs {
  ns_roots : list root;
  ns_byVroot : list root;
  ns_byReal : list root;
  ns_byHost : list root;
  ns_refused : list (string * string);
  ns_prepared : bool
}.

Definition createNamespace : namespace := mkNs [] [] [] [] [] false.

(** A path argument as it reaches the broker. *)
Inductive pathval :=
| PStr (s : string)
| PBuffer (s : string)     (* decoded as UTF-8 *)
| PUrl (href : string)
| POther.

Inductive child_type := CFile | CDir.

#[export] Instance child_type_eq_dec : EqDecision child_type.
Proof. solve_decision. Defined.

Inductive resolved :=
| RRoot (virtual host : string) (r : root)
| RAncestor (virtual : string) (children : list (string * child_type))
| ROutside (virtual : string).

(** ** Operations *)

Definition inside (p root : string) : bool :=
  String.eqb p root || starts_with (if String.eqb root "/" then "/" else root +:+ "/") p.

Section WithHost.
(** [url.fileURLToPath] and the process's working directory. *)
Context (fileURLToPath : string -> result string) (process_cwd : string).

Definition invalid_path : jserr := plain_error "path must be a string, Buffer or file URL".
Definition null_byte : jserr := coded_error "ERR_INVALID_ARG_VALUE" "path must not contain null bytes".

Definition toVirtualPath (p : pathval) (cwd : string) : result string :=
  let! s := match p with
            | PBuffer s => Ok s
            | PUrl u => fileURLToPath u
            | PStr s => if starts_with "file:" s then fileURLToPath s else Ok s
            | POther => Throw invalid_path
            end in
  if has_char zero s then Throw null_byte
  else Ok (resolve process_cwd [if String.eqb cwd "" then "/" else cwd; s]).

(** The paths the parent of a --hardened relaunch resolved
    (lib/hardened-realpaths.js), keyed as [path.resolve] spells them; [None]
    outside --hardened. *)
Context (known : option (list (string * string))).
(** [fs.realpath] and [fs.stat] of the host. *)
Context (fs_realpath : string -> option string) (fs_stat_isdir : string -> option bool).

Definition hardened_has (p : string) : bool :=
  match known with
  | None => false
  | Some m => match assoc (resolve process_cwd [p]) m with Some _ => true | None => false end
  end.

Definition hardened_realpathSync (p : string) : option string :=
  if hardened_has p
  then match known with Some m => assoc (resolve process_cwd [p]) m | None => None end
  else fs_realpath p.

Definition realOf (p : string) : string :=
  if hardened_has p then default p (hardened_realpathSync p) else default p (fs_realpath p).

Definition typeOf (p : string) : ftype :=
  match fs_stat_isdir p with Some true => TDir | Some false => TFile | None => TMissing end.

(** The test under which a declared path is refused. *)
Definition overlaps (d : decl) (pr : string * string) : bool :=
  let '(text, preal) := pr in
  inside text (d_path d) || inside (d_path d) text ||
  inside preal (realOf (d_path d)) || inside (realOf (d_path d)) preal.

Fixpoint screen_declared (prot : list (string * string)) (ds : list decl)
  : list decl * list (string * string) :=
  match ds with
  | [] => ([], [])
  | d :: rest =>
      let '(kept, refused) := screen_declared prot rest in
      match List.find (overlaps d) prot with
      | Some clash => (kept, (d_path d, "overlaps countinghouse's " +:+ clash.1) :: refused)
      | None => (d :: kept, refused)
      end
  end.

Definition with_host (vroot host : string) (a : access) (writable quota : bool) (name : string) : root :=
  mkRoot vroot host a writable quota name (realOf host) (typeOf host).

Definition base_roots (cfg : ns_config) (kept : list decl) : list root :=
  [ with_host "/app" (cfg_moduleRoot cfg) R false false "app";
    with_host "/data" (cfg_dataDir cfg) RW true true "data";
    with_host "/tmp" (cfg_tmpDir cfg) RW true true "tmp" ] ++
  map (fun d => with_host (d_path d) (d_path d) (d_access d)
                  (bool_decide (d_access d = RW)) false "declared") kept.

Definition prepare (cfg : ns_config) : namespace :=
  let prot := map (fun p => (p, realOf p)) (cfg_protectedPaths cfg) in
  let '(kept, refused) := screen_declared prot (cfg_declared cfg) in
  let base := base_roots cfg kept in
  mkNs base
       (sort_desc (fun r => String.length (r_vroot r)) base)
       (sort_desc (fun r => String.length (r_real r)) base)
       (sort_desc (fun r => String.length (r_host r)) base)
       refused true.

(** The first component of [r]'s virtual root below the directory [v]. *)
Definition below_parts (v : string) (r : root) : list string :=
  split_on slash (sdrop (if String.eqb v "/" then 1 else String.length v + 1) (r_vroot r)).

Definition child_of (v : string) (r : root) : string * child_type :=
  let rest := below_parts v r in
  (hd "" rest,
   if (length rest =? 1)%nat && bool_decide (r_type r = TFile) then CFile else CDir).

Definition note_child (seen : list (string * child_type)) (c : string * child_type)
  : list (string * child_type) :=
  match assoc c.1 seen with
  | None => assoc_set c.1 c.2 seen
  | Some _ => if bool_decide (c.2 = CDir) then assoc_set c.1 c.2 seen else seen
  end.

Definition children_of (v : string) (below : list root) : list (string * child_type) :=
  let seen := fold_left note_child (map (child_of v) below) [] in
  map (fun name => (name, default CDir (assoc name seen))) (sort_str (map fst seen)).

Definition not_prepared : jserr := plain_error "namespace used before prepare()".

Definition resolve_virtual (ns : namespace) (v : string) : resolved :=
  match List.find (fun r => inside v (r_vroot r)) (ns_byVroot ns) with
  | Some r => RRoot v (r_host r +:+ sdrop (String.length (r_vroot r)) v) r
  | None =>
      match List.filter (fun r => inside (r_vroot r) v && negb (String.eqb (r_vroot r) v))
              (ns_byVroot ns) with
      | [] => ROutside v
      | below => RAncestor v (children_of v below)
      end
  end.

Definition resolve_path (ns : namespace) (p : pathval) (cwd : string) : result resolved :=
  if negb (ns_prepared ns) then Throw not_prepared
  else let! v := toVirtualPath p cwd in Ok (resolve_virtual ns v).

Definition rootForReal (ns : namespace) (real : string) : option root :=
  List.find (fun r => inside real (r_real r)) (ns_byReal ns).

Definition toVirtual (ns : namespace) (hostPath : string) : option string :=
  match rootForReal ns hostPath with
  | Some r => Some (r_vroot r +:+ sdrop (String.length (r_real r)) hostPath)
  | None =>
      match List.find (fun r => inside hostPath (r_host r)) (ns_byHost ns) with
      | Some r => Some (r_vroot r +:+ sdrop (String.length (r_host r)) hostPath)
      | None => None
      end
  end.

(** ** Lemmas *)

Lemma inside_refl p : inside p p = true.
Proof. unfold inside. by rewrite String.eqb_refl. Qed.

Lemma inside_iff p r : r <> "/" ->
  inside p r = true <-> p = r \/ exists u, p = r +:+ "/" +:+ u.
Proof.
  intros Hr. unfold inside. rewrite orb_true_iff, String.eqb_eq.
  apply String.eqb_neq in Hr. rewrite Hr, starts_with_iff.
  split; (intros [->|[u ->]]; [by left|right; exists u; by rewrite sapp_assoc]).
Qed.

Lemma inside_prefix p r : inside p r = true -> exists u, p = r +:+ u.
Proof.
  destruct (decide (r = "/")) as [->|Hr].
  - unfold inside. rewrite orb_true_iff, String.eqb_eq. cbn [String.eqb].
    intros [->|H]; [by exists ""|]. by apply starts_with_iff in H.
  - rewrite inside_iff by done. intros [->|[u ->]]; [exists ""; by rewrite sapp_nil_r|eauto].
Qed.

Lemma inside_trans a b c : c <> "/" -> b <> "/" ->
  inside a b = true -> inside b c = true -> inside a c = true.
Proof.
  intros Hc Hb. rewrite (inside_iff a b), (inside_iff b c), (inside_iff a c) by done.
  intros [->|[u ->]] [->|[w ->]]; eauto.
  right. exists (w +:+ "/" +:+ u). by rewrite !sapp_assoc.
Qed.

Lemma toVirtualPath_canonical p cwd v : toVirtualPath p cwd = Ok v -> canonical v.
Proof.
  unfold toVirtualPath. intros H. apply rbind_ok in H as (s & _ & H).
  destruct (has_char zero s); [done|]. inv H. apply resolve_canonical.
Qed.

Lemma screen_declared_kept prot ds d :
  d ∈ (screen_declared prot ds).1 <->
  d ∈ ds /\ forall pr, pr ∈ prot -> overlaps d pr = false.
Proof.
  clear fileURLToPath fs_stat_isdir.
  induction ds as [|d0 ds IH]; cbn; [set_solver|].
  destruct (screen_declared prot ds) as [kept refused]; cbn in IH |- *.
  destruct (List.find (overlaps d0) prot) as [clash|] eqn:E; cbn.
  - rewrite IH, elem_of_cons. split; [tauto|].
    intros [[->|Hd] Hall]; [|done].
    apply find_some in E as [Hin Hov]. apply list_elem_of_In in Hin.
    rewrite (Hall clash Hin) in Hov. done.
  - rewrite !elem_of_cons, IH. pose proof (proj1 (find_none_forall _ _) E).
    split; [intros [->|[]]; auto|]. intros [[->|] ?]; auto.
Qed.

Lemma screen_declared_length prot ds :
  (length (screen_declared prot ds).1 + length (screen_declared prot ds).2 = length ds)%nat.
Proof.
  induction ds as [|d ds IH]; cbn; [done|].
  destruct (screen_declared prot ds) as [kept refused]; cbn in IH |- *.
  split_match; cbn; lia.
Qed.

Lemma prepare_roots cfg :
  ns_roots (prepare cfg) =
  base_roots cfg (screen_declared (map (fun p => (p, realOf p)) (cfg_protectedPaths cfg))
                    (cfg_declared cfg)).1.
Proof. unfold prepare. by destruct (screen_declared _ _). Qed.

Lemma prepare_byVroot cfg :
  ns_byVroot (prepare cfg) = sort_desc (fun r => String.length (r_vroot r)) (ns_roots (prepare cfg)).
Proof. unfold prepare. by destruct (screen_declared _ _). Qed.

Lemma prepare_byReal cfg :
  ns_byReal (prepare cfg) = sort_desc (fun r => String.length (r_real r)) (ns_roots (prepare cfg)).
Proof. unfold prepare. by destruct (screen_declared _ _). Qed.

Lemma prepare_byHost cfg :
  ns_byHost (prepare cfg) = sort_desc (fun r => String.length (r_host r)) (ns_roots (prepare cfg)).
Proof. unfold prepare. by destruct (screen_declared _ _). Qed.

Lemma rootForReal_spec cfg real r :
  rootForReal (prepare cfg) real = Some r ->
  r ∈ ns_roots (prepare cfg) /\ inside real (r_real r) = true /\
  forall r', r' ∈ ns_roots (prepare cfg) -> inside real (r_real r') = true ->
             (String.length (r_real r') <= String.length (r_real r))%nat.
Proof.
  unfold rootForReal. rewrite prepare_byReal. intros H.
  by apply find_longest in H as (? & ? & ?).
Qed.

Lemma rootForReal_none cfg real :
  rootForReal (prepare cfg) real = None <->
  forall r, r ∈ ns_roots (prepare cfg) -> inside real (r_real r) = false.
Proof.
  unfold rootForReal. rewrite prepare_byReal, find_none_forall.
  split; intros H r Hr; apply H; by rewrite sort_desc_perm in *.
Qed.
End WithHost.

(** The entries of the children list come from one fold over the roots below. *)
Lemma note_child_keys seen c :
  map fst (note_child seen c) =
  if bool_decide (c.1 ∈ map fst seen) then map fst seen else map fst seen ++ [c.1].
Proof.
  unfold note_child. destruct (assoc c.1 seen) eqn:E.
  - assert (Hin : c.1 ∈ map fst seen) by (apply assoc_in_keys; congruence).
    rewrite (bool_decide_eq_true_2 (c.1 ∈ _)) by done.
    case_bool_decide; [|done]. rewrite assoc_set_keys. by rewrite bool_decide_eq_true_2.
  - by rewrite assoc_set_keys.
Qed.

Lemma fold_note_keys cs seen name :
  name ∈ map fst (fold_left note_child cs seen) <-> name ∈ map fst seen \/ name ∈ map fst cs.
Proof.
  revert seen. induction cs as [|c cs IH]; intros seen; cbn [fold_left map]; [set_solver|].
  rewrite IH, note_child_keys. case_bool_decide; set_solver.
Qed.

Lemma fold_note_nodup cs seen :
  NoDup (map fst seen) -> NoDup (map fst (fold_left note_child cs seen)).
Proof.
  revert seen. induction cs as [|c cs IH]; intros seen Hs; cbn; [done|].
  apply IH. rewrite note_child_keys. case_bool_decide; [done|].
  apply NoDup_app. split; [done|]. split; [set_solver|]. apply NoDup_singleton.
Qed.

Lemma note_child_lookup seen c name :
  assoc name (note_child seen c) =
  if String.eqb name c.1
  then match assoc c.1 seen with
       | None => Some c.2
       | Some t => Some (if bool_decide (c.2 = CDir) then CDir else t)
       end
  else assoc name seen.
Proof.
  unfold note_child. destruct (assoc c.1 seen) eqn:E; [case_bool_decide as H|].
  - rewrite assoc_set_lookup, H. done.
  - destruct (String.eqb_spec name c.1) as [->|]; [done|done].
  - by rewrite assoc_set_lookup.
Qed.

(** A name is listed as a file exactly when no root below it makes it a
    directory. *)
Lemma fold_note_type cs seen name :
  assoc name (fold_left note_child cs seen) = Some CFile <->
  (assoc name seen = Some CFile \/ assoc name seen = None /\ name ∈ map fst cs) /\
  (name, CDir) ∉ cs.
Proof.
  revert seen. induction cs as [|[n t] cs IH]; intros seen; cbn [fold_left map].
  - set_solver.
  - rewrite IH, note_child_lookup. cbn [fst snd map].
    destruct (String.eqb_spec name n) as [->|Hne].
    + destruct (assoc n seen) as [t0|] eqn:E; destruct t; cbn;
        repeat (try destruct t0; cbn); rewrite ?not_elem_of_cons, ?elem_of_cons;
        intuition (try congruence; try set_solver).
    + rewrite !not_elem_of_cons, !elem_of_cons.
      split; intros [H1 H2]; (split; [|intuition congruence]); intuition congruence.
Qed.

Lemma note_child_in (l : list root) v name t :
  (name, t) ∈ map (child_of v) l <-> exists r, r ∈ l /\ child_of v r = (name, t).
Proof.
  rewrite list_elem_of_fmap. split; intros (r & H1 & H2); exists r; by split.
Qed.

(** *** The segments below a root *)

Lemma canonical_split v : canonical v -> v <> "/" ->
  exists segs, split_on slash v = "" :: segs /\ Forall good_seg segs.
Proof.
  intros (segs & -> & H) Hne. exists segs. split; [|done].
  destruct segs as [|w ws]; [by destruct Hne|].
  change ("/" +:+ join "/" (w :: ws)) with ("" +:+ String slash (join "/" (w :: ws))).
  rewrite split_on_app by done. f_equal.
  change "/" with (String slash "") at 1.
  by apply split_join, good_seg_no_slash.
Qed.

Lemma below_root_segs v r u : canonical v -> v = r +:+ "/" +:+ u ->
  ".." ∉ split_on slash ("/" +:+ u).
Proof.
  intros Hc Hv.
  change ("/" +:+ u) with ("" +:+ String slash u). rewrite split_on_app by done.
  destruct (decide (v = "/")) as [->|Hne].
  - destruct r as [|c r]; [|by destruct r].
    change ("" +:+ "/" +:+ u) with (String slash u) in Hv. injection Hv as <-. cbn. set_solver.
  - destruct (canonical_split v Hc Hne) as (segs & Hs & Hg).
    subst v. change (r +:+ "/" +:+ u) with (r +:+ String slash u) in Hs.
    rewrite split_on_snoc in Hs.
    assert (Hall : Forall (fun w => w <> "..") (split_on slash r ++ split_on slash u)).
    { rewrite Hs. constructor; [done|]. eapply Forall_impl; [exact Hg|]. by intros w (_ & _ & ? & _). }
    apply Forall_app in Hall as [_ Hall]. rewrite Forall_forall in Hall.
    rewrite not_elem_of_cons. split; [done|]. intros H. by apply (Hall ".." H).
Qed.

(** What a resolved path says, in terms of the roots of the namespace. *)
Definition classified (roots : list root) (res : resolved) : Prop :=
  match res with
  | RRoot v h r =>
      canonical v /\ r ∈ roots /\ inside v (r_vroot r) = true /\
      (forall r', r' ∈ roots -> inside v (r_vroot r') = true ->
        (String.length (r_vroot r') <= String.length (r_vroot r))%nat) /\
      exists u, v = r_vroot r +:+ u /\ h = r_host r +:+ u /\
        (r_vroot r <> "/" -> inside h (r_host r) = true /\ ".." ∉ split_on slash u)
  | RAncestor v _ =>
      canonical v /\ (forall r, r ∈ roots -> inside v (r_vroot r) = false) /\
      exists r, r ∈ roots /\ inside (r_vroot r) v = true
  | ROutside v =>
      canonical v /\
      forall r, r ∈ roots -> inside v (r_vroot r) = false /\ inside (r_vroot r) v = false
  end.

Lemma inside_host (u r h : string) : r <> "/" -> (exists w, u = "/" +:+ w) \/ u = "" ->
  inside (h +:+ u) h = true.
Proof.
  intros _ [[w ->]| ->]; [|rewrite sapp_nil_r; apply inside_refl].
  unfold inside. apply orb_true_iff. right. destruct (String.eqb_spec h "/") as [->|].
  - done.
  - apply starts_with_iff. exists w. by rewrite sapp_assoc.
Qed.

Lemma resolve_virtual_classified pcwd known rp isdir cfg v :
  canonical v ->
  classified (ns_roots (prepare pcwd known rp isdir cfg))
    (resolve_virtual (prepare pcwd known rp isdir cfg) v).
Proof.
  intros Hc. unfold resolve_virtual. rewrite prepare_byVroot.
  destruct (List.find _ _) as [r|] eqn:E.
  - apply find_longest in E as (Hin & Hins & Hmax). cbn.
    destruct (inside_prefix _ _ Hins) as [u Hu].
    repeat split; try done. exists u. rewrite Hu, sdrop_app. repeat split; try done.
    + eapply inside_host; [done|]. rewrite inside_iff in Hins by done.
      destruct Hins as [Heq|[w Hw]].
      * right. apply (sapp_inj_l (r_vroot r)). by rewrite <-Hu, sapp_nil_r.
      * left. exists w. apply (sapp_inj_l (r_vroot r)). by rewrite <-Hu.
    + rewrite inside_iff in Hins by done. destruct Hins as [Heq|[w Hw]].
      * assert (u = "") as ->; [|set_solver].
        apply (sapp_inj_l (r_vroot r)). by rewrite <-Hu, sapp_nil_r.
      * rewrite Hw in Hu. apply sapp_inj_l in Hu. subst u. by eapply below_root_segs.
  - pose proof (proj1 (find_none_forall _ _) E) as Hnone.
    assert (Hno : forall r, r ∈ ns_roots (prepare pcwd known rp isdir cfg) -> inside v (r_vroot r) = false).
    { intros r Hr. apply Hnone. by rewrite sort_desc_perm. }
    destruct (List.filter _ _) as [|b bs] eqn:F; cbn; split; try done.
    + intros r Hr. split; [by apply Hno|].
      destruct (inside (r_vroot r) v) eqn:G; [|done]. exfalso.
      assert (Hr' : r ∈ []); [|set_solver]. rewrite <-F.
      apply list_elem_of_In, filter_In. split.
      * apply list_elem_of_In. by rewrite sort_desc_perm.
      * rewrite G. cbn. apply negb_true_iff, String.eqb_neq. intros Heq.
        specialize (Hno r Hr). rewrite Heq, inside_refl in Hno. done.
    + split; [done|]. exists b.
      assert (Hb : b ∈ b :: bs) by set_solver. rewrite <-F in Hb.
      apply list_elem_of_In, filter_In in Hb as [Hb Hbv]. bool_hyps.
      apply list_elem_of_In in Hb. rewrite sort_desc_perm in Hb. done.
Qed.

(** ** Properties *)

(** Resolving any path argument against a prepared namespace either throws
    (and then the path was not usable: not a string, a bad file URL, or a NUL
    in it) or answers a canonical virtual path classified by the longest root
    that contains it; a path in a root is given the host path with the same
    tail, so it stays below that root's host directory, with no ".." in the
    tail; a path in no root is an ancestor exactly when a root lies below it. *)
Theorem resolve_path_classified furl pcwd known rp isdir cfg p cwd :
  match resolve_path furl pcwd (prepare pcwd known rp isdir cfg) p cwd with
  | Ok res => classified (ns_roots (prepare pcwd known rp isdir cfg)) res
  | Throw _ => forall v, toVirtualPath furl pcwd p cwd <> Ok v
  end.
Proof.
  unfold resolve_path.
  replace (ns_prepared _) with true by (unfold prepare; by destruct (screen_declared _ _ _ _ _)).
  cbn [negb]. destruct (toVirtualPath furl pcwd p cwd) as [v|e] eqn:E; cbn; [|done].
  apply resolve_virtual_classified. eapply toVirtualPath_canonical; exact E.
Qed.

(** No declared root survives [prepare] that contains, or is contained in,
    a protected path -- as spelled or by real path -- and every declared path
    is either kept as a root or reported as refused. *)
Theorem prepare_protects pcwd known rp isdir cfg :
  let ns := prepare pcwd known rp isdir cfg in
  let real := realOf pcwd known rp in
  Forall (fun r => r_name r = "declared" ->
    forall p, p ∈ cfg_protectedPaths cfg ->
      inside p (r_vroot r) = false /\ inside (r_vroot r) p = false /\
      inside (real p) (r_real r) = false /\ inside (r_real r) (real p) = false)
    (ns_roots ns) /\
  length (List.filter (fun r => String.eqb (r_name r) "declared") (ns_roots ns)) +
    length (ns_refused ns) = length (cfg_declared cfg).
Proof.
  cbn zeta. rewrite prepare_roots. set (prot := map _ (cfg_protectedPaths cfg)).
  split.
  - apply Forall_forall. intros r Hr Hname p Hp. unfold base_roots in Hr.
    apply elem_of_app in Hr as [Hr|Hr]; [repeat (apply elem_of_cons in Hr as [->|Hr]; [done|]); set_solver|].
    apply list_elem_of_fmap in Hr as (d & -> & Hd).
    apply screen_declared_kept in Hd as [_ Hall].
    specialize (Hall (p, realOf pcwd known rp p)). unfold overlaps in Hall.
    rewrite !orb_false_iff in Hall. cbn. destruct Hall as [[[? ?] ?] ?]; [|done].
    apply list_elem_of_fmap. eauto.
  - pose proof (screen_declared_length pcwd known rp prot (cfg_declared cfg)) as Hlen.
    replace (ns_refused _) with (screen_declared pcwd known rp prot (cfg_declared cfg)).2
      by (unfold prepare; fold prot; by destruct (screen_declared _ _ _ _ _)).
    rewrite <-Hlen. f_equal. unfold base_roots. rewrite List.filter_app. cbn.
    clear Hlen. induction (screen_declared pcwd known rp prot (cfg_declared cfg)).1 as [|d ds IH]; cbn; [done|].
    by rewrite IH.
Qed.

(** The children of a synthesised directory are listed once each, in
    order, and are exactly the next components of the roots below it; a child
    is shown as a file exactly when every root through it is a file root that
    ends there. *)
Theorem children_of_exact v below :
  let ch := children_of v below in
  NoDup (map fst ch) /\
  (forall name, name ∈ map fst ch <-> exists r, r ∈ below /\ hd "" (below_parts v r) = name) /\
  (forall name, (name, CFile) ∈ ch <->
     name ∈ map fst ch /\ forall r, r ∈ below -> hd "" (below_parts v r) = name ->
       length (below_parts v r) = 1 /\ r_type r = TFile).
Proof.
  cbn zeta. unfold children_of. set (seen := fold_left _ _ _).
  assert (Hmap : forall l : list string, map fst (map (fun name => (name, default CDir (assoc name seen))) l) = l)
    by (induction l as [|x l IH]; cbn; [done|by rewrite IH]).
  rewrite !Hmap.
  assert (Hkeys : forall name, name ∈ sort_str (map fst seen) <->
            exists r, r ∈ below /\ hd "" (below_parts v r) = name).
  { intros name. rewrite sort_str_perm. unfold seen. rewrite fold_note_keys, map_map.
    split.
    - intros [H|H]; [set_solver|]. apply list_elem_of_fmap in H as (r & -> & Hr). eauto.
    - intros (r & Hr & Hn). right. apply list_elem_of_fmap. exists r. split; [by rewrite <-Hn|done]. }
  split; [|split].
  - rewrite sort_str_perm. apply fold_note_nodup. constructor.
  - exact Hkeys.
  - intros name. rewrite list_elem_of_fmap. split.
    + intros (n & Heq & Hn). injection Heq as -> Ht.
      split; [done|]. intros r Hr Hhd.
      destruct (assoc n seen) as [t|] eqn:E; [|done]. cbn in Ht. subst t.
      apply fold_note_type in E as [_ Hno].
      destruct (child_of v r) as [a t] eqn:Hc.
      assert (a = n) as -> by (unfold child_of in Hc; injection Hc; congruence).
      destruct t.
      * unfold child_of in Hc. injection Hc as _ Hc.
        destruct (_ && _) eqn:Hb in Hc; [|done]. by bool_hyps.
      * exfalso. apply Hno. apply note_child_in. eauto.
    + intros [Hn Hall]. exists name. split; [|done]. f_equal.
      destruct (proj1 (Hkeys name) Hn) as (r0 & Hr0 & Hhd0).
      enough (assoc name seen = Some CFile) as -> by done.
      apply fold_note_type. split.
      * right. split; [done|]. apply list_elem_of_fmap. exists (child_of v r0).
        split; [by cbn|]. apply note_child_in. exists r0. split; [done|]. done.
      * intros Hd. apply note_child_in in Hd as (r & Hr & Hc).
        unfold child_of in Hc. injection Hc as Hh Ht.
        destruct (Hall r Hr Hh) as [Hl Hty]. rewrite Hl, bool_decide_eq_true_2 in Ht by done.
        done.
Qed.
