(* ===== verification/RwLock.v ===== *)
(** * One module's read/write lock (lib/fs-broker/rwlock.js)

    The lock's operations as the class has them ([acquire], [release],
    [pump]), the step relation of a client that releases only what it holds,
    and the invariant of every reachable state: exclusion, arrival order, and
    no waiter without a holder in its way. *)
From Stdlib Require Import ZArith Lia.
From stdpp Require Import prelude.
From S2P Require Import Prelude.

Set Default Proof Using "Type".

(** ** The class *)

(** A queued request: the mode, and the identity of its promise. *)
Record waiter := mkWaiter { w_exclusive : bool; w_id : nat }.

#[export] Instance waiter_eq_dec : EqDecision waiter.
Proof. solve_decision. Defined.

Record rwlock := mkLock {
  l_readers : Z;
  l_writer : bool;
  l_queue : list waiter
}.

Definition new_lock : rwlock := mkLock 0 false [].

(** [pump]: the state after it, and the waiters it resolves, in order. *)
Fixpoint pump_loop (queue : list waiter) (readers : Z) (writer : bool) : rwlock * list waiter :=
  match queue with
  | [] => (mkLock readers writer [], [])
  | next :: rest =>
      if writer then (mkLock readers writer queue, [])
      else if w_exclusive next && (0 <? readers)%Z then (mkLock readers writer queue, [])
      else if w_exclusive next then (mkLock readers true rest, [next])
      else let '(s, granted) := pump_loop rest (readers + 1) writer in (s, next :: granted)
  end.

Definition pump (s : rwlock) : rwlock * list waiter :=
  pump_loop (l_queue s) (l_readers s) (l_writer s).

Definition acquire (w : waiter) (s : rwlock) : rwlock * list waiter :=
  pump (mkLock (l_readers s) (l_writer s) (l_queue s ++ [w])).

Definition release (exclusive : bool) (s : rwlock) : rwlock * list waiter :=
  pump (if exclusive then mkLock (l_readers s) false (l_queue s)
        else mkLock (l_readers s - 1) (l_writer s) (l_queue s)).

(** ** The lock with its clients

    [sys_held] are the granted waiters that have not released yet; the two
    logs record arrivals and grants in order. *)
Record system := mkSys {
  sys_lock : rwlock;
  sys_held : list waiter;
  sys_arrived : list waiter;
  sys_granted : list waiter
}.

Definition initial : system := mkSys new_lock [] [] [].

Definition arrive (w : waiter) (s : system) : system :=
  let '(l, g) := acquire w (sys_lock s) in
  mkSys l (sys_held s ++ g) (sys_arrived s ++ [w]) (sys_granted s ++ g).

(** A holder leaves: the first occurrence of it is removed. *)
Fixpoint remove_one (w : waiter) (l : list waiter) : list waiter :=
  match l with
  | [] => []
  | x :: l' => if bool_decide (x = w) then l' else x :: remove_one w l'
  end.

Definition leave (w : waiter) (s : system) : system :=
  let '(l, g) := release (w_exclusive w) (sys_lock s) in
  mkSys l (remove_one w (sys_held s) ++ g) (sys_arrived s) (sys_granted s ++ g).

Inductive step : system -> system -> Prop :=
| step_arrive w s : step s (arrive w s)
| step_leave w s : w ∈ sys_held s -> step s (leave w s).

(** What holds between any two operations. *)
Definition count_shared (l : list waiter) : Z := Z.of_nat (length (List.filter (fun w => negb (w_exclusive w)) l)).
Definition count_excl (l : list waiter) : Z := Z.of_nat (length (List.filter w_exclusive l)).

(** The head of the queue waits for a holder that excludes it. *)
Definition blocked (l : rwlock) : Prop :=
  match l_queue l with
  | [] => True
  | w :: _ => l_writer l = true \/ (w_exclusive w = true /\ (0 < l_readers l)%Z)
  end.

Record invariant (s : system) : Prop := {
  inv_readers : l_readers (sys_lock s) = count_shared (sys_held s);
  inv_writer : count_excl (sys_held s) = if l_writer (sys_lock s) then 1%Z else 0%Z;
  inv_excl : l_writer (sys_lock s) = true -> l_readers (sys_lock s) = 0%Z;
  inv_fifo : sys_arrived s = sys_granted s ++ l_queue (sys_lock s);
  inv_blocked : blocked (sys_lock s)
}.

(** ** Lemmas *)

Lemma count_shared_app a b : count_shared (a ++ b) = (count_shared a + count_shared b)%Z.
Proof. unfold count_shared. rewrite List.filter_app, length_app. lia. Qed.

Lemma count_excl_app a b : count_excl (a ++ b) = (count_excl a + count_excl b)%Z.
Proof. unfold count_excl. rewrite List.filter_app, length_app. lia. Qed.

Lemma count_total l : (count_shared l + count_excl l)%Z = Z.of_nat (length l).
Proof.
  induction l as [|[[] i] l IH]; [done| |]; unfold count_shared, count_excl in *; cbn in *; lia.
Qed.

Lemma count_nonneg l : (0 <= count_shared l /\ 0 <= count_excl l)%Z.
Proof. unfold count_shared, count_excl. lia. Qed.

Lemma remove_one_counts w l : w ∈ l ->
  count_shared l = (count_shared (remove_one w l) + (if w_exclusive w then 0 else 1))%Z /\
  count_excl l = (count_excl (remove_one w l) + (if w_exclusive w then 1 else 0))%Z.
Proof.
  induction l as [|x l IH]; [set_solver|]. cbn [remove_one].
  case_bool_decide as Hx.
  - intros _. subst x. unfold count_shared, count_excl. cbn. destruct (w_exclusive w); cbn; lia.
  - intros Hin. apply elem_of_cons in Hin as [->|Hin]; [done|].
    destruct (IH Hin) as [H1 H2]. unfold count_shared, count_excl in *. cbn.
    destruct (w_exclusive x); cbn in *; lia.
Qed.

(** What one [pump] does: it grants a prefix of the queue, counts exactly what
    it grants, keeps exclusion, and stops only at a blocked head. *)
Lemma pump_loop_spec q r b s g :
  pump_loop q r b = (s, g) -> (0 <= r)%Z -> (b = true -> r = 0%Z) ->
  q = g ++ l_queue s /\
  l_readers s = (r + count_shared g)%Z /\
  count_excl g = ((if l_writer s then 1 else 0) - (if b then 1 else 0))%Z /\
  (l_writer s = true -> l_readers s = 0%Z) /\ blocked s.
Proof.
  revert r s g. induction q as [|w q IH]; intros r s g H Hr Hb; cbn in H.
  - inv H. cbn. unfold count_shared, count_excl. cbn. repeat split; try done; destruct b; lia.
  - destruct b.
    + inv H. cbn. unfold count_shared, count_excl. cbn. repeat split; auto; lia.
    + destruct (w_exclusive w) eqn:Ew; cbn in H.
      * destruct (0 <? r)%Z eqn:Er.
        { inv H. cbn. unfold blocked; cbn. bool_hyps. unfold count_shared, count_excl. cbn.
          repeat split; auto; lia. }
        { inv H. bool_hyps. cbn. unfold count_shared, count_excl, blocked; cbn.
          rewrite Ew. cbn. repeat split; auto; try lia. destruct q; auto. }
      * destruct (pump_loop q (r + 1) false) as [s' g'] eqn:E. inv H.
        destruct (IH _ _ _ E) as (-> & H2 & H3 & H4 & H5); [lia|done|].
        unfold count_shared, count_excl in *. cbn in *. rewrite Ew. cbn.
        repeat split; auto; try lia.
Qed.

Lemma pump_spec s0 s g :
  pump s0 = (s, g) -> (0 <= l_readers s0)%Z -> (l_writer s0 = true -> l_readers s0 = 0%Z) ->
  l_queue s0 = g ++ l_queue s /\
  l_readers s = (l_readers s0 + count_shared g)%Z /\
  count_excl g = ((if l_writer s then 1 else 0) - (if l_writer s0 then 1 else 0))%Z /\
  (l_writer s = true -> l_readers s = 0%Z) /\ blocked s.
Proof. unfold pump. apply pump_loop_spec. Qed.

Lemma invariant_initial : invariant initial.
Proof. by constructor. Qed.

Lemma invariant_arrive w s : invariant s -> invariant (arrive w s).
Proof.
  intros [Hr Hw He Hf Hb]. unfold arrive, acquire.
  destruct (pump _) as [l g] eqn:E.
  pose proof (count_nonneg (sys_held s)).
  apply pump_spec in E as (Hq & Hr' & Hx & He' & Hb'); cbn in *; [|lia|done].
  constructor; cbn; auto.
  - rewrite count_shared_app. lia.
  - rewrite count_excl_app. lia.
  - by rewrite Hf, <-!app_assoc, Hq.
Qed.

Lemma invariant_leave w s : w ∈ sys_held s -> invariant s -> invariant (leave w s).
Proof.
  intros Hin [Hr Hw He Hf Hb]. unfold leave, release.
  destruct (remove_one_counts w _ Hin) as [Hs Hx].
  pose proof (count_nonneg (remove_one w (sys_held s))) as [H1 H2].
  destruct (pump _) as [l g] eqn:E.
  assert (Hwr : w_exclusive w = true -> l_writer (sys_lock s) = true).
  { intros Hwx. rewrite Hwx in Hx. destruct (l_writer (sys_lock s)); [done|lia]. }
  apply pump_spec in E as (Hq & Hr' & Hx' & He' & Hb').
  - destruct (w_exclusive w) eqn:Ew; cbn in *; constructor; cbn; auto;
      rewrite ?count_shared_app, ?count_excl_app; try lia;
      try (rewrite Hf, <-!app_assoc; by rewrite Hq);
      rewrite ?Hwr in * by done; lia.
  - destruct (w_exclusive w); cbn; lia.
  - destruct (w_exclusive w); cbn; [done|]. intros Hl. rewrite Hl in *. specialize (He eq_refl). lia.
Qed.

Lemma invariant_step s s' : step s s' -> invariant s -> invariant s'.
Proof. intros [w t|w t Hin]; [apply invariant_arrive|by apply invariant_leave]. Qed.

Lemma invariant_reachable s : rtc step initial s -> invariant s.
Proof.
  intros H. assert (Hi : invariant initial) by apply invariant_initial.
  induction H as [s|x y z Hxy _ IH]; [done|]. eauto using invariant_step.
Qed.

Lemma invariant_held_or_empty s : invariant s -> sys_held s = [] -> l_queue (sys_lock s) = [].
Proof.
  intros [Hr Hw _ _ Hb] Hh. rewrite Hh in *. unfold blocked in Hb.
  destruct (l_queue (sys_lock s)) as [|w q]; [done|].
  unfold count_shared, count_excl in *. cbn in *.
  destruct Hb as [Hb|[_ Hb]]; [by rewrite Hb in Hw|lia].
Qed.

Lemma leave_total w s : w ∈ sys_held s -> invariant s ->
  length (sys_held (leave w s)) + length (l_queue (sys_lock (leave w s))) + 1 =
  length (sys_held s) + length (l_queue (sys_lock s)).
Proof.
  intros Hin Hinv. pose proof (invariant_leave w s Hin Hinv) as Hinv'.
  destruct (remove_one_counts w _ Hin) as [Hs Hx].
  pose proof (count_total (sys_held s)). pose proof (count_total (remove_one w (sys_held s))).
  pose proof (inv_fifo _ Hinv) as Hf. pose proof (inv_fifo _ Hinv') as Hf'.
  unfold leave in *. destruct (release _ _) as [l g]. cbn in *.
  rewrite Hf, <-app_assoc in Hf'. apply app_inv_head in Hf'.
  rewrite Hf', !length_app. destruct (w_exclusive w); lia.
Qed.

Inductive leave_step : system -> system -> Prop :=
| leave_step_intro w s : w ∈ sys_held s -> leave_step s (leave w s).

Lemma leave_arrived w s : sys_arrived (leave w s) = sys_arrived s.
Proof. unfold leave. by destruct (release _ _). Qed.

(** ** Properties *)

(** In every state the lock can reach, an exclusive holder is the only
    holder, and requests are granted in exactly the order they arrived: the
    arrivals are the grants so far followed by the queue. *)
Theorem rwlock_exclusion_fifo s :
  rtc step initial s ->
  (forall w, w ∈ sys_held s -> w_exclusive w = true -> sys_held s = [w]) /\
  sys_arrived s = sys_granted s ++ l_queue (sys_lock s).
Proof.
  intros H. destruct (invariant_reachable s H) as [Hr Hw He Hf _]. split; [|done].
  intros w Hin Hx. destruct (remove_one_counts w _ Hin) as [_ Hc]. rewrite Hx in Hc.
  pose proof (count_nonneg (remove_one w (sys_held s))) as [_ Hnn].
  destruct (l_writer (sys_lock s)); [|lia]. specialize (He eq_refl).
  pose proof (count_total (sys_held s)) as Ht.
  destruct (sys_held s) as [|a [|b l]]; [set_solver|set_solver|]. cbn [length] in Ht. lia.
Qed.

(** No waiter is lost. From any reachable state, along any schedule of
    releases with no new arrival, each release shortens holders-plus-queue by
    one, some release is enabled while anyone waits, and when no holder is
    left every request that ever arrived has been granted. *)
Theorem rwlock_drains s n s' :
  rtc step initial s -> nsteps leave_step n s s' ->
  length (sys_held s') + length (l_queue (sys_lock s')) + n =
    length (sys_held s) + length (l_queue (sys_lock s)) /\
  (l_queue (sys_lock s') <> [] -> exists s'', leave_step s' s'') /\
  (sys_held s' = [] -> sys_granted s' = sys_arrived s).
Proof.
  intros H Hn. apply invariant_reachable in H. revert H.
  induction Hn as [s|n x y z Hxy _ IH]; intros Hinv.
  - split; [lia|]. split.
    + intros Hq. destruct (sys_held s) as [|w l] eqn:E.
      * by destruct Hq; apply invariant_held_or_empty.
      * exists (leave w s). constructor. rewrite E. set_solver.
    + intros Hh. rewrite (inv_fifo _ Hinv), (invariant_held_or_empty s Hinv Hh). by rewrite app_nil_r.
  - destruct Hxy as [w x Hin].
    destruct (IH (invariant_leave _ _ Hin Hinv)) as (Hl & Hen & Hend).
    pose proof (leave_total w x Hin Hinv). rewrite leave_arrived in Hend.
    split; [lia|done].
Qed.

(** A reader, a waiting writer and a reader behind it: the second reader does
    not overtake the writer. *)
Definition sample : system :=
  arrive (mkWaiter false 3) (arrive (mkWaiter true 2) (arrive (mkWaiter false 1) initial)).

Lemma sample_reachable : rtc step initial sample.
Proof. do 3 (eapply rtc_r; [|apply step_arrive]). apply rtc_refl. Qed.

Lemma rwlock_exclusion_fifo_witness :
  sys_granted sample = [mkWaiter false 1] /\
  sys_arrived sample = sys_granted sample ++ l_queue (sys_lock sample).
Proof.
  split; [reflexivity|].
  exact (proj2 (rwlock_exclusion_fifo sample sample_reachable)).
Defined.

Lemma rwlock_drains_witness :
  sys_held (leave (mkWaiter false 1) sample) = [mkWaiter true 2] /\
  length (sys_held (leave (mkWaiter false 1) sample)) +
  length (l_queue (sys_lock (leave (mkWaiter false 1) sample))) + 1 =
  length (sys_held sample) + length (l_queue (sys_lock sample)).
Proof.
  split; [reflexivity|].
  apply (rwlock_drains sample 1 _ sample_reachable).
  eapply nsteps_l; [|apply nsteps_O]. constructor. apply list_elem_of_In. left. reflexivity.
Defined.
