(* ===== verification/Scheduler.v ===== *)
(** * The file-operation scheduler (lib/fs-broker/scheduler.js)

    One scheduler shares the libuv threadpool between the brokers of all
    module workers: a global cap on operations in flight, round-robin across
    workers, at most [perWorker] for one worker while another waits, and a
    bounded queue per worker. Starting a task is asynchronous in the code
    ([Promise.resolve().then(item.task)]), so [pump] only decides what starts;
    the completion callback is the operation [finish]. *)
From Stdlib Require Import ZArith Lia.
From stdpp Require Import prelude strings gmap.
From S2P Require Import Prelude.

Set Default Proof Using "Type".

Record sched_opts := mkOpts {
  o_globalCap : nat;
  o_perWorkerWhenContended : nat;   (* 0 when not given *)
  o_queueCap : nat                  (* 0 when not given *)
}.

(** A queued task, by identity. *)
Abbreviation item := nat (only parsing).

Record sched := mkSched {
  s_globalCap : nat;
  s_perWorker : nat;
  s_queueCap : nat;
  s_queues : gmap string (list item);
  s_active : gmap string nat;
  s_running : nat;
  s_order : list string
}.

(** [capFor(size)], for [Number(size) || 0]. *)
Definition capFor (size : Z) : Z := Z.max 1 (size * 3 / 4).

Definition new_sched (o : sched_opts) : sched :=
  mkSched (o_globalCap o)
    (if (o_perWorkerWhenContended o =? 0)%nat then 2 else o_perWorkerWhenContended o)
    (if (o_queueCap o =? 0)%nat then 4096 else o_queueCap o)
    ∅ ∅ 0 [].

Definition queue_of (s : sched) (key : string) : list item := default [] (s_queues s !! key).
Definition active_of (s : sched) (key : string) : nat := default 0 (s_active s !! key).

Definition waitingOthers (s : sched) (key : string) : bool :=
  bool_decide (map_Exists (fun k q => k <> key /\ q <> []) (s_queues s)).

(** May the first queued item of [key] start now? *)
Definition startable (s : sched) (key : string) : bool :=
  match queue_of s key with
  | [] => false
  | _ => negb ((s_perWorker s <=? active_of s key)%nat && waitingOthers s key)
  end.

Definition set_order (s : sched) (o : list string) : sched :=
  mkSched (s_globalCap s) (s_perWorker s) (s_queueCap s) (s_queues s) (s_active s) (s_running s) o.

Definition start_first (s : sched) (key : string) (rest : list item) : sched :=
  mkSched (s_globalCap s) (s_perWorker s) (s_queueCap s)
    (<[key := rest]> (s_queues s)) (<[key := S (active_of s key)]> (s_active s))
    (S (s_running s)) (s_order s).

(** One turn of the inner loop: rotate, then start the key's first item if it
    may start. *)
Definition turn (s : sched) : sched * list (string * item) :=
  match s_order s with
  | [] => (s, [])
  | key :: others =>
      let s1 := set_order s (others ++ [key]) in
      match queue_of s1 key with
      | [] => (s1, [])
      | it :: rest =>
          if (s_perWorker s1 <=? active_of s1 key)%nat && waitingOthers s1 key then (s1, [])
          else (start_first s1 key rest, [(key, it)])
      end
  end.

(** The inner [for]: [i < order.length && running < globalCap]. *)
Fixpoint pass (n : nat) (s : sched) : sched * list (string * item) :=
  match n with
  | O => (s, [])
  | S m =>
      if (s_running s <? s_globalCap s)%nat then
        let '(s1, a) := turn s in
        let '(s2, b) := pass m s1 in
        (s2, a ++ b)
      else (s, [])
  end.

(** The outer [while]: passes until one starts nothing or the cap is met.
    Every pass that goes on started a task, so [globalCap - running + 1]
    passes are enough. *)
Fixpoint pump_fuel (fuel : nat) (s : sched) : sched * list (string * item) :=
  match fuel with
  | O => (s, [])
  | S f =>
      if (s_running s <? s_globalCap s)%nat then
        let '(s1, a) := pass (length (s_order s)) s in
        match a with
        | [] => (s1, [])
        | _ => let '(s2, b) := pump_fuel f s1 in (s2, a ++ b)
        end
      else (s, [])
  end.

Definition pump (s : sched) : sched * list (string * item) :=
  pump_fuel (S (s_globalCap s - s_running s)) s.

(** [submit]: [None] when the queue is full (rejected with EMFILE). *)
Definition submit (key : string) (it : item) (s : sched) : option (sched * list (string * item)) * sched :=
  let s1 := match s_queues s !! key with
            | Some _ => s
            | None => mkSched (s_globalCap s) (s_perWorker s) (s_queueCap s)
                        (<[key := []]> (s_queues s)) (s_active s) (s_running s) (s_order s ++ [key])
            end in
  let q := queue_of s1 key in
  if (s_queueCap s1 <=? length q)%nat then (None, s1)
  else
    let s2 := mkSched (s_globalCap s1) (s_perWorker s1) (s_queueCap s1)
                (<[key := q ++ [it]]> (s_queues s1)) (s_active s1) (s_running s1) (s_order s1) in
    let r := pump s2 in (Some r, r.1).

(** The [finally] of a started task. *)
Definition finish (key : string) (s : sched) : sched * list (string * item) :=
  let act := match s_active s !! key with
             | None | Some O => 1
             | Some n => n
             end in
  pump (mkSched (s_globalCap s) (s_perWorker s) (s_queueCap s) (s_queues s)
          (<[key := act - 1]> (s_active s)) (s_running s - 1) (s_order s)).

(** [forget]: the items of [key], to be rejected with EIO. *)
Definition forget (key : string) (s : sched) : sched * list item :=
  (mkSched (s_globalCap s) (s_perWorker s) (s_queueCap s) (delete key (s_queues s)) (s_active s)
     (s_running s) (List.filter (fun k => negb (String.eqb k key)) (s_order s)),
   queue_of s key).

(** ** The scheduler with its tasks

    [y_running] are the tasks started and not yet settled; [y_submitted] and
    [y_started] record, in order, what was accepted and what was started;
    [y_rejected] what was refused or forgotten. *)
Record system := mkSys {
  y_sched : sched;
  y_running : list (string * item);
  y_submitted : list (string * item);
  y_started : list (string * item);
  y_forgotten : gset string
}.

Definition initial (o : sched_opts) : system := mkSys (new_sched o) [] [] [] ∅.

Inductive step : system -> system -> Prop :=
| step_submit key it y s st :
    key ∉ y_forgotten y ->
    (submit key it (y_sched y)).1 = Some (s, st) ->
    step y (mkSys s (y_running y ++ st) (y_submitted y ++ [(key, it)]) (y_started y ++ st) (y_forgotten y))
| step_reject key it y :
    (submit key it (y_sched y)).1 = None ->
    step y (mkSys (submit key it (y_sched y)).2 (y_running y) (y_submitted y) (y_started y) (y_forgotten y))
| step_finish key it y l1 l2 s st :
    y_running y = l1 ++ (key, it) :: l2 ->
    finish key (y_sched y) = (s, st) ->
    step y (mkSys s (l1 ++ l2 ++ st) (y_submitted y) (y_started y ++ st) (y_forgotten y))
| step_forget key y :
    step y (mkSys (forget key (y_sched y)).1 (y_running y) (y_submitted y) (y_started y)
              ({[key]} ∪ y_forgotten y)).

Definition of_key (key : string) (l : list (string * item)) : list item :=
  map snd (List.filter (fun p => String.eqb p.1 key) l).

(** No key may start: every key that waits is at its share while another waits. *)
Definition saturated (s : sched) : Prop :=
  s_globalCap s <= s_running s \/ forall key, key ∈ s_order s -> startable s key = false.

(** What holds before and after every pump. *)
Record core (y : system) : Prop := {
  inv_cap : s_running (y_sched y) <= s_globalCap (y_sched y);
  inv_run : s_running (y_sched y) = length (y_running y);
  inv_act : forall k, active_of (y_sched y) k = length (of_key k (y_running y));
  inv_qcap : forall k, length (queue_of (y_sched y) k) <= s_queueCap (y_sched y);
  inv_order : NoDup (s_order (y_sched y)) /\
              forall k, k ∈ s_order (y_sched y) <-> is_Some (s_queues (y_sched y) !! k);
  inv_fifo : forall k, k ∉ y_forgotten y ->
    of_key k (y_submitted y) = of_key k (y_started y) ++ queue_of (y_sched y) k
}.

(** Nothing waits while nothing runs: the completion that will pump again is
    always on its way. *)
Definition live (s : sched) : Prop := forall k, queue_of s k <> [] -> 0 < s_running s.

Definition invariant (y : system) : Prop :=
  core y /\ live (y_sched y) /\ 0 < s_globalCap (y_sched y) /\ 0 < s_perWorker (y_sched y).

(** ** Lemmas *)

Arguments of_key : simpl never.
Arguments queue_of : simpl never.
Arguments active_of : simpl never.

Lemma of_key_app k a b : of_key k (a ++ b) = of_key k a ++ of_key k b.
Proof. unfold of_key. by rewrite List.filter_app, map_app. Qed.

Lemma of_key_cons k p l :
  of_key k (p :: l) = (if String.eqb p.1 k then [p.2] else []) ++ of_key k l.
Proof. unfold of_key. cbn. by destruct (String.eqb p.1 k). Qed.

Lemma of_key_nil k : of_key k [] = [].
Proof. done. Qed.

Lemma queue_set_order s o k : queue_of (set_order s o) k = queue_of s k.
Proof. done. Qed.

Lemma queue_start s key rest k :
  queue_of (start_first s key rest) k = if decide (key = k) then rest else queue_of s k.
Proof. unfold queue_of. cbn. rewrite lookup_insert. by case_decide. Qed.

Lemma active_start s key rest k :
  active_of (start_first s key rest) k = if decide (key = k) then S (active_of s key) else active_of s k.
Proof. unfold active_of. cbn. rewrite lookup_insert. by case_decide. Qed.

(** What a run of turns does to the state: it only starts queued items, in
    their order, up to the cap. *)
Record started_by (s s' : sched) (st : list (string * item)) : Prop := {
  sb_conf : s_globalCap s' = s_globalCap s /\ s_perWorker s' = s_perWorker s /\ s_queueCap s' = s_queueCap s;
  sb_run : s_running s' = s_running s + length st;
  sb_cap : s_running s <= s_globalCap s -> s_running s' <= s_globalCap s';
  sb_queue : forall k, queue_of s k = of_key k st ++ queue_of s' k;
  sb_active : forall k, active_of s' k = active_of s k + length (of_key k st);
  sb_order : s_order s' ≡ₚ s_order s;
  sb_dom : forall k, is_Some (s_queues s' !! k) <-> is_Some (s_queues s !! k)
}.

Lemma started_by_refl s : started_by s s [].
Proof. constructor; intros; unfold of_key; cbn; auto; lia. Qed.

Lemma started_by_trans s1 s2 s3 a b :
  started_by s1 s2 a -> started_by s2 s3 b -> started_by s1 s3 (a ++ b).
Proof.
  intros H1 H2. destruct H1 as [(?&?&?) ? ? Hq1 Ha1 Ho1 Hd1], H2 as [(?&?&?) ? ? Hq2 Ha2 Ho2 Hd2].
  constructor; intros.
  - repeat split; congruence.
  - rewrite length_app. lia.
  - lia.
  - rewrite of_key_app, <-app_assoc, <-Hq2. auto.
  - rewrite of_key_app, length_app, Ha2, Ha1. lia.
  - by rewrite Ho2.
  - by rewrite Hd2.
Qed.

Lemma started_by_set_order s o : o ≡ₚ s_order s -> started_by s (set_order s o) [].
Proof. intros Ho. constructor; intros; unfold of_key; cbn; auto; try lia. Qed.

Lemma started_by_start s key it rest :
  queue_of s key = it :: rest -> s_running s < s_globalCap s ->
  started_by s (start_first s key rest) [(key, it)].
Proof.
  intros Hq Hrun. constructor; intros; cbn [start_first s_globalCap s_perWorker s_queueCap s_running s_order length]; auto; try lia.
  - rewrite queue_start, of_key_cons, of_key_nil. cbn. case_decide as Hk.
    + subst k. by rewrite String.eqb_refl.
    + by rewrite (proj2 (String.eqb_neq key k)).
  - rewrite active_start, of_key_cons, of_key_nil. cbn. case_decide as Hk.
    + subst k. rewrite String.eqb_refl. cbn. lia.
    + rewrite (proj2 (String.eqb_neq key k)) by done. cbn. lia.
  - cbn. destruct (decide (key = k)) as [->|Hne].
    + rewrite lookup_insert_eq. unfold queue_of in Hq.
      destruct (s_queues s !! k) eqn:E; [split; eauto|done].
    + by rewrite lookup_insert_ne.
Qed.

Lemma turn_started s s' st :
  s_running s < s_globalCap s -> turn s = (s', st) -> started_by s s' st.
Proof.
  intros Hrun. unfold turn. destruct (s_order s) as [|key others] eqn:Ho.
  - intros [= <- <-]. apply started_by_refl.
  - assert (Hrot : started_by s (set_order s (others ++ [key])) []).
    { apply started_by_set_order. rewrite Ho. symmetry. apply Permutation_cons_append. }
    destruct (queue_of _ key) as [|it rest] eqn:Hq; [by intros [= <- <-]|].
    destruct (_ && _); intros [= <- <-]; [done|].
    apply (started_by_trans _ _ _ [] _ Hrot). by apply started_by_start.
Qed.

Lemma pass_started n s s' st : pass n s = (s', st) -> started_by s s' st.
Proof.
  revert s s' st. induction n as [|n IH]; intros s s' st; cbn [pass].
  - intros [= <- <-]. apply started_by_refl.
  - destruct (_ <? _)%nat eqn:Hrun; [|intros [= <- <-]; apply started_by_refl].
    bool_hyps. destruct (turn s) as [s1 a] eqn:Ht, (pass n s1) as [s2 b] eqn:Hp.
    intros [= <- <-]. eapply started_by_trans; [by apply turn_started|by apply IH].
Qed.

Lemma pump_fuel_started f s s' st : pump_fuel f s = (s', st) -> started_by s s' st.
Proof.
  revert s s' st. induction f as [|f IH]; intros s s' st; cbn [pump_fuel].
  - intros [= <- <-]. apply started_by_refl.
  - destruct (_ <? _)%nat; [|intros [= <- <-]; apply started_by_refl].
    destruct (pass _ s) as [s1 a] eqn:Hp. apply pass_started in Hp.
    destruct a as [|x a].
    + intros [= <- <-]. done.
    + destruct (pump_fuel f s1) as [s2 b] eqn:Hf. intros [= <- <-].
      change (x :: a ++ b) with ((x :: a) ++ b). eapply started_by_trans; eauto.
Qed.

(** A pass that starts nothing has looked at every key in turn. *)
Lemma turn_none s s' :
  turn s = (s', []) ->
  s_queues s' = s_queues s /\ s_active s' = s_active s /\ s_running s' = s_running s /\
  s_globalCap s' = s_globalCap s /\ s_perWorker s' = s_perWorker s /\
  (forall key others, s_order s = key :: others -> s_order s' = others ++ [key] /\ startable s key = false).
Proof.
  unfold turn. destruct (s_order s) as [|key others].
  - intros [= <-]. do 5 (split; [done|]). discriminate.
  - destruct (queue_of _ key) as [|it rest] eqn:Hq.
    + intros [= <-]. do 5 (split; [done|]). intros k o [= -> ->]. split; [done|].
      rewrite queue_set_order in Hq. unfold startable. by rewrite Hq.
    + destruct (_ && _) eqn:Hb; intros H; [|discriminate]. injection H as <-.
      do 5 (split; [done|]). intros k o [= -> ->]. split; [done|].
      rewrite queue_set_order in Hq. unfold startable. rewrite Hq.
      change (waitingOthers s k) with (waitingOthers (set_order s (o ++ [k])) k).
      apply negb_false_iff, Hb.
Qed.

Lemma startable_ext s s' key :
  s_queues s' = s_queues s -> s_active s' = s_active s -> s_perWorker s' = s_perWorker s ->
  startable s' key = startable s key.
Proof. unfold startable, queue_of, active_of, waitingOthers. by intros -> -> ->. Qed.

Lemma pass_none n s s' :
  pass n s = (s', []) -> s_running s < s_globalCap s -> n <= length (s_order s) ->
  s_queues s' = s_queues s /\ s_active s' = s_active s /\ s_perWorker s' = s_perWorker s /\
  forall key, key ∈ take n (s_order s) -> startable s key = false.
Proof.
  revert s. induction n as [|n IH]; intros s; cbn [pass].
  - intros [= <-] _ _. repeat split; try done. set_solver.
  - intros H Hrun Hlen. rewrite (proj2 (Nat.ltb_lt _ _) Hrun) in H.
    destruct (turn s) as [s1 a] eqn:Ht, (pass n s1) as [s2 b] eqn:Hp.
    injection H as -> Hab. apply app_eq_nil in Hab as [-> ->].
    apply turn_none in Ht as (Hq & Ha & Hr & Hg & Hw & Hkey).
    destruct (s_order s) as [|key others] eqn:Ho; [cbn in Hlen; lia|].
    destruct (Hkey _ _ eq_refl) as [Ho1 Hst].
    destruct (IH s1 Hp) as (Hq2 & Ha2 & Hw2 & Hall); [congruence|rewrite Ho1, length_app; cbn in *; lia|].
    repeat split; try congruence. intros k Hk. cbn in Hk.
    apply elem_of_cons in Hk as [->|Hk]; [done|].
    rewrite <-(startable_ext s s1) by congruence. apply Hall. rewrite Ho1.
    rewrite take_app_le by (cbn in Hlen; lia). done.
Qed.

Lemma pump_fuel_saturated f s s' st :
  pump_fuel f s = (s', st) -> s_globalCap s - s_running s < f -> saturated s'.
Proof.
  revert s st. induction f as [|f IH]; intros s st H Hf; [lia|]. cbn [pump_fuel] in H.
  destruct (_ <? _)%nat eqn:Hrun; bool_hyps.
  - destruct (pass _ s) as [s1 a] eqn:Hp. pose proof (pass_started _ _ _ _ Hp) as Hs.
    destruct a as [|x a].
    + injection H as -> _. right. intros key Hk.
      destruct (pass_none _ _ _ Hp Hrun) as (Hq & Ha & Hw & Hall); [done|].
      rewrite (startable_ext s s') by done. apply Hall.
      rewrite take_ge by done. by rewrite <-(sb_order _ _ _ Hs).
    + destruct (pump_fuel f s1) as [s2 b] eqn:Hf2. injection H as -> _.
      eapply IH; [exact Hf2|].
      destruct Hs as [(Hg & _ & _) Hr _ _ _ _ _]. rewrite Hg, Hr. cbn [length]. lia.
  - injection H as -> _. by left.
Qed.

Lemma sched_pump_spec s s' st : pump s = (s', st) -> started_by s s' st /\ saturated s'.
Proof.
  unfold pump. intros H. split; [by eapply pump_fuel_started|].
  eapply pump_fuel_saturated; [exact H|lia].
Qed.

Lemma saturated_live y :
  core y -> saturated (y_sched y) -> 0 < s_globalCap (y_sched y) -> 0 < s_perWorker (y_sched y) ->
  live (y_sched y).
Proof.
  intros [Hcap Hrun Hact Hq [Hnd Hord] Hf] Hsat Hg Hw k Hk.
  destruct Hsat as [|Hsat]; [lia|].
  assert (Hin : k ∈ s_order (y_sched y)).
  { apply Hord. unfold queue_of in Hk. destruct (s_queues (y_sched y) !! k); [eauto|done]. }
  specialize (Hsat k Hin). unfold startable in Hsat.
  destruct (queue_of (y_sched y) k) as [|it rest]; [done|].
  apply negb_false_iff, andb_true_iff in Hsat as [Ha _]. bool_hyps.
  rewrite Hact in Ha. destruct (y_running y) as [|p l] eqn:Er; [rewrite of_key_nil in Ha; cbn in Ha; lia|].
  cbn in Hrun. lia.
Qed.

Lemma core_pump s0 s st run sub started forgot :
  core (mkSys s0 run sub started forgot) -> pump s0 = (s, st) ->
  0 < s_globalCap s0 -> 0 < s_perWorker s0 ->
  invariant (mkSys s (run ++ st) sub (started ++ st) forgot).
Proof.
  intros [Hcap Hrun Hact Hq [Hnd Hord] Hf] Hp HG HW. cbn in *.
  apply sched_pump_spec in Hp as [[(Hg & Hw & Hqc) Hr Hc Hqu Ha Ho Hd] Hsat].
  assert (Hcore : core (mkSys s (run ++ st) sub (started ++ st) forgot)).
  { constructor; cbn.
    - auto.
    - rewrite length_app. lia.
    - intros k. rewrite Ha, Hact, of_key_app, length_app. lia.
    - intros k. specialize (Hq k). rewrite (Hqu k), length_app in Hq. lia.
    - split; [by rewrite Ho|]. intros k. by rewrite Ho, Hord, Hd.
    - intros k Hk. rewrite of_key_app, <-app_assoc, <-Hqu. auto. }
  split; [done|]. split; [|cbn; split; congruence].
  apply (saturated_live (mkSys s (run ++ st) sub (started ++ st) forgot) Hcore); cbn; congruence.
Qed.

Lemma sched_invariant_initial o : 0 < o_globalCap o -> invariant (initial o).
Proof.
  intros Hg. split; [constructor; cbn; try done; try lia|].
  - intros k. unfold queue_of. cbn. rewrite lookup_empty. cbn. lia.
  - split; [constructor|]. intros k. rewrite lookup_empty. split; [set_solver|by intros []].
  - split; [intros k Hk; done|]. split; [done|]. cbn. destruct (_ =? 0)%nat eqn:E; bool_hyps; lia.
Qed.

(** Creating the queue of a new key keeps the core. *)
Lemma core_open key y :
  core y -> s_queues (y_sched y) !! key = None ->
  core (mkSys (mkSched (s_globalCap (y_sched y)) (s_perWorker (y_sched y)) (s_queueCap (y_sched y))
                 (<[key := []]> (s_queues (y_sched y))) (s_active (y_sched y))
                 (s_running (y_sched y)) (s_order (y_sched y) ++ [key]))
          (y_running y) (y_submitted y) (y_started y) (y_forgotten y)).
Proof.
  intros [Hcap Hrun Hact Hq [Hnd Hord] Hf] Hnone.
  assert (Hqk : forall k, queue_of (mkSched (s_globalCap (y_sched y)) (s_perWorker (y_sched y)) (s_queueCap (y_sched y))
                 (<[key := []]> (s_queues (y_sched y))) (s_active (y_sched y))
                 (s_running (y_sched y)) (s_order (y_sched y) ++ [key])) k = queue_of (y_sched y) k).
  { intros k. unfold queue_of. cbn. rewrite lookup_insert. case_decide as Hk; [|done]. subst k. by rewrite Hnone. }
  constructor; cbn [y_sched y_running y_submitted y_started y_forgotten]; auto.
  - intros k. rewrite Hqk. apply Hq.
  - cbn. split.
    + apply NoDup_app. split; [done|]. split; [|apply NoDup_singleton].
      intros k Hk. rewrite Hord in Hk. rewrite list_elem_of_singleton. intros ->. destruct Hk as [? Hk]. congruence.
    + intros k. rewrite elem_of_app, Hord. destruct (decide (key = k)) as [->|Hne].
      * rewrite lookup_insert_eq. split; [eauto|set_solver].
      * rewrite lookup_insert_ne by done. set_solver.
  - intros k Hk. rewrite Hqk. auto.
Qed.

(** Queueing one item below the queue's cap keeps the core. *)
Lemma core_enqueue key it y :
  core y -> key ∉ y_forgotten y -> is_Some (s_queues (y_sched y) !! key) ->
  length (queue_of (y_sched y) key) < s_queueCap (y_sched y) ->
  core (mkSys (mkSched (s_globalCap (y_sched y)) (s_perWorker (y_sched y)) (s_queueCap (y_sched y))
                 (<[key := queue_of (y_sched y) key ++ [it]]> (s_queues (y_sched y)))
                 (s_active (y_sched y)) (s_running (y_sched y)) (s_order (y_sched y)))
          (y_running y) (y_submitted y ++ [(key, it)]) (y_started y) (y_forgotten y)).
Proof.
  intros [Hcap Hrun Hact Hq [Hnd Hord] Hf] Hkey Hsome Hlen.
  set (s1 := mkSched _ _ _ _ _ _ _).
  assert (Hqk : forall k, queue_of s1 k =
    if decide (key = k) then queue_of (y_sched y) key ++ [it] else queue_of (y_sched y) k).
  { intros k. unfold queue_of. cbn. rewrite lookup_insert. by case_decide. }
  constructor; cbn [y_sched y_running y_submitted y_started y_forgotten]; auto.
  - intros k. rewrite Hqk. case_decide as Hk; [|apply Hq].
    rewrite length_app. cbn. lia.
  - split; [done|]. intros k. cbn. rewrite Hord. destruct (decide (key = k)) as [->|Hne].
    + rewrite lookup_insert_eq. split; eauto.
    + by rewrite lookup_insert_ne.
  - intros k Hk. rewrite of_key_app, of_key_cons, of_key_nil, Hqk. cbn [fst snd].
    case_decide as Hkk.
    + subst k. rewrite String.eqb_refl. cbn. rewrite app_assoc, <-Hf by done. done.
    + rewrite (proj2 (String.eqb_neq key k)) by done. cbn. rewrite app_nil_r. auto.
Qed.

Lemma invariant_submit key it y s st :
  invariant y -> key ∉ y_forgotten y -> (submit key it (y_sched y)).1 = Some (s, st) ->
  invariant (mkSys s (y_running y ++ st) (y_submitted y ++ [(key, it)]) (y_started y ++ st) (y_forgotten y)).
Proof.
  intros (Hc & _ & Hg & Hw) Hk. unfold submit. destruct (s_queues (y_sched y) !! key) as [q|] eqn:Eq.
  - destruct (_ <=? _)%nat eqn:Hle; cbn [fst]; [done|]. intros [= Hp]. bool_hyps.
    eapply core_pump; [|exact Hp|done|done]. by apply core_enqueue; eauto.
  - destruct (_ <=? _)%nat eqn:Hle; cbn [fst]; [done|]. intros [= Hp]. bool_hyps.
    pose proof (core_open key y Hc Eq) as Hc1.
    eapply core_pump; [|exact Hp|done|done]. eapply (core_enqueue key it _ Hc1); cbn; auto.
    rewrite lookup_insert_eq. eauto.
Qed.

Lemma invariant_reject key it y :
  invariant y -> (submit key it (y_sched y)).1 = None ->
  invariant (mkSys (submit key it (y_sched y)).2 (y_running y) (y_submitted y) (y_started y) (y_forgotten y)).
Proof.
  intros (Hc & Hl & Hg & Hw). unfold submit. destruct (s_queues (y_sched y) !! key) as [q|] eqn:Eq.
  - destruct (_ <=? _)%nat; cbn; [|done]. intros _. split; [by destruct Hc|done].
  - destruct (_ <=? _)%nat eqn:Hle; cbn [fst snd]; [|done]. intros _.
    split; [by apply (core_open key y)|]. split; [|done].
    intros k Hk. cbn. apply (Hl k). intros Hn. apply Hk. unfold queue_of in *. cbn.
    rewrite lookup_insert. case_decide; done.
Qed.

Lemma of_key_remove k l1 l2 key (it : item) :
  length (of_key k (l1 ++ (key, it) :: l2)) =
  length (of_key k (l1 ++ l2)) + (if String.eqb key k then 1 else 0).
Proof.
  rewrite !of_key_app, of_key_cons, !length_app. cbn. destruct (String.eqb key k); cbn; lia.
Qed.

Lemma invariant_finish key it y l1 l2 s st :
  invariant y -> y_running y = l1 ++ (key, it) :: l2 -> finish key (y_sched y) = (s, st) ->
  invariant (mkSys s (l1 ++ l2 ++ st) (y_submitted y) (y_started y ++ st) (y_forgotten y)).
Proof.
  intros (Hc & _ & Hg & Hw) Hrun. unfold finish. intros Hp. rewrite app_assoc.
  eapply core_pump; [|exact Hp|done|done]. destruct Hc as [Hcap Hr Hact Hq [Hnd Hord] Hf].
  rewrite Hrun in Hr. rewrite length_app in Hr. cbn [length] in Hr.
  constructor; cbn; auto.
  - lia.
  - rewrite length_app. lia.
  - intros k. unfold active_of. cbn. rewrite lookup_insert.
    specialize (Hact k). rewrite Hrun, of_key_remove in Hact. unfold active_of in Hact.
    case_decide as Hk.
    + subst k. rewrite String.eqb_refl in Hact. cbn.
      destruct (s_active (y_sched y) !! key) as [[|n]|]; cbn in *; lia.
    + rewrite (proj2 (String.eqb_neq key k)) in Hact by done. lia.
Qed.

Lemma filter_ne_elem (k key : string) l :
  k ∈ List.filter (fun x => negb (String.eqb x key)) l <-> k ∈ l /\ k <> key.
Proof.
  rewrite !list_elem_of_In, filter_In, negb_true_iff, String.eqb_neq. done.
Qed.

Lemma filter_bool_nodup {A} (f : A -> bool) l : NoDup l -> NoDup (List.filter f l).
Proof. rewrite !NoDup_ListNoDup. apply List.NoDup_filter. Qed.

Lemma queue_forget key s k :
  queue_of (forget key s).1 k = if decide (key = k) then [] else queue_of s k.
Proof. unfold queue_of. cbn. rewrite lookup_delete. by case_decide. Qed.

Lemma invariant_forget key y :
  invariant y ->
  invariant (mkSys (forget key (y_sched y)).1 (y_running y) (y_submitted y) (y_started y)
               ({[key]} ∪ y_forgotten y)).
Proof.
  intros ([Hcap Hr Hact Hq [Hnd Hord] Hf] & Hl & Hg & Hw).
  split; [constructor; cbn [y_sched y_running y_submitted y_started y_forgotten]; auto|].
  - intros k. rewrite queue_forget. case_decide; [cbn; lia|apply Hq].
  - cbn. split; [by apply filter_bool_nodup|]. intros k. rewrite filter_ne_elem, Hord, lookup_delete.
    case_decide as Hk; [|intuition congruence]. subst. split; [tauto|by intros []].
  - intros k Hk. rewrite queue_forget. rewrite decide_False by set_solver. apply Hf. set_solver.
  - split; [|done]. intros k. cbn [y_sched]. rewrite queue_forget. case_decide; [done|]. apply Hl.
Qed.

Lemma sched_invariant_step y y' : step y y' -> invariant y -> invariant y'.
Proof.
  intros [] Hi; eauto using invariant_submit, invariant_reject, invariant_finish, invariant_forget.
Qed.

Lemma sched_invariant_reachable o y : 0 < o_globalCap o -> rtc step (initial o) y -> invariant y.
Proof.
  intros Ho H. assert (Hi : invariant (initial o)) by by apply sched_invariant_initial.
  induction H as [|x y z Hxy _ IH]; eauto using sched_invariant_step.
Qed.

(** ** Properties *)

(** In every state the scheduler can reach, the operations in flight are
    exactly the tasks started and not settled and never exceed the global cap,
    each worker's count is its own tasks in flight, no queue exceeds its
    bound, a worker's tasks start in the order it submitted them, and nothing
    waits while nothing runs. *)
Theorem scheduler_safe o y :
  0 < o_globalCap o -> rtc step (initial o) y ->
  s_running (y_sched y) = length (y_running y) /\
  length (y_running y) <= s_globalCap (y_sched y) /\
  (forall k, active_of (y_sched y) k = length (of_key k (y_running y))) /\
  (forall k, length (queue_of (y_sched y) k) <= s_queueCap (y_sched y)) /\
  (forall k, k ∉ y_forgotten y ->
     of_key k (y_submitted y) = of_key k (y_started y) ++ queue_of (y_sched y) k) /\
  (forall k, queue_of (y_sched y) k <> [] -> y_running y <> []).
Proof.
  intros Ho H. destruct (sched_invariant_reachable o y Ho H) as ([Hcap Hr Hact Hq _ Hf] & Hl & _).
  repeat split; auto; [lia|]. intros k Hk Hn. specialize (Hl k Hk). rewrite Hn in Hr. cbn in Hr. lia.
Qed.

(** Pumping is work-conserving and terminates within its passes: when it
    stops, either the cap is met or no key may start, its first task being
    held back only because its worker is at its share while another worker
    waits; and what it started it took from the heads of the queues. *)
Theorem pump_work_conserving s s' st :
  pump s = (s', st) ->
  (s_globalCap s' <= s_running s' \/
   forall key, key ∈ s_order s' -> queue_of s' key <> [] ->
     s_perWorker s' <= active_of s' key /\
     exists other, other <> key /\ queue_of s' other <> []) /\
  (forall k, queue_of s k = of_key k st ++ queue_of s' k) /\
  s_running s' = s_running s + length st.
Proof.
  intros Hp. apply sched_pump_spec in Hp as [Hs Hsat]. split; [|split; [apply Hs|apply Hs]].
  destruct Hsat as [|Hsat]; [by left|]. right. intros key Hk Hq. specialize (Hsat key Hk).
  unfold startable in Hsat. destruct (queue_of s' key); [done|].
  apply negb_false_iff, andb_true_iff in Hsat as [Ha Ho]. bool_hyps. split; [done|].
  unfold waitingOthers in Ho. bool_hyps. destruct Ho as (k & q & Hkq & Hne & Hqe).
  exists k. split; [done|]. unfold queue_of. by rewrite Hkq.
Qed.

Definition sample_opts : sched_opts := mkOpts 2 1 0.

(** Two workers contend for two slots at a share of one. *)
Definition sample0 : sched := ((submit "a" 1 (new_sched sample_opts))).2.
Definition sample1 : sched := ((submit "a" 2 sample0)).2.

Lemma scheduler_safe_witness :
  exists y, y_running y = [("a", 1)] /\ length (y_running y) <= s_globalCap (y_sched y).
Proof.
  eexists (mkSys _ ([] ++ _) ([] ++ [("a", 1)]) ([] ++ _) ∅). split; [reflexivity|].
  refine (proj1 (proj2 (scheduler_safe sample_opts _ _ _))); [cbn; lia|].
  eapply rtc_l; [|apply rtc_refl]. apply (step_submit "a" 1 (initial sample_opts)).
  - cbn. set_solver.
  - reflexivity.
Defined.

Lemma pump_work_conserving_witness :
  s_running sample1 = 2 /\ s_running (pump sample1).1 = s_running sample1 + length (pump sample1).2.
Proof.
  split; [reflexivity|].
  exact (proj2 (proj2 (pump_work_conserving sample1 _ _ (surjective_pairing (pump sample1))))).
Defined.
