(* ===== verification/FsErrors.v ===== *)
(** * Broker errors (lib/fs-broker/errors.js)

    Node-shaped errors carrying the path the module gave (virtual), and the
    re-addressing of host errors to the module's paths. *)
From Stdlib Require Import ZArith Lia Ascii String.
From stdpp Require Import prelude strings gmap.
From S2P Require Import Prelude Paths Namespace.

Set Default Proof Using "Type".

(** ** A placed path argument ([place]'s answer, lib/fs-broker/broker.js) *)

Inductive identity :=
| IdInode (dev ino : Z)
| IdParent (parent : string).

#[export] Instance identity_eq_dec : EqDecision identity.
Proof. solve_decision. Defined.

Record placed := mkPlaced {
  p_res : resolved;
  p_host : option string;
  p_virtual : string;
  p_root : option root;
  p_ident : option identity
}.

(** ** Messages *)

Definition error_text : list (string * string) :=
  [ ("ENOENT", "no such file or directory"); ("EROFS", "read-only file system");
    ("EPERM", "operation not permitted"); ("EBUSY", "resource busy or locked");
    ("EMFILE", "too many open files"); ("EBADF", "bad file descriptor");
    ("EXDEV", "cross-device link not permitted"); ("ETIMEDOUT", "connection timed out");
    ("EIO", "i/o error"); ("EINVAL", "invalid argument"); ("EACCES", "permission denied");
    ("EISDIR", "illegal operation on a directory"); ("EEXIST", "file already exists");
    ("ENOTDIR", "not a directory"); ("ENOTEMPTY", "directory not empty");
    ("ELOOP", "too many symbolic links encountered"); ("EFBIG", "file too large");
    ("ENOBUFS", "no buffer space available"); ("ENXIO", "no such device or address") ].

(** [os.constants.errno], as Linux has it. *)
Definition os_errno : list (string * Z) :=
  [ ("EPERM", 1); ("ENOENT", 2); ("EIO", 5); ("ENXIO", 6); ("EBADF", 9); ("EACCES", 13);
    ("EBUSY", 16); ("EEXIST", 17); ("EXDEV", 18); ("ENOTDIR", 20); ("EISDIR", 21);
    ("EINVAL", 22); ("EMFILE", 24); ("EFBIG", 27); ("ENOSPC", 28); ("EROFS", 30);
    ("ENOTEMPTY", 39); ("ELOOP", 40); ("ENOBUFS", 105); ("ETIMEDOUT", 110) ]%Z.

Definition quoted (s : string) : string := "'" +:+ s +:+ "'".

Definition nodeError (code syscall : string) (vpath dest : option string) : jserr :=
  let where_ := match vpath with
                | Some v => " " +:+ quoted v +:+
                            match dest with Some d => " -> " +:+ quoted d | None => "" end
                | None => ""
                end in
  mkErr (code +:+ ": " +:+ default (lowercase code) (assoc code error_text) +:+ ", " +:+ syscall +:+ where_)
    (Some code) (Some (- default 0%Z (assoc code os_errno))%Z) (Some syscall) vpath dest.

(** ** Scrubbing host paths out of a message *)

(** [s.split(sep).join(by)] for a non-empty separator: every occurrence, left
    to right. *)
Fixpoint replace_all_fuel (fuel : nat) (sep by_ s : string) : string :=
  match fuel with
  | O => s
  | S f =>
      match s with
      | EmptyString => EmptyString
      | String c s' =>
          if starts_with sep s then by_ +:+ replace_all_fuel f sep by_ (sdrop (String.length sep) s)
          else String c (replace_all_fuel f sep by_ s')
      end
  end.

(** [s.split('')] gives the characters. *)
Fixpoint chars (s : string) : list string :=
  match s with
  | EmptyString => []
  | String c s' => String c EmptyString :: chars s'
  end.

Definition replace_all (sep by_ s : string) : string :=
  if String.eqb sep "" then join by_ (chars s)
  else replace_all_fuel (String.length s) sep by_ s.

Definition scrub_placed (s : string) (p : option placed) : string :=
  match p with
  | Some p => match p_host p with
              | Some h => if String.eqb h (p_virtual p) then s else replace_all h (p_virtual p) s
              | None => s
              end
  | None => s
  end.

Definition scrub_root (s : string) (r : root) : string :=
  let s1 := if String.eqb (r_real r) (r_vroot r) then s else replace_all (r_real r) (r_vroot r) s in
  if String.eqb (r_host r) (r_vroot r) then s1 else replace_all (r_host r) (r_vroot r) s1.

Definition scrub (text : string) (p dest : option placed) (ns : namespace) : string :=
  let s := scrub_placed (scrub_placed text p) dest in
  fold_left scrub_root (sort_desc (fun r => String.length (r_real r)) (ns_roots ns)) s.

(** [/^E[A-Z0-9]+$/] *)
Definition upper_or_digit (c : ascii) : bool :=
  let n := nat_of_ascii c in
  (((65 <=? n) && (n <=? 90)) || ((48 <=? n) && (n <=? 57)))%nat.

Definition errno_code (code : string) : bool :=
  match code with
  | String e rest =>
      Ascii.eqb e "E" && negb (String.eqb rest "") && forallb upper_or_digit (list_ascii_of_string rest)
  | EmptyString => false
  end.

(** Any error out of a host operation, re-addressed to the module's paths. *)
Definition rewrite_err (e : jserr) (syscall : string) (p dest : option placed) (ns : namespace) : jserr :=
  let vpath := p_virtual <$> p in
  let vdest := p_virtual <$> dest in
  match e_code e with
  | Some c =>
      if errno_code c
      then nodeError c (match e_syscall e with
                        | Some s => if String.eqb s "" then syscall else s
                        | None => syscall
                        end) vpath vdest
      else mkErr (scrub (e_message e) p dest ns) (Some c) None (e_syscall e) vpath vdest
  | None => mkErr (scrub (e_message e) p dest ns) None None (e_syscall e) vpath vdest
  end.

(** ** Lemmas *)

Lemma nodeError_code code syscall v d : e_code (nodeError code syscall v d) = Some code.
Proof. done. Qed.

Lemma errno_code_rewrite e c syscall p dest ns :
  e_code e = Some c -> e_code (rewrite_err e syscall p dest ns) = Some c.
Proof. intros H. unfold rewrite_err. rewrite H. by destruct (errno_code c). Qed.

#[export] Hint Rewrite nodeError_code : js.
