(* ===== verification/Quota.v ===== *)
(** * The per-module disk quota (lib/fs-broker/quota.js)

    One pool for /data and /tmp: [reserve] before growth, [settle] after with
    what happened, and a report each time a threshold of the pool is crossed.
    A size is a number of bytes, a count a number of entries: integers (the
    code's are doubles, exact below 2^53), or the NaN an operation's argument
    can turn them into. *)
From Stdlib Require Import ZArith Lia Ascii String.
From stdpp Require Import prelude strings gmap.
From S2P Require Import Prelude Paths Namespace FsErrors.

Set Default Proof Using "Type".
Local Open Scope Z_scope.

(** ** Numbers *)

(** A number as the accounting meets it: an integer, or NaN. *)
Inductive num := Fin (z : Z) | NaN.

Definition nadd (a b : num) : num := match a, b with Fin x, Fin y => Fin (x + y) | _, _ => NaN end.
Definition nsub (a b : num) : num := match a, b with Fin x, Fin y => Fin (x - y) | _, _ => NaN end.
(** [Math.max(0, a)] *)
Definition nmax0 (a : num) : num := match a with Fin x => Fin (Z.max 0 x) | NaN => NaN end.
(** [z < a] and [a < z]: no comparison with NaN holds. *)
Definition zltn (z : Z) (a : num) : bool := match a with Fin x => z <? x | NaN => false end.
Definition nltz (a : num) (z : Z) : bool := match a with Fin x => x <? z | NaN => false end.
Definition num_text (a : num) : string := match a with Fin z => Z_text z | NaN => "NaN" end.

(** ** The class *)

(** [this.armed[key]]: one flag per threshold. *)
Record armed := mkArmed { a_75 : bool; a_100 : bool }.

Record quota := mkQuota {
  q_maxBytes : Z;
  q_maxEntries : Z;
  q_enforce : bool;
  q_bytes : num;
  q_entries : num;
  q_armed_mb : armed;
  q_armed_entries : armed
}.

Definition new_quota (maxBytes maxEntries : Z) (enforce : bool) (bytes entries : Z) : quota :=
  mkQuota maxBytes maxEntries enforce (Fin bytes) (Fin entries) (mkArmed true true) (mkArmed true true).

(** A threshold: its numerator over 4 (0.75 and 1), and the percentage the
    report shows. *)
Definition t_75 : Z := 3.
Definition t_100 : Z := 4.

(** [used >= max * t], and [used < max * t]. *)
Definition over (used : num) (max t : Z) : bool := match used with Fin u => max * t <=? 4 * u | NaN => false end.
Definition under (used : num) (max t : Z) : bool := match used with Fin u => 4 * u <? max * t | NaN => false end.

(** A report: the detail text of [reportFn('quota', ...)]. *)
Definition report_text (pct : string) (key : string) (used : num) (max : Z) (unit_ : string) : string :=
  pct +:+ "% of " +:+ key +:+ " (" +:+ num_text used +:+ " of " +:+ Z_text max +:+ " " +:+ unit_ +:+ ")".

(** One threshold of one pool: the new flag and whether it reports. *)
Definition cross (flag : bool) (used : num) (max t : Z) : bool * bool :=
  if flag && over used max t then (false, true)
  else if negb flag && under used max t then (true, false)
  else (flag, false).

Definition crossings_of (a : armed) (used : num) (max : Z) (key unit_ : string) : armed * list string :=
  let '(f75, r75) := cross (a_75 a) used max t_75 in
  let '(f100, r100) := cross (a_100 a) used max t_100 in
  (mkArmed f75 f100,
   (if r75 then [report_text "75" key used max unit_] else []) ++
   (if r100 then [report_text "100" key used max unit_] else [])).

Definition crossings (q : quota) : quota * list string :=
  let '(mb, r1) := crossings_of (q_armed_mb q) (q_bytes q) (q_maxBytes q) "diskMb" "bytes" in
  let '(en, r2) := crossings_of (q_armed_entries q) (q_entries q) (q_maxEntries q) "diskEntries" "entries" in
  (mkQuota (q_maxBytes q) (q_maxEntries q) (q_enforce q) (q_bytes q) (q_entries q) mb en, r1 ++ r2).

Definition with_usage (q : quota) (bytes entries : num) : quota :=
  mkQuota (q_maxBytes q) (q_maxEntries q) (q_enforce q) bytes entries (q_armed_mb q) (q_armed_entries q).

(** Would this reservation pass a limit? *)
Definition exceeds (q : quota) (bytes entries : num) : bool :=
  (zltn 0 bytes && zltn (q_maxBytes q) (nadd (q_bytes q) bytes)) ||
  (zltn 0 entries && zltn (q_maxEntries q) (nadd (q_entries q) entries)).

Definition reserve (q : quota) (bytes entries : num) (syscall virtual : string)
  : result (quota * list string) :=
  if exceeds q bytes entries && q_enforce q then Throw (nodeError "ENOSPC" syscall (Some virtual) None)
  else Ok (crossings (with_usage q (nadd (q_bytes q) bytes) (nadd (q_entries q) entries))).

Definition settle (q : quota) (reservedBytes reservedEntries actualBytes actualEntries : num)
  : quota * list string :=
  crossings (with_usage q (nmax0 (nadd (nsub (q_bytes q) reservedBytes) actualBytes))
                          (nmax0 (nadd (nsub (q_entries q) reservedEntries) actualEntries))).

(** ** Operations as a sequence *)

Inductive op :=
| Reserve (bytes entries : num)
| Settle (reservedBytes reservedEntries actualBytes actualEntries : num).

(** One operation, with its reports; a refused reservation changes nothing. *)
Definition apply_op (o : op) (q : quota) : quota * list string :=
  match o with
  | Reserve b e => match reserve q b e "" "" with Ok r => r | Throw _ => (q, []) end
  | Settle rb re ab ae => settle q rb re ab ae
  end.

Fixpoint run_ops (os : list op) (q : quota) : quota * list string :=
  match os with
  | [] => (q, [])
  | o :: rest => let '(q1, r1) := apply_op o q in
                 let '(q2, r2) := run_ops rest q1 in (q2, r1 ++ r2)
  end.

(** The pool a report names. *)
Definition pool_used (key : string) (q : quota) : num :=
  if String.eqb key "diskMb" then q_bytes q else q_entries q.
Definition pool_max (key : string) (q : quota) : Z :=
  if String.eqb key "diskMb" then q_maxBytes q else q_maxEntries q.
Definition pool_unit (key : string) : string :=
  if String.eqb key "diskMb" then "bytes" else "entries".
Definition pool_armed (key : string) (q : quota) : armed :=
  if String.eqb key "diskMb" then q_armed_mb q else q_armed_entries q.

(** The four thresholds: pool, percentage shown, numerator. *)
Definition pool_thresholds : list (string * string * Z) :=
  [("diskMb", "75", t_75); ("diskMb", "100", t_100);
   ("diskEntries", "75", t_75); ("diskEntries", "100", t_100)].

(** The report of a pool at a threshold. *)
Definition pool_report (key pct : string) (q : quota) : string :=
  report_text pct key (pool_used key q) (pool_max key q) (pool_unit key).

(** A pool's flags say which thresholds it is under. *)
Definition armed_ok (a : armed) (used : num) (max : Z) : Prop :=
  a_75 a = negb (over used max t_75) /\ a_100 a = negb (over used max t_100).

(** Counted by integers only. *)
Definition finite (n : num) : Prop := n <> NaN.
Definition finite_op (o : op) : Prop :=
  match o with
  | Reserve b e => finite b /\ finite e
  | Settle rb re ab ae => finite rb /\ finite re /\ finite ab /\ finite ae
  end.
Definition counted_pools (q : quota) : Prop := finite (q_bytes q) /\ finite (q_entries q).

Definition flags_ok (q : quota) : Prop :=
  armed_ok (q_armed_mb q) (q_bytes q) (q_maxBytes q) /\
  armed_ok (q_armed_entries q) (q_entries q) (q_maxEntries q).

(** ** Lemmas *)

Lemma cross_flag flag used max t : finite used -> (cross flag used max t).1 = negb (over used max t).
Proof.
  intros Hf. unfold cross, over, under. destruct used as [u|]; [|done].
  destruct flag, (Z.leb_spec (max * t) (4 * u)), (Z.ltb_spec (4 * u) (max * t)); cbn; (done || lia).
Qed.

Lemma cross_report flag used max t : (cross flag used max t).2 = flag && over used max t.
Proof. unfold cross. by destruct flag, (over used max t), (under used max t). Qed.

Lemma crossings_of_ok a used max key u : finite used -> armed_ok (crossings_of a used max key u).1 used max.
Proof.
  intros Hf. unfold crossings_of, armed_ok.
  pose proof (cross_flag (a_75 a) used max t_75 Hf). pose proof (cross_flag (a_100 a) used max t_100 Hf).
  destruct (cross (a_75 a) used max t_75), (cross (a_100 a) used max t_100). cbn in *. by subst.
Qed.

Lemma crossings_fields q :
  q_maxBytes (crossings q).1 = q_maxBytes q /\ q_maxEntries (crossings q).1 = q_maxEntries q /\
  q_enforce (crossings q).1 = q_enforce q /\ q_bytes (crossings q).1 = q_bytes q /\
  q_entries (crossings q).1 = q_entries q.
Proof. unfold crossings. by destruct (crossings_of _ _ _ _ _), (crossings_of _ _ _ _ _). Qed.

Lemma crossings_flags q : counted_pools q -> flags_ok (crossings q).1.
Proof.
  intros [Hb He]. unfold crossings, flags_ok.
  pose proof (crossings_of_ok (q_armed_mb q) (q_bytes q) (q_maxBytes q) "diskMb" "bytes" Hb).
  pose proof (crossings_of_ok (q_armed_entries q) (q_entries q) (q_maxEntries q) "diskEntries" "entries" He).
  by destruct (crossings_of _ _ _ _ _), (crossings_of _ _ _ _ _).
Qed.

(** The reports of [crossings], threshold by threshold. *)
Lemma crossings_of_reports a used max key u s :
  s ∈ (crossings_of a used max key u).2 <->
  (a_75 a = true /\ over used max t_75 = true /\ s = report_text "75" key used max u) \/
  (a_100 a = true /\ over used max t_100 = true /\ s = report_text "100" key used max u).
Proof.
  unfold crossings_of.
  pose proof (cross_report (a_75 a) used max t_75). pose proof (cross_report (a_100 a) used max t_100).
  destruct (cross (a_75 a) used max t_75) as [? b1], (cross (a_100 a) used max t_100) as [? b2]. cbn in *. subst.
  destruct (a_75 a), (over used max t_75), (a_100 a), (over used max t_100); cbn; set_solver.
Qed.

Lemma settle_usage q rb re ab ae :
  q_bytes (settle q rb re ab ae).1 = nmax0 (nadd (nsub (q_bytes q) rb) ab) /\
  q_entries (settle q rb re ab ae).1 = nmax0 (nadd (nsub (q_entries q) re) ae).
Proof.
  unfold settle. destruct (crossings_fields (with_usage q (nmax0 (nadd (nsub (q_bytes q) rb) ab))
    (nmax0 (nadd (nsub (q_entries q) re) ae)))) as (_ & _ & _ & -> & ->). done.
Qed.

Lemma reserve_usage q b e sc v q' r :
  reserve q b e sc v = Ok (q', r) ->
  q_bytes q' = nadd (q_bytes q) b /\ q_entries q' = nadd (q_entries q) e /\
  q_maxBytes q' = q_maxBytes q /\ q_maxEntries q' = q_maxEntries q /\ q_enforce q' = q_enforce q /\
  (exceeds q b e = false \/ q_enforce q = false).
Proof.
  unfold reserve. destruct (exceeds q b e && q_enforce q) eqn:E; [done|]. intros [= H].
  pose proof (crossings_fields (with_usage q (nadd (q_bytes q) b) (nadd (q_entries q) e))) as (?&?&?&?&?).
  rewrite H in *. cbn in *. repeat split; try done. by apply andb_false_iff in E.
Qed.

Lemma finite_add a b : finite a -> finite b -> finite (nadd a b).
Proof. by destruct a, b. Qed.
Lemma finite_sub a b : finite a -> finite b -> finite (nsub a b).
Proof. by destruct a, b. Qed.
Lemma finite_max0 a : finite a -> finite (nmax0 a).
Proof. by destruct a. Qed.
#[local] Hint Resolve finite_add finite_sub finite_max0 : core.

Lemma report_text_distinct k1 k2 p1 p2 u1 m1 x1 u2 m2 x2 :
  (p1, k1) ∈ [("75", "diskMb"); ("75", "diskEntries"); ("100", "diskMb"); ("100", "diskEntries")] ->
  (p2, k2) ∈ [("75", "diskMb"); ("75", "diskEntries"); ("100", "diskMb"); ("100", "diskEntries")] ->
  report_text p1 k1 u1 m1 x1 = report_text p2 k2 u2 m2 x2 -> p1 = p2 /\ k1 = k2.
Proof.
  rewrite !elem_of_cons. intros H1 H2. unfold report_text.
  destruct_or?; simplify_eq; rewrite !sapp_cons; try done; intros ?; set_solver.
Qed.

(** A report of [crossings] is one pool's flag still set and its usage at or
    over the threshold. *)
Lemma crossings_report q key pct t :
  (key, pct, t) ∈ pool_thresholds ->
  pool_report key pct q ∈ (crossings q).2 <->
  (if String.eqb pct "75" then a_75 (pool_armed key q) else a_100 (pool_armed key q)) = true /\
  over (pool_used key q) (pool_max key q) t = true.
Proof.
  intros Hk. unfold crossings, pool_report, pool_armed, pool_used, pool_max, pool_unit.
  pose proof (fun s => crossings_of_reports (q_armed_mb q) (q_bytes q) (q_maxBytes q) "diskMb" "bytes" s) as H1.
  pose proof (fun s => crossings_of_reports (q_armed_entries q) (q_entries q) (q_maxEntries q) "diskEntries" "entries" s) as H2.
  destruct (crossings_of (q_armed_mb q) _ _ _ _) as [mb r1], (crossings_of (q_armed_entries q) _ _ _ _) as [en r2].
  cbn [snd] in *. rewrite elem_of_app, H1, H2. clear H1 H2.
  unfold pool_thresholds in Hk.
  rewrite !elem_of_cons in Hk. destruct_or?; simplify_eq; cbn [String.eqb Ascii.eqb Bool.eqb].
  all: try (by set_solver).
  all: split; [intros Hs; destruct_or?; destruct_and?; try done;
               match goal with H : report_text _ _ _ _ _ = _ |- _ =>
                 apply report_text_distinct in H as [? ?]; [done|set_solver|set_solver] end
              | intros [? ?]; tauto].
Qed.

Lemma flags_ok_armed q key pct t :
  flags_ok q -> (key, pct, t) ∈ pool_thresholds ->
  (if String.eqb pct "75" then a_75 (pool_armed key q) else a_100 (pool_armed key q)) =
  negb (over (pool_used key q) (pool_max key q) t).
Proof.
  intros [[? ?] [? ?]] Hk. unfold pool_thresholds in Hk. rewrite !elem_of_cons in Hk.
  destruct_or?; simplify_eq; try done. set_solver.
Qed.

(** With the flags right before, a report is a threshold passed upwards. *)
Lemma crossings_edge q b e key pct t :
  flags_ok q -> (key, pct, t) ∈ pool_thresholds ->
  let '(q', reports) := crossings (with_usage q b e) in
  pool_report key pct q' ∈ reports <->
  over (pool_used key q) (pool_max key q) t = false /\
  over (pool_used key q') (pool_max key q') t = true.
Proof.
  intros Hok Hk. pose proof (crossings_fields (with_usage q b e)) as (F1 & F2 & _ & F4 & F5).
  pose proof (crossings_report (with_usage q b e) key pct t Hk) as Hr.
  pose proof (flags_ok_armed q key pct t Hok Hk) as Ha.
  destruct (crossings (with_usage q b e)) as [q' reports]. cbn in F1, F2, F4, F5.
  assert (pool_used key q' = pool_used key (with_usage q b e) /\
          pool_max key q' = pool_max key (with_usage q b e)) as [Hu Hm]
    by (unfold pool_used, pool_max; cbn; rewrite F1, F2, F4, F5; done).
  unfold pool_report in *. rewrite Hu, Hm.
  change (pool_max key (with_usage q b e)) with (pool_max key q) in *.
  change (pool_armed key (with_usage q b e)) with (pool_armed key q) in *.
  rewrite Hr, Ha, negb_true_iff. done.
Qed.

(** A state the accounting keeps: integers, and flags that say what they are
    over. *)
Definition settled (q : quota) : Prop := counted_pools q /\ flags_ok q.

Lemma crossings_settled q b e : finite b -> finite e -> settled (crossings (with_usage q b e)).1.
Proof.
  intros Hb He. split; [|by apply crossings_flags].
  pose proof (crossings_fields (with_usage q b e)) as (_ & _ & _ & H1 & H2).
  unfold counted_pools. rewrite H1, H2. by split.
Qed.

Lemma apply_op_settled o q : finite_op o -> settled q -> settled (apply_op o q).1.
Proof.
  intros Ho [[Hb He] Hf]. destruct o as [b e|rb re ab ae]; cbn.
  - unfold reserve. destruct (exceeds q b e && q_enforce q); [done|]. destruct Ho. apply crossings_settled; auto.
  - destruct Ho as (? & ? & ? & ?). apply crossings_settled; auto.
Qed.

Lemma run_ops_settled os q : Forall finite_op os -> settled q -> settled (run_ops os q).1.
Proof.
  intros Hos. revert q. induction Hos as [|o os Ho Hos IH]; intros q Hq; [done|]. cbn.
  pose proof (apply_op_settled o q Ho Hq). destruct (apply_op o q) as [q1 r1].
  pose proof (IH q1 H). by destruct (run_ops os q1).
Qed.

(** NaN is never left. *)
Lemma nan_absorbs os q : q_bytes q = NaN -> q_bytes (run_ops os q).1 = NaN.
Proof.
  revert q. induction os as [|o os IH]; intros q Hq; [done|]. cbn.
  assert (q_bytes (apply_op o q).1 = NaN) as H1.
  { destruct o as [b e|rb re ab ae]; cbn [apply_op].
    - destruct (reserve q b e "" "") as [[q' r]|] eqn:E; [|done]. apply reserve_usage in E as (E & _). cbn. by rewrite E, Hq.
    - destruct (settle_usage q rb re ab ae) as [-> _]. by rewrite Hq. }
  destruct (apply_op o q) as [q1 r1]. specialize (IH q1 H1). by destruct (run_ops os q1).
Qed.

(** ** Properties *)

(** An enforced reservation is granted exactly when it passes no limit, and
    then usage stays within the limits it grows; a refused one is ENOSPC and
    leaves the pool as it was. *)
Theorem reserve_enforced q u n b e sc v :
  q_enforce q = true -> q_bytes q = Fin u -> q_entries q = Fin n ->
  match reserve q (Fin b) (Fin e) sc v with
  | Ok (q', _) =>
      q_bytes q' = Fin (u + b) /\ q_entries q' = Fin (n + e) /\
      (0 < b -> u + b <= q_maxBytes q) /\ (0 < e -> n + e <= q_maxEntries q)
  | Throw err =>
      e_code err = Some "ENOSPC" /\
      ((0 < b /\ q_maxBytes q < u + b) \/ (0 < e /\ q_maxEntries q < n + e))
  end.
Proof.
  intros He Hu Hn. destruct (reserve q (Fin b) (Fin e) sc v) as [[q' r]|err] eqn:E.
  - apply reserve_usage in E as (-> & -> & _ & _ & _ & [Hx|Hx]); [|congruence]. rewrite Hu, Hn.
    unfold exceeds in Hx. rewrite Hu, Hn in Hx. cbn in Hx. apply orb_false_iff in Hx as [H1 H2].
    apply andb_false_iff in H1, H2.
    repeat split; intros Hpos; [destruct H1|destruct H2]; bool_hyps; lia.
  - unfold reserve in E. destruct (exceeds q (Fin b) (Fin e)) eqn:Hx; rewrite ?He in E; cbn in E; [|done].
    injection E as <-. split; [done|]. unfold exceeds in Hx. rewrite Hu, Hn in Hx. cbn in Hx.
    apply orb_true_iff in Hx as [Hx|Hx]; bool_hyps; [left|right]; lia.
Qed.

(** A size that is not a number passes every limit, enforced or not, and
    takes the pool with it for good: whatever is reserved and settled
    afterwards, no reservation of bytes is refused any more. (The broker
    passes on what Number() makes of an operation's argument: truncate to a
    text that is no number is such a size.) *)
Theorem nan_disarms_quota q sc v :
  exists q' reports, reserve q NaN (Fin 0) sc v = Ok (q', reports) /\
    forall os b, exists q3 r3, reserve (run_ops os q').1 (Fin b) (Fin 0) sc v = Ok (q3, r3).
Proof.
  assert (Hx : forall q0 b', b' = NaN \/ q_bytes q0 = NaN -> exceeds q0 b' (Fin 0) = false).
  { intros q0 b' H. unfold exceeds. apply orb_false_iff. split; [|done].
    destruct H as [->| ->]; [done|]. apply andb_false_r. }
  unfold reserve at 1. rewrite Hx by (by left). cbn [andb].
  pose proof (crossings_fields (with_usage q (nadd (q_bytes q) NaN) (nadd (q_entries q) (Fin 0)))) as (_ & _ & _ & Hq' & _).
  destruct (crossings _) as [q' r'] eqn:E. exists q', r'. split; [done|]. intros os b.
  assert (Hn : q_bytes q' = NaN) by (cbn in Hq'; rewrite Hq'; by destruct (q_bytes q)).
  apply (nan_absorbs os) in Hn. unfold reserve. rewrite Hx by (by right). cbn [andb].
  destruct (crossings (with_usage (run_ops os q').1 _ _)) as [q3 r3]. by exists q3, r3.
Qed.

(** Whatever is reserved and settled, in any order, the flags say after
    every operation which thresholds each pool is under, usage is not negative
    after a settlement, and a threshold of a pool is reported by an operation
    exactly when it takes the pool from under the threshold to at or over it:
    one report per crossing, and again only after falling back under. *)
Theorem threshold_reports os q o key pct t :
  settled q -> Forall finite_op os -> finite_op o -> (key, pct, t) ∈ pool_thresholds ->
  let q1 := (run_ops os q).1 in
  let '(q2, reports) := apply_op o q1 in
  settled q2 /\
  (forall rb re ab ae, o = Settle rb re ab ae -> exists b e, q_bytes q2 = Fin b /\ q_entries q2 = Fin e /\ 0 <= b /\ 0 <= e) /\
  (pool_report key pct q2 ∈ reports <->
   over (pool_used key q1) (pool_max key q1) t = false /\
   over (pool_used key q2) (pool_max key q2) t = true).
Proof.
  intros Hq Hos Ho Hk. cbn zeta. pose proof (run_ops_settled os q Hos Hq) as Hq1.
  set (q1 := (run_ops os q).1) in *. clearbody q1.
  pose proof (apply_op_settled o q1 Ho Hq1) as Hf. destruct Hq1 as [Hc1 Hok1].
  destruct o as [b e|rb re ab ae]; cbn [apply_op] in *.
  - unfold reserve in *. destruct (exceeds q1 b e && q_enforce q1); cbn [fst] in *.
    + split; [done|]. split; [done|]. split; [set_solver|intros [? ?]; congruence].
    + pose proof (crossings_edge q1 (nadd (q_bytes q1) b) (nadd (q_entries q1) e) key pct t Hok1 Hk).
      by destruct (crossings _).
  - pose proof (settle_usage q1 rb re ab ae) as [H1 H2]. unfold settle in *.
    pose proof (crossings_edge q1 (nmax0 (nadd (nsub (q_bytes q1) rb) ab))
                  (nmax0 (nadd (nsub (q_entries q1) re) ae)) key pct t Hok1 Hk) as He.
    destruct Ho as (? & ? & ? & ?), Hc1 as [? ?].
    destruct (crossings _) as [q2 reports]. cbn in H1, H2. split; [done|]. split; [|done].
    intros rb' re' ab' ae' _. destruct (q_bytes q1), rb, ab, (q_entries q1), re, ae; try done.
    cbn in H1, H2. eexists _, _. split_and!; [exact H1|exact H2|lia|lia].
Qed.

Lemma reserve_enforced_witness :
  let q := new_quota 100 10 true 50 3 in
  reserve q (Fin 51) (Fin 1) "write" "/data/x" = Throw (nodeError "ENOSPC" "write" (Some "/data/x") None) /\
  match reserve q (Fin 25) (Fin 1) "write" "/data/x" with
  | Ok (q', _) => q_bytes q' = Fin 75 /\ 75 <= q_maxBytes q
  | Throw _ => False
  end.
Proof.
  pose proof (reserve_enforced (new_quota 100 10 true 50 3) 50 3 25 1 "write" "/data/x" eq_refl eq_refl eq_refl) as H.
  split; [reflexivity|]. vm_compute in H |- *. destruct H as (? & ? & H & _). split; [done|]. by apply H.
Defined.

Lemma threshold_reports_witness :
  pool_report "diskMb" "75" (apply_op (Reserve (Fin 25) (Fin 1)) (new_quota 100 10 true 50 3)).1
    ∈ (apply_op (Reserve (Fin 25) (Fin 1)) (new_quota 100 10 true 50 3)).2.
Proof.
  assert (Hok : settled (new_quota 100 10 true 50 3)) by (repeat split; discriminate).
  assert (Hk : ("diskMb", "75", t_75) ∈ pool_thresholds) by (apply elem_of_cons; by left).
  assert (Ho : finite_op (Reserve (Fin 25) (Fin 1))) by (split; discriminate).
  pose proof (threshold_reports [] (new_quota 100 10 true 50 3) (Reserve (Fin 25) (Fin 1)) "diskMb" "75" t_75
                Hok (Forall_nil_2 _) Ho Hk) as H.
  vm_compute in H |- *. destruct H as (_ & _ & H). apply H. done.
Defined.
