(* ===== verification/Json.v ===== *)
(** * JSON values: the language's coercions, and lib/mcp/output-schema-hash.js

    [String(v)], [===] on scalars, [Object.keys] and [JSON.stringify] on the
    values of [Prelude.jsval], and the canonical text whose hash is a tool's
    output-schema fingerprint. *)
From Stdlib Require Import ZArith Lia Ascii String.
From stdpp Require Import prelude strings gmap.
From S2P Require Import Prelude.

Set Default Proof Using "Type".

(** [String(v)]: an array prints its elements joined by commas, null and
    undefined among them as nothing; an object prints as one fixed text. *)
Fixpoint js_text (v : jsval) : string :=
  match v with
  | JUndef => "undefined"
  | JNull => "null"
  | JBool b => if b then "true" else "false"
  | JNum z => Z_text z
  | JFrac t => t
  | JStr s => s
  | JArr xs => join "," (map (fun x => if is_nullish x then "" else js_text x) xs)
  | JObj _ => "[object Object]"
  end.

(** [a === b] where one side is a scalar: two arrays or objects here are never
    the same one. *)
Definition strict_eq (a b : jsval) : bool :=
  match a, b with
  | JUndef, JUndef | JNull, JNull => true
  | JBool x, JBool y => Bool.eqb x y
  | JNum x, JNum y => Z.eqb x y
  | JFrac x, JFrac y => String.eqb x y && negb (String.eqb x "NaN")
  | JStr x, JStr y => String.eqb x y
  | _, _ => false
  end.

(** [xs.indexOf(v) !== -1] *)
Definition index_of (v : jsval) (xs : list jsval) : bool := existsb (strict_eq v) xs.

(** [Object.keys(v)] *)
Definition js_keys (v : jsval) : list string :=
  match v with
  | JObj kvs => map fst kvs
  | JArr xs => map nat_text (seq 0 (length xs))
  | _ => []
  end.

(** [typeof v === 'object'] (null included) *)
Definition is_object (v : jsval) : bool :=
  match v with JNull | JArr _ | JObj _ => true | _ => false end.
Definition is_array (v : jsval) : bool := match v with JArr _ => true | _ => false end.
Definition is_string (v : jsval) : bool := match v with JStr _ => true | _ => false end.

(** Truthiness. *)
Definition truthy (v : jsval) : bool :=
  match v with
  | JUndef | JNull => false
  | JBool b => b
  | JNum z => negb (Z.eqb z 0)
  | JFrac t => negb (String.eqb t "NaN")
  | JStr s => negb (String.eqb s "")
  | JArr _ | JObj _ => true
  end.

(** White space, as parseInt and trim skip it. *)
Definition is_space (c : ascii) : bool :=
  let n := nat_of_ascii c in ((9 <=? n) && (n <=? 13) || (n =? 32) || (n =? 160))%nat.

(** A plain object used as a map has, besides its own members, those of
    [Object.prototype]: functions, and one object. *)
Definition object_members : list string :=
  ["constructor"; "__defineGetter__"; "__defineSetter__"; "hasOwnProperty"; "__lookupGetter__"; "__lookupSetter__";
   "isPrototypeOf"; "propertyIsEnumerable"; "toString"; "valueOf"; "__proto__"; "toLocaleString"].

(** *** [JSON.stringify] *)

Definition dquote : ascii := ascii_of_nat 34.
Definition backslash : ascii := ascii_of_nat 92.

(** [`"${s}"`] *)
Definition in_quotes (s : string) : string := String dquote (s +:+ String dquote "").

Definition hex_digit (n : nat) : ascii :=
  ascii_of_nat (if (n <? 10)%nat then 48 + n else 87 + n).

(** One code unit of a quoted string. *)
Definition quote_char (c : ascii) : string :=
  let n := nat_of_ascii c in
  if Ascii.eqb c dquote then String backslash (String dquote "")
  else if Ascii.eqb c backslash then String backslash (String backslash "")
  else if (n =? 8)%nat then String backslash "b"
  else if (n =? 9)%nat then String backslash "t"
  else if (n =? 10)%nat then String backslash "n"
  else if (n =? 12)%nat then String backslash "f"
  else if (n =? 13)%nat then String backslash "r"
  else if (n <? 32)%nat then
    String backslash ("u00" +:+ String (hex_digit (n / 16)) (String (hex_digit (n mod 16)) ""))
  else String c "".

Fixpoint quote_chars (s : string) : string :=
  match s with EmptyString => "" | String c s' => quote_char c +:+ quote_chars s' end.

Definition json_quote (s : string) : string := String dquote (quote_chars s +:+ String dquote "").

Definition json_number (t : string) : string :=
  if String.eqb t "NaN" || String.eqb t "Infinity" || String.eqb t "-Infinity" then "null" else t.

Definition is_undef (v : jsval) : bool := match v with JUndef => true | _ => false end.

(** [JSON.stringify(v)] for a [v] other than [undefined] (inside an array
    [undefined] prints as null, a member with that value is left out). *)
Fixpoint json_text (v : jsval) : string :=
  match v with
  | JUndef | JNull => "null"
  | JBool b => if b then "true" else "false"
  | JNum z => Z_text z
  | JFrac t => json_number t
  | JStr s => json_quote s
  | JArr xs => "[" +:+ join "," (map json_text xs) +:+ "]"
  | JObj kvs =>
      "{" +:+ join "," (omap (fun kv => if is_undef kv.2 then None
                                        else Some (json_quote kv.1 +:+ ":" +:+ json_text kv.2)) kvs)
      +:+ "}"
  end.

(** ** output-schema-hash.js *)

(** The members of an object in sorted key order. *)
Fixpoint insert_member {A} (kv : string * A) (l : list (string * A)) : list (string * A) :=
  match l with
  | [] => [kv]
  | kv' :: l' => if String.leb kv.1 kv'.1 then kv :: l else kv' :: insert_member kv l'
  end.
Definition sort_members {A} (l : list (string * A)) : list (string * A) :=
  foldr insert_member [] l.

(** [canonicalJSON]: the sort happens on the keys, and only then is each
    member's text made; here each member's text is made first and the pairs
    sorted by key, which is the same list. *)
Fixpoint canonicalJSON (v : jsval) : string :=
  match v with
  | JArr xs => "[" +:+ join "," (map (fun x => if is_undef x then "" else canonicalJSON x) xs) +:+ "]"
  | JObj kvs =>
      "{" +:+ join "," (map (fun kt => json_quote kt.1 +:+ ":" +:+ kt.2)
                 (sort_members (omap (fun kv => if is_undef kv.2 then None
                                                else Some (kv.1, canonicalJSON kv.2)) kvs)))
      +:+ "}"
  | _ => json_text v
  end.

Section hash.
  (** [crypto.createHash('sha256')...digest('hex')] *)
  Variable sha256 : string -> string.

Definition outputSchemaHash (schema : jsval) : option string :=
  if is_nullish schema then None else Some (sha256 (canonicalJSON schema)).
End hash.

(** The same value up to the order of the members of its objects. *)
Inductive same_json : jsval -> jsval -> Prop :=
| same_refl v : same_json v v
| same_trans a b c : same_json a b -> same_json b c -> same_json a c
| same_arr_at l1 x y l2 : same_json x y -> same_json (JArr (l1 ++ x :: l2)) (JArr (l1 ++ y :: l2))
| same_obj_at l1 k x y l2 :
    same_json x y -> same_json (JObj (l1 ++ (k, x) :: l2)) (JObj (l1 ++ (k, y) :: l2))
| same_perm kvs lvs : NoDup (map fst kvs) -> kvs ≡ₚ lvs -> same_json (JObj kvs) (JObj lvs).

(** [JSON.parse(JSON.stringify(v))] *)
Fixpoint json_copy (v : jsval) : jsval :=
  match v with
  | JArr xs => JArr (map (fun x => if is_undef x then JNull else json_copy x) xs)
  | JObj kvs => JObj ((fix copies kvs := match kvs with
                                         | [] => []
                                         | (k, x) :: kvs => if is_undef x then copies kvs else (k, json_copy x) :: copies kvs
                                         end) kvs)
  | _ => v
  end.

(** [o[k] = x] on a value of JSON; nothing on one that is no object. *)
Definition with_member (k : string) (x v : jsval) : jsval := match v with JObj kvs => JObj (assoc_set k x kvs) | _ => v end.

(** ** Lemmas *)

Lemma leb_trans a b c : String.leb a b = true -> String.leb b c = true -> String.leb a c = true.
Proof.
  intros H1 H2. apply Is_true_true.
  change (String.le a c). transitivity b; by apply Is_true_true.
Qed.

Lemma insert_member_comm {A} (a b : string * A) l :
  a.1 <> b.1 -> insert_member a (insert_member b l) = insert_member b (insert_member a l).
Proof.
  intros Hne.
  assert (Hex : String.leb a.1 b.1 = negb (String.leb b.1 a.1)).
  { destruct (String.leb a.1 b.1) eqn:E1, (String.leb b.1 a.1) eqn:E2; try done.
    - by destruct Hne; apply String.leb_antisym.
    - destruct (String.leb_total a.1 b.1); congruence. }
  induction l as [|x l IH]; cbn.
  - rewrite Hex. by destruct (String.leb b.1 a.1).
  - destruct (String.leb b.1 x.1) eqn:Eb, (String.leb a.1 x.1) eqn:Ea; cbn; rewrite ?Ea, ?Eb.
    + rewrite Hex. by destruct (String.leb b.1 a.1); cbn; rewrite ?Ea, ?Eb.
    + destruct (String.leb a.1 b.1) eqn:E; [|done].
      by rewrite (leb_trans _ _ _ E Eb) in Ea.
    + destruct (String.leb b.1 a.1) eqn:E; [|done].
      by rewrite (leb_trans _ _ _ E Ea) in Eb.
    + by rewrite IH.
Qed.

Lemma sort_members_perm {A} (l l' : list (string * A)) :
  NoDup (map fst l) -> l ≡ₚ l' -> sort_members l = sort_members l'.
Proof.
  intros Hnd Hp. induction Hp as [|x l l' Hp IH|x y l|l l' l'' Hp1 IH1 Hp2 IH2]; [done|..].
  - cbn in Hnd |- *. apply NoDup_cons in Hnd as [_ Hnd]. f_equal. by apply IH.
  - cbn. apply insert_member_comm. cbn in Hnd. apply NoDup_cons in Hnd as [Hy _]. set_solver.
  - transitivity (sort_members l'); [by apply IH1|]. apply IH2. eapply NoDup_Permutation_proper; [|exact Hnd]. symmetry. by apply Permutation_map.
Qed.

Lemma same_undef a b : same_json a b -> is_undef a = is_undef b.
Proof. induction 1; cbn; congruence. Qed.

(** The members an object prints. *)
Definition members {B} (f : jsval -> B) (kvs : list (string * jsval)) : list (string * B) :=
  omap (fun kv => if is_undef kv.2 then None else Some (kv.1, f kv.2)) kvs.

Lemma members_keys {B} (f : jsval -> B) kvs : map fst (members f kvs) `sublist_of` map fst kvs.
Proof.
  induction kvs as [|[k v] kvs IH]; [done|]. unfold members in *. cbn.
  destruct (is_undef v); cbn; by constructor.
Qed.

Lemma members_perm {B} (f : jsval -> B) kvs lvs : kvs ≡ₚ lvs -> members f kvs ≡ₚ members f lvs.
Proof. intros H. unfold members. by apply omap_Permutation. Qed.

Lemma members_app {B} (f : jsval -> B) l1 l2 : members f (l1 ++ l2) = members f l1 ++ members f l2.
Proof. apply omap_app. Qed.

Lemma canonicalJSON_obj kvs :
  canonicalJSON (JObj kvs) =
  "{" +:+ join "," (map (fun kt => json_quote kt.1 +:+ ":" +:+ kt.2) (sort_members (members canonicalJSON kvs))) +:+ "}".
Proof. done. Qed.

Lemma jget_with k k' x kvs : jget k (with_member k' x (JObj kvs)) = if String.eqb k k' then x else jget k (JObj kvs).
Proof. cbn. rewrite assoc_set_lookup. by destruct (String.eqb k k'). Qed.

(** ** Property *)

(** Two schemas that differ only in the order of object members, at any
    depth, have the same canonical text, so the same output-schema hash:
    tasks/result does not take a reordering for a changed schema. *)
Theorem outputSchemaHash_order sha256 a b :
  same_json a b -> outputSchemaHash sha256 a = outputSchemaHash sha256 b.
Proof.
  intros H. assert (Hn : is_nullish a = is_nullish b) by (induction H; cbn; congruence).
  unfold outputSchemaHash. rewrite Hn. destruct (is_nullish b); [done|]. clear Hn.
  do 2 f_equal. induction H as [| |l1 x y l2 H IH|l1 k x y l2 H IH|kvs lvs Hnd Hp].
  - done.
  - congruence.
  - cbn. by rewrite !map_app, !map_cons, (same_undef _ _ H), IH.
  - rewrite !canonicalJSON_obj, !members_app. unfold members at 2 4. cbn.
    by rewrite (same_undef _ _ H), IH.
  - rewrite !canonicalJSON_obj. do 4 f_equal. apply sort_members_perm; [|by apply members_perm].
    eapply sublist_NoDup; [exact Hnd|apply members_keys].
Qed.

Lemma outputSchemaHash_order_witness :
  outputSchemaHash (fun s => s) (JObj [("b", JNum 1); ("a", JObj [("y", JNull); ("x", JBool true)])]) =
  outputSchemaHash (fun s => s) (JObj [("a", JObj [("x", JBool true); ("y", JNull)]); ("b", JNum 1)]).
Proof.
  apply (outputSchemaHash_order (fun s => s)).
  apply same_trans with (JObj [("b", JNum 1); ("a", JObj [("x", JBool true); ("y", JNull)])]).
  - apply (same_obj_at [("b", JNum 1)]). apply same_perm.
    + apply (bool_decide_unpack _). vm_compute. done.
    + apply Permutation_swap.
  - apply same_perm; [|apply Permutation_swap]. apply (bool_decide_unpack _). vm_compute. done.
Defined.
