(* ===== verification/Errors.v ===== *)
(** * The platform's errors (lib/countinghouse-error.js)

    [CHError] and [DeviceError], the text a locale gives a code, and what an
    error becomes when it crosses a composition hop. An error keeps its code
    and the arguments its message is made of; [message_of] is the text. *)
From Stdlib Require Import ZArith Lia Ascii String.
From stdpp Require Import prelude strings gmap.
From S2P Require Import Prelude Json.

Set Default Proof Using "Type".

(** The class of an error: [CHError], [DeviceError], or a plain [Error] (one a
    module threw, or one that came over the wire). *)
Inductive err_class := KCHError | KDeviceError | KError.

(** [c_code] is [.code]; a plain error's [c_args] is its message. *)
Record cherr := mkCh { c_class : err_class; c_code : jsval; c_args : list jsval }.

Definition CHError (code : string) (args : list jsval) : cherr := mkCh KCHError (JStr code) args.
Definition DeviceError (code : string) (args : list jsval) : cherr := mkCh KDeviceError (JStr code) args.

(** [new Error(m)] *)
Definition Error_ (m : string) : cherr := mkCh KError JUndef [JStr m].

(** [err.topic] *)
Definition topic (e : cherr) : option string :=
  match c_class e with
  | KCHError => Some "countinghouse error"
  | KDeviceError => Some "device error"
  | KError => None
  end.

(** The codes of error-info.en-US.json. *)
Definition RUNTIME_CODES : list string :=
  ["SET_INCORRECT_ACTION_TYPE"; "CANNOT_SET_ACTION_SERVICE_OBJ_NOT_EXIST";
   "CANNOT_SET_ACTION_ACTION_LIST_NOT_EXIST"; "CANNOT_SET_ACTION_OBJ_NOT_EXIST";
   "CANNOT_SET_ACTION"; "NO_VALID_DEVICE_SPEC"; "INVALID_BSON_REQUEST"; "CANNOT_GET_DEVICE_SPEC";
   "SERVICE_NOT_FOUND"; "DEVICE_IN_ACTION"; "GET_HARDWARE_ADDR_FAIL"; "DEVICE_SPEC_UPDATE_FAIL";
   "DESTROY_DEVICE_FAIL"; "GET_DEVICE_SCHEMADOC_FAIL"; "INVALID_DEVICE_SCHEMADOC";
   "INVALID_JSON_POINTER"; "POINTER_DEREF_ERROR"; "PROXY_SERVER_CREATE_FAIL";
   "LOAD_MODULE_FILE_FAIL"; "DEVICE_CONNECT_FAIL"; "INVALID_REDIRECT_URL";
   "DEVICE_DISCONNECT_FAIL"; "DENY_DEVICE_ACCESS"; "DEVICE_NOT_CONNECTED"; "INVALID_ACCESS_TOKEN";
   "CANNOT_VERIFY_ACCESS_TOKEN"; "DEVICE_SPEC_VALIDATION_FAIL"; "INVALID_MODULE_INSTANCE";
   "DEVICE_ID_GENERATION_FAIL"; "DEVICE_OBJECT_CONFLICT"; "DEVICE_OFFLINE";
   "MODULE_VERIFICATION_FAILED"; "DEVICE_NOT_FOUND"; "INVALID_DEVICE_ID"; "MODULE_IN_DISCOVERING";
   "CANNOT_GENERATE_ACCESS_TOKEN"; "DEVICE_ACTION_CALL_FAIL";
   "DEVICE_OBJECT_NOT_VALID_CDIF_DEVICE"; "CORRESPONDING_MODULE_NOT_FOUND"; "LOAD_MODULE_FAIL";
   "GET_MODULE_INFO_FAIL"; "REMOVE_MODULE_INFO_FAIL"; "MODULE_PACKAGE_INFO_INVALID";
   "MODULE_PACKAGE_NAME_TYPE_ERROR"; "MODULE_VERSION_INFO_INVALID";
   "MODULE_INFO_CONTAINS_PUBLISHCONFIG"; "MODULE_INSTALL_FAIL"; "INVALID_MODULE_PATH";
   "MODULE_PATH_CHMOD_FAIL"; "USERNAME_INVALID"; "PASSWORD_INVALID"; "SCHEMA_COMPILE_ERROR";
   "SERVICEID_NOT_AVAILABLE"; "ACTIONNAME_NOT_AVAILABLE"; "ARGUMENTS_INVALID";
   "MISSING_INPUT_ARGUMENT"; "MISSING_OUTPUT_ARGUMENT"; "DATA_VALIDATION_FAIL";
   "INPUT_DATA_VALIDATION_FAIL"; "OUTPUT_DATA_VALIDATION_FAIL"; "ACTION_NOT_FOUND";
   "INPUT_NOT_FOUND"; "ACTION_NOT_IMPLEMENTED"; "NOT_ENOUGH_USER_BALANCE";
   "DEVICE_INVOKE_EXCEPTION"; "DEVICE_INVOKE_FAIL"; "DEVICE_ACCESS_ERROR";
   "DEVICE_NOT_RESPONDING"; "REDIS_CLIENT_ERROR"; "SYSTEM_ERROR"; "SYSTEM_ERROR_NETWORK_ERROR";
   "SYSTEM_ERROR_DATA_PARSE_ERROR"; "SYSTEM_ERROR_USERDB_NA"; "SYSTEM_ERROR_SMSTMPLDB_NA";
   "SYSTEM_ERROR_USER_UNAUTHORIZED"; "SYSTEM_ERROR_UNKNOWN_USER"; "USER_HAS_NO_DEVICE";
   "ADMIN_REQUIRED"; "INVALID_BALANCE_FORMAT"; "NO_PRICE_RECORD";
   "USER_DEVICE_RECORD_FORMAT_INVALID"; "API_ERROR"; "DATA_ERROR"; "RESTART_MODULE_FAIL";
   "UNLOAD_MODULE_FAIL"; "ADD_JOB_ERROR"; "GET_JOB_ERROR"; "REMOVE_JOB_ERROR";
   "DEVICE_CONFIG_LOAD_FAIL"; "DEVICE_ID_INVALID_OR_NULL"; "PEER_GONE"; "PEER_NOT_GRANTED";
   "PEER_CHANNEL_TIMEOUT"; "PEER_SELF_TARGET"; "PEER_NO_HANDLER"; "MODULE_NOT_DISCOVERABLE";
   "MODULE_NO_DEVICE_ONLINE"; "QUERY_DEVICE_ON_MAIN_THREAD"; "JOB_ACCESS_DENIED";
   "MODULE_ASSEMBLY_FAIL"; "MODULE_HANDLER_MISMATCH"; "HOP_IDENTITY_UNRESOLVED";
   "MODULE_COMPOSITION_INVALID"; "CTX_CALL_NOT_READY"; "CTX_CALL_UNBOUND"; "CTX_CALL_UNDECLARED";
   "CTX_CALL_BAD_ADDRESS"; "CTX_CALL_UNRESOLVED"; "RATE_LIMIT_EXCEEDED";
   "TOOL_SCHEMA_RESOLVE_FAIL"; "MODULE_SANDBOX_REFUSED"; "MODULE_RESTARTING"; "MODULE_SUSPENDED";
   "MODULE_RELOADING"; "MODULE_UNLOADED"; "RATE_LIMITED"; "MODULE_NAME_INVALID"; "MODULE_LOADED";
   "MODULE_DATA_NOT_DIRECTORY"; "MODULE_PATH_OUTSIDE_ROOT"; "MODULE_NAME_MISMATCH"].

Section locale.
(** The configured locale's table ([require(`./error-info.${locale}.json`)], or
    the zh-CN one when there is no such file). *)
Context (ErrorInfo : string -> option string).

(** The arguments after the code, appended with spaces between; a null one is
    skipped, with the space that would follow it. *)
Fixpoint append_args (message : string) (args : list jsval) : string :=
  match args with
  | [] => message
  | a :: rest =>
      if is_nullish a then append_args message rest
      else
        let m := message +:+ (if is_object a then json_text a else js_text a) in
        append_args (if is_nil rest then m else m +:+ " ") rest
  end.

Definition getErrorMessage (code : string) (args : list jsval) : string :=
  match ErrorInfo code with
  | None => code
  | Some message => match args with [] => message | _ => append_args (message +:+ ": ") args end
  end.

(** [err.message] *)
Definition message_of (e : cherr) : string :=
  match c_class e, c_args e with
  | KError, a :: _ => js_text a
  | KError, [] => ""
  | _, args => getErrorMessage (js_text (c_code e)) args
  end.

(** [hopError]: [None] for a null error. *)
Definition hopError (err : option cherr) : option cherr :=
  match err with
  | None => None
  | Some e =>
      let typed := match c_class e with KError => false | _ => true end in
      match c_code e with
      | JStr c =>
          if includes c RUNTIME_CODES then Some (if typed then e else DeviceError c [])
          else Some (Error_ (message_of e))
      | code => if is_nullish code && negb typed then Some e else Some (Error_ (message_of e))
      end
  end.
End locale.

(** What an error a composing module sees may carry as a code: nothing, or a
    code the runtime defines. *)
Definition runtime_code (e : cherr) : Prop :=
  match c_code e with
  | JStr c => c ∈ RUNTIME_CODES
  | code => is_nullish code = true
  end.

(** Whatever error a callee produces, what its composing caller sees has no
    code or one the runtime defines, so a callee cannot pass a made-up code
    off as a runtime one; an untyped error with a runtime code arrives typed
    with that code, one that is already typed with a runtime code or untyped
    with none is passed on as it is, and a second hop changes nothing more. *)
Theorem hopError_codes ErrorInfo e :
  exists e', hopError ErrorInfo (Some e) = Some e' /\ runtime_code e' /\
    hopError ErrorInfo (Some e') = Some e' /\
    (forall c, c_code e = JStr c -> c ∈ RUNTIME_CODES -> c_code e' = JStr c /\ c_class e' <> KError) /\
    (runtime_code e -> (c_class e = KError <-> is_nullish (c_code e) = true) -> e' = e).
Proof.
  unfold hopError, runtime_code.
  destruct (c_code e) as [| | | | |c| |] eqn:Ec; cbn [is_nullish andb].
  6: { destruct (includes c RUNTIME_CODES) eqn:Ei.
    - apply includes_spec in Ei. destruct (c_class e) eqn:Ek.
      3: { eexists. split; [done|]. cbn -[RUNTIME_CODES]. apply includes_spec in Ei as Ei'. rewrite Ei'.
           split_and!; try done. intros _ [H _]. discriminate (H eq_refl). }
      all: exists e; rewrite Ec, Ek; apply includes_spec in Ei as Ei'; rewrite Ei'; split_and!; try done;
           intros ? [= ->] ?; by rewrite Ek.
    - apply includes_false in Ei. eexists. split; [done|]. cbn -[RUNTIME_CODES]. split_and!; try done.
      intros ? [= ->]. done. }
  all: destruct (c_class e) eqn:Ek; eexists; (split; [done|]); cbn; rewrite ?Ec, ?Ek; cbn;
    split_and!; try done; intros ? [? ?]; try done; intuition congruence.
Qed.
