(* ===== verification/Permissions.v ===== *)
(** * Permissions (lib/module-permissions.js) and the operator's policy
    (lib/module-policy.js)

    A module's declaration in its package.json, the policy file that narrows
    it, and the permissions a module runs with. The declaration and the policy
    are untyped JSON ([jsval]); what was checked is typed. *)
From Stdlib Require Import ZArith Lia Ascii String.
From stdpp Require Import prelude strings gmap.
From S2P Require Import Prelude Paths Json.

Set Default Proof Using "Type".

(** ** Constants *)

Definition DEFAULT_LIMITS : list (string * Z) :=
  [("heapMb", 256); ("externalMb", 256); ("maxBlockMs", 10000); ("diskMb", 1024); ("diskEntries", 100000)]%Z.
Definition LIMIT_KEYS : list string := map fst DEFAULT_LIMITS.
Definition RESERVED : list string := ["/app"; "/data"; "/tmp"].

(** [hasOwnProperty.call(ACCESS_RANK, a)] and [ACCESS_RANK[a]]: the property
    key is the value's text, so an array of one string counts as the string. *)
Definition access_rank (a : jsval) : option nat :=
  if String.eqb (js_text a) "r" then Some 1%nat
  else if String.eqb (js_text a) "rw" then Some 2%nat else None.

Definition in_range (lo hi : nat) (c : ascii) : bool :=
  ((lo <=? nat_of_ascii c) && (nat_of_ascii c <=? hi))%nat.
Definition is_digit (c : ascii) : bool := in_range 48 57 c.
Definition is_lower (c : ascii) : bool := in_range 97 122 c.
Definition is_upper (c : ascii) : bool := in_range 65 90 c.

Definition all_chars (f : ascii -> bool) (s : string) : bool := forallb f (list_ascii_of_string s).

(** [/^[A-Z_][A-Z0-9_]*$/] *)
Definition ENV_NAME (s : string) : bool :=
  match s with
  | EmptyString => false
  | String c s' =>
      (is_upper c || Ascii.eqb c "_") &&
      all_chars (fun d => is_upper d || is_digit d || Ascii.eqb d "_") s'
  end.

(** [LABEL]: letters, digits and inner hyphens. *)
Definition alnum (c : ascii) : bool := is_lower c || is_digit c.
Definition LABEL (s : string) : bool :=
  match list_ascii_of_string s with
  | [] => false
  | c :: rest =>
      alnum c && forallb (fun d => alnum d || Ascii.eqb d "-") rest &&
      match last rest with Some d => alnum d | None => true end
  end.

(** [HOST]: labels separated by dots, after an optional "*." *)
Definition HOST (s : string) : bool :=
  let rest := if starts_with "*." s then sdrop 2 s else s in
  forallb LABEL (split_on "."%char rest).

Definition isReserved (p : string) : bool :=
  String.eqb p "/" || existsb (fun r => String.eqb p r || starts_with (r +:+ "/") p) RESERVED.

(** ** The declaration *)

Record fs_entry := mkFs { f_path : string; f_access : jsval }.
Record net_entry := mkNet { n_host : string; n_ports : option (list jsval) }.
Record declaration := mkDecl {
  d_fs : list fs_entry;
  d_net : list net_entry;
  d_env : list string;
  d_limits : list (string * Z)
}.

(** A list parsed item by item: what was kept, and what was complained of. *)
Fixpoint parse_items {A B} (f : nat -> A -> string + B) (i : nat) (xs : list A) : list B * list string :=
  match xs with
  | [] => ([], [])
  | x :: rest =>
      let '(out, problems) := parse_items f (S i) rest in
      match f i x with
      | inl p => (out, p :: problems)
      | inr y => (y :: out, problems)
      end
  end.

(** The frame the three list parsers share: absent, not an array, or items. *)
Definition parse_list {B} (what : string) (f : nat -> jsval -> string + B) (v : jsval)
  : list B * list string :=
  if is_nullish v then ([], [])
  else match v with
       | JArr xs => parse_items f 0 xs
       | _ => ([], ["countinghouse.permissions." +:+ what +:+ " must be an array"])
       end.

Definition fs_item (i : nat) (e : jsval) : string + fs_entry :=
  let where_ := "countinghouse.permissions.fs[" +:+ nat_text i +:+ "]" in
  match jget "path" e with
  | JStr p =>
      let quoted := where_ +:+ ".path " +:+ String dquote (p +:+ String dquote "") in
      if negb (is_absolute p) then inl (quoted +:+ " must be absolute")
      else if includes ".." (split_on slash p) || negb (String.eqb (normalize p) p) ||
              (1 <? String.length p)%nat && ends_with "/" p
      then inl (quoted +:+ " must be normalized (no " +:+ String dquote ".." +:+ String dquote ", no trailing " +:+ String dquote "/" +:+ String dquote ")")
      else if isReserved p
      then inl (quoted +:+ " is reserved: " +:+ String dquote "/" +:+ String dquote " and /app, /data, /tmp belong to the module's own root")
      else match access_rank (jget "access" e) with
           | None => inl (where_ +:+ ".access must be " +:+ String dquote "r" +:+ String dquote " or " +:+ String dquote "rw" +:+ String dquote "")
           | Some _ => inr (mkFs p (jget "access" e))
           end
  | _ => inl (where_ +:+ ".path must be a string")
  end.

Definition parseFs (v : jsval) : list fs_entry * list string := parse_list "fs" fs_item v.

Definition valid_port (p : jsval) : bool :=
  match p with JNum z => (1 <=? z)%Z && (z <=? 65535)%Z | _ => false end.

Definition net_item (i : nat) (e : jsval) : string + net_entry :=
  let where_ := "countinghouse.permissions.net[" +:+ nat_text i +:+ "]" in
  let bad_host := inl (where_ +:+ ".host must be a hostname, optionally starting with " +:+ String dquote "*." +:+ String dquote "") in
  match jget "host" e with
  | JStr h =>
      if negb (HOST (lowercase h)) then bad_host
      else match jget "ports" e with
           | JUndef | JNull => inr (mkNet (lowercase h) None)
           | JArr ps => if forallb valid_port ps then inr (mkNet (lowercase h) (Some ps))
                        else inl (where_ +:+ ".ports must be an array of integers 1-65535")
           | _ => inl (where_ +:+ ".ports must be an array of integers 1-65535")
           end
  | _ => bad_host
  end.

Definition parseNet (v : jsval) : list net_entry * list string := parse_list "net" net_item v.

Definition env_item (i : nat) (name : jsval) : string + string :=
  match name with
  | JStr s => if ENV_NAME s then inr s else
      inl ("countinghouse.permissions.env[" +:+ nat_text i +:+ "] " +:+ String dquote (s +:+ String dquote " is not a valid environment variable name"))
  | _ => inl ("countinghouse.permissions.env[" +:+ nat_text i +:+ "] " +:+ String dquote (js_text name +:+ String dquote " is not a valid environment variable name"))
  end.

Definition parseEnv (v : jsval) : list string * list string := parse_list "env" env_item v.

(** [Number.isInteger(v) && v > 0] *)
Definition positive_int (v : jsval) : option Z :=
  match v with JNum z => if (0 <? z)%Z then Some z else None | _ => None end.

Definition limit_item (obj : jsval) (i : nat) (k : string) : string + (string * Z) :=
  if negb (includes k LIMIT_KEYS)
  then inl ("countinghouse.permissions.limits." +:+ k +:+ " is not a known limit (" +:+ join ", " LIMIT_KEYS +:+ ")")
  else match positive_int (jget k obj) with
       | None => inl ("countinghouse.permissions.limits." +:+ k +:+ " must be a positive integer")
       | Some z => inr (k, z)
       end.

Definition parseLimits (obj : jsval) : list (string * Z) * list string :=
  if is_nullish obj then ([], [])
  else if negb (is_object obj) || is_array obj then ([], ["countinghouse.permissions.limits must be an object"])
  else parse_items (limit_item obj) 0 (js_keys obj).

Definition no_declaration : declaration := mkDecl [] [] [] [].

Definition parseDeclaration (pkg : jsval) : declaration * list string :=
  let raw := jget "permissions" (jget "countinghouse" pkg) in
  if is_nullish raw then (no_declaration, [])
  else if negb (is_object raw) || is_array raw then (no_declaration, ["countinghouse.permissions must be an object"])
  else
    let '(fs, p1) := parseFs (jget "fs" raw) in
    let '(net, p2) := parseNet (jget "net" raw) in
    let '(env, p3) := parseEnv (jget "env" raw) in
    let '(limits, p4) := parseLimits (jget "limits" raw) in
    (mkDecl fs net env limits, p1 ++ p2 ++ p3 ++ p4).

(** ** Hosts *)

Definition hostMatches (pattern host : string) : bool :=
  if negb (starts_with "*." pattern) then String.eqb pattern host
  else
    let suffix := sdrop 1 pattern in
    if negb (ends_with suffix host) then false
    else
      let label := stake (String.length host - String.length suffix) host in
      (0 <? String.length label)%nat && negb (has_char "."%char label).

Definition port_ok (ports : option (list jsval)) (port : jsval) : bool :=
  match ports with None => true | Some ps => index_of port ps end.

Definition hostAllowed (net : list net_entry) (hostname port : jsval) : bool :=
  let host := lowercase (js_text hostname) in
  existsb (fun e => hostMatches (n_host e) host && port_ok (n_ports e) port) net.

(** ** Narrowing *)

Definition isValidPolicyPath (p : string) : bool :=
  is_absolute p && negb (includes ".." (split_on slash p)) && String.eqb (normalize p) p &&
  (String.eqb p "/" || negb (ends_with "/" p)).

Definition rank_le (a b : jsval) : bool :=
  match access_rank a, access_rank b with
  | Some x, Some y => (x <=? y)%nat
  | _, _ => false
  end.

(** [(wanted || []).forEach(...)]: anything truthy that is no array throws. *)
Definition wanted_list (wanted : jsval) : result (list jsval) :=
  if negb (truthy wanted) then Ok []
  else match wanted with
       | JArr xs => Ok xs
       | _ => Throw (plain_error "(wanted || []).forEach is not a function")
       end.

Definition ignored_text (what : string) (w : jsval) : string :=
  what +:+ " " +:+ json_text w +:+ " is wider than the declaration and was ignored".

Definition fs_covered (declared : list fs_entry) (p : string) (a : jsval) : bool :=
  existsb (fun d => (String.eqb p (f_path d) || starts_with (f_path d +:+ "/") p) &&
                    rank_le a (f_access d)) declared.

Definition narrow_fs_item (declared : list fs_entry) (_ : nat) (w : jsval) : string + fs_entry :=
  match jget "path" w with
  | JStr p =>
      if isValidPolicyPath p && bool_decide (is_Some (access_rank (jget "access" w))) &&
         fs_covered declared p (jget "access" w)
      then inr (mkFs p (jget "access" w)) else inl (ignored_text "fs" w)
  | _ => inl (ignored_text "fs" w)
  end.

Definition narrowFs (declared : list fs_entry) (wanted : jsval) : result (list fs_entry * list string) :=
  let! ws := wanted_list wanted in Ok (parse_items (narrow_fs_item declared) 0 ws).

Definition net_covered (declared : list net_entry) (host : string) (ports : option (list jsval)) : bool :=
  existsb (fun d =>
    hostMatches (n_host d) host &&
    match n_ports d with
    | None => true
    | Some dps => match ports with
                  | None => false
                  | Some ps => forallb (fun p => index_of p dps) ps
                  end
    end) declared.

Definition narrow_net_item (declared : list net_entry) (_ : nat) (w : jsval) : string + net_entry :=
  match jget "host" w with
  | JStr h =>
      let host := lowercase h in
      let ports := match jget "ports" w with JArr ps => Some ps | _ => None end in
      if negb (starts_with "*." host) && net_covered declared host ports
      then inr (mkNet host ports) else inl (ignored_text "net" w)
  | _ => inl (ignored_text "net" w)
  end.

Definition narrowNet (declared : list net_entry) (wanted : jsval) : result (list net_entry * list string) :=
  let! ws := wanted_list wanted in Ok (parse_items (narrow_net_item declared) 0 ws).

(** [caps]: the ceilings that apply to a limit, the operator's general one (or
    the default) first. *)
Definition caps (k : string) (d : Z) (ceilings entryLimits : jsval) : list Z :=
  match positive_int (jget k ceilings) with Some z => z | None => d end ::
  match positive_int (jget k entryLimits) with Some z => [z] | None => [] end.

Definition min_list (x : Z) (xs : list Z) : Z := fold_left Z.min xs x.

Definition ceiling_of (k : string) (d : Z) (ceilings entryLimits : jsval) : Z :=
  match caps k d ceilings entryLimits with
  | [] => d
  | x :: xs => min_list x xs
  end.

Definition narrowLimits (requested : list (string * Z)) (ceilings entryLimits : jsval) : list (string * Z) :=
  map (fun '(k, d) =>
         let ceiling := ceiling_of k d ceilings entryLimits in
         (k, match assoc k requested with Some r => Z.min r ceiling | None => ceiling end))
      DEFAULT_LIMITS.

Record narrowed := mkNarrowed {
  p_fs : list fs_entry;
  p_net : list net_entry;
  p_envNames : list string;
  p_envOverrides : list (string * string);
  p_limits : list (string * Z);
  p_ignored : list string;
  p_approved : bool
}.

(** One key of the policy entry's env: an override, nothing, or a complaint. *)
Definition env_override (declared : list string) (envEntry : jsval) (name : string)
  : string + option (string * string) :=
  if negb (includes name declared) then inl ("env " +:+ name +:+ " is not declared and was ignored")
  else inr match jget name envEntry with JStr s => Some (name, s) | _ => None end.

Definition narrow (declared : declaration) (entry : jsval) (ceilings : jsval) (mode : string)
  : result narrowed :=
  let limits := narrowLimits (d_limits declared) ceilings (jget "limits" entry) in
  let needsApproval := negb (is_nil (d_fs declared)) || negb (is_nil (d_net declared)) || negb (is_nil (d_env declared)) in
  if is_nullish entry then
    let grant := negb (String.eqb mode "enforce") in
    Ok (mkNarrowed (if grant then d_fs declared else []) (if grant then d_net declared else [])
                   (if grant then d_env declared else []) [] limits [] (negb needsApproval))
  else
    let envEntry := if is_object (jget "env" entry) && negb (is_nullish (jget "env" entry))
                    then jget "env" entry else JObj [] in
    let '(found, ignored) := parse_items (fun _ => env_override (d_env declared) envEntry) 0 (js_keys envEntry) in
    let envOverrides := omap id found in
    if strict_eq (jget "approve" entry) (JStr "as-declared") then
      Ok (mkNarrowed (d_fs declared) (d_net declared) (d_env declared) envOverrides limits ignored true)
    else
      let! fs := narrowFs (d_fs declared) (jget "fs" entry) in
      let! net := narrowNet (d_net declared) (jget "net" entry) in
      Ok (mkNarrowed fs.1 net.1
                     (List.filter (fun name => includes name (d_env declared)) (js_keys envEntry))
                     envOverrides limits (ignored ++ fs.2 ++ net.2) true).

(** The environment a module runs with. *)
Definition resolveEnv (envNames : list string) (envOverrides serverEnv : list (string * string))
  : list (string * string) :=
  fold_left (fun out name =>
    match assoc name envOverrides with
    | Some v => assoc_set name v out
    | None => match assoc name serverEnv with Some v => assoc_set name v out | None => out end
    end) envNames [].

(** ** The policy file (lib/module-policy.js) *)

Definition policy_fail (where_ message : string) : jserr :=
  plain_error ("--modulePolicy: " +:+ where_ +:+ " " +:+ message).

Definition checkArray (v : jsval) (where_ : string) : result unit :=
  if negb (is_nullish v) && negb (is_array v) then Throw (policy_fail where_ "must be an array") else Ok tt.

Definition checkObject (v : jsval) (where_ : string) (isRequired : bool) : result unit :=
  if isRequired && is_nullish v then Throw (policy_fail where_ "must be an object")
  else if negb (is_nullish v) && (negb (is_object v) || is_array v)
  then Throw (policy_fail where_ "must be an object") else Ok tt.

(** [keys.forEach((k) => ...)] where an item may throw. *)
Fixpoint for_each {A} (f : A -> result unit) (xs : list A) : result unit :=
  match xs with
  | [] => Ok tt
  | x :: rest => let! _ := f x in for_each f rest
  end.

Definition validateLimits (limits : jsval) (where_ : string) : result unit :=
  if is_nullish limits then Ok tt
  else if negb (is_object limits) || is_array limits then Throw (policy_fail where_ "must be an object")
  else for_each (fun k =>
    if negb (includes k LIMIT_KEYS)
    then Throw (policy_fail (where_ +:+ "." +:+ k) ("is not a known limit (" +:+ join ", " LIMIT_KEYS +:+ ")"))
    else match positive_int (jget k limits) with
         | None => Throw (policy_fail (where_ +:+ "." +:+ k) "must be a positive integer")
         | Some _ => Ok tt
         end) (js_keys limits).

(** *** [jsonErrorWithoutInput]: the match of
    [/at position \d+( \(line \d+ column \d+\))?/] *)

Fixpoint span_digits (s : string) : string * string :=
  match s with
  | String c s' => if is_digit c then let '(d, r) := span_digits s' in (String c d, r) else ("", s)
  | EmptyString => ("", "")
  end.

(** The text of a literal followed by digits, and what comes after. *)
Definition lit_digits (lit s : string) : option (string * string) :=
  if starts_with lit s then
    let '(d, r) := span_digits (sdrop (String.length lit) s) in
    if String.eqb d "" then None else Some (lit +:+ d, r)
  else None.

Definition match_at (s : string) : option string :=
  match lit_digits "at position " s with
  | None => None
  | Some (a, r) =>
      Some match lit_digits " (line " r with
           | Some (b, r2) =>
               match lit_digits " column " r2 with
               | Some (c, r3) => if starts_with ")" r3 then a +:+ b +:+ c +:+ ")" else a
               | None => a
               end
           | None => a
           end
  end.

Fixpoint find_position (s : string) : option string :=
  match match_at s with
  | Some m => Some m
  | None => match s with EmptyString => None | String _ s' => find_position s' end
  end.

Definition jsonErrorWithoutInput (message : string) : string :=
  "invalid JSON" +:+ match find_position message with Some at_ => " " +:+ at_ | None => "" end.

(** What reading and parsing the file gave. *)
Inductive parsed_file :=
| Parsed (v : jsval)
| BadSyntax (message : string)
| Unreadable (message : string).

Definition check_module (modules : jsval) (name : string) : result unit :=
  let e := jget name modules in
  let! _ := checkObject e ("modules." +:+ name) true in
  let! _ := (if negb (is_nullish (jget "approve" e)) && negb (strict_eq (jget "approve" e) (JStr "as-declared"))
             then Throw (policy_fail ("modules." +:+ name +:+ ".approve") ("must be " +:+ String dquote ("as-declared" +:+ String dquote "")))
             else Ok tt) in
  let! _ := checkArray (jget "fs" e) ("modules." +:+ name +:+ ".fs") in
  let! _ := checkArray (jget "net" e) ("modules." +:+ name +:+ ".net") in
  let! _ := checkObject (jget "env" e) ("modules." +:+ name +:+ ".env") false in
  validateLimits (jget "limits" e) ("modules." +:+ name +:+ ".limits").

Record policy := mkPolicy { po_limits : jsval; po_modules : list (string * jsval) }.

Definition EMPTY : policy := mkPolicy (JObj []) [].

Definition load (file : string) (contents : parsed_file) : result policy :=
  let cannot reason := Throw (plain_error ("--modulePolicy: cannot read " +:+ file +:+ ": " +:+ reason)) in
  match contents with
  | BadSyntax m => cannot (jsonErrorWithoutInput m)
  | Unreadable m => cannot m
  | Parsed raw =>
      let! _ := checkObject raw "the file" true in
      let! _ := validateLimits (jget "limits" raw) "limits" in
      let! _ := checkObject (jget "modules" raw) "modules" false in
      let names := js_keys (jget "modules" raw) in
      let! _ := for_each (check_module (jget "modules" raw)) names in
      Ok (mkPolicy (if truthy (jget "limits" raw) then jget "limits" raw else JObj [])
                   (map (fun name => (name, jget name (jget "modules" raw))) names))
  end.

(** ** Lemmas *)

Lemma parse_items_length {A B} (f : nat -> A -> string + B) i xs :
  (length (parse_items f i xs).1 + length (parse_items f i xs).2 = length xs)%nat.
Proof.
  revert i. induction xs as [|x xs IH]; intros i; [done|]. cbn.
  specialize (IH (S i)). destruct (parse_items f (S i) xs), (f i x); cbn in *; lia.
Qed.

Lemma parse_items_elem {A B} (f : nat -> A -> string + B) i xs y :
  y ∈ (parse_items f i xs).1 -> exists j x, x ∈ xs /\ f j x = inr y.
Proof.
  revert i. induction xs as [|x xs IH]; intros i; cbn; [set_solver|].
  specialize (IH (S i)). destruct (parse_items f (S i) xs) as [out ps], (f i x) eqn:E; cbn in *.
  - intros H. destruct (IH H) as (j & x' & ? & ?). exists j, x'. set_solver.
  - rewrite elem_of_cons. intros [->|H]; [exists i, x; set_solver|].
    destruct (IH H) as (j & x' & ? & ?). exists j, x'. set_solver.
Qed.

Lemma parse_list_elem {B} what (f : nat -> jsval -> string + B) v y :
  y ∈ (parse_list what f v).1 -> exists j x, f j x = inr y.
Proof.
  unfold parse_list. destruct (is_nullish v); cbn; [set_solver|].
  destruct v; cbn; try set_solver. intros (j & x & _ & ?)%parse_items_elem. eauto.
Qed.

Lemma fs_item_ok i e d :
  fs_item i e = inr d ->
  canonical (f_path d) /\ isReserved (f_path d) = false /\ is_Some (access_rank (f_access d)) /\
  jget "path" e = JStr (f_path d) /\ jget "access" e = f_access d.
Proof.
  unfold fs_item. destruct (jget "path" e) as [| | | | |p| |] eqn:Ep; try done.
  destruct (is_absolute p) eqn:Ha; [|done]. cbn [negb].
  destruct (_ || _ || _) eqn:En; [done|].
  destruct (isReserved p) eqn:Er; [done|].
  destruct (access_rank (jget "access" e)) eqn:Ek; [|done]. intros [= <-]. cbn.
  split_and!; try done.
  apply orb_false_iff in En as [En Et]. apply orb_false_iff in En as [_ En].
  apply negb_false_iff, String.eqb_eq in En.
  apply normalize_fixed_canonical; [done|done|].
  destruct (ends_with "/" p) eqn:E; [|done]. rewrite andb_true_r in Et. bool_hyps.
  destruct p as [|c [|]]; [done| |cbn in Et; lia].
  unfold is_absolute in Ha. apply starts_with_iff in Ha as [u Hu]. rewrite sapp_cons in Hu.
  injection Hu as -> _. done.
Qed.

Lemma parseDeclaration_fields pkg :
  let raw := jget "permissions" (jget "countinghouse" pkg) in
  (parseDeclaration pkg).1 = no_declaration \/
  (parseDeclaration pkg).1 =
    mkDecl (parseFs (jget "fs" raw)).1 (parseNet (jget "net" raw)).1
           (parseEnv (jget "env" raw)).1 (parseLimits (jget "limits" raw)).1.
Proof.
  cbn zeta. unfold parseDeclaration. case_match; [by left|]. case_match; [by left|]. right.
  by destruct (parseFs _), (parseNet _), (parseEnv _), (parseLimits _).
Qed.

Lemma parseDeclaration_fs pkg d :
  d ∈ d_fs (parseDeclaration pkg).1 -> exists i e, fs_item i e = inr d.
Proof.
  destruct (parseDeclaration_fields pkg) as [-> | ->]; cbn; [set_solver|]. apply parse_list_elem.
Qed.

Lemma parseDeclaration_limits pkg k z :
  assoc k (d_limits (parseDeclaration pkg).1) = Some z -> (0 < z)%Z.
Proof.
  destruct (parseDeclaration_fields pkg) as [-> | ->]; cbn; [done|].
  intros Hin%assoc_elem. unfold parseLimits in Hin.
  case_match; [set_solver|]. case_match; [set_solver|].
  apply parse_items_elem in Hin as (j & x & _ & Hx). unfold limit_item, positive_int in Hx.
  repeat case_match; simplify_eq. by bool_hyps.
Qed.

(** *** Ceilings *)

Lemma min_list_le x xs : (min_list x xs <= x)%Z /\ (forall y, y ∈ xs -> min_list x xs <= y)%Z.
Proof.
  unfold min_list. revert x. induction xs as [|y xs IH]; intros x; cbn; [split; [lia|set_solver]|].
  destruct (IH (Z.min x y)) as [H1 H2]. split; [lia|].
  intros z [->|Hz]%elem_of_cons; [lia|auto].
Qed.

Lemma min_list_in x xs : min_list x xs ∈ x :: xs.
Proof.
  unfold min_list. revert x. induction xs as [|y xs IH]; intros x; cbn; [set_solver|].
  specialize (IH (Z.min x y)). destruct (Z.min_spec x y) as [[_ E]|[_ E]]; rewrite E in *; set_solver.
Qed.

Lemma narrowLimits_spec requested ceilings entryLimits k z :
  (k, z) ∈ narrowLimits requested ceilings entryLimits ->
  exists d, (k, d) ∈ DEFAULT_LIMITS /\
    (forall r, assoc k requested = Some r -> (z <= r)%Z) /\
    (forall c, c ∈ caps k d ceilings entryLimits -> (z <= c)%Z) /\
    (z ∈ caps k d ceilings entryLimits \/ assoc k requested = Some z).
Proof.
  unfold narrowLimits. intros ([k' d] & E & Hin)%list_elem_of_fmap. injection E as -> ->.
  exists d. split; [done|]. unfold ceiling_of, caps.
  set (l := match positive_int (jget k' entryLimits) with Some z => [z] | None => [] end).
  set (c0 := match positive_int (jget k' ceilings) with Some z => z | None => d end).
  destruct (min_list_le c0 l) as [H1 H2]. pose proof (min_list_in c0 l) as H3.
  split; [|split].
  - intros r ->. lia.
  - intros c [->|Hc]%elem_of_cons; [|specialize (H2 c Hc)]; case_match; lia.
  - case_match; [|by left].
    destruct (Z.min_spec z (min_list c0 l)) as [[_ ->]|[_ ->]]; [by right|by left].
Qed.

(** *** Nothing wider than the declaration *)

(** What a file permission allows is within a declared one: the declared path
    or names below it (no empty one, no "." and no ".."), with no more access. *)
Definition fs_within (ds : list fs_entry) (e : fs_entry) : Prop :=
  exists d, d ∈ ds /\ within_path (f_path e) (f_path d) /\ rank_le (f_access e) (f_access d) = true.

(** A declared path: canonical, and not the root. *)
Definition fs_declared (d : fs_entry) : Prop :=
  canonical (f_path d) /\ f_path d <> "/" /\ is_Some (access_rank (f_access d)).

Lemma declared_paths pkg d : d ∈ d_fs (parseDeclaration pkg).1 -> fs_declared d.
Proof.
  intros (i & x & Hx)%parseDeclaration_fs. apply fs_item_ok in Hx as (Hc & Hr & Ha & _). split; [done|]. split; [|done].
  unfold isReserved in Hr. apply orb_false_iff in Hr as [Hr _]. by bool_hyps.
Qed.

Lemma fs_within_self ds d : d ∈ ds -> fs_declared d -> fs_within ds d.
Proof.
  intros Hd (Hc & Hne & [n Hn]). exists d. split; [done|]. split; [by apply within_path_refl|].
  unfold rank_le. rewrite Hn. apply Nat.leb_refl.
Qed.

Lemma valid_policy_canonical p : isValidPolicyPath p = true -> canonical p.
Proof.
  unfold isValidPolicyPath. intros [[[Ha _]%andb_true_iff Hn%String.eqb_eq]%andb_true_iff Hs]%andb_true_iff.
  apply orb_true_iff in Hs as [->%String.eqb_eq|Hs%negb_true_iff]; [by exists []|].
  by apply normalize_fixed_canonical.
Qed.

Lemma narrowFs_within ds wanted out e :
  (forall d, d ∈ ds -> fs_declared d) -> narrowFs ds wanted = Ok out -> e ∈ out.1 -> fs_within ds e.
Proof.
  unfold narrowFs. intros Hds (ws & _ & [= <-])%rbind_ok (j & w & _ & Hw)%parse_items_elem.
  unfold narrow_fs_item in Hw. case_match; try done. case_match eqn:E; [|done]. injection Hw as <-.
  apply andb_true_iff in E as [[Hp%valid_policy_canonical _]%andb_true_iff Hc]. cbn [f_path f_access].
  apply existsb_exists in Hc as (d & Hd%list_elem_of_In & [Hu Hr]%andb_true_iff). exists d.
  split; [done|]. split; [|done]. destruct (Hds d Hd) as (Hcd & Hne & _). cbn [f_path].
  apply orb_true_iff in Hu as [->%String.eqb_eq|Hu]; [by apply within_path_refl|by apply within_path_below].
Qed.

(** What one entry of the list allows. *)
Definition entry_allows (e : net_entry) (host : string) (port : jsval) : bool :=
  hostMatches (n_host e) host && port_ok (n_ports e) port.

Lemma hostAllowed_mono net net' hostname port :
  (forall e, e ∈ net -> entry_allows e (lowercase (js_text hostname)) port = true ->
             exists e', e' ∈ net' /\ entry_allows e' (lowercase (js_text hostname)) port = true) ->
  hostAllowed net hostname port = true -> hostAllowed net' hostname port = true.
Proof.
  intros H. unfold hostAllowed. rewrite !existsb_exists. intros (e & Hin & He).
  destruct (H e) as (e' & ? & ?); [by apply list_elem_of_In|done|].
  exists e'. split; [by apply list_elem_of_In|done].
Qed.

Lemma strict_eq_eq a b : strict_eq a b = true -> a = b.
Proof.
  destruct a, b; cbn; try done; intros H; bool_hyps; subst; try done.
  by apply Bool.eqb_prop in H as ->.
Qed.

Lemma index_of_mono v ps dps :
  forallb (fun p => index_of p dps) ps = true -> index_of v ps = true -> index_of v dps = true.
Proof.
  rewrite forallb_forall. unfold index_of. rewrite existsb_exists. intros Hall (p & Hp & Hvp).
  specialize (Hall p Hp). rewrite !existsb_exists in Hall |- *. destruct Hall as (q & Hq & Hpq).
  exists q. split; [done|]. by apply strict_eq_eq in Hvp as ->.
Qed.

Lemma narrowNet_allows ds wanted out hostname port :
  narrowNet ds wanted = Ok out -> hostAllowed out.1 hostname port = true ->
  hostAllowed ds hostname port = true.
Proof.
  unfold narrowNet. intros (ws & _ & [= <-])%rbind_ok. apply hostAllowed_mono.
  intros e (j & w & _ & Hw)%parse_items_elem He. unfold narrow_net_item in Hw.
  destruct (jget "host" w) as [| | | | |h| |]; try done.
  destruct (negb _ && net_covered _ _ _) eqn:E; [|done]. injection Hw as <-.
  apply andb_true_iff in E as [H0 H1]. apply negb_true_iff in H0.
  unfold net_covered in *. apply existsb_exists in H1 as (d & Hd & Hdm). apply andb_true_iff in Hdm as [Hm Hdp].
  unfold entry_allows in He. cbn in He. apply andb_true_iff in He as [Hh Hp].
  unfold hostMatches in Hh at 1. rewrite H0 in Hh. cbn in Hh. bool_hyps.
  exists d. split; [by apply list_elem_of_In|]. unfold entry_allows. rewrite <-Hh, Hm.
  destruct (n_ports d) as [dps|]; [|done]. cbn.
  destruct (jget "ports" w); try done. by eapply index_of_mono.
Qed.

Lemma env_override_declared declared envEntry name x v :
  env_override declared envEntry name = inr (Some (x, v)) -> x = name /\ name ∈ declared.
Proof.
  unfold env_override. destruct (includes name declared) eqn:E; cbn; [|done].
  apply includes_spec in E. case_match; try done. by intros [= -> _].
Qed.

(** *** The policy file's checks *)

Lemma for_each_ok {A} (f : A -> result unit) xs :
  for_each f xs = Ok tt <-> forall x, x ∈ xs -> f x = Ok tt.
Proof.
  induction xs as [|x xs IH]; cbn; [set_solver|]. split.
  - intros ([] & Hx & Hr)%rbind_ok y [->|Hy]%elem_of_cons; [done|]. by apply IH.
  - intros H. rewrite (H x) by set_solver. cbn. apply IH. set_solver.
Qed.

Lemma checkArray_wanted v where_ : checkArray v where_ = Ok tt -> is_ok (wanted_list v) = true.
Proof. unfold checkArray, wanted_list. destruct v; cbn; try done; by destruct (truthy _). Qed.

Lemma load_ok file contents pol :
  load file contents = Ok pol ->
  exists raw, contents = Parsed raw /\
    po_modules pol = map (fun name => (name, jget name (jget "modules" raw))) (js_keys (jget "modules" raw)) /\
    forall name, name ∈ js_keys (jget "modules" raw) -> check_module (jget "modules" raw) name = Ok tt.
Proof.
  unfold load. destruct contents as [raw|m|m]; [|done..].
  intros (? & _ & (? & _ & (? & _ & ([] & Hm & [= <-])%rbind_ok)%rbind_ok)%rbind_ok)%rbind_ok.
  exists raw. split; [done|]. split; [done|]. by apply for_each_ok.
Qed.

Lemma check_module_lists modules name :
  check_module modules name = Ok tt ->
  is_ok (wanted_list (jget "fs" (jget name modules))) = true /\
  is_ok (wanted_list (jget "net" (jget name modules))) = true.
Proof.
  unfold check_module.
  intros (? & _ & (? & _ & ([] & Hf & ([] & Hn & _)%rbind_ok)%rbind_ok)%rbind_ok)%rbind_ok.
  split; by eapply checkArray_wanted.
Qed.

Lemma narrow_lists_ok declared entry ceilings mode :
  is_ok (wanted_list (jget "fs" entry)) = true -> is_ok (wanted_list (jget "net" entry)) = true ->
  is_ok (narrow declared entry ceilings mode) = true.
Proof.
  intros Hf Hn. unfold narrow. case_match; [done|]. destruct (parse_items _ _ _). case_match; [done|].
  unfold narrowFs, narrowNet. destruct (wanted_list (jget "fs" entry)); [|done]. cbn.
  by destruct (wanted_list (jget "net" entry)).
Qed.

(** The part of [narrow] past an entry: an override is declared. *)
Lemma overrides_declared declared envEntry keys name v :
  (name, v) ∈ omap id (parse_items (fun _ => env_override declared envEntry) 0 keys).1 -> name ∈ declared.
Proof.
  intros (o & Ho & E)%list_elem_of_omap. cbn in E. subst o.
  apply parse_items_elem in Ho as (j & x & _ & Hx). by apply env_override_declared in Hx as [-> ?].
Qed.

(** An override is the entry's own text. *)
Lemma override_of_entry declared entry ceilings mode n name v :
  narrow declared entry ceilings mode = Ok n -> (name, v) ∈ p_envOverrides n -> jget name (jget "env" entry) = JStr v.
Proof.
  unfold narrow. destruct (is_nullish entry); [intros [= <-] H; inversion H|].
  set (envEntry := if _ : bool then _ else JObj []).
  assert (Hget : forall x, jget x envEntry = JStr v -> jget x (jget "env" entry) = JStr v) by (intros x; unfold envEntry; by case_match).
  assert (Hov : (name, v) ∈ omap id (parse_items (fun _ => env_override (d_env declared) envEntry) 0 (js_keys envEntry)).1 ->
            jget name envEntry = JStr v).
  { intros (o & Ho & E)%list_elem_of_omap. cbn in E. subst o. apply parse_items_elem in Ho as (j & x & _ & Hx).
    unfold env_override in Hx. destruct (negb (includes x _)); [done|]. destruct (jget x envEntry) eqn:Ex; try done.
    injection Hx as <- <-. done. }
  destruct (parse_items _ 0 (js_keys envEntry)) as [found ignored]. cbn [fst] in Hov.
  destruct (strict_eq _ _); [intros [= <-] H; by apply Hget, Hov|].
  intros (fs & _ & (net & _ & [= <-])%rbind_ok)%rbind_ok H. by apply Hget, Hov.
Qed.

(** What a narrowing grants is within the declaration. *)
Lemma narrowed_within pkg entry ceilings mode n :
  let d := (parseDeclaration pkg).1 in
  narrow d entry ceilings mode = Ok n ->
  (forall e, e ∈ p_fs n -> fs_within (d_fs d) e) /\
  (forall hostname port, hostAllowed (p_net n) hostname port = true -> hostAllowed (d_net d) hostname port = true) /\
  (forall name, name ∈ p_envNames n -> name ∈ d_env d) /\
  (forall name v, (name, v) ∈ p_envOverrides n -> name ∈ d_env d) /\
  (is_nullish entry = true -> mode = "enforce" -> p_fs n = [] /\ p_net n = [] /\ p_envNames n = []).
Proof.
  cbn zeta. set (d := (parseDeclaration pkg).1). intros H.
  assert (Hself : forall e, e ∈ d_fs d -> fs_within (d_fs d) e).
  { intros e He. apply fs_within_self; [done|]. by apply declared_paths in He. }
  unfold narrow in H. destruct (is_nullish entry) eqn:En.
  - injection H as <-. cbn. destruct (String.eqb_spec mode "enforce"); cbn; split_and!; try done; set_solver.
  - set (envEntry := if _ : bool then _ else JObj []) in H.
    pose proof (overrides_declared (d_env d) envEntry (js_keys envEntry)) as Hov.
    destruct (parse_items _ 0 (js_keys envEntry)) as [found ignored]. cbn [fst] in Hov.
    destruct (strict_eq _ _).
    + injection H as <-. cbn. split_and!; done.
    + apply rbind_ok in H as (fs & Hfs & H). apply rbind_ok in H as (net & Hnet & [= <-]). cbn.
      split_and!; try done.
      * intros e. eapply narrowFs_within; [apply declared_paths|done].
      * intros hostname port. by eapply narrowNet_allows.
      * intros name Hname%list_elem_of_In%List.filter_In. by apply includes_spec, Hname.
Qed.

(** A policy that loads narrows anything. *)
Lemma loaded_narrows file contents pol declared name entry mode :
  load file contents = Ok pol ->
  assoc name (po_modules pol) = Some entry \/ is_nullish entry = true ->
  is_ok (narrow declared entry (po_limits pol) mode) = true.
Proof.
  intros Hl [Hn|Hn]; [|by unfold narrow; rewrite Hn].
  apply load_ok in Hl as (raw & -> & Hm & Hall). rewrite Hm in Hn.
  apply assoc_elem, list_elem_of_fmap in Hn as (k & [= -> ->] & Hk).
  destruct (check_module_lists _ _ (Hall k Hk)). by apply narrow_lists_ok.
Qed.

(** ** Properties *)

(** C16: whatever the policy file says of a module, the permissions it runs with
    are no wider than what its package.json declares: every granted path is a
    declared path or names below it, none of them empty, "." or "..", with no
    more access, every host and port the
    grant lets through the declaration lets through, and every environment
    variable passed or overridden is a declared one. With no entry in the
    policy file, enforce mode grants nothing at all. *)
Theorem narrow_within_declared pkg entry ceilings mode n :
  let d := (parseDeclaration pkg).1 in
  narrow d entry ceilings mode = Ok n ->
  (forall e, e ∈ p_fs n -> fs_within (d_fs d) e) /\
  (forall hostname port, hostAllowed (p_net n) hostname port = true -> hostAllowed (d_net d) hostname port = true) /\
  (forall name, name ∈ p_envNames n -> name ∈ d_env d) /\
  (forall name v, (name, v) ∈ p_envOverrides n -> name ∈ d_env d) /\
  (is_nullish entry = true -> mode = "enforce" -> p_fs n = [] /\ p_net n = [] /\ p_envNames n = []).
Proof. cbn zeta. intros H. pose proof (narrowed_within pkg entry ceilings mode n H) as (Hf & Hn & He & Ho & Hd). by split_and!. Qed.

Lemma narrow_within_declared_witness :
  let pkg := JObj [("countinghouse", JObj [("permissions", JObj
    [("fs", JArr [JObj [("path", JStr "/srv/photos"); ("access", JStr "r")]]);
     ("net", JArr [JObj [("host", JStr "*.example.org"); ("ports", JArr [JNum 443])]])])])] in
  let entry := JObj [("fs", JArr [JObj [("path", JStr "/srv/photos/2026"); ("access", JStr "r")];
                                  JObj [("path", JStr "/srv"); ("access", JStr "r")];
                                  JObj [("path", JStr "/srv/photos/../../etc"); ("access", JStr "r")]]);
                     ("net", JArr [JObj [("host", JStr "API.example.org"); ("ports", JArr [JNum 443])]])] in
  exists n, narrow (parseDeclaration pkg).1 entry (JObj []) "enforce" = Ok n /\
    map f_path (p_fs n) = ["/srv/photos/2026"] /\
    hostAllowed (d_net (parseDeclaration pkg).1) (JStr "api.example.org") (JNum 443) = true.
Proof.
  eexists. split; [vm_compute; reflexivity|]. split; [reflexivity|].
  eapply (narrow_within_declared (JObj [("countinghouse", JObj [("permissions", JObj
    [("fs", JArr [JObj [("path", JStr "/srv/photos"); ("access", JStr "r")]]);
     ("net", JArr [JObj [("host", JStr "*.example.org"); ("ports", JArr [JNum 443])]])])])])
    (JObj [("fs", JArr [JObj [("path", JStr "/srv/photos/2026"); ("access", JStr "r")];
                                  JObj [("path", JStr "/srv"); ("access", JStr "r")];
                                  JObj [("path", JStr "/srv/photos/../../etc"); ("access", JStr "r")]]);
                     ("net", JArr [JObj [("host", JStr "API.example.org"); ("ports", JArr [JNum 443])]])])
    (JObj []) "enforce"); [vm_compute; reflexivity|vm_compute; reflexivity].
Defined.

(** A limit a module runs with is positive, at most what the module asked
    for, at most every ceiling the operator set for it (the default when none
    is set), and it is one of those numbers; every known limit has exactly one. *)
Theorem narrow_limits_capped pkg entry ceilings mode n :
  narrow (parseDeclaration pkg).1 entry ceilings mode = Ok n ->
  map fst (p_limits n) = LIMIT_KEYS /\
  forall k z, (k, z) ∈ p_limits n ->
    (0 < z)%Z /\
    exists dflt, (k, dflt) ∈ DEFAULT_LIMITS /\
      (forall r, assoc k (d_limits (parseDeclaration pkg).1) = Some r -> (z <= r)%Z) /\
      (forall c, c ∈ caps k dflt ceilings (jget "limits" entry) -> (z <= c)%Z) /\
      (z ∈ caps k dflt ceilings (jget "limits" entry) \/
       assoc k (d_limits (parseDeclaration pkg).1) = Some z).
Proof.
  intros H.
  assert (Hl : p_limits n = narrowLimits (d_limits (parseDeclaration pkg).1) ceilings (jget "limits" entry)).
  { unfold narrow in H. destruct (is_nullish entry); [by injection H as <-|].
    destruct (parse_items _ _ _). destruct (strict_eq _ _); [by injection H as <-|].
    apply rbind_ok in H as (? & _ & H). by apply rbind_ok in H as (? & _ & [= <-]). }
  rewrite Hl. split; [done|]. intros k z Hin%narrowLimits_spec.
  split; [|done]. destruct Hin as (dflt & Hd & _ & _ & [Hz|Hz]).
  - unfold caps, positive_int, DEFAULT_LIMITS in *. rewrite !elem_of_cons in Hd.
    destruct (jget k ceilings), (jget k (jget "limits" entry)); repeat case_match; bool_hyps;
      rewrite ?elem_of_cons, ?elem_of_nil in *; destruct_or?; simplify_eq; lia.
  - by eapply parseDeclaration_limits.
Qed.

Lemma narrow_limits_capped_witness :
  let pkg := JObj [("countinghouse", JObj [("permissions", JObj [("limits", JObj [("heapMb", JNum 128)])])])] in
  exists n, narrow (parseDeclaration pkg).1 JNull (JObj [("heapMb", JNum 64)]) "warn" = Ok n /\
    assoc "heapMb" (p_limits n) = Some 64%Z /\ map fst (p_limits n) = LIMIT_KEYS.
Proof.
  eexists. split; [vm_compute; reflexivity|]. split; [reflexivity|].
  eapply (narrow_limits_capped
    (JObj [("countinghouse", JObj [("permissions", JObj [("limits", JObj [("heapMb", JNum 128)])])])])
    JNull (JObj [("heapMb", JNum 64)]) "warn"). vm_compute. reflexivity.
Defined.

(** C38: What a declaration is allowed to name: every accepted path is absolute
    and canonical and is outside the directories the module's own root
    reserves, its access is one the ranks know, and nothing is dropped in
    silence: the entries kept and the problems reported add up to the entries
    given. *)
Theorem parseDeclaration_sound pkg :
  (forall e, e ∈ d_fs (parseDeclaration pkg).1 ->
     canonical (f_path e) /\ f_path e <> "/" /\ is_Some (access_rank (f_access e)) /\
     forall r, r ∈ RESERVED -> f_path e <> r /\ starts_with (r +:+ "/") (f_path e) = false) /\
  forall fs net env limits,
    jget "permissions" (jget "countinghouse" pkg) =
      JObj [("fs", JArr fs); ("net", JArr net); ("env", JArr env); ("limits", JObj limits)] ->
    let '(d, problems) := parseDeclaration pkg in
    (length (d_fs d) + length (d_net d) + length (d_env d) + length (d_limits d) + length problems =
     length fs + length net + length env + length limits)%nat.
Proof.
  split.
  - intros e (i & x & Hx)%parseDeclaration_fs. apply fs_item_ok in Hx as (Hc & Hr & Ha & _).
    unfold isReserved in Hr. apply orb_false_iff in Hr as [Hroot Hr]. bool_hyps.
    split_and!; try done. intros r Hin. apply existsb_false_forall in Hr. rewrite Forall_forall in Hr.
    specialize (Hr r Hin). apply orb_false_iff in Hr as [? ?]. by bool_hyps.
  - intros fs net env limits E. unfold parseDeclaration. rewrite E. cbn -[parseFs parseNet parseEnv parseLimits].
    unfold parseFs, parseNet, parseEnv, parseLimits. cbn -[parse_items].
    pose proof (parse_items_length fs_item 0 fs). pose proof (parse_items_length net_item 0 net).
    pose proof (parse_items_length env_item 0 env).
    pose proof (parse_items_length (limit_item (JObj limits)) 0 (map fst limits)) as Hl.
    rewrite length_map in Hl.
    destruct (parse_items fs_item _ _), (parse_items net_item _ _), (parse_items env_item _ _),
      (parse_items (limit_item _) _ _). cbn in *. rewrite !length_app. lia.
Qed.

Lemma parseDeclaration_sound_witness :
  let pkg := JObj [("countinghouse", JObj [("permissions", JObj [("fs", JArr
    [JObj [("path", JStr "/srv/x"); ("access", JStr "rw")]; JObj [("path", JStr "/data"); ("access", JStr "r")]]);
    ("net", JArr []); ("env", JArr []); ("limits", JObj [])])])] in
  map f_path (d_fs (parseDeclaration pkg).1) = ["/srv/x"] /\ length (parseDeclaration pkg).2 = 1%nat /\
  canonical "/srv/x".
Proof.
  split; [reflexivity|]. split; [reflexivity|].
  apply (proj1 (parseDeclaration_sound (JObj [("countinghouse", JObj [("permissions", JObj [("fs", JArr
    [JObj [("path", JStr "/srv/x"); ("access", JStr "rw")]])])])]))
    (mkFs "/srv/x" (JStr "rw"))). vm_compute. left.
Defined.


