(* ===== verification/Address.v ===== *)
(** * Composition addresses and plans (lib/call-address.js,
    lib/plan-validator.js, lib/mcp/tool-name.js)

    [<module>/<service>.<action>] addresses, how one is resolved against a
    device's spec, the one rule that makes an MCP tool name, and the check of
    a proposed module design against both. *)
From Stdlib Require Import ZArith Lia Ascii String.
From stdpp Require Import prelude strings gmap.
From S2P Require Import Prelude Paths Json Permissions.

Set Default Proof Using "Type".

(** ** tool-name.js *)

(** [s.replace(/[^a-z0-9]+/g, '_')]: each run of other characters becomes one
    underscore; [run] says the character before was already part of one. *)
Fixpoint collapse (run : bool) (s : list ascii) : list ascii :=
  match s with
  | [] => []
  | c :: s' => if alnum c then c :: collapse false s'
               else if run then collapse true s' else "_"%char :: collapse true s'
  end.

Definition is_underscore (c : ascii) : bool := Ascii.eqb c "_"%char.

(** [.replace(/^_+|_+$/g, '')] *)
Definition trim_underscores (s : list ascii) : list ascii :=
  rev (drop_while is_underscore (rev (drop_while is_underscore s))).

Definition slugify (s : string) : string :=
  match trim_underscores (collapse false (list_ascii_of_string (lowercase s))) with
  | [] => "x"
  | out => string_of_list_ascii out
  end.

(** ** call-address.js *)

Definition ADDRESS_FORM : string := "<module>/<service>.<action>".

Record address := mkAddr { ad_device : string; ad_service : string; ad_action : string }.

Definition dot : ascii := "."%char.

Definition parseAddress (v : jsval) : option address :=
  match v with
  | JStr s =>
      match split_on slash s with
      | [device; rest] =>
          match split_on dot rest with
          | [service; action] =>
              if String.eqb device "" || String.eqb service "" || String.eqb action "" then None
              else if has_char dot device then None
              else Some (mkAddr device service action)
          | _ => None
          end
      | _ => None
      end
  | _ => None
  end.

Definition colon : ascii := ":"%char.

(** [urn.split(':').pop()] *)
Definition urn_label (urn : string) : string := List.last (split_on colon urn) "".

(** [spec.device.serviceList], when it is there *)
Definition serviceList_of (spec : jsval) : jsval := jget "serviceList" (jget "device" spec).

Definition action_names (service : jsval) : list jsval :=
  match jget "actionList" service with JArr actions => map (jget "name") actions | _ => [] end.

(** What [resolveAddress] answers: the service's URN, or a message. *)
Definition resolveAddress (spec : jsval) (parsed : option address) : string + string :=
  match parsed with
  | None => inl ("not a valid address -- expected " +:+ ADDRESS_FORM)
  | Some p =>
      let serviceList := serviceList_of spec in
      let module_ := "module " +:+ in_quotes (ad_device p) in
      if is_nullish serviceList then inl (module_ +:+ " declares no services")
      else
        let urns := js_keys serviceList in
        match List.filter (fun urn => String.eqb (urn_label urn) (ad_service p)) urns with
        | [] => inl (module_ +:+ " has no service " +:+ in_quotes (ad_service p) +:+
                     " -- it declares: " +:+ join ", " (map urn_label urns))
        | [serviceID] =>
            let actions := action_names (jget serviceID serviceList) in
            if index_of (JStr (ad_action p)) actions then inr serviceID
            else inl ("service " +:+ in_quotes (ad_service p) +:+ " on " +:+ module_ +:+
                      " has no action " +:+ in_quotes (ad_action p) +:+ " -- it declares: " +:+
                      join ", " (map js_text actions))
        | matches => inl ("service label " +:+ in_quotes (ad_service p) +:+ " is ambiguous on " +:+ module_ +:+
                          " -- it matches " +:+ join " and " matches +:+ ". Rename one of them.")
        end
  end.

(** ** plan-validator.js *)

(** A problem: its message, and its fix when it has one. *)
Record problem := mkProblem { pr_message : string; pr_fix : option string }.

Section plan.
(** [callAddress.deviceIDForName]: the name's UUID. *)
Context (deviceIDForName : string -> string).

(** [specs[deviceID]]: the loaded devices' specs, when the caller gives them. *)
Definition spec_of (specs : list (string * jsval)) (deviceID : string) : jsval :=
  default JNull (assoc deviceID specs).

Definition address_matches (specs : list (string * jsval)) (p : address) : bool :=
  let serviceList := serviceList_of (spec_of specs (deviceIDForName (ad_device p))) in
  negb (is_nullish serviceList) &&
  existsb (fun urn => String.eqb (urn_label urn) (ad_service p) &&
                      index_of (JStr (ad_action p)) (action_names (jget urn serviceList)))
          (js_keys serviceList).

(** The problems of one entry of plan.calls, after the entries [seen]. *)
Definition call_problems (specs : option (list (string * jsval))) (seen : list string) (address_ : jsval)
  : list problem * list string :=
  match parseAddress address_ with
  | None => ([mkProblem (in_quotes (js_text address_) +:+ " is not a valid composition address -- expected " +:+ ADDRESS_FORM +:+ ".") None], seen)
  | Some p =>
      let text := js_text address_ in
      let dup := if includes text seen
        then [mkProblem ("plan.calls lists " +:+ in_quotes text +:+ " more than once.") (Some "Remove the duplicate entry.")]
        else [] in
      let unmatched := match specs with
        | None => []
        | Some sp => if address_matches sp p then []
                     else [mkProblem (in_quotes text +:+ " does not match any tool currently loaded on this runtime.")
                             (Some "Check the module, service and action names, or load the target module first.")]
        end in
      (dup ++ unmatched, text :: seen)
  end.

Fixpoint calls_loop (specs : option (list (string * jsval))) (seen : list string) (calls : list jsval)
  : list problem :=
  match calls with
  | [] => []
  | c :: rest => let '(ps, seen') := call_problems specs seen c in ps ++ calls_loop specs seen' rest
  end.

Definition callsProblems (plan : jsval) (specs : option (list (string * jsval))) : list problem :=
  let calls := jget "calls" plan in
  if is_nullish calls then []
  else match calls with
       | JArr cs => calls_loop specs [] cs
       | _ => [mkProblem "plan.calls must be an array of composition address strings."
                 (Some ("Each entry names a target this module may call, in " +:+ ADDRESS_FORM +:+ " form."))]
       end.

Definition predictedToolName (deviceName serviceName actionName : string) : string :=
  join "_" [slugify deviceName; slugify serviceName; slugify actionName].

(** A name noted in a plain object: setting ["__proto__"] to [true] sets
    nothing. *)
Definition note_seen (name : string) (seen : list string) : list string :=
  if String.eqb name "__proto__" then seen else name :: seen.

Definition name_of (v : jsval) : option string :=
  match jget "name" v with JStr s => if String.eqb s "" then None else Some s | _ => None end.

(** One action of a service: its problems, its tool name, the names seen. *)
Definition action_problems (existing : list string) (device svc : string) (i j : nat) (seen : list string)
  (action : jsval) : list problem * option string * list string :=
  match name_of action with
  | None => ([mkProblem ("services[" +:+ nat_text i +:+ "].actions[" +:+ nat_text j +:+ "].name must be a non-empty string.") None], None, seen)
  | Some name =>
      let label := in_quotes (svc +:+ "." +:+ name) in
      let dup := if includes name seen
        then [mkProblem ("action " +:+ label +:+ " is declared twice.") (Some "Action names are unique per service.")] else [] in
      let desc := match jget "description" action with
        | JStr d => if String.eqb d "" then true else false
        | _ => true
        end in
      let undescribed := if desc
        then [mkProblem ("action " +:+ label +:+ " has no description.")
                (Some "description is what an LLM reads as the MCP tool description; an action without one is skipped when tools/list is built.")]
        else [] in
      let toolName := predictedToolName device svc name in
      let clash := if includes toolName existing
        then [mkProblem (in_quotes toolName +:+ " is already a tool on this runtime.")
                (Some "Rename the device, service or action so the generated tool name is unique.")] else [] in
      (dup ++ undescribed ++ clash, Some toolName, note_seen name seen)
  end.

Fixpoint actions_loop (existing : list string) (device svc : string) (i j : nat) (seen : list string)
  (actions : list jsval) : list problem * list string :=
  match actions with
  | [] => ([], [])
  | a :: rest =>
      let '(ps, tool, seen') := action_problems existing device svc i j seen a in
      let '(ps', tools) := actions_loop existing device svc i (S j) seen' rest in
      (ps ++ ps', match tool with Some t => t :: tools | None => tools end)
  end.

Definition service_problems (existing : list string) (device : string) (i : nat) (seen : list string)
  (svc : jsval) : list problem * list string * list string :=
  match name_of svc with
  | None => ([mkProblem ("services[" +:+ nat_text i +:+ "].name must be a non-empty string.") None], [], seen)
  | Some name =>
      let dup := if includes name seen
        then [mkProblem ("service short name " +:+ in_quotes name +:+ " is duplicate within this plan.")
                (Some "Short names must be unique within a module -- the handler map keys off them.")] else [] in
      match jget "actions" svc with
      | JArr ((_ :: _) as actions) =>
          let '(ps, tools) := actions_loop existing device name i 0 [] actions in
          (dup ++ ps, tools, note_seen name seen)
      | _ => (dup ++ [mkProblem ("service " +:+ in_quotes name +:+ " declares no actions.") None], [], note_seen name seen)
      end
  end.

Fixpoint services_loop (existing : list string) (device : string) (i : nat) (seen : list string)
  (services : list jsval) : list problem * list string :=
  match services with
  | [] => ([], [])
  | s :: rest =>
      let '(ps, tools, seen') := service_problems existing device i seen s in
      let '(ps', tools') := services_loop existing device (S i) seen' rest in
      (ps ++ ps', tools ++ tools')
  end.

(** [ok], the problems, and the tool names the plan would make. *)
Record plan_report := mkReport { pl_ok : bool; pl_problems : list problem; pl_toolNames : list string }.

Definition validatePlan (plan : jsval) (existing : list string) (specs : option (list (string * jsval)))
  : plan_report :=
  let problems := callsProblems plan specs in
  match jget "device" plan with
  | JStr device =>
      if String.eqb device "" then
        mkReport false (problems ++ [mkProblem "plan.device must be a non-empty string." (Some "This becomes the device friendlyName in api.json.")]) []
      else match jget "services" plan with
      | JArr ((_ :: _) as services) =>
          let '(ps, tools) := services_loop existing device 0 [] services in
          mkReport (is_nil (problems ++ ps)) (problems ++ ps) tools
      | _ => mkReport false (problems ++ [mkProblem "plan.services must be a non-empty array."
               (Some "A module exposes at least one service, each with at least one action.")]) []
      end
  | _ => mkReport false (problems ++ [mkProblem "plan.device must be a non-empty string." (Some "This becomes the device friendlyName in api.json.")]) []
  end.
End plan.

(** ** Lemmas *)

(** *** Slugs *)

(** Letters, digits and single underscores; [run]: none at the start. *)
Fixpoint tidy (run : bool) (s : list ascii) : bool :=
  match s with
  | [] => true
  | c :: s' => if alnum c then tidy false s' else is_underscore c && negb run && tidy true s'
  end.

Lemma tidy_collapse run s : tidy run (collapse run s) = true.
Proof.
  revert run. induction s as [|c s IH]; intros run; [done|]. cbn [collapse].
  destruct (alnum c) eqn:E; [cbn [tidy]; rewrite E; apply IH|].
  destruct run; [apply IH|]. cbn. apply IH.
Qed.

Lemma collapse_tidy run s : tidy run s = true -> collapse run s = s.
Proof.
  revert run. induction s as [|c s IH]; intros run; [done|]. cbn [collapse tidy].
  destruct (alnum c); [intros H; by rewrite IH|].
  intros H. bool_hyps. subst. unfold is_underscore in H. apply Ascii.eqb_eq in H. subst. by rewrite IH.
Qed.

Lemma tidy_weaken run s : tidy run s = true -> tidy false s = true.
Proof.
  destruct s as [|c s]; [done|]. cbn. destruct (alnum c); [done|]. intros H. bool_hyps.
  by rewrite H, H0.
Qed.

Lemma tidy_prefix run a b : tidy run (a ++ b) = true -> tidy run a = true.
Proof.
  revert run. induction a as [|c a IH]; intros run; [done|]. cbn. destruct (alnum c); [apply IH|].
  intros H. bool_hyps. rewrite H, H1. cbn. by eapply IH.
Qed.

Lemma tidy_drop s : tidy false s = true -> tidy false (drop_while is_underscore s) = true.
Proof.
  induction s as [|c s IH]; [done|]. intros H. cbn [drop_while].
  destruct (is_underscore c) eqn:E; [|done]. apply IH. cbn in H.
  destruct (alnum c); [done|]. bool_hyps. by eapply tidy_weaken.
Qed.

Lemma drop_while_split f (s : list ascii) : s = take_while f s ++ drop_while f s.
Proof. induction s as [|c s IH]; [done|]. cbn. destruct (f c); [|done]. cbn. by f_equal. Qed.

Lemma drop_while_head f (s : list ascii) c r : drop_while f s = c :: r -> f c = false.
Proof.
  induction s as [|d s IH]; [done|]. cbn. destruct (f d) eqn:E; [auto|]. by intros [= -> ->].
Qed.

(** No underscore at either end. *)
Definition trimmed (s : list ascii) : Prop :=
  (forall c r, s = c :: r -> is_underscore c = false) /\
  (forall c r, s = r ++ [c] -> is_underscore c = false).

Lemma trim_trimmed s : trimmed (trim_underscores s).
Proof.
  unfold trim_underscores. set (d := drop_while is_underscore s). split.
  - intros c r E. pose proof (drop_while_split is_underscore (rev d)) as Hs.
    apply (f_equal (@rev ascii)) in Hs. rewrite rev_involutive, rev_app_distr, E in Hs.
    unfold d in Hs. by apply drop_while_head in Hs.
  - intros c r E. apply (f_equal (@rev ascii)) in E. rewrite rev_involutive, rev_app_distr in E.
    by apply drop_while_head in E.
Qed.

Lemma trim_tidy s : tidy false s = true -> tidy false (trim_underscores s) = true.
Proof.
  intros H. unfold trim_underscores. set (d := drop_while is_underscore s).
  assert (Hd : tidy false d = true) by (by apply tidy_drop).
  pose proof (drop_while_split is_underscore (rev d)) as Hs.
  apply (f_equal (@rev ascii)) in Hs. rewrite rev_involutive, rev_app_distr in Hs.
  rewrite Hs in Hd. by apply tidy_prefix in Hd.
Qed.

Lemma trim_id s : trimmed s -> trim_underscores s = s.
Proof.
  intros [Hh Ht]. unfold trim_underscores. destruct s as [|c s]; [done|].
  cbn [drop_while]. rewrite (Hh c s eq_refl).
  destruct (rev (c :: s)) as [|l r] eqn:E; [apply (f_equal length) in E; by rewrite length_rev in E|].
  assert (Hl : is_underscore l = false).
  { apply (Ht l (rev r)). by rewrite <-(rev_involutive (c :: s)), E. }
  cbn [drop_while]. rewrite Hl, <-E. apply rev_involutive.
Qed.

Lemma tidy_lower c : alnum c = true \/ is_underscore c = true -> lower_char c = c.
Proof. destruct c as [[] [] [] [] [] [] [] []]; intros [H|H]; try discriminate H; reflexivity. Qed.

Lemma tidy_lowercase run s : tidy run s = true -> lowercase (string_of_list_ascii s) = string_of_list_ascii s.
Proof.
  revert run. induction s as [|c s IH]; intros run H; [done|]. cbn [string_of_list_ascii lowercase].
  cbn in H. destruct (alnum c) eqn:E.
  - rewrite tidy_lower by auto. f_equal. by eapply IH.
  - bool_hyps. rewrite tidy_lower by auto. f_equal. by eapply IH.
Qed.

(** A slug: not empty, letters, digits and single underscores, none at the
    ends. *)
Definition is_slug (s : string) : Prop :=
  s <> "" /\ tidy false (list_ascii_of_string s) = true /\ trimmed (list_ascii_of_string s).

Lemma slugify_is_slug s : is_slug (slugify s).
Proof.
  unfold slugify, is_slug.
  pose proof (trim_tidy _ (tidy_collapse false (list_ascii_of_string (lowercase s)))) as Ht.
  pose proof (trim_trimmed (collapse false (list_ascii_of_string (lowercase s)))) as Hm.
  destruct (trim_underscores _) as [|c r].
  - split; [done|]. split; [done|]. split; [intros c r [= <- _]; done|].
    intros c [|d [|]]; cbn; intros [= <-] || intros [=]; done.
  - rewrite list_ascii_of_string_of_list_ascii. split; [done|]. by split.
Qed.

Lemma slugify_id s : is_slug s -> slugify s = s.
Proof.
  intros (Hne & Ht & Hm). unfold slugify.
  assert (Hl : lowercase s = s).
  { rewrite <-(string_of_list_ascii_of_string s). by eapply tidy_lowercase. }
  rewrite Hl, collapse_tidy, trim_id by done.
  destruct (list_ascii_of_string s) eqn:E.
  - apply (f_equal string_of_list_ascii) in E. by rewrite string_of_list_ascii_of_string in E.
  - by rewrite <-E, string_of_list_ascii_of_string.
Qed.

(** *** Addresses *)

Definition plain_part (s : string) : Prop := s <> "" /\ has_char slash s = false /\ has_char dot s = false.

Lemma split_two c s a b :
  split_on c s = [a; b] <-> s = a +:+ String c b /\ has_char c a = false /\ has_char c b = false.
Proof.
  split.
  - intros H. pose proof (join_split c s) as Hj. pose proof (split_on_parts c s) as Hp.
    rewrite H in Hj, Hp. apply Forall_cons in Hp as [Ha Hp]. apply Forall_cons in Hp as [Hb _].
    cbn in Hj. split; [|done]. by rewrite <-Hj.
  - intros (-> & Ha & Hb). by rewrite split_on_app, (split_on_none c b) by done.
Qed.

(** ** Properties *)

(** An address is accepted exactly when it reads one way: a module, a
    service and an action, none empty and none with a slash or a dot in it,
    written module/service.action; and what is read is those three. *)
Theorem parseAddress_exact v p :
  parseAddress v = Some p <->
  v = JStr (ad_device p +:+ "/" +:+ ad_service p +:+ "." +:+ ad_action p) /\
  plain_part (ad_device p) /\ plain_part (ad_service p) /\ plain_part (ad_action p).
Proof.
  split.
  - unfold parseAddress. destruct v as [| | | | |s| |]; try done.
    destruct (split_on slash s) as [|device [|rest [|]]] eqn:E1; try done.
    destruct (split_on dot rest) as [|service [|action [|]]] eqn:E2; try done.
    apply split_two in E1 as (-> & Hd & Hr). apply split_two in E2 as (-> & Hs & Ha).
    rewrite has_char_app in Hr. cbn [has_char] in Hr. bool_hyps.
    destruct (String.eqb device "" || _ || _) eqn:Ee; [done|].
    destruct (has_char dot device) eqn:Edot; [done|]. intros [= <-]. cbn. bool_hyps. done.
  - destruct p as [d s a]. cbn. intros (-> & (Hd & Hd1 & Hd2) & (Hs & Hs1 & Hs2) & (Ha & Ha1 & Ha2)).
    unfold parseAddress.
    assert (E1 : split_on slash (d +:+ "/" +:+ s +:+ "." +:+ a) = [d; s +:+ "." +:+ a]).
    { apply split_two. split; [done|]. split; [done|]. rewrite has_char_app, Hs1. cbn. done. }
    assert (E2 : split_on dot (s +:+ "." +:+ a) = [s; a]) by (by apply split_two).
    rewrite E1, E2, Hd2. apply String.eqb_neq in Hd, Hs, Ha. by rewrite Hd, Hs, Ha.
Qed.

Lemma filter_unique {A} (f : A -> bool) l x :
  NoDup l -> List.filter f l = [x] <-> x ∈ l /\ f x = true /\ forall y, y ∈ l -> f y = true -> y = x.
Proof.
  intros Hnd. split.
  - intros H. assert (Hx : List.In x (List.filter f l)) by (rewrite H; by left).
    apply List.filter_In in Hx as [Hx1 Hx2]. split; [by apply list_elem_of_In|]. split; [done|].
    intros y Hy1 Hy2. assert (Hy : List.In y (List.filter f l))
      by (apply List.filter_In; split; [by apply list_elem_of_In|done]).
    rewrite H in Hy. by destruct Hy as [<-|[]].
  - intros (Hx & Hfx & Hu). induction Hnd as [|y l Hy Hnd IH]; [set_solver|]. cbn.
    destruct (f y) eqn:E.
    + assert (y = x) as -> by (apply Hu; [set_solver|done]). f_equal.
      destruct (List.filter f l) as [|z zs] eqn:Ez; [done|].
      assert (Hz : List.In z (List.filter f l)) by (rewrite Ez; by left).
      apply List.filter_In in Hz as [Hz1 Hz2]. apply list_elem_of_In in Hz1.
      assert (z = x) as -> by (apply Hu; [set_solver|done]). done.
    + apply IH; [|set_solver]. apply elem_of_cons in Hx as [->|]; [congruence|done].
Qed.

(** An address resolves to a service exactly when the device's spec
    declares that service under a label no other of its services has, and
    that service declares the action; an ambiguous label never resolves to
    one of its services. *)
Theorem resolveAddress_exact spec p urn :
  NoDup (js_keys (serviceList_of spec)) ->
  resolveAddress spec (Some p) = inr urn <->
  urn ∈ js_keys (serviceList_of spec) /\ urn_label urn = ad_service p /\
  (forall urn', urn' ∈ js_keys (serviceList_of spec) -> urn_label urn' = ad_service p -> urn' = urn) /\
  index_of (JStr (ad_action p)) (action_names (jget urn (serviceList_of spec))) = true.
Proof.
  intros Hnd. unfold resolveAddress. destruct (is_nullish (serviceList_of spec)) eqn:En.
  { split; [done|]. intros (H & _). destruct (serviceList_of spec); try done; by apply elem_of_nil in H. }
  pose proof (filter_unique (fun urn => String.eqb (urn_label urn) (ad_service p)) _ urn Hnd) as Hf.
  setoid_rewrite String.eqb_eq in Hf.
  destruct (List.filter _ _) as [|u [|u' us]] eqn:E.
  - split; [done|]. intros (H1 & H2 & H3 & _). by assert ([] = [urn]) by tauto.
  - destruct (index_of (JStr (ad_action p)) (action_names (jget u (serviceList_of spec)))) eqn:Ei.
    + split; [intros [= ->]; tauto|]. intros (H1 & H2 & H3 & _). assert ([u] = [urn]) by tauto. congruence.
    + split; [done|]. intros (H1 & H2 & H3 & H4). assert ([u] = [urn]) by tauto. congruence.
  - split; [done|]. intros (H1 & H2 & H3 & _). by assert (u :: u' :: us = [urn]) by tauto.
Qed.

Definition sample_spec : jsval :=
  JObj [("device", JObj [("serviceList", JObj
    [("urn:x:scanService", JObj [("actionList", JArr [JObj [("name", JStr "scan")]])])])])].

Lemma resolveAddress_exact_witness :
  resolveAddress sample_spec (parseAddress (JStr "repo/scanService.scan")) = inr "urn:x:scanService".
Proof.
  assert (Hnd : NoDup (js_keys (serviceList_of sample_spec))) by (apply (bool_decide_unpack _); vm_compute; done).
  apply (proj2 (resolveAddress_exact sample_spec (mkAddr "repo" "scanService" "scan") "urn:x:scanService" Hnd)).
  split; [vm_compute; left|]. split; [reflexivity|]. split; [|reflexivity].
  intros u Hu _. vm_compute in Hu. by apply list_elem_of_singleton in Hu.
Defined.

(** A slug is never empty, is made of lower-case letters, digits and single
    underscores with none at its ends, and is its own slug: making a tool name
    from a tool name's parts changes nothing. *)
Theorem slugify_canonical s :
  is_slug (slugify s) /\ slugify (slugify s) = slugify s.
Proof.
  split; [apply slugify_is_slug|apply slugify_id, slugify_is_slug].
Qed.

Section plan_lemmas.
Context (existing : list string) (device : string).

Lemma action_problems_none svc i j seen a tool seen' :
  action_problems existing device svc i j seen a = ([], tool, seen') ->
  exists name d, name_of a = Some name /\ jget "description" a = JStr d /\ d <> "" /\
    tool = Some (predictedToolName device svc name) /\ predictedToolName device svc name ∉ existing.
Proof.
  unfold action_problems. destruct (name_of a) as [name|]; [|done].
  intros [= Hps <- _]. apply app_eq_nil in Hps as [_ Hps]. apply app_eq_nil in Hps as [Hd Hc].
  destruct (jget "description" a) as [| | | | |d| |]; try done.
  destruct (String.eqb_spec d ""); [done|].
  destruct (includes _ existing) eqn:E; [done|]. apply includes_false in E. eauto 10.
Qed.

(** The tool names of a service's actions, by the names they declare. *)
Definition names_of (svc : string) (actions : list jsval) : list string :=
  omap (fun a => predictedToolName device svc <$> name_of a) actions.

Lemma actions_loop_none svc i j seen actions tools :
  actions_loop existing device svc i j seen actions = ([], tools) ->
  length tools = length actions /\ tools = names_of svc actions /\
  Forall (fun t => t ∉ existing) tools /\
  Forall (fun a => exists d, jget "description" a = JStr d /\ d <> "") actions.
Proof.
  revert j seen tools. induction actions as [|a actions IH]; intros j seen tools; cbn [actions_loop].
  - intros [= <-]. by repeat split; constructor.
  - destruct (action_problems _ _ _ _ _ _ a) as [[ps tool] seen'] eqn:E.
    destruct (actions_loop _ _ _ _ _ _ actions) as [ps' tools'] eqn:E'.
    intros [= Hps <-]. apply app_eq_nil in Hps as [-> ->].
    apply action_problems_none in E as (name & d & Hn & Hd & Hd' & -> & Hx).
    destruct (IH _ _ _ E') as (Hlen & -> & Hf & Hdesc). cbn. rewrite Hn. cbn.
    split_and!; [by rewrite Hlen|done|by constructor|]. constructor; eauto.
Qed.

(** What a plan's services declare, service by service. *)
Definition plan_names (services : list jsval) : list string :=
  services ≫= fun s => match name_of s, jget "actions" s with
                       | Some n, JArr actions => names_of n actions
                       | _, _ => []
                       end.

Lemma services_loop_none i seen services tools :
  services_loop existing device i seen services = ([], tools) ->
  tools = plan_names services /\ Forall (fun t => t ∉ existing) tools /\
  Forall (fun s => exists n a r, name_of s = Some n /\ jget "actions" s = JArr (a :: r) /\
            length (names_of n (a :: r)) = length (a :: r) /\
            Forall (fun a => exists d, jget "description" a = JStr d /\ d <> "") (a :: r)) services.
Proof.
  revert i seen tools. induction services as [|s services IH]; intros i seen tools; cbn [services_loop].
  - intros [= <-]. by repeat split; constructor.
  - destruct (service_problems _ _ _ _ s) as [[ps tl] seen'] eqn:E.
    destruct (services_loop _ _ _ _ services) as [ps' tools'] eqn:E'.
    intros [= Hps <-]. apply app_eq_nil in Hps as [-> ->].
    destruct (IH _ _ _ E') as (-> & Hf & Hs). clear IH E'.
    unfold service_problems in E. destruct (name_of s) as [n|] eqn:En; [|done].
    destruct (jget "actions" s) as [| | | | | |acts|] eqn:Ea;
      try (exfalso; injection E as E _ _; by apply app_eq_nil in E as [_ E]).
    destruct acts as [|a r]; [exfalso; injection E as E _ _; by apply app_eq_nil in E as [_ E]|].
    destruct (actions_loop _ _ _ _ _ _ (a :: r)) as [ps tools] eqn:El.
    injection E as E <- _. apply app_eq_nil in E as [_ ->].
    apply actions_loop_none in El as (Hlen & -> & Hf' & Hd).
    unfold plan_names. cbn [mbind list_bind]. rewrite En, Ea.
    split_and!; [done|by apply Forall_app|]. constructor; [|done]. eexists _, _, _. split_and!; done.
Qed.
End plan_lemmas.

Lemma calls_loop_none dn sp seen calls c :
  calls_loop dn (Some sp) seen calls = [] -> c ∈ calls ->
  exists p, parseAddress c = Some p /\ address_matches dn sp p = true.
Proof.
  revert seen. induction calls as [|x calls IH]; intros seen; cbn [calls_loop]; [set_solver|].
  unfold call_problems. destruct (parseAddress x) as [p|] eqn:E; [|done].
  intros H. apply app_eq_nil in H as [H1 H2]. apply app_eq_nil in H1 as [_ H1].
  destruct (address_matches dn sp p) eqn:Em; [|done].
  rewrite elem_of_cons. intros [->|Hc]; [eauto|]. by eapply IH.
Qed.

(** A plan the validator passes names a device, and every service of it
    has a name and at least one action; every action has a name and a
    description; the tool names reported are exactly the ones its actions
    make, in order, and none of them is a tool already on the runtime; and,
    when the loaded specs are given, every call it declares names an action
    some loaded device has. *)
Theorem validatePlan_ok dn plan existing specs :
  pl_ok (validatePlan dn plan existing specs) = true ->
  exists device services,
    jget "device" plan = JStr device /\ device <> "" /\ jget "services" plan = JArr services /\ services <> [] /\
    pl_toolNames (validatePlan dn plan existing specs) = plan_names device services /\
    Forall (fun t => t ∉ existing) (plan_names device services) /\
    Forall (fun s => exists n a r, name_of s = Some n /\ jget "actions" s = JArr (a :: r) /\
              length (names_of device n (a :: r)) = length (a :: r) /\
              Forall (fun a => exists d, jget "description" a = JStr d /\ d <> "") (a :: r)) services /\
    forall sp calls c, specs = Some sp -> jget "calls" plan = JArr calls -> c ∈ calls ->
      exists p, parseAddress c = Some p /\ address_matches dn sp p = true.
Proof.
  unfold validatePlan. destruct (jget "device" plan) as [| | | | |device| |]; try done.
  destruct (String.eqb_spec device ""); [done|].
  destruct (jget "services" plan) as [| | | | | |services|] eqn:Es; try done.
  destruct services as [|s services]; [done|].
  destruct (services_loop _ _ _ _ (s :: services)) as [ps tools] eqn:El. cbn [pl_ok pl_toolNames].
  intros Hok. destruct (callsProblems dn plan specs ++ ps) eqn:Ep; [|done].
  apply app_eq_nil in Ep as [Hc ->]. apply services_loop_none in El as (-> & Hf & Hs).
  eexists _, _. split_and!; try done.
  intros sp calls c -> Hcalls. unfold callsProblems in Hc. rewrite Hcalls in Hc. cbn in Hc.
  by eapply calls_loop_none.
Qed.

Definition sample_plan : jsval :=
  JObj [("device", JStr "Repo Scan"); ("services", JArr [JObj [("name", JStr "scanService");
    ("actions", JArr [JObj [("name", JStr "scan"); ("description", JStr "scans")]])]])].

Lemma validatePlan_ok_witness :
  pl_toolNames (validatePlan (fun n => n) sample_plan ["other"] None) = ["repo_scan_scanservice_scan"] /\
  "repo_scan_scanservice_scan" ∉ ["other"].
Proof.
  split; [reflexivity|].
  destruct (validatePlan_ok (fun n => n) sample_plan ["other"] None eq_refl)
    as (device & services & Hd & _ & Hs & _ & _ & Hf & _).
  vm_compute in Hd, Hs. injection Hd as <-. injection Hs as <-.
  vm_compute in Hf. by apply Forall_cons in Hf as [Hf _].
Defined.
