(* ===== verification/Session.v ===== *)
(** * A request's session (lib/session.js, lib/timer.js)

    One object per inbound request or local service call: who it is for, the
    timer that bounds it, the callback that answers it once, and the one
    metering record a billed HTTP call makes. *)
From Stdlib Require Import ZArith Lia Ascii String.
From stdpp Require Import prelude strings gmap.
From S2P Require Import Prelude Json Errors.

Set Default Proof Using "Type".

(** ** State *)

(** [this.device]: a worker's proxy with its device specs by id, or a device
    of this thread with its spec. *)
Inductive device_ref :=
| WorkerMessageRef (deviceList : list (string * jsval))
| DeviceRef (spec : jsval).

Record session := mkSession {
  s_username : jsval;
  s_appKey : jsval;
  s_deviceID : jsval;
  s_local : bool;                  (* [localCallback != null] *)
  s_serviceID : jsval;
  s_actionName : jsval;
  s_localInput : jsval;
  s_body : jsval;                  (* [req.body] *)
  s_isAdmin : bool;
  s_meteredTool : option string;
  s_timer : option bool;           (* [timer], with its [expired] *)
  s_pending : bool;                (* the timer's timeout is still to fire *)
  s_device : option device_ref;
  s_called : bool                  (* [once]: the callback has run *)
}.

(** [new Session(req, res, username, appKey, balance, deviceID, ..., localCB)] *)
Definition Session_ (username appKey deviceID : jsval) (local : bool) (body : jsval) : session :=
  mkSession username appKey deviceID local JNull JNull JNull body false None None false None false.

(** What a call on a session does to the outside. *)
Inductive effect :=
| Respond (status : Z) (body : jsval)
| LocalCallback (err : option cherr) (data metering : jsval)
| RecordCall (appKey : jsval) (tool : string) (cost : Z)
| LogCall (channel : string) (isError isHTTP : bool)
| TypeError.

Definition is_answer (e : effect) : bool :=
  match e with Respond _ _ | LocalCallback _ _ _ => true | _ => false end.
Definition is_charge (e : effect) : bool := match e with RecordCall _ _ _ => true | _ => false end.

Definition with_timer (s : session) (timer : option bool) (pending : bool) : session :=
  mkSession (s_username s) (s_appKey s) (s_deviceID s) (s_local s) (s_serviceID s) (s_actionName s)
            (s_localInput s) (s_body s) (s_isAdmin s) (s_meteredTool s) timer pending (s_device s) (s_called s).
Definition with_called (s : session) : session :=
  mkSession (s_username s) (s_appKey s) (s_deviceID s) (s_local s) (s_serviceID s) (s_actionName s)
            (s_localInput s) (s_body s) (s_isAdmin s) (s_meteredTool s) (s_timer s) (s_pending s) (s_device s) true.
Definition with_tool (s : session) (tool : option string) : session :=
  mkSession (s_username s) (s_appKey s) (s_deviceID s) (s_local s) (s_serviceID s) (s_actionName s)
            (s_localInput s) (s_body s) (s_isAdmin s) tool (s_timer s) (s_pending s) (s_device s) (s_called s).
Definition with_device (s : session) (d : device_ref) : session :=
  mkSession (s_username s) (s_appKey s) (s_deviceID s) (s_local s) (s_serviceID s) (s_actionName s)
            (s_localInput s) (s_body s) (s_isAdmin s) (s_meteredTool s) (s_timer s) (s_pending s) (Some d) (s_called s).

Section session.
(** The locale's messages; whether a metering interface is configured
    ([CHUtil.ci.recordCall]); [options.mcpToolCallCost]; whether the API
    monitor logs (main thread, redis client, [options.apiMonitor]). *)
Context (ErrorInfo : string -> option string) (metering : bool) (mcpToolCallCost : Z) (monitor : bool).

(** ** Operations *)

Definition recordMeteredCall (s : session) : session * list effect :=
  match s_meteredTool s with
  | None => (s, [])
  | Some tool =>
      if is_nullish (s_appKey s) || negb metering then (s, [])
      else (with_tool s None, [RecordCall (s_appKey s) tool mcpToolCallCost])
  end.

Definition opt_str (o : option string) : jsval := match o with Some t => JStr t | None => JUndef end.

Definition error_body (e : cherr) : list (string * jsval) :=
  [("topic", opt_str (topic e)); ("code", c_code e); ("message", JStr (message_of ErrorInfo e))].

Definition response (s : session) (err : option cherr) (data : jsval) : session * list effect :=
  match err with
  | Some e =>
      (s, [Respond 500 (JObj (error_body e ++ if is_nullish data then [] else [("fault", data)]))])
  | None => let '(s', eff) := recordMeteredCall s in (s', eff ++ [Respond 200 data])
  end.

(** [specDeclaresAction] *)
Definition specDeclaresAction (s : session) (serviceList : jsval) : bool :=
  match jget "actionList" (jget (js_text (s_serviceID s)) serviceList) with
  | JArr actions => existsb (fun a => strict_eq (jget "name" a) (s_actionName s)) actions
  | _ => false
  end.

(** Whether the device's spec lets the call be logged. *)
Definition declared (s : session) (d : device_ref) : bool :=
  match d with
  | WorkerMessageRef deviceList =>
      match List.find (fun kv => strict_eq (JStr kv.1) (s_deviceID s)) deviceList with
      | Some (_, spec) => specDeclaresAction s (jget "serviceList" (jget "device" spec))
      | None => true
      end
  | DeviceRef spec => specDeclaresAction s (jget "serviceList" (jget "device" spec))
  end.

Definition logAPICall (s : session) (err : option cherr) (isHTTPCall : bool) : list effect :=
  if negb monitor then []
  else match s_device s with
       | None => []
       | Some d =>
           if is_nullish (s_serviceID s) || is_nullish (s_actionName s) then []
           else if negb (declared s d) then []
           else [LogCall (js_text (s_appKey s) +:+ "#" +:+ js_text (s_deviceID s) +:+ "#" +:+
                          js_text (s_serviceID s) +:+ "#" +:+ js_text (s_actionName s))
                         (bool_decide (is_Some err)) isHTTPCall]
       end.

Definition clearDeviceTimer (s : session) : session :=
  match s_timer s with Some _ => with_timer s None false | None => s end.

(** [Session.prototype.callback], as the constructor wraps it: only its first
    call runs. *)
Definition callback (s : session) (err : option cherr) (data platformMetering : jsval)
  : session * list effect :=
  if s_called s then (s, [])
  else
    let s := with_called s in
    match s_timer s with
    | None => (s, [])
    | Some true =>
        let s := with_timer s None (s_pending s) in
        match err with
        | None => (s, [TypeError])
        | Some e =>
            if s_local s then
              (s, logAPICall s err false ++ [LocalCallback (Some (Error_ (message_of ErrorInfo e))) JNull JUndef])
            else (s, logAPICall s err true ++ [Respond 500 (JObj (error_body e))])
        end
    | Some false =>
        let s := clearDeviceTimer s in
        if s_local s then (s, logAPICall s err false ++ [LocalCallback err data platformMetering])
        else let '(s', eff) := response s err data in (s', logAPICall s err true ++ eff)
    end.

Definition callbackWithoutTimer (s : session) (err : option cherr) (data : jsval)
  : session * list effect :=
  if s_local s then (s, logAPICall s err false ++ [LocalCallback err data JUndef])
  else let '(s', eff) := response s err data in (s', logAPICall s err true ++ eff).

(** [setDeviceTimer], [installTimer]: the device, and a timer running. *)
Definition setDeviceTimer (s : session) (d : device_ref) : session :=
  with_timer (with_device s d) (Some false) true.

(** The timeout fires: [Timer.expire], and the listener [installTimer] set. *)
Definition expire (s : session) : session * list effect :=
  if negb (s_pending s) then (s, [])
  else
    let s := with_timer s (match s_timer s with Some _ => Some true | None => None end) false in
    callback s (Some (DeviceError "DEVICE_NOT_RESPONDING" [])) JNull JUndef.

(** ** Sequences *)

Inductive event :=
| Callback (err : option cherr) (data platformMetering : jsval)
| Expire
| WithoutTimer (err : option cherr) (data : jsval)
| SetTimer (d : device_ref).

Definition apply_event (ev : event) (s : session) : session * list effect :=
  match ev with
  | Callback err data m => callback s err data m
  | Expire => expire s
  | WithoutTimer err data => callbackWithoutTimer s err data
  | SetTimer d => (setDeviceTimer s d, [])
  end.

Fixpoint run_events (evs : list event) (s : session) : session * list effect :=
  match evs with
  | [] => (s, [])
  | ev :: rest => let '(s1, e1) := apply_event ev s in
                  let '(s2, e2) := run_events rest s1 in (s2, e1 ++ e2)
  end.

(** ** Lemmas *)

Definition charges (eff : list effect) : nat := length (List.filter is_charge eff).
Definition answers (eff : list effect) : list effect := List.filter is_answer eff.
Arguments charges : simpl never.
Arguments answers : simpl never.

Lemma charges_app a b : charges (a ++ b) = charges a + charges b.
Proof. unfold charges. by rewrite List.filter_app, length_app. Qed.

Lemma answers_app a b : answers (a ++ b) = answers a ++ answers b.
Proof. unfold answers. apply List.filter_app. Qed.

Lemma log_silent s err h : charges (logAPICall s err h) = 0 /\ answers (logAPICall s err h) = [].
Proof. unfold logAPICall. by repeat case_match. Qed.

(** Charges made and the metered tool left: the tool is the right to charge. *)
Definition right_to_charge (s : session) : nat := if s_meteredTool s then 1 else 0.

Lemma response_charges s err data :
  charges (response s err data).2 + right_to_charge (response s err data).1 = right_to_charge s /\
  (err <> None -> charges (response s err data).2 = 0).
Proof.
  unfold response, recordMeteredCall, right_to_charge. destruct err as [e|]; [by split|].
  destruct (s_meteredTool s) eqn:E; cbn; [|by rewrite E].
  destruct (is_nullish (s_appKey s) || negb metering); cbn; rewrite ?E; done.
Qed.

Lemma response_answers s err data : length (answers (response s err data).2) = 1%nat.
Proof.
  unfold response. destruct err; [done|]. destruct (recordMeteredCall s) as [s' eff] eqn:E. cbn.
  rewrite answers_app. unfold recordMeteredCall in E. by repeat case_match; simplify_eq.
Qed.

Lemma without_timer_charges s err data :
  charges (callbackWithoutTimer s err data).2 + right_to_charge (callbackWithoutTimer s err data).1 =
    right_to_charge s /\
  (err <> None -> charges (callbackWithoutTimer s err data).2 = 0).
Proof.
  unfold callbackWithoutTimer. destruct (s_local s).
  - cbn. rewrite charges_app. destruct (log_silent s err false) as [-> _]. done.
  - pose proof (response_charges s err data). destruct (response s err data). cbn in *.
    rewrite charges_app. by destruct (log_silent s err true) as [-> _].
Qed.

Lemma callback_charges s err data m :
  charges (callback s err data m).2 + right_to_charge (callback s err data m).1 = right_to_charge s /\
  (err <> None -> charges (callback s err data m).2 = 0).
Proof.
  unfold callback. destruct (s_called s); [done|].
  destruct (s_timer (with_called s)) as [[]|] eqn:Et; [| |done].
  - destruct err as [e|]; [|done].
    set (s1 := with_timer _ _ _). destruct (log_silent s1 (Some e) false) as [Hf _].
    destruct (log_silent s1 (Some e) true) as [Ht _].
    destruct (s_local s1); cbn [fst snd]; rewrite charges_app, ?Hf, ?Ht; done.
  - set (s1 := clearDeviceTimer _).
    assert (Hr : right_to_charge s1 = right_to_charge s) by (unfold s1, clearDeviceTimer; by rewrite Et).
    destruct (log_silent s1 err false) as [Hf _]. destruct (log_silent s1 err true) as [Ht _].
    destruct (s_local s1); cbn [fst snd].
    + rewrite charges_app, Hf. done.
    + pose proof (response_charges s1 err data) as H. destruct (response s1 err data). cbn in *.
      by rewrite charges_app, Ht, <-Hr.
Qed.

Lemma apply_event_charges ev s :
  charges (apply_event ev s).2 + right_to_charge (apply_event ev s).1 = right_to_charge s.
Proof.
  destruct ev as [err data m| |err data|d]; cbn [apply_event].
  - apply callback_charges.
  - unfold expire. destruct (s_pending s); cbn [negb]; [|done].
    rewrite (proj1 (callback_charges _ _ _ _)). done.
  - apply without_timer_charges.
  - done.
Qed.

Lemma run_events_charges evs s :
  charges (run_events evs s).2 + right_to_charge (run_events evs s).1 = right_to_charge s.
Proof.
  revert s. induction evs as [|ev evs IH]; intros s; [done|]. cbn.
  pose proof (apply_event_charges ev s). destruct (apply_event ev s) as [s1 e1]. cbn in H.
  specialize (IH s1). destruct (run_events evs s1) as [s2 e2]. cbn in *. rewrite charges_app. lia.
Qed.

(** A session the callback has answered: nothing more comes of the callback or
    the timer. *)
Lemma called_silent evs s :
  s_called s = true -> Forall (fun ev => match ev with Callback _ _ _ | Expire => True | _ => False end) evs ->
  answers (run_events evs s).2 = [].
Proof.
  intros Hc H. revert s Hc. induction H as [|ev evs Hev Hevs IH]; intros s Hc; [done|].
  cbn. destruct ev as [err data m| | |]; try done; cbn [apply_event].
  - unfold callback. rewrite Hc. specialize (IH s Hc). by destruct (run_events evs s).
  - unfold expire. destruct (s_pending s); cbn [negb].
    + unfold callback. set (s1 := with_timer s _ _). change (s_called s1) with (s_called s). rewrite Hc.
      specialize (IH s1 Hc). by destruct (run_events evs s1).
    + specialize (IH s Hc). by destruct (run_events evs s).
Qed.

(** The first answer of a session whose timer runs. *)
Lemma timed_callback s err data m :
  s_called s = false -> s_timer s = Some false ->
  s_called (callback s err data m).1 = true /\ length (answers (callback s err data m).2) = 1%nat /\
  s_pending (callback s err data m).1 = false.
Proof.
  intros Hc Ht. unfold callback. rewrite Hc. change (s_timer (with_called s)) with (s_timer s). rewrite Ht.
  assert (Hclear : clearDeviceTimer (with_called s) = with_timer (with_called s) None false)
    by (unfold clearDeviceTimer; change (s_timer (with_called s)) with (s_timer s); by rewrite Ht).
  rewrite Hclear. set (s1 := with_timer (with_called s) None false).
  destruct (log_silent s1 err false) as [_ Hf]. destruct (log_silent s1 err true) as [_ Hl].
  destruct (s_local s1); cbn [fst snd].
  - by rewrite answers_app, Hf.
  - pose proof (response_answers s1 err data) as H.
    assert (s_called (response s1 err data).1 = true /\ s_pending (response s1 err data).1 = false) as [H1 H2].
    { unfold response, recordMeteredCall. by destruct err; repeat case_match; simplify_eq. }
    destruct (response s1 err data). cbn in *. by rewrite answers_app, Hl.
Qed.

Lemma timed_expire s :
  s_called s = false -> s_timer s = Some false -> s_pending s = true ->
  s_called (expire s).1 = true /\
  answers (expire s).2 =
    [let e := DeviceError "DEVICE_NOT_RESPONDING" [] in
     if s_local s then LocalCallback (Some (Error_ (message_of ErrorInfo e))) JNull JUndef
     else Respond 500 (JObj (error_body e))].
Proof.
  intros Hc Ht Hp. unfold expire. rewrite Hp, Ht. cbn [negb]. unfold callback.
  change (s_called (with_timer s (Some true) false)) with (s_called s). rewrite Hc.
  cbn [s_timer with_timer with_called]. set (s1 := with_timer _ _ _).
  change (s_local s1) with (s_local s).
  destruct (log_silent s1 (Some (DeviceError "DEVICE_NOT_RESPONDING" [])) false) as [_ Hf].
  destruct (log_silent s1 (Some (DeviceError "DEVICE_NOT_RESPONDING" [])) true) as [_ Hl].
  destruct (s_local s); cbn [fst snd]; rewrite answers_app, ?Hf, ?Hl; done.
Qed.
End session.
Arguments charges : simpl never.
Arguments answers : simpl never.

(** ** Properties *)

(** Whatever order answers, timeouts and untimed answers come in, and
    however often, a session records at most one metered call, and none once
    its tool is gone; an HTTP session that starts billable and is answered
    with an error first is not charged by that answer. *)
Theorem session_billed_once ErrorInfo metering cost monitor evs s :
  (charges (run_events ErrorInfo metering cost monitor evs s).2 <= 1)%nat /\
  (s_meteredTool s = None -> charges (run_events ErrorInfo metering cost monitor evs s).2 = 0%nat) /\
  (forall err data m, charges (callback ErrorInfo metering cost monitor s (Some err) data m).2 = 0%nat) /\
  (forall err data, charges (callbackWithoutTimer ErrorInfo metering cost monitor s (Some err) data).2 = 0%nat).
Proof.
  pose proof (run_events_charges ErrorInfo metering cost monitor evs s) as H.
  assert (right_to_charge s <= 1) by (unfold right_to_charge; destruct (s_meteredTool s); lia).
  split_and!; [lia| | |].
  - intros E. unfold right_to_charge in H at 2. rewrite E in H. lia.
  - intros. by apply (callback_charges ErrorInfo metering cost monitor).
  - intros. by apply (without_timer_charges ErrorInfo metering cost monitor).
Qed.

Lemma session_billed_once_witness :
  charges (run_events (fun _ => None) true 2 false
    [Callback None (JNum 7) JUndef; WithoutTimer None (JNum 8); Callback None (JNum 9) JUndef]
    (setDeviceTimer (with_tool (Session_ (JStr "u") (JStr "k") (JStr "d") false JNull) (Some "t")) (DeviceRef JNull))).2 = 1%nat /\
  charges (run_events (fun _ => None) true 2 false [Callback None (JNum 7) JUndef]
    (setDeviceTimer (Session_ (JStr "u") (JStr "k") (JStr "d") false JNull) (DeviceRef JNull))).2 = 0%nat.
Proof.
  split; [reflexivity|].
  apply (session_billed_once (fun _ => None) true 2 false [Callback None (JNum 7) JUndef]
    (setDeviceTimer (Session_ (JStr "u") (JStr "k") (JStr "d") false JNull) (DeviceRef JNull))). reflexivity.
Defined.

(** Once its timer runs, a session is answered exactly once, by whichever
    comes first, the module's answer or the timeout, however many more of
    either follow; when the timeout is first the answer is
    DEVICE_NOT_RESPONDING, and after an answer the timeout never fires. *)
Theorem session_answered_once ErrorInfo metering cost monitor s ev evs :
  s_called s = false -> s_timer s = Some false -> s_pending s = true ->
  Forall (fun e => match e with Callback _ _ _ | Expire => True | _ => False end) (ev :: evs) ->
  let '(s', eff) := run_events ErrorInfo metering cost monitor (ev :: evs) s in
  length (answers eff) = 1%nat /\
  (ev = Expire -> answers eff =
     [let e := DeviceError "DEVICE_NOT_RESPONDING" [] in
      if s_local s then LocalCallback (Some (Error_ (message_of ErrorInfo e))) JNull JUndef
      else Respond 500 (JObj (error_body ErrorInfo e))]) /\
  (forall err data m, ev = Callback err data m ->
     expire ErrorInfo metering cost monitor (callback ErrorInfo metering cost monitor s err data m).1 =
     ((callback ErrorInfo metering cost monitor s err data m).1, [])).
Proof.
  intros Hc Ht Hp Hev. inv Hev. cbn [run_events].
  destruct ev as [err data m| | |]; try done; cbn [apply_event].
  - destruct (timed_callback ErrorInfo metering cost monitor s err data m Hc Ht) as (H & Hl & Hpend).
    destruct (callback ErrorInfo metering cost monitor s err data m) as [s1 e1] eqn:E. cbn in H, Hl, Hpend.
    pose proof (called_silent ErrorInfo metering cost monitor evs s1 H H2) as Hs.
    destruct (run_events _ _ _ _ evs s1) as [s2 e2]. cbn in Hs.
    rewrite answers_app, Hs, app_nil_r. split_and!; [done|done|].
    intros ? ? ? [= <- <- <-]. rewrite E. unfold expire. cbn. by rewrite Hpend.
  - destruct (timed_expire ErrorInfo metering cost monitor s Hc Ht Hp) as [H Ha].
    destruct (expire ErrorInfo metering cost monitor s) as [s1 e1]. cbn in H, Ha.
    pose proof (called_silent ErrorInfo metering cost monitor evs s1 H H2) as Hs.
    destruct (run_events _ _ _ _ evs s1) as [s2 e2]. cbn in Hs.
    rewrite answers_app, Hs, app_nil_r, Ha. done.
Qed.

Lemma session_answered_once_witness :
  length (answers (run_events (fun _ => None) true 2 false [Expire; Callback None (JNum 7) JUndef]
    (setDeviceTimer (Session_ (JStr "u") (JStr "k") (JStr "d") false JNull) (DeviceRef JNull))).2) = 1%nat.
Proof.
  pose proof (session_answered_once (fun _ => None) true 2 false
    (setDeviceTimer (Session_ (JStr "u") (JStr "k") (JStr "d") false JNull) (DeviceRef JNull))
    Expire [Callback None (JNum 7) JUndef] eq_refl eq_refl eq_refl) as H.
  apply H. repeat constructor.
Defined.
