(* ===== verification/Auth.v ===== *)
(** * Authentication: the provider interface, its three implementations and
    the code that asks it (lib/auth/, lib/couchdb-adapter/couchdb-auth-provider.js,
    lib/user-auth.js, lib/rate-limit-gate.js, lib/routes/admin-only.js,
    lib/routes/balance.js)

    [AuthProvider] is the interface of lib/auth/provider.js with what a caller
    relies on as laws; each provider is an instance, and [doUserAuth] and the
    gates are proved against the interface alone. *)
From Stdlib Require Import ZArith Lia Ascii String.
From stdpp Require Import prelude strings gmap.
From S2P Require Import Prelude Json Errors Session.

Set Default Proof Using "Type".

(** ** lib/auth/provider.js *)

(** What [authenticate] passes its callback on success. *)
Record auth_result := mkAuth {
  a_ok : bool;
  a_userName : jsval;
  a_isAdmin : bool;
  a_err : option cherr
}.

(** A call of a provider: [callback(err)], [callback(null, result)], or an
    exception thrown before the callback runs. *)
Inductive called (A : Type) :=
| Failed (message : string)
| Answered (a : A)
| Threw (e : jserr).
Arguments Failed {A} message.
Arguments Answered {A} a.
Arguments Threw {A} e.

Definition unknown_user (apiKey : jsval) : auth_result :=
  mkAuth false JNull false (Some (CHError "SYSTEM_ERROR_UNKNOWN_USER" [apiKey])).
Definition no_device (userName : jsval) (isAdmin : bool) : auth_result :=
  mkAuth false userName isAdmin (Some (CHError "USER_HAS_NO_DEVICE" [])).
Definition granted (userName : jsval) (isAdmin : bool) : auth_result :=
  mkAuth true userName isAdmin None.

(** The device a key may call: one the list names, or any with the wildcard. *)
Definition may_call (devices : list jsval) (deviceID : jsval) : bool :=
  index_of (JStr "*") devices || index_of deviceID devices.

(** The interface. A provider's state is passed through, since one caches. *)
Class AuthProvider (P : Type) := {
  authenticate : P -> jsval -> jsval -> jsval -> jsval -> P * called auth_result;
  listDevices : P -> jsval -> P * called (list jsval)
}.

(** What callers rely on: an answer is one of the three shapes; a device is
    granted exactly when the listed devices allow it; identity and admin
    rights do not depend on the device asked about. *)
Class AuthProviderLaws (P : Type) `{AuthProvider P} := {
  auth_shape : forall p apiKey deviceID sid act p' r,
    authenticate p apiKey deviceID sid act = (p', Answered r) ->
    r = unknown_user apiKey \/ (exists u b, r = granted u b) \/
    (is_nullish deviceID = false /\ exists u b, r = no_device u b);
  auth_devices : forall p apiKey deviceID sid act p1 r p2 ds,
    authenticate p apiKey deviceID sid act = (p1, Answered r) ->
    listDevices p apiKey = (p2, Answered ds) ->
    is_string deviceID = true ->
    (a_ok r = true <-> r <> unknown_user apiKey /\ may_call ds deviceID = true);
  auth_identity : forall p apiKey d1 d2 sid act p1 r1 p2 r2,
    authenticate p apiKey d1 sid act = (p1, Answered r1) ->
    authenticate p apiKey d2 sid act = (p2, Answered r2) ->
    a_userName r1 = a_userName r2 /\ a_isAdmin r1 = a_isAdmin r2
}.

(** ** lib/auth/safe-equal.js *)

(** [Buffer.from(a)] and [Buffer.from(b)] are the strings' bytes, and
    [timingSafeEqual] compares equal lengths. *)
Definition safeEqual (a b : jsval) : bool :=
  match a, b with
  | JStr x, JStr y => (String.length x =? String.length y)%nat && String.eqb x y
  | _, _ => false
  end.

(** ** lib/auth/file-provider.js *)

(** An own property of a value, as [hasOwnProperty.call(v, k)] and [v[k]]
    read it: arrays and strings have their indices and their length. *)
Definition own_get (v : jsval) (k : string) : result (option jsval) :=
  let indexed (items : list jsval) :=
    if String.eqb k "length" then Some (JNum (Z.of_nat (length items)))
    else match List.find (fun i => String.eqb (nat_text i) k) (seq 0 (length items)) with
         | Some i => items !! i
         | None => None
         end in
  match v with
  | JUndef | JNull => Throw (plain_error "Cannot convert undefined or null to object")
  | JObj kvs => Ok (assoc k kvs)
  | JArr xs => Ok (indexed xs)
  | JStr s => Ok (indexed (map (fun c => JStr (String c "")) (list_ascii_of_string s)))
  | _ => Ok None
  end.

Record FileAuthProvider := mkFile { f_configPath : string; f_envKey : option string; f_config : jsval }.

Record file_entry := mkEntry { e_userName : jsval; e_devices : list jsval; e_admin : bool }.

Definition env_entry : file_entry := mkEntry (JStr "env-key-user") [JStr "*"] true.

Definition is_true (v : jsval) : bool := match v with JBool true => true | _ => false end.

Definition entry_of (apiKey : string) (entry : jsval) : file_entry :=
  mkEntry (if is_nullish (jget "userName" entry) then JStr apiKey else jget "userName" entry)
          (match jget "devices" entry with JArr ds => ds | _ => [] end)
          (is_true (jget "admin" entry)).

(** [_lookup] *)
Definition file_lookup (p : FileAuthProvider) (apiKey : jsval) : result (option file_entry) :=
  match apiKey with
  | JStr k =>
      if match f_envKey p with Some e => safeEqual apiKey (JStr e) | None => false end
      then Ok (Some env_entry)
      else
        let! own := own_get (f_config p) k in
        Ok (match own with
            | Some entry => if is_nullish entry then None else Some (entry_of k entry)
            | None => None
            end)
  | _ => Ok None
  end.

(** What [authenticate] makes of an entry; the couchdb provider's is the same. *)
Definition check_entry (apiKey deviceID : jsval) (entry : option file_entry) : auth_result :=
  match entry with
  | None => unknown_user apiKey
  | Some e =>
      if negb (is_nullish deviceID) && negb (may_call (e_devices e) deviceID)
      then no_device (e_userName e) (e_admin e) else granted (e_userName e) (e_admin e)
  end.

Definition entry_devices (entry : option file_entry) : list jsval :=
  match entry with Some e => e_devices e | None => [] end.

Definition lift {A B} (r : result A) (f : A -> B) : called B :=
  match r with Ok a => Answered (f a) | Throw e => Threw e end.

Definition file_authenticate (p : FileAuthProvider) (apiKey deviceID serviceID actionName : jsval)
  : FileAuthProvider * called auth_result :=
  (p, lift (file_lookup p apiKey) (check_entry apiKey deviceID)).

Definition file_listDevices (p : FileAuthProvider) (apiKey : jsval)
  : FileAuthProvider * called (list jsval) :=
  (p, lift (file_lookup p apiKey) entry_devices).

(** [identityForModule]: the bound key, or the claimants when there are several. *)
Record identity := mkIdentity { i_apiKey : jsval; i_conflicts : option (list string) }.

Definition members_of (v : jsval) : list (string * jsval) :=
  match v with
  | JObj kvs => kvs
  | JArr xs => imap (fun i x => (nat_text i, x)) xs
  | _ => []
  end.

Definition claimants (config : jsval) (friendlyName : jsval) : list string :=
  map fst (List.filter (fun kv => match jget "runsModules" kv.2 with
                                  | JArr ms => index_of friendlyName ms
                                  | _ => false
                                  end) (members_of config)).

Definition file_identityForModule (p : FileAuthProvider) (friendlyName : jsval) : identity :=
  match claimants (f_config p) friendlyName with
  | [] => mkIdentity JNull None
  | [k] => mkIdentity (JStr k) None
  | ks => mkIdentity JNull (Some ks)
  end.

(** [_load], from what the file system and [JSON.parse] gave: the
    configuration, and whether a demo configuration is written. *)
Inductive config_file := FileMissing | FileUnreadable | FileInvalid | FileParsed (v : jsval).

(** [demoKey] is ["demo-" + randomBytes(16).toString('hex')]. *)
Definition demo_config (demoKey : string) : jsval :=
  JObj [(demoKey, JObj [("userName", JStr "demo"); ("devices", JArr [JStr "*"])])].

Definition file_load (configPath : string) (COUNTINGHOUSE_API_KEY : option string) (file : config_file)
  (demoKey : string) : FileAuthProvider * option jsval :=
  let envKey := match COUNTINGHOUSE_API_KEY with
                | Some k => if String.eqb k "" then None else Some k
                | None => None
                end in
  match file with
  | FileMissing =>
      match envKey with
      | Some _ => (mkFile configPath envKey (JObj []), None)
      | None => (mkFile configPath envKey (demo_config demoKey), Some (demo_config demoKey))
      end
  | FileUnreadable | FileInvalid => (mkFile configPath envKey (JObj []), None)
  | FileParsed v => (mkFile configPath envKey v, None)
  end.

(** [_warnKeysAsNames]: the positions warned about, with no userName or with
    the key for one. *)
Inductive name_warning := NoUserName (position : nat) | KeyIsUserName (position : nat).

Definition warn_entry (i : nat) (kv : string * jsval) : option name_warning :=
  let '(apiKey, entry) := kv in
  if is_nullish entry || negb (is_object entry) then None
  else if is_nullish (jget "userName" entry) then Some (NoUserName (S i))
  else if strict_eq (jget "userName" entry) (JStr apiKey) then Some (KeyIsUserName (S i))
  else None.

Definition warnKeysAsNames (config : jsval) : list name_warning :=
  omap id (imap warn_entry (members_of config)).

#[export] Instance FileAuth : AuthProvider FileAuthProvider := {
  authenticate := file_authenticate;
  listDevices := file_listDevices
}.

(** ** lib/auth/sqlite-provider.js *)

(** The three tables, and whether the database answers queries. *)
Record SqliteAuthProvider := mkSqlite {
  q_users : list (string * (jsval * Z));       (* apiKey, userName, admin *)
  q_user_devices : list (string * string);     (* apiKey, deviceID *)
  q_module_identities : list (string * string);
  q_down : option string
}.

Section sqlite.
(** The text the driver binds a value as, against a TEXT column; a string is
    bound as it is. *)
Context (bind_text : jsval -> string).

Definition sqlite_authenticate (p : SqliteAuthProvider) (apiKey deviceID serviceID actionName : jsval)
  : SqliteAuthProvider * called auth_result :=
  (p,
   if is_nullish apiKey then Answered (unknown_user apiKey)
   else match q_down p with
   | Some m => Failed m
   | None =>
       match assoc (bind_text apiKey) (q_users p) with
       | None => Answered (unknown_user apiKey)
       | Some (userName, admin) =>
           let isAdmin := Z.eqb admin 1 in
           if is_nullish deviceID then Answered (granted userName isAdmin)
           else if existsb (fun row => String.eqb row.1 (bind_text apiKey) &&
                                       (String.eqb row.2 (bind_text deviceID) || String.eqb row.2 "*"))
                           (q_user_devices p)
                then Answered (granted userName isAdmin)
                else Answered (no_device userName isAdmin)
       end
   end).

Definition sqlite_listDevices (p : SqliteAuthProvider) (apiKey : jsval)
  : SqliteAuthProvider * called (list jsval) :=
  (p,
   if is_nullish apiKey then Answered []
   else match q_down p with
   | Some m => Failed m
   | None => Answered (map (fun row => JStr row.2)
       (List.filter (fun row => String.eqb row.1 (bind_text apiKey)) (q_user_devices p)))
   end).

Definition sqlite_identityForModule (p : SqliteAuthProvider) (friendlyName : jsval) : called identity :=
  if is_nullish friendlyName then Answered (mkIdentity JNull None)
  else match q_down p with
  | Some m => Failed m
  | None => Answered match assoc (bind_text friendlyName) (q_module_identities p) with
                     | None => mkIdentity JNull None
                     | Some k => mkIdentity (JStr k) None
                     end
  end.
End sqlite.

(** ** lib/couchdb-adapter/couchdb-auth-provider.js *)

(** The cache, and the users view: an error, or the rows' values for a key. *)
Record CouchDBAuthProvider := mkCouch {
  c_cache : list (string * file_entry);
  c_view : string -> string + list (list jsval)
}.

(** Its constructor starts with an empty cache. *)
Definition couch_new (view : string -> string + list (list jsval)) : CouchDBAuthProvider := mkCouch [] view.

Definition elem_at (l : list jsval) (i : nat) : jsval := default JUndef (l !! i).

Definition couch_entry (value : list jsval) : file_entry :=
  mkEntry (elem_at value 0)
          (match elem_at value 2 with JArr ds => map (jget "deviceID") ds | _ => [] end)
          (is_true (elem_at value 3)).

(** [_lookup]: a null device entry in a document would make [d.deviceID]
    throw; the view ([init-db.js]) emits objects only. *)
Definition couch_lookup (p : CouchDBAuthProvider) (apiKey : jsval)
  : CouchDBAuthProvider * (string + option file_entry) :=
  match apiKey with
  | JStr k =>
      match assoc k (c_cache p) with
      | Some e => (p, inr (Some e))
      | None =>
          match c_view p k with
          | inl m => (p, inl m)
          | inr [] => (p, inr None)
          | inr (value :: _) =>
              let e := couch_entry value in
              (mkCouch (assoc_set k e (c_cache p)) (c_view p), inr (Some e))
          end
      end
  | _ => (p, inr None)
  end.

Definition couch_authenticate (p : CouchDBAuthProvider) (apiKey deviceID serviceID actionName : jsval)
  : CouchDBAuthProvider * called auth_result :=
  let '(p', r) := couch_lookup p apiKey in
  (p', match r with inl m => Failed m | inr e => Answered (check_entry apiKey deviceID e) end).

Definition couch_listDevices (p : CouchDBAuthProvider) (apiKey : jsval)
  : CouchDBAuthProvider * called (list jsval) :=
  let '(p', r) := couch_lookup p apiKey in
  (p', match r with inl m => Failed m | inr e => Answered (entry_devices e) end).

#[export] Instance CouchAuth : AuthProvider CouchDBAuthProvider := {
  authenticate := couch_authenticate;
  listDevices := couch_listDevices
}.

(** ** lib/user-auth.js *)

Record options := mkOptions { o_debug : bool; o_debugKey : jsval }.

(** The callback of [doUserAuth]: an error, or a session; or what the provider
    threw. *)
Inductive user_auth :=
| Refused (e : cherr)
| Accepted (s : session)
| AuthThrew (e : jserr).

(** A session with the fields [doUserAuth] sets. *)
Definition auth_session (userName appKey deviceID serviceID actionName : jsval) (local : bool)
  (body : jsval) (isAdmin : bool) : session :=
  mkSession userName appKey deviceID local serviceID actionName JNull body isAdmin None None false None false.

Section user_auth.
Context {P : Type} `{AuthProvider P} (o : options).

Definition doUserAuth (p : P) (body deviceID appKey serviceID actionName : jsval) (local : bool)
  : P * user_auth :=
  let debug_session := Accepted (auth_session (JStr "debug") appKey deviceID serviceID actionName local body true) in
  if o_debug o then
    if is_nullish (o_debugKey o) then (p, debug_session)
    else if negb (safeEqual appKey (o_debugKey o)) then (p, Refused (CHError "SYSTEM_ERROR_UNKNOWN_USER" []))
    else (p, debug_session)
  else if is_nullish appKey then (p, Refused (CHError "SYSTEM_ERROR_UNKNOWN_USER" []))
  else
    let '(p', r) := authenticate p appKey deviceID serviceID actionName in
    (p', match r with
         | Failed m => Refused (CHError "SYSTEM_ERROR_USERDB_NA" [JStr m])
         | Threw e => AuthThrew e
         | Answered r =>
             if negb (a_ok r)
             then Refused (match a_err r with Some e => e | None => CHError "SYSTEM_ERROR_UNKNOWN_USER" [appKey] end)
             else Accepted (auth_session (a_userName r) appKey deviceID serviceID actionName local body (a_isAdmin r))
         end).
End user_auth.

(** ** lib/rate-limit-gate.js *)

(** What the metering interface's [rateLimit] passed its callback. *)
Inductive rate_reply := RateError | RateResult (result : jsval).

Section gate.
(** [cdifInterface.rateLimit], when there is an interface. *)
Context (rateLimit : option (jsval -> rate_reply)).

(** Is the request over its budget? *)
Definition rateLimitGate (appKey : jsval) : bool :=
  match rateLimit with
  | None => false
  | Some f =>
      if is_nullish appKey then false
      else match f appKey with
           | RateError => false
           | RateResult r => is_true (jget "limited" r)
           end
  end.

Definition rateLimitError : cherr := CHError "RATE_LIMIT_EXCEEDED" [].
Definition RATE_LIMIT_STATUS : Z := 429.

(** A route's outcome: an HTTP answer with an error body, or the handler goes
    on with a value. *)
Inductive routed (A : Type) :=
| Deny (status : Z) (e : cherr)
| Go (a : A).

(** [guardRequest]; [sess] is [req.session]. *)
Definition guardRequest (sess : option session) : routed unit :=
  if rateLimitGate (match sess with Some s => s_appKey s | None => JNull end)
  then Deny unit RATE_LIMIT_STATUS rateLimitError else Go unit tt.
End gate.
Arguments Deny {A} status e.
Arguments Go {A} a.

(** ** Lemmas *)

Lemma safeEqual_iff a b : safeEqual a b = true <-> exists s, a = JStr s /\ b = JStr s.
Proof.
  split.
  - destruct a, b; cbn; try done. intros H. bool_hyps. subst. eauto.
  - intros (s & -> & ->). cbn. by rewrite Nat.eqb_refl, String.eqb_refl.
Qed.

Lemma strict_eq_refl_str s : strict_eq (JStr s) (JStr s) = true.
Proof. cbn. apply String.eqb_refl. Qed.

Lemma check_entry_shape apiKey deviceID entry :
  check_entry apiKey deviceID entry = unknown_user apiKey \/
  (exists u b, check_entry apiKey deviceID entry = granted u b) \/
  (is_nullish deviceID = false /\ exists u b, check_entry apiKey deviceID entry = no_device u b).
Proof.
  destruct entry as [e|]; cbn; [|by left]. right. case_match eqn:E; [right|left; eauto].
  bool_hyps. eauto.
Qed.

Lemma check_entry_devices apiKey deviceID entry :
  is_nullish deviceID = false ->
  a_ok (check_entry apiKey deviceID entry) = true <->
  check_entry apiKey deviceID entry <> unknown_user apiKey /\ may_call (entry_devices entry) deviceID = true.
Proof.
  intros Hd. destruct entry as [e|]; cbn; [|split; [done|intros [[] ?]; done]].
  rewrite Hd. cbn. destruct (may_call (e_devices e) deviceID); cbn; split; try done. intros [? ?]. done.
Qed.

Lemma check_entry_identity apiKey d1 d2 entry :
  a_userName (check_entry apiKey d1 entry) = a_userName (check_entry apiKey d2 entry) /\
  a_isAdmin (check_entry apiKey d1 entry) = a_isAdmin (check_entry apiKey d2 entry).
Proof. destruct entry as [e|]; cbn; [|done]. by repeat case_match. Qed.

Lemma lift_answered {A B} (r : result A) (f : A -> B) b :
  lift r f = Answered b -> exists a, r = Ok a /\ b = f a.
Proof. destruct r; cbn; [|done]. intros [= <-]. eauto. Qed.

#[export] Instance FileAuthLaws : AuthProviderLaws FileAuthProvider.
Proof.
  split.
  - intros p k d sid act p' r. cbn. unfold file_authenticate. intros [= _ H].
    apply lift_answered in H as (e & _ & ->). apply check_entry_shape.
  - intros p k d sid act p1 r p2 ds. cbn. unfold file_authenticate, file_listDevices.
    intros [= _ H1] [= _ H2] Hd. apply lift_answered in H1 as (e & He & ->), H2 as (e' & He' & ->).
    rewrite He in He'. injection He' as <-. apply check_entry_devices. by destruct d.
  - intros p k d1 d2 sid act p1 r1 p2 r2. cbn. unfold file_authenticate. intros [= _ H1] [= _ H2].
    apply lift_answered in H1 as (e & He & ->), H2 as (e' & He' & ->).
    rewrite He in He'. injection He' as <-. apply check_entry_identity.
Qed.

#[export] Instance CouchAuthLaws : AuthProviderLaws CouchDBAuthProvider.
Proof.
  split.
  - intros p k d sid act p' r. cbn. unfold couch_authenticate.
    destruct (couch_lookup p k) as [p1 [m|e]]; [done|]. intros [= _ <-]. apply check_entry_shape.
  - intros p k d sid act p1 r p2 ds. cbn. unfold couch_authenticate, couch_listDevices.
    destruct (couch_lookup p k) as [p' [m|e]]; [done|]. intros [= _ <-] [= _ <-] Hd.
    apply check_entry_devices. by destruct d.
  - intros p k d1 d2 sid act p1 r1 p2 r2. cbn. unfold couch_authenticate.
    destruct (couch_lookup p k) as [p' [m|e]]; [done|]. intros [= _ <-] [= _ <-]. apply check_entry_identity.
Qed.

Section sqlite_laws.
Context (bind_text : jsval -> string) (bind_str : forall s, bind_text (JStr s) = s).

#[local] Instance SqliteAuth : AuthProvider SqliteAuthProvider := {
  authenticate := sqlite_authenticate bind_text;
  listDevices := sqlite_listDevices bind_text
}.

Lemma sqlite_may_call p apiKey d :
  may_call (map (fun row => JStr row.2)
    (List.filter (fun row => String.eqb row.1 (bind_text apiKey)) (q_user_devices p))) (JStr d) =
  existsb (fun row => String.eqb row.1 (bind_text apiKey) &&
                      (String.eqb row.2 (bind_text (JStr d)) || String.eqb row.2 "*")) (q_user_devices p).
Proof using bind_str.
  rewrite bind_str. unfold may_call, index_of.
  induction (q_user_devices p) as [|[k' d'] rows IH]; [done|]. cbn [List.filter existsb fst snd].
  destruct (String.eqb k' (bind_text apiKey)); cbn [map existsb andb]; [|exact IH].
  rewrite <-IH. cbn [strict_eq snd]. rewrite (String.eqb_sym "*" d'), (String.eqb_sym d d').
  destruct (d' =? "*")%string, (d' =? d)%string; cbn; rewrite ?orb_true_r; try done.
Qed.

Lemma sqlite_laws : AuthProviderLaws SqliteAuthProvider.
Proof using bind_str.
  split; cbn; unfold sqlite_authenticate, sqlite_listDevices.
  - intros p k d sid act p' r [= _ H]. destruct (is_nullish k); [by left; injection H|].
    destruct (q_down p); [done|]. destruct (assoc _ _) as [[u b]|]; [|by left; injection H].
    destruct (is_nullish d) eqn:En; [injection H as <-; right; left; by eexists _, _|].
    destruct (existsb _ _); injection H as <-; right; [left|right; split; [done|]]; by eexists _, _.
  - intros p k d sid act p1 r p2 ds [= _ H1] [= _ H2] Hd. destruct d as [| | | | |d| |]; try done.
    destruct (is_nullish k).
    + injection H1 as <-. injection H2 as <-. split; [done|]. by intros [[] _].
    + destruct (q_down p); [done|]. injection H2 as <-. rewrite sqlite_may_call.
      destruct (assoc _ _) as [[u b]|]; cbn [is_nullish] in H1.
      * destruct (existsb _ _); injection H1 as <-; by split; [|intros [? ?]].
      * injection H1 as <-. split; [done|]. by intros [[] _].
  - intros p k d1 d2 sid act p1 r1 p2 r2 [= _ H1] [= _ H2]. destruct (is_nullish k).
    + by injection H1 as <-; injection H2 as <-.
    + destruct (q_down p); [done|]. destruct (assoc _ _) as [[u b]|].
      * destruct (is_nullish d1), (is_nullish d2); repeat case_match; simplify_eq; done.
      * by injection H1 as <-; injection H2 as <-.
Qed.
End sqlite_laws.

(** ** Properties *)

(** A request gets a session only if debug mode lets it in (with no debug
    key, or with exactly that key) or the provider, whichever it is, knows the
    key and, for a named device, the key's list has it or the wildcard; the
    session is for that key and that device, and carries admin rights only as
    debug mode or the provider gives them to the key. Outside debug mode a
    missing key is always refused. *)
Theorem doUserAuth_sound {P} `{AuthProviderLaws P} o p p' body deviceID appKey sid act local s :
  doUserAuth o p body deviceID appKey sid act local = (p', Accepted s) ->
  s_appKey s = appKey /\ s_deviceID s = deviceID /\
  ((o_debug o = true /\ s_isAdmin s = true /\ (is_nullish (o_debugKey o) = true \/ (exists k, appKey = JStr k /\ o_debugKey o = JStr k))) \/
   (o_debug o = false /\ is_nullish appKey = false /\
    authenticate p appKey deviceID sid act = (p', Answered (granted (s_username s) (s_isAdmin s))) /\
    forall p2 ds d, deviceID = JStr d -> listDevices p appKey = (p2, Answered ds) -> may_call ds deviceID = true)).
Proof.
  unfold doUserAuth. destruct (o_debug o) eqn:Ed.
  - destruct (is_nullish (o_debugKey o)) eqn:En; [intros [= <- <-]; cbn; tauto|].
    destruct (safeEqual appKey (o_debugKey o)) eqn:Es; cbn [negb]; [|done]. intros [= <- <-].
    apply safeEqual_iff in Es as (k & -> & ?). cbn. split_and!; try done. left. eauto 10.
  - destruct (is_nullish appKey) eqn:En; [done|].
    destruct (authenticate p appKey deviceID sid act) as [p1 [m|r|e]] eqn:Ea; try done.
    destruct (a_ok r) eqn:Eok; cbn [negb]; [|done]. intros [= <- <-]. cbn. split_and!; try done.
    right. split_and!; try done.
    + destruct (auth_shape _ _ _ _ _ _ _ Ea) as [->|[(u & b & ->)|(_ & u & b & ->)]]; done.
    + intros p2 ds d -> Hl. by apply (auth_devices _ _ _ _ _ _ _ _ _ Ea Hl eq_refl).
Qed.

Lemma doUserAuth_sound_witness :
  let p := mkFile "auth.json" None (JObj [("key-1", JObj [("userName", JStr "ann"); ("devices", JArr [JStr "dev-1"])])]) in
  let s := auth_session (JStr "ann") (JStr "key-1") (JStr "dev-1") JNull JNull false JUndef false in
  doUserAuth (mkOptions false JUndef) p JUndef (JStr "dev-1") (JStr "key-1") JNull JNull false = (p, Accepted s) /\
  may_call [JStr "dev-1"] (JStr "dev-1") = true.
Proof.
  set (p := mkFile _ _ _). set (s := auth_session _ _ _ _ _ _ _ _).
  assert (E : doUserAuth (mkOptions false JUndef) p JUndef (JStr "dev-1") (JStr "key-1") JNull JNull false = (p, Accepted s))
    by reflexivity.
  split; [exact E|].
  destruct (doUserAuth_sound (mkOptions false JUndef) p p JUndef (JStr "dev-1") (JStr "key-1") JNull JNull false s E)
    as (_ & _ & [(? & _)|(_ & _ & _ & Hd)]); [discriminate|].
  exact (Hd p [JStr "dev-1"] "dev-1" eq_refl eq_refl).
Defined.

(** C36: The three providers keep the promises the rest of the program relies
    on (auth_shape, auth_devices, auth_identity): file, CouchDB with its
    cache, and sqlite whatever its tables hold. In particular the sqlite
    provider's two queries decide what a scan of the key's device rows with
    the wildcard would. *)
Theorem sqlite_provider_laws bind_text p apiKey d sid act u b :
  (forall s, bind_text (JStr s) = s) ->
  is_nullish apiKey = false -> q_down p = None -> assoc (bind_text apiKey) (q_users p) = Some (u, b) ->
  @AuthProviderLaws SqliteAuthProvider (SqliteAuth bind_text) /\
  AuthProviderLaws FileAuthProvider /\ AuthProviderLaws CouchDBAuthProvider /\
  exists ds, sqlite_listDevices bind_text p apiKey = (p, Answered ds) /\
    sqlite_authenticate bind_text p apiKey (JStr d) sid act =
      (p, Answered (if may_call ds (JStr d) then granted u (Z.eqb b 1) else no_device u (Z.eqb b 1))).
Proof.
  intros Hb Hk Hd Hu. split; [by apply sqlite_laws|]. split; [apply _|]. split; [apply _|].
  unfold sqlite_listDevices, sqlite_authenticate. rewrite Hk, Hd, Hu. eexists. split; [done|].
  rewrite (sqlite_may_call bind_text Hb). cbn [is_nullish]. by destruct (existsb _ _).
Qed.

Lemma sqlite_provider_laws_witness :
  let p := mkSqlite [("k", (JStr "ann", 1%Z))] [("k", "d1"); ("other", "d2")] [] None in
  exists ds, sqlite_listDevices js_text p (JStr "k") = (p, Answered ds) /\
    sqlite_authenticate js_text p (JStr "k") (JStr "d2") JNull JNull =
      (p, Answered (if may_call ds (JStr "d2") then granted (JStr "ann") true else no_device (JStr "ann") true)).
Proof.
  exact (proj2 (proj2 (proj2 (sqlite_provider_laws js_text
    (mkSqlite [("k", (JStr "ann", 1%Z))] [("k", "d1"); ("other", "d2")] [] None)
    (JStr "k") "d2" JNull JNull (JStr "ann") 1 (fun s => eq_refl) eq_refl eq_refl eq_refl)))).
Defined.
