(* ===== verification/Prog.v ===== *)
(** * Asynchronous programs

    The host side of countinghouse is callbacks and promises: a handler runs
    until it asks the outside (a file system, a queue, a database) for
    something, and goes on with the answer, other handlers running between.
    Such a handler is a [prog]: the requests it makes and what it does with
    each answer. Nothing is assumed of the answers unless a theorem names an
    environment that restricts them. *)
From Stdlib Require Import ZArith Lia Ascii String.
From stdpp Require Import prelude strings gmap.
From S2P Require Import Prelude.

Set Default Proof Using "Type".

Inductive prog (E : Type -> Type) (A : Type) : Type :=
| Ret (a : A)
| Vis (X : Type) (e : E X) (k : X -> prog E A).
Arguments Ret {E A} a.
Arguments Vis {E A X} e k.

Section prog.
Context {E : Type -> Type}.

Fixpoint pbind {A B} (p : prog E A) (f : A -> prog E B) : prog E B :=
  match p with
  | Ret a => f a
  | Vis e k => Vis e (fun x => pbind (k x) f)
  end.

Definition ask {X} (e : E X) : prog E X := Vis e Ret.

(** One request with its answer. *)
Inductive obs : Type := Obs (X : Type) (e : E X) (x : X).
Arguments Obs {X} e x.

(** A complete run: the requests made and answers got, and the result. *)
Inductive run {A} : prog E A -> list obs -> A -> Prop :=
| run_ret a : run (Ret a) [] a
| run_vis X (e : E X) k x tr a : run (k x) tr a -> run (Vis e k) (Obs e x :: tr) a.

(** A run that has got somewhere: the requests so far, and what is left. *)
Inductive steps {A} : prog E A -> list obs -> prog E A -> Prop :=
| steps_nil p : steps p [] p
| steps_cons X (e : E X) k x tr p' : steps (k x) tr p' -> steps (Vis e k) (Obs e x :: tr) p'.

(** An execution with a fixed oracle, for concrete runs. *)
Fixpoint eval {A} (oracle : forall X, nat -> E X -> X) (n : nat) (p : prog E A) : A * list obs :=
  match p with
  | Ret a => (a, [])
  | Vis e k => let x := oracle _ n e in
               let '(a, tr) := eval oracle (S n) (k x) in (a, Obs e x :: tr)
  end.

Lemma run_inv {A} (p : prog E A) tr a : run p tr a ->
  match p with
  | Ret b => tr = [] /\ b = a
  | Vis e k => exists x tr', tr = Obs e x :: tr' /\ run (k x) tr' a
  end.
Proof. destruct 1; eauto. Qed.

Lemma run_ret_inv {A} (b a : A) tr : run (Ret b) tr a -> tr = [] /\ b = a.
Proof. intros H. exact (run_inv _ _ _ H). Qed.

Lemma run_vis_inv {A X} (e : E X) (k : X -> prog E A) tr a :
  run (Vis e k) tr a -> exists x tr', tr = Obs e x :: tr' /\ run (k x) tr' a.
Proof. intros H. exact (run_inv _ _ _ H). Qed.

Lemma run_bind {A B} (p : prog E A) (f : A -> prog E B) tr b :
  run (pbind p f) tr b -> exists tr1 a tr2, tr = tr1 ++ tr2 /\ run p tr1 a /\ run (f a) tr2 b.
Proof.
  revert tr. induction p as [a|X e k IH]; intros tr H; cbn in H.
  - exists [], a, tr. split; [done|]. split; [constructor|done].
  - apply run_vis_inv in H as (x & tr' & -> & H). destruct (IH _ _ H) as (tr1 & a & tr2 & -> & H1 & H2).
    exists (Obs e x :: tr1), a, tr2. split; [done|]. split; [by constructor|done].
Qed.

Section safety.
(** What an environment may answer, after a history; and what a request must
    satisfy, after a history. *)
Context (env : list obs -> forall X, E X -> X -> Prop) (P : list obs -> forall X, E X -> Prop).

(** Every request made satisfies [P] and the result satisfies [Q], whatever
    the environment answers; [h] is the history so far. *)
Fixpoint safe {A} (Q : list obs -> A -> Prop) (h : list obs) (p : prog E A) : Prop :=
  match p with
  | Ret a => Q h a
  | Vis e k => P h _ e /\ forall x, env h _ e x -> safe Q (h ++ [Obs e x]) (k x)
  end.

(** A history the environment could have produced. *)
Fixpoint allowed (h tr : list obs) : Prop :=
  match tr with
  | [] => True
  | (Obs e x as o) :: tr' => env h _ e x /\ allowed (h ++ [o]) tr'
  end.

Lemma safe_bind {A B} (Q : list obs -> A -> Prop) (R : list obs -> B -> Prop) h p (f : A -> prog E B) :
  safe Q h p -> (forall h' a, Q h' a -> safe R h' (f a)) -> safe R h (pbind p f).
Proof.
  revert h. induction p as [a|X e k IH]; intros h Hp Hf; cbn in *; [auto|].
  destruct Hp as [HP Hk]. split; [done|]. intros x Hx. apply IH; auto.
Qed.

Lemma safe_mono {A} (Q Q' : list obs -> A -> Prop) h p :
  safe Q h p -> (forall h' a, Q h' a -> Q' h' a) -> safe Q' h p.
Proof.
  revert h. induction p as [a|X e k IH]; intros h Hp HQ; cbn in *; [auto|].
  destruct Hp as [HP Hk]. split; [done|]. intros x Hx. eapply IH; eauto.
Qed.

Lemma safe_and {A} (Q1 Q2 : list obs -> A -> Prop) h p :
  safe Q1 h p -> safe Q2 h p -> safe (fun h a => Q1 h a /\ Q2 h a) h p.
Proof.
  revert h. induction p as [a|X e k IH]; intros h H1 H2; cbn in *; [done|].
  destruct H1 as [HP H1], H2 as [_ H2]. split; [done|]. intros x Hx. apply IH; auto.
Qed.

(** The history only grows. *)
Lemma safe_extends {A} (Q : list obs -> A -> Prop) h p :
  safe Q h p -> safe (fun h' a => Q h' a /\ exists tr, h' = h ++ tr) h p.
Proof.
  revert h. induction p as [a|X e k IH]; intros h Hp; cbn in *.
  - split; [done|]. exists []. by rewrite app_nil_r.
  - destruct Hp as [HP Hk]. split; [done|]. intros x Hx. eapply safe_mono; [apply IH, Hk, Hx|].
    cbn. intros h' a [HQ [tr ->]]. split; [done|]. exists (Obs e x :: tr). by rewrite <-app_assoc.
Qed.

(** Adequacy: a safe program's runs make only good requests and return only
    good results. *)
Lemma safe_run {A} (Q : list obs -> A -> Prop) h p tr a :
  safe Q h p -> run p tr a -> allowed h tr -> Q (h ++ tr) a.
Proof.
  intros Hs Hr. revert h Hs. induction Hr as [a|X e k x tr a Hr IH]; intros h Hs Ha.
  - by rewrite app_nil_r.
  - destruct Ha as [He Ht], Hs as [_ Hs].
    specialize (IH _ (Hs _ He) Ht). by rewrite <-app_assoc in IH.
Qed.

Lemma allowed_prefix h tr1 tr2 : allowed h (tr1 ++ tr2) -> allowed h tr1.
Proof.
  revert h. induction tr1 as [|[X e x] tr1 IH]; intros h; [done|]. cbn. intros [? ?]. auto.
Qed.

Lemma safe_request {A} (Q : list obs -> A -> Prop) h p tr p' :
  safe Q h p -> steps p tr p' -> allowed h tr -> safe Q (h ++ tr) p'.
Proof.
  intros Hs Hr. revert h Hs. induction Hr as [p|X e k x tr p' Hr IH]; intros h Hs Ha.
  - by rewrite app_nil_r.
  - destruct Ha as [He Ht], Hs as [_ Hs].
    specialize (IH _ (Hs _ He) Ht). by rewrite <-app_assoc in IH.
Qed.
End safety.

Lemma run_split {A} (p : prog E A) tr1 o tr2 a :
  run p (tr1 ++ o :: tr2) a ->
  exists X (e : E X) x k, o = Obs e x /\ steps p tr1 (Vis e k) /\ run (k x) tr2 a.
Proof.
  revert p. induction tr1 as [|o1 tr1 IH]; intros p H; cbn in H.
  - inversion H; subst. eexists _, _, _, _. split; [done|]. split; [constructor|done].
  - inversion H; subst. destruct (IH _ H4) as (X' & e' & x' & k' & -> & Hs & Hr).
    eexists _, _, _, _. split; [done|]. split; [by constructor|done].
Qed.

(** Two facts about a program's requests and results, under the first's
    environment. *)
Lemma safe_both {A} env (P1 P2 : list obs -> forall X, E X -> Prop) (Q1 Q2 : list obs -> A -> Prop) h p :
  safe env P1 Q1 h p -> safe (fun _ _ _ _ => True) P2 Q2 h p ->
  safe env (fun h X e => P1 h X e /\ P2 h X e) (fun h a => Q1 h a /\ Q2 h a) h p.
Proof.
  revert h. induction p as [a|X e k IH]; intros h H1 H2; cbn in *; [done|].
  destruct H1 as [HP1 H1], H2 as [HP2 H2]. split; [done|]. intros x Hx. apply IH; auto.
Qed.

(** Each request of a run satisfies [P] after what precedes it. *)
Definition requests_ok (P : list obs -> forall X, E X -> Prop) (tr : list obs) : Prop :=
  forall tr1 o tr2, tr = tr1 ++ o :: tr2 -> match o with Obs e _ => P tr1 _ e end.

Lemma safe_requests {A} env P (Q : list obs -> A -> Prop) p tr a :
  safe env P Q [] p -> run p tr a -> allowed env [] tr -> requests_ok P tr.
Proof.
  intros Hs Hr Ha tr1 o tr2 ->. destruct (run_split p tr1 _ tr2 a Hr) as (X' & e' & x' & k & -> & Hst & _).
  exact (proj1 (safe_request env P Q [] p tr1 _ Hs Hst (allowed_prefix env [] tr1 _ Ha))).
Qed.

Definition any_env (h : list obs) (X : Type) (e : E X) (x : X) : Prop := True.

Lemma allowed_any h tr : allowed any_env h tr.
Proof. revert h. induction tr as [|[X e x] tr IH]; intros h; by split. Qed.

Lemma safe_all_run {A} P (Q : list obs -> A -> Prop) p tr a :
  safe any_env P Q [] p -> run p tr a -> Q tr a.
Proof. intros Hs Hr. exact (safe_run any_env P Q [] p tr a Hs Hr (allowed_any [] tr)). Qed.

Lemma safe_all_requests {A} P (Q : list obs -> A -> Prop) p tr a :
  safe any_env P Q [] p -> run p tr a -> requests_ok P tr.
Proof. intros Hs Hr. exact (safe_requests any_env P Q p tr a Hs Hr (allowed_any [] tr)). Qed.

(** Every program runs to an end under every oracle. *)
Lemma eval_run {A} oracle n (p : prog E A) : run p (eval oracle n p).2 (eval oracle n p).1.
Proof.
  revert n. induction p as [a|X e k IH]; intros n; cbn; [constructor|].
  specialize (IH (oracle X n e) (S n)). destruct (eval oracle (S n) (k (oracle X n e))) as [a tr].
  by constructor.
Qed.
End prog.
Arguments Obs {E X} e x.
Arguments obs E : clear implicits.

Notation "'do' x '<-' m 'in' k" := (pbind m (fun x => k))
  (at level 200, x name, m at level 100, k at level 200) : js_scope.
