(* ===== verification/ToolRegistry.v ===== *)
(** * The MCP tool registry (lib/mcp/tool-registry.js)

    Tool names are a function of the loaded device specs and of nothing else;
    this file models how they are made, whom they are listed for, and which
    output schema a tool is listed and called with. *)
From Stdlib Require Import ZArith Lia Ascii String.
From stdpp Require Import prelude strings gmap.
From S2P Require Import Prelude Json Errors Address Session Auth Prog.

Set Default Proof Using "Type".

(** ** Names *)

Definition serviceLabel (urn : string) : string := slugify (urn_label urn).

Definition PLATFORM_TOOL_NAMES : list string := ["countinghouse_check_balance"].
Definition AUTHORING_TOOL_NAMES : list string :=
  ["countinghouse_validate_plan"; "countinghouse_validate_module"; "countinghouse_load_module"; "countinghouse_call_tool"].
Definition reserved_names : list string := PLATFORM_TOOL_NAMES ++ AUTHORING_TOOL_NAMES.

Definition numbered (name : string) (n : nat) : string := name +:+ "_" +:+ nat_text n.

(** [while (usedNames[...] != null) n++]: with [length used] names taken, one
    of the next [S (length used)] numbers is free. *)
Fixpoint next_free (fuel : nat) (used : list string) (name : string) (n : nat) : nat :=
  match fuel with
  | O => n
  | S f => if includes (numbered name n) used then next_free f used name (S n) else n
  end.

(** The name given, and the names used after. *)
Definition dedupeName (used : list string) (name : string) : string * list string :=
  if negb (includes name used) then (name, name :: used)
  else let name' := numbered name (next_free (S (length used)) used name 2) in (name', name' :: used).

(** ** Targets *)

Record target := mkTarget {
  t_name : string;
  t_deviceID : string;
  t_serviceID : string;
  t_actionName : jsval;
  t_description : string;
  t_action : jsval
}.

(** White space [trim] removes. *)
Definition is_space (c : ascii) : bool :=
  let n := nat_of_ascii c in ((9 <=? n) && (n <=? 13) || (n =? 32) || (n =? 160))%nat.

Definition blank (s : string) : bool := forallb is_space (list_ascii_of_string s).

(** An action that is exposed: one with a description. *)
Definition described (action : jsval) : option string :=
  match jget "description" action with
  | JStr d => if blank d then None else Some d
  | _ => None
  end.

(** The described actions of the loaded devices, in the order the loops of
    [buildToolTargets] visit them, each with the name it would like. *)
Definition service_actions (deviceID deviceSlug serviceURN : string) (service : jsval)
  : list (string * target) :=
  match jget "actionList" service with
  | JArr actions =>
      omap (fun action =>
        match described action with
        | None => None
        | Some d =>
            let want := deviceSlug +:+ "_" +:+ serviceLabel serviceURN +:+ "_" +:+ slugify (js_text (jget "name" action)) in
            Some (want, mkTarget want deviceID serviceURN (jget "name" action) d action)
        end) actions
  | _ => []
  end.

Definition device_slug (deviceID : string) (spec : jsval) : string :=
  let friendly := jget "friendlyName" (jget "device" spec) in
  slugify (if truthy friendly then js_text friendly else deviceID).

Definition device_actions (deviceID : string) (spec : jsval) : list (string * target) :=
  let serviceList := serviceList_of spec in
  js_keys serviceList ≫= fun urn =>
    service_actions deviceID (device_slug deviceID spec) urn (jget urn serviceList).

Definition wanted (specs : list (string * jsval)) : list (string * target) :=
  specs ≫= fun ds => device_actions ds.1 ds.2.

Definition with_name (t : target) (name : string) : target :=
  mkTarget name (t_deviceID t) (t_serviceID t) (t_actionName t) (t_description t) (t_action t).

Fixpoint name_targets (used : list string) (ws : list (string * target)) : list (string * target) :=
  match ws with
  | [] => []
  | (want, t) :: rest =>
      let '(name, used') := dedupeName used want in
      (name, with_name t name) :: name_targets used' rest
  end.

(** [specs] is [deviceManager.getAllDeviceSpecs()]. *)
Definition buildToolTargets (specs : list (string * jsval)) : list (string * target) :=
  name_targets reserved_names (wanted specs).

(** [targets[name]] on a plain object: a target, a member every object
    inherits, or nothing. *)
Inductive target_ref := Own (t : target) | Inherited | Missing.

Definition OBJECT_PROTOTYPE : list string :=
  ["constructor"; "__defineGetter__"; "__defineSetter__"; "hasOwnProperty"; "__lookupGetter__";
   "__lookupSetter__"; "isPrototypeOf"; "propertyIsEnumerable"; "toString"; "valueOf"; "__proto__";
   "toLocaleString"].

Definition target_at (targets : list (string * target)) (name : string) : target_ref :=
  match assoc name targets with
  | Some t => Own t
  | None => if includes name OBJECT_PROTOTYPE then Inherited else Missing
  end.

(** ** Schemas *)

Definition DEFAULT_SCHEMA : jsval := JObj [("type", JStr "object"); ("properties", JObj [])].

Definition schemaPathFor (action : jsval) (key : string) : option string :=
  match jget "schema" (jget key action) with JStr s => Some s | _ => None end.

(** What the schema round trip asks: authenticate the key for the device, then
    fetch one subtree. A left answer is an error. *)
Inductive toolE : Type -> Type :=
| FetchSchema (deviceID : string) (appKey : jsval) (path : string) : toolE (cherr + jsval)
| LogSchemaDowngrade (name key path : string) (err : option cherr) : toolE unit.

Definition fetchSchema (deviceID : string) (appKey : jsval) (path : string) : prog toolE (cherr + jsval) :=
  ask (FetchSchema deviceID appKey path).

(** [err != null || data == null]: the error to log, or the document. *)
Definition fetched (r : cherr + jsval) : option cherr + jsval :=
  match r with
  | inl e => inl (Some e)
  | inr d => if is_nullish d then inl None else inr d
  end.

Definition resolveOneSchema (appKey : jsval) (t : target) (key : string) (path : option string)
  : prog toolE jsval :=
  match path with
  | None => Ret DEFAULT_SCHEMA
  | Some p =>
      do r <- fetchSchema (t_deviceID t) appKey p in
      match fetched r with
      | inl err => do _ <- ask (LogSchemaDowngrade (t_name t) key p err) in Ret DEFAULT_SCHEMA
      | inr d => Ret d
      end
  end.

(** [None]: no output schema. *)
Definition resolveOutputSchema (appKey : jsval) (t : target) : prog toolE (option jsval) :=
  match schemaPathFor (t_action t) "output" with
  | None => Ret None
  | Some p =>
      do r <- fetchSchema (t_deviceID t) appKey p in
      match fetched r with
      | inl err => do _ <- ask (LogSchemaDowngrade (t_name t) "output" p err) in Ret None
      | inr d => Ret (if is_object d && strict_eq (jget "type" d) (JStr "object") then Some d else None)
      end
  end.

Definition resolveOutputSchemaFor (specs : list (string * jsval)) (appKey deviceID serviceID actionName : jsval)
  : prog toolE (option jsval) :=
  match List.find (fun nt => strict_eq (JStr (t_deviceID nt.2)) deviceID &&
                             strict_eq (JStr (t_serviceID nt.2)) serviceID &&
                             strict_eq (t_actionName nt.2) actionName) (buildToolTargets specs) with
  | None => Ret None
  | Some (_, t) => resolveOutputSchema appKey t
  end.

(** The input schema, and the output schema when there is one; the two are
    fetched in parallel, whose order changes neither. *)
Definition resolveSchemas (appKey : jsval) (t : target) : prog toolE (jsval * option jsval) :=
  do inp <- resolveOneSchema appKey t "input" (schemaPathFor (t_action t) "input") in
  do out <- resolveOutputSchema appKey t in
  Ret (inp, out).

(** ** Listing *)

(** The targets on the listed devices, all of them with the wildcard. *)
Definition shown_targets (ds : list jsval) (targets : list (string * target)) : list (string * target) :=
  if index_of (JStr "*") ds then targets
  else List.filter (fun nt => index_of (JStr (t_deviceID nt.2)) ds) targets.

Section listing.
Context {P : Type} `{AuthProvider P} (o : options).

(** The targets a key is shown; a left answer is the provider's failure. *)
Definition filterTargetsByAuth (p : P) (appKey : jsval) (targets : list (string * target))
  : P * called (list (string * target)) :=
  if o_debug o then (p, Answered targets)
  else if is_nullish appKey then (p, Answered [])
  else
    let '(p', r) := listDevices p appKey in
    (p', match r with
         | Failed m => Failed m
         | Threw e => Threw e
         | Answered ds => Answered (shown_targets ds targets)
         end).
End listing.

(** One tool in MCP shape. *)
Definition tool_entry (t : target) (schemas : jsval * option jsval) : jsval :=
  JObj ([("name", JStr (t_name t)); ("description", JStr (t_description t)); ("inputSchema", schemas.1)] ++
        match schemas.2 with Some s => [("outputSchema", s)] | None => [] end).

Fixpoint device_tools (appKey : jsval) (targets : list (string * target)) : prog toolE (list jsval) :=
  match targets with
  | [] => Ret []
  | (_, t) :: rest =>
      do s <- resolveSchemas appKey t in
      do others <- device_tools appKey rest in
      Ret (tool_entry t s :: others)
  end.

Definition PLATFORM_TOOLS : list jsval :=
  [JObj [("name", JStr "countinghouse_check_balance");
         ("description", JStr "Check the calling API key's current metering balance on this countinghouse instance.");
         ("inputSchema", DEFAULT_SCHEMA);
         ("outputSchema", JObj [("type", JStr "object");
            ("properties", JObj [("userName", JObj [("type", JArr [JStr "string"; JStr "null"])]);
                                 ("balance", JObj [("type", JArr [JStr "number"; JStr "null"])])]);
            ("required", JArr [JStr "userName"; JStr "balance"]); ("additionalProperties", JBool false)])]].

Definition PROBLEM_LIST_SCHEMA : jsval :=
  JObj [("type", JStr "object");
   ("properties", JObj [("ok", JObj [("type", JStr "boolean")]);
     ("module", JObj [("type", JStr "string")]);
     ("problems", JObj [("type", JStr "array");
       ("items", JObj [("type", JStr "object");
         ("properties", JObj [("stage", JObj [("type", JStr "string")]);
           ("module", JObj [("type", JStr "string")]);
           ("message", JObj [("type", JStr "string")]);
           ("fix", JObj [("type", JArr [JStr "string"; JStr "null"])])])])])])].

Definition AUTHORING_TOOLS : list jsval :=
  [JObj [("name", JStr "countinghouse_validate_plan");
    ("description", JStr "Check a proposed module design -- device, services, actions -- before writing any files. Reports naming problems, duplicates, missing descriptions and collisions with tools already on this runtime, plus the tool names the plan would produce.");
    ("inputSchema", JObj [("type", JStr "object");
      ("properties", JObj [("device", JObj [("type", JStr "string");
          ("description", JStr "Device friendlyName for the module.")]);
        ("services", JObj [("type", JStr "array");
          ("items", JObj [("type", JStr "object");
            ("properties", JObj [("name", JObj [("type", JStr "string");
                ("description", JStr "Service short name, e.g. greetService.")]);
              ("actions", JObj [("type", JStr "array");
                ("items", JObj [("type", JStr "object");
                  ("properties", JObj [("name", JObj [("type", JStr "string")]);
                    ("description", JObj [("type", JStr "string")])]);
                  ("required", JArr [JStr "name"; JStr "description"])])])]);
            ("required", JArr [JStr "name"; JStr "actions"])])]);
        ("calls", JObj [("type", JStr "array");
          ("items", JObj [("type", JStr "string")]);
          ("description", JStr "Composition addresses this module intends to call, in <module>/<service>.<action> form -- the same shape as package.json's countinghouse.calls. Optional.")])]);
      ("required", JArr [JStr "device"; JStr "services"])]);
    ("outputSchema", JObj [("type", JStr "object");
      ("properties", JObj [("ok", JObj [("type", JStr "boolean")]);
        ("problems", JObj [("type", JStr "array");
          ("items", JObj [("type", JStr "object")])]);
        ("toolNames", JObj [("type", JStr "array");
          ("items", JObj [("type", JStr "string")])])])])];
   JObj [("name", JStr "countinghouse_validate_module");
    ("description", JStr "Validate a countinghouse module directory: api.json, schema.json and the handler map checked against each other. Returns every problem found, not just the first, each naming the stage and the way out. The module's code runs, sandboxed, to resolve the handler map; the result describes the module and is not a security check a hostile module cannot fool.");
    ("inputSchema", JObj [("type", JStr "object");
      ("properties", JObj [("path", JObj [("type", JStr "string");
          ("description", JStr "Absolute path to the module directory.")])]);
      ("required", JArr [JStr "path"])]);
    ("outputSchema", PROBLEM_LIST_SCHEMA)];
   JObj [("name", JStr "countinghouse_load_module");
    ("description", JStr "Load a countinghouse module from a local path into this running runtime, and report the MCP tool names it made callable. Admin only.");
    ("inputSchema", JObj [("type", JStr "object");
      ("properties", JObj [("path", JObj [("type", JStr "string");
          ("description", JStr "Absolute path to the module directory.")]);
        ("name", JObj [("type", JStr "string");
          ("description", JStr "Module name to register it under.")]);
        ("version", JObj [("type", JStr "string");
          ("description", JStr "Module version, e.g. 1.0.0.")])]);
      ("required", JArr [JStr "path"; JStr "name"])]);
    ("outputSchema", JObj [("type", JStr "object");
      ("properties", JObj [("loaded", JObj [("type", JStr "boolean")]);
        ("name", JObj [("type", JStr "string")]);
        ("version", JObj [("type", JArr [JStr "string"; JStr "null"])]);
        ("toolNames", JObj [("type", JStr "array");
          ("items", JObj [("type", JStr "string")])]);
        ("discoveryComplete", JObj [("type", JStr "boolean")])])])];
   JObj [("name", JStr "countinghouse_call_tool");
    ("description", JStr "Invoke a tool on this runtime by name. Exists so a just-loaded module can be called without waiting for the MCP client to refresh its tool list.");
    ("inputSchema", JObj [("type", JStr "object");
      ("properties", JObj [("name", JObj [("type", JStr "string");
          ("description", JStr "The MCP tool name to invoke.")]);
        ("arguments", JObj [("type", JStr "object");
          ("description", JStr "Arguments for that tool.")])]);
      ("required", JArr [JStr "name"])])]].

Definition buildToolList (appKey : jsval) (targets : list (string * target)) : prog toolE (list jsval) :=
  do tools <- device_tools appKey targets in Ret (PLATFORM_TOOLS ++ tools).

(** ** Lemmas *)

Lemma numbered_inj name a b : numbered name a = numbered name b -> a = b.
Proof. unfold numbered. intros H. do 2 apply sapp_inj_l in H. by apply nat_text_inj. Qed.

(** The search ends on a free number, or has tried [fuel] taken ones. *)
Lemma next_free_spec fuel used name n :
  let m := next_free fuel used name n in
  (n <= m <= n + fuel)%nat /\ (forall k, (n <= k < m)%nat -> numbered name k ∈ used) /\
  ((m < n + fuel)%nat -> numbered name m ∉ used).
Proof.
  revert n. induction fuel as [|f IH]; intros n; cbn; [split; [lia|]; split; lia|].
  destruct (includes (numbered name n) used) eqn:E.
  - apply includes_spec in E. destruct (IH (S n)) as (H1 & H2 & H3). split; [lia|]. split.
    + intros k Hk. destruct (decide (k = n)) as [->|]; [done|]. apply H2. lia.
    + intros Hm. apply H3. lia.
  - apply includes_false in E. split; [lia|]. split; [lia|done].
Qed.

Lemma next_free_fresh used name n : numbered name (next_free (S (length used)) used name n) ∉ used.
Proof.
  destruct (next_free_spec (S (length used)) used name n) as (H1 & H2 & H3).
  set (m := next_free (S (length used)) used name n) in *.
  destruct (decide (m < n + S (length used))%nat) as [|Hge]; [auto|].
  exfalso. assert (m = n + S (length used))%nat as Hm by lia.
  set (tried := map (numbered name) (seq n (S (length used)))).
  assert (Hlen : (length tried <= length used)%nat).
  { apply submseteq_length, NoDup_submseteq.
    - apply NoDup_fmap_2; [intros a b; apply numbered_inj|apply NoDup_seq].
    - intros x (k & -> & Hk)%list_elem_of_fmap. apply H2. apply elem_of_seq in Hk. lia. }
  unfold tried in Hlen. rewrite length_map, length_seq in Hlen. lia.
Qed.

Lemma dedupe_fresh used name :
  (dedupeName used name).1 ∉ used /\ (dedupeName used name).2 = (dedupeName used name).1 :: used.
Proof.
  unfold dedupeName. destruct (includes name used) eqn:E; cbn; (split; [|done]).
  - apply next_free_fresh.
  - by apply includes_false.
Qed.

(** A name a tool gets: the one it would like, or that with a number. *)
Definition names_from (want name : string) : Prop :=
  name = want \/ exists n, (2 <= n)%nat /\ name = numbered want n.

Lemma dedupe_from used want : names_from want (dedupeName used want).1.
Proof.
  unfold dedupeName. destruct (includes want used); cbn; [|by left].
  right. pose proof (next_free_spec (S (length used)) used want 2) as ([? _] & _).
  by eexists.
Qed.

Lemma name_targets_spec used ws :
  NoDup (map fst (name_targets used ws)) /\
  (forall n, n ∈ map fst (name_targets used ws) -> n ∉ used) /\
  Forall2 (fun w nt => names_from w.1 nt.1 /\ nt.2 = with_name w.2 nt.1) ws (name_targets used ws).
Proof.
  revert used. induction ws as [|[want t] ws IH]; intros used; cbn [name_targets].
  - split; [constructor|]. split; [cbn; set_solver|constructor].
  - pose proof (dedupe_fresh used want) as [Hf Hu]. pose proof (dedupe_from used want) as Hw.
    destruct (dedupeName used want) as [name used']. cbn in Hf, Hu, Hw. subst used'.
    destruct (IH (name :: used)) as (Hnd & Hout & Hall). cbn [map fst]. split_and!.
    + constructor; [|done]. intros Hin. apply Hout in Hin. set_solver.
    + intros n [->|Hn]%elem_of_cons; [done|]. apply Hout in Hn. set_solver.
    + by constructor.
Qed.

(** What a listed entry is, given what was asked so far. *)
Definition entry_ok (appKey : jsval) (h : list (obs toolE)) (nt : string * target) (e : jsval) : Prop :=
  exists inp out, e = tool_entry nt.2 (inp, out) /\
    forall s, out = Some s -> jget "type" s = JStr "object" /\
      exists path, schemaPathFor (t_action nt.2) "output" = Some path /\
        Obs (FetchSchema (t_deviceID nt.2) appKey path) (inr s) ∈ h.

Lemma strict_eq_str v s : strict_eq v (JStr s) = true -> v = JStr s.
Proof. destruct v; cbn; try done. intros H. bool_hyps. by subst. Qed.

Lemma resolveOutputSchema_safe appKey t h :
  safe any_env (fun _ _ _ => True)
    (fun h' out => forall s, out = Some s -> jget "type" s = JStr "object" /\
       exists path, schemaPathFor (t_action t) "output" = Some path /\
         Obs (FetchSchema (t_deviceID t) appKey path) (inr s) ∈ h') h (resolveOutputSchema appKey t).
Proof.
  unfold resolveOutputSchema. destruct (schemaPathFor (t_action t) "output") as [path|]; [|done].
  cbn. split; [done|]. intros [e|d] _; cbn; [done|].
  destruct (is_nullish d); cbn; [done|].
  destruct (is_object d && strict_eq (jget "type" d) (JStr "object")) eqn:E; [|done].
  intros s [= <-]. apply andb_true_iff in E as [_ E]. apply strict_eq_str in E.
  split; [done|]. exists path. split; [done|set_solver].
Qed.

Lemma resolveSchemas_safe appKey n t h :
  safe any_env (fun _ _ _ => True)
    (fun h' s => entry_ok appKey h' (n, t) (tool_entry t s)) h (resolveSchemas appKey t).
Proof.
  unfold resolveSchemas. eapply safe_bind with (Q := fun _ _ => True).
  - unfold resolveOneSchema. destruct (schemaPathFor (t_action t) "input") as [path|]; [|done].
    cbn. split; [done|]. intros [e|d] _; cbn; [done|]. by destruct (is_nullish d).
  - intros h1 inp _. eapply safe_bind; [apply resolveOutputSchema_safe|]. cbn. intros h2 out Ho.
    by exists inp, out.
Qed.

Lemma device_tools_safe appKey targets h :
  safe any_env (fun _ _ _ => True) (fun h' entries => Forall2 (entry_ok appKey h') targets entries) h
    (device_tools appKey targets).
Proof.
  revert h. induction targets as [|[n t] targets IH]; intros h; cbn [device_tools]; [constructor|].
  eapply safe_bind; [apply (resolveSchemas_safe appKey n t)|]. cbn. intros h1 s Hs.
  eapply safe_bind; [apply safe_extends, IH|]. cbn. intros h2 es [Hes [tr ->]].
  constructor; [|done]. destruct Hs as (inp & out & -> & Hout). exists inp, out. split; [done|].
  intros x Hx. destruct (Hout x Hx) as (? & path & ? & ?). split; [done|]. exists path. set_solver.
Qed.

(** ** Properties *)

(** The tool names of a set of loaded devices: every described action gets
    exactly one, in the order of the specs; no two tools share a name and none
    takes a reserved platform or authoring name; each is the slug of its
    device, service and action, with a number from 2 up only when needed, and
    a tool answers to the name it is listed under. *)
Theorem buildToolTargets_names specs :
  let targets := buildToolTargets specs in
  NoDup (map fst targets) /\ (forall n, n ∈ map fst targets -> n ∉ reserved_names) /\
  Forall2 (fun w nt => names_from w.1 nt.1 /\ nt.2 = with_name w.2 nt.1) (wanted specs) targets /\
  (forall n t, (n, t) ∈ targets -> t_name t = n /\ target_at targets n = Own t).
Proof.
  cbn zeta. destruct (name_targets_spec reserved_names (wanted specs)) as (Hnd & Hout & Hall).
  split_and!; try done. intros n t Hin. unfold buildToolTargets.
  assert (Hname : t_name t = n).
  { clear -Hall Hin. unfold buildToolTargets in Hin. revert Hin.
    induction Hall as [|w nt ws nts [_ Hw] Hall IH]; [set_solver|].
    intros [<-|H]%elem_of_cons; [|auto]. cbn in Hw. by subst. }
  split; [done|]. unfold target_at.
  assert (Ha : assoc n (name_targets reserved_names (wanted specs)) = Some t).
  { unfold buildToolTargets in Hin. clear -Hnd Hin. induction (name_targets _ _) as [|[k v] l IH]; [set_solver|].
    cbn in Hnd |- *. apply NoDup_cons in Hnd as [Hk Hnd]. apply elem_of_cons in Hin as [[= <- <-]|Hin].
    - by rewrite String.eqb_refl.
    - destruct (String.eqb_spec n k) as [->|]; [|auto]. destruct Hk. apply list_elem_of_fmap. by exists (k, t). }
  by rewrite Ha.
Qed.

(** What tools/list shows a key and what a call by that key may reach
    agree, whatever the provider: outside debug mode a listed device tool is
    one whose device the key is granted, and a loaded tool that is not listed
    is one whose device the key is refused. *)
Theorem list_matches_call {P} `{AuthProviderLaws P} o p p' appKey targets shown name t p2 r sid act :
  o_debug o = false ->
  filterTargetsByAuth o p appKey targets = (p', Answered shown) ->
  (name, t) ∈ targets -> is_nullish appKey = false ->
  authenticate p appKey (JStr (t_deviceID t)) sid act = (p2, Answered r) ->
  r <> unknown_user appKey ->
  (name, t) ∈ shown <-> a_ok r = true.
Proof.
  intros Hd Hf Hin Hk Ha Hu. unfold filterTargetsByAuth in Hf. rewrite Hd, Hk in Hf.
  destruct (listDevices p appKey) as [p1 [m|ds|e]] eqn:El; try done.
  rewrite (auth_devices _ _ _ _ _ _ _ _ _ Ha El eq_refl). unfold may_call.
  injection Hf as _ <-. unfold shown_targets. destruct (index_of (JStr "*") ds).
  - split; [done|]. by intros _.
  - rewrite list_elem_of_In, List.filter_In, <-list_elem_of_In. cbn. tauto.
Qed.

Lemma list_matches_call_witness :
  let p := mkFile "auth.json" None (JObj [("key-1", JObj [("devices", JArr [JStr "d1"])])]) in
  let t := mkTarget "a_b_c" "d1" "urn:b" (JStr "c") "does c" JNull in
  ("a_b_c", t) ∈ [("a_b_c", t)] <-> a_ok (granted (JStr "key-1") false) = true.
Proof.
  refine (list_matches_call (mkOptions false JUndef)
    (mkFile "auth.json" None (JObj [("key-1", JObj [("devices", JArr [JStr "d1"])])])) _ (JStr "key-1")
    [("a_b_c", mkTarget "a_b_c" "d1" "urn:b" (JStr "c") "does c" JNull)] _ "a_b_c"
    (mkTarget "a_b_c" "d1" "urn:b" (JStr "c") "does c" JNull) _ (granted (JStr "key-1") false) JNull JNull
    eq_refl _ _ eq_refl _ _); try reflexivity; [left|discriminate].
Defined.

(** A schema that cannot be had never fails tools/list or a call: whatever
    the round trips answer, each target is listed once, in order, under its
    own name, after the platform tools; an output schema is shown only when it
    came back as an object schema, and a pointer that failed is logged. *)
Theorem buildToolList_total appKey targets tr tools :
  run (buildToolList appKey targets) tr tools ->
  exists entries, tools = PLATFORM_TOOLS ++ entries /\
    Forall2 (entry_ok appKey tr) targets entries.
Proof.
  intros H. pattern tr, tools. eapply (safe_all_run (fun _ _ _ => True)); [|exact H]. clear H tr tools.
  unfold buildToolList. eapply safe_bind; [apply device_tools_safe|]. cbn. eauto.
Qed.

Definition sample_target : target :=
  mkTarget "a_b_c" "d1" "urn:b" (JStr "c") "does c" (JObj [("output", JObj [("schema", JStr "/x")])]).

Lemma buildToolList_total_witness :
  let tr := [Obs (FetchSchema "d1" (JStr "k") "/x") (inr (JObj [("type", JStr "object")]))] in
  exists tools entries, run (buildToolList (JStr "k") [("a_b_c", sample_target)]) tr tools /\
    tools = PLATFORM_TOOLS ++ entries /\ length entries = 1%nat.
Proof.
  eexists. assert (Hr : run (buildToolList (JStr "k") [("a_b_c", sample_target)])
    [Obs (FetchSchema "d1" (JStr "k") "/x") (inr (JObj [("type", JStr "object")]))] _) by (cbn; repeat constructor).
  destruct (buildToolList_total _ _ _ _ Hr) as (entries & E & Hall).
  exists entries. split; [exact Hr|]. split; [exact E|]. by apply Forall2_length in Hall.
Defined.
