(* ===== verification/JobControl.v ===== *)
(** * Jobs and their owners (lib/job-control.js, lib/routes/add-job.js,
    lib/routes/get-job.js, lib/routes/remove-job.js)

    Each entry point is a [prog] over the requests it makes of the job queue
    (bullmq) and of Redis; what those answer is up to the environment. *)
From Stdlib Require Import ZArith Lia Ascii String.
From stdpp Require Import prelude strings gmap.
From S2P Require Import Prelude Json Errors Session Auth Prog.

Set Default Proof Using "Type".

(** ** Data *)

(** [authCtx]: the sentinel, no context, or a tenant's identity. *)
Inductive auth_ctx :=
| INTERNAL
| NoCtx
| Ctx (appKey : jsval) (isAdmin : jsval).

(** A bullmq job, as far as the program reads it. *)
Record job := mkJob {
  j_id : jsval; j_name : jsval; j_data : jsval; j_opts : jsval; j_progress : jsval; j_delay : jsval;
  j_timestamp : jsval; j_attemptsMade : jsval; j_failedReason : jsval; j_stacktrace : jsval;
  j_returnvalue : jsval; j_finishedOn : jsval; j_processedOn : jsval
}.

(** What a worker's invocation answered, and whether the job's own timeout
    fired before it did. *)
Record invoke_reply := mkReply { iv_err : option (jsval * string); iv_results : jsval; iv_timed_out : bool }.

(** What the handlers ask of the outside; a left answer is a rejection. *)
Inductive jobE : Type -> Type :=
| QGetJob (id : jsval) : jobE (string + option job)
| QGetState (j : job) : jobE (string + jsval)
| QAdd (name data opts : jsval) : jobE (string + jsval)
| QUpsert (sid repeatOpts template : jsval) : jobE (string + jsval)
| QRemove (j : job) : jobE (string + unit)
| QRemoveScheduler (sid : jsval) : jobE (string + jsval)
| QGetJobs (states : list string) (first last : Z) : jobE (string + list job)
| QUpdateProgress (j : job) (progress : jsval) : jobE unit
| QUpdateData (data : jsval) : jobE (string + unit)
| LRange (key : string) : jobE (string + option (list jsval))
| LPush (key text : string) : jobE unit
| LTrim (key : string) (start stop : Z) : jobE unit
| Invoke (deviceID serviceID actionName input jobID : jsval) : jobE invoke_reply
| ChargeCall (apiKey : jsval) (tool : string) (cost : Z) : jobE unit
| Hook (data : jsval) : jobE (string + jsval).

(** How an entry point calls back: an error object, a bare text where an error
    object belongs, or a value. *)
Inductive cb_result :=
| CbErr (e : cherr)
| CbErrText (text : string) (data : jsval)
| CbOk (v : jsval).

(** ** Ownership *)

Section jobs.
(** [createHash('sha256')...digest('hex')]; multi-thread mode; the price of a
    call. *)
Context (sha256 : string -> string) (workerThread : bool) (mcpToolCallCost : Z).

Definition appKey_of (ctx : auth_ctx) : jsval := match ctx with Ctx k _ => k | _ => JNull end.

(** [authCtx == null || authCtx.appKey == null] *)
Definition no_key (ctx : auth_ctx) : bool :=
  match ctx with Ctx k _ => is_nullish k | NoCtx => true | INTERNAL => true end.

(** [authCtx !== INTERNAL && (authCtx == null || authCtx.appKey == null)] *)
Definition unauthenticated (ctx : auth_ctx) : bool :=
  match ctx with INTERNAL => false | _ => no_key ctx end.

Definition owner_prefix (appKey : jsval) : string := stake 16 (sha256 (js_text appKey)).

Definition schedulerId (ctx : auth_ctx) (name : jsval) : jsval :=
  match ctx with
  | Ctx k _ => if is_nullish k then name else JStr (owner_prefix k +:+ ":" +:+ js_text name)
  | _ => name
  end.

Definition ownsJob (ctx : auth_ctx) (jobData : jsval) : bool :=
  match ctx with
  | INTERNAL => true
  | NoCtx => false
  | Ctx k isAdmin =>
      if is_nullish k then false
      else if is_true isAdmin then true
      else negb (is_nullish jobData) && strict_eq (jget "apiKey" jobData) k
  end.

Definition denied (ctx : auth_ctx) : cherr :=
  if no_key ctx then CHError "SYSTEM_ERROR_UNKNOWN_USER" [] else CHError "JOB_ACCESS_DENIED" [].

(** ** Records *)

Definition job_fields (j : job) : jsval :=
  JObj [("id", j_id j); ("name", j_name j); ("data", j_data j); ("opts", j_opts j);
        ("progress", j_progress j); ("delay", j_delay j); ("timestamp", j_timestamp j);
        ("attemptsMade", j_attemptsMade j); ("failedReason", j_failedReason j);
        ("stacktrace", j_stacktrace j); ("returnvalue", j_returnvalue j);
        ("finishedOn", j_finishedOn j); ("processedOn", j_processedOn j)].

Definition job_record (j : job) (state : jsval) : jsval :=
  JObj [("job", job_fields j); ("state", state)].

(** [Object.assign({}, v)] with one member replaced. *)
Definition obj_with (v : jsval) (k : string) (x : jsval) : jsval :=
  match v with JObj kvs => JObj (assoc_set k x kvs) | _ => JObj [(k, x)] end.

Definition publicRecord (record : jsval) : jsval :=
  match jget "data" (jget "job" record) with
  | JObj kvs =>
      match assoc "outputSchemaHash" kvs with
      | None => record
      | Some _ =>
          let data := JObj (List.filter (fun kv => negb (String.eqb kv.1 "outputSchemaHash")) kvs) in
          obj_with record "job" (obj_with (jget "job" record) "data" data)
      end
  | _ => record
  end.

(** ** Entry points *)

Definition fail (code : string) (args : list jsval) : prog jobE cb_result := Ret (CbErr (CHError code args)).

Definition multi_thread_only (code : string) : prog jobE cb_result :=
  fail code [JStr "countinghouse should be in multi-thread mode"].

Definition added (r : string + jsval) : prog jobE cb_result :=
  match r with
  | inl m => fail "ADD_JOB_ERROR" [JStr m]
  | inr id => Ret (CbOk (JObj [("id", id)]))
  end.

Definition addJob (ctx : auth_ctx) (jobOpts deviceID serviceID actionName input : jsval)
  : prog jobE cb_result :=
  if negb workerThread then multi_thread_only "ADD_JOB_ERROR"
  else if unauthenticated ctx then Ret (CbErr (denied ctx))
  else if is_nullish jobOpts then fail "ADD_JOB_ERROR" [JStr "must have opts to add a job"]
  else if is_nullish (jget "name" jobOpts) then fail "ADD_JOB_ERROR" [JStr "job must have a name"]
  else
    let name := jget "name" jobOpts in
    let opts := JObj [("attempts", jget "attempts" jobOpts); ("delay", jget "delay" jobOpts);
                      ("timeout", jget "timeout" jobOpts)] in
    let jobData := JObj [("deviceID", deviceID); ("serviceID", serviceID); ("actionName", actionName);
                         ("input", input); ("apiKey", appKey_of ctx)] in
    let repeat_ := jget "repeat" jobOpts in
    if is_nullish repeat_ then
      do r <- ask (QAdd name jobData opts) in added r
    else
      let when := if is_nullish (jget "cron" repeat_) then ("every", jget "every" repeat_)
                  else ("pattern", jget "cron" repeat_) in
      do r <- ask (QUpsert (schedulerId ctx name) (JObj [when; ("limit", jget "limit" repeat_)])
                     (JObj [("name", name); ("data", jobData); ("opts", opts)])) in
      added r.

Definition is_terminal (state : jsval) : bool :=
  strict_eq state (JStr "completed") || strict_eq state (JStr "failed").

Definition getJob (ctx : auth_ctx) (id : jsval) : prog jobE cb_result :=
  if negb workerThread then multi_thread_only "GET_JOB_ERROR"
  else
    do r <- ask (QGetJob id) in
    match r with
    | inl m => fail "GET_JOB_ERROR" [JStr m]
    | inr None => fail "GET_JOB_ERROR" [JStr "unknown job"]
    | inr (Some j) =>
        if negb (ownsJob ctx (j_data j)) then Ret (CbErr (denied ctx))
        else
          do st <- ask (QGetState j) in
          match st with
          | inl m => fail "GET_JOB_ERROR" [JStr m]
          | inr state =>
              do fresh <- (if is_terminal state then ask (QGetJob id) else Ret (inr (Some j))) in
              match fresh with
              | inl m => fail "GET_JOB_ERROR" [JStr m]
              | inr f => Ret (CbOk (job_record (default j f) state))
              end
          end
    end.

(** The records of a history list the caller owns: the first of each job id,
    at most twenty. *)
Fixpoint history (ctx : auth_ctx) (items : list jsval) (seen : list string) (cap : nat) : list jsval :=
  match items with
  | [] => []
  | item :: rest =>
      if (20 <=? cap)%nat then history ctx rest seen cap
      else if negb (ownsJob ctx (jget "data" (jget "job" item))) then history ctx rest seen cap
      else
        let jobID := js_text (jget "id" (jget "job" item)) in
        if includes jobID seen then history ctx rest seen cap
        else item :: history ctx rest (jobID :: seen) (S cap)
  end.

Definition getJobHistory (ctx : auth_ctx) (name : jsval) : prog jobE cb_result :=
  if unauthenticated ctx then Ret (CbErr (denied ctx))
  else
    do r <- ask (LRange ("jobinfo:" +:+ js_text name)) in
    match r with
    | inl m => Ret (CbErrText "GET_JOB_ERROR" (JStr m))
    | inr None => Ret (CbErrText "GET_JOB_ERROR" (JArr []))
    | inr (Some items) => Ret (CbOk (JArr (history ctx items [] 0)))
    end.

Definition removed : cb_result := CbOk (JObj [("removed", JBool true)]).

Definition removeJob (ctx : auth_ctx) (name jobID isRepeat : jsval) : prog jobE cb_result :=
  if negb workerThread then multi_thread_only "REMOVE_JOB_ERROR"
  else if unauthenticated ctx then Ret (CbErr (denied ctx))
  else if is_nullish name then fail "REMOVE_JOB_ERROR" [JStr "job must have a name"]
  else match isRepeat with
  | JBool false =>
      do r <- ask (QGetJob jobID) in
      match r with
      | inl m => fail "REMOVE_JOB_ERROR" [JStr m]
      | inr None => fail "REMOVE_JOB_ERROR" [JStr "unknown job"]
      | inr (Some j) =>
          if negb (ownsJob ctx (j_data j)) then Ret (CbErr (denied ctx))
          else do rm <- ask (QRemove j) in
               match rm with
               | inl m => fail "REMOVE_JOB_ERROR" [JStr m]
               | inr _ => Ret removed
               end
      end
  | JBool true =>
      let sid := schedulerId ctx name in
      let legacy := match ctx with
                    | Ctx _ isAdmin => is_true isAdmin && negb (strict_eq sid name)
                    | _ => false
                    end in
      do r <- ask (QRemoveScheduler sid) in
      do r2 <- (match r with
                | inr v => if negb (is_true v) && legacy then ask (QRemoveScheduler name) else Ret r
                | inl m => Ret r
                end) in
      match r2 with
      | inl m => fail "REMOVE_JOB_ERROR" [JStr m]
      | inr v => if is_true v then Ret removed else fail "REMOVE_JOB_ERROR" [JStr "unknown job"]
      end
  | _ => fail "REMOVE_JOB_ERROR" [JStr "must pass in isRepeat boolean flag"]
  end.

(** The records of jobs whose state can be read, in order. *)
Fixpoint records_of (jobs : list job) : prog jobE (list jsval) :=
  match jobs with
  | [] => Ret []
  | j :: rest =>
      do st <- ask (QGetState j) in
      do others <- records_of rest in
      Ret (match st with inl _ => others | inr state => job_record j state :: others end)
  end.

Definition JOB_STATES : list string := ["waiting"; "active"; "delayed"; "completed"; "failed"].

Definition listJobs (ctx : auth_ctx) : prog jobE cb_result :=
  if negb workerThread then multi_thread_only "GET_JOB_ERROR"
  else if unauthenticated ctx then Ret (CbErr (denied ctx))
  else
    do r <- ask (QGetJobs JOB_STATES 0 49) in
    match r with
    | inl m => fail "GET_JOB_ERROR" [JStr m]
    | inr jobs =>
        do records <- records_of (List.filter (fun j => ownsJob ctx (j_data j)) jobs) in
        Ret (CbOk (JArr records))
    end.

Definition updateJobProgress (jobID progress : jsval) : prog jobE unit :=
  do r <- ask (QGetJob jobID) in
  match r with inr (Some j) => ask (QUpdateProgress j progress) | _ => Ret tt end.

Definition saveJobInfoToRedis (j : job) (state : string) : prog jobE unit :=
  let key := "jobinfo:" +:+ js_text (j_name j) in
  do _ <- ask (LPush key (json_text (job_record j (JStr state)))) in
  ask (LTrim key 0 200).

(** A queue event's handler ([installJobEventHandlers]). *)
Definition on_job_event (jobId : jsval) (state : string) : prog jobE unit :=
  do r <- ask (QGetJob jobId) in
  match r with inr (Some j) => saveJobInfoToRedis j state | _ => Ret tt end.

(** *** The processor *)

Definition LEGACY_TOOL_DELIMITER : string := ":::".

(** [encodeLegacyTool] (lib/metering/redis-provider.js). *)
Definition encodeLegacyTool (deviceID serviceID actionName : jsval) : string :=
  js_text deviceID +:+ LEGACY_TOOL_DELIMITER +:+ js_text serviceID +:+ LEGACY_TOOL_DELIMITER +:+ js_text actionName.

(** How the job's promise settles; [retry] is false for an
    [UnrecoverableError]. *)
Inductive settled :=
| Resolved (results : jsval)
| Rejected (message : string) (retry : bool).

Definition NOT_RETRIED : list string := ["MODULE_UNLOADED"].

Definition failMessage (code : jsval) (message : string) : string :=
  if is_nullish code then message else js_text code +:+ ": " +:+ message.

(** [Object.assign({}, a, b)] *)
Definition obj_assign (a b : jsval) : jsval :=
  match a, b with
  | JObj ka, JObj kb => JObj (fold_left (fun acc kv => assoc_set kv.1 kv.2 acc) kb ka)
  | JObj ka, _ => JObj ka
  | _, JObj kb => JObj kb
  | _, _ => JObj []
  end.

(** The first settlement of the promise stands, so a timeout that fired keeps
    the job failed; the rest of the callback runs all the same. *)
Definition processJob (has_hook : bool) (id data opts : jsval) : prog jobE settled :=
  if is_nullish data then Ret (Rejected "job input data not available" true)
  else
    let deviceID := jget "deviceID" data in
    let serviceID := jget "serviceID" data in
    let actionName := jget "actionName" data in
    do r <- ask (Invoke deviceID serviceID actionName (jget "input" data) id) in
    let timed_out := iv_timed_out r && negb (is_nullish (jget "timeout" opts)) in
    let settle s := if timed_out
      then Rejected ("Promise timed out after " +:+ js_text (jget "timeout" opts) +:+ " milliseconds") true
      else s in
    match iv_err r with
    | Some (code, message) =>
        Ret (settle (Rejected (failMessage code message)
               (negb (match code with JStr c => includes c NOT_RETRIED | _ => false end))))
    | None =>
        do _ <- (if is_nullish (jget "apiKey" data) then Ret tt
                 else ask (ChargeCall (jget "apiKey" data) (encodeLegacyTool deviceID serviceID actionName) mcpToolCallCost)) in
        if negb has_hook then Ret (settle (Resolved (iv_results r)))
        else
          do extra <- ask (Hook data) in
          do _ <- (match extra with
                   | inr x => if is_nullish x then Ret (inr tt) else ask (QUpdateData (obj_assign data x))
                   | inl m => Ret (inr tt)
                   end) in
          Ret (settle (Resolved (iv_results r)))
    end.

(** ** The entry points as one interface *)

Inductive job_call :=
| CallAdd (jobOpts deviceID serviceID actionName input : jsval)
| CallGet (id : jsval)
| CallHistory (name : jsval)
| CallRemove (name jobID isRepeat : jsval)
| CallList.

Definition exec_call (ctx : auth_ctx) (c : job_call) : prog jobE cb_result :=
  match c with
  | CallAdd jobOpts d s a i => addJob ctx jobOpts d s a i
  | CallGet id => getJob ctx id
  | CallHistory name => getJobHistory ctx name
  | CallRemove name id rep => removeJob ctx name id rep
  | CallList => listJobs ctx
  end.
End jobs.

(** The job data an answer shows its caller. *)
Definition revealed (r : cb_result) : list jsval :=
  match r with
  | CbOk (JArr records) => map (fun rec => jget "data" (jget "job" rec)) records
  | CbOk v => if is_nullish (jget "job" v) then [] else [jget "data" (jget "job" v)]
  | _ => []
  end.

(** The queue's one promise used below: the owner recorded in a job's data is
    the same each time the job is read. *)
Definition stable_owner (h : list (obs jobE)) (X : Type) (e : jobE X) : X -> Prop :=
  match e in jobE X return X -> Prop with
  | QGetJob id => fun x => forall j j0, x = inr (Some j) -> Obs (QGetJob id) (inr (Some j0)) ∈ h ->
                             jget "apiKey" (j_data j) = jget "apiKey" (j_data j0) /\
                             is_nullish (j_data j) = is_nullish (j_data j0)
  | _ => fun _ => True
  end.

(** What a tenant's call may ask of the queue. *)
Definition tenant_request (sha256 : string -> string) (ctx : auth_ctx)
  (h : list (obs jobE)) (X : Type) (e : jobE X) : Prop :=
  match e with
  | QRemove j => ownsJob ctx (j_data j) = true /\ exists id, Obs (QGetJob id) (inr (Some j)) ∈ h
  | QGetState j => ownsJob ctx (j_data j) = true
  | QRemoveScheduler sid => exists name, sid = schedulerId sha256 ctx name
  | QUpsert sid _ template =>
      (exists name, sid = schedulerId sha256 ctx name) /\
      jget "apiKey" (jget "data" template) = appKey_of ctx
  | QAdd _ data _ => jget "apiKey" data = appKey_of ctx
  | QGetJob _ | QGetJobs _ _ _ | LRange _ => True
  | _ => False
  end.

(** ** Lemmas *)

Section lemmas.
Context (sha256 : string -> string) (workerThread : bool).

Definition only_own (ctx : auth_ctx) (h : list (obs jobE)) (r : cb_result) : Prop :=
  forall d, d ∈ revealed r -> ownsJob ctx d = true.

Notation tsafe ctx Q := (safe stable_owner (tenant_request sha256 ctx) Q).

Lemma only_own_err ctx h e : only_own ctx h (CbErr e).
Proof. intros d. cbn. set_solver. Qed.

Lemma history_owned ctx items seen cap item :
  item ∈ history ctx items seen cap -> ownsJob ctx (jget "data" (jget "job" item)) = true.
Proof.
  revert seen cap. induction items as [|x items IH]; intros seen cap; cbn [history]; [set_solver|].
  destruct (20 <=? cap)%nat; [apply IH|].
  destruct (ownsJob ctx (jget "data" (jget "job" x))) eqn:Eo; cbn [negb]; [|apply IH].
  destruct (includes _ seen); [apply IH|].
  rewrite elem_of_cons. intros [->|H']; [done|]. by eapply IH.
Qed.

Lemma records_owned ctx h jobs :
  (forall j, j ∈ jobs -> ownsJob ctx (j_data j) = true) ->
  tsafe ctx (fun h' rs => forall rec, rec ∈ rs -> ownsJob ctx (jget "data" (jget "job" rec)) = true) h
    (records_of jobs).
Proof.
  revert h. induction jobs as [|j jobs IH]; intros h Hj; cbn [records_of]; [cbn; set_solver|].
  cbn. split; [apply Hj; set_solver|]. intros st _.
  eapply safe_bind; [apply IH; set_solver|]. cbn. intros h' rs Hrs.
  destruct st; [done|]. intros rec [->|H]%elem_of_cons; [|auto]. apply Hj. set_solver.
Qed.

Lemma addJob_safe ctx jobOpts d s a i h :
  tsafe ctx (only_own ctx) h (addJob sha256 workerThread ctx jobOpts d s a i).
Proof.
  unfold addJob. repeat (case_match; [apply only_own_err|]).
  case_match; cbn; split; try done; try (split; [by eexists|done]).
  all: intros [m|id] _; cbn; intros x; cbn; set_solver.
Qed.

Lemma getJob_safe ctx id h : tsafe ctx (only_own ctx) h (getJob workerThread ctx id).
Proof.
  unfold getJob. case_match; [apply only_own_err|]. cbn. split; [done|].
  intros [m|[j|]] _; cbn; try apply only_own_err.
  destruct (ownsJob ctx (j_data j)) eqn:Eo; cbn; [|apply only_own_err]. split; [done|].
  intros [m|state] _; cbn; [apply only_own_err|].
  destruct (is_terminal state); cbn.
  - split; [done|]. intros [m|f] Hf; cbn; [apply only_own_err|].
    intros x. destruct f as [j'|]; cbn; rewrite list_elem_of_singleton; intros ->; [|done].
    destruct (Hf j' j eq_refl) as [E1 E2]; [set_solver|].
    unfold ownsJob in *. destruct ctx; try done. by rewrite E1, E2.
  - intros x. cbn. rewrite list_elem_of_singleton. by intros ->.
Qed.

Lemma getJobHistory_safe ctx name h : tsafe ctx (only_own ctx) h (getJobHistory ctx name).
Proof.
  unfold getJobHistory. case_match; [apply only_own_err|]. cbn. split; [done|].
  intros [m|[items|]] _; cbn; try (intros x; cbn; set_solver).
  intros x. cbn. rewrite list_elem_of_fmap. intros (item & -> & Hi). by eapply history_owned.
Qed.

Lemma removeJob_safe ctx name id rep h :
  rep = JBool false \/ (forall k isAdmin, ctx = Ctx k isAdmin -> is_true isAdmin = false) ->
  tsafe ctx (only_own ctx) h (removeJob sha256 workerThread ctx name id rep).
Proof.
  intros Ht. unfold removeJob. repeat (case_match; [apply only_own_err|]).
  destruct rep as [| |[]| | | | |]; try apply only_own_err; cbn; (split; [try done; by eexists|]).
  - intros r _. assert (Hl : match ctx with
                    | Ctx _ isAdmin => is_true isAdmin && negb (strict_eq (schedulerId sha256 ctx name) name)
                    | _ => false
                    end = false).
    { destruct Ht as [Ht|Ht]; [done|]. destruct ctx as [| |k isAdmin]; try done. by rewrite (Ht k isAdmin eq_refl). }
    rewrite Hl. destruct r as [m|v]; cbn; [apply only_own_err|].
    rewrite andb_false_r. cbn. destruct (is_true v); [intros x; cbn; set_solver|apply only_own_err].
  - intros [m|[j|]] _; cbn; try apply only_own_err.
    destruct (ownsJob ctx (j_data j)) eqn:Eo; cbn; [|apply only_own_err].
    split; [split; [done|]; exists id; set_solver|].
    intros [m|[]] _; cbn; [apply only_own_err|]. intros x. cbn. set_solver.
Qed.

Lemma listJobs_safe ctx h : tsafe ctx (only_own ctx) h (listJobs workerThread ctx).
Proof.
  unfold listJobs. repeat (case_match; [apply only_own_err|]). cbn. split; [done|].
  intros [m|jobs] _; cbn; [apply only_own_err|].
  eapply safe_bind.
  - apply records_owned. intros j Hj. apply list_elem_of_In, List.filter_In in Hj. apply Hj.
  - cbn. intros h' rs Hrs x. cbn. rewrite list_elem_of_fmap. intros (rec & -> & Hr). auto.
Qed.

Lemma exec_call_safe ctx c h :
  (forall k isAdmin, ctx = Ctx k isAdmin -> is_true isAdmin = false) ->
  tsafe ctx (only_own ctx) h (exec_call sha256 workerThread ctx c).
Proof.
  intros Ht. destruct c; cbn [exec_call].
  - apply addJob_safe.
  - apply getJob_safe.
  - apply getJobHistory_safe.
  - apply removeJob_safe. by right.
  - apply listJobs_safe.
Qed.
End lemmas.

(** ** Properties *)

(** C6: a tenant who is no admin reaches only its own jobs, through any of the
    five entry points and whatever the queue answers: a job is removed only
    after a read showed it to be the caller's, the schedulers removed or
    replaced are in the caller's own name space, what is queued is owned by
    (and billed to) the caller whatever the request's options say, and every
    record handed back is of a job the caller owns. *)
Theorem job_tenant_isolation sha256 workerThread k isAdmin c tr r :
  is_true isAdmin = false ->
  run (exec_call sha256 workerThread (Ctx k isAdmin) c) tr r ->
  allowed stable_owner [] tr ->
  requests_ok (tenant_request sha256 (Ctx k isAdmin)) tr /\
  forall d, d ∈ revealed r -> strict_eq (jget "apiKey" d) k = true.
Proof.
  intros Ha Hr Hal.
  assert (Hs : safe stable_owner (tenant_request sha256 (Ctx k isAdmin)) (only_own (Ctx k isAdmin)) []
                 (exec_call sha256 workerThread (Ctx k isAdmin) c))
    by (apply exec_call_safe; intros ? ? [= <- <-]; done).
  split; [by eapply safe_requests|]. intros d Hd.
  pose proof (safe_run _ _ _ _ _ _ _ Hs Hr Hal d Hd) as Ho. unfold ownsJob in Ho.
  destruct (is_nullish k); [done|]. rewrite Ha in Ho. by apply andb_true_iff in Ho as [_ ?].
Qed.

Definition sample_job : job :=
  mkJob (JStr "7") (JStr "n") (JObj [("apiKey", JStr "k1")]) JNull JNull JNull JNull JNull JNull JNull JNull JNull JNull.

Lemma job_tenant_isolation_witness :
  let tr := [Obs (QGetJob (JStr "7")) (inr (Some sample_job)); Obs (QGetState sample_job) (inr (JStr "active"))] in
  run (exec_call (fun s => s) true (Ctx (JStr "k1") JUndef) (CallGet (JStr "7"))) tr
      (CbOk (job_record sample_job (JStr "active"))) /\
  strict_eq (jget "apiKey" (j_data sample_job)) (JStr "k1") = true.
Proof.
  assert (Hr : run (exec_call (fun s => s) true (Ctx (JStr "k1") JUndef) (CallGet (JStr "7")))
    [Obs (QGetJob (JStr "7")) (inr (Some sample_job)); Obs (QGetState sample_job) (inr (JStr "active"))]
    (CbOk (job_record sample_job (JStr "active")))) by (cbn; repeat constructor).
  split; [exact Hr|].
  apply (job_tenant_isolation (fun s => s) true (JStr "k1") JUndef (CallGet (JStr "7")) _ _ eq_refl Hr).
  - cbn. split; [|done]. intros j j0 _ Hin. by apply elem_of_nil in Hin.
  - cbn. left.
Defined.

Lemma sapp_inj_same_length a b c d :
  String.length a = String.length b -> a +:+ c = b +:+ d -> a = b /\ c = d.
Proof.
  revert b. induction a as [|x a IH]; intros [|y b]; cbn; try done.
  rewrite !sapp_cons. intros [= Hl] [= -> H]. destruct (IH b Hl H) as [-> ->]. done.
Qed.

(** Two tenants' schedulers never share an id: if the ids of two
    (identity, name) pairs are equal then the names are, and so are the
    identities' hash prefixes; neither id is a name another tenant could use
    to name its own. *)
Theorem schedulerId_separates sha256 k1 a1 n1 k2 a2 n2 :
  is_nullish k1 = false -> is_nullish k2 = false ->
  (16 <= String.length (sha256 (js_text k1)))%nat -> (16 <= String.length (sha256 (js_text k2)))%nat ->
  schedulerId sha256 (Ctx k1 a1) n1 = schedulerId sha256 (Ctx k2 a2) n2 ->
  owner_prefix sha256 k1 = owner_prefix sha256 k2 /\ js_text n1 = js_text n2.
Proof.
  intros H1 H2 L1 L2. unfold schedulerId. rewrite H1, H2. intros [= E].
  unfold owner_prefix in *. apply sapp_inj_same_length in E as [-> E]; [|rewrite !stake_length; lia].
  split; [done|]. rewrite !sapp_cons in E. by injection E.
Qed.

Lemma schedulerId_separates_witness :
  owner_prefix (fun s => s +:+ "0123456789abcdef") (JStr "k") = owner_prefix (fun s => s +:+ "0123456789abcdef") (JStr "k") /\
  js_text (JStr "n") = js_text (JStr "n").
Proof.
  apply (schedulerId_separates (fun s => s +:+ "0123456789abcdef") (JStr "k") JUndef (JStr "n") (JStr "k") JUndef (JStr "n"));
    try reflexivity; vm_compute; lia.
Defined.

(** The charges among a run's requests. *)
Definition charges_of (tr : list (obs jobE)) : list (jsval * string) :=
  omap (fun o => match o with
                 | Obs (ChargeCall k tool _) _ => Some (k, tool)
                 | _ => None
                 end) tr.

Lemma fold_assoc_set_keep (kb ka : list (string * jsval)) k :
  k ∉ map fst kb -> assoc k (fold_left (fun acc kv => assoc_set kv.1 kv.2 acc) kb ka) = assoc k ka.
Proof.
  revert ka. induction kb as [|[k' v'] kb IH]; intros ka H; [done|]. cbn [fold_left].
  cbn in H. rewrite IH by set_solver. rewrite assoc_set_lookup. cbn.
  destruct (String.eqb_spec k k') as [->|]; [set_solver|done].
Qed.

Lemma obj_assign_keep ka x k :
  (forall kb, x = JObj kb -> k ∉ map fst kb) -> jget k (obj_assign (JObj ka) x) = jget k (JObj ka).
Proof. intros H. destruct x; try done. cbn. by rewrite fold_assoc_set_keep by auto. Qed.

Lemma update_data_inj d u d' u' :
  Obs (QUpdateData d) u = Obs (QUpdateData d') u' -> d = d'.
Proof.
  intros H. exact (f_equal (fun o => match o with Obs (QUpdateData x) _ => x | _ => JUndef end) H).
Qed.

Lemma not_retried_iff code :
  match code with JStr c => includes c NOT_RETRIED | _ => false end = strict_eq code (JStr "MODULE_UNLOADED").
Proof.
  destruct code as [| | | | |c| |]; try done. cbn.
  destruct (String.eqb_spec c "MODULE_UNLOADED") as [->|Hne]; [done|].
  apply includes_false. unfold NOT_RETRIED. set_solver.
Qed.

(** A job is invoked once, and billed once exactly when its invocation
    succeeded and it has an owner, to that owner, for the call it made; the
    job's record keeps every field of its data the completion hook did not
    set; its promise settles as the first of its timeout and the invocation
    say, and only a module that is gone is not retried. *)
Theorem processJob_bills_success cost hook id ka opts tr st :
  let data := JObj ka in
  let tool := encodeLegacyTool (jget "deviceID" data) (jget "serviceID" data) (jget "actionName" data) in
  run (processJob cost hook id data opts) tr st ->
  exists r tr',
    tr = Obs (Invoke (jget "deviceID" data) (jget "serviceID" data) (jget "actionName" data) (jget "input" data) id) r :: tr' /\
    charges_of tr' = (if iv_err r then [] else if is_nullish (jget "apiKey" data) then [] else [(jget "apiKey" data, tool)]) /\
    (forall d u, Obs (QUpdateData d) u ∈ tr' ->
       exists x, Obs (Hook data) (inr x) ∈ tr' /\
         forall k, (forall kb, x = JObj kb -> k ∉ map fst kb) -> jget k d = jget k data) /\
    (iv_timed_out r = false -> st =
       match iv_err r with
       | Some (code, m) => Rejected (failMessage code m) (negb (strict_eq code (JStr "MODULE_UNLOADED")))
       | None => Resolved (iv_results r)
       end) /\
    (iv_timed_out r = true -> is_nullish (jget "timeout" opts) = false ->
       exists m, st = Rejected ("Promise timed out after " +:+ m +:+ " milliseconds") true).
Proof.
  cbn zeta. intros H. pattern tr, st. eapply (safe_all_run (fun _ _ _ => True)); [|exact H]. clear H tr st.
  unfold processJob. cbn [is_nullish ask pbind safe]. split; [done|]. intros r _.
  destruct r as [[[code m]|] results timed_out]; cbn [iv_err iv_results iv_timed_out].
  - cbn [safe]. eexists _, []. split; [done|]. cbn [iv_err iv_results iv_timed_out].
    split_and!; [done|set_solver| |].
    + intros ->. cbn. by rewrite not_retried_iff.
    + intros -> ->. cbn. eauto.
  - assert (Hset : forall s, (timed_out = false -> (if timed_out && negb (is_nullish (jget "timeout" opts))
        then Rejected ("Promise timed out after " +:+ js_text (jget "timeout" opts) +:+ " milliseconds") true else s) = s) /\
      (timed_out = true -> is_nullish (jget "timeout" opts) = false -> exists m,
       (if timed_out && negb (is_nullish (jget "timeout" opts))
        then Rejected ("Promise timed out after " +:+ js_text (jget "timeout" opts) +:+ " milliseconds") true else s) =
       Rejected ("Promise timed out after " +:+ m +:+ " milliseconds") true)).
    { intros s. split; [by intros ->|]. intros -> ->. cbn. eauto. }
    destruct (is_nullish (jget "apiKey" (JObj ka))); cbn [pbind ask safe];
      [|split; [done|]; intros [] _]; destruct hook; cbn [negb pbind ask safe].
    all: try (eexists _, _; split; [cbn [app]; reflexivity|]; split_and!; [done|set_solver|apply Hset|apply Hset]).
    all: split; [done|]; intros [e|x] _; cbn [pbind ask safe].
    all: try (eexists _, _; split; [cbn [app]; reflexivity|]; split_and!; [done|set_solver|apply Hset|apply Hset]).
    all: destruct (is_nullish x); cbn [pbind ask safe]; [|split; [done|]; intros u _; cbn [pbind ask safe]].
    all: eexists _, _; (split; [cbn [app]; reflexivity|]); split_and!; [done| |apply Hset|apply Hset].
    all: intros d u'; rewrite ?elem_of_cons, ?elem_of_nil; intros Hin; destruct_or?; try discriminate; try done.
    all: apply update_data_inj in Hin as ->; exists x; split; [set_solver|]; intros k; apply obj_assign_keep.
Qed.

Lemma processJob_bills_success_witness :
  let data := JObj [("deviceID", JStr "d"); ("serviceID", JStr "s"); ("actionName", JStr "a"); ("apiKey", JStr "k")] in
  let tr := [Obs (Invoke (JStr "d") (JStr "s") (JStr "a") JUndef (JNum 7)) (mkReply None (JNum 1) false);
             Obs (ChargeCall (JStr "k") "d:::s:::a" 2) tt] in
  run (processJob 2 false (JNum 7) data JUndef) tr (Resolved (JNum 1)) /\ charges_of tr = [(JStr "k", "d:::s:::a")].
Proof.
  set (data := JObj _). set (tr := [_; _]).
  assert (H : run (processJob 2 false (JNum 7) data JUndef) tr (Resolved (JNum 1))) by (cbn; repeat constructor).
  split; [exact H|].
  destruct (processJob_bills_success 2 false (JNum 7) _ JUndef tr (Resolved (JNum 1)) H) as (r & tr' & E & Hc & _).
  apply (f_equal (@tail _)) in E. cbn [tail] in E. subst tr'.
  change (charges_of tr = _) with (charges_of (tail tr) = [(JStr "k", "d:::s:::a")]).
  rewrite Hc. destruct (iv_err r); [discriminate Hc|reflexivity].
Defined.
