(* ===== verification/Gateway.v ===== *)
(** * The MCP gateway (lib/mcp/gateway.js)

    One JSON-RPC message in, at most one response out. A handler is a [prog]
    over what it asks of the rest of the system: authentication, rate limits,
    the metering interface, the live devices, and (embedded whole) the job
    queue of JobControl.v and the schema fetches of ToolRegistry.v. *)
From Stdlib Require Import ZArith Lia Ascii String.
From stdpp Require Import prelude strings gmap.
From S2P Require Import Prelude Paths Json Errors Permissions Address Session Auth Prog ToolRegistry JobControl.

Set Default Proof Using "Type".

(** ** Requests to the rest of the system *)

(** What [doUserAuth] calls back with, as far as the gateway reads it. *)
Inductive auth_reply :=
| AuthRefused (e : cherr)
| AuthOk (appKey userName : jsval) (isAdmin : bool).

(** A child process's end: the error [execFile] reports, and its output. *)
Record exec_error := mkExec { x_killed : bool; x_signal : option string; x_code : option Z }.
Record exec_reply := mkExecReply { xr_err : option exec_error; xr_stdout : string; xr_stderr : string }.

(** How loading a module ended: its deadline first, an error, or an instance. *)
Inductive load_reply := LoadTimeout | LoadFailed (e : cherr) | Loaded (instance : jsval).

Inductive gwE : Type -> Type :=
| GAuth (deviceID appKey serviceID actionName : jsval) : gwE auth_reply
| GRate (appKey : jsval) : gwE rate_reply
| GBalance (appKey : jsval) : gwE (cherr + jsval)
| GListDevices (appKey : jsval) : gwE (called (list jsval))
| GSpecs : gwE (list (string * jsval))
| GInvoke (deviceID serviceID : string) (actionName input : jsval) : gwE (cherr + jsval)
| GCharge (appKey : jsval) (tool : string) (cost : Z) : gwE unit
| GNow : gwE string
| GValidateSandboxed (path : string) (timeout : Z) : gwE (cherr + jsval)
| GExec (args : list string) (timeout : Z) : gwE exec_reply
| GLoadModule (path name : string) (version : jsval) : gwE load_reply
| GModuleDevices (instance : jsval) : gwE (list string)
| GTool {X} (e : toolE X) : gwE X
| GJob {X} (e : jobE X) : gwE X.

Fixpoint of_tool {A} (p : prog toolE A) : prog gwE A :=
  match p with Ret a => Ret a | Vis e k => Vis (GTool e) (fun x => of_tool (k x)) end.
Fixpoint of_job {A} (p : prog jobE A) : prog gwE A :=
  match p with Ret a => Ret a | Vis e k => Vis (GJob e) (fun x => of_job (k x)) end.

(** A handler's end: a response ([None]: no body), or an exception out of a
    callback. *)
Inductive gw_result := Responded (body : option jsval) | GwThrew (message : string).

(** ** Responses *)

Definition JSONRPC_PARSE_ERROR : Z := -32700.
Definition JSONRPC_INVALID_REQUEST : Z := -32600.
Definition JSONRPC_METHOD_NOT_FOUND : Z := -32601.
Definition JSONRPC_INVALID_PARAMS : Z := -32602.
Definition JSONRPC_INTERNAL_ERROR : Z := -32603.
Definition PROTOCOL_VERSION : string := "2026-07-28".
Definition SERVER_NAME : string := "countinghouse".

Definition errorResponse (id : jsval) (code : Z) (message : string) : jsval :=
  JObj [("jsonrpc", JStr "2.0"); ("id", if is_undef id then JNull else id);
        ("error", JObj [("code", JNum code); ("message", JStr message)])].

Definition resultResponse (id result : jsval) : jsval :=
  JObj [("jsonrpc", JStr "2.0"); ("id", id); ("result", result)].

Definition reply (v : jsval) : prog gwE gw_result := Ret (Responded (Some v)).

(** [JSON.stringify(v)], which is [undefined] for [undefined]. *)
Definition stringify (v : jsval) : jsval := if is_undef v then JUndef else JStr (json_text v).

Definition text_content (t : jsval) : jsval := JArr [JObj [("type", JStr "text"); ("text", t)]].

Definition moduleToolResult (data : jsval) (outputSchema : option jsval) : jsval :=
  let output := jget "output" data in
  match outputSchema with
  | Some _ => JObj [("isError", JBool false); ("content", text_content (stringify output)); ("structuredContent", output)]
  | None =>
      let text := match output with
                  | JStr s => JStr s
                  | _ => if is_nullish output then JStr "" else stringify output
                  end in
      JObj [("isError", JBool false); ("content", text_content text)]
  end.

(** [v || {}] *)
Definition or_empty (v : jsval) : jsval := if truthy v then v else JObj [].

Definition bullmqStateToTaskStatus (state : jsval) : string :=
  match state with
  | JStr s => if String.eqb s "completed" then "completed" else if String.eqb s "failed" then "failed" else "working"
  | _ => "working"
  end.

(** [Math.max] of numbers; anything else among them makes it NaN. *)
Definition js_max (vs : list jsval) : jsval :=
  match vs with
  | [] => JFrac "-Infinity"
  | v :: rest => fold_left (fun a b => match a, b with
                                       | JNum x, JNum y => JNum (Z.max x y)
                                       | _, _ => JFrac "NaN"
                                       end) rest v
  end.

(** *** The validator child's output *)

Definition js_trim (s : string) : string :=
  let l := drop_while is_space (list_ascii_of_string s) in
  string_of_list_ascii (rev (drop_while is_space (rev l))).

Definition newline : ascii := ascii_of_nat 10.

(** The shapes of the child's contract: [{ok, ...}] or [{error}]. *)
Definition child_result (parsed : jsval) : bool :=
  is_object parsed && negb (is_nullish parsed) &&
  (match jget "ok" parsed with JBool _ => true | _ => false end || is_string (jget "error" parsed)).

Section gateway.
Context (ErrorInfo : string -> option string)
        (JSON_parse : string -> option jsval)
        (toISOString : jsval -> string)
        (sha256 deviceIDForName : string -> string).
(** The options the gateway reads, and the package's version. *)
Context (workerThread authoringTools debug : bool) (moduleSandbox SERVER_VERSION : string)
        (mcpToolCallCost : Z).

(** [err.message || String(err)] *)
Definition err_text (e : cherr) : string :=
  let m := message_of ErrorInfo e in if String.eqb m "" then "Error" else m.

Definition toolCallError (e : cherr) : jsval :=
  JObj ([("isError", JBool true); ("content", text_content (JStr (message_of ErrorInfo e)))] ++
        if is_nullish (c_code e) then [] else [("_meta", JObj [("countinghouse/code", c_code e)])]).

Definition toolCallOk (data : jsval) : jsval :=
  let d := if is_nullish data then JObj [] else data in
  JObj [("isError", JBool false); ("content", text_content (stringify d)); ("structuredContent", d)].

Definition toolCallResult (err : option cherr) (data : jsval) : jsval :=
  match err with Some e => toolCallError e | None => toolCallOk data end.

(** *** Identity *)

Definition tasksSupported : bool := workerThread.

(** [resolveCallerIdentity] *)
Definition resolveCallerIdentity (appKey : jsval) : prog gwE auth_reply :=
  ask (GAuth JNull appKey JNull JNull).

(** [rateLimitGate.check] *)
Definition rate_check (appKey : jsval) : prog gwE bool :=
  if is_nullish appKey then Ret false
  else do r <- ask (GRate appKey) in
       Ret match r with RateError => false | RateResult v => is_true (jget "limited" v) end.

Definition resolveGatedIdentity (id appKey : jsval) (next : auth_ctx -> prog gwE gw_result)
  : prog gwE gw_result :=
  do a <- resolveCallerIdentity appKey in
  match a with
  | AuthRefused e => reply (errorResponse id JSONRPC_INTERNAL_ERROR (err_text e))
  | AuthOk k _ isAdmin =>
      do limited <- rate_check k in
      if limited : bool then reply (errorResponse id JSONRPC_INTERNAL_ERROR "rate limit exceeded")
      else next (Ctx k (JBool isAdmin))
  end.

(** ** Plain methods *)

Definition handleInitialize (req : jsval) : prog gwE gw_result :=
  let v := jget "protocolVersion" (or_empty (jget "params" req)) in
  let version := match v with JStr s => if String.eqb s "" then JStr PROTOCOL_VERSION else v | _ => JStr PROTOCOL_VERSION end in
  let tasks := if tasksSupported
    then [("tasks", JObj [("list", JObj []); ("cancel", JObj []);
                          ("requests", JObj [("tools", JObj [("call", JObj [])])])])] else [] in
  reply (resultResponse (jget "id" req)
    (JObj [("protocolVersion", version); ("capabilities", JObj (("tools", JObj []) :: tasks));
           ("serverInfo", JObj [("name", JStr SERVER_NAME); ("version", JStr SERVER_VERSION)])])).

Definition handlePing (req : jsval) : prog gwE gw_result :=
  reply (resultResponse (jget "id" req) (JObj [])).

Definition handleToolsList (req appKey : jsval) : prog gwE gw_result :=
  let id := jget "id" req in
  do specs <- ask GSpecs in
  let targets := buildToolTargets specs in
  do shown <- (if debug then Ret (Answered targets)
               else if is_nullish appKey then Ret (Answered [])
               else do r <- ask (GListDevices appKey) in
                    Ret match r with
                        | Failed m => Failed m
                        | Threw e => Threw e
                        | Answered ds => Answered (shown_targets ds targets)
                        end) in
  match shown with
  | Failed m => reply (errorResponse id JSONRPC_INTERNAL_ERROR (if String.eqb m "" then "Error" else m))
  | Threw e => Ret (GwThrew (e_message e))
  | Answered ts =>
      do tools <- of_tool (buildToolList appKey ts) in
      if negb authoringTools then reply (resultResponse id (JObj [("tools", JArr tools)]))
      else
        do a <- resolveCallerIdentity appKey in
        match a with
        | AuthOk _ _ true => reply (resultResponse id (JObj [("tools", JArr (tools ++ AUTHORING_TOOLS))]))
        | _ => reply (resultResponse id (JObj [("tools", JArr tools)]))
        end
  end.

(** ** Tasks *)

Definition jobToTask_with (record : jsval) (status : string) : jsval :=
  let job := jget "job" record in
  let candidates := List.filter (fun t => negb (is_nullish t))
    [jget "finishedOn" job; jget "processedOn" job; jget "timestamp" job] in
  let lastUpdated := match candidates with [] => jget "timestamp" job | _ => js_max candidates end in
  let timeout := jget "timeout" (jget "opts" job) in
  JObj ([("taskId", JStr (js_text (jget "id" job)));
         ("status", JStr status);
         ("ttl", if is_nullish timeout then JNull else timeout);
         ("createdAt", JStr (toISOString (jget "timestamp" job)));
         ("lastUpdatedAt", JStr (toISOString lastUpdated))] ++
        if strict_eq (jget "state" record) (JStr "failed") && negb (is_nullish (jget "failedReason" job))
        then [("statusMessage", jget "failedReason" job)] else []).

Definition jobToTask (record : jsval) : jsval :=
  jobToTask_with record (bullmqStateToTaskStatus (jget "state" record)).

Definition multi_thread_tasks : string := "tasks require the server to be running in multi-thread mode (--workerThread)".

(** The checks tasks/get, tasks/result and tasks/cancel share. *)
Definition with_task_id (req appKey : jsval) (next : string -> auth_ctx -> prog gwE gw_result)
  : prog gwE gw_result :=
  let id := jget "id" req in
  match jget "taskId" (or_empty (jget "params" req)) with
  | JStr taskId =>
      if String.eqb taskId "" then reply (errorResponse id JSONRPC_INVALID_PARAMS "params.taskId must be a non-empty string")
      else if negb tasksSupported then reply (errorResponse id JSONRPC_INVALID_PARAMS multi_thread_tasks)
      else resolveGatedIdentity id appKey (next taskId)
  | _ => reply (errorResponse id JSONRPC_INVALID_PARAMS "params.taskId must be a non-empty string")
  end.

Definition unknown_task (id : jsval) (taskId : string) : prog gwE gw_result :=
  reply (errorResponse id JSONRPC_INVALID_PARAMS ("unknown task: " +:+ taskId)).

Definition handleTasksGet (req appKey : jsval) : prog gwE gw_result :=
  let id := jget "id" req in
  with_task_id req appKey (fun taskId ctx =>
    do r <- of_job (getJob workerThread ctx (JStr taskId)) in
    match r with
    | CbOk record => reply (resultResponse id (jobToTask record))
    | _ => unknown_task id taskId
    end).

(** The failed job's prefix: an upper-case letter, then upper-case letters,
    digits and underscores, a colon and a space. *)
Definition code_char (c : ascii) : bool := is_upper c || is_digit c || Ascii.eqb c "_".

Fixpoint span_code (s : string) : string * string :=
  match s with
  | String c s' => if code_char c then let '(a, r) := span_code s' in (String c a, r) else ("", s)
  | EmptyString => ("", "")
  end.

Definition decode_failure (reason : string) : option (string * string) :=
  match reason with
  | EmptyString => None
  | String c _ =>
      if negb (is_upper c) then None
      else let '(code, rest) := span_code reason in
           if starts_with ": " rest then Some (code, sdrop 2 rest) else None
  end.

(** The error a failed task is answered with. *)
Definition failure_error (reason : string) : cherr :=
  match decode_failure reason with
  | Some (code, message) => mkCh KError (JStr code) [JStr message]
  | None => Error_ reason
  end.

(** The schema a stored result is still shaped by. *)
Definition current_schema (outputSchema : option jsval) (data : jsval) : option jsval :=
  match outputSchema with
  | None => None
  | Some s =>
      if is_nullish (jget "outputSchemaHash" data) then None
      else match outputSchemaHash sha256 s with
           | Some h => if strict_eq (JStr h) (jget "outputSchemaHash" data) then Some s else None
           | None => None
           end
  end.

Definition doHandleTasksResult (id : jsval) (ctx : auth_ctx) (taskId : string) : prog gwE gw_result :=
  do r <- of_job (getJob workerThread ctx (JStr taskId)) in
  match r with
  | CbOk record =>
      let status := bullmqStateToTaskStatus (jget "state" record) in
      if String.eqb status "completed" then
        let data := or_empty (jget "data" (jget "job" record)) in
        do specs <- ask GSpecs in
        do schema <- of_tool (resolveOutputSchemaFor specs (appKey_of ctx) (jget "deviceID" data)
                                (jget "serviceID" data) (jget "actionName" data)) in
        reply (resultResponse id (moduleToolResult (jget "returnvalue" (jget "job" record)) (current_schema schema data)))
      else if String.eqb status "failed" then
        let reason := jget "failedReason" (jget "job" record) in
        let text := if is_nullish reason then "task failed" else js_text reason in
        reply (resultResponse id (toolCallResult (Some (failure_error text)) JUndef))
      else reply (errorResponse id JSONRPC_INVALID_PARAMS
                    ("task " +:+ taskId +:+ " has not completed yet (status: " +:+ status +:+ ")"))
  | _ => unknown_task id taskId
  end.

Definition handleTasksResult (req appKey : jsval) : prog gwE gw_result :=
  with_task_id req appKey (fun taskId ctx => doHandleTasksResult (jget "id" req) ctx taskId).

(** The error text of a [JobControl] callback. *)
Definition job_err_text (r : cb_result) : string :=
  match r with CbErr e => err_text e | CbErrText t _ => t | CbOk _ => "" end.

Definition handleTasksList (req appKey : jsval) : prog gwE gw_result :=
  let id := jget "id" req in
  if negb tasksSupported then reply (errorResponse id JSONRPC_INVALID_PARAMS multi_thread_tasks)
  else resolveGatedIdentity id appKey (fun ctx =>
    do r <- of_job (listJobs workerThread ctx) in
    match r with
    | CbOk (JArr records) => reply (resultResponse id (JObj [("tasks", JArr (map jobToTask records))]))
    | CbOk _ => reply (resultResponse id (JObj [("tasks", JArr [])]))
    | err => reply (errorResponse id JSONRPC_INTERNAL_ERROR (job_err_text err))
    end).

Definition handleTasksCancel (req appKey : jsval) : prog gwE gw_result :=
  let id := jget "id" req in
  with_task_id req appKey (fun taskId ctx =>
    do r <- of_job (getJob workerThread ctx (JStr taskId)) in
    match r with
    | CbOk record =>
        let task := jobToTask_with record "cancelled" in
        do rm <- of_job (removeJob sha256 workerThread ctx (jget "name" (jget "job" record)) (JStr taskId) (JBool false)) in
        match rm with
        | CbOk _ => reply (resultResponse id task)
        | err => reply (errorResponse id JSONRPC_INTERNAL_ERROR (job_err_text err))
        end
    | _ => unknown_task id taskId
    end).

(** ** tools/call *)

(** What tools/call needs of a looked-up name: the fields of a target, or of a
    member every object inherits (which has none of them but, being a
    function, a name). *)
Definition inherited_name (name : string) : jsval :=
  if String.eqb name "__proto__" then JUndef
  else if String.eqb name "constructor" then JStr "Object" else JStr name.

Definition doCreateTaskForToolCall (req : jsval) (name deviceID serviceID actionName toolArgs : jsval)
  (ctx : auth_ctx) : prog gwE gw_result :=
  let id := jget "id" req in
  do r <- of_job (addJob sha256 workerThread ctx (JObj [("name", name)]) deviceID serviceID actionName toolArgs) in
  match r with
  | CbOk v =>
      do now <- ask GNow in
      let ttl := jget "ttl" (jget "task" (or_empty (jget "params" req))) in
      let ttl := match ttl with JNum _ | JFrac _ => ttl | _ => JNull end in
      reply (resultResponse id (JObj [("task", JObj
        [("taskId", JStr (js_text (jget "id" v))); ("status", JStr "working"); ("ttl", ttl);
         ("createdAt", JStr now); ("lastUpdatedAt", JStr now)])]))
  | err => reply (errorResponse id JSONRPC_INTERNAL_ERROR (job_err_text err))
  end.

Definition createTaskForToolCall (req : jsval) (name deviceID serviceID actionName toolArgs appKey : jsval)
  : prog gwE gw_result :=
  let id := jget "id" req in
  if negb tasksSupported then
    reply (errorResponse id JSONRPC_INVALID_PARAMS
      "task-augmented tools/call requires the server to be running in multi-thread mode (--workerThread)")
  else
    do a <- ask (GAuth deviceID appKey serviceID actionName) in
    match a with
    | AuthRefused e => reply (errorResponse id JSONRPC_INTERNAL_ERROR (err_text e))
    | AuthOk k _ isAdmin =>
        let create := doCreateTaskForToolCall req name deviceID serviceID actionName toolArgs (Ctx k (JBool isAdmin)) in
        do limited <- rate_check appKey in
        if limited : bool then reply (resultResponse id (toolCallResult (Some (Error_ "rate limit exceeded")) JUndef))
        else create
    end.

(** The check-balance tool. *)
Definition check_balance (id appKey : jsval) : prog gwE gw_result :=
  do a <- resolveCallerIdentity appKey in
  match a with
  | AuthRefused e => reply (resultResponse id (toolCallResult (Some e) JUndef))
  | AuthOk k userName _ =>
      do limited <- rate_check k in
      if limited : bool then reply (resultResponse id (toolCallResult (Some rateLimitError) JUndef))
      else
        do b <- ask (GBalance k) in
        match b with
        | inl e => reply (resultResponse id (toolCallResult (Some e) JUndef))
        | inr result =>
            let shown := if is_string userName && negb (strict_eq userName k) then userName else JNull in
            let balance := match jget "balance" result with JNum z => JNum z | JFrac t => JFrac t | _ => JNull end in
            reply (resultResponse id (toolCallResult None (JObj [("userName", shown); ("balance", balance)])))
        end
  end.

(** A direct call of a device tool. *)
Definition call_device_tool (id : jsval) (t : target) (toolArgs appKey : jsval) : prog gwE gw_result :=
  do a <- ask (GAuth (JStr (t_deviceID t)) appKey (JStr (t_serviceID t)) (t_actionName t)) in
  match a with
  | AuthRefused e => reply (errorResponse id JSONRPC_INTERNAL_ERROR (err_text e))
  | AuthOk _ _ _ =>
      do callSchema <- of_tool (resolveOutputSchema appKey t) in
      do r <- ask (GInvoke (t_deviceID t) (t_serviceID t) (t_actionName t) toolArgs) in
      match r with
      | inl e => reply (resultResponse id (toolCallResult (Some e) JUndef))
      | inr data =>
          do _ <- (if is_nullish appKey then Ret tt
                   else ask (GCharge appKey (encodeLegacyTool (JStr (t_deviceID t)) (JStr (t_serviceID t)) (t_actionName t))
                               mcpToolCallCost)) in
          reply (resultResponse id (moduleToolResult data callSchema))
      end
  end.

(** A call of a name that is no tool but a member every object inherits: the
    target's fields are [undefined], and reading the schema pointer of its
    missing action throws. *)
Definition call_inherited (req : jsval) (name : string) (toolArgs appKey : jsval) : prog gwE gw_result :=
  let id := jget "id" req in
  if negb (is_nullish (jget "task" (or_empty (jget "params" req)))) then
    createTaskForToolCall req (inherited_name name) JUndef JUndef JUndef toolArgs appKey
  else
    do a <- ask (GAuth JUndef appKey JUndef JUndef) in
    match a with
    | AuthRefused e => reply (errorResponse id JSONRPC_INTERNAL_ERROR (err_text e))
    | AuthOk _ _ _ => Ret (GwThrew "Cannot read properties of undefined (reading 'output')")
    end.

(** [handleToolsCall] past the authoring tools: the platform tool, or a device
    tool. *)
Definition dispatch_tool (req : jsval) (name : string) (toolArgs appKey : jsval) : prog gwE gw_result :=
  let id := jget "id" req in
  do specs <- ask GSpecs in
  match target_at (buildToolTargets specs) name with
  | Missing => reply (errorResponse id JSONRPC_INVALID_PARAMS ("unknown tool: " +:+ name))
  | Inherited => call_inherited req name toolArgs appKey
  | Own t =>
      if negb (is_nullish (jget "task" (or_empty (jget "params" req)))) then
        createTaskForToolCall req (JStr (t_name t)) (JStr (t_deviceID t)) (JStr (t_serviceID t)) (t_actionName t) toolArgs appKey
      else call_device_tool id t toolArgs appKey
  end.

Definition name_required (id : jsval) : prog gwE gw_result :=
  reply (errorResponse id JSONRPC_INVALID_PARAMS "params.name must be a non-empty string").

(** tools/call of a name that is no authoring tool. *)
Definition call_tool (req : jsval) (name : string) (toolArgs appKey : jsval) : prog gwE gw_result :=
  if String.eqb name "countinghouse_check_balance" then check_balance (jget "id" req) appKey
  else dispatch_tool req name toolArgs appKey.

(** ** Authoring tools *)

(** [JSON.parse] of the last line of the child's output that has its shape. *)
Definition parseValidateChildOutput (stdout : string) : option jsval :=
  List.find child_result
    (omap (fun line => let l := js_trim line in
                       if String.eqb l "" then None else JSON_parse l)
          (rev (split_on newline stdout))).

Definition VALIDATE_CHILD_TIMEOUT_MS : Z := 15000.
Definition LOAD_MODULE_TIMEOUT_MS : Z := 15000.
Definition LOAD_MODULE_DISCOVERY_TIMEOUT_MS : Z := 3000.
Definition LOAD_MODULE_DISCOVERY_POLL_MS : Z := 50.

Definition describeValidateChildFailure (execErr : option exec_error) (stderr : string) : string :=
  let killed := match execErr with Some x => x_killed x | None => false end in
  let signal := match execErr with Some x => x_signal x | None => None end in
  let code := match execErr with Some x => x_code x | None => None end in
  let first := List.hd "" (split_on newline (js_trim stderr)) in
  if killed then "the validator subprocess did not finish within " +:+ Z_text VALIDATE_CHILD_TIMEOUT_MS +:+ "ms and was killed"
  else match signal with
  | Some sg => "the validator subprocess was killed by " +:+ sg
  | None =>
      if negb (String.eqb first "") then first
      else match code with
      | Some c => "the validator subprocess exited with code " +:+ Z_text c +:+ " and produced no output"
      | None => "the validator subprocess produced no output"
      end
  end.

(** [validateModuleInChildProcess]; [process_cwd] is what [path.resolve]
    resolves against. *)
Definition validateModuleInChildProcess (process_cwd modulePath : string) : prog gwE (cherr + jsval) :=
  do x <- ask (GExec ["--json"; modulePath] VALIDATE_CHILD_TIMEOUT_MS) in
  Ret match parseValidateChildOutput (xr_stdout x) with
      | Some parsed =>
          if is_nullish (jget "error" parsed) then inr parsed
          else inl (Error_ (js_text (jget "error" parsed)))
      | None =>
          let moduleName := basename (resolve process_cwd [modulePath]) in
          inr (JObj [("ok", JBool false); ("module", JStr moduleName);
            ("problems", JArr [JObj [("stage", JStr "validateModuleChildProcess"); ("module", JStr moduleName);
              ("message", JStr ("could not get a result from the validator subprocess: " +:+
                                describeValidateChildFailure (xr_err x) (xr_stderr x)));
              ("fix", JStr "Check the module's main entry for a process.exit() call, an infinite loop, or anything else that could stop it from returning normally while being required.")]])])
      end.

Definition problem_json (p : problem) : jsval :=
  JObj [("stage", JStr "validatePlan"); ("module", JNull); ("message", JStr (pr_message p));
        ("fix", match pr_fix p with Some f => JStr f | None => JNull end)].

Definition plan_json (r : plan_report) : jsval :=
  JObj [("ok", JBool (pl_ok r)); ("problems", JArr (map problem_json (pl_problems r)));
        ("toolNames", JArr (map JStr (pl_toolNames r)))].

(** [toolNamesForDeviceIDs] *)
Definition toolNamesForDeviceIDs (specs : list (string * jsval)) (deviceIDs : list string) : list string :=
  map fst (List.filter (fun nt => includes (t_deviceID nt.2) deviceIDs) (buildToolTargets specs)).

(** [waitForModuleTools]: [polls] more polls fit before the deadline; each
    waits at least [LOAD_MODULE_DISCOVERY_POLL_MS]. *)
Fixpoint waitForModuleTools (instance : jsval) (polls : nat) : prog gwE (bool * list string) :=
  do ids <- ask (GModuleDevices instance) in
  match ids, polls with
  | [], S n => waitForModuleTools instance n
  | _, _ => do specs <- ask GSpecs in
            Ret (negb (is_nil ids), toolNamesForDeviceIDs specs ids)
  end.

Definition discovery_polls : nat := Z.to_nat (LOAD_MODULE_DISCOVERY_TIMEOUT_MS / LOAD_MODULE_DISCOVERY_POLL_MS).

Definition load_timeout_error : cherr :=
  mkCh KError (JStr "LOAD_MODULE_TIMEOUT")
    [JStr ("loadModuleFromPath did not call back within " +:+ Z_text LOAD_MODULE_TIMEOUT_MS +:+
      "ms; the module's main entry may be hanging (an infinite loop, a promise that never resolves) during load. countinghouse_validate_module runs a module's main entry in an isolated, disposable child process and is the safer way to probe it before loading it live.")].

Definition or_null (v : jsval) : jsval := if truthy v then v else JNull.

Definition load_module (id toolArgs : jsval) : prog gwE gw_result :=
  match jget "path" toolArgs, jget "name" toolArgs with
  | JStr path, JStr name =>
      let version := or_null (jget "version" toolArgs) in
      do r <- ask (GLoadModule path name version) in
      match r with
      | LoadTimeout => reply (resultResponse id (toolCallResult (Some load_timeout_error) JUndef))
      | LoadFailed e => reply (resultResponse id (toolCallResult (Some e) JUndef))
      | Loaded instance =>
          do d <- waitForModuleTools instance discovery_polls in
          reply (resultResponse id (toolCallResult None (JObj
            [("loaded", JBool true); ("name", JStr name); ("version", version);
             ("toolNames", JArr (map JStr d.2)); ("discoveryComplete", JBool d.1)])))
      end
  | _, _ => reply (resultResponse id (toolCallResult (Some (Error_ "arguments.path and arguments.name are required")) JUndef))
  end.

(** countinghouse_call_tool's answer to the inner call's end. *)
Definition wrap_inner (id : jsval) (inner : gw_result) : gw_result :=
  match inner with
  | Responded (Some body) =>
      let e := jget "error" body in
      if is_nullish e then inner
      else Responded (Some (resultResponse id (toolCallResult
             (Some (mkCh KError (jget "code" e) [jget "message" e])) JUndef)))
  | _ => inner
  end.

Definition admin_required : cherr := mkCh KError (JStr "ADMIN_REQUIRED") [JStr "authoring tools require an admin key"].

Section cwd.
Context (process_cwd : string).

Definition run_authoring (req : jsval) (name : string) (toolArgs appKey : jsval) : prog gwE gw_result :=
  let id := jget "id" req in
  let answer err data := reply (resultResponse id (toolCallResult err data)) in
  if String.eqb name "countinghouse_validate_plan" then
    do specs <- ask GSpecs in
    answer None (plan_json (validatePlan deviceIDForName toolArgs (map fst (buildToolTargets specs)) (Some specs)))
  else if String.eqb name "countinghouse_validate_module" then
    match jget "path" toolArgs with
    | JStr path =>
        if String.eqb path "" then answer (Some (Error_ "arguments.path must be a non-empty string")) JUndef
        else
          do r <- (if workerThread && negb (String.eqb moduleSandbox "off")
                   then ask (GValidateSandboxed path VALIDATE_CHILD_TIMEOUT_MS)
                   else validateModuleInChildProcess process_cwd path) in
          match r with inl e => answer (Some e) JUndef | inr v => answer None v end
    | _ => answer (Some (Error_ "arguments.path must be a non-empty string")) JUndef
    end
  else if String.eqb name "countinghouse_load_module" then load_module id toolArgs
  else if String.eqb name "countinghouse_call_tool" then
    match jget "name" toolArgs with
    | JStr inner =>
        if String.eqb inner "" then answer (Some (Error_ "arguments.name must be a non-empty string")) JUndef
        else if includes inner AUTHORING_TOOL_NAMES then
          answer (Some (Error_ "countinghouse_call_tool cannot invoke an authoring tool")) JUndef
        else
          let innerArgs := or_empty (jget "arguments" toolArgs) in
          let innerReq := JObj [("id", id); ("params", JObj [("name", JStr inner); ("arguments", innerArgs)])] in
          do r <- call_tool innerReq inner innerArgs appKey in Ret (wrap_inner id r)
    | _ => answer (Some (Error_ "arguments.name must be a non-empty string")) JUndef
    end
  else answer (Some (Error_ ("unknown authoring tool: " +:+ name))) JUndef.

(** [dispatchAuthoringTool] with the flag on. *)
Definition dispatchAuthoringTool (req : jsval) (name : string) (toolArgs appKey : jsval) : prog gwE gw_result :=
  let id := jget "id" req in
  do a <- resolveCallerIdentity appKey in
  match a with
  | AuthRefused _ => reply (errorResponse id JSONRPC_INVALID_PARAMS ("unknown tool: " +:+ name))
  | AuthOk _ _ isAdmin =>
      if negb isAdmin then reply (resultResponse id (toolCallResult (Some admin_required) JUndef))
      else run_authoring req name toolArgs appKey
  end.

Definition handleToolsCall (req appKey : jsval) : prog gwE gw_result :=
  let params := or_empty (jget "params" req) in
  match jget "name" params with
  | JStr name =>
      let toolArgs := or_empty (jget "arguments" params) in
      if String.eqb name "" then name_required (jget "id" req)
      else if includes name AUTHORING_TOOL_NAMES && authoringTools
      then dispatchAuthoringTool req name toolArgs appKey
      else call_tool req name toolArgs appKey
  | _ => name_required (jget "id" req)
  end.

(** ** The dispatch *)

Definition invalid_request (req : jsval) : bool :=
  is_nullish req || negb (is_object req) || negb (strict_eq (jget "jsonrpc" req) (JStr "2.0")) ||
  negb (is_string (jget "method" req)).

Definition handle (req appKey : jsval) : prog gwE gw_result :=
  if invalid_request req then
    reply (errorResponse (if truthy req then jget "id" req else req) JSONRPC_INVALID_REQUEST "invalid JSON-RPC 2.0 request")
  else
    match jget "method" req with
    | JStr method =>
        if String.eqb method "notifications/initialized" then Ret (Responded None)
        else if String.eqb method "initialize" then handleInitialize req
        else if String.eqb method "ping" then handlePing req
        else if String.eqb method "tools/list" then handleToolsList req appKey
        else if String.eqb method "tools/call" then handleToolsCall req appKey
        else if String.eqb method "tasks/get" then handleTasksGet req appKey
        else if String.eqb method "tasks/result" then handleTasksResult req appKey
        else if String.eqb method "tasks/list" then handleTasksList req appKey
        else if String.eqb method "tasks/cancel" then handleTasksCancel req appKey
        else reply (errorResponse (jget "id" req) JSONRPC_METHOD_NOT_FOUND ("method not found: " +:+ method))
    | _ => Ret (Responded None)
    end.

(** *** The route (lib/routes/mcp.js): one message or a batch, in order *)

Inductive http_reply := Http (status : Z) (body : option jsval) | HttpThrew (message : string).

Fixpoint handle_all (messages : list jsval) (appKey : jsval) : prog gwE (string + list jsval) :=
  match messages with
  | [] => Ret (inr [])
  | m :: rest =>
      do r <- handle m appKey in
      match r with
      | GwThrew e => Ret (inl e)
      | Responded body =>
          do others <- handle_all rest appKey in
          Ret match others with
              | inl e => inl e
              | inr bs => inr (match body with Some b => b :: bs | None => bs end)
              end
      end
  end.

(** [req.headers['x-ch-key'] || null] *)
Definition mcp_post (body header : jsval) : prog gwE http_reply :=
  if is_nullish body || negb (is_object body) then
    Ret (Http 400 (Some (errorResponse JNull JSONRPC_PARSE_ERROR "request body must be a JSON-RPC 2.0 object or batch array")))
  else
    let appKey := or_null header in
    let messages := match body with JArr ms => ms | _ => [body] end in
    do r <- handle_all messages appKey in
    Ret match r with
        | inl e => HttpThrew e
        | inr [] => Http 202 None
        | inr ((b :: _) as bs) => Http 200 (Some (if is_array body then JArr bs else b))
        end.

(** [stampOutputSchema]: the completion hook's answer for a job. *)
Definition stampOutputSchema (jobData : jsval) : prog gwE jsval :=
  if is_nullish jobData || is_nullish (jget "apiKey" jobData) then Ret JNull
  else
    do specs <- ask GSpecs in
    do s <- of_tool (resolveOutputSchemaFor specs (jget "apiKey" jobData) (jget "deviceID" jobData)
                       (jget "serviceID" jobData) (jget "actionName" jobData)) in
    Ret match s with
        | None => JNull
        | Some schema => JObj [("outputSchemaHash",
            match outputSchemaHash sha256 schema with Some h => JStr h | None => JNull end)]
        end.
End cwd.
End gateway.
