(* ===== verification/GatewaySafety.v ===== *)
(** * What the MCP gateway promises, proved of Gateway.v

    The policy every request a message causes obeys, the billing of a
    message, the shape of its answer, and the round trip of a failed job's
    error code. *)
From Stdlib Require Import ZArith Lia Ascii String.
From stdpp Require Import prelude strings gmap.
From S2P Require Import Prelude Paths Json Errors Permissions Address Session Auth Prog ToolRegistry JobControl Gateway.

Set Default Proof Using "Type".

(** ** Histories *)

(** The job-queue part of a history. *)
Definition job_obs (o : obs gwE) : option (obs jobE) :=
  match o with
  | Obs e x => match e in gwE X return X -> option (obs jobE) with
               | GJob e => fun x => Some (Obs e x)
               | _ => fun _ => None
               end x
  end.
Definition jobs_of (h : list (obs gwE)) : list (obs jobE) := omap job_obs h.

(** The charges a history makes, and the invocations of it that succeeded, as
    the charges they call for. *)
Definition charge_obs (o : obs gwE) : option (jsval * string) :=
  match o with Obs (GCharge k tool _) _ => Some (k, tool) | _ => None end.
Definition charged (h : list (obs gwE)) : list (jsval * string) := omap charge_obs h.

Definition success_obs (k : jsval) (o : obs gwE) : option (jsval * string) :=
  match o with
  | Obs e x => match e in gwE X return X -> option (jsval * string) with
               | GInvoke d s a _ => fun x => match x with
                   | inr _ => Some (k, encodeLegacyTool (JStr d) (JStr s) a)
                   | inl _ => None
                   end
               | _ => fun _ => None
               end x
  end.
Definition succeeded (k : jsval) (h : list (obs gwE)) : list (jsval * string) := omap (success_obs k) h.

(** What billing a history calls for. *)
Definition bill (k : jsval) (h : list (obs gwE)) : list (jsval * string) :=
  if is_nullish k then [] else succeeded k h.

(** The answer to an authentication. *)
Definition auth_obs (o : obs gwE) : option auth_reply :=
  match o with
  | Obs e x => match e in gwE X return X -> option auth_reply with
               | GAuth _ _ _ _ => fun x => Some x
               | _ => fun _ => None
               end x
  end.

(** ** Environment and policy *)

(** What the gateway relies on: an accepted identity is the key presented
    (Auth.doUserAuth sets the session's key to the one it was given), and a
    job keeps its owner. *)
Definition gw_env (h : list (obs gwE)) (X : Type) (e : gwE X) : X -> Prop :=
  match e in gwE X return X -> Prop with
  | GAuth _ k _ _ => fun r => match r with AuthOk k' _ _ => k' = k | AuthRefused _ => True end
  | @GJob X e => stable_owner (jobs_of h) X e
  | _ => fun _ => True
  end.

(** The key was accepted for a device, service and action. *)
Definition accepted (h : list (obs gwE)) (d k s a : jsval) (isAdmin : bool) : Prop :=
  exists u, Obs (GAuth d k s a) (AuthOk k u isAdmin) ∈ h.

(** A queued job is for a call its creator was accepted for. *)
Definition job_authorized (h : list (obs gwE)) (k : jsval) (X : Type) (e : jobE X) : Prop :=
  match e with
  | QAdd _ data _ => exists isAdmin, accepted h (jget "deviceID" data) k (jget "serviceID" data) (jget "actionName" data) isAdmin
  | QUpsert _ _ _ => False
  | _ => True
  end.

(** What one message of the key [k] may ask of the system. *)
Definition gw_policy (sha256 : string -> string) (authoringTools : bool) (k : jsval)
  (h : list (obs gwE)) (X : Type) (e : gwE X) : Prop :=
  match e with
  | GAuth _ k' _ _ => k' = k
  | GRate k' | GListDevices k' => k' = k
  | GBalance k' => k' = k /\ exists isAdmin, accepted h JNull k JNull JNull isAdmin
  | GInvoke d s a _ => exists isAdmin, accepted h (JStr d) k (JStr s) a isAdmin
  | GCharge k' tool _ => k' = k /\ charged h = [] /\ succeeded k h = [(k, tool)]
  | GTool (FetchSchema _ k' _) => k' = k
  | GTool (LogSchemaDowngrade _ _ _ _) => True
  | @GJob X e => exists isAdmin, tenant_request sha256 (Ctx k (JBool isAdmin)) (jobs_of h) X e /\
                   (exists d s a, accepted h d k s a isAdmin) /\ job_authorized h k X e
  | GValidateSandboxed _ _ | GExec _ _ | GLoadModule _ _ _ | GModuleDevices _ =>
      authoringTools = true /\ accepted h JNull k JNull JNull true
  | GSpecs | GNow => True
  end.

(** ** Lemmas on histories *)

Lemma jobs_of_app a b : jobs_of (a ++ b) = jobs_of a ++ jobs_of b.
Proof. apply omap_app. Qed.
Lemma charged_app a b : charged (a ++ b) = charged a ++ charged b.
Proof. apply omap_app. Qed.
Lemma succeeded_app k a b : succeeded k (a ++ b) = succeeded k a ++ succeeded k b.
Proof. apply omap_app. Qed.

Lemma accepted_mono h h' d k s a adm : h ⊆ h' -> accepted h d k s a adm -> accepted h' d k s a adm.
Proof. intros Hs [u Hu]. exists u. auto. Qed.

Lemma accepted_new h d k s a u adm : accepted (h ++ [Obs (GAuth d k s a) (AuthOk k u adm)]) d k s a adm.
Proof. exists u. set_solver. Qed.

Lemma sub_snoc (h : list (obs gwE)) o : h ⊆ h ++ [o].
Proof. set_solver. Qed.

Lemma last_in (h : list (obs gwE)) o : o ∈ h ++ [o].
Proof. set_solver. Qed.

(** No money has moved since [h]. *)
Definition quiet (k : jsval) (h h' : list (obs gwE)) : Prop :=
  h ⊆ h' /\ charged h' = charged h /\ succeeded k h' = succeeded k h.

Lemma quiet_refl k h : quiet k h h.
Proof. by split. Qed.

Lemma quiet_trans k a b c : quiet k a b -> quiet k b c -> quiet k a c.
Proof. intros (H1 & H2 & H3) (H4 & H5 & H6). split; [set_solver|]. split; congruence. Qed.

Lemma quiet_step k h o : charge_obs o = None -> success_obs k o = None -> quiet k h (h ++ [o]).
Proof.
  intros Hc Hs. split; [set_solver|]. unfold charged, succeeded. rewrite !omap_app. cbn.
  by rewrite Hc, Hs, !app_nil_r.
Qed.

Section embed.
Context (sha256 : string -> string) (authoringTools : bool) (k : jsval).

Notation gsafe Q := (safe gw_env (gw_policy sha256 authoringTools k) Q).

(** A job program inside the gateway. *)
Lemma of_job_safe {A} (Q : list (obs jobE) -> A -> Prop) (p : prog jobE A) h h0 adm (extra : forall X, jobE X -> Prop) :
  (exists d s a, accepted h0 d k s a adm) -> quiet k h0 h ->
  (forall h' X (e : jobE X), quiet k h0 h' -> extra X e -> job_authorized h' k X e) ->
  safe stable_owner (fun h X e => tenant_request sha256 (Ctx k (JBool adm)) h X e /\ extra X e) Q (jobs_of h) p ->
  gsafe (fun h' a => Q (jobs_of h') a /\ quiet k h0 h') h (of_job p).
Proof.
  intros Hacc Hq Hex. revert h Hq. induction p as [a|X e c IH]; intros h Hq Hp; cbn in *; [done|].
  destruct Hp as [[HP HE] Hc]. split.
  - exists adm. split_and!; [done| |by apply Hex].
    destruct Hacc as (d & s & a & Ha). exists d, s, a. eapply accepted_mono; [apply Hq|done].
  - intros x Hx. apply IH.
    + eapply quiet_trans; [exact Hq|by apply quiet_step].
    + rewrite jobs_of_app. cbn. by apply Hc.
Qed.

(** A schema program inside the gateway. *)
Lemma of_tool_safe {A} (Q : list (obs toolE) -> A -> Prop) (p : prog toolE A) th h0 h :
  quiet k h0 h ->
  safe any_env (fun _ X e => match e with FetchSchema _ k' _ => k' = k | _ => True end) Q th p ->
  gsafe (fun h' a => (exists th', Q th' a) /\ quiet k h0 h') h (of_tool p).
Proof.
  revert th h. induction p as [a|X e c IH]; intros th h Hq Hp; cbn in *; [eauto|].
  destruct Hp as [HP Hc]. split; [by destruct e|].
  intros x _. eapply IH; [|by apply Hc]. eapply quiet_trans; [exact Hq|by apply quiet_step].
Qed.
End embed.

(** ** The sub-programs' own requests *)

Lemma resolveOutputSchema_key k t th :
  safe any_env (fun _ X e => match e with FetchSchema _ k' _ => k' = k | _ => True end)
    (fun _ _ => True) th (resolveOutputSchema k t).
Proof.
  unfold resolveOutputSchema. destruct (schemaPathFor _ _); [|done]. cbn. split; [done|].
  intros [e|d] _; cbn; [done|]. by destruct (is_nullish d).
Qed.

Lemma buildToolList_key k ts th :
  safe any_env (fun _ X e => match e with FetchSchema _ k' _ => k' = k | _ => True end)
    (fun _ _ => True) th (buildToolList k ts).
Proof.
  unfold buildToolList. eapply safe_bind with (Q := fun _ _ => True); [|done].
  revert th. induction ts as [|[n t] ts IH]; intros th; cbn [device_tools]; [done|].
  eapply safe_bind with (Q := fun _ _ => True).
  - unfold resolveSchemas. eapply safe_bind with (Q := fun _ _ => True).
    + unfold resolveOneSchema. destruct (schemaPathFor _ _); [|done]. cbn. split; [done|].
      intros [e|d] _; cbn; [done|]. by destruct (is_nullish d).
    + intros h' a _. eapply safe_bind; [apply resolveOutputSchema_key|done].
  - intros h' a _. eapply safe_bind; [apply IH|done].
Qed.

(** No job is queued by the reads and the removal. *)
Definition no_queue (X : Type) (e : jobE X) : Prop :=
  match e with QAdd _ _ _ | QUpsert _ _ _ => False | _ => True end.

Lemma getJob_no_queue wt ctx id h :
  safe (fun _ _ _ _ => True) (fun _ => no_queue) (fun _ _ => True) h (getJob wt ctx id).
Proof.
  unfold getJob. case_match; [done|]. cbn. split; [done|]. intros [m|[j|]] _; cbn; try done.
  destruct (ownsJob ctx (j_data j)); cbn; [|done]. split; [done|]. intros [m|st] _; cbn; [done|].
  destruct (is_terminal st); cbn; [|done]. split; [done|]. by intros [m|f] _.
Qed.

Lemma removeJob_no_queue sha wt ctx name id rep h :
  safe (fun _ _ _ _ => True) (fun _ => no_queue) (fun _ _ => True) h (removeJob sha wt ctx name id rep).
Proof.
  unfold removeJob. repeat (case_match; [done|]). destruct rep as [| |[]| | | | |]; try done; cbn; (split; [done|]).
  - intros [m|v] _; cbn; [done|]. set (legacy := match ctx with Ctx _ a => _ | _ => _ end).
    destruct (negb (is_true v) && legacy); cbn; [split; [done|]; intros [m|v'] _; cbn; [done|]|];
      by case_match.
  - intros [m|[j|]] _; cbn; try done. destruct (ownsJob ctx (j_data j)); cbn; [|done]. split; [done|].
    by intros [m|] _.
Qed.

Lemma records_no_queue js h :
  safe (fun _ _ _ _ => True) (fun _ => no_queue) (fun _ _ => True) h (records_of js).
Proof.
  revert h. induction js as [|j js IH]; intros h; cbn [records_of]; [done|]. cbn. split; [done|].
  intros st _. eapply safe_bind; [apply IH|done].
Qed.

Lemma listJobs_no_queue wt ctx h :
  safe (fun _ _ _ _ => True) (fun _ => no_queue) (fun _ _ => True) h (listJobs wt ctx).
Proof.
  unfold listJobs. repeat (case_match; [done|]). cbn. split; [done|]. intros [m|jobs] _; cbn; [done|].
  eapply safe_bind; [apply records_no_queue|done].
Qed.

(** addJob queues, at most, a job for the call it was given. *)
Definition queues_for (k d s a : jsval) (X : Type) (e : jobE X) : Prop :=
  match e with
  | QAdd _ data _ => jget "deviceID" data = d /\ jget "serviceID" data = s /\ jget "actionName" data = a
  | QUpsert _ _ _ => False
  | _ => True
  end.

Lemma addJob_queues sha wt k adm name d s a input h :
  safe (fun _ _ _ _ => True) (fun _ => queues_for k d s a) (fun _ _ => True) h
    (addJob sha wt (Ctx k adm) (JObj [("name", name)]) d s a input).
Proof.
  unfold addJob. repeat (case_match; [done|]). cbn. split; [done|]. by intros [m|id] _.
Qed.

(** ** Answers *)

Section answers.
Context (ErrorInfo : string -> option string) (JSON_parse : string -> option jsval)
        (toISOString : jsval -> string) (sha256 deviceIDForName : string -> string)
        (workerThread authoringTools debug : bool) (moduleSandbox SERVER_VERSION : string)
        (mcpToolCallCost : Z) (process_cwd : string) (k : jsval).
(** The tool names the message carries. *)
Context (named : string -> Prop).

Notation policy := (gw_policy sha256 authoringTools k).
Notation gsafe Q := (safe gw_env policy Q).

(** A response to the request with this id: a result, or an error. *)
Definition response_to (id body : jsval) : Prop :=
  (exists v, body = resultResponse id v) \/ (exists c m, body = errorResponse id c m).

(** How a message ends: every success is billed and nothing else is, and the
    end is a response to it, or an exception: the auth provider's own, or the
    one of a tool name every object inherits. *)
Definition ends (id : jsval) (h : list (obs gwE)) (r : gw_result) : Prop :=
  charged h = bill k h /\
  match r with
  | Responded (Some body) => response_to id body
  | Responded None => False
  | GwThrew m => (exists e, Obs (GListDevices k) (Threw e) ∈ h /\ m = e_message e) \/
                 (exists name, named name /\ includes name OBJECT_PROTOTYPE = true)
  end.

(** Nothing charged and nothing to charge yet. *)
Definition fresh (h : list (obs gwE)) : Prop := charged h = [] /\ succeeded k h = [].

Lemma fresh_bill h : fresh h -> charged h = bill k h.
Proof. intros [Hc Hs]. unfold bill. rewrite Hc, Hs. by destruct (is_nullish k). Qed.

Lemma fresh_step h o : fresh h -> charge_obs o = None -> success_obs k o = None -> fresh (h ++ [o]).
Proof.
  intros [Hc Hs] H1 H2. unfold fresh, charged, succeeded in *. rewrite !omap_app. cbn.
  by rewrite H1, H2, Hc, Hs.
Qed.

Lemma fresh_quiet h h' : fresh h -> quiet k h h' -> fresh h'.
Proof. intros [Hc Hs] (_ & H1 & H2). split; congruence. Qed.

Lemma reply_result id h v : fresh h -> gsafe (ends id) h (reply (resultResponse id v)).
Proof. intros H. cbn. split; [by apply fresh_bill|]. left. eauto. Qed.

Lemma reply_error id h c m : fresh h -> gsafe (ends id) h (reply (errorResponse id c m)).
Proof. intros H. cbn. split; [by apply fresh_bill|]. right. eauto. Qed.

(** One request that moves no money, then the rest. *)
Ltac silent := first [done | apply fresh_step; [assumption|done|done]].

Lemma rate_check_safe {A} (Q : list (obs gwE) -> A -> Prop) h c :
  fresh h -> (forall h' b, fresh h' -> h ⊆ h' -> gsafe Q h' (c b)) ->
  gsafe Q h (pbind (rate_check k) c).
Proof.
  intros Hf Hc. unfold rate_check. destruct (is_nullish k); cbn; [by apply Hc|].
  split; [done|]. intros r _. apply Hc; [by apply fresh_step|apply sub_snoc].
Qed.

Lemma identity_safe {A} (Q : list (obs gwE) -> A -> Prop) h c :
  fresh h ->
  (forall h' e, fresh h' -> gsafe Q h' (c (AuthRefused e))) ->
  (forall h' u adm, fresh h' -> accepted h' JNull k JNull JNull adm -> gsafe Q h' (c (AuthOk k u adm))) ->
  gsafe Q h (pbind (resolveCallerIdentity k) c).
Proof.
  intros Hf Hr Ha. cbn. split; [done|]. intros [e|k' u adm] Hx; cbn in Hx; subst.
  - apply Hr. by apply fresh_step.
  - apply Ha; [by apply fresh_step|]. eexists. apply last_in.
Qed.

Lemma gated_safe id h (next : auth_ctx -> prog gwE gw_result) :
  fresh h ->
  (forall h' adm, fresh h' -> accepted h' JNull k JNull JNull adm -> gsafe (ends id) h' (next (Ctx k (JBool adm)))) ->
  gsafe (ends id) h (resolveGatedIdentity ErrorInfo id k next).
Proof.
  intros Hf Hn. unfold resolveGatedIdentity. apply identity_safe; [done| |].
  - intros h' e H. by apply reply_error.
  - intros h' u adm H Hacc. apply rate_check_safe; [done|]. intros h2 [] H2 Hs; [by apply reply_error|].
    apply Hn; [done|]. by eapply accepted_mono.
Qed.

(** A job program that queues nothing, under an accepted identity. *)
Lemma job_safe {A B} (Q : list (obs gwE) -> B -> Prop) (p : prog jobE A) h adm c :
  fresh h -> accepted h JNull k JNull JNull adm ->
  safe stable_owner (tenant_request sha256 (Ctx k (JBool adm))) (fun _ _ => True) (jobs_of h) p ->
  safe (fun _ _ _ _ => True) (fun _ => no_queue) (fun _ _ => True) (jobs_of h) p ->
  (forall h' a, fresh h' -> accepted h' JNull k JNull JNull adm -> gsafe Q h' (c a)) ->
  gsafe Q h (pbind (of_job p) c).
Proof.
  intros Hf Hacc H1 H2 Hc. eapply safe_bind.
  - eapply (of_job_safe sha256 authoringTools k (fun _ _ => True) p h h adm no_queue).
    + by exists JNull, JNull, JNull.
    + apply quiet_refl.
    + intros h' X e _ He. by destruct e.
    + eapply safe_mono; [exact (safe_both _ _ _ _ _ _ _ H1 H2)|done].
  - cbn. intros h' a [_ Hq]. apply Hc; [by eapply fresh_quiet|].
    eapply accepted_mono; [apply Hq|done].
Qed.

Lemma tool_safe {A B} (Q : list (obs gwE) -> B -> Prop) (p : prog toolE A) h c :
  fresh h ->
  safe any_env (fun _ X e => match e with FetchSchema _ k' _ => k' = k | _ => True end) (fun _ _ => True) [] p ->
  (forall h' a, fresh h' -> h ⊆ h' -> gsafe Q h' (c a)) ->
  gsafe Q h (pbind (of_tool p) c).
Proof.
  intros Hf Hp Hc. eapply safe_bind; [apply (of_tool_safe sha256 authoringTools k _ p [] h h (quiet_refl k h) Hp)|].
  cbn. intros h' a [_ Hq]. apply Hc; [by eapply fresh_quiet|apply Hq].
Qed.

Lemma getJob_tenant wt ctx id h :
  safe stable_owner (tenant_request sha256 ctx) (fun _ _ => True) h (getJob wt ctx id).
Proof. eapply safe_mono; [apply getJob_safe|done]. Qed.

(** *** Handler by handler *)

Lemma with_task_id_safe req (next : string -> auth_ctx -> prog gwE gw_result) h :
  fresh h ->
  (forall taskId h' adm, fresh h' -> accepted h' JNull k JNull JNull adm ->
     gsafe (ends (jget "id" req)) h' (next taskId (Ctx k (JBool adm)))) ->
  gsafe (ends (jget "id" req)) h (with_task_id ErrorInfo workerThread req k next).
Proof.
  intros Hf Hn. unfold with_task_id. destruct (jget "taskId" _); try by apply reply_error.
  case_match; [by apply reply_error|]. case_match; [by apply reply_error|].
  apply gated_safe; [done|]. intros. by apply Hn.
Qed.

Lemma handleTasksGet_safe req h :
  fresh h -> gsafe (ends (jget "id" req)) h (handleTasksGet ErrorInfo toISOString workerThread req k).
Proof.
  intros Hf. unfold handleTasksGet. apply with_task_id_safe; [done|]. intros taskId h' adm Hf' Hacc.
  apply (job_safe _ _ h' adm); [done|done|apply getJob_tenant|apply getJob_no_queue|].
  intros h2 r Hf2 _. destruct r; [by apply reply_error|by apply reply_error|by apply reply_result].
Qed.

Lemma handleTasksResult_safe req h :
  fresh h -> gsafe (ends (jget "id" req)) h (handleTasksResult ErrorInfo sha256 workerThread req k).
Proof.
  intros Hf. unfold handleTasksResult. apply with_task_id_safe; [done|]. intros taskId h' adm Hf' Hacc.
  unfold doHandleTasksResult.
  apply (job_safe _ _ h' adm); [done|done|apply getJob_tenant|apply getJob_no_queue|].
  intros h2 r Hf2 _. destruct r as [e|t d|record]; [by apply reply_error|by apply reply_error|].
  case_match; [|case_match; [by apply reply_result|by apply reply_error]].
  cbn [pbind ask safe]. split; [done|]. intros specs _.
  apply tool_safe; [by apply fresh_step| |].
  - unfold resolveOutputSchemaFor. destruct (List.find _ _) as [[n t]|]; [apply resolveOutputSchema_key|done].
  - intros h3 schema Hf3 _. by apply reply_result.
Qed.

Lemma handleTasksList_safe req h :
  fresh h -> gsafe (ends (jget "id" req)) h (handleTasksList ErrorInfo toISOString workerThread req k).
Proof.
  intros Hf. unfold handleTasksList. case_match; [by apply reply_error|].
  apply gated_safe; [done|]. intros h' adm Hf' Hacc.
  apply (job_safe _ _ h' adm); [done|done| |apply listJobs_no_queue|].
  - eapply safe_mono; [apply listJobs_safe|done].
  - intros h2 r Hf2 _. destruct r as [e|t d|v]; [by apply reply_error|by apply reply_error|].
    destruct v; by apply reply_result.
Qed.

Lemma handleTasksCancel_safe req h :
  fresh h -> gsafe (ends (jget "id" req)) h (handleTasksCancel ErrorInfo toISOString sha256 workerThread req k).
Proof.
  intros Hf. unfold handleTasksCancel. apply with_task_id_safe; [done|]. intros taskId h' adm Hf' Hacc.
  apply (job_safe _ _ h' adm); [done|done|apply getJob_tenant|apply getJob_no_queue|].
  intros h2 r Hf2 Hacc2. destruct r as [e|t d|record]; [by apply reply_error|by apply reply_error|].
  apply (job_safe _ _ h2 adm); [done|done| |apply removeJob_no_queue|].
  - eapply safe_mono; [apply removeJob_safe; by left|done].
  - intros h3 r Hf3 _. destruct r; [by apply reply_error|by apply reply_error|by apply reply_result].
Qed.

Lemma handleToolsList_safe req h :
  fresh h -> gsafe (ends (jget "id" req)) h (handleToolsList authoringTools debug req k).
Proof.
  intros Hf. unfold handleToolsList. cbn [pbind ask safe]. split; [done|]. intros specs _.
  set (h1 := h ++ _). assert (Hf1 : fresh h1) by (by apply fresh_step).
  eapply safe_bind with (Q := fun h' shown => fresh h' /\
    forall e, shown = Threw e -> Obs (GListDevices k) (Threw e) ∈ h').
  - destruct debug; [done|]. destruct (is_nullish k); [done|]. cbn. split; [done|].
    intros r _. split; [by apply fresh_step|]. intros e He. destruct r; try done.
    simplify_eq. apply last_in.
  - intros h2 shown [Hf2 Ht]. destruct shown as [m|ts|e].
    + by apply reply_error.
    + apply tool_safe; [done|apply buildToolList_key|]. intros h3 tools Hf3 _.
      destruct (negb authoringTools); [by apply reply_result|].
      apply identity_safe; [done| |].
      * intros. by apply reply_result.
      * intros h4 u [] Hf4 _; by apply reply_result.
    + cbn. split; [by apply fresh_bill|]. left. eauto.
Qed.

Lemma check_balance_safe id h :
  fresh h -> gsafe (ends id) h (check_balance ErrorInfo id k).
Proof.
  intros Hf. unfold check_balance. apply identity_safe; [done| |].
  - intros. by apply reply_result.
  - intros h' u adm Hf' Hacc. apply rate_check_safe; [done|]. intros h2 [] Hf2 Hs; [by apply reply_result|].
    cbn [pbind ask safe]. split; [split; [done|]; exists adm; by eapply accepted_mono|].
    intros [e|v] _; apply reply_result; by apply fresh_step.
Qed.

Lemma createTask_safe req name d s a input h :
  fresh h ->
  gsafe (ends (jget "id" req)) h
    (createTaskForToolCall ErrorInfo sha256 workerThread req name d s a input k).
Proof.
  intros Hf. unfold createTaskForToolCall. case_match; [by apply reply_error|].
  cbn [pbind ask safe]. split; [done|]. intros [e|k' u adm] Hx; cbn in Hx; subst.
  { apply reply_error. by apply fresh_step. }
  set (h1 := h ++ _). assert (Hf1 : fresh h1) by (by apply fresh_step).
  assert (Hacc : accepted h1 d k s a adm) by (apply accepted_new).
  apply rate_check_safe; [done|]. intros h2 [] Hf2 Hs; [by apply reply_result|].
  unfold doCreateTaskForToolCall. eapply safe_bind.
  - eapply (of_job_safe sha256 authoringTools k (fun _ _ => True) _ h2 h2 adm (queues_for k d s a)).
    + exists d, s, a. by eapply accepted_mono.
    + apply quiet_refl.
    + intros h' X e Hq He. destruct e; try done. cbn in He |- *. destruct He as (-> & -> & ->).
      exists adm. eapply accepted_mono; [|exact Hacc]. etransitivity; [exact Hs|apply Hq].
    + eapply safe_mono; [exact (safe_both _ _ _ _ _ _ _ (addJob_safe _ _ _ _ _ _ _ _ _)
                                  (addJob_queues _ _ _ _ _ _ _ _ _ _))|done].
  - cbn beta. intros h3 r [_ Hq]. assert (Hf3 : fresh h3) by (by eapply fresh_quiet).
    destruct r as [e|t v|v]; [by apply reply_error|by apply reply_error|].
    cbn [pbind ask safe]. split; [done|]. intros now _. apply reply_result. by apply fresh_step.
Qed.

Lemma call_device_tool_safe id t input h :
  fresh h -> gsafe (ends id) h (call_device_tool ErrorInfo mcpToolCallCost id t input k).
Proof.
  intros Hf. unfold call_device_tool. cbn [pbind ask safe]. split; [done|].
  intros [e|k' u adm] Hx; cbn in Hx; subst.
  { apply reply_error. by apply fresh_step. }
  set (h1 := h ++ _). assert (Hf1 : fresh h1) by (by apply fresh_step).
  assert (Hacc : accepted h1 (JStr (t_deviceID t)) k (JStr (t_serviceID t)) (t_actionName t) adm) by (apply accepted_new).
  apply tool_safe; [done|apply resolveOutputSchema_key|]. intros h2 schema Hf2 Hs.
  cbn [pbind ask safe]. split; [exists adm; by eapply accepted_mono|].
  intros [e|data] _; [apply reply_result; by apply fresh_step|].
  set (tool := encodeLegacyTool _ _ _). set (h3 := h2 ++ _).
  assert (Hc3 : charged h3 = []) by (unfold h3; rewrite charged_app; by rewrite (proj1 Hf2)).
  assert (Hs3 : succeeded k h3 = [(k, tool)]) by (unfold h3; rewrite succeeded_app; by rewrite (proj2 Hf2)).
  destruct (is_nullish k) eqn:En; cbn [pbind ask safe reply].
  - split; [|left; eauto]. unfold bill. by rewrite En.
  - split; [done|]. intros [] _. split; [|left; eauto]. unfold bill. rewrite En, charged_app, succeeded_app, Hc3, Hs3.
    done.
Qed.

Lemma call_inherited_safe req name input h :
  named name -> includes name OBJECT_PROTOTYPE = true -> fresh h -> gsafe (ends (jget "id" req)) h (call_inherited ErrorInfo sha256 workerThread req name input k).
Proof.
  intros Hn Hi Hf. unfold call_inherited. case_match; [by apply createTask_safe|].
  cbn [pbind ask safe]. split; [done|]. intros [e|k' u adm] Hx; cbn in Hx; subst.
  - apply reply_error. by apply fresh_step.
  - cbn. split; [|by eauto]. apply fresh_bill. by apply fresh_step.
Qed.

Lemma call_tool_safe req name input h :
  named name -> fresh h -> gsafe (ends (jget "id" req)) h (call_tool ErrorInfo sha256 workerThread mcpToolCallCost req name input k).
Proof.
  intros Hn Hf. unfold call_tool. case_match; [by apply check_balance_safe|].
  unfold dispatch_tool. cbn [pbind ask safe]. split; [done|]. intros specs _.
  set (h1 := h ++ _). assert (Hf1 : fresh h1) by (by apply fresh_step).
  destruct (target_at _ _) eqn:Et.
  - case_match; [by apply createTask_safe|by apply call_device_tool_safe].
  - apply call_inherited_safe; [done| |done]. unfold target_at in Et.
    destruct (assoc _ _); [done|]. by destruct (includes name OBJECT_PROTOTYPE).
  - by apply reply_error.
Qed.

(** The answer to an inner call is the outer call's. *)
Lemma wrap_inner_ends id h r : ends id h r -> ends id h (wrap_inner ErrorInfo id r).
Proof.
  intros [Hb Hr]. split; [done|]. destruct r as [[body|]|m]; cbn; [|done|done].
  destruct (is_nullish (jget "error" body)); [done|]. left. eauto.
Qed.

Lemma waitForModuleTools_safe instance polls h :
  authoringTools = true -> fresh h -> accepted h JNull k JNull JNull true ->
  gsafe (fun h' _ => fresh h') h (waitForModuleTools instance polls).
Proof.
  intros Ha. revert h. induction polls as [|n IH]; intros h Hf Hacc; cbn; (split; [done|]); intros ids _.
  - assert (fresh (h ++ [Obs (GModuleDevices instance) ids])) by (by apply fresh_step).
    destruct ids; cbn; (split; [done|]); intros specs _; by apply fresh_step.
  - assert (fresh (h ++ [Obs (GModuleDevices instance) ids])) by (by apply fresh_step).
    destruct ids; cbn.
    + apply IH; [done|]. eapply accepted_mono; [apply sub_snoc|done].
    + split; [done|]. intros specs _. by apply fresh_step.
Qed.

Lemma run_authoring_safe req name input h :
  (forall inner, jget "name" input = JStr inner -> named inner) ->
  authoringTools = true -> fresh h -> accepted h JNull k JNull JNull true ->
  gsafe (ends (jget "id" req)) h
    (run_authoring ErrorInfo JSON_parse sha256 deviceIDForName workerThread moduleSandbox mcpToolCallCost process_cwd req name input k).
Proof.
  intros Hn Ha Hf Hacc. unfold run_authoring.
  case_match; [|case_match; [|case_match; [|case_match]]].
  - cbn [pbind ask safe]. split; [done|]. intros specs _. apply reply_result. by apply fresh_step.
  - destruct (jget "path" input) as [| | | | |path| |]; try by apply reply_result.
    case_match; [by apply reply_result|].
    eapply safe_bind with (Q := fun h' _ => fresh h').
    + case_match.
      * cbn. split; [done|]. intros r _. by apply fresh_step.
      * unfold validateModuleInChildProcess. cbn. split; [done|]. intros r _. by apply fresh_step.
    + intros h' [e|v] Hf'; by apply reply_result.
  - unfold load_module. destruct (jget "path" input) as [| | | | |path| |]; try by apply reply_result.
    destruct (jget "name" input) as [| | | | |nm| |]; try by apply reply_result.
    cbn [pbind ask safe]. split; [done|]. intros r _.
    set (h1 := h ++ _). assert (Hf1 : fresh h1) by (by apply fresh_step).
    destruct r as [|e|instance]; [by apply reply_result|by apply reply_result|].
    eapply safe_bind; [apply waitForModuleTools_safe; [done|done|]|].
    + eapply accepted_mono; [apply sub_snoc|done].
    + intros h' d Hf'. by apply reply_result.
  - destruct (jget "name" input) as [| | | | |inner| |]; try by apply reply_result.
    case_match; [by apply reply_result|]. case_match; [by apply reply_result|].
    eapply safe_bind; [apply call_tool_safe; [by apply Hn|done]|]. intros h' r Hr. cbn [safe].
    apply wrap_inner_ends. by cbn in Hr.
  - by apply reply_result.
Qed.

(** The tool names a tools/call message carries: its own, and the one it asks
    countinghouse_call_tool to call. *)
Definition names_in (req : jsval) (name : string) : Prop :=
  jget "name" (or_empty (jget "params" req)) = JStr name \/
  jget "name" (or_empty (jget "arguments" (or_empty (jget "params" req)))) = JStr name.

Lemma handleToolsCall_safe req h :
  (forall name, names_in req name -> named name) -> fresh h ->
  gsafe (ends (jget "id" req)) h
    (handleToolsCall ErrorInfo JSON_parse sha256 deviceIDForName workerThread authoringTools moduleSandbox mcpToolCallCost process_cwd req k).
Proof.
  intros Hn Hf. unfold handleToolsCall.
  destruct (jget "name" _) as [| | | | |name| |] eqn:En; try by apply reply_error.
  case_match; [by apply reply_error|].
  destruct (includes name AUTHORING_TOOL_NAMES && authoringTools) eqn:Ea;
    [|apply call_tool_safe; [apply Hn; by left|done]].
  apply andb_true_iff in Ea as [_ Ea].
  unfold dispatchAuthoringTool. apply identity_safe; [done| |].
  - intros. by apply reply_error.
  - intros h' u [] Hf' Hacc; cbn [negb]; [|by apply reply_result]. apply run_authoring_safe; [|done..].
    intros inner Hi. apply Hn. by right.
Qed.
End answers.

(** A notification gets no body; anything else an answer to its id. *)
Definition is_notification (req : jsval) : bool :=
  negb (invalid_request req) && strict_eq (jget "method" req) (JStr "notifications/initialized").
Definition answer_id (req : jsval) : jsval :=
  if invalid_request req then if truthy req then jget "id" req else req else jget "id" req.

(** How a message may end. *)
Definition handled (k req : jsval) (h : list (obs gwE)) (r : gw_result) : Prop :=
  if is_notification req then h = [] /\ r = Responded None
  else ends k (names_in req) (answer_id req) h r.

Section handling.
Context (ErrorInfo : string -> option string) (JSON_parse : string -> option jsval)
        (toISOString : jsval -> string) (sha256 deviceIDForName : string -> string)
        (workerThread authoringTools debug : bool) (moduleSandbox SERVER_VERSION : string)
        (mcpToolCallCost : Z) (process_cwd : string).

Notation handle' := (handle ErrorInfo JSON_parse toISOString sha256 deviceIDForName workerThread authoringTools debug
  moduleSandbox SERVER_VERSION mcpToolCallCost process_cwd).

Lemma handle_safe req k :
  safe gw_env (gw_policy sha256 authoringTools k) (handled k req) [] (handle' req k).
Proof.
  assert (Hf : fresh k []) by done.
  unfold handle, handled, is_notification, answer_id. destruct (invalid_request req) eqn:Ei; [by apply reply_error|].
  destruct (jget "method" req) as [| | | | |method| |] eqn:Em;
    try (by unfold invalid_request in Ei; rewrite Em, orb_true_r in Ei).
  cbn [negb andb strict_eq]. destruct (String.eqb method "notifications/initialized"); [done|].
  case_match; [by apply reply_result|].
  case_match; [by apply reply_result|].
  case_match; [by apply handleToolsList_safe|].
  case_match; [by apply handleToolsCall_safe|].
  case_match; [by apply handleTasksGet_safe|].
  case_match; [by apply handleTasksResult_safe|].
  case_match; [by apply handleTasksList_safe|].
  case_match; [by apply handleTasksCancel_safe|by apply reply_error].
Qed.

(** *** The promises *)

(** C1: everything a message makes the server do is done for the key that
    came with it, and only after that key was accepted for it: authentication,
    rate limits and listings use that key; a device's action is invoked only
    once the key was accepted for that device, service and action; a charge is
    to that key and for an invocation that succeeded; every job it reads,
    cancels or lists is read as that key's tenant, and a job it queues is for
    a call the key was accepted for; and the authoring tools run only when
    enabled and for a key accepted as an admin's. *)
Theorem gateway_acts_for_caller req k tr r :
  run (handle' req k) tr r -> allowed gw_env [] tr ->
  requests_ok (gw_policy sha256 authoringTools k) tr.
Proof. intros Hr Ha. eapply safe_requests; [apply handle_safe|exact Hr|exact Ha]. Qed.


(** Messages of a batch are handled in the order given, one after the other;
    the responses come back in that order, the notifications' left out. *)
Inductive handled_all (k : jsval) : list jsval -> list (obs gwE) -> list jsval -> Prop :=
| all_nil : handled_all k [] [] []
| all_cons m ms tr trs b bs :
    run (handle' m k) tr (Responded b) -> handled_all k ms trs bs ->
    handled_all k (m :: ms) (tr ++ trs) (match b with Some v => v :: bs | None => bs end).

Notation handle_all' := (handle_all ErrorInfo JSON_parse toISOString sha256 deviceIDForName workerThread authoringTools debug
  moduleSandbox SERVER_VERSION mcpToolCallCost process_cwd).
Notation mcp_post' := (mcp_post ErrorInfo JSON_parse toISOString sha256 deviceIDForName workerThread authoringTools debug
  moduleSandbox SERVER_VERSION mcpToolCallCost process_cwd).

Lemma handle_all_in_order k ms tr bs : run (handle_all' ms k) tr (inr bs) -> handled_all k ms tr bs.
Proof.
  revert tr bs. induction ms as [|m ms IH]; intros tr bs H; cbn in H.
  { apply run_ret_inv in H as [-> [= <-]]. constructor. }
  apply run_bind in H as (tr1 & a & tr2 & -> & H1 & H2).
  destruct a as [b|e]; [|by apply run_ret_inv in H2 as [_ [=]]].
  apply run_bind in H2 as (tr3 & o & tr4 & -> & H3 & H4). apply run_ret_inv in H4 as [-> H4].
  rewrite app_nil_r. destruct o as [e|bs']; [done|]. injection H4 as <-. constructor; [done|]. by apply IH.
Qed.

(** POST /mcp answers 400 to a body that is no object or array; to
    anything else it handles the message, or the batch's messages one after
    the other in their order, and answers 202 with no body when there was
    nothing but notifications, else 200 with the one response, or with the
    batch's responses in the order of its messages. *)
Theorem mcp_post_batches body header tr status out :
  run (mcp_post' body header) tr (Http status out) ->
  let messages := match body with JArr ms => ms | _ => [body] end in
  if is_nullish body || negb (is_object body) then tr = [] /\ status = 400%Z
  else exists bs, handled_all (or_null header) messages tr bs /\
       match bs with
       | [] => status = 202%Z /\ out = None
       | b :: _ => status = 200%Z /\ out = Some (if is_array body then JArr bs else b)
       end.
Proof.
  cbn zeta. unfold mcp_post. destruct (is_nullish body || negb (is_object body)).
  { intros H. by apply run_ret_inv in H as [-> [= <- <-]]. }
  intros H. apply run_bind in H as (tr1 & a & tr2 & -> & H1 & H2). apply run_ret_inv in H2 as [-> H2].
  rewrite app_nil_r. destruct a as [e|bs]; [done|]. exists bs. split; [by apply handle_all_in_order|].
  destruct bs; by simplify_eq.
Qed.

Definition unknown_tool (req : jsval) (name : string) : gw_result :=
  Responded (Some (errorResponse (jget "id" req) JSONRPC_INVALID_PARAMS ("unknown tool: " +:+ name))).

(** With the authoring tools switched off, or for a key that is not
    accepted at all, calling one of them is answered as an unknown tool's
    call is, and nothing but the device list and the key is ever looked at. *)
Theorem authoring_tools_hidden req k name tr r :
  jget "name" (or_empty (jget "params" req)) = JStr name -> name ∈ AUTHORING_TOOL_NAMES ->
  run (handleToolsCall ErrorInfo JSON_parse sha256 deviceIDForName workerThread authoringTools moduleSandbox
         mcpToolCallCost process_cwd req k) tr r ->
  (authoringTools = false -> r = unknown_tool req name /\ exists specs, tr = [Obs GSpecs specs]) /\
  (forall e tr', authoringTools = true -> tr = Obs (GAuth JNull k JNull JNull) (AuthRefused e) :: tr' ->
     r = unknown_tool req name /\ tr' = []).
Proof.
  intros Hn Hin H. unfold unknown_tool. unfold handleToolsCall in H. rewrite Hn in H.
  assert (Hi : includes name AUTHORING_TOOL_NAMES = true) by (by apply includes_spec).
  destruct (String.eqb_spec name "") as [->|_]; [by vm_compute in Hi|].
  rewrite Hi in H. split.
  - intros ->. cbn [andb] in H. unfold call_tool in H.
    destruct (String.eqb_spec name "countinghouse_check_balance") as [->|_]; [by vm_compute in Hi|].
    unfold dispatch_tool in H. apply run_bind in H as (tr1 & specs & tr2 & -> & H1 & H2).
    apply run_vis_inv in H1 as (x & tr1' & -> & H1). apply run_ret_inv in H1 as [-> ->].
    destruct (name_targets_spec reserved_names (wanted specs)) as (_ & Hout & _).
    unfold target_at in H2. destruct (assoc name (buildToolTargets specs)) as [t|] eqn:Et.
    + exfalso. apply assoc_elem in Et. eapply (Hout name).
      * apply list_elem_of_fmap. by exists (name, t).
      * apply elem_of_app. by right.
    + replace (includes name OBJECT_PROTOTYPE) with false in H2.
      * apply run_ret_inv in H2 as [-> <-]. split; [done|]. by exists specs.
      * clear -Hin. repeat (apply elem_of_cons in Hin as [->|Hin]; [done|]). by apply elem_of_nil in Hin.
  - intros e tr' -> ->. cbn [andb] in H. unfold dispatchAuthoringTool in H. cbn in H.
    apply run_vis_inv in H as (x & tr1 & E & H).
    pose proof (f_equal (fun l => hd None (map auth_obs l)) E) as Ex. pose proof (f_equal (@tail _) E) as Et.
    cbn in Ex, Et. injection Ex as <-. subst tr1. apply run_ret_inv in H as [-> <-]. done.
Qed.
End handling.

Lemma span_code_app c m : Forall (fun a => code_char a = true) (list_ascii_of_string c) ->
  span_code (c +:+ ": " +:+ m) = (c, ": " +:+ m).
Proof.
  induction c as [|a c IH]; intros H; [done|]. inversion H as [|? ? Ha Hc]; simplify_eq.
  change (String a c +:+ ": " +:+ m) with (String a (c +:+ ": " +:+ m)). cbn [span_code].
  by rewrite Ha, (IH Hc).
Qed.

(** A code as the runtime writes them: upper-case letters, digits and
    underscores, a letter first. *)
Definition code_word (code : string) : Prop :=
  (exists c rest, code = String c rest /\ is_upper c = true) /\
  Forall (fun a => code_char a = true) (list_ascii_of_string code).

(** The code of a failed job survives its way through the queue as text:
    what JobControl writes as the failure's reason for a code of upper-case
    letters, digits and underscores (every code of the runtime is one) is read
    back by tasks/result as that code and that message. *)
Theorem failure_code_roundtrip code message :
  code_word code ->
  failure_error (failMessage (JStr code) message) = mkCh KError (JStr code) [JStr message] /\
  Forall code_word RUNTIME_CODES.
Proof.
  intros [(c & rest & -> & Hu) Hc]. split.
  - unfold failure_error, decode_failure, failMessage. cbn [is_nullish js_text].
    change (String c rest +:+ ": " +:+ message) with (String c (rest +:+ ": " +:+ message)).
    change (is_upper c = true) in Hu. cbv beta iota. rewrite Hu. cbn [negb].
    change (String c (rest +:+ ": " +:+ message)) with (String c rest +:+ ": " +:+ message).
    by rewrite span_code_app.
  - unfold RUNTIME_CODES. repeat (constructor; [split; [eexists _, _; by split|cbn; by repeat constructor]|]). constructor.
Qed.

Lemma failure_code_roundtrip_witness :
  failure_error (failMessage (JStr "RESULT_TOO_LARGE") "too big: 9") = mkCh KError (JStr "RESULT_TOO_LARGE") [JStr "too big: 9"].
Proof.
  refine (proj1 (failure_code_roundtrip "RESULT_TOO_LARGE" "too big: 9" _)). split.
  - exists "R"%char, "ESULT_TOO_LARGE". by split.
  - cbn. repeat (constructor; [reflexivity|]). constructor.
Defined.

(** ** A concrete message *)

Definition demo_specs : list (string * jsval) :=
  [("dev-1", JObj [("device", JObj [("friendlyName", JStr "Repo"); ("serviceList", JObj
     [("urn:x:scanService", JObj [("actionList", JArr [JObj [("name", JStr "scan"); ("description", JStr "scans")]])])])])])].

Definition demo_req : jsval :=
  JObj [("jsonrpc", JStr "2.0"); ("id", JNum 7); ("method", JStr "tools/call");
        ("params", JObj [("name", JStr "repo_scanservice_scan")])].

(** A quiet queue, one device, and a key accepted for anything. *)
Definition demo_job (X : Type) (e : jobE X) : X :=
  match e in jobE X return X with
  | QGetJob _ => inr None | QGetState _ => inr JUndef | QAdd _ _ _ => inr (JStr "1") | QUpsert _ _ _ => inr JUndef
  | QRemove _ => inr tt | QRemoveScheduler _ => inr JUndef | QGetJobs _ _ _ => inr [] | QUpdateProgress _ _ => tt
  | QUpdateData _ => inr tt | LRange _ => inr None | LPush _ _ => tt | LTrim _ _ _ => tt
  | Invoke _ _ _ _ _ => mkReply None JUndef false | ChargeCall _ _ _ => tt | Hook _ => inr JUndef
  end.
Definition demo_oracle (X : Type) (n : nat) (e : gwE X) : X :=
  match e in gwE X return X with
  | GAuth _ k _ _ => AuthOk k (JStr "ann") false | GRate _ => RateError | GBalance _ => inr JUndef
  | GListDevices _ => Answered [] | GSpecs => demo_specs | GInvoke _ _ _ _ => inr (JObj [("output", JStr "found")])
  | GCharge _ _ _ => tt | GNow => "" | GValidateSandboxed _ _ => inr JUndef | GExec _ _ => mkExecReply None "" ""
  | GLoadModule _ _ _ => LoadTimeout | GModuleDevices _ => []
  | GTool e => match e in toolE X return X with FetchSchema _ _ _ => inr JUndef | LogSchemaDowngrade _ _ _ _ => tt end
  | GJob e => demo_job _ e
  end.

(** A computed run is a run. *)
Lemma eval_is {A} (p : prog gwE A) a tr : eval demo_oracle 0 p = (a, tr) -> run p tr a.
Proof. intros H. pose proof (eval_run demo_oracle 0 p) as R. by rewrite H in R. Qed.

Definition demo_tr : list (obs gwE) :=
  [Obs GSpecs demo_specs;
   Obs (GAuth (JStr "dev-1") (JStr "k") (JStr "urn:x:scanService") (JStr "scan")) (AuthOk (JStr "k") (JStr "ann") false);
   Obs (GInvoke "dev-1" "urn:x:scanService" (JStr "scan") (JObj [])) (inr (JObj [("output", JStr "found")]));
   Obs (GCharge (JStr "k") "dev-1:::urn:x:scanService:::scan" 2) tt].

Definition demo_body : jsval :=
  resultResponse (JNum 7) (JObj [("isError", JBool false); ("content", text_content (JStr "found"))]).

Notation demo_handle req := (handle (fun _ => None) (fun _ => None) js_text (fun s => s) (fun s => s)
  true false false "off" "1" 2 "/" req (JStr "k")).

Lemma demo_run : run (demo_handle demo_req) demo_tr (Responded (Some demo_body)).
Proof. apply eval_is. by vm_compute. Qed.

Lemma demo_allowed : allowed gw_env [] demo_tr.
Proof. by cbn. Qed.

Lemma gateway_acts_for_caller_witness :
  requests_ok (gw_policy (fun s => s) false (JStr "k")) demo_tr.
Proof. exact (gateway_acts_for_caller _ _ _ _ _ _ _ _ _ _ _ _ demo_req (JStr "k") demo_tr _ demo_run demo_allowed). Defined.


Lemma mcp_post_batches_witness :
  let ping n := JObj [("jsonrpc", JStr "2.0"); ("id", JNum n); ("method", JStr "ping")] in
  exists bs, Some (JArr bs) = Some (JArr [resultResponse (JNum 1) (JObj []); resultResponse (JNum 2) (JObj [])]) /\
    bs <> [].
Proof.
  cbn zeta.
  assert (H : run (mcp_post (fun _ => None) (fun _ => None) js_text (fun s => s) (fun s => s) true false false "off" "1" 2 "/"
    (JArr [JObj [("jsonrpc", JStr "2.0"); ("id", JNum 1); ("method", JStr "ping")];
           JObj [("jsonrpc", JStr "2.0"); ("id", JNum 2); ("method", JStr "ping")]]) (JStr "k")) []
    (Http 200 (Some (JArr [resultResponse (JNum 1) (JObj []); resultResponse (JNum 2) (JObj [])]))))
    by (apply eval_is; by vm_compute).
  destruct (mcp_post_batches _ _ _ _ _ _ _ _ _ _ _ _ _ _ _ _ _ H) as (bs & _ & Hb).
  exists bs. destruct bs; [by destruct Hb as [[=] _]|]. destruct Hb as [_ Hb]. split; [symmetry; exact Hb|done].
Defined.

Lemma authoring_tools_hidden_witness :
  exists specs, [Obs GSpecs demo_specs] = [Obs GSpecs specs].
Proof.
  set (req := JObj [("id", JNum 3); ("params", JObj [("name", JStr "countinghouse_load_module")])]).
  assert (H : run (handleToolsCall (fun _ => None) (fun _ => None) (fun s => s) (fun s => s) true false "off" 2 "/" req (JStr "k"))
    [Obs GSpecs demo_specs]
    (Responded (Some (errorResponse (JNum 3) JSONRPC_INVALID_PARAMS "unknown tool: countinghouse_load_module"))))
    by (apply eval_is; by vm_compute).
  refine (proj2 (proj1 (authoring_tools_hidden _ _ _ _ _ _ _ _ _ req (JStr "k") "countinghouse_load_module" _ _ eq_refl _ H) eq_refl)).
  apply (bool_decide_unpack _). by vm_compute.
Defined.
