(* ===== verification/Host.v ===== *)
(** * What the file broker asks of its host (lib/fs-broker/broker.js)

    The requests of a brokered operation: Node's asynchronous file functions,
    the clock, and the broker's own shared state (lock, scheduler slot,
    descriptor table, real-path cache, quota, reports), each one atomic step
    of the main thread. Between two requests other operations run. *)
From Stdlib Require Import ZArith Lia Ascii String.
From stdpp Require Import prelude strings gmap.
From S2P Require Import Prelude Paths Namespace FsErrors Quota Json Prog.

Set Default Proof Using "Type".
Local Open Scope Z_scope.

(** ** Values *)

(** What a [Stats] or [Dirent] says the object is. *)
Inductive kind := KFile | KDir | KLink | KOther.

#[export] Instance kind_eq_dec : EqDecision kind.
Proof. solve_decision. Defined.

(** A [Stats]: what it is, and its numbers. *)
Record stat := mkStat { st_kind : kind; st_all : jsval }.

Definition num_field (k : string) (v : jsval) : Z := match jget k v with JNum z => z | _ => 0 end.
Definition st_dev (s : stat) : Z := num_field "dev" (st_all s).
Definition st_ino (s : stat) : Z := num_field "ino" (st_all s).
Definition st_nlink (s : stat) : Z := num_field "nlink" (st_all s).
Definition st_size (s : stat) : Z := num_field "size" (st_all s).
Definition st_mode (s : stat) : Z := num_field "mode" (st_all s).
Definition isFile (s : stat) : bool := bool_decide (st_kind s = KFile).
Definition isDirectory (s : stat) : bool := bool_decide (st_kind s = KDir).
Definition isSymbolicLink (s : stat) : bool := bool_decide (st_kind s = KLink).

Record dirent := mkDirent { de_name : string; de_kind : kind }.

(** A numeric argument as the worker sent it: [undefined], [null], an integer,
    the number NaN, or a value that is no number and whose [Number()] is
    given. *)
Inductive narg := NUndef | NNull | NInt (z : Z) | NNaN | NOther (number : num).

(** [a == null], [Number(a)] and [Number(a || 0)]. *)
Definition absent (a : narg) : bool := match a with NUndef | NNull => true | _ => false end.
Definition js_num (a : narg) : num :=
  match a with NUndef | NNaN => NaN | NNull => Fin 0 | NInt z => Fin z | NOther n => n end.
Definition js_num_or0 (a : narg) : num :=
  match a with NInt z => Fin z | NOther n => n | _ => Fin 0 end.

(** An open descriptor's entry; [e_handle] is the open file and the entry's
    identity, its position lives in the broker's state. *)
Record fd_entry := mkEntry {
  e_handle : Z;
  e_fdvirtual : string;
  e_placed : placed;
  e_append : bool;
  e_counts : bool
}.

(** ** Requests *)

Inductive brE : Type -> Type :=
(* fs/promises *)
| HRealpath (p : string) : brE (result string)
| HLstat (p : string) (bigint : bool) : brE (result stat)
| HStat (p : string) (bigint : bool) : brE (result stat)
| HReadlink (p : string) : brE (result string)
| HAccess (p : string) (mode : jsval) : brE (result unit)
| HReaddir (p : string) : brE (result (list dirent))
| HStatfs (p : string) : brE (result jsval)
| HMkdir (p : string) (opts : jsval) : brE (result (option string))
| HMkdtemp (prefix : string) : brE (result string)
| HRmdir (p : string) : brE (result unit)
| HRm (p : string) (opts : jsval) : brE (result unit)
| HUnlink (p : string) : brE (result unit)
| HRename (from to : string) : brE (result unit)
| HLink (from to : string) : brE (result unit)
| HSymlink (target at_ : string) (type_ : jsval) : brE (result unit)
| HChmod (p : string) (mode : num) : brE (result unit)
| HChown (p : string) (uid gid : jsval) : brE (result unit)
| HLchown (p : string) (uid gid : jsval) : brE (result unit)
| HUtimes (p : string) (atime mtime : jsval) : brE (result unit)
| HLutimes (p : string) (atime mtime : jsval) : brE (result unit)
| HTruncate (p : string) (len : narg) : brE (result unit)
| HOpen (p : string) (flags : Z) (mode : jsval) : brE (result Z)
(* an open FileHandle *)
| FStat (fh : Z) (bigint : bool) : brE (result stat)
| FRead (fh length : Z) (position : narg) : brE (result string)
| FWrite (fh : Z) (data : string) (position : narg) : brE (result Z)
| FTruncate (fh : Z) (len : narg) : brE (result unit)
| FSync (fh : Z) (data_only : bool) : brE (result unit)
| FChmod (fh : Z) (mode : num) : brE (result unit)
| FChown (fh : Z) (uid gid : jsval) : brE (result unit)
| FUtimes (fh : Z) (atime mtime : jsval) : brE (result unit)
| FClose (fh : Z) : brE (result unit)
(* the broker's own state *)
| BBegin : brE unit
| BEnd : brE unit
| BClosed : brE bool
| BAcquire (exclusive : bool) : brE unit
| BRelease (exclusive : bool) : brE unit
| BSlot : brE unit
| BSlotDone : brE unit
| BReport (rule target : string) : brE unit
| BNow : brE Z
| BCacheGet (dir : string) : brE (option (string * Z))
| BCacheSet (dir real : string) (at_ : Z) : brE unit
| BCacheClear : brE unit
| BReserve (bytes entries : num) (syscall virtual : string) : brE (result unit)
| BSettle (reservedBytes reservedEntries actualBytes actualEntries : num) : brE unit
| BFdCount : brE Z
| BFdAdd (e : fd_entry) : brE Z
| BFdGet (fd : Z) : brE (option fd_entry)
| BFdDelete (fd : Z) : brE unit
| BPos (fh : Z) : brE num
| BSetPos (fh : Z) (pos : num) : brE unit
| BTurn (fh : Z) : brE unit
| BTurnDone (fh : Z) : brE unit.

(** ** Rejections: an operation is a [prog] that ends in a value or an error *)

Definition eprog (A : Type) : Type := prog brE (result A).

Definition ebind {A B} (m : eprog A) (k : A -> eprog B) : eprog B :=
  pbind m (fun r => match r with Ok a => k a | Throw e => Ret (Throw e) end).

Definition ok {A} (a : A) : eprog A := Ret (Ok a).
Definition throw {A} (e : jserr) : eprog A := Ret (Throw e).

(** [p.catch(() => null)] *)
Definition or_null_of {A} (m : eprog A) : prog brE (option A) :=
  pbind m (fun r => Ret match r with Ok a => Some a | Throw _ => None end).

(** [try { ... } finally { last }], for a [last] that does not throw. *)
Definition finally {A} (m : eprog A) (last : prog brE unit) : eprog A :=
  pbind m (fun r => pbind last (fun _ => Ret r)).

Notation "'try' x '<-' m 'in' k" := (ebind m (fun x => k))
  (at level 200, x name, m at level 100, k at level 200) : js_scope.

(** A loop: [body] from a state gives the next state or the loop's end;
    [2^levels] iterations at most. *)
Fixpoint loopn {S A} (levels : nat) (body : S -> eprog (S + A)) (s : S) : eprog (S + A) :=
  match levels with
  | O => body s
  | S n => ebind (loopn n body s) (fun r => match r with
                                            | inl s' => loopn n body s'
                                            | inr a => ok (inr a)
                                            end)
  end.

(** Enough iterations that a loop over bytes of a file, directory entries or
    paths of a tree has ended: a file's offset has 63 bits. *)
Definition many : nat := 63.

Definition looped {S A} (s : S + A) : eprog A :=
  match s with inr a => ok a | inl _ => throw (plain_error "loop") end.

Definition loop {S A} (body : S -> eprog (S + A)) (s : S) : eprog A := ebind (loopn many body s) looped.

(** A loop whose states have a measure below [2^63] that goes down with each
    iteration ends, and ends with a value. *)
Section total.
Context (env : list (obs brE) -> forall X, brE X -> X -> Prop).
Context (P : list (obs brE) -> forall X, brE X -> Prop).

(** [p] does not reject, and its value satisfies [Q]. *)
Definition fulfils {A} (Q : A -> Prop) (h : list (obs brE)) (p : eprog A) : Prop :=
  safe env P (fun _ r => exists a, r = Ok a /\ Q a) h p.

Lemma fulfils_bind {A B} (Q : A -> Prop) (R : B -> Prop) h (m : eprog A) k :
  fulfils Q h m -> (forall h' a, Q a -> fulfils R h' (k a)) -> fulfils R h (ebind m k).
Proof.
  intros Hm Hk. eapply safe_bind; [exact Hm|]. cbn. intros h' r (a & -> & HQ). by apply Hk.
Qed.

Lemma fulfils_mono {A} (Q Q' : A -> Prop) h (m : eprog A) :
  fulfils Q h m -> (forall a, Q a -> Q' a) -> fulfils Q' h m.
Proof. intros Hm HQ. eapply safe_mono; [exact Hm|]. cbn. intros h' r (a & -> & H). eauto. Qed.

Lemma fulfils_ok {A} (Q : A -> Prop) h a : Q a -> fulfils Q h (ok a).
Proof. intros H. by exists a. Qed.

Lemma fulfils_ask {X} (Q : X -> Prop) h (e : brE (result X)) :
  P h _ e -> (forall x, env h _ e x -> exists a, x = Ok a /\ Q a) -> fulfils Q h (ask e).
Proof. intros He Hx. split; [done|]. exact Hx. Qed.

Lemma loopn_total {S A} (I : Z -> S -> Prop) (Q : A -> Prop) body n :
  (forall h k s, I k s -> fulfils (fun r => match r with inl s' => exists k', I k' s' /\ k' < k | inr a => Q a end) h (body s)) ->
  forall h k s, I k s ->
    fulfils (fun r => match r with inl s' => exists k', I k' s' /\ k' + 2 ^ Z.of_nat n <= k | inr a => Q a end)
      h (loopn n body s).
Proof.
  intros Hb. induction n as [|n IH]; intros h k s Hs; cbn [loopn].
  - eapply fulfils_mono; [by apply (Hb h k)|]. intros [s'|a]; [|done]. intros (k' & ? & ?). exists k'.
    change (2 ^ Z.of_nat 0) with 1. split; [done|lia].
  - eapply fulfils_bind; [by apply (IH h k)|]. intros h' [s'|a]; cbn beta iota.
    + intros (k1 & Hs' & Hm). eapply fulfils_mono; [by apply (IH h' k1)|]. intros [s2|a]; [|done].
      intros (k2 & ? & ?). exists k2. rewrite Nat2Z.inj_succ, Z.pow_succ_r by lia. split; [done|lia].
    + intros HQ. by apply fulfils_ok.
Qed.

Lemma loop_total {S A} (I : Z -> S -> Prop) (Q : A -> Prop) body h k s :
  (forall k s, I k s -> 0 <= k) ->
  (forall h k s, I k s -> fulfils (fun r => match r with inl s' => exists k', I k' s' /\ k' < k | inr a => Q a end) h (body s)) ->
  I k s -> k < 2 ^ 63 -> fulfils Q h (loop body s).
Proof.
  intros Hm Hb Hs Hlt. unfold loop. eapply fulfils_bind; [exact (loopn_total I Q body many Hb h k s Hs)|].
  intros h' [s'|a]; cbn beta iota; [|by apply fulfils_ok].
  intros (k' & Hs' & Hle). exfalso. pose proof (Hm k' s' Hs').
  change (2 ^ Z.of_nat many) with (2 ^ 63) in Hle. lia.
Qed.
End total.

(** Some answer to every request: a host that refuses, and an empty broker. *)
Definition no_host (X : Type) (e : brE X) : X :=
  let refused {A} : result A := Throw (plain_error "refused") in
  match e in brE X return X with
  | HRealpath _ | HReadlink _ | HMkdtemp _ | FRead _ _ _ => refused
  | HLstat _ _ | HStat _ _ | FStat _ _ => refused
  | HReaddir _ => refused
  | HStatfs _ => refused
  | HMkdir _ _ => refused
  | HAccess _ _ | HRmdir _ | HRm _ _ | HUnlink _ | HRename _ _ | HLink _ _ | HSymlink _ _ _ | HChmod _ _ | HChown _ _ _
  | HLchown _ _ _ | HUtimes _ _ _ | HLutimes _ _ _ | HTruncate _ _ | FTruncate _ _ | FSync _ _ | FChmod _ _ | FChown _ _ _
  | FUtimes _ _ _ | FClose _ | BReserve _ _ _ _ => refused
  | HOpen _ _ _ | FWrite _ _ _ => refused
  | BClosed => false
  | BNow | BFdCount | BFdAdd _ => 0
  | BCacheGet _ => None
  | BFdGet _ => None
  | BPos _ => Fin 0
  | BBegin | BEnd | BAcquire _ | BRelease _ | BSlot | BSlotDone | BReport _ _ | BCacheSet _ _ _ | BCacheClear | BSettle _ _ _ _
  | BFdDelete _ | BSetPos _ _ | BTurn _ | BTurnDone _ => tt
  end.
