(* ===== verification/SpawnWalk.v ===== *)
(** * The spawn walk (lib/fs-broker/spawn-walk.js)

    Emptying /tmp and measuring /data and /tmp without following a link: what
    a directory holds in bytes and names, and the links that can lead outside.
    The broker measures a removed subtree with the same walk. *)
From Stdlib Require Import ZArith Lia Ascii String.
From stdpp Require Import prelude strings gmap.
From S2P Require Import Prelude Paths Namespace FsErrors Quota Json Prog Host.

Set Default Proof Using "Type".
Local Open Scope Z_scope.

Definition not_a_directory (dir : string) : jserr :=
  plain_error (dir +:+ " is not a directory (a link or a file); refusing to empty or measure it").

Definition realDirectory (dir : string) : eprog unit :=
  try st <- ask (HLstat dir false) in
  if isDirectory st then ok tt else throw (not_a_directory dir).

Definition rm_opts : jsval := JObj [("recursive", JBool true); ("force", JBool true)].

Fixpoint remove_all (tmpDir : string) (names : list dirent) : eprog unit :=
  match names with
  | [] => ok tt
  | d :: rest => try _ <- ask (HRm (path_join [tmpDir; de_name d]) rm_opts) in remove_all tmpDir rest
  end.

Definition emptyTmp (tmpDir : string) : eprog unit :=
  try _ <- realDirectory tmpDir in
  try names <- ask (HReaddir tmpDir) in
  remove_all tmpDir names.

(** ** Measuring *)

(** One file of the walk: its size, its links, the names found for it. *)
Record inode := mkInode { i_size : Z; i_nlink : Z; i_names : list string }.

Record walk := mkWalk {
  w_inodes : list (string * inode);
  w_bytes : Z;
  w_entries : Z;
  w_links : list string;
  w_more : Z
}.
Definition new_walk : walk := mkWalk [] 0 0 [] 0.

Section measure.
Context (maxListed : Z) (whollyInside : bool).

Definition flag_link (v : string) (w : walk) : walk :=
  if Z.of_nat (length (w_links w)) <? maxListed
  then mkWalk (w_inodes w) (w_bytes w) (w_entries w) (w_links w ++ [v]) (w_more w)
  else mkWalk (w_inodes w) (w_bytes w) (w_entries w) (w_links w) (w_more w + 1).

Definition count_entry (w : walk) : walk :=
  mkWalk (w_inodes w) (w_bytes w) (w_entries w + 1) (w_links w) (w_more w).

Definition inode_key (st : stat) : string := Z_text (st_dev st) +:+ ":" +:+ Z_text (st_ino st).

(** One more name of a file. *)
Definition tally (st : stat) (vp : string) (w : walk) : walk :=
  let i := default (mkInode (st_size st) (st_nlink st) []) (assoc (inode_key st) (w_inodes w)) in
  mkWalk (assoc_set (inode_key st) (mkInode (i_size i) (i_nlink i) (i_names i ++ [vp])) (w_inodes w))
    (w_bytes w) (w_entries w) (w_links w) (w_more w).

(** A directory's entries; the directories among them join the queue. *)
Fixpoint walk_dir (dir vdir : string) (ds : list dirent) (w : walk) (queue : list (string * string))
  : eprog (walk * list (string * string)) :=
  match ds with
  | [] => ok (w, queue)
  | d :: rest =>
      let hp := path_join [dir; de_name d] in
      let vp := vdir +:+ "/" +:+ de_name d in
      try st <- ask (HLstat hp false) in
      let w := count_entry w in
      if isSymbolicLink st then
        try target <- ask (HReadlink hp) in
        walk_dir dir vdir rest (if is_absolute target then flag_link vp w else w) queue
      else if isDirectory st then walk_dir dir vdir rest w (queue ++ [(hp, vp)])
      else if isFile st then walk_dir dir vdir rest (tally st vp w) queue
      else walk_dir dir vdir rest w queue
  end.

Definition walk_step (s : walk * list (string * string)) : eprog ((walk * list (string * string)) + walk) :=
  match s with
  | (w, []) => ok (inr w)
  | (w, (dir, vdir) :: queue) =>
      try ds <- ask (HReaddir dir) in
      try s' <- walk_dir dir vdir ds w queue in
      ok (inl s')
  end.

Fixpoint walk_roots (roots : list (string * string)) (w : walk) : eprog walk :=
  match roots with
  | [] => ok w
  | (host, vroot) :: rest =>
      try _ <- realDirectory host in
      try w' <- loop walk_step (w, [(host, vroot)]) in
      walk_roots rest w'
  end.

(** The files' bytes: each once, and with [whollyInside] only those whose
    every link was found. *)
Definition count_inode (w : walk) (i : inode) : walk :=
  let allFound := i_nlink i <=? Z.of_nat (length (i_names i)) in
  let w := if allFound then w else flag_link (hd "" (i_names i)) w in
  if negb whollyInside || allFound
  then mkWalk (w_inodes w) (w_bytes w + i_size i) (w_entries w) (w_links w) (w_more w) else w.

Definition measure (roots : list (string * string)) : eprog walk :=
  try w <- walk_roots roots new_walk in
  ok (fold_left count_inode (map snd (w_inodes w)) w).
End measure.

(** ** The walk of a tree

    What a tree of files holds, and a host that answers from one: the walk
    ends, and what it reports is what the tree holds. *)

(** A file with its [Stats], a link with its text, a directory, another
    object. *)
Inductive node :=
| NFile (st : stat)
| NLink (st : stat) (target : string)
| NOther (st : stat)
| NDir (st : stat) (children : list (string * node)).

Definition node_stat (n : node) : stat :=
  match n with NFile st | NLink st _ | NOther st | NDir st _ => st end.

Definition kind_of (n : node) : kind :=
  match n with NFile _ => KFile | NLink _ _ => KLink | NOther _ => KOther | NDir _ _ => KDir end.

(** Everything below a node, with the virtual path of each. *)
Fixpoint below (vdir : string) (n : node) : list (string * node) :=
  match n with
  | NDir _ cs => flat_map (fun c => (vdir +:+ "/" +:+ c.1, c.2) :: below (vdir +:+ "/" +:+ c.1) c.2) cs
  | _ => []
  end.

(** The directories of a node, itself included. *)
Fixpoint dirs (n : node) : nat :=
  match n with
  | NDir _ cs => S (fold_right (fun c acc => dirs c.2 + acc)%nat O cs)
  | _ => O
  end.

(** Where the host has the tree's nodes. *)
Inductive located (root : string) (t : node) : string -> node -> Prop :=
| located_root : located root t root t
| located_child p st cs name n :
    located root t p (NDir st cs) -> (name, n) ∈ cs -> located root t (path_join [p; name]) n.

(** A host that holds the trees answers from them. *)
Definition tree_answer (roots : list (string * string * node)) (h : list (obs brE)) (X : Type) (e : brE X) : X -> Prop :=
  match e in brE X return X -> Prop with
  | HLstat p false => fun r => forall root v t n, (root, v, t) ∈ roots -> located root t p n ->
      exists st, r = Ok st /\ st = node_stat n /\ st_kind st = kind_of n
  | HReaddir p => fun r => forall root v t st cs, (root, v, t) ∈ roots -> located root t p (NDir st cs) ->
      exists ds, r = Ok ds /\ map de_name ds = map fst cs
  | HReadlink p => fun r => forall root v t st target, (root, v, t) ∈ roots -> located root t p (NLink st target) ->
      r = Ok target
  | _ => fun _ => True
  end.

(** A file is known by its device and inode; its size and its links go with it. *)
Definition file_id (st : stat) : string * Z * Z := (inode_key st, st_size st, st_nlink st).

Definition files (l : list (string * node)) : list (string * Z * Z) :=
  omap (fun vn => match vn.2 with NFile st => Some (file_id st) | _ => None end) l.

Definition links_out (l : list (string * node)) : list string :=
  omap (fun vn => match vn.2 with NLink _ target => if is_absolute target then Some vn.1 else None | _ => None end) l.

(** The names found of a file reach its link count. *)
Definition all_found (fs : list (string * Z * Z)) (f : string * Z * Z) : bool :=
  f.2 <=? Z.of_nat (length (List.filter (fun g => bool_decide (g = f)) fs)).

Definition sum_sizes (fs : list (string * Z * Z)) : Z := fold_right (fun f acc => f.1.2 + acc) 0 fs.

(** Two names with one device and inode are one file. *)
Definition one_file (fs : list (string * Z * Z)) : Prop :=
  forall f g, f ∈ fs -> g ∈ fs -> f.1.1 = g.1.1 -> f = g.

(** ** Lemmas *)

Section walk_of_tree.
Context (maxListed : Z) (whollyInside : bool) (roots : list (string * string * node)).

Definition any_request (h : list (obs brE)) (X : Type) (e : brE X) : Prop := True.
Local Notation ends_with_value := (fulfils (tree_answer roots) any_request).

(** What one entry does to the walk. *)
Definition visit (w : walk) (vn : string * node) : walk :=
  let w := count_entry w in
  match vn.2 with
  | NFile st => tally st vn.1 w
  | NLink _ target => if is_absolute target then flag_link maxListed vn.1 w else w
  | _ => w
  end.

Definition children_at (vdir : string) (cs : list (string * node)) : list (string * node) :=
  map (fun c => (vdir +:+ "/" +:+ c.1, c.2)) cs.

(** A queued directory, with its node. *)
Definition child_dirs (dir vdir : string) (cs : list (string * node)) : list (string * string * node) :=
  omap (fun c => match c.2 with
                 | NDir _ _ => Some (path_join [dir; c.1], vdir +:+ "/" +:+ c.1, c.2)
                 | _ => None
                 end) cs.

Definition below_queue (q : list (string * string * node)) : list (string * node) :=
  flat_map (fun e => below e.1.2 e.2) q.

Definition queue_dirs (q : list (string * string * node)) : nat := fold_right (fun e acc => dirs e.2 + acc)%nat O q.

Lemma walk_dir_ok root v t dir vdir st cs :
  (root, v, t) ∈ roots -> located root t dir (NDir st cs) -> forall ds cs', map de_name ds = map fst cs' ->
  (forall c, c ∈ cs' -> c ∈ cs) -> forall h w queue,
  ends_with_value (fun s => s = (fold_left visit (children_at vdir cs') w, queue ++ map fst (child_dirs dir vdir cs')))
    h (walk_dir maxListed dir vdir ds w queue).
Proof.
  intros Hr Hdir ds. induction ds as [|d ds IH]; intros [|[name n] cs'] Hn Hin h w queue; cbn in Hn; try done.
  { apply fulfils_ok. by rewrite app_nil_r. }
  injection Hn as Hd Hn. cbn [walk_dir]. rewrite Hd.
  assert (Hl : located root t (path_join [dir; name]) n) by (eapply located_child; [done|apply Hin; left]).
  assert (Hin' : forall c, c ∈ cs' -> c ∈ cs) by (intros c Hc; apply Hin; by right).
  eapply fulfils_bind.
  { apply (fulfils_ask _ _ (fun st => st = node_stat n /\ st_kind st = kind_of n)); [done|].
    intros x Hx. destruct (Hx _ _ _ _ Hr Hl) as (st0 & -> & ?). eauto. }
  intros h1 st1 [-> Hk]. unfold isSymbolicLink, isDirectory, isFile. rewrite Hk.
  destruct n as [st1|st1 target|st1|st1 cs1]; cbn [kind_of]; repeat case_bool_decide; try done;
    cbn [children_at child_dirs omap list_omap map fold_left snd fst app].
  - by apply IH.
  - eapply fulfils_bind.
    { apply (fulfils_ask _ _ (fun x => x = target)); [done|].
      intros x Hx. rewrite (Hx _ _ _ _ _ Hr Hl). eauto. }
    intros h2 ? ->. by apply IH.
  - by apply IH.
  - eapply fulfils_mono; [by apply IH|]. intros s ->. by rewrite <-app_assoc.
Qed.

Lemma below_children vdir dir cs :
  flat_map (fun c => (vdir +:+ "/" +:+ c.1, c.2) :: below (vdir +:+ "/" +:+ c.1) c.2) cs ≡ₚ
  children_at vdir cs ++ below_queue (child_dirs dir vdir cs).
Proof.
  induction cs as [|[name n] cs IH]; [done|].
  cbn [flat_map children_at map fst snd child_dirs omap list_omap]. fold (children_at vdir cs).
  rewrite IH. cbn. apply perm_skip.
  destruct n; cbn [below below_queue flat_map app snd fst]; try done.
  exact (Permutation_app_swap_app _ _ _).
Qed.

Lemma dirs_children dir vdir cs : queue_dirs (child_dirs dir vdir cs) = fold_right (fun c acc => dirs c.2 + acc)%nat O cs.
Proof.
  induction cs as [|[name n] cs IH]; [done|]. cbn [fold_right]. rewrite <-IH.
  unfold child_dirs. cbn [omap list_omap fst snd]. by destruct n.
Qed.

(** *** The walk of one root, then of all *)

Lemma queue_dirs_app q1 q2 : queue_dirs (q1 ++ q2) = (queue_dirs q1 + queue_dirs q2)%nat.
Proof. induction q1 as [|e q1 IH]; [done|]. unfold queue_dirs in *. cbn in *. lia. Qed.

Lemma below_queue_app q1 q2 : below_queue (q1 ++ q2) = below_queue q1 ++ below_queue q2.
Proof. apply flat_map_app. Qed.

Lemma child_dirs_located root t dir vdir st cs :
  located root t dir (NDir st cs) -> forall cs', (forall c, c ∈ cs' -> c ∈ cs) ->
  Forall (fun e => located root t e.1.1 e.2 /\ kind_of e.2 = KDir) (child_dirs dir vdir cs').
Proof.
  intros Hl cs'. induction cs' as [|[name n] cs' IH]; intros Hin; [constructor|].
  assert (IH' := IH (fun c Hc => Hin c (list_elem_of_further _ _ _ Hc))).
  unfold child_dirs. cbn [omap list_omap fst snd]. destruct n as [| | |st' cs1]; try exact IH'.
  constructor; [|exact IH']. split; [|done]. cbn. eapply located_child; [exact Hl|apply Hin; left].
Qed.

(** *** The walk of one root, then of all *)

(** A state of the loop: what was seen, and the directories to come. *)
Definition walking (host vroot : string) (t : node) (w : walk) (k : Z) (s : walk * list (string * string)) : Prop :=
  exists seen q, s = (fold_left visit seen w, map fst q) /\ k = Z.of_nat (queue_dirs q) /\
    seen ++ below_queue q ≡ₚ below vroot t /\
    Forall (fun e => located host t e.1.1 e.2 /\ kind_of e.2 = KDir) q.

Lemma walk_step_ok host vroot t w h k s :
  (host, vroot, t) ∈ roots -> walking host vroot t w k s ->
  ends_with_value (fun r => match r with
    | inl s' => exists k', walking host vroot t w k' s' /\ k' < k
    | inr w' => exists seen, seen ≡ₚ below vroot t /\ w' = fold_left visit seen w
    end) h (walk_step maxListed s).
Proof.
  intros Hr (seen & q & -> & -> & Hp & Hq). destruct q as [|[[dir vdir] n] q]; cbn [map fst walk_step].
  { apply fulfils_ok. exists seen. cbn in Hp. by rewrite app_nil_r in Hp. }
  apply Forall_cons in Hq as [[Hl Hn] Hq]. cbn [fst snd] in Hl, Hn. destruct n as [| | |st cs]; try done.
  eapply fulfils_bind.
  { apply (fulfils_ask _ _ (fun ds => map de_name ds = map fst cs)); [done|].
    intros x Hx. exact (Hx _ _ _ _ _ Hr Hl). }
  intros h1 ds Hds. eapply fulfils_bind; [by apply (walk_dir_ok host vroot t dir vdir st cs Hr Hl ds cs Hds)|].
  intros h2 ? ->. apply fulfils_ok. exists (Z.of_nat (queue_dirs (q ++ child_dirs dir vdir cs))). split.
  - exists (seen ++ children_at vdir cs), (q ++ child_dirs dir vdir cs).
    rewrite fold_left_app, map_app. split_and!; try done.
    + rewrite <-Hp, below_queue_app. cbn [below_queue flat_map fst snd below]. rewrite (below_children vdir dir cs).
      fold (below_queue q). rewrite <-!app_assoc. apply Permutation_app_head, Permutation_app_head, Permutation_app_comm.
    + apply Forall_app. split; [done|]. by eapply child_dirs_located.
  - rewrite queue_dirs_app, dirs_children. unfold queue_dirs. cbn. lia.
Qed.

Lemma walk_root_ok host vroot t h w :
  (host, vroot, t) ∈ roots -> kind_of t = KDir -> Z.of_nat (dirs t) < 2 ^ 63 ->
  ends_with_value (fun w' => exists seen, seen ≡ₚ below vroot t /\ w' = fold_left visit seen w) h
    (loop (walk_step maxListed) (w, [(host, vroot)])).
Proof.
  intros Hr Hk Hd. apply (loop_total _ _ (walking host vroot t w) _ _ h (Z.of_nat (dirs t))); [..|done].
  - intros k s (? & ? & _ & -> & _). lia.
  - intros h' k s. by apply walk_step_ok.
  - exists [], [(host, vroot, t)]. cbn. rewrite app_nil_r, Nat.add_0_r. split_and!; try done.
    constructor; [|constructor]. split; [constructor|done].
Qed.

(** The roots' trees, all their entries. *)
Definition entries_of (rs : list (string * string * node)) : list (string * node) :=
  flat_map (fun r => below r.1.2 r.2) rs.

Lemma realDirectory_ok host v t h :
  (host, v, t) ∈ roots -> kind_of t = KDir -> ends_with_value (fun _ => True) h (realDirectory host).
Proof.
  intros Hr Hk. eapply fulfils_bind.
  { apply (fulfils_ask _ _ (fun st => st_kind st = KDir)); [done|].
    intros x Hx. destruct (Hx _ _ _ _ Hr (located_root _ _)) as (st0 & -> & _ & E). rewrite Hk in E. eauto. }
  intros h1 st Hst. unfold isDirectory. rewrite Hst. by apply fulfils_ok.
Qed.

Lemma walk_roots_ok rs h w :
  rs ⊆ roots -> Forall (fun r => kind_of r.2 = KDir /\ Z.of_nat (dirs r.2) < 2 ^ 63) rs ->
  ends_with_value (fun w' => exists seen, seen ≡ₚ entries_of rs /\ w' = fold_left visit seen w) h
    (walk_roots maxListed (map fst rs) w).
Proof.
  revert h w. induction rs as [|[[host vroot] t] rs IH]; intros h w Hin Hrs; cbn [map fst walk_roots].
  { apply fulfils_ok. by exists []. }
  apply Forall_cons in Hrs as [[Hk Hd] Hrs]. cbn [snd] in Hk, Hd.
  assert (Hr : (host, vroot, t) ∈ roots) by (apply Hin; left).
  eapply fulfils_bind; [by eapply realDirectory_ok|]. intros h1 _ _.
  eapply fulfils_bind; [by apply walk_root_ok|]. intros h2 w1 (s1 & Hs1 & ->).
  eapply fulfils_mono; [apply IH; [set_solver|done]|]. intros w2 (s2 & Hs2 & ->).
  exists (s1 ++ s2). rewrite fold_left_app. split; [|done]. cbn. by rewrite Hs1, Hs2.
Qed.
End walk_of_tree.

(** *** What was tallied *)

Section tally.
Context (maxListed : Z).
Local Notation visit_all seen := (fold_left (visit maxListed) seen new_walk).

Definition id_of (ki : string * inode) : string * Z * Z := (ki.1, i_size ki.2, i_nlink ki.2).
Definition named (f : string * Z * Z) (fs : list (string * Z * Z)) : nat :=
  length (List.filter (fun g => bool_decide (g = f)) fs).

(** The names of a file, among what was seen. *)
Definition names_seen (seen : list (string * node)) (ki : string * inode) : Prop :=
  length (i_names ki.2) = named (id_of ki) (files seen) /\ i_names ki.2 <> [] /\
  forall v, v ∈ i_names ki.2 -> exists st, (v, NFile st) ∈ seen /\ file_id st = id_of ki.

(** What was flagged is listed while there is room, and counted after. *)
Definition flagged (l : list string) (w : walk) : Prop :=
  w_links w = take (Z.to_nat maxListed) l /\ w_more w = Z.of_nat (length (drop (Z.to_nat maxListed) l)).

Lemma flagged_link l v w : flagged l w -> flagged (l ++ [v]) (flag_link maxListed v w).
Proof.
  intros [Hl Hm]. unfold flag_link, flagged. rewrite take_app, drop_app, length_app, Hl, length_take.
  destruct (Z.ltb_spec (Z.of_nat (Z.to_nat maxListed `min` length l)) maxListed); cbn [w_links w_more].
  - replace (Z.to_nat maxListed - length l)%nat with (S (Z.to_nat maxListed - length l - 1)) by lia. cbn [take drop].
    rewrite take_nil, drop_nil, Hm. split; [done|]. cbn. lia.
  - replace (Z.to_nat maxListed - length l)%nat with O by lia. rewrite Hm, app_nil_r. cbn. split; [done|lia].
Qed.

Record tallied (seen : list (string * node)) (w : walk) : Prop := {
  t_entries : w_entries w = Z.of_nat (length seen);
  t_bytes : w_bytes w = 0;
  t_flagged : flagged (links_out seen) w;
  t_keys : NoDup (map fst (w_inodes w));
  t_names : Forall (names_seen seen) (w_inodes w);
  t_files : forall f, f ∈ files seen <-> f ∈ map id_of (w_inodes w)
}.

Lemma files_snoc seen v n :
  files (seen ++ [(v, n)]) = files seen ++ match n with NFile st => [file_id st] | _ => [] end.
Proof. unfold files. rewrite omap_app. cbn. by destruct n. Qed.

Lemma links_out_snoc seen v n :
  links_out (seen ++ [(v, n)]) =
  links_out seen ++ match n with NLink _ target => if is_absolute target then [v] else [] | _ => [] end.
Proof. unfold links_out. rewrite omap_app. f_equal. destruct n as [|st target| |]; cbn -[is_absolute]; try done. by destruct (is_absolute target). Qed.

Lemma named_snoc f fs g : named f (fs ++ [g]) = (named f fs + if bool_decide (g = f) then 1 else 0)%nat.
Proof. unfold named. rewrite List.filter_app, length_app. cbn. by case_bool_decide. Qed.

(** Visiting what is no file leaves the files; a flag leaves the rest. *)
Lemma tallied_other seen v n w w' :
  tallied seen w -> files (seen ++ [(v, n)]) = files seen -> w_entries w' = w_entries w + 1 -> w_bytes w' = 0 ->
  w_inodes w' = w_inodes w -> flagged (links_out (seen ++ [(v, n)])) w' ->
  tallied (seen ++ [(v, n)]) w'.
Proof.
  intros Ht Hf He Hb Hi Hl. constructor; rewrite ?Hf, ?Hi, ?He; try done; try apply Ht.
  - rewrite (t_entries _ _ Ht), length_app. cbn. lia.
  - eapply Forall_impl; [apply Ht|]. intros ki (Hn & Hne & Hv). split; [by rewrite Hf|]. split; [done|].
    intros v' Hv'. destruct (Hv v' Hv') as (st & ? & ?). exists st. split; [set_solver|done].
Qed.

Lemma flag_tallied seen v st target w :
  tallied seen w -> is_absolute target = true ->
  tallied (seen ++ [(v, NLink st target)]) (flag_link maxListed v (count_entry w)).
Proof.
  intros Ht Ha. eapply tallied_other; [exact Ht|by rewrite files_snoc, app_nil_r|..];
    try (unfold flag_link; case_match; apply Ht || done).
  rewrite links_out_snoc, Ha. apply flagged_link. apply Ht.
Qed.

Lemma assoc_set_new {A} k (x : A) l : assoc k l = None -> assoc_set k x l = l ++ [(k, x)].
Proof. induction l as [|[a b] l IH]; cbn; [done|]. destruct (String.eqb_spec k a); [done|]. intros H. by rewrite IH. Qed.

Lemma assoc_set_at {A} k (x0 x : A) l :
  assoc k l = Some x0 -> exists l1 l2, l = l1 ++ (k, x0) :: l2 /\ assoc_set k x l = l1 ++ (k, x) :: l2.
Proof.
  induction l as [|[a b] l IH]; cbn; [done|]. destruct (String.eqb_spec k a) as [->|].
  - intros [= ->]. by exists [], l.
  - intros H. destruct (IH H) as (l1 & l2 & -> & ->). by exists ((a, b) :: l1), l2.
Qed.

Lemma id_key ki st : id_of ki = file_id st -> ki.1 = inode_key st.
Proof. by intros [= ? ? ?]. Qed.

Lemma named_none f fs : f ∉ fs -> named f fs = O.
Proof.
  unfold named. induction fs as [|g fs IH]; [done|]. intros Hf. cbn.
  rewrite bool_decide_eq_false_2 by set_solver. apply IH. set_solver.
Qed.

Lemma names_seen_other seen v st ki :
  id_of ki <> file_id st -> names_seen seen ki -> names_seen (seen ++ [(v, NFile st)]) ki.
Proof.
  intros Hne (Hn & Hnil & Hv). split; [|split; [done|]].
  - rewrite files_snoc, named_snoc, Hn. rewrite bool_decide_eq_false_2 by congruence. lia.
  - intros v' Hv'. destruct (Hv v' Hv') as (st' & ? & ?). exists st'. split; [set_solver|done].
Qed.

Lemma names_seen_more seen v st k i :
  id_of (k, i) = file_id st -> length (i_names i) = named (file_id st) (files seen) ->
  (forall v, v ∈ i_names i -> exists st', (v, NFile st') ∈ seen /\ file_id st' = file_id st) ->
  names_seen (seen ++ [(v, NFile st)]) (k, mkInode (i_size i) (i_nlink i) (i_names i ++ [v])).
Proof.
  intros Hid Hl Hv. unfold names_seen. cbn [snd i_names].
  change (id_of (k, mkInode _ _ (i_names i ++ [v]))) with (id_of (k, i)). rewrite Hid. split_and!.
  - rewrite files_snoc, named_snoc, length_app, Hl, bool_decide_eq_true_2 by done. done.
  - by destruct (i_names i).
  - intros v' [Hv'|Hv']%elem_of_app.
    + destruct (Hv v' Hv') as (st' & ? & ?). exists st'. split; [set_solver|done].
    + apply list_elem_of_singleton in Hv' as ->. exists st. split; [set_solver|done].
Qed.

(** A file's entry is its [Stats]' own, when one inode is one file. *)
Lemma tallied_id seen v st w i :
  one_file (files (seen ++ [(v, NFile st)])) -> tallied seen w ->
  (inode_key st, i) ∈ w_inodes w -> id_of (inode_key st, i) = file_id st.
Proof.
  intros Hone Ht Hi. apply Hone; [..|done]; rewrite files_snoc, elem_of_app; [left|right; left].
  apply (t_files _ _ Ht), list_elem_of_fmap. by eexists.
Qed.

Lemma tallied_new_ids seen v st w inodes :
  tallied seen w -> NoDup (map fst inodes) -> Forall (names_seen (seen ++ [(v, NFile st)])) inodes ->
  (forall f, f ∈ map id_of inodes <-> f ∈ map id_of (w_inodes w) \/ f = file_id st) ->
  tallied (seen ++ [(v, NFile st)]) (mkWalk inodes (w_bytes w) (w_entries w + 1) (w_links w) (w_more w)).
Proof.
  intros Ht Hk Hn Hf.
  assert (Hlinks : links_out (seen ++ [(v, NFile st)]) = links_out seen) by by rewrite links_out_snoc, app_nil_r.
  constructor; cbn [w_inodes w_bytes w_entries w_links w_more]; rewrite ?Hlinks; try done; try apply Ht.
  - rewrite (t_entries _ _ Ht), length_app. cbn. lia.
  - intros f. rewrite Hf, files_snoc, elem_of_app, list_elem_of_singleton. by rewrite (t_files _ _ Ht).
Qed.

Lemma tally_tallied seen v st w :
  one_file (files (seen ++ [(v, NFile st)])) -> tallied seen w ->
  tallied (seen ++ [(v, NFile st)]) (tally st v (count_entry w)).
Proof.
  intros Hone Ht. pose proof (t_keys _ _ Ht) as Hk. pose proof (t_names _ _ Ht) as Hn.
  unfold tally, count_entry. cbn [w_inodes w_bytes w_entries w_links w_more].
  destruct (assoc (inode_key st) (w_inodes w)) as [i|] eqn:Ea; unfold default; cbn [from_option]; unfold id.
  - pose proof (tallied_id seen v st w i Hone Ht (assoc_elem _ _ _ Ea)) as Hid.
    destruct (assoc_set_at _ _ (mkInode (i_size i) (i_nlink i) (i_names i ++ [v])) _ Ea) as (l1 & l2 & El & ->).
    set (i' := mkInode _ _ _) in *. assert (Hid' : id_of (inode_key st, i') = file_id st) by exact Hid.
    rewrite El in Hk, Hn. apply tallied_new_ids; [done|..].
    + revert Hk. by rewrite !map_app.
    + apply Forall_app in Hn as [Hn1 Hn2]. apply Forall_cons in Hn2 as [Hi Hn2].
      assert (Hother : forall ki, ki ∈ l1 ++ l2 -> id_of ki <> file_id st).
      { intros ki Hki E. rewrite map_app in Hk. cbn in Hk. apply NoDup_app in Hk as (_ & Hd & Hk).
        apply NoDup_cons in Hk as [Hk _]. apply elem_of_app in Hki as [Hki|Hki].
        - apply (Hd ki.1); [by apply list_elem_of_fmap_2|]. rewrite (id_key _ _ E). left.
        - apply Hk. rewrite <-(id_key _ _ E). by apply list_elem_of_fmap_2. }
      assert (Hsub : forall l, l ⊆ l1 ++ l2 -> Forall (names_seen seen) l ->
                Forall (names_seen (seen ++ [(v, NFile st)])) l).
      { intros l Hl Hs. apply Forall_forall. intros ki Hki. apply names_seen_other; [by apply Hother, Hl|].
        by apply (proj1 (Forall_forall _ _) Hs). }
      apply Forall_app. split; [apply Hsub; set_solver|]. apply Forall_cons. split; [|apply Hsub; set_solver].
      destruct Hi as (Hl & _ & Hv). rewrite Hid in Hl, Hv. by apply names_seen_more.
    + intros f. rewrite El, !map_app. cbn [map]. rewrite Hid, Hid'. set_solver.
  - rewrite assoc_set_new by done. set (i' := mkInode _ _ _) in *.
    assert (Hid' : id_of (inode_key st, i') = file_id st) by done. apply tallied_new_ids; [done|..].
    + rewrite map_app. apply NoDup_snoc; [done|]. intros Hin. by apply assoc_in_keys in Hin.
    + assert (Hnew : forall ki, ki ∈ w_inodes w -> id_of ki <> file_id st).
      { intros ki Hki E. apply (proj2 (assoc_in_keys (inode_key st) (w_inodes w))); [|done].
        rewrite <-(id_key _ _ E). by apply list_elem_of_fmap_2. }
      apply Forall_app. split.
      * apply Forall_forall. intros ki Hki. apply names_seen_other; [by apply Hnew|].
        by apply (proj1 (Forall_forall _ _) Hn).
      * constructor; [|constructor]. apply (names_seen_more seen v st _ (mkInode (st_size st) (st_nlink st) [])); [done| |set_solver].
        cbn. rewrite named_none; [done|]. rewrite (t_files _ _ Ht). intros (ki & E & Hki)%list_elem_of_fmap.
        by apply (Hnew ki).
    + intros f. rewrite map_app. cbn [map]. rewrite Hid'. set_solver.
Qed.
End tally.

Lemma one_file_sub fs1 fs2 : fs1 ⊆ fs2 -> one_file fs2 -> one_file fs1.
Proof. intros Hs H f g Hf Hg. apply H; by apply Hs. Qed.

Lemma tallied_all maxListed seen :
  one_file (files seen) -> tallied maxListed seen (fold_left (visit maxListed) seen new_walk).
Proof.
  induction seen as [|[v n] seen IH] using rev_ind; intros Hone; [constructor; cbn; first [done|by split; rewrite ?take_nil, ?drop_nil|lia|by constructor|set_solver]|].
  assert (Hs : tallied maxListed seen (fold_left (visit maxListed) seen new_walk)).
  { apply IH. eapply one_file_sub; [|exact Hone]. rewrite files_snoc. set_solver. }
  rewrite fold_left_app. cbn [fold_left]. unfold visit at 1. cbn [snd fst].
  destruct n as [st|st target|st|st cs]; [by apply tally_tallied|..].
  - destruct (is_absolute target) eqn:Ea; [by apply flag_tallied|].
    apply (tallied_other _ seen v (NLink st target) _ _ Hs);
      rewrite ?files_snoc, ?links_out_snoc, ?Ea, ?app_nil_r; try done; apply Hs.
  - apply (tallied_other _ seen v (NOther st) _ _ Hs);
      rewrite ?files_snoc, ?links_out_snoc, ?app_nil_r; try done; apply Hs.
  - apply (tallied_other _ seen v (NDir st cs) _ _ Hs);
      rewrite ?files_snoc, ?links_out_snoc, ?app_nil_r; try done; apply Hs.
Qed.

(** *** The files, counted *)

Section counting.
Context (maxListed : Z) (whollyInside : bool) (all : list (string * node)).
Local Notation found := (all_found (files all)).

(** A file with a name elsewhere, by one of the names found for it. *)
Definition shared_file (f : string * Z * Z) (v : string) : Prop :=
  exists st, (v, NFile st) ∈ all /\ file_id st = f.

(** The first names of the files whose other names are elsewhere. *)
Definition shared_names (l : list (string * inode)) : list string :=
  map (fun ki => hd "" (i_names ki.2)) (List.filter (fun ki => negb (found (id_of ki))) l).

Lemma shared_names_of l :
  Forall (names_seen all) l ->
  Forall2 shared_file (List.filter (fun f => negb (found f)) (map id_of l)) (shared_names l).
Proof.
  unfold shared_names. induction 1 as [|[k i] l (Hn & Hne & Hv) _ IH]; cbn [map List.filter]; [constructor|].
  destruct (negb (found (id_of (k, i)))); [|done]. cbn [map]. constructor; [|done].
  cbn [snd] in *. destruct (i_names i) as [|v vs]; [done|]. apply (Hv v). left.
Qed.

Lemma sum_sizes_cons f fs : sum_sizes (f :: fs) = f.1.2 + sum_sizes fs.
Proof. unfold sum_sizes. cbn. lia. Qed.

Lemma count_inodes_ok l w fl :
  Forall (names_seen all) l -> flagged maxListed fl w ->
  let w' := fold_left (count_inode maxListed whollyInside) (map snd l) w in
  w_entries w' = w_entries w /\
  w_bytes w' = w_bytes w + sum_sizes (List.filter (fun f => negb whollyInside || found f) (map id_of l)) /\
  flagged maxListed (fl ++ shared_names l) w'.
Proof.
  revert w fl. induction l as [|[k i] l IH]; intros w fl Hl Hw w'.
  { subst w'. cbn. rewrite app_nil_r. split_and!; try done; lia. }
  apply Forall_cons in Hl as [(Hn & Hne & Hv) Hl]. cbn [snd] in Hn.
  assert (Hfound : (i_nlink i <=? Z.of_nat (length (i_names i))) = found (id_of (k, i))).
  { unfold all_found. by rewrite Hn. }
  subst w'. cbn [map snd fold_left List.filter]. unfold shared_names. cbn [List.filter].
  unfold count_inode at 2 4 6. rewrite Hfound.
  destruct (found (id_of (k, i))) eqn:Ef; cbn [negb orb map].
  - rewrite orb_true_r. destruct (IH (mkWalk (w_inodes w) (w_bytes w + i_size i) (w_entries w) (w_links w) (w_more w)) fl Hl Hw)
      as (He & Hb & Hf).
    split_and!; [by rewrite He| |exact Hf]. rewrite Hb, sum_sizes_cons. cbn [w_bytes id_of fst snd]. lia.
  - rewrite orb_false_r, cons_middle, app_assoc.
    pose proof (flagged_link maxListed fl (hd "" (i_names i)) w Hw) as Hw1.
    assert (Hkeep : w_entries (flag_link maxListed (hd "" (i_names i)) w) = w_entries w /\
                    w_bytes (flag_link maxListed (hd "" (i_names i)) w) = w_bytes w)
      by (unfold flag_link; by case_match).
    destruct Hkeep as [He1 Hb1]. revert Hw1 He1 Hb1. generalize (flag_link maxListed (hd "" (i_names i)) w).
    intros w1 Hw1 He1 Hb1. destruct whollyInside; cbn [negb].
    + destruct (IH w1 _ Hl Hw1) as (He & Hb & Hf). rewrite He, Hb, He1, Hb1. done.
    + destruct (IH (mkWalk (w_inodes w1) (w_bytes w1 + i_size i) (w_entries w1) (w_links w1) (w_more w1)) _ Hl Hw1)
        as (He & Hb & Hf).
      split_and!; [by rewrite He| |exact Hf]. rewrite Hb, sum_sizes_cons. cbn [w_bytes i_size id_of fst snd]; rewrite Hb1. cbn [negb orb]; lia.
Qed.
End counting.

Lemma named_perm f fs1 fs2 : fs1 ≡ₚ fs2 -> named f fs1 = named f fs2.
Proof.
  unfold named. induction 1 as [|g l l' _ IH|g g' l|l1 l2 l3 _ IH1 _ IH2]; cbn; repeat case_bool_decide; cbn; congruence.
Qed.

Lemma filter_sub_perm {A} (p : A -> bool) (l1 l2 : list A) : l1 ≡ₚ l2 -> List.filter p l1 ≡ₚ List.filter p l2.
Proof.
  induction 1 as [|x l l' _ IH|x y l|l1 l2 l3 _ IH1 _ IH2]; cbn; repeat case_match; try by rewrite IH.
  all: try done. all: try constructor. by rewrite IH1.
Qed.

Lemma sum_sizes_perm fs1 fs2 : fs1 ≡ₚ fs2 -> sum_sizes fs1 = sum_sizes fs2.
Proof. unfold sum_sizes. induction 1 as [|g l l' _ IH|g g' l|l1 l2 l3 _ IH1 _ IH2]; cbn in *; lia. Qed.

Lemma take_nothing {B C} (P : B -> C -> Prop) n (l l' : list C) (f f' : list B) (m : list C) :
  (0 < n)%nat -> l ≡ₚ l' -> f ≡ₚ f' -> Forall2 P f m -> take n (l ++ m) = @nil C <-> l' = [] /\ f' = [].
Proof.
  intros Hn Hl Hf Hm. apply Permutation_length in Hl, Hf. apply Forall2_length in Hm.
  rewrite <-!length_zero_iff_nil, length_take, length_app. lia.
Qed.

Lemma NoDup_ids l : NoDup (map fst l) -> NoDup (map id_of l).
Proof.
  induction l as [|ki l IH]; [constructor|]. cbn. rewrite !NoDup_cons. intros [Hk Hl]. split; [|by apply IH].
  intros (kj & E & Hj)%list_elem_of_fmap. apply Hk. assert (Ek : ki.1 = kj.1) by by injection E.
  rewrite Ek. by apply list_elem_of_fmap_2.
Qed.

Lemma names_seen_perm l1 l2 ki : l1 ≡ₚ l2 -> names_seen l1 ki -> names_seen l2 ki.
Proof.
  intros Hp (Hn & Hne & Hv). split; [|split; [done|]].
  - rewrite Hn. by apply named_perm, omap_Permutation.
  - intros v Hv'. destruct (Hv v Hv') as (st & ? & ?). exists st. by rewrite <-Hp.
Qed.

(** C32: Measuring directories whose trees the host holds ends with an answer,
    and the answer is exact: every entry below the roots is counted once, each
    file's bytes once however many names it has (with [whollyInside] only when
    all its names are below the roots). What leads outside is every absolute
    link, by its path, and every file with a name elsewhere, once, by one of
    the names found: the list holds the first of them up to the limit, links
    before files, and the rest are counted. So with a limit above zero (the
    callers' is 10) the list that refuses a module is empty exactly when
    nothing leads outside. The hypotheses: the roots are directories, of fewer
    than 2^63 directories, and two names with one device and inode have one
    size and link count. *)
Theorem measure_exact maxListed whollyInside roots tr r :
  Forall (fun root => kind_of root.2 = KDir /\ Z.of_nat (dirs root.2) < 2 ^ 63) roots ->
  one_file (files (entries_of roots)) ->
  run (measure maxListed whollyInside (map fst roots)) tr r -> allowed (tree_answer roots) [] tr ->
  let all := entries_of roots in
  let fs := remove_dups (files all) in
  exists w, r = Ok w /\ exists lks fs' shared,
    w_entries w = Z.of_nat (length all) /\
    w_bytes w = sum_sizes (List.filter (fun f => negb whollyInside || all_found (files all) f) fs) /\
    lks ≡ₚ links_out all /\
    fs' ≡ₚ List.filter (fun f => negb (all_found (files all) f)) fs /\ Forall2 (shared_file all) fs' shared /\
    w_links w = take (Z.to_nat maxListed) (lks ++ shared) /\
    w_more w = Z.of_nat (length (drop (Z.to_nat maxListed) (lks ++ shared))) /\
    (0 < maxListed ->
     w_links w = [] <-> links_out all = [] /\ List.filter (fun f => negb (all_found (files all) f)) fs = []).
Proof.
  intros Hroots Hone Hrun Hans all fs.
  pattern r. match goal with |- ?Q r =>
    refine (safe_run (tree_answer roots) any_request (fun _ => Q) [] _ tr r _ Hrun Hans) end.
  eapply fulfils_bind; [by apply (walk_roots_ok maxListed roots roots)|].
  intros h w0 (seen & Hseen & ->). apply fulfils_ok.
  assert (Hfs : files seen ≡ₚ files all) by by apply omap_Permutation.
  assert (Hls : links_out seen ≡ₚ links_out all) by by apply omap_Permutation.
  pose proof (tallied_all maxListed seen ltac:(eapply one_file_sub; [|exact Hone]; by rewrite Hfs)) as Ht.
  set (w0 := fold_left (visit maxListed) seen new_walk) in *.
  assert (Hnames : Forall (names_seen all) (w_inodes w0)).
  { eapply Forall_impl; [apply Ht|]. intros ki. by apply names_seen_perm. }
  destruct (count_inodes_ok maxListed whollyInside all (w_inodes w0) w0 _ Hnames (t_flagged _ _ _ Ht)) as (He & Hb & Hl & Hm).
  assert (Hids : map id_of (w_inodes w0) ≡ₚ fs).
  { apply NoDup_Permutation; [apply NoDup_ids, Ht|apply NoDup_remove_dups|].
    intros f. unfold fs. by rewrite <-(t_files _ _ _ Ht), elem_of_remove_dups, Hfs. }
  pose proof (shared_names_of all _ Hnames) as Hsh.
  pose proof (filter_sub_perm (fun f => negb (all_found (files all) f)) _ _ Hids) as Hfp.
  eexists (links_out seen), _, (shared_names all (w_inodes w0)).
  split_and!; [..|exact Hfp|exact Hsh|exact Hl|exact Hm|]; [..|done|].
  - by rewrite He, (t_entries _ _ _ Ht), (Permutation_length Hseen).
  - rewrite Hb, (t_bytes _ _ _ Ht). by apply sum_sizes_perm, filter_sub_perm.
  - intros Hpos. rewrite Hl. eapply take_nothing; [lia|done|exact Hfp|exact Hsh].
Qed.

(** A directory with a file under two names, a link out and a subdirectory. *)
Definition demo_stat (k : kind) (ino nlink size : Z) : stat :=
  mkStat k (JObj [("dev", JNum 1); ("ino", JNum ino); ("nlink", JNum nlink); ("size", JNum size)]).
Definition demo_tree : node :=
  NDir (demo_stat KDir 1 3 0)
    [("a", NFile (demo_stat KFile 2 2 100)); ("b", NFile (demo_stat KFile 2 2 100));
     ("out", NLink (demo_stat KLink 3 1 4) "/etc");
     ("d", NDir (demo_stat KDir 4 2 0) [("c", NFile (demo_stat KFile 5 2 7))])].

(** The located nodes, listed. *)
Fixpoint spots (root : string) (t : node) : list (string * node) :=
  (root, t) :: match t with
               | NDir _ cs => flat_map (fun c => spots (path_join [root; c.1]) c.2) cs
               | _ => []
               end.

Lemma node_nested_ind (P : node -> Prop) :
  (forall n, kind_of n <> KDir -> P n) -> (forall st cs, Forall (fun c => P c.2) cs -> P (NDir st cs)) -> forall n, P n.
Proof.
  intros Hleaf Hdir. fix IH 1. intros [st|st target|st|st cs]; try (by apply Hleaf).
  apply Hdir. induction cs as [|c cs IHcs]; constructor; [apply IH|apply IHcs].
Qed.

Lemma spots_closed t p st cs name n : forall root,
  (p, NDir st cs) ∈ spots root t -> (name, n) ∈ cs -> (path_join [p; name], n) ∈ spots root t.
Proof.
  induction t as [t Ht|st' cs' IH] using node_nested_ind; intros root Hp Hn.
  - destruct t; try (by destruct Ht); by apply list_elem_of_singleton in Hp.
  - cbn [spots] in *. apply elem_of_cons in Hp as [[= -> -> ->]|Hp]; right.
    + apply list_elem_of_In, in_flat_map. exists (name, n). split; [by apply list_elem_of_In|].
      apply list_elem_of_In. cbn [fst snd]. destruct n; left.
    + apply list_elem_of_In, in_flat_map in Hp as (c & Hc & Hp%list_elem_of_In).
      apply list_elem_of_In, in_flat_map. exists c. split; [done|]. apply list_elem_of_In.
      apply (proj1 (Forall_forall _ _) IH c); [by apply list_elem_of_In|done|done].
Qed.

Lemma located_spots root t p n : located root t p n -> (p, n) ∈ spots root t.
Proof. induction 1 as [|p st cs name n _ IH Hn]; [destruct t; left|]. by eapply spots_closed. Qed.

Definition demo_dirent (c : string * node) : dirent := mkDirent c.1 (kind_of c.2).

Fixpoint demo_find (fuel : nat) (p : string) (t : node) (q : string) : option node :=
  if String.eqb p q then Some t
  else match fuel, t with
       | S f, NDir _ cs =>
           match List.find (fun c => match demo_find f (path_join [p; c.1]) c.2 q with Some _ => true | None => false end) cs with
           | Some c => demo_find f (path_join [p; c.1]) c.2 q
           | None => None
           end
       | _, _ => None
       end.

Definition demo_host (X : Type) (n : nat) (e : brE X) : X :=
  match e in brE X return X -> X with
  | HLstat p _ => fun d => match demo_find 3 "/h" demo_tree p with Some t => Ok (node_stat t) | None => d end
  | HReaddir p => fun d => match demo_find 3 "/h" demo_tree p with
                           | Some (NDir _ cs) => Ok (map demo_dirent cs) | _ => d end
  | HReadlink p => fun d => match demo_find 3 "/h" demo_tree p with Some (NLink _ t) => Ok t | _ => d end
  | _ => fun d => d
  end (no_host X e).

Definition demo_roots : list (string * string * node) := [("/h", "/data", demo_tree)].

Definition demo_measure : result walk * list (obs brE) :=
  eval demo_host 0 (measure 10 false (map fst demo_roots)).

(** The host answers from the tree. *)
Ltac from_spots :=
  intros root v t; intros;
  match goal with Hr : list_elem_of (root, v, t) _, Hl : located _ _ _ _ |- _ =>
    apply list_elem_of_singleton in Hr; injection Hr; intros -> -> ->;
    apply located_spots, list_elem_of_In in Hl; vm_compute in Hl;
    repeat (destruct Hl as [Hl|Hl]; [try discriminate Hl; injection Hl; intros; subst; vm_compute; eauto|]); destruct Hl
  end.

Lemma measure_exact_witness :
  exists w, demo_measure.1 = Ok w /\ w_bytes w = 107 /\ w_entries w = 5 /\ w_links w = ["/data/out"; "/data/d/c"].
Proof.
  destruct (measure_exact 10 false demo_roots demo_measure.2 demo_measure.1) as (w & Hw & lks & fs' & sh & He & Hb & _).
  - repeat constructor.
  - intros f g Hf Hg. apply list_elem_of_In in Hf, Hg. vm_compute in Hf, Hg.
    repeat destruct Hf as [<-|Hf]; repeat destruct Hg as [<-|Hg]; try done.
  - apply eval_run.
  - vm_compute. repeat split; from_spots.
  - exists w. split; [exact Hw|]. rewrite Hb, He. split; [by vm_compute|]. split; [by vm_compute|].
    revert Hw. vm_compute. by intros [= <-].
Defined.
