(* ===== verification/Broker.v ===== *)
(** * The file broker (lib/fs-broker/broker.js)

    One module worker's broker: [handleOne] under its lock and its slot, the
    placing and host checks of a path argument, the verification after an
    open, the quota around growth, and every operation of OPS. *)
From Stdlib Require Import ZArith Lia Ascii String.
From stdpp Require Import prelude strings gmap.
From S2P Require Import Prelude Paths Namespace FsErrors Quota Json Prog Host SpawnWalk.

Set Default Proof Using "Type".
Local Open Scope Z_scope.

(** ** Constants *)

Definition MAX_FDS : Z := 256.
Definition RP_CACHE_MS : Z := 1000.
Definition MAX_IO : Z := 16 * 1024 * 1024.

Definition STAT_KEYS : list string :=
  ["dev"; "ino"; "mode"; "nlink"; "uid"; "gid"; "rdev"; "size"; "blksize"; "blocks"; "atimeMs"; "mtimeMs"; "ctimeMs"; "birthtimeMs"].
Definition NS_KEYS : list string := ["atimeNs"; "mtimeNs"; "ctimeNs"; "birthtimeNs"].

Definition ANCESTOR_STATS : stat :=
  mkStat KDir (JObj (map (fun k => (k, JNum (if String.eqb k "mode" then 16749 else if String.eqb k "nlink" then 1
                                            else if String.eqb k "blksize" then 4096 else 0))) STAT_KEYS)).

(** [fs.constants], as Linux has them. *)
Definition O_RDONLY : Z := 0.
Definition O_WRONLY : Z := 1.
Definition O_RDWR : Z := 2.
Definition O_CREAT : Z := 64.
Definition O_EXCL : Z := 128.
Definition O_TRUNC : Z := 512.
Definition O_APPEND : Z := 1024.
Definition O_NONBLOCK : Z := 2048.
Definition O_SYNC : Z := 1052672.

Definition bits (l : list Z) : Z := fold_left Z.lor l 0.

Definition FLAG_TABLE : list (string * Z) :=
  let W := bits [O_TRUNC; O_CREAT; O_WRONLY] in let WR := bits [O_TRUNC; O_CREAT; O_RDWR] in
  let A := bits [O_APPEND; O_CREAT; O_WRONLY] in let AR := bits [O_APPEND; O_CREAT; O_RDWR] in
  [("r", O_RDONLY); ("rs", Z.lor O_RDONLY O_SYNC); ("sr", Z.lor O_RDONLY O_SYNC); ("r+", O_RDWR);
   ("rs+", Z.lor O_RDWR O_SYNC); ("sr+", Z.lor O_RDWR O_SYNC);
   ("w", W); ("wx", Z.lor W O_EXCL); ("xw", Z.lor W O_EXCL); ("w+", WR); ("wx+", Z.lor WR O_EXCL); ("xw+", Z.lor WR O_EXCL);
   ("a", A); ("ax", Z.lor A O_EXCL); ("xa", Z.lor A O_EXCL); ("as", Z.lor A O_SYNC); ("sa", Z.lor A O_SYNC);
   ("a+", AR); ("ax+", Z.lor AR O_EXCL); ("xa+", Z.lor AR O_EXCL); ("as+", Z.lor AR O_SYNC); ("sa+", Z.lor AR O_SYNC)].

(** An open flag argument: a number, or what [String()] makes of it. *)
Inductive flag_arg := FlagNum (n : Z) | FlagText (s : string) | FlagAbsent.

(** Names [FLAG_TABLE] and [OPS] find on Object.prototype. *)
Definition inherited : list string :=
  ["constructor"; "__defineGetter__"; "__defineSetter__"; "hasOwnProperty"; "__lookupGetter__"; "__lookupSetter__";
   "isPrototypeOf"; "propertyIsEnumerable"; "toString"; "valueOf"; "__proto__"; "toLocaleString"].

Definition numericFlags (flags : flag_arg) : result Z :=
  let text s := match assoc s FLAG_TABLE with
                | Some n => Ok n
                | None => if includes s inherited then Throw (plain_error "spec.split is not a function")
                          else Throw (nodeError "EINVAL" "open" None None)
                end in
  match flags with
  | FlagNum n => Ok n
  | FlagAbsent => text "r"
  | FlagText s => text s
  end.

Definition has_bit (n m : Z) : bool := negb (Z.land n m =? 0).

(** [openFlags]: does it write, does it create (or destroy). *)
Definition writes_bits : Z := bits [O_WRONLY; O_RDWR; O_CREAT; O_TRUNC; O_APPEND].
Definition creates_bits : Z := bits [O_CREAT; O_TRUNC; O_EXCL].
Definition openFlags (flags : flag_arg) : result (bool * bool) :=
  let! n := numericFlags flags in Ok (has_bit n writes_bits, has_bit n creates_bits).

(** ** Calls and answers *)

(** One request of the worker: an operation of OPS with its arguments. *)
Inductive call :=
| CAccess (p : pathval) (mode : jsval)
| CExists (p : pathval)
| CStat (p : pathval) (bigint : bool)
| CLstat (p : pathval) (bigint : bool)
| CRealpath (p : pathval)
| CReadlink (p : pathval)
| CReaddir (p : pathval) (recursive withFileTypes : bool)
| CStatfs (p : pathval)
| CMkdir (p : pathval) (opts : jsval)
| CMkdtemp (p : pathval)
| CRmdir (p : pathval)
| CRm (p : pathval) (opts : jsval)
| CUnlink (p : pathval)
| CRename (from to : pathval)
| CCopyFile (from to : pathval) (excl : bool)
| CLink (from to : pathval)
| CSymlink (target : string) (p : pathval) (type_ : jsval)
| CChmod (p : pathval) (mode : num)
| CChown (p : pathval) (uid gid : jsval)
| CLchown (p : pathval) (uid gid : jsval)
| CUtimes (p : pathval) (atime mtime : jsval)
| CLutimes (p : pathval) (atime mtime : jsval)
| CTruncate (p : pathval) (len : narg)
| COpen (p : pathval) (flags : flag_arg) (mode : jsval)
| CReadFile (p : pathval) (flags : flag_arg)
| CWriteFile (p : pathval) (data : string) (flags : flag_arg) (mode : jsval)
| CClose (fd : Z)
| CRead (fd : Z) (length : narg) (position : narg)
| CWrite (fd : Z) (data : string) (position : narg)
| CFstat (fd : Z) (bigint : bool)
| CFtruncate (fd : Z) (len : narg)
| CFsync (fd : Z)
| CFdatasync (fd : Z)
| CFchmod (fd : Z) (mode : num)
| CFchown (fd : Z) (uid gid : jsval)
| CFutimes (fd : Z) (atime mtime : jsval)
| CUnknown (op : string).

Inductive dirent_out := DName (name : string) | DEntry (name : string) (type_ : string) (parentPath : string).

Inductive answer :=
| AUndef
| ATrue
| AFalse
| AText (s : string)
| AStats (bigint : bool) (fields : jsval)
| AList (l : list dirent_out)
| AJson (v : jsval)
| AData (s : string)
| ANum (n : Z).

Definition statsOut (st : stat) (bigint : bool) : answer :=
  AStats bigint (JObj (map (fun k => (k, jget k (st_all st))) (STAT_KEYS ++ if bigint then NS_KEYS else []))).

Definition direntType (k : kind) : string :=
  match k with KFile => "file" | KDir => "dir" | KLink => "symlink" | KOther => "other" end.

(** ** The broker *)

Inductive mode := Off | Audit | Enforce.

#[export] Instance mode_eq_dec : EqDecision mode.
Proof. solve_decision. Defined.

Inductive want := WantR | WantW.

#[export] Instance want_eq_dec : EqDecision want.
Proof. solve_decision. Defined.

Section broker.
Context (fileURLToPath : string -> result string) (process_cwd : string).
(** The broker's options. *)
Context (m : mode) (ns : namespace) (cwd : string) (has_quota linux : bool) (maxEntries : Z).

Definition enforce : bool := bool_decide (m = Enforce).

Definition report (rule target : string) : prog brE unit :=
  if decide (m = Off) then Ret tt else ask (BReport rule target).

Definition quotaRoot (p : placed) : bool :=
  match p_res p with RRoot _ _ r => r_quota r | _ => false end.

Definition lstatOrNull (p : string) : prog brE (option stat) := or_null_of (ask (HLstat p false)).

(** [run]: an operation whose errors are re-addressed. *)
Definition run_op {A} (p : placed) (syscall : string) (dest : option placed) (op : eprog A) : eprog A :=
  pbind op (fun r => Ret match r with
                         | Ok a => Ok a
                         | Throw e => Throw (rewrite_err e syscall (Some p) dest ns)
                         end).

(** *** Placing a path argument *)

Definition cachedRealpath (dir : string) : eprog string :=
  do now <- ask BNow in
  do hit <- ask (BCacheGet dir) in
  let fetch := try real <- ask (HRealpath dir) in
               do _ <- ask (BCacheSet dir real now) in ok real in
  match hit with
  | Some (real, at_) => if now - at_ <? RP_CACHE_MS then ok real else fetch
  | None => fetch
  end.

(** The parent's real path, the name in it, and what is there: an identity. *)
Definition viaParent (host : string) (follow : bool) : prog brE (option (string * identity)) :=
  do parent <- or_null_of (cachedRealpath (dirname host)) in
  match parent with
  | None => Ret None
  | Some parentReal =>
      let loc := path_join [parentReal; basename host] in
      do st <- lstatOrNull loc in
      Ret (Some (loc, match st with
                      | Some st => if follow then IdParent parentReal else IdInode (st_dev st) (st_ino st)
                      | None => IdParent parentReal
                      end))
  end.

(** A followed name that is no link: its parent's real path and an lstat. *)
Definition viaName (host : string) : prog brE (option (string * identity)) :=
  do parent <- or_null_of (cachedRealpath (dirname host)) in
  match parent with
  | None => Ret None
  | Some parentReal =>
      let loc := path_join [parentReal; basename host] in
      do st <- ask (HLstat loc false) in
      Ret match st with
          | Throw e => if bool_decide (e_code e = Some "ENOENT") then Some (loc, IdParent parentReal) else None
          | Ok st => if isSymbolicLink st then None else Some (loc, IdInode (st_dev st) (st_ino st))
          end
  end.

(** Where the path really is; [None] when neither it nor its parent is. *)
Definition locate (p : placed) (host syscall : string) (isRootItself follow : bool)
  : eprog (option (string * identity)) :=
  do named <- (if follow && negb isRootItself then viaName host else Ret None) in
  match named with
  | Some l => ok (Some l)
  | None =>
      if follow || isRootItself then
        do r <- (try realLoc <- ask (HRealpath host) in
                 try st <- ask (HStat realLoc false) in
                 ok (realLoc, IdInode (st_dev st) (st_ino st))) in
        match r with
        | Ok l => ok (Some l)
        | Throw e =>
            if bool_decide (e_code e = Some "ENOENT") then do l <- viaParent host follow in ok l
            else throw (rewrite_err e syscall (Some p) None ns)
        end
      else do l <- viaParent host follow in ok l
  end.

(** [checkHost]: the root that holds the real location ([None]: no root does),
    and the identity to verify an open against. *)
Definition checkHost (p : placed) (host : string) (r : root) (syscall : string) (follow : bool)
  : eprog (option (root * option identity)) :=
  try l <- locate p host syscall (String.eqb (p_virtual p) (r_vroot r)) follow in
  ok match l with
     | None => Some (r, None)
     | Some (realLoc, ident) =>
         match rootForReal ns realLoc with
         | None => None
         | Some root => Some (root, Some ident)
         end
     end.

Definition place (path : pathval) (w : want) (syscall : string) (follow : bool) : eprog placed :=
  match resolve_path fileURLToPath process_cwd ns path cwd with
  | Throw e => throw e
  | Ok (RAncestor v _ as res) =>
      if negb enforce then ok (mkPlaced (ROutside v) (Some v) v None None)
      else if decide (w = WantW) then throw (nodeError "EROFS" syscall (Some v) None)
      else ok (mkPlaced res None v None None)
  | Ok (ROutside v as res) =>
      do _ <- report "outside" v in
      if enforce then throw (nodeError "ENOENT" syscall (Some v) None)
      else ok (mkPlaced res (Some v) v None None)
  | Ok (RRoot v host r as res) =>
      let p := mkPlaced res (Some host) v (Some r) None in
      if decide (m = Off) then ok p
      else
        try chk <- checkHost p host r syscall follow in
        try p <- match chk with
                 | None => do _ <- report "escape" v in
                           if enforce then throw (nodeError "ENOENT" syscall (Some v) None) else ok p
                 | Some (root, ident) => ok (mkPlaced res (Some host) v (Some root) ident)
                 end in
        if decide (w = WantW) then
          if match p_root p with Some r => r_writable r | None => true end then ok p
          else do _ <- report "readonly" v in
               if enforce then throw (nodeError "EROFS" syscall (Some v) None) else ok p
        else ok p
  end.

Definition isRoot (p : placed) : bool :=
  match p_res p with RRoot v _ r => String.eqb v (r_vroot r) | _ => false end.

Definition out (hostPath : string) (p : placed) : string :=
  match p_res p with
  | RRoot _ _ _ => default (p_virtual p) (toVirtual ns hostPath)
  | _ => hostPath
  end.

(** *** Verifying an opened file *)

Definition refuse_opened (fh : Z) (p : placed) (syscall : string) : eprog unit :=
  do _ <- ask (FClose fh) in
  do _ <- report "escape" (p_virtual p) in
  throw (nodeError "ENOENT" syscall (Some (p_virtual p)) None).

(** The opened file is the one that was checked: by inode, or by the real path
    of its parent. *)
Definition identity_holds (fh : Z) (host : string) (id : identity) : eprog bool :=
  match id with
  | IdParent parent =>
      do real <- or_null_of (ask (HRealpath (dirname host))) in
      ok (bool_decide (real = Some parent))
  | IdInode dev ino =>
      try st <- ask (FStat fh false) in
      ok ((st_dev st =? dev) && (st_ino st =? ino))
  end.

Definition proc_link (fh : Z) : string := "/proc/self/fd/" +:+ Z_text fh.

(** On Linux the descriptor's own link must lie in a root; in the very root
    that was checked, for a write. *)
Definition link_holds (fh : Z) (p : placed) (writes : bool) : prog brE bool :=
  do link <- or_null_of (ask (HReadlink (proc_link fh))) in
  Ret match link with
      | None => true
      | Some l => match rootForReal ns l with
                  | None => false
                  | Some holder => negb writes || bool_decide (Some holder = p_root p)
                  end
      end.

Definition verifyOpened (fh : Z) (p : placed) (syscall : string) (writes : bool) : eprog unit :=
  match p_ident p, p_res p with
  | Some id, RRoot _ host _ =>
      if negb enforce then ok tt
      else
        try same <- identity_holds fh host id in
        do fine <- (if (same : bool) && linux then link_holds fh p writes else Ret same) in
        if fine : bool then ok tt else refuse_opened fh p syscall
  | _, _ => ok tt
  end.

(** *** The quota around an operation *)

Definition counts_here (p : placed) : bool := has_quota && quotaRoot p.

Definition counted {A} (p : placed) (bytes entries : num) (syscall : string) (op : eprog A) (actual : option (num * num)) : eprog A :=
  if negb (counts_here p) then op
  else
    try _ <- ask (BReserve bytes entries syscall (p_virtual p)) in
    do r <- op in
    match r with
    | Throw e => do _ <- ask (BSettle bytes entries (Fin 0) (Fin 0)) in throw e
    | Ok a =>
        let '(ab, ae) := default (bytes, entries) actual in
        do _ <- ask (BSettle bytes entries ab ae) in ok a
    end.

(** [release]: what a removal gave back. *)
Definition neg (n : Z) : num := Fin (- n).
Definition give_back (p : placed) (bytes entries : Z) : prog brE unit :=
  if counts_here p && (negb (bytes =? 0) || negb (entries =? 0))
  then ask (BSettle (Fin 0) (Fin 0) (neg bytes) (neg entries)) else Ret tt.

(** [removalUsage]: a directory's subtree, a file's size when it is the last
    link, one entry per name. *)
Definition removalUsage (host virtual : string) : eprog (Z * Z) :=
  do st <- lstatOrNull host in
  match st with
  | None => ok (0, 0)
  | Some st =>
      if isDirectory st then
        try sub <- measure 10 true [(host, virtual)] in
        ok (w_bytes sub, w_entries sub + 1)
      else ok (if isFile st && (st_nlink st =? 1) then st_size st else 0, 1)
  end.

(** A host function called with no host path (an ancestor of the roots). *)
Definition no_path {A} : eprog A :=
  throw (coded_error "ERR_INVALID_ARG_TYPE" "The path argument must be of type string or an instance of Buffer or URL. Received null").
Definition on_host {A} (p : placed) (f : string -> eprog A) : eprog A :=
  match p_host p with Some h => f h | None => no_path end.

(** *** Reading operations *)

Definition op_access (path : pathval) (am : jsval) : eprog answer :=
  try p <- place path WantR "access" true in
  match p_host p with
  | None => ok ATrue
  | Some h => run_op p "access" None (try _ <- ask (HAccess h am) in ok ATrue)
  end.

Definition op_exists (path : pathval) : eprog answer :=
  do r <- (try p <- place path WantR "access" true in
           match p_host p with
           | None => ok tt
           | Some h => ask (HAccess h JUndef)
           end) in
  ok match r with Ok _ => ATrue | Throw _ => AFalse end.

Definition op_stat (path : pathval) (big : bool) : eprog answer :=
  try p <- place path WantR "stat" true in
  match p_host p with
  | None => ok (statsOut ANCESTOR_STATS false)
  | Some h => run_op p "stat" None (try s <- ask (HStat h big) in ok (statsOut s big))
  end.

Definition op_lstat (path : pathval) (big : bool) : eprog answer :=
  try p <- place path WantR "lstat" false in
  match p_host p with
  | None => ok (statsOut ANCESTOR_STATS false)
  | Some h => run_op p "lstat" None (try s <- ask (HLstat h big) in ok (statsOut s big))
  end.

Definition op_realpath (path : pathval) : eprog answer :=
  try p <- place path WantR "realpath" true in
  match p_host p with
  | None => ok (AText (p_virtual p))
  | Some h => run_op p "realpath" None (try r <- ask (HRealpath h) in ok (AText (out r p)))
  end.

Definition op_readlink (path : pathval) : eprog answer :=
  try p <- place path WantR "readlink" false in
  run_op p "readlink" None (on_host p (fun h =>
    try target <- ask (HReadlink h) in
    ok (AText (if negb (is_absolute target) then target else default target (toVirtual ns target))))).

(** One directory's entries, as they are answered and queued. *)
Fixpoint dir_entries (p : placed) (recursive types : bool) (dir rel : string) (ds : list dirent)
  (acc : list dirent_out) (queue : list (string * string)) : result (list dirent_out * list (string * string)) :=
  match ds with
  | [] => Ok (acc, queue)
  | d :: rest =>
      if maxEntries <=? Z.of_nat (length acc) then Throw (nodeError "ENOBUFS" "scandir" (Some (p_virtual p)) None)
      else
        let relName := if String.eqb rel "" then de_name d else rel +:+ "/" +:+ de_name d in
        let entry := if types then DEntry (de_name d) (direntType (de_kind d)) (out dir p) else DName relName in
        let queue := if recursive && bool_decide (de_kind d = KDir)
                     then queue ++ [(dir +:+ "/" +:+ de_name d, relName)] else queue in
        dir_entries p recursive types dir rel rest (acc ++ [entry]) queue
  end.

Definition readdir_step (p : placed) (recursive types : bool) (s : list dirent_out * list (string * string))
  : eprog ((list dirent_out * list (string * string)) + list dirent_out) :=
  match s with
  | (acc, []) => ok (inr acc)
  | (acc, (dir, rel) :: queue) =>
      try ds <- ask (HReaddir dir) in
      try s' <- Ret (dir_entries p recursive types dir rel ds acc queue) in
      ok (inl s')
  end.

Definition op_readdir (path : pathval) (recursive types : bool) : eprog answer :=
  try p <- place path WantR "scandir" true in
  match p_res p, p_host p with
  | RAncestor _ kids, None =>
      ok (AList (map (fun k => if types then DEntry k.1 (match k.2 with CFile => "file" | CDir => "dir" end) (p_virtual p)
                               else DName k.1) kids))
  | _, Some h => run_op p "scandir" None (try l <- loop (readdir_step p recursive types) ([], [(h, "")]) in ok (AList l))
  | _, None => no_path
  end.

Definition op_statfs (path : pathval) : eprog answer :=
  try p <- place path WantR "statfs" true in
  run_op p "statfs" None (on_host p (fun h => try s <- ask (HStatfs h) in ok (AJson s))).

(** *** Mutating operations *)

(** How many components a recursive mkdir creates. *)
Fixpoint missing_from (fuel : nat) (h root_host : string) (n : Z) : prog brE Z :=
  match fuel with
  | O => Ret n
  | S f =>
      if String.eqb h root_host then Ret n
      else do st <- lstatOrNull h in
           match st with Some _ => Ret n | None => missing_from f (dirname h) root_host (n + 1) end
  end.

Definition mkdir_missing (p : placed) (opts : jsval) : prog brE Z :=
  match p_res p with
  | RRoot _ host r =>
      if counts_here p && truthy (jget "recursive" opts)
      then missing_from (S (String.length host)) host (r_host r) 0 else Ret 1
  | _ => Ret 1
  end.

Definition op_mkdir (path : pathval) (opts : jsval) : eprog answer :=
  try p <- place path WantW "mkdir" false in
  do missing <- mkdir_missing p opts in
  counted p (Fin 0) (Fin missing) "mkdir"
    (run_op p "mkdir" None (on_host p (fun h =>
       try r <- ask (HMkdir h opts) in
       ok match r with None => AUndef | Some made => AText (out made p) end))) None.

Definition op_mkdtemp (path : pathval) : eprog answer :=
  try p <- place path WantW "mkdtemp" false in
  counted p (Fin 0) (Fin 1) "mkdtemp"
    (run_op p "mkdtemp" None (on_host p (fun h => try r <- ask (HMkdtemp h) in ok (AText (out r p))))) None.

Definition op_rmdir (path : pathval) : eprog answer :=
  try p <- place path WantW "rmdir" false in
  if isRoot p then throw (nodeError "EBUSY" "rmdir" (Some (p_virtual p)) None)
  else
    try _ <- run_op p "rmdir" None (on_host p (fun h => ask (HRmdir h))) in
    do _ <- give_back p 0 1 in ok AUndef.

(** rm and unlink: measured first when the quota counts it. *)
Definition remove (path : pathval) (syscall : string) (host_op : string -> eprog unit) : eprog answer :=
  try p <- place path WantW syscall false in
  if isRoot p then throw (nodeError "EBUSY" syscall (Some (p_virtual p)) None)
  else
    try usage <- (if counts_here p then on_host p (fun h => removalUsage h (p_virtual p)) else ok (0, 0)) in
    try _ <- run_op p syscall None (on_host p host_op) in
    do _ <- give_back p usage.1 usage.2 in ok AUndef.

Definition op_rm (path : pathval) (opts : jsval) : eprog answer := remove path "rm" (fun h => ask (HRm h opts)).
Definition op_unlink (path : pathval) : eprog answer := remove path "unlink" (fun h => ask (HUnlink h)).

Definition is_root_kind (p : placed) : bool := match p_res p with RRoot _ _ _ => true | _ => false end.

Definition roots_agree (a b : placed) : bool := bool_decide (p_root a = p_root b).

(** What a rename gives back: a different file that it replaces. *)
Definition replaced_usage (src dst : option stat) : Z * Z :=
  match dst with
  | None => (0, 0)
  | Some d =>
      let same := match src with
                  | Some s => (st_dev s =? st_dev d) && (st_ino s =? st_ino d)
                  | None => false
                  end in
      if same then (0, 0) else (if isFile d && (st_nlink d =? 1) then st_size d else 0, 1)
  end.

Definition op_rename (fromp top : pathval) : eprog answer :=
  try from <- place fromp WantW "rename" false in
  try to <- place top WantW "rename" false in
  if isRoot from || isRoot to then throw (nodeError "EBUSY" "rename" (Some (p_virtual from)) (Some (p_virtual to)))
  else if is_root_kind from && is_root_kind to && negb (roots_agree from to)
  then throw (nodeError "EXDEV" "rename" (Some (p_virtual from)) (Some (p_virtual to)))
  else
    on_host from (fun fh => on_host to (fun th =>
      do replaced <- (if counts_here to
                      then do src <- lstatOrNull fh in do dst <- lstatOrNull th in Ret (replaced_usage src dst)
                      else Ret (0, 0)) in
      try _ <- run_op from "rename" (Some to) (ask (HRename fh th)) in
      do _ <- give_back to replaced.1 replaced.2 in ok AUndef)).

(** The copy's loops: a buffer at a time, each written out whole. *)
Definition COPY_BUFFER : Z := 1024 * 1024.

Definition write_all (dst : Z) (data : string) : eprog unit :=
  loop (fun rest =>
          if String.eqb rest "" then ok (inr tt)
          else try n <- ask (FWrite dst rest NUndef) in ok (inl (sdrop (Z.to_nat n) rest))) data.

Definition copy_loop (src dst : Z) : eprog unit :=
  loop (fun _ => try data <- ask (FRead src COPY_BUFFER NNull) in
                 if String.eqb data "" then ok (inr tt)
                 else try _ <- write_all dst data in ok (inl tt)) tt.

Definition close_quietly (fh : Z) : prog brE unit := do _ <- ask (FClose fh) in Ret tt.

(** From the opened source on; both descriptors are closed at the end. *)
Definition copy_opened (excl : bool) (from to : placed) (th : string) (src : Z) : eprog answer :=
  try st <- ask (FStat src false) in
  if negb (isFile st) then throw (nodeError "EPERM" "copyfile" (Some (p_virtual from)) (Some (p_virtual to)))
  else
    try _ <- verifyOpened src from "copyfile" false in
    let flags := bits [O_WRONLY; O_CREAT; O_NONBLOCK; if excl then O_EXCL else 0] in
    try dst <- run_op from "copyfile" (Some to) (ask (HOpen th flags (JNum (Z.land (st_mode st) 511)))) in
    finally
      (try _ <- verifyOpened dst to "copyfile" true in
       try _ <- ask (FTruncate dst (NInt 0)) in
       try _ <- copy_loop src dst in ok AUndef)
      (close_quietly dst).

Definition copy (excl : bool) (from to : placed) (toh : string) : eprog answer :=
  try src <- run_op from "copyfile" (Some to)
               (on_host from (fun h => ask (HOpen h (bits [O_RDONLY; O_NONBLOCK]) JUndef))) in
  finally (copy_opened excl from to toh src) (close_quietly src).

Definition copy_growth (src dst : option stat) : Z :=
  (match src with Some s => st_size s | None => 0 end) -
  (match dst with Some d => if isFile d then st_size d else 0 | None => 0 end).

Definition op_copyFile (fromp top : pathval) (excl : bool) : eprog answer :=
  try from <- place fromp WantR "copyfile" true in
  try to <- place top WantW "copyfile" true in
  on_host to (fun th =>
    if counts_here to then
      do src <- or_null_of (on_host from (fun h => ask (HStat h false))) in
      do dst <- lstatOrNull th in
      counted to (Fin (copy_growth src dst)) (Fin match dst with None => 1 | Some _ => 0 end) "copyfile"
        (copy excl from to th) None
    else copy excl from to th).

Definition op_link (fromp top : pathval) : eprog answer :=
  try from <- place fromp WantR "link" false in
  try to <- place top WantW "link" false in
  let inside_one := is_root_kind from && is_root_kind to && roots_agree from to &&
                    match p_root to with Some r => r_writable r | None => false end in
  if (is_root_kind from || is_root_kind to) && negb inside_one
  then throw (nodeError "EPERM" "link" (Some (p_virtual from)) (Some (p_virtual to)))
  else
    counted to (Fin 0) (Fin 1) "link"
      (run_op from "link" (Some to) (on_host from (fun fh => on_host to (fun th => try _ <- ask (HLink fh th) in ok AUndef)))) None.

(** The link rule: a relative target that stays, read from the link's virtual
    path, in the root it is made in. *)
Definition link_stays (at_ : placed) (target : string) : bool :=
  match p_res at_ with
  | RRoot v _ r => negb (is_absolute target) && inside (resolve process_cwd [dirname v; target]) (r_vroot r)
  | _ => true
  end.

Definition op_symlink (target : string) (path : pathval) (type_ : jsval) : eprog answer :=
  try at_ <- place path WantW "symlink" false in
  if negb (link_stays at_ target) then throw (nodeError "EPERM" "symlink" (Some target) (Some (p_virtual at_)))
  else
    counted at_ (Fin 0) (Fin 1) "symlink"
      (run_op at_ "symlink" None (on_host at_ (fun h => try _ <- ask (HSymlink target h type_) in ok AUndef))) None.

(** chmod and its kind: one host call on the placed path. *)
Definition change (path : pathval) (syscall : string) (follow : bool) (host_op : string -> eprog unit) : eprog answer :=
  try p <- place path WantW syscall follow in
  run_op p syscall None (on_host p (fun h => try _ <- host_op h in ok AUndef)).

(** [Number(mode) & 0o777] *)
Definition mode_bits (n : num) : num := match n with Fin z => Fin (Z.land z 511) | NaN => Fin 0 end.

Definition op_truncate (path : pathval) (len : narg) : eprog answer :=
  try p <- place path WantW "open" true in
  on_host p (fun h =>
    let n := js_num_or0 len in
    do st <- (if counts_here p then or_null_of (ask (HStat h false)) else Ret None) in
    let size := match st with Some s => st_size s | None => 0 end in
    counted p (nmax0 (nsub n (Fin size))) (Fin 0) "open"
      (run_op p "open" None (try _ <- ask (HTruncate h len) in ok AUndef))
      (Some (nsub n (Fin size), Fin 0))).

(** *** Descriptors *)

Definition fdEntry (fd : Z) (syscall : string) : eprog fd_entry :=
  do e <- ask (BFdGet fd) in
  match e with Some e => ok e | None => throw (nodeError "EBADF" syscall None None) end.

(** [serial]: after the operations already queued on the descriptor. *)
Definition serial {A} (e : fd_entry) (op : eprog A) : eprog A :=
  do _ <- ask (BTurn (e_handle e)) in
  do r <- op in
  do _ <- ask (BTurnDone (e_handle e)) in
  Ret r.

(** What an open descriptor turned out to be: a file, a directory, or
    something special, refused under enforce. *)
Definition check_special (fh : Z) (p : placed) (st : stat) : eprog unit :=
  if isFile st || isDirectory st then ok tt
  else
    do _ <- report "special" (p_virtual p) in
    if enforce then do _ <- ask (FClose fh) in throw (nodeError "EPERM" "open" (Some (p_virtual p)) None)
    else ok tt.

(** The truncation [open] leaves until the file is verified. *)
Definition truncate_opened (fh : Z) (p : placed) (st : stat) : eprog unit :=
  if isFile st then
    try _ <- run_op p "open" None (ask (FTruncate fh (NInt 0))) in
    do _ <- (if counts_here p && (0 <? st_size st) then ask (BSettle (Fin 0) (Fin 0) (neg (st_size st)) (Fin 0)) else Ret tt) in
    ok tt
  else ok tt.

Definition open_host (p : placed) (h : string) (n : Z) (om : jsval) (newEntry : bool) : eprog Z :=
  do r <- ask (HOpen h (Z.lor (Z.land n (Z.lnot O_TRUNC)) O_NONBLOCK) om) in
  match r with
  | Ok fh => ok fh
  | Throw e =>
      do _ <- (if newEntry then ask (BSettle (Fin 0) (Fin 1) (Fin 0) (Fin 0)) else Ret tt) in
      throw (rewrite_err e "open" (Some p) None ns)
  end.

Definition op_open (path : pathval) (flags : flag_arg) (om : jsval) : eprog Z :=
  try fl <- Ret (openFlags flags) in
  try p <- place path (if fl.1 then WantW else WantR) "open" true in
  match p_host p with
  | None => throw (nodeError "EISDIR" "open" (Some (p_virtual p)) None)
  | Some h =>
      do count <- ask BFdCount in
      if MAX_FDS <=? count then throw (nodeError "EMFILE" "open" (Some (p_virtual p)) None)
      else
        try n <- Ret (numericFlags flags) in
        let counts := counts_here p in
        do before <- (if counts then lstatOrNull h else Ret None) in
        let newEntry := counts && match before with None => true | Some _ => false end && has_bit n O_CREAT in
        try _ <- (if newEntry then ask (BReserve (Fin 0) (Fin 1) "open" (p_virtual p)) else ok tt) in
        try fh <- open_host p h n om newEntry in
        try _ <- verifyOpened fh p "open" fl.1 in
        try st <- ask (FStat fh false) in
        try _ <- check_special fh p st in
        try _ <- (if has_bit n O_TRUNC then truncate_opened fh p st else ok tt) in
        do fd <- ask (BFdAdd (mkEntry fh (p_virtual p) p (has_bit n O_APPEND) counts)) in
        ok fd
  end.

Definition op_close (fd : Z) : eprog answer :=
  try e <- fdEntry fd "close" in
  do _ <- ask (BFdDelete fd) in
  do _ <- ask (BTurn (e_handle e)) in
  do _ <- ask (FClose (e_handle e)) in
  do _ <- ask (BTurnDone (e_handle e)) in
  ok AUndef.

Definition op_read (fd : Z) (length position : narg) : eprog answer :=
  try e <- fdEntry fd "read" in
  match js_num length with
  | Fin n =>
      if (n <? 0) || (MAX_IO <? n) then throw (nodeError "EINVAL" "read" (Some (e_fdvirtual e)) None)
      else serial e
        (try data <- run_op (e_placed e) "read" None
                       (ask (FRead (e_handle e) n (if absent position then NNull else position))) in
         do _ <- (if absent position
                  then do pos <- ask (BPos (e_handle e)) in
                       ask (BSetPos (e_handle e) (nadd pos (Fin (Z.of_nat (String.length data)))))
                  else Ret tt) in
         ok (AData data))
  | NaN => throw (nodeError "EINVAL" "read" (Some (e_fdvirtual e)) None)
  end.

(** Where a write is taken to go: its position, the end of an append, or the
    tracked position. *)
Definition write_at (e : fd_entry) (position : narg) (size : Z) (pos : num) : num :=
  if negb (absent position) then js_num position
  else if e_append e then Fin size else pos.

Definition slength (s : string) : Z := Z.of_nat (String.length s).

(** The write itself with its accounting, in the descriptor's turn. *)
Definition write_turn (e : fd_entry) (data : string) (position : narg) : eprog Z :=
  let counts := e_counts e && has_quota in
  let fh := e_handle e in
  try measured <- (if counts then
                     try st <- ask (FStat fh false) in
                     do pos <- ask (BPos fh) in
                     let at_ := write_at e position (st_size st) pos in
                     let growth := nmax0 (nsub (nadd at_ (Fin (slength data))) (Fin (st_size st))) in
                     try _ <- ask (BReserve growth (Fin 0) "write" (e_fdvirtual e)) in
                     ok (st_size st, at_, growth)
                   else ok (0, Fin 0, Fin 0)) in
  let '(size, at_, growth) := measured in
  do r <- ask (FWrite fh data (if absent position then NNull else position)) in
  match r with
  | Throw err =>
      do _ <- (if counts then ask (BSettle growth (Fin 0) (Fin 0) (Fin 0)) else Ret tt) in
      throw (rewrite_err err "write" (Some (e_placed e)) None ns)
  | Ok n =>
      do _ <- (if counts then ask (BSettle growth (Fin 0) (nmax0 (nsub (nadd at_ (Fin n)) (Fin size))) (Fin 0)) else Ret tt) in
      do _ <- (if absent position then
                 do pos <- ask (BPos fh) in
                 ask (BSetPos fh (if counts && e_append e then nadd at_ (Fin n) else nadd pos (Fin n)))
               else Ret tt) in
      ok n
  end.

Definition op_write (fd : Z) (data : string) (position : narg) : eprog Z :=
  try e <- fdEntry fd "write" in
  if MAX_IO <? slength data then throw (nodeError "EINVAL" "write" (Some (e_fdvirtual e)) None)
  else serial e (write_turn e data position).

Definition op_ftruncate (fd : Z) (len : narg) : eprog answer :=
  try e <- fdEntry fd "ftruncate" in
  serial e
    (if negb (e_counts e) || negb has_quota then try _ <- ask (FTruncate (e_handle e) len) in ok AUndef
     else
       let n := js_num_or0 len in
       try st <- ask (FStat (e_handle e) false) in
       let size := Fin (st_size st) in
       let growth := nmax0 (nsub n size) in
       try _ <- ask (BReserve growth (Fin 0) "ftruncate" (e_fdvirtual e)) in
       do r <- ask (FTruncate (e_handle e) len) in
       match r with
       | Throw err => do _ <- ask (BSettle growth (Fin 0) (Fin 0) (Fin 0)) in throw err
       | Ok _ => do _ <- ask (BSettle growth (Fin 0) (nsub n size) (Fin 0)) in ok AUndef
       end).

(** One host call on a descriptor, in its turn. *)
Definition on_fd {A} (fd : Z) (syscall : string) (host_op : Z -> eprog A) : eprog A :=
  try e <- fdEntry fd syscall in serial e (host_op (e_handle e)).

Definition quietly (op : eprog unit) : eprog answer := try _ <- op in ok AUndef.

(** *** Whole files *)

Definition READ_BUFFER : Z := 64 * 1024.

Definition read_step (e : fd_entry) (parts : string) : eprog (string + string) :=
  try data <- run_op (e_placed e) "read" None (ask (FRead (e_handle e) READ_BUFFER NNull)) in
  if String.eqb data "" then ok (inr parts)
  else if MAX_IO <? slength parts + slength data
       then throw (nodeError "EFBIG" "read" (Some (e_fdvirtual e)) None)
  else ok (inl (parts +:+ data)).

(** [readFile] closes what it opened past the descriptor's queue. *)
Definition op_readFile (path : pathval) (flags : flag_arg) : eprog answer :=
  try fd <- op_open path (match flags with FlagAbsent => FlagText "r" | f => f end) JUndef in
  do e <- ask (BFdGet fd) in
  match e with
  | None => throw (plain_error "Cannot read properties of undefined (reading 'fh')")
  | Some e =>
      finally (try data <- loop (read_step e) "" in ok (AData data))
        (do _ <- ask (BFdDelete fd) in do _ <- ask (FClose (e_handle e)) in Ret tt)
  end.

Definition write_file_step (fd : Z) (rest : string) : eprog (string + unit) :=
  if String.eqb rest "" then ok (inr tt)
  else try n <- op_write fd rest NNull in
       if n =? 0 then ok (inr tt) else ok (inl (sdrop (Z.to_nat n) rest)).

(** [finally { await OPS.close... }]: the close's error replaces the outcome. *)
Definition op_writeFile (path : pathval) (data : string) (flags : flag_arg) (om : jsval) (path_text : string) : eprog answer :=
  if MAX_IO <? slength data then throw (nodeError "EINVAL" "write" (Some path_text) None)
  else
    try fd <- op_open path (match flags with FlagAbsent => FlagText "w" | f => f end) om in
    do r <- loop (write_file_step fd) data in
    try _ <- op_close fd in
    Ret match r with Ok _ => Ok AUndef | Throw e => Throw e end.

(** ** Dispatch *)

Inductive lock_mode := SHARED | EXCL | NONE.

Definition open_lock (flags : flag_arg) : result lock_mode :=
  let! fl := openFlags flags in Ok (if (fl : bool * bool).2 then EXCL else SHARED).

Definition lock_of (c : call) : result lock_mode :=
  match c with
  | CAccess _ _ | CExists _ | CStat _ _ | CLstat _ _ | CRealpath _ | CReadlink _ | CReaddir _ _ _ | CStatfs _ => Ok SHARED
  | COpen _ f _ | CReadFile _ f | CWriteFile _ _ f _ => open_lock f
  | CClose _ | CRead _ _ _ | CWrite _ _ _ | CFstat _ _ | CFtruncate _ _ | CFsync _ | CFdatasync _ | CFchmod _ _
  | CFchown _ _ _ | CFutimes _ _ _ => Ok NONE
  | CUnknown _ => Ok SHARED
  | _ => Ok EXCL
  end.

(** [String(a[0])] of a path argument. *)
Definition path_string (p : pathval) : string :=
  match p with PStr s | PBuffer s | PUrl s => s | POther => "[object Object]" end.

Definition op_name (c : call) : string :=
  match c with
  | CAccess _ _ => "access" | CExists _ => "exists" | CStat _ _ => "stat" | CLstat _ _ => "lstat" | CRealpath _ => "realpath"
  | CReadlink _ => "readlink" | CReaddir _ _ _ => "readdir" | CStatfs _ => "statfs" | CMkdir _ _ => "mkdir"
  | CMkdtemp _ => "mkdtemp" | CRmdir _ => "rmdir" | CRm _ _ => "rm" | CUnlink _ => "unlink" | CRename _ _ => "rename"
  | CCopyFile _ _ _ => "copyFile" | CLink _ _ => "link" | CSymlink _ _ _ => "symlink" | CChmod _ _ => "chmod"
  | CChown _ _ _ => "chown" | CLchown _ _ _ => "lchown" | CUtimes _ _ _ => "utimes" | CLutimes _ _ _ => "lutimes"
  | CTruncate _ _ => "truncate" | COpen _ _ _ => "open" | CReadFile _ _ => "readFile" | CWriteFile _ _ _ _ => "writeFile"
  | CClose _ => "close" | CRead _ _ _ => "read" | CWrite _ _ _ => "write" | CFstat _ _ => "fstat" | CFtruncate _ _ => "ftruncate"
  | CFsync _ => "fsync" | CFdatasync _ => "fdatasync" | CFchmod _ _ => "fchmod" | CFchown _ _ _ => "fchown"
  | CFutimes _ _ _ => "futimes" | CUnknown op => op
  end.

Definition perform (c : call) : eprog answer :=
  match c with
  | CAccess p am => op_access p am
  | CExists p => op_exists p
  | CStat p b => op_stat p b
  | CLstat p b => op_lstat p b
  | CRealpath p => op_realpath p
  | CReadlink p => op_readlink p
  | CReaddir p r t => op_readdir p r t
  | CStatfs p => op_statfs p
  | CMkdir p o => op_mkdir p o
  | CMkdtemp p => op_mkdtemp p
  | CRmdir p => op_rmdir p
  | CRm p o => op_rm p o
  | CUnlink p => op_unlink p
  | CRename a b => op_rename a b
  | CCopyFile a b x => op_copyFile a b x
  | CLink a b => op_link a b
  | CSymlink t p ty => op_symlink t p ty
  | CChmod p cm => change p "chmod" true (fun h => ask (HChmod h (mode_bits cm)))
  | CChown p u g => change p "chown" true (fun h => ask (HChown h u g))
  | CLchown p u g => change p "lchown" false (fun h => ask (HLchown h u g))
  | CUtimes p a t => change p "utime" true (fun h => ask (HUtimes h a t))
  | CLutimes p a t => change p "lutime" false (fun h => ask (HLutimes h a t))
  | CTruncate p n => op_truncate p n
  | COpen p f om => try fd <- op_open p f om in ok (ANum fd)
  | CReadFile p f => op_readFile p f
  | CWriteFile p d f om => op_writeFile p d f om (path_string p)
  | CClose fd => op_close fd
  | CRead fd n pos => op_read fd n pos
  | CWrite fd d pos => try n <- op_write fd d pos in ok (ANum n)
  | CFstat fd b => on_fd fd "fstat" (fun h => try s <- ask (FStat h b) in ok (statsOut s b))
  | CFtruncate fd n => op_ftruncate fd n
  | CFsync fd => quietly (on_fd fd "fsync" (fun h => ask (FSync h false)))
  | CFdatasync fd => quietly (on_fd fd "fdatasync" (fun h => ask (FSync h true)))
  | CFchmod fd cm => quietly (on_fd fd "fchmod" (fun h => ask (FChmod h (mode_bits cm))))
  | CFchown fd u g => quietly (on_fd fd "fchown" (fun h => ask (FChown h u g)))
  | CFutimes fd a t => quietly (on_fd fd "futime" (fun h => ask (FUtimes h a t)))
  | CUnknown _ => throw (plain_error "Cannot read properties of undefined (reading 'call')")
  end.

(** An operation's slot in the shared scheduler. *)
Definition schedule {A} (op : eprog A) : eprog A :=
  do _ <- ask BSlot in do r <- op in do _ <- ask BSlotDone in Ret r.

Definition locked {A} (exclusive : bool) (op : eprog A) : eprog A :=
  do _ <- ask (BAcquire exclusive) in
  do _ <- (if exclusive then ask BCacheClear else Ret tt) in
  do r <- schedule op in
  do _ <- ask (BRelease exclusive) in Ret r.

Definition handleOne (c : call) : eprog answer :=
  if match c with CUnknown op => negb (includes op inherited) | _ => false end
  then throw (nodeError "EINVAL" (op_name c) None None)
  else
    do closed <- ask BClosed in
    if closed : bool then throw (nodeError "EIO" (op_name c) None None)
    else
      match lock_of c with
      | Throw e => throw e
      | Ok NONE => schedule (perform c)
      | Ok SHARED => locked false (perform c)
      | Ok EXCL => locked true (perform c)
      end.

(** [handle]: counted while it runs, for [idle]. *)
Definition handle (c : call) : eprog answer :=
  do _ <- ask BBegin in
  do r <- handleOne c in
  do _ <- ask BEnd in Ret r.
End broker.
