(* ===== verification/BrokerSafety.v ===== *)
(** * What a brokered operation may do, proved of Broker.v

    Under enforce, whatever the host answers and whatever other operations do
    meanwhile: every host path an operation acts on was placed in a root of the
    namespace and checked against its real location, a mutation only in a
    writable one; a descriptor is handed out only for a verified file; and an
    error names only what the module named. *)
From Stdlib Require Import ZArith Lia Ascii String.
From stdpp Require Import prelude strings gmap.
From S2P Require Import Prelude Paths Namespace FsErrors Quota Json Prog Host SpawnWalk Broker.

Set Default Proof Using "Type".
Local Open Scope Z_scope.

(** ** A call's arguments *)

(** The path arguments, and the other texts an error may repeat. *)
Definition paths_of (c : call) : list pathval :=
  match c with
  | CAccess p _ | CExists p | CStat p _ | CLstat p _ | CRealpath p | CReadlink p | CReaddir p _ _ | CStatfs p | CMkdir p _
  | CMkdtemp p | CRmdir p | CRm p _ | CUnlink p | CSymlink _ p _ | CChmod p _ | CChown p _ _ | CLchown p _ _ | CUtimes p _ _
  | CLutimes p _ _ | CTruncate p _ | COpen p _ _ | CReadFile p _ | CWriteFile p _ _ _ => [p]
  | CRename a b | CCopyFile a b _ | CLink a b => [a; b]
  | _ => []
  end.

Definition texts_of (c : call) : list string :=
  match c with
  | CSymlink t _ _ => [t]
  | CWriteFile p _ _ _ => [path_string p]
  | _ => []
  end.

Section safety.
Context (fileURLToPath : string -> result string) (process_cwd : string).
Context (ns : namespace) (cwd : string) (has_quota linux : bool) (maxEntries : Z).
Context (c : call).

Notation hist := (list (obs brE)).

(** ** Evidence in the history *)

(** The host said where [p] really is, now or at most a second ago. *)
Definition real_of (h : hist) (p real : string) : Prop :=
  Obs (HRealpath p) (Ok real) ∈ h \/
  exists at_ now, Obs (BCacheGet p) (Some (real, at_)) ∈ h /\ Obs BNow now ∈ h /\ now - at_ < RP_CACHE_MS.

(** [host] is really at [loc]: itself, or the name in its parent. *)
Definition located (h : hist) (host loc : string) : Prop :=
  real_of h host loc \/ exists parent, real_of h (dirname host) parent /\ loc = path_join [parent; basename host].

(** The identity recorded for it: the inode the host showed there, or its
    parent's real path. *)
Definition identified (h : hist) (host loc : string) (id : identity) : Prop :=
  match id with
  | IdInode dev ino => exists st, (Obs (HLstat loc false) (Ok st) ∈ h \/ Obs (HStat loc false) (Ok st) ∈ h) /\
                                  st_dev st = dev /\ st_ino st = ino
  | IdParent parent => real_of h (dirname host) parent /\ loc = path_join [parent; basename host]
  end.

(** Neither it nor its parent is there. *)
Definition missing (h : hist) (host : string) : Prop := exists e, Obs (HRealpath (dirname host)) (Throw e) ∈ h.

(** [host] is a path the namespace gives, its real location lies in [root]. *)
Definition in_root (h : hist) (host : string) (root : root) (id : option identity) : Prop :=
  exists v r, resolve_virtual ns v = RRoot v host r /\
    ((exists loc i, located h host loc /\ rootForReal ns loc = Some root /\ id = Some i /\ identified h host loc i) \/
     (missing h host /\ root = r /\ id = None)).

(** An operation on [host] was checked; a mutation, in a writable root. *)
Definition checked (h : hist) (host : string) (writes : bool) : Prop :=
  exists root id, in_root h host root id /\ (writes = true -> r_writable root = true).

(** A directory walked into: a checked path, or one listed in a directory walked
    into and no link. *)
Inductive reached (h : hist) : string -> Prop :=
| reached_placed host : checked h host false -> reached h host
| reached_listed dir ds d sub :
    reached h dir -> Obs (HReaddir dir) (Ok ds) ∈ h -> d ∈ ds ->
    (sub = dir +:+ "/" +:+ de_name d /\ de_kind d = KDir) \/
    (sub = path_join [dir; de_name d] /\ exists st, Obs (HLstat sub false) (Ok st) ∈ h /\ isDirectory st = true) ->
    reached h sub.

(** The open file is the one checked: its identity and, on Linux, its own
    link's root. *)
Definition verified (h : hist) (fh : Z) (host : string) (root : root) (id : option identity) (writes : bool) : Prop :=
  match id with
  | None => True
  | Some i =>
      match i with
      | IdInode dev ino => exists st, Obs (FStat fh false) (Ok st) ∈ h /\ st_dev st = dev /\ st_ino st = ino
      | IdParent parent => Obs (HRealpath (dirname host)) (Ok parent) ∈ h
      end /\
      (linux = true -> exists a, Obs (HReadlink (proc_link fh)) a ∈ h /\
         forall l, a = Ok l -> exists holder, rootForReal ns l = Some holder /\ (writes = true -> holder = root))
  end.

(** An open of a checked path, verified. *)
Definition opened (h : hist) (fh : Z) (host : string) (id : option identity) : Prop :=
  exists root flags om,
    Obs (HOpen host flags om) (Ok fh) ∈ h /\ in_root h host root id /\
    (has_bit flags writes_bits = true -> r_writable root = true) /\
    verified h fh host root id (has_bit flags writes_bits).

(** A descriptor's entry is such an open. *)
Definition entry_ok (h : hist) (e : fd_entry) : Prop :=
  exists host, p_host (e_placed e) = Some host /\ opened h (e_handle e) host (p_ident (e_placed e)).

(** The names the module gave: the virtual paths of this call's arguments, the
    texts it passed, and the name a descriptor was opened under. *)
Definition shown (h : hist) (v : string) : Prop :=
  (exists p, p ∈ paths_of c /\ toVirtualPath fileURLToPath process_cwd p cwd = Ok v) \/
  v ∈ texts_of c \/
  (exists fd e, Obs (BFdGet fd) (Some e) ∈ h /\ (v = p_virtual (e_placed e) \/ v = e_fdvirtual e)).

Definition shown_opt (h : hist) (v : option string) : Prop := match v with Some v => shown h v | None => True end.

(** An error the module may see. *)
Definition error_ok (h : hist) (e : jserr) : Prop := shown_opt h (e_path e) /\ shown_opt h (e_dest e).

(** ** Environment and policy *)

(** The errors of an open file carry no path, the quota's carries the one it
    was given, and a call's own path arguments throw with none. *)
Definition br_env (h : hist) (X : Type) (e : brE X) : X -> Prop :=
  match e in brE X return X -> Prop with
  | FStat _ _ => fun r => match r with Throw e => e_path e = None /\ e_dest e = None | Ok _ => True end
  | FRead _ _ _ => fun r => match r with Throw e => e_path e = None /\ e_dest e = None | Ok _ => True end
  | FWrite _ _ _ => fun r => match r with Throw e => e_path e = None /\ e_dest e = None | Ok _ => True end
  | FTruncate _ _ => fun r => match r with Throw e => e_path e = None /\ e_dest e = None | Ok _ => True end
  | FSync _ _ => fun r => match r with Throw e => e_path e = None /\ e_dest e = None | Ok _ => True end
  | FChmod _ _ => fun r => match r with Throw e => e_path e = None /\ e_dest e = None | Ok _ => True end
  | FChown _ _ _ => fun r => match r with Throw e => e_path e = None /\ e_dest e = None | Ok _ => True end
  | FUtimes _ _ _ => fun r => match r with Throw e => e_path e = None /\ e_dest e = None | Ok _ => True end
  | BReserve _ _ sc v => fun r => match r with Throw e => e = nodeError "ENOSPC" sc (Some v) None | Ok _ => True end
  | _ => fun _ => True
  end.

(** The handle of a descriptor, or of a verified open. *)
Definition handle_ok (h : hist) (fh : Z) : Prop :=
  (exists fd e, Obs (BFdGet fd) (Some e) ∈ h /\ e_handle e = fh) \/ (exists host id, opened h fh host id).

Definition br_policy (h : hist) (X : Type) (e : brE X) : Prop :=
  match e with
  | HAccess p _ | HStatfs p => checked h p false
  | HReaddir d => reached h d
  | HMkdir p _ | HMkdtemp p | HRmdir p | HRm p _ | HUnlink p | HChmod p _ | HChown p _ _ | HLchown p _ _
  | HUtimes p _ _ | HLutimes p _ _ | HTruncate p _ => checked h p true
  | HRename a b => checked h a true /\ checked h b true
  | HLink a b => checked h a false /\ checked h b true
  | HSymlink t p _ => checked h p true /\ is_absolute t = false
  | HOpen p flags _ => checked h p (has_bit flags writes_bits)
  | FRead fh _ _ | FWrite fh _ _ | FTruncate fh _ | FSync fh _ | FChmod fh _ | FChown fh _ _ | FUtimes fh _ _ => handle_ok h fh
  | BFdAdd e => entry_ok h e /\ shown h (p_virtual (e_placed e)) /\ shown h (e_fdvirtual e)
  | _ => True
  end.

(** An answer: every path argument is a checked path, or a directory above the
    roots. *)
Definition granted (h : hist) (p : pathval) : Prop :=
  exists v, toVirtualPath fileURLToPath process_cwd p cwd = Ok v /\
    match resolve_virtual ns v with
    | RRoot _ host _ => checked h host false
    | RAncestor _ _ => True
    | ROutside _ => False
    end.

Definition answer_ok (h : hist) (a : answer) : Prop := a = AFalse \/ Forall (granted h) (paths_of c).

Notation bsafe Q := (safe br_env br_policy Q).
Notation xsafe E Q := (safe br_env br_policy (fun h r => match r with Ok a => Q h a | Throw e => E h e end)).
Notation esafe Q := (xsafe error_ok Q).
Notation any_error := (fun (_ : hist) (_ : jserr) => True).

(** ** Histories grow *)

Section mono.
Context (h h' : hist) (Hs : h ⊆ h').
Set Default Proof Using "Type*".

Lemma real_of_mono p r : real_of h p r -> real_of h' p r.
Proof. intros [H|(a & n & H1 & H2 & H3)]; [left; auto|right; exists a, n; auto]. Qed.

Lemma located_mono host loc : located h host loc -> located h' host loc.
Proof. intros [H|(p & H & ->)]; [left; by apply real_of_mono|right; exists p; split; [by apply real_of_mono|done]]. Qed.

Lemma identified_mono host loc id : identified h host loc id -> identified h' host loc id.
Proof.
  destruct id; cbn.
  - intros (st & [H|H] & H2); exists st; auto.
  - intros [H ->]. split; [by apply real_of_mono|done].
Qed.

Lemma in_root_mono host root id : in_root h host root id -> in_root h' host root id.
Proof.
  intros (v & r & Hr & [(loc & i & H1 & H2 & H3 & H4)|([e H1] & H2 & H3)]); exists v, r; (split; [done|]).
  - left. exists loc, i. split_and!; [by apply located_mono|done|done|by apply identified_mono].
  - right. split; [exists e; auto|done].
Qed.

Lemma checked_mono host w : checked h host w -> checked h' host w.
Proof. intros (r & i & H & Hw). exists r, i. split; [by apply in_root_mono|done]. Qed.

Lemma verified_mono fh host root id w : verified h fh host root id w -> verified h' fh host root id w.
Proof.
  destruct id as [i|]; [|done]. cbn. intros [Hi Hl]. split.
  - destruct i; [destruct Hi as (st & ? & ?); exists st; auto|auto].
  - intros Hlx. destruct (Hl Hlx) as (a & ? & ?). exists a. auto.
Qed.

Lemma opened_mono fh host id : opened h fh host id -> opened h' fh host id.
Proof.
  intros (r & f & om & H1 & H2 & H3 & H4). exists r, f, om.
  split_and!; [auto|by apply in_root_mono|done|by apply verified_mono].
Qed.

Lemma handle_ok_mono fh : handle_ok h fh -> handle_ok h' fh.
Proof.
  intros [(fd & e & H & <-)|(host & id & H)]; [left; exists fd, e; auto|right; exists host, id; by apply opened_mono].
Qed.

Lemma shown_mono v : shown h v -> shown h' v.
Proof. intros [H|[H|(fd & e & H & Hv)]]; [by left|by right; left|right; right; exists fd, e; auto]. Qed.

Lemma shown_opt_mono v : shown_opt h v -> shown_opt h' v.
Proof. destruct v; cbn; [apply shown_mono|done]. Qed.

Lemma error_ok_mono e : error_ok h e -> error_ok h' e.
Proof. intros [H1 H2]. split; by apply shown_opt_mono. Qed.

Lemma reached_mono d : reached h d -> reached h' d.
Proof.
  induction 1 as [host H|dir ds d sub H IH Hl Hd Hsub]; [left; by apply checked_mono|].
  eapply reached_listed; [exact IH|by apply Hs|exact Hd|].
  destruct Hsub as [?|(-> & st & ? & ?)]; [by left|right]. split; [done|]. exists st. auto.
Qed.

Lemma granted_mono p : granted h p -> granted h' p.
Proof.
  intros (v & H & Hv). exists v. split; [done|]. destruct (resolve_virtual ns v); [by apply checked_mono|done|done].
Qed.
Set Default Proof Using "Type".
End mono.

Lemma hist_snoc (h : hist) o : h ⊆ h ++ [o].
Proof. intros x Hx. apply elem_of_app. by left. Qed.

Lemma hist_last (h : hist) o : o ∈ h ++ [o].
Proof. apply elem_of_app. right. by left. Qed.

(** ** Rules *)

Lemma ask_safe {A X} (Q : hist -> A -> Prop) h (e : brE X) k :
  br_policy h X e -> (forall x, br_env h X e x -> bsafe Q (h ++ [Obs e x]) (k x)) -> bsafe Q h (pbind (ask e) k).
Proof. by split. Qed.

Lemma bind_safe {A B} (Q : hist -> A -> Prop) (R : hist -> B -> Prop) h m k :
  bsafe Q h m -> (forall h' a, h ⊆ h' -> Q h' a -> bsafe R h' (k a)) -> bsafe R h (pbind m k).
Proof.
  intros Hm Hk. eapply safe_bind; [apply safe_extends, Hm|]. cbn. intros h' a [HQ [tr ->]].
  apply Hk; [|done]. intros x Hx. apply elem_of_app. by left.
Qed.

Lemma ebind_safe {A B} (E : hist -> jserr -> Prop) (Q : hist -> A -> Prop) (R : hist -> B -> Prop) h (m : eprog A) k :
  xsafe E Q h m -> (forall h' a, h ⊆ h' -> Q h' a -> xsafe E R h' (k a)) -> xsafe E R h (ebind m k).
Proof. intros Hm Hk. eapply bind_safe; [exact Hm|]. intros h' [a|e] Hs HQ; [by apply Hk|exact HQ]. Qed.

Lemma eask_safe {A B} (E : hist -> jserr -> Prop) (R : hist -> B -> Prop) h (e : brE (result A)) k :
  br_policy h _ e ->
  (forall a, br_env h _ e (Ok a) -> xsafe E R (h ++ [Obs e (Ok a)]) (k a)) ->
  (forall er, br_env h _ e (Throw er) -> E (h ++ [Obs e (Throw er)]) er) ->
  xsafe E R h (ebind (ask e) k).
Proof. intros HP Hk He. split; [done|]. intros [a|er] Hx; [by apply Hk|]. cbn. by apply He. Qed.

(** An operation whose errors are re-addressed may fail in any way. *)
Lemma run_op_safe {A} (Q : hist -> A -> Prop) h p sc dest (op : eprog A) :
  shown h (p_virtual p) -> (forall d, dest = Some d -> shown h (p_virtual d)) ->
  xsafe any_error Q h op -> esafe Q h (run_op ns p sc dest op).
Proof.
  intros Hp Hd Ho. eapply bind_safe; [exact Ho|]. intros h' [a|e] Hs HQ; cbn; [done|].
  assert (Hv : shown_opt h' (Some (p_virtual p))) by (by eapply shown_mono).
  assert (Hw : shown_opt h' (p_virtual <$> dest)).
  { destruct dest as [d|]; [|done]. eapply shown_mono; [exact Hs|by apply Hd]. }
  unfold rewrite_err. destruct (e_code e) as [code|]; [destruct (errno_code code)|]; by split.
Qed.

(** ** Placing *)

Definition found_ok (h : hist) (host : string) (l : string * identity) : Prop :=
  located h host l.1 /\ identified h host l.1 l.2.

Lemma cachedRealpath_safe dir h :
  bsafe (fun h' r => match r with
                     | Ok real => real_of h' dir real
                     | Throw _ => exists e, Obs (HRealpath dir) (Throw e) ∈ h'
                     end) h (cachedRealpath dir).
Proof.
  unfold cachedRealpath.
  assert (Hfetch : forall now h, bsafe (fun h' r => match r with
                     | Ok real => real_of h' dir real
                     | Throw _ => exists e, Obs (HRealpath dir) (Throw e) ∈ h'
                     end) h (try real <- ask (HRealpath dir) in do _ <- ask (BCacheSet dir real now) in ok real)).
  { intros now h0. apply ask_safe; [done|]. intros [real|e] _.
    - apply ask_safe; [done|]. intros [] _. left. apply hist_snoc, hist_last.
    - exists e. apply hist_last. }
  apply ask_safe; [done|]. intros now _. apply ask_safe; [done|]. intros [[real at_]|] _; [|by apply Hfetch].
  destruct (Z.ltb_spec (now - at_) RP_CACHE_MS); [|by apply Hfetch]. cbn. right. exists at_, now.
  split_and!; [apply hist_last|apply hist_snoc, hist_last|done].
Qed.

Lemma or_null_safe {A} (Q : hist -> option A -> Prop) h (op : eprog A) :
  bsafe (fun h' r => Q h' match r with Ok a => Some a | Throw _ => None end) h op -> bsafe Q h (or_null_of op).
Proof. intros H. eapply bind_safe; [exact H|]. by intros h' [a|e] _ HQ. Qed.

Lemma parent_safe host h :
  bsafe (fun h' r => match r with Some real => real_of h' (dirname host) real | None => missing h' host end) h
    (or_null_of (cachedRealpath (dirname host))).
Proof. apply or_null_safe. eapply safe_mono; [apply cachedRealpath_safe|]. by intros h' [real|e]. Qed.

Lemma viaParent_safe host follow h :
  bsafe (fun h' l => match l with Some l => found_ok h' host l | None => missing h' host end) h (viaParent host follow).
Proof.
  unfold viaParent. eapply bind_safe; [apply parent_safe|]. intros h1 [parent|] _ Hp; [|exact Hp].
  unfold lstatOrNull, or_null_of. cbn. split; [done|]. intros st _.
  assert (Hp' : real_of (h1 ++ [Obs (HLstat (path_join [parent; basename host]) false) st]) (dirname host) parent)
    by (eapply real_of_mono; [apply hist_snoc|done]).
  split; [right; eauto|]. destruct st as [st|e]; [destruct follow|]; cbn; try by split.
  exists st. split; [left; apply hist_last|done].
Qed.

Lemma viaName_safe host h :
  bsafe (fun h' l => match l with Some l => found_ok h' host l | None => True end) h (viaName host).
Proof.
  unfold viaName. eapply bind_safe; [apply parent_safe|]. intros h1 [parent|] _ Hp; [|done].
  apply ask_safe; [done|]. intros st _.
  assert (Hp' : real_of (h1 ++ [Obs (HLstat (path_join [parent; basename host]) false) st]) (dirname host) parent)
    by (eapply real_of_mono; [apply hist_snoc|done]).
  destruct st as [st|e]; cbn.
  - destruct (isSymbolicLink st); [done|]. split; [right; eauto|]. exists st. split; [left; apply hist_last|done].
  - case_bool_decide; [|done]. split; [right; eauto|by split].
Qed.

Lemma locate_safe p host sc rootItself follow h :
  shown h (p_virtual p) ->
  esafe (fun h' l => match l with Some l => found_ok h' host l | None => missing h' host end) h
    (locate ns p host sc rootItself follow).
Proof.
  intros Hv. unfold locate.
  assert (Hvia : forall h, esafe (fun h' l => match l with Some l => found_ok h' host l | None => missing h' host end) h
                   (do l <- viaParent host follow in ok l)).
  { intros h0. eapply bind_safe; [apply viaParent_safe|]. by intros h' l _ Hl. }
  eapply bind_safe with (Q := fun h' l => match l with Some l => found_ok h' host l | None => True end).
  { destruct (follow && negb rootItself); [apply viaName_safe|done]. }
  intros h1 [l|] Hs1 Hl; [exact Hl|]. destruct (follow || rootItself); [|by apply Hvia].
  eapply bind_safe with (Q := fun h' r => match r with Ok l => found_ok h' host l | Throw _ => True end).
  - apply ask_safe; [done|]. intros [real|e] _; [|done]. apply ask_safe; [done|]. intros [st|e] _; [|done].
    cbn. split.
    + left. left. apply hist_snoc, hist_last.
    + exists st. split; [right; apply hist_last|done].
  - intros h2 [l|e] Hs2 H2; [exact H2|]. case_bool_decide; [by apply Hvia|].
    cbn. unfold rewrite_err.
    assert (Hv' : shown_opt h2 (Some (p_virtual p))) by (eapply shown_mono; [|exact Hv]; by etransitivity).
    destruct (e_code e) as [code|]; [destruct (errno_code code)|]; by split.
Qed.

Lemma report_safe {A} (Q : hist -> A -> Prop) h rule v k :
  (forall h', h ⊆ h' -> bsafe Q h' (k tt)) -> bsafe Q h (pbind (report Enforce rule v) k).
Proof.
  intros Hk. unfold report. destruct (decide (Enforce = Off)); [done|]. apply ask_safe; [done|].
  intros [] _. apply Hk, hist_snoc.
Qed.

Lemma error_named h code sc v : shown h v -> error_ok h (nodeError code sc (Some v) None).
Proof. by split. Qed.

Lemma error_plain h code sc : error_ok h (nodeError code sc None None).
Proof. by split. Qed.

(** A placed argument under enforce. *)
Definition placed_ok (h : hist) (path : pathval) (w : want) (p : placed) : Prop :=
  shown h (p_virtual p) /\ granted h path /\
  match p_host p with
  | Some host => exists root v r, in_root h host root (p_ident p) /\ p_root p = Some root /\
                   (w = WantW -> r_writable root = true) /\ p_res p = RRoot v host r
  | None => w = WantR /\ is_root_kind p = false
  end.

Lemma placed_ok_mono h h' path w p : h ⊆ h' -> placed_ok h path w p -> placed_ok h' path w p.
Proof.
  intros Hs (H1 & H2 & H3). split; [by eapply shown_mono|]. split; [by eapply granted_mono|].
  destruct (p_host p); [|done]. destruct H3 as (root & v & r & H & ? & ? & ?). exists root, v, r.
  split_and!; [by eapply in_root_mono|done..].
Qed.

Lemma resolve_virtual_path v : match resolve_virtual ns v with RRoot v' _ _ | RAncestor v' _ | ROutside v' => v' = v end.
Proof. unfold resolve_virtual. destruct (List.find _ _); [done|]. by destruct (List.filter _ _). Qed.

(** A path that cannot be read as one throws with no path. *)
Hypothesis url_error : forall u e, fileURLToPath u = Throw e -> e_path e = None /\ e_dest e = None.

Lemma toVirtualPath_error p e : toVirtualPath fileURLToPath process_cwd p cwd = Throw e -> e_path e = None /\ e_dest e = None.
Proof using url_error.
  unfold toVirtualPath. set (arg := match p with PStr _ => _ | _ => _ end).
  assert (Ha : forall e, arg = Throw e -> e_path e = None /\ e_dest e = None).
  { unfold arg. intros e'. destruct p as [s|s|u|]; try by intros [= <-].
    - destruct (starts_with "file:" s); [apply url_error|done].
    - apply url_error. }
  destruct arg as [s|e'] eqn:E; cbn [rbind].
  - destruct (has_char zero s); [|done]. by intros [= <-].
  - intros [= <-]. by apply Ha.
Qed.

Notation place' := (place fileURLToPath process_cwd Enforce ns cwd).

Lemma place_safe path w sc follow h :
  path ∈ paths_of c -> esafe (fun h' p => placed_ok h' path w p) h (place' path w sc follow).
Proof using url_error.
  intros Hp. unfold place, resolve_path. destruct (negb (ns_prepared ns)); [by split|].
  destruct (toVirtualPath fileURLToPath process_cwd path cwd) as [v0|e] eqn:Ev; cbn [rbind].
  2: { destruct (toVirtualPath_error _ _ Ev) as [H1 H2]. cbn. unfold error_ok. by rewrite H1, H2. }
  assert (Hsh : forall h, shown h v0) by (intros; left; eauto).
  pose proof (resolve_virtual_path v0) as Hrv.
  destruct (resolve_virtual ns v0) as [v host r|v kids|v] eqn:Er; subst v.
  - destruct (decide (Enforce = Off)); [done|].
    eapply ebind_safe with (Q := fun h' chk => forall root id, chk = Some (root, id) -> in_root h' host root id).
    { unfold checkHost. eapply ebind_safe; [by apply locate_safe|]. intros h1 l _ Hl root id. cbn.
      destruct l as [[loc i]|].
      - destruct (rootForReal ns loc) eqn:Erl; [|done]. intros [= <- <-]. exists v0, r. split; [done|].
        left. exists loc, i. destruct Hl. by split_and!.
      - intros [= <- <-]. exists v0, r. split; [done|]. by right. }
    intros h1 chk Hs1 Hchk.
    eapply ebind_safe with (Q := fun h' p => exists root id, p = mkPlaced (RRoot v0 host r) (Some host) v0 (Some root) id /\ in_root h' host root id).
    { destruct chk as [[root id]|]; [cbn; exists root, id; split; [done|by apply Hchk]|].
      apply report_safe. intros h' _. by apply error_named. }
    intros h2 p Hs2 (root & id & -> & Hin). cbn [p_root].
    assert (Hg : forall h', h2 ⊆ h' -> granted h' path).
    { intros h' Hs. exists v0. split; [done|]. rewrite Er. eapply checked_mono; [exact Hs|]. exists root, id. by split. }
    destruct (decide (w = WantW)) as [->|Hw].
    + destruct (r_writable root) eqn:Hwr.
      * cbn. split; [done|]. split; [by apply Hg|]. exists root, v0, r. by split_and!.
      * apply report_safe. intros h' _. by apply error_named.
    + cbn. split; [done|]. split; [by apply Hg|]. exists root, v0, r. by split_and!.
  - change (negb (enforce Enforce)) with false. cbv iota.
    destruct (decide (w = WantW)) as [->|Hw]; [cbn; by apply error_named|].
    cbn. split; [done|]. split; [exists v0; by rewrite Er|]. split; [by destruct w|done].
  - apply report_safe. intros h' _. by apply error_named.
Qed.

Lemma placed_checked h path w p host :
  placed_ok h path w p -> p_host p = Some host -> checked h host (bool_decide (w = WantW)).
Proof.
  intros (_ & _ & H) Hh. rewrite Hh in H. destruct H as (root & v & r & Hin & _ & Hw & _).
  exists root, (p_ident p). split; [done|]. intros Hd. apply Hw. by apply bool_decide_eq_true in Hd.
Qed.

Lemma checked_weaken h host w : checked h host w -> checked h host false.
Proof. intros (r & i & H & _). exists r, i. by split. Qed.

Lemma placed_writable h path p : placed_ok h path WantW p -> exists host, p_host p = Some host /\ checked h host true.
Proof.
  intros H. destruct (p_host p) as [host|] eqn:E.
  - exists host. split; [done|]. exact (placed_checked h path WantW p host H E).
  - destruct H as (_ & _ & H). rewrite E in H. by destruct H.
Qed.

(** ** Loops, brackets and the quota *)

Lemma loopn_safe {S A} (E : hist -> jserr -> Prop) (I : hist -> S -> Prop) (Q : hist -> A -> Prop) n body :
  (forall h s, I h s -> xsafe E (fun h' r => match r with inl s' => I h' s' | inr a => Q h' a end) h (body s)) ->
  forall h s, I h s -> xsafe E (fun h' r => match r with inl s' => I h' s' | inr a => Q h' a end) h (loopn n body s).
Proof.
  intros Hb. induction n as [|n IH]; intros h s Hs; cbn [loopn]; [by apply Hb|].
  eapply ebind_safe; [by apply IH|]. intros h' [s'|a] _ Hr; [by apply IH|exact Hr].
Qed.

Lemma loop_safe {S A} (E : hist -> jserr -> Prop) (I : hist -> S -> Prop) (Q : hist -> A -> Prop) body h s :
  (forall h s, I h s -> xsafe E (fun h' r => match r with inl s' => I h' s' | inr a => Q h' a end) h (body s)) ->
  (forall h m, E h (plain_error m)) -> I h s -> xsafe E Q h (loop body s).
Proof.
  intros Hb HE Hs. unfold loop. eapply ebind_safe; [exact (loopn_safe E I Q many body Hb h s Hs)|].
  intros h' [s'|a] _ Hr; cbn; [apply HE|exact Hr].
Qed.

Lemma finally_safe {A} (E : hist -> jserr -> Prop) (Q : hist -> A -> Prop) h (op : eprog A) last :
  xsafe E Q h op -> (forall h', h ⊆ h' -> bsafe (fun _ _ => True) h' last) ->
  (forall h h' a, h ⊆ h' -> Q h a -> Q h' a) -> (forall h h' e, h ⊆ h' -> E h e -> E h' e) ->
  xsafe E Q h (finally op last).
Proof.
  intros Ho Hl HQ HE. unfold finally. eapply bind_safe; [exact Ho|]. intros h1 r Hs Hr.
  eapply bind_safe; [by apply Hl|]. intros h2 [] Hs2 _. cbn. destruct r; [by eapply HQ|by eapply HE].
Qed.

Lemma counted_safe {A} (Q : hist -> A -> Prop) h p b n sc (op : eprog A) act :
  shown h (p_virtual p) -> (forall h', h ⊆ h' -> esafe Q h' op) ->
  (forall h h' a, h ⊆ h' -> Q h a -> Q h' a) -> esafe Q h (counted has_quota p b n sc op act).
Proof.
  intros Hv Ho HQ. unfold counted. destruct (negb _); [by apply Ho|].
  apply eask_safe; [done| |intros er ->; apply error_named; eapply shown_mono; [apply hist_snoc|done]].
  intros [] _. eapply bind_safe; [apply Ho, hist_snoc|]. intros h1 [a|e] _ Hr.
  - destruct (default (b, n) act) as [ab ae]. cbn. split; [done|]. intros [] _. eapply HQ; [apply hist_snoc|done].
  - cbn. split; [done|]. intros [] _. eapply error_ok_mono; [apply hist_snoc|done].
Qed.

Lemma give_back_safe {A} (Q : hist -> A -> Prop) h p b n k :
  (forall h', h ⊆ h' -> bsafe Q h' (k tt)) -> bsafe Q h (pbind (give_back has_quota p b n) k).
Proof.
  intros Hk. unfold give_back. destruct (_ && _); [|by apply Hk]. apply ask_safe; [done|]. intros [] _.
  apply Hk, hist_snoc.
Qed.

Lemma answer_ok_mono h h' a : h ⊆ h' -> answer_ok h a -> answer_ok h' a.
Proof.
  intros Hs [H|H]; [by left|right]. eapply Forall_impl; [exact H|]. intros p. by apply granted_mono.
Qed.

(** *** Walking a directory *)

Definition all_reached (h : hist) (q : list (string * string)) : Prop := Forall (fun d => reached h d.1) q.

Lemma all_reached_mono h h' q : h ⊆ h' -> all_reached h q -> all_reached h' q.
Proof. intros Hs H. eapply Forall_impl; [exact H|]. intros d. by apply reached_mono. Qed.

Lemma walk_dir_safe maxListed dir vdir ds ds0 w q h :
  reached h dir -> Obs (HReaddir dir) (Ok ds0) ∈ h -> ds ⊆ ds0 -> all_reached h q ->
  xsafe any_error (fun h' r => all_reached h' r.2) h (walk_dir maxListed dir vdir ds w q).
Proof.
  revert w q h. induction ds as [|d ds IH]; intros w q h Hd Hl Hsub Hq; cbn [walk_dir]; [exact Hq|].
  assert (Hds : ds ⊆ ds0) by (intros x Hx; apply Hsub; by right).
  assert (Hin : d ∈ ds0) by (apply Hsub; by left).
  apply eask_safe; [done| |done]. intros st _. set (h1 := h ++ _).
  assert (Hs : h ⊆ h1) by apply hist_snoc.
  assert (Hd1 : reached h1 dir) by (by eapply reached_mono).
  assert (Hl1 : Obs (HReaddir dir) (Ok ds0) ∈ h1) by (by apply Hs).
  assert (Hq1 : all_reached h1 q) by (by eapply all_reached_mono).
  destruct (isSymbolicLink st).
  - apply eask_safe; [done| |done]. intros target _.
    apply IH; [by eapply reached_mono, Hd1; apply hist_snoc|by apply hist_snoc|done|].
    by eapply all_reached_mono, Hq1; apply hist_snoc.
  - destruct (isDirectory st) eqn:Ed; [|destruct (isFile st); by apply IH].
    apply IH; try done. apply Forall_app. split; [exact Hq1|]. constructor; [|constructor]. cbn.
    eapply reached_listed; [exact Hd1|exact Hl1|exact Hin|]. right. split; [done|]. exists st. split; [apply hist_last|done].
Qed.

Lemma measure_safe maxListed inside host virtual h :
  reached h host -> xsafe any_error (fun _ _ => True) h (measure maxListed inside [(host, virtual)]).
Proof.
  intros Hr. unfold measure. eapply ebind_safe with (Q := fun _ _ => True); [|done]. cbn [walk_roots].
  eapply ebind_safe with (Q := fun h' _ => reached h' host).
  { unfold realDirectory. apply eask_safe; [done| |done]. intros st _. destruct (isDirectory st); [|done].
    cbn. eapply reached_mono; [apply hist_snoc|done]. }
  intros h1 _ _ Hr1. eapply ebind_safe with (Q := fun _ _ => True); [|done].
  apply loop_safe with (I := fun h s => all_reached h s.2); [|done|by constructor].
  intros h2 [w [|[dir vdir] q]] Hq; cbn [walk_step]; [done|]. inversion Hq as [|? ? Hdir Hrest]; subst.
  apply eask_safe; [exact Hdir| |done]. intros ds _.
  eapply ebind_safe; [eapply walk_dir_safe with (ds0 := ds)|].
  - eapply reached_mono; [apply hist_snoc|exact Hdir].
  - apply hist_last.
  - done.
  - eapply all_reached_mono; [apply hist_snoc|exact Hrest].
  - intros h3 [w' q'] _ H. exact H.
Qed.

Lemma removalUsage_safe host virtual h :
  reached h host -> xsafe any_error (fun _ _ => True) h (removalUsage host virtual).
Proof.
  intros Hr. unfold removalUsage, lstatOrNull, or_null_of. cbn [pbind ask safe]. split; [done|]. intros st _.
  destruct st as [st|e]; [|done]. destruct (isDirectory st); [|done].
  eapply ebind_safe; [apply measure_safe; eapply reached_mono; [apply hist_snoc|done]|done].
Qed.

Lemma dir_entries_queue p recursive types dir rel ds ds0 acc q h acc' q' :
  reached h dir -> Obs (HReaddir dir) (Ok ds0) ∈ h -> ds ⊆ ds0 -> all_reached h q ->
  dir_entries ns maxEntries p recursive types dir rel ds acc q = Ok (acc', q') -> all_reached h q'.
Proof.
  intros Hd Hl. revert acc q. induction ds as [|d ds IH]; intros acc q Hsub Hq; cbn [dir_entries].
  - by intros [= <- <-].
  - destruct (_ <=? _); [done|]. apply IH; [intros x Hx; apply Hsub; by right|].
    destruct (recursive && bool_decide (de_kind d = KDir)) eqn:E; [|done]. bool_hyps.
    apply Forall_app. split; [done|]. constructor; [|constructor]. cbn.
    eapply reached_listed; [exact Hd|exact Hl|apply Hsub; by left|by left].
Qed.

(** *** Opened files *)

Lemma error_pathless h e : e_path e = None /\ e_dest e = None -> error_ok h e.
Proof. intros [H1 H2]. unfold error_ok. by rewrite H1, H2. Qed.

Lemma identity_wsafe fh host id h :
  esafe (fun h' b => b = true -> match id with
           | IdInode dev ino => exists st, Obs (FStat fh false) (Ok st) ∈ h' /\ st_dev st = dev /\ st_ino st = ino
           | IdParent parent => Obs (HRealpath (dirname host)) (Ok parent) ∈ h'
           end) h (identity_holds fh host id).
Proof.
  destruct id as [dev ino|parent]; cbn [identity_holds].
  - apply eask_safe; [done| |intros er He; by apply error_pathless]. intros st _ Hb.
    apply andb_true_iff in Hb as [Hd Hi]. apply Z.eqb_eq in Hd, Hi. exists st. split; [apply hist_last|done].
  - unfold or_null_of. cbn. split; [done|]. intros [real|e] _; cbn; intros Hb; [|done].
    apply bool_decide_eq_true in Hb. injection Hb as ->. apply hist_last.
Qed.

Lemma link_safe fh p writes h :
  bsafe (fun h' b => b = true -> exists a, Obs (HReadlink (proc_link fh)) a ∈ h' /\
           forall l, a = Ok l -> exists holder, rootForReal ns l = Some holder /\ (writes = true -> Some holder = p_root p))
    h (link_holds ns fh p writes).
Proof.
  unfold link_holds, or_null_of. cbn. split; [done|]. intros a _ Hb. exists a. split; [apply hist_last|].
  intros l ->. cbn in Hb. destruct (rootForReal ns l) as [holder|]; [|done]. exists holder. split; [done|].
  intros ->. cbn in Hb. by apply bool_decide_eq_true in Hb.
Qed.

Lemma verifyOpened_safe h0 h path w p host fh sc writes flags om :
  placed_ok h0 path w p -> h0 ⊆ h -> p_host p = Some host -> Obs (HOpen host flags om) (Ok fh) ∈ h ->
  (has_bit flags writes_bits = true -> writes = true /\ w = WantW) ->
  esafe (fun h' _ => opened h' fh host (p_ident p)) h (verifyOpened Enforce ns linux fh p sc writes).
Proof.
  intros Hp Hs Eh Ho Hw. pose proof Hp as (Hsh & _ & Hp'). rewrite Eh in Hp'.
  destruct Hp' as (root & v & r & Hin & Hroot & Hwr & Hres).
  assert (Hopen : forall h', h ⊆ h' -> verified h' fh host root (p_ident p) (has_bit flags writes_bits) ->
                  opened h' fh host (p_ident p)).
  { intros h' Hs' Hv. exists root, flags, om. split_and!; [by apply Hs'|eapply in_root_mono; [|exact Hin]; by etransitivity| |done].
    intros Hb. by apply Hwr, Hw. }
  unfold verifyOpened. destruct (p_ident p) as [id|] eqn:Eid; [|cbn; by apply Hopen].
  rewrite Hres. change (negb (enforce Enforce)) with false. cbv iota.
  eapply ebind_safe; [apply identity_wsafe|]. cbn beta. intros h1 same Hs1 Hid.
  eapply bind_safe with (Q := fun h' fine => fine = true -> same = true /\ (linux = true ->
    exists a, Obs (HReadlink (proc_link fh)) a ∈ h' /\
      forall l, a = Ok l -> exists holder, rootForReal ns l = Some holder /\ (writes = true -> Some holder = p_root p))).
  { destruct same; cbn [andb]; [|cbn; done]. destruct linux; [|cbn; done].
    eapply safe_mono; [apply link_safe|]. cbn beta. intros h' b Hb Ht. split; [done|]. intros _. by apply Hb. }
  intros h2 fine Hs2 Hfine. destruct fine; cbn beta iota.
  - destruct (Hfine eq_refl) as [Hsame Hlink]. cbn. apply Hopen; [by etransitivity|]. split.
    + specialize (Hid Hsame). destruct id; [|by apply Hs2]. destruct Hid as (st & ? & ?). exists st. split; [by apply Hs2|done].
    + intros Hlx. destruct (Hlink Hlx) as (a & Ha & Hl). exists a. split; [done|]. intros l Hal.
      destruct (Hl l Hal) as (holder & ? & Hh). exists holder. split; [done|]. intros Hb.
      destruct (Hw Hb) as [Hwt _]. specialize (Hh Hwt). rewrite Hroot in Hh. by injection Hh.
  - unfold refuse_opened. apply ask_safe; [done|]. intros r0 _. apply report_safe. intros h' Hs'. cbn.
    apply error_named. eapply shown_mono; [|exact Hsh]. etransitivity; [exact Hs|]. etransitivity; [exact Hs1|].
    etransitivity; [exact Hs2|]. etransitivity; [apply hist_snoc|exact Hs'].
Qed.

(** The flags the broker opens with ask for no more than the call's. *)
Lemma opened_flags n : has_bit (Z.lor (Z.land n (Z.lnot O_TRUNC)) O_NONBLOCK) writes_bits = true -> has_bit n writes_bits = true.
Proof.
  unfold has_bit. rewrite !negb_true_iff, !Z.eqb_neq. intros H Hn. apply H. clear H.
  rewrite Z.land_lor_distr_l, <-Z.land_assoc, (Z.land_comm (Z.lnot O_TRUNC)), Z.land_assoc, Hn, Z.land_0_l. reflexivity.
Qed.

Lemma openFlags_number flags fl n : openFlags flags = Ok fl -> numericFlags flags = Ok n -> fl.1 = has_bit n writes_bits.
Proof. unfold openFlags. intros H E. rewrite E in H. cbn in H. by injection H as <-. Qed.

Lemma numericFlags_error flags e h : numericFlags flags = Throw e -> error_ok h e.
Proof.
  unfold numericFlags. destruct flags; [done| |]; (destruct (assoc _ _); [done|]); destruct (includes _ _);
    intros [= <-]; by split.
Qed.

Lemma openFlags_error flags e h : openFlags flags = Throw e -> error_ok h e.
Proof. unfold openFlags. destruct (numericFlags flags) eqn:E; cbn; [done|]. intros [= <-]. by eapply numericFlags_error. Qed.

(** *** One path argument *)

Section one_path.
Context (path : pathval) (Hpath : paths_of c = [path]).

Lemma one_in : path ∈ paths_of c.
Proof using Hpath. rewrite Hpath. by left. Qed.

Lemma one_answer h w p a : placed_ok h path w p -> answer_ok h a.
Proof using Hpath. intros (_ & H & _). right. rewrite Hpath. by constructor. Qed.

(** A host call on the placed path, re-addressed. *)
Lemma on_path_safe {X} h0 h w p sc (hop : string -> brE (result X)) (k : X -> answer) dest :
  placed_ok h0 path w p -> h0 ⊆ h -> (forall d, dest = Some d -> shown h (p_virtual d)) ->
  (forall h' host, checked h' host (bool_decide (w = WantW)) -> br_policy h' _ (hop host)) ->
  esafe answer_ok h (run_op ns p sc dest (on_host p (fun host => try x <- ask (hop host) in ok (k x)))).
Proof using Hpath.
  intros Hp Hs Hd HP. apply run_op_safe; [eapply shown_mono; [exact Hs|apply Hp]|exact Hd|].
  unfold on_host. destruct (p_host p) as [host|] eqn:Eh; [|done].
  apply eask_safe; [|intros x _|done].
  - apply HP. eapply checked_mono; [exact Hs|]. by eapply placed_checked.
  - cbn. eapply answer_ok_mono; [|eapply one_answer, Hp]. etransitivity; [exact Hs|apply hist_snoc].
Qed.

Lemma change_safe sc follow (hop : string -> brE (result unit)) h :
  (forall h' host, checked h' host true -> br_policy h' _ (hop host)) ->
  esafe answer_ok h (change fileURLToPath process_cwd Enforce ns cwd path sc follow (fun host => ask (hop host))).
Proof using Hpath url_error.
  intros HP. unfold change. eapply ebind_safe; [apply place_safe, one_in|]. intros h1 p _ Hp.
  eapply on_path_safe with (k := fun _ => AUndef) (w := WantW); [exact Hp|done|done|exact HP].
Qed.

Lemma op_access_safe am h : esafe answer_ok h (op_access fileURLToPath process_cwd Enforce ns cwd path am).
Proof using Hpath url_error.
  unfold op_access. eapply ebind_safe; [apply place_safe, one_in|]. intros h1 p _ Hp.
  destruct (p_host p) as [host|] eqn:Eh; [|cbn; eapply one_answer, Hp].
  apply run_op_safe; [apply Hp|done|]. apply eask_safe; [exact (placed_checked _ _ _ _ _ Hp Eh)|intros [] _|done].
  cbn. eapply answer_ok_mono; [apply hist_snoc|eapply one_answer, Hp].
Qed.

Lemma op_exists_safe h : esafe answer_ok h (op_exists fileURLToPath process_cwd Enforce ns cwd path).
Proof using Hpath url_error.
  unfold op_exists.
  eapply bind_safe with (Q := fun h' r => match r with Ok _ => granted h' path | Throw _ => True end).
  - eapply ebind_safe with (E := any_error); [eapply safe_mono; [apply place_safe, one_in|intros ? []; [intros H; exact H|done]]|].
    cbn beta. intros h1 p _ Hp. destruct (p_host p) as [host|] eqn:Eh; [|cbn; apply Hp].
    cbn. split; [exact (placed_checked _ _ _ _ _ Hp Eh)|]. intros [[]|e] _; [|done].
    eapply granted_mono; [apply hist_snoc|apply Hp].
  - intros h1 [[]|e] _ Hr; cbn; [right; rewrite Hpath; by constructor|by left].
Qed.

Lemma op_stat_safe big h : esafe answer_ok h (op_stat fileURLToPath process_cwd Enforce ns cwd path big).
Proof using Hpath url_error.
  unfold op_stat. eapply ebind_safe; [apply place_safe, one_in|]. intros h1 p _ Hp.
  destruct (p_host p) as [host|] eqn:Eh; [|cbn; eapply one_answer, Hp].
  apply run_op_safe; [apply Hp|done|]. apply eask_safe; [done|intros st _|done].
  cbn. eapply answer_ok_mono; [apply hist_snoc|eapply one_answer, Hp].
Qed.

Lemma op_lstat_safe big h : esafe answer_ok h (op_lstat fileURLToPath process_cwd Enforce ns cwd path big).
Proof using Hpath url_error.
  unfold op_lstat. eapply ebind_safe; [apply place_safe, one_in|]. intros h1 p _ Hp.
  destruct (p_host p) as [host|] eqn:Eh; [|cbn; eapply one_answer, Hp].
  apply run_op_safe; [apply Hp|done|]. apply eask_safe; [done|intros st _|done].
  cbn. eapply answer_ok_mono; [apply hist_snoc|eapply one_answer, Hp].
Qed.

Lemma op_realpath_safe h : esafe answer_ok h (op_realpath fileURLToPath process_cwd Enforce ns cwd path).
Proof using Hpath url_error.
  unfold op_realpath. eapply ebind_safe; [apply place_safe, one_in|]. intros h1 p _ Hp.
  destruct (p_host p) as [host|] eqn:Eh; [|cbn; eapply one_answer, Hp].
  apply run_op_safe; [apply Hp|done|]. apply eask_safe; [done|intros st _|done].
  cbn. eapply answer_ok_mono; [apply hist_snoc|eapply one_answer, Hp].
Qed.

Lemma op_readlink_safe h : esafe answer_ok h (op_readlink fileURLToPath process_cwd Enforce ns cwd path).
Proof using Hpath url_error.
  unfold op_readlink. eapply ebind_safe; [apply place_safe, one_in|]. intros h1 p _ Hp.
  eapply on_path_safe with (w := WantR) (hop := HReadlink)
    (k := fun target => AText (if negb (is_absolute target) then target else default target (toVirtual ns target)));
    [exact Hp|done|done|done].
Qed.

Lemma op_statfs_safe h : esafe answer_ok h (op_statfs fileURLToPath process_cwd Enforce ns cwd path).
Proof using Hpath url_error.
  unfold op_statfs. eapply ebind_safe; [apply place_safe, one_in|]. intros h1 p _ Hp.
  eapply on_path_safe with (w := WantR) (hop := HStatfs) (k := AJson); [exact Hp|done|done|].
  intros h' host H. exact H.
Qed.

Lemma op_readdir_safe recursive types h :
  esafe answer_ok h (op_readdir fileURLToPath process_cwd Enforce ns cwd maxEntries path recursive types).
Proof using Hpath url_error.
  unfold op_readdir. eapply ebind_safe; [apply place_safe, one_in|]. intros h1 p _ Hp.
  assert (Hrun : forall host, p_host p = Some host -> esafe answer_ok h1 (run_op ns p "scandir" None
    (try l <- loop (readdir_step ns maxEntries p recursive types) ([], [(host, "")]) in ok (AList l)))).
  { intros host Eh. apply run_op_safe; [apply Hp|done|].
    assert (Hc : reached h1 host) by (left; exact (placed_checked _ _ _ _ _ Hp Eh)).
    eapply ebind_safe with (Q := fun h' _ => h1 ⊆ h').
    - apply loop_safe with (I := fun h s => h1 ⊆ h /\ all_reached h s.2); [|done|by split; [done|constructor]].
      intros h2 [acc [|[dir rel] q]] [Hs Hq]; cbn [readdir_step]; [exact Hs|]. inversion Hq as [|? ? Hdir Hrest]; subst.
      apply eask_safe; [exact Hdir| |done]. intros ds _.
      destruct (dir_entries _ _ _ _ _ _ _ _ _ _) as [[acc' q']|e] eqn:E; [|done]. cbn.
      split; [by etransitivity; [exact Hs|apply hist_snoc]|].
      eapply dir_entries_queue; [| |reflexivity| |exact E].
      + eapply reached_mono; [apply hist_snoc|exact Hdir].
      + apply hist_last.
      + eapply all_reached_mono; [apply hist_snoc|exact Hrest].
    - intros h2 l _ Hs. cbn. eapply answer_ok_mono; [exact Hs|eapply one_answer, Hp]. }
  destruct (p_host p) as [host|] eqn:Eh.
  - destruct (p_res p); by apply Hrun.
  - destruct (p_res p); cbn; [by split|eapply one_answer, Hp|by split].
Qed.

(** Mutations of one placed path. *)
Lemma mutate_safe {X} h0 h p sc (hop : string -> brE (result X)) (k : X -> answer) :
  placed_ok h0 path WantW p -> h0 ⊆ h ->
  (forall h' host, checked h' host true -> br_policy h' _ (hop host)) ->
  esafe answer_ok h (run_op ns p sc None (on_host p (fun host => try x <- ask (hop host) in ok (k x)))).
Proof using Hpath.
  intros Hp Hs HP. apply (on_path_safe h0 h WantW p sc hop k None Hp Hs); [done|exact HP].
Qed.

Lemma missing_from_safe fuel host root_host n h : bsafe (fun _ _ => True) h (missing_from fuel host root_host n).
Proof.
  revert host n h. induction fuel as [|f IH]; intros host n h; cbn [missing_from]; [done|].
  destruct (String.eqb host root_host); [done|]. unfold lstatOrNull, or_null_of. cbn [pbind ask safe]. split; [done|].
  intros [st|e] _; [done|]. apply IH.
Qed.

Lemma op_mkdir_safe opts h : esafe answer_ok h (op_mkdir fileURLToPath process_cwd Enforce ns cwd has_quota path opts).
Proof using Hpath url_error.
  unfold op_mkdir. eapply ebind_safe; [apply place_safe, one_in|]. intros h1 p _ Hp.
  eapply bind_safe with (Q := fun _ _ => True).
  - unfold mkdir_missing. destruct (p_res p); try done. destruct (_ && _); [apply missing_from_safe|done].
  - intros h2 n Hs _. apply counted_safe; [eapply shown_mono; [exact Hs|apply Hp]| |apply answer_ok_mono].
    intros h3 Hs3. eapply (mutate_safe h1 h3 p "mkdir" (fun h => HMkdir h opts)
      (fun r => match r with None => AUndef | Some made => AText (out ns made p) end)); [exact Hp|by etransitivity|done].
Qed.

Lemma op_mkdtemp_safe h : esafe answer_ok h (op_mkdtemp fileURLToPath process_cwd Enforce ns cwd has_quota path).
Proof using Hpath url_error.
  unfold op_mkdtemp. eapply ebind_safe; [apply place_safe, one_in|]. intros h1 p _ Hp.
  apply counted_safe; [apply Hp| |apply answer_ok_mono].
  intros h3 Hs3. by eapply (mutate_safe h1 h3 p "mkdtemp" HMkdtemp (fun r => AText (out ns r p))).
Qed.

Lemma on_host_unit_safe h0 h p sc (hop : string -> brE (result unit)) :
  placed_ok h0 path WantW p -> h0 ⊆ h -> (forall h' host, checked h' host true -> br_policy h' _ (hop host)) ->
  esafe (fun h' _ => h ⊆ h') h (run_op ns p sc None (on_host p (fun host => ask (hop host)))).
Proof using Hpath.
  intros Hp Hs HP. apply run_op_safe; [eapply shown_mono; [exact Hs|apply Hp]|done|].
  destruct (placed_writable _ _ _ Hp) as (host & Eh & Hc). unfold on_host. rewrite Eh.
  cbn. split; [|intros [[]|e] _; [apply hist_snoc|done]]. apply HP. by eapply checked_mono.
Qed.

Lemma op_rmdir_safe h : esafe answer_ok h (op_rmdir fileURLToPath process_cwd Enforce ns cwd has_quota path).
Proof using Hpath url_error.
  unfold op_rmdir. eapply ebind_safe; [apply place_safe, one_in|]. intros h1 p _ Hp.
  destruct (isRoot p); [cbn; apply error_named, Hp|].
  eapply ebind_safe; [exact (on_host_unit_safe h1 h1 p "rmdir" HRmdir Hp (reflexivity h1) (fun _ _ H => H))|]. intros h2 _ Hs2 _.
  apply give_back_safe. intros h3 Hs3. cbn. eapply answer_ok_mono; [|eapply one_answer, Hp]. by etransitivity.
Qed.

(** A removal's own errors are re-addressed, the walk's are not. *)
Lemma remove_safe sc (hop : string -> brE (result unit)) h :
  (forall h' host, checked h' host true -> br_policy h' _ (hop host)) ->
  xsafe any_error answer_ok h (remove fileURLToPath process_cwd Enforce ns cwd has_quota path sc (fun host => ask (hop host))).
Proof using Hpath url_error.
  intros HP. unfold remove.
  eapply ebind_safe; [eapply safe_mono; [apply place_safe, one_in|intros ? []; [intros H; exact H|done]]|].
  cbn beta. intros h1 p _ Hp. destruct (isRoot p); [done|].
  eapply ebind_safe with (Q := fun h' _ => h1 ⊆ h').
  { destruct (counts_here has_quota p); [|cbn; reflexivity]. destruct (placed_writable _ _ _ Hp) as (host & Eh & Hc).
    unfold on_host. rewrite Eh. eapply safe_mono; [apply safe_extends, removalUsage_safe; left; by eapply checked_weaken|].
    cbn. intros h' [r|e] [_ [tr ->]]; [|done]. intros x Hx. apply elem_of_app. by left. }
  intros h2 usage _ Hs2. eapply ebind_safe.
  { eapply safe_mono; [eapply on_host_unit_safe; [exact Hp|exact Hs2|exact HP]|]. intros ? []; [intros H; exact H|done]. }
  cbn beta. intros h3 _ Hs3 _.
  apply give_back_safe. intros h4 Hs4. cbn. eapply answer_ok_mono; [|eapply one_answer, Hp].
  etransitivity; [exact Hs2|]. by etransitivity.
Qed.

Lemma op_symlink_safe target type_ h :
  target ∈ texts_of c ->
  esafe answer_ok h (op_symlink fileURLToPath process_cwd Enforce ns cwd has_quota target path type_).
Proof using Hpath url_error.
  intros Ht. unfold op_symlink. eapply ebind_safe; [apply place_safe, one_in|]. intros h1 p _ Hp.
  destruct (link_stays process_cwd p target) eqn:El; cbn [negb].
  2: { cbn. split; cbn; [right; by left|apply Hp]. }
  apply counted_safe; [apply Hp| |apply answer_ok_mono]. intros h2 Hs2.
  apply run_op_safe; [eapply shown_mono; [exact Hs2|apply Hp]|done|].
  destruct (placed_writable _ _ _ Hp) as (host & Eh & Hc). unfold on_host. rewrite Eh.
  apply eask_safe; [|intros [] _|done].
  - split; [by eapply checked_mono|]. destruct Hp as (_ & _ & Hp). rewrite Eh in Hp.
    destruct Hp as (root & v & r & _ & _ & _ & Hres). unfold link_stays in El. rewrite Hres in El. by bool_hyps.
  - cbn. eapply answer_ok_mono; [|eapply one_answer, Hp]. etransitivity; [exact Hs2|apply hist_snoc].
Qed.

Lemma op_truncate_safe len h : esafe answer_ok h (op_truncate fileURLToPath process_cwd Enforce ns cwd has_quota path len).
Proof using Hpath url_error.
  unfold op_truncate. eapply ebind_safe; [apply place_safe, one_in|]. intros h1 p _ Hp.
  destruct (placed_writable _ _ _ Hp) as (host & Eh & Hc). unfold on_host. rewrite Eh.
  eapply bind_safe with (Q := fun _ _ => True).
  { destruct (counts_here has_quota p); [|done]. by cbn. }
  intros h2 st Hs2 _. apply counted_safe; [eapply shown_mono; [exact Hs2|apply Hp]| |apply answer_ok_mono].
  intros h3 Hs3. apply run_op_safe; [eapply shown_mono; [|apply Hp]; by etransitivity|done|].
  apply eask_safe; [|intros [] _|done].
  - eapply checked_mono; [|exact Hc]. by etransitivity.
  - cbn. eapply answer_ok_mono; [|eapply one_answer, Hp]. etransitivity; [exact Hs2|].
    etransitivity; [exact Hs3|apply hist_snoc].
Qed.
Notation open' := (op_open fileURLToPath process_cwd Enforce ns cwd has_quota linux).

Lemma open_host_safe h0 h p host n om newEntry w :
  placed_ok h0 path w p -> h0 ⊆ h -> p_host p = Some host -> (has_bit n writes_bits = true -> w = WantW) ->
  esafe (fun h' fh => exists om', Obs (HOpen host (Z.lor (Z.land n (Z.lnot O_TRUNC)) O_NONBLOCK) om') (Ok fh) ∈ h')
    h (open_host ns p host n om newEntry).
Proof.
  intros Hp Hs Eh Hw. unfold open_host. apply ask_safe.
  { destruct Hp as (_ & _ & Hp). rewrite Eh in Hp. destruct Hp as (root & v & r & Hin & _ & Hwr & _).
    exists root, (p_ident p). split; [by eapply in_root_mono|]. intros Hb. by apply Hwr, Hw, opened_flags. }
  intros [fh|e] _; [exists om; apply hist_last|].
  eapply bind_safe with (Q := fun h' _ => h ⊆ h').
  - destruct newEntry; cbn; [split; [done|]; intros [] _; by etransitivity; apply hist_snoc|apply hist_snoc].
  - intros h2 [] Hs2 H2. cbn.
    assert (Hv : shown_opt h2 (Some (p_virtual p))) by (eapply shown_mono; [|apply Hp]; by etransitivity).
    unfold rewrite_err. destruct (e_code e) as [code|]; [destruct (errno_code code)|]; by split.
Qed.

Lemma op_open_safe flags om h : esafe (fun h' _ => granted h' path) h (open' path flags om).
Proof using Hpath url_error.
  unfold op_open. destruct (openFlags flags) as [fl|e] eqn:Efl; [|cbn; by eapply openFlags_error].
  cbn [ebind pbind]. eapply ebind_safe; [apply place_safe, one_in|]. intros h1 p _ Hp.
  destruct (p_host p) as [host|] eqn:Eh; [|cbn; apply error_named, Hp].
  apply ask_safe; [done|]. intros count _. set (h2 := h1 ++ _).
  assert (Hs2 : h1 ⊆ h2) by apply hist_snoc.
  destruct (MAX_FDS <=? count); [cbn; apply error_named; by eapply shown_mono, Hp|].
  destruct (numericFlags flags) as [n|e] eqn:En; [|cbn; by eapply numericFlags_error].
  pose proof (openFlags_number _ _ _ Efl En) as Hfl.
  assert (Hw : has_bit n writes_bits = true -> (if fl.1 then WantW else WantR) = WantW) by (rewrite Hfl; by intros ->).
  cbn [ebind pbind]. eapply bind_safe with (Q := fun _ _ => True).
  { destruct (counts_here has_quota p); [|done]. unfold lstatOrNull, or_null_of. by cbn. }
  intros h3 before Hs3 _. set (newEntry := _ && _).
  eapply ebind_safe with (Q := fun _ _ => True).
  { destruct newEntry; [|done]. cbn. split; [done|]. intros [[]|e] He; [done|]. cbn in He. subst e.
    apply error_named. eapply shown_mono; [|apply Hp]. etransitivity; [exact Hs2|]. etransitivity; [exact Hs3|apply hist_snoc]. }
  intros h4 _ Hs4 _. assert (H14 : h1 ⊆ h4) by (do 2 (etransitivity; [eassumption|]); done).
  eapply ebind_safe; [exact (open_host_safe h1 h4 p host n om newEntry _ Hp H14 Eh Hw)|]. cbn beta. intros h5 fh Hs5 [om' Ho].
  assert (H15 : h1 ⊆ h5) by (by etransitivity).
  eapply ebind_safe.
  { eapply verifyOpened_safe; [exact Hp|exact H15|exact Eh|exact Ho|].
    intros Hb%opened_flags. split; [by rewrite Hfl|by apply Hw]. }
  cbn beta. intros h6 _ Hs6 Hopened.
  assert (H16 : h1 ⊆ h6) by (by etransitivity).
  apply eask_safe; [done| |intros er He; by apply error_pathless]. intros st _. set (h7 := h6 ++ _).
  assert (Hs7 : h6 ⊆ h7) by apply hist_snoc.
  assert (Hshown : forall h', h6 ⊆ h' -> shown h' (p_virtual p))
    by (intros h' H'; eapply shown_mono; [|apply Hp]; etransitivity; [exact H16|exact H']).
  eapply ebind_safe with (Q := fun _ _ => True).
  { unfold check_special. destruct (isFile st || isDirectory st); [done|]. apply report_safe. intros h' Hs'.
    change (enforce Enforce) with true. cbv iota. apply ask_safe; [done|]. intros r _. cbn. apply error_named, Hshown.
    etransitivity; [exact Hs7|]. etransitivity; [exact Hs'|apply hist_snoc]. }
  intros h8 _ Hs8 _. assert (H68 : h6 ⊆ h8) by (by etransitivity).
  eapply ebind_safe with (Q := fun _ _ => True).
  { destruct (has_bit n O_TRUNC); [|done]. unfold truncate_opened. destruct (isFile st); [|done].
    eapply ebind_safe with (Q := fun _ _ => True).
    - apply run_op_safe; [by apply Hshown|done|]. cbn. split; [|by intros [[]|?] _].
      right. exists host, (p_ident p). by eapply opened_mono.
    - intros h9 _ _ _. destruct (counts_here has_quota p && (0 <? st_size st)); cbn; auto. }
  intros h9 _ Hs9 _. assert (H69 : h6 ⊆ h9) by (by etransitivity).
  apply ask_safe.
  - split; [exists host; split; [exact Eh|by eapply opened_mono]|]. cbn. split; by apply Hshown.
  - intros fd _. cbn. eapply granted_mono; [|apply Hp]. etransitivity; [exact H16|]. etransitivity; [exact H69|apply hist_snoc].
Qed.

Lemma granted_answer h a : granted h path -> answer_ok h a.
Proof using Hpath. intros H. right. rewrite Hpath. by constructor. Qed.

(** A read or write on an entry of the descriptor table. *)
Lemma entry_shown h fd e : Obs (BFdGet fd) (Some e) ∈ h -> shown h (p_virtual (e_placed e)) /\ shown h (e_fdvirtual e).
Proof. intros H. split; right; right; exists fd, e; auto. Qed.

Lemma op_readFile_safe flags h : esafe answer_ok h (op_readFile fileURLToPath process_cwd Enforce ns cwd has_quota linux path flags).
Proof using Hpath url_error.
  unfold op_readFile. eapply ebind_safe; [apply op_open_safe|]. cbn beta. intros h1 fd _ Hg.
  apply ask_safe; [done|]. intros [e|] _; [|by split]. set (h2 := h1 ++ _).
  assert (Hs2 : h1 ⊆ h2) by apply hist_snoc.
  assert (He : Obs (BFdGet fd) (Some e) ∈ h2) by apply hist_last.
  apply finally_safe; [| |apply answer_ok_mono|intros ? ? ? Hs; by apply error_ok_mono].
  - eapply ebind_safe with (Q := fun h' _ => h2 ⊆ h').
    + apply loop_safe with (I := fun h' _ => h2 ⊆ h'); [|by split|done].
      intros h3 parts Hs3. unfold read_step.
      eapply ebind_safe with (Q := fun h' _ => h2 ⊆ h').
      * apply run_op_safe; [eapply shown_mono; [exact Hs3|by eapply entry_shown]|done|].
        cbn. split; [left; exists fd, e; split; [by apply Hs3|done]|]. intros [d|er] _; [|done].
        etransitivity; [exact Hs3|apply hist_snoc].
      * intros h4 data _ Hs4. destruct (String.eqb data ""); [exact Hs4|]. destruct (_ <? _); [|exact Hs4].
        cbn. apply error_named. eapply shown_mono; [exact Hs4|by eapply entry_shown].
    + intros h3 data _ Hs3. cbn. eapply answer_ok_mono; [|by apply granted_answer]. by etransitivity.
  - intros h' _. cbn. split; [done|]. intros [] _. by split.
Qed.
End one_path.

(** *** Descriptor operations: no path argument *)

Section descriptors.
Context (Hnone : paths_of c = []).

Lemma fd_answer h a : answer_ok h a.
Proof using Hnone. right. by rewrite Hnone. Qed.
End descriptors.

Lemma fdEntry_safe fd sc h : esafe (fun h' e => Obs (BFdGet fd) (Some e) ∈ h') h (fdEntry fd sc).
Proof. unfold fdEntry. apply ask_safe; [done|]. intros [e|] _; [apply hist_last|by split]. Qed.

Lemma serial_safe {A} (Q : hist -> A -> Prop) e (op : eprog A) h :
  (forall h', h ⊆ h' -> esafe Q h' op) -> (forall h h' a, h ⊆ h' -> Q h a -> Q h' a) -> esafe Q h (serial e op).
Proof.
  intros Ho HQ. unfold serial. apply ask_safe; [done|]. intros [] _. eapply bind_safe; [apply Ho, hist_snoc|].
  intros h2 r _ Hr. apply ask_safe; [done|]. intros [] _. cbn.
  destruct r; [by eapply HQ, Hr; apply hist_snoc|by eapply error_ok_mono, Hr; apply hist_snoc].
Qed.

Lemma op_close_safe fd h : esafe (fun _ _ => True) h (op_close fd).
Proof.
  unfold op_close. eapply ebind_safe; [apply fdEntry_safe|]. intros h1 e _ He. cbn. by repeat (split; [done|]; intros ? _).
Qed.

Lemma op_read_safe fd len pos h : esafe (fun _ _ => True) h (op_read ns fd len pos).
Proof.
  unfold op_read. eapply ebind_safe; [apply fdEntry_safe|]. cbn beta. intros h1 e _ He.
  destruct (entry_shown _ _ _ He) as [Hv1 Hv2].
  destruct (js_num len) as [n|]; [|cbn; by apply error_named]. destruct (_ || _); [cbn; by apply error_named|].
  apply serial_safe; [|done]. intros h2 Hs2.
  eapply ebind_safe with (Q := fun _ _ => True).
  - apply run_op_safe; [by eapply shown_mono|done|]. cbn. split; [|by intros [?|?] _].
    left. exists fd, e. split; [by apply Hs2|done].
  - intros h3 data _ _. destruct (absent pos); cbn; auto.
Qed.

Lemma write_turn_safe fd e data pos h :
  Obs (BFdGet fd) (Some e) ∈ h -> esafe (fun _ _ => True) h (write_turn ns has_quota e data pos).
Proof.
  intros He. unfold write_turn.
  eapply ebind_safe with (Q := fun _ _ => True).
  { destruct (_ && _); [|done]. apply eask_safe; [done| |intros er Her; by apply error_pathless]. intros st _.
    apply ask_safe; [done|]. intros p _. apply eask_safe; [done|done|].
    intros er ->. apply error_named. eapply shown_mono; [|by eapply (entry_shown h fd e)].
    intros x Hx. by do 3 apply hist_snoc. }
  intros h1 [[size at_] growth] Hs1 _. apply ask_safe; [left; exists fd, e; split; [by apply Hs1|done]|].
  intros [n|er] _.
  - eapply bind_safe with (Q := fun _ _ => True); [destruct (_ && _); cbn; auto|]. intros h2 _ _ _.
    eapply bind_safe with (Q := fun _ _ => True); [destruct (absent pos); cbn; auto|]. done.
  - eapply bind_safe with (Q := fun _ _ => True); [destruct (_ && _); cbn; auto|]. intros h2 _ Hs2 _. cbn.
    assert (Hv : shown_opt h2 (Some (p_virtual (e_placed e)))).
    { eapply shown_mono; [|by eapply (entry_shown h fd e)]. etransitivity; [exact Hs1|]. etransitivity; [apply hist_snoc|exact Hs2]. }
    unfold rewrite_err. destruct (e_code er) as [code|]; [destruct (errno_code code)|]; by split.
Qed.

Lemma op_write_safe fd data pos h : esafe (fun _ _ => True) h (op_write ns has_quota fd data pos).
Proof.
  unfold op_write. eapply ebind_safe; [apply fdEntry_safe|]. cbn beta. intros h1 e _ He.
  destruct (_ <? _); [cbn; apply error_named; by eapply entry_shown|].
  apply serial_safe; [|done]. intros h2 Hs2. eapply write_turn_safe with (fd := fd). by apply Hs2.
Qed.

Lemma op_ftruncate_safe fd len h : esafe (fun _ _ => True) h (op_ftruncate has_quota fd len).
Proof.
  unfold op_ftruncate. eapply ebind_safe; [apply fdEntry_safe|]. cbn beta. intros h1 e _ He.
  assert (Hh : forall h', h1 ⊆ h' -> handle_ok h' (e_handle e)) by (intros h' Hs; left; exists fd, e; split; [by apply Hs|done]).
  apply serial_safe; [|done]. intros h2 Hs2. destruct (_ || _).
  - apply eask_safe; [by apply Hh|done|]. intros er Her. by apply error_pathless.
  - apply eask_safe; [done| |intros er Her; by apply error_pathless]. intros st _.
    apply eask_safe; [done| |intros er ->; apply error_named; eapply shown_mono; [|by eapply (entry_shown h1 fd e)]].
    2: { etransitivity; [exact Hs2|]. intros x Hx. by do 2 apply hist_snoc. }
    intros [] _. apply ask_safe; [apply Hh; etransitivity; [exact Hs2|]; intros x Hx; by do 2 apply hist_snoc|].
    intros [[]|er] Her; [by cbn|]. apply ask_safe; [done|]. intros [] _. cbn. by apply error_pathless.
Qed.

Lemma on_fd_safe {A} fd sc (fop : Z -> eprog A) h :
  (forall h' fh, handle_ok h' fh -> esafe (fun _ _ => True) h' (fop fh)) -> esafe (fun _ _ => True) h (on_fd fd sc fop).
Proof.
  intros Ho. unfold on_fd. eapply ebind_safe; [apply fdEntry_safe|]. cbn beta. intros h1 e _ He.
  apply serial_safe; [|done]. intros h2 Hs2. apply Ho. left. exists fd, e. split; [by apply Hs2|done].
Qed.

Lemma quietly_safe op h : esafe (fun _ _ => True) h op -> esafe (fun _ _ => True) h (quietly op).
Proof. intros H. unfold quietly. by eapply ebind_safe. Qed.

Lemma op_writeFile_safe path data flags om text h :
  paths_of c = [path] -> text ∈ texts_of c ->
  esafe answer_ok h (op_writeFile fileURLToPath process_cwd Enforce ns cwd has_quota linux path data flags om text).
Proof using url_error.
  intros Hpath Ht. unfold op_writeFile.
  destruct (_ <? _); [cbn; apply error_named; by right; left|].
  eapply ebind_safe; [by apply op_open_safe|]. cbn beta. intros h1 fd _ Hg.
  eapply bind_safe with (Q := fun h' r => match r with Ok _ => True | Throw e => error_ok h' e end).
  - apply loop_safe with (I := fun _ _ => True); [|by split|done].
    intros h2 rest _. unfold write_file_step. destruct (String.eqb rest ""); [done|].
    eapply ebind_safe; [apply op_write_safe|]. intros h3 n _ _. by destruct (n =? 0).
  - intros h2 r Hs2 Hr. eapply ebind_safe; [apply op_close_safe|]. intros h3 a Hs3 _. destruct r as [[]|e]; cbn.
    + right. rewrite Hpath. constructor; [|done]. eapply granted_mono; [|exact Hg]. by etransitivity.
    + by eapply error_ok_mono.
Qed.

(** *** Two path arguments *)

Lemma checked_any h host b : checked h host true -> checked h host b.
Proof. intros (r & i & H & Hw). exists r, i. split; [done|]. intros _. by apply Hw. Qed.

Section two_paths.
Context (fromp top : pathval) (Hpaths : paths_of c = [fromp; top]).

Lemma from_in : fromp ∈ paths_of c.
Proof using Hpaths. rewrite Hpaths. by left. Qed.
Lemma to_in : top ∈ paths_of c.
Proof using Hpaths. rewrite Hpaths. right. by left. Qed.

Lemma two_answer h1 h2 h w from to a :
  placed_ok h1 fromp w from -> placed_ok h2 top WantW to -> h1 ⊆ h2 -> h2 ⊆ h -> answer_ok h a.
Proof using Hpaths.
  intros (_ & Hf & _) (_ & Ht & _) H12 Hs. right. rewrite Hpaths.
  constructor; [eapply granted_mono; [|exact Hf]; by etransitivity|].
  constructor; [by eapply granted_mono|done].
Qed.

Lemma error_two h code sc a b : shown h a -> shown h b -> error_ok h (nodeError code sc (Some a) (Some b)).
Proof. by split. Qed.

Lemma op_rename_safe h : esafe answer_ok h (op_rename fileURLToPath process_cwd Enforce ns cwd has_quota fromp top).
Proof using Hpaths url_error.
  unfold op_rename. eapply ebind_safe; [apply place_safe, from_in|]. cbn beta. intros h1 from _ Hf.
  eapply ebind_safe; [apply place_safe, to_in|]. cbn beta. intros h2 to Hs2 Ht.
  assert (Hsf : forall h', h2 ⊆ h' -> shown h' (p_virtual from))
    by (intros h' H'; eapply shown_mono; [|apply Hf]; by etransitivity).
  destruct (isRoot from || isRoot to); [cbn; apply error_two; [by apply Hsf|apply Ht]|].
  destruct (_ && _); [cbn; apply error_two; [by apply Hsf|apply Ht]|].
  destruct (placed_writable _ _ _ Hf) as (fh & Ef & Hcf). destruct (placed_writable _ _ _ Ht) as (th & Et & Hct).
  unfold on_host. rewrite Ef, Et.
  eapply bind_safe with (Q := fun _ _ => True).
  { destruct (counts_here has_quota to); [|done]. unfold lstatOrNull, or_null_of. cbn. auto. }
  intros h3 replaced Hs3 _. eapply ebind_safe with (Q := fun h' _ => h3 ⊆ h').
  { apply run_op_safe; [by apply Hsf|intros d [= <-]; eapply shown_mono; [exact Hs3|apply Ht]|].
    cbn. split; [|by intros [[]|e] _; [apply hist_snoc|]].
    split; eapply checked_mono; [|exact Hcf|exact Hs3|exact Hct]. by etransitivity. }
  intros h4 _ Hs4 _. apply give_back_safe. intros h5 Hs5. cbn.
  eapply two_answer; [exact Hf|exact Ht|exact Hs2|]. etransitivity; [exact Hs3|]. by etransitivity.
Qed.

Lemma op_link_safe h : esafe answer_ok h (op_link fileURLToPath process_cwd Enforce ns cwd has_quota fromp top).
Proof using Hpaths url_error.
  unfold op_link. eapply ebind_safe; [apply place_safe, from_in|]. cbn beta. intros h1 from _ Hf.
  eapply ebind_safe; [apply place_safe, to_in|]. cbn beta. intros h2 to Hs2 Ht.
  assert (Hsf : forall h', h2 ⊆ h' -> shown h' (p_virtual from))
    by (intros h' H'; eapply shown_mono; [|apply Hf]; by etransitivity).
  destruct (_ && negb _); [cbn; apply error_two; [by apply Hsf|apply Ht]|].
  apply counted_safe; [apply Ht| |apply answer_ok_mono]. intros h3 Hs3.
  apply run_op_safe; [by apply Hsf|intros d [= <-]; eapply shown_mono; [exact Hs3|apply Ht]|].
  destruct (placed_writable _ _ _ Ht) as (th & Et & Hct). unfold on_host. rewrite Et.
  destruct (p_host from) as [fh|] eqn:Ef; [|done].
  apply eask_safe; [|intros [] _|done].
  - split; [|by eapply checked_mono]. eapply checked_mono; [|exact (placed_checked _ _ _ _ _ Hf Ef)]. by etransitivity.
  - cbn. eapply two_answer; [exact Hf|exact Ht|exact Hs2|]. etransitivity; [exact Hs3|apply hist_snoc].
Qed.

Lemma write_all_safe dst data h0 h : handle_ok h0 dst -> h0 ⊆ h -> esafe (fun h' _ => h ⊆ h') h (write_all dst data).
Proof.
  intros Hh Hs. unfold write_all. apply loop_safe with (I := fun h' _ => h ⊆ h'); [|by split|done].
  intros h1 rest Hs1. destruct (String.eqb rest ""); [exact Hs1|].
  apply eask_safe; [eapply handle_ok_mono; [|exact Hh]; by etransitivity| |intros er Her; by apply error_pathless].
  intros n _. cbn. etransitivity; [exact Hs1|apply hist_snoc].
Qed.

Lemma copy_loop_safe src dst h0 h :
  handle_ok h0 src -> handle_ok h0 dst -> h0 ⊆ h -> esafe (fun h' _ => h ⊆ h') h (copy_loop src dst).
Proof.
  intros Hsrc Hdst Hs. unfold copy_loop. apply loop_safe with (I := fun h' _ => h ⊆ h'); [|by split|done].
  intros h1 [] Hs1. apply eask_safe; [eapply handle_ok_mono; [|exact Hsrc]; by etransitivity| |intros er Her; by apply error_pathless].
  intros data _. set (h2 := h1 ++ _). assert (Hs2 : h1 ⊆ h2) by apply hist_snoc.
  destruct (String.eqb data ""); [cbn; by etransitivity|].
  eapply ebind_safe; [apply (write_all_safe dst data h0 h2 Hdst)|].
  - etransitivity; [exact Hs|]. by etransitivity.
  - cbn beta. intros h3 _ Hs3 _. cbn. etransitivity; [exact Hs1|]. by etransitivity.
Qed.

(** [h1], [h2]: where the source and the target were placed. *)
Lemma copy_opened_safe h1 h2 h excl from to fh th src :
  placed_ok h1 fromp WantR from -> placed_ok h2 top WantW to -> h1 ⊆ h2 -> h2 ⊆ h ->
  p_host from = Some fh -> p_host to = Some th ->
  Obs (HOpen fh (bits [O_RDONLY; O_NONBLOCK]) JUndef) (Ok src) ∈ h ->
  esafe answer_ok h (copy_opened Enforce ns linux excl from to th src).
Proof using Hpaths.
  intros Hf Ht H12 H2 Ef Et Hopen. unfold copy_opened.
  assert (Hsf : forall h', h ⊆ h' -> shown h' (p_virtual from)).
  { intros h' H'. eapply shown_mono; [|apply Hf]. etransitivity; [exact H12|]. by etransitivity. }
  assert (Hst : forall h', h ⊆ h' -> shown h' (p_virtual to)).
  { intros h' H'. eapply shown_mono; [|apply Ht]. by etransitivity. }
  apply eask_safe; [done| |intros er Her; by apply error_pathless]. intros st _. set (h3 := h ++ _).
  assert (Hs3 : h ⊆ h3) by apply hist_snoc.
  destruct (negb (isFile st)); [cbn; apply error_two; [by apply Hsf|by apply Hst]|].
  eapply ebind_safe.
  { eapply verifyOpened_safe; [exact Hf| |exact Ef|by apply Hs3, Hopen|by vm_compute].
    etransitivity; [exact H12|]. by etransitivity. }
  cbn beta. intros h4 _ Hs4 Hsrc. set (flags := bits _). assert (H4 : h ⊆ h4) by (by etransitivity).
  eapply ebind_safe with (Q := fun h' dst => h4 ⊆ h' /\ exists om, Obs (HOpen th flags om) (Ok dst) ∈ h').
  { apply run_op_safe; [by apply Hsf|intros d [= <-]; by apply Hst|]. cbn. split.
    - apply checked_any. eapply checked_mono; [|exact (placed_checked _ _ _ _ _ Ht Et)]; etransitivity; eassumption.
    - intros [dst|e] _; [|done]. split; [apply hist_snoc|]. eexists. apply hist_last. }
  intros h5 dst Hs5 [_ [om Hdst]]. assert (H5 : h ⊆ h5) by (by etransitivity).
  apply finally_safe; [| |apply answer_ok_mono|intros ? ? ? Hs; by apply error_ok_mono].
  - eapply ebind_safe.
    { eapply verifyOpened_safe; [exact Ht| |exact Et|exact Hdst|done]. by etransitivity. }
    cbn beta. intros h6 _ Hs6 Hod.
    assert (Hhd : handle_ok h6 dst) by (right; by eexists _, _).
    assert (Hhs : handle_ok h6 src) by (right; exists fh, (p_ident from); eapply opened_mono; [|exact Hsrc]; by etransitivity).
    apply eask_safe; [exact Hhd| |intros er Her; by apply error_pathless]. intros [] _.
    eapply ebind_safe; [apply (copy_loop_safe src dst h6); [exact Hhs|exact Hhd|apply hist_snoc]|].
    cbn beta. intros h7 _ _ Hs7. cbn. eapply two_answer; [exact Hf|exact Ht|exact H12|].
    etransitivity; [exact H2|]. etransitivity; [exact H5|]. etransitivity; [exact Hs6|]. etransitivity; [apply hist_snoc|exact Hs7].
  - intros h' _. unfold close_quietly. cbn. auto.
Qed.

Lemma copy_safe h1 h2 h excl from to th :
  placed_ok h1 fromp WantR from -> placed_ok h2 top WantW to -> h1 ⊆ h2 -> h2 ⊆ h -> p_host to = Some th ->
  esafe answer_ok h (copy Enforce ns linux excl from to th).
Proof using Hpaths.
  intros Hf Ht H12 H2 Et. unfold copy.
  assert (Hsf : shown h (p_virtual from)) by (eapply shown_mono; [|apply Hf]; by etransitivity).
  assert (Hst : shown h (p_virtual to)) by (by eapply shown_mono; [|apply Ht]).
  eapply ebind_safe with (Q := fun h' src => exists fh, p_host from = Some fh /\
    Obs (HOpen fh (bits [O_RDONLY; O_NONBLOCK]) JUndef) (Ok src) ∈ h').
  { apply run_op_safe; [exact Hsf|intros d [= <-]; exact Hst|]. unfold on_host.
    destruct (p_host from) as [fh|] eqn:Ef; [|done]. cbn. split.
    - eapply checked_mono; [|exact (placed_checked _ _ _ _ _ Hf Ef)]; etransitivity; eassumption.
    - intros [src|e] _; [|done]. exists fh. split; [done|apply hist_last]. }
  intros h3 src Hs3 (fh & Ef & Hopen).
  apply finally_safe; [| |apply answer_ok_mono|intros ? ? ? Hs; by apply error_ok_mono].
  - eapply copy_opened_safe; [exact Hf|exact Ht|exact H12| |exact Ef|exact Et|exact Hopen]. by etransitivity.
  - intros h' _. unfold close_quietly. cbn. auto.
Qed.

Lemma op_copyFile_safe excl h : esafe answer_ok h (op_copyFile fileURLToPath process_cwd Enforce ns cwd has_quota linux fromp top excl).
Proof using Hpaths url_error.
  unfold op_copyFile. eapply ebind_safe; [apply place_safe, from_in|]. cbn beta. intros h1 from _ Hf.
  eapply ebind_safe; [apply place_safe, to_in|]. cbn beta. intros h2 to Hs2 Ht.
  destruct (placed_writable _ _ _ Ht) as (th & Et & Hct). unfold on_host at 1. rewrite Et.
  destruct (counts_here has_quota to); [|by eapply copy_safe].
  eapply bind_safe with (Q := fun _ _ => True).
  { apply or_null_safe. unfold on_host. destruct (p_host from); cbn; auto. }
  intros h3 src Hs3 _. eapply bind_safe with (Q := fun _ _ => True).
  { unfold lstatOrNull, or_null_of. cbn. auto. }
  intros h4 dst Hs4 _. apply counted_safe; [eapply shown_mono; [|apply Ht]; by etransitivity| |apply answer_ok_mono].
  intros h5 Hs5. eapply copy_safe; [exact Hf|exact Ht|exact Hs2| |exact Et]. do 2 (etransitivity; [eassumption|]). done.
Qed.
End two_paths.
End safety.

(** ** The whole operation *)

(** The removal walk's errors are the host's own (see [rm_names_host]); every
    other error names what the module named. *)
Definition error_seen (fileURLToPath : string -> result string) (process_cwd cwd : string) (c : call)
  (h : list (obs brE)) (e : jserr) : Prop :=
  match c with CRm _ _ | CUnlink _ => True | _ => error_ok fileURLToPath process_cwd cwd c h e end.

(** How a call may end: an error the module may see, or an answer for path
    arguments that were all granted. *)
Definition outcome_ok fileURLToPath process_cwd ns cwd (c : call) (h : list (obs brE)) (r : result answer) : Prop :=
  match r with
  | Ok a => answer_ok fileURLToPath process_cwd ns cwd c h a
  | Throw e => error_seen fileURLToPath process_cwd cwd c h e
  end.

Section whole.
Context (fileURLToPath : string -> result string) (process_cwd : string).
Context (ns : namespace) (cwd : string) (has_quota linux : bool) (maxEntries : Z).
Hypothesis url_error : forall u e, fileURLToPath u = Throw e -> e_path e = None /\ e_dest e = None.

Notation policy c := (br_policy fileURLToPath process_cwd ns cwd linux c).
Notation ends_well c := (outcome_ok fileURLToPath process_cwd ns cwd c).
Notation wsafe c := (safe br_env (policy c) (ends_well c)).

Lemma fd_outcome c h (p : eprog answer) :
  paths_of c = [] -> (match c with CRm _ _ | CUnlink _ => False | _ => True end) ->
  safe br_env (policy c) (fun h r => match r with Ok _ => True | Throw e => error_ok fileURLToPath process_cwd cwd c h e end) h p ->
  wsafe c h p.
Proof.
  intros Hp Hc H. eapply safe_mono; [exact H|]. intros h' [a|e] Hr; cbn.
  - right. by rewrite Hp.
  - unfold error_seen. by destruct c.
Qed.

Lemma removal_outcome c h (p : eprog answer) :
  match c with CRm _ _ | CUnlink _ => True | _ => False end ->
  safe br_env (policy c) (fun h r => match r with Ok a => answer_ok fileURLToPath process_cwd ns cwd c h a | Throw _ => True end) h p ->
  wsafe c h p.
Proof.
  intros Hc H. eapply safe_mono; [exact H|]. intros h' [a|e] Hr; cbn; [done|]. unfold error_seen. by destruct c.
Qed.

Lemma then_answer {A} (c : call) (Q : list (obs brE) -> answer -> Prop) h (op : eprog A) (f : A -> answer) P :
  safe br_env (policy c) (fun h r => match r with Ok a => P h a | Throw e => error_ok fileURLToPath process_cwd cwd c h e end) h op ->
  (forall h' a, P h' a -> Q h' (f a)) ->
  safe br_env (policy c) (fun h r => match r with Ok a => Q h a | Throw e => error_ok fileURLToPath process_cwd cwd c h e end) h
    (ebind op (fun a => ok (f a))).
Proof. intros Ho Hf. eapply ebind_safe; [exact Ho|]. intros h' a _ Ha. cbn. by apply Hf. Qed.

Lemma perform_safe c h : wsafe c h (perform fileURLToPath process_cwd Enforce ns cwd has_quota linux maxEntries c).
Proof using url_error.
  destruct c; cbn [perform].
  - by apply op_access_safe.
  - by apply op_exists_safe.
  - by apply op_stat_safe.
  - by apply op_lstat_safe.
  - by apply op_realpath_safe.
  - by apply op_readlink_safe.
  - by apply op_readdir_safe.
  - by apply op_statfs_safe.
  - by apply op_mkdir_safe.
  - by apply op_mkdtemp_safe.
  - by apply op_rmdir_safe.
  - apply removal_outcome; [done|]. by eapply remove_safe with (hop := fun h => HRm h _).
  - apply removal_outcome; [done|]. by eapply remove_safe with (hop := HUnlink).
  - by apply op_rename_safe.
  - by apply op_copyFile_safe.
  - by apply op_link_safe.
  - apply op_symlink_safe; [done|done|by left].
  - by eapply change_safe with (hop := fun h => HChmod h _).
  - by eapply change_safe with (hop := fun h => HChown h _ _).
  - by eapply change_safe with (hop := fun h => HLchown h _ _).
  - by eapply change_safe with (hop := fun h => HUtimes h _ _).
  - by eapply change_safe with (hop := fun h => HLutimes h _ _).
  - by apply op_truncate_safe.
  - eapply then_answer; [by apply op_open_safe|]. cbn beta. intros h' fd Hg. right. by constructor.
  - by apply op_readFile_safe.
  - apply op_writeFile_safe; [done|done|by left].
  - apply fd_outcome; [done|done|apply op_close_safe].
  - apply fd_outcome; [done|done|apply op_read_safe].
  - apply fd_outcome; [done|done|]. eapply then_answer; [apply op_write_safe|done].
  - apply fd_outcome; [done|done|]. apply on_fd_safe. intros h' fh Hf.
    apply eask_safe; [done|done|]. intros er Her. by apply error_pathless.
  - apply fd_outcome; [done|done|apply op_ftruncate_safe].
  - apply fd_outcome; [done|done|]. apply quietly_safe, on_fd_safe. intros h' fh Hf. cbn. split; [done|]. intros [[]|er] Her; [done|by apply error_pathless].
  - apply fd_outcome; [done|done|]. apply quietly_safe, on_fd_safe. intros h' fh Hf. cbn. split; [done|]. intros [[]|er] Her; [done|by apply error_pathless].
  - apply fd_outcome; [done|done|]. apply quietly_safe, on_fd_safe. intros h' fh Hf. cbn. split; [done|]. intros [[]|er] Her; [done|by apply error_pathless].
  - apply fd_outcome; [done|done|]. apply quietly_safe, on_fd_safe. intros h' fh Hf. cbn. split; [done|]. intros [[]|er] Her; [done|by apply error_pathless].
  - apply fd_outcome; [done|done|]. apply quietly_safe, on_fd_safe. intros h' fh Hf. cbn. split; [done|]. intros [[]|er] Her; [done|by apply error_pathless].
  - cbn. by split.
Qed.

Lemma outcome_mono c h h' r : h ⊆ h' -> ends_well c h r -> ends_well c h' r.
Proof.
  intros Hs. destruct r as [a|e]; cbn; [by apply answer_ok_mono|]. unfold error_seen.
  destruct c; try done; by apply error_ok_mono.
Qed.

Lemma schedule_safe c (p : eprog answer) h : (forall h', wsafe c h' p) -> wsafe c h (schedule p).
Proof.
  intros Hp. unfold schedule. apply ask_safe; [done|]. intros [] _. eapply bind_safe; [apply Hp|].
  intros h1 r _ Hr. apply ask_safe; [done|]. intros [] _. cbn. eapply outcome_mono; [apply hist_snoc|exact Hr].
Qed.

Lemma locked_safe c excl (p : eprog answer) h : (forall h', wsafe c h' p) -> wsafe c h (locked excl p).
Proof.
  intros Hp. unfold locked. apply ask_safe; [done|]. intros [] _.
  eapply bind_safe with (Q := fun _ _ => True); [destruct excl; cbn; auto|].
  intros h1 _ _ _. eapply bind_safe; [by apply schedule_safe|]. intros h2 r _ Hr.
  apply ask_safe; [done|]. intros [] _. cbn. eapply outcome_mono; [apply hist_snoc|exact Hr].
Qed.

Lemma error_seen_plain c h code sc : ends_well c h (Throw (nodeError code sc None None)).
Proof. cbn. unfold error_seen. by destruct c. Qed.

Lemma open_lock_error c flags e h : open_lock flags = Throw e -> ends_well c h (Throw e).
Proof.
  unfold open_lock. destruct (openFlags flags) as [fl|e'] eqn:E; cbn; [done|]. intros [= <-].
  pose proof (openFlags_error fileURLToPath process_cwd cwd c flags e' h E). unfold error_seen. by destruct c.
Qed.

Lemma lock_error c e h : lock_of c = Throw e -> ends_well c h (Throw e).
Proof. destruct c; cbn [lock_of]; try done; apply open_lock_error. Qed.

Lemma handleOne_safe c h : wsafe c h (handleOne fileURLToPath process_cwd Enforce ns cwd has_quota linux maxEntries c).
Proof using url_error.
  unfold handleOne. destruct (match c with CUnknown _ => _ | _ => _ end).
  - cbn [throw safe]. apply error_seen_plain.
  - apply ask_safe; [done|]. intros [] _; [cbn [throw safe]; apply error_seen_plain|].
    destruct (lock_of c) as [[]|e] eqn:E.
    + apply locked_safe. intros. apply perform_safe.
    + apply locked_safe. intros. apply perform_safe.
    + apply schedule_safe. intros. apply perform_safe.
    + cbn [throw safe]. by apply lock_error.
Qed.

Lemma handle_wsafe c : wsafe c [] (handle fileURLToPath process_cwd Enforce ns cwd has_quota linux maxEntries c).
Proof using url_error.
  unfold handle. apply ask_safe; [done|]. intros [] _. eapply bind_safe; [apply handleOne_safe|].
  intros h1 r _ Hr. apply ask_safe; [done|]. intros [] _. cbn. eapply outcome_mono; [apply hist_snoc|exact Hr].
Qed.

(** C2: Under enforce, whatever the host answers and whatever runs between an
    operation's steps, each host call of the operation is allowed by what came
    before it: a host path it reads, mutates, opens or lists was placed in a
    root of the namespace and its real location found in a root (or it does
    not exist and neither does its parent); it is mutated, or opened for
    writing, only if that root is writable; directories are walked without
    going through a link; a file is read or written only through a descriptor
    of the table or one opened on a checked path and verified after the open
    (same inode or same parent, and on Linux its own link in a root, the
    checked root for a write), and only such a file enters the table. *)
Theorem broker_confined c tr r :
  run (handle fileURLToPath process_cwd Enforce ns cwd has_quota linux maxEntries c) tr r -> allowed br_env [] tr ->
  requests_ok (policy c) tr.
Proof using url_error. intros Hr Ha. eapply safe_requests; [apply handle_wsafe|exact Hr|exact Ha]. Qed.

(** C4: Under enforce an operation is answered (other than exists with false)
    only if each of its path arguments is a checked path in a root or a
    directory above the roots, and an error's path and dest are names the
    module gave: a virtual path of this call, a text it passed, or the name it
    opened the descriptor under; except a removal's, whose walk of the subtree
    fails with the host's own error. *)
Theorem broker_answers_granted c tr r :
  run (handle fileURLToPath process_cwd Enforce ns cwd has_quota linux maxEntries c) tr r -> allowed br_env [] tr ->
  outcome_ok fileURLToPath process_cwd ns cwd c tr r.
Proof using url_error. intros Hr Ha. exact (safe_run br_env _ _ [] _ tr r (handle_wsafe c) Hr Ha). Qed.
End whole.

(** ** Concrete runs *)

(** A module's directories under /srv, nothing a link, /proc as Linux has it. *)
Definition demo_ns : namespace :=
  prepare "/" None Some (fun _ => Some true) (mkCfg "/srv/app" "/srv/data" "/srv/tmp" [] []).

Definition demo_stat (k : kind) : stat :=
  mkStat k (JObj [("dev", JNum 1); ("ino", JNum 7); ("nlink", JNum 1); ("size", JNum 5)]).

Definition demo_host (k : kind) (readdir : result (list dirent)) (X : Type) (n : nat) (e : brE X) : X :=
  match e in brE X return X with
  | HRealpath p => Ok p
  | HLstat _ _ => Ok (demo_stat k)
  | HStat _ _ => Ok (demo_stat k)
  | HReadlink _ => Ok "/srv/data/a"
  | HAccess _ _ => Ok tt
  | HReaddir _ => readdir
  | HStatfs _ => Ok JUndef
  | HMkdir _ _ => Ok None
  | HMkdtemp p => Ok (p +:+ "AbC123")
  | HRmdir _ | HRm _ _ | HUnlink _ | HRename _ _ | HLink _ _ | HSymlink _ _ _ | HChmod _ _ | HChown _ _ _ | HLchown _ _ _
  | HUtimes _ _ _ | HLutimes _ _ _ | HTruncate _ _ => Ok tt
  | HOpen _ _ _ => Ok 9
  | FStat _ _ => Ok (demo_stat k)
  | FRead _ _ _ => Ok ""
  | FWrite _ data _ => Ok (slength data)
  | FTruncate _ _ | FSync _ _ | FChmod _ _ | FChown _ _ _ | FUtimes _ _ _ | FClose _ => Ok tt
  | BClosed => false
  | BNow => 0
  | BCacheGet _ => None
  | BReserve _ _ _ _ => Ok tt
  | BFdCount => 0
  | BFdAdd _ => 3
  | BFdGet _ => None
  | BPos _ => Fin 0
  | BBegin | BEnd | BAcquire _ | BRelease _ | BSlot | BSlotDone | BReport _ _ | BCacheSet _ _ _ | BCacheClear | BSettle _ _ _ _
  | BFdDelete _ | BSetPos _ _ | BTurn _ | BTurnDone _ => tt
  end.

Notation demo_handle c := (handle (fun _ => Throw invalid_path) "/" Enforce demo_ns "/app" true true 100 c).

Definition demo_eval (k : kind) (readdir : result (list dirent)) (c : call) : result answer * list (obs brE) :=
  eval (demo_host k readdir) 0 (demo_handle c).

Lemma demo_eval_run k readdir c : run (demo_handle c) (demo_eval k readdir c).2 (demo_eval k readdir c).1.
Proof. apply eval_run. Qed.

(** Opening a file of /data for reading. *)
Definition demo_open : call := COpen (PStr "/data/a") (FlagText "r") JUndef.
Definition demo_open_tr : list (obs brE) := (demo_eval KFile (Ok []) demo_open).2.

Lemma broker_confined_witness :
  (demo_eval KFile (Ok []) demo_open).1 = Ok (ANum 3) /\
  requests_ok (br_policy (fun _ => Throw invalid_path) "/" demo_ns "/app" true demo_open) demo_open_tr.
Proof.
  split; [by vm_compute|].
  apply (broker_confined (fun _ => Throw invalid_path) "/" demo_ns "/app" true true 100
           (ltac:(by intros u e [= <-])) demo_open _ _ (demo_eval_run KFile (Ok []) demo_open)).
  vm_compute. repeat split.
Defined.

Lemma broker_answers_granted_witness :
  granted (fun _ => Throw invalid_path) "/" demo_ns "/app" demo_open_tr (PStr "/data/a").
Proof.
  assert (H : outcome_ok (fun _ => Throw invalid_path) "/" demo_ns "/app" demo_open demo_open_tr (demo_eval KFile (Ok []) demo_open).1).
  { apply (broker_answers_granted (fun _ => Throw invalid_path) "/" demo_ns "/app" true true 100
             (ltac:(by intros u e [= <-])) demo_open _ _ (demo_eval_run KFile (Ok []) demo_open)).
    vm_compute. repeat split. }
  replace (demo_eval KFile (Ok []) demo_open).1 with (@Ok answer (ANum 3)) in H by (by vm_compute).
  destruct H as [H|H]; [discriminate H|]. by inversion H.
Defined.

(** ** Where the checks end *)

(** Whether a trace makes this host call. *)
Definition makes (f : forall X, brE X -> bool) (tr : list (obs brE)) : bool :=
  existsb (fun o => match o with Obs e _ => f _ e end) tr.

(** The path argument of mkdtemp is a prefix: given a root, or a root and a
    slash, the new directory lies beside the root and in no root at all. *)
Theorem mkdtemp_beside_root :
  let '(r, tr) := demo_eval KDir (Ok []) (CMkdtemp (PStr "/tmp/")) in
  is_ok r = true /\
  makes (fun _ e => match e with HMkdtemp p => String.eqb p "/srv/tmp" | _ => false end) tr = true /\
  rootForReal demo_ns "/srv/tmpAbC123" = None /\ toVirtual demo_ns "/srv/tmpAbC123" = None.
Proof. vm_compute. auto. Qed.

(** Removing a directory the walk cannot list answers with the host's error:
    the module learns the host path of its directory. *)
Theorem rm_names_host :
  let denied := mkErr "EACCES: permission denied, scandir '/srv/data/d'" (Some "EACCES") (Some (-13)) (Some "scandir") (Some "/srv/data/d") None in
  (demo_eval KDir (Throw denied) (CRm (PStr "/data/d") (JObj [("recursive", JBool true)]))).1 = Throw denied.
Proof. by vm_compute. Qed.

(** The link rule is checked when a link is made, on its virtual path there: a
    relative link made two directories down is accepted, and so is its rename
    to the root, where the same target leads outside. *)
Theorem rename_moves_link_out :
  (demo_eval KDir (Ok []) (CSymlink "../../x" (PStr "/data/a/b/l") JUndef)).1 = Ok AUndef /\
  (demo_eval KLink (Ok []) (CRename (PStr "/data/a/b/l") (PStr "/data/l"))).1 = Ok AUndef /\
  is_ok (demo_eval KDir (Ok []) (CSymlink "../../x" (PStr "/data/l") JUndef)).1 = false /\
  inside (resolve "/" ["/data"; "../../x"]) "/data" = false.
Proof. by vm_compute. Qed.
