(* ===== verification/BrokerQuota.v ===== *)
(** * The quota of an open file, proved of Broker.v against the host's file

    One counted descriptor of a file on a Linux host: the size and the offset
    the host keeps, the position and the usage the broker keeps, and what a
    sequence of reads, writes and truncations does to both. *)
From Stdlib Require Import ZArith Lia Ascii String.
From stdpp Require Import prelude strings gmap.
From S2P Require Import Prelude Paths Namespace FsErrors Quota Json Prog Host SpawnWalk Broker.

Set Default Proof Using "Type".
Local Open Scope Z_scope.

(** ** The host's file *)

Record world := mkWorld {
  w_size : Z;
  w_offset : Z;
  w_pos : num;
  w_quota : quota
}.

Definition set_size (w : world) (s o : Z) : world := mkWorld s o (w_pos w) (w_quota w).
Definition set_pos (w : world) (p : num) : world := mkWorld (w_size w) (w_offset w) p (w_quota w).
Definition set_quota (w : world) (q : quota) : world := mkWorld (w_size w) (w_offset w) (w_pos w) q.

(** A position Node passes to the host: a number from 0 on; with any other the
    call is made at the file's own offset. *)
Definition host_position (position : narg) : option Z :=
  match position with NInt z => if 0 <=? z then Some z else None | _ => None end.

(** Where a write lands: at the end of a file opened to append, whatever its
    position. *)
Definition lands (append : bool) (w : world) (position : narg) : Z :=
  if append then w_size w else default (w_offset w) (host_position position).

(** The length Node truncates to: none is 0, a negative one too. *)
Definition host_length (len : narg) : option Z :=
  match len with NInt z => Some (Z.max 0 z) | NUndef => Some 0 | _ => None end.

Section world.
Context (e : fd_entry).

(** One request: the host may fail, a write of something writes some of it, a
    read reads no more than it was asked. *)
Definition wstep (w : world) (X : Type) (r : brE X) : X -> world -> Prop :=
  match r in brE X return X -> world -> Prop with
  | FStat _ _ => fun x w' => w' = w /\ forall st, x = Ok st -> st_size st = w_size w
  | FWrite _ data position => fun x w' =>
      match x with
      | Throw _ => w' = w
      | Ok n => (if String.eqb data "" then n = 0 else 0 < n <= slength data) /\
                let at_ := lands (e_append e) w position in
                w' = set_size w (if n =? 0 then w_size w else Z.max (w_size w) (at_ + n))
                       (match host_position position with Some _ => w_offset w | None => at_ + n end)
      end
  | FRead _ n position => fun x w' =>
      match x with
      | Throw _ => w' = w
      | Ok data => slength data <= n /\
                   w' = set_size w (w_size w) (match host_position position with
                                               | Some _ => w_offset w
                                               | None => w_offset w + slength data
                                               end)
      end
  | FTruncate _ len => fun x w' =>
      match x with
      | Throw _ => w' = w
      | Ok _ => exists l, host_length len = Some l /\ w' = set_size w l (w_offset w)
      end
  | BFdGet _ => fun x w' => w' = w /\ x = Some e
  | BPos _ => fun x w' => w' = w /\ x = w_pos w
  | BSetPos _ p => fun x w' => w' = set_pos w p
  | BReserve b n sc v => fun x w' =>
      match reserve (w_quota w) b n sc v with
      | Ok (q, _) => x = Ok tt /\ w' = set_quota w q
      | Throw er => x = Throw er /\ w' = w
      end
  | BSettle rb re ab ae => fun x w' => w' = set_quota w (settle (w_quota w) rb re ab ae).1
  | _ => fun _ w' => w' = w
  end.

(** A run in the world. *)
Inductive wrun {A} : world -> prog brE A -> world -> A -> Prop :=
| wrun_ret w a : wrun w (Ret a) w a
| wrun_vis w X (r : brE X) k x w1 w2 a : wstep w X r x w1 -> wrun w1 (k x) w2 a -> wrun w (Vis r k) w2 a.

(** Every run from [w] ends in [Q]. *)
Fixpoint wsafe {A} (Q : world -> A -> Prop) (w : world) (p : prog brE A) : Prop :=
  match p with
  | Ret a => Q w a
  | Vis r k => forall x w', wstep w _ r x w' -> wsafe Q w' (k x)
  end.

Lemma wsafe_run {A} (Q : world -> A -> Prop) w p w' a : wsafe Q w p -> wrun w p w' a -> Q w' a.
Proof. intros Hs Hr. induction Hr as [w a|w X r k x w1 w2 a Hx Hr IH]; [done|]. apply IH. by apply Hs. Qed.

Lemma wsafe_bind {A B} (Q : world -> A -> Prop) (R : world -> B -> Prop) w p (f : A -> prog brE B) :
  wsafe Q w p -> (forall w' a, Q w' a -> wsafe R w' (f a)) -> wsafe R w (pbind p f).
Proof. revert w. induction p as [a|X r k IH]; intros w Hp Hf; cbn in *; [auto|]. eauto. Qed.

Lemma wsafe_ebind {A B} (Q : world -> A -> Prop) (R : world -> result B -> Prop) w (p : eprog A) (f : A -> eprog B) :
  wsafe (fun w' r => match r with Ok a => Q w' a | Throw er => R w' (Throw er) end) w p ->
  (forall w' a, Q w' a -> wsafe R w' (f a)) -> wsafe R w (ebind p f).
Proof. intros Hp Hf. eapply wsafe_bind; [exact Hp|]. intros w' [a|er] H; [by apply Hf|exact H]. Qed.

(** ** Operations of the descriptor *)

Inductive fd_op :=
| OWrite (data : string) (position : narg)
| ORead (length position : narg)
| OTruncate (len : narg).

Context (ns : namespace) (fd : Z).

Definition discard {A} (p : eprog A) : eprog unit := ebind p (fun _ => ok tt).

Definition do_op (o : fd_op) : eprog unit :=
  match o with
  | OWrite data position => discard (op_write ns true fd data position)
  | ORead length position => discard (op_read ns fd length position)
  | OTruncate len => discard (op_ftruncate true fd len)
  end.

Inductive wruns : list fd_op -> world -> world -> Prop :=
| wruns_nil w : wruns [] w w
| wruns_cons o os w w1 w2 r : wrun w (do_op o) w1 r -> wruns os w1 w2 -> wruns (o :: os) w w2.

(** The arguments the accounting is made for: something to write, a position
    that is absent or, not appending, a number from 0 on; a length that is
    absent or from 0 on. *)
Definition plain_position (position : narg) : Prop :=
  absent position = true \/ (e_append e = false /\ exists z, position = NInt z /\ 0 <= z).
Definition plain_op (o : fd_op) : Prop :=
  match o with
  | OWrite data position => data <> "" /\ plain_position position
  | ORead _ position => absent position = true \/ exists z, position = NInt z /\ 0 <= z
  | OTruncate len => len = NUndef \/ exists z, len = NInt z /\ 0 <= z
  end.

(** The broker follows the file: its position is the host's offset, and the
    usage counts the whole of it; [rest] is what the pool counts beside. *)
Definition follows (rest : Z) (w : world) : Prop :=
  w_pos w = Fin (w_offset w) /\ q_bytes (w_quota w) = Fin (w_size w + rest) /\ 0 <= w_size w.

Context (Hcounts : e_counts e = true) (rest : Z) (Hrest : 0 <= rest).

Lemma reserve_bytes q u b sc v :
  q_bytes q = Fin u ->
  match reserve q (Fin b) (Fin 0) sc v with Ok (q', _) => q_bytes q' = Fin (u + b) | Throw _ => True end.
Proof.
  intros Hu. destruct (reserve q (Fin b) (Fin 0) sc v) as [[q' r]|er] eqn:E; [|done].
  apply reserve_usage in E as (-> & _). by rewrite Hu.
Qed.

Lemma settle_bytes q u rb ab : q_bytes q = Fin u ->
  q_bytes (settle q (Fin rb) (Fin 0) (Fin ab) (Fin 0)).1 = Fin (Z.max 0 (u - rb + ab)).
Proof. intros Hu. rewrite (proj1 (settle_usage q (Fin rb) (Fin 0) (Fin ab) (Fin 0))), Hu. done. Qed.

Lemma write_turn_follows data position w :
  data <> "" -> plain_position position -> follows rest w ->
  wsafe (fun w' _ => follows rest w') w (write_turn ns true e data position).
Proof using Hcounts Hrest.
  intros Hdata Hp (Hpos & Hu & Hsz). unfold write_turn. rewrite Hcounts. cbn [andb].
  set (L := slength data).
  set (at_ := lands (e_append e) w position).
  assert (Hat : write_at e position (w_size w) (w_pos w) = Fin at_).
  { unfold write_at, at_, lands. rewrite Hpos. destruct Hp as [Ha|(Ha & z & -> & Hz)].
    - rewrite Ha. cbn [negb]. destruct (e_append e); [done|]. by destruct position.
    - cbn. rewrite Ha. destruct (Z.leb_spec 0 z); [done|lia]. }
  set (growth := Z.max 0 (at_ + L - w_size w)).
  eapply wsafe_ebind with (Q := fun w1 r => r = (w_size w, Fin at_, Fin growth) /\
    w_size w1 = w_size w /\ w_offset w1 = w_offset w /\ w_pos w1 = w_pos w /\
    q_bytes (w_quota w1) = Fin (w_size w + rest + growth)).
  { cbn. intros x w1 [-> Hst]. destruct x as [st|er]; [|by split_and!]. cbn. intros p w1 [-> ->].
    rewrite (Hst st eq_refl), Hat. cbn [nadd nsub nmax0]. fold L. change (Z.max 0 (at_ + L - w_size w)) with growth.
    intros x w2. pose proof (reserve_bytes (w_quota w) _ growth "write" (e_fdvirtual e) Hu) as Hr.
    destruct (reserve _ _ _ _ _) as [[q rs]|er]; intros [-> ->]; [|by split_and!]. cbn. by split_and!. }
  intros w1 [[size at'] g] ([= -> -> ->] & Hs1 & Ho1 & Hp1 & Hq1). cbn [pbind ask wsafe].
  apply String.eqb_neq in Hdata.
  intros [n|er] w2; cbn [wstep].
  - rewrite Hdata. intros (Hn & ->). cbn [pbind ask wsafe]. intros _ w3 ->.
    assert (Hland : lands (e_append e) w1 (if absent position then NNull else position) = at_).
    { unfold lands, at_, lands. rewrite Hs1, Ho1. destruct (e_append e); [done|]. by destruct position. }
    rewrite Hland. cbn [nadd nsub nmax0 set_quota set_size w_quota w_size w_offset w_pos].
    set (actual := Z.max 0 (at_ + n - w_size w)).
    pose proof (settle_bytes (w_quota w1) _ growth actual Hq1) as Hq3.
    destruct (Z.eqb_spec n 0) as [|_]; [lia|]. rewrite Hs1.
    assert (Hsize : Z.max (w_size w) (at_ + n) + rest = Z.max 0 (w_size w + rest + growth - growth + actual))
      by (unfold actual; lia).
    destruct (absent position) eqn:Ea; cbn [pbind ask wsafe].
    + intros p w4 [-> ->]. cbn [pbind ask wsafe]. intros _ w5 ->. cbn [pbind wsafe].
      unfold follows. cbn [ok throw wsafe set_pos set_quota set_size w_pos w_offset w_quota w_size].
      split_and!; [|by rewrite Hq3, Hsize|lia]. cbn [host_position]. rewrite Hp1, Hpos. unfold at_, lands.
      destruct (e_append e); [done|]. cbn [nadd]. by destruct position.
    + unfold follows. cbn [ok throw wsafe set_pos set_quota set_size w_pos w_offset w_quota w_size].
      split_and!; [|by rewrite Hq3, Hsize|lia]. rewrite Hp1, Hpos, Ho1.
      destruct Hp as [Hp|(_ & z & -> & Hz)]; [congruence|]. cbn. destruct (Z.leb_spec 0 z); [done|lia].
  - intros ->. cbn [pbind ask wsafe]. intros _ w3 ->. cbn [pbind wsafe throw].
    unfold follows. cbn [ok throw wsafe set_quota w_pos w_offset w_quota w_size].
    rewrite Hp1, Ho1, Hs1, (settle_bytes _ _ growth 0 Hq1). split_and!; [done| |lia]. f_equal. lia.
Qed.

Lemma ret_follows {A} w (a : A) : follows rest w -> wsafe (fun w' _ => follows rest w') w (Ret a).
Proof. done. Qed.

Lemma serial_follows {A} (p : eprog A) w :
  wsafe (fun w' _ => follows rest w') w p -> wsafe (fun w' _ => follows rest w') w (serial e p).
Proof.
  intros Hp. unfold serial. cbn [pbind ask wsafe]. intros [] w1 ->. eapply wsafe_bind; [exact Hp|].
  intros w2 r Hw. cbn [pbind ask wsafe]. by intros [] w3 ->.
Qed.

Lemma entry_follows {A} sc (k : fd_entry -> eprog A) w :
  follows rest w -> wsafe (fun w' _ => follows rest w') w (k e) ->
  wsafe (fun w' _ => follows rest w') w (ebind (fdEntry fd sc) k).
Proof. intros Hw Hk. unfold fdEntry. cbn [ebind pbind ask wsafe]. by intros x w1 [-> ->]. Qed.

Lemma read_follows length position w :
  (absent position = true \/ exists z, position = NInt z /\ 0 <= z) -> follows rest w ->
  wsafe (fun w' _ => follows rest w') w (op_read ns fd length position).
Proof.
  intros Hp Hw. apply entry_follows; [done|]. destruct (js_num length) as [n|]; [|done].
  destruct (_ || _); [done|]. apply serial_follows. destruct Hw as (Hpos & Hu & Hsz).
  eapply wsafe_ebind with (Q := fun w1 data => w_size w1 = w_size w /\ w_pos w1 = w_pos w /\ w_quota w1 = w_quota w /\
    w_offset w1 = if absent position then w_offset w + slength data else w_offset w).
  { unfold run_op. cbn [pbind ask wsafe]. intros [data|er] w1; cbn [wstep].
    - intros [_ ->]. cbn. split_and!; try done. destruct Hp as [Ha|(z & -> & Hz)]; [by rewrite Ha|].
      cbn. destruct (Z.leb_spec 0 z); [done|lia].
    - intros ->. by split_and!. }
  intros w1 data (Hs1 & Hp1 & Hq1 & Ho1). destruct (absent position); cbn [pbind ask wsafe].
  - intros p w2 [-> ->]. cbn [pbind ask wsafe]. intros _ w3 ->. unfold follows. cbn.
    rewrite Hp1, Hpos, Ho1, Hs1, Hq1. by split_and!.
  - unfold follows. cbn. rewrite Hp1, Hpos, Ho1, Hs1, Hq1. by split_and!.
Qed.

Lemma truncate_follows len w :
  (len = NUndef \/ exists z, len = NInt z /\ 0 <= z) -> follows rest w ->
  wsafe (fun w' _ => follows rest w') w (op_ftruncate true fd len).
Proof using Hcounts Hrest.
  intros Hl Hw. apply entry_follows; [done|]. apply serial_follows. rewrite Hcounts. cbn [negb orb].
  destruct Hw as (Hpos & Hu & Hsz).
  assert (exists l, js_num_or0 len = Fin l /\ host_length len = Some l /\ 0 <= l) as (l & -> & Hhl & Hl0).
  { destruct Hl as [->|(z & -> & Hz)]; [by exists 0|]. exists z. cbn. split_and!; [done| |done]. f_equal. lia. }
  cbn [ebind pbind ask wsafe]. intros [st|er] w1 [-> Hst]; [|by split_and!].
  rewrite (Hst st eq_refl). cbn [nsub nmax0]. set (growth := Z.max 0 (l - w_size w)).
  cbn [ebind pbind ask wsafe wstep]. intros x w2.
  pose proof (reserve_bytes (w_quota w) _ growth "ftruncate" (e_fdvirtual e) Hu) as Hr.
  destruct (reserve _ _ _ _ _) as [[q rs]|er]; intros [-> ->]; [|by split_and!].
  cbn [pbind ask wsafe wstep]. intros [[]|er] w3.
  - intros (l' & Hl' & ->). rewrite Hhl in Hl'. injection Hl' as <-. cbn [pbind ask wsafe]. intros _ w4 ->. cbn [pbind wsafe ok].
    unfold follows. cbn [ok throw wsafe set_quota set_size w_pos w_offset w_quota w_size].
    rewrite (settle_bytes _ _ growth (l - w_size w) Hr). split_and!; [done| |done]. f_equal. lia.
  - intros ->. cbn [pbind ask wsafe]. intros _ w4 ->. cbn [pbind wsafe throw].
    unfold follows. cbn [ok throw wsafe set_quota w_pos w_offset w_quota w_size].
    rewrite (settle_bytes _ _ growth 0 Hr). split_and!; [done| |done]. f_equal. lia.
Qed.

Lemma discard_follows {A} (p : eprog A) w :
  wsafe (fun w' _ => follows rest w') w p -> wsafe (fun w' _ => follows rest w') w (discard p).
Proof. intros Hp. unfold discard. eapply wsafe_bind; [exact Hp|]. by intros w' [a|er] H. Qed.

Lemma do_op_follows o w : plain_op o -> follows rest w -> wsafe (fun w' _ => follows rest w') w (do_op o).
Proof using Hcounts Hrest.
  intros Ho Hw. destruct o as [data position|length position|len]; apply discard_follows.
  - destruct Ho as [Hd Hp]. apply entry_follows; [done|]. destruct (MAX_IO <? slength data); [done|].
    apply serial_follows. by apply write_turn_follows.
  - by apply read_follows.
  - by apply truncate_follows.
Qed.

(** C5: Through any sequence of reads, writes and truncations of an open
    counted file, whatever the host refuses or writes short: the broker's
    position stays the file's offset, and the pool's bytes change by exactly
    what the file's size changes by, provided that a write writes something,
    at no position or (the file not opened to append) at one from 0 on, and
    that a length truncated to is absent or from 0 on. *)
Theorem descriptor_accounted ops w w' :
  Forall plain_op ops -> follows rest w -> wruns ops w w' -> follows rest w'.
Proof using Hcounts Hrest.
  intros Hops Hw Hr. induction Hr as [w|o os w w1 w2 r Ho Hr IH]; [done|].
  inversion Hops; subst. apply IH; [done|]. eapply (wsafe_run (fun w' _ => follows rest w')); [|exact Ho].
  by apply do_op_follows.
Qed.

(** ** What the accounting misses *)

Lemma reserve_nothing q u n sc v : q_bytes q = Fin u -> q_entries q = Fin n ->
  exists q' r, reserve q (Fin 0) (Fin 0) sc v = Ok (q', r) /\ q_bytes q' = Fin u /\ q_entries q' = Fin n.
Proof.
  intros Hu Hn. unfold reserve, exceeds. cbn [zltn andb orb].
  pose proof (crossings_fields (with_usage q (nadd (q_bytes q) (Fin 0)) (nadd (q_entries q) (Fin 0)))) as (_ & _ & _ & Hb & He).
  destruct (crossings _) as [q' r]. exists q', r. split; [done|]. cbn in Hb, He. rewrite Hb, He, Hu, Hn. cbn.
  split; f_equal; lia.
Qed.

Definition sized (s : Z) : stat := mkStat KFile (JObj [("size", JNum s)]).

Lemma sized_size s : st_size (sized s) = s.
Proof. done. Qed.

(** A write at a position, to a file opened to append, lands at the end of
    the file but is counted where its position says: within the file, it is
    counted as nothing, so a module whose quota is full goes on growing the
    file, and the pool never learns. *)
Theorem append_position_uncounted data z w n :
  e_append e = true -> data <> "" -> slength data <= MAX_IO -> 0 <= z -> z + slength data <= w_size w ->
  0 <= rest -> q_bytes (w_quota w) = Fin (w_size w + rest) -> q_entries (w_quota w) = Fin n ->
  exists w', wrun w (do_op (OWrite data (NInt z))) w' (Ok tt) /\
    w_size w' = w_size w + slength data /\ q_bytes (w_quota w') = q_bytes (w_quota w).
Proof using Hcounts.
  intros Ha Hd Hmax Hz Hin Hr Hu Hn. assert (Hlen : 0 <= slength data) by (unfold slength; lia).
  apply String.eqb_neq in Hd.
  assert (Hl : 0 < slength data).
  { destruct data; [done|]. unfold slength. cbn [String.length]. lia. }
  destruct (reserve_nothing (w_quota w) _ n "write" (e_fdvirtual e) Hu Hn) as (q1 & r1 & Hres & Hq1 & Hn1).
  pose proof (settle_bytes q1 _ 0 0 Hq1) as Hq2.
  eexists (set_quota (set_size (set_quota w q1) (w_size w + slength data) (w_offset w)) (settle q1 (Fin 0) (Fin 0) (Fin 0) (Fin 0)).1).
  split; [|cbn [set_quota set_size w_size w_quota]; rewrite Hq2, Hu; split; [done|f_equal; lia]].
  unfold do_op, discard, op_write, fdEntry. cbn [ebind pbind ask].
  eapply wrun_vis; [by split|]. cbn [ebind pbind ok].
  destruct (Z.ltb_spec MAX_IO (slength data)); [lia|]. unfold serial, write_turn. rewrite Hcounts. cbn [andb ebind pbind ask].
  eapply (wrun_vis _ _ _ _ tt); [reflexivity|]. cbn [pbind].
  eapply (wrun_vis _ _ _ _ (Ok (sized (w_size w)))).
  { split; [reflexivity|]. by intros st [= <-]. }
  rewrite sized_size. cbn [ebind pbind ask]. eapply wrun_vis; [by split|].
  cbn [pbind ask write_at absent negb js_num nadd nsub nmax0].
  replace (Z.max 0 (z + slength data - w_size w)) with 0 by lia.
  eapply (wrun_vis _ _ _ _ (Ok tt) (set_quota w q1)). { cbn [wstep]. rewrite Hres. by split. }
  cbn [ebind pbind ask ok].
  eapply (wrun_vis _ _ _ _ (Ok (slength data)) (set_size (set_quota w q1) (w_size w + slength data) (w_offset w))).
  { cbn [wstep]. rewrite Hd. split; [lia|]. unfold lands. rewrite Ha. cbn [host_position].
    destruct (Z.leb_spec 0 z); [|lia]. destruct (Z.eqb_spec (slength data) 0); [lia|].
    cbn [set_quota w_size w_offset]. f_equal. lia. }
  cbn [ebind pbind ask ok nadd nsub nmax0].
  replace (Z.max 0 (z + slength data - w_size w)) with 0 by lia.
  eapply (wrun_vis _ _ _ _ tt); [reflexivity|]. cbn [ebind pbind ask ok].
  eapply (wrun_vis _ _ _ _ tt); [reflexivity|]. cbn [ebind pbind ask ok]. constructor.
Qed.

(** Truncating to a length below 0 empties the file but gives back, beside
    the file's size, the length asked for: the module sets its pool's usage as
    low as it likes. *)
Theorem negative_truncate_frees k w n :
  0 < k -> q_bytes (w_quota w) = Fin (w_size w + rest) -> q_entries (w_quota w) = Fin n -> 0 <= w_size w ->
  exists w', wrun w (do_op (OTruncate (NInt (- k)))) w' (Ok tt) /\ w_size w' = 0 /\
    q_bytes (w_quota w') = Fin (Z.max 0 (rest - k)).
Proof using Hcounts.
  intros Hk Hu Hn Hsz.
  destruct (reserve_nothing (w_quota w) _ n "ftruncate" (e_fdvirtual e) Hu Hn) as (q1 & r1 & Hres & Hq1 & Hn1).
  pose proof (settle_bytes q1 _ 0 (- k - w_size w) Hq1) as Hq2.
  eexists (set_quota (set_size (set_quota w q1) 0 (w_offset w)) (settle q1 (Fin 0) (Fin 0) (Fin (- k - w_size w)) (Fin 0)).1).
  split; [|cbn [set_quota set_size w_size w_quota]; rewrite Hq2; split; [done|f_equal; lia]].
  unfold do_op, discard, op_ftruncate, fdEntry. cbn [ebind pbind ask].
  eapply wrun_vis; [by split|]. cbn [ebind pbind ok]. unfold serial. rewrite Hcounts. cbn [negb orb ebind pbind ask].
  eapply (wrun_vis _ _ _ _ tt); [reflexivity|]. cbn [pbind].
  eapply (wrun_vis _ _ _ _ (Ok (sized (w_size w)))).
  { split; [reflexivity|]. by intros st [= <-]. }
  rewrite sized_size. cbn [ebind pbind ask js_num_or0 nsub nmax0].
  replace (Z.max 0 (- k - w_size w)) with 0 by lia.
  eapply (wrun_vis _ _ _ _ (Ok tt) (set_quota w q1)). { cbn [wstep]. rewrite Hres. by split. }
  cbn [ebind pbind ask ok].
  eapply (wrun_vis _ _ _ _ (Ok tt) (set_size (set_quota w q1) 0 (w_offset w))).
  { cbn [wstep]. exists 0. split; [cbn; f_equal; lia|done]. }
  cbn [ebind pbind ask ok].
  eapply (wrun_vis _ _ _ _ tt); [reflexivity|]. cbn [ebind pbind ask ok].
  eapply (wrun_vis _ _ _ _ tt); [reflexivity|]. cbn [ebind pbind ask ok]. constructor.
Qed.
End world.

(** ** A full pool *)

Definition demo_placed : placed :=
  mkPlaced (RRoot "/data/log" "/srv/data/log" (mkRoot "/data" "/srv/data" RW true true "data" "/srv/data" TDir))
    (Some "/srv/data/log") "/data/log" None None.
Definition demo_entry (append : bool) : fd_entry := mkEntry 9 "/data/log" demo_placed append true.

(** 100 bytes in the file, 100 allowed. *)
Definition full_world : world := mkWorld 100 100 (Fin 100) (new_quota 100 10 true 100 1).

Lemma append_position_uncounted_witness :
  exists w', wrun (demo_entry true) full_world (do_op createNamespace 3 (OWrite "more" (NInt 0))) w' (Ok tt) /\
    w_size w' = 104 /\ q_bytes (w_quota w') = Fin 100.
Proof.
  apply (append_position_uncounted (demo_entry true) createNamespace 3 eq_refl 0 "more" 0 full_world 1 eq_refl);
    try done; vm_compute; discriminate.
Defined.

Lemma negative_truncate_frees_witness :
  exists w', wrun (demo_entry false) full_world (do_op createNamespace 3 (OTruncate (NInt (-1000000)))) w' (Ok tt) /\
    w_size w' = 0 /\ q_bytes (w_quota w') = Fin 0.
Proof.
  apply (negative_truncate_frees (demo_entry false) createNamespace 3 eq_refl 0 1000000 full_world 1); try done; vm_compute; discriminate.
Defined.

(** Half the file is cut off. *)
Lemma descriptor_accounted_witness :
  exists w', wruns (demo_entry false) createNamespace 3 [OTruncate (NInt 50)] full_world w' /\
    w_size w' = 50 /\ q_bytes (w_quota w') = Fin (50 + 0).
Proof.
  assert (Hr : wruns (demo_entry false) createNamespace 3 [OTruncate (NInt 50)] full_world
    (set_quota (set_size (set_quota full_world (crossings (with_usage (w_quota full_world) (Fin 100) (Fin 1))).1) 50 100)
       (settle (crossings (with_usage (w_quota full_world) (Fin 100) (Fin 1))).1 (Fin 0) (Fin 0) (Fin (-50)) (Fin 0)).1)).
  { econstructor; [|constructor]. cbn. eapply wrun_vis; [by split|]. cbn.
    eapply (wrun_vis _ _ _ _ _ tt); [reflexivity|]. eapply (wrun_vis _ _ _ _ _ (Ok (sized 100))).
    { split; [reflexivity|]. by intros st [= <-]. }
    cbn. eapply (wrun_vis _ _ _ _ _ (Ok tt)); [by split|]. cbn.
    eapply (wrun_vis _ _ _ _ _ (Ok tt)). { exists 50. by split. }
    cbn. eapply (wrun_vis _ _ _ _ _ tt); [reflexivity|]. eapply (wrun_vis _ _ _ _ _ tt); [reflexivity|]. constructor. }
  eexists. split; [exact Hr|]. split; [reflexivity|].
  assert (Hf : follows 0 full_world) by (repeat split; vm_compute; discriminate).
  refine (proj1 (proj2 (descriptor_accounted (demo_entry false) createNamespace 3 eq_refl 0 _ [OTruncate (NInt 50)] full_world _ _ Hf Hr))).
  - vm_compute. discriminate.
  - constructor; [|constructor]. right. exists 50. split; [done|vm_compute; discriminate].
Defined.
