(* ===== verification/BrokerState.v ===== *)
(** * The broker's own state (lib/fs-broker/broker.js, class FsBroker)

    What the requests to the broker's state do: the reports it makes, the
    real-path cache, the descriptor table, the count of operations in flight
    with the waiters of [idle], and [closeAll]. Each is one step of the main
    thread; operations interleave between them in any order. *)
From Stdlib Require Import ZArith Lia Ascii String.
From stdpp Require Import prelude strings gmap.
From S2P Require Import Prelude Paths Namespace FsErrors Quota Json Prog Host SpawnWalk Broker.

Set Default Proof Using "Type".
Local Open Scope Z_scope.

Definition RP_CACHE_MAX : nat := 1024.
Definition MAX_REPORTS : nat := 100.

Record broker := mkBroker {
  b_inFlight : Z;
  b_idleWaiters : list nat;
  b_cache : list (string * (string * Z));
  b_fds : list (Z * fd_entry);
  b_nextFd : Z;
  b_reported : list (string * string);
  b_closed : bool
}.

Definition new_broker : broker := mkBroker 0 [] [] [] 3 [] false.

(** What a step lets out: a report, a resolved [idle], a file closed. *)
Inductive effect := Report (rule target : string) | Idle (waiter : nat) | Close (fh : Z).

(** The steps. *)
Inductive bop :=
| Begin
| End_
| AskIdle (waiter : nat)
| CacheSet (dir real : string) (at_ : Z)
| CacheClear
| FdAdd (e : fd_entry)
| FdDelete (fd : Z)
| DoReport (rule target : string)
| CloseAll.

Definition set_flight (b : broker) (n : Z) (ws : list nat) : broker :=
  mkBroker n ws (b_cache b) (b_fds b) (b_nextFd b) (b_reported b) (b_closed b).
Definition set_cache (b : broker) (c : list (string * (string * Z))) : broker :=
  mkBroker (b_inFlight b) (b_idleWaiters b) c (b_fds b) (b_nextFd b) (b_reported b) (b_closed b).
Definition set_fds (b : broker) (fds : list (Z * fd_entry)) (next : Z) : broker :=
  mkBroker (b_inFlight b) (b_idleWaiters b) (b_cache b) fds next (b_reported b) (b_closed b).
Definition set_reported (b : broker) (r : list (string * string)) : broker :=
  mkBroker (b_inFlight b) (b_idleWaiters b) (b_cache b) (b_fds b) (b_nextFd b) r (b_closed b).

(** A report's key is its rule, a NUL and its target; a rule is one of the
    broker's own words and holds no NUL, so the pair is the key. *)
Definition do_report (b : broker) (rule target : string) : broker * list effect :=
  if includes (rule, target) (b_reported b) || (MAX_REPORTS <? length (b_reported b))%nat then (b, [])
  else
    let b' := set_reported b (b_reported b ++ [(rule, target)]) in
    (b', if (MAX_REPORTS <? length (b_reported b'))%nat then [Report "suppressed" ""] else [Report rule target]).

(** The cache's insertion, its first entry given up when it is full. *)
Definition cache_set (b : broker) (dir real : string) (at_ : Z) : broker :=
  let c := if (RP_CACHE_MAX <=? length (b_cache b))%nat then tail (b_cache b) else b_cache b in
  set_cache b (assoc_set dir (real, at_) c).

Definition fd_delete (fd : Z) (fds : list (Z * fd_entry)) : list (Z * fd_entry) :=
  List.filter (fun p => negb (p.1 =? fd)) fds.

Definition bexec (o : bop) (b : broker) : broker * list effect :=
  match o with
  | Begin => (set_flight b (b_inFlight b + 1) (b_idleWaiters b), [])
  | End_ =>
      let n := b_inFlight b - 1 in
      if n =? 0 then (set_flight b n [], map Idle (b_idleWaiters b)) else (set_flight b n (b_idleWaiters b), [])
  | AskIdle w => if b_inFlight b =? 0 then (b, [Idle w]) else (set_flight b (b_inFlight b) (b_idleWaiters b ++ [w]), [])
  | CacheSet dir real at_ => (cache_set b dir real at_, [])
  | CacheClear => (set_cache b [], [])
  | FdAdd e => (set_fds b (b_fds b ++ [(b_nextFd b, e)]) (b_nextFd b + 1), [])
  | FdDelete fd => (set_fds b (fd_delete fd (b_fds b)) (b_nextFd b), [])
  | DoReport rule target => do_report b rule target
  | CloseAll =>
      (mkBroker (b_inFlight b) (b_idleWaiters b) (b_cache b) [] (b_nextFd b) (b_reported b) true,
       map (fun p => Close (e_handle p.2)) (b_fds b))
  end.

Fixpoint brun (os : list bop) (b : broker) : broker * list effect :=
  match os with
  | [] => (b, [])
  | o :: rest => let '(b1, e1) := bexec o b in
                 let '(b2, e2) := brun rest b1 in (b2, e1 ++ e2)
  end.

(** The answers an operation's requests get from this state. *)
Definition fd_lookup (fd : Z) (b : broker) : option fd_entry :=
  option_map snd (List.find (fun p => p.1 =? fd) (b_fds b)).
Definition fd_count (b : broker) : Z := Z.of_nat (length (b_fds b)).
Definition cache_get (dir : string) (b : broker) : option (string * Z) := assoc dir (b_cache b).

Definition request_op (X : Type) (r : brE X) : option bop :=
  match r with
  | BBegin => Some Begin
  | BEnd => Some End_
  | BCacheSet dir real at_ => Some (CacheSet dir real at_)
  | BCacheClear => Some CacheClear
  | BFdAdd e => Some (FdAdd e)
  | BFdDelete fd => Some (FdDelete fd)
  | BReport rule target => Some (DoReport rule target)
  | _ => None
  end.

(** ** The invariant *)

(** Reports made, in order, the last word excepted. *)
Definition reports (es : list effect) : list (string * string) :=
  omap (fun e => match e with
                 | Report r t => if String.eqb r "suppressed" then None else Some (r, t)
                 | _ => None
                 end) es.
Definition suppressed (es : list effect) : nat :=
  length (List.filter (fun e => match e with Report r _ => String.eqb r "suppressed" | _ => false end) es).

Record broker_ok (b : broker) : Prop := {
  ok_flight : 0 <= b_inFlight b;
  ok_waiters : b_inFlight b = 0 -> b_idleWaiters b = [];
  ok_cache : (length (b_cache b) <= RP_CACHE_MAX)%nat;
  ok_fds : NoDup (map fst (b_fds b)) /\ Forall (fun p => 3 <= p.1 < b_nextFd b) (b_fds b) /\ 3 <= b_nextFd b
}.

(** Rules are the broker's own, and an operation ends after it began. *)
Definition op_allowed (o : bop) (b : broker) : Prop :=
  match o with
  | End_ => 0 < b_inFlight b
  | DoReport rule _ => rule <> "suppressed"
  | _ => True
  end.

Fixpoint allowed_run (os : list bop) (b : broker) : Prop :=
  match os with
  | [] => True
  | o :: rest => op_allowed o b /\ allowed_run rest (bexec o b).1
  end.

(** ** Lemmas *)

Lemma assoc_set_length {A} k (v : A) l : (length (assoc_set k v l) <= S (length l))%nat.
Proof. induction l as [|[k' v'] l IH]; cbn; [done|]. destruct (String.eqb k k'); cbn; lia. Qed.

Lemma cache_set_bound b dir real at_ :
  (length (b_cache b) <= RP_CACHE_MAX)%nat -> (length (b_cache (cache_set b dir real at_)) <= RP_CACHE_MAX)%nat.
Proof.
  intros H. unfold cache_set. cbn [set_cache b_cache].
  destruct (Nat.leb_spec RP_CACHE_MAX (length (b_cache b))).
  - pose proof (assoc_set_length dir (real, at_) (tail (b_cache b))).
    assert (length (tail (b_cache b)) <= length (b_cache b) - 1)%nat by (destruct (b_cache b); cbn; lia).
    assert (1 <= RP_CACHE_MAX)%nat by (unfold RP_CACHE_MAX; lia). lia.
  - pose proof (assoc_set_length dir (real, at_) (b_cache b)). lia.
Qed.

Lemma fd_delete_sub fd fds p : p ∈ fd_delete fd fds <-> p ∈ fds /\ p.1 <> fd.
Proof.
  unfold fd_delete. rewrite !list_elem_of_In, filter_In, negb_true_iff, Z.eqb_neq. done.
Qed.

Lemma fd_delete_nodup fd fds : NoDup (map fst fds) -> NoDup (map fst (fd_delete fd fds)).
Proof.
  induction fds as [|[n e] fds IH]; cbn; [done|]. intros H. apply NoDup_cons in H as [Hn H].
  destruct (negb (n =? fd)) eqn:E; cbn; [|by apply IH]. apply NoDup_cons. split; [|by apply IH].
  intros Hin. apply Hn. apply list_elem_of_fmap in Hin as (p & -> & Hp).
  apply list_elem_of_fmap. exists p. split; [done|]. by apply fd_delete_sub in Hp as [? _].
Qed.

Lemma bexec_ok o b : broker_ok b -> op_allowed o b -> broker_ok (bexec o b).1.
Proof.
  intros [H1 H2 H3 (H4 & H5 & H6)] Ho. destruct o as [| |w|dir real at_| |e|fd|rule target|]; cbn [bexec op_allowed] in *.
  - split; cbn; [lia|lia|done|done].
  - destruct (Z.eqb_spec (b_inFlight b - 1) 0); split; cbn; try done; lia.
  - destruct (Z.eqb_spec (b_inFlight b) 0); split; cbn; try done; lia.
  - split; [done|done|by apply cache_set_bound|done].
  - split; cbn; [done|done|lia|done].
  - split; cbn; [done|done|done|]. rewrite map_app. split_and!; [|apply Forall_app; split|lia].
    + apply NoDup_app. split; [done|]. split; [|apply NoDup_singleton].
      intros n Hn. cbn. rewrite list_elem_of_singleton. intros ->.
      apply list_elem_of_fmap in Hn as (p & Hp & Hin). rewrite Forall_forall in H5. specialize (H5 p Hin). lia.
    + eapply Forall_impl; [exact H5|]. cbn. lia.
    + constructor; [cbn; lia|constructor].
  - split; cbn; [done|done|done|]. split_and!; [by apply fd_delete_nodup| |done].
    rewrite Forall_forall in *. intros p Hp. apply H5. by apply fd_delete_sub in Hp as [? _].
  - unfold do_report. destruct (_ || _); [done|]. split; cbn; done.
  - split; cbn; [done|done|done|]. split_and!; [constructor|constructor|done].
Qed.

(** What has been reported: the pairs recorded, one word when there are more
    than [MAX_REPORTS]. *)
Definition reported_as (b : broker) (es : list effect) : Prop :=
  NoDup (b_reported b) /\ (length (b_reported b) <= S MAX_REPORTS)%nat /\
  reports es = take MAX_REPORTS (b_reported b) /\
  suppressed es = (if (MAX_REPORTS <? length (b_reported b))%nat then 1 else 0)%nat.

Lemma reports_app a b : reports (a ++ b) = reports a ++ reports b.
Proof. apply omap_app. Qed.
Lemma suppressed_app a b : suppressed (a ++ b) = (suppressed a + suppressed b)%nat.
Proof. unfold suppressed. by rewrite List.filter_app, length_app. Qed.

Lemma reports_quiet es : (forall e, e ∈ es -> match e with Report _ _ => False | _ => True end) -> reports es = [] /\ suppressed es = 0%nat.
Proof.
  intros H. induction es as [|e es IH]; [done|]. destruct IH as [IH1 IH2]; [intros e' He; apply H; by right|].
  specialize (H e ltac:(by left)). destruct e; [done|by split..].
Qed.

Lemma bexec_reported o b es :
  op_allowed o b -> reported_as b es -> reported_as (bexec o b).1 (es ++ (bexec o b).2).
Proof.
  intros Ho (Hn & Hl & Hr & Hs).
  assert (Hquiet : forall b' es', b_reported b' = b_reported b ->
    (forall e, e ∈ es' -> match e with Report _ _ => False | _ => True end) -> reported_as b' (es ++ es')).
  { intros b' es' Hb He. destruct (reports_quiet es' He) as [Q1 Q2]. unfold reported_as.
    rewrite Hb, reports_app, suppressed_app, Q1, Q2, app_nil_r, Nat.add_0_r. done. }
  destruct o as [| |w|dir real at_| |e|fd|rule target|]; cbn [bexec op_allowed fst snd] in *.
  all: try (apply Hquiet; [done|by intros ? ?%elem_of_nil]).
  - destruct (b_inFlight b - 1 =? 0); apply Hquiet; try done; [|by intros ? ?%elem_of_nil].
    intros e He. apply list_elem_of_fmap in He as (w & -> & _). done.
  - destruct (b_inFlight b =? 0); apply Hquiet; try done; [|by intros ? ?%elem_of_nil].
    intros e He. by apply list_elem_of_singleton in He as ->.
  - unfold do_report. destruct (includes (rule, target) (b_reported b)) eqn:Ei; cbn [orb];
      [by apply Hquiet; [|intros ? ?%elem_of_nil]|].
    destruct (Nat.ltb_spec MAX_REPORTS (length (b_reported b))) as [Hgt|Hle];
      [by apply Hquiet; [|intros ? ?%elem_of_nil]|].
    cbn [fst snd set_reported b_reported]. rewrite length_app. cbn [length]. apply includes_false in Ei.
    assert (Hnd : NoDup (b_reported b ++ [(rule, target)])).
    { apply NoDup_app. split; [done|]. split; [|apply NoDup_singleton].
      intros x Hx Hx2. apply list_elem_of_singleton in Hx2 as ->. done. }
    unfold reported_as. cbn [set_reported b_reported]. rewrite length_app. cbn [length].
    rewrite reports_app, suppressed_app, Hr, Hs.
    rewrite (take_ge (b_reported b)) by done.
    destruct (Nat.ltb_spec MAX_REPORTS (length (b_reported b) + 1)) as [H1|H1];
      destruct (Nat.ltb_spec MAX_REPORTS (length (b_reported b))); try lia.
    + split_and!; [done|lia| |done]. rewrite app_nil_r, take_app_le by lia. by rewrite take_ge by lia.
    + split_and!; [done|lia| |].
      * rewrite take_ge by (rewrite length_app; cbn; lia). f_equal. cbn.
        destruct (String.eqb_spec rule "suppressed"); [done|done].
      * cbn. destruct (String.eqb_spec rule "suppressed"); [done|done].
  - apply Hquiet; [done|]. intros e He. apply list_elem_of_fmap in He as (p & -> & _). done.
Qed.

Lemma brun_ok os b es :
  broker_ok b -> reported_as b es -> allowed_run os b ->
  broker_ok (brun os b).1 /\ reported_as (brun os b).1 (es ++ (brun os b).2).
Proof.
  revert b es. induction os as [|o os IH]; intros b es Hb Hr Ha; cbn; [by rewrite app_nil_r|].
  destruct Ha as [Ho Ha]. pose proof (bexec_ok o b Hb Ho). pose proof (bexec_reported o b es Ho Hr).
  destruct (bexec o b) as [b1 e1]. cbn [fst snd] in *. specialize (IH b1 (es ++ e1) H H0 Ha).
  destruct (brun os b1) as [b2 e2]. cbn [fst snd] in *. by rewrite <-app_assoc in IH.
Qed.

(** ** Properties *)

(** However operations interleave: a finding is reported once, at most 100
    of them and then one last word; the real-path cache never holds more than
    1024 entries; descriptor numbers start at 3, are never reused and never
    name two files; and whoever asks for idle is answered at a moment when no
    operation is in flight, at once if none is. *)
Theorem broker_state_bounded os :
  allowed_run os new_broker ->
  let '(b, es) := brun os new_broker in
  NoDup (reports es) /\ (length (reports es) <= MAX_REPORTS)%nat /\ (suppressed es <= 1)%nat /\
  (length (b_cache b) <= RP_CACHE_MAX)%nat /\
  NoDup (map fst (b_fds b)) /\ Forall (fun p => 3 <= p.1 < b_nextFd b) (b_fds b) /\
  (b_inFlight b = 0 -> b_idleWaiters b = []) /\
  forall o w, op_allowed o b -> Idle w ∈ (bexec o b).2 -> b_inFlight (bexec o b).1 = 0.
Proof.
  intros Ha.
  assert (H0 : broker_ok new_broker) by (split; cbn; [lia|done|lia|split_and!; [constructor|constructor|lia]]).
  assert (Hr0 : reported_as new_broker []) by (split_and!; [constructor|cbn; lia|done|done]).
  destruct (brun_ok os new_broker [] H0 Hr0 Ha) as [[H1 H2 H3 (H4 & H5 & H6)] (Hn & Hl & Hr & Hs)].
  cbn [app] in Hr, Hs.
  destruct (brun os new_broker) as [b es]. cbn [fst snd] in *. split_and!; try done.
  - rewrite Hr. eapply sublist_NoDup; [exact Hn|apply sublist_take].
  - rewrite Hr, length_take. lia.
  - rewrite Hs. destruct (_ <? _)%nat; lia.
  - intros o w Ho Hin. destruct o; cbn [bexec] in *; try (by apply elem_of_nil in Hin).
    + destruct (Z.eqb_spec (b_inFlight b - 1) 0); [cbn; lia|by apply elem_of_nil in Hin].
    + destruct (Z.eqb_spec (b_inFlight b) 0); [done|by apply elem_of_nil in Hin].
    + unfold do_report in *. destruct (_ || _); [by apply elem_of_nil in Hin|]. cbn [fst snd] in *.
      case_match; by apply list_elem_of_singleton in Hin.
    + apply list_elem_of_fmap in Hin as (p & ? & _). done.
Qed.

Lemma broker_state_bounded_witness :
  let os := [Begin; AskIdle 4; DoReport "escape" "/data/x"; DoReport "escape" "/data/x"; End_] in
  reports (brun os new_broker).2 = [("escape", "/data/x")] /\ NoDup (reports (brun os new_broker).2).
Proof.
  cbn zeta. split; [reflexivity|].
  assert (Ha : allowed_run [Begin; AskIdle 4; DoReport "escape" "/data/x"; DoReport "escape" "/data/x"; End_] new_broker)
    by (cbn; repeat split; done).
  exact (proj1 (broker_state_bounded _ Ha)).
Defined.
