(* ===== verification/Bridge.v ===== *)
(** * The file bridge (lib/fs-broker/server.js and client.js)

    The main thread's end: requests of one worker, their deadlines, the stuck
    ones, and one reply each. The worker's end: a synchronous call that waits
    on a shared counter, and why it cannot sleep through its reply. *)
From Stdlib Require Import ZArith Lia Ascii String.
From stdpp Require Import prelude strings gmap.
From S2P Require Import Prelude.

Set Default Proof Using "Type".
Local Open Scope Z_scope.

(** ** The main thread's end (server.js) *)

(** How a request is answered: its result (a value or the operation's own
    error), or one of the bridge's errors. *)
Inductive outcome := Finished | BridgeError (code : string).

Record reply := mkReply { r_key : nat; r_id : Z; r_sync : bool; r_out : outcome }.

(** A request at work: which message it was, its id, its port, and whether its
    deadline has passed. *)
Record job := mkJob { j_key : nat; j_id : Z; j_sync : bool; j_late : bool }.

Record server := mkServer {
  s_next : nat;
  s_jobs : list job;
  s_stuck : Z;
  s_inFlight : Z;
  s_counter : Z;
  s_closed : bool
}.

Definition new_server : server := mkServer 0 [] 0 0 0 false.

Inductive event :=
| Message (sync : bool) (id : Z)
| Deadline (key : nat)
| Done (key : nat)
| CloseBridge.

Section server.
Context (maxStuck : Z).

Definition answer (s : server) (key : nat) (id : Z) (sync : bool) (o : outcome) : server * list reply :=
  if s_closed s then (s, [])
  else (mkServer (s_next s) (s_jobs s) (s_stuck s) (s_inFlight s) (if sync then s_counter s + 1 else s_counter s) (s_closed s),
        [mkReply key id sync o]).

Definition set_jobs (s : server) (js : list job) (stuck inFlight : Z) : server :=
  mkServer (s_next s) js stuck inFlight (s_counter s) (s_closed s).

Definition set_next (s : server) : server :=
  mkServer (S (s_next s)) (s_jobs s) (s_stuck s) (s_inFlight s) (s_counter s) (s_closed s).

(** A message: refused when a synchronous call is already in flight or too many
    requests are stuck; otherwise at work. *)
Definition on_message (s : server) (sync : bool) (id : Z) : server * list reply :=
  let key := s_next s in
  let s := set_next s in
  if s_closed s then (s, [])
  else if sync && (0 <? s_inFlight s) then answer s key id sync (BridgeError "EIO")
  else if maxStuck <=? s_stuck s then answer s key id sync (BridgeError "EIO")
  else (set_jobs s (s_jobs s ++ [mkJob key id sync false]) (s_stuck s) (if sync then s_inFlight s + 1 else s_inFlight s), []).

Definition find_job (s : server) (key : nat) : option job := List.find (fun j => (j_key j =? key)%nat) (s_jobs s).
Definition others (s : server) (key : nat) : list job := List.filter (fun j => negb (j_key j =? key)%nat) (s_jobs s).
Definition make_late (key : nat) (j : job) : job :=
  if (j_key j =? key)%nat then mkJob (j_key j) (j_id j) (j_sync j) true else j.

(** The deadline of a request still waited for: answered ETIMEDOUT, stuck until
    the host operation returns. *)
Definition on_deadline (s : server) (key : nat) : server * list reply :=
  match find_job s key with
  | Some j =>
      if j_late j then (s, [])
      else answer (set_jobs s (map (make_late key) (s_jobs s)) (s_stuck s + 1) (if j_sync j then s_inFlight s - 1 else s_inFlight s))
             key (j_id j) (j_sync j) (BridgeError "ETIMEDOUT")
  | None => (s, [])
  end.

(** The host operation returned. *)
Definition on_done (s : server) (key : nat) : server * list reply :=
  match find_job s key with
  | Some j =>
      if j_late j then (set_jobs s (others s key) (s_stuck s - 1) (s_inFlight s), [])
      else answer (set_jobs s (others s key) (s_stuck s) (if j_sync j then s_inFlight s - 1 else s_inFlight s))
             key (j_id j) (j_sync j) Finished
  | None => (s, [])
  end.

Definition sstep (e : event) (s : server) : server * list reply :=
  match e with
  | Message sync id => on_message s sync id
  | Deadline key => on_deadline s key
  | Done key => on_done s key
  | CloseBridge => (mkServer (s_next s) (s_jobs s) (s_stuck s) (s_inFlight s) (s_counter s) true, [])
  end.

Fixpoint srun (es : list event) (s : server) : server * list reply :=
  match es with
  | [] => (s, [])
  | e :: rest => let '(s1, r1) := sstep e s in
                 let '(s2, r2) := srun rest s1 in (s2, r1 ++ r2)
  end.

(** *** The invariant *)

Definition count (f : job -> bool) (js : list job) : Z := Z.of_nat (length (List.filter f js)).
Definition waiting (j : job) : bool := negb (j_late j).

(** The messages of a history, in the order they arrived. *)
Definition message_of (e : event) : list (bool * Z) := match e with Message sync id => [(sync, id)] | _ => [] end.
Definition messages (es : list event) : list (bool * Z) := mjoin (map message_of es).

Definition job_from (ms : list (bool * Z)) (j : job) : Prop := ms !! j_key j = Some (j_sync j, j_id j).
Definition reply_from (ms : list (bool * Z)) (r : reply) : Prop := ms !! r_key r = Some (r_sync r, r_id r).

(** The bridge after the messages [ms] and the replies [rs]. *)
Record server_ok (ms : list (bool * Z)) (s : server) (rs : list reply) : Prop := {
  ok_next : s_next s = length ms;
  ok_keys : NoDup (map j_key (s_jobs s));
  ok_jobs : Forall (job_from ms) (s_jobs s);
  ok_stuck : s_stuck s = count j_late (s_jobs s);
  ok_flight : s_inFlight s = count (fun j => j_sync j && waiting j) (s_jobs s) /\ s_inFlight s <= 1;
  ok_counter : s_counter s = Z.of_nat (length (List.filter r_sync rs));
  ok_replied : NoDup (map r_key rs);
  ok_replies : Forall (reply_from ms) rs;
  ok_waiting : forall j, j ∈ s_jobs s -> waiting j = true -> j_key j ∉ map r_key rs;
  ok_every : s_closed s = false -> forall k, (k < length ms)%nat ->
               k ∈ map r_key rs \/ exists j, j ∈ s_jobs s /\ j_key j = k /\ waiting j = true
}.

Lemma count_app f a b : count f (a ++ b) = count f a + count f b.
Proof. unfold count. rewrite List.filter_app, length_app. lia. Qed.

Lemma count_cons f j js : count f (j :: js) = (if f j then 1 else 0) + count f js.
Proof. unfold count. cbn. destruct (f j); cbn [length]; lia. Qed.

Lemma find_job_in s key j : find_job s key = Some j -> j ∈ s_jobs s /\ j_key j = key.
Proof.
  unfold find_job. intros H. apply List.find_some in H as [Hin Hk]. apply Nat.eqb_eq in Hk.
  split; [by apply list_elem_of_In|done].
Qed.

Lemma others_elem s key j : j ∈ others s key <-> j ∈ s_jobs s /\ j_key j <> key.
Proof. unfold others. rewrite !list_elem_of_In, filter_In, negb_true_iff, Nat.eqb_neq. done. Qed.

(** With distinct keys, taking a job out changes each count by that job. *)
Lemma count_others f js key j :
  NoDup (map j_key js) -> j ∈ js -> j_key j = key ->
  count f (List.filter (fun x => negb (j_key x =? key)%nat) js) = count f js - (if f j then 1 else 0).
Proof.
  intros Hn Hin <-. induction js as [|x js IH]; [by apply elem_of_nil in Hin|].
  cbn in Hn. apply NoDup_cons in Hn as [Hx Hn]. cbn [List.filter].
  apply elem_of_cons in Hin as [<-|Hin].
  - rewrite Nat.eqb_refl. cbn [negb]. rewrite count_cons.
    assert (E : List.filter (fun x => negb (j_key x =? j_key j)%nat) js = js).
    { clear -Hx. induction js as [|y js IH]; [done|]. cbn. destruct (Nat.eqb_spec (j_key y) (j_key j)) as [E|E].
      - exfalso. apply Hx. cbn. rewrite E. by left.
      - cbn. f_equal. apply IH. intros H. apply Hx. cbn. by right. }
    rewrite E. lia.
  - destruct (Nat.eqb_spec (j_key x) (j_key j)) as [E|E].
    + exfalso. apply Hx. rewrite E. apply list_elem_of_fmap. by exists j.
    + cbn [negb]. rewrite !count_cons, IH by done. lia.
Qed.

Lemma count_late f js key j :
  NoDup (map j_key js) -> j ∈ js -> j_key j = key ->
  count f (map (make_late key) js) = count f js - (if f j then 1 else 0) + (if f (make_late key j) then 1 else 0).
Proof.
  intros Hn Hin <-. induction js as [|x js IH]; [by apply elem_of_nil in Hin|].
  cbn in Hn. apply NoDup_cons in Hn as [Hx Hn]. cbn [map]. rewrite !count_cons.
  apply elem_of_cons in Hin as [<-|Hin].
  - assert (E : map (make_late (j_key j)) js = js).
    { clear -Hx. induction js as [|y js IH]; [done|]. cbn. f_equal.
      - unfold make_late. destruct (Nat.eqb_spec (j_key y) (j_key j)) as [E|E]; [|done]. exfalso. apply Hx. cbn. rewrite E. by left.
      - apply IH. intros H. apply Hx. cbn. by right. }
    rewrite E. lia.
  - rewrite IH by done. replace (make_late (j_key j) x) with x; [lia|].
    unfold make_late. destruct (Nat.eqb_spec (j_key x) (j_key j)) as [E|E]; [|done].
    exfalso. apply Hx. rewrite E. apply list_elem_of_fmap. by exists j.
Qed.

Lemma make_late_keys key js : map j_key (map (make_late key) js) = map j_key js.
Proof.
  rewrite map_map. apply map_ext. intros j. unfold make_late. by destruct (Nat.eqb_spec (j_key j) key).
Qed.

Lemma late_elem key js j' : j' ∈ map (make_late key) js -> waiting j' = true -> j' ∈ js /\ j_key j' <> key.
Proof.
  intros Hin Hw. apply list_elem_of_fmap in Hin as (j & -> & Hj). unfold make_late in *.
  destruct (Nat.eqb_spec (j_key j) key); [done|]. by split.
Qed.

(** Answering a message no reply has, with the rest of the bridge in order:
    [s] is the bridge with that message's job gone or late. *)
Record quiet (ms : list (bool * Z)) (s : server) (rs : list reply) (key : nat) (id : Z) (sync : bool) : Prop := {
  q_next : s_next s = length ms;
  q_keys : NoDup (map j_key (s_jobs s));
  q_jobs : Forall (job_from ms) (s_jobs s);
  q_stuck : s_stuck s = count j_late (s_jobs s);
  q_flight : s_inFlight s = count (fun j => j_sync j && waiting j) (s_jobs s) /\ s_inFlight s <= 1;
  q_counter : s_counter s = Z.of_nat (length (List.filter r_sync rs));
  q_replied : NoDup (map r_key rs);
  q_replies : Forall (reply_from ms) rs;
  q_key : key ∉ map r_key rs /\ ms !! key = Some (sync, id);
  q_waiting : forall j, j ∈ s_jobs s -> waiting j = true -> j_key j <> key /\ j_key j ∉ map r_key rs;
  q_every : s_closed s = false -> forall k, (k < length ms)%nat -> k <> key ->
              k ∈ map r_key rs \/ exists j, j ∈ s_jobs s /\ j_key j = k /\ waiting j = true
}.

Lemma answer_ok ms s rs key id sync o :
  quiet ms s rs key id sync -> server_ok ms (answer s key id sync o).1 (rs ++ (answer s key id sync o).2).
Proof.
  intros [Hn Hk Hj Hs Hf Hc Hr Hrs [Hkey Hm] Hw He]. unfold answer. destruct (s_closed s) eqn:E; cbn [fst snd].
  - rewrite app_nil_r. split; try done.
    + intros j H1 H2. by apply Hw.
    + by rewrite E.
  - split; cbn; try done.
    + rewrite List.filter_app, length_app. cbn. destruct sync; cbn; lia.
    + rewrite map_app. apply NoDup_app. split; [done|]. split; [|apply NoDup_singleton].
      intros x Hx ->%list_elem_of_singleton. done.
    + apply Forall_app. split; [done|]. by repeat constructor.
    + intros j H1 H2. rewrite map_app; cbn [map r_key]; rewrite elem_of_app, list_elem_of_singleton. destruct (Hw j H1 H2) as [Ha Hb].
      intros [H|H]; [by apply Hb|by apply Ha].
    + intros _ k Hlt. rewrite map_app; cbn [map r_key]; rewrite elem_of_app, list_elem_of_singleton.
      destruct (decide (k = key)) as [->|Hne]; [by left; right|]. destruct (He eq_refl k Hlt Hne); [left; by left|by right].
Qed.

Lemma from_snoc ms m j : job_from ms j -> job_from (ms ++ [m]) j.
Proof. unfold job_from. intros H. by apply lookup_app_l_Some. Qed.

Lemma jobs_snoc ms m js : Forall (job_from ms) js -> Forall (job_from (ms ++ [m])) js.
Proof. intros H. eapply Forall_impl; [exact H|]. intros j. apply from_snoc. Qed.

Lemma replies_snoc ms m rs : Forall (reply_from ms) rs -> Forall (reply_from (ms ++ [m])) rs.
Proof. intros H. eapply Forall_impl; [exact H|]. intros r Hr. by apply lookup_app_l_Some. Qed.

Lemma new_key ms rs : Forall (reply_from ms) rs -> length ms ∉ map r_key rs.
Proof.
  intros H Hin. apply list_elem_of_fmap in Hin as (r & Hk & Hr). rewrite Forall_forall in H.
  specialize (H r Hr). unfold reply_from in H. apply lookup_lt_Some in H. lia.
Qed.

Lemma new_job_key ms js : Forall (job_from ms) js -> length ms ∉ map j_key js.
Proof.
  intros H Hin. apply list_elem_of_fmap in Hin as (r & Hk & Hr). rewrite Forall_forall in H.
  specialize (H r Hr). unfold job_from in H. apply lookup_lt_Some in H. lia.
Qed.

Lemma message_quiet ms s rs sync id :
  server_ok ms s rs -> quiet (ms ++ [(sync, id)]) (set_next s) rs (length ms) id sync.
Proof.
  intros [Hn Hk Hj Hs Hf Hc Hr Hrs Hw He]. split; cbn; try done.
  - rewrite length_app. cbn. lia.
  - by apply jobs_snoc.
  - by apply replies_snoc.
  - split; [by apply new_key|]. rewrite lookup_app_r, Nat.sub_diag by lia. done.
  - intros j H1 H2. split; [|by apply Hw]. intros E. apply (new_job_key ms (s_jobs s)); [done|].
    rewrite <- E. apply list_elem_of_fmap. by exists j.
  - intros Hc' k. rewrite length_app. cbn. intros Hlt Hne. apply He; [done|lia].
Qed.

Lemma closed_ok ms s rs sync id :
  server_ok ms s rs -> s_closed s = true -> server_ok (ms ++ [(sync, id)]) (set_next s) rs.
Proof.
  intros H Hc. apply message_quiet with (sync := sync) (id := id) in H.
  apply (answer_ok _ _ _ _ _ _ Finished) in H. unfold answer in H. cbn [set_next s_closed] in H. rewrite Hc in H.
  cbn in H. by rewrite app_nil_r in H.
Qed.

Lemma taken_ok ms s rs sync id :
  server_ok ms s rs -> s_closed s = false -> (sync = true -> s_inFlight s <= 0) ->
  server_ok (ms ++ [(sync, id)])
    (set_jobs (set_next s) (s_jobs s ++ [mkJob (s_next s) id sync false]) (s_stuck s) (if sync then s_inFlight s + 1 else s_inFlight s)) rs.
Proof.
  intros H Hc Hs. pose proof (message_quiet _ _ _ sync id H) as Hq. destruct H as [Hn Hk Hj Hst Hf Hct Hr Hrs Hw He].
  destruct Hq as [Qn _ Qj _ _ _ _ Qrs [Qk Qm] Qw Qe]. cbn in *. split; cbn; try done.
  - rewrite map_app. apply NoDup_app. split; [done|]. split; [|apply NoDup_singleton].
    intros x Hx ->%list_elem_of_singleton. rewrite Hn in Hx. by apply (new_job_key ms (s_jobs s)).
  - apply Forall_app. split; [done|]. constructor; [|done]. unfold job_from. cbn. by rewrite Hn.
  - rewrite count_app, count_cons. cbn. unfold count at 2. cbn. lia.
  - rewrite count_app, count_cons. unfold count at 2. cbn. destruct sync; cbn in *; [|lia]. specialize (Hs eq_refl). lia.
  - intros j [Hin|Hin]%elem_of_app Hwj; [by apply Qw|]. apply list_elem_of_singleton in Hin as ->. cbn. by rewrite Hn.
  - intros _ k Hlt. destruct (decide (k = length ms)) as [->|Hne].
    + right. exists (mkJob (s_next s) id sync false). cbn. split_and!; [|done|done].
      apply elem_of_app. right. by apply list_elem_of_singleton.
    + destruct (Qe Hc k Hlt Hne) as [|(j & ? & ? & ?)]; [by left|]. right. exists j.
      split_and!; [|done|done]. apply elem_of_app. by left.
Qed.

Lemma on_message_ok ms s rs sync id :
  server_ok ms s rs ->
  server_ok (ms ++ [(sync, id)]) (on_message s sync id).1 (rs ++ (on_message s sync id).2).
Proof.
  intros H. pose proof (ok_next _ _ _ H) as Hn. unfold on_message. cbn [set_next s_closed s_inFlight s_stuck s_jobs].
  destruct (s_closed s) eqn:Hc; cbn [fst snd].
  - rewrite app_nil_r. by apply closed_ok.
  - destruct (sync && (0 <? s_inFlight s)) eqn:E1;
      [apply answer_ok; rewrite Hn; by apply message_quiet|].
    destruct (maxStuck <=? s_stuck s); [apply answer_ok; rewrite Hn; by apply message_quiet|].
    cbn [fst snd]. rewrite app_nil_r. apply taken_ok; [done..|]. intros ->. cbn in E1. lia.
Qed.

Lemma NoDup_others s key : NoDup (map j_key (s_jobs s)) -> NoDup (map j_key (others s key)).
Proof.
  unfold others. induction (s_jobs s) as [|x js IH]; [done|]. cbn. intros [Hx Hn]%NoDup_cons.
  destruct (negb (j_key x =? key)%nat); cbn; [|by apply IH]. apply NoDup_cons. split; [|by apply IH].
  intros Hin. apply Hx. apply list_elem_of_fmap in Hin as (y & -> & Hy). apply list_elem_of_In, filter_In in Hy as [Hy _].
  apply list_elem_of_fmap. exists y. split; [done|]. by apply list_elem_of_In.
Qed.

Lemma others_from ms s key : Forall (job_from ms) (s_jobs s) -> Forall (job_from ms) (others s key).
Proof. rewrite !Forall_forall. intros H j Hj. apply others_elem in Hj as [Hj _]. by apply H. Qed.

Lemma late_from ms key js : Forall (job_from ms) js -> Forall (job_from ms) (map (make_late key) js).
Proof.
  rewrite !Forall_forall. intros H j Hj. apply list_elem_of_fmap in Hj as (j' & -> & Hj).
  specialize (H j' Hj). unfold make_late. by destruct (j_key j' =? key)%nat.
Qed.

Lemma on_deadline_ok ms s rs key :
  server_ok ms s rs -> server_ok ms (on_deadline s key).1 (rs ++ (on_deadline s key).2).
Proof.
  intros H. unfold on_deadline. destruct (find_job s key) as [j|] eqn:E; [|cbn; by rewrite app_nil_r].
  apply find_job_in in E as [Hin Hkey]. destruct (j_late j) eqn:Hl; [cbn; by rewrite app_nil_r|].
  destruct H as [Hn Hk Hj Hst Hf Hct Hr Hrs Hw He]. apply answer_ok.
  assert (Hm : job_from ms j) by (rewrite Forall_forall in Hj; by apply Hj).
  assert (Hnot : key ∉ map r_key rs) by (rewrite <- Hkey; apply Hw; [done|]; unfold waiting; by rewrite Hl).
  split; cbn; try done.
  - by rewrite make_late_keys.
  - by apply late_from.
  - rewrite (count_late _ _ key j) by done. rewrite Hl. unfold make_late. rewrite Hkey, Nat.eqb_refl. cbn. lia.
  - rewrite (count_late _ _ key j) by done. unfold make_late, waiting. rewrite Hkey, Nat.eqb_refl, Hl. cbn.
    destruct (j_sync j); cbn; unfold waiting in Hf; lia.
  - split; [done|]. unfold job_from in Hm. by rewrite Hkey in Hm.
  - intros j' Hj' Hwj. apply late_elem in Hj' as [Hj' Hne]; [|done]. split; [done|]. by apply Hw.
  - intros Hc k Hlt Hne. destruct (He Hc k Hlt) as [|(j' & Hj' & Hk' & Hw')]; [by left|]. right. exists j'.
    split_and!; [|done|done]. apply list_elem_of_fmap. exists j'. split; [|done]. unfold make_late.
    destruct (Nat.eqb_spec (j_key j') key); [lia|done].
Qed.

Lemma on_done_ok ms s rs key :
  server_ok ms s rs -> server_ok ms (on_done s key).1 (rs ++ (on_done s key).2).
Proof.
  intros H. unfold on_done. destruct (find_job s key) as [j|] eqn:E; [|cbn; by rewrite app_nil_r].
  apply find_job_in in E as [Hin Hkey]. destruct H as [Hn Hk Hj Hst Hf Hct Hr Hrs Hw He].
  assert (Hm : job_from ms j) by (rewrite Forall_forall in Hj; by apply Hj).
  assert (Hev : s_closed s = false -> forall k, (k < length ms)%nat -> (k = key -> j_late j = true) ->
            k ∈ map r_key rs \/ exists j', j' ∈ others s key /\ j_key j' = k /\ waiting j' = true).
  { intros Hc k Hlt Hkl. destruct (He Hc k Hlt) as [|(j' & Hj' & Hk' & Hw')]; [by left|]. right. exists j'.
    split_and!; [|done|done]. apply others_elem. split; [done|]. intros E. assert (j' = j) as ->.
    { clear -Hk Hj' Hin E Hkey. apply list_elem_of_lookup in Hj' as [a Ha], Hin as [b Hb].
      assert (a = b) as ->. { eapply (NoDup_lookup _ _ _ key Hk); rewrite list_lookup_fmap; [rewrite Ha|rewrite Hb]; cbn; congruence. }
      congruence. }
    unfold waiting in Hw'. rewrite Hkl in Hw' by congruence. done. }
  destruct (j_late j) eqn:Hl.
  - cbn [fst snd]. rewrite app_nil_r. split; cbn; try done.
    + by apply NoDup_others.
    + by apply others_from.
    + unfold others. rewrite (count_others _ _ key j) by done. rewrite Hl. lia.
    + unfold others. rewrite (count_others _ _ key j) by done. unfold waiting at 2. rewrite Hl.
      rewrite andb_false_r. lia.
    + intros j' [Hj' _]%others_elem. by apply Hw.
    + intros Hc k Hlt. by apply Hev.
  - apply answer_ok. assert (Hnot : key ∉ map r_key rs) by (rewrite <- Hkey; apply Hw; [done|]; unfold waiting; by rewrite Hl).
    split; cbn; try done.
    + by apply NoDup_others.
    + by apply others_from.
    + unfold others. rewrite (count_others _ _ key j) by done. rewrite Hl. lia.
    + unfold others. rewrite (count_others _ _ key j) by done. unfold waiting at 2. rewrite Hl.
      destruct (j_sync j); cbn; lia.
    + split; [done|]. unfold job_from in Hm. by rewrite Hkey in Hm.
    + intros j' [Hj' Hne]%others_elem Hwj. split; [done|]. by apply Hw.
    + intros Hc k Hlt Hne. by apply Hev.
Qed.

Lemma sstep_ok ms s rs e :
  server_ok ms s rs -> server_ok (ms ++ message_of e) (sstep e s).1 (rs ++ (sstep e s).2).
Proof.
  intros H. destruct e; cbn [sstep message_of]; rewrite ?app_nil_r.
  - by apply on_message_ok.
  - by apply on_deadline_ok.
  - by apply on_done_ok.
  - cbn. rewrite ?app_nil_r. destruct H. by split.
Qed.

Lemma srun_ok es : forall ms s rs,
  server_ok ms s rs -> server_ok (ms ++ messages es) (srun es s).1 (rs ++ (srun es s).2).
Proof.
  induction es as [|e es IH]; intros ms s rs H; cbn.
  - by rewrite !app_nil_r.
  - pose proof (sstep_ok _ _ _ e H) as H1. destruct (sstep e s) as [s1 r1]. cbn in H1.
    specialize (IH _ _ _ H1). destruct (srun es s1) as [s2 r2]. cbn in *.
    unfold messages in IH. by rewrite <- !app_assoc in IH.
Qed.

Lemma new_ok : server_ok [] new_server [].
Proof. split; cbn; try done; try (by constructor); try (intros; lia). intros j Hj. by apply elem_of_nil in Hj. Qed.
End server.

(** ** The worker's end: a synchronous call (client.js) *)

(** The two threads share a port and a counter. The main thread posts a reply,
    adds one to the counter and notifies; the worker loads the counter, drains
    the port, and waits for the counter to leave the value it loaded. Each of
    these is a step, and the threads' steps interleave in any order. *)
Section client.
Context {A : Type}.

Record msg := mkMsg { m_id : Z; m_body : A }.

(** Where the main thread is in [reply], and where the worker is in [sync]. *)
Inductive main_at := Idle | Posted | Added.
Inductive phase :=
| Loading
| Draining (seen : Z)
| Checking (seen : Z)
| Entering (seen : Z)
| Sleeping
| Returned (m : msg)
| GaveUp.

(** [w_bumps] counts the additions; the counter is an Int32 cell. *)
Record world := mkWorld {
  w_bumps : Z;
  w_queue : list msg;
  w_main : main_at;
  w_expired : bool;
  w_phase : phase
}.

Definition int32 (n : Z) : Z := (n + 2 ^ 31) mod 2 ^ 32 - 2 ^ 31.
Definition w_counter (w : world) : Z := int32 (w_bumps w).

Definition in_phase (w : world) (p : phase) : world :=
  mkWorld (w_bumps w) (w_queue w) (w_main w) (w_expired w) p.

(** One step of the worker's loop for the call [id]. [Atomics.wait] compares
    and sleeps as one step, and a sleep ends by itself only at the deadline. *)
Definition worker_step (id : Z) (w : world) : world :=
  match w_phase w with
  | Loading => in_phase w (Draining (w_counter w))
  | Draining seen =>
      match w_queue w with
      | [] => in_phase w (Checking seen)
      | m :: rest =>
          mkWorld (w_bumps w) rest (w_main w) (w_expired w) (if m_id m =? id then Returned m else Draining seen)
      end
  | Checking seen => in_phase w (if w_expired w then GaveUp else Entering seen)
  | Entering seen => in_phase w (if w_counter w =? seen then Sleeping else Loading)
  | Sleeping => if w_expired w then in_phase w Loading else w
  | Returned _ | GaveUp => w
  end.

Inductive act := Work | Post (m : msg) | Add | Notify | Expire.

(** A step of either thread or of the clock, where it is possible. *)
Definition cstep (id : Z) (a : act) (w : world) : option world :=
  match a with
  | Work => Some (worker_step id w)
  | Post m => match w_main w with
              | Idle => Some (mkWorld (w_bumps w) (w_queue w ++ [m]) Posted (w_expired w) (w_phase w))
              | _ => None end
  | Add => match w_main w with
           | Posted => Some (mkWorld (w_bumps w + 1) (w_queue w) Added (w_expired w) (w_phase w))
           | _ => None end
  | Notify => match w_main w with
              | Added => Some (mkWorld (w_bumps w) (w_queue w) Idle (w_expired w)
                                 (match w_phase w with Sleeping => Loading | p => p end))
              | _ => None end
  | Expire => Some (mkWorld (w_bumps w) (w_queue w) (w_main w) true (w_phase w))
  end.

Fixpoint crun (id : Z) (acts : list act) (w : world) : option world :=
  match acts with
  | [] => Some w
  | a :: rest => match cstep id a w with Some w' => crun id rest w' | None => None end
  end.

(** The call begins: replies of earlier calls may still be in the port, and
    the main thread may be anywhere. *)
Definition call_start (bumps : Z) (q : list msg) (at_ : main_at) : world := mkWorld bumps q at_ false Loading.

Definition posted (a : act) : list msg := match a with Post m => [m] | _ => [] end.

(** *** No reply is slept through *)

Definition client_inv (b0 : Z) (w : world) : Prop :=
  b0 <= w_bumps w /\
  match w_phase w with
  | Draining seen => exists b, seen = int32 b /\ b0 <= b <= w_bumps w
  | Checking seen | Entering seen =>
      exists b, seen = int32 b /\ b0 <= b <= w_bumps w /\
        (w_queue w <> [] -> w_main w = Posted \/ b < w_bumps w)
  | Sleeping => w_queue w <> [] -> w_main w <> Idle
  | _ => True
  end.

Lemma int32_inj a b : a <= b < a + 2 ^ 32 -> int32 a = int32 b -> a = b.
Proof.
  unfold int32. intros H E. assert (E' : (a + 2 ^ 31) mod 2 ^ 32 = (b + 2 ^ 31) mod 2 ^ 32) by lia.
  pose proof (Z.div_mod (a + 2 ^ 31) (2 ^ 32) ltac:(lia)). pose proof (Z.div_mod (b + 2 ^ 31) (2 ^ 32) ltac:(lia)).
  assert ((a + 2 ^ 31) / 2 ^ 32 = (b + 2 ^ 31) / 2 ^ 32) by nia. lia.
Qed.

Lemma worker_inv id b0 w :
  client_inv b0 w -> w_bumps w < b0 + 2 ^ 32 -> client_inv b0 (worker_step id w).
Proof.
  intros [Hb H] Hlt. unfold worker_step. destruct (w_phase w) eqn:E; try (by (split; [done|rewrite E])).
  - split; [done|]. cbn. exists (w_bumps w). unfold w_counter. split; [done|lia].
  - destruct (w_queue w) as [|m q] eqn:Eq; split; try done; cbn.
    + destruct H as (b & ? & ?). exists b. split_and!; [done|lia|lia|]. rewrite Eq. done.
    + destruct (m_id m =? id); done.
  - split; [done|]. cbn. by destruct (w_expired w).
  - split; [done|]. destruct H as (b & -> & Hbb & Hq). cbn. destruct (Z.eqb_spec (w_counter w) (int32 b)) as [Ec|Ec]; [|done].
    unfold w_counter in Ec. symmetry in Ec. apply int32_inj in Ec; [|lia]. cbn. intros Hne.
    destruct (Hq Hne) as [->|]; [done|lia].
  - destruct (w_expired w); split; try done. by rewrite E.
Qed.

Lemma worker_bumps id w : w_bumps (worker_step id w) = w_bumps w.
Proof.
  unfold worker_step. destruct (w_phase w); try done; [by destruct (w_queue w)|by destruct (w_expired w)].
Qed.

Lemma cstep_bumps id a w w' : cstep id a w = Some w' -> w_bumps w <= w_bumps w'.
Proof.
  destruct a; cbn; try (destruct (w_main w)); intros [= <-]; cbn; rewrite ?worker_bumps; lia.
Qed.

Lemma crun_bumps id acts : forall w w', crun id acts w = Some w' -> w_bumps w <= w_bumps w'.
Proof.
  induction acts as [|a acts IH]; intros w w'; cbn; [intros [= ->]; lia|].
  destruct (cstep id a w) as [w1|] eqn:E; [|done]. intros H. apply cstep_bumps in E. apply IH in H. lia.
Qed.

Lemma cstep_inv id b0 a w w' :
  client_inv b0 w -> cstep id a w = Some w' -> w_bumps w' < b0 + 2 ^ 32 -> client_inv b0 w'.
Proof.
  intros H E Hlt. destruct a; cbn in E.
  - injection E as <-. apply worker_inv; [done|]. by rewrite worker_bumps in Hlt.
  - destruct (w_main w) eqn:Em; [|done..]. injection E as <-. destruct H as [Hb H]. split; [done|].
    cbn. destruct (w_phase w); try done.
    + destruct H as (b & ? & ? & ?). exists b. split_and!; [done|lia|lia|]. by left.
    + destruct H as (b & ? & ? & ?). exists b. split_and!; [done|lia|lia|]. by left.
  - destruct (w_main w) eqn:Em; [done| |done]. injection E as <-. destruct H as [Hb H]. split; [cbn; lia|].
    cbn. destruct (w_phase w); try done.
    + destruct H as (b & ? & ?). exists b. split; [done|lia].
    + destruct H as (b & ? & ? & ?). exists b. split_and!; [done|lia|lia|]. right. lia.
    + destruct H as (b & ? & ? & ?). exists b. split_and!; [done|lia|lia|]. right. lia.
  - destruct (w_main w) eqn:Em; [done..|]. injection E as <-. destruct H as [Hb H]. split; [done|].
    cbn. destruct (w_phase w); try done.
    + destruct H as (b & ? & ? & Hq). exists b. split_and!; [done|lia|lia|]. intros Hne. right. destruct (Hq Hne); [congruence|lia].
    + destruct H as (b & ? & ? & Hq). exists b. split_and!; [done|lia|lia|]. intros Hne. right. destruct (Hq Hne); [congruence|lia].
  - injection E as <-. destruct H as [Hb H]. by split.
Qed.

Lemma crun_inv id b0 acts : forall w w',
  client_inv b0 w -> crun id acts w = Some w' -> w_bumps w' < b0 + 2 ^ 32 -> client_inv b0 w'.
Proof.
  induction acts as [|a acts IH]; intros w w' H; cbn; [by intros [= ->]|].
  destruct (cstep id a w) as [w1|] eqn:E; [|done]. intros Hr Hlt. eapply IH; [|exact Hr|done].
  eapply cstep_inv; [exact H|exact E|]. apply crun_bumps in Hr. lia.
Qed.

(** Left alone, a draining worker takes the first reply of its own call. *)
Lemma drains_to id m : forall q w seen,
  w_phase w = Draining seen -> w_queue w = q -> List.find (fun x => m_id x =? id) q = Some m ->
  exists n, (n <= length q)%nat /\ w_phase (Nat.iter n (worker_step id) w) = Returned m.
Proof.
  induction q as [|x q IH]; intros w seen Hp Hq Hf; [done|]. cbn in Hf.
  assert (E : worker_step id w = mkWorld (w_bumps w) q (w_main w) (w_expired w) (if m_id x =? id then Returned x else Draining seen)).
  { unfold worker_step. by rewrite Hp, Hq. }
  destruct (m_id x =? id) eqn:Ex.
  - injection Hf as ->. exists 1%nat. cbn. rewrite E. split; [lia|done].
  - destruct (IH (worker_step id w) seen) as (n & Hn & Hr); [by rewrite E..|done|].
    exists (S n). cbn [length]. split; [lia|]. by rewrite Nat.iter_succ_r.
Qed.

Lemma step_to id m w k :
  (exists n, (n <= k)%nat /\ w_phase (Nat.iter n (worker_step id) (worker_step id w)) = Returned m) ->
  exists n, (n <= S k)%nat /\ w_phase (Nat.iter n (worker_step id) w) = Returned m.
Proof. intros (n & Hn & H). exists (S n). split; [lia|]. by rewrite Nat.iter_succ_r. Qed.

Definition in_call (w : world) : Prop := match w_phase w with Returned _ | GaveUp => False | _ => True end.

Lemma loads_to id m w :
  w_phase w = Loading -> List.find (fun x => m_id x =? id) (w_queue w) = Some m ->
  exists n, (n <= S (length (w_queue w)))%nat /\ w_phase (Nat.iter n (worker_step id) w) = Returned m.
Proof.
  intros Hp Hf. apply step_to. unfold worker_step at 2. rewrite Hp.
  by apply (drains_to id m (w_queue w) (in_phase w (Draining (w_counter w))) (w_counter w)).
Qed.

Lemma enters_to id m b0 w seen :
  client_inv b0 w -> w_bumps w < b0 + 2 ^ 32 -> w_main w = Idle -> w_phase w = Entering seen ->
  List.find (fun x => m_id x =? id) (w_queue w) = Some m ->
  exists n, (n <= S (S (length (w_queue w))))%nat /\ w_phase (Nat.iter n (worker_step id) w) = Returned m.
Proof.
  intros [Hb H] Hlt Hm Hp Hf. rewrite Hp in H. destruct H as (b & -> & Hbb & Hq).
  assert (Hne : w_queue w <> []) by (by destruct (w_queue w)).
  destruct (Hq Hne) as [|Hlb]; [congruence|]. apply step_to. unfold worker_step at 2. rewrite Hp.
  destruct (Z.eqb_spec (w_counter w) (int32 b)) as [Ec|Ec].
  - unfold w_counter in Ec. symmetry in Ec. apply int32_inj in Ec; lia.
  - by apply (loads_to id m (in_phase w Loading)).
Qed.

Lemma checks_to id m b0 w :
  client_inv b0 w -> w_bumps w < b0 + 2 ^ 32 -> w_main w = Idle -> w_expired w = false -> in_call w ->
  List.find (fun x => m_id x =? id) (w_queue w) = Some m ->
  exists n, (n <= 3 + length (w_queue w))%nat /\ w_phase (Nat.iter n (worker_step id) w) = Returned m.
Proof.
  intros H Hlt Hm He Hc Hf. assert (Hne : w_queue w <> []) by (by destruct (w_queue w)).
  unfold in_call in Hc. destruct (w_phase w) eqn:Hp; try done.
  - destruct (loads_to id m w) as (n & ? & ?); [done..|]. exists n. split; [lia|done].
  - destruct (drains_to id m (w_queue w) w seen) as (n & ? & ?); [done..|]. exists n. split; [lia|done].
  - apply step_to. assert (E : worker_step id w = in_phase w (Entering seen)) by (unfold worker_step; by rewrite Hp, He).
    rewrite E. apply (enters_to id m b0 (in_phase w (Entering seen)) seen); [|done..].
    destruct H as [Hb H]. split; [done|]. by rewrite Hp in H.
  - destruct (enters_to id m b0 w seen) as (n & ? & ?); [done..|]. exists n. split; [lia|done].
  - destruct H as [_ H]. rewrite Hp in H. by destruct (H Hne).
Qed.

(** Where the messages of a call come from. *)
Definition call_ok (id : Z) (src : list msg) (w : world) : Prop :=
  (forall m, m ∈ w_queue w -> m ∈ src) /\
  match w_phase w with Returned m => m ∈ src /\ m_id m = id | GaveUp => w_expired w = true | _ => True end.

Lemma cstep_ok id src a w w' :
  call_ok id src w -> cstep id a w = Some w' -> call_ok id (src ++ posted a) w'.
Proof.
  intros [Hq Hp] E. destruct a; cbn in E; [|destruct (w_main w); try done..|]; injection E as <-; cbn [posted]; rewrite ?app_nil_r.
  - unfold worker_step. destruct (w_phase w) eqn:Ep; try (by (split; [done|rewrite Ep])); try (by split).
    + destruct (w_queue w) as [|m q] eqn:Eq; [split; cbn; [by rewrite Eq|done]|]. split; cbn.
      * intros x Hx. apply Hq. by right.
      * destruct (Z.eqb_spec (m_id m) id); [|done]. split; [|done]. apply Hq. by left.
    + split; [done|]. cbn. by destruct (w_expired w).
    + split; [done|]. cbn. by destruct (w_counter w =? seen).
    + destruct (w_expired w); split; try done. by rewrite Ep.
  - split; cbn.
    + intros x. rewrite !elem_of_app. intros [H|H]; [left; by apply Hq|by right].
    + destruct (w_phase w); try done. destruct Hp. split; [|done]. apply elem_of_app. by left.
  - by split.
  - split; [done|]. cbn. by destruct (w_phase w).
  - split; [done|]. cbn. by destruct (w_phase w).
Qed.

Lemma crun_ok id acts : forall src w w',
  call_ok id src w -> crun id acts w = Some w' -> call_ok id (src ++ mjoin (map posted acts)) w'.
Proof.
  induction acts as [|a acts IH]; intros src w w' H; cbn; [intros [= ->]; by rewrite app_nil_r|].
  destruct (cstep id a w) as [w1|] eqn:E; [|done]. intros Hr. rewrite app_assoc. eapply IH; [|exact Hr].
  by eapply cstep_ok.
Qed.
End client.
Arguments msg : clear implicits.
Arguments world : clear implicits.
Arguments act : clear implicits.
Arguments phase : clear implicits.

(** ** The properties *)

(** The main thread answers every message of the file bridge once. After
    any history of messages, deadlines and finished operations, no message has
    two replies, each reply carries the id and the port of the message it
    answers, and while the bridge is open every message has its reply or is
    at work within its deadline; the counter has been raised once for each
    reply on the synchronous port, at most one synchronous call is ever in
    flight, and the requests counted as stuck are exactly those answered
    ETIMEDOUT whose operation has not returned. *)
Theorem bridge_answers_once (maxStuck : Z) (es : list event) :
  server_ok (messages es) (srun maxStuck es new_server).1 (srun maxStuck es new_server).2.
Proof. apply (srun_ok maxStuck es [] new_server []), new_ok. Qed.

(** C35: a worker's synchronous file call does not sleep through its reply.
    However the worker's steps interleave with the main thread's posting,
    counting and notifying (fewer than 2^32 replies in one call, so that the
    Int32 counter does not come round): a reply the call returns was posted
    and carries the call's own id; the call gives up only past its deadline;
    and whenever the main thread has finished posting and a reply of this call
    is in the port before the deadline, the worker by itself returns it within
    a bounded number of steps, whatever it was doing. *)
Theorem sync_call_wakes {A} (id : Z) (b0 : Z) (q : list (msg A)) (at_ : main_at) (acts : list (act A)) (w : world A) :
  crun id acts (call_start b0 q at_) = Some w -> w_bumps w < b0 + 2 ^ 32 ->
  (forall m, w_phase w = Returned m -> m_id m = id /\ m ∈ q ++ mjoin (map posted acts)) /\
  (w_phase w = GaveUp -> w_expired w = true) /\
  (forall m, in_call w -> w_main w = Idle -> w_expired w = false ->
     List.find (fun x => m_id x =? id) (w_queue w) = Some m ->
     exists n, (n <= 3 + length (w_queue w))%nat /\ w_phase (Nat.iter n (worker_step id) w) = Returned m).
Proof.
  intros Hr Hlt. assert (Hok : call_ok id (q ++ mjoin (map posted acts)) w).
  { eapply crun_ok; [|exact Hr]. by split. }
  assert (Hi : client_inv b0 w) by (eapply crun_inv; [|exact Hr|done]; split; [done|]; cbn; lia).
  destruct Hok as [_ Hp]. split_and!.
  - intros m E. rewrite E in Hp. by destruct Hp.
  - intros E. by rewrite E in Hp.
  - intros m Hc Hm He Hf. by eapply checks_to.
Qed.

(** A stale reply is drained, the worker goes to sleep, and the reply posted
    and notified afterwards wakes it. *)
Definition wake_acts : list (act string) :=
  [Work; Work; Work; Work; Work; Post (mkMsg 7 "late"); Add; Notify].

Definition wake_world : world string :=
  mkWorld 1 [mkMsg 7 "late"%string] Idle false Loading.

Lemma sync_call_wakes_witness :
  exists n, (n <= 3 + 1)%nat /\ w_phase (Nat.iter n (worker_step 7) wake_world) = Returned (mkMsg 7 "late"%string).
Proof.
  assert (E : crun 7 wake_acts (call_start 0 [mkMsg 6 "stale"%string] Idle) = Some wake_world) by (vm_compute; reflexivity).
  apply (sync_call_wakes 7 0 [mkMsg 6 "stale"%string] Idle wake_acts wake_world E);
    [vm_compute; reflexivity|exact I|reflexivity|reflexivity|reflexivity].
Defined.
