(* ===== verification/Service.v ===== *)
(** * Services and their actions (lib/service.js, lib/validator.js validate,
    lib/countinghouse-device.js)

    A device's services as its spec declares them, the schemas an action is
    checked against, and one call of an action: what is refused before the
    handler runs, and how the handler's callback, return, throw or promise
    becomes the one answer of the call. *)
From Stdlib Require Import ZArith Lia Ascii String.
From stdpp Require Import prelude strings gmap.
From S2P Require Import Prelude Json Errors.

Set Default Proof Using "Type".

(** ** Schemas *)

(** What a compiled schema says of a document; [Raises] is an exception. *)
Inductive verdict := Valid | Invalid (info : jsval) | Raises (message : string).

(** A dereferenced document, or one that contains itself and so has no text. *)
Inductive document := Doc (v : jsval) | Circular.

(** [{schema: ..., validator: ...}]: the pointer, replaced by the document it
    names when that is resolved, with the compiled validator. *)
Record schema_obj := mkSchema { so_schema : jsval; so_validator : option (jsval -> verdict) }.

Definition handler := string.

Record action := mkAction {
  ac_invoke : option handler;
  ac_input : option schema_obj;
  ac_output : option schema_obj;
  ac_fault : option schema_obj
}.

Record service := mkService { sv_actions : list (string * action) }.

(** The [invoke] members set on inherited objects, one store for the thread:
    what is set on [Object.prototype] itself is seen through all of them. *)
Definition globals := list (string * handler).

Definition inherited_invoke (g : globals) (name : string) : option handler :=
  match assoc name g with Some h => Some h | None => assoc "__proto__" g end.

(** [this.actions[name]]; an own action whose [invoke] is null keeps it. *)
Definition lookup_action (g : globals) (s : service) (name : string) : option action :=
  match assoc name (sv_actions s) with
  | Some a => Some a
  | None => if includes name object_members then Some (mkAction (inherited_invoke g name) None None None) else None
  end.

(** [service.actions[actionName].invoke = action.bind(this)], for an action
    that is there. *)
Definition set_invoke (g : globals) (s : service) (name : string) (h : handler) : globals * service :=
  match assoc name (sv_actions s) with
  | Some a => (g, mkService (assoc_set name (mkAction (Some h) (ac_input a) (ac_output a) (ac_fault a)) (sv_actions s)))
  | None => (assoc_set name h g, s)
  end.

(** *** resolveSchemaFromPath *)

(** An answer at once, or the dereferencing of [ref] in the document, whose
    answer comes later. *)
Inductive resolution := Now (r : cherr + document) | Later (doc : jsval) (ref : string).

(** [/^\/./.test(path)]: a slash and a character that ends no line. *)
Definition pointer_form (path : string) : bool :=
  match path with
  | String c (String d _) => Ascii.eqb c "/"%char && negb (Ascii.eqb d (ascii_of_nat 10)) && negb (Ascii.eqb d (ascii_of_nat 13))
  | _ => false
  end.

Definition resolveSchemaFromPath (schemaDoc path : jsval) : resolution :=
  if is_nullish schemaDoc || negb (is_object schemaDoc) then Now (inl (DeviceError "INVALID_DEVICE_SCHEMADOC" []))
  else if strict_eq path (JStr "/") then Now (inr (Doc schemaDoc))
  else if negb (pointer_form (js_text path)) then Now (inl (CHError "INVALID_JSON_POINTER" []))
  else Later schemaDoc ("#" +:+ js_text path).

(** What the dereferencing answers with. *)
Definition dereferenced (r : result document) : cherr + document :=
  match r with Ok d => inr d | Throw e => inl (CHError "POINTER_DEREF_ERROR" [JStr (e_message e)]) end.

Inductive direction := Input | Output | Fault.

#[export] Instance direction_eq_dec : EqDecision direction.
Proof. solve_decision. Defined.

Definition key_name (k : direction) : string :=
  match k with Input => "input" | Output => "output" | Fault => "fault" end.

Definition schema_of (k : direction) (a : action) : option schema_obj :=
  match k with Input => ac_input a | Output => ac_output a | Fault => ac_fault a end.

Definition with_schema (k : direction) (so : schema_obj) (a : action) : action :=
  match k with
  | Input => mkAction (ac_invoke a) (Some so) (ac_output a) (ac_fault a)
  | Output => mkAction (ac_invoke a) (ac_input a) (Some so) (ac_fault a)
  | Fault => mkAction (ac_invoke a) (ac_input a) (ac_output a) (Some so)
  end.

Section service.
(** [ajv.compile]: a validator, or the exception it throws; the locale. *)
Context (compile : jsval -> result (jsval -> verdict)) (ErrorInfo : string -> option string).

(** *** resolveSchemaObject *)

Definition resolved (so : schema_obj) (r : cherr + document) : schema_obj :=
  match r with
  | inl _ => so
  | inr Circular => mkSchema (so_schema so) None
  | inr (Doc d) => mkSchema d (match compile d with Ok v => Some v | Throw _ => None end)
  end.

Definition update_action (f : action -> action) (name : string) (s : service) : service :=
  match assoc name (sv_actions s) with
  | Some a => mkService (assoc_set name (f a) (sv_actions s))
  | None => s
  end.

(** The callback of [resolveSchemaFromPath] for one action's key. *)
Definition on_resolved (s : service) (name : string) (k : direction) (r : cherr + document) : service :=
  update_action (fun a => match schema_of k a with
                          | Some so => with_schema k (resolved so r) a
                          | None => a
                          end) name s.

(** *** updateSpec *)

(** A dereferencing under way: the action's key it is for, what it reads. *)
Record pending := mkPending { p_action : string; p_key : direction; p_doc : jsval; p_ref : string }.

Definition add_schema (schemaDoc spec_action : jsval) (name : string) (s : service * list pending) (k : direction)
  : service * list pending :=
  let '(s, ps) := s in
  let v := jget (key_name k) spec_action in
  if is_nullish v then (s, ps)
  else
    let pointer := jget "schema" v in
    let s := update_action (with_schema k (mkSchema pointer None)) name s in
    match resolveSchemaFromPath schemaDoc pointer with
    | Now r => (on_resolved s name k r, ps)
    | Later doc ref => (s, ps ++ [mkPending name k doc ref])
    end.

Definition add_spec_action (schemaDoc : jsval) (sp : service * list pending) (spec_action : jsval)
  : service * list pending :=
  let '(s, ps) := sp in
  let name := js_text (jget "name" spec_action) in
  if bool_decide (is_Some (assoc name (sv_actions s))) || includes name object_members then (s, ps)
  else
    let s := mkService (sv_actions s ++ [(name, mkAction None None None None)]) in
    fold_left (add_schema schemaDoc spec_action name) [Input; Output; Fault] (s, ps).

Definition spec_actions (spec : jsval) : list jsval :=
  match jget "actionList" spec with JArr l => l | _ => [] end.

Definition updateSpec (schemaDoc spec : jsval) (s : service) : service * list pending :=
  fold_left (add_spec_action schemaDoc) (spec_actions spec) (s, []).

(** [new Service(device, serviceID, spec)] *)
Definition Service_ (schemaDoc spec : jsval) : service * list pending := updateSpec schemaDoc spec (mkService []).

(** ** validator.js: validate *)

(** [None], or the message and its info. *)
Definition validate (name : string) (so : schema_obj) (data : jsval) : option (string * jsval) :=
  match data with
  | JNull => Some ("empty data", JStr name)
  | _ =>
      if negb (is_object data) then Some ("data is not of type object", JStr name)
      else if is_nullish (so_schema so) then Some ("data has no schema object", JStr name)
      else if negb (is_object (so_schema so)) then Some ("data schema object is invalid", JStr name)
      else match so_validator so with
           | None => Some ("schema validator unavailable", JStr name)
           | Some v => match v data with
                       | Valid => None
                       | Invalid info => Some ("data validation failed", info)
                       | Raises m => Some ("data validation threw", JStr (name +:+ m))
                       end
           end
  end.

(** ** validateActionCall *)

Definition ARGUMENT_KEYS : list string := ["input"; "output"].
Definition FRAMEWORK_ARG_KEYS : list string := ["ctx"; "httpHeaders"; "jobID"].

Definition fault_data (reason : string) (info : jsval) : jsval :=
  JObj [("fault", JObj [("reason", JStr reason); ("info", info)])].

(** [for (const name in args)] *)
Definition unexpected_argument (args : jsval) : option string :=
  match args with
  | JObj kvs => List.find (fun n => negb (includes n ARGUMENT_KEYS || includes n FRAMEWORK_ARG_KEYS)) (map fst kvs)
  | _ => None
  end.

Definition validateActionCall (a : action) (args : jsval) (isInput : bool) : option cherr * jsval :=
  let k := if isInput then Input else Output in
  let key := key_name k in
  let errorCode := if isInput then "INPUT_DATA_VALIDATION_FAIL" else "OUTPUT_DATA_VALIDATION_FAIL" in
  if is_nullish args
  then (Some (DeviceError (if isInput then "ARGUMENTS_INVALID" else "MISSING_OUTPUT_ARGUMENT") []), JNull)
  else match unexpected_argument args with
       | Some name => (Some (DeviceError errorCode []),
                       fault_data ("unexpected " +:+ key +:+ " argument: " +:+ name) (JStr ""))
       | None =>
           match schema_of k a with
           | None => (None, JNull)
           | Some so =>
               if is_undef (jget key args)
               then (Some (DeviceError errorCode []), fault_data (key +:+ " argument not found") (JStr ""))
               else match validate key so (jget key args) with
                    | Some (reason, info) => (Some (DeviceError errorCode []), fault_data reason info)
                    | None => (None, JNull)
                    end
           end
       end.

(** [if (data && data.fault) cb(err, data.fault); else cb(err, data)] *)
Definition fault_of (data : jsval) : jsval := if truthy (jget "fault" data) then jget "fault" data else data.

(** ** invokeAction *)

(** What is answered at once, or the handler to run; [Broken] is the exception
    of calling a member that is no function. *)
Inductive dispatch := Answer (err : cherr) (data : jsval) | Run (a : action) (h : handler) | Broken.

Definition invokeAction (g : globals) (s : service) (actionName args : jsval) : dispatch :=
  match lookup_action g s (js_text actionName) with
  | None => Answer (CHError "ACTION_NOT_FOUND" [actionName]) JNull
  | Some a =>
      if is_nullish args then Answer (CHError "INPUT_NOT_FOUND" []) JNull
      else match ac_invoke a with
           | None => Answer (DeviceError "ACTION_NOT_IMPLEMENTED" [actionName]) JNull
           | Some h =>
               match validateActionCall a args true with
               | (Some e, data) => Answer e (fault_of data)
               | (None, _) => Run a h
               end
           end
  end.

(** ** doActionCall *)

(** A value thrown, rejected with, or passed as an error: an [Error] with its
    class, name and stack, or any other value. *)
Inductive thrown := ThrownError (e : cherr) (name stack : string) | ThrownValue (v : jsval).

Definition is_error (t : thrown) : bool := match t with ThrownError _ _ _ => true | ThrownValue v => truthy v end.

(** [(err != null) ? err.message : undefined] *)
Definition thrown_message (t : thrown) : jsval :=
  match t with ThrownError e _ _ => JStr (message_of ErrorInfo e) | ThrownValue v => jget "message" v end.

Definition error_fault (message name stack : jsval) : jsval :=
  JObj [("message", message); ("name", name); ("stack", stack)].

(** [toJSONSafeFault]; [None] is the exception of reading a member of null. *)
Definition toJSONSafeFault (t : thrown) : option jsval :=
  match t with
  | ThrownError e name stack => Some (error_fault (JStr (message_of ErrorInfo e)) (JStr name) (JStr stack))
  | ThrownValue v =>
      if is_nullish v then None else Some (error_fault (jget "message" v) (jget "name" v) (jget "stack" v))
  end.

(** What a call sends out: its answer, or an exception nobody catches. *)
Inductive outcome := Replied (err : option cherr) (data : jsval) | Uncaught.

Definition finish (a : action) (output : jsval) : outcome :=
  match validateActionCall a output false with
  | (Some e, data) => Replied (Some e) (fault_of data)
  | (None, _) => Replied None output
  end.

Definition typed (t : thrown) : option cherr :=
  match t with ThrownError e _ _ => match c_class e with KError => None | _ => Some e end | ThrownValue _ => None end.

Definition fail (t : thrown) (output : jsval) (untypedCode : string) : outcome :=
  match typed t with
  | Some e => Replied (Some e) (fault_of output)
  | None =>
      let error := DeviceError untypedCode [thrown_message t] in
      if String.eqb untypedCode "DEVICE_INVOKE_EXCEPTION"
      then match toJSONSafeFault t with Some f => Replied (Some error) f | None => Uncaught end
      else Replied (Some error) (fault_of output)
  end.

(** A call while its handler runs: [settled], and what the handler's own
    execution came to so far. *)
Inductive progress := Running | Returned (thenable : bool) | Raised.
Record callst := mkCall { cs_settled : bool; cs_progress : progress }.

(** What a handler may do: call its callback, at any time; return or throw,
    once; and, having returned a promise, have it resolved or rejected. *)
Inductive hevent :=
| HCallback (err : thrown) (output : jsval)
| HReturn (thenable : bool)
| HThrow (err : thrown)
| HResolve (output : jsval)
| HReject (err : thrown).

Definition hstep (a : action) (c : callst) (ev : hevent) : callst * list outcome :=
  let settle (o : outcome) (p : progress) :=
    if cs_settled c then (mkCall true p, []) else (mkCall true p, [o]) in
  match ev, cs_progress c with
  | HCallback err output, p =>
      settle (if is_error err then fail err output "DEVICE_INVOKE_FAIL" else finish a output) p
  | HReturn thenable, Running => (mkCall (cs_settled c) (Returned thenable), [])
  | HThrow err, Running =>
      settle (match toJSONSafeFault err with
              | Some f => Replied (Some (DeviceError "DEVICE_INVOKE_EXCEPTION" [])) f
              | None => Uncaught
              end) Raised
  | HResolve output, Returned true => settle (finish a output) (Returned true)
  | HReject err, Returned true => settle (fail err JNull "DEVICE_INVOKE_EXCEPTION") (Returned true)
  | _, _ => (c, [])
  end.

Definition started : callst := mkCall false Running.

Fixpoint hrun (a : action) (c : callst) (evs : list hevent) : callst * list outcome :=
  match evs with
  | [] => (c, [])
  | ev :: rest => let '(c1, o1) := hstep a c ev in let '(c2, o2) := hrun a c1 rest in (c2, o1 ++ o2)
  end.

(** ** countinghouse-device.js *)

(** A device: its schema document, its services by id, in a thread's globals. *)
Record device := mkDevice { dv_schemaDoc : jsval; dv_services : list (string * service) }.

(** [initServices]: the services of a spec, and what they leave to resolve;
    [None] is an exception. *)
Definition add_service (schemaDoc : jsval) (st : option (list (string * service) * list (string * pending)))
  (id_spec : string * jsval) : option (list (string * service) * list (string * pending)) :=
  match st with
  | None => None
  | Some (services, ps) =>
      let '(id, spec) := id_spec in
      match assoc id services with
      | Some s => let '(s', ps') := updateSpec schemaDoc spec s in
                  Some (assoc_set id s' services, ps ++ map (pair id) ps')
      | None =>
          if includes id object_members then None
          else let '(s', ps') := Service_ schemaDoc spec in
               Some (services ++ [(id, s')], ps ++ map (pair id) ps')
      end
  end.

(** [for (const i in v)], with the values. *)
Definition members (v : jsval) : list (string * jsval) :=
  match v with JObj kvs => kvs | JArr xs => zip (js_keys v) xs | _ => [] end.

Definition initServices (d : device) (spec : jsval) : option (device * list (string * pending)) :=
  let serviceList := jget "serviceList" (jget "device" spec) in
  if is_nullish serviceList then Some (d, [])
  else match fold_left (add_service (dv_schemaDoc d)) (members serviceList) (Some (dv_services d, [])) with
       | None => None
       | Some (services, ps) => Some (mkDevice (dv_schemaDoc d) services, ps)
       end.

(** One of those resolved. *)
Definition on_schema (d : device) (id : string) (p : pending) (r : cherr + document) : device :=
  match assoc id (dv_services d) with
  | Some s => mkDevice (dv_schemaDoc d) (assoc_set id (on_resolved s (p_action p) (p_key p) r) (dv_services d))
  | None => d
  end.

(** [setAction] with a function: where the action is not there, it is logged. *)
Definition setAction (g : globals) (d : device) (serviceID actionName : string) (h : handler) : globals * device :=
  match assoc serviceID (dv_services d) with
  | None => (g, d)
  | Some s =>
      match lookup_action g s actionName with
      | None => (g, d)
      | Some _ => let '(g', s') := set_invoke g s actionName h in
                  (g', mkDevice (dv_schemaDoc d) (assoc_set serviceID s' (dv_services d)))
      end
  end.

Definition deviceControl (g : globals) (d : device) (serviceID actionName args : jsval) : dispatch :=
  match assoc (js_text serviceID) (dv_services d) with
  | Some s => invokeAction g s actionName args
  | None => if includes (js_text serviceID) object_members then Broken
            else Answer (DeviceError "SERVICE_NOT_FOUND" [serviceID]) JNull
  end.
End service.

(** ** Lemmas *)

Section proofs.
Context (compile : jsval -> result (jsval -> verdict)) (ErrorInfo : string -> option string).

(** An argument object of a direction, as the action's schemas have it: only
    known members, and where the action declares a schema, a member that is an
    object, not null, and that the schema's document, compiled, accepts. *)
Definition conforms (a : action) (k : direction) (args : jsval) : Prop :=
  is_nullish args = false /\
  (forall n v, args = JObj v -> n ∈ map fst v -> n ∈ ARGUMENT_KEYS ++ FRAMEWORK_ARG_KEYS) /\
  forall so, schema_of k a = Some so ->
    exists v, compile (so_schema so) = Ok v /\ is_object (jget (key_name k) args) = true /\
              jget (key_name k) args <> JNull /\ v (jget (key_name k) args) = Valid.

(** An action's schema of a direction has been resolved and compiled. *)
Definition ready (a : action) (k : direction) : Prop :=
  forall so, schema_of k a = Some so ->
    so_validator so <> None /\ is_object (so_schema so) = true /\ is_nullish (so_schema so) = false.

(** A schema's validator is the one its document compiles to. *)
Definition compiled (so : schema_obj) : Prop := forall v, so_validator so = Some v -> compile (so_schema so) = Ok v.
Definition action_compiled (a : action) : Prop := forall k so, schema_of k a = Some so -> compiled so.
Definition service_compiled (s : service) : Prop := forall name a, assoc name (sv_actions s) = Some a -> action_compiled a.

Lemma validate_accepts name so data :
  compiled so -> validate name so data = None ->
  (exists v, compile (so_schema so) = Ok v /\ is_object data = true /\ data <> JNull /\ v data = Valid) /\
  so_validator so <> None /\ is_object (so_schema so) = true /\ is_nullish (so_schema so) = false.
Proof.
  unfold validate, compiled. intros Hc. destruct data; try done; cbn [is_object negb];
    repeat case_match; try done; bool_hyps; intros _; (split; [eexists; split; [by apply Hc|done]|done]).
Qed.

Lemma validateActionCall_accepts a args (isInput : bool) data :
  action_compiled a -> validateActionCall a args isInput = (None, data) ->
  data = JNull /\ conforms a (if isInput then Input else Output) args /\ ready a (if isInput then Input else Output).
Proof.
  unfold validateActionCall. intros Hc. destruct (is_nullish args) eqn:Hn; [done|].
  destruct (unexpected_argument args) eqn:Hu; [done|].
  assert (Hmembers : forall n v, args = JObj v -> n ∈ map fst v -> n ∈ ARGUMENT_KEYS ++ FRAMEWORK_ARG_KEYS).
  { intros n v -> Hin. cbn in Hu. pose proof (proj1 (find_none_forall _ _) Hu) as Hf.
    specialize (Hf n Hin). cbn beta in Hf. bool_hyps. apply elem_of_app.
    apply orb_true_iff in Hf as [Hf|Hf]; apply includes_spec in Hf; auto. }
  set (k := if isInput then Input else Output).
  destruct (schema_of k a) as [so|] eqn:Hs.
  - destruct (is_undef _); [done|]. destruct (validate _ so _) as [[reason info]|] eqn:Hv; [done|].
    destruct (validate_accepts (key_name k) so _ (Hc k so Hs) Hv) as [Hacc Hready].
    intros [= <-]. split; [done|]. split; [split; [done|]; split; [done|]|]; intros so' Hso; rewrite Hs in Hso; by injection Hso as <-.
  - intros [= <-]. split; [done|]. split; [split; [done|]; split; [done|]|]; intros so'; by rewrite Hs.
Qed.

Lemma hstep_settled a c ev : cs_settled c = true ->
  cs_settled (hstep ErrorInfo a c ev).1 = true /\ (hstep ErrorInfo a c ev).2 = [].
Proof. intros Hc. unfold hstep. rewrite Hc. destruct ev; repeat case_match; done. Qed.

Lemma hrun_settled a evs : forall c, cs_settled c = true ->
  cs_settled (hrun ErrorInfo a c evs).1 = true /\ (hrun ErrorInfo a c evs).2 = [].
Proof.
  induction evs as [|ev evs IH]; intros c Hc; [done|]. cbn.
  destruct (hstep_settled a c ev Hc) as [Hs Ho]. destruct (hstep ErrorInfo a c ev) as [c1 o1]. cbn in Hs, Ho.
  specialize (IH c1 Hs). destruct (hrun ErrorInfo a c1 evs) as [c2 o2]. cbn in *. destruct IH as [? ->]. by subst.
Qed.

(** What one event of an unsettled call may send out. *)
Definition outcome_of (a : action) (ev : hevent) (o : outcome) : Prop :=
  match o with
  | Replied None data => conforms a Output data /\ (ev = HResolve data \/ exists err, is_error err = false /\ ev = HCallback err data)
  | Replied (Some e) data => True
  | Uncaught => exists v, is_nullish v = true /\ (ev = HThrow (ThrownValue v) \/ ev = HReject (ThrownValue v))
  end.

Lemma finish_outcome a output o : action_compiled a -> finish a output = o ->
  match o with Replied None data => data = output /\ conforms a Output data | Replied (Some _) _ => True | Uncaught => False end.
Proof.
  intros Hc <-. unfold finish. destruct (validateActionCall a output false) as [[e|] data] eqn:Hv; [done|].
  split; [done|]. by apply validateActionCall_accepts in Hv as (_ & Hv & _).
Qed.

Lemma fail_outcome t output code o : fail ErrorInfo t output code = o ->
  match o with
  | Replied e _ => e <> None
  | Uncaught => exists v, is_nullish v = true /\ t = ThrownValue v /\ code = "DEVICE_INVOKE_EXCEPTION"
  end.
Proof.
  intros <-. unfold fail. destruct (typed t); [done|].
  destruct (String.eqb_spec code "DEVICE_INVOKE_EXCEPTION") as [->|]; [|done].
  destruct t as [e name stack|v]; cbn; [done|]. destruct (is_nullish v) eqn:Hv; eauto.
Qed.

Lemma hstep_unsettled a p ev : action_compiled a ->
  let '(c, outs) := hstep ErrorInfo a (mkCall false p) ev in
  (cs_settled c = false /\ outs = []) \/ (cs_settled c = true /\ exists o, outs = [o] /\ outcome_of a ev o).
Proof.
  intros Hc. unfold hstep. cbn [cs_settled cs_progress].
  destruct ev as [err output|th|err|output|err]; cbn beta iota zeta.
  - right. split; [done|]. eexists. split; [done|]. destruct (is_error err) eqn:He.
    + pose proof (fail_outcome err output "DEVICE_INVOKE_FAIL" _ eq_refl) as Hf.
      destruct (fail ErrorInfo err output "DEVICE_INVOKE_FAIL") as [[e|] d|]; try done.
      by destruct Hf as (? & _ & _ & [=]).
    + pose proof (finish_outcome a output _ Hc eq_refl) as Hf. destruct (finish a output) as [[e|] d|]; try done.
      destruct Hf as [-> Hf]. split; [done|]. right. eauto.
  - destruct p; by left.
  - destruct p; [|by left..]. right. split; [done|]. eexists. split; [done|].
    destruct err as [e name stack|v]; cbn; [done|]. destruct (is_nullish v) eqn:Hv; cbn; eauto.
  - destruct p as [|[]|]; try by left. right. split; [done|]. eexists. split; [done|].
    pose proof (finish_outcome a output _ Hc eq_refl) as Hf. destruct (finish a output) as [[e|] d|]; try done.
    destruct Hf as [-> Hf]. split; [done|]. by left.
  - destruct p as [|[]|]; try by left. right. split; [done|]. eexists. split; [done|].
    pose proof (fail_outcome err JNull "DEVICE_INVOKE_EXCEPTION" _ eq_refl) as Hf.
    destruct (fail ErrorInfo err JNull "DEVICE_INVOKE_EXCEPTION") as [[e|] d|]; try done.
    destruct Hf as (v & Hv & -> & _). exists v. eauto.
Qed.

(** *** Every action a device holds has compiled validators *)

Lemma service_compiled_set s name a :
  service_compiled s -> action_compiled a -> service_compiled (mkService (assoc_set name a (sv_actions s))).
Proof.
  intros Hs Ha n b. cbn. rewrite assoc_set_lookup. case_match; [by intros [= <-]|apply Hs].
Qed.

Lemma update_action_compiled f name s :
  service_compiled s -> (forall a, action_compiled a -> action_compiled (f a)) -> service_compiled (update_action f name s).
Proof.
  intros Hs Hf. unfold update_action. destruct (assoc name (sv_actions s)) as [a|] eqn:Ha; [|done].
  apply service_compiled_set; [done|]. by apply Hf, (Hs name).
Qed.

Lemma with_schema_compiled k so a : compiled so -> action_compiled a -> action_compiled (with_schema k so a).
Proof. intros Hso Ha k' so'. pose proof (Ha k'). destruct k, k'; cbn in *; try (by auto); by intros [= <-]. Qed.

Lemma resolved_compiled so r : compiled so -> compiled (resolved compile so r).
Proof.
  intros Hso. destruct r as [e|[d|]]; cbn; [done| |by intros ?].
  intros v. cbn. by destruct (compile d) as [v'|]; intros [= <-].
Qed.

Lemma on_resolved_compiled s name k r : service_compiled s -> service_compiled (on_resolved compile s name k r).
Proof.
  intros Hs. apply update_action_compiled; [done|]. intros a Ha. destruct (schema_of k a) as [so|] eqn:Hso; [|done].
  apply with_schema_compiled; [|done]. by apply resolved_compiled, (Ha k).
Qed.

Lemma updateSpec_compiled schemaDoc spec s : service_compiled s -> service_compiled (updateSpec compile schemaDoc spec s).1.
Proof.
  intros Hs. unfold updateSpec.
  assert (Hkey : forall spec_action name keys sp, service_compiled sp.1 ->
            service_compiled (fold_left (add_schema compile schemaDoc spec_action name) keys sp).1).
  { intros spec_action name keys. induction keys as [|k keys IH]; intros [s0 ps] Hs0; [done|]. cbn.
    apply IH. unfold add_schema. destruct (is_nullish _); [done|].
    assert (Hs1 : service_compiled (update_action (with_schema k (mkSchema (jget "schema" (jget (key_name k) spec_action)) None)) name s0)).
    { apply update_action_compiled; [done|]. intros a Ha. by apply with_schema_compiled; [intros ?|]. }
    destruct (resolveSchemaFromPath _ _); [by apply on_resolved_compiled|done]. }
  assert (Hall : forall l sp, service_compiled sp.1 -> service_compiled (fold_left (add_spec_action compile schemaDoc) l sp).1);
    [|by apply Hall].
  induction l as [|sa l IH]; intros [s0 ps] Hs0; [done|]. cbn [fold_left]. apply IH. unfold add_spec_action.
  destruct (_ || _); [done|]. apply Hkey. intros n a. cbn [fst sv_actions]. rewrite assoc_app.
  destruct (assoc n (sv_actions s0)) as [a0|] eqn:Ha; [intros [= <-]; by apply (Hs0 n)|].
  cbn. case_match; [|done]. intros [= <-]. by intros [] ?.
Qed.

Definition device_compiled (d : device) : Prop := forall id s, assoc id (dv_services d) = Some s -> service_compiled s.

Lemma device_compiled_set doc id s services :
  (forall id s, assoc id services = Some s -> service_compiled s) -> service_compiled s ->
  device_compiled (mkDevice doc (assoc_set id s services)).
Proof. intros Hd Hs id' s'. cbn. rewrite assoc_set_lookup. case_match; [by intros [= <-]|apply Hd]. Qed.

(** A device of a thread, as the runtime makes it: from its specs, with its
    schemas resolved and its actions set, in any order. *)
Inductive built : globals -> device -> Prop :=
| built_new doc : built [] (mkDevice doc [])
| built_spec g d spec d' ps : built g d -> initServices compile d spec = Some (d', ps) -> built g d'
| built_schema g d id p r : built g d -> built g (on_schema compile d id p r)
| built_action g d serviceID actionName h :
    built g d -> built (setAction g d serviceID actionName h).1 (setAction g d serviceID actionName h).2.

Lemma add_service_compiled doc l : forall st,
  (forall services ps, st = Some (services, ps) -> device_compiled (mkDevice doc services)) ->
  forall services ps, fold_left (add_service compile doc) l st = Some (services, ps) -> device_compiled (mkDevice doc services).
Proof.
  induction l as [|[id spec] l IH]; intros st Hst; [exact Hst|]. cbn. apply IH.
  destruct st as [[services ps]|]; [|done]. specialize (Hst _ _ eq_refl). intros services' ps'. unfold add_service.
  destruct (assoc id services) as [s|] eqn:Hs.
  - pose proof (updateSpec_compiled doc spec s (Hst id s Hs)) as Hu. destruct (updateSpec compile doc spec s) as [s' ps1].
    intros [= <- _]. by apply device_compiled_set.
  - case_match; [done|]. pose proof (updateSpec_compiled doc spec (mkService []) ltac:(by intros ? ?)) as Hu.
    unfold Service_. destruct (updateSpec compile doc spec (mkService [])) as [s' ps1]. intros [= <- _].
    intros id' s''. cbn. rewrite assoc_app. destruct (assoc id' services) as [s0|] eqn:H0; [intros [= <-]; by apply (Hst id')|].
    cbn. case_match; [by intros [= <-]|done].
Qed.

Lemma built_compiled g d : built g d -> device_compiled d.
Proof.
  induction 1 as [doc|g d spec d' ps _ IH Hi|g d id p r _ IH|g d sid name h _ IH]; [by intros ? ?|..].
  - revert Hi. unfold initServices. case_match; [by intros [= <- _]|].
    destruct (fold_left _ _ _) as [[services ps']|] eqn:Hf; [|done]. intros [= <- _].
    eapply add_service_compiled; [|exact Hf]. by intros ? ? [= <- _].
  - unfold on_schema. destruct (assoc id (dv_services d)) as [s|] eqn:Hs; [|done].
    apply device_compiled_set; [exact IH|]. by apply on_resolved_compiled, (IH id).
  - unfold setAction. destruct (assoc sid (dv_services d)) as [s|] eqn:Hs; [|done].
    destruct (lookup_action g s name); [|done]. unfold set_invoke.
    destruct (assoc name (sv_actions s)) as [a1|] eqn:Ha; apply device_compiled_set; try exact IH; [|by apply (IH sid)].
    apply service_compiled_set; [by apply (IH sid)|]. intros k so. pose proof (IH sid s Hs name a1 Ha k so) as Hk.
    by destruct k.
Qed.

(** Whether a handler's events include one that decides the call: a callback
    call, a throw before it returns, or the settling of a returned promise. *)
Fixpoint decides (p : progress) (evs : list hevent) : bool :=
  match evs, p with
  | [], _ => false
  | HCallback _ _ :: _, _ => true
  | HReturn thenable :: rest, Running => decides (Returned thenable) rest
  | HThrow _ :: _, Running => true
  | (HResolve _ | HReject _) :: _, Returned true => true
  | _ :: rest, _ => decides p rest
  end.

Lemma hrun_decides a evs p : action_compiled a ->
  let '(c, outs) := hrun ErrorInfo a (mkCall false p) evs in
  cs_settled c = decides p evs /\
  (decides p evs = false -> outs = []) /\
  (decides p evs = true -> exists o ev, outs = [o] /\ ev ∈ evs /\ outcome_of a ev o).
Proof.
  intros Ha. revert p. induction evs as [|ev evs IH]; intros p; [done|]. cbn [hrun].
  pose proof (hstep_unsettled a p ev Ha) as Hstep.
  assert (Hs : cs_settled (hstep ErrorInfo a (mkCall false p) ev).1 = false ->
    hstep ErrorInfo a (mkCall false p) ev = (mkCall false (cs_progress (hstep ErrorInfo a (mkCall false p) ev).1), []) /\
    decides p (ev :: evs) = decides (cs_progress (hstep ErrorInfo a (mkCall false p) ev).1) evs).
  { destruct ev as [? ?|?|?|?|?], p as [|[]|]; cbn; done. }
  assert (Ht : cs_settled (hstep ErrorInfo a (mkCall false p) ev).1 = true -> decides p (ev :: evs) = true).
  { destruct ev as [? ?|?|?|?|?], p as [|[]|]; cbn; done. }
  destruct (hstep ErrorInfo a (mkCall false p) ev) as [c1 o1]. cbn [fst] in Hs, Ht.
  destruct Hstep as [[Hc ->]|[Hc (o & -> & Ho)]].
  - destruct (Hs Hc) as [[= ->] ->]. specialize (IH (cs_progress c1)). cbn [cs_progress] in *.
    destruct (hrun ErrorInfo a (mkCall false (cs_progress c1)) evs) as [c2 o2]. destruct IH as (H1 & H2 & H3).
    split; [done|]. split; [done|]. intros Hd. destruct (H3 Hd) as (o & ev' & -> & ? & ?). exists o, ev'.
    split; [done|]. split; [by right|done].
  - rewrite (Ht Hc). destruct (hrun_settled a evs c1 Hc) as [Hs2 Ho2].
    destruct (hrun ErrorInfo a c1 evs) as [c2 o2]. cbn in Hs2, Ho2. subst o2. split; [done|]. split; [done|].
    intros _. exists o, ev. split; [done|]. split; [left|done].
Qed.
End proofs.

(** The action a call names, of the service it names. *)
Definition names_action (d : device) (serviceID actionName : jsval) (a : action) : Prop :=
  exists s, assoc (js_text serviceID) (dv_services d) = Some s /\ assoc (js_text actionName) (sv_actions s) = Some a.

Lemma validate_ready compile name so data v :
  compiled compile so -> so_validator so <> None -> is_object (so_schema so) = true -> is_nullish (so_schema so) = false ->
  compile (so_schema so) = Ok v -> is_object data = true -> data <> JNull -> v data = Valid -> validate name so data = None.
Proof.
  intros Hc Hv Ho Hn Hcv Hd Hnull Hvd. unfold validate. destruct (so_validator so) as [v'|] eqn:E; [|done].
  rewrite (Hc v' E) in Hcv. injection Hcv as ->. rewrite Hd, Ho, Hn. cbn [negb]. rewrite Hvd. by destruct data.
Qed.

Lemma conforming_accepted compile a args :
  action_compiled compile a -> ready a Input -> conforms compile a Input args ->
  validateActionCall a args true = (None, JNull).
Proof.
  intros Hc Hr (Hn & Hm & Hs). unfold validateActionCall. rewrite Hn.
  destruct (unexpected_argument args) as [n|] eqn:Hu.
  { exfalso. destruct args as [| | | | | | |kvs]; try done. cbn in Hu. apply List.find_some in Hu as [Hin Hf].
    apply list_elem_of_In in Hin. specialize (Hm n kvs eq_refl Hin). bool_hyps.
    apply elem_of_app in Hm as [Hm|Hm]; apply includes_spec in Hm; congruence. }
  cbn [schema_of]. specialize (Hs : forall so, ac_input a = Some so -> _). specialize (Hr : forall so, ac_input a = Some so -> _).
  destruct (ac_input a) as [so|] eqn:Hso; [|done]. destruct (Hs so eq_refl) as (v & Hcv & Ho & Hnull & Hv).
  destruct (Hr so eq_refl) as (Hval & Hobj & Hnn). cbn [key_name] in *.
  destruct (is_undef (jget "input" args)) eqn:Hun; [by destruct (jget "input" args)|].
  by rewrite (validate_ready compile "input" so (jget "input" args) v (Hc Input so Hso) Hval Hobj Hnn Hcv Ho Hnull Hv).
Qed.

(** C30: A call of a device's action of its own runs its handler exactly when the
    action has one, its input schema, if it declares one, has been resolved and
    compiled, and the arguments conform to it (only known members, and with a
    schema an input that is an object, not null, and that the schema's document
    accepts); otherwise no handler runs, and the call is answered with an error
    (or raises, when its service is named like a member every object has).
    The one other case: an action a module names like a member every object
    has (toString) is never one of the device's own, so the schemas it
    declares are not read, and its handler runs on any input
    (inherited_action_unvalidated). Whatever
    the handler then does - calls back, returns, throws, settles a promise,
    several times and in any order - the call is decided by the first of these
    that can decide it and answered at most once (not at all where that is a
    throw or a rejection of nothing), and a successful answer is an output that
    conforms to the action. *)
Theorem action_call_contract compile ErrorInfo g d serviceID actionName args :
  built compile g d ->
  match deviceControl g d serviceID actionName args with
  | Run a h =>
      (names_action d serviceID actionName a /\ ready a Input \/
       (forall a', ~ names_action d serviceID actionName a') /\ js_text actionName ∈ object_members /\
       a = mkAction (Some h) None None None) /\
      ac_invoke a = Some h /\ conforms compile a Input args /\
      forall evs, let '(c, outs) := hrun ErrorInfo a started evs in
        cs_settled c = decides Running evs /\
        (decides Running evs = false -> outs = []) /\
        (decides Running evs = true -> exists o ev, outs = [o] /\ ev ∈ evs /\ outcome_of compile a ev o)
  | Answer _ _ =>
      forall a, names_action d serviceID actionName a -> ac_invoke a <> None -> ready a Input ->
        ~ conforms compile a Input args
  | Broken => js_text serviceID ∈ object_members
  end.
Proof.
  intros Hb. pose proof (built_compiled compile g d Hb) as Hc. unfold deviceControl.
  destruct (assoc (js_text serviceID) (dv_services d)) as [s|] eqn:Hs.
  2: { destruct (includes _ _) eqn:Hi; [by apply includes_spec in Hi|].
       intros a (s & Hs' & _). by rewrite Hs in Hs'. }
  specialize (Hc _ _ Hs). unfold invokeAction, lookup_action.
  destruct (assoc (js_text actionName) (sv_actions s)) as [a|] eqn:Ha.
  - assert (Hname : names_action d serviceID actionName a) by by exists s.
    assert (Huniq : forall a', names_action d serviceID actionName a' -> a' = a).
    { intros a' (s' & Hs' & Ha'). rewrite Hs in Hs'. injection Hs' as <-. rewrite Ha in Ha'. by injection Ha'. }
    destruct (is_nullish args) eqn:Hn; [by intros a' _ _ _ [Hn' _]; rewrite Hn in Hn'|].
    destruct (ac_invoke a) as [h|] eqn:Hinv; [|by intros a' Ha'; rewrite (Huniq a' Ha')].
    destruct (validateActionCall a args true) as [[e|] data] eqn:Hv.
    + intros a' Ha' _ Hr Hcf. rewrite (Huniq a' Ha') in *.
      by rewrite (conforming_accepted compile a args (Hc _ _ Ha) Hr Hcf) in Hv.
    + apply (validateActionCall_accepts compile) in Hv as (_ & Hcf & Hready); [|by apply (Hc (js_text actionName))].
      split; [by left|]. split; [done|]. split; [done|]. intros evs. apply hrun_decides. by apply (Hc (js_text actionName)).
  - assert (Hnone : forall a', ~ names_action d serviceID actionName a').
    { intros a' (s' & Hs' & Ha'). rewrite Hs in Hs'. injection Hs' as <-. congruence. }
    destruct (includes _ _) eqn:Hi; [|by intros a' Ha'; destruct (Hnone a')]. apply includes_spec in Hi.
    destruct (is_nullish args) eqn:Hn; [by intros a' Ha'; destruct (Hnone a')|].
    cbn [ac_invoke]. destruct (inherited_invoke g _) as [h|]; [|by intros a' Ha'; destruct (Hnone a')].
    assert (Hcomp : action_compiled compile (mkAction (Some h) None None None)) by by intros [] ?.
    destruct (validateActionCall (mkAction (Some h) None None None) args true) as [[e|] data] eqn:Hv;
      [by intros a' Ha'; destruct (Hnone a')|].
    apply (validateActionCall_accepts compile) in Hv as (_ & Hcf & _); [|done].
    split; [by right|]. split; [done|]. split; [done|]. intros evs. by apply hrun_decides.
Qed.

(** ** Concrete calls *)

(** A schema that wants an object with a member [x]. *)
Definition demo_compile (schema : jsval) : result (jsval -> verdict) :=
  Ok (fun v => if is_undef (jget "x" v) then Invalid (JStr "must have required property 'x'") else Valid).
Definition demo_messages (code : string) : option string := None.

Definition demo_spec (name : string) : jsval :=
  JObj [("device", JObj [("friendlyName", JStr "demo"); ("serviceList", JObj [("urn:demo:serviceID:echo", JObj [("actionList",
    JArr [JObj [("name", JStr name); ("input", JObj [("schema", JStr "/in")])]])])])])].

Definition demo_doc : jsval := JObj [("in", JObj [("type", JStr "object")])].

(** The device, its one schema resolved, its action set. *)
Definition demo_device (name : string) : globals * device :=
  match initServices demo_compile (mkDevice demo_doc []) (demo_spec name) with
  | Some (d, ps) =>
      let d := fold_left (fun d p => on_schema demo_compile d p.1 p.2 (inr (Doc (JObj [("type", JStr "object")])))) ps d in
      setAction [] d "urn:demo:serviceID:echo" name "handler"
  | None => ([], mkDevice JNull [])
  end.

Lemma demo_device_built name : (name =? "echo")%string || (name =? "toString")%string = true ->
  built demo_compile (demo_device name).1 (demo_device name).2.
Proof.
  intros [Hn|Hn]%orb_true_iff; apply String.eqb_eq in Hn as ->.
  - eapply (built_action demo_compile [] _ "urn:demo:serviceID:echo" "echo" "handler").
    eapply (built_schema demo_compile _ _ "urn:demo:serviceID:echo" (mkPending "echo" Input demo_doc "#/in")
             (inr (Doc (JObj [("type", JStr "object")])))).
    eapply (built_spec demo_compile [] (mkDevice demo_doc []) (demo_spec "echo")); [constructor|]. by vm_compute.
  - eapply (built_action demo_compile [] _ "urn:demo:serviceID:echo" "toString" "handler").
    eapply (built_spec demo_compile [] (mkDevice demo_doc []) (demo_spec "toString")); [constructor|]. by vm_compute.
Qed.

Definition demo_call (name : string) (args : jsval) : dispatch :=
  deviceControl (demo_device name).1 (demo_device name).2 (JStr "urn:demo:serviceID:echo") (JStr name) args.

Lemma action_call_contract_witness :
  exists a, demo_call "echo" (JObj [("input", JObj [("x", JNum 1)])]) = Run a "handler" /\
    conforms demo_compile a Input (JObj [("input", JObj [("x", JNum 1)])]).
Proof.
  pose proof (action_call_contract demo_compile demo_messages _ _ (JStr "urn:demo:serviceID:echo") (JStr "echo")
    (JObj [("input", JObj [("x", JNum 1)])]) (demo_device_built "echo" eq_refl)) as H.
  destruct (demo_call "echo" (JObj [("input", JObj [("x", JNum 1)])])) as [e v|a h|] eqn:E; [by vm_compute in E| |by vm_compute in E].
  exists a. unfold demo_call in E. rewrite E in H. destruct H as (_ & Hh & Hc & _). split; [|done].
  by injection E as <- <-.
Defined.

(** An action named like a member every object has is never given a place of
    its own: its handler is set on the inherited member, where it has no
    schema, and runs on any input. *)
Theorem inherited_action_unvalidated :
  demo_call "echo" (JObj [("input", JNum 1)]) =
    Answer (DeviceError "INPUT_DATA_VALIDATION_FAIL" []) (JObj [("reason", JStr "data is not of type object"); ("info", JStr "input")]) /\
  demo_call "toString" (JObj [("input", JNum 1)]) = Run (mkAction (Some "handler") None None None) "handler".
Proof. by vm_compute. Qed.

(** A handler's promise rejected with nothing: reading the message of nothing
    throws, after the call has been marked decided, so it is never answered. *)
Theorem reject_nothing_unanswered a evs :
  let '(c, outs) := hrun demo_messages a started (HReturn true :: HReject (ThrownValue JUndef) :: evs) in
  cs_settled c = true /\ outs = [Uncaught].
Proof.
  cbn. destruct (hrun_settled demo_messages a evs (mkCall true (Returned true)) eq_refl) as [H1 H2].
  destruct (hrun demo_messages a _ evs). cbn in *. by subst.
Qed.

(** An error a handler throws before returning loses its code, typed or not. *)
Theorem thrown_code_lost a e name stack :
  (hrun demo_messages a started [HThrow (ThrownError e name stack)]).2 =
    [Replied (Some (DeviceError "DEVICE_INVOKE_EXCEPTION" [])) (error_fault (JStr (message_of demo_messages e)) (JStr name) (JStr stack))].
Proof. done. Qed.
