(* ===== verification/HandlerMap.v ===== *)
(** * Handler maps (lib/handler-map.js, lib/handler-map-module.js)

    A module exports [{service: {action: function}}]; it is checked against its
    api.json in both directions and wired into a device. *)
From Stdlib Require Import ZArith Lia Ascii String.
From stdpp Require Import prelude strings gmap.
From S2P Require Import Prelude Json Errors Address Service.

Set Default Proof Using "Type".

Definition SERVICE_URN_SEP : string := ":serviceID:".

(** What follows the last occurrence of [sep]. *)
Fixpoint after_last (sep s : string) : option string :=
  match s with
  | EmptyString => if starts_with sep "" then Some "" else None
  | String _ s' =>
      match after_last sep s' with
      | Some r => Some r
      | None => if starts_with sep s then Some (sdrop (String.length sep) s) else None
      end
  end.

Definition shortNameOf (serviceURN : string) : option string := after_last SERVICE_URN_SEP serviceURN.

(** [index.get(short).push(urn)] *)
Definition index_add (index : list (string * list string)) (urn : string) : list (string * list string) :=
  match shortNameOf urn with
  | None => index
  | Some short => assoc_set short (default [] (assoc short index) ++ [urn]) index
  end.

(** [(spec && spec.device && spec.device.serviceList) || {}] *)
Definition declared_services (spec : jsval) : list (string * jsval) := members (serviceList_of spec).

Definition buildServiceIndex (spec : jsval) : list (string * list string) :=
  fold_left index_add (map fst (declared_services spec)) [].

Definition actionNamesOf (serviceSpec : jsval) : list string :=
  match jget "actionList" serviceSpec with
  | JArr actions => omap (fun a => match jget "name" a with JStr n => Some n | _ => None end) actions
  | _ => []
  end.

(** A service of an exported map: an object with its own members and the names
    of the functions its prototype chain has, or another value. *)
Inductive exported_service :=
| Actions (own : list (string * option handler)) (chain : list string)
| NoObject.

(** What a module exports: whether it is an object with the plain (or no)
    prototype, its own members, and what its prototype chain has. *)
Record exported := mkExported {
  x_plain : bool;
  x_services : list (string * exported_service);
  x_chain : list (string * exported_service)
}.

Definition isHandlerMap (x : exported) : bool :=
  x_plain x && negb (is_nil (x_services x)) &&
  forallb (fun svc => match svc.2 with
                      | Actions own _ => forallb (fun a => bool_decide (is_Some a.2)) own
                      | NoObject => false
                      end) (x_services x).

(** [handlerMap[short]], [typeof actions[actionName] === 'function'] *)
Definition handlers_of (x : exported) (short : string) : option exported_service :=
  match assoc short (x_services x) with Some s => Some s | None => assoc short (x_chain x) end.

Definition is_function (svc : exported_service) (actionName : string) : bool :=
  match svc with
  | Actions own chain =>
      match assoc actionName own with
      | Some f => bool_decide (is_Some f)
      | None => includes actionName chain
      end
  | NoObject => false
  end.

Definition own_names (svc : exported_service) : list string :=
  match svc with Actions own _ => map fst own | NoObject => [] end.

(** ** validateHandlerMap *)

Definition or_none (xs : list string) : string := match join ", " xs with EmptyString => "(none)" | t => t end.

Section validate_map.
Context (spec : jsval) (x : exported) (moduleName : string).

Definition stage : string := moduleName +:+ ": stage=assembleHandlerMap -- ".

(** The actions declared under a URN. *)
Definition declared_under (urn : string) : list string := actionNamesOf (jget urn (serviceList_of spec)).

(** Direction 1, one service of the map. *)
Definition service_key_problems (index : list (string * list string)) (svc : string * exported_service) : list string :=
  let '(short, actions) := svc in
  match assoc short index with
  | None =>
      [stage +:+ "handler map declares service " +:+ in_quotes short +:+
       ", which is not in api.json. Services declared there: " +:+ or_none (sort_str (map fst index)) +:+
       ". Top-level keys are service short names (the part after " +:+ in_quotes ":serviceID:" +:+
       " in the URN), not the full URN."]
  | Some urns =>
      if (1 <? length urns)%nat then
        [stage +:+ "service short name " +:+ in_quotes short +:+ " is ambiguous: api.json declares it under " +:+
         nat_text (length urns) +:+ " URNs (" +:+ join ", " urns +:+
         "). Rename one of them so short names are unique within the module."]
      else
        let urn := hd "" urns in
        let declared := declared_under urn in
        omap (fun actionName =>
          if includes actionName declared then None
          else Some (stage +:+ "handler map has " +:+ in_quotes (short +:+ "." +:+ actionName) +:+
                     ", which api.json does not declare. Actions declared on " +:+ urn +:+ ": " +:+ or_none declared +:+
                     ". Check for a typo, or add the action to api.json."))
          (own_names actions)
  end.

(** Direction 2, one declared service. *)
Definition declared_problems (svc : string * jsval) : list string :=
  let '(urn, service) := svc in
  let declared := actionNamesOf service in
  match shortNameOf urn with
  | None =>
      [stage +:+ "service URN " +:+ in_quotes urn +:+ " has no " +:+ in_quotes SERVICE_URN_SEP +:+
       " segment, so it has no short name a handler map can key on."]
  | Some short =>
      match handlers_of x short with
      | None =>
          [stage +:+ "api.json declares service " +:+ in_quotes short +:+ " (" +:+ urn +:+ ") with " +:+
           nat_text (length declared) +:+ " action(s), but the handler map has no " +:+ in_quotes short +:+
           " key. Every declared service needs handlers, or the actions can never be called."]
      | Some actions =>
          omap (fun actionName =>
            if is_function actions actionName then None
            else Some (stage +:+ "api.json declares action " +:+ in_quotes (short +:+ "." +:+ actionName) +:+ " (" +:+ urn +:+
                       "), but the handler map has no function for it. Add it, or remove the action from api.json."))
            declared
      end
  end.

Definition validateHandlerMap : list string :=
  if negb (isHandlerMap x) then
    [stage +:+ "the module does not export a handler map. Expected a plain object of {serviceShortName: {actionName: fn}}. See docs/module-development.md"]
  else
    flat_map (service_key_problems (buildServiceIndex spec)) (x_services x) ++
    flat_map declared_problems (declared_services spec).
End validate_map.

(** ** assemble, buildDeviceClass: the wiring of a checked map *)

(** [this.setAction(urn, actionName, makeInvoker(...))] for each action of one
    service of the map. *)
Definition wire_service (index : list (string * list string)) (gd : globals * device) (svc : string * exported_service)
  : globals * device :=
  match assoc svc.1 index, svc.2 with
  | Some (urn :: _), Actions own _ =>
      fold_left (fun gd a => match a.2 with
                             | Some h => setAction gd.1 gd.2 urn a.1 h
                             | None => gd
                             end) own gd
  | _, _ => gd
  end.

Definition wire (spec : jsval) (x : exported) (gd : globals * device) : globals * device :=
  fold_left (wire_service (buildServiceIndex spec)) (x_services x) gd.

(** [assemble], then the device made on discovery; the exceptions are a
    [MODULE_HANDLER_MISMATCH], and that of a service with an inherited name. *)
Definition assemble (compile : jsval -> result (jsval -> verdict)) (rootSchema spec : jsval) (x : exported)
  (moduleName source : string) (g : globals) : cherr + (globals * device) :=
  match validateHandlerMap spec x moduleName with
  | [] =>
      match initServices compile (mkDevice rootSchema []) spec with
      | Some (d, _) => inr (wire spec x (g, d))
      | None => inl (Error_ "this.services[i].updateSpec is not a function")
      end
  | problems =>
      inl (CHError "MODULE_HANDLER_MISMATCH"
             [JStr moduleName;
              JStr ("handler map (from " +:+ source +:+ ") does not match api.json -- " +:+ nat_text (length problems) +:+
                    " problem(s):" +:+ String (ascii_of_nat 10) "  - " +:+
                    join (String (ascii_of_nat 10) "  - ") problems)])
  end.

(** ** Lemmas *)

(** The check passed: the map and api.json line up. *)
Record lines_up (spec : jsval) (x : exported) : Prop := {
  lu_map : isHandlerMap x = true;
  lu_keys : forall short actions, (short, actions) ∈ x_services x ->
    exists urn, assoc short (buildServiceIndex spec) = Some [urn] /\
      forall a, a ∈ own_names actions -> a ∈ declared_under spec urn;
  lu_declared : forall urn service, (urn, service) ∈ declared_services spec ->
    exists short actions, shortNameOf urn = Some short /\ handlers_of x short = Some actions /\
      forall a, a ∈ actionNamesOf service -> is_function actions a = true
}.

Lemma flat_map_nil {A B} (f : A -> list B) l : flat_map f l = [] <-> forall a, a ∈ l -> f a = [].
Proof.
  induction l as [|a l IH]; cbn; [set_solver|]. split.
  - intros [Ha Hl]%app_eq_nil b [->|Hb]%elem_of_cons; [done|]. by apply IH.
  - intros H. rewrite (H a) by left. apply IH. intros b Hb. apply H. by right.
Qed.

Lemma omap_nil {A B} (f : A -> option B) l : omap f l = [] <-> forall a, a ∈ l -> f a = None.
Proof.
  induction l as [|a l IH]; cbn; [set_solver|]. split.
  - destruct (f a) eqn:Ha; [done|]. intros Hl b [->|Hb]%elem_of_cons; [done|]. by apply IH.
  - intros H. rewrite (H a) by left. apply IH. intros b Hb. apply H. by right.
Qed.

(** The index: every entry is a non-empty list of declared URNs. *)
Lemma index_nonempty spec short urns : assoc short (buildServiceIndex spec) = Some urns -> urns <> [].
Proof.
  unfold buildServiceIndex. set (l := map fst (declared_services spec)).
  assert (H : forall index, (forall s us, assoc s index = Some us -> us <> []) ->
            forall s us, assoc s (fold_left index_add l index) = Some us -> us <> []).
  { induction l as [|urn l IH]; intros index Hi; [exact Hi|]. cbn. apply IH. intros s us. unfold index_add.
    destruct (shortNameOf urn); [|apply Hi]. rewrite assoc_set_lookup. case_match; [|apply Hi].
    intros [= <-]. by destruct (default [] _). }
  by apply H.
Qed.

Lemma validate_lines_up spec x moduleName :
  validateHandlerMap spec x moduleName = [] <-> lines_up spec x.
Proof.
  unfold validateHandlerMap. destruct (isHandlerMap x) eqn:Hx; cbn [negb]; [|split; [done|intros []; congruence]].
  split.
  - intros [H1 H2]%app_eq_nil. rewrite flat_map_nil in H1. rewrite flat_map_nil in H2. constructor; [done|..].
    + intros short actions Hin. specialize (H1 _ Hin). cbn in H1.
      destruct (assoc short (buildServiceIndex spec)) as [urns|] eqn:Hi; [|done].
      pose proof (index_nonempty _ _ _ Hi) as Hne. destruct urns as [|urn [|urn2 urns]]; [done| |done].
      exists urn. split; [done|]. cbn in H1. rewrite omap_nil in H1. intros a Ha. specialize (H1 a Ha). cbn beta in H1.
      destruct (includes a _) eqn:Hinc; [|done]. by apply includes_spec in Hinc.
    + intros urn service Hin. specialize (H2 _ Hin). cbn in H2. destruct (shortNameOf urn) as [short|]; [|done].
      destruct (handlers_of x short) as [actions|] eqn:Hh; [|done]. exists short, actions. split; [done|]. split; [done|].
      rewrite omap_nil in H2. intros a Ha. specialize (H2 a Ha). cbn beta in H2. by destruct (is_function actions a).
  - intros [_ H1 H2]. apply app_nil. split; apply flat_map_nil.
    + intros [short actions] Hin. destruct (H1 _ _ Hin) as (urn & Hi & Ha). cbn. rewrite Hi. cbn. apply omap_nil.
      intros a Hin'. apply Ha, includes_spec in Hin'. by rewrite Hin'.
    + intros [urn service] Hin. destruct (H2 _ _ Hin) as (short & actions & Hs & Hh & Ha). cbn. rewrite Hs, Hh.
      apply omap_nil. intros a Hin'. by rewrite (Ha a Hin').
Qed.

(** *** Wiring *)

(** An action's place on a device, with the handler set on it. *)
Definition invoke_at (d : device) (urn a : string) : option (option handler) :=
  match assoc urn (dv_services d) with
  | Some s => option_map ac_invoke (assoc a (sv_actions s))
  | None => None
  end.

Lemma setAction_at g d urn a h urn' a' :
  invoke_at (setAction g d urn a h).2 urn' a' =
  match invoke_at d urn a with
  | Some _ => if bool_decide (urn' = urn /\ a' = a) then Some (Some h) else invoke_at d urn' a'
  | None => invoke_at d urn' a'
  end.
Proof.
  unfold setAction, invoke_at. destruct (assoc urn (dv_services d)) as [s|] eqn:Hs; [|done].
  unfold lookup_action, set_invoke. destruct (assoc a (sv_actions s)) as [act|] eqn:Ha; cbn [option_map].
  - cbn. rewrite assoc_set_lookup. destruct (String.eqb_spec urn' urn) as [->|Hne].
    + cbn. rewrite assoc_set_lookup. destruct (String.eqb_spec a' a) as [->|]; case_bool_decide; try (by rewrite Hs);
        intuition congruence.
    + case_bool_decide; [intuition congruence|done].
  - destruct (includes a object_members); [|done]. cbn. rewrite assoc_set_lookup.
    destruct (String.eqb_spec urn' urn) as [->|]; [by rewrite Hs|done].
Qed.

(** The settings a wiring makes, in order. *)
Definition settings (index : list (string * list string)) (svc : string * exported_service) : list (string * string * handler) :=
  match assoc svc.1 index, svc.2 with
  | Some (urn :: _), Actions own _ => omap (fun a => option_map (pair (urn, a.1)) a.2) own
  | _, _ => []
  end.

Definition set_one (gd : globals * device) (t : string * string * handler) : globals * device :=
  setAction gd.1 gd.2 t.1.1 t.1.2 t.2.

Lemma wire_service_settings index gd svc : wire_service index gd svc = fold_left set_one (settings index svc) gd.
Proof.
  unfold wire_service, settings. destruct (assoc svc.1 index) as [[|urn urns]|]; try done.
  destruct svc.2 as [own chain|]; [|done]. revert gd.
  induction own as [|[a [h|]] own IH]; intros gd; cbn; [done|apply IH|apply IH].
Qed.

Lemma wire_settings spec x gd :
  wire spec x gd = fold_left set_one (flat_map (settings (buildServiceIndex spec)) (x_services x)) gd.
Proof.
  unfold wire. revert gd. induction (x_services x) as [|svc l IH]; intros gd; [done|]. cbn.
  rewrite fold_left_app, wire_service_settings. apply IH.
Qed.

(** Setting actions keeps every place, and an action set to one handler only
    ends with it. *)
Lemma set_all_at urn a l : forall gd, invoke_at gd.2 urn a <> None ->
  invoke_at (fold_left set_one l gd).2 urn a <> None /\
  forall h, (forall h', (urn, a, h') ∈ l -> h' = h) ->
    (urn, a, h) ∈ l \/ invoke_at gd.2 urn a = Some (Some h) ->
    invoke_at (fold_left set_one l gd).2 urn a = Some (Some h).
Proof.
  induction l as [|[[u b] h0] l IH]; intros gd Hat; cbn [fold_left].
  - split; [done|]. intros h _ [Hin|Hh]; [by apply not_elem_of_nil in Hin|done].
  - assert (Hstep : invoke_at (set_one gd (u, b, h0)).2 urn a =
      if bool_decide (urn = u /\ a = b) then Some (Some h0) else invoke_at gd.2 urn a).
    { unfold set_one. cbn [fst snd]. rewrite setAction_at. case_bool_decide as Heq.
      - destruct Heq as [-> ->]. by destruct (invoke_at gd.2 u b).
      - by destruct (invoke_at gd.2 u b). }
    assert (Hat' : invoke_at (set_one gd (u, b, h0)).2 urn a <> None) by (rewrite Hstep; by case_bool_decide).
    destruct (IH _ Hat') as [H1 H2]. split; [done|]. intros h Hsame Hor. apply H2; [intros; apply Hsame; by right|].
    rewrite Hstep. case_bool_decide as Heq.
    + destruct Heq as [-> ->]. right. rewrite (Hsame h0) by left. done.
    + destruct Hor as [[E|Hin]%elem_of_cons|Hh]; [|by left|by right]. injection E as <- <- <-. by destruct Heq.
Qed.

(** *** The declared actions have a place *)

Lemma update_action_place f name s a :
  assoc a (sv_actions s) <> None -> assoc a (sv_actions (update_action f name s)) <> None.
Proof.
  unfold update_action. destruct (assoc name (sv_actions s)); [|done]. cbn. rewrite assoc_set_lookup. by case_match.
Qed.

Lemma add_schema_place compile doc sa name keys a : forall sp,
  assoc a (sv_actions sp.1) <> None ->
  assoc a (sv_actions (fold_left (add_schema compile doc sa name) keys sp).1) <> None.
Proof.
  induction keys as [|k keys IH]; intros [s ps] Ha; [done|]. cbn. apply IH. unfold add_schema.
  destruct (is_nullish _); [done|]. destruct (resolveSchemaFromPath _ _); unfold on_resolved; cbn [fst];
    repeat apply update_action_place; done.
Qed.

Lemma add_spec_action_place compile doc sa sp a :
  assoc a (sv_actions sp.1) <> None \/ (js_text (jget "name" sa) = a /\ a ∉ object_members) ->
  assoc a (sv_actions (add_spec_action compile doc sp sa).1) <> None.
Proof.
  destruct sp as [s ps]. unfold add_spec_action. cbn [fst]. intros Ha.
  destruct (_ || _) eqn:Hskip.
  - destruct Ha as [Ha|[<- Hm]]; [done|]. apply orb_true_iff in Hskip as [Hs|Hs].
    + apply bool_decide_eq_true in Hs as [act Hs]. cbn [fst]. by rewrite Hs.
    + by apply includes_spec in Hs.
  - apply add_schema_place. cbn. rewrite assoc_app. destruct Ha as [Ha|[<- Hm]].
    + by destruct (assoc a (sv_actions s)).
    + case_match; [done|]. cbn. by rewrite String.eqb_refl.
Qed.

Lemma updateSpec_place compile doc spec a : forall s,
  assoc a (sv_actions s) <> None \/ (a ∈ actionNamesOf spec /\ a ∉ object_members) ->
  assoc a (sv_actions (updateSpec compile doc spec s).1) <> None.
Proof.
  intros s. unfold updateSpec, spec_actions, actionNamesOf.
  assert (H : forall l sp, assoc a (sv_actions sp.1) <> None \/
      (a ∈ omap (fun a => match jget "name" a with JStr n => Some n | _ => None end) l /\ a ∉ object_members) ->
      assoc a (sv_actions (fold_left (add_spec_action compile doc) l sp).1) <> None).
  { induction l as [|sa l IH]; intros sp [Hs|[Hin Hm]]; [done|by apply not_elem_of_nil in Hin|..]; cbn [fold_left]; apply IH.
    - left. apply add_spec_action_place. by left.
    - cbn in Hin. destruct (jget "name" sa) as [| | | | |n| |] eqn:Hn; try (by right).
      apply elem_of_cons in Hin as [<-|Hin]; [|by right]. left. apply add_spec_action_place. right. by rewrite Hn. }
  intros Ha. destruct (jget "actionList" spec); apply H; try done; destruct Ha as [Ha|[Ha _]]; auto; by apply not_elem_of_nil in Ha.
Qed.

Definition has_place (services : list (string * service)) (urn a : string) : Prop :=
  exists s, assoc urn services = Some s /\ assoc a (sv_actions s) <> None.

Lemma add_service_place compile doc urn a id_spec services ps services' ps' :
  add_service compile doc (Some (services, ps)) id_spec = Some (services', ps') ->
  has_place services urn a \/ (id_spec.1 = urn /\ a ∈ actionNamesOf id_spec.2 /\ a ∉ object_members) ->
  has_place services' urn a.
Proof.
  destruct id_spec as [id spec]. unfold add_service. intros Hadd Hor. cbn [fst snd] in *.
  destruct (assoc id services) as [s|] eqn:Hs.
  - pose proof (updateSpec_place compile doc spec a s) as Hp. destruct (updateSpec compile doc spec s) as [s' ps1].
    injection Hadd as <- _. unfold has_place. rewrite assoc_set_lookup. cbn [fst] in Hp.
    destruct (String.eqb_spec urn id) as [->|Hne].
    + exists s'. split; [done|]. apply Hp. destruct Hor as [(s0 & Hs0 & ?)|(_ & ? & ?)]; [left|by right].
      rewrite Hs in Hs0. by injection Hs0 as ->.
    + destruct Hor as [Hor|[-> _]]; done.
  - destruct (includes id object_members); [done|]. unfold Service_ in Hadd.
    pose proof (updateSpec_place compile doc spec a (mkService [])) as Hp.
    destruct (updateSpec compile doc spec (mkService [])) as [s' ps1]. injection Hadd as <- _. unfold has_place.
    rewrite assoc_app. destruct Hor as [(s0 & Hs0 & ?)|(<- & ? & ?)].
    + rewrite Hs0. by exists s0.
    + rewrite Hs. cbn. rewrite String.eqb_refl. exists s'. split; [done|]. apply Hp. by right.
Qed.

Lemma initServices_place compile doc l : forall services ps services' ps' urn a,
  fold_left (add_service compile doc) l (Some (services, ps)) = Some (services', ps') ->
  has_place services urn a \/ (exists spec, (urn, spec) ∈ l /\ a ∈ actionNamesOf spec /\ a ∉ object_members) ->
  has_place services' urn a.
Proof.
  induction l as [|id_spec l IH]; intros services ps services' ps' urn a Hf Hor.
  - injection Hf as <- _. destruct Hor as [?|(? & Hin & _)]; [done|by apply not_elem_of_nil in Hin].
  - cbn [fold_left] in Hf. destruct (add_service compile doc (Some (services, ps)) id_spec) as [[s1 ps1]|] eqn:Hadd.
    + apply (IH s1 ps1 services' ps'); [done|].
      destruct Hor as [?|(spec & [<-|Hin]%elem_of_cons & Ha)].
      * left. eapply add_service_place; [exact Hadd|by left].
      * left. eapply add_service_place; [exact Hadd|right; by split].
      * right. by exists spec.
    + exfalso. clear -Hf. induction l as [|y l IH]; [done|]. by apply IH.
Qed.

(** ** The checked map, assembled *)

(** The keys of a plain object and of each of its services are distinct. *)
Definition own_keys_distinct (x : exported) : Prop :=
  NoDup (map fst (x_services x)) /\
  forall short own chain, (short, Actions own chain) ∈ x_services x -> NoDup (map fst own).

(** The handler a map has of its own for an action. *)
Definition own_handler (x : exported) (short a : string) : option handler :=
  match assoc short (x_services x) with
  | Some (Actions own _) => match assoc a own with Some h => h | None => None end
  | _ => None
  end.

Lemma index_short spec short urns urn :
  assoc short (buildServiceIndex spec) = Some urns ->
  (urn ∈ urns -> shortNameOf urn = Some short) /\
  (urn ∈ map fst (declared_services spec) -> shortNameOf urn = Some short -> urn ∈ urns).
Proof.
  unfold buildServiceIndex. set (l := map fst (declared_services spec)).
  assert (H : forall index seen,
    (forall s us u, assoc s index = Some us -> u ∈ us -> shortNameOf u = Some s) ->
    (forall u s, u ∈ seen -> shortNameOf u = Some s -> exists us, assoc s index = Some us /\ u ∈ us) ->
    (forall s us u, assoc s (fold_left index_add l index) = Some us -> u ∈ us -> shortNameOf u = Some s) /\
    (forall u s, u ∈ seen ++ l -> shortNameOf u = Some s ->
       exists us, assoc s (fold_left index_add l index) = Some us /\ u ∈ us)).
  { induction l as [|u0 l IH]; intros index seen H1 H2; [by rewrite app_nil_r|]. cbn [fold_left].
    replace (seen ++ u0 :: l) with ((seen ++ [u0]) ++ l) by by rewrite <-app_assoc.
    apply IH; unfold index_add; destruct (shortNameOf u0) as [s0|] eqn:E0; try done.
    - intros s us u. rewrite assoc_set_lookup. case_match; bool_hyps; subst; [|by apply H1].
      intros [= <-] [Hu|Hu]%elem_of_app; [|by apply list_elem_of_singleton in Hu as ->].
      destruct (assoc s0 index) as [us|] eqn:Ha; [by apply (H1 s0 us)|by apply not_elem_of_nil in Hu].
    - intros u s [Hu|Hu%list_elem_of_singleton]%elem_of_app Hs; rewrite assoc_set_lookup; case_match; bool_hyps; subst.
      + destruct (H2 u s0 Hu Hs) as (us & -> & Hin). eexists. split; [done|]. cbn. set_solver.
      + by apply H2.
      + eexists. split; [done|]. set_solver.
      + congruence.
    - intros u s [Hu|Hu%list_elem_of_singleton]%elem_of_app Hs; [by apply H2|congruence]. }
  intros Ha. destruct (H [] []) as [H1 H2]; [by intros ? ? ?|by intros ? ? ?%not_elem_of_nil|]. split; [by apply H1|].
  intros Hu Hs. destruct (H2 urn short Hu Hs) as (us & Hus & Hin). rewrite Ha in Hus. by injection Hus as ->.
Qed.

Lemma settings_own spec x short urn a h :
  lines_up spec x -> own_keys_distinct x -> shortNameOf urn = Some short ->
  urn ∈ map fst (declared_services spec) -> own_handler x short a = Some h ->
  (urn, a, h) ∈ flat_map (settings (buildServiceIndex spec)) (x_services x) /\
  forall h', (urn, a, h') ∈ flat_map (settings (buildServiceIndex spec)) (x_services x) -> h' = h.
Proof.
  intros Hlu [Hk Hown] Hs Hurn Hh. unfold own_handler in Hh.
  destruct (assoc short (x_services x)) as [[own chain|]|] eqn:Hx; [|done..].
  destruct (assoc a own) as [fh|] eqn:Ha; [|done]. subst fh. apply assoc_elem in Hx as Hin, Ha as Hina.
  destruct (lu_keys _ _ Hlu short _ Hin) as (urn' & Hi & _).
  assert (urn' = urn) as ->.
  { pose proof (proj2 (index_short spec short [urn'] urn Hi) Hurn Hs) as Hu. by apply list_elem_of_singleton in Hu. }
  split.
  - apply list_elem_of_In, in_flat_map. exists (short, Actions own chain). split; [by apply list_elem_of_In|].
    apply list_elem_of_In. unfold settings. cbn [fst snd]. rewrite Hi. apply list_elem_of_omap. by exists (a, Some h).
  - intros h' Hin'. apply list_elem_of_In, in_flat_map in Hin' as ([short' svc'] & Hsvc%list_elem_of_In & Hset%list_elem_of_In).
    unfold settings in Hset. cbn [fst snd] in Hset.
    destruct (assoc short' (buildServiceIndex spec)) as [[|u us]|] eqn:Hi'; try by apply not_elem_of_nil in Hset.
    destruct svc' as [own' chain'|]; [|by apply not_elem_of_nil in Hset].
    apply list_elem_of_omap in Hset as ([a' [h0|]] & Hown' & [= -> -> ->]).
    pose proof (proj1 (index_short spec short' _ urn Hi') ltac:(left)) as Hs'. rewrite Hs in Hs'. injection Hs' as <-.
    pose proof (assoc_distinct _ _ _ Hk Hsvc) as Hx'. rewrite Hx in Hx'. injection Hx' as <- <-.
    pose proof (assoc_distinct _ _ _ (Hown _ _ _ Hin) Hown') as Ha'. rewrite Ha in Ha'. by injection Ha'.
Qed.

(** A module whose handler map does not line up with its api.json in both
    directions is refused with every mismatch named; one that does becomes a
    device on which each declared action has a place, and the handler the map
    has for that service and action, and no other, is what it runs. *)
Theorem assembled_actions_run compile rootSchema spec x moduleName source g :
  own_keys_distinct x ->
  match assemble compile rootSchema spec x moduleName source g with
  | inl e =>
      ~ lines_up spec x /\ c_code e = JStr "MODULE_HANDLER_MISMATCH" \/
      initServices compile (mkDevice rootSchema []) spec = None
  | inr (g', d) =>
      lines_up spec x /\
      forall urn service a, (urn, service) ∈ declared_services spec -> a ∈ actionNamesOf service -> a ∉ object_members ->
        exists short, shortNameOf urn = Some short /\ invoke_at d urn a <> None /\
          forall h, own_handler x short a = Some h -> invoke_at d urn a = Some (Some h)
  end.
Proof.
  intros Hx. unfold assemble. destruct (validateHandlerMap spec x moduleName) as [|p ps] eqn:Hv.
  2: { left. split; [|done]. intros Hlu%(validate_lines_up spec x moduleName). congruence. }
  apply validate_lines_up in Hv. destruct (initServices compile (mkDevice rootSchema []) spec) as [[d0 ps0]|] eqn:Hi; [|by right].
  destruct (wire spec x (g, d0)) as [g' d] eqn:Hw. split; [done|]. intros urn service a Hin Ha Hm.
  destruct (lu_declared _ _ Hv urn service Hin) as (short & actions & Hs & _ & _). exists short. split; [done|].
  assert (Hplace : invoke_at d0 urn a <> None).
  { unfold initServices in Hi. unfold declared_services, serviceList_of in Hin. destruct (is_nullish _) eqn:Hn.
    { destruct (jget "serviceList" (jget "device" spec)); try done; by apply not_elem_of_nil in Hin. }
    destruct (fold_left _ _ _) as [[services ps]|] eqn:Hf; [|done]. injection Hi as <- _.
    destruct (initServices_place compile rootSchema _ _ _ _ _ urn a Hf) as (s & Hs' & Hp); [right; by exists service|].
    unfold invoke_at. cbn. rewrite Hs'. by destruct (assoc a (sv_actions s)). }
  rewrite wire_settings in Hw.
  destruct (set_all_at urn a (flat_map (settings (buildServiceIndex spec)) (x_services x)) (g, d0) Hplace) as [H1 H2].
  rewrite Hw in H1, H2. split; [done|]. intros h Hh.
  destruct (settings_own spec x short urn a h Hv Hx Hs) as [H3 H4]; [by apply (list_elem_of_fmap_2 fst _ (urn, service))|done|].
  apply H2; [exact H4|by left].
Qed.

(** ** Concrete maps *)

Definition demo_api : jsval :=
  JObj [("device", JObj [("serviceList", JObj [("urn:demo:serviceID:echo",
    JObj [("actionList", JArr [JObj [("name", JStr "say")]])])])])].

Definition demo_map : exported := mkExported true [("echo", Actions [("say", Some "say.js")] [])] [].

(** A service given as an instance of a class: its methods are on its
    prototype. *)
Definition demo_class_map : exported := mkExported true [("echo", Actions [] ["say"])] [].

Lemma assembled_actions_run_witness :
  exists g d, assemble demo_compile JUndef demo_api demo_map "demo" "module export" [] = inr (g, d) /\
    invoke_at d "urn:demo:serviceID:echo" "say" = Some (Some "say.js").
Proof.
  assert (Hx : own_keys_distinct demo_map).
  { split; [by apply NoDup_singleton|]. intros short own chain [= _ -> _]%list_elem_of_singleton. by apply NoDup_singleton. }
  pose proof (assembled_actions_run demo_compile JUndef demo_api demo_map "demo" "module export" [] Hx) as H.
  destruct (assemble demo_compile JUndef demo_api demo_map "demo" "module export" []) as [e|[g d]] eqn:E; [by vm_compute in E|].
  exists g, d. split; [done|]. destruct H as [_ H].
  destruct (H "urn:demo:serviceID:echo" (JObj [("actionList", JArr [JObj [("name", JStr "say")]])]) "say") as (short & Hs & _ & Hh).
  - by left.
  - by left.
  - by vm_compute; intros Hin; repeat (apply elem_of_cons in Hin as [Hin|Hin]; [done|]); apply not_elem_of_nil in Hin.
  - vm_compute in Hs. injection Hs as <-. by apply Hh.
Defined.

(** Such a map passes the check in both directions, as no own member
    contradicts it and a method of the prototype is a function; but only own
    members are wired, so the declared action is never implemented. *)
Theorem class_service_unwired :
  validateHandlerMap demo_api demo_class_map "demo" = [] /\
  match assemble demo_compile JUndef demo_api demo_class_map "demo" "module export" [] with
  | inr (g, d) => deviceControl g d (JStr "urn:demo:serviceID:echo") (JStr "say") (JObj []) =
                    Answer (DeviceError "ACTION_NOT_IMPLEMENTED" [JStr "say"]) JNull
  | inl _ => False
  end.
Proof. by vm_compute. Qed.
