(* ===== verification/DeviceList.v ===== *)
(** * A module's devices, listed and checked (lib/device-manager.js:
    onQueryDeviceList, resolveSchemaInfo; lib/module-manager.js:
    getModuleDeviceListByName, onQueryDeviceListResult)

    What an operator is shown of a module: each device's spec with the schemas
    its actions were loaded with in place of the pointers, or what is wrong with
    it. An action's input, output and fault are objects, as a validated spec's
    are. The map's entries are device objects where modules run in the main
    thread; the workers that stand for devices otherwise have no [module]
    member, so that there is nothing to list. *)
From Stdlib Require Import ZArith Lia Ascii String.
From stdpp Require Import prelude strings.
From S2P Require Import Prelude Json Errors Service.

Set Default Proof Using "Type".

(** An entry of the map: is it the module's, its spec, its last error's message
    and its services. *)
Record entry := mkEntry { en_ours : bool; en_spec : jsval; en_lastError : option string; en_services : list (string * service) }.

(** How a check ends; what an exception says is what V8 does. *)
Inductive status := Fine | Bad (message : string) | Threw (message : string).

Definition cannot_read (what of_ : string) : string := "Cannot read properties of " +:+ of_ +:+ " (reading '" +:+ what +:+ "')".
Definition nullish_text (v : jsval) : string := match v with JNull => "null" | _ => "undefined" end.

Definition SCHEMA_KEYS : list direction := [Input; Output; Fault].

Definition loaded_schema (a : option action) (k : direction) : option schema_obj := match a with Some a => schema_of k a | None => None end.

(** One key of one action: the copy with the schema in place of its pointer, and
    whether the schema's root type will do. *)
Definition check_key (serviceID : string) (loaded : option action) (a : jsval) (k : direction) : jsval * status :=
  let v := jget (key_name k) a in
  if is_nullish v then (a, Fine)
  else match loaded_schema loaded k with
       | None => (a, Threw (match loaded with Some _ => cannot_read "schema" "null" | None => cannot_read (key_name k) "undefined" end))
       | Some so =>
           if is_undef (so_schema so) then (a, Threw (in_quotes "undefined" +:+ " is not valid JSON"))
           else
             let v := with_member "schema" (json_copy (so_schema so)) v in
             let a := with_member (key_name k) v a in
             match k with
             | Fault => (a, Fine)
             | _ =>
                 let s := jget "schema" v in
                 if is_nullish s then (a, Threw (cannot_read "type" (nullish_text s)))
                 else if strict_eq (jget "type" s) (JStr "object") || strict_eq (jget "type" s) (JStr "array") then (a, Fine)
                 else (a, Bad ("schema root type must be either object or array: " +:+ serviceID +:+ "/" +:+ js_text (jget "name" a) +:+ "/" +:+ key_name k))
             end
       end.

Fixpoint check_keys (serviceID : string) (loaded : option action) (a : jsval) (ks : list direction) : jsval * status :=
  match ks with
  | [] => (a, Fine)
  | k :: ks => match check_key serviceID loaded a k with
               | (a, Fine) => check_keys serviceID loaded a ks
               | r => r
               end
  end.

Definition lookup_loaded (s : option service) (name : string) : option action :=
  match s with Some s => assoc name (sv_actions s) | None => None end.

(** The actions of one service, to the first that is not in order. *)
Fixpoint check_actions (serviceID : string) (s : option service) (actions : list jsval) : list jsval * status :=
  match actions with
  | [] => ([], Fine)
  | a :: actions =>
      match s with
      | None => (a :: actions, Threw (cannot_read "actions" "undefined"))
      | Some _ =>
          if is_nullish a then (a :: actions, Threw (cannot_read "name" (nullish_text a)))
          else match check_keys serviceID (lookup_loaded s (js_text (jget "name" a))) a SCHEMA_KEYS with
               | (a, Fine) => let '(actions, st) := check_actions serviceID s actions in (a :: actions, st)
               | (a, st) => (a :: actions, st)
               end
      end
  end.

(** A service whose actionList is an array, as a validated spec's is. *)
Definition check_service (services : list (string * service)) (serviceID : string) (spec : jsval) : jsval * status :=
  match jget "actionList" spec with
  | JArr actions => let '(actions, st) := check_actions serviceID (assoc serviceID services) actions in
                    (with_member "actionList" (JArr actions) spec, st)
  | v => (spec, if is_nullish spec then Threw (cannot_read "actionList" (nullish_text spec))
                else if is_nullish v then Threw (cannot_read "length" (nullish_text v)) else Fine)
  end.

Fixpoint check_services (services : list (string * service)) (list_ : list (string * jsval)) : list (string * jsval) * status :=
  match list_ with
  | [] => ([], Fine)
  | (id, s) :: rest =>
      match check_service services id s with
      | (s, Fine) => let '(rest, st) := check_services services rest in ((id, s) :: rest, st)
      | (s, st) => ((id, s) :: rest, st)
      end
  end.

(** [resolveSchemaInfo], on the copy of a spec with a device. *)
Definition resolveSchemaInfo (services : list (string * service)) (spec : jsval) : jsval * status :=
  let device := jget "device" spec in
  if is_nullish device then (spec, Threw (cannot_read "serviceList" (nullish_text device)))
  else match jget "serviceList" device with
       | JObj kvs => let '(kvs, st) := check_services services kvs in
                     (with_member "device" (with_member "serviceList" (JObj kvs) device) spec, st)
       | _ => (spec, Fine)
       end.

Record info := mkInfo { di_message : jsval; di_spec : jsval }.

(** One device: what is shown, and whether it is in error. *)
Definition info_of (e : entry) : info * bool :=
  let copy := json_copy (en_spec e) in
  match en_lastError e with
  | Some m => (mkInfo (JStr m) copy, true)
  | None => match resolveSchemaInfo (en_services e) copy with
            | (spec, Fine) => (mkInfo JNull spec, false)
            | (spec, Bad m) | (spec, Threw m) => (mkInfo (JStr m) spec, true)
            end
  end.

(** [onQueryDeviceList]: [hasError] is what the last device of the module set. *)
Definition onQueryDeviceList (devices : list entry) : list info * bool :=
  fold_left (fun acc e => if en_ours e then let '(i, bad) := info_of e in (acc.1 ++ [i], bad) else acc) devices ([], false).

Inductive answered := Shown (err : option cherr) (packageInfo : jsval) (deviceList : list info) | Failed (e : cherr).

(** [onQueryDeviceListResult] *)
Definition onQueryDeviceListResult (err : option cherr) (l : list info) (packageInfo : jsval) : answered :=
  if is_nullish packageInfo || is_nullish (jget "name" packageInfo) then Failed (CHError "MODULE_PACKAGE_INFO_INVALID" [])
  else Shown err packageInfo l.

Definition query_device_list (devices : list entry) (packageInfo : jsval) : answered :=
  let '(l, hasError) := onQueryDeviceList devices in
  onQueryDeviceListResult (if hasError then Some (CHError "MODULE_VERIFICATION_FAILED" []) else None) l packageInfo.

(** ** By a module's name *)

(** What the supervisor knows of a module, and a worker's violations. *)
Definition running_status : list (string * jsval) :=
  [("state", JStr "running"); ("lastReason", JNull); ("exits", JArr []); ("nextRestartAt", JNull)]%string.
Definition sandboxStatus (supervised : option (list (string * jsval))) (worker : option jsval) : jsval :=
  match supervised, worker with
  | None, None => JNull
  | _, _ => JObj (assoc_set "violations" (match worker with Some v => if is_nullish v then JNum 0 else v | None => JNum 0 end) (default running_status supervised))
  end.

Inductive listed := Listed (a : answered) (sandbox : option jsval) | UnknownModule.

(** [getModuleDeviceListByName]: is the module loaded, and by a worker? *)
Definition getModuleDeviceListByName (sandboxOff : bool) (loaded : option (option jsval)) (supervised : option (list (string * jsval)))
  (devices : list entry) (name : jsval) : listed :=
  match loaded with
  | None => match supervised with
            | Some _ => Listed (Shown None (JObj [("name"%string, name)]) []) (Some (sandboxStatus supervised None))
            | None => UnknownModule
            end
  | Some worker =>
      let a := query_device_list devices (JObj [("name"%string, name)]) in
      Listed a (match a with Shown _ _ _ => if sandboxOff then None else Some (sandboxStatus supervised worker) | Failed _ => None end)
  end.

(** ** What is listed *)

(** An action whose schemas are objects or missing. *)
Definition action_object (a : jsval) : Prop :=
  exists kvs, a = JObj kvs /\ forall k, is_nullish (jget (key_name k) a) = true \/ exists m, jget (key_name k) a = JObj m.

Definition resolved_key (loaded : option action) (a a' : jsval) (k : direction) : Prop :=
  if is_nullish (jget (key_name k) a) then jget (key_name k) a' = jget (key_name k) a
  else exists so, loaded_schema loaded k = Some so /\ jget "schema" (jget (key_name k) a') = json_copy (so_schema so).

Lemma check_key_fine id loaded a k a' : action_object a -> check_key id loaded a k = (a', Fine) ->
  action_object a' /\ resolved_key loaded a a' k /\ forall key, key <> key_name k -> jget key a' = jget key a.
Proof.
  intros (kvs & -> & Ho). unfold check_key, resolved_key. destruct (is_nullish _) eqn:En; [by intros [= <-]; split; [exists kvs|]|].
  destruct (Ho k) as [Hn|(m & Hm)]; [congruence|]. rewrite Hm. destruct (loaded_schema loaded k) as [so|]; [|by destruct loaded].
  destruct (is_undef (so_schema so)); [done|]. set (s := json_copy (so_schema so)). set (v := with_member "schema" s (JObj m)).
  assert (Hs : jget "schema" v = s) by (unfold v; by rewrite jget_with).
  assert (Hout : forall a1, a1 = with_member (key_name k) v (JObj kvs) -> action_object a1 /\
            (exists so0, Some so = Some so0 /\ jget "schema" (jget (key_name k) a1) = json_copy (so_schema so0)) /\
            forall key, key <> key_name k -> jget key a1 = jget key (JObj kvs)).
  { intros a1 ->. split; [|split].
    - exists (assoc_set (key_name k) v kvs). split; [done|]. intros k'. rewrite jget_with. destruct (String.eqb (key_name k') (key_name k)); [|apply Ho].
      right. by exists (assoc_set "schema" s m).
    - exists so. split; [done|]. by rewrite jget_with, String.eqb_refl.
    - intros key Hk. rewrite jget_with. apply String.eqb_neq in Hk. by rewrite Hk. }
  destruct k; [| |intros [= <-]; by apply Hout].
  all: destruct (is_nullish (jget "schema" v)); [done|]; destruct (_ || _); [|done]; intros [= <-]; by apply Hout.
Qed.

Lemma check_action_fine id loaded a a' : action_object a -> check_keys id loaded a SCHEMA_KEYS = (a', Fine) ->
  (forall k, resolved_key loaded a a' k) /\ jget "name" a' = jget "name" a.
Proof.
  intros Ha. unfold SCHEMA_KEYS. cbn [check_keys].
  destruct (check_key id loaded a Input) as [a1 [| |]] eqn:E1; try done. destruct (check_key_fine _ _ _ _ _ Ha E1) as (Ha1 & R1 & O1).
  destruct (check_key id loaded a1 Output) as [a2 [| |]] eqn:E2; try done. destruct (check_key_fine _ _ _ _ _ Ha1 E2) as (Ha2 & R2 & O2).
  destruct (check_key id loaded a2 Fault) as [a3 [| |]] eqn:E3; try done. destruct (check_key_fine _ _ _ _ _ Ha2 E3) as (_ & R3 & O3).
  intros [= <-]. unfold resolved_key in *. cbn [key_name] in *. split.
  - intros [| |]; cbn [key_name].
    + by rewrite (O3 "input"%string), (O2 "input"%string).
    + by rewrite (O1 "output"%string) in R2; [rewrite (O3 "output"%string)|].
    + by rewrite (O2 "fault"%string), (O1 "fault"%string) in R3.
  - by rewrite (O3 "name"%string), (O2 "name"%string), (O1 "name"%string).
Qed.

(** A service as it is shown: the same actions, each with the schemas that were
    loaded for it. *)
Definition shown_service (services : list (string * service)) (s s' : string * jsval) : Prop :=
  s'.1 = s.1 /\
  forall actions, jget "actionList" s.2 = JArr actions -> Forall action_object actions ->
    exists actions', jget "actionList" s'.2 = JArr actions' /\
      Forall2 (fun a a' => jget "name" a' = jget "name" a /\
                           forall k, resolved_key (lookup_loaded (assoc s.1 services) (js_text (jget "name" a))) a a' k) actions actions'.

Lemma check_actions_fine id s actions actions' : Forall action_object actions -> check_actions id s actions = (actions', Fine) ->
  Forall2 (fun a a' => jget "name" a' = jget "name" a /\ forall k, resolved_key (lookup_loaded s (js_text (jget "name" a))) a a' k) actions actions'.
Proof.
  intros Ha. revert actions'. induction Ha as [|a actions Ha _ IH]; intros actions'; cbn [check_actions]; [by intros [= <-]|].
  destruct s as [s|]; [|done]. destruct (is_nullish a); [done|]. destruct (check_keys _ _ _ _) as [a1 [| |]] eqn:E; try done.
  destruct (check_actions id (Some s) actions) as [rest st]. intros [= <- ->]. apply check_action_fine in E as [Hk Hn]; [|done].
  constructor; [done|by apply IH].
Qed.

Lemma check_services_fine services l l' : check_services services l = (l', Fine) -> Forall2 (shown_service services) l l'.
Proof.
  revert l'. induction l as [|[id s] l IH]; intros l'; cbn [check_services]; [by intros [= <-]|].
  destruct (check_service services id s) as [s1 [| |]] eqn:E; try done. destruct (check_services services l) as [rest st].
  intros [= <- ->]. constructor; [|by apply IH]. split; [done|]. cbn [fst snd]. intros actions Hl Ha. unfold check_service in E. rewrite Hl in E.
  destruct (check_actions id (assoc id services) actions) as [actions' st] eqn:Ec. injection E as <- ->. exists actions'.
  split; [|by apply (check_actions_fine id)]. destruct s as [| | | | | | |kvs]; try done. by rewrite jget_with.
Qed.

Definition ours (devices : list entry) : list entry := List.filter en_ours devices.

Lemma listed_from devices acc : fold_left (fun acc e => if en_ours e then let '(i, bad) := info_of e in (acc.1 ++ [i], bad) else acc) devices acc =
  (acc.1 ++ map (fun e => (info_of e).1) (ours devices), match last (ours devices) with Some e => (info_of e).2 | None => acc.2 end).
Proof.
  revert acc. induction devices as [|e devices IH]; intros acc; [cbn; rewrite app_nil_r; by destruct acc|].
  cbn [fold_left ours List.filter]. fold (ours devices). destruct (en_ours e); [|apply IH].
  destruct (info_of e) as [i bad] eqn:Ei. rewrite IH. cbn [fst snd map]. rewrite Ei, <- app_assoc. cbn. f_equal.
  rewrite last_cons. destruct (last (ours devices)); [done|]. by rewrite Ei.
Qed.

(** The list has the module's devices, each once and in the map's order, and
    nothing of another module. A device is shown with no message exactly when it
    is in order; its spec then has, for each action of each service, the schemas
    the action was loaded with in place of the pointers, and their names as they
    were. Whether the whole is answered as an error is decided by the last device
    alone. *)
Theorem device_list_exact devices packageInfo :
  (onQueryDeviceList devices).1 = map (fun e => (info_of e).1) (ours devices) /\
  (forall e, di_message (info_of e).1 = JNull <-> (info_of e).2 = false) /\
  (forall e kvs, (info_of e).2 = false -> jget "serviceList" (jget "device" (json_copy (en_spec e))) = JObj kvs ->
     en_lastError e = None /\
     exists kvs', jget "serviceList" (jget "device" (di_spec (info_of e).1)) = JObj kvs' /\ Forall2 (shown_service (en_services e)) kvs kvs') /\
  (is_nullish (jget "name" packageInfo) = false ->
     query_device_list devices packageInfo =
     Shown (match last (ours devices) with
            | Some e => if (info_of e).2 then Some (CHError "MODULE_VERIFICATION_FAILED" []) else None
            | None => None
            end) packageInfo (map (fun e => (info_of e).1) (ours devices))).
Proof.
  unfold query_device_list, onQueryDeviceList. rewrite listed_from. cbn [fst snd app]. split; [done|]. split; [|split].
  - intros e. unfold info_of. destruct (en_lastError e); [done|]. by destruct (resolveSchemaInfo _ _) as [spec [| |]].
  - intros e kvs. unfold info_of. destruct (en_lastError e); [done|]. unfold resolveSchemaInfo. set (copy := json_copy (en_spec e)).
    intros Hf Hl. split; [done|]. revert Hf. destruct (is_nullish (jget "device" copy)) eqn:En; [by destruct (jget "device" copy)|]. rewrite Hl.
    destruct (check_services (en_services e) kvs) as [kvs' [| |]] eqn:Ec; try done. intros _. exists kvs'.
    split; [|by apply check_services_fine]. cbn [di_spec fst].
    destruct copy as [| | | | | | |cs]; try done. rewrite jget_with. cbn [String.eqb Ascii.eqb Bool.eqb].
    destruct (jget "device" (JObj cs)) as [| | | | | | |ds]; try done. by rewrite jget_with.
  - intros Hn. assert (Hp : is_nullish packageInfo = false) by (by destruct packageInfo). unfold onQueryDeviceListResult. rewrite Hp, Hn. cbn.
    destruct (last (ours devices)) as [e|]; [|done]. by destruct (info_of e) as [? []].
Qed.

(** A device in error before one in order is answered as if all were in order. *)
Example last_device_decides :
  let broken := mkEntry true (JObj [("device"%string, JObj [])]) (Some "no action"%string) [] in
  let fine := mkEntry true (JObj [("device"%string, JObj [])]) None [] in
  let pkg := JObj [("name"%string, JStr "m")] in
  (exists l, query_device_list [broken; fine] pkg = Shown None pkg l) /\
  (exists l, query_device_list [fine; broken] pkg = Shown (Some (CHError "MODULE_VERIFICATION_FAILED" [])) pkg l).
Proof. split; eexists; reflexivity. Qed.
