(* ===== verification/WorkerMessage.v ===== *)
(** * Messages between the main thread and a module worker
    (lib/worker-message.js, and the replies lib/sandbox.js takes)

    Requests and replies correlated by a message id, in both directions; the
    end of a worker, which answers what was still waited for; and the rate at
    which a worker may send. One [wm] is one end of one worker's messages.
    A callback is known by a number; what it does is the caller's, except that
    it may throw: [raises] says so of each one called. *)
From Stdlib Require Import ZArith Lia Ascii String.
From stdpp Require Import prelude strings gmap.
From S2P Require Import Prelude Json Errors Service.

Set Default Proof Using "Type".
Local Open Scope Z_scope.

(** ** State *)

Record wm := mkWM {
  wm_queue : list (Z * nat);               (* msgQueue: id, callback *)
  wm_msgID : Z;
  wm_worker : bool;                        (* [this.worker != null] *)
  wm_ended : option (string * jsval * jsval);
  wm_messageRate : option Z;
  wm_rateTokens : Z;                       (* in thousandths of a message *)
  wm_rateRefillAt : Z;
  wm_selfInvalidate : bool;                (* selfInvalidateThisTurn *)
  wm_violationReports : Z
}.

Definition new_wm (worker : bool) (now : Z) : wm := mkWM [] 0 worker None None 0 now false 0.

Definition RATE_EXEMPT : list string := ["sandbox-violation"; "peer-self-invalidate"].
Definition MAX_VIOLATION_REPORTS : Z := 100.

(** Setters, one per field that changes alone. *)
Definition with_queue (q : list (Z * nat)) (w : wm) : wm :=
  mkWM q (wm_msgID w) (wm_worker w) (wm_ended w) (wm_messageRate w) (wm_rateTokens w) (wm_rateRefillAt w)
       (wm_selfInvalidate w) (wm_violationReports w).
Definition with_tokens (tokens at_ : Z) (w : wm) : wm :=
  mkWM (wm_queue w) (wm_msgID w) (wm_worker w) (wm_ended w) (wm_messageRate w) tokens at_ (wm_selfInvalidate w)
       (wm_violationReports w).
Definition with_invalidate (b : bool) (w : wm) : wm :=
  mkWM (wm_queue w) (wm_msgID w) (wm_worker w) (wm_ended w) (wm_messageRate w) (wm_rateTokens w) (wm_rateRefillAt w) b
       (wm_violationReports w).
Definition with_reports (n : Z) (w : wm) : wm :=
  mkWM (wm_queue w) (wm_msgID w) (wm_worker w) (wm_ended w) (wm_messageRate w) (wm_rateTokens w) (wm_rateRefillAt w)
       (wm_selfInvalidate w) n.

(** [wm.messageRate = rate; wm.rateTokens = rate] (module-manager.js) *)
Definition set_rate (rate : Z) (w : wm) : wm :=
  mkWM (wm_queue w) (wm_msgID w) (wm_worker w) (wm_ended w) (Some rate) (rate * 1000) (wm_rateRefillAt w)
       (wm_selfInvalidate w) (wm_violationReports w).

(** What a step does outside. *)
Inductive effect :=
| Post (command : jsval) (id : option Z) (body : jsval)
| CallBack (cb : nat) (err : option cherr) (data : jsval)
| Emit (event : string) (data : jsval)
| Exception_.

(** ** Main thread to worker *)

(** [delete this.msgQueue[id]] *)
Definition drop (id : Z) (q : list (Z * nat)) : list (Z * nat) := List.filter (fun e => negb (e.1 =? id)) q.

Definition pending_of (id : Z) (q : list (Z * nat)) : option nat := option_map snd (List.find (fun e => e.1 =? id) q).

(** [this.msgQueue[id] = callback; this.msgID++] *)
Definition register (cb : nat) (w : wm) : wm :=
  mkWM (wm_queue w ++ [(wm_msgID w, cb)]) (wm_msgID w + 1) (wm_worker w) (wm_ended w) (wm_messageRate w) (wm_rateTokens w)
       (wm_rateRefillAt w) (wm_selfInvalidate w) (wm_violationReports w).

Definition ended_error (e : string * jsval * jsval) : cherr := CHError e.1.1 [e.1.2; e.2].

(** [posts]: whether the message can be cloned, or [postMessage] throws. *)
Definition sendMessageToWorker (command : string) (body : jsval) (callback : option nat) (posts : bool) (w : wm)
  : wm * list effect :=
  match wm_ended w with
  | Some e => (w, match callback with Some cb => [CallBack cb (Some (ended_error e)) JNull] | None => [] end)
  | None =>
      if negb (wm_worker w) then (w, [])
      else match callback with
           | None => (w, [if posts then Post (JStr command) None body else Exception_])
           | Some cb =>
               (register cb w, [if posts then Post (JStr command) (Some (wm_msgID w)) body else Exception_])
           end
  end.

(** The requests of the main thread and their commands. *)
Inductive request :=
| LoadModule | ValidateModule | UnloadModule | SetOptions | SandboxPing | SetComposition | InvokeAction | GetSpec
| GetDeviceSchema | Discover | PeerChannelAllow.

Definition request_command (r : request) : string :=
  match r with
  | LoadModule => "load-module" | ValidateModule => "validate-module" | UnloadModule => "unload-module"
  | SetOptions => "set-options" | SandboxPing => "sandbox-ping" | SetComposition => "set-composition"
  | InvokeAction => "invoke-action" | GetSpec => "get-spec" | GetDeviceSchema => "get-schema"
  | Discover => "discover-device" | PeerChannelAllow => "peer-channel-allow"
  end.

(** Its replies to what the worker asked, with no callback. *)
Inductive reply_to_child :=
| DeviceQueryReply | DeviceLogReply | RedisCommandReply | GetJobInfoReply | PeerMeteringReply | ActionInvokeReply.

Definition reply_command (r : reply_to_child) : string :=
  match r with
  | DeviceQueryReply => "query-device-reply" | DeviceLogReply => "device-log-reply"
  | RedisCommandReply => "redis-command-reply" | GetJobInfoReply => "get-job-info-reply"
  | PeerMeteringReply => "peer-metering-reply" | ActionInvokeReply => "invoke-action-reply"
  end.

(** What peer channels tell a worker: posted as it is, ended or not. *)
Inductive peer_notice := PeerGrant | PeerDeny | PeerOpen | PeerInvalidate.

Definition notice_command (n : peer_notice) : string :=
  match n with
  | PeerGrant => "peer-channel-grant" | PeerDeny => "peer-channel-deny" | PeerOpen => "peer-channel-open"
  | PeerInvalidate => "peer-invalidate"
  end.

Definition sendNoticeToChild (n : peer_notice) (body : jsval) (w : wm) : list effect :=
  if wm_worker w then [Post (JStr (notice_command n)) None body] else [].

(** Callbacks called one after the other; one that throws ends it. *)
Fixpoint call_all (raises : nat -> bool) (cbs : list nat) (err : option cherr) (data : jsval) : list effect :=
  match cbs with
  | [] => []
  | cb :: rest =>
      CallBack cb err data :: (if raises cb then [Exception_] else call_all raises rest err data)
  end.

(** Object.keys of integer keys: in increasing order, which is the order the
    ids were given in. *)
Definition endWith (raises : nat -> bool) (code : string) (name reason : jsval) (w : wm) : wm * list effect :=
  match wm_ended w with
  | Some _ => (w, [])
  | None =>
      (mkWM [] (wm_msgID w) (wm_worker w) (Some (code, name, reason)) (wm_messageRate w) (wm_rateTokens w)
            (wm_rateRefillAt w) (wm_selfInvalidate w) (wm_violationReports w),
       call_all raises (map snd (wm_queue w)) (Some (CHError code [name; reason])) JNull)
  end.

(** ** Worker to main thread *)

(** A message of the worker: its id as sent, and its fields. *)
Record message := mkMsg {
  m_id : jsval;
  m_category : string;
  m_command : jsval;
  m_errMsg : jsval;
  m_errCode : jsval;
  m_data : jsval
}.

(** [this.msgQueue[id]]: an entry, a function every object has, another
    inherited member, or nothing. *)
Inductive queued := Entry (id : Z) (cb : nat) | Inherited (name : string) | Nothing.

Definition lookup_queue (id : jsval) (q : list (Z * nat)) : queued :=
  match List.find (fun e => String.eqb (Z_text e.1) (js_text id)) q with
  | Some (i, cb) => Entry i cb
  | None => if includes (js_text id) object_members && negb (String.eqb (js_text id) "__proto__")
            then Inherited (js_text id) else Nothing
  end.

(** The error of a reply: a plain one, with the code it came with. *)
Definition reply_error (m : message) : option cherr :=
  if is_nullish (m_errMsg m) then None
  else Some (mkCh KError (if is_nullish (m_errCode m) then JUndef else m_errCode m) [JStr (js_text (m_errMsg m))]).

(** The inherited functions that throw when called on nothing. *)
Definition throws_on_nothing (name : string) (with_error : bool) : bool :=
  includes name ["__defineGetter__"; "__defineSetter__"; "hasOwnProperty"; "__lookupGetter__"; "__lookupSetter__";
                 "propertyIsEnumerable"; "valueOf"; "toLocaleString"] ||
  (String.eqb name "isPrototypeOf" && with_error).

Definition on_reply (raises : nat -> bool) (m : message) (w : wm) : wm * list effect :=
  match lookup_queue (m_id m) (wm_queue w) with
  | Nothing => (w, [])
  | Inherited name =>
      (w, if throws_on_nothing name (negb (is_nullish (m_errMsg m))) then [Exception_] else [])
  | Entry id cb =>
      if raises cb then (w, [CallBack cb (reply_error m) (m_data m); Exception_])
      else (with_queue (drop id (wm_queue w)) w, [CallBack cb (reply_error m) (m_data m)])
  end.

(** The continuous refill of the bucket. *)
Definition refilled (rate now : Z) (w : wm) : Z :=
  Z.min (rate * 1000) (wm_rateTokens w + (now - wm_rateRefillAt w) * rate).

Definition rate_limited_deny (m : message) : effect :=
  Post (JStr "peer-channel-deny") None
    (JObj [("targetDeviceID", if is_nullish (m_data m) then JNull else jget "targetDeviceID" (m_data m));
           ("errMsg", JStr "too many messages to the main thread (--moduleMessageRate)");
           ("errCode", JStr "RATE_LIMITED")]).

(** What passes the bucket: the new state, and whether the command is served. *)
Definition take_token (now : Z) (m : message) (w : wm) : wm * list effect * bool :=
  match wm_messageRate w with
  | None => (w, [], true)
  | Some rate =>
      if match m_command m with JStr c => includes c RATE_EXEMPT | _ => false end then (w, [], true)
      else
        let tokens := refilled rate now w in
        let w := with_tokens tokens now w in
        if tokens <? 1000 then
          if negb (wm_worker w) then (w, [], false)
          else if strict_eq (m_command m) (JStr "peer-channel-request") then
            (w, if wm_worker w then [rate_limited_deny m] else [], false)
          else (w, [Post (JStr "rate-limited-reply") None (JObj [("msgID", m_id m)])], false)
        else (with_tokens (tokens - 1000) now w, [], true)
  end.

(** The commands served by an event of their own name. *)
Definition RELAYED : list string :=
  ["querydevice"; "invokeforeignaction"; "devicelog"; "rediscommand"; "getjobinfo"; "peer-channel-request";
   "peer-metering-request"].

Definition relay_data (c : string) (m : message) : jsval :=
  if String.eqb c "querydevice" then JObj [("deviceID", m_data m); ("id", m_id m)]
  else JObj [("data", m_data m); ("id", m_id m)].

Definition serve_command (m : message) (w : wm) : wm * list effect :=
  match m_command m with
  | JStr c =>
      if includes c RELAYED then (w, [Emit c (relay_data c m)])
      else if String.eqb c "peer-self-invalidate" then
        if wm_selfInvalidate w then (w, [])
        else (with_invalidate true w, [Emit c (JObj [("id", m_id m)])])
      else if String.eqb c "sandbox-violation" then
        let n := wm_violationReports w + 1 in
        let w := with_reports n w in
        if MAX_VIOLATION_REPORTS + 1 <? n then (w, [])
        else (w, [Emit c (if MAX_VIOLATION_REPORTS <? n
                          then JObj [("rule", JStr "suppressed"); ("target", JStr "")] else m_data m)])
      else (w, [])
  | _ => (w, [])
  end.

Definition onWorkerMessage (raises : nat -> bool) (now : Z) (m : message) (w : wm) : wm * list effect :=
  if is_nullish (m_id m) then (w, [])
  else if strict_eq (m_id m) (JStr "deviceonline") then (w, [Emit "deviceonline" (m_data m)])
  else if strict_eq (m_id m) (JStr "jobprogress") then (w, [Emit "jobprogress" (m_data m)])
  else if String.eqb (m_category m) "reply" then on_reply raises m w
  else if String.eqb (m_category m) "child" then
    let '(w1, eff, served) := take_token now m w in
    if served : bool then let '(w2, eff2) := serve_command m w1 in (w2, eff ++ eff2) else (w1, eff)
  else (w, []).

(** [setImmediate(() => { this.selfInvalidateThisTurn = false; })] *)
Definition next_turn (w : wm) : wm := with_invalidate false w.

(** ** The worker's end *)

(** [sendActiveMessageToParent]: the queue keeps the callback even if the post
    throws. *)
Definition sendActiveMessageToParent (command : string) (data : jsval) (cb : nat) (posts : bool) (w : wm) : wm * list effect :=
  (register cb w, [if posts then Post (JStr command) (Some (wm_msgID w)) data else Exception_]).

(** The messages with no reply: an id of their own, and no entry. *)
Definition sendNotice (command : string) (data : jsval) (w : wm) : wm * list effect :=
  (mkWM (wm_queue w) (wm_msgID w + 1) (wm_worker w) (wm_ended w) (wm_messageRate w) (wm_rateTokens w) (wm_rateRefillAt w)
        (wm_selfInvalidate w) (wm_violationReports w),
   [Post (JStr command) (Some (wm_msgID w)) data]).

(** [sendMessageToParent(id, err, data)] *)
Definition sendMessageToParent (ErrorInfo : string -> option string) (id : jsval) (err : option cherr) (data : jsval) : message :=
  match err with
  | Some e => mkMsg id "reply" JNull (JStr (message_of ErrorInfo e)) (if truthy (c_code e) then c_code e else JNull) data
  | None => mkMsg id "reply" JNull JNull JNull data
  end.

(** A reply from the main thread, by its [msgID]: what the callback is given,
    or the refusals, which drop the entry whatever it is. *)
Inductive parent_reply :=
| Replies (errMsg errCode data : jsval)
| Refused (errMsg errCode : jsval)
| RateLimited.

Definition parent_error (r : parent_reply) : option cherr * jsval :=
  match r with
  | Replies errMsg errCode data =>
      if is_nullish errMsg then (None, data)
      else (Some (mkCh KError (if is_nullish errCode then JUndef else errCode) [JStr (js_text errMsg)]), data)
  | Refused errMsg errCode =>
      (Some (mkCh KError (if truthy errCode then errCode else JStr "REFUSED")
               [JStr (if truthy errMsg then js_text errMsg else "refused by the main thread")]), JNull)
  | RateLimited =>
      (Some (mkCh KError (JStr "RATE_LIMITED") [JStr "too many messages to the main thread (--moduleMessageRate)"]), JNull)
  end.

Definition on_parent_reply (raises : nat -> bool) (msgID : Z) (r : parent_reply) (w : wm) : wm * list effect :=
  match pending_of msgID (wm_queue w) with
  | None => (w, [])
  | Some cb =>
      let '(err, data) := parent_error r in
      if raises cb then (w, [CallBack cb err data; Exception_])
      else (with_queue (drop msgID (wm_queue w)) w, [CallBack cb err data])
  end.

(** ** Any sequence of events at the main thread's end *)

Inductive event :=
| Send (command : string) (body : jsval) (cb : option nat) (posts : bool)
| End_ (code : string) (name reason : jsval)
| Incoming (now : Z) (m : message)
| Turn.

Definition wstep (raises : nat -> bool) (ev : event) (w : wm) : wm * list effect :=
  match ev with
  | Send command body cb posts => sendMessageToWorker command body cb posts w
  | End_ code name reason => endWith raises code name reason w
  | Incoming now m => onWorkerMessage raises now m w
  | Turn => (next_turn w, [])
  end.

Fixpoint wrun (raises : nat -> bool) (w : wm) (evs : list event) : wm * list effect :=
  match evs with
  | [] => (w, [])
  | ev :: rest => let '(w1, e1) := wstep raises ev w in let '(w2, e2) := wrun raises w1 rest in (w2, e1 ++ e2)
  end.

Definition sent_callbacks (evs : list event) : list nat :=
  omap (fun ev => match ev with Send _ _ cb _ => cb | _ => None end) evs.

Definition calls (cb : nat) (effs : list effect) : nat :=
  length (List.filter (fun e => match e with CallBack c _ _ => bool_decide (c = cb) | _ => false end) effs).
Arguments calls : simpl never.

(** ** Lemmas *)

Lemma calls_app cb a b : calls cb (a ++ b) = (calls cb a + calls cb b)%nat.
Proof. unfold calls. by rewrite List.filter_app, length_app. Qed.

Lemma calls_one cb c err data : calls cb [CallBack c err data] = (if bool_decide (c = cb) then 1 else 0)%nat.
Proof. unfold calls. cbn. by case_bool_decide. Qed.

Lemma calls_nil cb : calls cb [] = 0%nat.
Proof. done. Qed.

Lemma calls_other cb e : match e with CallBack _ _ _ => false | _ => true end = true -> calls cb [e] = 0%nat.
Proof. by destruct e. Qed.

(** The queue's ids are distinct and below the next one. *)
Definition wm_ok (w : wm) : Prop :=
  NoDup (map fst (wm_queue w)) /\ Forall (fun e => 0 <= e.1 < wm_msgID w) (wm_queue w) /\ 0 <= wm_msgID w /\
  (wm_ended w <> None -> wm_queue w = []).

(** Which callbacks a queue holds, counted. *)
Definition waiting (cb : nat) (q : list (Z * nat)) : nat :=
  length (List.filter (fun e => bool_decide (e.2 = cb)) q).

Arguments waiting : simpl never.

Lemma waiting_app cb a b : waiting cb (a ++ b) = (waiting cb a + waiting cb b)%nat.
Proof. unfold waiting. by rewrite List.filter_app, length_app. Qed.

Lemma waiting_cons cb e q : waiting cb (e :: q) = ((if bool_decide (e.2 = cb) then 1 else 0) + waiting cb q)%nat.
Proof. unfold waiting. cbn. by case_bool_decide. Qed.

Lemma drop_other id q : id ∉ map fst q -> drop id q = q.
Proof.
  unfold drop. induction q as [|[i cb] q IH]; [done|]. cbn. intros Hin.
  destruct (Z.eqb_spec i id) as [->|]; [set_solver|]. cbn. f_equal. apply IH. set_solver.
Qed.

Lemma waiting_drop cb id cb0 q : NoDup (map fst q) -> (id, cb0) ∈ q ->
  waiting cb q = (waiting cb (drop id q) + if bool_decide (cb0 = cb) then 1 else 0)%nat.
Proof.
  induction q as [|[i c] q IH]; [by intros _ ?%not_elem_of_nil|]. cbn [map fst]. rewrite NoDup_cons. intros [Hi Hq] Hin.
  apply elem_of_cons in Hin as [[= -> ->]|Hin].
  - unfold drop at 1. cbn [List.filter fst]. rewrite Z.eqb_refl. cbn [negb]. fold (drop i q). rewrite (drop_other i q Hi).
    rewrite waiting_cons. cbn [snd]. lia.
  - unfold drop. cbn [List.filter fst]. destruct (Z.eqb_spec i id) as [->|]; cbn [negb].
    + destruct Hi. by apply (list_elem_of_fmap_2 fst _ (id, cb0)).
    + fold (drop id q). specialize (IH Hq Hin). rewrite !waiting_cons, IH. lia.
Qed.

Lemma drop_ok id q n : NoDup (map fst q) -> Forall (fun e : Z * nat => 0 <= e.1 < n) q ->
  NoDup (map fst (drop id q)) /\ Forall (fun e => 0 <= e.1 < n) (drop id q).
Proof. intros H1 H2. split; [by apply map_NoDup_filter|by apply Forall_filter_ok]. Qed.

Section callbacks.
(** Which callbacks throw. *)
Context (raises : nat -> bool).

(** A callback that throws was called. *)
Definition threw (effs : list effect) : Prop := exists c err data, raises c = true /\ CallBack c err data ∈ effs.

(** What there was to call and what there is left, with what was called: no
    callback is lost unless one threw, none is called and kept unless it
    throws, and none comes from nowhere. *)
Definition settled_by (cb before : nat) (effs : list effect) (after : nat) : Prop :=
  ((before <= calls cb effs + after)%nat \/ threw effs) /\
  (raises cb = false -> (calls cb effs + after <= before)%nat) /\
  (before = 0%nat -> calls cb effs = 0%nat /\ after = 0%nat).

Lemma settled_exact cb before effs after : (calls cb effs + after = before)%nat -> settled_by cb before effs after.
Proof. intros <-. split; [by left|]. split; [done|lia]. Qed.

Lemma threw_app a b : threw a \/ threw b -> threw (a ++ b).
Proof. intros [(c & err & d & Hc & Hin)|(c & err & d & Hc & Hin)]; exists c, err, d; rewrite elem_of_app; auto. Qed.

Lemma settled_by_app cb before1 e1 after1 sent2 e2 after2 :
  settled_by cb before1 e1 after1 -> settled_by cb (after1 + sent2) e2 after2 ->
  settled_by cb (before1 + sent2) (e1 ++ e2) after2.
Proof.
  intros (H1 & H2 & H3) (G1 & G2 & G3). unfold settled_by. rewrite calls_app. split; [|split].
  - destruct H1 as [H1|H1]; [|right; apply threw_app; by left]. destruct G1 as [G1|G1]; [left; lia|right; apply threw_app; by right].
  - intros Hr. specialize (H2 Hr). specialize (G2 Hr). lia.
  - intros Hz. destruct H3 as [-> ->]; [lia|]. destruct G3 as [-> ->]; [lia|]. done.
Qed.

Lemma call_all_settles cb cbs err data :
  settled_by cb (length (List.filter (fun c => bool_decide (c = cb)) cbs)) (call_all raises cbs err data) 0.
Proof.
  induction cbs as [|c cbs IH]; [by apply settled_exact|]. cbn [call_all].
  destruct (raises c) eqn:Ec.
  - unfold settled_by. change [CallBack c err data; Exception_] with ([CallBack c err data] ++ [Exception_]).
    rewrite calls_app, calls_one, calls_other by done. cbn [List.filter]. split; [|split].
    + right. exists c, err, data. split; [done|]. left.
    + case_bool_decide; subst; [congruence|lia].
    + case_bool_decide; cbn [length]; lia.
  - destruct IH as (H1 & H2 & H3). unfold settled_by.
    change (CallBack c err data :: call_all raises cbs err data) with ([CallBack c err data] ++ call_all raises cbs err data).
    rewrite calls_app, calls_one. cbn [List.filter]. split; [|split].
    + destruct H1 as [H1|H1]; [left; case_bool_decide; cbn [length]; lia|right; apply threw_app; by right].
    + intros Hr. specialize (H2 Hr). case_bool_decide; cbn [length]; lia.
    + case_bool_decide; cbn [length]; lia.
Qed.

Lemma waiting_snd cb q : length (List.filter (fun c => bool_decide (c = cb)) (map snd q)) = waiting cb q.
Proof. unfold waiting. induction q as [|e q IH]; [done|]. cbn. case_bool_decide; cbn; by rewrite IH. Qed.

(** What a step calls, and what it leaves waiting. *)
Lemma on_reply_calls m w cb : wm_ok w ->
  settled_by cb (waiting cb (wm_queue w)) (on_reply raises m w).2 (waiting cb (wm_queue (on_reply raises m w).1)) /\
  wm_ok (on_reply raises m w).1 /\ wm_worker (on_reply raises m w).1 = wm_worker w.
Proof.
  intros Hok. unfold on_reply, lookup_queue.
  destruct (List.find _ (wm_queue w)) as [[id c]|] eqn:Hf.
  - apply List.find_some in Hf as [Hin%list_elem_of_In _]. destruct Hok as (H1 & H2 & H3 & H4).
    destruct (raises c) eqn:Ec; cbn [fst snd].
    + split; [|done]. unfold settled_by. change [CallBack c ?e ?d; Exception_] with ([CallBack c e d] ++ [Exception_]).
      rewrite calls_app, calls_one, calls_other, (waiting_drop cb id c _ H1 Hin) by done. split; [left; lia|].
      split; case_bool_decide; subst; intros; try congruence; lia.
    + split.
      * apply settled_exact. rewrite calls_one, (waiting_drop cb id c _ H1 Hin). cbn [with_queue wm_queue]. lia.
      * destruct (drop_ok id _ _ H1 H2). split; [|done]. split_and!; cbn; try done. intros He. by rewrite (H4 He).
  - assert (Hidle : forall l, calls cb l = 0%nat -> settled_by cb (waiting cb (wm_queue w)) l (waiting cb (wm_queue w)))
      by (intros l Hl; apply settled_exact; by rewrite Hl).
    destruct (_ && _); (split; [apply Hidle|done]); [|done]. cbn [snd]. by destruct (throws_on_nothing _ _).
Qed.

Lemma take_token_calls now m w cb :
  let '(w1, effs, _) := take_token now m w in
  calls cb effs = 0%nat /\ wm_queue w1 = wm_queue w /\ wm_msgID w1 = wm_msgID w /\ wm_ended w1 = wm_ended w /\
  wm_worker w1 = wm_worker w.
Proof. unfold take_token. repeat case_match; simplify_eq; done. Qed.

Lemma serve_command_calls m w cb :
  calls cb (serve_command m w).2 = 0%nat /\ wm_queue (serve_command m w).1 = wm_queue w /\
  wm_msgID (serve_command m w).1 = wm_msgID w /\ wm_ended (serve_command m w).1 = wm_ended w /\
  wm_worker (serve_command m w).1 = wm_worker w.
Proof. unfold serve_command. repeat case_match; done. Qed.

Lemma onWorkerMessage_calls now m w cb : wm_ok w ->
  settled_by cb (waiting cb (wm_queue w)) (onWorkerMessage raises now m w).2
    (waiting cb (wm_queue (onWorkerMessage raises now m w).1)) /\
  wm_ok (onWorkerMessage raises now m w).1 /\ wm_worker (onWorkerMessage raises now m w).1 = wm_worker w.
Proof.
  intros Hok. assert (Hidle : forall l, calls cb l = 0%nat -> settled_by cb (waiting cb (wm_queue w)) l (waiting cb (wm_queue w)))
    by (intros l Hl; apply settled_exact; by rewrite Hl).
  unfold onWorkerMessage. destruct (is_nullish _); [by split; [apply Hidle|]|]. destruct (strict_eq _ _); [by split; [apply Hidle|]|].
  destruct (strict_eq _ _); [by split; [apply Hidle|]|]. destruct (String.eqb (m_category m) "reply"); [by apply on_reply_calls|].
  destruct (String.eqb (m_category m) "child"); [|by split; [apply Hidle|]].
  pose proof (take_token_calls now m w cb) as Ht. destruct (take_token now m w) as [[w1 e1] served].
  destruct Ht as (Hc & Hq & Hi & He & Hwk). unfold wm_ok in *. destruct served.
  - pose proof (serve_command_calls m w1 cb) as Hs. destruct (serve_command m w1) as [w2 e2]. cbn [fst snd] in *.
    destruct Hs as (Hc2 & Hq2 & Hi2 & He2 & Hw2). rewrite Hq2, Hi2, He2, Hw2, Hq, Hi, He.
    split; [apply Hidle; rewrite calls_app; lia|done].
  - cbn [fst snd]. rewrite Hq, Hi, He. by split; [apply Hidle|].
Qed.

Lemma send_calls command body cb0 posts w cb : wm_ok w -> wm_worker w = true ->
  let s := sendMessageToWorker command body cb0 posts w in
  (calls cb s.2 + waiting cb (wm_queue s.1) =
   waiting cb (wm_queue w) + match cb0 with Some c => if bool_decide (c = cb) then 1 else 0 | None => 0 end)%nat /\ wm_ok s.1.
Proof.
  intros (H1 & H2 & H3 & H4) Hw. unfold sendMessageToWorker. destruct (wm_ended w) as [e|] eqn:He.
  - destruct cb0; cbn [fst snd]; (split; [rewrite ?calls_one, ?calls_nil; lia|by split_and!; rewrite ?He]).
  - rewrite Hw. cbn [negb]. destruct cb0 as [c|]; cbn [fst snd]; [|by split; [rewrite calls_other by (by destruct posts); lia|split_and!; rewrite ?He]].
    split.
    + cbn [register wm_queue]. rewrite waiting_app, waiting_cons, calls_other by (by destruct posts). cbn [snd]. change (waiting cb []) with 0%nat. lia.
    + split_and!; cbn.
      * rewrite map_app. apply NoDup_snoc; [done|]. intros (e & Ee & Hin)%list_elem_of_fmap.
        apply (proj1 (Forall_forall _ _) H2) in Hin. cbn in Ee. lia.
      * apply Forall_app. split; [eapply Forall_impl; [exact H2|]; cbn; lia|]. apply Forall_singleton. cbn. lia.
      * lia.
      * by rewrite He.
Qed.

Lemma endWith_calls code name reason w cb : wm_ok w ->
  let s := endWith raises code name reason w in
  settled_by cb (waiting cb (wm_queue w)) s.2 (waiting cb (wm_queue s.1)) /\ wm_ok s.1 /\ wm_ended s.1 <> None.
Proof.
  intros (H1 & H2 & H3 & H4). unfold endWith. destruct (wm_ended w) as [e|] eqn:He; cbn [fst snd].
  - split; [by apply settled_exact|]. split; [by split_and!; rewrite ?He|by rewrite He].
  - split; [|split; [|done]].
    + cbn [wm_queue]. change (waiting cb []) with 0%nat. rewrite <-waiting_snd. apply call_all_settles.
    + split; [constructor|]. split; [constructor|]. done.
Qed.

Lemma wstep_calls ev w cb : wm_ok w -> wm_worker w = true ->
  let s := wstep raises ev w in
  settled_by cb (waiting cb (wm_queue w) + waiting cb (map (pair 0%Z) (sent_callbacks [ev]))) s.2 (waiting cb (wm_queue s.1)) /\
  wm_ok s.1 /\ wm_worker s.1 = true.
Proof.
  intros Hok Hw. destruct ev as [command body cb0 posts|code name reason|now m|]; cbn [wstep].
  - destruct (send_calls command body cb0 posts w cb Hok Hw) as [H1 H2]. split; [|split; [done|]].
    + apply settled_exact. rewrite H1. destruct cb0 as [c|]; cbn [sent_callbacks omap list_omap map]; rewrite ?waiting_cons; cbn [snd];
        change (waiting cb []) with 0%nat; lia.
    + unfold sendMessageToWorker. by repeat case_match.
  - destruct (endWith_calls code name reason w cb Hok) as (H1 & H2 & _). rewrite <-plus_n_O. split; [done|]. split; [done|].
    unfold endWith. by case_match.
  - destruct (onWorkerMessage_calls now m w cb Hok) as (H1 & H2 & H3). rewrite <-plus_n_O, H3. done.
  - rewrite <-plus_n_O. split; [by apply settled_exact|]. by destruct Hok as (? & ? & ? & ?).
Qed.

Lemma wrun_calls evs : forall w cb, wm_ok w -> wm_worker w = true ->
  let s := wrun raises w evs in
  settled_by cb (waiting cb (wm_queue w) + waiting cb (map (pair 0%Z) (sent_callbacks evs))) s.2 (waiting cb (wm_queue s.1)) /\
  wm_ok s.1 /\ wm_worker s.1 = true.
Proof.
  induction evs as [|ev evs IH]; intros w cb Hok Hw; cbn [wrun].
  { cbn [fst snd]. split; [apply settled_exact; apply plus_n_O|done]. }
  destruct (wstep_calls ev w cb Hok Hw) as (H1 & H2 & H3). destruct (wstep raises ev w) as [w1 e1]. cbn [fst snd] in *.
  destruct (IH w1 cb H2 H3) as (H4 & H5 & H6). destruct (wrun raises w1 evs) as [w2 e2]. cbn [fst snd] in *.
  split; [|done]. replace (sent_callbacks (ev :: evs)) with (sent_callbacks [ev] ++ sent_callbacks evs)
    by (by destruct ev as [? ? [?|] ?| | |]).
  rewrite map_app, waiting_app, Nat.add_assoc. by eapply settled_by_app.
Qed.
End callbacks.

Lemma waiting_none cb q : waiting cb q = 0%nat <-> cb ∉ map snd q.
Proof.
  induction q as [|e q IH]; [split; [by intros _ ?%not_elem_of_nil|done]|]. rewrite waiting_cons. cbn [map].
  rewrite not_elem_of_cons. case_bool_decide; split; intros; [lia|naive_solver|split; [congruence|by apply IH]|].
  apply IH. naive_solver.
Qed.

Lemma waiting_distinct cb q : NoDup (map snd q) -> (waiting cb q <= 1)%nat.
Proof.
  induction q as [|e q IH]; [unfold waiting; cbn; lia|]. cbn [map]. rewrite NoDup_cons, waiting_cons. intros [He Hq].
  case_bool_decide as E; [|by apply IH]. subst cb. by rewrite (proj2 (waiting_none e.2 q) He).
Qed.

Lemma Z_text_inj a b : 0 <= a -> 0 <= b -> Z_text a = Z_text b -> a = b.
Proof.
  intros Ha Hb. unfold Z_text. destruct (Z.ltb_spec a 0), (Z.ltb_spec b 0); try lia. intros E%nat_text_inj. lia.
Qed.

Lemma find_waiting_entry id cb w : wm_ok w -> (id, cb) ∈ wm_queue w -> lookup_queue (JNum id) (wm_queue w) = Entry id cb.
Proof.
  intros (H1 & H2 & _) Hin. unfold lookup_queue. cbn [js_text]. revert H1 H2 Hin.
  induction (wm_queue w) as [|[i c] q IH]; [by intros _ _ ?%not_elem_of_nil|]. cbn [map fst]. rewrite NoDup_cons, Forall_cons.
  intros [Hi Hq] [Hb Hbs] Hin. cbn [List.find fst]. cbn [fst] in Hb.
  assert (Hid : 0 <= id).
  { apply elem_of_cons in Hin as [[= -> ->]|Hin]; [lia|]. apply (proj1 (Forall_forall _ _) Hbs) in Hin. cbn in Hin. lia. }
  destruct (String.eqb_spec (Z_text i) (Z_text id)) as [E|Hne].
  - apply Z_text_inj in E as ->; [|lia..]. apply elem_of_cons in Hin as [[= ->]|Hin]; [done|].
    destruct Hi. by apply (list_elem_of_fmap_2 fst _ (id, cb)).
  - apply elem_of_cons in Hin as [[= -> ->]|Hin]; [done|]. by apply IH.
Qed.

Lemma calls_in cb err data effs : CallBack cb err data ∈ effs -> (1 <= calls cb effs)%nat.
Proof.
  intros (l1 & l2 & ->)%list_elem_of_split. change (l1 ++ CallBack cb err data :: l2) with (l1 ++ [CallBack cb err data] ++ l2).
  rewrite !calls_app, calls_one, bool_decide_eq_true_2 by done. lia.
Qed.

(** C31: Whatever the main thread sends a worker and the worker sends back, in
    any order, and whichever callbacks throw: a callback is only called for a
    request that was sent; one that does not throw is called at most once, and
    not while its request waits; a request that waits no longer has been
    answered, by the reply with its id or by the worker's end, unless a
    callback threw; where none throws, each callback is called exactly when
    its request waits no longer; and once the worker has ended nothing waits.
    What a throw costs: a callback that throws on a reply keeps its entry, and
    another reply with that id calls it again
    (throwing_callback_called_twice); one that throws at the worker's end
    leaves the requests after it unanswered (throw_at_end_drops_rest). *)
Theorem worker_requests_settle raises evs now0 :
  NoDup (sent_callbacks evs) ->
  let '(w, effs) := wrun raises (new_wm true now0) evs in
  (forall cb, (1 <= calls cb effs)%nat -> cb ∈ sent_callbacks evs) /\
  (forall cb, raises cb = false ->
     (calls cb effs <= 1)%nat /\ (cb ∈ map snd (wm_queue w) -> calls cb effs = 0%nat)) /\
  (forall cb, cb ∈ sent_callbacks evs -> cb ∉ map snd (wm_queue w) -> (1 <= calls cb effs)%nat \/ threw raises effs) /\
  ((forall cb, cb ∈ sent_callbacks evs -> raises cb = false) -> forall cb, calls cb effs =
     if bool_decide (cb ∈ sent_callbacks evs /\ cb ∉ map snd (wm_queue w)) then 1%nat else 0%nat) /\
  (wm_ended w <> None -> wm_queue w = []) /\
  (forall id cb now m, (id, cb) ∈ wm_queue w -> m_id m = JNum id -> m_category m = "reply" ->
     onWorkerMessage raises now m w =
       if raises cb then (w, [CallBack cb (reply_error m) (m_data m); Exception_])
       else (with_queue (drop id (wm_queue w)) w, [CallBack cb (reply_error m) (m_data m)])) /\
  (forall now m cb err data, CallBack cb err data ∈ (onWorkerMessage raises now m w).2 ->
     m_category m = "reply" /\ err = reply_error m /\ data = m_data m /\
     exists id, (id, cb) ∈ wm_queue w /\ js_text (m_id m) = Z_text id).
Proof.
  intros Hnd. assert (H0 : wm_ok (new_wm true now0)) by (split_and!; cbn; try done; constructor).
  pose proof (fun cb => wrun_calls raises evs (new_wm true now0) cb H0 eq_refl) as H.
  destruct (wrun raises (new_wm true now0) evs) as [w effs]. cbn [fst snd new_wm wm_queue] in H.
  destruct (H 0%nat) as (_ & Hok & _).
  set (sent := fun cb => waiting cb (map (pair 0%Z) (sent_callbacks evs))).
  assert (Hbal : forall cb, settled_by raises cb (sent cb) effs (waiting cb (wm_queue w))) by (intros cb; apply H).
  assert (Hsnd : map snd (map (pair 0%Z) (sent_callbacks evs)) = sent_callbacks evs) by (rewrite map_map; apply map_id).
  assert (Hle : forall cb, (sent cb <= 1)%nat) by (intros cb; apply waiting_distinct; by rewrite Hsnd).
  assert (Hs : forall cb, sent cb = 0%nat <-> cb ∉ sent_callbacks evs).
  { intros cb. unfold sent. by rewrite waiting_none, Hsnd. }
  assert (Hq : forall cb, waiting cb (wm_queue w) = 0%nat <-> cb ∉ map snd (wm_queue w)) by (intros cb; apply waiting_none).
  assert (Hcalled : forall cb, (1 <= calls cb effs)%nat -> cb ∈ sent_callbacks evs).
  { intros cb Hc. destruct (decide (cb ∈ sent_callbacks evs)) as [|Hn]; [done|]. apply Hs in Hn.
    destruct (Hbal cb) as (_ & _ & H3). specialize (H3 Hn). lia. }
  split; [done|]. split; [|split; [|split; [|split; [apply Hok|split]]]].
  - intros cb Hr. destruct (Hbal cb) as (_ & H2 & _). specialize (H2 Hr). specialize (Hle cb). split; [lia|].
    intros Hin. assert (waiting cb (wm_queue w) <> 0%nat) by (rewrite Hq; tauto). lia.
  - intros cb Hin Hout. destruct (Hbal cb) as ([H1|H1] & _); [|by right]. left. apply Hq in Hout.
    assert (sent cb <> 0%nat) by (rewrite Hs; tauto). lia.
  - intros Hno cb. destruct (Hbal cb) as (H1 & H2 & H3). specialize (Hle cb). case_bool_decide as Hb.
    + destruct Hb as [Hin Hout]. specialize (H2 (Hno cb Hin)). apply Hq in Hout.
      assert (sent cb <> 0%nat) by (rewrite Hs; tauto). destruct H1 as [H1|(c & err & data & Hc & Hcall)]; [lia|].
      rewrite (Hno c) in Hc; [done|]. apply Hcalled. by eapply calls_in.
    + destruct (decide (cb ∈ sent_callbacks evs)) as [Hin|Hout]; [|apply Hs, H3 in Hout; lia].
      specialize (H2 (Hno cb Hin)). assert (waiting cb (wm_queue w) <> 0%nat) by (rewrite Hq; tauto). lia.
  - intros id cb now m Hin Hid Hcat. unfold onWorkerMessage, on_reply. rewrite Hid, Hcat, (find_waiting_entry id cb w Hok Hin). done.
  - clear Hs. intros now m cb err data. unfold onWorkerMessage.
    destruct (is_nullish _); [by intros ?%not_elem_of_nil|].
    destruct (strict_eq _ _); [by intros ?%list_elem_of_singleton|]. destruct (strict_eq _ _); [by intros ?%list_elem_of_singleton|].
    destruct (String.eqb_spec (m_category m) "reply") as [Hr|].
    + unfold on_reply, lookup_queue. destruct (List.find _ _) as [[i c]|] eqn:Hf.
      * apply List.find_some in Hf as [Hin%list_elem_of_In Ht]. cbn [fst] in Ht. apply String.eqb_eq in Ht.
        destruct (raises c); (intros Hin'; assert (CallBack cb err data = CallBack c (reply_error m) (m_data m)) as [= -> -> ->] by (revert Hin'; cbn; rewrite ?elem_of_cons, elem_of_nil; naive_solver)); split_and!; try done; by exists i.
      * destruct (_ && _); [|by intros ?%not_elem_of_nil]. cbn. destruct (throws_on_nothing _ _);
          [by intros ?%list_elem_of_singleton|by intros ?%not_elem_of_nil].
    + destruct (String.eqb (m_category m) "child"); [|by intros ?%not_elem_of_nil].
      pose proof (take_token_calls now m w cb) as Ht. destruct (take_token now m w) as [[w1 e1] served].
      pose proof (serve_command_calls m w1 cb) as Hs. destruct (serve_command m w1) as [w2 e2]. cbn [fst snd] in *.
      assert (Hno : forall l, calls cb l = 0%nat -> ~ CallBack cb err data ∈ l) by (intros l Hl Hin; apply calls_in in Hin; lia).
      destruct served; [|intros Hin; by destruct (Hno e1 ltac:(tauto))].
      intros Hin. cbn [snd] in Hin. apply (Hno (e1 ++ e2)) in Hin; [done|]. rewrite calls_app. lia.
Qed.

(** A callback that throws when it is called with a reply keeps its place in
    the queue, so a worker that replies twice calls it twice. *)
Definition demo_reply (id : Z) : message := mkMsg (JNum id) "reply" JNull JNull JNull (JStr "done").

Example throwing_callback_called_twice :
  calls 7 (wrun (fun _ => true) (new_wm true 0)
    [Send "invoke-action" JNull (Some 7%nat) true; Incoming 1 (demo_reply 0); Incoming 2 (demo_reply 0)]).2 = 2%nat.
Proof. vm_compute. reflexivity. Qed.

(** At the worker's end the callbacks are called in a loop: one that throws
    ends it, and the callbacks after it, dropped already, are never called. *)
Example throw_at_end_drops_rest :
  let '(w, effs) := wrun (fun cb => Nat.eqb cb 7) (new_wm true 0)
    [Send "invoke-action" JNull (Some 7%nat) true; Send "invoke-action" JNull (Some 8%nat) true;
     End_ "MODULE_CRASHED" (JStr "m") JNull] in
  calls 7 effs = 1%nat /\ calls 8 effs = 0%nat /\ wm_queue w = [].
Proof. vm_compute. done. Qed.

(** ** The rate of a worker's messages *)

(** How many events of these names a run emits. *)
Definition emits (p : string -> bool) (effs : list effect) : Z :=
  Z.of_nat (length (List.filter (fun e => match e with Emit c _ => p c | _ => false end) effs)).
Arguments emits : simpl never.

Definition is_relayed (c : string) : bool := includes c RELAYED.

(** A clock that does not go back; the last time it shows. *)
Fixpoint clocked (t : Z) (evs : list event) : Prop :=
  match evs with
  | [] => True
  | Incoming now _ :: rest => t <= now /\ clocked now rest
  | _ :: rest => clocked t rest
  end.

Fixpoint last_time (t : Z) (evs : list event) : Z :=
  match evs with
  | [] => t
  | Incoming now _ :: rest => last_time now rest
  | _ :: rest => last_time t rest
  end.

Definition turns (evs : list event) : Z :=
  Z.of_nat (length (List.filter (fun ev => match ev with Turn => true | _ => false end) evs)).

Lemma emits_app p a b : emits p (a ++ b) = emits p a + emits p b.
Proof. unfold emits. rewrite List.filter_app, length_app. lia. Qed.

Lemma emits_nil p : emits p [] = 0.
Proof. done. Qed.

Lemma emits_one p c data : emits p [Emit c data] = if p c then 1 else 0.
Proof. unfold emits. cbn. by destruct (p c). Qed.

Lemma emits_none p effs : Forall (fun e => match e with Emit _ _ => false | _ => true end = true) effs -> emits p effs = 0.
Proof.
  induction effs as [|e effs IH]; [done|]. rewrite Forall_cons. intros [He Hs].
  change (e :: effs) with ([e] ++ effs). rewrite emits_app, (IH Hs). by destruct e.
Qed.

(** The fields the limits live in. *)
Definition limits_of (w : wm) : option Z * Z * Z * bool * Z :=
  (wm_messageRate w, wm_rateTokens w, wm_rateRefillAt w, wm_selfInvalidate w, wm_violationReports w).

Lemma send_emits command body cb posts w p :
  emits p (sendMessageToWorker command body cb posts w).2 = 0 /\
  limits_of (sendMessageToWorker command body cb posts w).1 = limits_of w.
Proof. unfold sendMessageToWorker. repeat case_match; done. Qed.

Lemma endWith_emits raises code name reason w p :
  emits p (endWith raises code name reason w).2 = 0 /\ limits_of (endWith raises code name reason w).1 = limits_of w.
Proof.
  unfold endWith. destruct (wm_ended w); [done|]. split; [|done]. apply emits_none. cbn [snd].
  induction (map snd (wm_queue w)) as [|cb cbs IH]; [constructor|]. cbn.
  constructor; [done|]. destruct (raises cb); [by repeat constructor|done].
Qed.

Lemma on_reply_emits raises m w p :
  emits p (on_reply raises m w).2 = 0 /\ limits_of (on_reply raises m w).1 = limits_of w.
Proof. unfold on_reply. repeat case_match; done. Qed.

(** One command that is served. *)
Lemma serve_emits m w :
  let s := serve_command m w in
  emits is_relayed s.2 = (if match m_command m with JStr c => is_relayed c | _ => false end then 1 else 0) /\
  wm_messageRate s.1 = wm_messageRate w /\ wm_rateTokens s.1 = wm_rateTokens w /\ wm_rateRefillAt s.1 = wm_rateRefillAt w /\
  emits (String.eqb "sandbox-violation") s.2 + Z.min (wm_violationReports w) 101 <= Z.min (wm_violationReports s.1) 101 /\
  emits (String.eqb "peer-self-invalidate") s.2 + (if wm_selfInvalidate w then 1 else 0) <= (if wm_selfInvalidate s.1 then 1 else 0).
Proof.
  unfold serve_command. cbv zeta. destruct (m_command m) as [| | | | |c| |]; try (cbn [fst snd]; rewrite !emits_nil; split_and!; done || lia).
  destruct (includes c RELAYED) eqn:Hr.
  - cbn [fst snd]. rewrite !emits_one. unfold is_relayed. rewrite Hr. apply includes_spec in Hr.
    assert (("sandbox-violation" =? c)%string = false /\ ("peer-self-invalidate" =? c)%string = false) as [-> ->].
    { unfold RELAYED in Hr. repeat (apply elem_of_cons in Hr as [->|Hr]; [done|]). by apply not_elem_of_nil in Hr. }
    split_and!; done || lia.
  - destruct (String.eqb_spec c "peer-self-invalidate") as [->|Hs].
    + destruct (wm_selfInvalidate w) eqn:Hw; cbn [fst snd]; rewrite ?emits_nil, ?emits_one; cbn; rewrite ?Hw; split_and!; done || lia.
    + destruct (String.eqb_spec c "sandbox-violation") as [->|Hv]; cbv zeta.
      * unfold MAX_VIOLATION_REPORTS. destruct (Z.ltb_spec (100 + 1) (wm_violationReports w + 1)); cbn [fst snd];
          rewrite ?emits_nil, ?emits_one; cbn; split_and!; done || lia.
      * cbn [fst snd]. rewrite !emits_nil. unfold is_relayed. rewrite Hr. split_and!; done || lia.
Qed.

Lemma take_token_emits now m w p : emits p (take_token now m w).1.2 = 0.
Proof. unfold take_token. by repeat case_match. Qed.

(** The bucket: what is spent and what is left is what there was and what came
    since; a command that is limited spends. *)
Lemma take_token_bucket rate now m w :
  wm_messageRate w = Some rate -> 0 <= rate -> 0 <= wm_rateTokens w -> wm_rateRefillAt w <= now ->
  let '(w1, _, served) := take_token now m w in
  let spent := if served && negb (match m_command m with JStr c => includes c RATE_EXEMPT | _ => false end) then 1000 else 0 in
  wm_messageRate w1 = Some rate /\ 0 <= wm_rateTokens w1 /\ wm_rateRefillAt w <= wm_rateRefillAt w1 <= now /\
  spent + wm_rateTokens w1 <= wm_rateTokens w + (wm_rateRefillAt w1 - wm_rateRefillAt w) * rate /\
  wm_selfInvalidate w1 = wm_selfInvalidate w /\ wm_violationReports w1 = wm_violationReports w.
Proof.
  intros Hr H0 Ht Hn. unfold take_token. rewrite Hr.
  destruct (match m_command m with JStr c => includes c RATE_EXEMPT | _ => false end) eqn:Hex; cbv zeta.
  - cbn. split_and!; try done; lia.
  - unfold refilled. assert (0 <= (now - wm_rateRefillAt w) * rate) by nia.
    destruct (Z.ltb_spec (Z.min (rate * 1000) (wm_rateTokens w + (now - wm_rateRefillAt w) * rate)) 1000).
    + repeat case_match; simplify_eq; cbn; split_and!; try done; lia.
    + cbn. split_and!; try done; lia.
Qed.

(** What the limits of a state leave to emit. *)
Record within (rate t0 : Z) (w : wm) (relayed violations invalidations turns_ t : Z) : Prop := {
  wi_rate : wm_messageRate w = Some rate;
  wi_tokens : 0 <= wm_rateTokens w;
  wi_time : t0 <= wm_rateRefillAt w <= t;
  wi_relayed : 1000 * relayed + wm_rateTokens w <= rate * 1000 + (wm_rateRefillAt w - t0) * rate;
  wi_violations : violations <= Z.min (wm_violationReports w) 101;
  wi_invalidations : invalidations <= turns_ + (if wm_selfInvalidate w then 1 else 0)
}.

Lemma within_same rate t0 w w' r v i n t t' :
  within rate t0 w r v i n t -> limits_of w' = limits_of w -> t <= t' -> within rate t0 w' r v i n t'.
Proof.
  intros [H1 H2 H3 H4 H5 H6] [= E1 E2 E3 E4 E5] Ht. constructor; rewrite ?E1, ?E2, ?E3, ?E4, ?E5; try done. lia.
Qed.

Lemma onWorkerMessage_within raises rate t0 now m w r v i n t :
  0 <= rate -> t <= now -> within rate t0 w r v i n t ->
  let s := onWorkerMessage raises now m w in
  within rate t0 s.1 (r + emits is_relayed s.2) (v + emits (String.eqb "sandbox-violation") s.2)
    (i + emits (String.eqb "peer-self-invalidate") s.2) n now.
Proof.
  intros Hrate Ht Hw. unfold onWorkerMessage.
  assert (Hsame : within rate t0 w (r + 0) (v + 0) (i + 0) n now).
  { rewrite !Z.add_0_r. by apply (within_same rate t0 w w _ _ _ _ t). }
  destruct (is_nullish _); [done|]. destruct (strict_eq _ _); [done|]. destruct (strict_eq _ _); [done|].
  destruct (String.eqb (m_category m) "reply").
  { pose proof (fun p => on_reply_emits raises m w p) as He. cbv zeta. rewrite !(proj1 (He _)).
    apply (within_same rate t0 w _ _ _ _ _ now); [done|apply (He is_relayed)|lia]. }
  destruct (String.eqb (m_category m) "child"); [|done].
  destruct Hw as [H1 H2 H3 H4 H5 H6].
  pose proof (take_token_bucket rate now m w H1 Hrate H2 ltac:(lia)) as Hb.
  pose proof (fun p => take_token_emits now m w p) as Hte.
  destruct (take_token now m w) as [[w1 e1] served]. cbn [fst snd] in Hte.
  destruct Hb as (B1 & B2 & B3 & B4 & B5 & B6).
  destruct served; cbn [andb] in B4.
  2: { cbn [fst snd]. rewrite !Hte, !Z.add_0_r. constructor; rewrite ?B5, ?B6; try done; nia. }
  pose proof (serve_emits m w1) as Hs. destruct (serve_command m w1) as [w2 e2]. cbn [fst snd] in *.
  destruct Hs as (S1 & S2 & S3 & S4 & S5 & S6). rewrite !emits_app, !Hte.
  assert (Hspent : 1000 * emits is_relayed e2 + wm_rateTokens w1 <= wm_rateTokens w + (wm_rateRefillAt w1 - wm_rateRefillAt w) * rate).
  { rewrite S1. destruct (m_command m) as [| | | | |c| |]; cbn in B4; try lia.
    destruct (is_relayed c) eqn:Hc; [|destruct (includes c RATE_EXEMPT); cbn in B4; lia].
    assert (includes c RATE_EXEMPT = false) as Hex.
    { unfold is_relayed in Hc. apply includes_spec in Hc. unfold RELAYED in Hc.
      repeat (apply elem_of_cons in Hc as [->|Hc]; [done|]). by apply not_elem_of_nil in Hc. }
    rewrite Hex in B4. cbn in B4. lia. }
  rewrite B5 in S6. rewrite B6 in S5.
  constructor; rewrite ?S2, ?S3, ?S4, ?Z.add_0_l; try done; try lia.
Qed.

(** Under a message rate, what a worker has served by the main thread in
    any run of the clock is bounded: its commands by the rate over the time
    that passed plus one full bucket, its violation reports by a fixed number,
    its invalidations of its own channels by one per turn of the event loop. *)
Theorem message_rate_bounded raises rate t0 evs :
  0 <= rate -> clocked t0 evs ->
  let effs := (wrun raises (set_rate rate (new_wm true t0)) evs).2 in
  1000 * emits is_relayed effs <= rate * 1000 + (last_time t0 evs - t0) * rate /\
  emits (String.eqb "sandbox-violation") effs <= MAX_VIOLATION_REPORTS + 1 /\
  emits (String.eqb "peer-self-invalidate") effs <= 1 + turns evs.
Proof.
  intros Hrate Hc.
  assert (H : forall evs w r v i n t, clocked t evs -> within rate t0 w r v i n t ->
    let s := wrun raises w evs in
    within rate t0 s.1 (r + emits is_relayed s.2) (v + emits (String.eqb "sandbox-violation") s.2)
      (i + emits (String.eqb "peer-self-invalidate") s.2) (n + turns evs) (last_time t evs)).
  { clear evs Hc. induction evs as [|ev evs IH]; intros w r v i n t Hc Hw; cbn [wrun].
    { cbn [fst snd]. rewrite !emits_nil. unfold turns. cbn. by rewrite !Z.add_0_r. }
    destruct ev as [command body cb posts|code name reason|now m|]; cbn [wstep last_time clocked] in *.
    - pose proof (fun p => send_emits command body cb posts w p) as He.
      destruct (sendMessageToWorker command body cb posts w) as [w1 e1]. cbn [fst snd] in He.
      specialize (IH w1 r v i n t Hc (within_same _ _ w w1 _ _ _ _ t t Hw (proj2 (He is_relayed)) (Z.le_refl t))).
      destruct (wrun raises w1 evs) as [w2 e2]. cbn [fst snd] in *. by rewrite !emits_app, !(proj1 (He _)), !Z.add_0_l.
    - pose proof (fun p => endWith_emits raises code name reason w p) as He.
      destruct (endWith raises code name reason w) as [w1 e1]. cbn [fst snd] in He.
      specialize (IH w1 r v i n t Hc (within_same _ _ w w1 _ _ _ _ t t Hw (proj2 (He is_relayed)) (Z.le_refl t))).
      destruct (wrun raises w1 evs) as [w2 e2]. cbn [fst snd] in *. by rewrite !emits_app, !(proj1 (He _)), !Z.add_0_l.
    - destruct Hc as [Hn Hc]. pose proof (onWorkerMessage_within raises rate t0 now m w r v i n t Hrate Hn Hw) as Hm.
      destruct (onWorkerMessage raises now m w) as [w1 e1]. cbn [fst snd] in Hm. specialize (IH _ _ _ _ _ _ Hc Hm).
      destruct (wrun raises w1 evs) as [w2 e2]. cbn [fst snd] in *. rewrite !emits_app, !Z.add_assoc. done.
    - assert (Hw1 : within rate t0 (next_turn w) r v i (n + 1) t).
      { destruct Hw as [H1 H2 H3 H4 H5 H6]. constructor; cbn; try done. by case_match; lia. }
      specialize (IH _ _ _ _ _ _ Hc Hw1). destruct (wrun raises (next_turn w) evs) as [w2 e2]. cbn [fst snd app] in *.
      replace (n + turns (Turn :: evs)) with (n + 1 + turns evs); [done|].
      unfold turns. cbn. lia. }
  destruct (H evs (set_rate rate (new_wm true t0)) 0 0 0 0 t0 Hc) as [H1 H2 H3 H4 H5 H6].
  { constructor; cbn; try done; lia. }
  unfold MAX_VIOLATION_REPORTS. case_match; split_and!; nia.
Qed.

(** ** Concrete runs *)

Definition demo_msg (id : jsval) (category command : string) : message :=
  mkMsg id category (JStr command) JNull JNull (JStr "d").

Lemma worker_requests_settle_witness :
  (wrun (fun _ => false) (new_wm true 0)
     [Send "invoke-action" JNull (Some 7%nat) true; Send "get-spec" JNull (Some 8%nat) true;
      Incoming 1 (demo_msg (JNum 0) "reply" ""); Incoming 2 (demo_msg (JNum 0) "reply" "");
      End_ "MODULE_UNLOADED" (JStr "m") (JStr "exit")]).2 =
    [Post (JStr "invoke-action") (Some 0) JNull; Post (JStr "get-spec") (Some 1) JNull; CallBack 7 None (JStr "d");
     CallBack 8 (Some (CHError "MODULE_UNLOADED" [JStr "m"; JStr "exit"])) JNull] /\
  calls 8 (wrun (fun _ => false) (new_wm true 0) [Send "get-spec" JNull (Some 8%nat) true; End_ "MODULE_UNLOADED" JNull JNull]).2 = 1%nat.
Proof.
  split; [done|].
  destruct (worker_requests_settle (fun _ => false) [Send "get-spec" JNull (Some 8%nat) true; End_ "MODULE_UNLOADED" JNull JNull] 0
              ltac:(apply NoDup_singleton)) as (_ & _ & _ & Hexact & _).
  exact (Hexact (fun _ _ => eq_refl) 8%nat).
Defined.

Lemma message_rate_bounded_witness :
  emits is_relayed (wrun (fun _ => false) (set_rate 1 (new_wm true 0))
    [Incoming 5 (demo_msg (JNum 0) "child" "devicelog"); Incoming 5 (demo_msg (JNum 1) "child" "devicelog")]).2 = 1 /\
  1000 * 1 <= 1 * 1000 + (5 - 0) * 1.
Proof.
  split; [done|].
  exact (proj1 (message_rate_bounded (fun _ => false) 1 0
    [Incoming 5 (demo_msg (JNum 0) "child" "devicelog"); Incoming 5 (demo_msg (JNum 1) "child" "devicelog")]
    ltac:(lia) ltac:(cbn; lia))).
Defined.

(** A message whose id says it is a status takes no token: however many come,
    all are served. *)
Theorem status_messages_unlimited raises rate t0 n data :
  emits (String.eqb "jobprogress") (wrun raises (set_rate rate (new_wm true t0))
    (repeat (Incoming t0 (mkMsg (JStr "jobprogress") "child" JNull JNull JNull data)) n)).2 = Z.of_nat n.
Proof.
  generalize (set_rate rate (new_wm true t0)). induction n as [|n IH]; intros w; [done|]. cbn [repeat wrun wstep].
  change (onWorkerMessage raises t0 (mkMsg (JStr "jobprogress") "child" JNull JNull JNull data) w) with (w, [Emit "jobprogress" data]).
  cbn beta iota. specialize (IH w). destruct (wrun raises w _) as [w2 e2]. cbn [fst snd] in *.
  rewrite emits_app, IH, emits_one. cbn. lia.
Qed.

(** A reply whose id is the name of a member every object has is taken for a
    queued callback, and calling it throws. *)
Theorem inherited_reply_throws raises now w :
  wm_queue w = [] -> (onWorkerMessage raises now (demo_msg (JStr "valueOf") "reply" "") w).2 = [Exception_].
Proof. intros Hq. unfold onWorkerMessage, on_reply. rewrite Hq. done. Qed.
