(* ===== verification/Supervisor.v ===== *)
(** * What follows a worker's unexpected exit (lib/module-supervisor.js and
    the restart of lib/module-manager.js)

    The restart policy: exits within a window, a delay that doubles, a
    suspension after the third, and what callers are told meanwhile. A module
    is one record, known by the number it was made under; its restart timer is
    in the record, and the clock only moves forward. *)
From Stdlib Require Import ZArith Lia Ascii String.
From stdpp Require Import prelude strings gmap.
From S2P Require Import Prelude Json.

Set Default Proof Using "Type".
Local Open Scope Z_scope.

Definition BACKOFF_BASE_MS : Z := 1000.
Definition BACKOFF_MAX_MS : Z := 60000.
Definition SUSPEND_AFTER : nat := 3.
Definition WINDOW_MS : Z := 10 * 60 * 1000.

Inductive state := running | restarting | suspended.

Record exit := mkExit { at_ : Z; exit_reason : string }.

(** One module's record: [r_timer] is when the pending restart timer is due;
    [r_specs] are the devices the worker had. *)
Record record := mkRecord {
  r_id : nat;
  r_state : state;
  r_modulePath : option string;
  r_version : option string;
  r_exits : list exit;
  r_lastReason : option string;
  r_nextRestartAt : option Z;
  r_timer : option Z;
  r_specs : list (string * jsval)
}.

(** The supervisor: the clock, the records in the order they were made, and
    the restarts asked for. *)
Record supervisor := mkSup {
  now : Z;
  next_id : nat;
  records : list (string * record);
  restarts : list (string * nat * Z)
}.

Definition new_supervisor (t : Z) : supervisor := mkSup t 0 [] [].

Definition backoffFor (nthExit : nat) : Z := Z.min (BACKOFF_BASE_MS * 2 ^ (Z.of_nat nthExit - 1)) BACKOFF_MAX_MS.

Definition new_record (id : nat) : record := mkRecord id running None None [] None None None [].

Definition put (name : string) (r : record) (s : supervisor) : supervisor :=
  mkSup (now s) (next_id s) (assoc_set name r (records s)) (restarts s).

Definition recordFor (name : string) (s : supervisor) : supervisor * record :=
  match assoc name (records s) with
  | Some r => (s, r)
  | None => let r := new_record (next_id s) in
            (mkSup (now s) (S (next_id s)) (assoc_set name r (records s)) (restarts s), r)
  end.

Definition track (name : string) (modulePath version : option string) (s : supervisor) : supervisor :=
  let '(s, r) := recordFor name s in
  put name (mkRecord (r_id r) running modulePath version (r_exits r) (r_lastReason r) None (r_timer r) []) s.

Inductive decision := Suspend | Restart (delayMs at_ms : Z).

(** An exit: those within the window and this one decide. *)
Definition exited (name reason : string) (deviceSpecs : list (string * jsval)) (s : supervisor) : supervisor * decision :=
  let '(s, r) := recordFor name s in
  let exits := List.filter (fun e => now s - at_ e <=? WINDOW_MS) (r_exits r) ++ [mkExit (now s) reason] in
  if (SUSPEND_AFTER <=? length exits)%nat
  then (put name (mkRecord (r_id r) suspended (r_modulePath r) (r_version r) exits (Some reason) None None deviceSpecs) s, Suspend)
  else
    let delayMs := backoffFor (length exits) in
    (put name (mkRecord (r_id r) restarting (r_modulePath r) (r_version r) exits (Some reason) (Some (now s + delayMs))
                 (Some (now s + delayMs)) deviceSpecs) s,
     Restart delayMs (now s + delayMs)).

Definition assoc_delete {A} (k : string) (l : list (string * A)) : list (string * A) :=
  List.filter (fun p => negb (String.eqb k p.1)) l.

Definition clear (name : string) (s : supervisor) : supervisor :=
  mkSup (now s) (next_id s) (assoc_delete name (records s)) (restarts s).

Definition isCurrent (name : string) (id : nat) (s : supervisor) : bool :=
  match assoc name (records s) with Some r => (r_id r =? id)%nat | None => false end.

Definition suspend (name reason : string) (s : supervisor) : supervisor * bool :=
  match assoc name (records s) with
  | None => (s, false)
  | Some r => (put name (mkRecord (r_id r) suspended (r_modulePath r) (r_version r) (r_exits r) (Some reason) None None (r_specs r)) s, true)
  end.

(** The timer of [name] fires, once it is due. *)
Definition fire (name : string) (s : supervisor) : supervisor :=
  match assoc name (records s) with
  | Some r =>
      match r_timer r with
      | Some due =>
          if due <=? now s then
            let s' := put name (mkRecord (r_id r) (r_state r) (r_modulePath r) (r_version r) (r_exits r) (r_lastReason r)
                                  (r_nextRestartAt r) None (r_specs r)) s in
            match r_state r with
            | restarting => mkSup (now s') (next_id s') (records s') (restarts s' ++ [(name, r_id r, now s)])
            | _ => s'
            end
          else s
      | None => s
      end
  | None => s
  end.

(** The spawn a restart asked for has failed (ModuleManager's [restart]): the
    refusal of the sandbox suspends, any other error is one more exit, and a
    record an operator has replaced meanwhile is left alone. *)
Definition restart_failed (name : string) (id : nat) (refused : bool) (message : string) (s : supervisor) : supervisor :=
  if isCurrent name id s then
    if refused then (suspend name ("restart refused: " +:+ message) s).1
    else
      let specs := match assoc name (records s) with Some r => r_specs r | None => [] end in
      (exited name ("restart failed: " +:+ message) specs s).1
  else s.

(** *** What callers are told *)

Record device_error := mkDevErr { de_code : string; de_module : string; de_reason : option string; de_retryAt : option Z }.

Definition answers_for (deviceID : string) (r : record) : bool :=
  match r_state r with
  | running => false
  | _ => match assoc deviceID (r_specs r) with
         | Some v => negb (is_nullish v)
         | None => includes deviceID object_members
         end
  end.

Definition errorForDevice (deviceID : string) (s : supervisor) : option device_error :=
  match List.find (fun p => answers_for deviceID p.2) (records s) with
  | Some (name, r) =>
      Some (mkDevErr (match r_state r with suspended => "MODULE_SUSPENDED" | _ => "MODULE_RESTARTING" end)
              name (r_lastReason r) (r_nextRestartAt r))
  | None => None
  end.

Definition retainedSpecs (s : supervisor) : list (string * jsval) :=
  foldl (fun out p => match r_state p.2 with
                      | running => out
                      | _ => foldl (fun o kv => assoc_set kv.1 kv.2 o) out (r_specs p.2)
                      end) [] (records s).

Record status_of := mkStatus { st_state : state; st_lastReason : option string; st_exits : list exit; st_nextRestartAt : option Z }.

Definition status (name : string) (s : supervisor) : option status_of :=
  option_map (fun r => mkStatus (r_state r) (r_lastReason r) (r_exits r) (r_nextRestartAt r)) (assoc name (records s)).

Definition recorded (name : string) (s : supervisor) : option (option string * option string) :=
  option_map (fun r => (r_modulePath r, r_version r)) (assoc name (records s)).

(** ** Runs *)

Inductive op :=
| Track (name : string) (modulePath version : option string)
| Exited (name reason : string) (specs : list (string * jsval))
| Clear (name : string)
| SuspendOp (name reason : string)
| Fire (name : string)
| RestartFailed (name : string) (id : nat) (refused : bool) (message : string)
| Elapse (ms : nat).

Definition step (o : op) (s : supervisor) : supervisor :=
  match o with
  | Track name p v => track name p v s
  | Exited name reason specs => (exited name reason specs s).1
  | Clear name => clear name s
  | SuspendOp name reason => (suspend name reason s).1
  | Fire name => fire name s
  | RestartFailed name id refused message => restart_failed name id refused message s
  | Elapse ms => mkSup (now s + Z.of_nat ms) (next_id s) (records s) (restarts s)
  end.

Fixpoint sup_run (os : list op) (s : supervisor) : supervisor :=
  match os with [] => s | o :: rest => sup_run rest (step o s) end.

(** The exits of one module since an operator last cleared its record, when
    they happened. *)
Definition hist_step (name : string) (o : op) (s : supervisor) (h : list Z) : list Z :=
  match o with
  | Exited n _ _ => if String.eqb n name then h ++ [now s] else h
  | RestartFailed n id refused _ =>
      if String.eqb n name && isCurrent n id s && negb refused then h ++ [now s] else h
  | Clear n => if String.eqb n name then [] else h
  | _ => h
  end.

Fixpoint hist (name : string) (os : list op) (s : supervisor) (h : list Z) : list Z :=
  match os with [] => h | o :: rest => hist name rest (step o s) (hist_step name o s h) end.

(** Those of [h] within the window before [t]. *)
Definition within (t : Z) (h : list Z) : list Z := List.filter (fun e => t - e <=? WINDOW_MS) h.

Definition restarts_of (name : string) (id : nat) (s : supervisor) : nat :=
  length (List.filter (fun x => String.eqb x.1.1 name && (x.1.2 =? id)%nat) (restarts s)).

(** ** The invariant *)

(** A record, the exits behind it and the restarts asked for it. *)
Record rec_ok (r : record) (h : list Z) (asked : nat) : Prop := {
  ok_exits : map at_ (r_exits r) = match last h with Some l => within l h | None => [] end;
  ok_due : forall due, r_timer r = Some due ->
             exists l, last h = Some l /\ due = l + backoffFor (length (r_exits r)) /\ (length (r_exits r) < SUSPEND_AFTER)%nat;
  ok_restarting : r_state r = restarting ->
             exists l, last h = Some l /\ r_nextRestartAt r = Some (l + backoffFor (length (r_exits r))) /\
                       (length (r_exits r) < SUSPEND_AFTER)%nat;
  ok_suspended : r_state r = suspended -> r_timer r = None /\ r_nextRestartAt r = None;
  ok_asked : (asked + (if r_timer r then 1 else 0) <= length h)%nat
}.

Record sup_ok (name : string) (s : supervisor) (h : list Z) : Prop := {
  ok_times : Forall (fun t => t <= now s) h;
  ok_last : forall l, last h = Some l -> Forall (fun t => t <= l) h;
  ok_ids : Forall (fun x => (x.1.2 < next_id s)%nat) (restarts s);
  ok_rec : match assoc name (records s) with
           | None => h = []
           | Some r => rec_ok r h (restarts_of name (r_id r) s) /\ (r_id r < next_id s)%nat
           end
}.

Lemma assoc_delete_lookup {A} k (l : list (string * A)) k' :
  assoc k' (assoc_delete k l) = if String.eqb k k' then None else assoc k' l.
Proof.
  unfold assoc_delete. induction l as [|[j v] l IH]; cbn.
  - by destruct (String.eqb k k').
  - destruct (String.eqb_spec k j) as [->|Hk]; cbn; rewrite IH; destruct (String.eqb_spec k' j) as [->|]; cbn.
    + by rewrite String.eqb_refl.
    + done.
    + destruct (String.eqb_spec k j); [done|]. done.
    + done.
Qed.

Lemma within_times t l h : Forall (fun e => e <= l) h -> l <= t ->
  within t (within l h) = within t h.
Proof.
  unfold within. intros Hall Hl. induction h as [|e h IH]; [done|]. inversion Hall as [|? ? He Hall']; subst. cbn.
  specialize (IH Hall'). destruct (Z.leb_spec (l - e) WINDOW_MS); cbn; rewrite IH; [done|].
  destruct (Z.leb_spec (t - e) WINDOW_MS); [lia|done].
Qed.

(** The exits kept after one more are those of the longer history. *)
Lemma kept_exits r h asked t reason :
  rec_ok r h asked -> (forall l, last h = Some l -> Forall (fun e => e <= l) h) -> Forall (fun e => e <= t) h ->
  map at_ (List.filter (fun e => t - at_ e <=? WINDOW_MS) (r_exits r) ++ [mkExit t reason]) = within t (h ++ [t]).
Proof.
  intros [He _ _ _ _] Hlast Hall. rewrite map_app. unfold within at 1. rewrite List.filter_app. cbn.
  replace (t - t <=? WINDOW_MS) with true by (unfold WINDOW_MS; lia). f_equal.
  assert (E : map at_ (List.filter (fun e => t - at_ e <=? WINDOW_MS) (r_exits r)) = within t (map at_ (r_exits r))).
  { clear. unfold within. induction (r_exits r) as [|e l IH]; [done|]. cbn. destruct (_ <=? _); cbn; by rewrite IH. }
  rewrite E, He. destruct (last h) as [l|] eqn:El.
  - apply within_times; [by apply Hlast|]. apply last_Some in El as [h' ->]. apply Forall_app in Hall as [_ Hall]. by inversion Hall.
  - apply last_None in El as ->. done.
Qed.

Lemma snoc_last (h : list Z) t : Forall (fun e => e <= t) h -> forall l, last (h ++ [t]) = Some l -> Forall (fun e => e <= l) (h ++ [t]).
Proof.
  intros Hall l. rewrite last_snoc. intros [= <-]. apply Forall_app. split; [done|]. by repeat constructor.
Qed.

(** A record put under its name. *)
Lemma put_lookup name r s name' :
  assoc name' (records (put name r s)) = if String.eqb name' name then Some r else assoc name' (records s).
Proof. cbn. apply assoc_set_lookup. Qed.

(** The record a module has, or the one made for it. *)
Lemma recordFor_ok name s h :
  sup_ok name s h ->
  let '(s', r) := recordFor name s in
  now s' = now s /\ restarts s' = restarts s /\
  sup_ok name s' h /\ assoc name (records s') = Some r /\ rec_ok r h (restarts_of name (r_id r) s') /\ (r_id r < next_id s')%nat.
Proof.
  intros [Ht Hl Hi Hr]. unfold recordFor. destruct (assoc name (records s)) as [r|] eqn:E.
  - destruct Hr. split_and!; try done. split; try done. by rewrite E.
  - subst h. assert (H0 : restarts_of name (next_id s) s = 0%nat).
    { unfold restarts_of. clear -Hi. induction (restarts s) as [|x l IH]; [done|].
      apply Forall_cons in Hi as [Hx Hi]. cbn. destruct (Nat.eqb_spec x.1.2 (next_id s)); [lia|]. rewrite andb_false_r. by apply IH. }
    assert (Hok : rec_ok (new_record (next_id s)) [] (restarts_of name (next_id s) s)).
    { rewrite H0. by split. }
    cbn. rewrite assoc_set_lookup, String.eqb_refl. split_and!; try done; [|lia].
    split; cbn; try done.
    + eapply Forall_impl; [exact Hi|]. cbn. lia.
    + rewrite assoc_set_lookup, String.eqb_refl. split; [exact Hok|]. cbn. lia.
Qed.

(** One more exit. *)
Lemma exited_ok name reason specs s h :
  sup_ok name s h -> sup_ok name (exited name reason specs s).1 (h ++ [now s]).
Proof.
  intros H. pose proof (recordFor_ok name s h H) as Hf. unfold exited. destruct (recordFor name s) as [s1 r] eqn:Er.
  destruct Hf as (Hn & Hrs & [Ht Hl Hi _] & Hlk & Hok & Hid). rewrite Hn in *.
  pose proof (kept_exits r h _ (now s) reason Hok Hl Ht) as Hk.
  set (exits := List.filter (fun e => now s - at_ e <=? WINDOW_MS) (r_exits r) ++ [mkExit (now s) reason]) in *.
  assert (Hlen : length exits = length (within (now s) (h ++ [now s]))) by (by rewrite <- Hk, length_map).
  destruct (Nat.leb_spec SUSPEND_AFTER (length exits)) as [Hs|Hs]; cbn [fst].
  - split; cbn; rewrite ?Hn.
    + apply Forall_app. split; [done|]. by repeat constructor.
    + by apply snoc_last.
    + done.
    + rewrite assoc_set_lookup, String.eqb_refl. split; [|done]. split; cbn; try done.
      * by rewrite last_snoc.
      * rewrite length_app. cbn. pose proof (ok_asked _ _ _ Hok) as Ha. unfold restarts_of in *. cbn. lia.
  - split; cbn; rewrite ?Hn.
    + apply Forall_app. split; [done|]. by repeat constructor.
    + by apply snoc_last.
    + done.
    + rewrite assoc_set_lookup, String.eqb_refl. split; [|done]. split; cbn; try done.
      * by rewrite last_snoc.
      * intros due [= <-]. exists (now s). by rewrite last_snoc.
      * intros _. exists (now s). by rewrite last_snoc.
      * rewrite length_app. cbn. pose proof (ok_asked _ _ _ Hok) as Ha. unfold restarts_of in *. cbn.
        destruct (r_timer r); lia.
Qed.

(** What a step about module [n] leaves alone. *)
Record frame (n : string) (s s' : supervisor) : Prop := {
  fr_now : now s <= now s';
  fr_next : (next_id s <= next_id s')%nat;
  fr_records : forall name, name <> n -> assoc name (records s') = assoc name (records s);
  fr_restarts : exists extra, restarts s' = restarts s ++ extra /\
                  Forall (fun x => x.1.1 = n /\ (x.1.2 < next_id s')%nat) extra
}.

Lemma frame_ok n name s s' h : frame n s s' -> name <> n -> sup_ok name s h -> sup_ok name s' h.
Proof.
  intros [Hn Hx Hr (extra & He & Hf)] Hne [Ht Hl Hi Hrec]. split.
  - eapply Forall_impl; [exact Ht|]. cbn. lia.
  - done.
  - rewrite He. apply Forall_app. split.
    + eapply Forall_impl; [exact Hi|]. cbn. lia.
    + eapply Forall_impl; [exact Hf|]. cbn. tauto.
  - rewrite Hr by done. destruct (assoc name (records s)) as [r|]; [|done]. destruct Hrec as [Hrec Hid].
    split; [|lia]. replace (restarts_of name (r_id r) s') with (restarts_of name (r_id r) s); [done|].
    unfold restarts_of. rewrite He, List.filter_app, length_app.
    replace (length (List.filter _ extra)) with 0%nat; [lia|]. clear -Hf Hne.
    induction extra as [|x l IH]; [done|]. apply Forall_cons in Hf as [[Hx _] Hf]. cbn.
    destruct (String.eqb_spec x.1.1 name); [congruence|]. by apply IH.
Qed.

Lemma frame_refl n s : frame n s s.
Proof. split; try done. exists []. by rewrite app_nil_r. Qed.

Lemma frame_trans n s1 s2 s3 : frame n s1 s2 -> frame n s2 s3 -> frame n s1 s3.
Proof.
  intros [H1 H2 H3 (e1 & H4 & H5)] [K1 K2 K3 (e2 & K4 & K5)]. split; [lia|lia|intros; by rewrite K3, H3|].
  exists (e1 ++ e2). rewrite K4, H4, app_assoc. split; [done|]. apply Forall_app. split; [|done].
  eapply Forall_impl; [exact H5|]. cbn. intros x [? ?]. split; [done|lia].
Qed.

Lemma put_frame n r s : frame n s (put n r s).
Proof.
  split; cbn; try done.
  - intros name Hne. rewrite assoc_set_lookup. by destruct (String.eqb_spec name n).
  - exists []. by rewrite app_nil_r.
Qed.

Lemma recordFor_frame n s : frame n s (recordFor n s).1.
Proof.
  unfold recordFor. destruct (assoc n (records s)); [apply frame_refl|]. split; cbn; [done|lia| |].
  - intros name Hne. rewrite assoc_set_lookup. by destruct (String.eqb_spec name n).
  - exists []. by rewrite app_nil_r.
Qed.

Lemma exited_frame n reason specs s : frame n s (exited n reason specs s).1.
Proof.
  unfold exited. pose proof (recordFor_frame n s) as H. destruct (recordFor n s) as [s1 r]. cbn in H.
  destruct (_ <=? _)%nat; (eapply frame_trans; [exact H|apply put_frame]).
Qed.

Lemma suspend_frame n reason s : frame n s (suspend n reason s).1.
Proof. unfold suspend. destruct (assoc n (records s)); [apply put_frame|apply frame_refl]. Qed.

Lemma restart_failed_frame n id refused message s : frame n s (restart_failed n id refused message s).
Proof.
  unfold restart_failed. destruct (isCurrent n id s); [|apply frame_refl].
  destruct refused; [apply suspend_frame|apply exited_frame].
Qed.

Lemma fire_frame n s h : sup_ok n s h -> frame n s (fire n s).
Proof.
  intros [_ _ _ Hr]. unfold fire. destruct (assoc n (records s)) as [r|]; [|apply frame_refl].
  destruct (r_timer r) as [due|]; [|apply frame_refl]. destruct (due <=? now s); [|apply frame_refl].
  set (r' := mkRecord _ _ _ _ _ _ _ _ _). destruct Hr as [_ Hid]. destruct (r_state r); [apply put_frame| |apply put_frame].
  destruct (put_frame n r' s) as [H1 H2 H3 _]. split; [exact H1|exact H2|exact H3|].
  exists [(n, r_id r, now s)]. split; [done|]. by repeat constructor.
Qed.

Lemma clear_frame n s : frame n s (clear n s).
Proof.
  split; cbn; try done.
  - intros name Hne. rewrite assoc_delete_lookup. destruct (String.eqb_spec n name); congruence.
  - exists []. by rewrite app_nil_r.
Qed.

Lemma suspend_ok name reason s h : sup_ok name s h -> sup_ok name (suspend name reason s).1 h.
Proof.
  intros Hok. pose proof Hok as [Ht Hl Hi Hr]. unfold suspend. destruct (assoc name (records s)) as [r|] eqn:E; [|exact Hok].
  cbn [fst]. destruct Hr as [[H1 H2 H3 H4 H5] Hid]. split; try done.
  rewrite put_lookup, String.eqb_refl. split; [|done]. split; cbn; try done. unfold restarts_of in *. cbn. lia.
Qed.

Lemma track_ok name p v s h : sup_ok name s h -> sup_ok name (track name p v s) h.
Proof.
  intros H. pose proof (recordFor_ok name s h H) as Hf. unfold track. destruct (recordFor name s) as [s1 r].
  destruct Hf as (_ & _ & [Ht Hl Hi _] & _ & [H1 H2 H3 H4 H5] & Hid). split; try done.
  rewrite put_lookup, String.eqb_refl. split; [|done]. by split.
Qed.

Lemma fire_ok name s h : sup_ok name s h -> sup_ok name (fire name s) h.
Proof.
  intros Hok. pose proof Hok as [Ht Hl Hi Hr]. unfold fire. destruct (assoc name (records s)) as [r|] eqn:E; [|done].
  destruct (r_timer r) as [due|] eqn:Ed; [|done]. destruct (due <=? now s); [|done].
  destruct Hr as [[H1 H2 H3 H4 H5] Hid]. rewrite Ed in H5. set (r' := mkRecord _ _ _ _ _ _ _ _ _).
  assert (Hput : sup_ok name (put name r' s) h).
  { split; try done. rewrite put_lookup, String.eqb_refl. split; [|done]. split; cbn; try done.
    - intros Hst. by destruct (H4 Hst).
    - unfold restarts_of in *. cbn. lia. }
  destruct (r_state r) eqn:Es; [exact Hput| |exact Hput]. split; try done.
  - cbn. apply Forall_app. split; [done|]. by repeat constructor.
  - cbn. rewrite assoc_set_lookup, String.eqb_refl. split; [|done]. split; cbn; try done.
    unfold restarts_of in *. cbn. rewrite List.filter_app, length_app. cbn. rewrite String.eqb_refl, Nat.eqb_refl. cbn. lia.
Qed.

Lemma sup_step_ok o s H :
  (forall name, sup_ok name s (H name)) -> forall name, sup_ok name (step o s) (hist_step name o s (H name)).
Proof.
  intros Hall name. pose proof (Hall name) as Hn. destruct o as [n p v|n rs sp|n|n rs|n|n id rf m|ms]; cbn [step hist_step].
  - destruct (decide (name = n)) as [->|Hne]; [by apply track_ok|]. eapply frame_ok; [|exact Hne|exact Hn].
    unfold track. pose proof (recordFor_frame n s) as Hf. destruct (recordFor n s). eapply frame_trans; [exact Hf|apply put_frame].
  - destruct (String.eqb_spec n name) as [->|Hne]; [by apply exited_ok|]. eapply frame_ok; [apply exited_frame|congruence|exact Hn].
  - destruct (String.eqb_spec n name) as [->|Hne]; [|eapply frame_ok; [apply clear_frame|congruence|exact Hn]].
    destruct Hn as [Ht Hl Hi Hr]. split; cbn; try done. by rewrite assoc_delete_lookup, String.eqb_refl.
  - destruct (decide (name = n)) as [->|Hne]; [by apply suspend_ok|]. eapply frame_ok; [apply suspend_frame|exact Hne|exact Hn].
  - destruct (decide (name = n)) as [->|Hne]; [by apply fire_ok|]. eapply frame_ok; [eapply fire_frame, (Hall n)|exact Hne|exact Hn].
  - destruct (String.eqb_spec n name) as [->|Hne]; cbn [andb].
    + unfold restart_failed. destruct (isCurrent name id s); cbn [andb]; [|done].
      destruct rf; cbn [negb]; [by apply suspend_ok|by apply exited_ok].
    + eapply frame_ok; [apply restart_failed_frame|congruence|exact Hn].
  - destruct Hn as [Ht Hl Hi Hr]. split; cbn; try done. eapply Forall_impl; [exact Ht|]. cbn. lia.
Qed.

Lemma sup_run_ok os : forall s H,
  (forall name, sup_ok name s (H name)) -> forall name, sup_ok name (sup_run os s) (hist name os s (H name)).
Proof.
  induction os as [|o os IH]; intros s H Hall name; cbn; [done|].
  apply (IH (step o s) (fun n => hist_step n o s (H n))). by apply sup_step_ok.
Qed.

Lemma new_supervisor_ok t name : sup_ok name (new_supervisor t) [].
Proof. split; cbn; try done; by constructor. Qed.

(** ** The policy *)

(** What an exit at [t] after the exits [h] decides: the number of exits in
    the last ten minutes, this one included. *)
Definition exit_decision (t : Z) (h : list Z) : decision :=
  match length (within t (h ++ [t])) with
  | 1%nat => Restart 1000 (t + 1000)
  | 2%nat => Restart 2000 (t + 2000)
  | _ => Suspend
  end.

Lemma backoff_small k : (0 < k < SUSPEND_AFTER)%nat -> backoffFor k = 1000 * Z.of_nat k.
Proof. unfold SUSPEND_AFTER. intros H. assert (k = 1 \/ k = 2)%nat as [-> | ->] by lia; reflexivity. Qed.

Lemma within_self t h : (0 < length (within t (h ++ [t])))%nat.
Proof.
  unfold within. rewrite List.filter_app, length_app. cbn.
  replace (t - t <=? WINDOW_MS) with true by (unfold WINDOW_MS; lia). cbn. lia.
Qed.

Lemma within_last l h : last h = Some l -> (0 < length (within l h))%nat.
Proof. intros [h' ->]%last_Some. apply within_self. Qed.

Lemma exited_decides name reason specs s h :
  sup_ok name s h -> (exited name reason specs s).2 = exit_decision (now s) h.
Proof.
  intros H. pose proof (recordFor_ok name s h H) as Hf. unfold exited, exit_decision. destruct (recordFor name s) as [s1 r].
  destruct Hf as (Hn & _ & [Ht Hl _ _] & _ & Hok & _). rewrite Hn in *.
  pose proof (kept_exits r h _ (now s) reason Hok Hl Ht) as Hk. apply (f_equal length) in Hk. rewrite length_map in Hk.
  rewrite Hk. pose proof (within_self (now s) h) as Hpos.
  destruct (length (within (now s) (h ++ [now s]))) as [|[|[|k]]]; [lia|done..].
Qed.

Lemma rec_times r h asked l : rec_ok r h asked -> last h = Some l -> (length (r_exits r) < SUSPEND_AFTER)%nat ->
  l + backoffFor (length (r_exits r)) = l + 1000 * Z.of_nat (length (within l h)) /\ (0 < length (within l h) <= 2)%nat.
Proof.
  intros [H1 _ _ _ _] Hl Hlt. rewrite Hl in H1. apply (f_equal length) in H1. rewrite length_map in H1.
  pose proof (within_last l h Hl). unfold SUSPEND_AFTER in Hlt. rewrite H1 in *. rewrite backoff_small by (unfold SUSPEND_AFTER; lia). lia.
Qed.

Lemma fire_times name s h :
  sup_ok name s h -> restarts (fire name s) <> restarts s ->
  exists l id, last h = Some l /\ restarts (fire name s) = restarts s ++ [(name, id, now s)] /\ isCurrent name id s = true /\
    (length (within l h) <= 2)%nat /\ l + 1000 * Z.of_nat (length (within l h)) <= now s.
Proof.
  intros [Ht Hl Hi Hr]. unfold fire, isCurrent. destruct (assoc name (records s)) as [r|]; [|done].
  destruct (r_timer r) as [due|] eqn:Ed; [|done]. destruct (Z.leb_spec due (now s)) as [Hdue|]; [|done].
  destruct (r_state r) eqn:Es; cbn; try done. intros _. destruct Hr as [Hok Hid].
  destruct (ok_due _ _ _ Hok due Ed) as (l & El & -> & Hlt). destruct (rec_times _ _ _ _ Hok El Hlt) as [E2 E3].
  exists l, (r_id r). rewrite Nat.eqb_refl. split_and!; try done; lia.
Qed.

(** After any history of loads, exits, operator actions, timers and failed
    restarts, what a module's exit decides depends on its exits in the last
    ten minutes since its record was last cleared, this one included: the
    first is restarted after one second, the second after two, a third
    suspends. A restart is asked for only by the record that is current, at
    least that delay after the exit it follows, and at most one for each
    exit; a restarting module says when, and a suspended one has no timer to
    start it again. *)
Theorem restart_policy (os : list op) (t0 : Z) (name : string) :
  let s := sup_run os (new_supervisor t0) in
  let h := hist name os (new_supervisor t0) [] in
  (forall reason specs, (exited name reason specs s).2 = exit_decision (now s) h) /\
  (restarts (fire name s) <> restarts s ->
     exists l id, last h = Some l /\ restarts (fire name s) = restarts s ++ [(name, id, now s)] /\ isCurrent name id s = true /\
       (length (within l h) <= 2)%nat /\ l + 1000 * Z.of_nat (length (within l h)) <= now s) /\
  (forall id, isCurrent name id s = true -> (restarts_of name id s <= length h)%nat) /\
  (forall st, status name s = Some st ->
     match st_state st with
     | restarting => exists l, last h = Some l /\ st_nextRestartAt st = Some (l + 1000 * Z.of_nat (length (within l h)))
     | suspended => fire name s = s /\ st_nextRestartAt st = None
     | running => True
     end).
Proof.
  cbn zeta. set (s := sup_run os (new_supervisor t0)). set (h := hist name os (new_supervisor t0) []).
  assert (H : sup_ok name s h).
  { exact (sup_run_ok os (new_supervisor t0) (fun _ => []) (new_supervisor_ok t0) name). }
  split_and!.
  - intros. by apply exited_decides.
  - by apply fire_times.
  - intros id. destruct H as [_ _ _ Hr]. unfold isCurrent. destruct (assoc name (records s)) as [r|]; [|done].
    intros <-%Nat.eqb_eq. destruct Hr as [[_ _ _ _ Ha] _]. lia.
  - intros st. destruct H as [_ _ _ Hr]. unfold status, fire. destruct (assoc name (records s)) as [r|]; [|done].
    intros [= <-]. cbn. destruct Hr as [Hok _]. destruct (r_state r) eqn:Es; [done| |].
    + destruct (ok_restarting _ _ _ Hok Es) as (l & El & En & Hlt). destruct (rec_times _ _ _ _ Hok El Hlt) as [E2 _].
      exists l. by rewrite En, E2.
    + by destruct (ok_suspended _ _ _ Hok Es) as [-> ->].
Qed.
