(* ===== verification/PeerChannel.v ===== *)
(** * One end of a direct peer channel (lib/peer-channel.js)

    Correlation, per-call timers, backpressure in both directions and the
    invalidation of a port between two workers. Every handler calls out (to a
    callback, to [onInvoke]) as its last act, or with the channel closed, so a
    call back into the channel from there is simply the next step; [c_calls],
    [c_out] and [c_serving] are history: how many calls were made, which sent
    requests and which dispatched ones have no reply yet. *)
From Stdlib Require Import ZArith Lia Ascii String Sorting.Sorted.
From stdpp Require Import prelude strings gmap.
From S2P Require Import Prelude.

Set Default Proof Using "Type".
Local Open Scope Z_scope.

Record request := mkReq {
  q_id : nat;
  q_deviceID : string;
  q_serviceID : string;
  q_actionName : string;
  q_input : jsval;
  q_billingKey : jsval
}.

Record reply := mkReply {
  m_id : nat;
  m_errMsg : option string;
  m_errCode : option string;
  m_data : jsval;
  m_metering : jsval
}.

Inductive message := PeerInvoke (r : request) | PeerReply (m : reply) | Other.

(** What a call's callback gets. *)
Inductive outcome :=
| DeviceErr (code : string)
| Failed (message : string) (code : option string) (data : jsval)
| Answered (data metering : jsval).

Record channel := mkChannel {
  c_msgID : nat;
  c_pending : list (nat * nat);
  c_activeSends : Z;
  c_sendQueue : list request;
  c_activeDispatches : Z;
  c_dispatchQueue : list request;
  c_closed : bool;
  c_calls : nat;
  c_out : list nat;
  c_serving : list nat
}.

Definition new_channel : channel := mkChannel 0 [] 0 [] 0 [] false 0 [] [].

Inductive effect :=
| PostInvoke (r : request)
| PostReply (m : reply)
| Callback (call : nat) (o : outcome)
| OnInvoke (r : request)
| ClosePort
| OnClose.

Section channel.
Context (maxConcurrentInvokes : option Z) (hasHandler : bool) (errorText : string -> string).

Definition at_capacity (active : Z) : bool :=
  match maxConcurrentInvokes with Some m => m <=? active | None => false end.

Definition with_sends (c : channel) (pending : list (nat * nat)) (active : Z) (queue : list request) (out : list nat) : channel :=
  mkChannel (c_msgID c) pending active queue (c_activeDispatches c) (c_dispatchQueue c) (c_closed c) (c_calls c) out (c_serving c).
Definition with_dispatches (c : channel) (active : Z) (queue : list request) (serving : list nat) : channel :=
  mkChannel (c_msgID c) (c_pending c) (c_activeSends c) (c_sendQueue c) active queue (c_closed c) (c_calls c) (c_out c) serving.

Definition sendInvoke (r : request) (c : channel) : channel * list effect :=
  (with_sends c (c_pending c) (c_activeSends c + 1) (c_sendQueue c) (c_out c ++ [q_id r]), [PostInvoke r]).

Definition invoke (deviceID serviceID actionName : string) (input billingKey : jsval) (c : channel) : channel * list effect :=
  let call := c_calls c in
  if c_closed c then
    (mkChannel (c_msgID c) (c_pending c) (c_activeSends c) (c_sendQueue c) (c_activeDispatches c) (c_dispatchQueue c)
       (c_closed c) (S call) (c_out c) (c_serving c),
     [Callback call (DeviceErr "PEER_GONE")])
  else
    let id := c_msgID c in
    let r := mkReq id deviceID serviceID actionName input billingKey in
    let c := mkChannel (S id) (c_pending c ++ [(id, call)]) (c_activeSends c) (c_sendQueue c) (c_activeDispatches c)
               (c_dispatchQueue c) (c_closed c) (S call) (c_out c) (c_serving c) in
    if at_capacity (c_activeSends c)
    then (with_sends c (c_pending c) (c_activeSends c) (c_sendQueue c ++ [r]) (c_out c), [])
    else sendInvoke r c.

Definition pending_call (id : nat) (c : channel) : option nat :=
  option_map snd (List.find (fun p => (p.1 =? id)%nat) (c_pending c)).
Definition drop_pending (id : nat) (l : list (nat * nat)) : list (nat * nat) :=
  List.filter (fun p => negb (p.1 =? id)%nat) l.

(** The timer of a pending call; a deleted entry's timer was cleared. *)
Definition on_timer (id : nat) (c : channel) : channel * list effect :=
  match pending_call id c with
  | None => (c, [])
  | Some call =>
      (with_sends c (drop_pending id (c_pending c)) (c_activeSends c)
         (List.filter (fun r => negb (q_id r =? id)%nat) (c_sendQueue c)) (c_out c),
       [Callback call (DeviceErr "PEER_CHANNEL_TIMEOUT")])
  end.

Definition drainSendQueue (c : channel) : channel * list effect :=
  match c_sendQueue c with
  | [] => (c, [])
  | next :: rest =>
      if at_capacity (c_activeSends c) then (c, [])
      else sendInvoke next (with_sends c (c_pending c) (c_activeSends c) rest (c_out c))
  end.

Definition dispatchInvoke (r : request) (c : channel) : channel * list effect :=
  (with_dispatches c (c_activeDispatches c + 1) (c_dispatchQueue c) (c_serving c ++ [q_id r]), [OnInvoke r]).

Definition handleInvoke (r : request) (c : channel) : channel * list effect :=
  if negb hasHandler then (c, [PostReply (mkReply (q_id r) (Some (errorText "PEER_NO_HANDLER")) (Some "PEER_NO_HANDLER"%string) JNull JUndef)])
  else if at_capacity (c_activeDispatches c)
  then (with_dispatches c (c_activeDispatches c) (c_dispatchQueue c ++ [r]) (c_serving c), [])
  else dispatchInvoke r c.

Definition drainDispatchQueue (c : channel) : channel * list effect :=
  match c_dispatchQueue c with
  | [] => (c, [])
  | next :: rest =>
      if at_capacity (c_activeDispatches c) then (c, [])
      else dispatchInvoke next (with_dispatches c (c_activeDispatches c) rest (c_serving c))
  end.

(** [onInvoke] answers a dispatched request. *)
Definition served (m : reply) (c : channel) : channel * list effect :=
  let '(c, es) := drainDispatchQueue
                    (with_dispatches c (c_activeDispatches c - 1) (c_dispatchQueue c)
                       (List.filter (fun i => negb (i =? m_id m)%nat) (c_serving c))) in
  (c, PostReply m :: es).

Definition reply_outcome (m : reply) : outcome :=
  match m_errMsg m with
  | Some msg => Failed msg (m_errCode m) (m_data m)
  | None => Answered (m_data m) (m_metering m)
  end.

Definition handleReply (m : reply) (c : channel) : channel * list effect :=
  let '(c, es) := drainSendQueue
                    (with_sends c (c_pending c) (c_activeSends c - 1) (c_sendQueue c)
                       (List.filter (fun i => negb (i =? m_id m)%nat) (c_out c))) in
  match pending_call (m_id m) c with
  | None => (c, es)
  | Some call =>
      (with_sends c (drop_pending (m_id m) (c_pending c)) (c_activeSends c) (c_sendQueue c) (c_out c),
       es ++ [Callback call (reply_outcome m)])
  end.

Definition onMessage (m : message) (c : channel) : channel * list effect :=
  match m with
  | PeerInvoke r => handleInvoke r c
  | PeerReply m => handleReply m c
  | Other => (c, [])
  end.

Definition invalidate (c : channel) : channel * list effect :=
  if c_closed c then (c, [])
  else
    (mkChannel (c_msgID c) [] (c_activeSends c) [] (c_activeDispatches c) [] true (c_calls c) (c_out c) (c_serving c),
     map (fun p => Callback p.2 (DeviceErr "PEER_GONE")) (c_pending c) ++ [ClosePort; OnClose]).

Inductive op :=
| Invoke (deviceID serviceID actionName : string) (input billingKey : jsval)
| Timer (id : nat)
| Message (m : message)
| Served (m : reply)
| Invalidate.

Definition step (o : op) (c : channel) : channel * list effect :=
  match o with
  | Invoke d s a i b => invoke d s a i b c
  | Timer id => on_timer id c
  | Message m => onMessage m c
  | Served m => served m c
  | Invalidate => invalidate c
  end.

Fixpoint run_ops (os : list op) (c : channel) : channel * list effect :=
  match os with
  | [] => (c, [])
  | o :: rest => let '(c1, e1) := step o c in
                 let '(c2, e2) := run_ops rest c1 in (c2, e1 ++ e2)
  end.

(** What happens to a channel: a closed port delivers nothing; the other end
    answers a request it was sent once; [onInvoke] answers what it was given
    once; the other end numbers its requests. *)
Definition op_allowed (seen : list nat) (o : op) (c : channel) : Prop :=
  match o with
  | Message m =>
      c_closed c = false /\
      match m with
      | PeerReply m => m_id m ∈ c_out c
      | PeerInvoke r => q_id r ∉ seen
      | Other => True
      end
  | Served m => m_id m ∈ c_serving c
  | _ => True
  end.

Definition seen_ids (o : op) : list nat := match o with Message (PeerInvoke r) => [q_id r] | _ => [] end.

Fixpoint allowed_ops (seen : list nat) (os : list op) (c : channel) : Prop :=
  match os with
  | [] => True
  | o :: rest => op_allowed seen o c /\ allowed_ops (seen ++ seen_ids o) rest (step o c).1
  end.

(** *** What was let out *)

Definition called (es : list effect) : list nat := omap (fun e => match e with Callback k _ => Some k | _ => None end) es.
Definition posted (es : list effect) : list nat := omap (fun e => match e with PostInvoke r => Some (q_id r) | _ => None end) es.
Definition dispatched (es : list effect) : list nat := omap (fun e => match e with OnInvoke r => Some (q_id r) | _ => None end) es.
Definition replied (es : list effect) : list nat := omap (fun e => match e with PostReply m => Some (m_id m) | _ => None end) es.

(** *** The caller's half *)

Definition in_order (l : list nat) : Prop := StronglySorted lt l.

(** [slack] is how many requests short of the cap the channel may be while
    others wait: none between steps, anything while a step is under way. *)
Record send_ok (slack : option Z) (c : channel) (cb po : list nat) : Prop := {
  s_active : c_activeSends c = Z.of_nat (length (c_out c)) /\ NoDup (c_out c) /\ (forall i, i ∈ c_out c -> i ∈ po);
  s_cap : forall m, maxConcurrentInvokes = Some m -> 0 <= m -> c_activeSends c <= m;
  s_order : in_order (po ++ map q_id (c_sendQueue c)) /\ Forall (fun i => (i < c_msgID c)%nat) (po ++ map q_id (c_sendQueue c));
  s_queued : forall r, r ∈ c_sendQueue c -> q_id r ∈ map fst (c_pending c);
  s_full : forall n, slack = Some n -> c_sendQueue c <> [] -> at_capacity (c_activeSends c + n) = true;
  s_ids : NoDup (map fst (c_pending c)) /\ Forall (fun p => (p.1 < c_msgID c)%nat) (c_pending c);
  s_once : NoDup (cb ++ map snd (c_pending c)) /\ Forall (fun k => (k < c_calls c)%nat) (cb ++ map snd (c_pending c));
  s_every : forall k, (k < c_calls c)%nat -> k ∈ cb ++ map snd (c_pending c);
  s_closed : c_closed c = true -> c_pending c = [] /\ c_sendQueue c = []
}.

Lemma in_order_snoc l x : in_order l -> Forall (fun i => (i < x)%nat) l -> in_order (l ++ [x]).
Proof.
  intros H. induction H as [|a l H IH Ha]; intros Hx; cbn; [by repeat constructor|].
  apply Forall_cons in Hx as [Hax Hx]. constructor; [by apply IH|]. apply Forall_app. split; [done|]. by repeat constructor.
Qed.

Lemma in_order_NoDup l : in_order l -> NoDup l.
Proof.
  intros H. induction H as [|a l H IH Ha]; constructor; [|done]. intros Hin. rewrite Forall_forall in Ha.
  specialize (Ha a Hin). lia.
Qed.

Lemma in_order_filter f l : in_order l -> in_order (List.filter f l).
Proof.
  intros H. induction H as [|a l H IH Ha]; cbn; [constructor|]. destruct (f a); [|done]. constructor; [done|].
  rewrite Forall_forall in *. intros x Hx. apply list_elem_of_In, filter_In in Hx as [Hx _]. apply Ha. by apply list_elem_of_In.
Qed.

Lemma drop_ids id l : map fst (drop_pending id l) = List.filter (fun i => negb (i =? id)%nat) (map fst l).
Proof. unfold drop_pending. induction l as [|p l IH]; [done|]. cbn. destruct (p.1 =? id)%nat; cbn; by rewrite IH. Qed.

Lemma filter_ids id (l : list request) :
  map q_id (List.filter (fun r => negb (q_id r =? id)%nat) l) = List.filter (fun i => negb (i =? id)%nat) (map q_id l).
Proof. induction l as [|r l IH]; [done|]. cbn. destruct (q_id r =? id)%nat; cbn; by rewrite IH. Qed.

Lemma elem_filter_ne id (l : list nat) i : i ∈ List.filter (fun i => negb (i =? id)%nat) l <-> i ∈ l /\ i <> id.
Proof. rewrite !list_elem_of_In, filter_In, negb_true_iff, Nat.eqb_neq. done. Qed.

Lemma filter_out id (l : list nat) : id ∉ l -> List.filter (fun i => negb (i =? id)%nat) l = l.
Proof.
  induction l as [|i l IH]; intros H; [done|]. cbn. destruct (Nat.eqb_spec i id) as [->|]; cbn.
  - exfalso. apply H. by left.
  - rewrite IH; [done|]. intros Hin. apply H. by right.
Qed.

Lemma filter_NoDup (l : list nat) id : NoDup l -> NoDup (List.filter (fun i => negb (i =? id)%nat) l).
Proof.
  induction 1 as [|i l Hi Hn IH]; [constructor|]. cbn. destruct (negb (i =? id)%nat); [|done]. constructor; [|done].
  intros H. apply elem_filter_ne in H. tauto.
Qed.

(** Taking one element out of a list without repetition. *)
Lemma length_take_out (l : list nat) id : NoDup l -> id ∈ l ->
  S (length (List.filter (fun i => negb (i =? id)%nat) l)) = length l.
Proof.
  induction 1 as [|i l Hi Hn IH]; intros Hin; [by apply elem_of_nil in Hin|]. cbn.
  destruct (Nat.eqb_spec i id) as [->|Hne]; cbn.
  - by rewrite filter_out.
  - apply elem_of_cons in Hin as [->|Hin]; [done|]. by rewrite IH.
Qed.

(** A call's entry, and the entries without it. *)
Lemma pending_split id l call :
  NoDup (map fst l) -> List.find (fun p => (p.1 =? id)%nat) l = Some (id, call) ->
  exists l1 l2, l = l1 ++ (id, call) :: l2 /\ drop_pending id l = l1 ++ l2.
Proof.
  unfold drop_pending. induction l as [|[i k] l IH]; intros Hn Hf; [done|]. cbn in *. apply NoDup_cons in Hn as [Hi Hn].
  destruct (Nat.eqb_spec i id) as [->|Hne]; cbn in *.
  - injection Hf as ->. exists [], l. split; [done|]. clear -Hi. induction l as [|[j v] l IH]; [done|]. cbn in *.
    destruct (Nat.eqb_spec j id) as [->|]; cbn; [exfalso; apply Hi; by left|]. rewrite IH; [done|]. intros H. apply Hi. by right.
  - destruct (IH Hn Hf) as (l1 & l2 & El & E). exists ((i, k) :: l1), l2. by rewrite E, El.
Qed.

Lemma pending_call_find id c call : pending_call id c = Some call ->
  List.find (fun p => (p.1 =? id)%nat) (c_pending c) = Some (id, call).
Proof.
  unfold pending_call. destruct (List.find _ (c_pending c)) as [[i k]|] eqn:E; [|done]. intros [= <-].
  by pose proof E as [_ <-%Nat.eqb_eq]%List.find_some.
Qed.

Lemma posted_app a b : posted (a ++ b) = posted a ++ posted b.
Proof. apply omap_app. Qed.
Lemma called_app a b : called (a ++ b) = called a ++ called b.
Proof. apply omap_app. Qed.

Lemma sorted_new l x : in_order l -> Forall (fun i => (i < x)%nat) l -> x ∉ l.
Proof. intros _ H Hin. rewrite Forall_forall in H. specialize (H x Hin). lia. Qed.

(** Sending the request at the queue's head. *)
Lemma send_next c cb po r rest :
  send_ok None c cb po -> c_sendQueue c = r :: rest -> at_capacity (c_activeSends c) = false ->
  (rest <> [] -> at_capacity (c_activeSends c + 1) = true) ->
  send_ok (Some 0) (sendInvoke r (with_sends c (c_pending c) (c_activeSends c) rest (c_out c))).1 cb (po ++ [q_id r]).
Proof.
  intros [[Ha [Hn Hp]] Hcap [Ho Hlt] Hq Hf Hid Hon He Hcl] Eq Ec Hrest. rewrite Eq in *. cbn [map] in *.
  assert (Hassoc : (po ++ [q_id r]) ++ map q_id rest = po ++ q_id r :: map q_id rest) by (by rewrite <- app_assoc).
  assert (Hnew : q_id r ∉ po).
  { apply in_order_NoDup in Ho. apply NoDup_app in Ho as (_ & Hd & _). intros H. apply (Hd _ H). by left. }
  split; cbn; try done.
  - rewrite length_app. cbn. split_and!; [lia| |].
    + apply NoDup_app. split; [done|]. split; [|apply NoDup_singleton]. intros i Hi ->%list_elem_of_singleton. by apply Hnew, Hp.
    + intros i. rewrite !elem_of_app. intros [H|H]; [left; by apply Hp|by right].
  - intros m Em Hm. unfold at_capacity in Ec. rewrite Em in Ec. lia.
  - by rewrite Hassoc.
  - intros r' Hr'. apply Hq. by right.
  - intros n [= <-] Hne. rewrite Z.add_0_r. by apply Hrest.
  - intros H. by destruct (Hcl H) as [_ ?].
Qed.

Lemma slack_weaken k c cb po : send_ok k c cb po -> send_ok None c cb po.
Proof. intros []. by split. Qed.

Lemma drain_ok c cb po :
  send_ok (Some 1) c cb po -> send_ok (Some 0) (drainSendQueue c).1 cb (po ++ posted (drainSendQueue c).2).
Proof.
  intros H. unfold drainSendQueue. destruct (c_sendQueue c) as [|r rest] eqn:Eq; [|destruct (at_capacity (c_activeSends c)) eqn:Ec].
  - cbn. rewrite app_nil_r. destruct H. by split.
  - cbn. rewrite app_nil_r. destruct H. split; try done. intros n [= <-] _. by rewrite Z.add_0_r.
  - apply send_next; [by eapply slack_weaken|done..|]. intros _. eapply (s_full _ _ _ _ H); [done|by rewrite Eq].
Qed.

(** One call is answered: its entry goes, and its request if it still waits. *)
Lemma settle_ok c cb po id call :
  send_ok (Some 0) c cb po -> pending_call id c = Some call ->
  send_ok (Some 0) (with_sends c (drop_pending id (c_pending c)) (c_activeSends c)
               (List.filter (fun r => negb (q_id r =? id)%nat) (c_sendQueue c)) (c_out c)) (cb ++ [call]) po.
Proof.
  intros [[Ha [Hn Hp]] Hcap [Ho Hlt] Hq Hf [Hid Hidl] [Hon Honl] He Hcl] Hc. apply pending_call_find in Hc.
  destruct (pending_split id (c_pending c) call Hid Hc) as (l1 & l2 & El & Ed).
  assert (Hperm : (cb ++ [call]) ++ map snd (l1 ++ l2) ≡ₚ cb ++ map snd (c_pending c)).
  { rewrite El, !map_app. cbn. rewrite <- app_assoc. apply Permutation_app_head. cbn. apply Permutation_middle. }
  split; cbn; try done.
  - rewrite filter_ids. split.
    + destruct (decide (id ∈ map q_id (c_sendQueue c))) as [Hin|Hin]; [|by rewrite filter_out].
      rewrite <- (filter_out id po); [rewrite <- List.filter_app; by apply in_order_filter|].
      apply in_order_NoDup, NoDup_app in Ho as (_ & Hd & _). intros H. by apply (Hd _ H).
    + apply Forall_app in Hlt as [Hl1 Hl2]. apply Forall_app. split; [done|]. rewrite Forall_forall in *.
      intros i Hi. apply elem_filter_ne in Hi as [Hi _]. by apply Hl2.
  - intros r Hr. apply list_elem_of_In, filter_In in Hr as [Hr Hne]. rewrite drop_ids. apply elem_filter_ne. split.
    + apply Hq. by apply list_elem_of_In.
    + by apply negb_true_iff, Nat.eqb_neq in Hne.
  - intros n [= <-] Hne. apply Hf; [done|]. intros E. by rewrite E in Hne.
  - rewrite Ed. rewrite El in Hid, Hidl. split.
    + rewrite map_app in *. cbn in Hid. apply NoDup_app in Hid as (H1 & H2 & H3). apply NoDup_cons in H3 as [_ H3].
      apply NoDup_app. split_and!; try done. intros x Hx Hx2. apply (H2 x Hx). by right.
    + apply Forall_app in Hidl as [H1 H2]. apply Forall_cons in H2 as [_ H2]. by apply Forall_app.
  - rewrite Ed. split; [by rewrite Hperm|]. by rewrite Hperm.
  - intros k Hk. rewrite Ed, Hperm. by apply He.
  - intros H. destruct (Hcl H) as [E1 _]. rewrite E1 in Hc. done.
Qed.

(** A call on a closed channel. *)
Lemma refuse_ok c cb po :
  send_ok (Some 0) c cb po -> c_closed c = true ->
  send_ok (Some 0) (mkChannel (c_msgID c) (c_pending c) (c_activeSends c) (c_sendQueue c) (c_activeDispatches c)
                      (c_dispatchQueue c) (c_closed c) (S (c_calls c)) (c_out c) (c_serving c)) (cb ++ [c_calls c]) po.
Proof.
  intros [Hs Hcap Ho Hq Hf Hid [Hon Honl] He Hcl] Ec. destruct (Hcl Ec) as [Ep _].
  rewrite Ep in *. cbn in *. rewrite app_nil_r in *. split; cbn; try done; rewrite ?Ep; cbn; rewrite ?app_nil_r; try done.
  - split.
    + apply NoDup_snoc; [done|]. intros H. rewrite Forall_forall in Honl. specialize (Honl _ H). lia.
    + apply Forall_app. split; [eapply Forall_impl; [exact Honl|cbn; lia]|by repeat constructor].
  - intros k Hk. rewrite elem_of_app, list_elem_of_singleton. destruct (decide (k = c_calls c)); [by right|].
    left. pose proof (He k ltac:(lia)) as Hk'. cbn in Hk'. by rewrite ?Ep, ?app_nil_r in Hk'.
Qed.

(** A new call, its request last in the queue. *)
Lemma enqueue_ok c cb po r :
  send_ok (Some 0) c cb po -> c_closed c = false -> q_id r = c_msgID c ->
  send_ok None (mkChannel (S (c_msgID c)) (c_pending c ++ [(c_msgID c, c_calls c)]) (c_activeSends c) (c_sendQueue c ++ [r])
                  (c_activeDispatches c) (c_dispatchQueue c) (c_closed c) (S (c_calls c)) (c_out c) (c_serving c)) cb po.
Proof.
  intros [[Ha [Hn Hp]] Hcap [Ho Hlt] Hq Hf [Hid Hidl] [Hon Honl] He Hcl] Ec Er. split; cbn; try done.
  - rewrite map_app, app_assoc. cbn. rewrite Er. split; [by apply in_order_snoc|]. apply Forall_app. split; [|by repeat constructor].
    eapply Forall_impl; [exact Hlt|]. cbn. lia.
  - intros r' Hr'. rewrite map_app. apply elem_of_app. apply elem_of_app in Hr' as [Hr'|Hr']; [left; by apply Hq|].
    right. apply list_elem_of_singleton in Hr' as ->. rewrite Er. by left.
  - rewrite map_app. cbn. split.
    + apply NoDup_snoc; [done|]. intros H. apply list_elem_of_fmap in H as (p & E & Hin). rewrite Forall_forall in Hidl.
      specialize (Hidl p Hin). lia.
    + apply Forall_app. split; [eapply Forall_impl; [exact Hidl|]; cbn; lia|by repeat constructor].
  - rewrite map_app, app_assoc. cbn. split.
    + apply NoDup_snoc; [done|]. intros H. rewrite Forall_forall in Honl. specialize (Honl _ H). lia.
    + apply Forall_app. split; [eapply Forall_impl; [exact Honl|]; cbn; lia|by repeat constructor].
  - intros k Hk. rewrite map_app, app_assoc, elem_of_app. cbn. destruct (decide (k = c_calls c)) as [->|]; [right; by left|].
    left. apply He. lia.
  - intros H. congruence.
Qed.

Lemma invoke_ok c cb po d sv a i b :
  send_ok (Some 0) c cb po ->
  send_ok (Some 0) (invoke d sv a i b c).1 (cb ++ called (invoke d sv a i b c).2) (po ++ posted (invoke d sv a i b c).2).
Proof.
  intros H. unfold invoke. destruct (c_closed c) eqn:Ec.
  - cbn. rewrite app_nil_r, <- Ec. by apply refuse_ok.
  - pose proof (enqueue_ok c cb po (mkReq (c_msgID c) d sv a i b) H Ec eq_refl) as Hq. rewrite Ec in Hq.
    cbn [c_activeSends]. destruct (at_capacity (c_activeSends c)) eqn:Ecap; cbn [fst snd].
    + cbn. rewrite !app_nil_r. destruct Hq. split; try done. intros n [= <-] _. cbn. by rewrite Z.add_0_r.
    + assert (Eq : c_sendQueue c = []).
      { destruct (c_sendQueue c) eqn:E; [done|]. assert (at_capacity (c_activeSends c + 0) = true) as Hx.
        { eapply (s_full _ _ _ _ H); [done|by rewrite E]. }
        rewrite Z.add_0_r in Hx. congruence. }
      rewrite Eq in Hq. cbn [app] in Hq.
      apply (send_next _ _ _ (mkReq (c_msgID c) d sv a i b) []) in Hq; [|done..]. cbn in Hq |- *. rewrite !app_nil_r, Eq. exact Hq.
Qed.

Lemma on_timer_ok c cb po id :
  send_ok (Some 0) c cb po ->
  send_ok (Some 0) (on_timer id c).1 (cb ++ called (on_timer id c).2) (po ++ posted (on_timer id c).2).
Proof.
  intros H. unfold on_timer. destruct (pending_call id c) as [call|] eqn:E; cbn; rewrite ?app_nil_r; [|done].
  by apply settle_ok.
Qed.

(** A reply gives its slot back. *)
Lemma reply_slot c cb po i :
  send_ok (Some 0) c cb po -> i ∈ c_out c ->
  send_ok (Some 1) (with_sends c (c_pending c) (c_activeSends c - 1) (c_sendQueue c)
                      (List.filter (fun j => negb (j =? i)%nat) (c_out c))) cb po.
Proof.
  intros [[Ha [Hn Hp]] Hcap Ho Hq Hf Hid Hon He Hcl] Hin. pose proof (length_take_out _ _ Hn Hin). split; cbn; try done.
  - split_and!; [lia|by apply filter_NoDup|]. intros j Hj. apply elem_filter_ne in Hj as [Hj _]. by apply Hp.
  - intros m Em Hm. specialize (Hcap m Em Hm). lia.
  - intros n [= <-] Hne. specialize (Hf 0 eq_refl Hne). by replace (c_activeSends c - 1 + 1) with (c_activeSends c + 0) by lia.
Qed.

Lemma drain_keeps c : c_pending (drainSendQueue c).1 = c_pending c /\ called (drainSendQueue c).2 = [] /\
  (forall r, r ∈ c_sendQueue (drainSendQueue c).1 -> r ∈ c_sendQueue c).
Proof.
  unfold drainSendQueue. destruct (c_sendQueue c) as [|r rest] eqn:E; [split_and!; try done; cbn; by rewrite E|].
  destruct (at_capacity _); split_and!; try done; cbn; [by rewrite E|]. intros r' Hr'. by right.
Qed.

Lemma handleReply_ok c cb po m :
  send_ok (Some 0) c cb po -> m_id m ∈ c_out c ->
  send_ok (Some 0) (handleReply m c).1 (cb ++ called (handleReply m c).2) (po ++ posted (handleReply m c).2).
Proof.
  intros H Hin. assert (Hpo : m_id m ∈ po) by (destruct (s_active _ _ _ _ H) as (_ & _ & Hp); by apply Hp).
  pose proof (s_order _ _ _ _ H) as [Ho _].
  pose proof (reply_slot _ _ _ _ H Hin) as H1. unfold handleReply. set (c1 := with_sends _ _ _ _ _) in *.
  pose proof (drain_ok _ _ _ H1) as H2. pose proof (drain_keeps c1) as (K1 & K2 & K3).
  destruct (drainSendQueue c1) as [c2 es]. cbn [fst snd] in H2, K1, K2, K3.
  destruct (pending_call (m_id m) c2) as [call|] eqn:E; cbn [fst snd].
  - rewrite called_app, posted_app, K2. cbn. rewrite app_nil_r.
    pose proof (settle_ok _ _ _ _ _ H2 E) as H3. replace (List.filter _ (c_sendQueue c2)) with (c_sendQueue c2) in H3; [done|].
    assert (Hno : m_id m ∉ map q_id (c_sendQueue c2)).
    { intros Hx. apply list_elem_of_fmap in Hx as (r & Er & Hr). apply K3 in Hr. cbn in Hr.
      apply in_order_NoDup, NoDup_app in Ho as (_ & Hd & _). apply (Hd _ Hpo). apply list_elem_of_fmap. by exists r. }
    clear -Hno. induction (c_sendQueue c2) as [|r l IH]; [done|]. cbn in *. destruct (Nat.eqb_spec (q_id r) (m_id m)) as [Ex|].
    + exfalso. apply Hno. rewrite Ex. by left.
    + cbn. f_equal. apply IH. intros Hx. apply Hno. by right.
  - by rewrite K2, app_nil_r.
Qed.

Lemma invalidate_ok c cb po :
  send_ok (Some 0) c cb po ->
  send_ok (Some 0) (invalidate c).1 (cb ++ called (invalidate c).2) (po ++ posted (invalidate c).2).
Proof.
  intros H. unfold invalidate. destruct (c_closed c) eqn:Ec; cbn [fst snd]; [cbn; by rewrite !app_nil_r|].
  destruct H as [Hs Hcap [Ho Hlt] Hq Hf [Hid Hidl] [Hon Honl] He Hcl].
  assert (E1 : forall tl : list (nat * nat), called (map (fun p => Callback p.2 (DeviceErr "PEER_GONE")) tl ++ [ClosePort; OnClose]) = map snd tl).
  { induction tl as [|p tl IH]; [done|]. cbn. f_equal. exact IH. }
  assert (E2 : forall tl : list (nat * nat), posted (map (fun p => Callback p.2 (DeviceErr "PEER_GONE")) tl ++ [ClosePort; OnClose]) = []).
  { induction tl as [|p tl IH]; [done|]. exact IH. }
  rewrite E1, E2, app_nil_r. split; cbn; rewrite ?app_nil_r; try done.
  - split.
    + clear -Ho. induction po as [|x po IH]; [constructor|]. cbn in Ho. inversion Ho as [|? ? H1 H2]; subst.
      constructor; [by apply IH|]. by apply Forall_app in H2 as [? _].
    + by apply Forall_app in Hlt as [? _].
  - intros r Hr. by apply elem_of_nil in Hr.
  - by split; constructor.
Qed.

(** *** The callee's half *)

(** [seen] are the requests that arrived, in order; [di] and [re] those
    dispatched and those replied to. *)
Record serve_ok (slack : option Z) (c : channel) (seen di re : list nat) : Prop := {
  v_active : c_activeDispatches c = Z.of_nat (length (c_serving c));
  v_cap : forall m, maxConcurrentInvokes = Some m -> 0 <= m -> c_activeDispatches c <= m;
  v_seen : NoDup seen;
  v_order : di ++ map q_id (c_dispatchQueue c) `prefix_of` seen /\
            (c_closed c = false -> di ++ map q_id (c_dispatchQueue c) = seen);
  v_full : forall n, slack = Some n -> c_dispatchQueue c <> [] -> at_capacity (c_activeDispatches c + n) = true;
  v_once : c_serving c ++ re ≡ₚ di
}.

Lemma dispatched_app a b : dispatched (a ++ b) = dispatched a ++ dispatched b.
Proof. apply omap_app. Qed.
Lemma replied_app a b : replied (a ++ b) = replied a ++ replied b.
Proof. apply omap_app. Qed.

Lemma dispatch_next c seen di re r rest :
  serve_ok None c seen di re -> c_dispatchQueue c = r :: rest -> at_capacity (c_activeDispatches c) = false ->
  (rest <> [] -> at_capacity (c_activeDispatches c + 1) = true) ->
  serve_ok (Some 0) (dispatchInvoke r (with_dispatches c (c_activeDispatches c) rest (c_serving c))).1 seen (di ++ [q_id r]) re.
Proof.
  intros [Ha Hcap Hn [Ho Ho'] Hf Hon] Eq Ec Hrest. rewrite Eq in *. cbn [map] in *.
  assert (Hassoc : (di ++ [q_id r]) ++ map q_id rest = di ++ q_id r :: map q_id rest) by (by rewrite <- app_assoc).
  split; cbn; try done.
  - rewrite length_app. cbn. lia.
  - intros m Em Hm. unfold at_capacity in Ec. rewrite Em in Ec. lia.
  - by rewrite Hassoc.
  - intros n [= <-] Hne. rewrite Z.add_0_r. by apply Hrest.
  - rewrite <- Hon. by rewrite <- !app_assoc, (Permutation_app_comm [q_id r] re).
Qed.

Lemma drain_dispatch_ok c seen di re :
  serve_ok (Some 1) c seen di re ->
  serve_ok (Some 0) (drainDispatchQueue c).1 seen (di ++ dispatched (drainDispatchQueue c).2) re /\
  replied (drainDispatchQueue c).2 = [].
Proof.
  intros H. unfold drainDispatchQueue.
  destruct (c_dispatchQueue c) as [|r rest] eqn:Eq; [|destruct (at_capacity (c_activeDispatches c)) eqn:Ec].
  - cbn. rewrite app_nil_r. split; [|done]. destruct H. by split.
  - cbn. rewrite app_nil_r. split; [|done]. destruct H. split; try done. intros n [= <-] _. by rewrite Z.add_0_r.
  - split; [|done]. apply dispatch_next; [destruct H; by split|done..|].
    intros _. eapply (v_full _ _ _ _ _ H); [done|by rewrite Eq].
Qed.

(** A request without a handler is answered at once. *)
Definition served_ids (es : list effect) : list nat := if hasHandler then replied es else [].
Definition arrived (o : op) : list nat := if hasHandler then seen_ids o else [].

Lemma handleInvoke_ok c seen di re r :
  serve_ok (Some 0) c seen di re -> c_closed c = false -> q_id r ∉ seen ->
  serve_ok (Some 0) (handleInvoke r c).1 (seen ++ (if hasHandler then [q_id r] else []))
    (di ++ dispatched (handleInvoke r c).2) (re ++ served_ids (handleInvoke r c).2).
Proof.
  intros H Ec Hr. unfold handleInvoke, served_ids. destruct hasHandler; cbn [negb]; [|cbn; by rewrite !app_nil_r].
  destruct H as [Ha Hcap Hn [Ho Ho'] Hf Hon]. specialize (Ho' Ec).
  assert (Hbase : serve_ok None (with_dispatches c (c_activeDispatches c) (c_dispatchQueue c ++ [r]) (c_serving c)) (seen ++ [q_id r]) di re).
  { split; cbn; try done.
    - by apply NoDup_snoc.
    - rewrite map_app, app_assoc, Ho'. split; [done|]. by intros _. }
  destruct (at_capacity (c_activeDispatches c)) eqn:Ecap; cbn [fst snd].
  - cbn. rewrite !app_nil_r. destruct Hbase. split; try done. intros n [= <-] _. cbn. by rewrite Z.add_0_r.
  - assert (Eq : c_dispatchQueue c = []).
    { destruct (c_dispatchQueue c) eqn:E; [done|]. assert (at_capacity (c_activeDispatches c + 0) = true) as Hx by (by apply Hf).
      rewrite Z.add_0_r in Hx. congruence. }
    rewrite Eq in Hbase. apply (dispatch_next _ _ _ _ r []) in Hbase; [|done..]. cbn in Hbase |- *. by rewrite app_nil_r, Eq.
Qed.

Lemma serving_split (l : list nat) i : NoDup l -> i ∈ l -> l ≡ₚ i :: List.filter (fun j => negb (j =? i)%nat) l.
Proof.
  induction 1 as [|j l Hj Hn IH]; intros Hin; [by apply elem_of_nil in Hin|]. cbn. destruct (Nat.eqb_spec j i) as [->|Hne]; cbn.
  - by rewrite filter_out.
  - apply elem_of_cons in Hin as [->|Hin]; [done|]. rewrite (IH Hin) at 1. apply perm_swap.
Qed.

Lemma served_ok c seen di re m :
  serve_ok (Some 0) c seen di re -> m_id m ∈ c_serving c ->
  serve_ok (Some 0) (served m c).1 seen (di ++ dispatched (served m c).2) (re ++ replied (served m c).2).
Proof.
  intros [Ha Hcap Hn [Ho Ho'] Hf Hon] Hin.
  assert (Hns : NoDup (c_serving c)).
  { pose proof Hn as Hd. destruct Ho as [k Ek]. rewrite Ek, <- app_assoc in Hd. apply NoDup_app in Hd as [Hd _].
    rewrite <- Hon in Hd. by apply NoDup_app in Hd as [? _]. }
  pose proof (length_take_out _ _ Hns Hin) as Hl. pose proof (serving_split _ _ Hns Hin) as Hp.
  unfold served. set (c1 := with_dispatches _ _ _ _).
  assert (H1 : serve_ok (Some 1) c1 seen di (re ++ [m_id m])).
  { split; cbn; try done.
    - lia.
    - intros n En Hn0. specialize (Hcap n En Hn0). lia.
    - intros n [= <-] Hne. specialize (Hf 0 eq_refl Hne). by replace (c_activeDispatches c - 1 + 1) with (c_activeDispatches c + 0) by lia.
    - rewrite <- Hon, app_assoc, (Permutation_app_comm _ [m_id m]). apply (Permutation_app_tail re) in Hp. by rewrite Hp. }
  apply drain_dispatch_ok in H1 as [H1 H2]. destruct (drainDispatchQueue c1) as [c2 es]. cbn [fst snd] in *.
  change (dispatched (PostReply m :: es)) with (dispatched es). change (replied (PostReply m :: es)) with (m_id m :: replied es).
  by rewrite H2.
Qed.

(** *** Every step *)

(** Steps of one half leave the other half's state alone. *)
Lemma send_frame c c' cb po :
  send_ok (Some 0) c cb po ->
  c_msgID c' = c_msgID c -> c_pending c' = c_pending c -> c_activeSends c' = c_activeSends c ->
  c_sendQueue c' = c_sendQueue c -> c_closed c' = c_closed c -> c_calls c' = c_calls c -> c_out c' = c_out c ->
  send_ok (Some 0) c' cb po.
Proof. intros [] E1 E2 E3 E4 E5 E6 E7. split; by rewrite ?E1, ?E2, ?E3, ?E4, ?E5, ?E6, ?E7. Qed.

Lemma serve_frame c c' seen di re :
  serve_ok (Some 0) c seen di re ->
  c_activeDispatches c' = c_activeDispatches c -> c_dispatchQueue c' = c_dispatchQueue c ->
  c_closed c' = c_closed c -> c_serving c' = c_serving c -> serve_ok (Some 0) c' seen di re.
Proof. intros [] E1 E2 E3 E4. split; by rewrite ?E1, ?E2, ?E3, ?E4. Qed.

Lemma handleInvoke_sends c cb po r :
  send_ok (Some 0) c cb po -> send_ok (Some 0) (handleInvoke r c).1 cb po /\ called (handleInvoke r c).2 = [] /\ posted (handleInvoke r c).2 = [].
Proof.
  intros H. unfold handleInvoke. destruct (negb hasHandler); [done|].
  destruct (at_capacity _); split_and!; try done; by eapply send_frame.
Qed.

Lemma served_sends c cb po m :
  send_ok (Some 0) c cb po -> send_ok (Some 0) (served m c).1 cb po /\ called (served m c).2 = [] /\ posted (served m c).2 = [].
Proof.
  intros H. unfold served, drainDispatchQueue. set (c1 := with_dispatches _ _ _ _).
  assert (H1 : send_ok (Some 0) c1 cb po) by (by eapply send_frame).
  destruct (c_dispatchQueue c1); [done|]. destruct (at_capacity _); split_and!; try done. by eapply send_frame.
Qed.

Lemma caller_serves c seen di re o :
  (match o with Invoke _ _ _ _ _ | Timer _ | Message (PeerReply _) | Message Other => True | _ => False end) ->
  serve_ok (Some 0) c seen di re ->
  serve_ok (Some 0) (step o c).1 seen di re /\ dispatched (step o c).2 = [] /\ replied (step o c).2 = [] /\ seen_ids o = [].
Proof.
  intros Ho H. destruct o as [d sv a i b|id|[r|m|]|m|]; try done; cbn [step onMessage].
  - unfold invoke. destruct (c_closed c) eqn:Ec; [split_and!; try done; by eapply serve_frame|].
    cbn [c_activeSends]. destruct (at_capacity _); split_and!; try done; by eapply serve_frame.
  - unfold on_timer. destruct (pending_call id c); split_and!; try done. by eapply serve_frame.
  - unfold handleReply, drainSendQueue. set (c1 := with_sends _ _ _ _ _).
    assert (H1 : serve_ok (Some 0) c1 seen di re) by (by eapply serve_frame).
    destruct (c_sendQueue c1) as [|r rest]; [|destruct (at_capacity _)]; cbn [fst snd sendInvoke];
      destruct (pending_call _ _); split_and!; try done; by eapply serve_frame.
Qed.

Definition channel_ok (seen : list nat) (c : channel) (es : list effect) : Prop :=
  send_ok (Some 0) c (called es) (posted es) /\
  serve_ok (Some 0) c (if hasHandler then seen else []) (dispatched es) (served_ids es).

Lemma served_ids_app a b : served_ids (a ++ b) = served_ids a ++ served_ids b.
Proof. unfold served_ids. destruct hasHandler; [apply replied_app|done]. Qed.

Lemma step_ok seen c es o :
  channel_ok seen c es -> op_allowed seen o c -> channel_ok (seen ++ seen_ids o) (step o c).1 (es ++ (step o c).2).
Proof.
  intros [Hs Hv] Ha. unfold channel_ok. rewrite called_app, posted_app, dispatched_app, served_ids_app.
  assert (Hcaller : (match o with Invoke _ _ _ _ _ | Timer _ | Message (PeerReply _) | Message Other => True | _ => False end) ->
            serve_ok (Some 0) (step o c).1 (if hasHandler then seen ++ seen_ids o else []) (dispatched es ++ dispatched (step o c).2)
              (served_ids es ++ served_ids (step o c).2)).
  { intros Ho. destruct (caller_serves c _ _ _ o Ho Hv) as (H1 & H2 & H3 & H4). unfold served_ids in *. rewrite H2, H3, H4, !app_nil_r.
    by destruct hasHandler; rewrite ?app_nil_r. }
  destruct o as [d sv a i b|id|[r|m|]|m|].
  - split; [by apply invoke_ok|by apply Hcaller].
  - split; [by apply on_timer_ok|by apply Hcaller].
  - destruct Ha as [Hc Hr]. cbn [step onMessage]. destruct (handleInvoke_sends c _ _ r Hs) as (H1 & H2 & H3).
    split; [by rewrite H2, H3, !app_nil_r|].
    assert (Hr' : q_id r ∉ (if hasHandler then seen else [])) by (by destruct hasHandler; [|apply not_elem_of_nil]).
    pose proof (handleInvoke_ok c _ _ _ r Hv Hc Hr') as H4. cbn [seen_ids]. by destruct hasHandler.
  - destruct Ha as [Hc Hr]. split; [by apply handleReply_ok|by apply Hcaller].
  - cbn [step onMessage fst snd called posted omap list_omap]. split; [by rewrite !app_nil_r|by apply Hcaller].
  - cbn [step seen_ids]. destruct (served_sends c _ _ m Hs) as (H1 & H2 & H3). rewrite H2, H3, !app_nil_r. split; [done|].
    cbn in Ha. unfold served_ids in *. destruct hasHandler eqn:Eh; [by apply served_ok|].
    exfalso. destruct Hv as [_ _ _ [[k Hk] _] _ Hon]. symmetry in Hk. apply app_nil in Hk as [Hk _]. apply app_nil in Hk as [Hk _].
    rewrite Hk in Hon. apply Permutation_nil_r, app_nil in Hon as [Hon _]. rewrite Hon in Ha. by apply elem_of_nil in Ha.
  - split; [by apply invalidate_ok|]. cbn [step seen_ids]. rewrite app_nil_r. unfold invalidate.
    destruct (c_closed c) eqn:Ec; cbn [fst snd].
    + change (dispatched []) with (@nil nat). replace (served_ids []) with (@nil nat) by (unfold served_ids; by destruct hasHandler).
      by rewrite !app_nil_r.
    + assert (E1 : forall tl : list (nat * nat), dispatched (map (fun p => Callback p.2 (DeviceErr "PEER_GONE")) tl ++ [ClosePort; OnClose]) = []).
      { induction tl as [|p tl IH]; [done|]. exact IH. }
      assert (E2 : forall tl : list (nat * nat), replied (map (fun p => Callback p.2 (DeviceErr "PEER_GONE")) tl ++ [ClosePort; OnClose]) = []).
      { induction tl as [|p tl IH]; [done|]. exact IH. }
      unfold served_ids at 2. rewrite E1, E2, app_nil_r. replace (if hasHandler then [] else []) with (@nil nat) by (by destruct hasHandler).
      rewrite app_nil_r. destruct Hv as [H1 H2 H3 [H4 _] H5 H6]. split; cbn; try done. rewrite app_nil_r. split; [|done].
      etransitivity; [|exact H4]. by apply prefix_app_r.
Qed.

Lemma run_ok os : forall seen c es,
  channel_ok seen c es -> allowed_ops seen os c ->
  channel_ok (seen ++ mjoin (map seen_ids os)) (run_ops os c).1 (es ++ (run_ops os c).2).
Proof.
  induction os as [|o os IH]; intros seen c es H Ha; cbn; [by rewrite !app_nil_r|]. destruct Ha as [Ho Ha].
  pose proof (step_ok _ _ _ _ H Ho) as H1. destruct (step o c) as [c1 e1]. cbn [fst snd] in *.
  specialize (IH _ _ _ H1 Ha). destruct (run_ops os c1) as [c2 e2]. cbn [fst snd] in *. by rewrite <- !app_assoc in IH.
Qed.

Lemma new_channel_ok : channel_ok [] new_channel [].
Proof.
  split.
  - split; cbn; try done; try (by repeat constructor); try lia. intros i H. by apply elem_of_nil in H.
  - unfold served_ids. destruct hasHandler; split; cbn; try done; try lia; apply NoDup_nil_2.
Qed.

(** The requests that arrived over the port. *)
Definition arrivals (os : list op) : list nat := mjoin (map seen_ids os).

(** A call over a peer channel is answered exactly once. Through any
    sequence of calls, timers, messages, served requests and invalidations, in
    any order: every call made has had its one callback or is pending, and
    none is pending once the channel is closed; requests are sent at most
    once, in the order of the calls, never more than the cap without a reply,
    and none waits while there is room; and on the serving side, requests are
    handed to the module in the order they arrived, each at most once, never
    more than the cap at work, none waiting while there is room, and each one
    handed over is replied to once or still at work. *)
Theorem peer_channel_settles (os : list op) :
  allowed_ops [] os new_channel ->
  let '(c, es) := run_ops os new_channel in
  (NoDup (called es ++ map snd (c_pending c)) /\
   (forall k, (k < c_calls c)%nat <-> k ∈ called es ++ map snd (c_pending c)) /\
   (c_closed c = true -> c_pending c = [])) /\
  (in_order (posted es) /\
   (forall m, maxConcurrentInvokes = Some m -> 0 <= m -> Z.of_nat (length (c_out c)) <= m) /\
   (c_sendQueue c <> [] -> at_capacity (Z.of_nat (length (c_out c))) = true)) /\
  (hasHandler = true ->
   dispatched es `prefix_of` arrivals os /\ c_serving c ++ replied es ≡ₚ dispatched es /\
   (forall m, maxConcurrentInvokes = Some m -> 0 <= m -> Z.of_nat (length (c_serving c)) <= m) /\
   (c_dispatchQueue c <> [] -> at_capacity (Z.of_nat (length (c_serving c))) = true)).
Proof.
  intros Ha. pose proof (run_ok os _ _ _ new_channel_ok Ha) as [Hs Hv]. cbn [app] in Hs, Hv. fold (arrivals os) in Hv.
  destruct (run_ops os new_channel) as [c es]. cbn [fst snd] in *.
  destruct Hs as [[Hsa _] Hcap [Ho _] _ Hf _ [Hon Hlt] He Hcl]. rewrite Hsa in Hcap, Hf. split_and!; try done.
  - intros k. split; [by apply He|]. intros Hk. rewrite Forall_forall in Hlt. by apply Hlt.
  - intros H. by destruct (Hcl H).
  - clear -Ho. induction (posted es) as [|x po IH]; [constructor|]. cbn in Ho. inversion Ho as [|? ? H1 H2]; subst.
    constructor; [by apply IH|]. by apply Forall_app in H2 as [? _].
  - intros Hne. specialize (Hf 0 eq_refl Hne). by rewrite Z.add_0_r in Hf.
  - intros Eh. destruct Hv as [Hva Hvc _ [Hvo _] Hvf Hvon]. unfold served_ids in Hvon. rewrite Eh in *. rewrite Hva in Hvc, Hvf.
    split_and!; try done.
    + etransitivity; [|exact Hvo]. by apply prefix_app_r.
    + intros Hne. specialize (Hvf 0 eq_refl Hne). by rewrite Z.add_0_r in Hvf.
Qed.
End channel.

(** Two calls with room for one: the first times out, its late reply frees the
    slot, the second is sent and answered. *)
Definition demo_ops : list op :=
  [Invoke "d" "s" "a" JNull JNull; Invoke "d" "s" "b" JNull JNull; Timer 0;
   Message (PeerReply (mkReply 0 None None JNull JUndef)); Message (PeerReply (mkReply 1 None None (JNum 5) JUndef))].

Lemma peer_channel_settles_witness :
  let '(c, es) := run_ops (Some 1) true (fun s => s) demo_ops new_channel in
  called es = [0; 1]%nat /\ posted es = [0; 1]%nat /\ in_order (posted es).
Proof.
  assert (Ha : allowed_ops (Some 1) true (fun s => s) [] demo_ops new_channel).
  { cbn. repeat split; try done; try (by apply list_elem_of_singleton). }
  pose proof (peer_channel_settles (Some 1) true (fun s => s) demo_ops Ha) as H.
  destruct (run_ops (Some 1) true (fun s => s) demo_ops new_channel) as [c es] eqn:E. vm_compute in E. injection E as <- <-.
  split; [reflexivity|split; [reflexivity|exact (proj1 (proj1 (proj2 H)))]].
Defined.
