(* ===== verification/PeerBroker.v ===== *)
(** * The broker of peer channels (lib/peer-channel-broker.js)

    Which worker pairs have a channel and under which grants: the request of a
    channel, its one authorization, the opening or the widening of a pair, the
    periodic re-check, and invalidation. An authorization is asked and
    answered later, other requests running between; [asks] are those without
    an answer. Workers are known by their thread id. *)
From Stdlib Require Import ZArith Lia Ascii String.
From stdpp Require Import prelude strings gmap.
From S2P Require Import Prelude Json.

Set Default Proof Using "Type".
Local Open Scope Z_scope.

(** A channel's registry entry; its grants by their key. *)
Record entry := mkEntry {
  en_id : nat;
  callerWM : nat;
  calleeWM : nat;
  grants : list (string * (jsval * string))
}.

(** An authorization asked for and not answered. *)
Inductive ask_for :=
| ForRequest (targetDeviceID : string) (appKey : jsval) (caller callee : nat)
| ForMissing (targetDeviceID : string) (caller : nat) (code : string)
| ForRecheck (en : nat) (appKey : jsval) (deviceID : string).

Record broker := mkBroker {
  registry : list entry;
  recheckInFlight : Z;
  asks : list (nat * (jsval * string * ask_for));
  allows : list (nat * (string * nat * nat));
  next : nat
}.

Definition new_broker : broker := mkBroker [] 0 [] [] 0.

(** Messages to workers, by worker. *)
Inductive effect :=
| Deny (worker : nat) (targetDeviceID code : string)
| Grant (worker : nat) (targetDeviceID : string) (targetWorkerId : nat) (port : bool)
| Open_ (worker : nat) (callerWorkerId : nat) (appKey : jsval) (targetDeviceID : string)
| Allow (worker : nat) (callerWorkerId : nat) (deviceID : string)
| Drop_ (worker : nat) (workerId : nat).

Definition NUL : string := String (ascii_of_nat 0) "".
Definition grantKey (appKey : jsval) (deviceID : string) : string := js_text appKey +:+ NUL +:+ deviceID.

Definition is_pair (caller callee : nat) (e : entry) : bool := (callerWM e =? caller)%nat && (calleeWM e =? callee)%nat.
Definition entry_of (caller callee : nat) (b : broker) : option entry := List.find (is_pair caller callee) (registry b).

Definition ask (appKey : jsval) (deviceID : string) (f : ask_for) (b : broker) : broker :=
  mkBroker (registry b) (recheckInFlight b) (asks b ++ [(next b, (appKey, deviceID, f))]) (allows b) (S (next b)).

(** What the device manager answers about a device: its worker, or why it has
    none ([missingDeviceError]). *)
Inductive hosted := HostedBy (worker : nat) | Missing (code : string).

Definition handleRequest (data : jsval) (caller : nat) (h : hosted) (b : broker) : broker * list effect :=
  match (if is_nullish data then JNull else jget "targetDeviceID" data) with
  | JStr target =>
      let appKey := if is_nullish data then JNull else jget "appKey" data in
      match h with
      | Missing code =>
          if negb (String.eqb code "DEVICE_NOT_FOUND") then (ask appKey target (ForMissing target caller code) b, [])
          else (b, [Deny caller target "DEVICE_NOT_FOUND"])
      | HostedBy callee =>
          if (callee =? caller)%nat then (b, [Deny caller target "PEER_SELF_TARGET"])
          else (ask appKey target (ForRequest target appKey caller callee) b, [])
      end
  | _ => (b, [])
  end.

Definition set_registry (b : broker) (r : list entry) : broker :=
  mkBroker r (recheckInFlight b) (asks b) (allows b) (next b).

Definition add_grant (appKey : jsval) (deviceID : string) (e : entry) : entry :=
  mkEntry (en_id e) (callerWM e) (calleeWM e) (assoc_set (grantKey appKey deviceID) (appKey, deviceID) (grants e)).

Definition grant (target : string) (appKey : jsval) (caller callee : nat) (b : broker) : broker * list effect :=
  match entry_of caller callee b with
  | Some _ =>
      let r := map (fun e => if is_pair caller callee e then add_grant appKey target e else e) (registry b) in
      (mkBroker r (recheckInFlight b) (asks b) (allows b ++ [(next b, (target, caller, callee))]) (S (next b)),
       [Allow callee caller target])
  | None =>
      let e := add_grant appKey target (mkEntry (next b) caller callee []) in
      (mkBroker (registry b ++ [e]) (recheckInFlight b) (asks b) (allows b) (S (next b)),
       [Open_ callee caller appKey target; Grant caller target callee true])
  end.

(** The callee has noted the device, or could not. *)
Definition allowed (ticket : nat) (err : option string) (b : broker) : broker * list effect :=
  match List.find (fun p => (p.1 =? ticket)%nat) (allows b) with
  | None => (b, [])
  | Some (_, (target, caller, callee)) =>
      (mkBroker (registry b) (recheckInFlight b) (asks b) (List.filter (fun p => negb (p.1 =? ticket)%nat) (allows b)) (next b),
       [match err with Some code => Deny caller target code | None => Grant caller target callee false end])
  end.

(** The re-check: the same question for every grant of every channel, unless
    the last pass is still waiting. *)
Definition grant_asks (b : broker) : list (jsval * string * ask_for) :=
  mjoin (map (fun e => map (fun g => (g.2.1, g.2.2, ForRecheck (en_id e) g.2.1 g.2.2)) (grants e)) (registry b)).

Definition ask_recheck (b : broker) (q : jsval * string * ask_for) : broker :=
  let b := ask q.1.1 q.1.2 q.2 b in
  mkBroker (registry b) (recheckInFlight b + 1) (asks b) (allows b) (next b).

Definition recheckGrants (b : broker) : broker :=
  if 0 <? recheckInFlight b then b else foldl ask_recheck b (grant_asks b).

Definition closeRevoked (en : nat) (b : broker) : broker * list effect :=
  match List.find (fun e => (en_id e =? en)%nat) (registry b) with
  | None => (b, [])
  | Some e =>
      (set_registry b (List.filter (fun e => negb (en_id e =? en)%nat) (registry b)),
       [Drop_ (callerWM e) (calleeWM e); Drop_ (calleeWM e) (callerWM e)])
  end.

(** An authorization is answered. *)
Definition answered (ticket : nat) (err : option string) (b : broker) : broker * list effect :=
  match List.find (fun p => (p.1 =? ticket)%nat) (asks b) with
  | None => (b, [])
  | Some (_, (_, _, f)) =>
      let rest := List.filter (fun p => negb (p.1 =? ticket)%nat) (asks b) in
      let b' := mkBroker (registry b) (recheckInFlight b) rest (allows b) (next b) in
      match f with
      | ForRequest target appKey caller callee =>
          match err with
          | Some code => (b', [Deny caller target code])
          | None => grant target appKey caller callee b'
          end
      | ForMissing target caller code =>
          (b', [Deny caller target (match err with Some c => c | None => code end)])
      | ForRecheck en _ _ =>
          let b' := mkBroker (registry b') (recheckInFlight b' - 1) (asks b') (allows b') (next b') in
          match err with Some _ => closeRevoked en b' | None => (b', []) end
      end
  end.

Definition involves (w : nat) (e : entry) : bool := (callerWM e =? w)%nat || (calleeWM e =? w)%nat.
Definition other_end (w : nat) (e : entry) : nat := if (callerWM e =? w)%nat then calleeWM e else callerWM e.

Definition invalidateWorker (w : nat) (b : broker) : broker * list effect :=
  (set_registry b (List.filter (fun e => negb (involves w e)) (registry b)),
   mjoin (map (fun e => if involves w e && negb (other_end w e =? w)%nat then [Drop_ (other_end w e) w] else []) (registry b))).

Inductive op :=
| Request (data : jsval) (caller : nat) (h : hosted)
| Answered (ticket : nat) (err : option string)
| Allowed (ticket : nat) (err : option string)
| Recheck
| InvalidateWorker (w : nat).

Definition step (o : op) (b : broker) : broker * list effect :=
  match o with
  | Request data caller h => handleRequest data caller h b
  | Answered t err => answered t err b
  | Allowed t err => allowed t err b
  | Recheck => (recheckGrants b, [])
  | InvalidateWorker w => invalidateWorker w b
  end.

Fixpoint broker_run (os : list op) (b : broker) : broker * list effect :=
  match os with
  | [] => (b, [])
  | o :: rest => let '(b1, e1) := step o b in
                 let '(b2, e2) := broker_run rest b1 in (b2, e1 ++ e2)
  end.

(** ** The invariant *)

(** The (appKey, device) pairs an authorization has allowed. *)
Definition auth_of (o : op) (b : broker) : list (jsval * string) :=
  match o with
  | Answered t None =>
      match List.find (fun p => (p.1 =? t)%nat) (asks b) with
      | Some (_, (_, _, ForRequest d a _ _)) => [(a, d)]
      | _ => []
      end
  | _ => []
  end.

Fixpoint authorized (os : list op) (b : broker) : list (jsval * string) :=
  match os with [] => [] | o :: rest => auth_of o b ++ authorized rest (step o b).1 end.

Definition is_recheck (p : nat * (jsval * string * ask_for)) : bool :=
  match p.2.2 with ForRecheck _ _ _ => true | _ => false end.

Definition entry_ok (auth : list (jsval * string)) (e : entry) : Prop :=
  callerWM e <> calleeWM e /\
  forall k g, (k, g) ∈ grants e -> k = grantKey g.1 g.2 /\ g ∈ auth.

Definition ask_ok (p : nat * (jsval * string * ask_for)) : Prop :=
  match p.2.2 with
  | ForRequest d a caller callee => p.2.1 = (a, d) /\ caller <> callee
  | ForRecheck _ a d => p.2.1 = (a, d)
  | ForMissing d _ _ => p.2.1.2 = d
  end.

(** What a message to a worker may say. *)
Definition effect_ok (auth : list (jsval * string)) (x : effect) : Prop :=
  match x with
  | Open_ _ _ a d => (a, d) ∈ auth
  | Allow _ _ d | Grant _ d _ _ => exists a, (a, d) ∈ auth
  | Deny _ _ _ | Drop_ _ _ => True
  end.

Record broker_ok (auth : list (jsval * string)) (b : broker) : Prop := {
  ok_ids : NoDup (map en_id (registry b)) /\ Forall (fun e => (en_id e < next b)%nat) (registry b);
  ok_pairs : NoDup (map (fun e => (callerWM e, calleeWM e)) (registry b));
  ok_entries : Forall (entry_ok auth) (registry b);
  ok_tickets : NoDup (map fst (asks b)) /\ Forall (fun p => (p.1 < next b)%nat) (asks b);
  ok_asks : Forall ask_ok (asks b);
  ok_flight : recheckInFlight b = Z.of_nat (length (List.filter is_recheck (asks b)));
  ok_allows : Forall (fun p : nat * (string * nat * nat) => exists a, (a, p.2.1.1) ∈ auth) (allows b)
}.

Lemma entry_mono auth x e : entry_ok auth e -> entry_ok (auth ++ x) e.
Proof. intros [H1 H2]. split; [done|]. intros k g Hg. destruct (H2 k g Hg). split; [done|]. apply elem_of_app. by left. Qed.

Lemma ok_mono auth x b : broker_ok auth b -> broker_ok (auth ++ x) b.
Proof.
  intros [H1 H2 H3 H4 H5 H6 H7]. split; try done.
  - eapply Forall_impl; [exact H3|]. intros e. apply entry_mono.
  - eapply Forall_impl; [exact H7|]. intros p [a Ha]. exists a. apply elem_of_app. by left.
Qed.

Lemma effect_mono auth x e : effect_ok auth e -> effect_ok (auth ++ x) e.
Proof. destruct e; cbn; try done; [intros [a Ha]; exists a| |intros [a Ha]; exists a]; set_solver. Qed.

Lemma fresh_ids {A} (f : A -> nat) l n : Forall (fun x => (f x < n)%nat) l -> n ∉ map f l.
Proof.
  intros H Hin. apply list_elem_of_fmap in Hin as (x & E & Hx). rewrite Forall_forall in H. specialize (H x Hx). lia.
Qed.

Lemma ask_broker_ok auth b a d f :
  broker_ok auth b -> ask_ok (next b, (a, d, f)) -> (match f with ForRecheck _ _ _ => False | _ => True end) ->
  broker_ok auth (ask a d f b).
Proof.
  intros [[H1 H1'] H2 H3 [H4 H4'] H5 H6 H7] Hok Hf. split; cbn; try done.
  - split; [done|]. eapply Forall_impl; [exact H1'|]. cbn. lia.
  - split.
    + apply NoDup_map_snoc; [done|]. by apply fresh_ids.
    + apply Forall_app. split; [eapply Forall_impl; [exact H4'|]; cbn; lia|]. repeat constructor.
  - apply Forall_app. split; [done|]. by repeat constructor.
  - rewrite List.filter_app, length_app. cbn. destruct f; try done; cbn; lia.
Qed.

Lemma handleRequest_ok auth b data caller h :
  broker_ok auth b -> broker_ok auth (handleRequest data caller h b).1 /\ Forall (effect_ok auth) (handleRequest data caller h b).2.
Proof.
  intros H. unfold handleRequest. destruct (if is_nullish data then JNull else jget "targetDeviceID" data); try (split; [exact H|constructor]).
  destruct h as [callee|code].
  - destruct (Nat.eqb_spec callee caller) as [->|Hne]; [split; [done|by repeat constructor]|].
    split; [|constructor]. apply ask_broker_ok; [done|split; [done|congruence]|done].
  - destruct (negb _); [|split; [done|by repeat constructor]]. split; [|constructor]. by apply ask_broker_ok.
Qed.

(** Entries changed or added by a grant. *)
Lemma add_grant_ok auth a d e : entry_ok auth e -> (a, d) ∈ auth -> entry_ok auth (add_grant a d e).
Proof.
  intros [H1 H2] Ha. split; [done|]. intros k g Hg. cbn in Hg.
  assert (Hcase : (k, g) = (grantKey a d, (a, d)) \/ (k, g) ∈ grants e).
  { clear -Hg. induction (grants e) as [|[j v] l IH]; cbn in Hg.
    - left. by apply list_elem_of_singleton in Hg.
    - destruct (String.eqb_spec (grantKey a d) j) as [<-|]; apply elem_of_cons in Hg as [Hg|Hg]; [by left|right; by right|right; rewrite Hg; by left|].
      destruct (IH Hg); [by left|right; by right]. }
  destruct Hcase as [[= -> ->]|Hin]; [done|by apply H2].
Qed.

Lemma grant_ok auth b d a caller callee :
  broker_ok auth b -> (a, d) ∈ auth -> caller <> callee ->
  broker_ok auth (grant d a caller callee b).1 /\ Forall (effect_ok auth) (grant d a caller callee b).2.
Proof.
  intros [[H1 H1'] H2 H3 [H4 H4'] H5 H6 H7] Ha Hne. unfold grant. destruct (entry_of caller callee b) as [e0|] eqn:E; cbn [fst snd].
  - set (f := fun e => if is_pair caller callee e then add_grant a d e else e).
    assert (Eid : map en_id (map f (registry b)) = map en_id (registry b)).
    { rewrite map_map. apply map_ext. intros e. unfold f. by destruct (is_pair _ _ e). }
    assert (Epair : map (fun e => (callerWM e, calleeWM e)) (map f (registry b)) = map (fun e => (callerWM e, calleeWM e)) (registry b)).
    { rewrite map_map. apply map_ext. intros e. unfold f. by destruct (is_pair _ _ e). }
    split; [|repeat constructor; by exists a]. split; cbn; try done.
    + rewrite Eid. split; [done|]. apply Forall_map. eapply Forall_impl; [exact H1'|]. cbn. intros e Hlt. unfold f.
      destruct (is_pair _ _ e); cbn; lia.
    + by rewrite Epair.
    + apply Forall_map. eapply Forall_impl; [exact H3|]. intros e He. unfold f. destruct (is_pair _ _ e); [by apply add_grant_ok|done].
    + split; [done|]. eapply Forall_impl; [exact H4'|]. cbn. lia.
    + apply Forall_app. split; [done|]. repeat constructor. by exists a.
  - assert (Hnot : (caller, callee) ∉ map (fun e => (callerWM e, calleeWM e)) (registry b)).
    { intros Hin. apply list_elem_of_fmap in Hin as (e & Ee & Hin). apply list_elem_of_In in Hin.
      unfold entry_of in E. pose proof (List.find_none _ _ E e Hin) as Hf. unfold is_pair in Hf.
      injection Ee as E1 E2. rewrite <- E1, <- E2, !Nat.eqb_refl in Hf. done. }
    split; [|repeat constructor; [done|by exists a]]. split; cbn; try done.
    + split; [apply NoDup_map_snoc; [done|by apply fresh_ids]|]. apply Forall_app.
      split; [eapply Forall_impl; [exact H1'|]; cbn; lia|]. repeat constructor.
    + by apply NoDup_map_snoc.
    + apply Forall_app. split; [done|]. constructor; [|done]. apply add_grant_ok; [|done]. split; [done|].
      intros k g Hg. by apply elem_of_nil in Hg.
    + split; [done|]. eapply Forall_impl; [exact H4'|]. cbn. lia.
Qed.

Lemma find_ask b t p : List.find (fun q => (q.1 =? t)%nat) (asks b) = Some p -> p ∈ asks b /\ p.1 = t.
Proof. intros [H E%Nat.eqb_eq]%List.find_some. split; [by apply list_elem_of_In|done]. Qed.

Lemma count_taken (l : list (nat * (jsval * string * ask_for))) p :
  NoDup (map fst l) -> p ∈ l ->
  length (List.filter is_recheck l) =
  (length (List.filter is_recheck (List.filter (fun q => negb (q.1 =? p.1)%nat) l)) + (if is_recheck p then 1 else 0))%nat.
Proof.
  induction l as [|q l IH]; intros Hn Hin; [by apply elem_of_nil in Hin|]. cbn in Hn. apply NoDup_cons in Hn as [Hq Hn].
  apply elem_of_cons in Hin as [->|Hin]; cbn [List.filter].
  - rewrite Nat.eqb_refl. cbn [negb]. replace (List.filter (fun x => negb (x.1 =? q.1)%nat) l) with l.
    + destruct (is_recheck q); cbn; lia.
    + clear -Hq. induction l as [|x l IH]; [done|]. cbn in *. destruct (Nat.eqb_spec x.1 q.1) as [E|E]; cbn.
      * exfalso. apply Hq. rewrite E. by left.
      * f_equal. apply IH. intros H. apply Hq. by right.
  - destruct (Nat.eqb_spec q.1 p.1) as [E|E]; cbn [negb].
    + exfalso. apply Hq. rewrite E. apply list_elem_of_fmap. by exists p.
    + specialize (IH Hn Hin). cbn. destruct (is_recheck q); cbn; lia.
Qed.

(** A ticket taken off the asks. *)
Lemma ticket_taken_ok auth b p :
  broker_ok auth b -> p ∈ asks b ->
  broker_ok auth (mkBroker (registry b) (recheckInFlight b - (if is_recheck p then 1 else 0))
                    (List.filter (fun q => negb (q.1 =? p.1)%nat) (asks b)) (allows b) (next b)).
Proof.
  intros [[H1 H1'] H2 H3 [H4 H4'] H5 H6 H7] Hin. pose proof (count_taken _ _ H4 Hin) as Hc. split; cbn; try done.
  - split; [by apply map_NoDup_filter|by apply Forall_filter_ok].
  - by apply Forall_filter_ok.
  - destruct (is_recheck p); lia.
Qed.

Lemma registry_filter_ok auth b (keep : entry -> bool) :
  broker_ok auth b -> broker_ok auth (set_registry b (List.filter keep (registry b))).
Proof.
  intros [[H1 H1'] H2 H3 H4 H5 H6 H7]. split; cbn; try done.
  - split; [by apply map_NoDup_filter|by apply Forall_filter_ok].
  - by apply map_NoDup_filter.
  - by apply Forall_filter_ok.
Qed.

Lemma closeRevoked_ok auth b en :
  broker_ok auth b -> broker_ok auth (closeRevoked en b).1 /\ Forall (effect_ok auth) (closeRevoked en b).2.
Proof.
  intros H. unfold closeRevoked. destruct (List.find _ (registry b)); [|done].
  split; [by apply registry_filter_ok|by repeat constructor].
Qed.

Lemma answered_ok auth b t err :
  broker_ok auth b ->
  broker_ok (auth ++ auth_of (Answered t err) b) (answered t err b).1 /\
  Forall (effect_ok (auth ++ auth_of (Answered t err) b)) (answered t err b).2.
Proof.
  intros H. unfold answered, auth_of. destruct (List.find (fun p => (p.1 =? t)%nat) (asks b)) as [[t' [[a d] f]]|] eqn:E.
  - apply find_ask in E as [Hin <-]. cbn in Hin. pose proof (ticket_taken_ok auth b _ H Hin) as Ht. cbn [fst] in Ht |- *.
    pose proof (ok_asks _ _ H) as Hk. rewrite Forall_forall in Hk. specialize (Hk _ Hin). destruct f as [d' a' caller callee|d' caller code|en a' d'].
    + unfold is_recheck in Ht at 1. cbn in Ht. rewrite Z.sub_0_r in Ht. destruct Hk as [[= -> ->] Hne].
      destruct err as [code|]; [rewrite app_nil_r; split; [done|by repeat constructor]|].
      apply grant_ok; [by apply ok_mono|apply elem_of_app; right; by left|done].
    + unfold is_recheck in Ht at 1. cbn in Ht. rewrite Z.sub_0_r in Ht.
      destruct err; rewrite app_nil_r; (split; [done|by repeat constructor]).
    + unfold is_recheck in Ht at 1. cbn in Ht. destruct err; rewrite app_nil_r; [by apply closeRevoked_ok|done].
  - destruct err; by rewrite app_nil_r.
Qed.

Lemma allowed_ok auth b t err :
  broker_ok auth b -> broker_ok auth (allowed t err b).1 /\ Forall (effect_ok auth) (allowed t err b).2.
Proof.
  intros H. unfold allowed. destruct (List.find _ (allows b)) as [[t' [[d caller] callee]]|] eqn:E; [|done].
  apply List.find_some in E as [Hin%list_elem_of_In _]. destruct H as [H1 H2 H3 H4 H5 H6 H7].
  pose proof H7 as Hall. rewrite Forall_forall in Hall. specialize (Hall _ Hin). split.
  - split; cbn; try done. by apply Forall_filter_ok.
  - destruct err; repeat constructor. exact Hall.
Qed.

Lemma ask_recheck_ok auth b q :
  broker_ok auth b -> (match q.2 with ForRecheck _ a d => q.1 = (a, d) | _ => False end) -> broker_ok auth (ask_recheck b q).
Proof.
  intros [[H1 H1'] H2 H3 [H4 H4'] H5 H6 H7] Hq. destruct q as [[a d] [| |en a' d']]; try done. split; cbn; try done.
  - split; [done|]. eapply Forall_impl; [exact H1'|]. cbn. lia.
  - split.
    + apply NoDup_map_snoc; [done|]. by apply fresh_ids.
    + apply Forall_app. split; [eapply Forall_impl; [exact H4'|]; cbn; lia|]. repeat constructor.
  - apply Forall_app. split; [done|]. by repeat constructor.
  - rewrite List.filter_app, length_app. cbn. lia.
Qed.

Lemma grant_asks_shape b : Forall (fun q => match q.2 with ForRecheck _ a d => q.1 = (a, d) | _ => False end) (grant_asks b).
Proof.
  unfold grant_asks. apply Forall_join, Forall_map, Forall_forall. intros e _. apply Forall_map, Forall_forall. by intros [k [a d]] _.
Qed.

Lemma recheck_ok auth b : broker_ok auth b -> broker_ok auth (recheckGrants b).
Proof.
  unfold recheckGrants. destruct (0 <? recheckInFlight b); [done|]. pose proof (grant_asks_shape b) as Hs. revert Hs.
  generalize (grant_asks b). intros l. revert b. induction l as [|q l IH]; intros b Hs H; cbn; [done|].
  apply Forall_cons in Hs as [Hq Hs]. apply IH; [done|]. by apply ask_recheck_ok.
Qed.

Lemma broker_step_ok auth b o :
  broker_ok auth b -> broker_ok (auth ++ auth_of o b) (step o b).1 /\ Forall (effect_ok (auth ++ auth_of o b)) (step o b).2.
Proof.
  intros H. destruct o as [data caller h|t err|t err| |w].
  - cbn [auth_of]. rewrite app_nil_r. by apply handleRequest_ok.
  - by apply answered_ok.
  - cbn [auth_of]. rewrite app_nil_r. by apply allowed_ok.
  - cbn [auth_of step fst snd]. rewrite app_nil_r. split; [by apply recheck_ok|constructor].
  - cbn [auth_of step invalidateWorker fst snd]. rewrite app_nil_r. split; [by apply registry_filter_ok|].
    apply Forall_join, Forall_map, Forall_forall. intros e _. destruct (_ && _); repeat constructor.
Qed.

Lemma broker_run_ok os : forall auth b,
  broker_ok auth b -> broker_ok (auth ++ authorized os b) (broker_run os b).1 /\
                      Forall (effect_ok (auth ++ authorized os b)) (broker_run os b).2.
Proof.
  induction os as [|o os IH]; intros auth b H; cbn [broker_run authorized]; [by rewrite app_nil_r|].
  destruct (broker_step_ok _ _ o H) as [H1 H2]. destruct (step o b) as [b1 e1]. cbn [fst snd] in *.
  destruct (IH _ _ H1) as [H3 H4]. destruct (broker_run os b1) as [b2 e2]. cbn [fst snd] in *.
  rewrite <- app_assoc in H3, H4. split; [done|]. apply Forall_app. split; [|done].
  rewrite app_assoc. eapply Forall_impl; [exact H2|]. intros x. apply effect_mono.
Qed.

Lemma new_broker_ok : broker_ok [] new_broker.
Proof. split; cbn; try done; try (split; constructor); apply NoDup_nil_2. Qed.

(** *** Re-checking *)

Lemma foldl_asks l : forall b t q, (t, q) ∈ asks b -> (t, q) ∈ asks (foldl ask_recheck b l).
Proof.
  induction l as [|x l IH]; intros b t q H; cbn; [done|]. apply IH. cbn. apply elem_of_app. by left.
Qed.

Lemma foldl_asked l : forall b q, q ∈ l -> exists t, (t, q) ∈ asks (foldl ask_recheck b l).
Proof.
  induction l as [|x l IH]; intros b q H; [by apply elem_of_nil in H|]. cbn. apply elem_of_cons in H as [->|H]; [|by apply IH].
  exists (next b). apply foldl_asks. cbn. apply elem_of_app. right. apply list_elem_of_singleton. by destruct x as [[a d] f].
Qed.

Lemma find_entry b e : NoDup (map en_id (registry b)) -> e ∈ registry b ->
  List.find (fun x => (en_id x =? en_id e)%nat) (registry b) = Some e.
Proof.
  induction (registry b) as [|x l IH]; intros Hn Hin; [by apply elem_of_nil in Hin|]. cbn in *. apply NoDup_cons in Hn as [Hx Hn].
  destruct (Nat.eqb_spec (en_id x) (en_id e)) as [E|E].
  - apply elem_of_cons in Hin as [->|Hin]; [done|]. exfalso. apply Hx. rewrite E. apply list_elem_of_fmap. by exists e.
  - apply elem_of_cons in Hin as [->|Hin]; [done|by apply IH].
Qed.

Lemma find_ticket b t q : NoDup (map fst (asks b)) -> (t, q) ∈ asks b ->
  List.find (fun p => (p.1 =? t)%nat) (asks b) = Some (t, q).
Proof.
  induction (asks b) as [|x l IH]; intros Hn Hin; [by apply elem_of_nil in Hin|]. cbn in *. apply NoDup_cons in Hn as [Hx Hn].
  destruct (Nat.eqb_spec x.1 t) as [E|E].
  - apply elem_of_cons in Hin as [->|Hin]; [done|]. exfalso. apply Hx. rewrite E. apply list_elem_of_fmap. by exists (t, q).
  - apply elem_of_cons in Hin as [<-|Hin]; [done|by apply IH].
Qed.

Lemma gone b en : en ∉ map en_id (closeRevoked en b).1.(registry).
Proof.
  intros H. apply list_elem_of_fmap in H as (x & -> & Hx). unfold closeRevoked in Hx.
  destruct (List.find _ (registry b)) eqn:E; cbn in Hx.
  - apply list_elem_of_In, filter_In in Hx as [_ Hx]. by rewrite Nat.eqb_refl in Hx.
  - apply list_elem_of_In in Hx. pose proof (List.find_none _ _ E x Hx) as Hn. cbn in Hn. by rewrite Nat.eqb_refl in Hn.
Qed.

(** ** The properties *)

(** No worker gets a channel it was not authorized for. Through any
    interleaving of requests, authorization answers, re-checks and
    invalidations: a channel is opened, a pair is widened to a device and a
    caller is told of a grant only for a device some authorization has
    allowed a caller's key; every grant a channel stands on is a pair (key,
    device) an authorization allowed; no worker has a channel to itself; and
    two workers have at most one channel in each direction. *)
Theorem peer_grants_authorized (os : list op) :
  let '(b, es) := broker_run os new_broker in
  Forall (effect_ok (authorized os new_broker)) es /\
  Forall (entry_ok (authorized os new_broker)) (registry b) /\
  NoDup (map (fun e => (callerWM e, calleeWM e)) (registry b)).
Proof.
  destruct (broker_run_ok os _ _ new_broker_ok) as [H1 H2]. cbn [app] in *. destruct (broker_run os new_broker) as [b es].
  cbn [fst snd] in *. by destruct H1.
Qed.

(** A revoked grant closes its channel. From any reachable state: a pass of
    the re-check with none before it still waiting asks again about every
    grant of every channel; the answer that refuses one takes the channel out
    of the registry and, if it was still there, tells both of its workers to
    drop it; as many answers are waited for as were asked, so the next pass
    runs when they are in; and invalidating a worker leaves no channel of its
    own, the other end of each being told. *)
Theorem revoked_grants_close (os : list op) :
  let b := (broker_run os new_broker).1 in
  (recheckInFlight b = 0 -> forall e k g, e ∈ registry b -> (k, g) ∈ grants e ->
     exists t, (t, (g.1, g.2, ForRecheck (en_id e) g.1 g.2)) ∈ asks (recheckGrants b)) /\
  (forall t a d en code, (t, (a, d, ForRecheck en a d)) ∈ asks b ->
     en ∉ map en_id (registry (answered t (Some code) b).1) /\
     (forall e, e ∈ registry b -> en_id e = en ->
        (answered t (Some code) b).2 = [Drop_ (callerWM e) (calleeWM e); Drop_ (calleeWM e) (callerWM e)])) /\
  recheckInFlight b = Z.of_nat (length (List.filter is_recheck (asks b))) /\
  (forall w, Forall (fun e => callerWM e <> w /\ calleeWM e <> w) (registry (invalidateWorker w b).1) /\
     forall e, e ∈ registry b -> involves w e = true -> Drop_ (other_end w e) w ∈ (invalidateWorker w b).2).
Proof.
  cbn zeta. destruct (broker_run_ok os _ _ new_broker_ok) as [H _]. set (b := (broker_run os new_broker).1) in *.
  destruct H as [[H1 H1'] H2 H3 [H4 H4'] H5 H6 H7]. split_and!.
  - intros Hz e k g He Hg. unfold recheckGrants. rewrite Hz. cbn [Z.ltb Z.compare]. apply foldl_asked. unfold grant_asks.
    apply list_elem_of_join. eexists. split; [|apply list_elem_of_fmap; exists e; by split].
    apply list_elem_of_fmap. exists (k, g). by split.
  - intros t a d en code Hin. unfold answered. rewrite (find_ticket b t _ H4 Hin). split; [apply gone|].
    intros e He <-. unfold closeRevoked. cbn [registry]. by rewrite (find_entry b e H1 He).
  - done.
  - intros w. split.
    + cbn. rewrite Forall_forall. intros e He. apply list_elem_of_In, filter_In in He as [_ He]. unfold involves in He.
      destruct (Nat.eqb_spec (callerWM e) w), (Nat.eqb_spec (calleeWM e) w); done.
    + intros e He Hw. cbn. apply list_elem_of_join. eexists. split; [|apply list_elem_of_fmap; exists e; by split].
      rewrite Hw. rewrite Forall_forall in H3. destruct (H3 e He) as [Hne _].
      replace (other_end w e =? w)%nat with false; [by left|]. symmetry. apply Nat.eqb_neq. unfold other_end, involves in *.
      destruct (Nat.eqb_spec (callerWM e) w); [congruence|done].
Qed.
