(* ===== verification/Metering.v ===== *)
(** * Metering providers (lib/metering/redis-provider.js and x402-provider.js)

    The text a tool is billed under and how it is read back, the script that
    decides a call in one step of Redis, and what the accounts of an API key
    come to after any number of calls. Costs and balances are whole numbers of
    units; the entries of the price table are kept decoded. *)
From Stdlib Require Import ZArith Lia Ascii String.
From stdpp Require Import prelude strings gmap.
From S2P Require Import Prelude Json.

Set Default Proof Using "Type".
Local Open Scope Z_scope.

(** ** The text of a tool *)

Definition LEGACY_TOOL_DELIMITER : string := ":::".

Definition encodeLegacyTool (deviceID serviceID actionName : string) : string :=
  deviceID +:+ LEGACY_TOOL_DELIMITER +:+ serviceID +:+ LEGACY_TOOL_DELIMITER +:+ actionName.

(** [s.split(':::')] *)
Fixpoint split_delimiter (s : string) : list string :=
  match s with
  | EmptyString => [""]
  | String a s' =>
      match s' with
      | String b (String c rest) =>
          if Ascii.eqb a ":" && Ascii.eqb b ":" && Ascii.eqb c ":" then "" :: split_delimiter rest
          else match split_delimiter s' with w :: ws => String a w :: ws | [] => [String a ""] end
      | _ => [s]
      end
  end.

Definition decodeLegacyTool (tool : string) : option (string * string * string) :=
  match split_delimiter tool with
  | [d; s; a] => Some (d, s, a)
  | _ => None
  end.

(** ** The account of one API key *)

Inductive price := Count (n : Z) | NoCount.

(** The [toolPriceRecord] field: absent, not a JSON object, or a table. *)
Inductive price_field := Absent | Invalid | Table (prices : list (string * price)).

Record account := mkAccount {
  balance : option Z;
  toolPriceRecord : price_field
}.

Inductive script_reply := ScriptError | Free (balance : Z) (remaining : Z) | Charged (balance : Z).

Section redis.
(** Lua's [tonumber] on the seed's text. *)
Context (tonumber : string -> option Z).

Definition seeded (tool seed : string) (prices : list (string * price)) : list (string * price) :=
  match assoc tool prices with
  | Some _ => prices
  | None => if String.eqb seed "" then prices
            else assoc_set tool (match tonumber seed with Some n => Count n | None => NoCount end) prices
  end.

(** RECORD_CALL_SCRIPT: one step. *)
Definition RECORD_CALL_SCRIPT (tool : string) (cost : Z) (seed : string) (acc : account) : account * script_reply :=
  match toolPriceRecord acc with
  | Invalid => (acc, ScriptError)
  | field =>
      let record := seeded tool seed (match field with Table p => p | _ => [] end) in
      let charge :=
        let b := default 0 (balance acc) - cost in (mkAccount (Some b) field, Charged b) in
      match assoc tool record with
      | Some (Count n) =>
          if 0 <? n then
            (mkAccount (balance acc) (Table (assoc_set tool (Count (n - 1)) record)), Free (default 0 (balance acc)) (n - 1))
          else charge
      | _ => charge
      end
  end.

(** The free calls the old [devices] field grants, as text; an exception while
    it is read leaves none. *)
Fixpoint legacy_entry (deviceID serviceID actionName : string) (devices : list jsval) : string :=
  match devices with
  | [] => ""
  | x :: rest =>
      if is_nullish x then ""
      else if negb (strict_eq (jget "deviceID" x) (JStr deviceID)) then legacy_entry deviceID serviceID actionName rest
      else
        let prices := jget "priceRecord" x in
        if is_nullish prices then ""
        else if is_nullish (jget serviceID prices) then ""
        else let e := jget actionName (jget serviceID prices) in
             if is_nullish e then "" else js_text (jget "count" e)
  end.

(** [devices] is the field's text parsed: absent, or not JSON, grants nothing. *)
Definition legacySeed (devices : option jsval) (tool : string) : string :=
  match devices, decodeLegacyTool tool with
  | Some (JArr xs), Some (d, s, a) => legacy_entry d s a xs
  | _, _ => ""
  end.

Inductive metering_result :=
| MeteringError
| Recorded (apiKey tool : string) (charged balance : Z) (remainingFreeCalls : option Z).

(** [recordCall] of a key whose [devices] field is as given (it has no writer). *)
Definition recordCall (devices : option jsval) (apiKey tool : string) (cost : Z) (acc : account) : account * metering_result :=
  let '(acc', reply) := RECORD_CALL_SCRIPT tool cost (legacySeed devices tool) acc in
  (acc', match reply with
         | ScriptError => MeteringError
         | Free b n => Recorded apiKey tool 0 b (Some n)
         | Charged b => Recorded apiKey tool cost b None
         end).

Definition checkBalance (acc : account) : Z := default 0 (balance acc).

(** Calls of one key, in the order their scripts ran. *)
Fixpoint record_all (devices : option jsval) (apiKey : string) (calls : list (string * Z)) (acc : account) :
    account * list metering_result :=
  match calls with
  | [] => (acc, [])
  | (tool, cost) :: rest =>
      let '(acc1, r) := recordCall devices apiKey tool cost acc in
      let '(acc2, rs) := record_all devices apiKey rest acc1 in (acc2, r :: rs)
  end.

(** ** Properties *)

(** Free calls of a tool an account has left. *)
Definition free_calls (devices : option jsval) (tool : string) (acc : account) : Z :=
  match assoc tool (seeded tool (legacySeed devices tool) (match toolPriceRecord acc with Table p => p | _ => [] end)) with
  | Some (Count n) => Z.max 0 n
  | _ => 0
  end.

Definition charged_of (r : metering_result) : Z := match r with Recorded _ _ c _ _ => c | MeteringError => 0 end.
Definition free_of (tool : string) (r : metering_result) : bool :=
  match r with Recorded _ t _ _ (Some _) => String.eqb t tool | _ => false end.

Definition calls_of (tool : string) (calls : list (string * Z)) : Z :=
  Z.of_nat (length (List.filter (fun c => String.eqb c.1 tool) calls)).

Lemma seeded_other tool tool' seed prices : tool' <> tool -> assoc tool' (seeded tool seed prices) = assoc tool' prices.
Proof.
  intros Hne. unfold seeded. destruct (assoc tool prices); [done|]. destruct (String.eqb seed ""); [done|].
  rewrite assoc_set_lookup. by destruct (String.eqb_spec tool' tool).
Qed.

Lemma seeded_known tool seed prices v : assoc tool prices = Some v -> seeded tool seed prices = prices.
Proof. intros H. unfold seeded. by rewrite H. Qed.

Lemma seeded_lookup tool tool' seed seed' p q :
  assoc tool' p = assoc tool' q -> tool' = tool -> seed = seed' ->
  assoc tool' (seeded tool seed p) = assoc tool' (seeded tool seed' q).
Proof.
  intros H -> ->. unfold seeded. rewrite H. destruct (assoc tool q) eqn:E; [congruence|].
  destruct (String.eqb seed' ""); [congruence|]. by rewrite !assoc_set_lookup, String.eqb_refl.
Qed.

Definition usable (acc : account) : Prop := toolPriceRecord acc <> Invalid.

Lemma free_calls_table devices tool p b : free_calls devices tool (mkAccount b (Table p)) =
  match assoc tool (seeded tool (legacySeed devices tool) p) with Some (Count n) => Z.max 0 n | _ => 0 end.
Proof. done. Qed.

Lemma free_calls_pos devices tool acc : 0 <= free_calls devices tool acc.
Proof. unfold free_calls. repeat case_match; lia. Qed.

(** One call. *)
Lemma recordCall_spec devices apiKey tool cost acc :
  usable acc ->
  let '(acc', r) := recordCall devices apiKey tool cost acc in
  usable acc' /\ checkBalance acc' = checkBalance acc - charged_of r /\
  r = Recorded apiKey tool (if free_of tool r then 0 else cost) (checkBalance acc') (if free_of tool r then Some (free_calls devices tool acc') else None) /\
  free_of tool r = (0 <? free_calls devices tool acc) /\
  free_calls devices tool acc' = free_calls devices tool acc - (if free_of tool r then 1 else 0) /\
  charged_of r = (if free_of tool r then 0 else cost) /\
  forall t, t <> tool -> free_calls devices t acc' = free_calls devices t acc.
Proof.
  intros Hu. unfold recordCall, RECORD_CALL_SCRIPT, usable in *.
  set (p := match toolPriceRecord acc with Table p => p | _ => [] end).
  set (rec := seeded tool (legacySeed devices tool) p).
  assert (Hfree : free_calls devices tool acc = match assoc tool rec with Some (Count n) => Z.max 0 n | _ => 0 end) by done.
  assert (Hcharge : forall b0, let acc' := mkAccount (Some b0) (toolPriceRecord acc) in forall t, free_calls devices t acc' = free_calls devices t acc) by done.
  replace (match toolPriceRecord acc with Invalid => (acc, ScriptError) | _ => _ end)
    with (match assoc tool rec with
          | Some (Count n) =>
              if 0 <? n then (mkAccount (balance acc) (Table (assoc_set tool (Count (n - 1)) rec)), Free (default 0 (balance acc)) (n - 1))
              else (mkAccount (Some (default 0 (balance acc) - cost)) (toolPriceRecord acc), Charged (default 0 (balance acc) - cost))
          | _ => (mkAccount (Some (default 0 (balance acc) - cost)) (toolPriceRecord acc), Charged (default 0 (balance acc) - cost))
          end) by (by destruct (toolPriceRecord acc)).
  destruct (assoc tool rec) as [[n|]|] eqn:E.
  - destruct (Z.ltb_spec 0 n) as [Hn|Hn].
    + assert (Hl : free_calls devices tool (mkAccount (balance acc) (Table (assoc_set tool (Count (n - 1)) rec))) = n - 1).
      { rewrite free_calls_table, (seeded_known _ _ _ (Count (n - 1))) by (by rewrite assoc_set_lookup, String.eqb_refl).
        rewrite assoc_set_lookup, String.eqb_refl. lia. }
      cbn [free_of charged_of]. rewrite String.eqb_refl, Hfree, Hl. unfold checkBalance. cbn [toolPriceRecord balance].
      split_and!; try done; try lia.
      intros t Ht. rewrite free_calls_table. unfold free_calls. fold p.
      rewrite (seeded_lookup t t _ (legacySeed devices t) _ p); [done| |done|done].
      rewrite assoc_set_lookup. destruct (String.eqb_spec t tool); [done|]. by apply seeded_other.
    + cbn [free_of charged_of]. rewrite Hcharge, Hfree. unfold checkBalance. cbn [balance toolPriceRecord default].
      split_and!; try done; try lia.
  - cbn [free_of charged_of]. rewrite Hcharge, Hfree. unfold checkBalance. cbn [balance toolPriceRecord default].
    split_and!; try done; try lia.
  - cbn [free_of charged_of]. rewrite Hcharge, Hfree. unfold checkBalance. cbn [balance toolPriceRecord default].
    split_and!; try done; try lia.
Qed.

Definition total_charged (rs : list metering_result) : Z := foldr (fun r n => charged_of r + n) 0 rs.
Definition free_count (tool : string) (rs : list metering_result) : Z := Z.of_nat (length (List.filter (free_of tool) rs)).

(** Overlapping calls of one key are billed exactly. Each call is one step
    of Redis, so whatever the order the calls of all callers run in: every
    call is recorded, the balance falls by exactly what the calls were
    charged, a tool's free calls (those left in the price record, or those the
    old devices field grants when it has none) each cover one call of that
    tool and no more, and no call of the tool is charged while one is left;
    what is left is what was not used. *)
Theorem metering_exact (devices : option jsval) (apiKey : string) (calls : list (string * Z)) : forall acc,
  usable acc ->
  let '(acc', rs) := record_all devices apiKey calls acc in
  usable acc' /\ Forall2 (fun c r => exists b n, r = Recorded apiKey c.1 (if free_of c.1 r then 0 else c.2) b n) calls rs /\
  checkBalance acc' = checkBalance acc - total_charged rs /\
  forall tool, free_count tool rs = Z.min (calls_of tool calls) (free_calls devices tool acc) /\
               free_calls devices tool acc' = free_calls devices tool acc - free_count tool rs.
Proof.
  induction calls as [|[tool cost] calls IH]; intros acc Hu; cbn [record_all].
  - split_and!; [done|constructor|cbn; lia|]. intros tool. unfold free_count, calls_of. cbn [List.filter length].
    pose proof (free_calls_pos devices tool acc). lia.
  - pose proof (recordCall_spec devices apiKey tool cost acc Hu) as Hs. destruct (recordCall devices apiKey tool cost acc) as [acc1 r].
    destruct Hs as (Hu1 & Hb & Hr & Hf & Hl & Hc & Ho). specialize (IH acc1 Hu1).
    destruct (record_all devices apiKey calls acc1) as [acc2 rs]. destruct IH as (Hu2 & H2 & Hb2 & Ht). split_and!.
    + done.
    + constructor; [|done]. eexists _, _. exact Hr.
    + change (total_charged (r :: rs)) with (charged_of r + total_charged rs). lia.
    + intros t. destruct (Ht t) as [H3 H4].
      assert (Hcalls : calls_of t ((tool, cost) :: calls) = (if String.eqb tool t then 1 else 0) + calls_of t calls).
      { unfold calls_of. cbn. destruct (String.eqb tool t); cbn [length]; lia. }
      assert (Hfc : free_count t (r :: rs) = (if free_of t r then 1 else 0) + free_count t rs).
      { unfold free_count. cbn [List.filter]. destruct (free_of t r); cbn [length]; lia. }
      rewrite Hcalls, Hfc. destruct (String.eqb_spec tool t) as [->|Hne].
      * rewrite Hf in Hl |- *. destruct (Z.ltb_spec 0 (free_calls devices t acc)); [lia|].
        pose proof (free_calls_pos devices t acc). unfold calls_of in *. lia.
      * replace (free_of t r) with false; [rewrite Ho in H3, H4 by congruence; lia|].
        clear -Hr Hne. destruct r as [|k' t' c' b' n']; [done|]. assert (t' = tool) as -> by congruence. cbn.
        destruct n'; [|done]. by destruct (String.eqb_spec tool t).
Qed.

End redis.

(** ** The tool's text *)

Fixpoint has_delimiter (s : string) : bool :=
  match s with
  | EmptyString => false
  | String _ s' => starts_with LEGACY_TOOL_DELIMITER s || has_delimiter s'
  end.

Fixpoint ends_in_colon (s : string) : bool :=
  match s with
  | EmptyString => false
  | String a EmptyString => Ascii.eqb a ":"
  | String _ s' => ends_in_colon s'
  end.

(** A part that can stand before the delimiter. *)
Definition plain_part (s : string) : Prop := has_delimiter s = false /\ ends_in_colon s = false.

Lemma split_step a s : starts_with LEGACY_TOOL_DELIMITER (String a s) = false ->
  split_delimiter (String a s) = match split_delimiter s with w :: ws => String a w :: ws | [] => [String a ""] end.
Proof.
  destruct s as [|b [|c s]]; intros H; [done|done|].
  change (split_delimiter (String a (String b (String c s)))) with
    (if Ascii.eqb a ":" && Ascii.eqb b ":" && Ascii.eqb c ":" then "" :: split_delimiter s
     else match split_delimiter (String b (String c s)) with w :: ws => String a w :: ws | [] => [String a ""] end).
  change (Ascii.eqb ":" a && (Ascii.eqb ":" b && (Ascii.eqb ":" c && true)) = false) in H.
  rewrite andb_true_r, andb_assoc, (Ascii.eqb_sym ":" a), (Ascii.eqb_sym ":" b), (Ascii.eqb_sym ":" c) in H. by rewrite H.
Qed.

Lemma split_plain s : has_delimiter s = false -> split_delimiter s = [s].
Proof.
  induction s as [|a s IH]; intros H; [done|]. cbn [has_delimiter] in H. apply orb_false_iff in H as [H1 H2].
  by rewrite split_step, IH.
Qed.

Lemma split_part s t : plain_part s -> split_delimiter (s +:+ LEGACY_TOOL_DELIMITER +:+ t) = s :: split_delimiter t.
Proof.
  intros [Hd He]. induction s as [|a s IH]; [done|]. cbn [has_delimiter] in Hd. apply orb_false_iff in Hd as [H1 H2].
  rewrite sapp_cons, split_step.
  - destruct s as [|b s]; [done|]. by rewrite IH.
  - destruct s as [|b [|c s]].
    + change (Ascii.eqb a ":" = false) in He. change (Ascii.eqb ":" a && true = false). by rewrite (Ascii.eqb_sym ":" a), He.
    + change (Ascii.eqb b ":" = false) in He. change (Ascii.eqb ":" a && (Ascii.eqb ":" b && true) = false).
      rewrite (Ascii.eqb_sym ":" b), He. by rewrite andb_false_r.
    + exact H1.
Qed.

(** A tool's name is read back as the three parts it was made of, provided
    no part holds the delimiter and the first two do not end in a colon. A
    service id that ends in a colon is read back as another service and
    another action. *)
Theorem legacy_tool_roundtrip d s a :
  plain_part d -> plain_part s -> has_delimiter a = false ->
  decodeLegacyTool (encodeLegacyTool d s a) = Some (d, s, a) /\
  decodeLegacyTool (encodeLegacyTool "d" "urn:x:" "act") = Some ("d"%string, "urn:x"%string, ":act"%string).
Proof.
  intros Hd Hs Ha. split; [|reflexivity]. unfold encodeLegacyTool, decodeLegacyTool.
  by rewrite (split_part d), (split_part s), (split_plain a).
Qed.

Lemma legacy_tool_roundtrip_witness :
  decodeLegacyTool (encodeLegacyTool "dev-1" "urn:x:service" "scan") = Some ("dev-1"%string, "urn:x:service"%string, "scan"%string).
Proof.
  refine (proj1 (legacy_tool_roundtrip "dev-1" "urn:x:service" "scan" _ _ _)); [by split|by split|reflexivity].
Defined.

Lemma metering_exact_witness :
  let '(acc', rs) := record_all (fun _ => Some 2) None "k" [("t", 5); ("u", 3); ("t", 5)] (mkAccount (Some 10) (Table [("t", Count 1)])) in
  checkBalance acc' = 2 /\ total_charged rs = 8.
Proof.
  assert (Hu : usable (mkAccount (Some 10) (Table [("t", Count 1)]))) by done.
  pose proof (metering_exact (fun _ => Some 2) None "k" [("t", 5); ("u", 3); ("t", 5)] _ Hu) as H.
  destruct (record_all _ None "k" _ _) as [acc' rs] eqn:E. vm_compute in E. injection E as <- <-.
  split; [|reflexivity]. exact (proj1 (proj2 (proj2 H))).
Defined.
