(* ===== verification/ModuleData.v ===== *)
(** * A module's private directories (lib/module-data.js) and the collision of
    device ids (lib/device-id-conflict.js)

    Which module names may name a directory, where /data and /tmp of a module
    are, and why two modules never share one. *)
From Stdlib Require Import ZArith Lia Ascii String.
From stdpp Require Import prelude strings gmap.
From S2P Require Import Prelude Json Paths Namespace.

Set Default Proof Using "Type".

Definition safe_part (scope : bool) (part : string) : bool :=
  if String.eqb part "" || starts_with "." part then false
  else scope || negb (starts_with "@" part).

Definition safe_parts (parts : list string) : bool :=
  match parts with
  | [p] => safe_part false p
  | [p; q] => starts_with "@" p && (1 <? String.length p)%nat && safe_part true p && safe_part false q
  | _ => false
  end.

Definition safeName (name : jsval) : bool :=
  match name with
  | JStr s =>
      if String.eqb s "" || (214 <? String.length s)%nat then false
      else if has_char (ascii_of_nat 0) s || has_char (ascii_of_nat 92) s then false
      else safe_parts (split_on slash s)
  | _ => false
  end.

Record dirs := mkDirs { d_root : string; d_data : string; d_tmp : string }.

Section dirs.
Context (process_cwd : string).

Definition dirsFor (dataRoot : string) (name : jsval) : result dirs :=
  match name with
  | JStr s =>
      if safeName name then
        let root := path_join (resolve process_cwd [dataRoot] :: split_on slash s) in
        Ok (mkDirs root (path_join [root; "data"]) (path_join [root; "tmp"]))
      else Throw (plain_error "module name cannot be used as a data directory name")
  | _ => Throw (plain_error "module name cannot be used as a data directory name")
  end.
End dirs.

(** The path of the module already holding a device id a module registers,
    when it is another one: [existing] is what is registered under it, by its
    path. *)
Definition conflictingModulePath (existing : option jsval) (incoming : jsval) : option jsval :=
  match existing with
  | None => None
  | Some path =>
      if is_nullish path then Some (JStr "<unknown>")
      else if strict_eq path incoming then None else Some path
  end.

(** ** Joined paths *)

Lemma last_good (l : list string) ps : Forall good_seg ps -> ps <> [] -> last (l ++ ps) <> Some "".
Proof.
  intros H Hne. destruct (exists_last Hne) as (ps' & x & ->). rewrite app_assoc, last_snoc. intros [= ->].
  apply Forall_app in H as [_ H]. inversion H as [|? ? (Hx & _) _]. done.
Qed.

Lemma no_trailing s (l : list string) ps : split_on slash s = l ++ ps -> Forall good_seg ps -> ps <> [] -> ends_with "/" s = false.
Proof.
  intros Hs H Hne. destruct (ends_with "/" s) eqn:E; [|done]. apply ends_with_iff in E as [u ->].
  change (u +:+ "/") with (u +:+ String slash "") in Hs. rewrite split_on_snoc in Hs. cbn [split_on] in Hs.
  exfalso. apply (last_good l ps H Hne). by rewrite <- Hs, last_snoc.
Qed.

Lemma normalize_path s segs ps :
  is_absolute s = true -> normalize_segs false (split_on slash s) = segs -> segs <> [] -> Forall good_seg segs ->
  (exists l, split_on slash s = l ++ ps) -> Forall good_seg ps -> ps <> [] -> normalize s = path_of segs.
Proof.
  intros Habs Hn Hne Hg (l & Hl) Hps Hpne. unfold normalize. destruct (String.eqb_spec s "") as [->|_]; [done|].
  rewrite Habs, (no_trailing s l ps Hl Hps Hpne). cbn [negb]. unfold normalize_string. rewrite Hn.
  destruct (String.eqb_spec (join "/" segs) "") as [E|_]; [|done]. exfalso. destruct segs as [|w ws]; [done|].
  inversion Hg as [|? ? (Hw & _) _]; subst. destruct w as [|c w]; [done|]. by rewrite join_cons_char in E.
Qed.

Lemma path_join_good base ps :
  Forall good_seg base -> Forall good_seg ps -> ps <> [] -> path_join (path_of base :: ps) = path_of (base ++ ps).
Proof.
  intros Hb Hp Hne. unfold path_join.
  assert (Hf : List.filter (fun p => negb (String.eqb p "")) ps = ps).
  { clear -Hp. induction Hp as [|w ps (Hw & _) _ IH]; [done|]. cbn. apply String.eqb_neq in Hw. rewrite Hw. cbn. by rewrite IH. }
  assert (Hn : List.filter (fun p => negb (String.eqb p "")) (path_of base :: ps) = path_of base :: ps).
  { cbn [List.filter]. change (String.eqb (path_of base) "") with false. cbn [negb]. by rewrite Hf. }
  rewrite Hn.
  assert (Hj : join "/" (path_of base :: ps) = path_of base +:+ String slash (join "/" ps)) by (by destruct ps).
  rewrite Hj.
  assert (Hsplit : split_on slash (path_of base +:+ String slash (join "/" ps)) = split_on slash (path_of base) ++ ps).
  { rewrite split_on_snoc. f_equal. change "/" with (String slash ""). rewrite split_join; [done|done|by apply good_seg_no_slash]. }
  apply (normalize_path _ _ ps); [done| | | |by eexists|done|done].
  - rewrite Hsplit. destruct base as [|w base].
    + change (split_on slash (path_of [])) with [""; ""]. cbn [app]. unfold normalize_segs. cbn [fold_left].
      rewrite !fold_push_empty. fold (normalize_segs false ps). by apply normalize_segs_id.
    + rewrite split_path by done. cbn [app]. unfold normalize_segs. cbn [fold_left]. rewrite fold_push_empty.
      fold (normalize_segs false (w :: base ++ ps)). apply (normalize_segs_id (w :: base ++ ps)).
      by apply (Forall_app _ (w :: base)).
  - destruct base; [by destruct ps|done].
  - by apply Forall_app.
Qed.

Lemma inside_prefix_segs a b :
  Forall good_seg a -> Forall good_seg b -> a <> [] -> b <> [] -> inside (path_of a) (path_of b) = true -> b `prefix_of` a.
Proof.
  intros Ha Hb Hane Hbne H. apply inside_iff in H.
  - assert (Hs : split_on slash (path_of a) = "" :: a) by (by apply split_path).
    destruct H as [E|[u E]]; rewrite E in Hs.
    + rewrite split_path in Hs by done. injection Hs as ->. done.
    + change ("/" +:+ u) with (String slash u) in Hs. rewrite split_on_snoc, split_path in Hs by done.
      injection Hs as <-. by eexists.
  - intros E. apply (f_equal (split_on slash)) in E. rewrite split_path in E by done. injection E as E. subst b.
    inversion Hb as [|? ? (Hx & _) _]. done.
Qed.

Lemma join_app (a b : list string) : a <> [] -> b <> [] -> join "/" (a ++ b) = join "/" a +:+ "/" +:+ join "/" b.
Proof.
  intros Ha Hb. induction a as [|w [|w' a] IH]; [done|by destruct b|].
  change (join "/" ((w :: w' :: a) ++ b)) with (w +:+ "/" +:+ join "/" ((w' :: a) ++ b)).
  rewrite IH by done. change (join "/" (w :: w' :: a)) with (w +:+ "/" +:+ join "/" (w' :: a)). by rewrite !sapp_assoc.
Qed.

Lemma path_not_root segs : Forall good_seg segs -> segs <> [] -> path_of segs <> "/".
Proof.
  intros H Hne E. apply (f_equal (split_on slash)) in E. rewrite split_path in E by done. injection E as ->.
  inversion H as [|? ? (Hx & _) _]. done.
Qed.

Lemma inside_extend a b : Forall good_seg a -> b <> [] -> inside (path_of (a ++ b)) (path_of a) = true.
Proof.
  intros Ha Hb. destruct a as [|w a].
  - unfold inside. apply orb_true_iff. by right.
  - apply inside_iff; [by apply path_not_root|]. right. exists (join "/" b). unfold path_of. by rewrite join_app.
Qed.

(** ** Safe names *)

Lemma safe_part_good scope p : has_char slash p = false -> safe_part scope p = true ->
  good_seg p /\ (scope = false -> starts_with "@" p = false).
Proof.
  intros Hs. unfold safe_part. destruct (String.eqb_spec p "") as [|He]; [done|]. cbn [orb].
  destruct (starts_with "." p) eqn:Hd; [done|]. intros H. split.
  - split_and!; [done|by intros ->|by intros ->|done].
  - intros ->. by destruct (starts_with "@" p).
Qed.

Lemma safe_parts_good s : safe_parts (split_on slash s) = true ->
  Forall good_seg (split_on slash s) /\
  ((exists p, split_on slash s = [p] /\ starts_with "@" p = false) \/
   (exists p q, split_on slash s = [p; q] /\ starts_with "@" p = true)).
Proof.
  pose proof (split_on_parts slash s) as Hp. destruct (split_on slash s) as [|p [|q [|r l]]]; cbn [safe_parts]; try done.
  - intros H. inversion Hp as [|? ? Hn _]; subst. destruct (safe_part_good false p Hn H) as [Hg Ha].
    split; [by apply Forall_singleton|]. left. exists p. split; [done|by apply Ha].
  - intros H. bool_hyps. inversion Hp as [|? ? Hn Hp']; subst. inversion Hp' as [|? ? Hn' _]; subst.
    destruct (safe_part_good true p) as [Hg _]; [done..|]. destruct (safe_part_good false q) as [Hg' _]; [done..|].
    split; [by apply Forall_cons; split; [|apply Forall_singleton]|]. right. by exists p, q.
Qed.

Lemma safe_name_parts name : safeName name = true ->
  exists s, name = JStr s /\ safe_parts (split_on slash s) = true.
Proof.
  destruct name as [| | | | |s| |]; try done. cbn [safeName]. destruct (_ || _); [done|]. destruct (_ || _); [done|].
  intros H. by exists s.
Qed.

Lemma prefix_same (base a b : list string) : base ++ a `prefix_of` base ++ b -> a `prefix_of` b.
Proof. apply prefix_app_inv. Qed.

(** Where a safe name's directories are. *)
Lemma dirsFor_segs cwd dataRoot s base :
  safeName (JStr s) = true -> resolve cwd [dataRoot] = path_of base -> Forall good_seg base ->
  dirsFor cwd dataRoot (JStr s) =
    Ok (mkDirs (path_of (base ++ split_on slash s)) (path_of (base ++ split_on slash s ++ ["data"%string]))
          (path_of (base ++ split_on slash s ++ ["tmp"%string]))).
Proof.
  intros Hs Hr Hb. unfold dirsFor. rewrite Hs. apply safe_name_parts in Hs as (s' & [= <-] & Hs).
  apply safe_parts_good in Hs as [Hg _]. rewrite Hr, path_join_good; [|done|done|by apply split_on_nonempty].
  assert (H1 : forall w, good_seg w -> path_join [path_of (base ++ split_on slash s); w] = path_of (base ++ split_on slash s ++ [w])).
  { intros w Hw. rewrite path_join_good; [by rewrite <- app_assoc|by apply Forall_app|by apply Forall_singleton|done]. }
  by rewrite !H1.
Qed.

(** Modules do not share a data directory. Two modules with different
    names that may name one get roots of which neither is, or is inside, the
    other; each is strictly inside the server's data path, with /data and
    /tmp apart inside it; and a name that may not is refused. *)
Theorem module_dirs_private (cwd dataRoot : string) (n1 n2 : jsval) (d1 d2 : dirs) :
  dirsFor cwd dataRoot n1 = Ok d1 -> dirsFor cwd dataRoot n2 = Ok d2 -> n1 <> n2 ->
  inside (d_root d1) (d_root d2) = false /\ inside (d_root d2) (d_root d1) = false /\
  inside (d_root d1) (resolve cwd [dataRoot]) = true /\ d_root d1 <> resolve cwd [dataRoot] /\
  inside (d_data d1) (d_root d1) = true /\ inside (d_tmp d1) (d_root d1) = true /\
  inside (d_data d1) (d_tmp d1) = false /\ inside (d_tmp d1) (d_data d1) = false /\ safeName n1 = true.
Proof.
  intros H1 H2 Hne.
  assert (Hsafe : forall n d, dirsFor cwd dataRoot n = Ok d -> safeName n = true).
  { intros n d H. unfold dirsFor in H. destruct n; try done. by destruct (safeName _). }
  pose proof (Hsafe _ _ H1) as S1. pose proof (Hsafe _ _ H2) as S2.
  destruct (resolve_canonical cwd [dataRoot]) as (base & Hr & Hb). fold (path_of base) in Hr.
  pose proof S1 as P1. apply safe_name_parts in P1 as (s1 & -> & P1). pose proof S2 as P2. apply safe_name_parts in P2 as (s2 & -> & P2).
  rewrite (dirsFor_segs _ _ _ _ S1 Hr Hb) in H1. rewrite (dirsFor_segs _ _ _ _ S2 Hr Hb) in H2.
  injection H1 as <-. injection H2 as <-. cbn [d_root d_data d_tmp].
  apply safe_parts_good in P1 as [G1 C1]. apply safe_parts_good in P2 as [G2 C2].
  assert (Hs : split_on slash s1 <> split_on slash s2).
  { intros E. apply Hne. f_equal. by rewrite <- (join_split slash s1), <- (join_split slash s2), E. }
  assert (Hpre : ~ split_on slash s1 `prefix_of` split_on slash s2 /\ ~ split_on slash s2 `prefix_of` split_on slash s1).
  { destruct C1 as [(p & E1 & A1)|(p & q & E1 & A1)], C2 as [(p' & E2 & A2)|(p' & q' & E2 & A2)]; rewrite E1, E2 in *;
      split; intros [k Hk]; destruct k as [|x [|y k]]; simplify_eq; try (cbn in Hk; congruence). }
  assert (Hg : forall l, Forall good_seg l -> Forall good_seg (base ++ l)) by (intros l Hl; by apply Forall_app).
  assert (Hd : good_seg "data") by done. assert (Ht : good_seg "tmp") by done.
  assert (Hne1 : split_on slash s1 <> []) by apply split_on_nonempty.
  assert (Hne2 : split_on slash s2 <> []) by apply split_on_nonempty.
  assert (Hno : forall a b, Forall good_seg a -> Forall good_seg b -> a <> [] -> b <> [] -> ~ b `prefix_of` a ->
            inside (path_of (base ++ a)) (path_of (base ++ b)) = false).
  { intros a b Ha Hbb Hane Hbne Hn. destruct (inside _ _) eqn:E; [|done]. exfalso. apply Hn.
    apply inside_prefix_segs in E; [by apply prefix_same in E|by apply Hg..| |]; intros [_ ?]%app_nil; done. }
  assert (Hg1 : forall w, good_seg w -> Forall good_seg (split_on slash s1 ++ [w])) by (intros w Hw; apply Forall_app; by split; [|apply Forall_singleton]).
  assert (Hn1 : forall w, split_on slash s1 ++ [w] <> []) by (intros w [_ ?]%app_nil; done).
  destruct Hpre as [Hp1 Hp2]. split_and!; try done.
  - by apply Hno.
  - by apply Hno.
  - rewrite Hr. by apply inside_extend.
  - rewrite Hr. intros E. apply (f_equal (split_on slash)) in E. destruct base as [|w base].
    + rewrite split_path in E by done. cbn [app] in E. change (split_on slash (path_of [])) with [""; ""] in E. injection E as E.
      rewrite E in G1. inversion G1 as [|? ? (Hx & _) _]. done.
    + rewrite !split_path in E by (done || by apply Hg). injection E as E. apply (f_equal length) in E. rewrite length_app in E.
      destruct (split_on slash s1); [done|cbn in E; lia].
  - rewrite app_assoc. apply inside_extend; [by apply Hg|done].
  - rewrite app_assoc. apply inside_extend; [by apply Hg|done].
  - apply Hno; [by apply Hg1..|done|done|]. intros H. apply prefix_same in H. destruct H as [k Hk]. done.
  - apply Hno; [by apply Hg1..|done|done|]. intros H. apply prefix_same in H. destruct H as [k Hk]. done.
Qed.

Lemma module_dirs_private_witness :
  inside "/srv/data/@org/scan" "/srv/data/scan" = false.
Proof.
  refine (proj1 (module_dirs_private "/" "/srv/data" (JStr "@org/scan") (JStr "scan")
            (mkDirs "/srv/data/@org/scan" "/srv/data/@org/scan/data" "/srv/data/@org/scan/tmp")
            (mkDirs "/srv/data/scan" "/srv/data/scan/data" "/srv/data/scan/tmp") _ _ _)); [reflexivity..|discriminate].
Defined.
