(* ===== verification/DeviceManager.v ===== *)
(** * The device manager of the main thread (lib/device-manager.js,
    lib/device-id-conflict.js)

    Which worker hosts which device id, under [--workerThread]: workers
    announce their devices, ask for the specs of others, are told what they
    asked for now or once discovery is over, and take their devices with them
    when they end. A worker is known by its place in the list of those loaded.
    An event's handler runs to its end or to an exception ([Exception_]),
    which leaves what it did so far. *)
From Stdlib Require Import ZArith Lia Ascii String.
From stdpp Require Import prelude strings gmap.
From S2P Require Import Prelude Json Errors Supervisor ModuleData.

Set Default Proof Using "Type".

(** ** State *)

(** A [WorkerMessage] as the device manager uses it: where the main thread
    loaded its module from, what it last announced, its devices' specs, their
    rate limits, and the jobs it is running. *)
Record worker := mkWorker {
  w_hostModulePath : option string;
  w_moduleName : jsval;
  w_packageInfo : jsval;
  w_modulePath : jsval;
  w_deviceList : list (string * jsval);
  w_rateLimiters : list (string * Z);
  w_online : jsval;
  w_jobsInFlight : list string
}.

Definition new_worker (hostModulePath : option string) : worker :=
  mkWorker hostModulePath JNull JNull JNull [] [] JUndef [].

(** Who waits for a device to come: a worker's message, or a callback of the
    main thread. *)
Inductive waiter := Child (w : nat) (msgID : jsval) | Local (cb : nat).

Record dm := mkDM {
  deviceMap : list (string * nat);
  workers : list worker;
  allDevicesLoaded : bool;
  notifyDeviceLoad : list (string * list waiter);
  compositionStartupDone : bool;
  dm_supervisor : option supervisor        (* [moduleManager.supervisor] *)
}.

Definition new_dm (sup : option supervisor) : dm := mkDM [] [] false [] false sup.

Definition with_map (m : list (string * nat)) (d : dm) : dm :=
  mkDM m (workers d) (allDevicesLoaded d) (notifyDeviceLoad d) (compositionStartupDone d) (dm_supervisor d).
Definition with_workers (ws : list worker) (d : dm) : dm :=
  mkDM (deviceMap d) ws (allDevicesLoaded d) (notifyDeviceLoad d) (compositionStartupDone d) (dm_supervisor d).
Definition with_loaded (b : bool) (d : dm) : dm :=
  mkDM (deviceMap d) (workers d) b (notifyDeviceLoad d) (compositionStartupDone d) (dm_supervisor d).
Definition with_notify (n : list (string * list waiter)) (d : dm) : dm :=
  mkDM (deviceMap d) (workers d) (allDevicesLoaded d) n (compositionStartupDone d) (dm_supervisor d).
Definition with_startup_done (d : dm) : dm :=
  mkDM (deviceMap d) (workers d) (allDevicesLoaded d) (notifyDeviceLoad d) true (dm_supervisor d).
Definition with_supervisor (s : option supervisor) (d : dm) : dm :=
  mkDM (deviceMap d) (workers d) (allDevicesLoaded d) (notifyDeviceLoad d) (compositionStartupDone d) s.

Definition with_devices (l : list (string * jsval)) (wm : worker) : worker :=
  mkWorker (w_hostModulePath wm) (w_moduleName wm) (w_packageInfo wm) (w_modulePath wm) l (w_rateLimiters wm) (w_online wm)
           (w_jobsInFlight wm).
Definition with_limits (l : list (string * Z)) (wm : worker) : worker :=
  mkWorker (w_hostModulePath wm) (w_moduleName wm) (w_packageInfo wm) (w_modulePath wm) (w_deviceList wm) l (w_online wm)
           (w_jobsInFlight wm).
Definition with_jobs (l : list string) (wm : worker) : worker :=
  mkWorker (w_hostModulePath wm) (w_moduleName wm) (w_packageInfo wm) (w_modulePath wm) (w_deviceList wm) (w_rateLimiters wm)
           (w_online wm) l.

(** What a handler does outside. *)
Inductive effect :=
| DeviceQueryReply (w : nat) (msgID errMsg spec : jsval)
| CallLocal (cb : nat) (err : option cherr) (device : option nat)
| Verify (isReVerification : bool) (devices : list (string * nat))
| InvalidateWorker (w : nat)
| DeviceLog (deviceID reason : string)
| LogError (e : cherr)
| Exception_.

(** ** Errors for a device that is not there *)

(** [date.toISOString()], for a time in milliseconds with a year of four
    digits. *)
Definition padded (width : nat) (n : Z) : string :=
  let t := Z_text n in string_of_list_ascii (repeat "0"%char (width - String.length t)) +:+ t.

Definition toISOString (ms : Z) : string :=
  (let days := ms / 86400000 in
   let rest := ms mod 86400000 in
   let z := days + 719468 in
   let era := z / 146097 in
   let doe := z mod 146097 in
   let yoe := (doe - doe / 1460 + doe / 36524 - doe / 146096) / 365 in
   let doy := doe - (365 * yoe + yoe / 4 - yoe / 100) in
   let mp := (5 * doy + 2) / 153 in
   let day := doy - (153 * mp + 2) / 5 + 1 in
   let month := if mp <? 10 then mp + 3 else mp - 9 in
   let year := yoe + era * 400 + (if month <=? 2 then 1 else 0) in
   padded 4 year +:+ "-" +:+ padded 2 month +:+ "-" +:+ padded 2 day +:+ "T" +:+
   padded 2 (rest / 3600000) +:+ ":" +:+ padded 2 (rest / 60000 mod 60) +:+ ":" +:+
   padded 2 (rest / 1000 mod 60) +:+ "." +:+ padded 3 (rest mod 1000) +:+ "Z")%Z.

Definition missingDeviceError (d : dm) (deviceID : jsval) : cherr :=
  match dm_supervisor d with
  | None => CHError "DEVICE_NOT_FOUND" [deviceID]
  | Some sup =>
      match errorForDevice (js_text deviceID) sup with
      | None => CHError "DEVICE_NOT_FOUND" [deviceID]
      | Some state =>
          let when := match de_retryAt state with
                      | Some t => ", retry after " +:+ toISOString t
                      | None => ""
                      end in
          CHError (de_code state)
            [JStr (de_module state); JStr (default "null" (de_reason state) +:+ when)]
      end
  end.

(** [this.deviceMap[deviceID]]: a worker, a member every object has, or
    nothing. *)
Inductive held := Hosted (w : nat) | InheritedMember | Vacant.

Definition lookup_device (d : dm) (deviceID : jsval) : held :=
  match assoc (js_text deviceID) (deviceMap d) with
  | Some w => Hosted w
  | None => if includes (js_text deviceID) object_members then InheritedMember else Vacant
  end.

Definition worker_at (d : dm) (w : nat) : worker := default (new_worker None) (workers d !! w).

(** [ensureDeviceState] *)
Definition ensureDeviceState (d : dm) (deviceID : jsval) : cherr + nat :=
  match lookup_device d deviceID with
  | Hosted w =>
      if strict_eq (w_online (worker_at d w)) (JBool false) then inl (CHError "DEVICE_OFFLINE" []) else inr w
  | _ => inl (missingDeviceError d deviceID)
  end.

(** ** A device comes online *)

(** [createRateLimiterForDevice]: the limit of a spec, if it has a valid one. *)
Definition rate_limit (spec : jsval) : option Z :=
  if truthy (jget "device" spec) then
    match jget "rateLimit" (jget "device" spec) with
    | JNum limit => if (0 <? limit)%Z then Some limit else None
    | _ => None
    end
  else None.

(** The limiters of a worker's devices, up to a spec that is null, where
    reading its [device] throws. *)
Fixpoint rate_limiters (deviceList : list (string * jsval)) (limits : list (string * Z)) : list (string * Z) * bool :=
  match deviceList with
  | [] => (limits, false)
  | (deviceID, spec) :: rest =>
      if is_nullish spec then (limits, true)
      else rate_limiters rest (match rate_limit spec with Some l => assoc_set deviceID l limits | None => limits end)
  end.

(** Those waiting for a device, told of it in order; a callback of the main
    thread is a function, and has no [wm] to reply to. *)
Fixpoint notify (errMsg spec : jsval) (ws : list waiter) : list effect * bool :=
  match ws with
  | [] => ([], false)
  | Child w msgID :: rest =>
      let '(effs, threw) := notify errMsg spec rest in (DeviceQueryReply w msgID errMsg spec :: effs, threw)
  | Local _ :: _ => ([Exception_], true)
  end.

(** [delete this.notifyDeviceLoad[id]] *)
Definition forget {A} (id : string) (l : list (string * A)) : list (string * A) :=
  List.filter (fun e => negb (String.eqb e.1 id)) l.

(** The module path of whatever is registered under an id. *)
Definition registered_path (d : dm) (deviceID : jsval) : option jsval :=
  match lookup_device d deviceID with
  | Hosted w => Some (w_modulePath (worker_at d w))
  | InheritedMember => Some JUndef
  | Vacant => None
  end.

Definition conflict_error (deviceID spec path : jsval) : list effect :=
  if is_nullish spec || is_nullish (jget "device" spec) then [Exception_]
  else [LogError (CHError "DEVICE_OBJECT_CONFLICT"
         [JStr ("friendlyName " +:+ in_quotes (js_text (jget "friendlyName" (jget "device" spec))) +:+
                " is already registered by " +:+ js_text path +:+ " -- deviceID " +:+ js_text deviceID +:+
                " is derived from friendlyName, so two modules cannot share one. Rename one of them.")])].

(** The worker and the map once a device is registered. *)
Definition announced (data deviceID spec modulePath : jsval) (wm : worker) : worker :=
  mkWorker (w_hostModulePath wm) (jget "moduleName" data) (jget "packageInfo" data) modulePath
           (assoc_set (js_text deviceID) spec (w_deviceList wm)) (w_rateLimiters wm) (JBool true) (w_jobsInFlight wm).

Definition registered (w : nat) (wm : worker) (deviceID : jsval) (d : dm) : dm :=
  let d := with_workers (<[w := wm]> (workers d)) d in
  if is_nullish deviceID then d else with_map (assoc_set (js_text deviceID) w (deviceMap d)) d.

(** The waiters of one device, told of it if discovery is still going on. *)
Definition tell_waiting (deviceID spec : jsval) (d : dm) : dm * list effect :=
  if allDevicesLoaded d then (d, [])
  else match assoc (js_text deviceID) (notifyDeviceLoad d) with
       | None => (d, [])
       | Some ws =>
           let '(effs, threw) := notify JNull spec ws in
           if threw : bool then (d, effs) else (with_notify (forget (js_text deviceID) (notifyDeviceLoad d)) d, effs)
       end.

Section manager.
(** [options.debug]; the locale. *)
Context (debug : bool) (ErrorInfo : string -> option string).

(** The 'deviceonline' listener [onWorkerLoaded] installs. *)
Definition on_deviceonline (w : nat) (data : jsval) (d : dm) : dm * list effect :=
  match workers d !! w with
  | None => (d, [])
  | Some wm =>
      if is_nullish data then (d, [Exception_])
      else
        let deviceID := jget "deviceID" data in
        let spec := jget "spec" data in
        let modulePath := match w_hostModulePath wm with Some p => JStr p | None => jget "modulePath" data end in
        match (if is_nullish deviceID then None
               else conflictingModulePath (registered_path d deviceID) modulePath) with
        | Some path => (d, conflict_error deviceID spec path)
        | None =>
            let wm := announced data deviceID spec modulePath wm in
            let '(limits, threw) :=
              if debug then (w_rateLimiters wm, false) else rate_limiters (w_deviceList wm) (w_rateLimiters wm) in
            let d := registered w (with_limits limits wm) deviceID d in
            if threw : bool then (d, [Exception_]) else tell_waiting deviceID spec d
        end
  end.

(** ** Queries *)

(** [if (this.notifyDeviceLoad[deviceID] == null) ...; .push(...)]: an
    inherited member is not null, and no array. *)
Definition wait_for (deviceID : jsval) (x : waiter) (d : dm) : dm * list effect :=
  let id := js_text deviceID in
  match assoc id (notifyDeviceLoad d) with
  | Some ws => (with_notify (assoc_set id (ws ++ [x]) (notifyDeviceLoad d)) d, [])
  | None =>
      if includes id object_members then (d, [Exception_])
      else (with_notify (assoc_set id [x] (notifyDeviceLoad d)) d, [])
  end.

Definition spec_of (wm : worker) (deviceID : jsval) : jsval :=
  default JUndef (assoc (js_text deviceID) (w_deviceList wm)).

Definition queryDeviceForChild (deviceID msgID : jsval) (w : nat) (d : dm) : dm * list effect :=
  match ensureDeviceState d deviceID with
  | inr host => (d, [DeviceQueryReply w msgID JNull (spec_of (worker_at d host) deviceID)])
  | inl e =>
      if allDevicesLoaded d then (d, [DeviceQueryReply w msgID (JStr (message_of ErrorInfo e)) JNull])
      else wait_for deviceID (Child w msgID) d
  end.

Definition onQueryDevice (deviceID : jsval) (cb : nat) (d : dm) : dm * list effect :=
  match ensureDeviceState d deviceID with
  | inr host => (d, [CallLocal cb None (Some host)])
  | inl e =>
      if allDevicesLoaded d then (d, [CallLocal cb (Some e) None])
      else wait_for deviceID (Local cb) d
  end.

(** ** Discovery *)

Definition onModuleDiscovering (d : dm) : dm := with_loaded false d.

(** The waiters left, refused in order; an exception leaves the rest. *)
Fixpoint refuse_all (l : list (string * list waiter)) : list (string * list waiter) * list effect * bool :=
  match l with
  | [] => ([], [], false)
  | (deviceID, ws) :: rest =>
      let '(effs, threw) := notify (JStr (message_of ErrorInfo (CHError "DEVICE_NOT_FOUND" [JStr deviceID]))) JNull ws in
      if threw : bool then ((deviceID, ws) :: rest, effs, true)
      else let '(kept, effs', threw') := refuse_all rest in (kept, effs ++ effs', threw')
  end.

(** [onAllModulesDiscovered]: the refusals, then the verification of every
    device there is. *)
Definition onAllModulesDiscovered (d : dm) : dm * list effect :=
  let d := with_loaded true d in
  let '(kept, effs, threw) := refuse_all (notifyDeviceLoad d) in
  let d' := with_notify kept d in
  if threw : bool then (d', effs)
  else (with_startup_done d', effs ++ [Verify (compositionStartupDone d) (deviceMap d)]).

(** The startup pass refuses a device's composition: that id only. *)
Definition purge_unverified (deviceID : string) (w : nat) (d : dm) : dm :=
  let d := with_map (forget deviceID (deviceMap d)) d in
  with_workers (alter (fun wm => with_devices (forget deviceID (w_deviceList wm)) wm) w (workers d)) d.

(** ** A worker's devices go *)

Definition is_of (w : nat) (x : waiter) : bool :=
  match x with Child w' _ => (w' =? w)%nat | Local _ => false end.

Definition onPurgeDevice (w : nat) (reason : string) (d : dm) : dm * list effect :=
  let mine := List.filter (fun e => (e.2 =? w)%nat) (deviceMap d) in
  let d' := with_map (List.filter (fun e => negb (e.2 =? w)%nat) (deviceMap d)) d in
  let d' := with_workers (alter (fun wm => with_devices
               (List.filter (fun kv => negb (includes kv.1 (map fst mine))) (w_deviceList wm)) wm) w (workers d')) d' in
  let d' := with_notify (map (fun e => (e.1, List.filter (fun x => negb (is_of w x)) e.2)) (notifyDeviceLoad d')) d' in
  (d', map (fun e => DeviceLog e.1 reason) mine ++ [InvalidateWorker w]).

(** ** What clients are shown *)

(** [JSON.parse(JSON.stringify(spec))] with [device.serviceList = {}]; [None]
    is an exception. *)
Definition without_services (spec : jsval) : option jsval :=
  match jget "device" spec with
  | JObj device =>
      match spec with
      | JObj kvs => Some (JObj (assoc_set "device" (JObj (assoc_set "serviceList" (JObj []) device)) kvs))
      | _ => None
      end
  | v => if is_nullish v then None else Some spec
  end.

Definition onGetDiscoveredDeviceList (d : dm) : option (list jsval) :=
  mapM without_services (flat_map (fun e => map snd (w_deviceList (worker_at d e.2))) (deviceMap d)).

Definition getAllDeviceSpecs (d : dm) : list (string * jsval) :=
  let result := fold_left (fun out e => fold_left (fun o kv => assoc_set kv.1 kv.2 o) (w_deviceList (worker_at d e.2)) out)
                  (deviceMap d) [] in
  match dm_supervisor d with
  | None => result
  | Some sup =>
      fold_left (fun out kv => if match assoc kv.1 out with
                                  | Some v => is_nullish v
                                  | None => negb (includes kv.1 object_members)
                                  end
                               then assoc_set kv.1 kv.2 out else out) (retainedSpecs sup) result
  end.

Definition onGetDevicePackageInfo (d : dm) (deviceID : jsval) : cherr + jsval :=
  if is_nullish deviceID then inl (Error_ "illegal deviceID")
  else match lookup_device d deviceID with
       | Hosted w => inr (w_packageInfo (worker_at d w))
       | InheritedMember => inr JUndef
       | Vacant => inl (Error_ "unknown device")
       end.

(** ** Runs *)

Inductive event :=
| WorkerLoaded (hostModulePath : option string)
| DeviceOnline (w : nat) (data : jsval)
| QueryFromChild (w : nat) (deviceID msgID : jsval)
| QueryLocal (deviceID : jsval) (cb : nat)
| ModuleDiscovering
| AllModulesDiscovered
| PurgeDevice (w : nat) (reason : string)
| Unverified (deviceID : string) (w : nat)
| SupervisorStep (o : op).

Definition dm_step (ev : event) (d : dm) : dm * list effect :=
  match ev with
  | WorkerLoaded host => (with_workers (workers d ++ [new_worker host]) d, [])
  | DeviceOnline w data => on_deviceonline w data d
  | QueryFromChild w deviceID msgID => queryDeviceForChild deviceID msgID w d
  | QueryLocal deviceID cb => onQueryDevice deviceID cb d
  | ModuleDiscovering => (onModuleDiscovering d, [])
  | AllModulesDiscovered => onAllModulesDiscovered d
  | PurgeDevice w reason => onPurgeDevice w reason d
  | Unverified deviceID w => (purge_unverified deviceID w d, [])
  | SupervisorStep o => (with_supervisor (option_map (Supervisor.step o) (dm_supervisor d)) d, [])
  end.

Fixpoint dm_run (d : dm) (evs : list event) : dm * list effect :=
  match evs with
  | [] => (d, [])
  | ev :: rest => let '(d1, e1) := dm_step ev d in let '(d2, e2) := dm_run d1 rest in (d2, e1 ++ e2)
  end.
End manager.

(** ** Lemmas *)

Lemma forget_other {A} id id' (l : list (string * A)) : id <> id' -> assoc id' (forget id l) = assoc id' l.
Proof. intros Hne. apply (assoc_filter_key (fun k => negb (String.eqb k id))). by apply negb_true_iff, String.eqb_neq. Qed.

Lemma forget_self {A} id (l : list (string * A)) : assoc id (forget id l) = None.
Proof.
  unfold forget. induction l as [|[k v] l IH]; [done|]. cbn. destruct (String.eqb_spec k id) as [->|]; cbn; [done|].
  destruct (String.eqb_spec id k); [congruence|done].
Qed.

(** *** The registry *)

(** Every worker was loaded from a path, and reports none but it; every
    registered device is one its worker has, under a name of its own. *)
Record dm_ok (d : dm) : Prop := {
  ok_host : Forall (fun wm => exists p, w_hostModulePath wm = Some p /\
                      (w_modulePath wm = JNull \/ w_modulePath wm = JStr p)) (workers d);
  ok_map : forall id w, assoc id (deviceMap d) = Some w -> exists wm p spec,
             workers d !! w = Some wm /\ w_hostModulePath wm = Some p /\ w_modulePath wm = JStr p /\
             assoc id (w_deviceList wm) = Some spec;
  ok_keys : NoDup (map fst (deviceMap d));
  ok_waiting : NoDup (map fst (notifyDeviceLoad d))
}.

(** The path of the module a device id belongs to. *)
Definition owner (d : dm) (id : string) : option string :=
  match assoc id (deviceMap d) with Some w => w_hostModulePath (worker_at d w) | None => None end.

(** What a step may do to the registry: the paths workers were loaded from
    stay, and so does the owner of each id that stays registered. *)
Definition owners_kept (d d' : dm) : Prop :=
  forall id p1 p2, owner d id = Some p1 -> owner d' id = Some p2 -> p1 = p2.

Lemma owners_same d d' : deviceMap d' = deviceMap d -> workers d' = workers d -> owners_kept d d'.
Proof. intros Hm Hw id p1 p2. unfold owner, worker_at. rewrite Hm, Hw. congruence. Qed.

(** Devices taken off the map, and off one worker that hosts none of the ids
    that stay mapped to it. *)
Lemma shrink_ok d (f : string * nat -> bool) (h : string -> bool) w :
  dm_ok d -> (forall id, assoc id (List.filter f (deviceMap d)) = Some w -> h id = true) ->
  let d' := with_workers (alter (fun wm => with_devices (List.filter (fun kv => h kv.1) (w_deviceList wm)) wm) w (workers d))
              (with_map (List.filter f (deviceMap d)) d) in
  dm_ok d' /\ owners_kept d d'.
Proof.
  intros [Hh Hm Hk Hw] Hg d'. split.
  - split; cbn [d' deviceMap workers notifyDeviceLoad with_workers with_map].
    + apply Forall_alter; [done|]. intros wm _ H. exact H.
    + intros id w' Ha. pose proof (assoc_filter _ _ _ _ Hk Ha) as Ha'. destruct (Hm id w' Ha') as (wm & p & spec & H1 & H2 & H3 & H4).
      destruct (decide (w = w')) as [<-|Hne]; rewrite list_lookup_alter.
      * rewrite decide_True by done. rewrite H1. eexists _, p, spec. split_and!; [done..|]. cbn. rewrite assoc_filter_key; [done|].
        by apply Hg.
      * rewrite decide_False by done. by exists wm, p, spec.
    + by apply map_NoDup_filter.
    + done.
  - intros id p1 p2. unfold owner, worker_at. cbn [d' deviceMap workers with_workers with_map].
    destruct (assoc id (List.filter f (deviceMap d))) as [w'|] eqn:Ha; [|done]. rewrite (assoc_filter _ _ _ _ Hk Ha).
    rewrite list_lookup_alter. case_decide; [subst|congruence]. destruct (workers d !! w'); cbn; congruence.
Qed.

Lemma registered_ok w wm wm' deviceID p spec d :
  dm_ok d -> workers d !! w = Some wm -> w_hostModulePath wm = Some p ->
  w_hostModulePath wm' = Some p -> w_modulePath wm' = JStr p ->
  w_deviceList wm' = assoc_set (js_text deviceID) spec (w_deviceList wm) ->
  (is_nullish deviceID = false -> forall p', owner d (js_text deviceID) = Some p' -> p' = p) ->
  dm_ok (registered w wm' deviceID d) /\ owners_kept d (registered w wm' deviceID d).
Proof.
  intros [Hh Hm Hk Hn] Hwm Hp Hp' Hmp Hdl Hown.
  pose proof (lookup_lt_Some _ _ _ Hwm) as Hlt.
  assert (Hat : forall i, <[w:=wm']> (workers d) !! i = if decide (w = i) then Some wm' else workers d !! i).
  { intros i. rewrite list_lookup_insert. repeat case_decide; naive_solver. }
  assert (Hmap : forall id w0, assoc id (deviceMap d) = Some w0 -> exists wm0 p0 spec0,
    <[w:=wm']> (workers d) !! w0 = Some wm0 /\ w_hostModulePath wm0 = Some p0 /\ w_modulePath wm0 = JStr p0 /\
    assoc id (w_deviceList wm0) = Some spec0).
  { intros id w0 Ha. destruct (Hm id w0 Ha) as (wm0 & p0 & s0 & H1 & H2 & H3 & H4). rewrite Hat. case_decide as Heq.
    - subst w0. assert (wm0 = wm) as -> by congruence. assert (p0 = p) as -> by congruence.
      exists wm', p. rewrite Hdl, assoc_set_lookup. case_match; eauto 10.
    - by exists wm0, p0, s0. }
  assert (Hhost : forall i, default None (option_map w_hostModulePath (<[w:=wm']> (workers d) !! i)) =
                            default None (option_map w_hostModulePath (workers d !! i))).
  { intros i. rewrite Hat. case_decide as Heq; [|done]. subst i. rewrite Hwm. cbn. congruence. }
  split.
  - unfold registered. split; destruct (is_nullish deviceID); cbn [deviceMap workers notifyDeviceLoad with_workers with_map]; try done.
    1,2: apply Forall_insert; [done|]; exists p; by split; [|right].
    + intros id w0. rewrite assoc_set_lookup. case_match eqn:Heq; [|by apply Hmap]. intros [= <-]. apply String.eqb_eq in Heq as ->.
      exists wm', p, spec. rewrite Hat, decide_True, Hdl, assoc_set_lookup, String.eqb_refl by done. done.
    + by apply assoc_set_NoDup.
  - intros id p1 p2. unfold owner, worker_at, registered.
    assert (Hwat : forall i, w_hostModulePath (default (new_worker None) (<[w:=wm']> (workers d) !! i)) =
                             w_hostModulePath (default (new_worker None) (workers d !! i))).
    { intros i. specialize (Hhost i). destruct (<[w:=wm']> (workers d) !! i), (workers d !! i); cbn in *; congruence. }
    destruct (is_nullish deviceID) eqn:Hnull; cbn [deviceMap workers with_workers with_map].
    + destruct (assoc id (deviceMap d)); [|done]. rewrite Hwat. congruence.
    + rewrite assoc_set_lookup. destruct (String.eqb_spec id (js_text deviceID)) as [->|Hne].
      * intros H1 H2. rewrite Hat, decide_True in H2 by done. cbn in H2. rewrite Hp' in H2. injection H2 as <-.
        symmetry in H1. apply Hown; [done|]. unfold owner, worker_at. congruence.
      * destruct (assoc id (deviceMap d)); [|done]. rewrite Hwat. congruence.
Qed.

Definition count {A} (f : A -> bool) (l : list A) : nat := length (List.filter f l).
Arguments count : simpl never.

Section proofs.
Context (debug : bool) (ErrorInfo : string -> option string).

Local Notation step := (dm_step debug ErrorInfo).
Local Notation run := (dm_run debug ErrorInfo).

Lemma dm_run_app evs1 evs2 d :
  run d (evs1 ++ evs2) =
  let '(d1, e1) := run d evs1 in let '(d2, e2) := run d1 evs2 in (d2, e1 ++ e2).
Proof.
  revert d. induction evs1 as [|ev evs1 IH]; intros d; [cbn; by destruct (run d evs2)|]. cbn.
  destruct (step ev d) as [d1 e1]. rewrite IH. destruct (run d1 evs1) as [d2 e2]. destruct (run d2 evs2) as [d3 e3].
  by rewrite app_assoc.
Qed.


Lemma registered_path_owner d deviceID p : dm_ok d ->
  conflictingModulePath (registered_path d deviceID) (JStr p) = None ->
  forall p', owner d (js_text deviceID) = Some p' -> p' = p.
Proof.
  intros Hok. unfold registered_path, lookup_device, owner. destruct (assoc (js_text deviceID) (deviceMap d)) as [w|] eqn:Ha; [|done].
  destruct (ok_map _ Hok _ _ Ha) as (wm & p0 & spec & H1 & H2 & H3 & _). unfold worker_at. rewrite H1. cbn. rewrite H3. cbn.
  destruct (String.eqb_spec p0 p) as [->|]; [|done]. rewrite H2. congruence.
Qed.

Lemma tell_waiting_same deviceID spec d :
  let d' := (tell_waiting deviceID spec d).1 in
  deviceMap d' = deviceMap d /\ workers d' = workers d /\ (NoDup (map fst (notifyDeviceLoad d)) -> NoDup (map fst (notifyDeviceLoad d'))).
Proof.
  unfold tell_waiting. destruct (allDevicesLoaded d); [done|]. destruct (assoc _ _); [|done].
  destruct (notify _ _ _) as [effs []]; [done|]. cbn. split_and!; try done. apply map_NoDup_filter.
Qed.

Lemma wait_for_same deviceID x d :
  let d' := (wait_for deviceID x d).1 in
  deviceMap d' = deviceMap d /\ workers d' = workers d /\ (NoDup (map fst (notifyDeviceLoad d)) -> NoDup (map fst (notifyDeviceLoad d'))).
Proof.
  unfold wait_for. destruct (assoc _ _); [|destruct (includes _ _); [done|]]; cbn; split_and!; try done; apply assoc_set_NoDup.
Qed.

Lemma refuse_all_kept l : NoDup (map fst l) -> NoDup (map fst (refuse_all ErrorInfo l).1.1).
Proof.
  induction l as [|[id ws] l IH]; [done|]. cbn [map fst]. intros Hn. pose proof Hn as [_ Hl]%NoDup_cons. cbn [refuse_all].
  destruct (notify _ _ _) as [effs []]; [done|]. specialize (IH Hl). by destruct (refuse_all ErrorInfo l) as [[kept e] t].
Qed.

Lemma same_ok d d' :
  deviceMap d' = deviceMap d -> workers d' = workers d -> NoDup (map fst (notifyDeviceLoad d')) ->
  dm_ok d -> dm_ok d' /\ owners_kept d d'.
Proof.
  intros Hm Hw Hn [H1 H2 H3 _]. split; [|by apply owners_same]. by split; rewrite ?Hm, ?Hw.
Qed.

Definition has_path (ev : event) : Prop := match ev with WorkerLoaded None => False | _ => True end.

Lemma dm_step_ok ev d : dm_ok d -> has_path ev -> dm_ok (step ev d).1 /\ owners_kept d (step ev d).1.
Proof.
  intros Hok Hp. destruct ev as [[host|]|w data|w deviceID msgID|deviceID cb| | |w reason|deviceID w|o]; cbn [dm_step fst]; try done.
  - destruct Hok as [H1 H2 H3 H4]. split; [split; cbn; try done|].
    + apply Forall_app. split; [done|]. apply Forall_singleton. exists host. by split; [|left].
    + intros id w Ha. destruct (H2 id w Ha) as (wm & p & spec & Hw & ?). exists wm, p, spec. by rewrite lookup_app_l by by eapply lookup_lt_Some.
    + intros id p1 p2. unfold owner, worker_at. cbn. destruct (assoc id (deviceMap d)) as [w|] eqn:Ha; [|done].
      destruct (H2 id w Ha) as (wm & p & spec & Hw & _). rewrite lookup_app_l by by eapply lookup_lt_Some. congruence.
  - unfold on_deviceonline. destruct (workers d !! w) as [wm|] eqn:Hw; [|by apply same_ok; try apply Hok].
    destruct (is_nullish data); [by apply same_ok; try apply Hok|].
    destruct (Forall_lookup_1 _ _ _ _ (ok_host _ Hok) Hw) as (p & Hhost & _). rewrite Hhost.
    destruct (if is_nullish _ then _ else _) as [path|] eqn:Hc; [by apply same_ok; try apply Hok|].
    set (limits := if debug then _ else _). destruct limits as [l threw].
    set (wm' := with_limits l _). destruct (registered_ok w wm wm' (jget "deviceID" data) p (jget "spec" data) d Hok Hw Hhost) as [Hok' Hkept]; try done.
    { intros Hnull. rewrite Hnull in Hc. by apply registered_path_owner. }
    destruct threw; [done|]. destruct (tell_waiting_same (jget "deviceID" data) (jget "spec" data) (registered w wm' (jget "deviceID" data) d)) as (Hm & Hws & Hn).
    destruct (same_ok _ _ Hm Hws (Hn (ok_waiting _ Hok')) Hok') as [Hok'' _]. split; [done|].
    intros id p1 p2 Ho1 Ho2. apply (Hkept id p1 p2 Ho1). revert Ho2. unfold owner, worker_at. by rewrite Hm, Hws.
  - unfold queryDeviceForChild. destruct (ensureDeviceState _ _); [|by apply same_ok; try apply Hok].
    destruct (allDevicesLoaded d); [by apply same_ok; try apply Hok|].
    destruct (wait_for_same deviceID (Child w msgID) d) as (? & ? & Hn). apply same_ok; auto. apply Hn, Hok.
  - unfold onQueryDevice. destruct (ensureDeviceState _ _); [|by apply same_ok; try apply Hok].
    destruct (allDevicesLoaded d); [by apply same_ok; try apply Hok|].
    destruct (wait_for_same deviceID (Local cb) d) as (? & ? & Hn). apply same_ok; auto. apply Hn, Hok.
  - by apply same_ok; try apply Hok.
  - unfold onAllModulesDiscovered. cbn [notifyDeviceLoad with_loaded]. pose proof (refuse_all_kept _ (ok_waiting _ Hok)) as Hn.
    destruct (refuse_all ErrorInfo (notifyDeviceLoad d)) as [[kept effs] []]; by apply same_ok.
  - unfold onPurgeDevice. cbn [fst]. set (mine := List.filter _ (deviceMap d)).
    destruct (shrink_ok d (fun e => negb (e.2 =? w)%nat) (fun k => negb (includes k (map fst mine))) w Hok) as [Hok' Hkept].
    { intros id Ha. apply assoc_elem, list_elem_of_In, List.filter_In in Ha as [_ Ha]. cbn in Ha. bool_hyps. congruence. }
    split; [|exact Hkept]. destruct Hok' as [H1 H2 H3 H4]. split; try done. cbn. rewrite map_map. by apply Hok.
  - apply (shrink_ok d (fun e => negb (String.eqb e.1 deviceID)) (fun k => negb (String.eqb k deviceID)) w Hok).
    intros id Ha. apply assoc_elem, list_elem_of_In, List.filter_In in Ha as [_ Ha]. exact Ha.
  - by apply same_ok; try apply Hok.
Qed.

Lemma dm_run_ok evs : forall d, dm_ok d -> Forall has_path evs -> dm_ok (run d evs).1.
Proof.
  induction evs as [|ev evs IH]; intros d Hok Hp; [done|]. inv Hp. cbn.
  pose proof (proj1 (dm_step_ok ev d Hok ltac:(done))) as H. destruct (step ev d) as [d1 e1]. specialize (IH d1 H ltac:(done)).
  by destruct (run d1 evs).
Qed.

Lemma new_dm_ok sup : dm_ok (new_dm sup).
Proof. split; cbn; try constructor. done. Qed.

(** C29: Whatever the workers announce, a device id stays with the module whose
    worker registered it until it is taken off: no event gives it to a worker
    of another module. Each id that is registered is one its worker announced
    a spec for. Once a worker's devices are purged no id leads to it and
    nothing waits on its behalf, and other workers' ids are as they were. *)
Theorem device_registry_sound sup evs ev :
  Forall has_path (evs ++ [ev]) ->
  let d := (run (new_dm sup) evs).1 in let d' := (step ev d).1 in
  (forall id p1 p2, owner d id = Some p1 -> owner d' id = Some p2 -> p1 = p2) /\
  (forall id w, assoc id (deviceMap d') = Some w -> exists spec, assoc id (w_deviceList (worker_at d' w)) = Some spec) /\
  (forall w reason, ev = PurgeDevice w reason ->
     (forall id w', assoc id (deviceMap d') = Some w' <-> assoc id (deviceMap d) = Some w' /\ w' <> w) /\
     forall id ws, (id, ws) ∈ notifyDeviceLoad d' -> Forall (fun x => is_of w x = false) ws).
Proof.
  intros [Hevs Hev]%Forall_app d d'. rewrite Forall_singleton in Hev.
  pose proof (dm_run_ok evs _ (new_dm_ok sup) Hevs) as Hok. fold d in Hok.
  destruct (dm_step_ok ev d Hok Hev) as [Hok' Hkept]. split_and!.
  - exact Hkept.
  - intros id w Ha. destruct (ok_map _ Hok' id w Ha) as (wm & p & spec & Hw & _ & _ & Hs). exists spec. unfold worker_at.
    fold d' in Hw. by rewrite Hw.
  - intros w reason ->. unfold d'. cbn [dm_step]. unfold onPurgeDevice. cbn [fst]. split.
    + intros id w'. cbn. split.
      * intros Ha. split; [by eapply assoc_filter; [apply Hok|]|].
        apply assoc_elem, list_elem_of_In, List.filter_In in Ha as [_ Ha]. cbn in Ha. by bool_hyps.
      * intros [Ha Hne]. apply assoc_filter_keep; [apply Hok|done|]. cbn. by apply negb_true_iff, Nat.eqb_neq.
    + intros id ws. cbn. intros ([id' ws'] & [= -> ->] & _)%list_elem_of_fmap. cbn. apply Forall_forall.
      intros x Hx%list_elem_of_In%List.filter_In. destruct Hx as [_ Hx]. by apply negb_true_iff.
Qed.

(** *** Those who wait *)

Section count.
(** Any set of queries, by the worker that made one and its message id. *)
Context (p : nat -> jsval -> bool).

Definition waits (x : waiter) : bool := match x with Child w msgID => p w msgID | Local _ => false end.
Definition is_reply (e : effect) : bool := match e with DeviceQueryReply w msgID _ _ => p w msgID | _ => false end.
Definition is_query (ev : event) : bool := match ev with QueryFromChild w _ msgID => p w msgID | _ => false end.

Definition replied (effs : list effect) : nat := count is_reply effs.
Definition asked (evs : list event) : nat := count is_query evs.
Definition waiting (d : dm) : nat := sum_list (map (fun e => count waits e.2) (notifyDeviceLoad d)).

Lemma dm_count_app {A} (f : A -> bool) l1 l2 : count f (l1 ++ l2) = (count f l1 + count f l2)%nat.
Proof. unfold count. by rewrite List.filter_app, length_app. Qed.
End count.

Definition is_exception (e : effect) : bool := match e with Exception_ => true | _ => false end.
Definition threw (effs : list effect) : bool := existsb is_exception effs.

Lemma notify_counts p errMsg spec ws effs b :
  notify errMsg spec ws = (effs, b) ->
  (b = true <-> exists cb, Local cb ∈ ws) /\ threw effs = b /\ (b = false -> replied p effs = count (waits p) ws) /\
  forall e, e ∈ effs -> match e with Verify _ _ => False | _ => True end.
Proof.
  revert effs b. induction ws as [|[w id|cb] ws IH]; intros effs b; cbn.
  - intros [= <- <-]. split_and!; try done; [set_solver|by intros e ?%not_elem_of_nil].
  - destruct (notify errMsg spec ws) as [effs' b'] eqn:E. intros [= <- <-]. destruct (IH _ _ eq_refl) as (H1 & H2 & H3 & H4).
    split_and!.
    + rewrite H1. split; intros [cb Hcb]; exists cb; [by right|]. by apply elem_of_cons in Hcb as [?|?].
    + exact H2.
    + intros Hb. specialize (H3 Hb). unfold replied, count in *. cbn. destruct (p w id); cbn; by rewrite H3.
    + intros e [->|He]%elem_of_cons; [done|by apply H4].
  - intros [= <- <-]. split_and!; try done.
    + split; [|done]. intros _. exists cb. by left.
    + by intros e ->%list_elem_of_singleton.
Qed.

Lemma waiting_set p id ws l :
  (sum_list (map (fun e => count (waits p) e.2) (assoc_set id ws l)) +
   match assoc id l with Some ws0 => count (waits p) ws0 | None => 0 end =
   sum_list (map (fun e => count (waits p) e.2) l) + count (waits p) ws)%nat.
Proof.
  induction l as [|[k v] l IH]; cbn; [lia|]. destruct (String.eqb_spec id k) as [->|]; cbn; [lia|].
  destruct (assoc id l); lia.
Qed.

Lemma waiting_forget p id ws l : NoDup (map fst l) -> assoc id l = Some ws ->
  (sum_list (map (fun e => count (waits p) e.2) (forget id l)) + count (waits p) ws =
   sum_list (map (fun e => count (waits p) e.2) l))%nat.
Proof.
  unfold forget. induction l as [|[k v] l IH]; [done|]. cbn. rewrite NoDup_cons. intros [Hk Hn].
  rewrite (String.eqb_sym id k). destruct (String.eqb_spec k id) as [->|Hne]; cbn.
  - intros [= ->]. assert (H : forget id l = l).
    { clear -Hk. unfold forget. induction l as [|[k v] l IH]; [done|]. cbn in *. destruct (String.eqb_spec k id) as [->|]; [set_solver|].
      cbn. f_equal. apply IH. set_solver. }
    unfold forget in H. rewrite H. lia.
  - intros Ha. specialize (IH Hn Ha). lia.
Qed.

(** What keeps handlers from throwing: every spec a worker announced is an
    object, no callback of the main thread waits. *)
Record calm (d : dm) : Prop := {
  calm_specs : Forall (fun wm => Forall (fun kv => is_nullish kv.2 = false) (w_deviceList wm)) (workers d);
  calm_waiters : forall id ws cb, (id, ws) ∈ notifyDeviceLoad d -> Local cb ∉ ws
}.

(** An event of a worker that keeps to the messages the platform sends, and a
    query of the main thread made once discovery is over. *)
Definition tame (d : dm) (ev : event) : Prop :=
  match ev with
  | DeviceOnline _ data =>
      is_nullish data = false /\ is_nullish (jget "spec" data) = false /\
      is_nullish (jget "device" (jget "spec" data)) = false
  | QueryFromChild _ deviceID _ => js_text deviceID ∉ object_members
  | QueryLocal _ _ => allDevicesLoaded d = true
  | _ => True
  end.

Fixpoint tame_run (d : dm) (evs : list event) : Prop :=
  match evs with [] => True | ev :: rest => tame d ev /\ tame_run (step ev d).1 rest end.

Lemma rate_limiters_calm l limits : Forall (fun kv => is_nullish kv.2 = false) l -> (rate_limiters l limits).2 = false.
Proof. intros H. revert limits. induction H as [|[id spec] l Hs Hl IH]; intros limits; [done|]. cbn in *. rewrite Hs. apply IH. Qed.

Lemma Forall_assoc_set {A} (P : string * A -> Prop) k v l : P (k, v) -> Forall P l -> Forall P (assoc_set k v l).
Proof. intros Hv H. induction H as [|[a b] l Hx Hl IH]; cbn; [by constructor|]. case_match; by constructor. Qed.

Lemma assoc_set_elem {A} k (v : A) l id x : (id, x) ∈ assoc_set k v l -> (id = k /\ x = v) \/ (id, x) ∈ l.
Proof.
  induction l as [|[a b] l IH]; cbn.
  - intros [= -> ->]%list_elem_of_singleton. by left.
  - destruct (String.eqb_spec k a) as [->|].
    + intros [[= -> ->]|H]%elem_of_cons; [by left|right; by right].
    + intros [[= -> ->]|H]%elem_of_cons; [right; by left|]. destruct (IH H) as [?|?]; [by left|right; by right].
Qed.

(** Telling the waiters of a device that has come. *)
Lemma tell_waiting_counts p deviceID spec d : NoDup (map fst (notifyDeviceLoad d)) -> calm d ->
  let s := tell_waiting deviceID spec d in
  threw s.2 = false /\ (replied p s.2 + waiting p s.1 = waiting p d)%nat /\ calm s.1.
Proof.
  intros Hok Hc. unfold tell_waiting. destruct (allDevicesLoaded d); [done|].
  destruct (assoc (js_text deviceID) (notifyDeviceLoad d)) as [ws|] eqn:Ha; [|done].
  destruct (notify JNull spec ws) as [effs b] eqn:Hn. destruct (notify_counts p _ _ _ _ _ Hn) as (H1 & H2 & H3 & _).
  destruct b.
  { exfalso. destruct (proj1 H1 eq_refl) as [cb Hcb]. apply assoc_elem in Ha. by apply (calm_waiters _ Hc _ _ cb Ha). }
  cbn. split; [done|]. rewrite (H3 eq_refl). split.
  - unfold waiting. cbn. rewrite <-(waiting_forget p _ _ _ Hok Ha). lia.
  - split; [apply Hc|]. cbn. intros id ws' cb Hin. apply list_elem_of_In, List.filter_In in Hin as [Hin%list_elem_of_In _].
    by eapply (calm_waiters _ Hc).
Qed.

Lemma wait_for_counts p deviceID x d : calm d -> (forall cb, x <> Local cb) -> js_text deviceID ∉ object_members ->
  let s := wait_for deviceID x d in
  s.2 = [] /\ waiting p s.1 = (waiting p d + if waits p x then 1 else 0)%nat /\ calm s.1.
Proof.
  intros Hc Hx Hid. unfold wait_for.
  assert (Hcalm : forall ws, (forall cb, Local cb ∉ ws) -> calm (with_notify (assoc_set (js_text deviceID) ws (notifyDeviceLoad d)) d)).
  { intros ws Hws. split; [apply Hc|]. cbn. intros id ws' cb [[-> ->]|Hin]%assoc_set_elem; [apply Hws|by eapply (calm_waiters _ Hc)]. }
  destruct (assoc (js_text deviceID) (notifyDeviceLoad d)) as [ws|] eqn:Ha.
  - pose proof (waiting_set p (js_text deviceID) (ws ++ [x]) (notifyDeviceLoad d)) as Hw. rewrite Ha, dm_count_app in Hw.
    split; [done|]. split.
    + unfold waiting. cbn. assert (count (waits p) [x] = if waits p x then 1 else 0)%nat as Hx1 by (unfold count; cbn; by destruct (waits p x)).
      lia.
    + apply Hcalm. intros cb [Hin|Hin%list_elem_of_singleton]%elem_of_app; [|by destruct (Hx cb)].
      apply assoc_elem in Ha. by apply (calm_waiters _ Hc _ _ cb Ha).
  - rewrite (proj2 (includes_false _ _) Hid).
    pose proof (waiting_set p (js_text deviceID) [x] (notifyDeviceLoad d)) as Hw. rewrite Ha in Hw. split; [done|]. split.
    + unfold waiting. cbn. assert (count (waits p) [x] = if waits p x then 1 else 0)%nat as Hx1 by (unfold count; cbn; by destruct (waits p x)).
      lia.
    + apply Hcalm. intros cb Hin%list_elem_of_singleton. by destruct (Hx cb).
Qed.

Lemma refuse_all_counts p l : (forall id ws cb, (id, ws) ∈ l -> Local cb ∉ ws) ->
  let '(kept, effs, b) := refuse_all ErrorInfo l in
  kept = [] /\ b = false /\ threw effs = false /\ replied p effs = sum_list (map (fun e => count (waits p) e.2) l) /\
  forall e, e ∈ effs -> match e with Verify _ _ => False | _ => True end.
Proof.
  induction l as [|[id ws] l IH]; intros Hl; [split_and!; try done; by intros e ?%not_elem_of_nil|]. cbn [refuse_all].
  destruct (notify _ _ ws) as [effs b] eqn:Hn. destruct (notify_counts p _ _ _ _ _ Hn) as (H1 & H2 & H3 & H4).
  destruct b.
  { exfalso. destruct (proj1 H1 eq_refl) as [cb Hcb]. apply (Hl id ws cb); [by left|done]. }
  specialize (IH ltac:(intros; eapply Hl; by right)). destruct (refuse_all ErrorInfo l) as [[kept effs'] b'].
  destruct IH as (-> & -> & Ht & Hr & Hv). split_and!; try done.
  - unfold threw in *. by rewrite existsb_app, H2, Ht.
  - unfold replied in *. rewrite dm_count_app, (H3 eq_refl), Hr. done.
  - intros e [He|He]%elem_of_app; [by apply H4|by apply Hv].
Qed.

Lemma registered_same w wm deviceID d :
  notifyDeviceLoad (registered w wm deviceID d) = notifyDeviceLoad d /\
  workers (registered w wm deviceID d) = <[w:=wm]> (workers d).
Proof. unfold registered. by destruct (is_nullish deviceID). Qed.

Lemma idle_counts p ev d d' effs :
  notifyDeviceLoad d' = notifyDeviceLoad d -> is_query p ev = false -> replied p effs = 0%nat -> threw effs = false ->
  calm d' ->
  threw effs = false /\ (replied p effs + waiting p d' = waiting p d + asked p [ev])%nat /\ calm d'.
Proof. intros Hn Hq Hr Ht Hc. split_and!; [done| |done]. unfold waiting, asked, count at 3. cbn. rewrite Hn, Hq, Hr. cbn. lia. Qed.

(** What a step does to the queries of the set: each is told, left waiting, or
    its worker is gone. *)
Definition settles (p : nat -> jsval -> bool) (d : dm) (ev : event) (s : dm * list effect) : Prop :=
  threw s.2 = false /\ (replied p s.2 + waiting p s.1 = waiting p d + asked p [ev])%nat /\ calm s.1.

Lemma deviceonline_settles p w data d : dm_ok d -> calm d -> tame d (DeviceOnline w data) ->
  settles p d (DeviceOnline w data) (on_deviceonline debug w data d).
Proof.
  intros Hok Hc (Hd & Hs & Hdev). unfold on_deviceonline. rewrite Hd.
  destruct (workers d !! w) as [wm|] eqn:Hw; [|by apply idle_counts]. unfold conflict_error. rewrite Hs, Hdev. cbn [orb].
  destruct (if is_nullish (jget "deviceID" data) then _ else _); [by apply idle_counts|].
  assert (Hcw : Forall (fun kv => is_nullish kv.2 = false) (assoc_set (js_text (jget "deviceID" data)) (jget "spec" data) (w_deviceList wm))).
  { apply Forall_assoc_set; [done|]. exact (Forall_lookup_1 _ _ _ _ (calm_specs _ Hc) Hw). }
  destruct (if debug then _ else _) as [l b] eqn:Hl. assert (b = false) as ->.
  { destruct debug; [by injection Hl as <- <-|].
    pose proof (rate_limiters_calm _ (w_rateLimiters wm) Hcw) as H. cbn [w_deviceList announced w_rateLimiters] in Hl. by rewrite Hl in H. }
  set (wm' := with_limits l _). set (d1 := registered w wm' (jget "deviceID" data) d).
  destruct (registered_same w wm' (jget "deviceID" data) d) as [Hn Hw1]. fold d1 in Hn, Hw1.
  assert (Hc1 : calm d1).
  { split; [|rewrite Hn; apply Hc]. rewrite Hw1. apply Forall_insert; [apply Hc|exact Hcw]. }
  assert (Hn1 : NoDup (map fst (notifyDeviceLoad d1))) by (rewrite Hn; apply Hok).
  destruct (tell_waiting_counts p (jget "deviceID" data) (jget "spec" data) d1 Hn1 Hc1) as (H1 & H2 & H3).
  split; [exact H1|]. split; [|exact H3]. rewrite H2. unfold waiting. rewrite Hn. apply plus_n_O.
Qed.

Lemma query_settles p w deviceID msgID d : calm d -> tame d (QueryFromChild w deviceID msgID) ->
  settles p d (QueryFromChild w deviceID msgID) (queryDeviceForChild ErrorInfo deviceID msgID w d).
Proof.
  intros Hc Ht.
  assert (Ha : (asked p [QueryFromChild w deviceID msgID] = if p w msgID then 1 else 0)%nat)
    by (unfold asked, count; cbn; by destruct (p w msgID)).
  assert (Hr : forall e s, (replied p [DeviceQueryReply w msgID e s] = if p w msgID then 1 else 0)%nat)
    by (intros; unfold replied, count; cbn; by destruct (p w msgID)).
  unfold settles, queryDeviceForChild. rewrite Ha. destruct (ensureDeviceState d deviceID).
  - destruct (allDevicesLoaded d); [cbn [fst snd]; rewrite Hr; split_and!; [done|lia|done]|].
    destruct (wait_for_counts p deviceID (Child w msgID) d Hc ltac:(done) Ht) as (-> & -> & H). cbn [waits]. by split_and!.
  - cbn [fst snd]. rewrite Hr. split_and!; [done|lia|done].
Qed.

Lemma discovered_settles p d : calm d -> settles p d AllModulesDiscovered (onAllModulesDiscovered ErrorInfo d).
Proof.
  intros Hc. unfold settles, onAllModulesDiscovered. cbn [notifyDeviceLoad with_loaded].
  pose proof (refuse_all_counts p (notifyDeviceLoad d) (calm_waiters _ Hc)) as H.
  destruct (refuse_all ErrorInfo (notifyDeviceLoad d)) as [[kept effs] b]. destruct H as (-> & -> & Hth & Hr & _). cbn [fst snd].
  split_and!.
  - unfold threw in *. by rewrite existsb_app, Hth.
  - unfold replied in *. rewrite dm_count_app, Hr. unfold waiting, asked, count. cbn. lia.
  - split; [apply Hc|]. by intros id ws cb ?%not_elem_of_nil.
Qed.

Lemma purge_settles p w reason d : calm d -> (forall msgID, p w msgID = false) ->
  settles p d (PurgeDevice w reason) (onPurgeDevice w reason d).
Proof.
  intros Hc Hp. unfold settles, onPurgeDevice. cbn [fst snd].
  assert (Hl : forall l, threw (map (fun e : string * nat => DeviceLog e.1 reason) l ++ [InvalidateWorker w]) = false /\
                     replied p (map (fun e : string * nat => DeviceLog e.1 reason) l ++ [InvalidateWorker w]) = 0%nat).
  { induction l as [|x l [IH1 IH2]]; [done|]. by split. }
  destruct (Hl (List.filter (fun e => (e.2 =? w)%nat) (deviceMap d))) as [-> ->]. split_and!; [done| |].
  - unfold waiting. cbn. change (asked p [PurgeDevice w reason]) with 0%nat. rewrite map_map, Nat.add_0_r. f_equal. apply map_ext.
    intros [id ws]. cbn. induction ws as [|x ws IH]; [done|]. cbn [List.filter]. destruct x as [w' msgID|cb]; cbn [is_of].
    + destruct (Nat.eqb_spec w' w) as [->|Hne]; cbn [negb].
      * rewrite IH. unfold count. cbn. by rewrite Hp.
      * unfold count in *. cbn. destruct (p w' msgID); cbn; by rewrite IH.
    + cbn [negb]. unfold count in *. cbn. done.
  - split.
    + cbn. apply Forall_alter; [apply Hc|]. intros wm _ H. cbn. by apply Forall_filter_ok.
    + cbn. intros id ws cb ([id' ws'] & [= -> ->] & Hin)%list_elem_of_fmap. cbn.
      intros Hx%list_elem_of_In%List.filter_In. destruct Hx as [Hx%list_elem_of_In _]. by apply (calm_waiters _ Hc _ _ cb Hin).
Qed.

Lemma step_counts p ev d : dm_ok d -> calm d -> tame d ev ->
  (forall w reason, ev = PurgeDevice w reason -> forall msgID, p w msgID = false) -> settles p d ev (step ev d).
Proof.
  intros Hok Hc Ht Hp. destruct ev as [host|w data|w deviceID msgID|deviceID cb| | |w reason|deviceID w|o]; cbn [dm_step].
  - apply idle_counts; try done. split; [|apply Hc]. cbn. apply Forall_app. split; [apply Hc|]. by apply Forall_singleton.
  - by apply deviceonline_settles.
  - by apply query_settles.
  - unfold onQueryDevice. cbn in Ht. rewrite Ht. by destruct (ensureDeviceState d deviceID); apply idle_counts.
  - apply idle_counts; try done. split; apply Hc.
  - by apply discovered_settles.
  - apply purge_settles; [done|]. by apply (Hp w reason).
  - apply idle_counts; try done. split; [|apply Hc]. cbn. apply Forall_alter; [apply Hc|]. intros wm _ H. cbn. by apply Forall_filter_ok.
  - apply idle_counts; try done. split; apply Hc.
Qed.

Lemma dm_run_counts p evs : forall d, dm_ok d -> calm d -> tame_run d evs -> Forall has_path evs ->
  (forall w reason, PurgeDevice w reason ∈ evs -> forall msgID, p w msgID = false) ->
  let s := run d evs in
  threw s.2 = false /\ (replied p s.2 + waiting p s.1 = waiting p d + asked p evs)%nat /\ calm s.1.
Proof.
  induction evs as [|ev evs IH]; intros d Hok Hc Ht Hpath Hp; [split_and!; [done|apply plus_n_O|done]|].
  destruct Ht as [Ht Hrest]. inv Hpath. cbn [dm_run].
  destruct (step_counts p ev d Hok Hc Ht) as (H1' & H2' & H3').
  { intros w reason ->. apply (Hp w reason). by left. }
  destruct (dm_step_ok ev d Hok ltac:(done)) as [Hok' _]. destruct (step ev d) as [d1 e1]. cbn [fst snd] in *.
  destruct (IH d1 Hok' H3' Hrest ltac:(done)) as (H4 & H5 & H6). { intros w reason Hin. apply (Hp w reason). by right. }
  destruct (run d1 evs) as [d2 e2]. cbn [fst snd] in *. split_and!; [|..|done].
  - unfold threw in *. by rewrite existsb_app, H1', H4.
  - unfold replied, asked in *. rewrite dm_count_app. change (ev :: evs) with ([ev] ++ evs). rewrite dm_count_app. lia.
Qed.

Lemma new_dm_calm sup : calm (new_dm sup).
Proof. split; cbn; [constructor|]. by intros id ws cb ?%not_elem_of_nil. Qed.

(** While workers send what the platform's own code sends, no handler of
    the device manager throws, and each question a worker asks about a device,
    if the worker is not taken off meanwhile, is answered exactly once: at once,
    when the device comes, or when discovery ends; none waits after that. *)
Theorem device_queries_settle sup evs p :
  Forall has_path evs -> tame_run (new_dm sup) evs ->
  (forall w reason, PurgeDevice w reason ∈ evs -> forall msgID, p w msgID = false) ->
  let '(d, effs) := run (new_dm sup) evs in
  threw effs = false /\ (replied p effs + waiting p d = asked p evs)%nat /\
  replied p (run (new_dm sup) (evs ++ [AllModulesDiscovered])).2 = asked p evs.
Proof.
  intros Hpath Ht Hp. destruct (dm_run_counts p evs _ (new_dm_ok sup) (new_dm_calm sup) Ht Hpath Hp) as (H1 & H2 & H3).
  pose proof (dm_run_ok evs _ (new_dm_ok sup) Hpath) as Hok. rewrite dm_run_app.
  destruct (run (new_dm sup) evs) as [d effs]. cbn [fst snd dm_step] in *. split; [done|]. split; [exact H2|].
  destruct (discovered_settles p d H3) as (_ & Hr & _). cbn [DeviceManager.dm_run dm_step].
  assert (Hw : waiting p (onAllModulesDiscovered ErrorInfo d).1 = 0%nat).
  { unfold onAllModulesDiscovered. cbn [notifyDeviceLoad with_loaded].
    pose proof (refuse_all_counts p (notifyDeviceLoad d) (calm_waiters _ H3)) as H.
    destruct (refuse_all ErrorInfo (notifyDeviceLoad d)) as [[kept effs'] b]. by destruct H as (-> & -> & _). }
  destruct (onAllModulesDiscovered ErrorInfo d) as [d1 e1]. cbn [fst snd] in *. unfold replied in *.
  rewrite app_nil_r, dm_count_app. change (waiting p (new_dm sup)) with 0%nat in H2.
  change (asked p [AllModulesDiscovered]) with 0%nat in Hr. lia.
Qed.

(** *** A callback that has to wait *)

Definition blocked (d : dm) : Prop := exists id ws cb, (id, ws) ∈ notifyDeviceLoad d /\ Local cb ∈ ws.

Definition no_verify (effs : list effect) : Prop := forall r l, Verify r l ∉ effs.

Lemma no_verify_of effs : (forall e, e ∈ effs -> match e with Verify _ _ => False | _ => True end) -> no_verify effs.
Proof. intros H r l Hin. exact (H _ Hin). Qed.

Lemma tell_waiting_blocked deviceID spec d : NoDup (map fst (notifyDeviceLoad d)) -> blocked d ->
  blocked (tell_waiting deviceID spec d).1 /\ no_verify (tell_waiting deviceID spec d).2.
Proof.
  intros Hn (id & ws & cb & Hin & Hcb). unfold tell_waiting.
  assert (Hb : blocked d) by (by exists id, ws, cb).
  destruct (allDevicesLoaded d); [by split; [|apply no_verify_of; intros ? ?%not_elem_of_nil]|].
  destruct (assoc (js_text deviceID) (notifyDeviceLoad d)) as [ws'|] eqn:Ha; [|by split; [|apply no_verify_of; intros ? ?%not_elem_of_nil]].
  destruct (notify JNull spec ws') as [effs b] eqn:E. destruct (notify_counts (fun _ _ => false) _ _ _ _ _ E) as (H1 & _ & _ & H4).
  apply no_verify_of in H4. destruct b; [done|]. split; [|done]. exists id, ws, cb. split; [|done]. cbn. unfold forget.
  apply list_elem_of_In, List.filter_In. split; [by apply list_elem_of_In|]. apply negb_true_iff, String.eqb_neq. cbn. intros ->.
  apply assoc_distinct in Hin; [|done]. assert (ws = ws') as -> by congruence. by assert (false = true) by (apply H1; by exists cb).
Qed.

Lemma wait_for_blocked deviceID x d : blocked d -> blocked (wait_for deviceID x d).1 /\ no_verify (wait_for deviceID x d).2.
Proof.
  intros (id & ws & cb & Hin & Hcb). unfold wait_for. destruct (assoc (js_text deviceID) (notifyDeviceLoad d)) as [ws'|] eqn:Ha.
  - split; [|by intros ? ? ?%not_elem_of_nil]. cbn.
    enough (exists ws2, (id, ws2) ∈ assoc_set (js_text deviceID) (ws' ++ [x]) (notifyDeviceLoad d) /\ Local cb ∈ ws2) as (ws2 & ? & ?)
      by (by exists id, ws2, cb).
    clear -Hin Hcb Ha. induction (notifyDeviceLoad d) as [|[k v] l IH]; [by apply not_elem_of_nil in Hin|]. cbn in *.
    destruct (String.eqb_spec (js_text deviceID) k) as [->|].
    + injection Ha as ->. apply elem_of_cons in Hin as [[= -> ->]|Hin].
      * exists (ws' ++ [x]). split; [left|]. apply elem_of_app. by left.
      * exists ws. split; [by right|done].
    + apply elem_of_cons in Hin as [[= -> ->]|Hin]; [exists v; split; [left|done]|].
      destruct (IH Hin Ha) as (ws2 & ? & ?). exists ws2. split; [by right|done].
  - destruct (includes _ _); [split; [by exists id, ws, cb|apply no_verify_of; by intros ? ->%list_elem_of_singleton]|].
    split; [|by intros ? ? ?%not_elem_of_nil]. exists id, ws, cb. split; [|done]. cbn. clear -Hin Ha.
    induction (notifyDeviceLoad d) as [|[k v] l IH]; [by apply not_elem_of_nil in Hin|]. cbn in *.
    destruct (String.eqb_spec (js_text deviceID) k); [done|].
    apply elem_of_cons in Hin as [[= -> ->]|Hin]; [left|right; by apply IH].
Qed.

Lemma refuse_all_blocked l : (exists id ws cb, (id, ws) ∈ l /\ Local cb ∈ ws) ->
  let '(kept, effs, b) := refuse_all ErrorInfo l in
  b = true /\ (exists id ws cb, (id, ws) ∈ kept /\ Local cb ∈ ws) /\ no_verify effs.
Proof.
  induction l as [|[id' ws'] l IH]; intros (id & ws & cb & Hin & Hcb); [by apply not_elem_of_nil in Hin|]. cbn [refuse_all].
  destruct (notify _ _ ws') as [effs b] eqn:E. destruct (notify_counts (fun _ _ => false) _ _ _ _ _ E) as (H1 & _ & _ & H4).
  apply no_verify_of in H4. destruct b.
  - split; [done|]. split; [|done]. destruct (proj1 H1 eq_refl) as [cb' Hcb']. exists id', ws', cb'. split; [left|done].
  - assert (Hl : exists id ws cb, (id, ws) ∈ l /\ Local cb ∈ ws).
    { apply elem_of_cons in Hin as [[= -> ->]|Hin]; [by assert (false = true) by (apply H1; by exists cb)|by exists id, ws, cb]. }
    specialize (IH Hl). destruct (refuse_all ErrorInfo l) as [[kept effs'] b']. destruct IH as (-> & Hk & Hv). split; [done|].
    split; [done|]. intros r x [Hx|Hx]%elem_of_app; [by apply (H4 r x)|by apply (Hv r x)].
Qed.

Lemma step_blocked ev d : NoDup (map fst (notifyDeviceLoad d)) -> blocked d ->
  blocked (step ev d).1 /\ no_verify (step ev d).2.
Proof.
  intros Hn Hb. assert (Hnil : no_verify []) by (by intros ? ? ?%not_elem_of_nil).
  assert (Hone : forall e, match e with Verify _ _ => False | _ => True end -> no_verify [e])
    by (intros e He; apply no_verify_of; by intros ? ->%list_elem_of_singleton).
  destruct ev as [host|w data|w deviceID msgID|deviceID cb| | |w reason|deviceID w|o]; cbn [dm_step]; try done.
  - unfold on_deviceonline. destruct (workers d !! w) as [wm|]; [|done].
    destruct (is_nullish data); [by split; [|apply Hone]|].
    destruct (if is_nullish _ then _ else _); [split; [done|]; unfold conflict_error; case_match; by apply Hone|].
    destruct (if debug then _ else _) as [l b]. set (wm' := with_limits l _).
    destruct (registered_same w wm' (jget "deviceID" data) d) as [Hn' _].
    assert (Hb' : blocked (registered w wm' (jget "deviceID" data) d)) by (unfold blocked; by rewrite Hn').
    destruct b; [by split; [|apply Hone]|]. apply tell_waiting_blocked; [by rewrite Hn'|done].
  - unfold queryDeviceForChild. destruct (ensureDeviceState d deviceID); [|by split; [|apply Hone]].
    destruct (allDevicesLoaded d); [by split; [|apply Hone]|by apply wait_for_blocked].
  - unfold onQueryDevice. destruct (ensureDeviceState d deviceID); [|by split; [|apply Hone]].
    destruct (allDevicesLoaded d); [by split; [|apply Hone]|by apply wait_for_blocked].
  - unfold onAllModulesDiscovered. cbn [notifyDeviceLoad with_loaded]. pose proof (refuse_all_blocked _ Hb) as H.
    destruct (refuse_all ErrorInfo (notifyDeviceLoad d)) as [[kept effs] b]. by destruct H as (-> & ? & ?).
  - destruct Hb as (id & ws & cb & Hin & Hcb). split.
    + exists id, (List.filter (fun x => negb (is_of w x)) ws), cb. split; [cbn; apply list_elem_of_fmap; by exists (id, ws)|].
      apply list_elem_of_In, List.filter_In. split; [by apply list_elem_of_In|done].
    + unfold onPurgeDevice. cbn [snd]. intros r l [H|H%list_elem_of_singleton]%elem_of_app; [|done].
      by apply list_elem_of_fmap in H as (? & ? & _).
Qed.

(** Once a callback of the main thread waits for a device, as that of a
    composition check does when discovery has begun again meanwhile, the end of
    discovery throws each time: it waits for ever, and no device is ever
    verified again. *)
Theorem waiting_callback_blocks_verification evs evs' sup :
  Forall has_path (evs ++ evs') -> blocked (run (new_dm sup) evs).1 ->
  no_verify (run (run (new_dm sup) evs).1 evs').2 /\ blocked (run (run (new_dm sup) evs).1 evs').1.
Proof.
  intros [H1 H2]%Forall_app Hb. pose proof (dm_run_ok evs _ (new_dm_ok sup) H1) as Hok. revert Hb Hok H2.
  generalize (run (new_dm sup) evs).1. induction evs' as [|ev evs' IH]; intros d Hb Hok Hp; cbn [DeviceManager.dm_run].
  - split; [by intros ? ? ?%not_elem_of_nil|done].
  - inv Hp. destruct (step_blocked ev d (ok_waiting _ Hok) Hb) as [Hb' Hv]. destruct (dm_step_ok ev d Hok ltac:(done)) as [Hok' _].
    destruct (step ev d) as [d1 e1]. cbn [fst snd] in *. destruct (IH d1 Hb' Hok' ltac:(done)) as [Hv' Hb''].
    destruct (run d1 evs') as [d2 e2]. split; [|done]. intros r l [H|H]%elem_of_app; [by apply (Hv r l)|by apply (Hv' r l)].
Qed.
End proofs.

(** ** Concrete runs *)

Definition demo_spec : jsval := JObj [("device", JObj [("friendlyName", JStr "a"); ("serviceList", JObj [])])].
Definition online (id : string) : jsval :=
  JObj [("deviceID", JStr id); ("spec", demo_spec); ("moduleName", JStr "m"); ("modulePath", JStr "/app")].

(** Two modules; the second's worker also claims the first's device. *)
Definition demo_events : list event :=
  [WorkerLoaded (Some "/mods/a"); WorkerLoaded (Some "/mods/b"); QueryFromChild 1 (JStr "id-a") (JNum 0);
   DeviceOnline 0 (online "id-a"); QueryFromChild 1 (JStr "id-b") (JNum 1); DeviceOnline 1 (online "id-a");
   QueryFromChild 0 (JStr "id-c") (JNum 0)].

Lemma device_registry_sound_witness :
  let d := (dm_run false (fun _ => None) (new_dm None) demo_events).1 in
  owner d "id-a" = Some "/mods/a" /\
  forall p, owner (dm_step false (fun _ => None) (DeviceOnline 1 (online "id-a")) d).1 "id-a" = Some p -> p = "/mods/a".
Proof.
  split; [by vm_compute|]. intros p H. symmetry.
  apply (proj1 (device_registry_sound false (fun _ => None) None demo_events (DeviceOnline 1 (online "id-a"))
           ltac:(repeat constructor)) "id-a"); [by vm_compute|exact H].
Defined.

Lemma device_queries_settle_witness :
  replied (fun _ _ => true) (dm_run false (fun _ => None) (new_dm None) (demo_events ++ [AllModulesDiscovered])).2 = 3%nat.
Proof.
  pose proof (device_queries_settle false (fun _ => None) None demo_events (fun _ _ => true)
    ltac:(repeat constructor) ltac:(repeat split; try done; by apply includes_false)) as H.
  destruct (dm_run _ _ _ demo_events) as [d effs]. apply H. intros w reason Hin.
  by repeat (apply elem_of_cons in Hin as [Hin|Hin]; [done|]); apply not_elem_of_nil in Hin.
Defined.

(** Discovery is over; a module is loaded while a composition check is asking
    the user database, and the check's target is not there: it waits, and the
    end of the new discovery throws. *)
Definition blocking_events : list event :=
  [WorkerLoaded (Some "/mods/a"); DeviceOnline 0 (online "id-a"); AllModulesDiscovered; ModuleDiscovering;
   QueryLocal (JStr "id-b") 7; WorkerLoaded (Some "/mods/c"); DeviceOnline 1 (online "id-c")].

Example verification_blocked :
  blocked (dm_run false (fun _ => None) (new_dm None) blocking_events).1 /\
  (dm_step false (fun _ => None) AllModulesDiscovered (dm_run false (fun _ => None) (new_dm None) blocking_events).1).2 = [Exception_].
Proof.
  split; [|by vm_compute]. exists "id-b", [Local 7], 7%nat. split; [|left].
  vm_compute. left.
Qed.
