(* ===== verification/PeerClient.v ===== *)
(** * A worker's peers (lib/device-manager.js: invokeActionViaPeerChannel,
    onPeerChannelGrant, -Deny, -Open, -Allow, onPeerInvalidate)

    The channels of one worker, those it calls over and those it serves: calls
    queued behind one request for a channel, the devices a channel was granted,
    and the metering of a served call before its reply. What a callback or
    [onInvoke] answers at once is a step of its own here. *)
From Stdlib Require Import ZArith Lia Ascii String.
From stdpp Require Import prelude strings gmap.
From S2P Require Import Prelude Json Errors DeviceManager PeerChannel.

Set Default Proof Using "Type".

(** ** State *)

(** A call that waits for its channel. *)
Record item := mkItem {
  it_call : nat; it_serviceID : string; it_actionName : string; it_input : jsval; it_billingKey : jsval
}.

(** A served request: its device not granted, its action running, or its
    metering asked for with the data it came to. *)
Inductive serving := Refusing | Running | Metering (data : jsval).

(** One end of a channel: the worker at the other; whether it serves ([onInvoke]
    is set), with what key and which devices; whose calls its calls are. *)
Record link := mkLink {
  l_worker : string;
  l_serves : bool;
  l_appKey : jsval;
  l_allowed : list string;
  l_channel : channel;
  l_owners : list nat;
  l_serving : list (nat * (request * serving))
}.

Record peers := mkPeers {
  links : list link;
  peerChannels : list (string * nat);            (* by worker *)
  peerDeviceWorkerMap : list (string * string);
  pendingPeerInvokes : list (string * list item);
  p_calls : nat
}.

Definition new_peers : peers := mkPeers [] [] [] [] 0.

Definition with_links (ls : list link) (p : peers) : peers :=
  mkPeers ls (peerChannels p) (peerDeviceWorkerMap p) (pendingPeerInvokes p) (p_calls p).
Definition with_channels (m : list (string * nat)) (p : peers) : peers :=
  mkPeers (links p) m (peerDeviceWorkerMap p) (pendingPeerInvokes p) (p_calls p).
Definition with_workers (m : list (string * string)) (p : peers) : peers :=
  mkPeers (links p) (peerChannels p) m (pendingPeerInvokes p) (p_calls p).
Definition with_pending (l : list (string * list item)) (p : peers) : peers :=
  mkPeers (links p) (peerChannels p) (peerDeviceWorkerMap p) l (p_calls p).
Definition next_call (p : peers) : peers :=
  mkPeers (links p) (peerChannels p) (peerDeviceWorkerMap p) (pendingPeerInvokes p) (S (p_calls p)).

Inductive effect :=
| RequestChannel (targetDeviceID : string) (appKey : jsval)
| Answer (call : nat) (err : option cherr) (data platformMetering : jsval)
| OnPort (link : nat) (e : PeerChannel.effect)
| InvokeDevice (link id : nat) (r : request)
| AskMetering (link id : nat) (callerModule : jsval) (r : request).

Section peers.
Context (ErrorInfo : string -> option string) (maxConcurrency : option Z).

Definition errorText (code : string) : string := message_of ErrorInfo (DeviceError code []).

(** What the module's callback gets of a channel's: errors are wrapped. *)
Definition answer_of (call : nat) (o : outcome) : effect :=
  match o with
  | DeviceErr code => Answer call (Some (DeviceError code [])) JUndef JUndef
  | Failed message code data => Answer call (Some (DeviceError (default message code) [])) data JUndef
  | Answered data metering => Answer call None data metering
  end.

(** ** What a channel lets out *)

Definition with_channel (c : channel) (l : link) : link :=
  mkLink (l_worker l) (l_serves l) (l_appKey l) (l_allowed l) c (l_owners l) (l_serving l).
Definition with_serving (s : list (nat * (request * serving))) (l : link) : link :=
  mkLink (l_worker l) (l_serves l) (l_appKey l) (l_allowed l) (l_channel l) (l_owners l) s.
Definition with_owner (n : nat) (l : link) : link :=
  mkLink (l_worker l) (l_serves l) (l_appKey l) (l_allowed l) (l_channel l) (l_owners l ++ [n]) (l_serving l).
Definition with_allowed (deviceID : string) (l : link) : link :=
  mkLink (l_worker l) (l_serves l) (l_appKey l)
    (if includes deviceID (l_allowed l) then l_allowed l else l_allowed l ++ [deviceID]) (l_channel l) (l_owners l) (l_serving l).

(** [onInvoke]'s start: a device not granted is refused. *)
Definition on_invoke (i : nat) (r : request) (l : link) : link * list effect :=
  if includes (q_deviceID r) (l_allowed l)
  then (with_serving (l_serving l ++ [(q_id r, (r, Running))]) l, [InvokeDevice i (q_id r) r])
  else (with_serving (l_serving l ++ [(q_id r, (r, Refusing))]) l, []).

(** [onClose]: the link, if it is the worker's. *)
Definition on_close (i : nat) (l : link) (m : list (string * nat)) : list (string * nat) :=
  match assoc (l_worker l) m with
  | Some j => if (j =? i)%nat then forget (l_worker l) m else m
  | None => m
  end.

Fixpoint let_out (i : nat) (es : list PeerChannel.effect) (l : link) (m : list (string * nat))
  : link * list (string * nat) * list effect :=
  match es with
  | [] => (l, m, [])
  | e :: rest =>
      let '(l1, m1, e1) := match e with
        | Callback k o => (l, m, match l_owners l !! k with Some n => [answer_of n o] | None => [] end)
        | OnInvoke r => let '(l', e') := on_invoke i r l in (l', m, e')
        | OnClose => (l, on_close i l m, [])
        | e => (l, m, [OnPort i e])
        end in
      let '(l2, m2, e2) := let_out i rest l1 m1 in (l2, m2, e1 ++ e2)
  end.

(** A step of the channel of one link. *)
Definition on_channel (i : nat) (l : link) (r : channel * list PeerChannel.effect) (p : peers) : peers * list effect :=
  let '(l', m, effs) := let_out i r.2 (with_channel r.1 l) (peerChannels p) in
  (with_channels m (with_links (<[i := l']> (links p)) p), effs).

Definition channel_step (o : op) (l : link) : channel * list PeerChannel.effect :=
  PeerChannel.step maxConcurrency (l_serves l) errorText o (l_channel l).

(** ** The caller's role *)

(** The channel to a worker. *)
Definition channel_to (workerId : string) (p : peers) : option (nat * link) :=
  match assoc workerId (peerChannels p) with
  | Some i => match links p !! i with Some l => Some (i, l) | None => None end
  | None => None
  end.

(** One call over a link. *)
Definition invoke_on (i : nat) (l : link) (deviceID : string) (it : item) (p : peers) : peers * list effect :=
  let l := with_owner (it_call it) l in
  on_channel i l (channel_step (Invoke deviceID (it_serviceID it) (it_actionName it) (it_input it) (it_billingKey it)) l) p.

(** Behind the one request for a device's channel. *)
Definition wait_for_channel (appKey : jsval) (deviceID : string) (it : item) (p : peers) : peers * list effect :=
  match assoc deviceID (pendingPeerInvokes p) with
  | Some queued => (with_pending (assoc_set deviceID (queued ++ [it]) (pendingPeerInvokes p)) p, [])
  | None => (with_pending (assoc_set deviceID [it] (pendingPeerInvokes p)) p, [RequestChannel deviceID appKey])
  end.

Definition invokeActionViaPeerChannel (appKey billingKey : jsval) (deviceID serviceID actionName : string) (input : jsval) (p : peers)
  : peers * list effect :=
  let it := mkItem (p_calls p) serviceID actionName input billingKey in
  let p := next_call p in
  match assoc deviceID (peerDeviceWorkerMap p) with
  | None => wait_for_channel appKey deviceID it p
  | Some workerId =>
      match channel_to workerId p with
      | Some (i, l) => if c_closed (l_channel l) then wait_for_channel appKey deviceID it p else invoke_on i l deviceID it p
      | None => wait_for_channel appKey deviceID it p
      end
  end.

(** [flushPendingPeerInvokes], with a worker or an error. *)
Fixpoint flush (deviceID : string) (target : string + cherr) (queued : list item) (p : peers) : peers * list effect :=
  match queued with
  | [] => (p, [])
  | it :: rest =>
      let '(p1, e1) := match target with
        | inr e => (p, [Answer (it_call it) (Some e) JUndef JUndef])
        | inl w => match channel_to w p with
                   | None => (p, [Answer (it_call it) (Some (DeviceError "PEER_GONE" [])) JUndef JUndef])
                   | Some (i, l) => invoke_on i l deviceID it p
                   end
        end in
      let '(p2, e2) := flush deviceID target rest p1 in (p2, e1 ++ e2)
  end.

Definition flushPendingPeerInvokes (deviceID : string) (target : string + cherr) (p : peers) : peers * list effect :=
  let queued := default [] (assoc deviceID (pendingPeerInvokes p)) in
  flush deviceID target queued (with_pending (forget deviceID (pendingPeerInvokes p)) p).

Definition new_link (workerId : string) (serves : bool) (appKey : jsval) (allowed : list string) : link :=
  mkLink workerId serves appKey allowed new_channel [] [].

Definition add_link (l : link) (p : peers) : peers :=
  with_channels (assoc_set (l_worker l) (length (links p)) (peerChannels p)) (with_links (links p ++ [l]) p).

Definition onPeerChannelGrant (deviceID workerId : string) (port : bool) (p : peers) : peers * list effect :=
  let p := with_workers (assoc_set deviceID workerId (peerDeviceWorkerMap p)) p in
  let live := match channel_to workerId p with Some (_, l) => negb (c_closed (l_channel l)) | None => false end in
  let p := if port && negb live then add_link (new_link workerId false JNull []) p else p in
  flushPendingPeerInvokes deviceID (inl workerId) p.

Definition onPeerChannelDeny (deviceID : string) (errMsg : jsval) (errCode : option string) (p : peers) : peers * list effect :=
  flushPendingPeerInvokes deviceID (inr (DeviceError (default "PEER_CHANNEL_DENIED" errCode) [errMsg])) p.

Definition onPeerInvalidate (workerId : string) (p : peers) : peers * list effect :=
  match channel_to workerId p with
  | Some (i, l) => on_channel i l (channel_step Invalidate l) p
  | None => (p, [])
  end.

(** ** The callee's role *)

Definition onPeerChannelOpen (callerWorkerId : string) (appKey : jsval) (deviceID : string) (p : peers) : peers :=
  add_link (new_link callerWorkerId true appKey [deviceID]) p.

Definition onPeerChannelAllow (callerWorkerId deviceID : string) (p : peers) : peers :=
  match channel_to callerWorkerId p with
  | Some (i, l) => if l_serves l then with_links (<[i := with_allowed deviceID l]> (links p)) p else p
  | None => p
  end.

(** [reply], as it goes over the port. *)
Definition error_code (e : cherr) : option string :=
  match c_code e with JStr c => if String.eqb c "" then None else Some c | _ => None end.
Definition reply_of (id : nat) (err : option cherr) (data metering : jsval) : reply :=
  match err with
  | Some e => mkReply id (Some (message_of ErrorInfo e)) (error_code e) data metering
  | None => mkReply id None None data metering
  end.

Definition drop_serving (id : nat) (l : link) : link :=
  with_serving (List.filter (fun e => negb (e.1 =? id)%nat) (l_serving l)) l.
Definition serving_of (id : nat) (l : link) : option (request * serving) :=
  option_map snd (List.find (fun e => (e.1 =? id)%nat) (l_serving l)).

Definition reply_on (i id : nat) (err : option cherr) (data metering : jsval) (l : link) (p : peers) : peers * list effect :=
  let l := drop_serving id l in
  on_channel i l (channel_step (Served (reply_of id err data metering)) l) p.

(** The first 64 characters. *)
Definition clipped (s : string) : string := substring 0 64 s.

(** The action's answer: the call is metered before it is replied to, unless it
    failed or nobody can be billed. *)
Definition device_answers (i id : nat) (err : option cherr) (data : jsval) (l : link) (r : request) (p : peers) : peers * list effect :=
  match err with
  | Some e => reply_on i id (Some e) data JUndef l p
  | None =>
      let billingKey := if is_nullish (q_billingKey r) then l_appKey l else q_billingKey r in
      if is_nullish billingKey
      then reply_on i id (Some (DeviceError "HOP_IDENTITY_UNRESOLVED" [JStr (q_serviceID r +:+ "/" +:+ q_actionName r)])) JNull JNull l p
      else (with_links (<[i := with_serving (List.map (fun e => if (e.1 =? id)%nat then (id, (r, Metering data)) else e) (l_serving l)) l]> (links p)) p,
            [AskMetering i id billingKey r])
  end.

(** [PeerChannel.finishMeteredHop] *)
Definition finishMeteredHop (i id : nat) (meteringErr : option cherr) (data result : jsval) (l : link) (p : peers) : peers * list effect :=
  match meteringErr with
  | Some e => if strict_eq (c_code e) (JStr "RATE_LIMITED") then reply_on i id (Some e) JNull JNull l p else reply_on i id None data result l p
  | None => reply_on i id None data result l p
  end.

(** ** Steps *)

Inductive link_event :=
| Arrives (m : message)
| TimesOut (id : nat)
| PortCloses
| RefusalGoes (id : nat)
| DeviceAnswers (id : nat) (err : option cherr) (data : jsval)
| MeteringAnswers (id : nat) (err : option cherr) (result : jsval).

Inductive event :=
| Calls (appKey billingKey : jsval) (deviceID serviceID actionName : string) (input : jsval)
| Granted (deviceID workerId : string) (port : bool)
| Denied (deviceID : string) (errMsg : jsval) (errCode : option string)
| Opened (callerWorkerId : string) (appKey : jsval) (deviceID : string)
| Allowed (callerWorkerId deviceID : string)
| Invalidated (workerId : string)
| OnLink (i : nat) (ev : link_event).

Definition link_step (i : nat) (l : link) (ev : link_event) (p : peers) : peers * list effect :=
  match ev with
  | Arrives m => on_channel i l (channel_step (Message m) l) p
  | TimesOut id => on_channel i l (channel_step (Timer id) l) p
  | PortCloses => on_channel i l (channel_step Invalidate l) p
  | RefusalGoes id =>
      match serving_of id l with
      | Some (r, Refusing) => reply_on i id (Some (DeviceError "PEER_NOT_GRANTED" [JStr (clipped (q_deviceID r))])) JNull JUndef l p
      | _ => (p, [])
      end
  | DeviceAnswers id err data =>
      match serving_of id l with Some (r, Running) => device_answers i id err data l r p | _ => (p, []) end
  | MeteringAnswers id err result =>
      match serving_of id l with Some (r, Metering data) => finishMeteredHop i id err data result l p | _ => (p, []) end
  end.

Definition peer_step (ev : event) (p : peers) : peers * list effect :=
  match ev with
  | Calls appKey billingKey deviceID serviceID actionName input =>
      invokeActionViaPeerChannel appKey billingKey deviceID serviceID actionName input p
  | Granted deviceID workerId port => onPeerChannelGrant deviceID workerId port p
  | Denied deviceID errMsg errCode => onPeerChannelDeny deviceID errMsg errCode p
  | Opened callerWorkerId appKey deviceID => (onPeerChannelOpen callerWorkerId appKey deviceID p, [])
  | Allowed callerWorkerId deviceID => (onPeerChannelAllow callerWorkerId deviceID p, [])
  | Invalidated workerId => onPeerInvalidate workerId p
  | OnLink i ev => match links p !! i with Some l => link_step i l ev p | None => (p, []) end
  end.

Fixpoint peer_run (p : peers) (evs : list event) : peers * list effect :=
  match evs with
  | [] => (p, [])
  | ev :: rest => let '(p1, e1) := peer_step ev p in let '(p2, e2) := peer_run p1 rest in (p2, e1 ++ e2)
  end.
End peers.

(** ** Lemmas *)

#[local] Arguments called : simpl never.

Definition answered (effs : list effect) : list nat := omap (fun e => match e with Answer n _ _ _ => Some n | _ => None end) effs.

#[local] Arguments answered : simpl never.

Lemma answered_app' a b : answered (a ++ b) = answered a ++ answered b.
Proof. apply omap_app. Qed.

(** *** A channel's calls *)

Section lemmas.
Context (ErrorInfo : string -> option string) (maxConcurrency : option Z).

(** Its pending entries are of calls it was given, each under its own id. *)
Definition channel_fit (c : channel) : Prop :=
  NoDup (map fst (c_pending c)) /\ Forall (fun e => (e.1 < c_msgID c)%nat) (c_pending c) /\
  Forall (fun e => (e.2 < c_calls c)%nat) (c_pending c).

(** What it still owes is what it owed, less what it called back. *)
Definition owes (more : list nat) (c : channel) (r : channel * list PeerChannel.effect) : Prop :=
  channel_fit r.1 /\ map snd (c_pending c) ++ more ≡ₚ called r.2 ++ map snd (c_pending r.1) /\
  c_calls r.1 = (c_calls c + length more)%nat.

Lemma drop_fit c id call : channel_fit c -> pending_call id c = Some call ->
  map snd (c_pending c) ≡ₚ call :: map snd (drop_pending id (c_pending c)) /\
  NoDup (map fst (drop_pending id (c_pending c))) /\
  Forall (fun e => (e.1 < c_msgID c)%nat) (drop_pending id (c_pending c)) /\ Forall (fun e => (e.2 < c_calls c)%nat) (drop_pending id (c_pending c)).
Proof.
  intros (Hn & Hi & Hk) Hp. apply pending_call_find in Hp. destruct (pending_split _ _ _ Hn Hp) as (l1 & l2 & E & Ed).
  rewrite E in Hn, Hi, Hk. rewrite Ed, E. clear E Ed Hp. rewrite !map_app in *. cbn in *.
  apply Forall_app in Hi as [? Hi], Hk as [? Hk]. apply Forall_cons in Hi as [_ ?], Hk as [_ ?].
  rewrite !Forall_app. split_and!; try done; [by rewrite Permutation_middle|].
  apply NoDup_app in Hn as (? & Hd & Hn). apply NoDup_cons in Hn as [? ?]. apply NoDup_app. split_and!; try done.
  intros x Hx Hx2. apply (Hd x Hx). by right.
Qed.

Lemma drain_send_calls c : let r := drainSendQueue maxConcurrency c in
  called r.2 = [] /\ c_pending r.1 = c_pending c /\ c_msgID r.1 = c_msgID c /\ c_calls r.1 = c_calls c.
Proof. unfold drainSendQueue, sendInvoke. by repeat case_match. Qed.

Lemma drain_dispatch_calls c : let r := drainDispatchQueue maxConcurrency c in
  called r.2 = [] /\ c_pending r.1 = c_pending c /\ c_msgID r.1 = c_msgID c /\ c_calls r.1 = c_calls c.
Proof. unfold drainDispatchQueue, dispatchInvoke. by repeat case_match. Qed.


(** The same entries, and nobody called back. *)
Lemma owes_same c r : channel_fit c -> called r.2 = [] -> c_pending r.1 = c_pending c -> c_msgID r.1 = c_msgID c -> c_calls r.1 = c_calls c ->
  owes [] c r.
Proof. intros Hf Hc Hp Hm Hk. unfold owes, channel_fit. rewrite Hc, Hp, Hm, Hk, app_nil_r. cbn. split; [exact Hf|]. split; [done|lia]. Qed.

(** One entry fewer, and its call called back. *)
Lemma owes_one c id call r : channel_fit c -> pending_call id c = Some call -> called r.2 = [call] ->
  c_pending r.1 = drop_pending id (c_pending c) -> c_msgID r.1 = c_msgID c -> c_calls r.1 = c_calls c -> owes [] c r.
Proof.
  intros Hf Hp Hc Hd Hm Hk. destruct (drop_fit c id call Hf Hp) as (H1 & H2 & H3 & H4). unfold owes, channel_fit.
  rewrite Hc, Hd, Hm, Hk, app_nil_r. cbn. split; [done|]. split; [done|lia].
Qed.

Lemma reply_owes c m : channel_fit c -> owes [] c (handleReply maxConcurrency m c).
Proof.
  intros Hf. unfold handleReply. set (c0 := with_sends c _ _ _ _). pose proof (drain_send_calls c0) as H. destruct (drainSendQueue maxConcurrency c0) as [c1 es].
  cbn in H. destruct H as (H1 & H2 & H3 & H4). destruct (pending_call (m_id m) c1) as [call|] eqn:Ep.
  - apply (owes_one c (m_id m) call); try done; cbn.
    + unfold pending_call in *. by rewrite H2 in Ep.
    + by rewrite called_app, H1.
    + by rewrite H2.
  - by apply owes_same.
Qed.

Lemma channel_owes hasHandler o c : channel_fit c ->
  owes (match o with Invoke _ _ _ _ _ => [c_calls c] | _ => [] end) c
    (PeerChannel.step maxConcurrency hasHandler (errorText ErrorInfo) o c).
Proof.
  intros Hf. pose proof Hf as (Hn & Hi & Hk). destruct o as [d sv a i b|id|m|m|]; cbn.
  - unfold invoke. destruct (c_closed c).
    + split; [split; [done|split; [done|eapply Forall_impl; [exact Hk|cbn; lia]]]|].
      split; cbn; [unfold called; cbn; by rewrite Permutation_app_comm|lia].
    + set (c1 := mkChannel _ _ _ _ _ _ _ _ _ _).
      assert (H : forall r, called r.2 = [] -> c_pending r.1 = c_pending c1 -> c_msgID r.1 = c_msgID c1 -> c_calls r.1 = c_calls c1 -> owes [c_calls c] c r).
      { intros r H1 H2 H3 H4. unfold owes, channel_fit. rewrite H1, H2, H3, H4. cbn. split; [|split; [by rewrite map_app|lia]]. split; [|split].
        - rewrite map_app. cbn. apply NoDup_app. split_and!; [done| |by apply NoDup_singleton].
          intros x Hx Hx1. apply list_elem_of_singleton in Hx1. apply list_elem_of_fmap in Hx as ([y k] & -> & Hx). rewrite Forall_forall in Hi. specialize (Hi _ Hx). cbn in *. lia.
        - apply Forall_app. split; [eapply Forall_impl; [exact Hi|cbn; lia]|]. apply Forall_singleton. cbn. lia.
        - apply Forall_app. split; [eapply Forall_impl; [exact Hk|cbn; lia]|]. apply Forall_singleton. cbn. lia. }
      unfold sendInvoke. destruct (at_capacity _ _); by apply H.
  - unfold on_timer. destruct (pending_call id c) as [call|] eqn:Ep; [|by apply owes_same]. by eapply (owes_one c id call).
  - destruct m as [r|m|]; cbn; [|by apply reply_owes|by apply owes_same].
    unfold handleInvoke, dispatchInvoke. destruct hasHandler; cbn [negb]; [|by apply owes_same]. destruct (at_capacity _ _); by apply owes_same.
  - unfold served. set (c0 := with_dispatches c _ _ _). pose proof (drain_dispatch_calls c0) as H. destruct (drainDispatchQueue maxConcurrency c0) as [c1 es].
    cbn in H. destruct H as (? & ? & ? & ?). by apply owes_same.
  - unfold invalidate. destruct (c_closed c); [by apply owes_same|]. split; [by repeat constructor|]. split; cbn; [|lia].
    rewrite called_app. change (called [ClosePort; OnClose]) with (@nil nat). rewrite !app_nil_r. clear.
    unfold called. induction (c_pending c) as [|e l IH]; [done|]. cbn. by rewrite <- IH.
Qed.

(** *** A link's calls *)

Definition link_calls (l : link) : list nat := omap (fun k => l_owners l !! k) (map snd (c_pending (l_channel l))).

Definition link_fit (l : link) : Prop := channel_fit (l_channel l) /\ length (l_owners l) = c_calls (l_channel l).

(** What goes out keeps the channel, its owners and its role. *)
Lemma let_out_same i es : forall l m, let x := let_out i es l m in
  l_channel x.1.1 = l_channel l /\ l_owners x.1.1 = l_owners l /\ l_worker x.1.1 = l_worker l /\ l_serves x.1.1 = l_serves l /\
  l_appKey x.1.1 = l_appKey l /\ l_allowed x.1.1 = l_allowed l /\
  answered x.2 = omap (fun k => l_owners l !! k) (called es).
Proof.
  induction es as [|e es IH]; intros l m; [done|]. cbn.
  assert (Hstep : forall l1 m1 e1, l_channel l1 = l_channel l -> l_owners l1 = l_owners l -> l_worker l1 = l_worker l -> l_serves l1 = l_serves l ->
    l_appKey l1 = l_appKey l -> l_allowed l1 = l_allowed l -> answered e1 = omap (fun k => l_owners l !! k) (called [e]) ->
    let x := (let '(l2, m2, e2) := let_out i es l1 m1 in (l2, m2, e1 ++ e2)) in
    l_channel x.1.1 = l_channel l /\ l_owners x.1.1 = l_owners l /\ l_worker x.1.1 = l_worker l /\ l_serves x.1.1 = l_serves l /\
    l_appKey x.1.1 = l_appKey l /\ l_allowed x.1.1 = l_allowed l /\ answered x.2 = omap (fun k => l_owners l !! k) (called (e :: es))).
  { intros l1 m1 e1 E1 E2 E3 E4 E5 E6 Ea. specialize (IH l1 m1). destruct (let_out i es l1 m1) as [[l2 m2] e2]. cbn in *.
    destruct IH as (? & E2' & ? & ? & ? & ? & Ha). split_and!; try congruence. rewrite answered_app', Ea, Ha, E2. change (e :: es) with ([e] ++ es).
    by rewrite called_app, omap_app. }
  destruct e; try (by apply Hstep).
  - destruct (l_owners l !! call) as [n|] eqn:En; apply Hstep; try done; unfold called; cbn; rewrite En; cbn; [by destruct o|done].
  - unfold on_invoke. destruct (includes _ _); by apply Hstep.
Qed.

Lemma omap_lookup_app (o more : list nat) ks : Forall (fun k => (k < length o)%nat) ks ->
  omap (fun k => (o ++ more) !! k) ks = omap (fun k => o !! k) ks.
Proof. induction 1 as [|k ks Hk _ IH]; [done|]. cbn. by rewrite lookup_app_l, IH by done. Qed.

(** *** A worker's calls *)

Definition queued (l : list (string * list item)) : list nat := concat (map (fun e => map it_call e.2) l).
Definition open_links (ls : list link) : list nat := concat (map link_calls ls).
#[local] Arguments queued : simpl never.
#[local] Arguments open_links : simpl never.

Definition peers_fit (p : peers) : Prop := NoDup (map fst (pendingPeerInvokes p)) /\ Forall link_fit (links p).

(** The calls that wait for an answer. *)
Definition waiting (p : peers) : list nat := queued (pendingPeerInvokes p) ++ open_links (links p).

Definition settles (more : list nat) (p : peers) (r : peers * list effect) : Prop :=
  peers_fit r.1 /\ waiting p ++ more ≡ₚ answered r.2 ++ waiting r.1 /\ p_calls r.1 = p_calls p.

Lemma open_links_insert i l0 l' ls a more : ls !! i = Some l0 -> link_calls l0 ++ more ≡ₚ a ++ link_calls l' ->
  open_links ls ++ more ≡ₚ a ++ open_links (<[i := l']> ls).
Proof.
  intros Hi H. pose proof (take_drop_middle _ _ _ Hi) as E. rewrite <- E at 1. rewrite insert_take_drop by (by eapply lookup_lt_Some).
  unfold open_links. rewrite !map_app, !concat_app. cbn. set (A := concat _). set (D := concat _).
  transitivity (A ++ D ++ (link_calls l0 ++ more)); [|rewrite H].
  - rewrite <- !app_assoc. apply Permutation_app_head. rewrite app_assoc, (Permutation_app_comm (link_calls l0) D), <- app_assoc. done.
  - rewrite (Permutation_app_comm a (A ++ _)), <- !app_assoc. apply Permutation_app_head. rewrite (Permutation_app_comm D), <- !app_assoc.
    rewrite (Permutation_app_comm a), <- !app_assoc. done.
Qed.

Lemma settles_nil p effs : peers_fit p -> answered effs = [] -> settles [] p (p, effs).
Proof. intros Hf Ha. split; [done|]. cbn. by rewrite Ha, app_nil_r. Qed.

(** A step of one link's channel. *)
Lemma on_channel_settles i l0 l o more p :
  peers_fit p -> links p !! i = Some l0 -> l_channel l = l_channel l0 -> l_owners l = l_owners l0 ++ more ->
  length more = length (match o with Invoke _ _ _ _ _ => [c_calls (l_channel l0)] | _ => [] end) ->
  settles more p (on_channel i l (channel_step ErrorInfo maxConcurrency o l) p).
Proof.
  intros [Hn Hl] Hi Hc Ho Hm. assert (Hf : link_fit l0) by (by eapply Forall_lookup_1). destruct Hf as [Hf Hlen].
  unfold channel_step, on_channel. rewrite Hc. pose proof (channel_owes (l_serves l) o (l_channel l0) Hf) as (Hf' & Hp & Hk).
  set (r := PeerChannel.step _ _ _ _ _) in *. pose proof (let_out_same i r.2 (with_channel r.1 l) (peerChannels p)) as H.
  destruct (let_out i r.2 (with_channel r.1 l) (peerChannels p)) as [[l' m] effs]. cbn in H. destruct H as (Hc' & Ho' & _ & _ & _ & _ & Ha).
  assert (Hmore : omap (fun k => l_owners l !! k) (match o with Invoke _ _ _ _ _ => [c_calls (l_channel l0)] | _ => [] end) = more).
  { rewrite Ho, <- Hlen. destruct o; destruct more as [|n [|]]; try done; cbn. by rewrite list_lookup_middle. }
  assert (Hcalls : link_calls l0 ++ more ≡ₚ answered effs ++ link_calls l').
  { unfold link_calls. rewrite Ha, Hc', Ho'. rewrite <- omap_app, <- Hp, omap_app, Hmore. apply Permutation_app_tail.
    rewrite Ho, omap_lookup_app; [done|]. destruct Hf as (_ & _ & Hk'). rewrite Hlen. apply Forall_map. exact Hk'. }
  split; [|split; [|done]].
  - split; [done|]. cbn. apply Forall_insert; [done|]. split; [by rewrite Hc'|]. rewrite Hc', Ho', Ho, length_app, Hk, Hlen. lia.
  - unfold waiting. cbn. rewrite <- app_assoc, (open_links_insert i l0 l' (links p) (answered effs) more Hi Hcalls).
    by rewrite !app_assoc, (Permutation_app_comm _ (answered effs)).
Qed.

Lemma channel_to_link w p i l : channel_to w p = Some (i, l) -> links p !! i = Some l.
Proof. unfold channel_to. intros H. by repeat case_match; simplify_eq. Qed.

Lemma invoke_on_settles i l d it p : peers_fit p -> links p !! i = Some l ->
  settles [it_call it] p (invoke_on ErrorInfo maxConcurrency i l d it p).
Proof. intros Hf Hi. unfold invoke_on. by apply (on_channel_settles i l). Qed.

Lemma queued_set d q' l q : NoDup (map fst l) -> assoc d l = Some q -> queued (assoc_set d (q ++ q') l) ≡ₚ queued l ++ map it_call q'.
Proof.
  unfold queued. induction l as [|[k v] l IH]; [done|]. cbn. intros Hn Ha. apply NoDup_cons in Hn as [Hk Hn].
  destruct (String.eqb_spec d k) as [->|Hne]; cbn.
  - injection Ha as ->. rewrite map_app, <- !app_assoc. apply Permutation_app_head, Permutation_app_comm.
  - rewrite IH by done. by rewrite app_assoc.
Qed.

Lemma queued_new d q l : assoc d l = None -> queued (assoc_set d q l) ≡ₚ queued l ++ map it_call q.
Proof.
  unfold queued. induction l as [|[k v] l IH]; cbn; [by rewrite app_nil_r|]. destruct (String.eqb_spec d k) as [->|Hne]; cbn; [done|].
  intros Ha. rewrite IH by done. by rewrite app_assoc.
Qed.

Lemma wait_settles appKey d it p : peers_fit p -> settles [it_call it] p (wait_for_channel appKey d it p).
Proof.
  intros [Hn Hl]. unfold wait_for_channel.
  assert (H : forall q effs, queued q ≡ₚ queued (pendingPeerInvokes p) ++ [it_call it] -> NoDup (map fst q) -> answered effs = [] ->
    settles [it_call it] p (with_pending q p, effs)).
  { intros q effs Hq Hnq Ha. split; [by split|]. split; [|done]. unfold waiting. cbn. rewrite Ha, Hq. cbn.
    rewrite <- !app_assoc. apply Permutation_app_head, Permutation_app_comm. }
  destruct (assoc d (pendingPeerInvokes p)) as [q|] eqn:E; apply H; try done; try (by apply assoc_set_NoDup).
  - by apply (queued_set d [it]).
  - by apply (queued_new d [it]).
Qed.

Lemma settles_then more1 more2 p r1 r2 : settles more1 p r1 -> settles more2 r1.1 r2 -> settles (more1 ++ more2) p (r2.1, r1.2 ++ r2.2).
Proof.
  intros (_ & H1 & C1) (F2 & H2 & C2). split; [done|]. split; [|by etrans]. cbn [fst snd]. rewrite answered_app'.
  rewrite app_assoc, H1, <- !app_assoc. apply Permutation_app_head. exact H2.
Qed.

Lemma settles_answer n e p : peers_fit p -> settles [n] p (p, [Answer n (Some e) JUndef JUndef]).
Proof. intros Hf. split; [done|]. split; [|done]. unfold answered. cbn. by rewrite Permutation_app_comm. Qed.

Lemma flush_settles d target q : forall p, peers_fit p -> settles (map it_call q) p (flush ErrorInfo maxConcurrency d target q p).
Proof.
  induction q as [|it q IH]; intros p Hf; cbn [flush map]; [by apply settles_nil|].
  assert (Hstep : forall r1, settles [it_call it] p r1 ->
    settles (it_call it :: map it_call q) p
      (let '(p1, e1) := r1 in let '(p2, e2) := flush ErrorInfo maxConcurrency d target q p1 in (p2, e1 ++ e2))).
  { intros [p1 e1] H1. pose proof H1 as (Hf1 & _). pose proof (settles_then [it_call it] (map it_call q) p _ _ H1 (IH p1 Hf1)) as H.
    cbn in H. by destruct (flush ErrorInfo maxConcurrency d target q p1). }
  apply Hstep. destruct target as [w|e]; [|by apply settles_answer].
  destruct (channel_to w p) as [[i l]|] eqn:E; [|by apply settles_answer].
  apply channel_to_link in E. by apply invoke_on_settles.
Qed.

Lemma queued_forget d l : NoDup (map fst l) -> queued l ≡ₚ queued (forget d l) ++ map it_call (default [] (assoc d l)).
Proof.
  unfold queued, forget. induction l as [|[k v] l IH]; [done|]. cbn. intros Hn. apply NoDup_cons in Hn as [Hk Hn].
  rewrite (String.eqb_sym k d). destruct (String.eqb_spec d k) as [->|Hne]; cbn.
  - rewrite Permutation_app_comm. apply Permutation_app_tail. assert (List.filter (fun e => negb (String.eqb e.1 k)) l = l) as ->; [|done].
    clear -Hk. induction l as [|[j w] l IH]; [done|]. cbn in *. destruct (String.eqb_spec j k) as [->|]; cbn; [exfalso; apply Hk; by left|].
    rewrite IH; [done|]. intros H. apply Hk. by right.
  - by rewrite IH, app_assoc by done.
Qed.

Lemma forget_NoDup {A} k (l : list (string * A)) : NoDup (map fst l) -> NoDup (map fst (forget k l)).
Proof.
  unfold forget. induction l as [|[j v] l IH]; [done|]. cbn. intros Hn. apply NoDup_cons in Hn as [Hj Hn].
  destruct (negb (String.eqb j k)); cbn; [|by apply IH]. apply NoDup_cons. split; [|by apply IH].
  intros Hin. apply Hj. apply list_elem_of_fmap in Hin as (e & -> & He). apply list_elem_of_In, List.filter_In in He as [He _].
  apply list_elem_of_fmap. exists e. split; [done|]. by apply list_elem_of_In.
Qed.

Lemma flush_all_settles d target p : peers_fit p -> settles [] p (flushPendingPeerInvokes ErrorInfo maxConcurrency d target p).
Proof.
  intros [Hn Hl]. unfold flushPendingPeerInvokes. set (q := default [] _). set (p0 := with_pending _ p).
  assert (Hf : peers_fit p0) by (split; [by apply forget_NoDup|done]).
  destruct (flush_settles d target q p0 Hf) as (Hf' & H & Hc). split; [done|]. split; [|done].
  rewrite app_nil_r, <- H. unfold waiting. cbn. rewrite (queued_forget d) by done. fold q. rewrite <- !app_assoc.
  apply Permutation_app_head, Permutation_app_comm.
Qed.

(** Links and maps may change when the calls do not. *)
Lemma settles_change p p' : peers_fit p' -> pendingPeerInvokes p' = pendingPeerInvokes p -> open_links (links p') = open_links (links p) ->
  p_calls p' = p_calls p -> forall more r, settles more p' r -> settles more p r.
Proof. intros _ H1 H2 H3 more r (F & H & C). split; [done|]. split; [|by rewrite C]. rewrite <- H. unfold waiting. by rewrite H1, H2. Qed.

Lemma add_link_fit w serves appKey allowed p : peers_fit p ->
  peers_fit (add_link (new_link w serves appKey allowed) p) /\
  open_links (links (add_link (new_link w serves appKey allowed) p)) = open_links (links p).
Proof.
  intros [Hn Hl]. split; [split; [done|]|].
  - cbn. apply Forall_app. split; [done|]. apply Forall_singleton. split; [|done]. split; [constructor|]. by split; constructor.
  - unfold open_links. cbn. rewrite map_app, concat_app. cbn. by rewrite app_nil_r.
Qed.

Lemma reply_on_settles i id err data metering l p : peers_fit p -> links p !! i = Some l ->
  settles [] p (reply_on ErrorInfo maxConcurrency i id err data metering l p).
Proof. intros Hf Hi. unfold reply_on. apply (on_channel_settles i l); try done. cbn. by rewrite app_nil_r. Qed.

Lemma link_step_settles i l ev p : peers_fit p -> links p !! i = Some l -> settles [] p (link_step ErrorInfo maxConcurrency i l ev p).
Proof.
  intros Hf Hi. assert (H0 : settles [] p (p, [])) by by apply settles_nil.
  assert (Hch : forall o, match o with Invoke _ _ _ _ _ => False | _ => True end ->
    settles [] p (on_channel i l (channel_step ErrorInfo maxConcurrency o l) p)).
  { intros o Ho. apply (on_channel_settles i l); try done; [by rewrite app_nil_r|by destruct o]. }
  destruct ev as [m|id| |id|id err data|id err result]; cbn [link_step]; try by apply Hch.
  - destruct (serving_of id l) as [[r []]|]; try done. by apply reply_on_settles.
  - destruct (serving_of id l) as [[r []]|]; try done. unfold device_answers. destruct err; [by apply reply_on_settles|].
    destruct (is_nullish (if _ : bool then _ else _)); [by apply reply_on_settles|]. set (l' := with_serving _ _).
    split; [|split; [|done]].
    + destruct Hf as [Hn Hl]. split; [done|]. cbn. apply Forall_insert; [done|]. by apply (Forall_lookup_1 _ _ _ _ Hl Hi).
    + unfold waiting. cbn. rewrite app_nil_r. unfold answered. cbn. apply Permutation_app_head.
      rewrite <- (app_nil_r (open_links (links p))). apply (open_links_insert i l l' (links p) [] [] Hi). cbn. by rewrite app_nil_r.
  - destruct (serving_of id l) as [[r []]|]; try done. unfold finishMeteredHop. destruct err as [e|]; [|by apply reply_on_settles].
    destruct (strict_eq _ _); by apply reply_on_settles.
Qed.

(** What a step adds: a call, when a module makes one. *)
Definition new_calls (ev : event) (p : peers) : list nat := match ev with Calls _ _ _ _ _ _ => [p_calls p] | _ => [] end.

Lemma peer_step_settles ev p : peers_fit p ->
  let r := peer_step ErrorInfo maxConcurrency ev p in
  peers_fit r.1 /\ waiting p ++ new_calls ev p ≡ₚ answered r.2 ++ waiting r.1 /\ p_calls r.1 = (p_calls p + length (new_calls ev p))%nat.
Proof.
  intros Hf. assert (Hret : forall ev r, new_calls ev p = [] -> settles [] p r ->
    peers_fit r.1 /\ waiting p ++ new_calls ev p ≡ₚ answered r.2 ++ waiting r.1 /\ p_calls r.1 = (p_calls p + length (new_calls ev p))%nat).
  { intros ev' r -> (H1 & H2 & H3). split; [done|]. split; [done|]. cbn. lia. }
  destruct ev as [appKey billingKey d sv a input|d w port|d m c|w appKey d|w d|w|i lev]; cbn [peer_step].
  - unfold invokeActionViaPeerChannel. set (it := mkItem _ _ _ _ _). set (p0 := next_call p).
    assert (Hc : forall r, settles [it_call it] p0 r -> peers_fit r.1 /\ waiting p ++ [p_calls p] ≡ₚ answered r.2 ++ waiting r.1 /\ p_calls r.1 = (p_calls p + 1)%nat).
    { intros r (H1 & H2 & H3). split; [done|]. split; [done|]. rewrite H3. cbn. lia. }
    assert (Hw : settles [it_call it] p0 (wait_for_channel appKey d it p0)) by by apply wait_settles.
    destruct (assoc d _) as [w|]; [|by apply Hc]. destruct (channel_to w p0) as [[i l]|] eqn:E; [|by apply Hc].
    destruct (c_closed (l_channel l)); apply Hc; [done|]. apply channel_to_link in E. by apply invoke_on_settles.
  - apply Hret; [done|]. unfold onPeerChannelGrant. set (p0 := with_workers _ p). set (b := port && _).
    apply (settles_change p (if b then add_link (new_link w false JNull []) p0 else p0)).
    + destruct b; [by apply add_link_fit|done].
    + by destruct b.
    + destruct b; [|done]. by destruct (add_link_fit w false JNull [] p0 Hf) as [_ ->].
    + by destruct b.
    + apply flush_all_settles. destruct b; [by apply add_link_fit|done].
  - apply Hret; [done|]. by apply flush_all_settles.
  - apply Hret; [done|]. destruct (add_link_fit w true appKey [d] p Hf) as [H1 H2].
    apply (settles_change p (onPeerChannelOpen w appKey d p)); try done. by apply settles_nil.
  - apply Hret; [done|]. unfold onPeerChannelAllow. destruct (channel_to w p) as [[i l]|] eqn:E; [|by apply settles_nil].
    destruct (l_serves l); [|by apply settles_nil]. apply channel_to_link in E. destruct Hf as [Hn Hl].
    split; [|split; [|done]].
    + split; [done|]. cbn. apply Forall_insert; [done|]. by apply (Forall_lookup_1 _ _ _ _ Hl E).
    + unfold waiting. cbn. rewrite app_nil_r. unfold answered. cbn. apply Permutation_app_head.
      rewrite <- (app_nil_r (open_links (links p))). apply (open_links_insert i l _ (links p) [] [] E). cbn. by rewrite app_nil_r.
  - apply Hret; [done|]. unfold onPeerInvalidate. destruct (channel_to w p) as [[i l]|] eqn:E; [|by apply settles_nil].
    apply channel_to_link in E. by apply (link_step_settles i l PortCloses).
  - apply Hret; [done|]. destruct (links p !! i) as [l|] eqn:E; [|by apply settles_nil]. by apply link_step_settles.
Qed.

Definition made (evs : list event) : nat := length (List.filter (fun ev => match ev with Calls _ _ _ _ _ _ => true | _ => false end) evs).

Lemma peer_run_settles evs : forall p, peers_fit p ->
  let r := peer_run ErrorInfo maxConcurrency p evs in
  peers_fit r.1 /\ waiting p ++ seq (p_calls p) (made evs) ≡ₚ answered r.2 ++ waiting r.1 /\ p_calls r.1 = (p_calls p + made evs)%nat.
Proof.
  induction evs as [|ev evs IH]; intros p Hf; cbn [peer_run]; [split; [done|]; cbn; rewrite app_nil_r; split; [done|unfold made; cbn; lia]|].
  pose proof (peer_step_settles ev p Hf) as (H1 & H2 & H3). destruct (peer_step ErrorInfo maxConcurrency ev p) as [p1 e1]. cbn [fst snd] in *.
  destruct (IH p1 H1) as (H4 & H5 & H6). destruct (peer_run ErrorInfo maxConcurrency p1 evs) as [p2 e2]. cbn [fst snd] in *.
  assert (Hm : seq (p_calls p) (made (ev :: evs)) = new_calls ev p ++ seq (p_calls p1) (made evs)).
  { unfold made, new_calls in *. destruct ev; cbn in *; rewrite H3; cbn; rewrite ?Nat.add_0_r, ?Nat.add_1_r; done. }
  split; [done|]. split.
  - rewrite Hm, app_assoc, H2, answered_app', <- !app_assoc. apply Permutation_app_head. exact H5.
  - rewrite H6, H3. unfold made, new_calls. destruct ev; cbn; lia.
Qed.

(** Every call a module makes over peer channels, whatever grants, denials,
    replies, timeouts, invalidations and closed ports come and in which order,
    is answered at most once, and until then it is in exactly one place: queued
    behind the request for its device's channel, or pending on one channel,
    which a timer and the closing of the port answer for. *)
Theorem peer_calls_settle evs :
  let r := peer_run ErrorInfo maxConcurrency new_peers evs in
  answered r.2 ++ queued (pendingPeerInvokes r.1) ++ open_links (links r.1) ≡ₚ seq 0 (made evs).
Proof.
  intros r. destruct (peer_run_settles evs new_peers) as (_ & H & _); [split; [constructor|by constructor]|].
  symmetry. exact H.
Qed.

Lemma on_close_sub i l m w j : assoc w (on_close i l m) = Some j -> assoc w m = Some j.
Proof.
  unfold on_close. destruct (assoc (l_worker l) m) as [k|]; [|done]. destruct (k =? i)%nat; [|done].
  destruct (decide (l_worker l = w)) as [<-|Hne]; [by rewrite forget_self|by rewrite forget_other].
Qed.

Lemma let_out_map i es : forall l m w j, assoc w (let_out i es l m).1.2 = Some j -> assoc w m = Some j.
Proof.
  induction es as [|e es IH]; intros l m w j; [done|]. cbn.
  destruct e; try (specialize (IH l m w j); destruct (let_out i es l m) as [[l2 m2] e2]; exact IH).
  - destruct (on_invoke i r l) as [l1 e1]. specialize (IH l1 m w j). destruct (let_out i es l1 m) as [[l2 m2] e2]. exact IH.
  - specialize (IH l (on_close i l m) w j). destruct (let_out i es l (on_close i l m)) as [[l2 m2] e2]. intros H. by apply (on_close_sub i l), IH.
Qed.

(** *** What is served *)

Definition granted (evs : list event) (l : link) : Prop :=
  (l_serves l = false /\ l_allowed l = []) \/ exists d0, Opened (l_worker l) (l_appKey l) d0 ∈ evs /\
    forall d, d ∈ l_allowed l -> d = d0 \/ Allowed (l_worker l) d ∈ evs.

(** A request served is one that was given to the device, and metered when it
    is waiting for that. *)
Definition serving_ok (i : nat) (effs : list effect) (l : link) : Prop :=
  forall id r st, (id, (r, st)) ∈ l_serving l ->
  match st with
  | Refusing => True
  | Running => InvokeDevice i id r ∈ effs
  | Metering _ => exists m, AskMetering i id m r ∈ effs
  end.

Definition effect_ok (effs : list effect) (p : peers) (e : effect) : Prop :=
  match e with
  | InvokeDevice i id r => exists l, links p !! i = Some l /\ q_deviceID r ∈ l_allowed l
  | AskMetering i id m r => is_nullish m = false /\ InvokeDevice i id r ∈ effs /\
      exists l, links p !! i = Some l /\ m = if is_nullish (q_billingKey r) then l_appKey l else q_billingKey r
  | OnPort i (PostReply m) => m_errMsg m = None -> exists k r, AskMetering i (m_id m) k r ∈ effs
  | _ => True
  end.

(** A worker's channel is one to that worker. *)
Definition to_worker (ls : list link) (m : list (string * nat)) : Prop :=
  forall w i, assoc w m = Some i -> exists l, ls !! i = Some l /\ l_worker l = w.

Definition served_ok (evs : list event) (effs : list effect) (p : peers) : Prop :=
  (forall i l, links p !! i = Some l -> granted evs l /\ serving_ok i effs l) /\ (forall e, e ∈ effs -> effect_ok effs p e) /\
  to_worker (links p) (peerChannels p).

Lemma granted_more evs more l : granted evs l -> granted (evs ++ more) l.
Proof.
  intros [H|(d0 & H1 & H2)]; [by left|right]. exists d0. split; [apply elem_of_app; by left|].
  intros d Hd. destruct (H2 d Hd); [by left|right]. apply elem_of_app. by left.
Qed.

Lemma serving_more i effs more l : serving_ok i effs l -> serving_ok i (effs ++ more) l.
Proof.
  intros H id r st Hin. specialize (H id r st Hin). destruct st; [done|apply elem_of_app; by left|].
  destruct H as [m Hm]. exists m. apply elem_of_app. by left.
Qed.

(** Links keep what was granted them. *)
Definition keeps (p p' : peers) : Prop :=
  forall i l, links p !! i = Some l -> exists l', links p' !! i = Some l' /\ l_appKey l' = l_appKey l /\ (forall d, d ∈ l_allowed l -> d ∈ l_allowed l').

Lemma effect_more effs more p p' e : effect_ok effs p e -> keeps p p' -> effect_ok (effs ++ more) p' e.
Proof.
  intros He Hk. destruct e as [| |i pe|i id r|i id m r]; cbn in *; try done.
  - destruct pe; try done. intros Hm. destruct (He Hm) as (k & r & Hin). exists k, r. apply elem_of_app. by left.
  - destruct He as (l & Hl & Hin). destruct (Hk i l Hl) as (l' & Hl' & _ & Hd). eauto.
  - destruct He as (Hn & Hin & l & Hl & ->). destruct (Hk i l Hl) as (l' & Hl' & Ha & _). split_and!; [done|apply elem_of_app; by left|].
    exists l'. by rewrite Ha.
Qed.

Lemma keeps_refl p : keeps p p.
Proof. intros i l Hl. eauto. Qed.

(** What a channel lets out of a link. *)
Lemma let_out_served i es : forall l m effs, serving_ok i effs l ->
  let x := let_out i es l m in
  serving_ok i (effs ++ x.2) x.1.1 /\
  (forall e, e ∈ x.2 -> match e with
    | InvokeDevice j id r => j = i /\ q_deviceID r ∈ l_allowed l
    | AskMetering _ _ _ _ => False
    | OnPort j pe => j = i /\ pe ∈ es
    | _ => True
    end).
Proof.
  induction es as [|e es IH]; intros l m effs Hs; cbn.
  { rewrite app_nil_r. split; [done|]. intros e He. by apply not_elem_of_nil in He. }
  assert (Hstep : forall l1 m1 e1, l_allowed l1 = l_allowed l -> serving_ok i (effs ++ e1) l1 ->
    (forall e', e' ∈ e1 -> match e' with InvokeDevice j id r => j = i /\ q_deviceID r ∈ l_allowed l | AskMetering _ _ _ _ => False | OnPort j pe => j = i /\ pe ∈ e :: es | _ => True end) ->
    let x := (let '(l2, m2, e2) := let_out i es l1 m1 in (l2, m2, e1 ++ e2)) in
    serving_ok i (effs ++ x.2) x.1.1 /\
    (forall e', e' ∈ x.2 -> match e' with InvokeDevice j id r => j = i /\ q_deviceID r ∈ l_allowed l | AskMetering _ _ _ _ => False | OnPort j pe => j = i /\ pe ∈ e :: es | _ => True end)).
  { intros l1 m1 e1 Hal Hs1 He1. specialize (IH l1 m1 (effs ++ e1) Hs1). destruct (let_out i es l1 m1) as [[l2 m2] e2]. cbn in *.
    destruct IH as [IH1 IH2]. split; [by rewrite app_assoc|]. intros e' [Hin|Hin]%elem_of_app; [by apply He1|]. specialize (IH2 e' Hin).
    destruct e'; try done; [destruct IH2; split; [done|by right]|by rewrite <- Hal]. }
  assert (Hquiet : forall m1 e1, (forall e', e' ∈ e1 -> match e' with InvokeDevice j id r => j = i /\ q_deviceID r ∈ l_allowed l | AskMetering _ _ _ _ => False | OnPort j pe => j = i /\ pe ∈ e :: es | _ => True end) ->
    let x := (let '(l2, m2, e2) := let_out i es l m1 in (l2, m2, e1 ++ e2)) in
    serving_ok i (effs ++ x.2) x.1.1 /\
    (forall e', e' ∈ x.2 -> match e' with InvokeDevice j id r => j = i /\ q_deviceID r ∈ l_allowed l | AskMetering _ _ _ _ => False | OnPort j pe => j = i /\ pe ∈ e :: es | _ => True end))
    by (intros; apply Hstep; [done|by apply serving_more|done]).
  destruct e as [r|m0|k o|r| |]; try (apply Hquiet; intros e' ->%list_elem_of_singleton; split; [done|by left]).
  - apply Hquiet. intros e' He. destruct (l_owners l !! k); [apply list_elem_of_singleton in He as ->; by destruct o|by apply not_elem_of_nil in He].
  - unfold on_invoke. destruct (includes (q_deviceID r) (l_allowed l)) eqn:Ei; apply Hstep; try done.
    + intros id r' st [Hin|[= -> -> ->]%list_elem_of_singleton]%elem_of_app; [by apply (serving_more i effs _ l Hs)|]. apply elem_of_app. right. by left.
    + intros e' ->%list_elem_of_singleton. split; [done|by apply includes_spec].
    + intros id r' st [Hin|[= -> -> ->]%list_elem_of_singleton]%elem_of_app; [by apply (serving_more i effs _ l Hs)|done].
    + intros e' He. by apply not_elem_of_nil in He.
  - apply Hquiet. intros e' He. by apply not_elem_of_nil in He.
Qed.

(** A reply a channel posts is the one it was given, or an error. *)
Lemma step_posts o l m : PostReply m ∈ (channel_step ErrorInfo maxConcurrency o l).2 -> o = Served m \/ m_errMsg m <> None.
Proof.
  assert (Hd : forall c, PostReply m ∈ (drainSendQueue maxConcurrency c).2 -> False).
  { intros c. unfold drainSendQueue, sendInvoke. repeat case_match; cbn; set_solver. }
  assert (Hd2 : forall c, PostReply m ∈ (drainDispatchQueue maxConcurrency c).2 -> False).
  { intros c. unfold drainDispatchQueue, dispatchInvoke. repeat case_match; cbn; set_solver. }
  unfold channel_step. destruct o as [d sv a inp b|id|msg|m0|]; cbn.
  - unfold invoke, sendInvoke. repeat case_match; cbn; set_solver.
  - unfold on_timer. destruct (pending_call _ _); cbn; set_solver.
  - destruct msg as [r|m1|]; cbn; [| |by intros H%not_elem_of_nil].
    + unfold handleInvoke, dispatchInvoke. destruct (l_serves l); cbn [negb]; [destruct (at_capacity _ _)|]; cbn; intros H;
        [by apply not_elem_of_nil in H|by apply list_elem_of_singleton in H|]. apply list_elem_of_singleton in H as [= ->]. by right.
    + unfold handleReply. set (c0 := with_sends _ _ _ _ _). specialize (Hd c0). destruct (drainSendQueue maxConcurrency c0) as [c1 es].
      destruct (pending_call _ c1); cbn in *; [|by intros ?%Hd]. intros [?%Hd|?%list_elem_of_singleton]%elem_of_app; done.
  - unfold served. set (c0 := with_dispatches _ _ _ _). specialize (Hd2 c0). destruct (drainDispatchQueue maxConcurrency c0) as [c1 es]. cbn in *.
    intros [[= ->]|?%Hd2]%elem_of_cons; [by left|done].
  - unfold invalidate. destruct (c_closed _); cbn; [by intros H%not_elem_of_nil|].
    intros [H|H]%elem_of_app; [by apply list_elem_of_fmap in H as (? & ? & _)|]. apply elem_of_cons in H as [?|?%list_elem_of_singleton]; done.
Qed.

Lemma on_channel_served evs effs i l0 l o p :
  served_ok evs effs p -> links p !! i = Some l0 -> l_worker l = l_worker l0 -> l_appKey l = l_appKey l0 -> l_allowed l = l_allowed l0 ->
  l_serves l = l_serves l0 -> (forall x, x ∈ l_serving l -> x ∈ l_serving l0) ->
  (forall m, o = Served m -> m_errMsg m = None -> exists k r, AskMetering i (m_id m) k r ∈ effs) ->
  let x := on_channel i l (channel_step ErrorInfo maxConcurrency o l) p in served_ok evs (effs ++ x.2) x.1.
Proof.
  intros (Hl & He & Hto) Hi Hw Hak Hal Hrole Hsv Hm. destruct (Hl i l0 Hi) as [Hg Hs]. pose proof (step_posts o l) as Hposts. unfold on_channel.
  set (r := channel_step _ _ _ _) in *.
  assert (Hs' : serving_ok i effs (with_channel r.1 l)) by (intros id r' st Hin; by apply Hs, Hsv).
  pose proof (let_out_served i r.2 (with_channel r.1 l) (peerChannels p) effs Hs') as Hout.
  pose proof (let_out_same i r.2 (with_channel r.1 l) (peerChannels p)) as Hsame.
  pose proof (let_out_map i r.2 (with_channel r.1 l) (peerChannels p)) as Hmap.
  destruct (let_out i r.2 (with_channel r.1 l) (peerChannels p)) as [[l' m] out]. cbn [fst snd] in *.
  destruct Hout as [Ho1 Ho2], Hsame as (_ & _ & Ew & Es & Ea & Ed & _). cbn in Ew, Ea, Ed, Es.
  assert (Hlook : links p !! i <> None) by by rewrite Hi. assert (Hlt : (i < length (links p))%nat) by (by eapply lookup_lt_Some).
  assert (Hk : keeps p (with_channels m (with_links (<[i := l']> (links p)) p))).
  { intros j lj Hj. cbn. destruct (decide (i = j)) as [<-|Hne].
    - rewrite list_lookup_insert_eq by done. exists l'. rewrite Ea, Hak, Ed, Hal. by simplify_eq.
    - rewrite list_lookup_insert_ne by done. eauto. }
  split; [|split].
  - intros j lj Hj. cbn in Hj. apply list_lookup_insert_Some in Hj as [(<- & <- & _)|[Hne Hj]].
    + split; [|done]. unfold granted in *. rewrite Ed, Ew, Ea, Es. cbn. by rewrite Hal, Hw, Hak, Hrole.
    + destruct (Hl j lj Hj). split; [done|by apply serving_more].
  - intros e [Hin|Hin]%elem_of_app; [by eapply effect_more; [apply He|]|]. specialize (Ho2 e Hin). destruct e as [| |j pe|j id r'|]; cbn; try done.
    + destruct Ho2 as [-> Hpe]. destruct pe as [|mr| | | |]; try done. intros Hnone. destruct (Hposts mr Hpe) as [Eo|?]; [|done].
      destruct (Hm mr Eo Hnone) as (k & r' & Hk'). exists k, r'. apply elem_of_app. by left.
    + destruct Ho2 as [-> Hin']. exists l'. cbn. rewrite list_lookup_insert_eq by done. by rewrite Ed.
  - intros w j Hj%Hmap. cbn. destruct (Hto w j Hj) as (lj & Hlj & Hwj). destruct (decide (i = j)) as [<-|Hne].
    + rewrite list_lookup_insert_eq by done. exists l'. simplify_eq. by rewrite Ew, Hw.
    + rewrite list_lookup_insert_ne by done. eauto.
Qed.

Lemma served_same evs effs p p' : served_ok evs effs p -> links p' = links p -> peerChannels p' = peerChannels p -> served_ok evs (effs ++ []) p'.
Proof.
  intros (H1 & H2 & H3) E Em. split; [rewrite E, app_nil_r; done|]. rewrite app_nil_r. split; [|by rewrite E, Em]. intros e He. rewrite <- (app_nil_r effs).
  eapply effect_more; [by apply H2|]. intros i l Hl. rewrite E. eauto.
Qed.

(** Effects that say nothing of what is served. *)
Lemma served_quiet evs effs p p' more : served_ok evs effs p -> links p' = links p -> peerChannels p' = peerChannels p ->
  (forall e, e ∈ more -> match e with RequestChannel _ _ | Answer _ _ _ _ => True | _ => False end) -> served_ok evs (effs ++ more) p'.
Proof.
  intros Hok E Em Hm. destruct (served_same evs effs p p' Hok E Em) as (H1 & H2 & H3). rewrite app_nil_r in *. split; [|split; [|done]].
  - intros i l Hl. destruct (H1 i l Hl). split; [done|by apply serving_more].
  - intros e [Hin|Hin]%elem_of_app; [eapply effect_more; [by apply H2|apply keeps_refl]|]. specialize (Hm e Hin). by destruct e.
Qed.

Lemma served_more evs more effs p : served_ok evs effs p -> served_ok (evs ++ more) effs p.
Proof. intros [H1 H2]. split; [|exact H2]. intros i l Hl. destruct (H1 i l Hl). split; [by apply granted_more|done]. Qed.

Lemma invoke_on_served evs effs i l d it p : served_ok evs effs p -> links p !! i = Some l ->
  let x := invoke_on ErrorInfo maxConcurrency i l d it p in served_ok evs (effs ++ x.2) x.1.
Proof. intros Hok Hi. by apply (on_channel_served evs effs i l). Qed.

Lemma flush_served evs d target q : forall effs p, served_ok evs effs p ->
  let x := flush ErrorInfo maxConcurrency d target q p in served_ok evs (effs ++ x.2) x.1.
Proof.
  induction q as [|it q IH]; intros effs p Hok; cbn [flush]; [by eapply served_same|].
  assert (Hstep : forall r, served_ok evs (effs ++ r.2) r.1 ->
    let x := (let '(p1, e1) := r in let '(p2, e2) := flush ErrorInfo maxConcurrency d target q p1 in (p2, e1 ++ e2)) in served_ok evs (effs ++ x.2) x.1).
  { intros [p1 e1] H1. specialize (IH _ _ H1). cbn in *. destruct (flush ErrorInfo maxConcurrency d target q p1). cbn in *. by rewrite app_assoc. }
  apply Hstep. assert (Hans : forall n e, served_ok evs (effs ++ [Answer n e JUndef JUndef]) p).
  { intros n e. apply (served_quiet evs effs p p); [done|done|done|]. by intros e' ->%list_elem_of_singleton. }
  destruct target as [w|e]; [|apply Hans]. destruct (channel_to w p) as [[i l]|] eqn:E; [|apply Hans].
  apply channel_to_link in E. by apply invoke_on_served.
Qed.

Lemma serving_of_in id l r st : serving_of id l = Some (r, st) -> (id, (r, st)) ∈ l_serving l.
Proof.
  unfold serving_of. destruct (List.find _ (l_serving l)) as [[j x]|] eqn:E; [|done]. cbn. intros [= ->].
  apply List.find_some in E as [Hin He]. apply Nat.eqb_eq in He. cbn in He. subst j. by apply list_elem_of_In.
Qed.

Lemma reply_on_served evs effs i id err data metering l p : served_ok evs effs p -> links p !! i = Some l ->
  (err = None -> exists k r, AskMetering i id k r ∈ effs) ->
  let x := reply_on ErrorInfo maxConcurrency i id err data metering l p in served_ok evs (effs ++ x.2) x.1.
Proof.
  intros Hok Hi Herr. unfold reply_on. apply (on_channel_served evs effs i l); try done.
  - cbn. intros x Hx. apply list_elem_of_In, List.filter_In in Hx as [Hx _]. by apply list_elem_of_In.
  - intros m [= <-]. destruct err as [e|]; cbn; [done|]. intros _. by apply Herr.
Qed.

Lemma link_step_served evs effs i l ev p : served_ok evs effs p -> links p !! i = Some l ->
  let x := link_step ErrorInfo maxConcurrency i l ev p in served_ok evs (effs ++ x.2) x.1.
Proof.
  intros Hok Hi. assert (H0 : served_ok evs (effs ++ []) p) by by eapply served_same. pose proof Hok as [Hl _]. destruct (Hl i l Hi) as [Hg Hs].
  assert (Hch : forall o, match o with Served _ => False | _ => True end ->
    let x := on_channel i l (channel_step ErrorInfo maxConcurrency o l) p in served_ok evs (effs ++ x.2) x.1).
  { intros o Ho. apply (on_channel_served evs effs i l); try done. by intros m ->. }
  destruct ev as [m|id| |id|id err data|id err result]; cbn [link_step]; try by apply Hch.
  - destruct (serving_of id l) as [[r []]|]; try done. by apply reply_on_served.
  - destruct (serving_of id l) as [[r []]|] eqn:Es; try done. apply serving_of_in in Es. specialize (Hs id r Running Es). cbn in Hs.
    unfold device_answers. destruct err; [by apply reply_on_served|]. destruct (is_nullish (if _ : bool then _ else _)) eqn:En; [by apply reply_on_served|].
    set (k := if _ : bool then _ else _) in *. set (l' := with_serving _ _). cbn [fst snd].
    assert (Hk : keeps p (with_links (<[i := l']> (links p)) p)).
    { intros j lj Hj. cbn. destruct (decide (i = j)) as [<-|Hne].
      - rewrite list_lookup_insert_eq by (by eapply lookup_lt_Some). simplify_eq. by exists l'.
      - rewrite list_lookup_insert_ne by done. eauto. }
    destruct Hok as (Hl' & He & Hto). split; [|split].
    + intros j lj Hj. cbn in Hj. apply list_lookup_insert_Some in Hj as [(<- & <- & _)|[Hne Hj]]; [|destruct (Hl' j lj Hj); split; [done|by apply serving_more]].
      split; [exact Hg|]. intros id' r' st Hin. cbn in Hin. apply list_elem_of_fmap in Hin as ([id0 [r0 st0]] & E & Hin). cbn in E.
      destruct (id0 =? id)%nat.
      * injection E as -> -> ->. exists k. apply elem_of_app. right. by left.
      * injection E as -> -> ->. destruct (Hl' i l Hi) as [_ Hs']. apply (serving_more i effs [AskMetering i id k r] l Hs' id0 r0 st0 Hin).
    + intros e [Hin| ->%list_elem_of_singleton]%elem_of_app; [by eapply effect_more; [apply He|]|]. cbn. split_and!; [done|apply elem_of_app; by left|].
      exists l'. by rewrite list_lookup_insert_eq by (by eapply lookup_lt_Some).
    + intros w j Hj. cbn in *. destruct (Hto w j Hj) as (lj & Hlj & Hwj). destruct (decide (i = j)) as [<-|Hne].
      * rewrite list_lookup_insert_eq by (by eapply lookup_lt_Some). exists l'. by simplify_eq.
      * rewrite list_lookup_insert_ne by done. eauto.
  - destruct (serving_of id l) as [[r [| |data]]|] eqn:Es; try done. apply serving_of_in in Es. destruct (Hs id r _ Es) as [k Hk].
    unfold finishMeteredHop. destruct err as [e|]; [destruct (strict_eq _ _)|]; apply reply_on_served; eauto.
Qed.

Lemma add_link_served evs effs w serves appKey allowed p : served_ok evs effs p ->
  ((serves = false /\ allowed = []) \/ exists d, allowed = [d] /\ Opened w appKey d ∈ evs) ->
  served_ok evs (effs ++ []) (add_link (new_link w serves appKey allowed) p).
Proof.
  intros (H1 & H2 & H3) Hal. rewrite app_nil_r. split; [|split].
  - intros i l Hl. cbn in Hl. apply lookup_app_Some in Hl as [Hl|[_ Hl]]; [by apply H1|]. apply list_lookup_singleton_Some in Hl as [_ <-].
    split; [|intros id r st Hin; by apply not_elem_of_nil in Hin]. destruct Hal as [[-> ->]|(d & -> & Hin)]; [by left|right]. exists d.
    split; [done|]. intros d' ->%list_elem_of_singleton. by left.
  - intros e He. rewrite <- (app_nil_r effs). eapply effect_more; [by apply H2|]. intros i l Hl. exists l. cbn.
    rewrite lookup_app_l by (by eapply lookup_lt_Some). done.
  - intros w' j Hj. cbn in Hj. rewrite assoc_set_lookup in Hj. destruct (String.eqb_spec w' w) as [->|Hne].
    + injection Hj as <-. exists (new_link w serves appKey allowed). cbn. by rewrite list_lookup_middle.
    + destruct (H3 w' j Hj) as (l & Hl & Hw). exists l. cbn. by rewrite lookup_app_l by (by eapply lookup_lt_Some).
Qed.

Lemma allow_served evs effs w d i l p : served_ok evs effs p -> channel_to w p = Some (i, l) -> l_serves l = true -> Allowed w d ∈ evs ->
  served_ok evs (effs ++ []) (with_links (<[i := with_allowed d l]> (links p)) p).
Proof.
  intros (H1 & H2 & H3) Hc Hs Hin. assert (Hi := channel_to_link w p i l Hc).
  assert (Hw : l_worker l = w).
  { unfold channel_to in Hc. destruct (assoc w (peerChannels p)) as [j|] eqn:Ej; [|done]. destruct (H3 w j Ej) as (l0 & Hl0 & Hw0).
    rewrite Hl0 in Hc. by simplify_eq. }
  assert (Hd : forall d', d' ∈ l_allowed (with_allowed d l) <-> d' ∈ l_allowed l \/ d' = d).
  { intros d'. cbn. destruct (includes d (l_allowed l)) eqn:E; [apply includes_spec in E; split; [by left|by intros [?| ->]]|]. by rewrite elem_of_app, list_elem_of_singleton. }
  rewrite app_nil_r. split; [|split].
  - intros j lj Hj. cbn in Hj. apply list_lookup_insert_Some in Hj as [(<- & <- & _)|[Hne Hj]]; [|by apply H1].
    destruct (H1 i l Hi) as [Hg Hsv]. split; [|exact Hsv]. destruct Hg as [[? _]|(d0 & Ho & Ha)]; [congruence|right]. exists d0. split; [done|].
    intros d' [H| ->]%Hd; [by apply Ha|]. right. cbn. by rewrite Hw.
  - intros e He. rewrite <- (app_nil_r effs). eapply effect_more; [by apply H2|]. intros j lj Hj. cbn. destruct (decide (i = j)) as [<-|Hne].
    + rewrite list_lookup_insert_eq by (by eapply lookup_lt_Some). simplify_eq. eexists. split; [done|]. split; [done|]. intros d' ?. apply Hd. by left.
    + rewrite list_lookup_insert_ne by done. eauto.
  - intros w' j Hj. cbn in *. destruct (H3 w' j Hj) as (lj & Hlj & Hwj). destruct (decide (i = j)) as [<-|Hne].
    + rewrite list_lookup_insert_eq by (by eapply lookup_lt_Some). eexists. split; [done|]. cbn. by simplify_eq.
    + rewrite list_lookup_insert_ne by done. eauto.
Qed.

Lemma peer_step_served evs effs ev p : served_ok evs effs p ->
  let x := peer_step ErrorInfo maxConcurrency ev p in served_ok (evs ++ [ev]) (effs ++ x.2) x.1.
Proof.
  intros Hok0. assert (Hok : served_ok (evs ++ [ev]) effs p) by by apply served_more. clear Hok0.
  assert (Hev : ev ∈ evs ++ [ev]) by (apply elem_of_app; right; by left). set (evs' := evs ++ [ev]) in *. clearbody evs'.
  assert (H0 : served_ok evs' (effs ++ []) p) by by eapply served_same.
  destruct ev as [appKey billingKey d sv a input|d w port|d m c|w appKey d|w d|w|i lev]; cbn [peer_step].
  - unfold invokeActionViaPeerChannel. set (it := mkItem _ _ _ _ _). set (p0 := next_call p).
    assert (Hp0 : served_ok evs' effs p0) by (rewrite <- (app_nil_r effs); by eapply served_same).
    assert (Hw : let x := wait_for_channel appKey d it p0 in served_ok evs' (effs ++ x.2) x.1).
    { unfold wait_for_channel. destruct (assoc d _); (eapply served_quiet; [exact Hp0|done|done|]); [set_solver|by intros e ->%list_elem_of_singleton]. }
    destruct (assoc d _) as [w|]; [|exact Hw]. destruct (channel_to w p0) as [[i l]|] eqn:E; [|exact Hw].
    destruct (c_closed (l_channel l)); [exact Hw|]. apply channel_to_link in E. by apply invoke_on_served.
  - unfold onPeerChannelGrant. set (p0 := with_workers _ p). set (b := port && _). apply flush_served.
    assert (Hp0 : served_ok evs' effs p0) by (rewrite <- (app_nil_r effs); by eapply served_same).
    destruct b; [|done]. rewrite <- (app_nil_r effs). apply add_link_served; [done|by left].
  - apply flush_served. rewrite <- (app_nil_r effs). by eapply served_same.
  - apply add_link_served; [done|]. right. by exists d.
  - unfold onPeerChannelAllow. destruct (channel_to w p) as [[i l]|] eqn:E; [|done]. destruct (l_serves l) eqn:Es; [|done].
    by apply (allow_served evs' effs w d i l).
  - unfold onPeerInvalidate. destruct (channel_to w p) as [[i l]|] eqn:E; [|done]. apply channel_to_link in E. by apply (link_step_served evs' effs i l PortCloses).
  - destruct (links p !! i) as [l|] eqn:E; [|done]. by apply link_step_served.
Qed.

Lemma peer_run_served evs : forall evs0 effs p, served_ok evs0 effs p ->
  let x := peer_run ErrorInfo maxConcurrency p evs in served_ok (evs0 ++ evs) (effs ++ x.2) x.1.
Proof.
  induction evs as [|ev evs IH]; intros evs0 effs p Hok; cbn [peer_run]; [by rewrite !app_nil_r|].
  pose proof (peer_step_served evs0 effs ev p Hok) as H1. destruct (peer_step ErrorInfo maxConcurrency ev p) as [p1 e1]. cbn [fst snd] in H1.
  specialize (IH _ _ _ H1). destruct (peer_run ErrorInfo maxConcurrency p1 evs) as [p2 e2]. cbn [fst snd] in *. by rewrite <- !app_assoc in IH.
Qed.

(** What a worker serves over its channels, whatever the other ends send: a
    request reaches a device only if the broker granted that device to the
    channel's other worker, when it opened the channel or later; a served call
    is metered only after its action was run, to the key the request names or
    else the one the channel was opened with, and never to nobody; and a success
    is replied only to a call that was metered. *)
Theorem served_calls_granted evs :
  let r := peer_run ErrorInfo maxConcurrency new_peers evs in
  (forall i id q, InvokeDevice i id q ∈ r.2 -> exists l d0, links r.1 !! i = Some l /\ Opened (l_worker l) (l_appKey l) d0 ∈ evs /\
     (q_deviceID q = d0 \/ Allowed (l_worker l) (q_deviceID q) ∈ evs)) /\
  (forall i id k q, AskMetering i id k q ∈ r.2 -> is_nullish k = false /\ InvokeDevice i id q ∈ r.2 /\
     exists l, links r.1 !! i = Some l /\ k = if is_nullish (q_billingKey q) then l_appKey l else q_billingKey q) /\
  (forall i m, OnPort i (PostReply m) ∈ r.2 -> m_errMsg m = None -> exists k q, AskMetering i (m_id m) k q ∈ r.2).
Proof.
  intros r. assert (H0 : served_ok [] [] new_peers).
  { split; [by intros i l Hl|]. split; [intros e He; by apply not_elem_of_nil in He|by intros w j Hj]. }
  destruct (peer_run_served evs [] [] new_peers H0) as (H1 & H2 & _). fold r in H1, H2. cbn [app] in H1, H2. split_and!.
  - intros i id q Hin. destruct (H2 _ Hin) as (l & Hl & Hd). destruct (H1 i l Hl) as [[[_ E]|(d0 & Ho & Ha)] _].
    + rewrite E in Hd. by apply not_elem_of_nil in Hd.
    + exists l, d0. split_and!; [done|done|]. by apply Ha.
  - intros i id k q Hin. exact (H2 _ Hin).
  - intros i m Hin. exact (H2 _ Hin).
Qed.

(** *** Two workers that call each other *)

(** A grant of a new port for a worker this one already serves makes no channel
    of it: the calls that waited go out on the channel served, whose other end
    answers that it has no handler. *)
Theorem grant_takes_served_channel d w p i l :
  channel_to w p = Some (i, l) -> l_serves l = true -> c_closed (l_channel l) = false ->
  onPeerChannelGrant ErrorInfo maxConcurrency d w true p =
    flushPendingPeerInvokes ErrorInfo maxConcurrency d (inl w) (with_workers (assoc_set d w (peerDeviceWorkerMap p)) p) /\
  forall r, handleInvoke maxConcurrency false (errorText ErrorInfo) r (l_channel l) =
    (l_channel l, [PostReply (mkReply (q_id r) (Some (errorText ErrorInfo "PEER_NO_HANDLER")) (Some "PEER_NO_HANDLER"%string) JNull JUndef)]).
Proof.
  intros Hc Hs Ho. split; [|done]. unfold onPeerChannelGrant.
  assert (channel_to w (with_workers (assoc_set d w (peerDeviceWorkerMap p)) p) = Some (i, l)) as -> by exact Hc.
  by rewrite Ho.
Qed.
End lemmas.

(** ** Concrete workers *)

(** One call over a new channel, answered. *)
Definition demo_events : list event :=
  [Calls (JStr "key") (JStr "payer") "dev-b" "s" "a" (JNum 1); Granted "dev-b" "B" true;
   OnLink 0 (Arrives (PeerReply (mkReply 0 None None (JStr "done") (JNum 5))))].

Example peer_calls_settle_demo :
  let r := peer_run (fun _ => None) (Some 4%Z) new_peers demo_events in
  r.2 = [RequestChannel "dev-b" (JStr "key"); OnPort 0 (PostInvoke (mkReq 0 "dev-b" "s" "a" (JNum 1) (JStr "payer")));
         Answer 0 None (JStr "done") (JNum 5)] /\ answered r.2 = seq 0 (made demo_events).
Proof. vm_compute. done. Qed.

Definition the_request : request := mkReq 0 "dev-a" "s" "a" (JNum 1) JNull.
Definition served_events : list event :=
  [Opened "B" (JStr "key-b") "dev-a"; OnLink 0 (Arrives (PeerInvoke the_request)); OnLink 0 (DeviceAnswers 0 None (JStr "done"));
   OnLink 0 (MeteringAnswers 0 None (JNum 5))].

Lemma served_calls_granted_witness :
  let r := peer_run (fun _ => None) None new_peers served_events in
  r.2 = [InvokeDevice 0 0 the_request; AskMetering 0 0 (JStr "key-b") the_request;
         OnPort 0 (PostReply (mkReply 0 None None (JStr "done") (JNum 5)))] /\
  exists k q, AskMetering 0 0 k q ∈ r.2.
Proof.
  set (r := peer_run (fun _ => None) None new_peers served_events).
  assert (E : r.2 = [InvokeDevice 0 0 the_request; AskMetering 0 0 (JStr "key-b") the_request;
         OnPort 0 (PostReply (mkReply 0 None None (JStr "done") (JNum 5)))]) by (vm_compute; reflexivity).
  split; [exact E|]. destruct (served_calls_granted (fun _ => None) None served_events) as (_ & _ & H).
  apply (H 0%nat (mkReply 0 None None (JStr "done") (JNum 5))); [|done]. fold r. rewrite E. right; right; left.
Defined.

(** A calls a device of B's, then B one of A's: B's call goes out on the channel
    it serves, A answers that it has no handler, and A's next call goes out on
    the channel it was opened to serve. *)
Definition crossed_at_B : list event :=
  [Opened "A" (JStr "key-a") "dev-b"; Calls (JStr "key-b") JNull "dev-a" "s" "a" (JNum 1); Granted "dev-a" "A" true].
Definition crossed_at_A : list event :=
  [Calls (JStr "key-a") JNull "dev-b" "s" "b" (JNum 1); Granted "dev-b" "B" true; Opened "B" (JStr "key-b") "dev-a";
   OnLink 0 (Arrives (PeerInvoke (mkReq 0 "dev-a" "s" "a" (JNum 1) JNull)));
   Calls (JStr "key-a") JNull "dev-b" "s" "b" (JNum 2)].

Example crossed_channels :
  (peer_run (fun _ => None) None new_peers crossed_at_B).2 =
    [RequestChannel "dev-a" (JStr "key-b"); OnPort 0 (PostInvoke (mkReq 0 "dev-a" "s" "a" (JNum 1) JNull))] /\
  (peer_run (fun _ => None) None new_peers crossed_at_A).2 =
    [RequestChannel "dev-b" (JStr "key-a"); OnPort 0 (PostInvoke (mkReq 0 "dev-b" "s" "b" (JNum 1) JNull));
     OnPort 0 (PostReply (mkReply 0 (Some "PEER_NO_HANDLER") (Some "PEER_NO_HANDLER") JNull JUndef));
     OnPort 1 (PostInvoke (mkReq 0 "dev-b" "s" "b" (JNum 2) JNull))].
Proof. vm_compute. done. Qed.
