(* ===== verification/Calls.v ===== *)
(** * Calls into workers (lib/device-manager.js, lib/countinghouse-interface.js)

    Two of the main thread's ways into a worker's action: a client's call, with
    its rate limits, and a job; and what a worker may ask about jobs. The third,
    a call from another worker, is Hop.v's. *)
From Stdlib Require Import ZArith Lia Ascii String.
From stdpp Require Import prelude strings gmap.
From S2P Require Import Prelude Json Errors Session Auth JobControl DeviceManager.

Set Default Proof Using "Type".

(** ** Jobs *)

(** [runsJob]: [jobsInFlight.has(String(jobID))] *)
Definition runsJob (wm : worker) (jobID : jsval) : bool := includes (js_text jobID) (w_jobsInFlight wm).

(** [Object.assign({}, v)]: the own members of a value. *)
Definition own_members (v : jsval) : list (string * jsval) :=
  match v with
  | JObj kvs => kvs
  | JArr xs => zip (js_keys v) xs
  | JStr s => imap (fun i c => (nat_text i, JStr (String c ""))) (list_ascii_of_string s)
  | _ => []
  end.

Definition without (k : string) (l : list (string * jsval)) : list (string * jsval) := forget k l.

(** [forWorker]: the job as its worker may see it. *)
Definition forWorker (record : jsval) : jsval :=
  let job := jget "job" record in
  if is_nullish record || is_nullish job then record
  else
    let data := JObj (without "apiKey" (own_members (jget "data" job))) in
    JObj (assoc_set "job" (JObj (assoc_set "opts" JUndef (assoc_set "data" data (own_members job)))) (own_members record)).

(** The jobs of one worker: a run starts, with what [postMessage] throws if it
    does, and ends, and the worker asks. *)
Inductive job_event :=
| JobStarts (deviceID serviceID actionName input jobID : jsval) (throws : option string)
| JobEnds (jobID : jsval) (err : option cherr) (result : jsval)
| AsksJob (jobID msgID : jsval)
| ReportsProgress (jobID progress : jsval)
| JobRead (msgID : jsval) (answer : cherr + jsval).

Inductive job_effect :=
| SendJob (deviceID serviceID actionName args : jsval)
| JobCallback (err : option cherr) (result : jsval)
| ReadJob (jobID msgID : jsval)
| JobInfoReply (msgID errMsg job : jsval)
| UpdateProgress (jobID progress : jsval)
| LogRefused (jobID : string).

Section calls.
Context (ErrorInfo : string -> option string).

(** [new DeviceError(err.code != null ? err.code : err.message)] *)
Definition rewrapped (err : cherr) : cherr :=
  mkCh KDeviceError (if is_nullish (c_code err) then JStr (message_of ErrorInfo err) else c_code err) [].

Definition job_step (ev : job_event) (wm : worker) : worker * list job_effect :=
  match ev with
  | JobStarts deviceID serviceID actionName input jobID throws =>
      let id := js_text jobID in
      (with_jobs (if includes id (w_jobsInFlight wm) then w_jobsInFlight wm else w_jobsInFlight wm ++ [id]) wm,
       match throws with
       | None => [SendJob deviceID serviceID actionName (JObj [("input", input); ("jobID", jobID)])]
       | Some message => [JobCallback (Some (CHError "DEVICE_ACTION_CALL_FAIL" [JStr message])) JNull]
       end)
  | JobEnds jobID err result =>
      (with_jobs (List.filter (fun j => negb (String.eqb j (js_text jobID))) (w_jobsInFlight wm)) wm,
       [match err with Some e => JobCallback (Some (rewrapped e)) result | None => JobCallback None result end])
  | AsksJob jobID msgID =>
      (wm, if runsJob wm jobID then [ReadJob jobID msgID]
           else [JobInfoReply msgID (JStr "that job is not running on this worker") JUndef])
  | ReportsProgress jobID progress =>
      (wm, if runsJob wm jobID then [UpdateProgress jobID progress] else [LogRefused (stake 32 (js_text jobID))])
  | JobRead msgID (inl e) => (wm, [JobInfoReply msgID (JStr (message_of ErrorInfo e)) JUndef])
  | JobRead msgID (inr record) => (wm, [JobInfoReply msgID JNull (forWorker record)])
  end.

(** [onInvokeJobs], on the main thread *)
Definition onInvokeJobs (d : dm) (deviceID serviceID actionName input jobID : jsval) (throws : option string)
  : dm * list job_effect :=
  match ensureDeviceState d deviceID with
  | inl e => (d, [JobCallback (Some e) JUndef])
  | inr w =>
      let '(wm, effs) := job_step (JobStarts deviceID serviceID actionName input jobID throws) (worker_at d w) in
      (with_workers (<[w := wm]> (workers d)) d, effs)
  end.

Fixpoint job_run (wm : worker) (evs : list job_event) : worker * list job_effect :=
  match evs with
  | [] => (wm, [])
  | ev :: rest => let '(w1, e1) := job_step ev wm in let '(w2, e2) := job_run w1 rest in (w2, e1 ++ e2)
  end.

(** ** A client's call *)

(** What a limiter calls back: an error, time left to wait, or neither. *)
Inductive limiter_answer := LimiterError | Limited | NotLimited.

Inductive phase := AtGlobal | AtKey | AtDevice (w : nat) | Sent (w : nat) | Over.

Inductive call_effect :=
| AskGlobalLimiter
| AskKeyLimiter (appKey : jsval)
| AskDeviceLimiter (namespace : string) (id : jsval) (limit : Z)
| SendAction (w : nat) (deviceID serviceID actionName args : jsval)
| OnSession (e : Session.effect).

(** One call of [CdifInterface.invokeDeviceAction]: who, what, and how far. *)
Record call := mkCall {
  k_deviceID : jsval;
  k_serviceID : jsval;
  k_actionName : jsval;
  k_args : jsval;
  k_phase : phase;
  k_session : session
}.

Definition at_phase (ph : phase) (s : session) (c : call) : call :=
  mkCall (k_deviceID c) (k_serviceID c) (k_actionName c) (k_args c) ph s.

(** [handlerCtx.wireIdentityOf(session)] *)
Definition wireIdentityOf (s : session) : jsval :=
  JObj [("appKey", if is_nullish (s_appKey s) then JNull else s_appKey s);
        ("username", if is_nullish (s_username s) then JNull else s_username s);
        ("isAdmin", JBool (s_isAdmin s))].

(** [args.ctx = ...], when there are arguments to set it on. *)
Definition with_ctx (args : jsval) (s : session) : jsval :=
  match args with JObj kvs => JObj (assoc_set "ctx" (wireIdentityOf s) kvs) | _ => args end.

(** The metering interface and cost and the API log, as the session has them;
    whether there is a global limiter, and whether this is the main thread's. *)
Context (metering : bool) (mcpToolCallCost : Z) (monitor globalLimiter : bool).

Local Notation callback := (Session.callback ErrorInfo metering mcpToolCallCost monitor).
Local Notation callbackWithoutTimer := (Session.callbackWithoutTimer ErrorInfo metering mcpToolCallCost monitor).
Local Notation expire := (Session.expire ErrorInfo metering mcpToolCallCost monitor).

Definition on_session (ph : phase) (c : call) (r : session * list Session.effect) : call * list call_effect :=
  (at_phase ph r.1 c, map OnSession r.2).

Definition deny (c : call) : call * list call_effect :=
  on_session Over c (callbackWithoutTimer (k_session c) (Some (DeviceError "DENY_DEVICE_ACCESS" [])) JNull).

(** [invokeAction] on the main thread: the timer, and the message; [posts] is
    whether it can be cloned, and otherwise the exception is the fault, an
    object that prints with no members. *)
Definition send_action (d : dm) (w : nat) (posts : bool) (c : call) : call * list call_effect :=
  let s := setDeviceTimer (k_session c) (WorkerMessageRef (w_deviceList (worker_at d w))) in
  if posts then (at_phase (Sent w) s c, [SendAction w (k_deviceID c) (k_serviceID c) (k_actionName c) (k_args c)])
  else on_session (Sent w) c (callback s (Some (DeviceError "DEVICE_INVOKE_EXCEPTION" [])) (JObj []) JUndef).

(** [onInvokeDeviceAction] *)
Definition enter_device (d : dm) (posts : bool) (c : call) : call * list call_effect :=
  match ensureDeviceState d (k_deviceID c) with
  | inl e => on_session Over c (callbackWithoutTimer (k_session c) (Some e) JNull)
  | inr w =>
      match assoc (js_text (k_deviceID c)) (w_rateLimiters (worker_at d w)) with
      | None => send_action d w posts c
      | Some limit => (at_phase (AtDevice w) (k_session c) c, [AskDeviceLimiter "deviceRateLimiter" JUndef limit])
      end
  end.

(** [checkApiKeyRateLimit] *)
Definition enter_key (d : dm) (posts : bool) (c : call) : call * list call_effect :=
  if is_nullish (s_appKey (k_session c)) then enter_device d posts c
  else (at_phase AtKey (k_session c) c, [AskKeyLimiter (s_appKey (k_session c))]).

Definition invokeDeviceAction (d : dm) (posts : bool) (deviceID serviceID actionName args : jsval) (s : session)
  : call * list call_effect :=
  let c := mkCall deviceID serviceID actionName (with_ctx args s) AtGlobal s in
  if globalLimiter then (c, [AskGlobalLimiter]) else enter_key d posts c.

Inductive call_event :=
| LimiterAnswers (a : limiter_answer)
| WorkerReplies (err : option cherr) (data : jsval)
| TimerFires.

(** The devices [d] as they are when the event comes. *)
Definition call_step (d : dm) (posts : bool) (ev : call_event) (c : call) : call * list call_effect :=
  match ev, k_phase c with
  | LimiterAnswers Limited, (AtGlobal | AtKey | AtDevice _) => deny c
  | LimiterAnswers _, AtGlobal => enter_key d posts c
  | LimiterAnswers _, AtKey => enter_device d posts c
  | LimiterAnswers _, AtDevice w => send_action d w posts c
  | WorkerReplies err data, Sent w =>
      on_session (Sent w) c (callback (k_session c) (option_map rewrapped err) data JUndef)
  | TimerFires, Sent w => on_session (Sent w) c (expire (k_session c))
  | _, _ => (c, [])
  end.

Fixpoint call_run (c : call) (evs : list (dm * bool * call_event)) : call * list call_effect :=
  match evs with
  | [] => (c, [])
  | (d, posts, ev) :: rest =>
      let '(c1, e1) := call_step d posts ev c in let '(c2, e2) := call_run c1 rest in (c2, e1 ++ e2)
  end.
End calls.

(** ** Lemmas *)

(** The last start or end of a job in a history is a start. *)
Fixpoint is_running (jobID : string) (evs : list job_event) (before : bool) : bool :=
  match evs with
  | [] => before
  | JobStarts _ _ _ _ id _ :: rest => is_running jobID rest (before || String.eqb (js_text id) jobID)
  | JobEnds id _ _ :: rest => is_running jobID rest (before && negb (String.eqb (js_text id) jobID))
  | _ :: rest => is_running jobID rest before
  end.

Lemma jobs_running ErrorInfo evs : forall wm jobID,
  includes jobID (w_jobsInFlight (job_run ErrorInfo wm evs).1) = is_running jobID evs (includes jobID (w_jobsInFlight wm)).
Proof.
  induction evs as [|ev evs IH]; intros wm jobID; [done|]. cbn.
  assert (H : includes jobID (w_jobsInFlight (job_step ErrorInfo ev wm).1) =
    match ev with
    | JobStarts _ _ _ _ id _ => includes jobID (w_jobsInFlight wm) || String.eqb (js_text id) jobID
    | JobEnds id _ _ => includes jobID (w_jobsInFlight wm) && negb (String.eqb (js_text id) jobID)
    | _ => includes jobID (w_jobsInFlight wm)
    end).
  { destruct ev as [d s a i id t|id err r|id m|id pr|m [e|r]]; try done; cbn.
    - destruct (includes (js_text id) (w_jobsInFlight wm)) eqn:E.
      + destruct (String.eqb_spec (js_text id) jobID) as [<-|]; [by rewrite E|by rewrite orb_false_r].
      + unfold includes. rewrite (bool_decide_ext _ (jobID ∈ w_jobsInFlight wm \/ js_text id = jobID)) by set_solver.
        rewrite bool_decide_or. f_equal. case_bool_decide as H; [by rewrite H, String.eqb_refl|symmetry; by apply String.eqb_neq].
    - unfold includes. rewrite (bool_decide_ext _ (jobID ∈ w_jobsInFlight wm /\ js_text id <> jobID)).
      2: { rewrite list_elem_of_In, List.filter_In, <-list_elem_of_In, negb_true_iff, String.eqb_neq. naive_solver. }
      rewrite bool_decide_and. f_equal. case_bool_decide as H; symmetry; [by apply negb_true_iff, String.eqb_neq|].
      apply negb_false_iff, String.eqb_eq. by destruct (decide (js_text id = jobID)). }
  destruct (job_step ErrorInfo ev wm) as [w1 e1]. cbn in H. specialize (IH w1 jobID).
  destruct (job_run ErrorInfo w1 evs) as [w2 e2]. cbn in *. rewrite IH, H. by destruct ev.
Qed.

Lemma jget_assoc k kvs : jget k (JObj kvs) = default JUndef (assoc k kvs).
Proof. cbn. by destruct (assoc k kvs). Qed.

Lemma jget_own k v : is_array v = false -> is_string v = false -> jget k (JObj (own_members v)) = jget k v.
Proof. by destruct v. Qed.

(** A worker is told about a job, and may report its progress, only while
    the job runs on it, whatever id it names; what it is told is the job's
    record with every member it had but the creator's API key and the queue's
    options. *)
Theorem jobs_read_by_their_worker ErrorInfo wm evs :
  w_jobsInFlight wm = [] ->
  let wm' := (job_run ErrorInfo wm evs).1 in
  (forall jobID msgID, ReadJob jobID msgID ∈ (job_step ErrorInfo (AsksJob jobID msgID) wm').2 <->
     is_running (js_text jobID) evs false = true) /\
  (forall jobID progress, UpdateProgress jobID progress ∈ (job_step ErrorInfo (ReportsProgress jobID progress) wm').2 <->
     is_running (js_text jobID) evs false = true) /\
  forall msgID job state,
    let told := forWorker (JObj [("job", JObj job); ("state", state)]) in
    (job_step ErrorInfo (JobRead msgID (inr (JObj [("job", JObj job); ("state", state)]))) wm').2 = [JobInfoReply msgID JNull told] /\
    jget "apiKey" (jget "data" (jget "job" told)) = JUndef /\ jget "opts" (jget "job" told) = JUndef /\
    jget "state" told = state /\
    (forall k, k <> "data" -> k <> "opts" -> jget k (jget "job" told) = jget k (JObj job)) /\
    (forall k data, k <> "apiKey" -> jget "data" (JObj job) = JObj data -> jget k (jget "data" (jget "job" told)) = jget k (JObj data)).
Proof.
  intros Hnone wm'. assert (Hrun : forall jobID, runsJob wm' jobID = is_running (js_text jobID) evs false).
  { intros jobID. unfold runsJob, wm'. rewrite jobs_running, Hnone. done. }
  split; [|split].
  - intros jobID msgID. cbn. rewrite Hrun. destruct (is_running _ _ _); set_solver.
  - intros jobID progress. cbn. rewrite Hrun. destruct (is_running _ _ _); set_solver.
  - intros msgID job state told.
    set (data := JObj (without "apiKey" (own_members (jget "data" (JObj job))))).
    assert (Htold : told = JObj [("job", JObj (assoc_set "opts" JUndef (assoc_set "data" data job))); ("state", state)]) by done.
    assert (Hjob : forall k, jget k (jget "job" told) =
      if String.eqb k "opts" then JUndef else if String.eqb k "data" then data else jget k (JObj job)).
    { intros k. rewrite Htold. change (jget "job" _) with (JObj (assoc_set "opts" JUndef (assoc_set "data" data job))).
      rewrite !jget_assoc, !assoc_set_lookup. by repeat case_match. }
    split_and!; rewrite ?Hjob; try done.
    + cbn [String.eqb Ascii.eqb Bool.eqb]. unfold data. rewrite jget_assoc. unfold without. by rewrite forget_self.
    + intros k Hd Ho. rewrite Hjob. by repeat (case_match; bool_hyps; try congruence).
    + intros k data0 Hk Hd. cbn [String.eqb Ascii.eqb Bool.eqb]. unfold data. rewrite Hd. unfold without. cbn [own_members].
      by rewrite !jget_assoc, forget_other by done.
Qed.

Definition demo_jobs : list job_event :=
  [JobStarts (JStr "d") (JStr "s") (JStr "a") JNull (JNum 7) None; JobStarts (JStr "d") (JStr "s") (JStr "a") JNull (JNum 8) None;
   JobEnds (JNum 7) None JNull].

Lemma jobs_read_by_their_worker_witness :
  let wm := (job_run (fun _ => None) (new_worker None) demo_jobs).1 in
  ReadJob (JNum 8) (JNum 1) ∈ (job_step (fun _ => None) (AsksJob (JNum 8) (JNum 1)) wm).2 /\
  ReadJob (JNum 7) (JNum 2) ∉ (job_step (fun _ => None) (AsksJob (JNum 7) (JNum 2)) wm).2.
Proof.
  destruct (jobs_read_by_their_worker (fun _ => None) (new_worker None) demo_jobs eq_refl) as (H & _).
  split; [by apply H|]. intros Hin%H. by vm_compute in Hin.
Defined.

(** *** A client's call *)

Section proofs.
Context (ErrorInfo : string -> option string) (metering : bool) (mcpToolCallCost : Z) (monitor globalLimiter : bool).

Local Notation callback := (Session.callback ErrorInfo metering mcpToolCallCost monitor).
Local Notation callbackWithoutTimer := (Session.callbackWithoutTimer ErrorInfo metering mcpToolCallCost monitor).
Local Notation expire := (Session.expire ErrorInfo metering mcpToolCallCost monitor).
Local Notation cstep := (call_step ErrorInfo metering mcpToolCallCost monitor).
Local Notation crun := (call_run ErrorInfo metering mcpToolCallCost monitor).

Definition session_effects (effs : list call_effect) : list Session.effect :=
  omap (fun e => match e with OnSession x => Some x | _ => None end) effs.

Definition sends (effs : list call_effect) : list call_effect :=
  List.filter (fun e => match e with SendAction _ _ _ _ _ => true | _ => false end) effs.

Definition answered (effs : list call_effect) : nat := length (Session.answers (session_effects effs)).

Lemma session_effects_app a b : session_effects (a ++ b) = session_effects a ++ session_effects b.
Proof. unfold session_effects. apply omap_app. Qed.

Lemma session_effects_on l : session_effects (map OnSession l) = l.
Proof. induction l as [|x l IH]; [done|]. unfold session_effects in *. cbn. by f_equal. Qed.

Lemma sends_app a b : sends (a ++ b) = sends a ++ sends b.
Proof. apply List.filter_app. Qed.

Lemma sends_on l : sends (map OnSession l) = [].
Proof. induction l as [|x l IH]; done. Qed.

Lemma answered_app a b : answered (a ++ b) = (answered a + answered b)%nat.
Proof. unfold answered. by rewrite session_effects_app, answers_app, length_app. Qed.

(** The first answer before a timer is set, and how a session stands then. *)
Lemma untimed_answer s err data :
  length (Session.answers (callbackWithoutTimer s err data).2) = 1%nat.
Proof.
  unfold Session.callbackWithoutTimer. destruct (s_local s).
  - cbn. rewrite answers_app. by destruct (log_silent monitor s err false) as [_ ->].
  - pose proof (response_answers ErrorInfo metering mcpToolCallCost s err data) as H.
    destruct (response ErrorInfo metering mcpToolCallCost s err data) as [s' eff]. cbn in *. rewrite answers_app.
    by destruct (log_silent monitor s err true) as [_ ->].
Qed.

(** The session of a call whose message is out: it runs its timer, or has been
    answered. *)
Definition sent_session (s : session) : Prop :=
  if s_called s then True else s_timer s = Some false /\ s_pending s = true.

(** How far a call is, and what it has done. *)
Definition call_ok (deviceID serviceID actionName args : jsval) (s0 : session) (hosts : list nat) (c : call) (effs : list call_effect) : Prop :=
  k_deviceID c = deviceID /\ k_serviceID c = serviceID /\ k_actionName c = actionName /\ k_args c = args /\
  match k_phase c with
  | AtGlobal | AtKey => answered effs = 0%nat /\ sends effs = [] /\ k_session c = s0
  | AtDevice w => answered effs = 0%nat /\ sends effs = [] /\ k_session c = s0 /\ w ∈ hosts
  | Over => answered effs = 1%nat /\ sends effs = []
  | Sent w =>
      w ∈ hosts /\ (sends effs = [] \/ sends effs = [SendAction w deviceID serviceID actionName args]) /\
      answered effs = (if s_called (k_session c) then 1 else 0)%nat /\ sent_session (k_session c) /\
      (sends effs = [] -> s_called (k_session c) = true)
  end.

Lemma send_ok d w posts c hosts effs deviceID serviceID actionName args s0 :
  s_called s0 = false -> k_session c = s0 -> w ∈ hosts -> answered effs = 0%nat -> sends effs = [] ->
  k_deviceID c = deviceID -> k_serviceID c = serviceID -> k_actionName c = actionName -> k_args c = args ->
  let r := send_action ErrorInfo metering mcpToolCallCost monitor d w posts c in
  call_ok deviceID serviceID actionName args s0 hosts r.1 (effs ++ r.2).
Proof.
  intros Hc Hs Hw Ha Hse <- <- <- <-. unfold send_action, call_ok. rewrite Hs. destruct posts; cbn.
  - rewrite answered_app, sends_app, Ha, Hse, Hc. cbn. split_and!; try done; [by right|]. unfold sent_session. cbn. by rewrite Hc.
  - set (s1 := setDeviceTimer s0 _).
    destruct (timed_callback ErrorInfo metering mcpToolCallCost monitor s1 (Some (DeviceError "DEVICE_INVOKE_EXCEPTION" [])) (JObj []) JUndef)
      as (H1 & H2 & H3); [done|done|].
    rewrite answered_app, sends_app, sends_on, Ha, Hse, H1. unfold answered. rewrite session_effects_on, H2. cbn.
    split_and!; try done; [by left|]. unfold sent_session. by rewrite H1.
Qed.

Lemma enter_device_ok d posts c hosts effs deviceID serviceID actionName args s0 :
  s_called s0 = false -> k_session c = s0 -> answered effs = 0%nat -> sends effs = [] ->
  k_deviceID c = deviceID -> k_serviceID c = serviceID -> k_actionName c = actionName -> k_args c = args ->
  (forall w, ensureDeviceState d deviceID = inr w -> w ∈ hosts) ->
  let r := enter_device ErrorInfo metering mcpToolCallCost monitor d posts c in
  call_ok deviceID serviceID actionName args s0 hosts r.1 (effs ++ r.2).
Proof.
  intros Hc Hs Ha Hse Hd Hsv Hac Har Hh. unfold enter_device. rewrite Hd. destruct (ensureDeviceState d deviceID) as [e|w] eqn:E.
  - unfold call_ok, on_session. cbn. rewrite answered_app, sends_app, sends_on, Ha, Hse. unfold answered.
    by rewrite session_effects_on, untimed_answer.
  - destruct (assoc _ _) as [limit|].
    + unfold call_ok. cbn. rewrite answered_app, sends_app, Ha, Hse. cbn. split_and!; try done. by apply Hh.
    + apply send_ok; try done. by apply Hh.
Qed.

Lemma enter_key_ok d posts c hosts effs deviceID serviceID actionName args s0 :
  s_called s0 = false -> k_session c = s0 -> answered effs = 0%nat -> sends effs = [] ->
  k_deviceID c = deviceID -> k_serviceID c = serviceID -> k_actionName c = actionName -> k_args c = args ->
  (forall w, ensureDeviceState d deviceID = inr w -> w ∈ hosts) ->
  let r := enter_key ErrorInfo metering mcpToolCallCost monitor d posts c in
  call_ok deviceID serviceID actionName args s0 hosts r.1 (effs ++ r.2).
Proof.
  intros Hc Hs Ha Hse Hd Hsv Hac Har Hh. unfold enter_key. destruct (is_nullish _).
  - by apply enter_device_ok.
  - unfold call_ok. cbn. by rewrite answered_app, sends_app, Ha, Hse.
Qed.

Lemma deny_ok c hosts effs deviceID serviceID actionName args s0 :
  answered effs = 0%nat -> sends effs = [] ->
  k_deviceID c = deviceID -> k_serviceID c = serviceID -> k_actionName c = actionName -> k_args c = args ->
  let r := deny ErrorInfo metering mcpToolCallCost monitor c in
  call_ok deviceID serviceID actionName args s0 hosts r.1 (effs ++ r.2).
Proof.
  intros Ha Hse <- <- <- <-. unfold deny, call_ok, on_session. cbn. rewrite answered_app, sends_app, sends_on, Ha, Hse.
  unfold answered. by rewrite session_effects_on, untimed_answer.
Qed.

(** What the session's callback and timer do to a call that is out. *)
Lemma session_once s (r : session * list Session.effect) :
  sent_session s ->
  (exists err data m, r = callback s err data m) \/ r = expire s ->
  sent_session r.1 /\ s_called r.1 = true /\
  length (Session.answers r.2) = (if s_called s then 0 else 1)%nat.
Proof.
  unfold sent_session. intros Hs Hr. destruct (s_called s) eqn:Hc.
  - destruct Hr as [(err & data & m & ->)| ->].
    + assert (callback s err data m = (s, [])) as -> by (unfold Session.callback; by rewrite Hc). cbn. by rewrite Hc.
    + unfold Session.expire. destruct (s_pending s); cbn [negb fst snd]; [|by rewrite Hc].
      set (s1 := with_timer s _ _). assert (Hc1 : s_called s1 = true) by exact Hc.
      assert (callback s1 (Some (DeviceError "DEVICE_NOT_RESPONDING" [])) JNull JUndef = (s1, [])) as ->
        by (unfold Session.callback; by rewrite Hc1). cbn [fst snd]. by rewrite Hc1.
  - destruct Hs as [Ht Hp]. destruct Hr as [(err & data & m & ->)| ->].
    + destruct (timed_callback ErrorInfo metering mcpToolCallCost monitor s err data m Hc Ht) as (H1 & H2 & H3). by rewrite H1.
    + destruct (timed_expire ErrorInfo metering mcpToolCallCost monitor s Hc Ht Hp) as [H1 H2]. by rewrite H1, H2.
Qed.

Lemma call_step_ok d posts ev c hosts effs deviceID serviceID actionName args s0 :
  s_called s0 = false -> (forall w, ensureDeviceState d deviceID = inr w -> w ∈ hosts) ->
  call_ok deviceID serviceID actionName args s0 hosts c effs ->
  let r := cstep d posts ev c in call_ok deviceID serviceID actionName args s0 hosts r.1 (effs ++ r.2).
Proof.
  intros Hc Hh Hok. assert (Hidle : call_ok deviceID serviceID actionName args s0 hosts c (effs ++ [])) by by rewrite app_nil_r.
  pose proof Hok as (Hd & Hsv & Hac & Har & Hph). unfold call_step.
  destruct (k_phase c) as [| |w|w|] eqn:Eph.
  - destruct ev as [[]|err data|]; [apply enter_key_ok|apply deny_ok|apply enter_key_ok|exact Hidle|exact Hidle]; tauto.
  - destruct ev as [[]|err data|]; [apply enter_device_ok|apply deny_ok|apply enter_device_ok|exact Hidle|exact Hidle]; tauto.
  - destruct ev as [[]|err data|]; [apply send_ok|apply deny_ok|apply send_ok|exact Hidle|exact Hidle]; tauto.
  - destruct Hph as (Hw & Hse & Ha & Hss & Hcall).
    assert (H : forall r, (exists err data m, r = callback (k_session c) err data m) \/ r = expire (k_session c) ->
      call_ok deviceID serviceID actionName args s0 hosts (on_session (Sent w) c r).1 (effs ++ (on_session (Sent w) c r).2)).
    { intros r Hr. destruct (session_once _ r Hss Hr) as (H1 & H2 & H3). unfold call_ok, on_session. cbn.
      rewrite answered_app, sends_app, sends_on, app_nil_r, H2, Ha. unfold answered at 1. rewrite session_effects_on, H3.
      split_and!; try done. by destruct (s_called (k_session c)). }
    destruct ev as [[]|err data|]; [exact Hidle..|apply H; left; eauto|apply H; by right].
  - destruct ev as [[]|err data|]; exact Hidle.
Qed.

Lemma call_run_ok evs : forall c hosts effs deviceID serviceID actionName args s0,
  s_called s0 = false -> (forall d posts ev w, (d, posts, ev) ∈ evs -> ensureDeviceState d deviceID = inr w -> w ∈ hosts) ->
  call_ok deviceID serviceID actionName args s0 hosts c effs ->
  let r := crun c evs in call_ok deviceID serviceID actionName args s0 hosts r.1 (effs ++ r.2).
Proof.
  induction evs as [|[[d posts] ev] evs IH]; intros c hosts effs deviceID serviceID actionName args s0 Hc Hh Hok; cbn [call_run].
  - cbn. by rewrite app_nil_r.
  - pose proof (call_step_ok d posts ev c hosts effs _ _ _ _ _ Hc ltac:(intros w; apply (Hh d posts ev w); left) Hok) as H.
    destruct (cstep d posts ev c) as [c1 e1]. cbn [fst snd] in H.
    specialize (IH c1 hosts (effs ++ e1) _ _ _ _ _ Hc ltac:(intros d' p' ev' w Hin; apply (Hh d' p' ev' w); by right) H).
    destruct (crun c1 evs) as [c2 e2]. cbn [fst snd] in *. by rewrite app_assoc.
Qed.

(** The workers that hosted the device at some point of a call. *)
Definition hosts_of (deviceID : jsval) (ds : list dm) : list nat :=
  omap (fun d => match ensureDeviceState d deviceID with inr w => Some w | inl _ => None end) ds.

(** A client's call of an action, whatever its limiters, its worker and its
    timer do and in which order, is answered at most once; its message is sent
    at most once, to a worker that hosts the device, with the caller's identity
    set on its arguments, and never when a limiter says it must wait or the
    device is not there, which is the answer then; and a call whose message is
    out has been answered once its timer has fired. *)
Theorem client_call_answered d0 posts0 deviceID serviceID actionName args s0 evs :
  s_called s0 = false ->
  let r0 := invokeDeviceAction ErrorInfo metering mcpToolCallCost monitor globalLimiter d0 posts0 deviceID serviceID actionName args s0 in
  let r := crun r0.1 evs in
  let effs := r0.2 ++ r.2 in
  (answered effs <= 1)%nat /\
  (sends effs = [] \/ exists w, w ∈ hosts_of deviceID (d0 :: map (fun e => e.1.1) evs) /\
     sends effs = [SendAction w deviceID serviceID actionName (with_ctx args s0)]) /\
  (forall d posts, k_phase (cstep d posts (LimiterAnswers Limited) r.1).1 = Over \/
                   cstep d posts (LimiterAnswers Limited) r.1 = (r.1, [])) /\
  (k_phase r.1 = Over -> sends effs = [] /\ answered effs = 1%nat) /\
  (forall d posts w, k_phase r.1 = Sent w -> answered (effs ++ (cstep d posts TimerFires r.1).2) = 1%nat).
Proof.
  intros Hc r0 r effs.
  set (hosts := hosts_of deviceID (d0 :: map (fun e => e.1.1) evs)).
  assert (Hmem : forall d w, d ∈ d0 :: map (fun e => e.1.1) evs -> ensureDeviceState d deviceID = inr w -> w ∈ hosts).
  { intros d w Hin He. apply list_elem_of_omap. exists d. by rewrite He. }
  assert (H0 : call_ok deviceID serviceID actionName (with_ctx args s0) s0 hosts r0.1 r0.2).
  { unfold r0, invokeDeviceAction. destruct globalLimiter; [by repeat split|].
    apply (enter_key_ok d0 posts0 (mkCall deviceID serviceID actionName (with_ctx args s0) AtGlobal s0) hosts []); try done.
    intros w. apply Hmem. left. }
  assert (Hr : call_ok deviceID serviceID actionName (with_ctx args s0) s0 hosts r.1 effs).
  { apply (call_run_ok evs r0.1 hosts r0.2); [done| |exact H0]. intros d posts ev w Hin. apply Hmem. right.
    apply list_elem_of_fmap. by exists (d, posts, ev). }
  pose proof Hr as (_ & _ & _ & _ & Hph). split_and!.
  - destruct (k_phase r.1); destruct_and?; try lia. destruct (s_called (k_session r.1)); lia.
  - destruct (k_phase r.1); destruct_and?; try by left. naive_solver.
  - intros d posts. unfold call_step. destruct (k_phase r.1) eqn:E; [by left..|by right|by right].
  - intros E. rewrite E in Hph. tauto.
  - intros d posts w E. rewrite E in Hph. destruct Hph as (_ & _ & Ha & Hss & _). rewrite answered_app, Ha. unfold call_step. rewrite E.
    unfold on_session. cbn [snd]. unfold answered. rewrite session_effects_on.
    destruct (session_once _ _ Hss (or_intror eq_refl)) as (_ & _ & ->). by destruct (s_called (k_session r.1)).
Qed.
End proofs.

(** Every device's limiter is asked about the same id, the device manager's
    own, which has none: all devices with a limit share one window. *)
Theorem device_limiters_share_key ErrorInfo metering cost monitor d posts c namespace id limit :
  AskDeviceLimiter namespace id limit ∈ (enter_device ErrorInfo metering cost monitor d posts c).2 ->
  namespace = "deviceRateLimiter" /\ id = JUndef.
Proof.
  unfold enter_device, on_session. destruct (ensureDeviceState _ _) as [e|w].
  - cbn. by intros (x & ? & _)%list_elem_of_fmap.
  - destruct (assoc _ _); [by intros [= -> -> _]%list_elem_of_singleton|]. unfold send_action, on_session. destruct posts.
    + by intros ?%list_elem_of_singleton.
    + cbn. by intros (x & ? & _)%list_elem_of_fmap.
Qed.

(** ** A concrete call *)

Definition demo_dm : dm :=
  (dm_run false (fun _ => None) (new_dm None) [WorkerLoaded (Some "/mods/a"); DeviceOnline 0 (online "id-a")]).1.
Definition demo_session : session := Session_ (JStr "ann") (JStr "key") (JStr "id-a") false JNull.

Lemma client_call_answered_witness :
  let r0 := invokeDeviceAction (fun _ => None) false 0 false true demo_dm true (JStr "id-a") (JStr "s") (JStr "a") (JObj []) demo_session in
  let r := call_run (fun _ => None) false 0 false r0.1
             [(demo_dm, true, LimiterAnswers NotLimited); (demo_dm, true, LimiterAnswers NotLimited)] in
  k_phase r.1 = Sent 0 /\
  answered ((r0.2 ++ r.2) ++ (call_step (fun _ => None) false 0 false demo_dm true TimerFires r.1).2) = 1%nat.
Proof.
  split; [by vm_compute|].
  apply (client_call_answered (fun _ => None) false 0 false true demo_dm true (JStr "id-a") (JStr "s") (JStr "a") (JObj []) demo_session
           [(demo_dm, true, LimiterAnswers NotLimited); (demo_dm, true, LimiterAnswers NotLimited)] eq_refl) with (w := 0%nat).
  by vm_compute.
Defined.
