(* ===== verification/Hop.v ===== *)
(** * A hop: one worker's call of another's device (lib/device-manager.js,
    sendInvokeActionMessageToWorker)

    The caller is authorized with the key it names, the callee is asked under a
    timer, a success is recorded against whoever pays, and the caller is told. *)
From Stdlib Require Import ZArith Lia Ascii String.
From stdpp Require Import prelude strings gmap.
From S2P Require Import Prelude Json Errors Session Auth JobControl DeviceManager Calls.

Set Default Proof Using "Type".

Section hop.
Context {P : Type} `{AuthProvider P} (o : options).
(** The locale; the API log; whether there is a [CHUtil.ci]; the cost of a
    call. *)
Context (ErrorInfo : string -> option string) (monitor ci : bool) (mcpToolCallCost : Z).

(** ** State *)

Record request := mkRequest {
  q_appKey : jsval;
  q_billingKey : jsval;
  q_deviceID : jsval;
  q_serviceID : jsval;
  q_actionName : jsval;
  q_args : jsval
}.

(** What the hop waits for: the user's authorization, for a device that is
    hosted, a member every map has, or one whose module is down; the callee;
    the metering; nothing. *)
Inductive stage :=
| Authorizing (callee : option nat)
| AuthorizingMissing (missing : cherr)
| Asked
| Recording (data : jsval)
| Done.

Record hop := mkHop { h_stage : stage; h_session : option session; h_provider : P }.

Inductive hop_effect :=
| ToCaller (errMsg errCode data platformMetering : jsval)
| ToCallee (w : nat) (deviceID serviceID actionName args : jsval)
| Record_ (billingKey : jsval) (tool : string) (cost : Z)
| Log (e : Session.effect)
| HopException.

Local Notation callback := (Session.callback ErrorInfo false 0 monitor).
Local Notation expire := (Session.expire ErrorInfo false 0 monitor).

(** The reply of an error: its code rides beside its message. *)
Definition error_reply (e : cherr) (data : jsval) : hop_effect :=
  ToCaller (JStr (message_of ErrorInfo e)) (if is_nullish (c_code e) then JNull else c_code e) data JUndef.

(** [localCB] *)
Definition local_reply (err : option cherr) (data platformMetering : jsval) : hop_effect :=
  match err with
  | Some e => error_reply e data
  | None => ToCaller JNull JUndef data platformMetering
  end.

Definition on_local (e : Session.effect) : hop_effect :=
  match e with
  | LocalCallback err data metering => local_reply err data metering
  | TypeError => HopException
  | e => Log e
  end.

Definition through_session (st : stage) (r : session * list Session.effect) (h : hop) : hop * list hop_effect :=
  (mkHop st (Some r.1) (h_provider h), map on_local r.2).

(** ** The call *)

Section steps.
Context (q : request).

(** The device is looked up as it is, [deviceMap[deviceID]]. *)
Definition start (d : dm) (p : P) : hop * list hop_effect :=
  match lookup_device d (q_deviceID q) with
  | Hosted w => (mkHop (Authorizing (Some w)) None p, [])
  | InheritedMember => (mkHop (Authorizing None) None p, [])
  | Vacant =>
      let missing := missingDeviceError d (q_deviceID q) in
      if strict_eq (c_code missing) (JStr "DEVICE_NOT_FOUND")
      then (mkHop Done None p, [ToCaller (JStr "device not found in map") JUndef JNull JUndef])
      else (mkHop (AuthorizingMissing missing) None p, [])
  end.

Inductive hop_event :=
| AuthAnswers
| CalleeReplies (err : option cherr) (data : jsval)
| MeteringAnswers (result : option jsval)
| HopTimer.

(** What a callee's answer leads to. *)
Definition callee_replied (err : option cherr) (data : jsval) (s : session) (h : hop) : hop * list hop_effect :=
  match err with
  | Some e => through_session Done (callback s (Some (rewrapped ErrorInfo e)) data JUndef) h
  | None =>
      if negb ci then through_session Done (callback s None data JUndef) h
      else if is_nullish (q_billingKey q) then
        through_session Done
          (callback s (Some (DeviceError "HOP_IDENTITY_UNRESOLVED"
             [JStr (js_text (q_serviceID q) +:+ "/" +:+ js_text (q_actionName q))])) JNull JUndef) h
      else (mkHop (Recording data) (Some s) (h_provider h),
            [Record_ (q_billingKey q) (encodeLegacyTool (q_deviceID q) (q_serviceID q) (q_actionName q)) mcpToolCallCost])
  end.

(** [listOf w]: the specs of the callee's devices, kept with the session. *)
Definition hop_step (listOf : nat -> list (string * jsval)) (ev : hop_event) (h : hop) : hop * list hop_effect :=
  match ev, h_stage h, h_session h with
  | AuthAnswers, Authorizing callee, _ =>
      let '(p, r) := doUserAuth o (h_provider h) JUndef (q_deviceID q) (q_appKey q) (q_serviceID q) (q_actionName q) true in
      match r, callee with
      | Refused e, _ => (mkHop Done None p, [error_reply e JNull])
      | AuthThrew _, _ => (mkHop Done None p, [HopException])
      | Accepted s, Some w =>
          (mkHop Asked (Some (setDeviceTimer s (WorkerMessageRef (listOf w)))) p,
           [ToCallee w (q_deviceID q) (q_serviceID q) (q_actionName q) (q_args q)])
      | Accepted s, None => (mkHop Done (Some (setDeviceTimer s (WorkerMessageRef []))) p, [HopException])
      end
  | AuthAnswers, AuthorizingMissing missing, _ =>
      let '(p, r) := doUserAuth o (h_provider h) JUndef (q_deviceID q) (q_appKey q) (q_serviceID q) (q_actionName q) true in
      match r with
      | Refused e => (mkHop Done None p, [error_reply e JNull])
      | AuthThrew _ => (mkHop Done None p, [HopException])
      | Accepted _ => (mkHop Done None p, [error_reply missing JNull])
      end
  | CalleeReplies err data, Asked, Some s => callee_replied err data s h
  | MeteringAnswers result, Recording data, Some s =>
      through_session Done (callback s None data (default JNull result)) h
  | HopTimer, st, Some s => through_session st (expire s) h
  | _, _, _ => (h, [])
  end.

Fixpoint hop_run (listOf : nat -> list (string * jsval)) (h : hop) (evs : list hop_event) : hop * list hop_effect :=
  match evs with
  | [] => (h, [])
  | ev :: rest =>
      let '(h1, e1) := hop_step listOf ev h in let '(h2, e2) := hop_run listOf h1 rest in (h2, e1 ++ e2)
  end.

(** A whole hop: its start and what follows. *)
Definition hop_all (listOf : nat -> list (string * jsval)) (d : dm) (p : P) (evs : list hop_event) : hop * list hop_effect :=
  let '(h, e) := start d p in let '(h', e') := hop_run listOf h evs in (h', e ++ e').
End steps.
End hop.

(** ** Lemmas *)

Section proofs.
Context {P : Type} `{AuthProvider P} (o : options).
Context (ErrorInfo : string -> option string) (monitor ci : bool) (mcpToolCallCost : Z).

Local Notation callback := (Session.callback ErrorInfo false 0 monitor).
Local Notation expire := (Session.expire ErrorInfo false 0 monitor).
Local Notation hstep := (hop_step o ErrorInfo monitor ci mcpToolCallCost).
Local Notation hrun := (hop_run o ErrorInfo monitor ci mcpToolCallCost).

Definition is_log (e : hop_effect) : bool := match e with Log _ => true | _ => false end.
Definition is_answer (e : hop_effect) : bool := match e with ToCaller _ _ _ _ => true | _ => false end.
Definition is_record (e : hop_effect) : bool := match e with Record_ _ _ _ => true | _ => false end.
Definition is_call (e : hop_effect) : bool := match e with ToCallee _ _ _ _ _ => true | _ => false end.

Lemma hop_log_only s err b : exists l, logAPICall monitor s err b = l /\ forallb is_log (map (on_local ErrorInfo) l) = true.
Proof. eexists. split; [done|]. unfold logAPICall. by repeat case_match. Qed.

(** The answer of a local session that runs its timer, and what the callback
    and the timer do after it. *)
Definition timed_out : hop_effect :=
  error_reply ErrorInfo (Error_ (message_of ErrorInfo (DeviceError "DEVICE_NOT_RESPONDING" []))) JNull.

Lemma hop_local_answer s r want :
  sent_session s -> s_local s = true ->
  (exists err data m, r = callback s err data m /\ want = local_reply ErrorInfo err data m) \/ (r = expire s /\ want = timed_out) ->
  sent_session r.1 /\ s_called r.1 = true /\ s_local r.1 = true /\
  exists logs, map (on_local ErrorInfo) r.2 = (if s_called s then [] else logs ++ [want]) /\ forallb is_log logs = true.
Proof.
  intros Hs Hl Hr. destruct (session_once ErrorInfo false 0 monitor s r Hs) as (H1 & H2 & _).
  { destruct Hr as [(err & data & m & -> & _)|[-> _]]; [left; eauto|by right]. }
  split; [done|]. split; [done|]. unfold sent_session in Hs. destruct (s_called s) eqn:Hc.
  - assert (Hcb : forall s err data m, s_called s = true -> callback s err data m = (s, [])) by (intros s0 ? ? ? E; unfold Session.callback; by rewrite E).
    destruct Hr as [(err & data & m & -> & _)|[-> _]]; [rewrite Hcb by done; split; [done|]; by exists []|].
    unfold Session.expire. destruct (s_pending s); cbn [negb]; [|split; [done|]; by exists []].
    rewrite Hcb by exact Hc. split; [exact Hl|]. by exists [].
  - destruct Hs as [Ht Hp]. destruct Hr as [(err & data & m & -> & ->)|[-> ->]].
    + unfold Session.callback, clearDeviceTimer. rewrite Hc. cbn [s_timer with_called with_timer]. rewrite Ht.
      cbn [s_local with_called with_timer]. rewrite Hl. cbn [fst snd]. split; [exact Hl|]. rewrite map_app.
      eexists (map (on_local ErrorInfo) (logAPICall monitor _ err false)). split; [done|]. destruct (hop_log_only (with_timer (with_called s) None false) err false) as (l & <- & Hlog). exact Hlog.
    + unfold Session.expire, Session.callback. rewrite Hp, Ht. cbn [negb s_called with_timer]. rewrite Hc.
      cbn [s_timer with_called with_timer s_local]. rewrite Hl. cbn [fst snd]. split; [exact Hl|]. rewrite map_app.
      eexists. split; [reflexivity|]. destruct (hop_log_only (with_timer (with_called (with_timer s (Some true) false)) None false)
        (Some (DeviceError "DEVICE_NOT_RESPONDING" [])) false) as (l & <- & Hlog). exact Hlog.
Qed.
(** The session [userAuth] makes is local, for the callee's device, and has not
    answered. *)
Lemma hop_accepted_session p p' body deviceID appKey sid act s :
  doUserAuth o p body deviceID appKey sid act true = (p', Accepted s) -> s_local s = true /\ s_called s = false.
Proof. unfold doUserAuth. intros E. repeat case_match; simplify_eq; done. Qed.

Section invariant.
Context (q : request) (d : dm) (listOf : nat -> list (string * jsval)).

Definition answers (effs : list hop_effect) : list hop_effect := List.filter is_answer effs.
Definition records (effs : list hop_effect) : list hop_effect := List.filter is_record effs.
Definition calls (effs : list hop_effect) : list hop_effect := List.filter is_call effs.

Definition the_call (w : nat) : hop_effect := ToCallee w (q_deviceID q) (q_serviceID q) (q_actionName q) (q_args q).
Definition the_record : hop_effect :=
  Record_ (q_billingKey q) (encodeLegacyTool (q_deviceID q) (q_serviceID q) (q_actionName q)) mcpToolCallCost.

(** The callee was asked: it hosts the device, the caller's key was accepted
    for the action, and it was asked once. *)
Definition asked (effs : list hop_effect) : Prop :=
  exists w p p' s, lookup_device d (q_deviceID q) = Hosted w /\
    doUserAuth o p JUndef (q_deviceID q) (q_appKey q) (q_serviceID q) (q_actionName q) true = (p', Accepted s) /\
    calls effs = [the_call w].

(** Metering was asked for the charge, once: with an identity, for a success of
    the callee. It may fail, and then nothing is charged. *)
Definition charge_asked (seen : list hop_event) (effs : list hop_effect) : Prop :=
  records effs = [the_record] /\ ci = true /\ is_nullish (q_billingKey q) = false /\ asked effs /\
  exists data, CalleeReplies None data ∈ seen.

(** After the callee's success metering answered: with what it recorded, or
    with an error, for which the caller is given null. *)
Definition metered (seen : list hop_event) (data m : jsval) : Prop :=
  exists result before between after,
    seen = before ++ CalleeReplies None data :: between ++ MeteringAnswers result :: after /\ m = default JNull result.

Definition succeeded (seen : list hop_event) (effs : list hop_effect) : Prop :=
  forall code data m, ToCaller JNull code data m ∈ effs ->
  CalleeReplies None data ∈ seen /\ asked effs /\
  (ci = true -> charge_asked seen effs /\ metered seen data m) /\ (ci = false -> m = JUndef).

(** What a session that runs its timer has said. *)
Definition heard (h : @hop P) (effs : list hop_effect) : Prop :=
  match h_session h with
  | None => (length (answers effs) <= 1)%nat
  | Some s => sent_session s /\ s_local s = true /\ length (answers effs) = (if s_called s then 1 else 0)%nat
  end.

Definition stage_ok (seen : list hop_event) (h : @hop P) (effs : list hop_effect) : Prop :=
  match h_stage h with
  | Authorizing callee =>
      effs = [] /\ h_session h = None /\ (forall w, callee = Some w -> lookup_device d (q_deviceID q) = Hosted w)
  | AuthorizingMissing _ => effs = [] /\ h_session h = None
  | Asked => asked effs /\ records effs = [] /\ is_Some (h_session h)
  | Recording data => charge_asked seen effs /\ CalleeReplies None data ∈ seen /\ is_Some (h_session h)
  | Done => (calls effs = [] \/ asked effs /\ is_Some (h_session h)) /\ (records effs = [] \/ charge_asked seen effs)
  end.

Definition hop_ok (seen : list hop_event) (h : @hop P) (effs : list hop_effect) : Prop :=
  heard h effs /\ succeeded seen effs /\ stage_ok seen h effs.

Lemma hop_answers_app a b : answers (a ++ b) = answers a ++ answers b.
Proof. apply List.filter_app. Qed.
Lemma hop_records_app a b : records (a ++ b) = records a ++ records b.
Proof. apply List.filter_app. Qed.
Lemma hop_calls_app a b : calls (a ++ b) = calls a ++ calls b.
Proof. apply List.filter_app. Qed.

Lemma hop_only_logs l : forallb is_log l = true -> answers l = [] /\ records l = [] /\ calls l = [] /\ forall c data m, ToCaller JNull c data m ∉ l.
Proof.
  induction l as [|[] l IH]; cbn; try done.
  - intros _. split_and!; try done. intros ? ? ?. apply not_elem_of_nil.
  - intros Hl. destruct (IH Hl) as (? & ? & ? & Hn). split_and!; try done. intros c data m. rewrite elem_of_cons. intros [?|?]; [done|by eapply Hn].
Qed.

(** Nothing new keeps what was known. *)
Lemma hop_ok_more seen ev h effs : hop_ok seen h effs -> hop_ok (seen ++ [ev]) h effs.
Proof.
  assert (Hin : forall data, CalleeReplies None data ∈ seen -> CalleeReplies None data ∈ seen ++ [ev]) by (intros; apply elem_of_app; by left).
  assert (Hch : charge_asked seen effs -> charge_asked (seen ++ [ev]) effs) by (intros (? & ? & ? & ? & data & ?); split_and!; eauto).
  assert (Hme : forall data m, metered seen data m -> metered (seen ++ [ev]) data m).
  { intros data m (r & l1 & l2 & l3 & -> & Hm). exists r, l1, l2, (l3 ++ [ev]). split; [|done].
    rewrite <-!app_assoc. cbn. by rewrite <-!app_assoc. }
  intros (H1 & H2 & H3). split_and!; [done| |].
  - intros c data m Hm. destruct (H2 _ _ _ Hm) as (? & ? & H4 & ?). split_and!; auto. intros Hci. destruct (H4 Hci). auto.
  - unfold stage_ok in *. destruct (h_stage h); try done; naive_solver.
Qed.

Lemma hop_asked_more effs more : calls more = [] -> asked effs -> asked (effs ++ more).
Proof. intros E (w & p & p' & s & ? & ? & Hc). exists w, p, p', s. by rewrite hop_calls_app, E, app_nil_r. Qed.

Lemma hop_charged_more seen effs more : calls more = [] -> records more = [] -> charge_asked seen effs -> charge_asked seen (effs ++ more).
Proof.
  intros Ec Er (Hr & ? & ? & Ha & ?). unfold charge_asked. rewrite hop_records_app, Er, app_nil_r. split_and!; try done. by apply hop_asked_more.
Qed.

(** What the session's callback or timer says, in a stage. *)
Lemma hop_session_ok seen st h s effs r want :
  h_session h = Some s -> heard h effs -> succeeded seen effs ->
  (exists err data m, r = callback s err data m /\ want = local_reply ErrorInfo err data m) \/ (r = expire s /\ want = timed_out) ->
  (forall c data m, want = ToCaller JNull c data m ->
     CalleeReplies None data ∈ seen /\ asked effs /\
     (ci = true -> charge_asked seen effs /\ metered seen data m) /\ (ci = false -> m = JUndef)) ->
  (forall h' more, h_stage h' = st -> is_Some (h_session h') -> calls more = [] -> records more = [] ->
     stage_ok seen h' (effs ++ more)) ->
  let x := through_session ErrorInfo st r h in hop_ok seen x.1 (effs ++ x.2).
Proof.
  intros Hs Hh Hsu Hr Hwant Hst. unfold heard in Hh. rewrite Hs in Hh. destruct Hh as (H1 & H2 & H3).
  destruct (hop_local_answer s r want H1 H2 Hr) as (G1 & G2 & G3 & logs & G4 & G5). destruct (hop_only_logs logs G5) as (L1 & L2 & L3 & L4).
  assert (Hw : is_answer want = true /\ is_record want = false /\ is_call want = false).
  { destruct Hr as [([e|] & data & m & _ & ->)|[_ ->]]; done. }
  destruct Hw as (W1 & W2 & W3). unfold through_session. cbn [fst snd]. rewrite G4.
  set (more := if s_called s then [] else logs ++ [want]).
  assert (Hm : calls more = [] /\ records more = [] /\ length (answers more) = (if s_called s then 0 else 1)%nat).
  { unfold more. destruct (s_called s); [done|]. rewrite hop_calls_app, hop_records_app, hop_answers_app, L1, L2, L3.
    unfold calls, records, answers. cbn. by rewrite W1, W2, W3. }
  destruct Hm as (M1 & M2 & M3). split_and!.
  - unfold heard. cbn. split_and!; [done|done|]. rewrite hop_answers_app, length_app, H3, M3, G2. by destruct (s_called s).
  - intros c data m [Hin|Hin]%elem_of_app.
    + destruct (Hsu _ _ _ Hin) as (? & ? & Hc & ?). split_and!; [done|by apply hop_asked_more| |done].
      intros Hci. destruct (Hc Hci). split; [by apply hop_charged_more|done].
    + unfold more in Hin. destruct (s_called s); [by apply not_elem_of_nil in Hin|]. apply elem_of_app in Hin as [Hin|Hin]; [by apply L4 in Hin|].
      apply list_elem_of_singleton in Hin. destruct (Hwant c data m (eq_sym Hin)) as (? & ? & Hc & ?).
      split_and!; [done|by apply hop_asked_more| |done]. intros Hci. destruct (Hc Hci). split; [by apply hop_charged_more|done].
  - apply Hst; by cbn.
Qed.

Lemma hop_idle seen ev h effs : hop_ok seen h effs -> hop_ok (seen ++ [ev]) h (effs ++ []).
Proof. rewrite app_nil_r. apply hop_ok_more. Qed.

(** A hop that ends before the callee is asked. *)
Lemma hop_refused_ok seen e p : e = HopException \/ (exists err data, e = error_reply ErrorInfo err data) ->
  hop_ok seen (mkHop Done None p) [e].
Proof.
  intros He. split_and!.
  - unfold heard. cbn. destruct (is_answer e); cbn; lia.
  - intros c data m E%list_elem_of_singleton. by destruct He as [->|(err & data' & ->)].
  - split; left; by destruct He as [->|(err & data' & ->)].
Qed.

Lemma authorized_ok seen ev callee h effs :
  h_stage h = Authorizing callee -> hop_ok seen h effs ->
  let x := hstep q listOf ev h in hop_ok (seen ++ [ev]) x.1 (effs ++ x.2).
Proof.
  intros Hst Hok. pose proof Hok as (_ & _ & Hs). unfold stage_ok in Hs. rewrite Hst in Hs. destruct Hs as (-> & Hn & Hc).
  unfold hop_step. rewrite Hst, Hn. destruct ev; try by apply hop_idle.
  destruct (doUserAuth o _ _ _ _ _ _ _) as [p' [e|s|e]] eqn:Ea;
    [apply hop_refused_ok; by eauto| |apply hop_refused_ok; by eauto].
  destruct (hop_accepted_session _ _ _ _ _ _ _ _ Ea) as [Hl Hcd]. destruct callee as [w|]; cbn [fst snd app].
  - split_and!; [unfold heard, sent_session; cbn; by rewrite Hcd|by intros c data m ?%list_elem_of_singleton|].
    split_and!; [|done|done]. by exists w, (h_provider h), p', s; rewrite (Hc w eq_refl).
  - split_and!; [unfold heard, sent_session; cbn; by rewrite Hcd|by intros c data m ?%list_elem_of_singleton|].
    split; by left.
Qed.

Lemma missing_ok seen ev missing h effs :
  h_stage h = AuthorizingMissing missing -> hop_ok seen h effs ->
  let x := hstep q listOf ev h in hop_ok (seen ++ [ev]) x.1 (effs ++ x.2).
Proof.
  intros Hst Hok. pose proof Hok as (_ & _ & Hs). unfold stage_ok in Hs. rewrite Hst in Hs. destruct Hs as (-> & Hn).
  unfold hop_step. rewrite Hst, Hn. destruct ev; try by apply hop_idle.
  destruct (doUserAuth o _ _ _ _ _ _ _) as [p' [e|s|e]] eqn:Ea; apply hop_refused_ok; eauto.
Qed.

Lemma asked_ok seen ev h effs :
  h_stage h = Asked -> hop_ok seen h effs -> let x := hstep q listOf ev h in hop_ok (seen ++ [ev]) x.1 (effs ++ x.2).
Proof.
  intros Hst Hok. destruct (hop_ok_more seen ev h effs Hok) as (Hh & Hsu & Hs). unfold stage_ok in Hs. rewrite Hst in Hs. destruct Hs as (Ha & Hr & [s Hse]).
  assert (Hdone : forall h' more, h_stage h' = Done -> is_Some (h_session h') -> calls more = [] -> records more = [] ->
    stage_ok (seen ++ [ev]) h' (effs ++ more)).
  { intros h' more E Hse' Hca Hre. unfold stage_ok. rewrite E, hop_records_app, Hre, Hr. split; [right|by left]. split; [by apply hop_asked_more|done]. }
  unfold hop_step. rewrite Hst, Hse. destruct ev as [|err data|m|]; try by apply hop_idle.
  - unfold callee_replied. destruct err as [e|]; [|destruct ci eqn:Hci; cbn [negb]; [destruct (is_nullish _) eqn:Hb|]].
    + eapply hop_session_ok; try done; [left; eauto|by intros].
    + eapply hop_session_ok; try done; [left; eauto|by intros].
    + cbn [fst snd]. split_and!.
      * unfold heard in *. cbn. rewrite Hse in Hh. destruct Hh as (? & ? & Hn). split_and!; [done..|]. by rewrite hop_answers_app, app_nil_r.
      * intros c dt m [Hin|?%list_elem_of_singleton]%elem_of_app; [|done]. destruct (Hsu _ _ _ Hin) as (_ & _ & Hc).
        destruct Hc as [Hc _]. destruct (Hc Hci) as ((Hrec & _) & _). by rewrite Hr in Hrec.
      * split_and!; [|by apply elem_of_app; right; left|done]. unfold charge_asked. rewrite hop_records_app, Hr. split_and!; try done.
        -- by apply hop_asked_more.
        -- exists data. apply elem_of_app; right; left.
    + eapply hop_session_ok; try done; [left; eauto|]. intros c dt m [= <- <- <-]. split_and!; [by apply elem_of_app; right; left|done|by intros; congruence|done].
  - eapply hop_session_ok; try done; [by right|by intros|].
    intros h' more E Hse' Hca Hre. unfold stage_ok. rewrite E, hop_records_app, Hre, Hr. split_and!; [by apply hop_asked_more|done|done].
Qed.

Lemma recorded_for seen h effs data :
  hop_ok seen h effs -> h_stage h = Recording data -> exists l1 l2, seen = l1 ++ CalleeReplies None data :: l2.
Proof.
  intros (_ & _ & Hs) Hst. unfold stage_ok in Hs. rewrite Hst in Hs. destruct Hs as (_ & Hin & _). by apply list_elem_of_split.
Qed.

Lemma recording_ok seen ev data h effs :
  h_stage h = Recording data -> hop_ok seen h effs -> let x := hstep q listOf ev h in hop_ok (seen ++ [ev]) x.1 (effs ++ x.2).
Proof.
  intros Hst Hok. destruct (hop_ok_more seen ev h effs Hok) as (Hh & Hsu & Hs). unfold stage_ok in Hs. rewrite Hst in Hs.
  destruct Hs as (Hch & Hin & [s Hse]). pose proof Hch as (_ & _ & _ & Ha & _).
  unfold hop_step. rewrite Hst, Hse. destruct ev as [|err dt|m|]; try by apply hop_idle.
  - eapply hop_session_ok; try done; [left; eauto| |].
    + intros c dt m' [= <- <- <-]. assert (ci = true) by apply Hch. split_and!; [done|done| |by intros; congruence]. intros _. split; [done|].
      destruct (recorded_for _ _ _ _ Hok Hst) as (l1 & l2 & ->). exists m, l1, l2, []. by rewrite <-app_assoc.
    + intros h' more E Hse' Hca Hre. unfold stage_ok. rewrite E. split; right; [split; [by apply hop_asked_more|done]|by apply hop_charged_more].
  - eapply hop_session_ok; try done; [by right|by intros|].
    intros h' more E Hse' Hca Hre. unfold stage_ok. rewrite E. split_and!; [by apply hop_charged_more|done|done].
Qed.

Lemma done_ok seen ev h effs :
  h_stage h = Done -> hop_ok seen h effs -> let x := hstep q listOf ev h in hop_ok (seen ++ [ev]) x.1 (effs ++ x.2).
Proof.
  intros Hst Hok. destruct (hop_ok_more seen ev h effs Hok) as (Hh & Hsu & Hs). unfold stage_ok in Hs. rewrite Hst in Hs. destruct Hs as [Hc Hr].
  unfold hop_step. rewrite Hst. destruct (h_session h) as [s|] eqn:Hse; [|by destruct ev; apply hop_idle].
  destruct ev as [|err dt|m|]; try by apply hop_idle.
  eapply hop_session_ok; try done; [by right|by intros|]. intros h' more E Hse' Hca Hre. unfold stage_ok. rewrite E. split.
  - destruct Hc as [Hc|[Ha _]]; [left; by rewrite hop_calls_app, Hc|right]. split; [by apply hop_asked_more|done].
  - destruct Hr as [Hr|Hr]; [left; by rewrite hop_records_app, Hr|right; by apply hop_charged_more].
Qed.

Lemma hop_step_ok seen ev h effs : hop_ok seen h effs -> let x := hstep q listOf ev h in hop_ok (seen ++ [ev]) x.1 (effs ++ x.2).
Proof.
  intros Hok. destruct (h_stage h) as [callee|missing| |data|] eqn:E;
    [by eapply authorized_ok|by eapply missing_ok|by apply asked_ok|by eapply recording_ok|by apply done_ok].
Qed.

Lemma hop_run_ok evs : forall seen h effs, hop_ok seen h effs ->
  let x := hrun q listOf h evs in hop_ok (seen ++ evs) x.1 (effs ++ x.2).
Proof.
  induction evs as [|ev evs IH]; intros seen h effs Hok; cbn.
  - by rewrite !app_nil_r.
  - pose proof (hop_step_ok seen ev h effs Hok) as H1. destruct (hstep q listOf ev h) as [h1 e1]. cbn [fst snd] in H1.
    specialize (IH _ _ _ H1). destruct (hrun q listOf h1 evs) as [h2 e2]. cbn [fst snd] in *. by rewrite <- !app_assoc in IH.
Qed.

Lemma start_ok p : hop_ok [] (start q d p).1 (start q d p).2.
Proof.
  assert (Hno : succeeded [] []) by (intros c data m Hin; by apply not_elem_of_nil in Hin).
  assert (H0 : (length (answers []) <= 1)%nat) by (cbn; lia).
  unfold start. destruct (lookup_device d (q_deviceID q)) eqn:E.
  - split; [done|]. split; [done|]. split_and!; try done. cbn. by intros w0 [= <-].
  - split; [done|]. split; [done|]. by split_and!.
  - destruct (strict_eq _ _); cbn [fst snd]; [|split; [done|]; split; [done|]; done].
    split; [cbn; lia|]. split; [|split; by left]. intros c data m Hin. by apply list_elem_of_singleton in Hin.
Qed.

Lemma hop_all_ok p evs :
  let x := hop_all o ErrorInfo monitor ci mcpToolCallCost q listOf d p evs in hop_ok evs x.1 x.2.
Proof.
  unfold hop_all. pose proof (start_ok p) as H0. destruct (start q d p) as [h e]. cbn [fst snd] in H0.
  pose proof (hop_run_ok evs [] h e H0) as H1. by destruct (hrun q listOf h evs).
Qed.

(** A callee that was asked is waited for with a session. *)
Lemma stage_calls seen h effs : stage_ok seen h effs -> calls effs = [] \/ asked effs /\ is_Some (h_session h).
Proof.
  unfold stage_ok. destruct (h_stage h); intros Hs; destruct_and?; subst; auto.
  match goal with H : charge_asked _ _ |- _ => destruct H as (_ & _ & _ & ? & _) end. auto.
Qed.

Lemma hrun_snoc evs ev : forall h, (hrun q listOf h (evs ++ [ev])).1 = (hstep q listOf ev (hrun q listOf h evs).1).1.
Proof.
  induction evs as [|e evs IH]; intros h; cbn; [by destruct (hstep q listOf ev h)|].
  destruct (hstep q listOf e h) as [h1 e1]. specialize (IH h1). destruct (hrun q listOf h1 (evs ++ [ev])), (hrun q listOf h1 evs). exact IH.
Qed.

(** A session whose timer has fired has answered. *)
Lemma timer_called evs p s :
  h_session (hop_all o ErrorInfo monitor ci mcpToolCallCost q listOf d p (evs ++ [HopTimer])).1 = Some s -> s_called s = true.
Proof.
  pose proof (hop_all_ok p evs) as (Hh & _). unfold hop_all in *. destruct (start q d p) as [h0 e0].
  pose proof (hrun_snoc evs HopTimer h0) as Hsn. destruct (hrun q listOf h0 (evs ++ [HopTimer])) as [h1 e1], (hrun q listOf h0 evs) as [h2 e2].
  cbn [fst snd] in *. subst h1. unfold hop_step, heard in *. destruct (h_session h2) as [s2|] eqn:E2.
  - destruct Hh as (H1 & _). pose proof (session_once ErrorInfo false 0 monitor s2 _ H1 (or_intror eq_refl)) as (_ & Hc & _).
    destruct (h_stage h2); cbn; intros [= <-]; exact Hc.
  - destruct (h_stage h2); cbn; by rewrite E2.
Qed.


(** A callee that answers a success after the timer has fired is charged for,
    although its caller has been told of a failure; and that failure carries no
    code. *)
Theorem timed_out_hop_charged p p' s w data :
  lookup_device d (q_deviceID q) = Hosted w ->
  doUserAuth o p JUndef (q_deviceID q) (q_appKey q) (q_serviceID q) (q_actionName q) true = (p', Accepted s) ->
  ci = true -> is_nullish (q_billingKey q) = false ->
  let effs := (hop_all o ErrorInfo monitor ci mcpToolCallCost q listOf d p [AuthAnswers; HopTimer; CalleeReplies None data]).2 in
  answers effs = [timed_out] /\ records effs = [the_record] /\
  exists errMsg, timed_out = ToCaller errMsg JNull JNull JUndef.
Proof.
  intros Hd Ha Hci Hb effs. destruct (hop_accepted_session _ _ _ _ _ _ _ _ Ha) as [Hl Hcd].
  set (s1 := setDeviceTimer s (WorkerMessageRef (listOf w))).
  destruct (hop_local_answer s1 (expire s1) timed_out) as (H1 & H2 & H3 & logs & H4 & H5);
    [unfold sent_session; cbn; by rewrite Hcd|done|by right|]. cbn [s1 s_called] in H4. replace (s_called s1) with false in H4 by done.
  destruct (hop_only_logs logs H5) as (L1 & L2 & L3 & _).
  assert (E : effs = [the_call w] ++ (logs ++ [timed_out]) ++ [the_record]).
  { unfold effs, hop_all, start. rewrite Hd. cbn [hop_run hop_step h_stage h_session h_provider]. rewrite Ha. cbn [h_stage h_session].
    fold s1. unfold through_session. rewrite H4. cbn [h_stage h_session h_provider]. unfold callee_replied. by rewrite Hci, Hb. }
  rewrite E, !hop_answers_app, !hop_records_app, L1, L2. split_and!; [done|done|]. by eexists.
Qed.
End invariant.
End proofs.

(** ** A concrete hop *)

Definition demo_request : request := mkRequest (JStr "key") (JStr "payer") (JStr "id-a") (JStr "s") (JStr "a") (JObj []).
Definition demo_auth := mkFile "auth.json" None
  (JObj [("key", JObj [("userName", JStr "ann"); ("devices", JArr [JStr "id-a"])])]).
Definition demo_trace : list hop_event := [AuthAnswers; CalleeReplies None (JStr "done"); MeteringAnswers (Some (JNum 1))].

(** Metering that answers an error, as when its store is down: the caller hears
    the success, and its platformMetering is null. *)
Example metering_fails_open :
  (hop_all (mkOptions false JUndef) (fun _ => None) false true 5 demo_request (fun _ => []) demo_dm demo_auth
     [AuthAnswers; CalleeReplies None (JStr "done"); MeteringAnswers None]).2
  = [ToCallee 0 (JStr "id-a") (JStr "s") (JStr "a") (JObj []); Record_ (JStr "payer") "id-a:::s:::a" 5;
     ToCaller JNull JUndef (JStr "done") JNull].
Proof. by vm_compute. Qed.

