(* ===== verification/Composition.v ===== *)
(** * Composition verification (lib/device-manager.js, verifyComposition and
    the verdicts of onAllModulesDiscovered)

    Every address a module declares is parsed, its device queried, the action
    resolved in that device's spec and the module's own identity authenticated
    for it, in whatever order the queries and the provider answer; the verdict
    is delivered to the worker that hosts the device, and the server is ready
    once every verdict is. *)
From Stdlib Require Import ZArith Lia Ascii String.
From stdpp Require Import prelude strings gmap.
From S2P Require Import Prelude Json Errors Auth Address DeviceManager.

Set Default Proof Using "Type".

(** ** One verification *)

(** What [verifyComposition] hands back: nothing declared, or an identity and
    the addresses it may be used for. *)
Record composition := mkComposition { co_identity : jsval; co_allowed : list string }.

Inductive verdict := Invalid (e : cherr) | Bound (c : option composition).

(** Where an address is: its device queried, the identity authenticated for
    the action, or [finish] called. *)
Inductive aphase :=
| Querying (p : address)
| Authenticating (p : address) (serviceID : string)
| Finished.

Inductive vstage :=
| AwaitIdentity
| Checking (key : jsval) (phases : list aphase) (todo : list jsval) (pending : nat) (failed : bool) (allowed : list string)
| Over.

Record verification := mkV {
  v_name : jsval;            (* [friendlyName] *)
  v_modulePath : jsval;
  v_declared : list jsval;
  v_stage : vstage
}.

Definition at_stage (st : vstage) (v : verification) : verification :=
  mkV (v_name v) (v_modulePath v) (v_declared v) st.

Inductive effect :=
| AskIdentity (name : jsval)
| Query (i : nat) (deviceID : string)
| Authenticate (i : nat) (key : jsval) (deviceID serviceID action : string)
| Verdict (r : verdict).

(** The provider has an [identityForModule] of its own; its name; the file of
    identities; the id of a friendly name. *)
Section verify.
Context (has_identities : bool) (authProvider authConfigPath : string) (deviceIDForName : string -> string).

Definition MODULE_COMPOSITION_INVALID (name : jsval) (text : string) : cherr :=
  CHError "MODULE_COMPOSITION_INVALID" [name; JStr text].

Definition calls : string := in_quotes "countinghouse.calls".
Definition runsModules : string := in_quotes "runsModules".

(** [packageInfo.countinghouse.calls], when it is an array. *)
Definition declared_calls (packageInfo : jsval) : list jsval :=
  match jget "calls" (jget "countinghouse" packageInfo) with JArr l => l | _ => [] end.

Definition or_null (v : jsval) : jsval := if is_nullish v then JNull else v.

(** [verifyComposition], up to the question for the identity. *)
Definition verifyComposition (spec packageInfo modulePath : jsval) : verification * list effect :=
  let declared := declared_calls packageInfo in
  let friendlyName := or_null (jget "friendlyName" (jget "device" spec)) in
  let v := mkV friendlyName modulePath declared Over in
  if bool_decide (length declared = 0%nat) then (v, [Verdict (Bound None)])
  else if is_nullish friendlyName then
    (v, [Verdict (Invalid (MODULE_COMPOSITION_INVALID (JStr (js_text (or_null (jget "name" packageInfo))))
          ("declares " +:+ calls +:+ " in package.json (at " +:+ js_text modulePath +:+
           "/package.json), but its own api.json has no device.friendlyName to bind the composition to.")))])
  else if negb has_identities then
    (v, [Verdict (Invalid (MODULE_COMPOSITION_INVALID friendlyName
          ("it declares " +:+ calls +:+ " in package.json, but the configured auth backend (--authProvider " +:+
           authProvider +:+ ") does not implement module composition (no identityForModule). " +:+
           "Use --authProvider file or sqlite, or add identityForModule to it.")))])
  else (at_stage AwaitIdentity v, [AskIdentity friendlyName]).

(** What comes back: the identity; the loop's next turn; a query's answer, with
    the device's spec as it is then; the provider's answer. *)
Inductive event :=
| Identified (r : cherr + identity)
| Next
| Queried (i : nat) (r : cherr + jsval)
| Authed (i : nat) (r : cherr + auth_result).

(** [finish], for the address at [i]. *)
Definition finish (i : nat) (err : option cherr) (key : jsval) (phases : list aphase) (todo : list jsval) (pending : nat)
    (failed : bool) (allowed : list string) (v : verification) : verification * list effect :=
  let phases := <[i := Finished]> phases in
  if failed then (at_stage (Checking key phases todo pending failed allowed) v, [])
  else match err with
       | Some e => (at_stage (Checking key phases todo pending true allowed) v, [Verdict (Invalid e)])
       | None =>
           let pending := pred pending in
           (at_stage (Checking key phases todo pending failed allowed) v,
            if bool_decide (pending = 0%nat) then [Verdict (Bound (Some (mkComposition key allowed)))] else [])
       end.

Definition in_package (address modulePath : jsval) : string :=
  in_quotes (js_text address) +:+ " in " +:+ js_text modulePath +:+ "/package.json".

(** The identity the provider found, or why there is none. *)
Definition identified (r : cherr + identity) (v : verification) : verification * list effect :=
  match r with
  | inl e => (at_stage Over v, [Verdict (Invalid e)])
  | inr id =>
      match i_conflicts id with
      | Some ks =>
          (at_stage Over v, [Verdict (Invalid (MODULE_COMPOSITION_INVALID (v_name v)
             ("more than one auth identity claims this module in " +:+ runsModules +:+ ": " +:+ join ", " ks +:+
              ". Exactly one must -- edit " +:+ authConfigPath +:+ " so only one does.")))])
      | None =>
          if is_nullish (i_apiKey id) then
            (at_stage Over v, [Verdict (Invalid (MODULE_COMPOSITION_INVALID (v_name v)
               ("it declares " +:+ nat_text (length (v_declared v)) +:+ " composition target(s) in " +:+ calls +:+
                " (package.json is fine as-is), but no auth identity in " +:+ authConfigPath +:+ " lists " +:+
                in_quotes (js_text (v_name v)) +:+ " in " +:+ runsModules +:+
                ". Add it there, to the identity you want its inner hops authorized as.")))])
          else (at_stage (Checking (i_apiKey id) [] (v_declared v) (length (v_declared v)) false []) v, [])
      end
  end.

(** The address at a place of the declaration. *)
Definition address_at (i : nat) (v : verification) : jsval := default JUndef (v_declared v !! i).

Definition v_step (ev : event) (v : verification) : verification * list effect :=
  match ev, v_stage v with
  | Identified r, AwaitIdentity => identified r v
  | Next, Checking key phases (address :: todo) pending failed allowed =>
      let i := length phases in
      match parseAddress address with
      | None =>
          finish i (Some (MODULE_COMPOSITION_INVALID (v_name v)
            (in_quotes (js_text address) +:+ " in " +:+ js_text (v_modulePath v) +:+ "/package.json's " +:+ calls +:+
             " is not a valid address -- expected " +:+ ADDRESS_FORM)))
            key (phases ++ [Finished]) todo pending failed allowed v
      | Some p =>
          (at_stage (Checking key (phases ++ [Querying p]) todo pending failed allowed) v,
           [Query i (deviceIDForName (ad_device p))])
      end
  | Queried i r, Checking key phases todo pending failed allowed =>
      match phases !! i with
      | Some (Querying p) =>
          match r with
          | inl _ =>
              finish i (Some (MODULE_COMPOSITION_INVALID (v_name v)
                ("declares " +:+ in_package (address_at i v) (v_modulePath v) +:+ ", but module " +:+
                 in_quotes (ad_device p) +:+ " is not loaded"))) key phases todo pending failed allowed v
          | inr spec =>
              match resolveAddress spec (Some p) with
              | inl message =>
                  finish i (Some (MODULE_COMPOSITION_INVALID (v_name v)
                    ("declares " +:+ in_package (address_at i v) (v_modulePath v) +:+ ": " +:+ message)))
                    key phases todo pending failed allowed v
              | inr serviceID =>
                  (at_stage (Checking key (<[i := Authenticating p serviceID]> phases) todo pending failed allowed) v,
                   [Authenticate i key (deviceIDForName (ad_device p)) serviceID (ad_action p)])
              end
          end
      | _ => (v, [])
      end
  | Authed i r, Checking key phases todo pending failed allowed =>
      match phases !! i with
      | Some (Authenticating p serviceID) =>
          match r with
          | inl e => finish i (Some e) key phases todo pending failed allowed v
          | inr result =>
              if negb (a_ok result) then
                finish i (Some (MODULE_COMPOSITION_INVALID (v_name v)
                  ("identity " +:+ in_quotes (js_text key) +:+ " has no grant to " +:+
                   in_quotes (js_text (address_at i v)) +:+ ". Add device " +:+ deviceIDForName (ad_device p) +:+
                   " (module " +:+ in_quotes (ad_device p) +:+ ") to its " +:+ in_quotes "devices" +:+ " in " +:+
                   authConfigPath +:+ "."))) key phases todo pending failed allowed v
              else finish i None key phases todo pending failed (allowed ++ [js_text (address_at i v)]) v
          end
      | _ => (v, [])
      end
  | _, _ => (v, [])
  end.

Fixpoint v_run (v : verification) (evs : list event) : verification * list effect :=
  match evs with
  | [] => (v, [])
  | ev :: rest => let '(v1, e1) := v_step ev v in let '(v2, e2) := v_run v1 rest in (v2, e1 ++ e2)
  end.

(** A whole verification. *)
Definition v_all (spec packageInfo modulePath : jsval) (evs : list event) : verification * list effect :=
  let '(v, e) := verifyComposition spec packageInfo modulePath in
  let '(v', e') := v_run v evs in (v', e ++ e').
End verify.

(** ** The verdicts of a pass *)

(** Where a device's verdict is; what is relayed to its worker, a binding or
    its clearing. *)
Inductive delivery := Verifying | Relaying (clearing : bool) | Delivered.

Record pass := mkPass {
  p_reverify : bool;
  p_devices : list (string * (nat * delivery));
  p_left : nat                                  (* [verdictsPending] *)
}.

Inductive pass_effect :=
| SetComposition (w : nat) (deviceID : string) (identity : jsval) (allowed : option (list string))
| Purge (deviceID : string) (w : nat)
| LogFailure (e : cherr)
| ReadyLine.

(** The pass over the devices there are; the startup's is not a
    re-verification. *)
Definition new_pass (isReVerification : bool) (devices : list (string * nat)) : pass * list pass_effect :=
  (mkPass isReVerification (map (fun e => (e.1, (e.2, Verifying))) devices) (length devices),
   if bool_decide (length devices = 0%nat) then [ReadyLine] else []).

Definition verdictDelivered (deviceID : string) (w : nat) (p : pass) : pass * list pass_effect :=
  let left := pred (p_left p) in
  (mkPass (p_reverify p) (assoc_set deviceID (w, Delivered) (p_devices p)) left,
   if bool_decide (left = 0%nat) then [ReadyLine] else []).

Definition relaying (deviceID : string) (w : nat) (clearing : bool) (p : pass) : pass :=
  mkPass (p_reverify p) (assoc_set deviceID (w, Relaying clearing) (p_devices p)) (p_left p).

Inductive pass_event :=
| Verified (deviceID : string) (r : verdict)
| Relayed (deviceID : string) (relayErr : option string).

Definition relay_failure (clearing : bool) (deviceID message : string) : cherr :=
  CHError "MODULE_COMPOSITION_INVALID" [JStr deviceID;
    JStr ((if clearing then "re-verification failed and clearing its composition inside its worker thread also failed: "
           else "resolved composition successfully but failed to bind it inside its worker thread: ") +:+ message)].

Definition pass_step (ev : pass_event) (p : pass) : pass * list pass_effect :=
  match ev with
  | Verified deviceID r =>
      match assoc deviceID (p_devices p) with
      | Some (w, Verifying) =>
          match r with
          | Invalid e =>
              if p_reverify p then (relaying deviceID w true p, [LogFailure e; SetComposition w deviceID JNull None])
              else let '(p', effs) := verdictDelivered deviceID w p in (p', LogFailure e :: Purge deviceID w :: effs)
          | Bound c =>
              (relaying deviceID w false p,
               [SetComposition w deviceID (match c with Some c => co_identity c | None => JNull end) (option_map co_allowed c)])
          end
      | _ => (p, [])
      end
  | Relayed deviceID relayErr =>
      match assoc deviceID (p_devices p) with
      | Some (w, Relaying clearing) =>
          let '(p', effs) := verdictDelivered deviceID w p in
          (p', match relayErr with Some m => [LogFailure (relay_failure clearing deviceID m)] | None => [] end ++ effs)
      | _ => (p, [])
      end
  end.

Fixpoint pass_run (p : pass) (evs : list pass_event) : pass * list pass_effect :=
  match evs with
  | [] => (p, [])
  | ev :: rest => let '(p1, e1) := pass_step ev p in let '(p2, e2) := pass_run p1 rest in (p2, e1 ++ e2)
  end.

(** ** Lemmas *)

Section proofs.
Context (has_identities : bool) (authProvider authConfigPath : string) (deviceIDForName : string -> string).

Local Notation vstep := (v_step authConfigPath deviceIDForName).
Local Notation vrun := (v_run authConfigPath deviceIDForName).
Local Notation vall := (v_all has_identities authProvider authConfigPath deviceIDForName).

Definition is_verdict (e : effect) : bool := match e with Verdict _ => true | _ => false end.
Definition verdicts (effs : list effect) : list effect := List.filter is_verdict effs.

Lemma verdicts_app a b : verdicts (a ++ b) = verdicts a ++ verdicts b.
Proof. apply List.filter_app. Qed.

Lemma verdict_in r effs : Verdict r ∈ effs -> Verdict r ∈ verdicts effs.
Proof. intros Hin. apply list_elem_of_In, List.filter_In. by rewrite <- list_elem_of_In. Qed.

Lemma parse_string v p : parseAddress v = Some p -> exists s, v = JStr s.
Proof. destruct v; try done. eauto. Qed.

Section invariant.
Context (declared : list jsval).

(** An address that the identity was authenticated for, by what came back. *)
Definition resolved_at (seen : list event) (effs : list effect) (key : jsval) (i : nat) (p : address) (sid : string) : Prop :=
  exists spec, Queried i (inr spec) ∈ seen /\ resolveAddress spec (Some p) = inr sid /\
  Authenticate i key (deviceIDForName (ad_device p)) sid (ad_action p) ∈ effs.

Definition named_at (i : nat) (s : string) (p : address) : Prop :=
  declared !! i = Some (JStr s) /\ parseAddress (JStr s) = Some p.

Definition authorized_at (seen : list event) (effs : list effect) (key : jsval) (i : nat) (s : string) : Prop :=
  exists p sid r, named_at i s p /\ resolved_at seen effs key i p sid /\ Authed i (inr r) ∈ seen /\ a_ok r = true.

Definition phase_ok (seen : list event) (effs : list effect) (key : jsval) (failed : bool) (allowed : list string)
    (i : nat) (ph : aphase) : Prop :=
  match ph with
  | Querying p => exists s, named_at i s p
  | Authenticating p sid => (exists s, named_at i s p) /\ resolved_at seen effs key i p sid
  | Finished => failed = true \/ exists s, authorized_at seen effs key i s /\ s ∈ allowed
  end.

Definition is_open (ph : aphase) : bool := match ph with Finished => false | _ => true end.
Definition open_phases (l : list aphase) : nat := length (List.filter is_open l).

Definition identified_by (seen : list event) (key : jsval) : Prop :=
  is_nullish key = false /\ exists id, Identified (inr id) ∈ seen /\ i_apiKey id = key /\ i_conflicts id = None.

(** One failure, or as many to wait for as there are open addresses. *)
Definition tally (effs : list effect) (key : jsval) (failed : bool) (allowed : list string) (left pending : nat) : Prop :=
  if failed then exists e, verdicts effs = [Verdict (Invalid e)]
  else pending = left /\
       verdicts effs = if bool_decide (left = 0%nat) then [Verdict (Bound (Some (mkComposition key allowed)))] else [].

Definition checking_ok (seen : list event) (effs : list effect) (key : jsval) (phases : list aphase) (todo : list jsval)
    (pending : nat) (failed : bool) (allowed : list string) : Prop :=
  identified_by seen key /\
  (length phases <= length declared)%nat /\ todo = drop (length phases) declared /\
  (forall i ph, phases !! i = Some ph -> phase_ok seen effs key failed allowed i ph) /\
  (forall s, s ∈ allowed -> JStr s ∈ declared) /\
  tally effs key failed allowed (length todo + open_phases phases) pending.

Definition v_ok (seen : list event) (effs : list effect) (v : verification) : Prop :=
  v_declared v = declared /\ declared <> [] /\
  match v_stage v with
  | AwaitIdentity => verdicts effs = []
  | Over => exists e, verdicts effs = [Verdict (Invalid e)]
  | Checking key phases todo pending failed allowed => checking_ok seen effs key phases todo pending failed allowed
  end.

Lemma open_app a b : open_phases (a ++ b) = (open_phases a + open_phases b)%nat.
Proof. unfold open_phases. by rewrite List.filter_app, length_app. Qed.

Lemma open_insert i ph phases old : phases !! i = Some old -> is_open old = true ->
  open_phases (<[i := ph]> phases) = (pred (open_phases phases) + if is_open ph then 1 else 0)%nat.
Proof.
  intros Hi Ho. pose proof (take_drop_middle _ _ _ Hi) as E. rewrite <- E at 2.
  rewrite insert_take_drop by (by eapply lookup_lt_Some). rewrite !open_app. unfold open_phases at 2 4. cbn. rewrite Ho.
  destruct (is_open ph); cbn; unfold open_phases; lia.
Qed.

Lemma open_pos i ph phases : phases !! i = Some ph -> is_open ph = true -> (0 < open_phases phases)%nat.
Proof.
  intros Hi Ho. rewrite <- (take_drop_middle _ _ _ Hi), open_app. unfold open_phases at 2. cbn. rewrite Ho. cbn. lia.
Qed.

(** More heard and more done keep what was known of an address. *)
Lemma phase_more seen effs key failed allowed i ph seen' effs' failed' allowed' :
  phase_ok seen effs key failed allowed i ph -> (failed = true -> failed' = true) ->
  (forall s, s ∈ allowed -> s ∈ allowed') ->
  phase_ok (seen ++ seen') (effs ++ effs') key failed' allowed' i ph.
Proof.
  assert (Hr : forall p sid, resolved_at seen effs key i p sid -> resolved_at (seen ++ seen') (effs ++ effs') key i p sid).
  { intros p sid (spec & ? & ? & ?). exists spec. rewrite !elem_of_app. auto. }
  destruct ph as [p|p sid|]; cbn; [done|intros [? ?]; auto|].
  intros [?|(s & (p & sid & r & ? & ? & ? & ?) & ?)] Hf Ha; [auto|]. right. exists s. split; [|auto].
  exists p, sid, r. rewrite elem_of_app. auto.
Qed.

Lemma phases_insert (Q : nat -> aphase -> Prop) i new (phases : list aphase) :
  (forall j ph, j <> i -> phases !! j = Some ph -> Q j ph) -> Q i new ->
  forall j ph, <[i := new]> phases !! j = Some ph -> Q j ph.
Proof. intros H Hn j ph Hj. apply list_lookup_insert_Some in Hj as [(<- & <- & _)|[Hne Hj]]; [done|by apply H]. Qed.

(** [finish] keeps the tally. *)
Lemma finish_ok seen effs key phases todo pending failed allowed i err v :
  v_declared v = declared -> declared <> [] -> identified_by seen key ->
  (i < length phases <= length declared)%nat -> todo = drop (length phases) declared ->
  (forall j ph, j <> i -> phases !! j = Some ph -> phase_ok seen effs key failed allowed j ph) ->
  (forall s, s ∈ allowed -> JStr s ∈ declared) ->
  (if failed then exists e, verdicts effs = [Verdict (Invalid e)] else verdicts effs = []) ->
  (err = None -> failed = false -> (exists s, authorized_at seen effs key i s /\ s ∈ allowed) /\
     pending = S (length todo + open_phases (<[i := Finished]> phases))) ->
  let x := finish i err key phases todo pending failed allowed v in v_ok seen (effs ++ x.2) x.1.
Proof.
  intros Hd Hne Hid [Hi Hlen] Htodo Hph Hal Hv Herr. unfold finish.
  assert (Hall : forall failed', (failed = true -> failed' = true) ->
    (failed' = true \/ exists s, authorized_at seen effs key i s /\ s ∈ allowed) ->
    forall effs' j ph, <[i := Finished]> phases !! j = Some ph -> phase_ok seen (effs ++ effs') key failed' allowed j ph).
  { intros failed' Hf Hfin effs'. rewrite <- (app_nil_r seen). apply phases_insert.
    - intros j ph Hj Hl. by apply (phase_more seen effs key failed allowed); [apply Hph|..].
    - by apply (phase_more seen effs key failed' allowed). }
  assert (Hshape : forall failed' pending' effs', (failed = true -> failed' = true) ->
    (failed' = true \/ exists s, authorized_at seen effs key i s /\ s ∈ allowed) ->
    tally (effs ++ effs') key failed' allowed (length todo + open_phases (<[i := Finished]> phases)) pending' ->
    v_ok seen (effs ++ effs') (at_stage (Checking key (<[i := Finished]> phases) todo pending' failed' allowed) v)).
  { intros failed' pending' effs' Hf Hfin Ht. split; [done|]. split; [done|]. cbn. unfold checking_ok.
    rewrite length_insert. split_and!; try done. by apply Hall. }
  destruct failed; [apply Hshape; try done; [by left|]; unfold tally; by rewrite app_nil_r|].
  destruct err as [e|].
  - apply Hshape; [done|by left|]. exists e. by rewrite verdicts_app, Hv.
  - destruct (Herr eq_refl eq_refl) as [Hfin ->]. cbn [pred]. apply Hshape; [done|by right|]. unfold tally.
    rewrite verdicts_app, Hv. split; [done|]. by destruct (bool_decide _).
Qed.

Lemma checking_move seen ev effs key phases phases' todo todo' pending failed allowed v effs' :
  v_declared v = declared -> declared <> [] -> checking_ok seen effs key phases todo pending failed allowed ->
  verdicts effs' = [] -> (length phases' <= length declared)%nat -> todo' = drop (length phases') declared ->
  (length todo' + open_phases phases' = length todo + open_phases phases)%nat ->
  (forall j ph, phases' !! j = Some ph -> phases !! j = Some ph \/ phase_ok (seen ++ [ev]) (effs ++ effs') key failed allowed j ph) ->
  v_ok (seen ++ [ev]) (effs ++ effs') (at_stage (Checking key phases' todo' pending failed allowed) v).
Proof.
  intros Hd Hne ((Hk & id & Hin & Hid) & Hlen & Htodo & Hph & Hal & Ht) Hv' Hl' Ht' Hopen Hnew. split; [done|]. split; [done|]. cbn. unfold checking_ok.
  split_and!; try done.
  - split; [done|]. exists id. rewrite elem_of_app. auto.
  - intros j ph Hj. destruct (Hnew j ph Hj) as [H|H]; [|done]. by apply (phase_more seen effs key failed allowed); [apply Hph|..].
  - unfold tally in *. by rewrite Hopen, verdicts_app, Hv', app_nil_r.
Qed.

Lemma v_idle seen ev effs v : v_ok seen effs v -> v_ok (seen ++ [ev]) (effs ++ []) v.
Proof.
  intros Hok. pose proof Hok as (Hd & Hne & Hs). destruct v as [name path decl st]. cbn in *. subst decl.
  destruct st as [|key phases todo pending failed allowed|]; [by rewrite app_nil_r| |by rewrite app_nil_r].
  apply (checking_move seen ev effs key phases phases todo todo pending failed allowed (mkV name path declared Over) []); try done.
  - by destruct Hs as (_ & ? & _).
  - by destruct Hs as (_ & _ & ? & _).
  - intros; by left.
Qed.

(** What [finish] needs of a phase that is open. *)
Lemma finish_open seen ev effs key phases todo pending failed allowed allowed' i ph err v :
  v_declared v = declared -> declared <> [] -> checking_ok seen effs key phases todo pending failed allowed ->
  phases !! i = Some ph -> is_open ph = true ->
  (forall s, s ∈ allowed -> s ∈ allowed') -> (forall s, s ∈ allowed' -> JStr s ∈ declared) ->
  (err = None -> exists s, authorized_at (seen ++ [ev]) effs key i s /\ s ∈ allowed') ->
  let x := finish i err key phases todo pending failed allowed' v in v_ok (seen ++ [ev]) (effs ++ x.2) x.1.
Proof.
  intros Hd Hne ((Hk & id & Hin & Hid) & Hlen & Htodo & Hph & Hal & Ht) Hi Ho Hsub Hal' Hauth.
  pose proof (open_pos i ph phases Hi Ho) as Hpos. apply finish_ok; try done.
  - split; [done|]. exists id. rewrite elem_of_app. auto.
  - split; [by eapply lookup_lt_Some|done].
  - intros j ph' _ Hj. rewrite <- (app_nil_r effs). by apply (phase_more seen effs key failed allowed); [apply Hph|..].
  - unfold tally in Ht. destruct failed; [done|]. destruct Ht as [_ ->]. rewrite bool_decide_eq_false_2; [done|lia].
  - intros He Hf. split; [by apply Hauth|]. unfold tally in Ht. rewrite Hf in Ht. destruct Ht as [-> _].
    rewrite (open_insert i Finished phases ph Hi Ho). cbn. lia.
Qed.

Lemma finish_error seen ev effs key phases todo pending failed allowed i ph e v :
  v_declared v = declared -> declared <> [] -> checking_ok seen effs key phases todo pending failed allowed ->
  phases !! i = Some ph -> is_open ph = true ->
  let x := finish i (Some e) key phases todo pending failed allowed v in v_ok (seen ++ [ev]) (effs ++ x.2) x.1.
Proof. intros Hd Hne Hch Hi Ho. eapply finish_open; try done. by destruct Hch as (_ & _ & _ & _ & ? & _). Qed.

Lemma identified_ok seen r effs v : v_ok seen effs v -> v_stage v = AwaitIdentity ->
  let x := identified authConfigPath r v in v_ok (seen ++ [Identified r]) (effs ++ x.2) x.1.
Proof.
  intros (Hd & Hne & Hs) Hst. rewrite Hst in Hs. unfold identified.
  assert (Hover : forall e, v_ok (seen ++ [Identified r]) (effs ++ [Verdict (Invalid e)]) (at_stage Over v)).
  { intros e. split; [done|]. split; [done|]. cbn. exists e. by rewrite verdicts_app, Hs. }
  destruct r as [e|id]; [apply Hover|]. destruct (i_conflicts id) as [ks|] eqn:Ec; [apply Hover|].
  destruct (is_nullish (i_apiKey id)) eqn:En; [apply Hover|]. cbn [fst snd]. rewrite app_nil_r.
  split; [done|]. split; [done|]. cbn. rewrite Hd. unfold checking_ok. split_and!; try done.
  - split; [done|]. exists id. rewrite elem_of_app, list_elem_of_singleton. auto.
  - cbn. lia.
  - intros s Hin. by apply not_elem_of_nil in Hin.
  - split; [cbn; unfold open_phases; cbn; lia|]. rewrite Hs, bool_decide_eq_false_2; [done|]. destruct declared; [done|]. cbn. lia.
Qed.

Lemma next_ok seen effs key phases address todo pending failed allowed v :
  v_stage v = Checking key phases (address :: todo) pending failed allowed -> v_ok seen effs v ->
  let x := vstep Next v in v_ok (seen ++ [Next]) (effs ++ x.2) x.1.
Proof.
  intros Hst (Hd & Hne & Hok). rewrite Hst in Hok. unfold v_step. rewrite Hst. pose proof Hok as (Hid & Hlen & Htodo & Hph & Hal & Ht).
  assert (Ha : declared !! length phases = Some address).
  { rewrite <- (Nat.add_0_r (length phases)), <- lookup_drop, <- Htodo. done. }
  assert (Hlt : (length phases < length declared)%nat) by (by eapply lookup_lt_Some).
  assert (Htl : todo = drop (S (length phases)) declared) by (rewrite (drop_S _ _ _ Ha) in Htodo; by injection Htodo).
  destruct (parseAddress address) as [p|] eqn:Ep; cbn [fst snd].
  - apply (checking_move seen Next effs key phases _ (address :: todo)); try done; rewrite ?length_app; cbn; [lia|by rewrite Nat.add_1_r|rewrite open_app; unfold open_phases; cbn; lia|].
    intros j ph Hj. apply lookup_app_Some in Hj as [Hj|[Hge Hj]]; [by left|right].
    apply list_lookup_singleton_Some in Hj as [Hj <-]. assert (j = length phases) as -> by lia.
    destruct (parse_string _ _ Ep) as [s ->]. by exists s.
  - apply finish_ok; try done.
    + destruct Hid as (Hk & id & Hin & ?). split; [done|]. exists id. rewrite elem_of_app. auto.
    + rewrite length_app. cbn. lia.
    + rewrite length_app. cbn. by rewrite Nat.add_1_r.
    + intros j ph Hj Hl. apply lookup_app_Some in Hl as [Hl|[Hge Hl]].
      * rewrite <- (app_nil_r effs). by apply (phase_more seen effs key failed allowed); [apply Hph|..].
      * apply list_lookup_singleton_Some in Hl as [Hl _]. lia.
    + unfold tally in Ht. destruct failed; [done|]. destruct Ht as [_ ->]. rewrite bool_decide_eq_false_2; [done|cbn; lia].
Qed.

Lemma queried_ok seen effs key phases todo pending failed allowed v i r :
  v_stage v = Checking key phases todo pending failed allowed -> v_ok seen effs v ->
  let x := vstep (Queried i r) v in v_ok (seen ++ [Queried i r]) (effs ++ x.2) x.1.
Proof.
  intros Hst Hok. pose proof Hok as (Hd & Hne & Hch). rewrite Hst in Hch. unfold v_step. rewrite Hst.
  destruct (phases !! i) as [[p|p sid|]|] eqn:Ei; try by apply v_idle.
  pose proof Hch as (_ & Hlen & Htodo & Hph & Hal & _). pose proof (Hph _ _ Ei) as [s Hs].
  destruct r as [e|spec]; [by eapply finish_error|]. destruct (resolveAddress spec (Some p)) as [m|sid] eqn:Er; [by eapply finish_error|].
  cbn [fst snd]. apply (checking_move seen _ effs key phases _ todo); try done; rewrite ?length_insert; try done.
  - rewrite (open_insert i _ phases _ Ei eq_refl). cbn. pose proof (open_pos i _ phases Ei eq_refl). lia.
  - intros j ph Hj. apply list_lookup_insert_Some in Hj as [(<- & <- & _)|[_ Hj]]; [right|by left]. split; [by exists s|].
    exists spec. rewrite !elem_of_app, !list_elem_of_singleton. auto.
Qed.

Lemma authed_ok seen effs key phases todo pending failed allowed v i r :
  v_stage v = Checking key phases todo pending failed allowed -> v_ok seen effs v ->
  let x := vstep (Authed i r) v in v_ok (seen ++ [Authed i r]) (effs ++ x.2) x.1.
Proof.
  intros Hst Hok. pose proof Hok as (Hd & Hne & Hch). rewrite Hst in Hch. unfold v_step. rewrite Hst.
  destruct (phases !! i) as [[p|p sid|]|] eqn:Ei; try by apply v_idle.
  pose proof Hch as (_ & Hlen & Htodo & Hph & Hal & _). pose proof (Hph _ _ Ei) as [[s [Hs Hp]] (spec & Hq & Hr & Ha)].
  destruct r as [e|result]; [by eapply finish_error|]. destruct (a_ok result) eqn:Eo; cbn [negb]; [|by eapply finish_error].
  assert (Hat : address_at i v = JStr s) by (unfold address_at; by rewrite Hd, Hs). rewrite Hat.
  eapply finish_open; eauto.
  - intros s' Hin. apply elem_of_app. by left.
  - intros s' [Hin|Hin]%elem_of_app; [by apply Hal|]. apply list_elem_of_singleton in Hin as ->. cbn. by eapply list_elem_of_lookup_2.
  - intros _. exists s. split; [|apply elem_of_app; right; by apply list_elem_of_singleton]. exists p, sid, result.
    split_and!; [done| |apply elem_of_app; right; by apply list_elem_of_singleton|done]. exists spec. rewrite elem_of_app. auto.
Qed.

Lemma v_step_ok seen ev effs v : v_ok seen effs v -> let x := vstep ev v in v_ok (seen ++ [ev]) (effs ++ x.2) x.1.
Proof.
  intros Hok. destruct (v_stage v) as [|key phases todo pending failed allowed|] eqn:Est.
  - unfold v_step. rewrite Est. destruct ev; try by apply v_idle. by apply identified_ok.
  - destruct ev as [r| |i r|i r]; [|destruct todo|by eapply queried_ok|by eapply authed_ok].
    + unfold v_step. rewrite Est. by apply v_idle.
    + unfold v_step. rewrite Est. by apply v_idle.
    + by eapply next_ok.
  - unfold v_step. rewrite Est. by destruct ev; apply v_idle.
Qed.

Lemma v_run_ok evs : forall seen effs v, v_ok seen effs v -> let x := vrun v evs in v_ok (seen ++ evs) (effs ++ x.2) x.1.
Proof.
  induction evs as [|ev evs IH]; intros seen effs v Hok; cbn; [by rewrite !app_nil_r|].
  pose proof (v_step_ok seen ev effs v Hok) as H1. destruct (vstep ev v) as [v1 e1]. cbn [fst snd] in H1.
  specialize (IH _ _ _ H1). destruct (vrun v1 evs) as [v2 e2]. cbn [fst snd] in *. by rewrite <- !app_assoc in IH.
Qed.
End invariant.

Lemma start_v_ok spec packageInfo modulePath :
  let x := verifyComposition has_identities authProvider spec packageInfo modulePath in
  (declared_calls packageInfo = [] /\ x.2 = [Verdict (Bound None)] /\ v_stage x.1 = Over) \/
  v_ok (declared_calls packageInfo) [] x.2 x.1.
Proof.
  unfold verifyComposition. destruct (bool_decide_reflect (length (declared_calls packageInfo) = 0%nat)) as [E|E].
  { left. split_and!; [by apply nil_length_inv|done|done]. }
  right. assert (Hne : declared_calls packageInfo <> []) by (intros H; by rewrite H in E).
  destruct (is_nullish _); [split; [done|]; split; [done|]; by eexists|].
  destruct has_identities; (split; [done|]; split; [done|]); [done|by eexists].
Qed.

Lemma over_run v evs : v_stage v = Over -> vrun v evs = (v, []).
Proof.
  intros Hst. induction evs as [|ev evs IH]; [done|]. cbn. assert (vstep ev v = (v, [])) as ->.
  { unfold v_step. rewrite Hst. by destruct ev. }
  by rewrite IH.
Qed.

Lemma v_all_ok spec packageInfo modulePath evs :
  let x := vall spec packageInfo modulePath evs in
  (declared_calls packageInfo = [] /\ x.2 = [Verdict (Bound None)]) \/ v_ok (declared_calls packageInfo) evs x.2 x.1.
Proof.
  pose proof (start_v_ok spec packageInfo modulePath) as H0. unfold v_all.
  destruct (verifyComposition has_identities authProvider spec packageInfo modulePath) as [v e]. cbn [fst snd] in *.
  destruct H0 as [(Hd & -> & Hst)|Hok].
  - left. by rewrite (over_run v evs Hst).
  - right. pose proof (v_run_ok _ evs [] e v Hok) as H1. by destruct (vrun v evs).
Qed.

(** The verdicts there can be. *)
Lemma verdict_cases spec packageInfo modulePath evs :
  let x := vall spec packageInfo modulePath evs in
  let declared := declared_calls packageInfo in
  (declared = [] /\ verdicts x.2 = [Verdict (Bound None)]) \/
  (declared <> [] /\ (
    (verdicts x.2 = [] /\ forall key phases pending failed allowed,
       v_stage x.1 = Checking key phases [] pending failed allowed -> open_phases phases <> 0%nat) \/
    (exists e, verdicts x.2 = [Verdict (Invalid e)]) \/
    (exists key allowed, verdicts x.2 = [Verdict (Bound (Some (mkComposition key allowed)))] /\
       identified_by evs key /\ (forall s, s ∈ allowed -> JStr s ∈ declared) /\
       forall i a, declared !! i = Some a -> exists s, a = JStr s /\ s ∈ allowed /\ authorized_at declared evs x.2 key i s))).
Proof.
  intros x declared. destruct (v_all_ok spec packageInfo modulePath evs) as [(Hd & E)|(Hd & Hne & Hs)].
  { left. fold x in E. by rewrite E. }
  right. split; [done|]. fold x in Hs, Hd. fold declared in Hs, Hd, Hne.
  destruct (v_stage x.1) as [|key phases todo pending failed allowed|] eqn:Est; [by left| |by right; left].
  destruct Hs as (Hid & Hlen & Htodo & Hph & Hal & Ht). unfold tally in Ht. destruct failed; [by right; left|].
  destruct Ht as [-> Hv]. destruct (bool_decide_reflect ((length todo + open_phases phases)%nat = 0%nat)) as [Hz|Hz].
  - right; right. exists key, allowed. split_and!; try done. intros i a Ha.
    assert (Hi : is_Some (phases !! i)).
    { apply lookup_lt_is_Some. apply lookup_lt_Some in Ha. assert (todo = []) as Hnil by (destruct todo; [done|cbn in Hz; lia]).
      rewrite Hnil in Htodo. assert (length (drop (length phases) declared) = 0%nat) as Hl by by rewrite <- Htodo. rewrite length_drop in Hl. lia. }
    destruct Hi as [ph Hi]. assert (ph = Finished) as -> by (destruct ph; try done; pose proof (open_pos i _ phases Hi eq_refl); lia).
    destruct (Hph i _ Hi) as [?|(s & Hs & Hin)]; [done|]. exists s. split_and!; try done. destruct Hs as (p & sid & r & [Hn _] & _). congruence.
  - left. split; [done|]. intros ? ? ? ? ? [= -> -> -> <- <- <-] Ho. cbn in Hz. lia.
Qed.

(** What a binding means. *)
Lemma bound_verified spec packageInfo modulePath evs c :
  let x := vall spec packageInfo modulePath evs in let declared := declared_calls packageInfo in
  Verdict (Bound (Some c)) ∈ x.2 ->
  identified_by evs (co_identity c) /\
  (forall i a, declared !! i = Some a -> exists s, a = JStr s /\ s ∈ co_allowed c /\ authorized_at declared evs x.2 (co_identity c) i s) /\
  (forall s, s ∈ co_allowed c -> JStr s ∈ declared).
Proof.
  intros x declared Hin%verdict_in. pose proof (verdict_cases spec packageInfo modulePath evs) as Hc. cbv zeta in Hc. fold x declared in Hc.
  destruct Hc as [(_ & E)|(_ & [(E & _)|[[e E]|(key & allowed & E & ? & ? & ?)]])]; rewrite E in Hin;
    [by apply list_elem_of_singleton in Hin|by apply not_elem_of_nil in Hin|by apply list_elem_of_singleton in Hin|].
  apply list_elem_of_singleton in Hin as [= ->]. done.
Qed.

(** C26: Composition verification, whatever the queries and the provider answer
    and in which order: at most one verdict; a module that declares nothing is
    bound to nothing and no other is; a module is bound only to an identity the
    provider gave it without a conflict, and only when every address it declares
    was parsed, its device's spec, as the query gave it, has the one service and
    action it names, and that identity was authenticated for that device,
    service and action and granted; the addresses it is then allowed are exactly
    those; and once every address has been tried there is a verdict. *)
Theorem composition_verified spec packageInfo modulePath evs :
  let x := vall spec packageInfo modulePath evs in
  let declared := declared_calls packageInfo in
  (length (verdicts x.2) <= 1)%nat /\
  (Verdict (Bound None) ∈ x.2 <-> declared = []) /\
  (forall c, Verdict (Bound (Some c)) ∈ x.2 ->
     identified_by evs (co_identity c) /\
     (forall i a, declared !! i = Some a -> exists s, a = JStr s /\ s ∈ co_allowed c /\ authorized_at declared evs x.2 (co_identity c) i s) /\
     (forall s, s ∈ co_allowed c -> JStr s ∈ declared)) /\
  (declared <> [] -> forall key phases pending failed allowed, v_stage x.1 = Checking key phases [] pending failed allowed ->
     open_phases phases = 0%nat -> length (verdicts x.2) = 1%nat).
Proof.
  intros x declared. split; [|split; [|split; [intros c; apply bound_verified|]]];
    pose proof (verdict_cases spec packageInfo modulePath evs) as Hc; cbv zeta in Hc; fold x declared in Hc.
  - destruct Hc as [(_ & ->)|(_ & [(-> & _)|[[e ->]|(key & allowed & -> & _)]])]; cbn; lia.
  - split.
    + intros Hin%verdict_in. destruct Hc as [(? & _)|(_ & [(E & _)|[[e E]|(key & allowed & E & _)]])]; [done|..]; rewrite E in Hin;
        [by apply not_elem_of_nil in Hin|by apply list_elem_of_singleton in Hin|by apply list_elem_of_singleton in Hin].
    + intros Hd. destruct Hc as [(_ & E)|[? _]]; [|done]. apply list_elem_of_In, (List.filter_In is_verdict).
      fold (verdicts x.2). rewrite E. by left.
  - intros Hne key phases pending failed allowed Hst Ho.
    destruct Hc as [(? & _)|(_ & [(_ & H)|[[e ->]|(k & al & -> & _)]])]; [done| |done|done]. by destruct (H _ _ _ _ _ Hst).
Qed.
End proofs.

(** ** A pass *)

Definition to_deliver (e : string * (nat * delivery)) : bool := match e.2.2 with Delivered => false | _ => true end.
Definition undelivered (l : list (string * (nat * delivery))) : nat := length (List.filter to_deliver l).
Definition is_ready (e : pass_effect) : bool := match e with ReadyLine => true | _ => false end.
Definition readies (effs : list pass_effect) : nat := length (List.filter is_ready effs).

Arguments undelivered : simpl never.
Arguments readies : simpl never.

Lemma readies_app a b : readies (a ++ b) = (readies a + readies b)%nat.
Proof. unfold readies. by rewrite List.filter_app, length_app. Qed.

(** Moving one device's verdict on. *)
Lemma undelivered_set id w st st' l : assoc id l = Some (w, st) -> st <> Delivered ->
  undelivered (assoc_set id (w, st') l) = (pred (undelivered l) + match st' with Delivered => 0 | _ => 1 end)%nat /\
  (0 < undelivered l)%nat /\ map (fun e => (e.1, e.2.1)) (assoc_set id (w, st') l) = map (fun e => (e.1, e.2.1)) l.
Proof.
  intros Hl Hst. induction l as [|[k [w0 st0]] l IH]; [done|]. cbn in *. destruct (String.eqb_spec id k) as [->|Hne].
  - injection Hl as -> ->. unfold undelivered. cbn. destruct st, st'; cbn; try done; repeat split; lia.
  - destruct (IH Hl) as (H1 & H2 & H3). unfold undelivered in *. cbn. rewrite H3. destruct (to_deliver (k, (w0, st0))); cbn; repeat split; lia.
Qed.

(** What a pass has done, by the verdicts and acknowledgements it has seen. *)
Definition pass_ok (devices : list (string * nat)) (reverify : bool) (seen : list pass_event) (effs : list pass_effect) (p : pass) : Prop :=
  p_reverify p = reverify /\ map (fun e => (e.1, e.2.1)) (p_devices p) = devices /\ p_left p = undelivered (p_devices p) /\
  readies effs = (if bool_decide (p_left p = 0%nat) then 1 else 0)%nat /\
  (forall w id ident allowed, SetComposition w id ident allowed ∈ effs -> (id, w) ∈ devices /\
     exists r, Verified id r ∈ seen /\
     match r with
     | Invalid _ => reverify = true /\ ident = JNull /\ allowed = None
     | Bound c => ident = match c with Some c => co_identity c | None => JNull end /\ allowed = option_map co_allowed c
     end) /\
  (forall id w, Purge id w ∈ effs -> reverify = false /\ (id, w) ∈ devices /\ exists e, Verified id (Invalid e) ∈ seen).

Definition plain (effs : list pass_effect) : Prop := forall e, e ∈ effs -> match e with SetComposition _ _ _ _ | Purge _ _ => False | _ => True end.

Lemma assoc_device id w st (l : list (string * (nat * delivery))) :
  assoc id l = Some (w, st) -> (id, w) ∈ map (fun e => (e.1, e.2.1)) l.
Proof.
  induction l as [|[k v] l IH]; [done|]. cbn. destruct (String.eqb_spec id k) as [->|]; [intros [= ->]; by left|intros H; right; by apply IH].
Qed.

Lemma pass_idle devices reverify seen ev effs p : pass_ok devices reverify seen effs p -> pass_ok devices reverify (seen ++ [ev]) (effs ++ []) p.
Proof.
  intros (H1 & H2 & H3 & H4 & H5 & H6). rewrite app_nil_r. split_and!; try done.
  - intros w id ident allowed Hin. destruct (H5 w id ident allowed Hin) as (? & r & ? & ?). split; [done|]. exists r. rewrite elem_of_app. auto.
  - intros id w Hin. destruct (H6 id w Hin) as (? & ? & e & ?). split_and!; try done. exists e. rewrite elem_of_app. auto.
Qed.

(** A verdict on its way, and a verdict delivered. *)
Lemma relaying_ok devices reverify seen effs p id w st clearing more :
  pass_ok devices reverify seen effs p -> assoc id (p_devices p) = Some (w, st) -> st <> Delivered -> readies more = 0%nat ->
  (forall w' id' ident allowed, SetComposition w' id' ident allowed ∈ more -> (id', w') ∈ devices /\
     exists r, Verified id' r ∈ seen /\
     match r with
     | Invalid _ => reverify = true /\ ident = JNull /\ allowed = None
     | Bound c => ident = match c with Some c => co_identity c | None => JNull end /\ allowed = option_map co_allowed c
     end) -> (forall id' w', Purge id' w' ∉ more) ->
  pass_ok devices reverify seen (effs ++ more) (relaying id w clearing p).
Proof.
  intros (H1 & H2 & H3 & H4 & H5 & H6) Ha Hst Hm Hset Hpurge.
  destruct (undelivered_set id w st (Relaying clearing) _ Ha Hst) as (U1 & U2 & U3).
  split_and!; cbn; [done|by rewrite U3|by rewrite U1, H3; lia| | |].
  - rewrite readies_app, H4, Hm. lia.
  - intros w' id' ident allowed [Hin|Hin]%elem_of_app; [by apply H5|by apply Hset].
  - intros id' w' [Hin|Hin]%elem_of_app; [by apply H6|by apply Hpurge in Hin].
Qed.

Lemma delivered_ok devices reverify seen effs p id w st more :
  pass_ok devices reverify seen effs p -> assoc id (p_devices p) = Some (w, st) -> st <> Delivered -> readies more = 0%nat ->
  (forall w' id' ident allowed, SetComposition w' id' ident allowed ∉ more) ->
  (forall id' w', Purge id' w' ∈ more -> reverify = false /\ (id', w') ∈ devices /\ exists e, Verified id' (Invalid e) ∈ seen) ->
  let x := verdictDelivered id w p in pass_ok devices reverify seen (effs ++ more ++ x.2) x.1.
Proof.
  intros (H1 & H2 & H3 & H4 & H5 & H6) Ha Hst Hm Hset Hpurge. unfold verdictDelivered.
  destruct (undelivered_set id w st Delivered _ Ha Hst) as (U1 & U2 & U3).
  assert (Hp : forall e, e ∈ (if bool_decide (pred (p_left p) = 0%nat) then [ReadyLine] else []) -> e = ReadyLine).
  { intros e. destruct (bool_decide (pred (p_left p) = 0%nat)); [by intros ?%list_elem_of_singleton|by intros ?%not_elem_of_nil]. }
  split_and!; cbn; [done|by rewrite U3|rewrite U1, H3; lia| | |].
  - rewrite !readies_app, H4, Hm. rewrite bool_decide_eq_false_2 by lia. by destruct (bool_decide (pred (p_left p) = 0%nat)).
  - intros w' id' ident allowed [Hin|[Hin|Hin]%elem_of_app]%elem_of_app; [by apply H5|by apply Hset in Hin|by apply Hp in Hin].
  - intros id' w' [Hin|[Hin|Hin]%elem_of_app]%elem_of_app; [by apply H6|by apply Hpurge|by apply Hp in Hin].
Qed.

Lemma pass_step_ok devices reverify seen ev effs p : pass_ok devices reverify seen effs p ->
  let x := pass_step ev p in pass_ok devices reverify (seen ++ [ev]) (effs ++ x.2) x.1.
Proof.
  intros Hok. pose proof Hok as (H1 & H2 & _). pose proof (pass_idle devices reverify seen ev effs p Hok) as Hid. rewrite app_nil_r in Hid.
  unfold pass_step. destruct ev as [id r|id relayErr]; destruct (assoc id (p_devices p)) as [[w [|clearing|]]|] eqn:Ea;
    try (cbn [fst snd]; by rewrite app_nil_r).
  - assert (Hd : (id, w) ∈ devices) by (rewrite <- H2; by eapply assoc_device).
    assert (Hs : Verified id r ∈ seen ++ [Verified id r]) by (apply elem_of_app; right; by apply list_elem_of_singleton).
    destruct r as [e|c]; [rewrite H1; destruct reverify|].
    + eapply relaying_ok; try done.
      * intros w' id' ident allowed Hin. apply elem_of_cons in Hin as [?|[= -> -> -> ->]%list_elem_of_singleton]; [done|]. split; [done|]. by exists (Invalid e).
      * intros id' w' Hin. apply elem_of_cons in Hin as [?|?%list_elem_of_singleton]; done.
    + pose proof (delivered_ok devices false _ effs p id w Verifying [LogFailure e; Purge id w] Hid Ea) as H.
      destruct (verdictDelivered id w p) as [p' es]. apply H; try done.
      * intros w' id' ident allowed Hin. apply elem_of_cons in Hin as [?|?%list_elem_of_singleton]; done.
      * intros id' w' Hin. apply elem_of_cons in Hin as [?|[= -> ->]%list_elem_of_singleton]; [done|]. eauto.
    + eapply relaying_ok; try done.
      * intros w' id' ident allowed [= -> -> -> ->]%list_elem_of_singleton. split; [done|]. by exists (Bound c).
      * by intros id' w' ?%list_elem_of_singleton.
  - pose proof (delivered_ok devices reverify _ effs p id w (Relaying clearing)
      (match relayErr with Some m => [LogFailure (relay_failure clearing id m)] | None => [] end) Hid Ea) as H.
    destruct (verdictDelivered id w p) as [p' es]. apply H; [done|by destruct relayErr|..].
    + intros w' id' ident allowed Hin. destruct relayErr; [by apply list_elem_of_singleton in Hin|by apply not_elem_of_nil in Hin].
    + intros id' w' Hin. destruct relayErr; [by apply list_elem_of_singleton in Hin|by apply not_elem_of_nil in Hin].
Qed.

Lemma pass_run_ok devices reverify evs : forall seen effs p, pass_ok devices reverify seen effs p ->
  let x := pass_run p evs in pass_ok devices reverify (seen ++ evs) (effs ++ x.2) x.1.
Proof.
  induction evs as [|ev evs IH]; intros seen effs p Hok; cbn; [by rewrite !app_nil_r|].
  pose proof (pass_step_ok _ _ seen ev effs p Hok) as H1. destruct (pass_step ev p) as [p1 e1]. cbn [fst snd] in H1.
  specialize (IH _ _ _ H1). destruct (pass_run p1 evs) as [p2 e2]. cbn [fst snd] in *. by rewrite <- !app_assoc in IH.
Qed.

Lemma new_pass_ok devices reverify :
  pass_ok devices reverify [] (new_pass reverify devices).2 (new_pass reverify devices).1.
Proof.
  unfold new_pass. cbn. split_and!; cbn.
  - done.
  - rewrite map_map. cbn. induction devices as [|[id w] l IH]; [done|]. cbn. by rewrite IH.
  - unfold undelivered. induction devices as [|[id w] l IH]; [done|]. cbn. by rewrite IH.
  - by destruct (bool_decide (length devices = 0%nat)).
  - intros w id ident allowed. destruct (bool_decide _); [by intros ?%list_elem_of_singleton|by intros ?%not_elem_of_nil].
  - intros id w. destruct (bool_decide _); [by intros ?%list_elem_of_singleton|by intros ?%not_elem_of_nil].
Qed.

(** A pass over the devices, whatever order their verdicts and their
    workers' acknowledgements come in: the server is said to be ready exactly
    when the last device's verdict has been delivered, and once; a device's
    worker is told only the verdict that came for that device, with the
    identity and addresses it bound, or nothing when it failed; and a device is
    purged only for its own failed verdict, and never on a re-verification. *)
Theorem verdicts_delivered devices reverify evs :
  let x0 := new_pass reverify devices in let x := pass_run x0.1 evs in let effs := x0.2 ++ x.2 in
  readies effs = (if bool_decide (undelivered (p_devices x.1) = 0%nat) then 1 else 0)%nat /\
  (forall w id ident allowed, SetComposition w id ident (Some allowed) ∈ effs ->
     (id, w) ∈ devices /\ exists c, Verified id (Bound (Some c)) ∈ evs /\ ident = co_identity c /\ allowed = co_allowed c) /\
  (forall w id ident, SetComposition w id ident None ∈ effs -> (id, w) ∈ devices /\ ident = JNull) /\
  (forall id w, Purge id w ∈ effs -> reverify = false /\ (id, w) ∈ devices /\ exists e, Verified id (Invalid e) ∈ evs).
Proof.
  intros x0 x effs. destruct (pass_run_ok devices reverify evs [] _ _ (new_pass_ok devices reverify)) as (_ & _ & Hl & Hr & Hs & Hp).
  split_and!.
  - unfold effs, x, x0. by rewrite <- Hl.
  - intros w id ident allowed Hin. destruct (Hs w id ident (Some allowed) Hin) as (Hd & [e|[c|]] & Hv & Hc);
      [by destruct Hc as (_ & _ & [=])|destruct Hc as [-> [= ->]]|by destruct Hc as [_ [=]]]. split; [done|]. by exists c.
  - intros w id ident Hin. destruct (Hs w id ident None Hin) as (Hd & [e|[c|]] & Hv & Hc);
      [by destruct Hc as (_ & -> & _)|by destruct Hc as [_ [=]]|by destruct Hc as [-> _]].
  - exact Hp.
Qed.

(** ** A concrete verification *)

Definition target_spec : jsval :=
  JObj [("device", JObj [("friendlyName", JStr "b");
    ("serviceList", JObj [("urn:svc:echo", JObj [("actionList", JArr [JObj [("name", JStr "say")]])])])])].
Definition composing : jsval := JObj [("countinghouse", JObj [("calls", JArr [JStr "b/echo.say"])])].
Definition composing_spec : jsval := JObj [("device", JObj [("friendlyName", JStr "a")])].
Definition the_identity : identity := mkIdentity (JStr "key-a") None.

Definition demo_answers : list event :=
  [Identified (inr the_identity); Next; Queried 0 (inr target_spec); Authed 0 (inr (granted (JStr "ann") false))].

Lemma composition_verified_witness :
  let x := v_all true "file" "auth.json" (fun n => n) composing_spec composing (JStr "/m") demo_answers in
  x.2 = [AskIdentity (JStr "a"); Query 0 "b"; Authenticate 0 (JStr "key-a") "b" "urn:svc:echo" "say";
         Verdict (Bound (Some (mkComposition (JStr "key-a") ["b/echo.say"])))] /\
  (forall i a, declared_calls composing !! i = Some a -> exists s, a = JStr s /\ s ∈ ["b/echo.say"]).
Proof.
  set (x := v_all true "file" "auth.json" (fun n => n) composing_spec composing (JStr "/m") demo_answers).
  assert (E : x.2 = [AskIdentity (JStr "a"); Query 0 "b"; Authenticate 0 (JStr "key-a") "b" "urn:svc:echo" "say";
         Verdict (Bound (Some (mkComposition (JStr "key-a") ["b/echo.say"])))]) by (vm_compute; reflexivity).
  split; [exact E|].
  destruct (composition_verified true "file" "auth.json" (fun n => n) composing_spec composing (JStr "/m") demo_answers) as (_ & _ & H & _).
  intros i a Ha. destruct (H (mkComposition (JStr "key-a") ["b/echo.say"])) as (_ & Hall & _).
  - fold x. rewrite E. right; right; right; left.
  - destruct (Hall i a Ha) as (s & ? & ? & _). by exists s.
Defined.

Lemma verdicts_delivered_witness :
  let devices := [("id-a", 0%nat); ("id-b", 1%nat)] in let c := mkComposition (JStr "key-a") ["b/echo.say"] in
  let evs := [Verified "id-a" (Bound (Some c)); Verified "id-b" (Bound None); Relayed "id-b" None; Relayed "id-a" None] in
  let effs := (new_pass false devices).2 ++ (pass_run (new_pass false devices).1 evs).2 in
  effs = [SetComposition 0 "id-a" (JStr "key-a") (Some ["b/echo.say"]); SetComposition 1 "id-b" JNull None; ReadyLine] /\
  ("id-a", 0%nat) ∈ devices.
Proof.
  intros devices c evs effs. assert (E : effs = [SetComposition 0 "id-a" (JStr "key-a") (Some ["b/echo.say"]);
    SetComposition 1 "id-b" JNull None; ReadyLine]) by (vm_compute; reflexivity).
  split; [exact E|]. destruct (verdicts_delivered devices false evs) as (_ & H & _).
  destruct (H 0%nat "id-a" (JStr "key-a") ["b/echo.say"]) as [Hin _]; [fold effs; rewrite E; left|exact Hin].
Defined.
