(* ===== verification/CtxCall.v ===== *)
(** * Composition from a handler (lib/handler-ctx.js, the clients of
    lib/query-device.js and lib/service-client.js)

    [ctx.call] of a handler in a worker: its refusals, the spec it asks for,
    the client it takes from the device's cache or has made, and the hop that
    client sends, authorized as the module and billed to the caller. *)
From Stdlib Require Import ZArith Lia Ascii String.
From stdpp Require Import prelude strings gmap.
From S2P Require Import Prelude Json Errors Address Composition.

Set Default Proof Using "Type".

(** ** The device *)

(** A [ServiceClient] over the worker's messages. *)
Record client := mkClient { cl_appKey : jsval; cl_deviceID : jsval; cl_serviceID : jsval; cl_billingKey : jsval }.

(** [_composition], when it is not null. *)
Record bound := mkBound { b_identity : jsval; b_allowed : option (list string) }.

Record device := mkDevice {
  d_settled : bool;                        (* [_compositionSettled] *)
  d_composition : option bound;
  d_clients : list (string * client)       (* [_ctxServiceClients] *)
}.

Definition new_device : device := mkDevice false None [].

(** [setComposition], with what 'set-composition' carries. *)
Definition setComposition (identity : jsval) (allowed : option (list string)) (d : device) : device :=
  mkDevice true (if is_nullish identity then None else Some (mkBound identity allowed)) (d_clients d).

(** [callerIdentityOf]: the key of the call's caller. *)
Definition callerKey (args : jsval) : jsval :=
  let k := jget "appKey" (jget "ctx" args) in if is_nullish k then JNull else k.

(** ** Clients *)

Definition cache_key (deviceID serviceID as_ : jsval) : string :=
  js_text deviceID +:+ "|" +:+ js_text serviceID +:+ "|" +:+ js_text as_.

Definition cache (key : string) (c : client) (d : device) : device :=
  mkDevice (d_settled d) (d_composition d) (assoc_set key c (d_clients d)).

Section ctx.
Context (ErrorInfo : string -> option string) (deviceIDForName : string -> string).

(** How a client is had: at once, refused, or after its device's spec. *)
Inductive client_answer := Ready (c : client) | Refused (e : cherr) | AskDevice (deviceID : jsval).

(** [ctx.serviceClient] *)
Definition serviceClient (deviceID serviceID as_ : jsval) (d : device) : client_answer :=
  if is_nullish as_ then
    Refused (Error_ ("ctx.serviceClient: `as` is required -- it is the identity the " +:+
                     "inner hop is authorized as. Billing goes to ctx.caller automatically."))
  else match assoc (cache_key deviceID serviceID as_) (d_clients d) with
       | Some c => Ready c
       | None =>
           if is_string deviceID && is_string serviceID then AskDevice deviceID
           else Refused (Error_ "must specify deviceID and serviceID")
       end.

(** [QueryDevice.prototype.callback], for what the main thread replied; a spec
    with no device throws. *)
Definition query_client (deviceID serviceID as_ : jsval) (reply : cherr + jsval) : option (cherr + client) :=
  match reply with
  | inl e => Some (inl (Error_ (message_of ErrorInfo e)))
  | inr spec =>
      if is_nullish spec then Some (inl (CHError "NO_VALID_DEVICE_SPEC" [deviceID]))
      else if is_nullish (jget "device" spec) then None
      else
        let serviceList := jget "serviceList" (jget "device" spec) in
        if is_nullish serviceList then Some (inl (CHError "SERVICE_NOT_FOUND" [serviceID]))
        else if existsb (fun s => strict_eq (JStr s) serviceID) (js_keys serviceList)
        then Some (inr (mkClient as_ deviceID serviceID as_))
        else Some (inl (CHError "SERVICE_NOT_FOUND" [serviceID]))
  end.

(** [queryDeviceSpec]'s [relay] *)
Definition relay (deviceID : string) (reply : cherr + jsval) : cherr + jsval :=
  match reply with
  | inl e => inl (Error_ (message_of ErrorInfo e))
  | inr spec =>
      if is_nullish spec || is_nullish (jget "device" spec) then inl (CHError "NO_VALID_DEVICE_SPEC" [JStr deviceID])
      else inr spec
  end.

(** ** One call *)

Inductive phase :=
| AwaitSpec (p : address)
| AwaitClient (p : address) (serviceID : string)
| AwaitReply
| Settled.

Record ccall := mkCCall {
  k_caller : jsval;            (* [caller.apiKey] *)
  k_address : jsval;
  k_input : jsval;
  k_detail : bool;
  k_comp : option bound;       (* [comp], as it was when the call was made *)
  k_phase : phase
}.

Definition at_phase (ph : phase) (k : ccall) : ccall := mkCCall (k_caller k) (k_address k) (k_input k) (k_detail k) (k_comp k) ph.

Inductive effect :=
| AskSpec (deviceID : string)
| AskClient (deviceID : string)
| SendHop (appKey billingKey deviceID serviceID : jsval) (actionName : string) (args : jsval)
| Resolve (v : jsval)
| Reject (e : cherr) (fault : option jsval)
| Exception_.

Definition identity_of (k : ccall) : jsval := match k_comp k with Some b => b_identity b | None => JUndef end.

(** [ctx.call], up to the question for the target's spec. *)
Definition ctx_call (d : device) (args address input : jsval) (detail : bool) : ccall * list effect :=
  let k := mkCCall (callerKey args) address input detail (d_composition d) Settled in
  let refuse e := (k, [Reject (DeviceError e [address]) None]) in
  if negb (d_settled d) then refuse "CTX_CALL_NOT_READY"
  else match d_composition d with
       | None => refuse "CTX_CALL_UNBOUND"
       | Some b =>
           if is_nullish (b_identity b) then refuse "CTX_CALL_UNBOUND"
           else match b_allowed b with
                | None => (k, [Reject (Error_ "Cannot read properties of null") None])
                | Some allowed =>
                    if negb (includes (js_text address) allowed) then refuse "CTX_CALL_UNDECLARED"
                    else match parseAddress address with
                         | None => refuse "CTX_CALL_BAD_ADDRESS"
                         | Some p => (at_phase (AwaitSpec p) k, [AskSpec (deviceIDForName (ad_device p))])
                         end
                end
       end.

(** [billingWrapper]'s [invoke] and [ServiceClient.prototype.invoke], the path
    between threads. *)
Definition invoke (c : client) (p : address) (k : ccall) : ccall * list effect :=
  if is_nullish (k_input k) then (at_phase Settled k, [Reject (Error_ "must specify input argument") (Some JNull)])
  else (at_phase AwaitReply k,
        [SendHop (cl_appKey c) (if is_nullish (k_caller k) then cl_billingKey c else k_caller k) (cl_deviceID c) (cl_serviceID c)
           (ad_action p) (JObj [("input", k_input k)])]).

(** The spec came: the client, cached or asked for. *)
Definition on_spec (p : address) (reply : cherr + jsval) (d : device) (k : ccall) : ccall * list effect :=
  let deviceID := deviceIDForName (ad_device p) in
  match relay deviceID reply with
  | inl e => (at_phase Settled k, [Reject e None])
  | inr spec =>
      match resolveAddress spec (Some p) with
      | inl message => (at_phase Settled k, [Reject (DeviceError "CTX_CALL_UNRESOLVED" [JStr message]) None])
      | inr serviceID =>
          match serviceClient (JStr deviceID) (JStr serviceID) (identity_of k) d with
          | Ready c => invoke c p k
          | Refused e => (at_phase Settled k, [Reject e None])
          | AskDevice _ => (at_phase (AwaitClient p serviceID) k, [AskClient deviceID])
          end
      end
  end.

Definition on_client (p : address) (serviceID : string) (reply : cherr + jsval) (d : device) (k : ccall)
  : device * ccall * list effect :=
  let deviceID := JStr (deviceIDForName (ad_device p)) in
  match query_client deviceID (JStr serviceID) (identity_of k) reply with
  | None => (d, at_phase Settled k, [Exception_])
  | Some (inl e) => (d, at_phase Settled k, [Reject e None])
  | Some (inr c) => let '(k', effs) := invoke c p k in (cache (cache_key deviceID (JStr serviceID) (identity_of k)) c d, k', effs)
  end.

(** The hop's reply, its error made safe by [hopError]. *)
Definition on_reply (err : option cherr) (data platformMetering : jsval) (k : ccall) : ccall * list effect :=
  (at_phase Settled k,
   match hopError ErrorInfo err with
   | Some e => [Reject e (Some (if is_nullish data then JNull else data))]
   | None => [Resolve (if k_detail k then JObj [("data", data); ("platformMetering", platformMetering)] else data)]
   end).

(** ** The device and its calls *)

Record world := mkWorld { x_device : device; x_calls : list ccall }.

Inductive heard :=
| SpecReply (r : cherr + jsval)
| ClientReply (r : cherr + jsval)
| HopReply (err : option cherr) (data platformMetering : jsval).

(** What happens in the worker: a verdict is relayed; a handler calls, or has a
    client of its own made; a call hears an answer. *)
Inductive event :=
| SetComposition_ (identity : jsval) (allowed : option (list string))
| CallStarts (args address input : jsval) (detail : bool)
| OwnClient (deviceID serviceID as_ : jsval) (reply : cherr + jsval)
| CallHears (i : nat) (h : heard).

Definition call_hears (h : heard) (d : device) (k : ccall) : device * ccall * list effect :=
  match h, k_phase k with
  | SpecReply r, AwaitSpec p => let '(k', effs) := on_spec p r d k in (d, k', effs)
  | ClientReply r, AwaitClient p serviceID => on_client p serviceID r d k
  | HopReply err data m, AwaitReply => let '(k', effs) := on_reply err data m k in (d, k', effs)
  | _, _ => (d, k, [])
  end.

(** A client a handler asked for itself, once its query is answered. *)
Definition own_client (deviceID serviceID as_ : jsval) (reply : cherr + jsval) (d : device) : device :=
  if is_nullish as_ || negb (is_string deviceID && is_string serviceID) then d
  else match query_client deviceID serviceID as_ reply with
       | Some (inr c) => cache (cache_key deviceID serviceID as_) c d
       | _ => d
       end.

(** Effects are labelled with the call they are of. *)
Definition step (ev : event) (x : world) : world * list (nat * effect) :=
  match ev with
  | SetComposition_ identity allowed => (mkWorld (setComposition identity allowed (x_device x)) (x_calls x), [])
  | CallStarts args address input detail =>
      let '(k, effs) := ctx_call (x_device x) args address input detail in
      (mkWorld (x_device x) (x_calls x ++ [k]), map (pair (length (x_calls x))) effs)
  | OwnClient deviceID serviceID as_ reply => (mkWorld (own_client deviceID serviceID as_ reply (x_device x)) (x_calls x), [])
  | CallHears i h =>
      match x_calls x !! i with
      | None => (x, [])
      | Some k => let '(d, k', effs) := call_hears h (x_device x) k in (mkWorld d (<[i := k']> (x_calls x)), map (pair i) effs)
      end
  end.

Fixpoint run (x : world) (evs : list event) : world * list (nat * effect) :=
  match evs with
  | [] => (x, [])
  | ev :: rest => let '(x1, e1) := step ev x in let '(x2, e2) := run x1 rest in (x2, e1 ++ e2)
  end.
End ctx.

(** ** Lemmas *)

Definition bar : ascii := "|"%char.
Definition barless (s : string) : bool := negb (has_char bar s).

Lemma first_bar a a' r r' : barless a = true -> barless a' = true ->
  a +:+ String bar r = a' +:+ String bar r' -> a = a' /\ r = r'.
Proof.
  revert a'. induction a as [|c a IH]; intros [|c' a'] Ha Ha' E; cbn in *.
  - by injection E.
  - injection E as <- _. unfold barless in Ha'. cbn in Ha'. done.
  - injection E as -> _. unfold barless in Ha. cbn in Ha. done.
  - injection E as <- E. unfold barless in Ha, Ha'. cbn in Ha, Ha'. apply negb_true_iff, orb_false_iff in Ha as [_ Ha], Ha' as [_ Ha'].
    destruct (IH a') as [-> ->]; [unfold barless; by rewrite Ha|unfold barless; by rewrite Ha'|done|done].
Qed.

Lemma last_bar s s' a a' : barless a = true -> barless a' = true ->
  s +:+ String bar a = s' +:+ String bar a' -> s = s' /\ a = a'.
Proof.
  revert s'. induction s as [|c s IH]; intros [|c' s'] Ha Ha' E; cbn in *.
  - by injection E.
  - injection E as _ E. unfold barless in Ha. rewrite E, has_char_app in Ha. cbn in Ha. by rewrite orb_true_r in Ha.
  - injection E as _ E. unfold barless in Ha'. rewrite <- E, has_char_app in Ha'. cbn in Ha'. by rewrite orb_true_r in Ha'.
  - injection E as <- E. by destruct (IH s' Ha Ha' E) as [-> ->].
Qed.

(** A cache key names one target and one identity, when neither the device's id
    nor the identity has the separator in it. *)
Lemma cache_key_inj d s a d' s' a' : barless d = true -> barless a = true -> barless d' = true -> barless a' = true ->
  cache_key (JStr d) (JStr s) (JStr a) = cache_key (JStr d') (JStr s') (JStr a') -> d = d' /\ s = s' /\ a = a'.
Proof.
  unfold cache_key. cbn [js_text]. intros Hd Ha Hd' Ha' E. destruct (first_bar _ _ _ _ Hd Hd' E) as [-> E'].
  destruct (last_bar _ _ _ _ Ha Ha' E') as [-> ->]. done.
Qed.

Definition is_hop (e : effect) : bool := match e with SendHop _ _ _ _ _ _ => true | _ => false end.
Definition is_answer (e : effect) : bool := match e with Resolve _ | Reject _ _ => true | _ => false end.

(** The effects of one call. *)
Definition of_call (i : nat) (effs : list (nat * effect)) : list effect := map snd (List.filter (fun e => (e.1 =? i)%nat) effs).
Definition hops (l : list effect) : nat := length (List.filter is_hop l).
Definition settled (l : list effect) : nat := length (List.filter is_answer l).

Lemma of_call_app i a b : of_call i (a ++ b) = of_call i a ++ of_call i b.
Proof. unfold of_call. by rewrite List.filter_app, map_app. Qed.
Lemma of_call_own i l : of_call i (map (pair i) l) = l.
Proof. unfold of_call. induction l as [|e l IH]; [done|]. cbn. rewrite Nat.eqb_refl. cbn. by rewrite IH. Qed.
Lemma of_call_other i j l : i <> j -> of_call i (map (pair j) l) = [].
Proof. intros Hne. unfold of_call. induction l as [|e l IH]; [done|]. cbn. by destruct (Nat.eqb_spec j i). Qed.
Lemma hops_app a b : hops (a ++ b) = (hops a + hops b)%nat.
Proof. unfold hops. by rewrite List.filter_app, length_app. Qed.
Lemma settled_app a b : settled (a ++ b) = (settled a + settled b)%nat.
Proof. unfold settled. by rewrite List.filter_app, length_app. Qed.
Arguments hops : simpl never.
Arguments settled : simpl never.

(** *** Verifications, and what is relayed of them *)

(** A verification: what it was of, and what came back in it. *)
Record verification_run := mkVRun { vr_spec : jsval; vr_package : jsval; vr_modulePath : jsval; vr_events : list Composition.event }.

(** What is relayed to the worker for a verdict. *)
Definition relayed (r : verdict) : event :=
  match r with
  | Bound c => SetComposition_ (match c with Some c => co_identity c | None => JNull end) (option_map co_allowed c)
  | Invalid _ => SetComposition_ JNull None
  end.

(** It is what a pass relays for it. *)
Lemma pass_relays deviceID r p w w' dev identity allowed :
  assoc deviceID (p_devices p) = Some (w, Verifying) ->
  SetComposition w' dev identity allowed ∈ (pass_step (Verified deviceID r) p).2 ->
  w' = w /\ dev = deviceID /\ SetComposition_ identity allowed = relayed r.
Proof.
  intros Ha. unfold pass_step. rewrite Ha. destruct r as [e|c].
  - destruct (p_reverify p); cbn; [rewrite !elem_of_cons, elem_of_nil|].
    + intros [?|[[= -> -> -> ->]|?]]; done.
    + unfold verdictDelivered. case_bool_decide; cbn; rewrite ?elem_of_cons, ?elem_of_nil; naive_solver.
  - cbn. intros [= -> -> -> ->]%list_elem_of_singleton. done.
Qed.

Section proofs.
Context (ErrorInfo : string -> option string) (deviceIDForName : string -> string).
(** Device ids are UUIDs. *)
Context (ids_barless : forall n, barless (deviceIDForName n) = true).

Local Notation cstep := (step ErrorInfo deviceIDForName).
Local Notation crun := (run ErrorInfo deviceIDForName).

(** Identities are API keys without the separator, and so are the device ids a
    handler names itself. *)
Definition plain_event (ev : event) : Prop :=
  match ev with
  | SetComposition_ identity _ => is_nullish identity = true \/ exists k, identity = JStr k /\ barless k = true
  | OwnClient deviceID _ as_ _ => (exists d, deviceID = JStr d /\ barless d = true) /\ exists k, as_ = JStr k /\ barless k = true
  | _ => True
  end.

Definition client_ok (key : string) (c : client) : Prop :=
  exists d s a, c = mkClient (JStr a) (JStr d) (JStr s) (JStr a) /\ key = cache_key (JStr d) (JStr s) (JStr a) /\
  barless d = true /\ barless a = true.

Definition bound_ok (seen : list event) (b : bound) : Prop :=
  SetComposition_ (b_identity b) (b_allowed b) ∈ seen /\ exists k, b_identity b = JStr k /\ barless k = true.

Definition device_ok (seen : list event) (d : device) : Prop :=
  (forall key c, assoc key (d_clients d) = Some c -> client_ok key c) /\
  (forall b, d_composition d = Some b -> bound_ok seen b).

(** A call's address, allowed by the verdict it was made under. *)
Definition allowed_address (seen : list event) (k : ccall) (p : address) : Prop :=
  exists b allowed s, k_comp k = Some b /\ bound_ok seen b /\ b_allowed b = Some allowed /\ k_address k = JStr s /\
  s ∈ allowed /\ parseAddress (JStr s) = Some p.

Definition resolved (seen : list event) (i : nat) (p : address) (serviceID : string) : Prop :=
  exists spec, CallHears i (SpecReply (inr spec)) ∈ seen /\ resolveAddress spec (Some p) = inr serviceID.

(** The hop a call may send. *)
Definition hop_sent (seen : list event) (i : nat) (k : ccall) (e : effect) : Prop :=
  exists p serviceID, allowed_address seen k p /\ resolved seen i p serviceID /\ is_nullish (k_input k) = false /\
  e = SendHop (identity_of k) (if is_nullish (k_caller k) then identity_of k else k_caller k)
        (JStr (deviceIDForName (ad_device p))) (JStr serviceID) (ad_action p) (JObj [("input", k_input k)]).

Definition call_ok (seen : list event) (i : nat) (k : ccall) (l : list effect) : Prop :=
  (forall e, e ∈ l -> is_hop e = true -> hop_sent seen i k e) /\
  match k_phase k with
  | AwaitSpec p => allowed_address seen k p /\ hops l = 0%nat /\ settled l = 0%nat
  | AwaitClient p serviceID => allowed_address seen k p /\ resolved seen i p serviceID /\ hops l = 0%nat /\ settled l = 0%nat
  | AwaitReply => hops l = 1%nat /\ settled l = 0%nat
  | Settled => (hops l <= 1)%nat /\ (settled l <= 1)%nat
  end.

(** The calls made: their caller's key, their address and their input. *)
Definition made (evs : list event) : list (jsval * jsval * jsval) :=
  omap (fun ev => match ev with CallStarts args address input _ => Some (callerKey args, address, input) | _ => None end) evs.
Definition call_made (k : ccall) : jsval * jsval * jsval := (k_caller k, k_address k, k_input k).

Lemma made_app a b : made (a ++ b) = made a ++ made b.
Proof. apply omap_app. Qed.

Definition world_ok (seen : list event) (effs : list (nat * effect)) (x : world) : Prop :=
  device_ok seen (x_device x) /\
  map call_made (x_calls x) = made seen /\
  (forall i k, x_calls x !! i = Some k -> call_ok seen i k (of_call i effs)) /\
  (forall i, (length (x_calls x) <= i)%nat -> of_call i effs = []).

(** *** More heard keeps what was known *)

Lemma bound_more seen more b : bound_ok seen b -> bound_ok (seen ++ more) b.
Proof. intros [Hin Hk]. split; [|done]. apply elem_of_app. by left. Qed.

Lemma device_more seen more d : device_ok seen d -> device_ok (seen ++ more) d.
Proof. intros [H1 H2]. split; [done|]. intros b Hb. apply bound_more. by apply H2. Qed.

Lemma allowed_more seen more k p : allowed_address seen k p -> allowed_address (seen ++ more) k p.
Proof. intros (b & allowed & s & ? & Hb & ?). exists b, allowed, s. split; [done|]. split; [by apply bound_more|done]. Qed.

Lemma resolved_more seen more i p sid : resolved seen i p sid -> resolved (seen ++ more) i p sid.
Proof. intros (spec & Hin & ?). exists spec. split; [|done]. apply elem_of_app. by left. Qed.

Lemma call_more seen more i k l : call_ok seen i k l -> call_ok (seen ++ more) i k l.
Proof.
  intros [H1 H2]. split.
  - intros e Hin Hh. destruct (H1 e Hin Hh) as (p & sid & ? & ? & ?). exists p, sid. split; [by apply allowed_more|]. split; [by apply resolved_more|done].
  - destruct (k_phase k); destruct_and?; split_and?; auto using allowed_more, resolved_more.
Qed.

(** *** One call *)

(** The identity of a call whose address is allowed is a key without the
    separator. *)
Lemma allowed_identity seen k p : allowed_address seen k p -> exists a, identity_of k = JStr a /\ barless a = true.
Proof. intros (b & allowed & s & Hc & [_ Hk] & _). unfold identity_of. by rewrite Hc. Qed.

Lemma call_answer seen i k l e : call_ok seen i k l -> settled l = 0%nat -> (hops l <= 1)%nat -> is_hop e = false ->
  call_ok seen i (at_phase Settled k) (l ++ [e]).
Proof.
  intros [H1 _] Hs Hh He. split.
  - intros e' [Hin| ->%list_elem_of_singleton]%elem_of_app Hhop; [by apply H1|congruence].
  - cbn. rewrite hops_app, settled_app, Hs. unfold hops at 2, settled. cbn. rewrite He. destruct (is_answer e); cbn; lia.
Qed.

Lemma call_asks seen i k l e ph : call_ok seen i k l -> hops l = 0%nat -> settled l = 0%nat -> is_hop e = false -> is_answer e = false ->
  match ph with
  | AwaitSpec p => allowed_address seen k p
  | AwaitClient p sid => allowed_address seen k p /\ resolved seen i p sid
  | _ => False
  end -> call_ok seen i (at_phase ph k) (l ++ [e]).
Proof.
  intros [H1 _] Hh Hs He Ha Hph. split.
  - intros e' [Hin| ->%list_elem_of_singleton]%elem_of_app Hhop; [by apply H1|congruence].
  - cbn. rewrite !hops_app, !settled_app, Hs, Hh. unfold hops, settled. cbn. rewrite He, Ha. destruct ph; destruct_and?; done.
Qed.

Lemma hop_invoke_ok seen i k l p sid c : call_ok seen i k l -> hops l = 0%nat -> settled l = 0%nat ->
  allowed_address seen k p -> resolved seen i p sid ->
  c = mkClient (identity_of k) (JStr (deviceIDForName (ad_device p))) (JStr sid) (identity_of k) ->
  let x := invoke c p k in call_ok seen i x.1 (l ++ x.2) /\ call_made x.1 = call_made k.
Proof.
  intros Hok Hh Hs Ha Hr ->. unfold invoke. destruct (is_nullish (k_input k)) eqn:Ei; cbn [fst snd].
  - split; [|done]. by apply call_answer; [| |lia|].
  - split; [|done]. pose proof Hok as [H1 _]. split.
    + intros e [Hin| ->%list_elem_of_singleton]%elem_of_app Hhop; [by apply H1|]. exists p, sid. by split_and!.
    + cbn. rewrite hops_app, settled_app, Hh, Hs. done.
Qed.

Lemma serviceClient_ok seen d ds ss a : device_ok seen d -> barless ds = true -> barless a = true ->
  match serviceClient (JStr ds) (JStr ss) (JStr a) d with
  | Ready c => c = mkClient (JStr a) (JStr ds) (JStr ss) (JStr a)
  | Refused _ => False
  | AskDevice _ => True
  end.
Proof.
  intros [Hc _] Hds Ha. unfold serviceClient. cbn [is_nullish is_string andb]. destruct (assoc _ _) as [c|] eqn:E; [|done].
  destruct (Hc _ _ E) as (d' & s' & a' & -> & Hk & Hd' & Ha'). by destruct (cache_key_inj _ _ _ _ _ _ Hds Ha Hd' Ha' Hk) as (-> & -> & ->).
Qed.

Lemma query_client_ok ds ss a reply c : query_client ErrorInfo (JStr ds) (JStr ss) (JStr a) reply = Some (inr c) ->
  c = mkClient (JStr a) (JStr ds) (JStr ss) (JStr a).
Proof. unfold query_client. intros H. by repeat case_match; simplify_eq. Qed.

Lemma cache_ok seen d ds ss a : device_ok seen d -> barless ds = true -> barless a = true ->
  device_ok seen (cache (cache_key (JStr ds) (JStr ss) (JStr a)) (mkClient (JStr a) (JStr ds) (JStr ss) (JStr a)) d).
Proof.
  intros [H1 H2] Hds Ha. split; [|done]. cbn. intros key c. rewrite assoc_set_lookup. destruct (String.eqb_spec key (cache_key (JStr ds) (JStr ss) (JStr a))) as [->|]; [|by apply H1].
  intros [= <-]. by exists ds, ss, a.
Qed.

Lemma on_spec_ok seen i k l p r d : call_ok seen i k l -> device_ok seen d -> k_phase k = AwaitSpec p ->
  CallHears i (SpecReply r) ∈ seen ->
  let x := on_spec ErrorInfo deviceIDForName p r d k in
  call_ok seen i x.1 (l ++ x.2) /\ call_made x.1 = call_made k.
Proof using Type*.
  intros Hok Hd Hph Hin. pose proof Hok as [_ Hp]. rewrite Hph in Hp. destruct Hp as (Ha & Hh & Hs).
  assert (Hrej : forall e, call_ok seen i (at_phase Settled k) (l ++ [Reject e None])) by (intros e; by apply call_answer; [| |lia|]).
  unfold on_spec. destruct (relay ErrorInfo (deviceIDForName (ad_device p)) r) as [e|spec] eqn:Er; [by split; [apply Hrej|]|].
  destruct (resolveAddress spec (Some p)) as [m|sid] eqn:Eres; [by split; [apply Hrej|]|].
  assert (Hr : resolved seen i p sid).
  { exists spec. split; [|done]. unfold relay in Er. destruct r as [e|spec']; [done|]. destruct (is_nullish spec' || _); [done|]. by injection Er as ->. }
  destruct (allowed_identity _ _ _ Ha) as (a & Hid & Hba). rewrite Hid.
  pose proof (serviceClient_ok seen d (deviceIDForName (ad_device p)) sid a Hd (ids_barless _) Hba) as Hsc.
  destruct (serviceClient _ _ _ d) as [c|e|x]; [|done|].
  - apply (hop_invoke_ok seen i k l p sid); try done. by rewrite Hid.
  - split; [|done]. by apply call_asks.
Qed.

Lemma on_client_ok seen i k l p sid r d : call_ok seen i k l -> device_ok seen d -> k_phase k = AwaitClient p sid ->
  let x := on_client ErrorInfo deviceIDForName p sid r d k in
  device_ok seen x.1.1 /\ call_ok seen i x.1.2 (l ++ x.2) /\ call_made x.1.2 = call_made k.
Proof using Type*.
  intros Hok Hd Hph. pose proof Hok as [_ Hp]. rewrite Hph in Hp. destruct Hp as (Ha & Hr & Hh & Hs).
  destruct (allowed_identity _ _ _ Ha) as (a & Hid & Hba). unfold on_client. rewrite Hid.
  destruct (query_client ErrorInfo _ _ _ r) as [[e|c]|] eqn:Eq.
  - split; [done|]. split; [|done]. by apply call_answer; [| |lia|].
  - apply query_client_ok in Eq. subst c.
    pose proof (hop_invoke_ok seen i k l p sid (mkClient (JStr a) (JStr (deviceIDForName (ad_device p))) (JStr sid) (JStr a)) Hok Hh Hs Ha Hr
      ltac:(by rewrite Hid)) as Hi.
    destruct (invoke _ p k) as [k' effs]. cbn [fst snd] in *. split; [|done]. by apply cache_ok.
  - split; [done|]. split; [|done]. by apply call_answer; [| |lia|].
Qed.

Lemma call_hears_ok seen i k l h d : call_ok seen i k l -> device_ok seen d -> CallHears i h ∈ seen ->
  let x := call_hears ErrorInfo deviceIDForName h d k in
  device_ok seen x.1.1 /\ call_ok seen i x.1.2 (l ++ x.2) /\ call_made x.1.2 = call_made k.
Proof using Type*.
  intros Hok Hd Hin. unfold call_hears.
  assert (Hidle : device_ok seen d /\ call_ok seen i k (l ++ []) /\ call_made k = call_made k) by by rewrite app_nil_r.
  destruct h as [r|r|err data m]; destruct (k_phase k) as [p|p sid| |] eqn:Eph; try exact Hidle.
  - pose proof (on_spec_ok seen i k l p r d Hok Hd Eph Hin) as H. by destruct (on_spec ErrorInfo deviceIDForName p r d k).
  - by apply on_client_ok.
  - pose proof Hok as [_ Hp]. rewrite Eph in Hp. destruct Hp as [Hh Hs]. split; [done|]. split; [|done]. cbn [fst snd on_reply].
    unfold on_reply. destruct (hopError ErrorInfo err); (apply call_answer; [done|done|lia|done]).
Qed.

Lemma start_ok_call seen i args address input detail d : device_ok seen d ->
  let x := ctx_call deviceIDForName d args address input detail in
  call_ok seen i x.1 x.2 /\ call_made x.1 = (callerKey args, address, input).
Proof using Type*.
  intros [_ Hd]. unfold ctx_call. set (k := mkCCall _ _ _ _ _ _).
  assert (H0 : call_ok seen i k []) by (split; [intros e Hin; by apply not_elem_of_nil in Hin|split; unfold hops, settled; cbn; lia]).
  assert (Hrej : forall e, call_ok seen i k [Reject e None]) by (intros e; by apply (call_answer seen i k [] (Reject e None)); [| |unfold hops; cbn; lia|]).
  destruct (d_settled d); cbn [negb]; [|by split; [apply Hrej|]]. destruct (d_composition d) as [b|] eqn:Eb; [|by split; [apply Hrej|]].
  destruct (is_nullish (b_identity b)); [by split; [apply Hrej|]|]. destruct (b_allowed b) as [allowed|] eqn:Eal; [|by split; [apply Hrej|]].
  destruct (includes (js_text address) allowed) eqn:Ei; cbn [negb]; [|by split; [apply Hrej|]].
  destruct (parseAddress address) as [p|] eqn:Ep; [|by split; [apply Hrej|]]. split; [|done].
  apply (call_asks seen i k [] (AskSpec _) (AwaitSpec p)); try done. destruct (parse_string _ _ Ep) as [s ->].
  exists b, allowed, s. split_and!; try done; [by apply Hd|by apply includes_spec].
Qed.

Lemma own_client_ok seen deviceID serviceID as_ reply d : device_ok seen d -> plain_event (OwnClient deviceID serviceID as_ reply) ->
  device_ok seen (own_client ErrorInfo deviceID serviceID as_ reply d).
Proof.
  intros Hd [(ds & -> & Hds) (a & -> & Ha)]. unfold own_client. cbn [is_nullish orb is_string andb].
  destruct (is_string serviceID) eqn:Es; cbn [negb]; [|done]. destruct serviceID as [| | | | |ss| |]; try done.
  destruct (query_client ErrorInfo _ _ _ reply) as [[e|c]|] eqn:E; [done| |done]. apply query_client_ok in E. subst c. by apply cache_ok.
Qed.

Lemma step_ok_world seen ev effs x : world_ok seen effs x -> plain_event ev ->
  let y := cstep ev x in world_ok (seen ++ [ev]) (effs ++ y.2) y.1.
Proof using Type*.
  intros (Hd & Hm & Hc & Hn) Hev. apply (device_more _ [ev]) in Hd as Hd'.
  assert (Hc' : forall i k, x_calls x !! i = Some k -> call_ok (seen ++ [ev]) i k (of_call i effs)) by (intros i k Hk; by apply call_more, Hc).
  assert (Hlast : ev ∈ seen ++ [ev]) by (apply elem_of_app; right; by apply list_elem_of_singleton).
  assert (Hidle : forall d, device_ok (seen ++ [ev]) d -> made (seen ++ [ev]) = made seen ->
    world_ok (seen ++ [ev]) (effs ++ []) (mkWorld d (x_calls x))).
  { intros d Hdd E. rewrite app_nil_r. split; [done|]. split; [by rewrite E|]. by split. }
  rewrite made_app in Hidle. destruct ev as [identity allowed|args address input detail|ds ss a reply|i h]; cbn [step] in *.
  - apply Hidle; [|by rewrite app_nil_r]. split; [by destruct Hd'|]. cbn. destruct (is_nullish identity) eqn:En; [done|].
    intros b [= <-]. split; [done|]. destruct Hev as [?|?]; [congruence|done].
  - pose proof (start_ok_call (seen ++ [CallStarts args address input detail]) (length (x_calls x)) args address input detail (x_device x) Hd') as Hs.
    destruct (ctx_call deviceIDForName (x_device x) args address input detail) as [k es]. cbn [fst snd] in *. destruct Hs as (Hs & Hk).
    split; [done|]. split; [|split].
    + cbn. by rewrite map_app, Hm, made_app; cbn; rewrite Hk.
    + cbn. intros i k' Hl. rewrite of_call_app. apply lookup_app_Some in Hl as [Hl|[Hge Hl]].
      * rewrite of_call_other, app_nil_r by (apply lookup_lt_Some in Hl; lia). by apply Hc'.
      * apply list_lookup_singleton_Some in Hl as [Hl <-]. assert (i = length (x_calls x)) as -> by lia. by rewrite Hn, of_call_own.
    + cbn. intros i. rewrite length_app. cbn. intros Hi'. rewrite of_call_app, Hn, of_call_other by lia. done.
  - apply Hidle; [|by rewrite app_nil_r]. by apply own_client_ok.
  - destruct (x_calls x !! i) as [k|] eqn:Ek.
    + pose proof (call_hears_ok (seen ++ [CallHears i h]) i k (of_call i effs) h (x_device x) (Hc' _ _ Ek) Hd' Hlast) as Hh.
      destruct (call_hears ErrorInfo deviceIDForName h (x_device x) k) as [[d k'] es]. cbn [fst snd] in *. destruct Hh as (Hdd & Hk' & Hkc).
      split; [done|]. split; [|split]; cbn.
      * rewrite made_app, app_nil_r, <- Hm. rewrite list_fmap_insert, Hkc. apply list_insert_id. by rewrite list_lookup_fmap, Ek.
      * intros j kj Hj. rewrite of_call_app. apply list_lookup_insert_Some in Hj as [(<- & <- & _)|[Hne Hj]]; [by rewrite of_call_own|].
        rewrite of_call_other, app_nil_r by done. by apply Hc'.
      * intros j. rewrite length_insert. intros Hj. rewrite of_call_app, Hn by done. apply lookup_lt_Some in Ek. by rewrite of_call_other by lia.
    + destruct x as [d calls]. apply Hidle; [done|by rewrite app_nil_r].
Qed.

Lemma run_ok_world evs : forall seen effs x, world_ok seen effs x -> Forall plain_event evs ->
  let y := crun x evs in world_ok (seen ++ evs) (effs ++ y.2) y.1.
Proof using Type*.
  induction evs as [|ev evs IH]; intros seen effs x Hok Hevs; cbn; [by rewrite !app_nil_r|]. apply Forall_cons in Hevs as [Hev Hevs].
  pose proof (step_ok_world seen ev effs x Hok Hev) as H1. destruct (cstep ev x) as [x1 e1]. cbn [fst snd] in H1.
  specialize (IH _ _ _ H1 Hevs). destruct (crun x1 evs) as [x2 e2]. cbn [fst snd] in *. by rewrite <- !app_assoc in IH.
Qed.

Definition new_world : world := mkWorld new_device [].

Lemma new_world_ok : world_ok [] [] new_world.
Proof. split; [by split|]. split; [done|]. by split. Qed.

(** When a call gets past its refusals. *)
Lemma call_admitted d args address input detail :
  (exists dev, (ctx_call deviceIDForName d args address input detail).2 = [AskSpec dev]) <->
  d_settled d = true /\ exists b allowed p, d_composition d = Some b /\ is_nullish (b_identity b) = false /\
    b_allowed b = Some allowed /\ js_text address ∈ allowed /\ parseAddress address = Some p.
Proof.
  unfold ctx_call. split.
  - intros [dev E]. destruct (d_settled d); cbn [negb] in E; [|done]. split; [done|]. destruct (d_composition d) as [b|]; [|done].
    destruct (is_nullish (b_identity b)) eqn:En; [done|]. destruct (b_allowed b) as [allowed|] eqn:Ea; [|done].
    destruct (includes (js_text address) allowed) eqn:Ei; cbn [negb] in E; [|done]. destruct (parseAddress address) as [p|]; [|done].
    exists b, allowed, p. split_and!; try done. by apply includes_spec.
  - intros (-> & b & allowed & p & -> & -> & -> & Hin%includes_spec & ->). rewrite Hin. cbn. eauto.
Qed.

(** *** The verdict a call was made under *)

Definition is_set (ev : event) : bool := match ev with SetComposition_ _ _ => true | _ => false end.
Definition sets (evs : list event) : list event := List.filter is_set evs.

(** What the verdict relayed last has bound. *)
Definition binding_of (evs : list event) : option bound :=
  match last (sets evs) with
  | Some (SetComposition_ identity allowed) => if is_nullish identity then None else Some (mkBound identity allowed)
  | _ => None
  end.

Definition same_call (k k' : ccall) : Prop :=
  k_comp k' = k_comp k /\ k_address k' = k_address k /\ k_input k' = k_input k.

Lemma sets_app a b : sets (a ++ b) = sets a ++ sets b.
Proof. apply List.filter_app. Qed.

Lemma invoke_same c p k : same_call k (invoke c p k).1.
Proof. unfold invoke. by case_match. Qed.

Lemma hears_same h d k :
  d_composition (call_hears ErrorInfo deviceIDForName h d k).1.1 = d_composition d /\
  same_call k (call_hears ErrorInfo deviceIDForName h d k).1.2.
Proof using Type.
  unfold call_hears, on_spec, on_client, on_reply. destruct h, (k_phase k); try done.
  - destruct (relay _ _ _); [done|]. destruct (resolveAddress _ _) as [?|sid]; [done|].
    destruct (serviceClient _ _ _ _) as [c|e|x]; [|done|done].
    pose proof (invoke_same c p k). by destruct (invoke c p k).
  - destruct (query_client _ _ _ _) as [[e|c]|]; [done| |done].
    pose proof (invoke_same c p k). by destruct (invoke c p k).
Qed.

Lemma own_client_binding ds ss a r d : d_composition (own_client ErrorInfo ds ss a r d) = d_composition d.
Proof using Type. unfold own_client. by repeat case_match. Qed.

Lemma crun_snoc evs ev : forall x, (crun x (evs ++ [ev])).1 = (cstep ev (crun x evs).1).1.
Proof using Type.
  induction evs as [|e evs IH]; intros x; cbn; [by destruct (cstep ev x)|].
  destruct (cstep e x) as [x1 e1]. specialize (IH x1). destruct (crun x1 (evs ++ [ev])), (crun x1 evs). exact IH.
Qed.

Lemma run_binding evs : d_composition (x_device (crun new_world evs).1) = binding_of evs.
Proof using Type.
  induction evs as [|ev evs IH] using rev_ind; [done|]. rewrite crun_snoc. unfold binding_of in *. rewrite sets_app.
  destruct (crun new_world evs).1 as [d calls]. cbn [x_device] in IH.
  destruct ev as [identity allowed|args address input detail|ds ss a r|i h]; cbn [sets List.filter is_set step].
  - by rewrite last_snoc.
  - rewrite app_nil_r, <-IH. by destruct (ctx_call _ _ _ _ _ _).
  - rewrite app_nil_r, <-IH. apply own_client_binding.
  - rewrite app_nil_r, <-IH. cbn [x_calls]. destruct (calls !! i) as [k|]; [|done].
    pose proof (hears_same h d k) as [Hd _]. by destruct (call_hears _ _ _ _ _) as [[d' k'] es].
Qed.

(** Where a call was made, and under which binding. *)
Definition made_at (evs : list event) (i : nat) (k : ccall) (pre : list event) : Prop :=
  exists args detail post, evs = pre ++ CallStarts args (k_address k) (k_input k) detail :: post /\
  length (made pre) = i /\ k_comp k = binding_of pre.

Lemma ctx_call_fields d args address input detail :
  let k := (ctx_call deviceIDForName d args address input detail).1 in
  k_comp k = d_composition d /\ k_address k = address /\ k_input k = input.
Proof using Type. unfold ctx_call. by repeat case_match. Qed.

Lemma run_made evs :
  length (x_calls (crun new_world evs).1) = length (made evs) /\
  forall i k, x_calls (crun new_world evs).1 !! i = Some k -> exists pre, made_at evs i k pre.
Proof using Type.
  induction evs as [|ev evs [Hlen IH]] using rev_ind; [done|]. rewrite crun_snoc, made_app, length_app.
  pose proof (run_binding evs) as Hb. destruct (crun new_world evs).1 as [d calls]. cbn [x_device x_calls] in *.
  assert (Hold : forall i k k', calls !! i = Some k -> same_call k k' -> exists pre, made_at (evs ++ [ev]) i k' pre).
  { intros i k k' Hk (E1 & E2 & E3). destruct (IH i k Hk) as (pre & args & detail & post & -> & Hi & Hc).
    exists pre, args, detail, (post ++ [ev]). rewrite E1, E2, E3. by rewrite <-app_assoc. }
  destruct ev as [identity allowed|args address input detail|ds ss a r|j h]; cbn [step x_device x_calls].
  - split; [cbn; lia|]. intros i k Hk. by eapply Hold.
  - pose proof (ctx_call_fields d args address input detail) as (E1 & E2 & E3).
    destruct (ctx_call deviceIDForName d args address input detail) as [k es]. cbn [fst x_calls] in *.
    split; [rewrite length_app; cbn; lia|]. intros i k' [Hk'|[Hge Hk']]%lookup_app_Some; [by eapply Hold|].
    apply list_lookup_singleton_Some in Hk' as [Hi <-]. exists evs, args, detail, []. rewrite E1, E2, E3.
    split; [done|]. split; [lia|done].
  - split; [cbn; lia|]. intros i k Hk. by eapply Hold.
  - destruct (calls !! j) as [k0|] eqn:Ej; cbn [fst x_calls].
    + pose proof (hears_same h d k0) as [_ Hs]. destruct (call_hears _ _ _ _ _) as [[d' k'] es]. cbn [fst snd x_calls] in *.
      split; [rewrite length_insert; cbn; lia|].
      intros i k [(<- & <- & _)|[Hne Hk]]%list_lookup_insert_Some; by eapply Hold.
    + split; [cbn; lia|]. intros i k Hk. by eapply Hold.
Qed.

(** C27: Calls of ctx.call from a device's handlers, whatever verdicts are
    relayed meanwhile, whatever clients its handlers have made and whatever the
    answers are and in which order: a call gets past its refusals exactly when a
    verdict has bound the device and its address is a valid one among those
    bound; each call sends at most one hop and settles at most once; a call is
    under the verdict that was relayed last when it was made, and its hop is
    authorized as the identity that verdict bound, for the device, the service
    and the action its own address named, resolved in the spec the call was
    given, with the call's input, and billed to that call's own caller, or, when
    the caller has no key, to the module: no client cached for another target,
    identity or caller is ever used. All this for identities and device ids that
    are texts with no bar in them, those the verdicts bind and those handlers
    name for clients of their own (ids made of names are UUIDs): clients are
    cached under a text of the three parts with bars between, and with a bar in
    a part two clients can share it (bar_in_identity_confuses_clients). *)
Theorem ctx_call_contract evs : Forall plain_event evs ->
  let r := crun new_world evs in
  (forall i k, x_calls r.1 !! i = Some k ->
     made evs !! i = Some (k_caller k, k_address k, k_input k) /\
     (exists pre, made_at evs i k pre) /\
     (hops (of_call i r.2) <= 1)%nat /\ (settled (of_call i r.2) <= 1)%nat /\
     (k_phase k <> Settled -> settled (of_call i r.2) = 0%nat) /\
     (forall e, e ∈ of_call i r.2 -> is_hop e = true -> hop_sent evs i k e)) /\
  (forall d args address input detail,
     (exists dev, (ctx_call deviceIDForName d args address input detail).2 = [AskSpec dev]) <->
     d_settled d = true /\ exists b allowed p, d_composition d = Some b /\ is_nullish (b_identity b) = false /\
       b_allowed b = Some allowed /\ js_text address ∈ allowed /\ parseAddress address = Some p).
Proof using Type*.
  intros Hevs r. split; [|intros; apply call_admitted]. intros i k Hk.
  destruct (run_ok_world evs [] [] new_world new_world_ok Hevs) as (_ & Hm & Hc & _). fold r in Hm, Hc. cbn [app] in *.
  destruct (Hc i k Hk) as [H1 H2]. split_and!; try done.
  - rewrite <- Hm, list_lookup_fmap, Hk. done.
  - by apply (proj2 (run_made evs)).
  - destruct (k_phase k); destruct_and?; lia.
  - destruct (k_phase k); destruct_and?; lia.
  - destruct (k_phase k); destruct_and?; done.
Qed.

(** *** Hops and verifications *)

Section verified.
Context (has_identities : bool) (authProvider authConfigPath : string).

Definition run_effects (vr : verification_run) : list Composition.effect :=
  (v_all has_identities authProvider authConfigPath deviceIDForName (vr_spec vr) (vr_package vr) (vr_modulePath vr) (vr_events vr)).2.

(** The bindings relayed are the verdicts of these verifications, in order. *)
Definition relays_verdicts (evs : list event) (vruns : list verification_run) : Prop :=
  Forall2 (fun ev vr => exists r, Verdict r ∈ run_effects vr /\ ev = relayed r) (sets evs) vruns.

Lemma latest_verdict evs post vruns identity allowed :
  relays_verdicts (evs ++ post) vruns -> binding_of evs = Some (mkBound identity (Some allowed)) ->
  exists n vr, length (sets evs) = S n /\ vruns !! n = Some vr /\
    Verdict (Bound (Some (mkComposition identity allowed))) ∈ run_effects vr.
Proof using Type.
  unfold relays_verdicts, binding_of. rewrite sets_app. intros Hr Hb.
  destruct (last (sets evs)) as [ev|] eqn:El; [|done]. destruct (last_Some (sets evs) ev) as [Hl _]. destruct (Hl El) as [l Hs]. rewrite Hs in *.
  destruct ev as [id al| | |]; try done. destruct (is_nullish id) eqn:En; [done|]. injection Hb as -> ->.
  exists (length l). destruct (Forall2_lookup_l _ _ _ (length l) (SetComposition_ identity (Some allowed)) Hr) as (vr & Hvr & r & Hv & E).
  { rewrite <-app_assoc. by apply list_lookup_middle. }
  exists vr. split; [rewrite length_app; cbn; lia|]. split; [done|]. destruct r as [e|[[id' al']|]]; cbn in E; simplify_eq; done.
Qed.

(** C28: From verification to hop: when what is relayed to a worker is the
    verdicts of composition verifications of its device, one after another,
    every hop a handler's ctx.call sends goes back to one of them, the last one
    relayed before that very call was made: the hop carries the identity that
    verification found for the module, and the call's own address is one its
    package declared, for which the provider accepted that identity in that
    verification, asked about the device and the action the hop names. Later
    verdicts change nothing for a call already made. Identities and device ids
    are texts with no bar in them, as for ctx_call_contract. *)
Theorem hops_were_verified vruns evs :
  Forall plain_event evs -> relays_verdicts evs vruns ->
  forall i k appKey billing dev svc action args, x_calls (crun new_world evs).1 !! i = Some k ->
  SendHop appKey billing dev svc action args ∈ of_call i (crun new_world evs).2 ->
  exists pre cargs s input detail post n vr j p,
    evs = pre ++ CallStarts cargs (JStr s) input detail :: post /\ length (made pre) = i /\
    length (sets pre) = S n /\ vruns !! n = Some vr /\
    identified_by (vr_events vr) appKey /\
    authorized_at deviceIDForName (declared_calls (vr_package vr)) (vr_events vr) (run_effects vr) appKey j s /\
    parseAddress (JStr s) = Some p /\ dev = JStr (deviceIDForName (ad_device p)) /\ action = ad_action p.
Proof using Type*.
  intros Hevs Hver i k appKey billing dev svc action args Hk Hin.
  destruct (run_ok_world evs [] [] new_world new_world_ok Hevs) as (_ & _ & Hc & _). cbn [app] in Hc.
  destruct (Hc i k Hk) as [H1 _].
  destruct (H1 _ Hin eq_refl) as (p & sid & (b & allowed & s & Hcomp & _ & Hal & Hadr & Hs & Hp) & _ & _ & E).
  unfold identity_of in E. rewrite Hcomp in E. injection E as -> -> -> -> -> ->.
  destruct (proj2 (run_made evs) i k Hk) as (pre & cargs & detail & post & -> & Hi & Hb). rewrite Hadr in *. rewrite Hcomp in Hb.
  destruct b as [identity al]. cbn in Hal. subst al.
  destruct (latest_verdict pre _ vruns identity allowed Hver (eq_sym Hb)) as (n & vr & Hn & Hvr & Hv).
  destruct (bound_verified _ _ _ _ _ _ _ _ _ Hv) as (Hid & Hall & Hsub). cbn in Hid, Hall, Hsub.
  apply Hsub, list_elem_of_lookup in Hs as [j Hj]. destruct (Hall j _ Hj) as (s' & [= <-] & _ & Hau).
  exists pre, cargs, s, (k_input k), detail, post, n, vr, j, p. by split_and!.
Qed.
End verified.
End proofs.

(** An action run as a task gets its input and its job's id (Calls.job_step), and
    no identity: the calls it makes have no caller, and their hops are billed to
    the module. *)
Theorem task_hops_bill_module deviceIDForName d input jobID address v detail p c :
  let k := (ctx_call deviceIDForName d (JObj [("input", input); ("jobID", jobID)]) address v detail).1 in
  k_caller k = JNull /\
  (is_nullish v = false -> (invoke c p k).2 =
     [SendHop (cl_appKey c) (cl_billingKey c) (cl_deviceID c) (cl_serviceID c) (ad_action p) (JObj [("input", v)])]).
Proof.
  intros k. assert (Hk : k_caller k = JNull /\ k_input k = v) by (unfold k, ctx_call; by repeat case_match; simplify_eq).
  destruct Hk as [Hk Hi]. split; [done|]. intros Hv. unfold invoke. by rewrite Hi, Hv, Hk.
Qed.

(** ** A concrete worker *)

Definition demo_ctx : jsval := JObj [("ctx", JObj [("appKey", JStr "key-c")])].
Definition demo_events : list event :=
  [SetComposition_ (JStr "key-a") (Some ["b/echo.say"]);
   CallStarts demo_ctx (JStr "b/echo.say") (JNum 1) false;
   CallHears 0 (SpecReply (inr target_spec)); CallHears 0 (ClientReply (inr target_spec));
   CallStarts (JObj []) (JStr "b/echo.say") (JNum 2) false;
   CallHears 1 (SpecReply (inr target_spec)); CallHears 0 (HopReply None (JStr "hi") JNull)].

Lemma demo_plain : Forall plain_event demo_events.
Proof.
  unfold demo_events. apply Forall_cons_2; [right; by exists "key-a"|]. by repeat (apply Forall_cons_2; [done|]).
Qed.

(** The second call reuses the first one's client, and bills the module, its
    caller having no key. *)
Definition demo_hops : list (nat * effect) :=
  [(0, AskSpec "b"); (0, AskClient "b");
   (0, SendHop (JStr "key-a") (JStr "key-c") (JStr "b") (JStr "urn:svc:echo") "say" (JObj [("input", JNum 1)]));
   (1, AskSpec "b");
   (1, SendHop (JStr "key-a") (JStr "key-a") (JStr "b") (JStr "urn:svc:echo") "say" (JObj [("input", JNum 2)]));
   (0, Resolve (JStr "hi"))]%nat.

Lemma b_barless : forall n : string, barless ((fun _ => "b") n) = true.
Proof. done. Qed.

Lemma ctx_call_contract_witness :
  let r := run (fun _ => None) (fun _ => "b") new_world demo_events in
  r.2 = demo_hops /\ (forall i k, x_calls r.1 !! i = Some k -> (hops (of_call i r.2) <= 1)%nat).
Proof.
  split; [vm_compute; reflexivity|].
  intros i k Hk. destruct (ctx_call_contract (fun _ => None) (fun _ => "b") b_barless demo_events demo_plain) as [H _].
  by destruct (H i k Hk) as (_ & _ & Hh & _).
Defined.

(** An identity with a bar in it, and a client a handler has made for itself:
    the two have one text in the cache, and the call's hop goes out on that
    client, as another identity and to another service. *)
Definition barred_spec : jsval := JObj [("device", JObj [("serviceList", JObj [("urn:svc:echo|x", JObj [])])])].

Example bar_in_identity_confuses_clients :
  (run (fun _ => None) (fun _ => "b") new_world
     [SetComposition_ (JStr "x|y") (Some ["b/echo.say"]);
      OwnClient (JStr "b") (JStr "urn:svc:echo|x") (JStr "y") (inr barred_spec);
      CallStarts demo_ctx (JStr "b/echo.say") (JNum 1) false; CallHears 0 (SpecReply (inr target_spec))]).2
  = [(0, AskSpec "b");
     (0, SendHop (JStr "y") (JStr "key-c") (JStr "b") (JStr "urn:svc:echo|x") "say" (JObj [("input", JNum 1)]))]%nat.
Proof. vm_compute. reflexivity. Qed.

(** The verification whose verdict the concrete worker is given. *)
Definition demo_run : verification_run := mkVRun composing_spec composing (JStr "/m") demo_answers.

Lemma hops_were_verified_witness :
  identified_by demo_answers (JStr "key-a") /\
  exists j s, authorized_at (fun _ => "b") (declared_calls composing) demo_answers
    (run_effects (fun _ => "b") true "file" "auth.json" demo_run) (JStr "key-a") j s.
Proof.
  destruct (hops_were_verified (fun _ => None) (fun _ => "b") b_barless true "file" "auth.json" [demo_run] demo_events demo_plain)
    with (i := 1%nat) (k := default (mkCCall JNull JNull JNull false None Settled) (x_calls (run (fun _ => None) (fun _ => "b") new_world demo_events).1 !! 1%nat))
         (appKey := JStr "key-a") (billing := JStr "key-a") (dev := JStr "b") (svc := JStr "urn:svc:echo") (action := "say")
         (args := JObj [("input", JNum 2)])
    as (pre & cargs & s & input & detail & post & n & vr & j & p & _ & _ & _ & Hvr & Hid & Hau & _).
  - constructor; [|constructor]. exists (Bound (Some (mkComposition (JStr "key-a") ["b/echo.say"]))). split; [|done].
    apply list_elem_of_In. vm_compute. tauto.
  - vm_compute. reflexivity.
  - apply list_elem_of_In. vm_compute. tauto.
  - apply list_lookup_singleton_Some in Hvr as [_ <-]. split; [exact Hid|]. exists j, s. exact Hau.
Defined.
