(* ===== verification/HandlerCtx.v ===== *)
(** * What a handler is given (lib/handler-ctx.js, lib/countinghouse-util.js,
    lib/redis-api.js)

    The members of [ctx] that CtxCall.v does not have: who called, the device
    and the action, the headers, the job, the log and redis; and what becomes of
    a job's progress, a log entry and a redis command in the worker and on the
    main thread. *)
From Stdlib Require Import ZArith Lia Ascii String.
From stdpp Require Import prelude strings.
From S2P Require Import Prelude Json Errors Session Calls CtxCall.

Set Default Proof Using "Type".

(** ** The caller *)

Definition or_null (v : jsval) : jsval := if is_nullish v then JNull else v.
Definition is_true (v : jsval) : bool := match v with JBool true => true | _ => false end.

(** [callerIdentityOf], of a session as it is seen or of the identity sent in its
    place. *)
Definition callerIdentityOf (s : jsval) : jsval :=
  if is_nullish s || negb (is_object s) then JObj [("apiKey", JNull); ("userName", JNull); ("isAdmin", JBool false)]
  else JObj [("apiKey", or_null (jget "appKey" s)); ("userName", or_null (jget "username" s)); ("isAdmin", JBool (is_true (jget "isAdmin" s)))].

(** [wireIdentityOf], of any value. *)
Definition wireIdentity (s : jsval) : jsval :=
  if is_nullish s || negb (is_object s) then JNull
  else JObj [("appKey", or_null (jget "appKey" s)); ("username", or_null (jget "username" s)); ("isAdmin", JBool (is_true (jget "isAdmin" s)))].

(** ** The context *)

(** The thread and the options the helpers look at. *)
Record place := mkPlace { workerThread : bool; isMainThread : bool; debug : bool; deviceLogEntrySize : jsval }.

(** A progress: a whole number, a number strictly between [z] and [z + 1], NaN,
    or no number. *)
Inductive progress := Whole (z : Z) | Between (z : Z) | NotANumber | NoNumber.

Inductive effect :=
| SendJobProgress (jobID : jsval) (p : progress)
| SendGetJobInfo (jobID : jsval)
| SendDeviceLog (deviceID : jsval) (data : jsval) (timestamp : Z)
| RedisMulti (commands : list (string * list jsval))
| Printed (data : jsval)
| SendRedisCommand (op : string) (data : list jsval)
| RunRedis (op : string) (args : list jsval)
| RedisReply (msgID : jsval) (errMsg : string)
| CallsBack (errMsg : string).

(** The device as the helpers see it: a [CHDevice] or another value. *)
Record device_view := mkView { v_chdevice : bool; v_deviceID : jsval; v_spec : jsval }.

Record handler_ctx := mkCtx {
  x_caller : jsval; x_device : jsval; x_serviceID : jsval; x_actionName : jsval; x_httpHeaders : jsval;
  x_job : option jsval; x_debug : bool
}.

(** [buildCtx]: [device] may be missing, [args] and [opts] be anything. *)
Definition buildCtx (w : place) (device : option device_view) (args o : jsval) : handler_ctx :=
  let member k v := or_null (jget k v) in
  mkCtx (callerIdentityOf (jget "ctx" args))
    (JObj [("deviceID", match device with Some d => v_deviceID d | None => JNull end);
           ("friendlyName", match device with
                            | Some d => if is_nullish (v_spec d) || is_nullish (jget "device" (v_spec d)) then JNull
                                        else jget "friendlyName" (jget "device" (v_spec d))
                            | None => JNull
                            end)])
    (member "serviceID"%string o) (member "actionName"%string o) (member "httpHeaders"%string args)
    (if is_nullish (jget "jobID" args) then None else Some (jget "jobID" args))
    (debug w).

(** ** The job *)

Definition is_id (v : jsval) : bool := match v with JStr _ | JNum _ | JFrac _ => true | _ => false end.

(** [progress < 0 || progress > 100] *)
Definition out_of_range (p : progress) : bool :=
  match p with Whole z => (z <? 0)%Z || (100 <? z)%Z | Between z => (z <? 0)%Z || (100 <=? z)%Z | _ => false end.

Definition jobProgress (w : place) (jobID : jsval) (p : progress) : list effect :=
  if negb (workerThread w) && isMainThread w then []
  else if negb (is_id jobID) then []
  else match p with
       | NoNumber => []
       | _ => if out_of_range p then []
              else if negb (workerThread w) && negb (isMainThread w) then [SendJobProgress jobID p] else []
       end.

Definition jobInfo (w : place) (jobID : jsval) : list effect :=
  if isMainThread w then [CallsBack "cannot work in main thread and single-thread mode"]
  else if negb (is_id jobID) then [CallsBack ("invalid jobID: " +:+ js_text jobID +:+ ". must be string or number type")]
  else [SendGetJobInfo jobID].

(** ** The log *)

Section log.
(** json-stringify-safe, and the clock. *)
Context (stringify : jsval -> string) (now : Z).

Definition log_text (entry : jsval) : jsval := if is_object entry then JStr (stringify entry) else entry.
Definition no_id (deviceID : jsval) : bool := is_nullish deviceID || strict_eq deviceID (JStr "").

(** The lists of a device's log, each kept to its newest entries. *)
Definition log_commands (w : place) (deviceID data : jsval) (timestamp : Z) : list (string * list jsval) :=
  let log := JStr ("devicelog:" +:+ js_text deviceID) in
  let stamps := JStr ("devicelogtimestamp:" +:+ js_text deviceID) in
  [("lpush", [log; data]); ("lpush", [stamps; JNum timestamp]);
   ("ltrim", [log; JNum 0; deviceLogEntrySize w]); ("ltrim", [stamps; JNum 0; deviceLogEntrySize w])]%string.

Definition deviceLog (w : place) (d : device_view) (entry : jsval) : list effect :=
  if negb (v_chdevice d) || no_id (v_deviceID d) then []
  else if debug w then [Printed (log_text entry)]
  else if isMainThread w then [RedisMulti (log_commands w (v_deviceID d) (log_text entry) now)]
  else [SendDeviceLog (v_deviceID d) (log_text entry) now].

(** [__deviceLogWithID], for a worker's message. *)
Definition deviceLogWithID (w : place) (deviceID entry : jsval) (timestamp : Z) : list effect :=
  if no_id deviceID then []
  else if debug w then [Printed (log_text entry)]
  else if isMainThread w then [RedisMulti (log_commands w deviceID (log_text entry) timestamp)]
  else [CallsBack "this should be called from main thread"].
End log.

(** ** Redis *)

Section redis.
(** The commands of the redis client package. *)
Context (redisCommands : list string).

Definition supportedCommands : list string :=
  ["hmget"; "hmset"; "pexpire"; "get"; "set"; "lpush"; "rpush"; "lrange"; "llen"; "hget"; "hset"; "hdel"; "del"; "ltrim"; "mget";
   "hgetall"; "zadd"; "zrange"; "zrem"; "zlen"; "zrange"; "multi"; "exec"]%string.
(** [_.intersection(redisCommands.list, supportedCommands)], each once. *)
Definition commands : list string := remove_dups (List.filter (fun c => includes c supportedCommands) redisCommands).

Definition isCommand (op : jsval) : bool := match op with JStr s => includes s commands | _ => false end.

(** A method of the client: in a worker it is sent to the main thread. *)
Definition client_method (w : place) (op : string) (args : list jsval) : list effect :=
  if isMainThread w then [RunRedis op args] else [SendRedisCommand op args].

(** 'rediscommand' of a worker, on the main thread. *)
Definition on_rediscommand (w : place) (msgID op : jsval) (data : list jsval) : list effect :=
  if isCommand op then client_method w (js_text op) [JArr data]
  else [RedisReply msgID (stake 64 (js_text op) +:+ " is not a supported redis command")].
End redis.

(** ** What reaches the main thread is the handler's own *)

Lemma or_null_again v : or_null (or_null v) = or_null v.
Proof. unfold or_null. destruct (is_nullish v) eqn:E; [done|]. by rewrite E. Qed.

(** The identity a worker is sent tells its handlers what the session would. *)
Lemma identity_crosses s : callerIdentityOf (wireIdentity s) = callerIdentityOf s.
Proof.
  unfold callerIdentityOf at 2, wireIdentity. destruct (is_nullish s || negb (is_object s)) eqn:E; [done|].
  unfold callerIdentityOf. cbn. rewrite !or_null_again. by destruct (is_true (jget "isAdmin" s)).
Qed.

Definition session_view (s : Session.session) : jsval :=
  JObj [("appKey", s_appKey s); ("username", s_username s); ("isAdmin", JBool (s_isAdmin s))]%string.

Lemma wire_view s : wireIdentityOf s = wireIdentity (session_view s).
Proof. unfold wireIdentityOf, wireIdentity, or_null. cbn. by destruct (s_isAdmin s). Qed.

Lemma supported_commands redisCommands op : isCommand redisCommands op = true -> exists name, op = JStr name /\ name ∈ supportedCommands.
Proof.
  destruct op as [| | | | |name| |]; try done. unfold isCommand, includes, commands. rewrite bool_decide_eq_true, elem_of_remove_dups.
  intros H. exists name. split; [done|]. apply list_elem_of_In, filter_In in H as [_ H]. by apply bool_decide_eq_true in H.
Qed.

(** A module worker, as lib/sandbox.js sets its options. *)
Definition in_worker (debug : bool) (size : jsval) : place := mkPlace false false debug size.
Definition on_main (w : place) : place := mkPlace (workerThread w) true (debug w) (deviceLogEntrySize w).

(** A handler's [ctx] names the caller the main thread's session has,
    whatever it is, though only a copy of three members crosses to the worker.
    It has a job exactly when the call is of one, and all it can report is that
    job's progress, between 0 and 100 (or NaN, which no comparison stops). Its
    log is its own device's, and of a worker's redis commands the main thread
    runs those of the list and no other, with their arguments: anything else is
    answered with an error. *)
Theorem handler_reaches_its_own debug size device args o :
  let w := in_worker debug size in
  let x := buildCtx w device args o in
  (forall s kvs, x_caller (buildCtx w device (with_ctx (JObj kvs) s) o) = callerIdentityOf (session_view s)) /\
  (x_job x = None <-> is_nullish (jget "jobID" args) = true) /\
  (forall jobID p, x_job x = Some jobID -> forall e, e ∈ jobProgress w jobID p ->
     e = SendJobProgress (jget "jobID" args) p /\ (p = NotANumber \/ out_of_range p = false)) /\
  (forall stringify now d entry e, e ∈ deviceLog stringify now w d entry ->
     v_chdevice d = true /\ (e = Printed (log_text stringify entry) \/ e = SendDeviceLog (v_deviceID d) (log_text stringify entry) now)) /\
  (forall redisCommands msgID op data e, e ∈ on_rediscommand redisCommands (on_main w) msgID op data ->
     (exists name, op = JStr name /\ name ∈ supportedCommands /\ e = RunRedis name [JArr data]) \/
     isCommand redisCommands op = false /\ e = RedisReply msgID (stake 64 (js_text op) +:+ " is not a supported redis command")).
Proof.
  cbn zeta. split; [|split; [|split; [|split]]].
  - intros s kvs. cbn [x_caller buildCtx with_ctx]. cbn [jget]. rewrite assoc_set_lookup. cbn [String.eqb Ascii.eqb Bool.eqb]. by rewrite wire_view, identity_crosses.
  - cbn. by destruct (is_nullish (jget "jobID" args)).
  - intros jobID p. cbn [x_job buildCtx]. destruct (is_nullish (jget "jobID" args)); [done|]. intros [= <-] e. unfold jobProgress. cbn [workerThread isMainThread in_worker negb andb].
    destruct (is_id _); [|by intros ?%not_elem_of_nil]. cbn [negb].
    destruct p; try (by intros ?%not_elem_of_nil); (destruct (out_of_range _) eqn:Er; [by intros ?%not_elem_of_nil|]); intros ->%list_elem_of_singleton; auto.
  - intros stringify now d entry e. unfold deviceLog. destruct (v_chdevice d); [|by intros ?%not_elem_of_nil]. cbn [negb orb].
    destruct (no_id _); [by intros ?%not_elem_of_nil|]. cbn. destruct debug; intros ->%list_elem_of_singleton; auto.
  - intros redisCommands msgID op data e. unfold on_rediscommand. destruct (isCommand redisCommands op) eqn:Ec.
    + apply supported_commands in Ec as (name & -> & Hn). intros ->%list_elem_of_singleton. left. by exists name.
    + intros ->%list_elem_of_singleton. by right.
Qed.

(** The check of a progress lets NaN through. *)
Example nan_progress_sent debug size : jobProgress (in_worker debug size) (JStr "1") NotANumber = [SendJobProgress (JStr "1") NotANumber].
Proof. reflexivity. Qed.

(** What the main thread keeps for a worker's log entry is under any id the
    message has: nothing asks whose device it is. *)
Example log_of_any_device stringify size :
  deviceLogWithID stringify (mkPlace true true false size) (JStr "another's") (JStr "entry") 0 =
  [RedisMulti [("lpush", [JStr "devicelog:another's"; JStr "entry"]); ("lpush", [JStr "devicelogtimestamp:another's"; JNum 0]);
               ("ltrim", [JStr "devicelog:another's"; JNum 0; size]); ("ltrim", [JStr "devicelogtimestamp:another's"; JNum 0; size])]]%string.
Proof. reflexivity. Qed.
