(* ===== verification/Lifecycle.v ===== *)
(** * One worker per module name (lib/module-lifecycle.js and its use in
    lib/module-manager.js: spawnModuleWorker, uninstallModule)

    A name's lock is a chain of promises: a task runs when the one before it
    has settled. The tasks are spawns and uninstalls; a spawn tracks the worker
    it started, and a tracked worker is live until it exits and settled once
    its broker is idle. Tasks, worker exits and brokers going idle interleave
    in any order; each of them is a step. *)
From Stdlib Require Import ZArith Lia Ascii String.
From stdpp Require Import prelude strings gmap.
From S2P Require Import Prelude.

Set Default Proof Using "Type".

(** What a task does under the lock: a spawn, [supervised] when a supervisor's
    restart asked for it (its [stillWanted] is given), or an uninstall. *)
Inductive body := Spawn (supervised : bool) | Uninstall.

(** Where a task is: waiting for the chain; at its start; waiting for the live
    worker it terminates; waiting for the name's last broker; at its work (the
    walk, the new broker and worker; or the deletion); over. *)
Inductive phase :=
| Queued
| Entered
| Terminating (w : nat)
| Settling (w : option nat)
| Working
| Finished.

Record task := mkTask { t_name : string; t_prev : option nat; t_body : body; t_at : phase }.
Record worker := mkWorker { w_name : string; w_exited : bool; w_settled : bool }.

Record lifecycle := mkLife {
  chains : gmap string nat;
  entries : gmap string nat;
  tasks : list task;
  workers : list worker
}.

Definition new_lifecycle : lifecycle := mkLife ∅ ∅ [] [].

(** [run(name, fn)] *)
Definition run (name : string) (b : body) (l : lifecycle) : lifecycle :=
  mkLife (<[name := length (tasks l)]> (chains l)) (entries l)
    (tasks l ++ [mkTask name (chains l !! name) b Queued]) (workers l).

Definition finished (l : lifecycle) (i : nat) : bool :=
  match tasks l !! i with Some t => match t_at t with Finished => true | _ => false end | None => false end.

Definition exited (l : lifecycle) (w : nat) : bool := match workers l !! w with Some k => w_exited k | None => false end.
Definition is_settled (l : lifecycle) (w : nat) : bool := match workers l !! w with Some k => w_settled k | None => false end.

(** [live(name)] and [settled(name)]: the tracked worker not exited, and the
    one whose broker is waited for. *)
Definition live (name : string) (l : lifecycle) : option nat :=
  match entries l !! name with Some w => if exited l w then None else Some w | None => None end.
Definition settled (name : string) (l : lifecycle) : option nat := entries l !! name.

Definition move (i : nat) (p : phase) (l : lifecycle) : lifecycle :=
  mkLife (chains l) (entries l) (alter (fun t => mkTask (t_name t) (t_prev t) (t_body t) p) i (tasks l)) (workers l).

(** [track(name, entry)] *)
Definition track (name : string) (l : lifecycle) : lifecycle :=
  mkLife (chains l) (<[name := length (workers l)]> (entries l)) (tasks l) (workers l ++ [mkWorker name false false]).

(** One step of task [i]. [busy] is what else keeps a name from being
    uninstalled (it is loaded, restarting or suspended); [ok] is whether the
    work succeeded. *)
Definition task_step (i : nat) (busy ok : bool) (l : lifecycle) : lifecycle :=
  match tasks l !! i with
  | None => l
  | Some t =>
      match t_at t with
      | Queued =>
          match t_prev t with
          | None => move i Entered l
          | Some p => if finished l p then move i Entered l else l
          end
      | Entered =>
          match t_body t, live (t_name t) l with
          | Spawn true, Some _ => move i Finished l
          | Spawn false, Some w => move i (Terminating w) l
          | Uninstall, Some _ => move i Finished l
          | Uninstall, None => if busy then move i Finished l else move i (Settling (settled (t_name t) l)) l
          | Spawn _, None => move i (Settling (settled (t_name t) l)) l
          end
      | Terminating w => if exited l w then move i (Settling (settled (t_name t) l)) l else l
      | Settling None => move i Working l
      | Settling (Some w) => if is_settled l w then move i Working l else l
      | Working =>
          match t_body t with
          | Spawn _ => if ok then track (t_name t) (move i Finished l) else move i Finished l
          | Uninstall => move i Finished l
          end
      | Finished => l
      end
  end.

(** The chain of a name is forgotten once its last task is over. *)
Definition cleanup (i : nat) (l : lifecycle) : lifecycle :=
  match tasks l !! i with
  | Some t => if finished l i && bool_decide (chains l !! t_name t = Some i)
              then mkLife (delete (t_name t) (chains l)) (entries l) (tasks l) (workers l) else l
  | None => l
  end.

Definition on_exit (w : nat) (l : lifecycle) : lifecycle :=
  mkLife (chains l) (entries l) (tasks l) (alter (fun k => mkWorker (w_name k) true (w_settled k)) w (workers l)).

(** The broker of an exited worker is idle ([settleAfterExit]). *)
Definition on_settled (w : nat) (l : lifecycle) : lifecycle :=
  match workers l !! w with
  | Some k =>
      if w_exited k then
        mkLife (chains l) (if bool_decide (entries l !! w_name k = Some w) then delete (w_name k) (entries l) else entries l)
          (tasks l) (alter (fun k => mkWorker (w_name k) (w_exited k) true) w (workers l))
      else l
  | None => l
  end.

Inductive op :=
| Run (name : string) (b : body)
| Task (i : nat) (busy ok : bool)
| Cleanup (i : nat)
| Exit (w : nat)
| Settle (w : nat).

Definition step (o : op) (l : lifecycle) : lifecycle :=
  match o with
  | Run name b => run name b l
  | Task i busy ok => task_step i busy ok l
  | Cleanup i => cleanup i l
  | Exit w => on_exit w l
  | Settle w => on_settled w l
  end.

Definition life_run (os : list op) (l : lifecycle) : lifecycle := foldl (fun l o => step o l) l os.

(** ** The invariant *)

Definition over (t : task) : Prop := t_at t = Finished.
Definition under_way (t : task) : Prop := t_at t <> Queued /\ t_at t <> Finished.

(** Task [i] comes before task [j] of the same name. *)
Definition before (l : lifecycle) (i j : nat) : Prop :=
  (i < j)%nat /\ exists ti tj, tasks l !! i = Some ti /\ tasks l !! j = Some tj /\ t_name ti = t_name tj.

Record life_ok (l : lifecycle) : Prop := {
  ok_order : forall i j ti tj, (i < j)%nat -> tasks l !! i = Some ti -> tasks l !! j = Some tj -> t_name ti = t_name tj ->
               t_at tj <> Queued -> over ti;
  ok_prev : forall i j ti tj, (i < j)%nat -> tasks l !! i = Some ti -> tasks l !! j = Some tj -> t_name ti = t_name tj ->
              match t_prev tj with
              | None => over ti
              | Some p => (i <= p < j)%nat /\ exists tp, tasks l !! p = Some tp /\ t_name tp = t_name tj
              end;
  ok_back : forall j tj p, tasks l !! j = Some tj -> t_prev tj = Some p ->
              (p < j)%nat /\ exists tp, tasks l !! p = Some tp /\ t_name tp = t_name tj;
  ok_chained : forall name c, chains l !! name = Some c -> exists tc, tasks l !! c = Some tc /\ t_name tc = name;
  ok_chain : forall i ti, tasks l !! i = Some ti ->
               match chains l !! t_name ti with
               | None => over ti
               | Some c => (i <= c)%nat /\ exists tc, tasks l !! c = Some tc /\ t_name tc = t_name ti
               end;
  ok_entry : forall w k, workers l !! w = Some k -> w_settled k = false -> entries l !! w_name k = Some w;
  ok_tracked : forall name w, entries l !! name = Some w -> exists k, workers l !! w = Some k /\ w_name k = name /\ w_settled k = false;
  ok_wait : forall i t, tasks l !! i = Some t ->
              match t_at t with
              | Working | Settling None => entries l !! t_name t = None
              | Settling (Some w) => forall w', entries l !! t_name t = Some w' -> w' = w
              | _ => True
              end
}.

Definition wait_ok (l : lifecycle) (name : string) (p : phase) : Prop :=
  match p with
  | Working | Settling None => entries l !! name = None
  | Settling (Some w) => forall w', entries l !! name = Some w' -> w' = w
  | _ => True
  end.

Lemma move_lookup i p l j :
  tasks (move i p l) !! j =
  if decide (j = i) then (fun t => mkTask (t_name t) (t_prev t) (t_body t) p) <$> tasks l !! i else tasks l !! j.
Proof. cbn. destruct (decide (j = i)) as [->|]; [apply list_lookup_alter_eq|by apply list_lookup_alter_ne]. Qed.

(** A task of the moved list is one of the old list, elsewhere or at [p]. *)
Lemma move_inv i p l t j tj : tasks l !! i = Some t -> tasks (move i p l) !! j = Some tj ->
  exists tj0, tasks l !! j = Some tj0 /\ t_name tj0 = t_name tj /\ t_prev tj0 = t_prev tj /\
              ((j = i /\ t_at tj = p) \/ (j <> i /\ tj0 = tj)).
Proof.
  intros Ht. rewrite move_lookup. destruct (decide (j = i)) as [->|Hne].
  - rewrite Ht. intros [= <-]. exists t. split_and!; try done. by left.
  - intros Hj. exists tj. split_and!; try done. by right.
Qed.

Lemma move_ok i p l t :
  life_ok l -> tasks l !! i = Some t -> t_at t <> Finished -> p <> Queued ->
  (forall j tj, (j < i)%nat -> tasks l !! j = Some tj -> t_name tj = t_name t -> over tj) -> wait_ok l (t_name t) p ->
  life_ok (move i p l).
Proof.
  intros [H1 H2 H7 H8 H3 H4 H5 H6] Ht Hnf Hp Hbefore Hw.
  assert (Hover : forall j tj tj0, tasks l !! j = Some tj0 -> tasks (move i p l) !! j = Some tj -> over tj0 -> over tj).
  { intros j tj tj0 Hj0 Hj Ho. destruct (move_inv _ _ _ _ _ _ Ht Hj) as (tj1 & E1 & _ & _ & [[-> Ep]|[_ ->]]); [|congruence].
    assert (tj0 = t) as -> by congruence. done. }
  assert (Hname : forall q tq n, tasks l !! q = Some tq -> t_name tq = n -> exists t', tasks (move i p l) !! q = Some t' /\ t_name t' = n).
  { intros q tq n Hq Hn. rewrite move_lookup. destruct (decide (q = i)) as [->|].
    - rewrite Ht. eexists. split; [done|]. cbn. congruence.
    - by exists tq. }
  split.
  - intros j k tj tk Hlt Hj Hk Hn Hq.
    destruct (move_inv _ _ _ _ _ _ Ht Hj) as (tj0 & Ej & Enj & _ & _). destruct (move_inv _ _ _ _ _ _ Ht Hk) as (tk0 & Ek & Enk & _ & Ck).
    apply (Hover j tj tj0 Ej Hj). destruct Ck as [[-> Ep]|[Hne ->]].
    + assert (tk0 = t) as -> by congruence. apply (Hbefore j tj0); [done..|congruence].
    + eapply (H1 j k); [done|exact Ej|exact Ek|congruence|done].
  - intros j k tj tk Hlt Hj Hk Hn.
    destruct (move_inv _ _ _ _ _ _ Ht Hj) as (tj0 & Ej & Enj & _ & _). destruct (move_inv _ _ _ _ _ _ Ht Hk) as (tk0 & Ek & Enk & Epk & _).
    pose proof (H2 j k tj0 tk0 Hlt Ej Ek ltac:(congruence)) as Hpr. rewrite Epk in Hpr. destruct (t_prev tk) as [q|].
    + destruct Hpr as (Hq & tq & Eq & En). split; [done|]. apply (Hname q tq); [done|congruence].
    + by apply (Hover j tj tj0).
  - intros k tk q Hk Hq. destruct (move_inv _ _ _ _ _ _ Ht Hk) as (tk0 & Ek & Enk & Epk & _).
    destruct (H7 k tk0 q Ek ltac:(congruence)) as (Hlt & tq & Eq & En). split; [done|]. apply (Hname q tq); [done|congruence].
  - intros name c Hc. destruct (H8 name c Hc) as (tc & Ec & En). by eapply Hname.
  - intros j tj Hj. destruct (move_inv _ _ _ _ _ _ Ht Hj) as (tj0 & Ej & Enj & _ & _). pose proof (H3 j tj0 Ej) as Hc. rewrite Enj in Hc.
    cbn [chains move]. destruct (chains l !! t_name tj) as [c|]; [|by apply (Hover j tj tj0)].
    destruct Hc as (Hlt & tc & Ec & En). split; [done|]. apply (Hname c tc); [done|congruence].
  - done.
  - done.
  - intros j tj Hj. destruct (move_inv _ _ _ _ _ _ Ht Hj) as (tj0 & Ej & Enj & _ & [[-> Ep]|[_ ->]]); [|by apply (H6 j)].
    assert (tj0 = t) as -> by congruence. rewrite Ep, <- Enj. exact Hw.
Qed.

Lemma life_chain_ok name b l : life_ok l -> life_ok (run name b l).
Proof.
  intros [H1 H2 H7 H8 H3 H4 H5 H6].
  assert (Hold : forall j tj, tasks (run name b l) !! j = Some tj ->
            (j < length (tasks l))%nat /\ tasks l !! j = Some tj \/ j = length (tasks l) /\ tj = mkTask name (chains l !! name) b Queued).
  { intros j tj Hj. cbn in Hj. apply lookup_app_Some in Hj as [Hj|[Hge Hj]].
    - left. split; [by eapply lookup_lt_Some|done].
    - right. destruct (j - length (tasks l))%nat eqn:E; [|done]. injection Hj as <-. split; [lia|done]. }
  assert (Hnew : forall j tj, tasks l !! j = Some tj -> tasks (run name b l) !! j = Some tj).
  { intros j tj Hj. cbn. by apply lookup_app_l_Some. }
  assert (Hlast : tasks (run name b l) !! length (tasks l) = Some (mkTask name (chains l !! name) b Queued)).
  { cbn. rewrite lookup_app_r, Nat.sub_diag by lia. done. }
  split.
  - intros i j ti tj Hlt Hi Hj Hn Hq. destruct (Hold j tj Hj) as [[Hjl Ej]|[-> ->]]; [|done].
    destruct (Hold i ti Hi) as [[_ Ei]|[-> _]]; [by eapply (H1 i j)|lia].
  - intros i j ti tj Hlt Hi Hj Hn. destruct (Hold i ti Hi) as [[Hil Ei]|[-> _]].
    + destruct (Hold j tj Hj) as [[Hjl Ej]|[-> ->]].
      * pose proof (H2 i j ti tj Hlt Ei Ej Hn) as Hp. destruct (t_prev tj) as [p|]; [|done].
        destruct Hp as (Hp & tp & Ep & En). split; [done|]. exists tp. split; [by apply Hnew|done].
      * cbn [t_prev t_name] in *. pose proof (H3 i ti Ei) as Hc. rewrite Hn in Hc. cbn in Hc.
        destruct (chains l !! name) as [c|]; [|done]. destruct Hc as (Hc & tc & Ec & En).
        apply lookup_lt_Some in Ec as Hcl. split; [lia|]. exists tc. split; [by apply Hnew|congruence].
    + apply lookup_lt_Some in Hj. cbn in Hj. rewrite length_app in Hj. cbn in Hj. lia.
  - intros j tj p Hj Hp. destruct (Hold j tj Hj) as [[Hjl Ej]|[-> ->]].
    + destruct (H7 j tj p Ej Hp) as (Hlt & tp & Ep & En). split; [done|]. exists tp. split; [by apply Hnew|done].
    + cbn in Hp |- *. destruct (H8 name p Hp) as (tp & Ep & En). split; [by eapply lookup_lt_Some|]. exists tp. split; [by apply Hnew|done].
  - intros n c Hc. cbn [chains run] in Hc. destruct (decide (n = name)) as [->|Hne].
    + rewrite lookup_insert_eq in Hc. injection Hc as <-. by eexists.
    + rewrite lookup_insert_ne in Hc by done. destruct (H8 n c Hc) as (tc & Ec & En). exists tc. split; [by apply Hnew|done].
  - intros i ti Hi. cbn [chains run]. destruct (decide (t_name ti = name)) as [E|Hne].
    + rewrite E, lookup_insert_eq. split.
      * apply lookup_lt_Some in Hi. cbn in Hi. rewrite length_app in Hi. cbn in Hi. lia.
      * eexists. split; [exact Hlast|done].
    + rewrite lookup_insert_ne by congruence. destruct (Hold i ti Hi) as [[Hil Ei]|[-> ->]]; [|done].
      pose proof (H3 i ti Ei) as Hc. destruct (chains l !! t_name ti) as [c|]; [|done].
      destruct Hc as (Hc & tc & Ec & En). split; [done|]. exists tc. split; [by apply Hnew|done].
  - done.
  - done.
  - intros i t Hi. destruct (Hold i t Hi) as [[_ Ei]|[-> ->]]; [by apply (H6 i)|done].
Qed.

(** The task of a name that is under way is alone. *)
Lemma alone l i j ti tj :
  life_ok l -> tasks l !! i = Some ti -> tasks l !! j = Some tj -> t_name ti = t_name tj ->
  t_at ti <> Queued -> t_at ti <> Finished -> t_at tj <> Queued -> t_at tj <> Finished -> i = j.
Proof.
  intros [H1 _ _ _ _ _ _ _] Hi Hj Hn Qi Fi Qj Fj. destruct (Nat.lt_trichotomy i j) as [Hlt|[|Hlt]]; [|done|].
  - exfalso. apply Fi. by eapply (H1 i j).
  - exfalso. apply Fj. by eapply (H1 j i).
Qed.

(** A new worker, tracked by a task at its work. *)
Lemma life_track_ok l i t :
  life_ok l -> tasks l !! i = Some t -> t_at t = Working -> life_ok (track (t_name t) (move i Finished l)).
Proof.
  intros H Ht Hp. pose proof (ok_wait l H i t Ht) as Hw. rewrite Hp in Hw.
  assert (Hm : life_ok (move i Finished l)).
  { apply (move_ok i Finished l t); try done; [by rewrite Hp|]. intros j tj Hlt Hj Hn.
    apply (ok_order l H j i tj t Hlt Hj Ht Hn). by rewrite Hp. }
  assert (Hothers : forall j tj, tasks (move i Finished l) !! j = Some tj -> t_name tj = t_name t -> t_at tj = Queued \/ t_at tj = Finished).
  { intros j tj Hj Hn. destruct (move_inv _ _ _ _ _ _ Ht Hj) as (tj0 & Ej & Enj & _ & [[-> Ep]|[Hne ->]]); [by right|].
    destruct (t_at tj) eqn:E; try (by left); try (by right); exfalso; apply Hne; symmetry;
      apply (alone l i j t tj H Ht Ej); try congruence; by rewrite ?Hp, ?E. }
  destruct Hm as [H1 H2 H7 H8 H3 H4 H5 H6]. split; try done.
  - intros w k Hk Hs. cbn in Hk |- *. apply lookup_app_Some in Hk as [Hk|[Hge Hk]].
    + pose proof (H4 w k Hk Hs) as He. cbn in He. rewrite lookup_insert_ne; [done|]. intros E. rewrite <- E in He. congruence.
    + destruct (w - length (workers l))%nat eqn:E; [|done]. injection Hk as <-. cbn. rewrite lookup_insert_eq. f_equal. lia.
  - intros name w He. cbn in He |- *. destruct (decide (name = t_name t)) as [->|Hne].
    + rewrite lookup_insert_eq in He. injection He as <-. exists (mkWorker (t_name t) false false).
      rewrite lookup_app_r, Nat.sub_diag by lia. done.
    + rewrite lookup_insert_ne in He by done. destruct (H5 name w He) as (k & Hk & ? & ?). exists k. split; [|done].
      by apply lookup_app_l_Some.
  - intros j tj Hj. cbn in Hj. pose proof (H6 j tj Hj) as Hj6. cbn [track entries].
    destruct (decide (t_name tj = t_name t)) as [E|E].
    + destruct (Hothers j tj Hj E) as [-> | ->]; done.
    + rewrite lookup_insert_ne by congruence. exact Hj6.
Qed.

Lemma task_step_ok i busy ok l : life_ok l -> life_ok (task_step i busy ok l).
Proof.
  intros H. unfold task_step. destruct (tasks l !! i) as [t|] eqn:Ht; [|done].
  assert (Hb : t_at t <> Queued -> forall j tj, (j < i)%nat -> tasks l !! j = Some tj -> t_name tj = t_name t -> over tj).
  { intros Hq j tj Hlt Hj Hn. by apply (ok_order l H j i tj t Hlt Hj Ht Hn). }
  assert (Hset : wait_ok l (t_name t) (Settling (settled (t_name t) l))).
  { unfold settled. destruct (entries l !! t_name t) as [w|] eqn:E; cbn; [|done]. intros w'. rewrite E. by intros [= ->]. }
  destruct (t_at t) as [| |w|[w|]| |] eqn:Hp.
  - assert (Hgo : (forall j tj, (j < i)%nat -> tasks l !! j = Some tj -> t_name tj = t_name t -> over tj) -> life_ok (move i Entered l)).
    { intros Hov. apply (move_ok i Entered l t); try done. by rewrite Hp. }
    destruct (t_prev t) as [p|] eqn:Epv.
    + unfold finished. destruct (tasks l !! p) as [tp|] eqn:Etp; [|done]. destruct (t_at tp) eqn:Eat; try done.
      apply Hgo. intros j tj Hlt Hj Hn. pose proof (ok_prev l H j i tj t Hlt Hj Ht Hn) as Hpr. rewrite Epv in Hpr.
      destruct Hpr as (Hr & tp' & E & En). assert (tp' = tp) as -> by congruence. destruct (decide (j = p)) as [->|].
      * assert (tj = tp) as -> by congruence. exact Eat.
      * apply (ok_order l H j p tj tp); [lia|done|done|congruence|by rewrite Eat].
    + apply Hgo. intros j tj Hlt Hj Hn. pose proof (ok_prev l H j i tj t Hlt Hj Ht Hn) as Hpr. by rewrite Epv in Hpr.
  - assert (Hgo : forall p, p <> Queued -> wait_ok l (t_name t) p -> life_ok (move i p l)).
    { intros p Hne Hw. apply (move_ok i p l t); try done; [by rewrite Hp|by apply Hb]. }
    destruct (t_body t) as [[|]|], (live (t_name t) l); try (by apply Hgo). destruct busy; by apply Hgo.
  - destruct (exited l w); [|done]. apply (move_ok i _ l t); try done; [by rewrite Hp|by apply Hb].
  - pose proof (ok_wait l H i t Ht) as Hw. rewrite Hp in Hw. unfold is_settled.
    destruct (workers l !! w) as [k|] eqn:Ek; [|done]. destruct (w_settled k) eqn:Es; [|done].
    apply (move_ok i _ l t); try done; [by rewrite Hp|by apply Hb|]. cbn.
    destruct (entries l !! t_name t) as [w'|] eqn:Ee; [|done]. exfalso. assert (w' = w) as -> by (by apply Hw).
    destruct (ok_tracked l H _ _ Ee) as (k' & Ek' & _ & Es'). congruence.
  - pose proof (ok_wait l H i t Ht) as Hw. rewrite Hp in Hw.
    apply (move_ok i _ l t); try done; [by rewrite Hp|by apply Hb].
  - assert (Hgo : life_ok (move i Finished l)) by (apply (move_ok i _ l t); try done; [by rewrite Hp|by apply Hb]).
    destruct (t_body t); [|done]. destruct ok; [|done]. by apply life_track_ok.
  - done.
Qed.

Lemma cleanup_ok i l : life_ok l -> life_ok (cleanup i l).
Proof.
  intros H. unfold cleanup, finished. destruct (tasks l !! i) as [t|] eqn:Ht; [|done].
  destruct (t_at t) eqn:Hp; try done. cbn [andb]. case_bool_decide as Hc; [|done]. pose proof H as [H1 H2 H7 H8 H3 H4 H5 H6]. split; try done.
  { intros n c Hn. cbn in Hn. apply lookup_delete_Some in Hn as [_ Hn]. by apply H8. }
  intros j tj Hj. cbn in Hj |- *. pose proof (H3 j tj Hj) as Hcj. destruct (decide (t_name tj = t_name t)) as [E|E].
  - rewrite E, lookup_delete_eq. rewrite E, Hc in Hcj. destruct Hcj as [Hle _].
    destruct (decide (j = i)) as [->|]; [by assert (tj = t) as -> by congruence|].
    apply (H1 j i tj t); [lia|done..|by rewrite Hp].
  - by rewrite lookup_delete_ne.
Qed.

Lemma exit_ok w l : life_ok l -> life_ok (on_exit w l).
Proof.
  intros [H1 H2 H7 H8 H3 H4 H5 H6]. split; try done.
  - intros v k Hk Hs. cbn in Hk |- *. destruct (decide (v = w)) as [->|Hne].
    + rewrite list_lookup_alter_eq in Hk. destruct (workers l !! w) as [k0|] eqn:E; [|done]. injection Hk as <-. by apply (H4 w k0).
    + rewrite list_lookup_alter_ne in Hk by done. by apply (H4 v k).
  - intros name v He. cbn in He |- *. destruct (H5 name v He) as (k & Hk & Hn & Hs). destruct (decide (v = w)) as [->|Hne].
    + rewrite list_lookup_alter_eq, Hk. by eexists.
    + rewrite list_lookup_alter_ne by done. by exists k.
Qed.

Lemma life_settle_ok w l : life_ok l -> life_ok (on_settled w l).
Proof.
  intros [H1 H2 H7 H8 H3 H4 H5 H6]. unfold on_settled. destruct (workers l !! w) as [k|] eqn:Ek; [|by split]. destruct (w_exited k); [|by split].
  set (es := if bool_decide (entries l !! w_name k = Some w) then delete (w_name k) (entries l) else entries l).
  assert (Hes : forall name v, es !! name = Some v -> entries l !! name = Some v).
  { intros name v. unfold es. case_bool_decide; [|done]. destruct (decide (name = w_name k)) as [->|]; [by rewrite lookup_delete_eq|].
    by rewrite lookup_delete_ne. }
  assert (Hnw : forall name v, es !! name = Some v -> v <> w).
  { intros name v He ->. destruct (H5 name w (Hes _ _ He)) as (k' & Ek' & En & _). assert (k' = k) as -> by congruence.
    unfold es in He. case_bool_decide as Hd; subst name; [by rewrite lookup_delete_eq in He|by apply Hd]. }
  split; try done.
  - intros v k' Hk' Hs. cbn in Hk' |- *. destruct (decide (v = w)) as [->|Hne].
    + rewrite list_lookup_alter_eq, Ek in Hk'. by injection Hk' as <-.
    + rewrite list_lookup_alter_ne in Hk' by done. pose proof (H4 v k' Hk' Hs) as He. unfold es. case_bool_decide as Hd; [|done].
      rewrite lookup_delete_ne; [done|]. intros E. rewrite <- E, Hd in He. congruence.
  - intros name v He. cbn in He |- *. destruct (H5 name v (Hes _ _ He)) as (k' & Hk' & Hn & Hs).
    rewrite list_lookup_alter_ne by (symmetry; by eapply Hnw). by exists k'.
  - intros i t Hi. cbn in Hi |- *. pose proof (H6 i t Hi) as Hw.
    destruct (t_at t) as [| |v|[v|]| |]; try done; fold es.
    + intros w' He. by apply Hw, Hes.
    + destruct (es !! t_name t) eqn:E; [|done]. apply Hes in E. congruence.
    + destruct (es !! t_name t) eqn:E; [|done]. apply Hes in E. congruence.
Qed.

Lemma life_step_ok o l : life_ok l -> life_ok (step o l).
Proof.
  destruct o; cbn [step].
  - apply life_chain_ok.
  - apply task_step_ok.
  - apply cleanup_ok.
  - apply exit_ok.
  - apply life_settle_ok.
Qed.

Lemma life_run_ok os : forall l, life_ok l -> life_ok (life_run os l).
Proof. induction os as [|o os IH]; intros l H; [done|]. apply IH. by apply life_step_ok. Qed.

Lemma new_lifecycle_ok : life_ok new_lifecycle.
Proof. by split. Qed.

(** ** The property *)

Definition at_work (l : lifecycle) (i : nat) (name : string) : Prop :=
  exists t, tasks l !! i = Some t /\ t_name t = name /\ t_at t <> Queued /\ t_at t <> Finished.

Definition unsettled (l : lifecycle) (w : nat) (name : string) : Prop :=
  exists k, workers l !! w = Some k /\ w_name k = name /\ w_settled k = false.

(** A module's directories have one owner. However loads, supervised
    restarts, uninstalls, worker exits and brokers going idle interleave: at
    most one spawn or uninstall of a name is under way, and they run in the
    order they were asked for; at most one worker of a name has not settled
    (its broker may still act on the module's files), and it is the tracked
    one; while a task is at its work (emptying /tmp and starting a broker, or
    deleting the data) no worker of its name is unsettled; and the first task
    of a name that is not over can always begin. *)
Theorem one_owner_per_name (os : list op) :
  let l := life_run os new_lifecycle in
  (forall name i j, at_work l i name -> at_work l j name -> i = j) /\
  (forall i j ti tj, (i < j)%nat -> tasks l !! i = Some ti -> tasks l !! j = Some tj -> t_name ti = t_name tj ->
     t_at tj <> Queued -> t_at ti = Finished) /\
  (forall name w v, unsettled l w name -> unsettled l v name -> w = v /\ entries l !! name = Some w) /\
  (forall i t w, tasks l !! i = Some t -> t_at t = Working -> ~ unsettled l w (t_name t)) /\
  (forall i t, tasks l !! i = Some t -> t_at t = Queued ->
     (forall j tj, (j < i)%nat -> tasks l !! j = Some tj -> t_name tj = t_name t -> t_at tj = Finished) ->
     forall busy ok, tasks (task_step i busy ok l) !! i = Some (mkTask (t_name t) (t_prev t) (t_body t) Entered)).
Proof.
  cbn zeta. pose proof (life_run_ok os _ new_lifecycle_ok) as H. set (l := life_run os new_lifecycle) in *. split_and!.
  - intros name i j (ti & Ei & Ni & Qi & Fi) (tj & Ej & Nj & Qj & Fj). apply (alone l i j ti tj); try done. congruence.
  - apply (ok_order l H).
  - intros name w v (k & Ek & <- & Sk) (k' & Ek' & Nk' & Sk'). pose proof (ok_entry l H w k Ek Sk) as E1.
    pose proof (ok_entry l H v k' Ek' Sk') as E2. rewrite Nk' in E2. split; congruence.
  - intros i t w Hi Hp (k & Ek & Nk & Sk). pose proof (ok_wait l H i t Hi) as Hw. rewrite Hp in Hw.
    pose proof (ok_entry l H w k Ek Sk) as E1. congruence.
  - intros i t Hi Hq Hbefore busy ok.
    assert (Hmove : tasks (move i Entered l) !! i = Some (mkTask (t_name t) (t_prev t) (t_body t) Entered)).
    { rewrite move_lookup, decide_True by done. by rewrite Hi. }
    unfold task_step. rewrite Hi, Hq. destruct (t_prev t) as [p|] eqn:Ep; [|exact Hmove].
    replace (finished l p) with true; [exact Hmove|]. symmetry. unfold finished.
    destruct (ok_back l H i t p Hi Ep) as (Hlt & tp & Etp & Hn). rewrite Etp. by rewrite (Hbefore p tp).
Qed.
