(* ===== verification/WorkerLimits.v ===== *)
(** * The limits V8 does not enforce (lib/worker-limits.js)

    A worker is watched by a timer of the main thread: at each tick it is sent
    a ping unless one is out, an unanswered ping is timed, and its memory
    outside the heap is asked for. Times are milliseconds of the main thread's
    clock; a tick says whether a synchronous file call was in flight. *)
From Stdlib Require Import ZArith Lia String.
From stdpp Require Import prelude strings.
From S2P Require Import Prelude.

Open Scope Z_scope.
Set Default Proof Using "Type".

(** ** The watch *)

Record limits := mkLimits { maxBlockMs : Z; externalMb : Z }.

Inductive reason := BlockedEventLoop | ExternalMemory.

#[export] Instance reason_eq_dec : EqDecision reason.
Proof. solve_decision. Defined.

(** [pending] is the ping out, known by its number, with its [since]. *)
Record watch := mkWatch {
  pending : option (nat * Z);
  lastTick : Z;
  stopped : bool;
  next_ping : nat
}.

(** A tick of the timer; the reply to a ping; the answer to
    [getHeapStatistics], when there is one; the worker's exit; [stop]. *)
Inductive event :=
| Tick (now : Z) (busy : bool)
| Pong (ping : nat)
| Heap (external_memory : Z)
| Exited
| Stopped.

Inductive effect :=
| Ping (ping : nat)
| AskHeap
| Terminate (killReason : reason).

Definition intervalOf (l : limits) (intervalMs : option Z) : Z :=
  match intervalMs with
  | Some i => i
  | None => Z.max 50 (Z.min 1000 (maxBlockMs l / 2))
  end.

Definition start (now : Z) : watch := mkWatch None now false 0.

Definition kill (r : reason) (w : watch) : watch * list effect :=
  if stopped w then (w, []) else (mkWatch (pending w) (lastTick w) true (next_ping w), [Terminate r]).

Section watch.
Context (l : limits) (intervalMs : option Z).
Let interval := intervalOf l intervalMs.

Definition stalled (now : Z) (w : watch) : bool := 2 * interval <? now - lastTick w.

Definition tick (now : Z) (busy : bool) (w : watch) : watch * list effect :=
  if stopped w then (w, [])
  else
    let late := stalled now w in
    let on p := mkWatch p now false (next_ping w) in
    match pending w with
    | Some (i, since) =>
        if late || busy then (on (Some (i, now)), [AskHeap])
        else if maxBlockMs l <? now - since then kill BlockedEventLoop (on (Some (i, since)))
        else (on (Some (i, since)), [AskHeap])
    | None => (mkWatch (Some (next_ping w, now)) now false (S (next_ping w)), [Ping (next_ping w); AskHeap])
    end.

Definition pong (i : nat) (w : watch) : watch :=
  match pending w with
  | Some (j, _) => if bool_decide (i = j) then mkWatch None (lastTick w) (stopped w) (next_ping w) else w
  | None => w
  end.

Definition halt (w : watch) : watch := mkWatch (pending w) (lastTick w) true (next_ping w).

Definition step (ev : event) (w : watch) : watch * list effect :=
  match ev with
  | Tick now busy => tick now busy w
  | Pong i => (pong i w, [])
  | Heap external_memory => if externalMb l * 1024 * 1024 <? external_memory then kill ExternalMemory w else (w, [])
  | Exited | Stopped => (halt w, [])
  end.

Fixpoint run (w : watch) (evs : list event) : watch * list effect :=
  match evs with
  | [] => (w, [])
  | ev :: evs => let '(w1, e1) := step ev w in let '(w2, e2) := run w1 evs in (w2, e1 ++ e2)
  end.

(** ** A worker that does not answer *)

(** Ticks a moment apart, none of them with a file call in flight, and no reply
    to the pings of [out]. *)
Fixpoint silent (out : nat -> bool) (last : Z) (evs : list event) : bool :=
  match evs with
  | [] => true
  | Tick now busy :: evs => negb busy && (now - last <=? 2 * interval) && silent out now evs
  | Pong i :: evs => negb (out i) && silent out last evs
  | _ :: evs => silent out last evs
  end.

Definition tick_time (last : Z) (ev : event) : Z := match ev with Tick now _ => now | _ => last end.
Definition last_tick (last : Z) (evs : list event) : Z := fold_left tick_time evs last.

(** The clock of the ticks does not go back. *)
Fixpoint clock (last : Z) (evs : list event) : bool :=
  match evs with
  | [] => true
  | Tick now _ :: evs => (last <=? now) && clock now evs
  | _ :: evs => clock last evs
  end.

Definition terminations (effs : list effect) : list reason :=
  omap (fun e => match e with Terminate r => Some r | _ => None end) effs.

(** The worker is over, by itself or as [stop] says. *)
Definition over (evs : list event) : Prop := Exited ∈ evs \/ Stopped ∈ evs.

(** ** Lemmas *)

Lemma run_app w evs1 evs2 :
  run w (evs1 ++ evs2) = ((run (run w evs1).1 evs2).1, (run w evs1).2 ++ (run (run w evs1).1 evs2).2).
Proof.
  revert w. induction evs1 as [|ev evs1 IH]; intros w; cbn; [by destruct (run w evs2)|].
  destruct (step ev w) as [w1 e1]; cbn. rewrite IH. destruct (run w1 evs1) as [w2 e2]; cbn.
  destruct (run w2 evs2) as [w3 e3]; cbn. by rewrite app_assoc.
Qed.

Lemma run_snoc w evs ev :
  run w (evs ++ [ev]) = ((step ev (run w evs).1).1, (run w evs).2 ++ (step ev (run w evs).1).2).
Proof. rewrite run_app. cbn. destruct (step ev (run w evs).1) as [w1 e1]; cbn. by rewrite app_nil_r. Qed.

Lemma stopped_step ev w : stopped w = true -> stopped (step ev w).1 = true /\ (step ev w).2 = [].
Proof.
  intros H. destruct ev; cbn; unfold tick, pong, kill; rewrite ?H; try done.
  - by repeat split_match.
  - split_match; by rewrite ?H.
Qed.

Lemma stopped_run evs w : stopped w = true -> stopped (run w evs).1 = true /\ (run w evs).2 = [].
Proof.
  revert w. induction evs as [|ev evs IH]; intros w H; [done|]. cbn.
  destruct (stopped_step ev w H) as [H1 H2]. destruct (step ev w) as [w1 e1]; cbn in *. subst.
  destruct (IH w1 H1) as [H3 H4]. destruct (run w1 evs). cbn in *. by subst.
Qed.

(** A step terminates the worker once, and then stops. *)
Lemma step_terminates ev w :
  terminations (step ev w).2 = [] \/
  (stopped w = false /\ stopped (step ev w).1 = true /\ exists r, (step ev w).2 = [Terminate r]).
Proof.
  destruct ev; cbn; unfold tick, kill; repeat split_match; cbn; try (by left); right; naive_solver.
Qed.

Lemma terminations_app a b : terminations (a ++ b) = terminations a ++ terminations b.
Proof. apply omap_app. Qed.

Lemma terminated_once w evs : (length (terminations (run w evs).2) <= 1)%nat.
Proof.
  revert w. induction evs as [|ev evs IH]; intros w; [cbn; lia|]. cbn [run].
  pose proof (step_terminates ev w) as H. pose proof (IH (step ev w).1) as HI.
  pose proof (stopped_run evs (step ev w).1) as HS.
  destruct (step ev w) as [w1 e1], (run w1 evs) as [w2 e2] eqn:E. cbn [fst snd] in *. rewrite E in *. cbn [fst snd] in *.
  rewrite terminations_app, length_app. destruct H as [-> | (_ & H & r & ->)]; cbn [length]; [lia|].
  destruct (HS H) as [_ ->]. cbn. lia.
Qed.

Lemma elem_terminations r effs : Terminate r ∈ effs <-> r ∈ terminations effs.
Proof.
  unfold terminations. rewrite list_elem_of_omap. split; [by exists (Terminate r)|].
  intros (e & He & E). by destruct e; simplify_eq.
Qed.
Lemma silent_app out last a b : silent out last (a ++ b) = silent out last a && silent out (last_tick last a) b.
Proof.
  revert last. induction a as [|ev a IH]; intros last; [done|].
  destruct ev; cbn; rewrite ?IH, ?andb_assoc; done.
Qed.

Lemma last_tick_app last a b : last_tick last (a ++ b) = last_tick (last_tick last a) b.
Proof. apply fold_left_app. Qed.

Lemma clock_app last a b : clock last (a ++ b) = clock last a && clock (last_tick last a) b.
Proof.
  revert last. induction a as [|ev a IH]; intros last; [done|].
  destruct ev; cbn; rewrite ?IH, ?andb_assoc; done.
Qed.

(** While it is watched: the last tick is the last there was, and a ping out was
    sent, and then timed from a tick since which its worker was silent. *)
Definition timed_from (t0 : Z) (evs : list event) (i : nat) (since : Z) : Prop :=
  exists evs0 busy mid, evs = evs0 ++ Tick since busy :: mid /\
    silent (fun j => bool_decide (j = i)) since mid = true /\
    Ping i ∈ (run (start t0) (evs0 ++ [Tick since busy])).2.

Definition watched (t0 : Z) (evs : list event) (w : watch) : Prop :=
  stopped w = false ->
  lastTick w = last_tick t0 evs /\
  forall i since, pending w = Some (i, since) -> timed_from t0 evs i since.

Lemma timed_more t0 evs i since evs' :
  timed_from t0 evs i since -> silent (fun j => bool_decide (j = i)) (last_tick t0 evs) evs' = true ->
  timed_from t0 (evs ++ evs') i since.
Proof.
  intros (evs0 & b & mid & -> & Hs & Hp) H'. exists evs0, b, (mid ++ evs'). split; [by rewrite <- app_assoc|].
  split; [|done]. rewrite silent_app, Hs. rewrite last_tick_app in H'. exact H'.
Qed.

Lemma timed_anew t0 evs i since now b :
  timed_from t0 evs i since -> timed_from t0 (evs ++ [Tick now b]) i now.
Proof.
  intros (evs0 & b0 & mid & -> & Hs & Hp). exists (evs0 ++ Tick since b0 :: mid), b, []. split; [done|]. split; [done|].
  rewrite <- app_assoc. cbn [app]. rewrite run_app in Hp |- *. cbn [snd] in *.
  rewrite elem_of_app in *. destruct Hp as [Hp|Hp]; [by left|right].
  change (Tick since b0 :: mid ++ [Tick now b]) with ([Tick since b0] ++ (mid ++ [Tick now b])).
  rewrite run_app. cbn [snd]. rewrite elem_of_app. by left.
Qed.

Lemma watched_run t0 evs : watched t0 evs (run (start t0) evs).1.
Proof.
  induction evs as [|ev evs IH] using rev_ind; [by intros _|].
  unfold watched in IH |- *. unfold last_tick. rewrite run_snoc, fold_left_app. fold (last_tick t0 evs). cbn [fst fold_left].
  set (w := (run (start t0) evs).1) in *. intros Hs.
  destruct (stopped w) eqn:Hw; [by destruct (stopped_step ev w Hw); congruence|]. destruct (IH eq_refl) as [Hl Hp].
  destruct ev as [now busy|i|m| |]; cbn in *; try done.
  - unfold tick in *. rewrite Hw in *. destruct (pending w) as [[i since]|] eqn:Ep.
    + destruct (stalled now w || busy) eqn:Eb; [|destruct (maxBlockMs l <? now - since)]; cbn in *; [| done |];
        (split; [done|]); intros i' s' [= <- <-].
      * by apply (timed_anew t0 evs i since); apply Hp.
      * apply timed_more; [by apply Hp|]. cbn. apply orb_false_iff in Eb as [Ha ->]. unfold stalled in Ha.
        rewrite <- Hl. rewrite andb_true_r. cbn. lia.
    + cbn. split; [done|]. intros i' s' [= <- <-]. exists evs, busy, []. split; [done|]. split; [done|].
      rewrite run_snoc. cbn. fold w. unfold tick. rewrite Hw, Ep. cbn. set_solver.
  - split; [by unfold pong; repeat split_match|]. intros i' s' H. unfold pong in *.
    destruct (pending w) as [[j sj]|] eqn:Ep; [|congruence]. case_bool_decide; [done|].
    rewrite Ep in H. injection H as <- <-. apply timed_more; [by apply Hp|]. cbn. by rewrite bool_decide_false.
  - destruct (externalMb l * 1024 * 1024 <? m); [unfold kill in Hs; rewrite Hw in Hs; done|].
    split; [done|]. intros i s' H. apply timed_more; [by apply Hp|done].
Qed.

(** [kill]'s reason, at the event that has it. *)
Lemma step_reason r ev w :
  Terminate r ∈ (step ev w).2 ->
  (exists now since i, r = BlockedEventLoop /\ ev = Tick now false /\ stopped w = false /\
     pending w = Some (i, since) /\ stalled now w = false /\ maxBlockMs l < now - since) \/
  (exists m, r = ExternalMemory /\ ev = Heap m /\ externalMb l * 1024 * 1024 < m).
Proof.
  destruct ev as [now busy|i|m| |]; cbn; try (by intros H; inversion H).
  - unfold tick. destruct (stopped w) eqn:Hw; [by intros H; inversion H|].
    destruct (pending w) as [[i since]|] eqn:Ep; [|set_solver].
    destruct (stalled now w || busy) eqn:Eb; [set_solver|]. apply orb_false_iff in Eb as [Ha ->].
    destruct (maxBlockMs l <? now - since) eqn:Em; cbn; [|set_solver].
    intros H. apply list_elem_of_singleton in H as [= ->]. left. exists now, since, i. repeat split; try done. lia.
  - destruct (externalMb l * 1024 * 1024 <? m) eqn:Em; [|by intros H; inversion H].
    unfold kill. destruct (stopped w); cbn; [by intros H; inversion H|].
    intros H. apply list_elem_of_singleton in H as [= ->]. right. exists m. repeat split; try done. lia.
Qed.

Lemma reason_at r w evs :
  Terminate r ∈ (run w evs).2 ->
  exists evs1 ev evs2, evs = evs1 ++ ev :: evs2 /\ Terminate r ∈ (step ev (run w evs1).1).2.
Proof.
  induction evs as [|ev evs IH] using rev_ind; [intros H; inversion H|].
  rewrite run_snoc. cbn [snd]. rewrite elem_of_app. intros [H|H].
  - destruct (IH H) as (evs1 & ev' & evs2 & -> & H'). exists evs1, ev', (evs2 ++ [ev]). split; [by rewrite <- app_assoc|done].
  - by exists evs, ev, [].
Qed.

(** The ping out has been timed for less than a block. *)
Definition timely (w : watch) : Prop :=
  stopped w = false -> forall i since, pending w = Some (i, since) -> 0 <= lastTick w - since <= maxBlockMs l.

Section caught.
Hypothesis block_nonneg : 0 <= maxBlockMs l.

Lemma timely_step ev w :
  stopped w = false -> clock (lastTick w) [ev] = true -> timely w -> timely (step ev w).1.
Proof using block_nonneg.
  intros Hw Hc Ht. specialize (Ht Hw). intros Hs i' s'.
  destruct ev as [now busy|i|m| |]; cbn in *; try done.
  - unfold tick in *. rewrite Hw in *. destruct (pending w) as [[i since]|] eqn:Ep.
    + specialize (Ht i since eq_refl). destruct (stalled now w || busy); cbn in *; [intros [= <- <-]; lia|].
      destruct (maxBlockMs l <? now - since) eqn:Em; cbn in *; [done|]. intros [= <- <-]. lia.
    + cbn. intros [= <- <-]. lia.
  - unfold pong. destruct (pending w) as [[j sj]|] eqn:Ep; [case_bool_decide|]; cbn; try done; rewrite Ep; apply Ht.
  - unfold kill in *. destruct (externalMb l * 1024 * 1024 <? m); [rewrite Hw in Hs; done|]. by apply Ht.
Qed.

Lemma timely_run t0 evs : clock t0 evs = true -> timely (run (start t0) evs).1.
Proof using block_nonneg.
  induction evs as [|ev evs IH] using rev_ind; [by intros _ ?|].
  rewrite clock_app, run_snoc. cbn [fst]. intros Hc. apply andb_true_iff in Hc as [Hc He].
  pose proof (watched_run t0 evs) as HW. specialize (IH Hc).
  destruct (stopped (run (start t0) evs).1) eqn:Hs.
  - destruct (stopped_step ev _ Hs) as [H _]. intros H'. congruence.
  - destruct (HW Hs) as [Hl _]. apply timely_step; [done| |done]. by rewrite Hl.
Qed.

(** Once a ping is out, silence for longer than a block ends the watch. *)
Lemma caught_pending evs w i since :
  stopped w = false -> pending w = Some (i, since) -> lastTick w - since <= maxBlockMs l ->
  silent (fun _ => true) (lastTick w) evs = true -> since + maxBlockMs l < last_tick (lastTick w) evs ->
  stopped (run w evs).1 = true.
Proof using Type.
  revert w. induction evs as [|ev evs IH]; intros w Hw Hp Hr Hs Hl; [cbn in Hl; lia|]. cbn [run].
  pose proof (stopped_run evs (step ev w).1) as HS. specialize (IH (step ev w).1).
  destruct (step ev w) as [w1 e1] eqn:E. cbn [fst] in *. destruct (run w1 evs) as [w2 e2]. cbn [fst] in *.
  destruct (stopped w1) eqn:H1; [by apply HS|].
  destruct ev as [now busy|j|m| |]; cbn in E, Hs, Hl; try done; try by (simplify_eq; cbn in H1).
  - apply andb_true_iff in Hs as [Hs Hs3]. apply andb_true_iff in Hs as [Hs1 Hs2].
    destruct busy; [done|]. revert E. unfold tick, stalled. rewrite Hw, Hp. rewrite orb_false_r.
    destruct (2 * interval <? now - lastTick w) eqn:Ea; [lia|].
    destruct (maxBlockMs l <? now - since) eqn:Em; intros [= <- <-]; [done|]. cbn in *.
    apply IH; try done. lia.
  - unfold kill in E. destruct (externalMb l * 1024 * 1024 <? m); 
      [rewrite Hw in E; injection E as <- <-; done | injection E as <- <-; by apply IH].
Qed.

(** A hung worker's watch ends: the first tick sends a ping if none is out, and
    the block is seen at the tick after [maxBlockMs]. *)
Lemma caught evs w :
  stopped w = false -> timely w -> silent (fun _ => true) (lastTick w) evs = true ->
  lastTick w + 2 * interval + maxBlockMs l < last_tick (lastTick w) evs -> 0 <= interval ->
  stopped (run w evs).1 = true.
Proof using block_nonneg.
  revert w. induction evs as [|ev evs IH]; intros w Hw Ht Hs Hl Hi; [cbn in Hl; lia|].
  destruct (pending w) as [[i since]|] eqn:Ep.
  { apply (caught_pending _ w i since Hw Ep); [apply (Ht Hw i since Ep)|done|]. pose proof (Ht Hw i since Ep). lia. }
  cbn [run]. pose proof (stopped_run evs (step ev w).1) as HS. specialize (IH (step ev w).1).
  pose proof (caught_pending evs (step ev w).1 (next_ping w)) as HC.
  destruct (step ev w) as [w1 e1] eqn:E. cbn [fst] in *. destruct (run w1 evs) as [w2 e2]. cbn [fst] in *.
  destruct (stopped w1) eqn:H1; [by apply HS|].
  destruct ev as [now busy|j|m| |]; cbn in E, Hs, Hl; try done; try by (injection E as <- <-).
  - apply andb_true_iff in Hs as [Hs Hs3]. apply andb_true_iff in Hs as [Hs1 Hs2].
    unfold tick in E. rewrite Hw, Ep in E. injection E as <- <-. cbn in *. apply (HC now); try done; unfold last_tick; lia.
  - unfold kill in E. destruct (externalMb l * 1024 * 1024 <? m);
      [rewrite Hw in E; injection E as <- <-; done | injection E as <- <-; by apply IH].
Qed.
End caught.

Lemma stopped_why w evs :
  stopped w = false -> stopped (run w evs).1 = true -> over evs \/ exists r, Terminate r ∈ (run w evs).2.
Proof.
  revert w. induction evs as [|ev evs IH]; intros w Hw; [cbn; congruence|]. cbn [run].
  pose proof (step_terminates ev w) as HT. specialize (IH (step ev w).1).
  destruct (step ev w) as [w1 e1] eqn:E. cbn [fst snd] in *. destruct (run w1 evs) as [w2 e2]. cbn [fst snd] in *.
  unfold over in *. setoid_rewrite elem_of_app. setoid_rewrite elem_of_cons.
  destruct (stopped w1) eqn:H1; [|naive_solver]. intros _.
  destruct ev as [now busy|j|m| |]; [right|exfalso|right|left; left; by left|left; right; by left].
  - unfold step, tick, kill in E. rewrite Hw in E.
    destruct (pending w) as [[i since]|]; [destruct (_ || _); [|destruct (_ <? _)]|]; cbn in E; injection E as <- <-; cbn in *; try done.
    exists BlockedEventLoop. left. set_solver.
  - unfold step, pong in E. destruct (pending w) as [[i si]|]; [case_bool_decide|]; injection E as <- <-; cbn in *; congruence.
  - unfold step, kill in E. rewrite Hw in E. destruct (_ <? _); injection E as <- <-; [|congruence].
    exists ExternalMemory. left. set_solver.
Qed.

Lemma heap_stops m w evs :
  Heap m ∈ evs -> externalMb l * 1024 * 1024 < m -> stopped (run w evs).1 = true.
Proof.
  intros (evs1 & evs2 & ->)%list_elem_of_split Hm. rewrite run_app. cbn [fst run step].
  replace (externalMb l * 1024 * 1024 <? m) with true by lia. unfold kill.
  destruct (stopped (run w evs1).1) eqn:Hs.
  - destruct (run (run w evs1).1 evs2) eqn:E. cbn. change w0 with (w0, l0).1. rewrite <- E. by apply stopped_run.
  - destruct (run (mkWatch _ _ true _) evs2) eqn:E. cbn. change w0 with (w0, l0).1. rewrite <- E. by apply stopped_run.
Qed.

(** ** The theorem *)

(** C23: The watch of a worker ends it for what it did, once, and in time. Over
    any run of ticks, replies, measurements, exits and stops, with a clock that
    does not go back and a limit and an interval that are not negative, the
    worker is terminated at most once and never after it exited or the watch was stopped.
    It is terminated as blocked only at a tick at which a ping had gone
    unanswered for more than [maxBlockMs] through ticks none of which was late
    or had a file call in flight, and for its memory only if that was measured
    beyond the limit; a measurement beyond it always ends the watch. A worker
    that answers no ping while the ticks come in time and no file call is in
    flight has been terminated (if nothing else ended it) at the first tick more
    than two intervals and [maxBlockMs] after the last one before. *)
Theorem limits_enforced (t0 : Z) (evs : list event) :
  0 <= maxBlockMs l -> 0 <= intervalOf l intervalMs -> clock t0 evs = true ->
  let '(w, effs) := run (start t0) evs in
  (length (terminations effs) <= 1)%nat /\
  (forall evs1 ev evs2, evs = evs1 ++ ev :: evs2 -> ev = Exited \/ ev = Stopped -> effs = (run (start t0) evs1).2) /\
  (Terminate BlockedEventLoop ∈ effs ->
   exists evs0 since busy mid now evs2 i,
     evs = evs0 ++ Tick since busy :: mid ++ Tick now false :: evs2 /\
     Ping i ∈ (run (start t0) (evs0 ++ [Tick since busy])).2 /\
     silent (fun j => bool_decide (j = i)) since (mid ++ [Tick now false]) = true /\ maxBlockMs l < now - since) /\
  (Terminate ExternalMemory ∈ effs -> exists m, Heap m ∈ evs /\ externalMb l * 1024 * 1024 < m) /\
  (forall m, Heap m ∈ evs -> externalMb l * 1024 * 1024 < m -> over evs \/ exists r, Terminate r ∈ effs) /\
  (forall evs1 evs2, evs = evs1 ++ evs2 -> silent (fun _ => true) (last_tick t0 evs1) evs2 = true ->
   last_tick t0 evs1 + 2 * intervalOf l intervalMs + maxBlockMs l < last_tick t0 evs ->
   over evs \/ exists r, Terminate r ∈ effs).
Proof.
  intros Hb Hi Hc. pose proof (stopped_why (start t0) evs eq_refl) as HW.
  destruct (run (start t0) evs) as [w effs] eqn:E. cbn [fst snd] in HW.
  assert (Ew : w = (run (start t0) evs).1) by by rewrite E.
  assert (Ee : effs = (run (start t0) evs).2) by by rewrite E.
  split; [rewrite Ee; apply terminated_once|]. split.
  { intros evs1 ev evs2 -> Hev. rewrite Ee, run_app. cbn [snd run].
    assert (HS : stopped (step ev (run (start t0) evs1).1).1 = true /\ (step ev (run (start t0) evs1).1).2 = [])
      by by destruct Hev as [-> | ->].
    destruct (step ev _) as [w1 e1]. cbn [fst snd] in HS. destruct HS as [Hs ->].
    pose proof (stopped_run evs2 w1 Hs) as [_ H]. destruct (run w1 evs2). cbn in *. subst. by rewrite app_nil_r. }
  split.
  { rewrite Ee. intros (evs1 & ev & evs2 & -> & H)%reason_at.
    apply step_reason in H as [(now & since & i & _ & -> & Hw & Hp & Hl & Hm)|(m & [=] & _)].
    destruct (watched_run t0 evs1 Hw) as [HL HP].
    destruct (HP i since Hp) as (evs0 & b & mid & -> & Hs & Hping).
    exists evs0, since, b, mid, now, evs2, i. split; [by rewrite <- app_assoc|]. split; [done|]. split; [|done].
    rewrite silent_app, Hs. unfold stalled in Hl. rewrite last_tick_app in HL.
    change (last_tick _ (Tick since b :: mid)) with (last_tick since mid) in HL. rewrite HL in Hl. cbn.
    rewrite andb_true_r. lia. }
  split.
  { rewrite Ee. intros (evs1 & ev & evs2 & -> & H)%reason_at.
    apply step_reason in H as [(now & since & i & [=] & _)|(m & _ & -> & Hm)]. exists m. split; [|done].
    apply elem_of_app. right. by left. }
  split.
  { intros m Hm Hx. apply HW. rewrite Ew. by apply (heap_stops m). }
  intros evs1 evs2 -> Hs Hl. apply HW. rewrite Ew, run_app. cbn [fst].
  destruct (stopped (run (start t0) evs1).1) eqn:H1; [by apply stopped_run|].
  destruct (watched_run t0 evs1 H1) as [HL _]. rewrite clock_app in Hc. apply andb_true_iff in Hc as [Hc _].
  rewrite <- HL in *. rewrite last_tick_app, <- HL in Hl. apply caught; try done. by apply timely_run.
Qed.
End watch.

(** A worker with a limit of 400 ms and 64 MB, in ticks of 200 ms, that answers
    the first ping and no more. *)
Lemma limits_enforced_witness :
  terminations (run (mkLimits 400 64) None (start 0)
    [Tick 200 false; Pong 0; Heap 1000; Tick 400 false; Tick 600 true; Tick 800 false; Tick 1000 false; Tick 1200 false]).2
  = [BlockedEventLoop] /\
  (length (terminations (run (mkLimits 400 64) None (start 0) [Tick 200 false; Tick 1300 false]).2) <= 1)%nat.
Proof.
  split; [vm_compute; reflexivity|].
  apply (limits_enforced (mkLimits 400 64) None 0 [Tick 200 false; Tick 1300 false]); vm_compute; congruence || reflexivity.
Defined.
