(* ===== verification/ModuleLoader.v ===== *)
(** * A module's files as a worker sees them (lib/fs-broker/identity.js and the
    grants of lib/fs-broker/patch.js)

    Module code lives under /app: specifiers are mapped to host paths, resolved
    by Node's own resolver, bounded, and mapped back. The resolver reads the
    disk through the patched [fs], which serves it from the host only where a
    grant covers the path, and asks the broker for everything else. *)
From Stdlib Require Import ZArith Ascii String.
From stdpp Require Import prelude strings.
From S2P Require Import Prelude Paths Namespace Json ModuleData Prog.

Set Default Proof Using "Type".

Definition VROOT : string := "/app".
Definition MODULE_SPECIFIER : string := "countinghouse-module:".

(** [inside]: without the root's case of the namespace's. *)
Definition under (p root : string) : bool := String.eqb p root || starts_with (root +:+ "/") p.

Lemma under_refl p : under p p = true.
Proof. unfold under. by rewrite String.eqb_refl. Qed.

Lemma under_iff p r : under p r = true <-> p = r \/ exists u, p = r +:+ "/" +:+ u.
Proof.
  unfold under. rewrite orb_true_iff, String.eqb_eq, starts_with_iff.
  split; (intros [->|[u ->]]; [by left|right; exists u; by rewrite sapp_assoc]).
Qed.

Lemma under_trans p q r : under p q = true -> under q r = true -> under p r = true.
Proof.
  rewrite !under_iff. intros [->|[u ->]] [->|[v ->]]; [by left|right; by exists v|right; by exists u|].
  right. exists (v +:+ "/" +:+ u). by rewrite !sapp_assoc.
Qed.

(** [p] is [root] or below it. Neither path has an empty or a dot segment, so
    the prefix is a path's. *)
Definition contained (p root : string) : Prop := canonical p /\ canonical root /\ under p root = true.

Lemma contained_refl p : canonical p -> contained p p.
Proof. intros H. split; [done|]. split; [done|]. apply under_refl. Qed.

Lemma contained_trans p q r : contained p q -> contained q r -> contained p r.
Proof. intros (Hp & _ & H1) (_ & Hr & H2). split; [done|]. split; [done|]. by apply (under_trans p q). Qed.

(** ** Grants *)

Record grants := mkGrants { g_roots : list string; g_files : list string; g_bootRoots : list string }.

Definition no_grants : grants := mkGrants [] [] [].

Fixpoint remove_first (x : string) (l : list string) : list string :=
  match l with
  | [] => []
  | y :: l => if String.eqb x y then l else y :: remove_first x l
  end.

(** [list.splice(list.lastIndexOf(x), 1)], when it is there. *)
Definition remove_last (x : string) (l : list string) : list string := rev (remove_first x (rev l)).

(** [take]: what it adds, and what its release does to the list by then. *)
Definition take_items (items l : list string) : list string := l ++ items.
Definition release_items (items l : list string) : list string := fold_left (fun l x => remove_last x l) items l.

Section loader.
(** Node's [url] and the process's directory. *)
Context (fileURLToPath : string -> result string) (pathToFileURL : string -> string) (pcwd : string).

Definition absolute (xs : list string) : list string := map (fun x => resolve pcwd [x]) xs.

Definition resolving (rs : list string) (g : grants) : grants :=
  mkGrants (take_items (absolute rs) (g_roots g)) (g_files g) (g_bootRoots g).
Definition end_resolving (rs : list string) (g : grants) : grants :=
  mkGrants (release_items (absolute rs) (g_roots g)) (g_files g) (g_bootRoots g).
Definition reading (f : string) (g : grants) : grants :=
  mkGrants (g_roots g) (take_items (absolute [f]) (g_files g)) (g_bootRoots g).
Definition end_reading (f : string) (g : grants) : grants :=
  mkGrants (g_roots g) (release_items (absolute [f]) (g_files g)) (g_bootRoots g).
Definition boot (rs : list string) (g : grants) : grants :=
  mkGrants (g_roots g) (g_files g) (take_items (absolute rs) (g_bootRoots g)).
Definition end_boot (rs : list string) (g : grants) : grants :=
  mkGrants (g_roots g) (g_files g) (release_items (absolute rs) (g_bootRoots g)).

(** ** Who serves a call of [fs] *)

Definition STAT_KEYS : list string := ["realpathSync"; "statSync"; "lstatSync"; "existsSync"].
Definition READ_KEYS : list string := ["readFileSync"; "openSync"].
Definition BOOT_KEYS : list string := STAT_KEYS ++ READ_KEYS ++ ["readdirSync"].

Definition under_any (s : string) (roots : list string) : bool := existsb (under s) roots.

(** A path argument that is no string and no file URL has none. *)
Definition absolutePath (v : pathval) : result (option string) :=
  let! s := match v with
            | PStr s => Ok (Some s)
            | PUrl u => if starts_with "file:" u then (let! s := fileURLToPath u in Ok (Some s)) else Ok None
            | _ => Ok None
            end in
  match s with
  | None => Ok None
  | Some s =>
      let t := if starts_with "file:" s
               then match fileURLToPath s with Ok t => Some t | Throw _ => None end
               else Some s in
      Ok (match t with Some t => if is_absolute t then Some (resolve pcwd [t]) else None | None => None end)
  end.

(** [granted]; [onFs] when the object is [fs] and not its promises. *)
Definition granted (g : grants) (onFs : bool) (key : string) (v : pathval) : result bool :=
  if negb onFs || negb (includes key BOOT_KEYS) then Ok false
  else if is_nil (g_roots g) && is_nil (g_files g) && is_nil (g_bootRoots g) then Ok false
  else
    let! s := absolutePath v in
    Ok (match s with
        | None => false
        | Some s =>
            if under_any s (g_bootRoots g) then true
            else if includes key STAT_KEYS then under_any s (g_roots g)
            else includes key READ_KEYS && includes s (g_files g)
        end).

(** An argument of a call: null or missing, a number, or anything else. *)
Inductive arg := ANull | ANumber (n : Z) | APath (v : pathval).

Record route := mkRoute { rt_paths : option (list nat); rt_fd : option nat }.

Inductive served := ByOriginal | ByBroker | ByBootRefusal.

Definition arg_at (args : list arg) (i : nat) : arg := default ANull (args !! i).

(** [route.paths.every(...)]: left to right, to the first that is not. *)
Fixpoint all_granted (g : grants) (onFs : bool) (key : string) (args : list arg) (paths : list nat) : result bool :=
  match paths with
  | [] => Ok true
  | i :: paths =>
      match arg_at args i with
      | APath v => let! b := granted g onFs key v in if b : bool then all_granted g onFs key args paths else Ok false
      | _ => Ok false
      end
  end.

Definition real_descriptor (realFds : list Z) (rt : route) (args : list arg) : bool :=
  match rt_fd rt with
  | Some i => match arg_at args i with ANumber n => includes n realFds | _ => false end
  | None => false
  end.

(** [routed] *)
Definition routed (g : grants) (realFds : list Z) (onFs : bool) (key : string) (rt : route) (args : list arg) : result served :=
  if real_descriptor realFds rt args then Ok ByOriginal
  else
    match rt_paths rt with
    | Some (i :: paths) =>
        let! b := all_granted g onFs key args (i :: paths) in
        if b : bool then Ok ByOriginal else if is_nil (g_bootRoots g) then Ok ByBroker else Ok ByBootRefusal
    | _ => Ok ByBroker
    end.

(** [bootRefusal]: the first twenty paths are kept, and the answer is ENOENT in
    the shape the call's form has. *)
Record boot_outside := mkOutside { bo_paths : list string; bo_dropped : nat }.

Definition note_outside (shown : string) (b : boot_outside) : boot_outside :=
  if includes shown (bo_paths b) then b
  else if (length (bo_paths b) <? 20)%nat then mkOutside (bo_paths b ++ [shown]) (bo_dropped b)
  else mkOutside (bo_paths b) (S (bo_dropped b)).

Inductive refusal_form := Rejects (e : jserr) | Answers (b : bool) | CallsBackFalse | Throws (e : jserr) | CallsBack (e : jserr).

Definition without_Sync (key : string) : string :=
  if ends_with "Sync" key then stake (String.length key - 4) key else key.

Definition bootRefusal (onFs : bool) (key : string) (callback : bool) (shown : string) (b : boot_outside)
  : refusal_form * boot_outside :=
  let e := mkErr ("ENOENT: no such file or directory, " +:+ without_Sync key +:+ " '" +:+ shown +:+ "'")
             (Some "ENOENT"%string) (Some (-2)%Z) (Some (without_Sync key)) (Some shown) None in
  (if negb onFs then Rejects e
   else if String.eqb key "existsSync" then Answers false
   else if String.eqb key "exists" then CallsBackFalse
   else if ends_with "Sync" key then Throws e
   else if callback then CallsBack e else Throws e,
   note_outside shown b).

(** ** The mapper *)

Section mapper.
Context (moduleRoot : string).

Definition isVirtual (p : string) : bool := under p VROOT.
Definition toHost (v : string) : string := moduleRoot +:+ sdrop (String.length VROOT) v.
Definition toVirtual (h : string) : string := VROOT +:+ sdrop (String.length moduleRoot) h.
Definition isModuleHost (h : string) : bool := under h moduleRoot.

Record parent := mkParent { pa_host : option string; pa_fromModule : bool }.

Definition parent_of (parentURL : jsval) : result parent :=
  match parentURL with
  | JStr u =>
      if starts_with "file:" u then
        let! p := fileURLToPath u in
        Ok (if isVirtual p then mkParent (Some (toHost p)) true else mkParent (Some p) (isModuleHost p))
      else Ok (mkParent None true)
  | _ => Ok (mkParent None true)
  end.

Definition relative (t : string) : bool :=
  String.eqb t "." || String.eqb t ".." || starts_with "./" t || starts_with "../" t.

Definition specifier_of (s : string) (pa : parent) : result string :=
  if starts_with MODULE_SPECIFIER s then
    Ok (toHost (path_join [VROOT; resolve pcwd ["/"; sdrop (String.length MODULE_SPECIFIER) s]]))
  else
    let! t := (if starts_with "file:" s then fileURLToPath s else Ok s) in
    if pa_fromModule pa && isVirtual t then Ok (toHost t)
    else Ok (match pa_host pa with
             | Some host => if relative t then resolve pcwd [dirname host; t] else t
             | None => t
             end).

Definition moduleSpecifier (virtualPath : string) : string :=
  MODULE_SPECIFIER +:+ sdrop (String.length VROOT) virtualPath.

(** [specifierFor], with whether the hook is installed. *)
Definition specifierFor (installed : bool) (p : string) : string :=
  if installed && under p VROOT then moduleSpecifier p else p.

Definition codeUnderVroot (installDir : string) (loadedFiles : list string) : list string :=
  List.filter (fun f => under f VROOT) (installDir :: loadedFiles).

Definition underVrootMessage (clash : string) : string :=
  "countinghouse's own code is under " +:+ VROOT +:+ " (" +:+ clash +:+ "), where module workers show each module its " +:+
  "own files; install countinghouse elsewhere (for example /opt/countinghouse) or run with --no-workerThread".

Definition notFound (specifier : string) : jserr :=
  coded_error "MODULE_NOT_FOUND" ("Cannot find module '" +:+ specifier +:+ "' (countinghouse module sandbox)").

(** ** The hooks *)

(** What a resolver answers with, and what a hook does: it passes the next
    resolver's answer on, or makes one of its own. *)
Record resolution := mkRes { rs_url : jsval; rs_format : jsval }.
Inductive resolved_as := Passed (r : resolution) | Made (url : string) (format : jsval).

Record context := mkContext { cx_parentURL : jsval; cx_conditions : jsval }.

(** What a hook asks of Node, with the grants that hold meanwhile: the next
    resolver; [createRequire(host).resolve(s)]; a file read with the original
    [fs], as text or as the bytes of a CommonJS source; the next loader; and
    the report of a resolve out of bounds. *)
Inductive ldE : Type -> Type :=
| NextResolve (g : grants) (specifier : string) (cx : context) : ldE (result resolution)
| RequireResolve (g : grants) (host s : string) : ldE (result string)
| ReadText (host : string) : ldE (result string)
| ReadSource (host : string) (text : bool) : ldE (result jsval)
| NextLoad (g : grants) (hookUrl : jsval) : ldE (result jsval)
| ReportL2 (what : string) : ldE unit.

Record loader := mkLoader {
  ld_grants : grants;
  typeCache : list (string * string);
  lasting : list string;
  inner : option (string * jsval)      (* the specifier and parent of the hook's own [resolve] *)
}.

Definition with_grants (g : grants) (st : loader) : loader := mkLoader g (typeCache st) (lasting st) (inner st).
Definition with_cache (c : list (string * string)) (st : loader) : loader := mkLoader (ld_grants st) c (lasting st) (inner st).
Definition with_inner (i : option (string * jsval)) (st : loader) : loader := mkLoader (ld_grants st) (typeCache st) (lasting st) i.

(** A hook runs with the loader's state, to a value or an error. *)
Definition hook (A : Type) : Type := loader -> prog ldE (result A * loader).

Definition hret {A} (a : A) : hook A := fun st => Ret (Ok a, st).
Definition hthrow {A} (e : jserr) : hook A := fun st => Ret (Throw e, st).
Definition hbind {A B} (m : hook A) (k : A -> hook B) : hook B :=
  fun st => pbind (m st) (fun '(r, st) => match r with Ok a => k a st | Throw e => Ret (Throw e, st) end).
Definition hlift {A} (r : result A) : hook A := fun st => Ret (r, st).
Definition hget {A} (f : loader -> hook A) : hook A := fun st => f st st.
Definition hset (f : loader -> loader) : hook unit := fun st => Ret (Ok tt, f st).
Definition hask {A} (e : ldE (result A)) : hook A := fun st => pbind (ask e) (fun r => Ret (r, st)).
Definition htell (e : ldE unit) : hook unit := fun st => pbind (ask e) (fun _ => Ret (Ok tt, st)).
(** [try { m } finally { release }] *)
Definition hfinally {A} (m : hook A) (release : loader -> loader) : hook A :=
  fun st => pbind (m st) (fun '(r, st) => Ret (r, release st)).

Notation "'let*' x ':=' m 'in' k" := (hbind m (fun x => k)) (at level 200, x name, m at level 100, k at level 200).

Context (isBuiltin : string -> bool) (JSON_parse : string -> option jsval).
Context (mode : string) (countinghouseRoots : list string).
Definition enforced : bool := String.eqb mode "enforce".

(** [reportL2], under audit and enforce *)
Definition reportL2 (what : string) : hook unit :=
  if String.eqb mode "audit" || enforced then htell (ReportL2 what) else hret tt.

(** [bound] *)
Definition bound (hostPath : string) (fromModule : bool) (specifier : string) : hook unit :=
  if isModuleHost hostPath then hret tt
  else if negb fromModule && existsb (under hostPath) countinghouseRoots then hret tt
  else let* _ := reportL2 (stake 200 specifier) in
       if enforced then hthrow (notFound (stake 200 specifier)) else hret tt.

Definition type_of_package (raw : string) : string :=
  match JSON_parse raw with
  | Some v => if strict_eq (jget "type" v) (JStr "module") then "module" else "commonjs"
  | None => "commonjs"
  end.

(** [packageType]: up from [dir]; each step shortens it. *)
Fixpoint package_type (fuel : nat) (dir : string) : hook string :=
  match fuel with
  | O => hret "commonjs"
  | S f =>
      if negb (under dir moduleRoot) then hret "commonjs"
      else hget (fun st =>
        match assoc dir (typeCache st) with
        | Some t => hret t
        | None => fun st =>
            pbind (ask (ReadText (path_join [dir; "package.json"]))) (fun raw =>
              match raw with
              | Ok raw => let t := type_of_package raw in Ret (Ok t, with_cache (assoc_set dir t (typeCache st)) st)
              | Throw _ =>
                  if String.eqb dir moduleRoot || String.eqb dir (dirname dir) then Ret (Ok "commonjs"%string, st)
                  else package_type f (dirname dir) st
              end)
        end)
  end.

Definition packageType (hostFile : string) : hook string := package_type (S (String.length hostFile)) (dirname hostFile).

Definition formatOf (hostFile : string) : hook string :=
  let ext := extname hostFile in
  if String.eqb ext ".json" then hret "json"
  else if String.eqb ext ".mjs" then hret "module"
  else if String.eqb ext ".cjs" then hret "commonjs"
  else let* t := packageType hostFile in hret (if String.eqb t "module" then "module" else "commonjs").

Definition isRequire (cx : context) : bool :=
  match cx_conditions cx with JArr l => index_of (JStr "require") l | _ => false end.

Definition next_resolve (specifier : string) (cx : context) : hook resolution :=
  hget (fun st => hask (NextResolve (ld_grants st) specifier cx)).

(** What the resolvers found: a host path with its format, or an answer that is
    passed on. *)
Inductive found := Host (hostResolved : string) (format : jsval) | Elsewhere (r : resolution).

(** The CommonJS request of a module: resolved against the host parent. *)
Definition require_from (host s : string) (cx : context) : hook found :=
  let* _ := hset (with_inner (Some (s, JStr (pathToFileURL host)))) in
  let* h := hfinally (hget (fun st => hask (RequireResolve (ld_grants st) host s))) (with_inner None) in
  if isBuiltin h then let* r := next_resolve h cx in hret (Elsewhere r) else hret (Host h JUndef).

Definition resolve_next (s : string) (pa : parent) (cx : context) : hook found :=
  let s' := if is_absolute s && negb (isRequire cx) then pathToFileURL s else s in
  let purl := match pa_host pa with Some h => JStr (pathToFileURL h) | None => cx_parentURL cx end in
  let* r := next_resolve s' (mkContext purl (cx_conditions cx)) in
  match rs_url r with
  | JStr u =>
      if starts_with "file:" u then let* h := hlift (fileURLToPath u) in hret (Host h (rs_format r)) else hret (Elsewhere r)
  | _ => hret (Elsewhere r)
  end.

Definition find_target (s : string) (pa : parent) (cx : context) : hook found :=
  match pa_host pa with
  | Some host => if pa_fromModule pa && isRequire cx then require_from host s cx else resolve_next s pa cx
  | None => resolve_next s pa cx
  end.

(** A CommonJS file of the module reached by import. *)
Definition imported_cjs (h : string) (format : jsval) (cx : context) : hook bool :=
  if isModuleHost h then
    let* f := (if truthy format then hret format else let* t := formatOf h in hret (JStr t)) in
    hret (strict_eq f (JStr "commonjs") && negb (isRequire cx))
  else hret false.

(** The lasting grant of an imported CommonJS file. *)
Definition grant_lasting (h : string) (st : loader) : loader :=
  if includes h (lasting st) then st
  else mkLoader (reading h (resolving [h] (ld_grants st))) (typeCache st) (lasting st ++ [h]) (inner st).

Definition answer_host (h : string) (format : jsval) (cx : context) : hook resolved_as :=
  let* importedCjs := imported_cjs h format cx in
  if isModuleHost h && negb (String.eqb (extname h) ".node") && negb importedCjs
  then hret (Made (pathToFileURL (toVirtual h)) format)
  else let* _ := (if importedCjs : bool then hset (grant_lasting h) else hret tt) in hret (Made (pathToFileURL h) format).

Definition resolve_hook (specifier : string) (cx : context) : hook resolved_as :=
  hget (fun st =>
    if match inner st with
       | Some (s, p) => String.eqb s specifier && strict_eq p (cx_parentURL cx)
       | None => false
       end || isBuiltin specifier
    then let* r := next_resolve specifier cx in hret (Passed r)
    else
      let* pa := hlift (parent_of (cx_parentURL cx)) in
      let* s := hlift (specifier_of specifier pa) in
      let roots := if pa_fromModule pa then [moduleRoot] else moduleRoot :: countinghouseRoots in
      let* _ := hset (fun st => with_grants (resolving roots (ld_grants st)) st) in
      let* f := hfinally (find_target s pa cx) (fun st => with_grants (end_resolving roots (ld_grants st)) st) in
      match f with
      | Elsewhere r => hret (Passed r)
      | Host h format => let* _ := bound h (pa_fromModule pa) specifier in answer_host h format cx
      end).

Inductive loaded := Source (format : string) (source : jsval) | LoadedNext (v : jsval).

Definition load_hook (hookUrl : jsval) : hook loaded :=
  let next := hget (fun st => let* v := hask (NextLoad (ld_grants st) hookUrl) in hret (LoadedNext v)) in
  match hookUrl with
  | JStr u =>
      if starts_with "file:" u then
        let* p := hlift (fileURLToPath u) in
        if isVirtual p && negb (String.eqb (extname p) ".node") then
          let host := toHost p in
          let* format := formatOf host in
          let* source := hask (ReadSource host (negb (String.eqb format "commonjs"))) in
          hret (Source format source)
        else
          let* _ := hset (fun st => with_grants (reading p (ld_grants st)) st) in
          hfinally next (fun st => with_grants (end_reading p (ld_grants st)) st)
      else next
  | _ => next
  end.

(** ** Node's own lookups, under enforce *)

Section lookups.
(** [allowed] *)
Definition allowed_path (v : jsval) : bool :=
  match v with
  | JStr p =>
      if is_absolute p then let h := resolve pcwd [p] in isModuleHost h || existsb (under h) countinghouseRoots else true
  | _ => true
  end.

Definition toPath (isURL : bool) (v : jsval) : jsval :=
  let s := js_text v in
  JStr (if isURL || starts_with "file:" s then match fileURLToPath s with Ok p => p | Throw _ => s end else s).

Definition module_stat (orig : jsval -> Z) (filename : jsval) : Z := if allowed_path filename then orig filename else (-2)%Z.

Definition is_enoent (e : jserr) : bool := match e_code e with Some c => String.eqb c "ENOENT" | None => false end.

Definition is_false (v : jsval) : bool := match v with JBool false => true | _ => false end.

Definition module_findPath (orig : jsval -> result jsval) (request : jsval) : result jsval :=
  if negb (allowed_path request) then Ok (JBool false)
  else match orig request with
       | Throw e => if is_enoent e then Ok (JBool false) else Throw e
       | Ok found => Ok (if is_false found || allowed_path found then found else JBool false)
       end.

Definition is_builtin (v : jsval) : bool := match v with JStr s => isBuiltin s | _ => false end.

Definition module_resolveFilename (orig : jsval -> result jsval) (request : jsval) : result jsval :=
  let missing := notFound (stake 200 (js_text request)) in
  if is_builtin request then orig request
  else match orig request with
       | Throw e => if is_enoent e then Throw missing else Throw e
       | Ok found => if is_string found && negb (is_builtin found) && negb (allowed_path found) then Throw missing else Ok found
       end.

Definition module_readPackage (orig : jsval -> result jsval) (dir : jsval) : result jsval :=
  let p := path_join [js_text dir; "package.json"%string] in
  if allowed_path (JStr p) then orig dir
  else Ok (JObj [("type"%string, JStr "none"); ("exists"%string, JBool false); ("pjsonPath"%string, JStr p)]).

Definition module_findPackageJSON (orig : jsval -> jsval -> result jsval) (specifier base : jsval) (baseIsURL : bool) : result jsval :=
  if negb (is_nullish base) && negb (allowed_path (toPath baseIsURL base)) then Ok JUndef
  else let! found := orig specifier base in Ok (if is_nullish found || allowed_path found then found else JUndef).

(** What Node's lookups find outside the module and countinghouse's code is not
    told: a path any of them answers is in reach, and a file outside is missing
    whatever is there. *)
Theorem lookups_in_reach :
  (forall orig request p, module_findPath orig request = Ok (JStr p) -> allowed_path (JStr p) = true) /\
  (forall orig request p, is_builtin request = false -> module_resolveFilename orig request = Ok (JStr p) ->
     isBuiltin p = true \/ allowed_path (JStr p) = true) /\
  (forall orig specifier base isURL p, module_findPackageJSON orig specifier base isURL = Ok (JStr p) -> allowed_path (JStr p) = true) /\
  (forall o1 o2 v, allowed_path v = false -> module_stat o1 v = module_stat o2 v) /\
  (forall o1 o2 v, allowed_path v = false -> module_findPath o1 v = module_findPath o2 v) /\
  (forall o1 o2 d, allowed_path (JStr (path_join [js_text d; "package.json"%string])) = false ->
     module_readPackage o1 d = module_readPackage o2 d).
Proof.
  split; [|split; [|split; [|split; [|split]]]].
  - intros orig request p. unfold module_findPath. destruct (negb _); [done|].
    destruct (orig request) as [found|e]; [|by destruct (is_enoent e)]. intros [= H].
    destruct (is_false found) eqn:Ef; cbn [orb] in H; [by subst|]. destruct (allowed_path found) eqn:Ea; by subst.
  - intros orig request p Hb. unfold module_resolveFilename. rewrite Hb.
    destruct (orig request) as [found|e]; [|by destruct (is_enoent e)].
    destruct (_ && _) eqn:E; [done|]. intros [= ->]. cbn [is_string is_builtin andb] in E.
    apply andb_false_iff in E as [E|E]; [left|right]; by apply negb_false_iff in E.
  - intros orig specifier base isURL p. unfold module_findPackageJSON. destruct (_ && _); [done|].
    destruct (orig specifier base) as [found|e]; [|done]. cbn [rbind]. intros [= H].
    destruct (is_nullish found) eqn:En; cbn [orb] in H; [by subst|]. destruct (allowed_path found) eqn:Ea; by subst.
  - intros o1 o2 v H. unfold module_stat. by rewrite H.
  - intros o1 o2 v H. unfold module_findPath. by rewrite H.
  - intros o1 o2 d H. unfold module_readPackage. by rewrite H.
Qed.
End lookups.

(** ** Grants nest *)

Lemma remove_first_perm x l : x ∈ l -> x :: remove_first x l ≡ₚ l.
Proof.
  induction l as [|y l IH]; [by intros H; inversion H|]. cbn. destruct (String.eqb_spec x y) as [->|Hne]; [done|].
  intros [->|H]%elem_of_cons; [done|]. rewrite Permutation_swap. by rewrite IH.
Qed.

Lemma remove_first_app x a b : x ∈ a -> remove_first x (a ++ b) = remove_first x a ++ b.
Proof.
  induction a as [|y a IH]; [by intros H; inversion H|]. cbn. destruct (String.eqb_spec x y) as [->|Hne]; [done|].
  intros [->|H]%elem_of_cons; [done|]. by rewrite IH.
Qed.

Lemma remove_last_app x l r : x ∈ r -> remove_last x (l ++ r) = l ++ remove_last x r /\ x :: remove_last x r ≡ₚ r.
Proof.
  intros H. unfold remove_last. assert (Hr : x ∈ rev r) by by rewrite <- (Permutation_rev r).
  rewrite rev_app_distr, remove_first_app, rev_app_distr, rev_involutive by done. split; [done|].
  rewrite <- !Permutation_rev, remove_first_perm by done. by rewrite <- Permutation_rev.
Qed.

(** A release takes back exactly what its grant added, whatever the list had. *)
Lemma release_take items l : release_items items (take_items items l) = l.
Proof.
  unfold release_items, take_items.
  enough (H : forall r, items ≡ₚ r -> fold_left (fun l x => remove_last x l) items (l ++ r) = l) by by apply H.
  induction items as [|x items IH]; intros r Hr; cbn.
  - apply Permutation_nil_l in Hr as <-. by rewrite app_nil_r.
  - destruct (remove_last_app x l r) as [-> Hp]; [rewrite <- Hr; by left|]. apply IH.
    apply (Permutation_cons_inv (a := x)). by rewrite Hp.
Qed.

Lemma end_resolving_id rs g : end_resolving rs (resolving rs g) = g.
Proof. destruct g. unfold end_resolving, resolving. cbn [g_roots g_files g_bootRoots]. by rewrite release_take. Qed.

Lemma end_reading_id f g : end_reading f (reading f g) = g.
Proof. destruct g. unfold end_reading, reading. cbn [g_roots g_files g_bootRoots]. by rewrite release_take. Qed.

(** ** Rules for hooks

    Node's resolvers answer a builtin's name or a file's real path: absolute,
    with no empty and no dot segment. [hspec Q h m st]: from [st], after the
    history [h] and when they do, every request [m] makes is allowed and its
    result and final state satisfy [Q]. *)
Definition real_answers (_ : list (obs ldE)) (X : Type) (e : ldE X) (x : X) : Prop :=
  match e in ldE X return X -> Prop with
  | NextResolve _ _ _ => fun r => forall a u p,
      r = Ok a -> rs_url a = JStr u -> starts_with "file:" u = true -> fileURLToPath u = Ok p -> canonical p
  | RequireResolve _ _ _ => fun r => forall p, r = Ok p -> isBuiltin p = true \/ canonical p
  | _ => fun _ => True
  end x.

Section rules.
Context (allowed_request : forall X, ldE X -> Prop).

Definition hspec {A} (Q : list (obs ldE) -> result A -> loader -> Prop) (h : list (obs ldE)) (m : hook A) (st : loader) : Prop :=
  safe real_answers (fun _ X e => allowed_request X e) (fun h' x => Q h' x.1 x.2) h (m st).

Lemma hspec_mono {A} (Q Q' : list (obs ldE) -> result A -> loader -> Prop) h m st :
  hspec Q h m st -> (forall h' r st', Q h' r st' -> Q' h' r st') -> hspec Q' h m st.
Proof. intros H HQ. eapply safe_mono; [exact H|]. intros h' [r st']. apply HQ. Qed.

Lemma hspec_bind {A B} (Q : list (obs ldE) -> result A -> loader -> Prop) (R : list (obs ldE) -> result B -> loader -> Prop) h
    (m : hook A) (k : A -> hook B) st :
  hspec Q h m st ->
  (forall h' a st', Q h' (Ok a) st' -> hspec R h' (k a) st') ->
  (forall h' e st', Q h' (Throw e) st' -> R h' (Throw e) st') -> hspec R h (hbind m k) st.
Proof.
  intros Hm Hk Ht. eapply safe_bind; [exact Hm|]. intros h' [[a|e] st'] HQ; cbn in HQ; [by apply Hk|]. by apply Ht.
Qed.

Lemma hspec_finally {A} (Q R : list (obs ldE) -> result A -> loader -> Prop) h (m : hook A) release st :
  hspec Q h m st -> (forall h' r st', Q h' r st' -> R h' r (release st')) -> hspec R h (hfinally m release) st.
Proof. intros Hm HR. eapply safe_bind; [exact Hm|]. intros h' [r st'] HQ. by apply HR. Qed.

Lemma hspec_ask {A} (Q : list (obs ldE) -> result A -> loader -> Prop) h (e : ldE (result A)) st :
  allowed_request _ e -> (forall r, real_answers h _ e r -> Q (h ++ [Obs e r]) r st) -> hspec Q h (hask e) st.
Proof. intros He HQ. split; [done|]. intros r Hr. by apply HQ. Qed.

(** The grants and the files they last for stay, and no resolve of the hook's
    own is left running. *)
Definition same (st st' : loader) : Prop :=
  ld_grants st' = ld_grants st /\ lasting st' = lasting st /\ (inner st = None -> inner st' = None).

Lemma same_refl st : same st st.
Proof. done. Qed.

Lemma same_trans a b c : same a b -> same b c -> same a c.
Proof. intros (A & B & C) (D & E & F). unfold same. rewrite D, E. auto. Qed.

Definition keeps {A} (st : loader) (_ : list (obs ldE)) (_ : result A) (st' : loader) : Prop := same st st'.

(** The reads of package.json files. *)
Hypothesis reads_packages : forall dir, under dir moduleRoot = true -> allowed_request _ (ReadText (path_join [dir; "package.json"%string])).

Lemma package_type_keeps fuel dir h st : hspec (keeps st) h (package_type fuel dir) st.
Proof using reads_packages.
  revert dir h st. induction fuel as [|f IH]; intros dir h st; [done|]. cbn [package_type].
  destruct (under dir moduleRoot) eqn:E; cbn [negb]; [|done]. unfold hspec, hget. cbn beta.
  destruct (assoc dir (typeCache st)); [done|]. split; [by apply reads_packages|]. intros [raw|e] _; [done|].
  destruct (_ || _); [done|]. apply IH.
Qed.

Lemma formatOf_keeps hostFile h st : hspec (keeps st) h (formatOf hostFile) st.
Proof using reads_packages.
  unfold formatOf. repeat (case_match; [done|]). eapply hspec_bind; [apply package_type_keeps| |done]. by intros h' a st' Hs.
Qed.
End rules.

(** The roots are real paths too. *)
Section roots.
Context (Hroot : canonical moduleRoot) (Hroots : Forall canonical countinghouseRoots).

(** ** Resolving *)

(** Where the resolver may look for a parent's request. *)
Definition reach (pa : parent) : list string := if pa_fromModule pa then [moduleRoot] else moduleRoot :: countinghouseRoots.

Section resolve.
Context (st0 : loader) (specifier : string) (cx : context).

Definition resolve_request (X : Type) (e : ldE X) : Prop :=
  match e with
  | NextResolve g _ _ | RequireResolve g _ _ =>
      g = ld_grants st0 \/ exists pa, parent_of (cx_parentURL cx) = Ok pa /\ g = resolving (reach pa) (ld_grants st0)
  | ReadText p => exists dir, under dir moduleRoot = true /\ p = path_join [dir; "package.json"%string]
  | ReportL2 _ => True
  | ReadSource _ _ | NextLoad _ _ => False
  end.

(** An answer is passed on when it names a builtin, or no file. *)
Definition names_no_file (r : resolution) : Prop := forall u, rs_url r = JStr u -> starts_with "file:" u = false.

Definition passed_on (h : list (obs ldE)) (r : resolution) : Prop :=
  exists g s cx', Obs (NextResolve g s cx') (Ok r) ∈ h /\
    (isBuiltin s = true \/ names_no_file r \/ inner st0 <> None).

Definition host_in_reach (pa : parent) (h : string) : Prop :=
  contained h moduleRoot \/ (pa_fromModule pa = false /\ exists r, r ∈ countinghouseRoots /\ contained h r).

(** What a resolve comes to. *)
Definition resolves_to (h : list (obs ldE)) (r : result resolved_as) (st' : loader) : Prop :=
  match r with
  | Throw _ => same st0 st'
  | Ok (Passed r) => same st0 st' /\ passed_on h r
  | Ok (Made u _) =>
      exists pa hostResolved, parent_of (cx_parentURL cx) = Ok pa /\ canonical hostResolved /\
        (mode = "enforce" -> host_in_reach pa hostResolved) /\
        ((u = pathToFileURL (toVirtual hostResolved) /\ isModuleHost hostResolved = true /\ same st0 st') \/
         (u = pathToFileURL hostResolved /\ (isModuleHost hostResolved = false \/ extname hostResolved = ".node") /\ same st0 st') \/
         (u = pathToFileURL hostResolved /\ isModuleHost hostResolved = true /\ isRequire cx = false /\
          exists st1, same st0 st1 /\ st' = grant_lasting hostResolved st1))
  end.

Definition next_answers (st : loader) (s : string) (cx' : context) (h : list (obs ldE)) (r : result resolution) (st' : loader) : Prop :=
  st' = st /\ forall a, r = Ok a -> Obs (NextResolve (ld_grants st) s cx') (Ok a) ∈ h /\
    forall u p, rs_url a = JStr u -> starts_with "file:" u = true -> fileURLToPath u = Ok p -> canonical p.

Lemma next_resolve_spec h st s cx' :
  (ld_grants st = ld_grants st0 \/ exists pa, parent_of (cx_parentURL cx) = Ok pa /\ ld_grants st = resolving (reach pa) (ld_grants st0)) ->
  hspec resolve_request (next_answers st s cx') h (next_resolve s cx') st.
Proof.
  intros Hg. apply hspec_ask; [done|]. intros r Hr. split; [done|]. intros a ->. split; [apply elem_of_app; right; by left|].
  intros u p. by apply (Hr a).
Qed.

Definition found_ok (st : loader) (h : list (obs ldE)) (r : result found) (st' : loader) : Prop :=
  same st st' /\ match r with Ok (Elsewhere x) => passed_on h x | Ok (Host p _) => canonical p | Throw _ => True end.

Lemma find_target_spec h st s pa :
  parent_of (cx_parentURL cx) = Ok pa -> ld_grants st = resolving (reach pa) (ld_grants st0) ->
  hspec resolve_request (found_ok st) h (find_target s pa cx) st.
Proof.
  intros Hpa Hg.
  assert (Hreq : forall h' st1 s1 cx1, same st st1 ->
    hspec resolve_request (next_answers st1 s1 cx1) h' (next_resolve s1 cx1) st1).
  { intros h' st1 s1 cx1 (E & _). apply next_resolve_spec. right. exists pa. by rewrite E. }
  assert (Hnext : hspec resolve_request (found_ok st) h (resolve_next s pa cx) st).
  { unfold resolve_next. eapply hspec_bind; [by apply Hreq| |intros h' e st' [-> _]; by split].
    intros h' a st' [-> Ha].
    assert (Hno : names_no_file a -> hspec resolve_request (found_ok st) h' (hret (Elsewhere a)) st).
    { intros Hn. split; [done|]. eexists _, _, _. split; [by apply Ha|]. right. by left. }
    destruct (rs_url a) as [| | | | |u| |] eqn:Eu; try (apply Hno; by intros u' E; congruence).
    destruct (starts_with "file:" u) eqn:Ef; [|apply Hno; intros u' E; congruence].
    unfold hbind, hlift. cbn. destruct (fileURLToPath u) as [p|e] eqn:Ep; [|by split]. split; [done|].
    by apply (proj2 (Ha a eq_refl) u). }
  unfold find_target. destruct (pa_host pa) as [host|]; [|exact Hnext]. destruct (pa_fromModule pa && isRequire cx); [|exact Hnext].
  unfold require_from. eapply hspec_bind with (Q := fun _ r st1 => r = Ok tt /\ st1 = with_inner (Some (s, JStr (pathToFileURL host))) st); [done| |by intros h' e st' [? _]].
  intros h1 [] st1 [_ ->].
  eapply hspec_bind with (Q := fun _ r st' => same st st' /\ forall p, r = Ok p -> isBuiltin p = true \/ canonical p).
  - eapply hspec_finally with (Q := fun _ r st' => st' = with_inner (Some (s, JStr (pathToFileURL host))) st /\
                                 forall p, r = Ok p -> isBuiltin p = true \/ canonical p).
    + apply hspec_ask; [|done]. right. by exists pa.
    + by intros h' r st' [-> Hr].
  - intros h2 hh st2 [Hs Hh]. destruct (isBuiltin hh) eqn:Eb; [|split; [done|by destruct (Hh hh) as [?|?]; [|congruence|]]].
    eapply hspec_bind; [by apply Hreq| |intros h' e st' [-> _]; by split].
    intros h3 r st3 [-> Hr]. split; [done|]. eexists _, _, _. split; [by apply Hr|]. by left.
  - intros h' e st' [Hs _]. by split.
Qed.

Lemma bound_spec h st pa hh :
  canonical hh ->
  hspec resolve_request (fun _ r st' => st' = st /\ (r = Ok tt -> mode = "enforce" -> host_in_reach pa hh)) h
    (bound hh (pa_fromModule pa) specifier) st.
Proof using Hroot Hroots.
  intros Hcan. unfold bound, host_in_reach. destruct (isModuleHost hh) eqn:Em; [split; [done|by left]|].
  destruct (negb (pa_fromModule pa) && existsb (under hh) countinghouseRoots) eqn:Ex.
  { split; [done|]. intros _ _. right. apply andb_true_iff in Ex as [Hf Hx]. split; [by destruct (pa_fromModule pa)|].
    apply existsb_exists in Hx as (r & Hin & Hu). apply list_elem_of_In in Hin. exists r. split; [done|].
    split; [done|]. split; [by apply (proj1 (Forall_forall _ _) Hroots)|done]. }
  assert (He : hspec resolve_request (fun _ _ st' => st' = st) h (reportL2 (stake 200 specifier)) st)
    by by unfold reportL2; case_match.
  eapply hspec_bind; [exact He| |intros h' e st' ->; by split].
  intros h' a st' ->. unfold enforced. destruct (String.eqb_spec mode "enforce"); by split.
Qed.

Lemma answer_host_spec h st pa hh format :
  same st0 st -> parent_of (cx_parentURL cx) = Ok pa -> canonical hh -> (mode = "enforce" -> host_in_reach pa hh) ->
  hspec resolve_request resolves_to h (answer_host hh format cx) st.
Proof.
  intros Hs Hpa Hcan Hb. unfold answer_host.
  assert (Hi : hspec resolve_request (fun _ r st' => same st st' /\ (r = Ok true -> isModuleHost hh = true /\ isRequire cx = false))
                 h (imported_cjs hh format cx) st).
  { unfold imported_cjs. destruct (isModuleHost hh); [|by split].
    eapply hspec_bind with (Q := fun _ _ st' => same st st'); [|intros h' f st' Hs'|by intros h' e st' Hs'].
    - destruct (truthy format); [done|].
      eapply hspec_bind; [apply formatOf_keeps; intros dir Hd; by exists dir| |]; by intros h' t st' Hs'.
    - split; [done|]. intros [= H]. apply andb_true_iff in H as [_ H]. by destruct (isRequire cx). }
  eapply hspec_bind; [exact Hi| |intros h' e st' [Hs' _]; by apply (same_trans _ _ _ Hs)].
  intros h' b st' (Hs' & Hbt). pose proof (same_trans _ _ _ Hs Hs') as Hs0.
  destruct b; cbn [negb].
  - rewrite andb_false_r. destruct Hbt as [Hm Hr]; [done|]. exists pa, hh. do 3 (split; [done|]). right. right.
    split_and!; [done..|]. by exists st'.
  - rewrite andb_true_r. destruct (isModuleHost hh && negb (String.eqb (extname hh) ".node")) eqn:E; exists pa, hh;
      (do 3 (split; [done|])).
    + left. apply andb_true_iff in E as [E _]. done.
    + right. left. split; [done|]. split; [|done]. apply andb_false_iff in E as [E|E]; [by left|right].
      by destruct (String.eqb_spec (extname hh) ".node").
Qed.

Lemma resolve_hook_spec h :
  hspec resolve_request resolves_to h (resolve_hook specifier cx) st0.
Proof using Hroot Hroots.
  unfold resolve_hook, hget, hspec. cbn beta.
  destruct (match inner st0 with Some _ => _ | None => _ end || isBuiltin specifier) eqn:E.
  { eapply hspec_bind; [apply next_resolve_spec; by left| |intros h' e st' [-> _]; done].
    intros h' r st' [-> Hr]. split; [done|]. eexists _, _, _. split; [by apply Hr|].
    apply orb_true_iff in E as [E|E]; [|by left]. right. right. by destruct (inner st0). }
  unfold hbind at 1. cbn [hlift pbind]. destruct (parent_of (cx_parentURL cx)) as [pa|e] eqn:Hpa; [|done].
  unfold hbind at 1. cbn [hlift pbind]. destruct (specifier_of specifier pa) as [s|e]; [|done].
  fold (reach pa). unfold hbind at 1. cbn [hset pbind].
  eapply hspec_bind with (Q := found_ok st0); [|intros h1 f st1 [Hs Hf]|intros h' e st' [Hs _]; done].
  - eapply hspec_finally; [apply find_target_spec; [done|done]|].
    intros h' r st' [(Hg & Hl & Hi) Hx]. split; [|done]. split_and!; [|done|done]. cbn. cbn in Hg. rewrite Hg. apply end_resolving_id.
  - destruct f as [hh format|x]; [|by split].
    eapply hspec_bind; [by apply (bound_spec h1 st1 pa hh)| |intros h' e st' [-> _]; done].
    intros h' [] st' [-> Hb]. apply (answer_host_spec _ _ pa); [done..|]. intros He. by apply Hb.
Qed.
End resolve.

(** ** Loading *)

Section load.
Context (st0 : loader) (hookUrl : jsval).

Definition load_request (X : Type) (e : ldE X) : Prop :=
  match e with
  | NextLoad g _ => g = ld_grants st0 \/ exists u p, hookUrl = JStr u /\ fileURLToPath u = Ok p /\ g = reading p (ld_grants st0)
  | ReadText p => exists dir, under dir moduleRoot = true /\ p = path_join [dir; "package.json"%string]
  | ReadSource host _ => exists u v, hookUrl = JStr u /\ fileURLToPath u = Ok v /\ isVirtual v = true /\ host = toHost v
  | ReportL2 _ | NextResolve _ _ _ | RequireResolve _ _ _ => False
  end.

Lemma load_hook_spec h : hspec load_request (keeps st0) h (load_hook hookUrl) st0.
Proof.
  assert (Hnext : forall st, (ld_grants st = ld_grants st0 \/ exists u p, hookUrl = JStr u /\ fileURLToPath u = Ok p /\
                              ld_grants st = reading p (ld_grants st0)) ->
            hspec load_request (keeps st) h
              (hget (fun st => hbind (hask (NextLoad (ld_grants st) hookUrl)) (fun v => hret (LoadedNext v)))) st).
  { intros st Hg. unfold hget, hspec. cbn beta.
    eapply hspec_bind with (Q := keeps st); [by apply hspec_ask| |]; by intros h' v st' Hs. }
  unfold load_hook. destruct hookUrl as [| | | | |u| |] eqn:Eu; try (apply Hnext; by left).
  destruct (starts_with "file:" u); [|apply Hnext; by left].
  unfold hbind at 1. unfold hspec at 1. cbn [hlift pbind]. destruct (fileURLToPath u) as [p|e] eqn:Ep; [|done].
  destruct (isVirtual p && negb (String.eqb (extname p) ".node")) eqn:Ev.
  - apply andb_true_iff in Ev as [Ev _].
    eapply hspec_bind; [apply formatOf_keeps; intros dir Hd; by exists dir| |by intros h' e st' Hs].
    intros h1 fmt st1 Hs1. eapply hspec_bind with (Q := keeps st0);
      [|by intros h' a st' Hs'|by intros h' e st' Hs']. apply hspec_ask; [|done]. by exists u, p.
  - unfold hbind at 1. cbn [hset pbind].
    eapply hspec_finally; [apply Hnext; right; by exists u, p|].
    intros h' r st' (Hg & Hl & Hi). split_and!; [|done|done]. cbn. cbn in Hg. rewrite Hg. apply end_reading_id.
Qed.
End load.

(** ** A worker's loader over its life *)

Inductive call := CallResolve (specifier : string) (cx : context) | CallLoad (hookUrl : jsval).

(** A call of a hook, what it asked for on the way, and what a resolve came to. *)
Record entry := mkEntry { en_call : call; en_trace : list (obs ldE); en_resolved : option (result resolved_as) }.

Inductive hook_calls : loader -> list entry -> loader -> Prop :=
| no_calls st : hook_calls st [] st
| resolve_call st specifier cx tr r st1 l st2 :
    run (resolve_hook specifier cx st) tr (r, st1) -> hook_calls st1 l st2 ->
    hook_calls st (mkEntry (CallResolve specifier cx) tr (Some r) :: l) st2
| load_call st u tr r st1 l st2 :
    run (load_hook u st) tr (r, st1) -> hook_calls st1 l st2 ->
    hook_calls st (mkEntry (CallLoad u) tr None :: l) st2.

Definition fresh_loader : loader := mkLoader no_grants [] [] None.

(** Between calls, the only grants are the lasting ones of the module's files. *)
Definition loader_ok (st : loader) : Prop :=
  inner st = None /\ Forall (fun h => contained h moduleRoot) (lasting st) /\
  ld_grants st = mkGrants (absolute (lasting st)) (absolute (lasting st)) [].

Lemma loader_same_ok st st' : loader_ok st -> same st st' -> loader_ok st'.
Proof. intros (Hi & Hf & Hg) (Eg & El & Ei). split; [by apply Ei|]. by rewrite Eg, El. Qed.

Lemma lasting_ok h st : contained h moduleRoot -> loader_ok st -> loader_ok (grant_lasting h st).
Proof.
  intros Hm (Hi & Hf & Hg). unfold grant_lasting. destruct (includes h (lasting st)); [done|]. split; [done|]. cbn. split.
  - apply Forall_app. split; [done|]. by apply Forall_singleton.
  - rewrite Hg. unfold reading, resolving, take_items. cbn. unfold absolute. by rewrite map_app.
Qed.

(** The grants a request runs under. *)
Definition consults (o : obs ldE) : option grants :=
  match o with
  | Obs e _ => match e with
               | NextResolve g _ _ | RequireResolve g _ _ | NextLoad g _ => Some g
               | _ => None
               end
  end.

(** What the host may serve a call: the module's own tree; for a resolve of
    countinghouse's code, its roots; for a load, the one file loaded. *)
Definition host_may_serve (c : call) (s : string) : Prop :=
  contained s moduleRoot \/
  match c with
  | CallResolve _ cx => exists pa r, parent_of (cx_parentURL cx) = Ok pa /\ pa_fromModule pa = false /\
      r ∈ countinghouseRoots /\ contained s r
  | CallLoad u => exists v p, u = JStr v /\ fileURLToPath v = Ok p /\ s = resolve pcwd [p]
  end.

Lemma granted_spec g onFs key v :
  granted g onFs key v = Ok true ->
  onFs = true /\ exists s, absolutePath v = Ok (Some s) /\
    ((exists r, r ∈ g_bootRoots g ++ g_roots g /\ under s r = true) \/ s ∈ g_files g).
Proof.
  unfold granted. destruct (negb onFs || negb (includes key BOOT_KEYS)) eqn:E; [done|].
  apply orb_false_iff in E as [E _]. destruct onFs; [|done]. destruct (is_nil _ && _ && _); [done|].
  destruct (absolutePath v) as [[s|]|e]; cbn [rbind]; [|done|done]. intros [= H]. split; [done|]. exists s. split; [done|].
  assert (Ha : forall l, under_any s l = true -> exists r, r ∈ l /\ under s r = true).
  { intros l Hl. apply existsb_exists in Hl as (r & Hin & Hu). exists r. by rewrite list_elem_of_In. }
  destruct (under_any s (g_bootRoots g)) eqn:Eb; [left|destruct (includes key STAT_KEYS); [left|right]].
  - destruct (Ha _ Eb) as (r & Hin & Hu). exists r. split; [|done]. apply elem_of_app. by left.
  - destruct (Ha _ H) as (r & Hin & Hu). exists r. split; [|done]. apply elem_of_app. by right.
  - apply andb_true_iff in H as [_ H]. by apply includes_spec.
Qed.

Lemma absolute_canonical l : Forall canonical l -> absolute l = l.
Proof.
  intros H. unfold absolute. induction H as [|h l Hh Hl IH]; [done|]. cbn [map]. rewrite IH. f_equal.
  by apply (resolve_canonical_id pcwd []).
Qed.

Lemma lasting_absolute l : Forall (fun h => contained h moduleRoot) l -> absolute l = l.
Proof. intros H. apply absolute_canonical. eapply Forall_impl; [exact H|]. by intros h (Hh & _). Qed.

Lemma absolutePath_canonical v s : absolutePath v = Ok (Some s) -> canonical s.
Proof.
  unfold absolutePath. destruct (match v with PStr _ => _ | PUrl _ => _ | _ => _ end) as [[t|]|e]; cbn [rbind]; [|done|done].
  intros [= H]. destruct (if starts_with "file:" t then _ else _) as [p|]; [|done]. destruct (is_absolute p); [|done].
  injection H as <-. apply resolve_canonical.
Qed.

Lemma reach_canonical pa : Forall canonical (reach pa).
Proof using Hroot Hroots. unfold reach. destruct (pa_fromModule pa); by repeat constructor. Qed.

(** Between calls the lasting grants are of the module's own files. *)
Lemma ok_serves st g c onFs key v :
  loader_ok st -> granted g onFs key v = Ok true ->
  (forall s, canonical s -> (exists r, r ∈ g_roots g /\ r ∉ g_roots (ld_grants st) /\ under s r = true) \/
             (s ∈ g_files g /\ s ∉ g_files (ld_grants st)) -> host_may_serve c s) ->
  g_bootRoots g = [] ->
  exists s, absolutePath v = Ok (Some s) /\ host_may_serve c s.
Proof.
  intros (_ & Hf & Hg) (_ & s & Hs & H)%granted_spec Hnew Hb. exists s. split; [done|]. rewrite Hb in H. cbn [app] in H.
  pose proof (absolutePath_canonical v s Hs) as Hcs. rewrite Hg, lasting_absolute in Hnew by done. cbn in Hnew.
  rewrite Forall_forall in Hf. destruct H as [(r & Hin & Hu)|Hin].
  - destruct (decide (r ∈ lasting st)) as [Hl|Hl]; [|apply Hnew; [done|left; by exists r]]. left.
    apply (contained_trans _ r); [|by apply Hf]. split; [done|]. split; [apply (Hf r Hl)|done].
  - destruct (decide (s ∈ lasting st)) as [Hl|Hl]; [left; by apply Hf|apply Hnew; [done|by right]].
Qed.

Lemma resolve_serves st cx specifier X (e : ldE X) x g onFs key v :
  loader_ok st -> resolve_request st cx X e -> consults (Obs e x) = Some g -> granted g onFs key v = Ok true ->
  exists s, absolutePath v = Ok (Some s) /\ host_may_serve (CallResolve specifier cx) s.
Proof using Hroot Hroots.
  intros Hok Hreq Hc Hgr. pose proof Hok as (_ & _ & Eg).
  assert (Hg : g = ld_grants st \/ exists pa, parent_of (cx_parentURL cx) = Ok pa /\ g = resolving (reach pa) (ld_grants st)).
  { destruct e; cbn in Hc, Hreq; try done; by injection Hc as <-. }
  apply (ok_serves st g _ onFs key v Hok Hgr).
  - intros s Hcs [(r & Hin & Hnew & Hu)|[Hin Hnew]]; destruct Hg as [-> |(pa & Hpa & ->)]; try done.
    cbn in Hin. unfold take_items in Hin. rewrite (absolute_canonical _ (reach_canonical pa)) in Hin.
    apply elem_of_app in Hin as [Hin|Hin]; [done|].
    assert (Hs : contained s r).
    { split; [done|]. split; [|done]. by apply (proj1 (Forall_forall _ _) (reach_canonical pa)). }
    unfold reach in Hin. destruct (pa_fromModule pa) eqn:Ef.
    + apply list_elem_of_singleton in Hin as ->. by left.
    + apply elem_of_cons in Hin as [-> |Hin]; [by left|]. right. by exists pa, r.
  - destruct Hg as [-> |(pa & _ & ->)]; cbn; by rewrite Eg.
Qed.

Lemma load_serves st u X (e : ldE X) x g onFs key v :
  loader_ok st -> load_request st u X e -> consults (Obs e x) = Some g -> granted g onFs key v = Ok true ->
  exists s, absolutePath v = Ok (Some s) /\ host_may_serve (CallLoad u) s.
Proof.
  intros Hok Hreq Hc Hgr. pose proof Hok as (_ & _ & Eg).
  assert (Hg : g = ld_grants st \/ exists w p, u = JStr w /\ fileURLToPath w = Ok p /\ g = reading p (ld_grants st)).
  { destruct e; cbn in Hc, Hreq; try done; by injection Hc as <-. }
  apply (ok_serves st g _ onFs key v Hok Hgr).
  - intros s Hcs [(r & Hin & Hnew & Hu)|[Hin Hnew]]; destruct Hg as [-> |(w & p & Hw & Hp & ->)]; try done.
    cbn [g_files reading] in Hin. unfold take_items in Hin. apply elem_of_app in Hin as [Hin|Hin]; [done|].
    apply list_elem_of_singleton in Hin as ->. right. by exists w, p.
  - destruct Hg as [-> |(w & p & _ & _ & ->)]; cbn; by rewrite Eg.
Qed.

(** Where a resolve of a call may lead. *)
Definition leads_inside (c : call) (r : option (result resolved_as)) (tr : list (obs ldE)) : Prop :=
  match c, r with
  | CallResolve _ cx, Some (Ok (Made u _)) =>
      exists pa h, parent_of (cx_parentURL cx) = Ok pa /\ host_in_reach pa h /\
        (u = pathToFileURL (toVirtual h) /\ isModuleHost h = true \/
         u = pathToFileURL h /\ (isModuleHost h = true -> extname h = ".node" \/ isRequire cx = false))
  | CallResolve _ _, Some (Ok (Passed a)) =>
      exists g s cx', Obs (NextResolve g s cx') (Ok a) ∈ tr /\ (isBuiltin s = true \/ names_no_file a)
  | _, _ => True
  end.

Lemma requests_elem (P : forall X, ldE X -> Prop) tr X (e : ldE X) x :
  requests_ok (fun _ X e => P X e) tr -> Obs e x ∈ tr -> P X e.
Proof. intros H (tr1 & tr2 & ->)%list_elem_of_split. exact (H tr1 (Obs e x) tr2 eq_refl). Qed.

(** What the theorem says of one call. *)
Definition call_confined (e : entry) : Prop :=
  (forall o g onFs key v, o ∈ en_trace e -> consults o = Some g -> granted g onFs key v = Ok true ->
     exists s, absolutePath v = Ok (Some s) /\ host_may_serve (en_call e) s) /\
  leads_inside (en_call e) (en_resolved e) (en_trace e).

Lemma resolve_call_ok st0 specifier cx tr r st1 :
  mode = "enforce" -> loader_ok st0 -> run (resolve_hook specifier cx st0) tr (r, st1) -> allowed real_answers [] tr ->
  loader_ok st1 /\ call_confined (mkEntry (CallResolve specifier cx) tr (Some r)).
Proof using Hroot Hroots.
  intros Hm Hok Hr Htr. pose proof (safe_run _ _ _ _ _ _ _ (resolve_hook_spec st0 specifier cx []) Hr Htr) as Ho.
  pose proof (safe_requests _ _ _ _ _ _ (resolve_hook_spec st0 specifier cx []) Hr Htr) as Hq. cbn [fst snd app] in Ho. split.
  - destruct r as [[a|u f]|e]; cbn in Ho; [apply (loader_same_ok st0); [done|apply Ho]| |by apply (loader_same_ok st0)].
    destruct Ho as (pa & h & _ & Hcan & _ & [(_ & _ & Hs)|[(_ & _ & Hs)|(_ & Hh & _ & st' & Hs & ->)]]); [by apply (loader_same_ok st0)..|].
    apply lasting_ok; [done|]. by apply (loader_same_ok st0).
  - split; cbn [en_call en_trace en_resolved].
    + intros [X e x] g onFs key v Hin Hco Hgr. eapply (resolve_serves st0 cx specifier X e x); try done.
      by apply (requests_elem _ _ _ _ _ Hq Hin).
    + destruct r as [[a|u f]|e]; [| |done]; cbn in Ho.
      * destruct Ho as (_ & g & s & cx' & Hin & Hw). exists g, s, cx'. split; [done|].
        destruct Hok as (Hi & _). destruct Hw as [Hw|[Hw|Hw]]; [by left|by right|done].
      * destruct Ho as (pa & h & Hpa & _ & Hre & Hu). exists pa, h. split; [done|]. split; [by apply Hre|].
        destruct Hu as [(-> & Hh & _)|[(-> & Hh & _)|(-> & Hh & Hq' & _)]]; [by left|right|right]; (split; [done|]); intros Ht.
        -- left. destruct Hh; [congruence|done].
        -- by right.
Qed.

Lemma load_call_ok st0 u tr r st1 :
  loader_ok st0 -> run (load_hook u st0) tr (r, st1) -> allowed real_answers [] tr ->
  loader_ok st1 /\ call_confined (mkEntry (CallLoad u) tr None).
Proof.
  intros Hok Hr Htr. pose proof (safe_run _ _ _ _ _ _ _ (load_hook_spec st0 u []) Hr Htr) as Ho.
  pose proof (safe_requests _ _ _ _ _ _ (load_hook_spec st0 u []) Hr Htr) as Hq.
  split; [exact (loader_same_ok _ _ Hok Ho)|]. split; [|done]. cbn. intros [X e x] g onFs key v Hin Hco Hgr.
  eapply (load_serves st0 u X e x); try done. by apply (requests_elem _ _ _ _ _ Hq Hin).
Qed.
End roots.

(** C7: A module's files are the host's only within the module. Over any calls
    of the loader's hooks by a worker under enforce, whatever Node's resolvers
    and loaders answer, so long as a file they resolve to is a real path (no
    empty and no dot segment, as the module's root and countinghouse's are):
    while a hook runs, a path of a call of [fs] is granted, for the host to
    serve, only if, its own dot segments resolved, it is the module's root or
    below it, or, when countinghouse's own code resolves, one of countinghouse's roots or
    below it, or, for a load, is the one file its URL names; a resolve that
    leads to a file leads into the module (or, for countinghouse's code, its
    roots), and is answered with the file's /app URL or, for an addon and a
    CommonJS file that is imported, its own; any other answer was the next
    resolver's, for a builtin or for no file; and between calls nothing stays
    granted but files that were resolved to in the module. *)
Theorem module_files_confined (l : list entry) (st : loader) :
  mode = "enforce" -> canonical moduleRoot -> Forall canonical countinghouseRoots ->
  hook_calls fresh_loader l st -> (forall e, e ∈ l -> allowed real_answers [] (en_trace e)) ->
  loader_ok st /\
  forall e, e ∈ l ->
    (forall o g onFs key v, o ∈ en_trace e -> consults o = Some g -> granted g onFs key v = Ok true ->
       exists s, absolutePath v = Ok (Some s) /\ host_may_serve (en_call e) s) /\
    leads_inside (en_call e) (en_resolved e) (en_trace e).
Proof.
  intros Hm Hroot Hroots Hc. assert (H0 : loader_ok fresh_loader) by (split; [done|split; [by constructor|done]]).
  revert H0. generalize fresh_loader Hc. clear Hc. intros st0 Hc.
  induction Hc as [st|st0 specifier cx tr r st1 l st2 Hr Hc IH|st0 u tr r st1 l st2 Hr Hc IH]; intros Hok Henv;
    [by split; [|intros e H; inversion H]| |];
    (assert (Htr : allowed real_answers [] tr) by (apply (Henv _ (list_elem_of_here _ _))));
    (assert (Hrest : forall e, e ∈ l -> allowed real_answers [] (en_trace e)) by (intros e He; apply Henv; by right)).
  - destruct (resolve_call_ok Hroot Hroots _ _ _ _ _ _ Hm Hok Hr Htr) as [Hok1 He].
    destruct (IH Hok1 Hrest) as [Hfin Hall]. split; [done|]. by intros e [-> |Hin]%elem_of_cons; [|by apply Hall].
  - destruct (load_call_ok _ _ _ _ _ Hok Hr Htr) as [Hok1 He].
    destruct (IH Hok1 Hrest) as [Hfin Hall]. split; [done|]. by intros e [-> |Hin]%elem_of_cons; [|by apply Hall].
Qed.

(** ** Virtual and host paths *)

Lemma under_below r u : under (r +:+ "/" +:+ u) r = true.
Proof. apply under_iff. right. by exists u. Qed.

Lemma host_virtual v : isVirtual v = true -> isModuleHost (toHost v) = true /\ toVirtual (toHost v) = v.
Proof.
  unfold isVirtual, isModuleHost, toVirtual, toHost. rewrite !under_iff.
  intros [->|[u ->]]; rewrite ?sdrop_app, ?sdrop_all; (split; [|done]).
  - left. by rewrite sapp_nil_r.
  - right. by exists u.
Qed.

Lemma virtual_host h : isModuleHost h = true -> isVirtual (toVirtual h) = true /\ toHost (toVirtual h) = h.
Proof.
  unfold isVirtual, isModuleHost, toVirtual, toHost. rewrite !under_iff. intros [->|[u ->]].
  - rewrite sdrop_all, sapp_nil_r, sdrop_all, sapp_nil_r. split; [by left|done].
  - rewrite !sdrop_app. split; [right; by exists u|done].
Qed.

(** [path.posix.join('/app', p)] for a canonical [p] *)
Lemma join_vroot segs : Forall good_seg segs ->
  path_join [VROOT; path_of segs] = VROOT +:+ path_of segs.
Proof.
  intros Hg. destruct segs as [|w segs]; [done|]. unfold path_join. cbn [List.filter].
  change (String.eqb VROOT "") with false. change (String.eqb (path_of (w :: segs)) "") with false. cbn [negb].
  change (join "/" [VROOT; path_of (w :: segs)]) with (VROOT +:+ String slash (path_of (w :: segs))).
  assert (Hs : split_on slash (VROOT +:+ String slash (path_of (w :: segs))) = ["";"app";""]%string ++ w :: segs)
    by (rewrite split_on_snoc, split_path; done).
  assert (Ha : good_seg "app") by done.
  rewrite (normalize_path _ ("app"%string :: w :: segs) (w :: segs)); [done|done| |done|by constructor|by eexists|done|done].
  rewrite Hs. unfold normalize_segs. rewrite fold_left_app.
  change (fold_left (push_seg false) ["";"app";""]%string []) with (fold_left (push_seg false) ["app"]%string []).
  rewrite <- fold_left_app. apply (normalize_segs_id ("app"%string :: w :: segs)). by constructor.
Qed.

Lemma specifier_module rest pa : exists segs,
  Forall good_seg segs /\ resolve pcwd ["/"; rest] = path_of segs /\
  specifier_of (MODULE_SPECIFIER +:+ rest) pa = Ok (moduleRoot +:+ path_of segs).
Proof.
  destruct (resolve_canonical pcwd ["/"; rest]) as (segs & Hr & Hg). fold (path_of segs) in Hr. exists segs. split; [done|]. split; [done|].
  unfold specifier_of. rewrite starts_with_app, sdrop_app, Hr, (join_vroot _ Hg). unfold toHost. by rewrite sdrop_app.
Qed.

(** The module's paths and the host's are two names of the same files.
    Mapping a file of the module to /app and back gives the file, and a path
    under /app to the host and back the path; each lands in the other's tree.
    What countinghouse names with its own specifier is in the module whatever
    the text after it, and a /app path it names so is the path's file. A module
    names its files by their /app paths; and while no loaded file of
    countinghouse is under /app, countinghouse's own code is taken for the
    module's only if it is in the module. *)
Theorem module_paths_roundtrip :
  (forall h, isModuleHost h = true -> isVirtual (toVirtual h) = true /\ toHost (toVirtual h) = h) /\
  (forall v, isVirtual v = true -> isModuleHost (toHost v) = true /\ toVirtual (toHost v) = v) /\
  (forall rest pa, exists h, specifier_of (MODULE_SPECIFIER +:+ rest) pa = Ok h /\ isModuleHost h = true) /\
  (forall w segs pa, Forall good_seg (w :: segs) ->
     specifier_of (moduleSpecifier (path_of ("app"%string :: w :: segs))) pa = Ok (toHost (path_of ("app"%string :: w :: segs)))) /\
  (forall v host, isVirtual v = true -> specifier_of v (mkParent host true) = Ok (toHost v)) /\
  (forall installDir files u f, codeUnderVroot installDir files = [] -> f ∈ files ->
     starts_with "file:" u = true -> fileURLToPath u = Ok f -> parent_of (JStr u) = Ok (mkParent (Some f) (isModuleHost f))).
Proof.
  split; [exact virtual_host|]. split; [exact host_virtual|]. split.
  { intros rest pa. destruct (specifier_module rest pa) as (segs & _ & _ & H). exists (moduleRoot +:+ path_of segs).
    split; [done|]. apply under_below. }
  split.
  { intros w segs pa Hg. change (path_of ("app"%string :: w :: segs)) with (VROOT +:+ path_of (w :: segs)).
    unfold moduleSpecifier, toHost. rewrite sdrop_app. destruct (specifier_module (path_of (w :: segs)) pa) as (segs' & _ & Hr & ->).
    pose proof (resolve_canonical_id pcwd ["/"%string] (path_of (w :: segs)) ltac:(by exists (w :: segs))) as H.
    cbn [app] in H. rewrite H in Hr. by rewrite Hr. }
  split.
  { intros v host Hv. unfold specifier_of.
    assert (Hs : exists t, v = "/" +:+ t).
    { pose proof Hv as H. unfold isVirtual in H. apply under_iff in H as [->|[u ->]]; by eexists. }
    destruct Hs as [t ->]. change (starts_with MODULE_SPECIFIER ("/" +:+ t)) with false.
    change (starts_with "file:" ("/" +:+ t)) with false. cbn [rbind pa_fromModule]. by rewrite Hv. }
  intros installDir files u f Hc Hf Hu Hp. unfold parent_of. rewrite Hu, Hp. cbn [rbind].
  destruct (isVirtual f) eqn:E; [|done]. exfalso.
  assert (Hin : f ∈ codeUnderVroot installDir files); [|by rewrite Hc in Hin; inversion Hin].
  unfold codeUnderVroot. rewrite list_elem_of_In, List.filter_In. split; [right; by apply list_elem_of_In|done].
Qed.
End mapper.
End loader.

(** A worker of a module at /mods/scan: a require of a file beside its entry. *)
Definition demo_path (u : string) : result string :=
  if starts_with "file://" u then Ok (sdrop 7 u) else Throw (plain_error "bad url").
Definition demo_url (p : string) : string := "file://" +:+ p.

Definition demo_answers (X : Type) (_ : nat) (e : ldE X) : X :=
  match e with
  | NextResolve _ _ _ => Ok (mkRes (JStr "file:///mods/scan/lib/util.mjs") (JStr "module"))
  | RequireResolve _ _ _ => Ok "/mods/scan/lib/util.js"%string
  | ReadText _ => Throw (plain_error "missing")
  | ReadSource _ _ => Ok JNull
  | NextLoad _ _ => Ok JNull
  | ReportL2 _ => tt
  end.

Definition demo_require : result resolved_as * loader * list (obs ldE) :=
  eval demo_answers 0
    (resolve_hook demo_path demo_url "/" "/mods/scan" (fun _ => false) (fun _ => None) "enforce" ["/srv/countinghouse/lib"]
       "./lib/util.js" (mkContext (JStr "file:///app/index.js") (JArr [JStr "require"])) fresh_loader).

Lemma module_files_confined_witness :
  fst (fst demo_require) = Ok (Made "file:///app/lib/util.js" JUndef) /\
  loader_ok "/" "/mods/scan" (snd (fst demo_require)).
Proof.
  split; [vm_compute; reflexivity|].
  assert (Hr : canonical "/mods/scan") by (exists ["mods";"scan"]%string; by repeat constructor).
  assert (Hrs : Forall canonical ["/srv/countinghouse/lib"%string]).
  { constructor; [|constructor]. exists ["srv";"countinghouse";"lib"]%string. by repeat constructor. }
  refine (proj1 (module_files_confined demo_path demo_url "/" "/mods/scan" (fun _ => false) (fun _ => None) "enforce"
    ["/srv/countinghouse/lib"%string]
    [mkEntry (CallResolve "./lib/util.js" (mkContext (JStr "file:///app/index.js") (JArr [JStr "require"])))
       (snd demo_require) (Some (fst (fst demo_require)))] (snd (fst demo_require)) eq_refl Hr Hrs _ _)).
  - eapply resolve_call; [|apply no_calls].
    pose proof (eval_run demo_answers 0 (resolve_hook demo_path demo_url "/" "/mods/scan" (fun _ => false) (fun _ => None) "enforce"
      ["/srv/countinghouse/lib"%string] "./lib/util.js" (mkContext (JStr "file:///app/index.js") (JArr [JStr "require"%string])) fresh_loader)) as H.
    fold demo_require in H. rewrite (surjective_pairing (fst demo_require)) in H. exact H.
  - intros e ->%list_elem_of_singleton. cbn [en_trace]. vm_compute. split; [|done].
    intros p [= <-]. right. exists ["mods";"scan";"lib";"util.js"]%string. by repeat constructor.
Defined.
