(* ===== verification/Lockdown.v ===== *)
(** * The lockdown of a module's worker (lib/module-lockdown.js)

    What [install] puts in front of Node's own functions, in the worker, before
    any module code loads: for each call of one, whether the original runs and
    with what, what is reported, and what the caller gets instead. That every
    way to these functions goes through the replacement is a fact of Node's
    objects, and is not modelled. *)
From Stdlib Require Import ZArith Lia Ascii String.
From stdpp Require Import prelude strings gmap.
From S2P Require Import Prelude Paths Json Permissions ModuleLoader.

Set Default Proof Using "Type".

(** ** Tables *)

Definition ALLOWED_BUILTINS : list string := [
  "_http_agent"; "_http_client"; "_http_common"; "_http_incoming"; "_http_outgoing"; "_http_server";
  "_stream_duplex"; "_stream_passthrough"; "_stream_readable"; "_stream_transform"; "_stream_wrap";
  "_stream_writable"; "_tls_common"; "_tls_wrap"; "assert"; "assert/strict"; "async_hooks"; "buffer";
  "console"; "constants"; "crypto"; "dgram"; "diagnostics_channel"; "dns"; "dns/promises"; "domain";
  "events"; "fs"; "fs/promises"; "http"; "http2"; "https"; "module"; "net"; "os"; "path"; "path/posix";
  "path/win32"; "perf_hooks"; "process"; "punycode"; "querystring"; "readline"; "readline/promises";
  "stream"; "stream/consumers"; "stream/promises"; "stream/web"; "string_decoder"; "sys";
  "timers"; "timers/promises"; "tls"; "tty"; "url"; "util"; "util/types"; "vm"; "zlib"]%string.
Definition WATCHED : list string :=
  ["fs"; "fs/promises"; "net"; "tls"; "http"; "https"; "http2"; "dgram"; "dns"; "dns/promises"]%string.
Definition MAX_REPORTS : nat := 100.
Definition REQUEST_OPTIONS : list string := [
  "method"; "headers"; "body"; "json"; "form"; "formData"; "multipart";
  "preambleCRLF"; "postambleCRLF"; "qs"; "qsParseOptions"; "qsStringifyOptions"; "useQuerystring"; "timeout";
  "gzip"; "brotli"; "encoding"; "auth"; "oauth"; "hawk"; "aws"; "httpSignature"; "jar"; "followRedirect";
  "followOriginalHttpMethod"; "maxRedirects"; "removeRefererHeader"; "strictSSL"; "rejectUnauthorized"; "ca";
  "cert"; "key"; "passphrase"; "time"; "callback"; "url"; "uri"]%string.
Definition PROCESS_CONTROLS : list string :=
  ["kill"; "_kill"; "abort"; "chdir"; "setuid"; "setgid"; "seteuid"; "setegid"; "setgroups"; "initgroups"]%string.
Definition SANDBOX_TAG : string := "(countinghouse module sandbox)".

Definition bare (specifier : string) : string := if starts_with "node:" specifier then sdrop 5 specifier else specifier.
Definition builtinAllowed (id : string) : bool := includes (bare id) ALLOWED_BUILTINS.

Definition accessDenied (what moduleName : string) : jserr :=
  coded_error "ERR_ACCESS_DENIED" (what +:+ " is not allowed for module " +:+ moduleName +:+ " " +:+ SANDBOX_TAG).
Definition moduleNotFound (specifier : string) : jserr :=
  coded_error "MODULE_NOT_FOUND" ("Cannot find module '" +:+ specifier +:+ "' " +:+ SANDBOX_TAG).

(** ** Calls *)

(** The argument of a socket or server: an object with the members that name a
    descriptor or a handle, its prototype [Object.prototype] or another. *)
Inductive sock_arg := NoObject | AnObject (fd handle _handle : bool) (array plain : bool).

Inductive from_arg := FromURL (href : string) | FromValue (v : jsval).

(** A member of CHUtil.request's options. *)
Inductive opt_value := OVal (v : jsval) | OFun (f : nat).
Inductive request_opts := OptString (s : string) | OptObject (kvs : list (string * opt_value)) | OptOther.

Inductive call :=
| Dlopen (filename : string)
| NodeExtension (filename : string)
| Binding (key id : string)
| SetEngine (id : string)
| EngineOption (key : string) (id : string)
| Socket (a : sock_arg)
| Listen (a : sock_arg)
| Bind (a : sock_arg)
| Tty (key : string)
| RespondWithFD
| HandleOpen
| WriteReport (file : string)
| SetReport (key : string)
| CompileCache (key : string)
| SourceMaps (key : string)
| ProcessControl (key : string)
| GetBuiltinModule (id : string)
| CreateRequire (from : from_arg)
| Resolve (specifier : string) (parentURL : jsval)
| RegisterHooks (key : string)
| LoadFile (file : string)
| Request (opts : request_opts)
| CreateSOAPClient (target : string) (endpoint : option string).

(** What CHUtil.request hands on under enforce: the options, and a redirect
    handler unless redirects are off. *)
Record normalised := mkNorm { nm_options : list (string * opt_value); nm_redirect : option (option nat) }.

(** What the caller gets: the original's doing, with its own arguments or with
    normalised options; the reduced module; undefined; or, called back, an
    error. *)
Inductive outcome := Calls | CallsWith (n : normalised) | Reduced | Undefined | CallsBackWith (e : jserr).

(** ** Reports *)

(** What has been reported, and what a call reports on its way. *)
Definition guarded (A : Type) : Type := list string -> result A * list (string * string) * list string.

Definition gret {A} (a : A) : guarded A := fun seen => (Ok a, [], seen).
Definition gthrow {A} (e : jserr) : guarded A := fun seen => (Throw e, [], seen).
Definition gbind {A B} (m : guarded A) (k : A -> guarded B) : guarded B := fun seen =>
  match m seen with
  | (Ok a, r1, seen) => let '(b, r2, seen) := k a seen in (b, r1 ++ r2, seen)
  | (Throw e, r1, seen) => (Throw e, r1, seen)
  end.
Notation "'let%' x ':=' m 'in' k" := (gbind m (fun x => k)) (at level 200, x name, m at level 100, k at level 200).

Definition report_key (rule target : string) : string := rule +:+ String zero target.

(** [once]: past the cap, said once, and then quiet. *)
Definition once (rule target : string) : guarded unit := fun seen =>
  let key := report_key rule target in
  if includes key seen || (MAX_REPORTS <? length seen)%nat then (Ok tt, [], seen)
  else
    let seen := seen ++ [key] in
    (Ok tt, [if (MAX_REPORTS <? length seen)%nat then ("suppressed"%string, ""%string) else (rule, target)], seen).

Section lockdown.
Context (mode moduleName : string) (root pcwd : string) (virtualRoot : option string) (net : list net_entry).
(** Node's [url], its list of built-ins, and the files of countinghouse's lib. *)
Context (fileURLToPath : string -> result string) (isBuiltin : string -> bool) (libFile : string -> bool).
Record url_parts := mkUrl { u_hostname : string; u_port : option Z; u_https : bool; u_href : string }.
Context (parseURL : string -> option url_parts) (joinURL : string -> string -> option url_parts).

Definition locked : bool := String.eqb mode "enforce".

Definition violate (rule target : string) (e : jserr) : guarded unit :=
  let% _ := once rule target in if locked then gthrow e else gret tt.

Definition adopt (what : string) : guarded unit := violate "descriptor" what (accessDenied ("adopting " +:+ what) moduleName).

(** ** Where a path is *)

Definition hostOf (file : string) : string :=
  match virtualRoot with
  | Some v => if under file v then root +:+ sdrop (String.length v) file else file
  | None => file
  end.
Definition inModule (file : string) : bool := under (hostOf file) root.

Definition fromModule (parentURL : jsval) : bool :=
  match parentURL with
  | JStr u => if negb (starts_with "file:" u) then negb (starts_with "node:" u)
              else match fileURLToPath u with Ok p => inModule p | Throw _ => false end
  | _ => false
  end.

(** [path.resolve] drops a trailing separator, which createRequire reads. *)
Definition fromPath (from : from_arg) : result string :=
  match from with
  | FromURL href => fileURLToPath href
  | FromValue v =>
      let s := js_text v in
      if (match v with JStr t => starts_with "file:" t | _ => false end) then fileURLToPath s
      else let resolved := resolve pcwd [s] in
           Ok (if (ends_with "/" s || ends_with "\" s) && negb (ends_with "/" resolved) then resolved +:+ "/" else resolved)
  end.
Definition from_text (from : from_arg) : string := match from with FromURL href => href | FromValue v => js_text v end.

Definition reachesLib (specifier : string) : bool :=
  negb (starts_with "." specifier || is_absolute specifier) &&
  negb (includes ".."%string (concat (map (split_on "\"%char) (split_on slash specifier)))) && libFile specifier.

(** ** The network *)

Record host_port := mkHP { hp_host : string; hp_port : Z; hp_href : string }.
Definition port_of (u : url_parts) : Z := default (if u_https u then 443%Z else 80%Z) (u_port u).
Definition hostPort (href : string) : option host_port :=
  option_map (fun u => mkHP (u_hostname u) (port_of u) (u_href u)) (parseURL href).

Definition host_text (h : host_port) : string := hp_host h +:+ ":" +:+ Z_text (hp_port h).
Definition host_allowed (h : host_port) : bool := hostAllowed net (JStr (hp_host h)) (JNum (hp_port h)).

Inductive request_check := Refusal (target : string) | Normal (n : normalised).

(** The copy of the options: none but REQUEST_OPTIONS, undefined ones left out. *)
Fixpoint copy_options (kvs : list (string * opt_value)) (out : list (string * opt_value)) : string + list (string * opt_value) :=
  match kvs with
  | [] => inr out
  | (k, OVal JUndef) :: kvs => copy_options kvs out
  | (k, v) :: kvs => if includes k REQUEST_OPTIONS then copy_options kvs (assoc_set k v out) else inl k
  end.

Definition opt_get (k : string) (o : list (string * opt_value)) : opt_value := default (OVal JUndef) (assoc k o).
Definition opt_nullish (v : opt_value) : bool := match v with OVal v => is_nullish v | OFun _ => false end.

(** [options.uri != null ? options.uri : options.url], or its href. *)
Definition request_target (o : list (string * opt_value)) : jsval :=
  let t := if opt_nullish (opt_get "uri" o) then opt_get "url" o else opt_get "uri" o in
  match t with
  | OVal (JObj kvs) => jget "href" (JObj kvs)
  | OVal v => v
  | OFun _ => JUndef
  end.

Definition opt_delete (k : string) (o : list (string * opt_value)) : list (string * opt_value) :=
  List.filter (fun kv => negb (String.eqb k kv.1)) o.

Definition normaliseRequestOptions (opts : request_opts) : request_check :=
  match (match opts with OptString s => Some [("uri"%string, OVal (JStr s))] | OptObject kvs => Some kvs | OptOther => None end) with
  | None => Refusal "invalid"
  | Some given =>
      match copy_options given [] with
      | inl key => Refusal key
      | inr options =>
          match request_target options with
          | JStr target =>
              match hostPort target with
              | None => Refusal "invalid"
              | Some parsed =>
                  if negb (host_allowed parsed) then Refusal (host_text parsed)
                  else
                    let options := assoc_set "proxy" (OVal JNull) (assoc_set "uri" (OVal (JStr (hp_href parsed))) (opt_delete "url" options)) in
                    Normal (mkNorm options
                      (match opt_get "followRedirect" options with
                       | OVal (JBool false) => None
                       | OFun f => Some (Some f)
                       | OVal _ => Some None
                       end))
              end
          | _ => Refusal "invalid"
          end
      end
  end.

(** The redirect handler: what the request's own decides is asked only of an
    allowed host. *)
Definition followRedirect (ask : nat -> bool) (n : normalised) (location : jsval) (uri_href : string) : guarded bool :=
  match nm_redirect n with
  | None => gret false
  | Some original =>
      match joinURL (js_text location) uri_href ≫= fun u => hostPort (u_href u) with
      | Some next => if host_allowed next then gret (match original with Some f => ask f | None => true end)
                     else let% _ := once "net" (host_text next) in gret false
      | None => let% _ := once "net" "invalid" in gret false
      end
  end.

(** [checkHref]: an error to refuse with. *)
Definition checkHref (href : string) : guarded (option jserr) :=
  let refuse what := let% _ := once "net" what in
                     gret (if locked then Some (accessDenied ("network access to " +:+ what) moduleName) else None) in
  match hostPort href with
  | None => refuse "null:null"%string
  | Some h => if host_allowed h then gret None else refuse (host_text h)
  end.

(** ** The replacements *)

Definition fdOrHandle (a : sock_arg) : bool := match a with NoObject => false | AnObject fd handle _handle _ _ => fd || handle || _handle end.

Definition then_original (m : guarded unit) : guarded outcome := let% _ := m in gret Calls.

(** The resolve hook; [next] is Node's resolver. *)
Definition lockdown_resolve (next : string -> result resolution) (specifier : string) (parentURL : jsval) : guarded outcome :=
  let b := bare specifier in
  let moduleCode := fromModule parentURL in
  if isBuiltin specifier then
    let% _ := (if builtinAllowed b then gret tt else violate "builtin" b (moduleNotFound specifier)) in
    let% _ := (if moduleCode && includes b WATCHED then once "uses" b else gret tt) in
    gret (if moduleCode && String.eqb b "module" && locked then Reduced else Calls)
  else
    match next specifier with
    | Throw e =>
        let% _ := (if moduleCode && bool_decide (e_code e = Some "MODULE_NOT_FOUND"%string) && reachesLib specifier
                   then violate "require" specifier (moduleNotFound specifier) else gret tt) in
        gthrow e
    | Ok r =>
        match moduleCode, rs_url r with
        | true, JStr u =>
            let refuse := then_original (violate "require" (stake 200 specifier) (moduleNotFound (stake 200 specifier))) in
            if starts_with "file:" u
            then match fileURLToPath u with
                 | Ok p => if inModule p then gret Calls else refuse
                 | Throw e => gthrow e
                 end
            else refuse
        | _, _ => gret Calls
        end
    end.

Definition request_through (opts : request_opts) : guarded outcome :=
  match normaliseRequestOptions opts with
  | Refusal target =>
      let% _ := once "net" target in
      gret (if locked then CallsBackWith (accessDenied ("network access to " +:+ target) moduleName) else Calls)
  | Normal n => gret (if locked then CallsWith n else Calls)
  end.

Definition newSocket (a : sock_arg) : guarded outcome :=
  then_original (if fdOrHandle a then adopt "a descriptor or handle (net.Socket)" else gret tt).

(** A handle object is no plain options object. *)
Definition listen (a : sock_arg) : guarded outcome :=
  let handleObject := match a with AnObject _ _ _ array plain => negb array && negb plain | NoObject => false end in
  then_original (if fdOrHandle a || handleObject then adopt "a descriptor or handle (server.listen)" else gret tt).

Definition getBuiltinModule (id : string) : guarded outcome :=
  let b := bare id in
  let blocked := isBuiltin id && negb (builtinAllowed b) in
  let% _ := (if blocked then once "builtin" b else gret tt) in
  gret (if blocked && locked then Undefined else if String.eqb b "module" && locked then Reduced else Calls).

(** The reduced [module]'s createRequire. *)
Definition createRequire (from : from_arg) : guarded outcome :=
  let file := match fromPath from with Ok f => Some f | Throw _ => None end in
  then_original (if match file with Some f => inModule f | None => false end then gret tt
                 else violate "require" (default (from_text from) file) (moduleNotFound (from_text from))).

Definition loadFile (file : string) : guarded outcome :=
  let resolved := resolve pcwd [file] in
  then_original (if inModule resolved then gret tt else violate "loadFile" resolved (moduleNotFound resolved)).

Definition createSOAPClient (target : string) (endpoint : option string) : guarded outcome :=
  let% denied := checkHref target in
  let% denied := (match denied, endpoint with None, Some e => checkHref e | _, _ => gret denied end) in
  gret (match denied with Some e => CallsBackWith e | None => Calls end).

Definition guard (next : string -> result resolution) (c : call) : guarded outcome :=
  match c with
  | Dlopen f | NodeExtension f => then_original (violate "native" f (accessDenied "loading native code" moduleName))
  | Binding key id => then_original (violate ("process." +:+ key) id (accessDenied ("process." +:+ key) moduleName))
  | SetEngine id | EngineOption _ id =>
      then_original (violate "native" ("engine " +:+ id) (accessDenied "loading an OpenSSL engine" moduleName))
  | Socket a => newSocket a
  | Listen a => listen a
  | Bind a => then_original (match a with AnObject true _ _ _ _ => adopt "a descriptor (dgram bind)" | _ => gret tt end)
  | Tty key => then_original (adopt ("a descriptor (tty." +:+ key +:+ ")"))
  | RespondWithFD => then_original (adopt "a descriptor (http2 respondWithFD)")
  | HandleOpen => then_original (adopt "a descriptor (handle open)")
  | WriteReport file => then_original (violate "report" file (accessDenied "process.report.writeReport" moduleName))
  | SetReport key => then_original (violate "report" key (accessDenied ("process.report." +:+ key) moduleName))
  | CompileCache key => then_original (violate "compile-cache" key (accessDenied ("module." +:+ key) moduleName))
  | SourceMaps key => then_original (violate "source-maps" key (accessDenied key moduleName))
  | ProcessControl key => then_original (violate ("process." +:+ key) key (accessDenied ("process." +:+ key) moduleName))
  | GetBuiltinModule id => getBuiltinModule id
  | CreateRequire from => createRequire from
  | Resolve specifier parentURL => lockdown_resolve next specifier parentURL
  | RegisterHooks key => let% _ := violate ("module." +:+ key) key (accessDenied ("module." +:+ key) moduleName) in gret Undefined
  | LoadFile file => loadFile file
  | Request opts => request_through opts
  | CreateSOAPClient target endpoint => createSOAPClient target endpoint
  end.

(** The calls of a worker, one after another. *)
Fixpoint guard_all (next : string -> result resolution) (cs : list call) (seen : list string)
  : list (result outcome) * list (string * string) * list string :=
  match cs with
  | [] => ([], [], seen)
  | c :: cs => let '(o, r1, seen) := guard next c seen in
               let '(os, r2, seen) := guard_all next cs seen in (o :: os, r1 ++ r2, seen)
  end.
End lockdown.

(** ** What is reported *)

(** The reports so far, against what has been seen. *)
Record log_ok (seen : list string) (r : list (string * string)) : Prop := {
  log_nodup : NoDup seen;
  log_bound : (length seen <= S MAX_REPORTS)%nat;
  log_length : length r = length seen;
  log_report : forall i rt, r !! i = Some rt ->
    if (i <? MAX_REPORTS)%nat then seen !! i = Some (report_key rt.1 rt.2) else rt = ("suppressed"%string, ""%string)
}.

(** A guard keeps its reports in step with what it has seen. *)
Definition logs {A} (m : guarded A) : Prop :=
  forall seen r, log_ok seen r -> log_ok (m seen).2 (r ++ (m seen).1.2).

Create HintDb guards.

Lemma logs_ret {A} (a : A) : logs (gret a).
Proof. intros seen r H. cbn. by rewrite app_nil_r. Qed.
Lemma logs_throw {A} e : logs (@gthrow A e).
Proof. intros seen r H. cbn. by rewrite app_nil_r. Qed.

Lemma logs_bind {A B} (m : guarded A) (k : A -> guarded B) : logs m -> (forall a, logs (k a)) -> logs (gbind m k).
Proof.
  intros Hm Hk seen r H. specialize (Hm seen r H). unfold gbind. destruct (m seen) as [[[a|e] r1] s1]; cbn in *; [|done].
  specialize (Hk a s1 (r ++ r1) Hm). destruct (k a s1) as [[b r2] s2]. cbn in *. by rewrite app_assoc.
Qed.

Lemma logs_once rule target : logs (once rule target).
Proof.
  intros seen r [H1 H2 H3 H4]. unfold once. cbv zeta.
  destruct (includes _ seen || _) eqn:E; cbn [fst snd]; [by rewrite app_nil_r; split|].
  apply orb_false_iff in E as [E1 E2]. apply includes_false in E1. apply Nat.ltb_ge in E2.
  split.
  - apply NoDup_app. split; [done|]. split; [|apply NoDup_singleton]. intros x Hx ->%list_elem_of_singleton. done.
  - rewrite length_app. cbn [length]. lia.
  - rewrite !length_app. cbn [length]. lia.
  - intros i rt Hi. apply lookup_app_Some in Hi as [Hi|[Hle Hi]].
    + specialize (H4 i rt Hi). destruct (i <? MAX_REPORTS)%nat; [|done]. by apply lookup_app_l_Some.
    + apply list_lookup_singleton_Some in Hi as [Ek <-]. assert (i = length seen) as -> by lia.
      rewrite length_app. cbn [length]. destruct (Nat.ltb_spec (length seen) MAX_REPORTS) as [Hlt|Hge].
      * rewrite (proj2 (Nat.ltb_ge _ _)) by lia. by apply list_lookup_middle.
      * by rewrite (proj2 (Nat.ltb_lt _ _)) by lia.
Qed.

#[export] Hint Resolve logs_ret logs_throw logs_once : guards.

(** Through the guard's matches and binds. *)
Ltac walk_guard := repeat first [solve [auto with guards] | apply logs_bind; [|intros ?] | case_match].

Section properties.
Context (mode moduleName : string) (root pcwd : string) (virtualRoot : option string) (net : list net_entry).
Context (fileURLToPath : string -> result string) (isBuiltin : string -> bool) (libFile : string -> bool).
Context (parseURL : string -> option url_parts) (joinURL : string -> string -> option url_parts).

Notation guardM := (guard mode moduleName root pcwd virtualRoot net fileURLToPath isBuiltin libFile parseURL).
Notation guard_allM := (guard_all mode moduleName root pcwd virtualRoot net fileURLToPath isBuiltin libFile parseURL).

Lemma logs_violate rule target e : logs (violate mode rule target e).
Proof. unfold violate. walk_guard. Qed.

Lemma logs_adopt what : logs (adopt mode moduleName what).
Proof. apply logs_violate. Qed.

#[local] Hint Resolve logs_violate logs_adopt : guards.

Lemma logs_checkHref href : logs (checkHref mode moduleName net parseURL href).
Proof. unfold checkHref. walk_guard. Qed.
#[local] Hint Resolve logs_checkHref : guards.

Lemma logs_guard next c : logs (guardM next c).
Proof.
  destruct c; cbn [guard]; unfold newSocket, listen, getBuiltinModule, createRequire, loadFile, createSOAPClient, then_original, lockdown_resolve, request_through; cbv zeta; unfold then_original; walk_guard.
Qed.

Lemma logs_all next cs seen r : log_ok seen r -> let '(_, r', seen') := guard_allM next cs seen in log_ok seen' (r ++ r').
Proof.
  revert seen r. induction cs as [|c cs IH]; intros seen r H; cbn [guard_all]; [by rewrite app_nil_r|].
  pose proof (logs_guard next c seen r H) as H1. destruct (guardM next c seen) as [[o r1] s1]. cbn in H1.
  specialize (IH s1 (r ++ r1) H1). destruct (guard_allM next cs s1) as [[os r2] s2]. by rewrite app_assoc.
Qed.

(** ** What the originals are called for *)

Definition out {A} (m : guarded A) (seen : list string) : result A := (m seen).1.1.

Lemma out_bind {A B} (m : guarded A) (k : A -> guarded B) seen :
  out (gbind m k) seen = match out m seen with Ok a => out (k a) (m seen).2 | Throw e => Throw e end.
Proof. unfold out, gbind. destruct (m seen) as [[[a|e] r1] s1]; cbn; [|done]. by destruct (k a s1) as [[b r2] s2]. Qed.

Lemma out_once rule target seen : out (once rule target) seen = Ok tt.
Proof. unfold out, once. cbv zeta. by destruct (_ || _). Qed.

Lemma out_violate rule target e seen :
  out (violate mode rule target e) seen = if locked mode then Throw e else Ok tt.
Proof. unfold violate. rewrite out_bind, out_once. by destruct (locked mode). Qed.

Lemma out_ret {A} (a : A) seen : out (gret a) seen = Ok a.
Proof. done. Qed.
Lemma out_throw {A} e seen : out (@gthrow A e) seen = Throw e.
Proof. done. Qed.

Definition reaches (href : string) : Prop := exists h, hostPort parseURL href = Some h /\ host_allowed net h = true.
Notation inside := (inModule root virtualRoot).
Notation from_module := (fromModule root virtualRoot fileURLToPath).

(** Under enforce, the calls whose original may run. *)
Definition within (next : string -> result resolution) (c : call) : Prop :=
  match c with
  | Socket (AnObject fd handle _handle _ _) => fd = false /\ handle = false /\ _handle = false
  | Listen (AnObject fd handle _handle array plain) =>
      fd = false /\ handle = false /\ _handle = false /\ (array = true \/ plain = true)
  | Bind (AnObject fd _ _ _ _) => fd = false
  | Socket NoObject | Listen NoObject | Bind NoObject => True
  | GetBuiltinModule id => bare id <> "module"%string /\ (isBuiltin id = true -> bare (bare id) ∈ ALLOWED_BUILTINS)
  | CreateRequire from => exists f, fromPath pcwd fileURLToPath from = Ok f /\ inside f = true
  | Resolve specifier parentURL =>
      if isBuiltin specifier
      then bare (bare specifier) ∈ ALLOWED_BUILTINS /\ (from_module parentURL = true -> bare specifier <> "module"%string)
      else exists r, next specifier = Ok r /\
             (from_module parentURL = true -> forall u, rs_url r = JStr u -> exists p, fileURLToPath u = Ok p /\ inside p = true)
  | LoadFile file => inside (resolve pcwd [file]) = true
  | CreateSOAPClient target endpoint => reaches target /\ (forall e, endpoint = Some e -> reaches e)
  | _ => False
  end.

(** The options CHUtil.request hands on, and the redirects it follows. *)
Definition request_within (n : normalised) : Prop :=
  (forall k v, assoc k (nm_options n) = Some v -> k ∈ REQUEST_OPTIONS /\ k <> "url"%string \/ k = "proxy"%string /\ v = OVal JNull) /\
  assoc "proxy" (nm_options n) = Some (OVal JNull) /\
  (exists href, assoc "uri" (nm_options n) = Some (OVal (JStr href)) /\ reaches href) /\
  (forall ask location base seen, out (followRedirect net parseURL joinURL ask n location base) seen = Ok true ->
     exists u, joinURL (js_text location) base = Some u /\ reaches (u_href u)).

Lemma copy_options_keys kvs o o' :
  copy_options kvs o = inr o' -> (forall k v, assoc k o = Some v -> k ∈ REQUEST_OPTIONS) ->
  forall k v, assoc k o' = Some v -> k ∈ REQUEST_OPTIONS.
Proof.
  revert o. induction kvs as [|[k0 v0] kvs IH]; intros o E Ho; cbn [copy_options] in E; [by injection E as <-|].
  assert (Hin : (if includes k0 REQUEST_OPTIONS then copy_options kvs (assoc_set k0 v0 o) else inl k0) = inr o' ->
    forall k v, assoc k o' = Some v -> k ∈ REQUEST_OPTIONS).
  { destruct (includes k0 REQUEST_OPTIONS) eqn:Ei; [|done]. intros E'. apply includes_spec in Ei. eapply IH; [exact E'|].
    intros k v. rewrite assoc_set_lookup. destruct (String.eqb_spec k k0) as [->|]; [done|apply Ho]. }
  destruct v0 as [[]|]; try (by apply Hin). by eapply IH.
Qed.

Lemma opt_delete_lookup k o k' : assoc k' (opt_delete k o) = if String.eqb k k' then None else assoc k' o.
Proof.
  unfold opt_delete. induction o as [|[j v] o IH]; cbn; [by destruct (String.eqb k k')|].
  destruct (String.eqb_spec k j) as [->|Hne]; cbn.
  - rewrite IH. destruct (String.eqb_spec j k') as [->|Hne]; [done|]. destruct (String.eqb_spec k' j); congruence.
  - rewrite IH. destruct (String.eqb_spec k' j) as [->|]; [|done]. by destruct (String.eqb_spec k j).
Qed.

Hypothesis url_stable : forall t u, parseURL t = Some u -> parseURL (u_href u) = Some u.

Lemma hostPort_stable t h : hostPort parseURL t = Some h -> hostPort parseURL (hp_href h) = Some h.
Proof using url_stable.
  unfold hostPort. destruct (parseURL t) as [u|] eqn:E; [|done]. cbn. intros [= <-]. cbn. by rewrite (url_stable t u E).
Qed.

Lemma redirect_within n ask location base seen :
  out (followRedirect net parseURL joinURL ask n location base) seen = Ok true ->
  exists u, joinURL (js_text location) base = Some u /\ reaches (u_href u).
Proof.
  unfold followRedirect, reaches. destruct (nm_redirect n) as [original|]; [|done].
  destruct (joinURL _ _) as [u|]; cbn [mbind option_bind]; [|by rewrite out_bind, out_once].
  destruct (hostPort parseURL (u_href u)) as [h|] eqn:Eh; [|by rewrite out_bind, out_once].
  destruct (host_allowed net h) eqn:E; [|by rewrite out_bind, out_once]. intros _. exists u. split; [done|]. by exists h.
Qed.

Lemma normalised_within opts n : normaliseRequestOptions net parseURL opts = Normal n -> request_within n.
Proof using url_stable.
  unfold normaliseRequestOptions. destruct (match opts with OptString _ => _ | _ => _ end) as [given|]; [|done].
  destruct (copy_options given []) as [k|o] eqn:Ec; [done|]. destruct (request_target o) as [| | | | |target| |]; try done.
  destruct (hostPort parseURL target) as [h|] eqn:Eh; [|done]. destruct (host_allowed net h) eqn:Ea; [|done]. cbn [negb].
  intros [= <-]. unfold request_within. cbn [nm_options]. split_and!.
  - intros k v. rewrite !assoc_set_lookup, opt_delete_lookup.
    destruct (String.eqb_spec k "proxy") as [->|]; [intros [= <-]; by right|].
    destruct (String.eqb_spec k "uri") as [->|]; [intros [= <-]; left; split; [apply includes_spec; by vm_compute|done]|].
    destruct (String.eqb_spec "url" k) as [|Hne]; [done|]. intros E. left. split; [|congruence].
    by eapply (copy_options_keys given [] o).
  - by rewrite assoc_set_lookup.
  - exists (hp_href h). rewrite !assoc_set_lookup. split; [done|]. exists h. split; [by eapply hostPort_stable|done].
  - intros ask location base seen. apply redirect_within.
Qed.

Lemma out_original (m : guarded unit) seen : out (then_original m) seen = match out m seen with Ok _ => Ok Calls | Throw e => Throw e end.
Proof. unfold then_original. rewrite out_bind. by destruct (out m seen). Qed.

(** What a guard lets through, under enforce. *)
Definition lets (next : string -> result resolution) (c : call) (o : result outcome) : Prop :=
  match o with Ok Calls => within next c | Ok (CallsWith n) => request_within n | _ => True end.

Ltac outs := repeat first [rewrite out_original | rewrite out_bind | rewrite out_violate | rewrite out_once | rewrite out_ret | rewrite out_throw].

Lemma resolve_lets next specifier parentURL seen :
  locked mode = true ->
  lets next (Resolve specifier parentURL)
    (out (lockdown_resolve mode root virtualRoot fileURLToPath isBuiltin libFile next specifier parentURL) seen).
Proof.
  intros L. unfold lockdown_resolve, lets, within. cbv zeta. destruct (isBuiltin specifier) eqn:Eb.
  - outs. destruct (builtinAllowed (bare specifier)) eqn:Ea; outs; rewrite ?L; [|done].
    assert (Hin : bare (bare specifier) ∈ ALLOWED_BUILTINS) by by apply includes_spec in Ea.
    destruct (from_module parentURL) eqn:Em; cbn [andb]; [|outs; split; [done|by intros [=]]].
    destruct (includes (bare specifier) WATCHED); outs; destruct (String.eqb_spec (bare specifier) "module"); cbn [andb]; try done.
  - destruct (next specifier) as [r|e] eqn:En; [|outs; destruct (_ && _ && _); outs; by rewrite ?L].
    destruct (from_module parentURL) eqn:Em; [|outs; by exists r].
    destruct (rs_url r) as [| | | | |u| |] eqn:Eu; outs; try (exists r; split; [done|]; intros _ u' E'; congruence).
    destruct (starts_with "file:" u); outs; rewrite ?L; [|done]. destruct (fileURLToPath u) as [p|e] eqn:Ep; outs; [|done].
    destruct (inside p) eqn:Ei; outs; rewrite ?L; [|done]. exists r. split; [done|]. intros _ u' Eu'. rewrite Eu in Eu'.
    injection Eu' as <-. by exists p.
Qed.

Lemma checkHref_spec href seen :
  locked mode = true ->
  exists d, out (checkHref mode moduleName net parseURL href) seen = Ok d /\ (d = None <-> reaches href).
Proof.
  intros L. unfold checkHref, reaches. cbv zeta. destruct (hostPort parseURL href) as [h|].
  - destruct (host_allowed net h) eqn:Ea; outs; rewrite ?L.
    + exists None. split; [done|]. split; [|done]. intros _. by exists h.
    + eexists. split; [done|]. split; [done|]. intros (h' & [= <-] & Ea'). congruence.
  - outs. rewrite L. eexists. split; [done|]. split; [done|]. by intros (h & [=] & _).
Qed.

Lemma guard_lets next c seen : locked mode = true -> lets next c (out (guardM next c) seen).
Proof using url_stable.
  intros L. destruct c; cbn [guard]; unfold newSocket, listen, getBuiltinModule, createRequire, loadFile, createSOAPClient, adopt; try (outs; by rewrite L).
  - destruct a as [|fd handle h array plain]; outs; cbn; [done|].
    destruct fd, handle, h; cbn; outs; by rewrite ?L.
  - destruct a as [|fd handle h array plain]; outs; cbn; [done|].
    destruct fd, handle, h, array, plain; cbn; outs; rewrite ?L; cbn; auto.
  - destruct a as [|fd handle h array plain]; outs; cbn; [done|]. destruct fd; cbn; outs; by rewrite ?L.
  - cbv zeta. outs. rewrite L. destruct (isBuiltin id && negb (builtinAllowed (bare id))) eqn:Eb; outs; cbn [andb]; [done|].
    destruct (String.eqb_spec (bare id) "module") as [|Hne]; cbn [andb]; [done|]. split; [done|]. intros Hb. rewrite Hb in Eb.
    cbn [andb] in Eb. apply negb_false_iff in Eb. by apply includes_spec in Eb.
  - cbv zeta. outs. destruct (fromPath pcwd fileURLToPath from) as [f|e] eqn:Ef; [|outs; by rewrite L].
    destruct (inside f) eqn:Ei; outs; rewrite ?L; [|done]. by exists f.
  - by apply resolve_lets.
  - cbv zeta. destruct (inside (resolve pcwd [file])) eqn:Ei; outs; by rewrite ?L.
  - unfold request_through. destruct (normaliseRequestOptions net parseURL opts) as [t|n] eqn:En; outs; rewrite L; [done|].
    by eapply normalised_within.
  - outs. destruct (checkHref_spec target seen L) as (d & -> & Hd). outs. destruct d as [d|]; outs; [done|]. cbn in Hd.
    destruct endpoint as [e|]; outs; [|split; [by apply Hd|done]].
    destruct (checkHref_spec e (checkHref mode moduleName net parseURL target seen).2 L) as (d & -> & Hd'). destruct d as [d|]; [done|].
    split; [by apply Hd|]. intros e' [= <-]. by apply Hd'.
Qed.

(** With nothing enforced, the originals run. *)
Lemma guard_runs next c seen :
  locked mode = false ->
  match c, out (guardM next c) seen with
  | RegisterHooks _, o => o = Ok Undefined
  | Resolve specifier _, Throw e => next specifier = Throw e \/ exists u, fileURLToPath u = Throw e
  | _, o => o = Ok Calls
  end.
Proof.
  intros L. destruct c; cbn [guard]; unfold newSocket, listen, getBuiltinModule, createRequire, loadFile, createSOAPClient, adopt; cbv zeta; try (outs; by rewrite L).
  - outs. destruct (fdOrHandle a); outs; by rewrite ?L.
  - outs. destruct (_ || _); outs; by rewrite ?L.
  - outs. destruct a as [|[]]; outs; by rewrite ?L.
  - outs. destruct (_ && negb _); outs; rewrite L, !andb_false_r; done.
  - outs. destruct (fromPath pcwd fileURLToPath from) as [f|]; [destruct (inside f)|]; outs; by rewrite ?L.
  - unfold lockdown_resolve. cbv zeta. destruct (isBuiltin specifier).
    + outs. destruct (builtinAllowed _); outs; rewrite ?L; destruct (_ && includes _ _); outs; by rewrite andb_false_r.
    + destruct (next specifier) as [r|e]; [|outs; destruct (_ && _ && _); outs; rewrite ?L; by left].
      destruct (from_module parentURL), (rs_url r) as [| | | | |u| |]; outs; try done.
      destruct (starts_with "file:" u); outs; rewrite ?L; [|done]. destruct (fileURLToPath u) as [p|e] eqn:E; outs; [|right; by exists u].
      destruct (inside p); outs; by rewrite ?L.
  - outs. destruct (inside _); outs; by rewrite ?L.
  - unfold request_through. destruct (normaliseRequestOptions _ _ _); outs; by rewrite L.
  - outs.
    assert (Hc : forall href seen, out (checkHref mode moduleName net parseURL href) seen = Ok None).
    { intros href seen'. unfold checkHref. cbv zeta. destruct (hostPort parseURL href) as [h|]; [destruct (host_allowed net h)|]; outs; by rewrite ?L. }
    rewrite Hc. destruct endpoint; outs; [by rewrite Hc|done].
Qed.
End properties.

(** ** Audit and enforce *)

Definition refused (o : result outcome) : Prop :=
  match o with Throw _ | Ok Undefined | Ok (CallsBackWith _) => True | _ => False end.

Section modes.
Context (moduleName root pcwd : string) (virtualRoot : option string) (net : list net_entry).
Context (fileURLToPath : string -> result string) (isBuiltin : string -> bool) (libFile : string -> bool).
Context (parseURL : string -> option url_parts).

Notation guardIn mode := (guard mode moduleName root pcwd virtualRoot net fileURLToPath isBuiltin libFile parseURL).

(** What a worker under audit gets and reports, and one under enforce, where
    nothing has been reported yet. *)
Definition agrees (a e : result outcome * list (string * string) * list string) : Prop :=
  (forall rt, rt ∈ a.1.2 -> rt.1 <> "uses"%string -> refused e.1.1) /\
  (forall rt, rt ∈ e.1.2 -> rt ∈ a.1.2) /\
  (e.1.1 = a.1.1 \/ e.1.1 = Ok Reduced \/ (exists n, e.1.1 = Ok (CallsWith n)) \/ exists rt, rt ∈ a.1.2 /\ rt.1 <> "uses"%string).

Lemma once_first rule target : once rule target [] = (Ok tt, [(rule, target)], [report_key rule target]).
Proof. done. Qed.

Lemma agrees_same o r seen seen' : (forall rt, rt ∈ r -> rt.1 = "uses"%string) -> agrees (o, r, seen) (o, r, seen').
Proof. intros H. split_and!; [|done|by left]. intros rt Hin Hne. by destruct (Hne (H rt Hin)). Qed.

Lemma agrees_reduced o r seen seen' : (forall rt, rt ∈ r -> rt.1 = "uses"%string) -> agrees (o, r, seen) (Ok Reduced, r, seen').
Proof. intros H. split_and!; [|done|by right; left]. intros rt Hin Hne. by destruct (Hne (H rt Hin)). Qed.

(** A violation, or nothing amiss. *)
Lemma agrees_violate rule target e :
  rule <> "uses"%string -> agrees (then_original (violate "audit" rule target e) []) (then_original (violate "enforce" rule target e) []).
Proof.
  intros Hne. unfold then_original, violate, gbind. rewrite once_first. cbn. split_and!; [done|done|].
  right; right; right. exists (rule, target). split; [by left|done].
Qed.

Lemma agrees_unless (b : bool) rule target e :
  rule <> "uses"%string ->
  agrees (then_original (if b then gret tt else violate "audit" rule target e) [])
         (then_original (if b then gret tt else violate "enforce" rule target e) []).
Proof. intros Hne. destruct b; [|by apply agrees_violate]. apply agrees_same. by intros rt H%elem_of_nil. Qed.

Lemma agrees_if (b : bool) rule target e :
  rule <> "uses"%string ->
  agrees (then_original (if b then violate "audit" rule target e else gret tt) [])
         (then_original (if b then violate "enforce" rule target e else gret tt) []).
Proof. intros Hne. destruct b; [by apply agrees_violate|]. apply agrees_same. by intros rt H%elem_of_nil. Qed.

Lemma process_rule key : "process." +:+ key <> "uses"%string.
Proof. done. Qed.

Lemma builtin_watched b : includes b WATCHED = true -> builtinAllowed b = true.
Proof.
  intros H%includes_spec. unfold WATCHED in H. repeat (apply elem_of_cons in H as [->|H]; [by vm_compute|]). by apply elem_of_nil in H.
Qed.

Lemma resolve_agrees next specifier parentURL :
  agrees (lockdown_resolve "audit" root virtualRoot fileURLToPath isBuiltin libFile next specifier parentURL [])
         (lockdown_resolve "enforce" root virtualRoot fileURLToPath isBuiltin libFile next specifier parentURL []).
Proof.
  unfold lockdown_resolve. cbv zeta. set (mc := fromModule root virtualRoot fileURLToPath parentURL). destruct (isBuiltin specifier).
  - destruct (builtinAllowed (bare specifier)) eqn:Ea.
    + destruct (mc && includes (bare specifier) WATCHED); unfold gbind; rewrite ?once_first; cbn;
        destruct (mc && String.eqb (bare specifier) "module"); cbn; (apply agrees_same || apply agrees_reduced).
      1,2: by intros rt ->%list_elem_of_singleton.
      all: by intros rt H%elem_of_nil.
    + assert (includes (bare specifier) WATCHED = false) as ->.
      { destruct (includes _ WATCHED) eqn:E; [|done]. apply builtin_watched in E. congruence. }
      rewrite andb_false_r. unfold violate, gbind. rewrite once_first. cbn. rewrite andb_false_r. split_and!; [done|done|].
      right; right; right. eexists. split; [by left|done].
  - destruct (next specifier) as [r|e].
    + assert (Hv : agrees (then_original (violate "audit" "require" (stake 200 specifier) (moduleNotFound (stake 200 specifier))) [])
                     (then_original (violate "enforce" "require" (stake 200 specifier) (moduleNotFound (stake 200 specifier))) []))
        by by apply agrees_violate.
      destruct mc, (rs_url r); try (apply agrees_same; by intros rt H%elem_of_nil); try done.
      destruct (starts_with "file:" s); [|done]. destruct (fileURLToPath s) as [p|e]; [|apply agrees_same; by intros rt H%elem_of_nil].
      destruct (inModule root virtualRoot p); [|done]. apply agrees_same. by intros rt H%elem_of_nil.
    + destruct (_ && _ && _); [|apply agrees_same; by intros rt H%elem_of_nil].
      unfold violate, gbind. rewrite once_first. cbn. split_and!; [done|done|]. right; right; right. eexists. split; [by left|done].
Qed.

(** What [checkHref] reports of a URL. *)
Definition bad_href (href : string) : option string :=
  match hostPort parseURL href with
  | None => Some "null:null"%string
  | Some h => if host_allowed net h then None else Some (host_text h)
  end.

Lemma checkHref_eq mode href seen :
  checkHref mode moduleName net parseURL href seen =
  match bad_href href with
  | None => (Ok None, [], seen)
  | Some w => (Ok (if locked mode then Some (accessDenied ("network access to " +:+ w) moduleName) else None),
               (once "net" w seen).1.2, (once "net" w seen).2)
  end.
Proof.
  unfold checkHref, bad_href. cbv zeta. destruct (hostPort parseURL href) as [h|]; [destruct (host_allowed net h); [done|]|];
    unfold gbind, once; cbv zeta; destruct (_ || _); cbn; by rewrite ?app_nil_r.
Qed.

Lemma soap_agrees next target endpoint :
  agrees (guardIn "audit" next (CreateSOAPClient target endpoint) []) (guardIn "enforce" next (CreateSOAPClient target endpoint) []).
Proof.
  cbn [guard]. unfold createSOAPClient, gbind. rewrite !checkHref_eq. destruct (bad_href target) as [w|]; cbn [locked String.eqb].
  - rewrite once_first. cbn. destruct endpoint as [e|]; [rewrite checkHref_eq; destruct (bad_href e) as [w'|]|]; cbn.
    all: split_and!; [done| |right; right; right; eexists; split; [by left|done]].
    all: intros rt ->%list_elem_of_singleton; by left.
  - destruct endpoint as [e|]; [|apply agrees_same; by intros rt H%elem_of_nil]. rewrite !checkHref_eq.
    destruct (bad_href e) as [w|]; [|apply agrees_same; by intros rt H%elem_of_nil]. rewrite once_first. cbn.
    split_and!; [done|done|right; right; right; eexists; split; [by left|done]].
Qed.

Lemma guard_agrees next c : agrees (guardIn "audit" next c []) (guardIn "enforce" next c []).
Proof.
  destruct c; cbn [guard]; unfold newSocket, listen, getBuiltinModule, createRequire, loadFile, createSOAPClient, adopt; cbv zeta; try (by apply agrees_violate).
  - by apply agrees_if.
  - by apply agrees_if.
  - destruct a as [|[] handle h array plain]; [|by apply agrees_violate|]; apply agrees_same; by intros rt H%elem_of_nil.
  - unfold gbind. destruct (isBuiltin id && negb (builtinAllowed (bare id))) eqn:Eb; cbn [andb].
    + rewrite once_first. cbn. split_and!; [done|by destruct (String.eqb _ _)|]. right; right; right. eexists. split; [by left|done].
    + cbn. destruct (String.eqb (bare id) "module"); cbn; [apply agrees_reduced|apply agrees_same]; by intros rt H%elem_of_nil.
  - by apply agrees_unless.
  - apply resolve_agrees.
  - unfold gbind, violate, gbind. rewrite once_first. cbn. split_and!; [done|done|]. right; right; right. eexists. split; [by left|done].
  - by apply agrees_unless.
  - unfold request_through, gbind. destruct (normaliseRequestOptions net parseURL opts) as [t|n].
    + rewrite once_first. cbn. split_and!; [done|done|]. right; right; right. eexists. split; [by left|done].
    + cbn. split_and!; [by intros rt H%elem_of_nil|by intros rt H%elem_of_nil|]. right; right; left. by exists n.
  - apply (soap_agrees next).
Qed.
End modes.

(** ** Properties *)

(** C10: Under enforce, whatever has been reported, a locked function's original
    runs only for a call within the module's rights: never to load native code,
    reach a raw binding, adopt a descriptor or handle, write a report or a
    compile cache, send a signal or register a hook; built-ins only from the
    list, and never the real [module] for module code; files only inside the
    module, for its own code; and a SOAP client only for allowed hosts. What
    CHUtil.request hands on has only known options, no proxy, and one URL whose
    host and port the permission covers, and it follows a redirect only to
    such a host. *)
Theorem lockdown_enforced (moduleName root pcwd : string) (virtualRoot : option string) (net : list net_entry)
    (fileURLToPath : string -> result string) (isBuiltin libFile : string -> bool) (parseURL : string -> option url_parts)
    (joinURL : string -> string -> option url_parts) (next : string -> result resolution) (c : call) (seen : list string) :
  (forall t u, parseURL t = Some u -> parseURL (u_href u) = Some u) ->
  match (guard "enforce" moduleName root pcwd virtualRoot net fileURLToPath isBuiltin libFile parseURL next c seen).1.1 with
  | Ok Calls => within root pcwd virtualRoot net fileURLToPath isBuiltin parseURL next c
  | Ok (CallsWith n) => request_within net parseURL joinURL n
  | _ => True
  end.
Proof. intros H. by apply guard_lets. Qed.

(** C13: The audit log is what enforce would refuse. For a call where nothing
    has been reported: whatever audit reports, but for the use of a watched
    built-in, enforce refuses; enforce reports nothing audit does not; and where
    enforce does otherwise than audit -- the reduced [module] and normalised
    request options aside -- audit has reported it. Under audit every original
    runs, but for the registration of hooks, or the resolver's own error is
    thrown. *)
Theorem audit_predicts_enforce (moduleName root pcwd : string) (virtualRoot : option string) (net : list net_entry)
    (fileURLToPath : string -> result string) (isBuiltin libFile : string -> bool) (parseURL : string -> option url_parts)
    (next : string -> result resolution) (c : call) :
  let g mode := guard mode moduleName root pcwd virtualRoot net fileURLToPath isBuiltin libFile parseURL next c [] in
  agrees (g "audit"%string) (g "enforce"%string) /\
  match c, (g "audit"%string).1.1 with
  | RegisterHooks _, o => o = Ok Undefined
  | Resolve specifier _, Throw e => next specifier = Throw e \/ exists u, fileURLToPath u = Throw e
  | _, o => o = Ok Calls
  end.
Proof.
  cbn zeta. split; [apply guard_agrees|]. 
  pose proof (guard_runs "audit" moduleName root pcwd virtualRoot net fileURLToPath isBuiltin libFile parseURL next c [] eq_refl) as H.
  destruct c; exact H.
Qed.

(** However many calls a worker makes: at most a hundred reports, each of them
    once, and then one that says so. *)
Theorem lockdown_reports_bounded (mode moduleName root pcwd : string) (virtualRoot : option string) (net : list net_entry)
    (fileURLToPath : string -> result string) (isBuiltin libFile : string -> bool) (parseURL : string -> option url_parts)
    (next : string -> result resolution) (cs : list call) :
  let reports := (guard_all mode moduleName root pcwd virtualRoot net fileURLToPath isBuiltin libFile parseURL next cs []).1.2 in
  (length reports <= S MAX_REPORTS)%nat /\ NoDup (take MAX_REPORTS reports) /\
  (forall rt, reports !! MAX_REPORTS = Some rt -> rt = ("suppressed"%string, ""%string)).
Proof.
  cbn zeta. pose proof (logs_all mode moduleName root pcwd virtualRoot net fileURLToPath isBuiltin libFile parseURL next cs [] []) as H.
  destruct (guard_all _ _ _ _ _ _ _ _ _ _ _ _ _) as [[os r] seen]. cbn [fst snd]. destruct H as [H1 H2 H3 H4].
  { split; [constructor|cbn; lia|done|]. by intros i rt H. }
  cbn [app] in *. split_and!.
  - lia.
  - apply NoDup_alt. intros i j rt Hi Hj. apply lookup_take_Some in Hi as [Hi Li], Hj as [Hj Lj].
    pose proof (H4 i rt Hi) as Ei. pose proof (H4 j rt Hj) as Ej. 
    rewrite (proj2 (Nat.ltb_lt _ _) Li) in Ei. rewrite (proj2 (Nat.ltb_lt _ _) Lj) in Ej.
    by eapply NoDup_lookup.
  - intros rt Hr. specialize (H4 _ _ Hr). by rewrite Nat.ltb_irrefl in H4.
Qed.

(** ** An instance *)

(** Two hosts: what is not one of these URLs does not parse. *)
Definition demo_parseURL (t : string) : option url_parts :=
  if String.eqb t "https://api.example.com/" then Some (mkUrl "api.example.com" None true t)
  else if String.eqb t "http://10.0.0.1:8080/" then Some (mkUrl "10.0.0.1" (Some 8080%Z) false t) else None.
Definition demo_net : list net_entry := [mkNet "*.example.com" None].
Definition demo_guard (c : call) : guarded outcome :=
  guard "enforce" "m" "/m" "/" (Some "/app"%string) demo_net Ok (fun _ => true) (fun _ => false) demo_parseURL (fun _ => Ok (mkRes JUndef JUndef)) c.

(** A request to the covered host is handed on under its one URL; another host
    is refused. *)
Lemma lockdown_enforced_witness :
  out (demo_guard (Request (OptObject [("url"%string, OVal (JStr "https://api.example.com/")); ("json"%string, OVal (JBool true))]))) [] =
    Ok (CallsWith (mkNorm [("json"%string, OVal (JBool true)); ("uri"%string, OVal (JStr "https://api.example.com/")); ("proxy"%string, OVal JNull)]
                          (Some None))) /\
  request_within demo_net demo_parseURL (fun _ _ => None)
    (mkNorm [("json"%string, OVal (JBool true)); ("uri"%string, OVal (JStr "https://api.example.com/")); ("proxy"%string, OVal JNull)] (Some None)) /\
  out (demo_guard (Request (OptString "http://10.0.0.1:8080/"))) [] =
    Ok (CallsBackWith (accessDenied "network access to 10.0.0.1:8080" "m")).
Proof.
  split; [by vm_compute|]. split; [|by vm_compute].
  apply (lockdown_enforced "m" "/m" "/" (Some "/app"%string) demo_net Ok (fun _ => true) (fun _ => false) demo_parseURL (fun _ _ => None)
    (fun _ => Ok (mkRes JUndef JUndef))
    (Request (OptObject [("url"%string, OVal (JStr "https://api.example.com/")); ("json"%string, OVal (JBool true))])) []).
  intros t u. unfold demo_parseURL. destruct (String.eqb_spec t "https://api.example.com/") as [->|]; [by intros [= <-]|].
  destruct (String.eqb_spec t "http://10.0.0.1:8080/") as [->|]; [by intros [= <-]|done].
Defined.

(** Under audit a hook is not registered, and its caller is not told. *)
Example audit_registers_no_hook :
  guard "audit" "m" "/m" "/" (Some "/app"%string) [] Ok (fun _ => true) (fun _ => false) demo_parseURL (fun _ => Ok (mkRes JUndef JUndef))
    (RegisterHooks "registerHooks") [] =
  (Ok Undefined, [("module.registerHooks"%string, "registerHooks"%string)], [report_key "module.registerHooks" "registerHooks"]).
Proof. by vm_compute. Qed.
