(* ===== verification/PatchedFs.v ===== *)
(** * The worker's patched [fs] (lib/fs-broker/patch.js)

    What the replaced methods make of their arguments and of the broker's
    answers: the shapes of read and write, whole files in one call or in
    chunks, file handles, recursive copies and globs. The synchronous methods
    and their promise forms are the same steps over the blocking and the
    asynchronous half of the bridge, so each is modelled once, as a program
    that asks the broker. Who serves a call is ModuleLoader.v's [routed]. *)
From Stdlib Require Import ZArith Lia Ascii String.
From stdpp Require Import prelude strings gmap.
From S2P Require Import Prelude Paths Json FsErrors Namespace Prog Host Broker ModuleData ModuleLoader.

Set Default Proof Using "Type".
Local Open Scope Z_scope.

(** ** Requests *)

(** What is asked of the broker; descriptors are the broker's. *)
Inductive fsE : Type -> Type :=
| CallRead (fd len : Z) (position : option Z) : fsE (result string)
| CallWrite (fd : Z) (chunk : string) (position : option Z) : fsE (result Z)
| CallReadFile (path : string) (flag : jsval) : fsE (result string)
| CallWriteFile (path data : string) (flag mode : jsval) : fsE (result unit)
| CallOpen (path : string) (flag mode : jsval) : fsE (result Z)
| CallClose (fd : Z) : fsE (result unit)
| CallStat (follow : bool) (path : string) : fsE (result kind)
| CallReaddir (path : string) : fsE (result (list dirent))
| CallNames (path : string) : fsE (result (list string))
| CallExists (path : string) : fsE (result bool)
| CallMkdir (path : string) : fsE (result unit)
| CallUnlink (path : string) : fsE (result unit)
| CallReadlink (path : string) : fsE (result string)
| CallSymlink (target path : string) : fsE (result unit)
| CallCopyFile (src dest : string) : fsE (result unit)
| CallUtimes (path : string) : fsE (result unit)
| ConsoleWrite (fd : Z) (data : string) : fsE unit.

Definition fprog (A : Type) : Type := prog fsE (result A).
Definition fbind {A B} (m : fprog A) (k : A -> fprog B) : fprog B :=
  pbind m (fun r => match r with Ok a => k a | Throw e => Ret (Throw e) end).
Definition fok {A} (a : A) : fprog A := Ret (Ok a).
Definition fthrow {A} (e : jserr) : fprog A := Ret (Throw e).
Notation "'let+' x ':=' m 'in' k" := (fbind m (fun x => k)) (at level 200, x name, m at level 100, k at level 200).

(** ** Arguments *)

Definition FD_BASE : Z := 0x10000000.
Definition toBroker (fd : Z) : Z := if FD_BASE <=? fd then fd - FD_BASE else -1.
Definition fromBroker (fd : Z) : Z := fd + FD_BASE.

Definition argType (name received : string) : jserr :=
  coded_error "ERR_INVALID_ARG_TYPE"
    ("The " +:+ in_quotes name +:+ " argument must be of type string or an instance of Buffer or URL. Received " +:+ received).
Definition outOfRange (name : string) (received : Z) : jserr :=
  coded_error "ERR_OUT_OF_RANGE" ("The value of " +:+ in_quotes name +:+ " is out of range. Received " +:+ Z_text received).

(** A path as a string; [received] is the type of what is none. *)
Definition p_ (v : pathval) (name received : string) : result string :=
  match v with PStr s | PBuffer s | PUrl s => Ok s | POther => Throw (argType name received) end.

(** [Object.assign({}, def, o || {})] *)
Definition assign (def : list (string * jsval)) (o : jsval) : jsval :=
  match o with
  | JObj kvs => JObj (fold_left (fun out kv => assoc_set kv.1 kv.2 out) kvs def)
  | _ => JObj def
  end.
Definition opts (o : jsval) (def : list (string * jsval)) : jsval :=
  match o with JStr e => JObj (assoc_set "encoding" (JStr e) def) | _ => assign def o end.

(** What comes back of a file: bytes, or text of an encoding. *)
Inductive contents := Bytes (b : string) | Text (encoding : jsval) (b : string).
Definition enc (b : string) (encoding : jsval) : contents :=
  if truthy encoding && negb (strict_eq encoding (JStr "buffer")) then Text encoding b else Bytes b.

(** [parseInt(s, 8)]: white space, a sign, then digits as far as they go;
    [None] is NaN. *)
Fixpoint octal_digits (s : list ascii) (acc : option Z) : option Z :=
  match s with
  | c :: s' =>
      let d := Z.of_nat (nat_of_ascii c) - 48 in
      if (0 <=? d) && (d <=? 7) then octal_digits s' (Some (8 * default 0 acc + d)) else acc
  | [] => acc
  end.
Definition parse_octal (s : string) : option Z :=
  match drop_while is_space (list_ascii_of_string s) with
  | "-"%char :: ds => option_map Z.opp (octal_digits ds None)
  | "+"%char :: ds => octal_digits ds None
  | ds => octal_digits ds None
  end.

Definition mode_ (m : jsval) (def : jsval) : jsval :=
  match m with
  | JUndef | JNull => def
  | JStr s => match parse_octal s with Some z => JNum z | None => JFrac "NaN" end
  | _ => m
  end.

(** ** Reads and writes on descriptors *)

(** A number argument: undefined or null, or an integer. *)
Definition num_arg : Type := option Z.
Definition or0 (n : num_arg) : Z := default 0 n.

(** The buffer of a read with what follows it, or an options object. *)
Inductive read_form :=
| ReadInto (byteLength : Z) (offset length position : num_arg)
| ReadOptions (byteLength : option Z) (offset length position : num_arg).

Record read_args := mkRead { ra_size : Z; ra_offset : Z; ra_length : Z; ra_position : option Z }.

Definition readArgs (f : read_form) : result read_args :=
  let '(size, offset, length, position) :=
    match f with
    | ReadInto size o l p => (size, o, l, p)
    | ReadOptions size o l p => (default 16384 size, o, l, p)
    end in
  let offset := or0 offset in
  if (offset <? 0) || (size <? offset) then Throw (outOfRange "offset" offset)
  else
    let length := default (size - offset) length in
    if (length <? 0) || (size - offset <? length) then Throw (outOfRange "length" length)
    else Ok (mkRead size offset (Z.min length MAX_IO)
               (match position with Some p => if p =? -1 then None else Some p | None => None end)).

(** [b.copy(target, offset)]: what fits. *)
Definition copy_into (target b : string) (offset : Z) : string :=
  let at_ := Z.to_nat offset in
  let fits := stake (String.length target - at_) b in
  stake at_ target +:+ fits +:+ sdrop (at_ + String.length fits) target.

Definition fillRead (target r : string) (a : read_args) : Z * string := (slength r, copy_into target r (ra_offset a)).

(** [readSync], [read] and the handle's read: the count, and the buffer after. *)
Definition read_ (fd : Z) (target : string) (f : read_form) : fprog (Z * string) :=
  match readArgs f with
  | Throw e => fthrow e
  | Ok a => let+ r := ask (CallRead (toBroker fd) (ra_length a) (ra_position a)) in fok (fillRead target r a)
  end.

(** A slice of a buffer as [subarray] takes it: a negative index counts from
    the end. *)
Definition index_in (size i : Z) : Z := if i <? 0 then Z.max 0 (size + i) else Z.min i size.
Definition subarray (b : string) (from to : Z) : string :=
  let f := index_in (slength b) from in
  let t := index_in (slength b) to in
  stake (Z.to_nat (t - f)) (sdrop (Z.to_nat f) b).

(** A string already encoded, bytes, or bytes with an options object. *)
Inductive write_form :=
| WriteText (data : string) (position : num_arg)
| WriteBytes (data : string) (offset length position : num_arg)
| WriteOptions (data : string) (offset length position : num_arg).

Definition writeArgs (f : write_form) : string * option Z :=
  match f with
  | WriteText data position => (data, position)
  | WriteBytes data offset length position | WriteOptions data offset length position =>
      let off := or0 offset in (subarray data off (off + default (slength data - off) length), position)
  end.

Definition next_chunk (buf : string) (done : Z) : string := subarray buf done (done + MAX_IO).
Definition at_position (position : option Z) (done : Z) : option Z := option_map (fun p => p + done) position.

(** The loop of [writeChunks]; each turn writes something. *)
Fixpoint write_loop (fuel : nat) (fd : Z) (buf : string) (position : option Z) (done : Z) : fprog Z :=
  if slength buf <=? done then fok done
  else match fuel with
       | O => fthrow (plain_error "loop")
       | S f => let+ n := ask (CallWrite (toBroker fd) (next_chunk buf done) (at_position position done)) in
                write_loop f fd buf position (done + n)
       end.

Section silenced.
Context (consoleSilenced : bool).

Definition is_console (fd : Z) : bool := (fd =? 1) || (fd =? 2).

Definition writeChunks (fd : Z) (buf : string) (position : option Z) : fprog Z :=
  if is_console fd
  then pbind (if consoleSilenced then Ret tt else ask (ConsoleWrite fd buf)) (fun _ => fok (slength buf))
  else write_loop (String.length buf) fd buf position 0.

Definition write_ (fd : Z) (f : write_form) : fprog Z := let '(buf, position) := writeArgs f in writeChunks fd buf position.

(** Several buffers as one. *)
Definition vec (buffers : list string) : string := String.concat "" buffers.
Definition writev (fd : Z) (buffers : list string) (position : option Z) : fprog Z := writeChunks fd (vec buffers) position.

Definition total_ (buffers : list string) : Z := Z.min (fold_left (fun n b => n + slength b) buffers 0) MAX_IO.

(** What was read, dealt out over the buffers. *)
Fixpoint scatter (r : string) (buffers : list string) : list string :=
  match buffers with
  | [] => []
  | b :: bs => copy_into b (stake (String.length b) r) 0 :: scatter (sdrop (String.length b) r) bs
  end.
Definition readv (fd : Z) (buffers : list string) (position : option Z) : fprog (Z * list string) :=
  let+ r := ask (CallRead (toBroker fd) (total_ buffers) position) in fok (slength r, scatter r buffers).

(** ** Whole files *)

(** The loop of [readAllFd]: to the first empty read. *)
Fixpoint read_all (fuel : nat) (fd : Z) (parts : string) : fprog string :=
  match fuel with
  | O => fthrow (plain_error "loop")
  | S f => let+ r := ask (CallRead (toBroker fd) MAX_IO None) in
           if String.eqb r "" then fok parts else read_all f fd (parts +:+ r)
  end.

(** [try { body } finally { close }]: a close that fails is what is thrown. *)
Definition with_close {A} (fd : Z) (body : fprog A) : fprog A :=
  pbind body (fun r => let+ _ := ask (CallClose (toBroker fd)) in Ret r).

(** A descriptor number, a handle's descriptor, or a path. *)
Inductive file_arg := ByFd (fd : Z) | ByHandle (fd : Z) | ByPath (v : pathval) (received : string).

Definition is_EFBIG (e : jserr) : bool := match e_code e with Some c => String.eqb c "EFBIG" | None => false end.

(** The path a file argument stands for when it is no open file: a handle is
    one to the promise forms only. *)
Definition file_path (async : bool) (file : file_arg) : option (result string) :=
  match file with
  | ByFd _ => None
  | ByHandle _ => if async then None else Some (Throw (argType "path" "object"))
  | ByPath v received => Some (p_ v "path" received)
  end.
Definition file_fd (file : file_arg) : Z := match file with ByFd fd | ByHandle fd => fd | ByPath _ _ => -1 end.

Section turns.
Context (turns : nat) (async : bool).

Definition readFileImpl (file : file_arg) (o : jsval) : fprog contents :=
  let x := opts o [("flag"%string, JStr "r")] in
  match file_path async file with
  | None => let+ b := read_all turns (file_fd file) "" in fok (enc b (jget "encoding" x))
  | Some (Throw e) => fthrow e
  | Some (Ok path) =>
          pbind (ask (CallReadFile path (jget "flag" x))) (fun r =>
            match r with
            | Ok b => fok (enc b (jget "encoding" x))
            | Throw e =>
                if negb (is_EFBIG e) then fthrow e
                else let+ fd := ask (CallOpen path (jget "flag" x) (JNum 438)) in
                     with_close (fromBroker fd)
                       (let+ b := read_all turns (fromBroker fd) "" in fok (enc b (jget "encoding" x)))
            end)
  end.
End turns.

(** [buf] is the data as bytes. *)
Definition writeFileImpl (async : bool) (file : file_arg) (buf : string) (o : jsval) (defFlag : string) : fprog unit :=
  let x := opts o [("flag"%string, JStr defFlag); ("mode"%string, JNum 438)] in
  match file_path async file with
  | None => let+ _ := writeChunks (file_fd file) buf None in fok tt
  | Some (Throw e) => fthrow e
  | Some (Ok path) =>
      let flag := jget "flag" x in
      let mode := mode_ (jget "mode" x) JUndef in
      if (slength buf <=? MAX_IO) && negb (truthy (jget "flush" x)) && (negb async || is_nullish (jget "signal" x))
      then ask (CallWriteFile path buf flag mode)
      else let+ fd := ask (CallOpen path flag mode) in
           with_close (fromBroker fd) (let+ _ := writeChunks (fromBroker fd) buf None in fok tt)
  end.

Definition writeFile (async : bool) (file : file_arg) (buf : string) (o : jsval) : fprog unit := writeFileImpl async file buf o "w".
Definition appendFile (async : bool) (file : file_arg) (buf : string) (o : jsval) : fprog unit := writeFileImpl async file buf o "a".
End silenced.

(** ** File handles *)

(** What may be asked of a handle, with its arguments; [HRest] stands for the
    calls that pass the descriptor and other arguments on as they are. *)
Inductive handle_op :=
| HClose
| HRead (target : string) (f : read_form)
| HWrite (f : write_form)
| HWritev (buffers : list string) (position : option Z)
| HWriteFile (buf : string) (o : jsval) (defFlag : string).

(** A call on a handle whose descriptor is [fd]: the descriptor after the
    synchronous part of the call, and what the call goes on to do. *)
Definition handle_call (consoleSilenced : bool) (fd : Z) (op : handle_op) : Z * fprog unit :=
  match op with
  | HClose => if fd <? 0 then (fd, fok tt) else (-1, ask (CallClose (toBroker fd)))
  | HRead target f => (fd, let+ _ := read_ fd target f in fok tt)
  | HWrite f => (fd, let+ _ := write_ consoleSilenced fd f in fok tt)
  | HWritev buffers position => (fd, let+ _ := writev consoleSilenced fd buffers position in fok tt)
  | HWriteFile buf o defFlag => (fd, writeFileImpl consoleSilenced true (ByHandle fd) buf o defFlag)
  end.

(** Calls in the order they are made; each goes on by itself. *)
Fixpoint handle_calls (consoleSilenced : bool) (fd : Z) (ops : list handle_op) : list (fprog unit) :=
  match ops with
  | [] => []
  | op :: ops => let '(fd', m) := handle_call consoleSilenced fd op in m :: handle_calls consoleSilenced fd' ops
  end.

(** ** Directories as streams of entries *)

Record dir_stream := mkDir { ds_entries : list dirent; ds_closed : bool }.

(** [next]: an entry and what is left. *)
Definition dir_next (d : dir_stream) : option dirent * dir_stream :=
  match ds_entries d with
  | [] => (None, d)
  | e :: es => (Some e, mkDir es (ds_closed d))
  end.
Definition dir_close (d : dir_stream) : dir_stream := mkDir (ds_entries d) true.
(** One step of [entries]: nothing once closed. *)
Definition dir_iterate (d : dir_stream) : option dirent * dir_stream :=
  if ds_closed d then (None, d) else dir_next d.

Definition opendir (v : pathval) (received : string) : fprog dir_stream :=
  match p_ v "path" received with
  | Throw e => fthrow e
  | Ok path => let+ es := ask (CallReaddir path) in fok (mkDir es false)
  end.

(** ** Recursive copies *)

Definition cpError (code message : string) : jserr := coded_error code message.

Record cp_plan := mkCp { cp_src : string; cp_dest : string; cp_o : jsval }.

Definition cp_options (o : jsval) : jsval :=
  assign [("force"%string, JBool true); ("recursive"%string, JBool false)] o.

Definition einval (src dest : string) : jserr :=
  cpError "ERR_FS_CP_EINVAL" ("Invalid src or dest: cp returned EINVAL (cannot copy " +:+ src +:+ " to a subdirectory of self " +:+ dest +:+ ")").

Definition cpPlan (pcwd : string) (src dest : pathval) (received1 received2 : string) (o : jsval) : result cp_plan :=
  let! s := p_ src "src" received1 in
  let! d := p_ dest "dest" received2 in
  let s := resolve pcwd [s] in
  let d := resolve pcwd [d] in
  if under d s then Throw (einval s d) else Ok (mkCp s d (cp_options o)).

(** Whether the file is to be copied. *)
Definition cpFile (destPath : string) (o : jsval) (exists_ : bool) : result bool :=
  if exists_ && negb (truthy (jget "force" o)) then
    if truthy (jget "errorOnExist" o)
    then Throw (cpError "ERR_FS_CP_EEXIST" ("Target already exists: cp returned EEXIST (" +:+ destPath +:+ " already exists)"))
    else Ok false
  else Ok true.

Section cp.
(** [o.filter], when it is a function; it may throw. *)
Context (filter : option (string -> string -> result bool)) (o : jsval).

Fixpoint for_names (f : string -> fprog unit) (names : list string) : fprog unit :=
  match names with
  | [] => fok tt
  | n :: ns => let+ _ := f n in for_names f ns
  end.

(** The copy of a file or link, when nothing is there or it was removed. *)
Definition copy_over (st : kind) (src dest : string) : fprog unit :=
  if bool_decide (st = KLink) then let+ target := ask (CallReadlink src) in ask (CallSymlink target dest)
  else ask (CallCopyFile src dest).

Definition cp_one (st : kind) (src dest : string) : fprog bool :=
  let+ there := ask (CallExists dest) in
  match cpFile dest o there with
  | Throw e => fthrow e
  | Ok false => fok false
  | Ok true =>
      let+ _ := (if there then ask (CallUnlink dest) else fok tt) in
      let+ _ := copy_over st src dest in
      fok true
  end.

Fixpoint cpImpl (fuel : nat) (src dest : string) : fprog unit :=
  match fuel with
  | O => fthrow (plain_error "loop")
  | S f =>
      match (match filter with Some keep => keep src dest | None => Ok true end) with
      | Throw e => fthrow e
      | Ok false => fok tt
      | Ok true =>
          let+ st := ask (CallStat (truthy (jget "dereference" o)) src) in
          let+ copied :=
            (if bool_decide (st = KDir) then
               if negb (truthy (jget "recursive" o))
               then fthrow (cpError "ERR_FS_EISDIR" ("Recursive option is required to copy a directory: " +:+ src))
               else let+ _ := ask (CallMkdir dest) in
                    let+ names := ask (CallNames src) in
                    let+ _ := for_names (fun n => cpImpl f (path_join [src; n]) (path_join [dest; n])) names in
                    fok true
             else cp_one st src dest) in
          if copied && truthy (jget "preserveTimestamps" o) then ask (CallUtimes dest) else fok tt
      end
  end.
End cp.

Definition cp (pcwd : string) (filter : option (string -> string -> result bool)) (fuel : nat)
    (src dest : pathval) (received1 received2 : string) (o : jsval) : fprog unit :=
  match cpPlan pcwd src dest received1 received2 o with
  | Throw e => fthrow e
  | Ok c => cpImpl filter (cp_o c) fuel (cp_src c) (cp_dest c)
  end.

(** ** Globs *)

Definition GLOB_CHARS : list ascii := list_ascii_of_string "*?[]{}!".
Definition globby (seg : string) : bool := existsb (fun c => has_char c seg) GLOB_CHARS.

(** [path.posix.relative] *)
Fixpoint strip_common (a b : list string) : list string * list string :=
  match a, b with
  | x :: a', y :: b' => if String.eqb x y then strip_common a' b' else (a, b)
  | _, _ => (a, b)
  end.
Definition path_segs (p : string) : list string := List.filter (fun w => negb (String.eqb w "")) (split_on slash p).
Definition relative (pcwd from to : string) : string :=
  let '(up, down) := strip_common (path_segs (resolve pcwd [from])) (path_segs (resolve pcwd [to])) in
  join "/" (map (fun _ => ".."%string) up ++ down).

Section glob.
(** [path.matchesGlob], Node's own; [process.cwd()]; [x.exclude] when it is a
    function (of the path shown or the entry), or its list of patterns. *)
Context (matchesGlob : string -> string -> bool) (pcwd : string).

(** One pattern: where to start, and to what depth ([None]: any). *)
Record glob_pattern := mkPat { gp_pat : string; gp_abs : bool; gp_base : string; gp_depth : option nat }.

(** The leading segments with no glob characters, but never the last. *)
Fixpoint literal_prefix (segs : list string) : list string * list string :=
  match segs with
  | s :: ((_ :: _) as rest) =>
      if globby s then ([], segs) else let '(lit, r) := literal_prefix rest in (s :: lit, r)
  | _ => ([], segs)
  end.

Definition globPlan (cwd pat : string) : glob_pattern :=
  let abs := is_absolute pat in
  let segs := match split_on slash pat with
              | ""%string :: segs => if abs then segs else ""%string :: segs
              | segs => segs
              end in
  let '(lit, rest) := literal_prefix segs in
  mkPat pat abs (if abs then "/" +:+ join "/" lit else path_join (cwd :: lit))
    (if includes "**"%string rest then None else Some (List.length rest)).

Inductive exclude := NoExclude | ExcludeFn (f : string -> dirent -> bool) | ExcludeGlobs (es : list string).
Context (cwd : string) (x : exclude).

Definition excluded (shown : string) (d : dirent) : bool :=
  match x with
  | NoExclude => false
  | ExcludeFn f => f shown d
  | ExcludeGlobs es => existsb (matchesGlob shown) es
  end.

(** What was kept so far, with its entries, first first; what has been seen is
    what has been kept. *)
Definition globKeep (pl : glob_pattern) (full : string) (d : dirent) (out : list (string * dirent)) : list (string * dirent) :=
  let shown := if gp_abs pl then full else relative pcwd cwd full in
  if includes shown (map fst out) || negb (matchesGlob shown (gp_pat pl)) then out
  else if excluded shown d then out
  else out ++ [(shown, d)].

Definition deeper (pl : glob_pattern) (level : nat) : bool :=
  match gp_depth pl with None => true | Some n => (level <? n)%nat end.

Fixpoint glob_entries (pl : glob_pattern) (dir : string) (level : nat) (es : list dirent)
    (queue : list (string * nat)) (out : list (string * dirent)) : list (string * nat) * list (string * dirent) :=
  match es with
  | [] => (queue, out)
  | e :: es =>
      let full := path_join [dir; de_name e] in
      glob_entries pl dir level es
        (if bool_decide (de_kind e = KDir) && deeper pl level then queue ++ [(full, S level)] else queue)
        (globKeep pl full e out)
  end.

Fixpoint glob_queue (fuel : nat) (pl : glob_pattern) (queue : list (string * nat)) (out : list (string * dirent))
    : fprog (list (string * dirent)) :=
  match queue with
  | [] => fok out
  | (dir, level) :: queue =>
      match fuel with
      | O => fthrow (plain_error "loop")
      | S f => pbind (ask (CallReaddir dir)) (fun r =>
                 let '(queue, out) := match r with Ok es => glob_entries pl dir level es queue out | Throw _ => (queue, out) end in
                 glob_queue f pl queue out)
      end
  end.

Fixpoint glob_patterns (fuel : nat) (pls : list glob_pattern) (out : list (string * dirent)) : fprog (list (string * dirent)) :=
  match pls with
  | [] => fok out
  | pl :: pls => let+ out := glob_queue fuel pl [(gp_base pl, 1%nat)] out in glob_patterns fuel pls out
  end.

Definition globImpl (fuel : nat) (patterns : list string) : fprog (list (string * dirent)) :=
  glob_patterns fuel (map (globPlan cwd) patterns) [].
End glob.

(** ** What a history of requests amounts to *)

Definition history : Type := list (obs fsE).

(** The bytes the broker took of writes, in order. *)
Definition taken (X : Type) (e : fsE X) : X -> string :=
  match e in fsE X return X -> string with
  | CallWrite _ chunk _ => fun r => match r with Ok n => stake (Z.to_nat n) chunk | Throw _ => ""%string end
  | CallWriteFile _ data _ _ => fun r => match r with Ok _ => data | Throw _ => ""%string end
  | ConsoleWrite _ data => fun _ => data
  | _ => fun _ => ""%string
  end.
Definition written (h : history) : string := String.concat "" (map (fun o => match o with Obs e x => taken _ e x end) h).

(** The bytes the broker gave to reads of descriptors, in order. *)
Definition given (X : Type) (e : fsE X) : X -> string :=
  match e in fsE X return X -> string with
  | CallRead _ _ _ => fun r => match r with Ok b => b | Throw _ => ""%string end
  | _ => fun _ => ""%string
  end.
Definition bytes_read (h : history) : string := String.concat "" (map (fun o => match o with Obs e x => given _ e x end) h).

(** The descriptors opened and not asked to be closed since. *)
Definition track (l : list Z) (X : Type) (e : fsE X) : X -> list Z :=
  match e in fsE X return X -> list Z with
  | CallOpen _ _ _ => fun r => match r with Ok fd => fd :: l | Throw _ => l end
  | CallClose fd => fun _ => List.filter (fun d => negb (d =? fd)) l
  | _ => fun _ => l
  end.
Definition left_open (h : history) : list Z := fold_left (fun l o => match o with Obs e x => track l _ e x end) h [].

(** Whether some request of the history was refused with this error; a file too
    big for one [readFile] is no refusal, it is read in chunks. *)
Definition refusal (X : Type) (e : fsE X) : X -> option jserr :=
  let out {A} (r : result A) := match r with Throw e => Some e | Ok _ => None end in
  match e in fsE X return X -> option jserr with
  | CallRead _ _ _ => fun r => out r
  | CallWrite _ _ _ => fun r => out r
  | CallReadFile _ _ => fun r => match r with Throw e => if is_EFBIG e then None else Some e | Ok _ => None end
  | CallWriteFile _ _ _ _ => fun r => out r
  | CallOpen _ _ _ => fun r => out r
  | CallClose _ => fun r => out r
  | CallStat _ _ => fun r => out r
  | CallReaddir _ => fun r => out r
  | CallNames _ => fun r => out r
  | CallExists _ => fun r => out r
  | CallMkdir _ => fun r => out r
  | CallUnlink _ => fun r => out r
  | CallReadlink _ => fun r => out r
  | CallSymlink _ _ => fun r => out r
  | CallCopyFile _ _ => fun r => out r
  | CallUtimes _ => fun r => out r
  | ConsoleWrite _ _ => fun _ => None
  end.
Definition refused (err : jserr) (h : history) : Prop := exists o, o ∈ h /\ match o with Obs e x => refusal _ e x = Some err end.

Lemma concat_app (l1 l2 : list string) : String.concat "" (l1 ++ l2) = String.concat "" l1 +:+ String.concat "" l2.
Proof.
  assert (Hc : forall (x : string) l, String.concat "" (x :: l) = x +:+ String.concat "" l).
  { intros x l. destruct l; cbn; [by rewrite sapp_nil_r|done]. }
  induction l1 as [|x l1 IH]; [done|]. cbn [app]. by rewrite !Hc, IH, sapp_assoc.
Qed.

Lemma written_snoc h X (e : fsE X) x : written (h ++ [Obs e x]) = written h +:+ taken _ e x.
Proof. unfold written. by rewrite map_app, concat_app. Qed.

Lemma read_snoc h X (e : fsE X) x : bytes_read (h ++ [Obs e x]) = bytes_read h +:+ given _ e x.
Proof. unfold bytes_read. by rewrite map_app, concat_app. Qed.

Lemma left_open_snoc h X (e : fsE X) x : left_open (h ++ [Obs e x]) = track (left_open h) _ e x.
Proof. unfold left_open. by rewrite fold_left_app. Qed.

Lemma refused_snoc err h X (e : fsE X) x : refused err (h ++ [Obs e x]) <-> refused err h \/ refusal _ e x = Some err.
Proof.
  unfold refused. split.
  - intros (o & Ho & Hr). apply elem_of_app in Ho as [Ho|Ho]; [left; by exists o|right].
    by apply list_elem_of_singleton in Ho as ->.
  - intros [(o & Ho & Hr)|Hr]; [exists o|exists (Obs e x)]; (split; [|exact Hr]); apply elem_of_app;
      [by left|right; by apply list_elem_of_singleton].
Qed.
#[export] Hint Rewrite written_snoc read_snoc left_open_snoc : patched.

(** ** Writing: all of it, in order *)

(** The broker takes at least a byte of what it is given, and no more than
    that; and its descriptors are not negative. *)
Definition broker_env (h : history) (X : Type) (e : fsE X) : X -> Prop :=
  match e in fsE X return X -> Prop with
  | CallWrite _ chunk _ => fun r => match r with Ok n => 1 <= n <= slength chunk | Throw _ => True end
  | CallOpen _ _ _ => fun r => match r with Ok fd => 0 <= fd | Throw _ => True end
  | _ => fun _ => True
  end.

(** A write to a descriptor continues the buffer where the last one ended. *)
Definition write_request (buf : string) (position : option Z) (h : history) (X : Type) (e : fsE X) : Prop :=
  match e with
  | CallWrite _ chunk p =>
      chunk = next_chunk buf (slength (written h)) /\ chunk <> ""%string /\ slength chunk <= MAX_IO /\
      p = at_position position (slength (written h))
  | _ => True
  end.

Lemma next_chunk_eq buf done : 0 <= done <= slength buf ->
  next_chunk buf done = stake (Z.to_nat (Z.min MAX_IO (slength buf - done))) (sdrop (Z.to_nat done) buf).
Proof.
  unfold next_chunk, subarray, index_in, MAX_IO. intros H. rewrite !(proj2 (Z.ltb_ge _ _)) by lia. f_equal; f_equal; lia.
Qed.

Lemma next_chunk_length buf done : 0 <= done <= slength buf -> slength (next_chunk buf done) = Z.min MAX_IO (slength buf - done).
Proof. intros H. rewrite next_chunk_eq by done. unfold slength, MAX_IO in *. rewrite stake_length, sdrop_length. lia. Qed.

Lemma next_chunk_take buf done n : 0 <= done <= slength buf -> 1 <= n <= slength (next_chunk buf done) ->
  stake (Z.to_nat done) buf +:+ stake (Z.to_nat n) (next_chunk buf done) = stake (Z.to_nat (done + n)) buf.
Proof.
  intros Hd. rewrite next_chunk_length, next_chunk_eq by done. intros Hn.
  rewrite stake_stake, stake_stake_app by lia. f_equal. lia.
Qed.

(** What a write of [buf] leaves: some first part of it written, and all of it
    when it succeeds. *)
Definition wrote (buf : string) (opened : list Z) (h : history) (r : result Z) : Prop :=
  (exists d, written h = stake d buf) /\ left_open h = opened /\
  match r with Ok n => n = slength buf /\ written h = buf | Throw e => refused e h end.

Lemma write_loop_spec fuel fd buf position done opened h :
  0 <= done <= slength buf -> (String.length buf <= fuel + Z.to_nat done)%nat -> written h = stake (Z.to_nat done) buf ->
  left_open h = opened ->
  safe broker_env (write_request buf position) (wrote buf opened) h (write_loop fuel fd buf position done).
Proof.
  revert done h. induction fuel as [|fuel IH]; intros done h Hd Hf Hw Ho; cbn [write_loop];
    destruct (slength buf <=? done) eqn:E; bool_hyps; unfold slength in *.
  1, 3: split; [by eexists|]; split; [done|]; unfold slength; rewrite Hw, stake_all by lia; split; [lia|done].
  - lia.
  - assert (Hl : Z.of_nat (String.length (written h)) = done) by (rewrite Hw, stake_length; lia).
    split.
    + cbn. unfold slength. rewrite Hl. pose proof (next_chunk_length buf done Hd) as Hn. unfold slength, MAX_IO in *.
      repeat split; [|lia]. intros H0. rewrite H0 in Hn. cbn [String.length] in Hn. lia.
    + intros [n|e] Hx; cbn in Hx.
      * cbn. pose proof Hx as Hb. rewrite (next_chunk_length buf done Hd) in Hb. unfold slength, MAX_IO in Hb.
        apply IH; [lia|lia| |by rewrite left_open_snoc]. rewrite written_snoc, Hw. cbn [taken]. by apply next_chunk_take.
      * cbn. repeat split; [exists (Z.to_nat done)|by rewrite left_open_snoc|apply refused_snoc; by right].
        rewrite written_snoc, Hw. cbn [taken]. by rewrite sapp_nil_r.
Qed.

Lemma broker_fd fd : 0 <= fd -> toBroker (fromBroker fd) = fd /\ is_console (fromBroker fd) = false.
Proof.
  unfold toBroker, fromBroker, is_console, FD_BASE. intros H. rewrite (proj2 (Z.leb_le _ _)) by lia.
  split; [lia|]. apply orb_false_iff. split; apply Z.eqb_neq; lia.
Qed.

Lemma writeChunks_spec silenced fd buf position opened h :
  written h = ""%string -> left_open h = opened -> is_console fd && silenced = false ->
  safe broker_env (write_request buf position) (wrote buf opened) h (writeChunks silenced fd buf position).
Proof.
  intros Hw Ho Hc. unfold writeChunks. destruct (is_console fd); cbn [andb] in Hc; [subst silenced|].
  - cbn. split; [done|]. intros [] _. unfold wrote. rewrite written_snoc, left_open_snoc, Hw, Ho. cbn [taken track].
    split; [exists (String.length buf); by rewrite stake_all|done].
  - apply write_loop_spec; [unfold slength; lia|lia|by rewrite Hw|done].
Qed.

(** The [finally] closes what was opened, and what was written stays. *)
Lemma with_close_spec {A} (env : history -> forall X, fsE X -> X -> Prop) (P : history -> forall X, fsE X -> Prop) fd (body : fprog A) (R : history -> result A -> Prop) h :
  0 <= fd -> (forall h, P h _ (CallClose fd)) ->
  (forall h r x, R h r -> match x with Ok _ => R (h ++ [Obs (CallClose fd) x]) r | Throw e => R (h ++ [Obs (CallClose fd) x]) (Throw e) end) ->
  safe env P (fun h r => R h r /\ left_open h = [fd]) h body ->
  safe env P (fun h r => R h r /\ left_open h = []) h (with_close (fromBroker fd) body).
Proof.
  intros Hfd HP HR Hb. unfold with_close. rewrite (proj1 (broker_fd fd Hfd)).
  eapply safe_bind; [exact Hb|]. intros h' r [Hr Ho]. cbn. split; [done|]. intros x _.
  specialize (HR h' r x Hr). assert (Hn : left_open (h' ++ [Obs (CallClose fd) x]) = []).
  { rewrite left_open_snoc, Ho. cbn. by rewrite Z.eqb_refl. }
  destruct x; cbn; by split.
Qed.

(** A whole file written: the outcome of a run. *)
Definition written_whole (silenced async : bool) (file : file_arg) (buf : string) (h : history) (r : result unit) : Prop :=
  (exists d, written h = stake d buf) /\
  match r with
  | Ok _ => written h = buf \/ (silenced = true /\ file_path async file = None /\ is_console (file_fd file) = true)
  | Throw e => refused e h \/ file_path async file = Some (Throw e)
  end.

Lemma written_whole_chunks silenced async file fd buf opened h :
  written h = ""%string -> left_open h = opened -> is_console fd && silenced = false ->
  safe broker_env (write_request buf None) (fun h r => written_whole silenced async file buf h r /\ left_open h = opened) h
    (let+ _ := writeChunks silenced fd buf None in fok tt).
Proof.
  intros Hw Ho Hc. unfold fbind. eapply safe_bind; [by apply writeChunks_spec|].
  intros h' [n|e] (Hd & Ho' & Hr); cbn; (split; [|done]); (split; [done|]); left; [by destruct Hr|done].
Qed.

Lemma writeFileImpl_spec silenced async file buf o defFlag :
  safe broker_env (write_request buf None) (fun h r => written_whole silenced async file buf h r /\ left_open h = []) []
    (writeFileImpl silenced async file buf o defFlag).
Proof.
  unfold writeFileImpl. cbv zeta. destruct (file_path async file) as [[path|e]|] eqn:Ef.
  - case_match.
    + cbn. split; [done|]. intros [[]|e] _; cbn; (split; [|done]); unfold written_whole; cbn.
      * split; [exists (String.length buf); by rewrite stake_all|by left].
      * split; [by exists 0%nat|left]. eexists. split; [by left|done].
    + cbn. split; [done|]. intros [fd|e] Hfd; cbn in Hfd |- *.
      * apply with_close_spec; [done|done| |apply written_whole_chunks; [done|done|by rewrite (proj2 (broker_fd fd Hfd))]].
        intros h r x [Hd Hr]. unfold written_whole.
        assert (Hw : forall y, written (h ++ [Obs (CallClose fd) y]) = written h)
          by (intros y; rewrite written_snoc; cbn [taken]; apply sapp_nil_r).
        destruct x as [u|e]; rewrite Hw; (split; [done|]); [destruct r; [done|]|left; apply refused_snoc; by right].
        destruct Hr as [Hr|Hr]; [left; apply refused_snoc; by left|by right].
      * split; [|done]. split; [by exists 0%nat|]. left. eexists. split; [by left|done].
  - split; [|done]. split; [by exists 0%nat|by right].
  - destruct (is_console (file_fd file) && silenced) eqn:Ec; [|by apply written_whole_chunks].
    apply andb_true_iff in Ec as [Ec ->]. unfold writeChunks. rewrite Ec. cbn.
    split; [|done]. split; [by exists 0%nat|]. right. by rewrite Ef.
Qed.

(** Writing a whole file writes all of it, in order, or says why not. Whatever
    the broker answers, so long as it takes at least a byte of each write:
    every write continues the data where the last one ended, with no more than
    the broker takes at a time; what was written is a first part of the data,
    and all of it when the call succeeds (console output of a silenced worker
    apart, which is dropped); an error is one the broker gave, or the path's;
    and a descriptor that was opened has been closed, in every case. *)
Theorem whole_file_written silenced async file buf o defFlag tr r :
  run (writeFileImpl silenced async file buf o defFlag) tr r -> allowed broker_env [] tr ->
  requests_ok (write_request buf None) tr /\ written_whole silenced async file buf tr r /\ left_open tr = [].
Proof.
  intros Hr Ha. pose proof (writeFileImpl_spec silenced async file buf o defFlag) as Hs. split.
  - exact (safe_requests _ _ _ _ _ _ Hs Hr Ha).
  - exact (safe_run _ _ _ [] _ _ _ Hs Hr Ha).
Qed.

(** A broker for concrete runs: it takes two bytes of a write at most. *)
Definition demo_broker (X : Type) (n : nat) (e : fsE X) : X :=
  match e in fsE X return X with
  | CallRead _ _ _ => Ok (if (n <? 3)%nat then "ab" else "")%string
  | CallWrite _ chunk _ => Ok (Z.min 2 (slength chunk))
  | CallReadFile _ _ => Throw (coded_error "EFBIG" "too big")
  | CallWriteFile _ _ _ _ => Ok tt
  | CallOpen _ _ _ => Ok 7
  | CallClose _ => Ok tt
  | CallStat _ p => Ok (if String.eqb p "/s" then KDir else KFile)
  | CallReaddir _ => Ok []
  | CallNames _ => Ok ["f"%string]
  | CallExists p => Ok (String.eqb p "/d/f")
  | CallMkdir _ | CallUnlink _ | CallSymlink _ _ | CallCopyFile _ _ | CallUtimes _ => Ok tt
  | CallReadlink _ => Ok "x"%string
  | ConsoleWrite _ _ => tt
  end.

Lemma whole_file_written_witness : exists tr r,
  run (writeFileImpl false true (ByPath (PStr "/data/f") "string") "hello" (JObj [("flush"%string, JBool true)]) "w") tr r /\
  allowed broker_env [] tr /\ List.length tr = 5%nat /\
  requests_ok (write_request "hello" None) tr /\ written tr = "hello"%string /\ left_open tr = [].
Proof.
  set (p := writeFileImpl false true (ByPath (PStr "/data/f") "string") "hello" (JObj [("flush"%string, JBool true)]) "w").
  exists (eval demo_broker 0 p).2, (eval demo_broker 0 p).1.
  assert (Hr : run p (eval demo_broker 0 p).2 (eval demo_broker 0 p).1) by apply eval_run.
  assert (Ha : allowed broker_env [] (eval demo_broker 0 p).2) by (vm_compute; repeat split; discriminate).
  pose proof (whole_file_written _ _ _ _ _ _ _ _ Hr Ha) as (H1 & H2 & H3).
  split; [exact Hr|]. split; [exact Ha|]. split; [reflexivity|]. split; [exact H1|]. split; [reflexivity|exact H3].
Defined.

(** ** Reading a whole file *)

(** The broker reads [content], from where the last read ended, and only at its
    end gives nothing; its descriptors are not negative. *)
Definition content_env (content : string) (h : history) (X : Type) (e : fsE X) : X -> Prop :=
  match e in fsE X return X -> Prop with
  | CallReadFile _ _ => fun r => match r with Ok b => b = content | Throw _ => True end
  | CallRead _ len None => fun r =>
      match r with
      | Ok b => slength b <= len /\ exists rest, content = bytes_read h +:+ b +:+ rest /\ (b = ""%string -> rest = ""%string)
      | Throw _ => True
      end
  | CallOpen _ _ _ => fun r => match r with Ok fd => 0 <= fd | Throw _ => True end
  | _ => fun _ => True
  end.

(** Only the one file is asked for, and no more of it at once than the broker
    gives. *)
Definition read_request (path : option string) (flag : jsval) (h : history) (X : Type) (e : fsE X) : Prop :=
  match e with
  | CallReadFile p f => path = Some p /\ f = flag
  | CallOpen p f m => path = Some p /\ f = flag /\ m = JNum 438
  | CallRead _ len position => len = MAX_IO /\ position = None
  | CallClose _ => True
  | _ => False
  end.

Definition read_bytes (content : string) (opened : list Z) (h : history) (r : result string) : Prop :=
  left_open h = opened /\ match r with Ok b => b = content | Throw e => refused e h end.

Lemma read_all_spec content path flag turns fd parts opened h :
  bytes_read h = parts -> (exists rest, content = parts +:+ rest) ->
  (String.length content < turns + String.length parts)%nat -> left_open h = opened ->
  safe (content_env content) (read_request path flag) (read_bytes content opened) h (read_all turns fd parts).
Proof.
  revert parts h. induction turns as [|turns IH]; intros parts h Hp [rest Hc] Ht Ho; cbn [read_all].
  { subst content. rewrite sapp_length in Ht. lia. }
  split; [done|]. intros [b|e] Hx; cbn [content_env] in Hx; cbn [fbind pbind ask].
  - destruct Hx as [_ (rest' & Hc' & He)]. rewrite Hp in Hc'. destruct (String.eqb_spec b "") as [->|Hb].
    + cbn. split; [by rewrite left_open_snoc|]. rewrite Hc', (He eq_refl). cbn. by rewrite sapp_nil_r.
    + apply IH; [by rewrite read_snoc, Hp|exists rest'; by rewrite Hc', sapp_assoc| |by rewrite left_open_snoc].
      rewrite sapp_length. destruct b; [done|]. cbn. lia.
  - cbn. split; [by rewrite left_open_snoc|]. apply refused_snoc. by right.
Qed.

(** A whole file read: the outcome of a run. *)
Definition read_whole (async : bool) (file : file_arg) (content : string) (encoding : jsval) (h : history) (r : result contents) : Prop :=
  match r with
  | Ok v => v = enc content encoding
  | Throw e => refused e h \/ file_path async file = Some (Throw e)
  end.

Lemma read_whole_all async file content encoding path flag turns fd opened h :
  bytes_read h = ""%string -> (String.length content < turns)%nat -> left_open h = opened ->
  safe (content_env content) (read_request path flag) (fun h r => read_whole async file content encoding h r /\ left_open h = opened) h
    (let+ b := read_all turns fd "" in fok (enc b encoding)).
Proof.
  intros Hb Ht Ho. unfold fbind. eapply safe_bind; [apply read_all_spec with (opened := opened); [done|by exists content|cbn; lia|done]|].
  intros h' [b|e] [Ho' Hr]; cbn; (split; [|done]); [by subst|by left].
Qed.

Lemma readFileImpl_spec turns async file o content :
  (String.length content < turns)%nat ->
  let x := opts o [("flag"%string, JStr "r")] in
  safe (content_env content)
    (read_request (match file_path async file with Some (Ok p) => Some p | _ => None end) (jget "flag" x))
    (fun h r => read_whole async file content (jget "encoding" x) h r /\ left_open h = []) [] (readFileImpl turns async file o).
Proof.
  intros Ht x. unfold readFileImpl. fold x. destruct (file_path async file) as [[path|e]|] eqn:Ef.
  - cbn [pbind ask]. split; [done|]. intros [b|e] Hx; cbn in Hx.
    + cbn. by subst.
    + destruct (is_EFBIG e) eqn:Ee; cbn [negb].
      2: { cbn. split; [left|done]. eexists. split; [by left|]. cbn. by rewrite Ee. }
      cbn [fbind pbind ask]. split; [done|]. intros [fd|e'] Hfd; cbn in Hfd.
      * apply with_close_spec; [done|done| |by apply read_whole_all].
        intros h r y Hr. destruct y as [u|e']; [destruct r; [done|]|left; apply refused_snoc; by right].
        destruct Hr as [Hr|Hr]; [left; apply refused_snoc; by left|by right].
      * cbn. split; [left|done]. eexists. split; [right; by left|done].
  - split; [by right|done].
  - by apply read_whole_all.
Qed.

(** Reading a whole file gives all of it, or says why not. Whether the file
    fits in one request or is assembled from chunks, and however short the
    reads are: the call ends; what it gives is the file's content in the
    encoding asked for; an error is one the broker gave, never that the file is
    too big for one request, or the path's; nothing is asked for but this file,
    with the flag given, a bounded piece at a time; and a descriptor that was
    opened has been closed, in every case. One turn more than the file has
    bytes is enough. *)
Theorem whole_file_read turns async file o content tr r :
  (String.length content < turns)%nat ->
  run (readFileImpl turns async file o) tr r -> allowed (content_env content) [] tr ->
  let x := opts o [("flag"%string, JStr "r")] in
  requests_ok (read_request (match file_path async file with Some (Ok p) => Some p | _ => None end) (jget "flag" x)) tr /\
  read_whole async file content (jget "encoding" x) tr r /\ left_open tr = [].
Proof.
  intros Ht Hr Ha x. pose proof (readFileImpl_spec turns async file o content Ht) as Hs. split.
  - exact (safe_requests _ _ _ _ _ _ Hs Hr Ha).
  - exact (safe_run _ _ _ [] _ _ _ Hs Hr Ha).
Qed.

Lemma whole_file_read_witness : exists tr,
  let p := readFileImpl 5 false (ByPath (PStr "/data/f") "string") (JStr "utf8") in
  run p tr (Ok (Text (JStr "utf8") "ab")) /\ allowed (content_env "ab") [] tr /\ List.length tr = 5%nat /\
  requests_ok (read_request (Some "/data/f"%string) (JStr "r")) tr /\ left_open tr = [].
Proof.
  set (p := readFileImpl 5 false (ByPath (PStr "/data/f") "string") (JStr "utf8")).
  exists (eval demo_broker 0 p).2.
  assert (Hr : run p (eval demo_broker 0 p).2 (eval demo_broker 0 p).1) by apply eval_run.
  assert (Ha : allowed (content_env "ab") [] (eval demo_broker 0 p).2).
  { vm_compute. repeat split; try discriminate; exists ""%string; by repeat split. }
  pose proof (whole_file_read 5 _ _ _ "ab" _ _ ltac:(cbn; lia) Hr Ha) as (H1 & H2 & H3).
  split; [exact Hr|]. split; [exact Ha|]. split; [reflexivity|]. split; [exact H1|exact H3].
Defined.

(** ** Copies stay where they are sent *)

Section copies.
(** The segments of the source and of the destination, and how deep the
    source's directories are nested. *)
Context (ss ds : list string) (depth : nat).
Context (filter : option (string -> string -> result bool)) (o : jsval).

(** The names of a directory are names, and directories nest no deeper than
    [depth]. *)
Definition tree_env (h : history) (X : Type) (e : fsE X) : X -> Prop :=
  match e in fsE X return X -> Prop with
  | CallNames _ => fun r => match r with Ok names => Forall good_seg names | Throw _ => True end
  | CallStat _ p => fun r =>
      match r with
      | Ok KDir => forall rel, Forall good_seg rel -> p = path_of (ss ++ rel) -> (List.length rel < depth)%nat
      | _ => True
      end
  | _ => fun _ => True
  end.

Definition below_src (rel : list string) (p : string) : Prop := Forall good_seg rel /\ p = path_of (ss ++ rel).
Definition below_dest (rel : list string) (p : string) : Prop := Forall good_seg rel /\ p = path_of (ds ++ rel).

(** Nothing is at [p], as the broker has just said: at most one request ago. *)
Definition just_missing (h : history) (p : string) : Prop :=
  exists h1 h2, h = h1 ++ Obs (CallExists p) (Ok false) :: h2 /\ (List.length h2 <= 1)%nat.
Definition may_replace (h : history) (p : string) : Prop := truthy (jget "force" o) = true \/ just_missing h p.

Definition cp_request (h : history) (X : Type) (e : fsE X) : Prop :=
  match e with
  | CallStat _ p | CallNames p | CallReadlink p => exists rel, below_src rel p
  | CallMkdir p | CallExists p | CallUtimes p => exists rel, below_dest rel p
  | CallUnlink p => (exists rel, below_dest rel p) /\ truthy (jget "force" o) = true
  | CallSymlink _ p => (exists rel, below_dest rel p) /\ may_replace h p
  | CallCopyFile s p => (exists rel, below_src rel s /\ below_dest rel p) /\ may_replace h p
  | _ => False
  end.

(** What [cp] throws of its own. *)
Definition own_error (e : jserr) : Prop :=
  (exists s d, match filter with Some keep => keep s d = Throw e | None => False end) \/
  (exists s, e = cpError "ERR_FS_EISDIR" ("Recursive option is required to copy a directory: " +:+ s)) \/
  (exists d, e = cpError "ERR_FS_CP_EEXIST" ("Target already exists: cp returned EEXIST (" +:+ d +:+ " already exists)")).
Definition cp_outcome {A} (h : history) (r : result A) : Prop :=
  match r with Ok _ => True | Throw e => refused e h \/ own_error e end.

Lemma cp_outcome_throw {A X} (h : history) (e : fsE X) x err :
  refusal _ e x = Some err -> cp_outcome (h ++ [Obs e x]) (Throw err : result A).
Proof. intros H. left. apply refused_snoc. by right. Qed.

Lemma for_names_safe (env : history -> forall X, fsE X -> X -> Prop) (P : history -> forall X, fsE X -> Prop) f names h :
  Forall (fun n => forall h, safe env P cp_outcome h (f n)) names -> safe env P cp_outcome h (for_names f names).
Proof.
  intros Hf. revert h. induction Hf as [|n ns Hn _ IH]; intros h; cbn [for_names]; [done|]. unfold fbind.
  eapply safe_bind; [apply Hn|]. intros h' [a|e] Hr; [apply IH|exact Hr].
Qed.

Lemma missing_now h p : just_missing (h ++ [Obs (CallExists p) (Ok false)]) p.
Proof. exists h, []. split; [done|cbn; lia]. Qed.

Lemma missing_before h p o' : just_missing (h ++ [Obs (CallExists p) (Ok false)] ++ [o']) p.
Proof. exists h, [o']. split; [done|cbn; lia]. Qed.

Lemma may_copy h p there : (there = true -> truthy (jget "force" o) = true) ->
  may_replace (h ++ [Obs (CallExists p) (Ok there)]) p.
Proof. intros H. destruct there; [left; auto|right; apply missing_now]. Qed.

Lemma copy_over_safe st rel h :
  Forall good_seg rel -> may_replace h (path_of (ds ++ rel)) ->
  (forall o', may_replace (h ++ [o']) (path_of (ds ++ rel))) ->
  safe tree_env cp_request cp_outcome h (copy_over st (path_of (ss ++ rel)) (path_of (ds ++ rel))).
Proof.
  intros Hg Hm Hm'. unfold copy_over. case_bool_decide; cbn.
  - split; [by exists rel|]. intros [t|e] _; cbn; [|left; apply refused_snoc; by right].
    split; [split; [by exists rel|apply Hm']|]. intros [u|e] _; [done|by apply cp_outcome_throw].
  - split; [split; [by exists rel|done]|]. intros [u|e] _; [done|by apply cp_outcome_throw].
Qed.

Lemma cp_one_safe st rel h :
  Forall good_seg rel ->
  safe tree_env cp_request cp_outcome h (cp_one o st (path_of (ss ++ rel)) (path_of (ds ++ rel))).
Proof.
  intros Hg. unfold cp_one. cbn [fbind pbind ask]. split; [by exists rel|].
  intros [there|e] _; [|by apply cp_outcome_throw].
  unfold cpFile. set (dest := path_of (ds ++ rel)). set (force := truthy (jget "force" o)).
  destruct (there && negb force) eqn:E.
  { destruct (truthy (jget "errorOnExist" o)); cbn; [|done]. right. right. right. by exists dest. }
  assert (Ht : there = true -> force = true) by (intros ->; by destruct force).
  assert (Hcopy : forall h, may_replace h dest -> (forall o', may_replace (h ++ [o']) dest) ->
    safe tree_env cp_request cp_outcome h (let+ _ := copy_over st (path_of (ss ++ rel)) dest in fok true)).
  { intros h' H1 H2. unfold fbind. eapply safe_bind; [by apply copy_over_safe|]. by intros h2 [u|e] Hr. }
  destruct there; cbn [fbind pbind ask fok].
  - split; [by split; [exists rel|apply Ht]|]. intros [u|e] _; [|by apply cp_outcome_throw].
    apply Hcopy; [|intros o']; by left; apply Ht.
  - apply Hcopy; [by apply may_copy|]. intros o'. right. rewrite <- app_assoc. apply missing_before.
Qed.

Lemma cpImpl_safe fuel rel h :
  Forall good_seg ss -> Forall good_seg ds -> Forall good_seg rel ->
  (List.length rel <= depth < fuel + List.length rel)%nat ->
  safe tree_env cp_request cp_outcome h (cpImpl filter o fuel (path_of (ss ++ rel)) (path_of (ds ++ rel))).
Proof.
  intros Hs Hd. revert rel h. induction fuel as [|fuel IH]; intros rel h Hg Hf; [lia|]. cbn [cpImpl].
  destruct (match filter with Some keep => _ | None => _ end) as [[]|e] eqn:Ek; [|done|].
  2: { right. left. eexists _, _. by destruct filter. }
  cbn [fbind pbind ask]. split; [by exists rel|]. intros [st|e] Hst; [|by apply cp_outcome_throw].
  unfold fbind. eapply safe_bind with (Q := cp_outcome).
  - case_bool_decide as Ekd; [|by apply cp_one_safe]. subst st. cbn in Hst.
    destruct (negb (truthy (jget "recursive" o))); [right; right; left; by eexists|].
    cbn [fbind pbind ask]. split; [by exists rel|]. intros [u|e] _; [|by apply cp_outcome_throw].
    split; [by exists rel|]. intros [names|e] Hn; [|by apply cp_outcome_throw]. cbn in Hn.
    unfold fbind. eapply safe_bind with (Q := cp_outcome); [|by intros h' [u'|e] Hr].
    apply for_names_safe. eapply Forall_impl; [exact Hn|]. intros n Hgn h'.
    specialize (Hst rel Hg eq_refl).
    assert (H1 : Forall good_seg [n]) by by apply Forall_singleton.
    rewrite !path_join_good by (done || by apply Forall_app). rewrite <- !app_assoc.
    apply IH; [by apply Forall_app|]. rewrite length_app. cbn. lia.
  - intros h' [copied|e] Hr; [|exact Hr]. destruct (copied && _); cbn; [|done].
    split; [by exists rel|]. intros [u|e] _; [done|by apply cp_outcome_throw].
Qed.
End copies.

(** A copy reads only under its source and writes only under its destination,
    whatever the broker answers, so long as directories list names and nest
    finitely. The source and the destination are absolute and the destination
    is not the source or below it (a source of "/" apart, which is not
    checked). Each file or link is copied to where the source has it; without
    [force] nothing is removed, and a file or link is only put where the broker
    has just said there is nothing. The copy ends, and an error is one the broker
    gave, the filter's, or one of [cp]'s own. *)
Theorem cp_confined pcwd filter fuel src dest received1 received2 o depth tr r :
  run (cp pcwd filter fuel src dest received1 received2 o) tr r ->
  match cpPlan pcwd src dest received1 received2 o with
  | Throw e => tr = [] /\ r = Throw e
  | Ok c => exists ss ds,
      cp_src c = path_of ss /\ cp_dest c = path_of ds /\ Forall good_seg ss /\ Forall good_seg ds /\ under (cp_dest c) (cp_src c) = false /\
      ((depth < fuel)%nat -> allowed (tree_env ss depth) [] tr ->
       requests_ok (cp_request ss ds (cp_o c)) tr /\ cp_outcome filter tr r)
  end.
Proof.
  unfold cp. destruct (cpPlan _ _ _ _ _ _) as [c|e] eqn:Ec; intros Hr; [|by apply run_ret_inv in Hr as [-> <-]].
  unfold cpPlan in Ec. apply rbind_ok in Ec as (s & _ & Ec). apply rbind_ok in Ec as (d & _ & Ec). case_match; [done|]. inv Ec.
  destruct (resolve_canonical pcwd [s]) as (ss & Hs & Hgs), (resolve_canonical pcwd [d]) as (ds & Hd & Hgd).
  exists ss, ds. cbn. do 5 (split; [done|]). intros Hf Ha. cbn in Hr. rewrite Hs, Hd in Hr.
  pose proof (cpImpl_safe ss ds depth filter (cp_options o) fuel [] [] Hgs Hgd (Forall_nil_2 _) ltac:(cbn; lia)) as Hsafe.
  rewrite !app_nil_r in Hsafe. fold (path_of ss) (path_of ds) in Hr. split.
  - exact (safe_requests _ _ _ _ _ _ Hsafe Hr Ha).
  - exact (safe_run _ _ _ [] _ _ _ Hsafe Hr Ha).
Qed.

Lemma cp_confined_witness : exists tr,
  let p := cp "/" None 2 (PStr "/s") (PStr "/d") "string" "string" (JObj [("recursive"%string, JBool true)]) in
  run p tr (Ok tt) /\ List.length tr = 7%nat /\ allowed (tree_env ["s"%string] 1) [] tr /\
  requests_ok (cp_request ["s"%string] ["d"%string] (cp_options (JObj [("recursive"%string, JBool true)]))) tr.
Proof.
  set (p := cp "/" None 2 (PStr "/s") (PStr "/d") "string" "string" (JObj [("recursive"%string, JBool true)])).
  exists (eval demo_broker 0 p).2.
  assert (Hr : run p (eval demo_broker 0 p).2 (eval demo_broker 0 p).1) by apply eval_run.
  pose proof (cp_confined "/" None 2 (PStr "/s") (PStr "/d") "string" "string" (JObj [("recursive"%string, JBool true)]) 1 _ _ Hr) as Ht.
  change (cpPlan "/" (PStr "/s") (PStr "/d") "string" "string" (JObj [("recursive"%string, JBool true)])) with
    (Ok (mkCp "/s" "/d" (cp_options (JObj [("recursive"%string, JBool true)])))) in Ht.
  destruct Ht as (ss & ds & Hss & Hds & Hgs & Hgd & _ & Ht).
  assert (Hs : forall w (l : list string), w <> ""%string -> has_char slash w = false -> Forall good_seg l -> "/" +:+ w = path_of l -> l = [w]).
  { intros w l Hw Hc Hg E. assert (Hne : l <> []) by (intros ->; apply sapp_inj_l in E; by subst).
    apply (f_equal (split_on slash)) in E. rewrite (split_path l Hg Hne) in E.
    change ("/" +:+ w) with ("" +:+ String slash w) in E. rewrite split_on_app, (split_on_none _ _ Hc) in E by done. by injection E as <-. }
  apply (Hs "s"%string) in Hss as ->; [|done..]. apply (Hs "d"%string) in Hds as ->; [|done..].
  assert (Ha : allowed (tree_env ["s"%string] 1) [] (eval demo_broker 0 p).2).
  { split; [|split; [done|split; [|repeat split]]].
    - intros rel Hg E. destruct rel as [|w rel]; [cbn; lia|]. exfalso.
      apply (Hs "s"%string) in E; [done|done..|]. by apply Forall_app.
    - by apply Forall_singleton. }
  destruct (Ht ltac:(lia) Ha) as [H1 _].
  split; [exact Hr|]. split; [reflexivity|]. split; [exact Ha|exact H1].
Defined.

(** A destination inside the source is refused, but not inside "/": the test
    looks for a path that starts with two slashes. *)
Example cp_root_unchecked :
  cpPlan "/" (PStr "/a") (PStr "/a/b") "string" "string" JUndef = Throw (einval "/a" "/a/b") /\
  is_ok (cpPlan "/" (PStr "/") (PStr "/a/b") "string" "string" JUndef) = true.
Proof. split; reflexivity. Qed.

(** [appendFile] with an options object whose [flag] is undefined sends no flag
    of its own: the default was copied over with undefined, and the broker's
    [writeFile] takes that for ['w']. *)
Example append_without_flag :
  exists k, appendFile false false (ByPath (PStr "/data/log") "string") "x" (JObj [("flag"%string, JUndef)]) =
            Vis (CallWriteFile "/data/log" "x" JUndef (JNum 438)) k.
Proof. eexists. reflexivity. Qed.

(** ** Globs give each match once *)

Section glob_facts.
Context (matchesGlob : string -> string -> bool) (pcwd cwd : string) (x : exclude).

(** What is kept matches one of the patterns, is not excluded, and is there
    once. *)
Definition kept_ok (pats : list string) (out : list (string * dirent)) : Prop :=
  NoDup (map fst out) /\
  Forall (fun sd => (exists pat, pat ∈ pats /\ matchesGlob sd.1 pat = true) /\ excluded matchesGlob x sd.1 sd.2 = false) out.

Lemma globKeep_ok pats pl full d out : gp_pat pl ∈ pats -> kept_ok pats out -> kept_ok pats (globKeep matchesGlob pcwd cwd x pl full d out).
Proof.
  intros Hp [Hn Hf]. unfold globKeep. cbv zeta. set (shown := if gp_abs pl then full else _).
  destruct (includes shown (map fst out)) eqn:Ei; cbn [orb]; [done|].
  destruct (matchesGlob shown (gp_pat pl)) eqn:Em; cbn [negb]; [|done].
  destruct (excluded matchesGlob x shown d) eqn:Ex; [done|]. split.
  - rewrite map_app. apply NoDup_snoc; [done|]. by apply includes_false.
  - apply Forall_app. split; [done|]. apply Forall_singleton. split; [by exists (gp_pat pl)|done].
Qed.

Lemma glob_entries_ok pats pl dir level es queue out : gp_pat pl ∈ pats -> kept_ok pats out ->
  kept_ok pats (glob_entries matchesGlob pcwd cwd x pl dir level es queue out).2.
Proof. intros Hp. revert queue out. induction es as [|e es IH]; intros queue out Hk; cbn; [done|]. by apply IH, globKeep_ok. Qed.

Definition glob_answer (pats : list string) (h : history) (r : result (list (string * dirent))) : Prop :=
  match r with Ok out => kept_ok pats out | Throw _ => True end.
Definition lists_only (h : history) (X : Type) (e : fsE X) : Prop := match e with CallReaddir _ => True | _ => False end.

Lemma glob_queue_ok fuel pats pl queue out h : gp_pat pl ∈ pats -> kept_ok pats out ->
  safe any_env lists_only (glob_answer pats) h (glob_queue matchesGlob pcwd cwd x fuel pl queue out).
Proof.
  intros Hp. revert queue out h. induction fuel as [|fuel IH]; intros [|[dir level] queue] out h Hk; cbn [glob_queue]; try done.
  split; [done|]. intros [es|e] _; cbn [pbind ask]; [|by apply IH].
  pose proof (glob_entries_ok pats pl dir level es queue out Hp Hk) as Hk'. destruct (glob_entries _ _ _ _ _ _ _ _ _ _) as [q o]. by apply IH.
Qed.

Lemma glob_patterns_ok fuel pats pls out h : Forall (fun pl => gp_pat pl ∈ pats) pls -> kept_ok pats out ->
  safe any_env lists_only (glob_answer pats) h (glob_patterns matchesGlob pcwd cwd x fuel pls out).
Proof.
  intros Hf. revert out h. induction Hf as [|pl pls Hp _ IH]; intros out h Hk; cbn [glob_patterns]; [done|]. unfold fbind.
  eapply safe_bind; [by apply glob_queue_ok|]. intros h' [out'|e] Hr; [by apply IH|done].
Qed.

(** A glob only lists directories, and gives each path once, each one matching a
    pattern and not excluded. *)
Theorem glob_sound fuel patterns tr out :
  run (globImpl matchesGlob pcwd cwd x fuel patterns) tr (Ok out) -> requests_ok lists_only tr /\ kept_ok patterns out.
Proof.
  intros Hr. assert (Hs : safe any_env lists_only (glob_answer patterns) [] (globImpl matchesGlob pcwd cwd x fuel patterns)).
  { apply glob_patterns_ok; [|by split; [constructor|]]. apply List.Forall_map, Forall_forall. intros pat Hin.
    unfold globPlan. by destruct (literal_prefix _). }
  split; [exact (safe_all_requests _ _ _ _ _ Hs Hr)|exact (safe_all_run _ _ _ _ _ Hs Hr)].
Qed.
End glob_facts.

(** ** A handle's descriptor is closed once *)

(** The first close asks for it; the calls after it are those of a handle with
    no descriptor, and closing again asks for nothing. *)
Theorem handle_closed_once silenced fd ops1 ops2 :
  0 <= fd -> HClose ∉ ops1 ->
  (handle_calls silenced (fromBroker fd) (ops1 ++ HClose :: ops2) =
   handle_calls silenced (fromBroker fd) ops1 ++ (ask (CallClose fd) :: handle_calls silenced (-1) ops2)) /\
  handle_call silenced (-1) HClose = (-1, fok tt) /\ toBroker (-1) = -1.
Proof.
  intros Hfd Hc. split; [|done]. induction ops1 as [|op ops1 IH].
  - cbn. rewrite (proj1 (broker_fd fd Hfd)). unfold fromBroker, FD_BASE. by rewrite (proj2 (Z.ltb_ge _ _)) by lia.
  - apply not_elem_of_cons in Hc as [Hne Hc]. specialize (IH Hc). destruct op; [by destruct Hne|..]; cbn in IH |- *; by rewrite IH.
Qed.
