(* ===== verification/PatchedOps.v ===== *)
(** * The one-request methods of the patched [fs] (lib/fs-broker/patch.js)

    The methods that [define] makes, each in up to three forms (synchronous,
    with a callback, as a promise), exists, the methods of a file handle that
    pass on one request, the disposable directories, and loadEnvFile. A method
    is a call with its arguments; what it asks is a [Broker.call], that is the
    request as the broker reads it. Who serves it is ModuleLoader.v's [routed],
    by the routes given here. Whole files, reads and writes are in PatchedFs.v. *)
From Stdlib Require Import ZArith Lia Ascii String.
From stdpp Require Import prelude strings.
From S2P Require Import Prelude Paths Json FsErrors Quota Namespace Prog Host ModuleLoader PatchedFs Broker.

Set Default Proof Using "Type".
Local Open Scope Z_scope.

(** ** Arguments *)

(** A path argument, with the type of a value that is none; a descriptor, or a
    value that is no whole number; a mode. *)
Record parg := mkPath { pa_value : pathval; pa_received : string }.
Inductive fdarg := Fd (z : Z) | NoFd.
Inductive marg := ModeAbsent | ModeText (s : string) | ModeNum (z : Z).

Definition bfd (fd : fdarg) : Z := match fd with Fd z => toBroker z | NoFd => -1 end.
Definition p (a : parg) (name : string) : result string := p_ (pa_value a) name (pa_received a).
(** What the broker's [Number] makes of [mode(m)]. *)
Definition mode_number (m : marg) : num :=
  match m with
  | ModeAbsent => NaN
  | ModeText s => match parse_octal s with Some z => Fin z | None => NaN end
  | ModeNum z => Fin z
  end.
(** [len || 0]; a text here is not the empty one. *)
Definition len_or_0 (len : narg) : narg := match len with NUndef | NNull | NNaN => NInt 0 | _ => len end.

(** One call of a method. *)
Inductive fscall :=
| FAccess (path : parg) (mode : jsval)
| FStat (path : parg) (o : jsval)
| FLstat (path : parg) (o : jsval)
| FFstat (fd : fdarg) (o : jsval)
| FStatfs (path : parg)
| FRealpath (path : parg) (o : jsval)
| FReadlink (path : parg) (o : jsval)
| FReaddir (path : parg) (o : jsval)
| FMkdir (path : parg) (o : jsval)
| FMkdtemp (prefix : parg) (o : jsval)
| FRmdir (path : parg)
| FRm (path : parg) (o : jsval)
| FUnlink (path : parg)
| FRename (a b : parg)
| FCopyFile (a b : parg) (mode : Z)
| FLink (a b : parg)
| FSymlink (target path : parg) (type_ : jsval)
| FChmod (path : parg) (mode : marg)
| FChown (path : parg) (uid gid : jsval)
| FLchown (path : parg) (uid gid : jsval)
| FUtimes (path : parg) (atime mtime : jsval)
| FLutimes (path : parg) (atime mtime : jsval)
| FTruncate (path : parg) (len : narg)
| FTruncateFd (fd : Z) (len : narg)
| FOpen (path : parg) (flags : flag_arg) (mode : jsval)
| FClose (fd : fdarg)
| FFsync (fd : fdarg)
| FFdatasync (fd : fdarg)
| FFtruncate (fd : fdarg) (len : narg)
| FFchmod (fd : fdarg) (mode : marg)
| FFchown (fd : fdarg) (uid gid : jsval)
| FFutimes (fd : fdarg) (atime mtime : jsval).

(** ** What each asks *)

Definition opt (k : string) (o : jsval) : jsval := jget k (opts o []).
Definition mkdir_options (o : jsval) : jsval :=
  let x := if is_object o then o else JObj [("mode"%string, o)] in
  JObj [("recursive"%string, JBool (truthy (jget "recursive" x))); ("mode"%string, mode_ (jget "mode" x) (JNum 511))].
Definition COPYFILE_EXCL : Z := 1.

Section requests.
(** Node's own conversion of a time argument. *)
Context (toUnixTimestamp : jsval -> result jsval).

Definition times (c : jsval -> jsval -> call) (atime mtime : jsval) : result call :=
  let! a := toUnixTimestamp atime in let! b := toUnixTimestamp mtime in Ok (c a b).
Definition on_path (a : parg) (name : string) (c : pathval -> call) : result call := let! s := p a name in Ok (c (PStr s)).
Definition on_paths (a b : parg) (na nb : string) (c : pathval -> pathval -> call) : result call :=
  let! s := p a na in let! t := p b nb in Ok (c (PStr s) (PStr t)).

(** [spec.args] *)
Definition request (m : fscall) : result call :=
  match m with
  | FAccess a mode => on_path a "path" (fun s => CAccess s mode)
  | FStat a o => on_path a "path" (fun s => CStat s (truthy (opt "bigint" o)))
  | FLstat a o => on_path a "path" (fun s => CLstat s (truthy (opt "bigint" o)))
  | FFstat fd o => Ok (CFstat (bfd fd) (truthy (opt "bigint" o)))
  | FStatfs a => on_path a "path" CStatfs
  | FRealpath a _ => on_path a "path" CRealpath
  | FReadlink a _ => on_path a "path" CReadlink
  | FReaddir a o => on_path a "path" (fun s => CReaddir s (truthy (opt "recursive" o)) (truthy (opt "withFileTypes" o)))
  | FMkdir a o => on_path a "path" (fun s => CMkdir s (mkdir_options o))
  | FMkdtemp a _ => on_path a "prefix" CMkdtemp
  | FRmdir a => on_path a "path" CRmdir
  | FRm a o => on_path a "path" (fun s => CRm s (opts o []))
  | FUnlink a => on_path a "path" CUnlink
  | FRename a b => on_paths a b "oldPath" "newPath" CRename
  | FCopyFile a b mode => on_paths a b "src" "dest" (fun s t => CCopyFile s t (has_bit mode COPYFILE_EXCL))
  | FLink a b => on_paths a b "existingPath" "newPath" CLink
  | FSymlink t a type_ => let! t := p t "target" in on_path a "path" (fun s => CSymlink t s type_)
  | FChmod a mode => on_path a "path" (fun s => CChmod s (mode_number mode))
  | FChown a uid gid => on_path a "path" (fun s => CChown s uid gid)
  | FLchown a uid gid => on_path a "path" (fun s => CLchown s uid gid)
  | FUtimes a atime mtime => let! s := p a "path" in times (CUtimes (PStr s)) atime mtime
  | FLutimes a atime mtime => let! s := p a "path" in times (CLutimes (PStr s)) atime mtime
  | FTruncate a len => on_path a "path" (fun s => CTruncate s (len_or_0 len))
  | FTruncateFd fd len => Ok (CFtruncate (toBroker fd) (len_or_0 len))
  | FOpen a flags mode => on_path a "path" (fun s => COpen s (match flags with FlagAbsent => FlagText "r" | _ => flags end) (mode_ mode (JNum 438)))
  | FClose fd => Ok (CClose (bfd fd))
  | FFsync fd => Ok (CFsync (bfd fd))
  | FFdatasync fd => Ok (CFdatasync (bfd fd))
  | FFtruncate fd len => Ok (CFtruncate (bfd fd) (len_or_0 len))
  | FFchmod fd mode => Ok (CFchmod (bfd fd) (mode_number mode))
  | FFchown fd uid gid => Ok (CFchown (bfd fd) uid gid)
  | FFutimes fd atime mtime => times (CFutimes (bfd fd)) atime mtime
  end.

(** ** What is made of the answer *)

Inductive fsval :=
| VUndef
| VStats (bigint : bool) (fields : jsval)
| VText (s : string)
| VBuffer (s : string)
| VNames (l : list fsval)
| VDirents (l : list (string * Z * string))
| VJson (v : jsval)
| VFd (fd : Z)
| VBool (b : bool)
| VRaw (a : answer).

Definition str (s : string) (encoding : jsval) : fsval := if strict_eq encoding (JStr "buffer") then VBuffer s else VText s.

(** UV_DIRENT_FILE, DIR, LINK and UNKNOWN. *)
Definition DIRENT_TYPE (t : string) : Z :=
  if String.eqb t "file" then 1 else if String.eqb t "dir" then 2 else if String.eqb t "symlink" then 3 else 0.
Definition dirent_ (e : dirent_out) : string * Z * string :=
  match e with DEntry name t parent => (name, DIRENT_TYPE t, parent) | DName name => (name, 0, "") end.
Definition entry_name (e : dirent_out) : string := match e with DEntry name _ _ | DName name => name end.

(** [spec.out] *)
Definition out_ (m : fscall) (r : answer) : fsval :=
  match m, r with
  | (FStat _ _ | FLstat _ _ | FFstat _ _), AStats b fields => VStats b fields
  | FStatfs _, AJson v => VJson v
  | (FRealpath _ o | FReadlink _ o | FMkdtemp _ o), AText s => str s (opt "encoding" o)
  | FReaddir _ o, AList l => if truthy (opt "withFileTypes" o) then VDirents (map dirent_ l)
                             else VNames (map (fun e => str (entry_name e) (opt "encoding" o)) l)
  | FMkdir _ _, AText s => VText s
  | FOpen _ _ _, ANum fd => VFd (fromBroker fd)
  | (FStat _ _ | FLstat _ _ | FFstat _ _ | FStatfs _ | FRealpath _ _ | FReadlink _ _ | FMkdtemp _ _ | FReaddir _ _ | FOpen _ _ _), _ => VRaw r
  | FMkdir _ _, AUndef => VUndef
  | FMkdir _ _, _ => VRaw r
  | _, _ => VUndef
  end.

(** ** The three forms *)

Inductive opE : Type -> Type := Call (c : call) : opE (result answer).

Inductive form := SyncForm | CallbackForm (given : bool) | PromiseForm.
(** What the caller gets: at once, by its callback, or by its promise. *)
Inductive outcome := Returns (v : fsval) | ThrowsNow (e : jserr) | CallsWith (r : result fsval) | Settles (r : result fsval).

Definition cb_error : jserr := coded_error "ERR_INVALID_ARG_TYPE" ("The " +:+ in_quotes "cb" +:+ " argument must be of type function.").

(** The console's descriptors are never closed or synced. *)
Definition consoleNoop (m : fscall) : bool :=
  match m with FClose (Fd z) | FFsync (Fd z) | FFdatasync (Fd z) => (z =? 1) || (z =? 2) | _ => false end.

Definition is_false (v : jsval) : bool := match v with JBool false => true | _ => false end.
(** [noEntry]: an options argument that asks for undefined where nothing is. *)
Definition noEntry (m : fscall) (e : jserr) : bool :=
  match m with
  | FStat _ o | FLstat _ o => bool_decide (e_code e = Some "ENOENT"%string) && is_false (jget "throwIfNoEntry" o)
  | _ => false
  end.

Definition rmap {A B} (f : A -> B) (r : result A) : result B := match r with Ok a => Ok (f a) | Throw e => Throw e end.
Definition in_form (m : fscall) (f : form) (r : result answer) : outcome :=
  match f with
  | SyncForm => match r with Ok a => Returns (out_ m a) | Throw e => if noEntry m e then Returns VUndef else ThrowsNow e end
  | CallbackForm _ => CallsWith (rmap (out_ m) r)
  | PromiseForm => Settles (rmap (out_ m) r)
  end.
Definition quiet (f : form) : outcome :=
  match f with SyncForm => Returns VUndef | CallbackForm _ => CallsWith (Ok VUndef) | PromiseForm => Settles (Ok VUndef) end.

(** [define]; the promises of close and of the syncs are a handle's. *)
Definition defined (m : fscall) (f : form) : prog opE outcome :=
  match f with
  | CallbackForm false => Ret (ThrowsNow cb_error)
  | _ =>
      if consoleNoop m && match f with PromiseForm => false | _ => true end then Ret (quiet f)
      else match request m with
           | Throw e => Ret (in_form m f (Throw e))
           | Ok c => Vis (Call c) (fun r => Ret (in_form m f r))
           end
  end.

(** existsSync and exists: an answer, and never an error. *)
Definition exists_ (path : parg) (f : form) : prog opE outcome :=
  let deliver b := match f with SyncForm => Returns (VBool b) | _ => CallsWith (Ok (VBool b)) end in
  match p path "path" with
  | Throw _ => Ret (deliver false)
  | Ok s => Vis (Call (CExists (PStr s))) (fun r => Ret (deliver match r with Ok ATrue => true | _ => false end))
  end.

(** A file handle's methods of one request, on the descriptor it has. *)
Inductive handle_method := HmStat (o : jsval) | HmTruncate (len : narg) | HmSync | HmDatasync | HmChmod (mode : marg) | HmChown (uid gid : jsval) | HmUtimes (atime mtime : jsval).
Definition handle_fscall (fd : Z) (h : handle_method) : fscall :=
  match h with
  | HmStat o => FFstat (Fd fd) o
  | HmTruncate len => FFtruncate (Fd fd) len
  | HmSync => FFsync (Fd fd)
  | HmDatasync => FFdatasync (Fd fd)
  | HmChmod mode => FFchmod (Fd fd) mode
  | HmChown uid gid => FFchown (Fd fd) uid gid
  | HmUtimes atime mtime => FFutimes (Fd fd) atime mtime
  end.
Definition handle_one (fd : Z) (h : handle_method) : prog opE outcome := defined (handle_fscall fd h) PromiseForm.

(** mkdtempDisposable: the directory, and what removes it. *)
Definition answered_path (a : answer) : pathval := match a with AText s => PStr s | _ => POther end.
Definition mkdtempDisposable (prefix : parg) : prog opE (result (answer * prog opE (result answer))) :=
  match p prefix "prefix" with
  | Throw e => Ret (Throw e)
  | Ok s => Vis (Call (CMkdtemp (PStr s)))
              (fun r => Ret (rmap (fun a => (a, ask (Call (CRm (answered_path a) (JObj [("recursive"%string, JBool true); ("force"%string, JBool true)]))))) r))
  end.
End requests.

(** ** Routes: which arguments decide who serves a call *)

Definition P0 : route := mkRoute (Some [0%nat]) None.
Definition P01 : route := mkRoute (Some [0%nat; 1%nat]) None.
Definition P1 : route := mkRoute (Some [1%nat]) None.
Definition F0 : route := mkRoute None (Some 0%nat).

Definition route_of (m : fscall) : route :=
  match m with
  | FRename _ _ | FCopyFile _ _ _ | FLink _ _ => P01
  | FSymlink _ _ _ => P1
  | FTruncate _ _ | FTruncateFd _ _ => mkRoute (Some [0%nat]) (Some 0%nat)
  | FFstat _ _ | FClose _ | FFsync _ | FFdatasync _ | FFtruncate _ _ | FFchmod _ _ | FFchown _ _ _ | FFutimes _ _ _ => F0
  | _ => P0
  end.

(** The leading arguments, as the router looks at them. *)
Definition fd_arg (fd : fdarg) : arg := match fd with Fd z => ANumber z | NoFd => ANull end.
Definition args_of (m : fscall) : list arg :=
  match m with
  | FAccess a _ | FStat a _ | FLstat a _ | FStatfs a | FRealpath a _ | FReadlink a _ | FReaddir a _ | FMkdir a _ | FMkdtemp a _
  | FRmdir a | FRm a _ | FUnlink a | FChmod a _ | FChown a _ _ | FLchown a _ _ | FUtimes a _ _ | FLutimes a _ _ | FTruncate a _ | FOpen a _ _ =>
      [APath (pa_value a)]
  | FRename a b | FCopyFile a b _ | FLink a b | FSymlink a b _ => [APath (pa_value a); APath (pa_value b)]
  | FFstat fd _ | FClose fd | FFsync fd | FFdatasync fd | FFtruncate fd _ | FFchmod fd _ | FFchown fd _ _ | FFutimes fd _ _ => [fd_arg fd]
  | FTruncateFd z _ => [ANumber z]
  end.

(** The names [define] is given. *)
Definition name_of (m : fscall) : string :=
  match m with
  | FAccess _ _ => "access" | FStat _ _ => "stat" | FLstat _ _ => "lstat" | FFstat _ _ => "fstat" | FStatfs _ => "statfs"
  | FRealpath _ _ => "realpath" | FReadlink _ _ => "readlink" | FReaddir _ _ => "readdir" | FMkdir _ _ => "mkdir" | FMkdtemp _ _ => "mkdtemp"
  | FRmdir _ => "rmdir" | FRm _ _ => "rm" | FUnlink _ => "unlink" | FRename _ _ => "rename" | FCopyFile _ _ _ => "copyFile"
  | FLink _ _ => "link" | FSymlink _ _ _ => "symlink" | FChmod _ _ => "chmod" | FChown _ _ _ => "chown" | FLchown _ _ _ => "lchown"
  | FUtimes _ _ _ => "utimes" | FLutimes _ _ _ => "lutimes" | FTruncate _ _ | FTruncateFd _ _ => "truncate" | FOpen _ _ _ => "open"
  | FClose _ => "close" | FFsync _ => "fsync" | FFdatasync _ => "fdatasync" | FFtruncate _ _ => "ftruncate" | FFchmod _ _ => "fchmod"
  | FFchown _ _ _ => "fchown" | FFutimes _ _ _ => "futimes"
  end.
Definition key_of (m : fscall) (f : form) : string := match f with SyncForm => name_of m +:+ "Sync" | _ => name_of m end.
Definition on_fs (f : form) : bool := match f with PromiseForm => false | _ => true end.

(** ** loadEnvFile *)

(** [parsed], as util.parseEnv gives it, put into the environment: what is set
    stays. *)
Definition set_missing (env : list (string * string)) (kv : string * string) : list (string * string) :=
  match assoc kv.1 env with Some _ => env | None => assoc_set kv.1 kv.2 env end.
Definition loadEnvFile (parsed env : list (string * string)) : list (string * string) := fold_left set_missing parsed env.

(** ** Every method's request *)

(** The paths an operation of the broker places, and the descriptor it looks up. *)
Definition call_paths (c : call) : list pathval :=
  match c with
  | CAccess a _ | CExists a | CStat a _ | CLstat a _ | CRealpath a | CReadlink a | CReaddir a _ _ | CStatfs a | CMkdir a _ | CMkdtemp a
  | CRmdir a | CRm a _ | CUnlink a | CSymlink _ a _ | CChmod a _ | CChown a _ _ | CLchown a _ _ | CUtimes a _ _ | CLutimes a _ _ | CTruncate a _
  | COpen a _ _ | CReadFile a _ | CWriteFile a _ _ _ => [a]
  | CRename a b | CCopyFile a b _ | CLink a b => [a; b]
  | _ => []
  end.
Definition call_fd (c : call) : option Z :=
  match c with
  | CClose fd | CRead fd _ _ | CWrite fd _ _ | CFstat fd _ | CFtruncate fd _ | CFsync fd | CFdatasync fd | CFchmod fd _ | CFchown fd _ _
  | CFutimes fd _ _ => Some fd
  | _ => None
  end.

(** The arguments the route names, as the text that crosses to the broker. *)
Definition routed_paths (m : fscall) : list arg :=
  match m with FTruncateFd _ _ => [] | _ => map (arg_at (args_of m)) (default [] (rt_paths (route_of m))) end.
Definition sent_path (a : arg) (q : pathval) : Prop :=
  match a with APath (PStr s | PBuffer s | PUrl s) => q = PStr s | _ => False end.
Definition sent_fd (m : fscall) : option Z :=
  match m with
  | FTruncate _ _ => None
  | _ => match rt_fd (route_of m) with
         | Some i => Some (match arg_at (args_of m) i with ANumber z => toBroker z | _ => -1 end)
         | None => None
         end
  end.

Section facts.
Context (toUnixTimestamp : jsval -> result jsval).

Lemma p_sent a name s : p a name = Ok s -> sent_path (APath (pa_value a)) (PStr s).
Proof. destruct a as [[t|t|t|] r]; intros [= <-]; done. Qed.

Lemma on_path_ok a name c q : on_path a name c = Ok q -> exists s, q = c (PStr s) /\ sent_path (APath (pa_value a)) (PStr s).
Proof. unfold on_path. destruct (p a name) as [s|] eqn:E; [|done]. intros [= <-]. exists s. split; [done|by apply (p_sent _ name)]. Qed.

Lemma on_paths_ok a b na nb c q : on_paths a b na nb c = Ok q ->
  exists s t, q = c (PStr s) (PStr t) /\ sent_path (APath (pa_value a)) (PStr s) /\ sent_path (APath (pa_value b)) (PStr t).
Proof.
  unfold on_paths. destruct (p a na) as [s|] eqn:E; [|done]. cbn. destruct (p b nb) as [t|] eqn:F; [|done]. intros [= <-].
  exists s, t. split; [done|]. split; [by apply (p_sent _ na)|by apply (p_sent _ nb)].
Qed.

Lemma times_ok c at_ mt q : times toUnixTimestamp c at_ mt = Ok q -> exists a b, q = c a b.
Proof. unfold times. destruct (toUnixTimestamp at_); [|done]. cbn. destruct (toUnixTimestamp mt); [|done]. intros [= <-]. eauto. Qed.

(** What is asked is one of the broker's operations, of just the paths and the
    descriptor by which the call was routed. *)
Lemma request_routed m c : request toUnixTimestamp m = Ok c ->
  (forall op, c <> CUnknown op) /\ Forall2 sent_path (routed_paths m) (call_paths c) /\ call_fd c = sent_fd m.
Proof.
  destruct m; cbn [request];
    try (intros (s & -> & Hs)%on_path_ok; by repeat constructor);
    try (intros (s & t & -> & Hs & Ht)%on_paths_ok; by repeat constructor);
    try (intros [= <-]; try destruct fd; by repeat constructor).
  - destruct (p target "target") as [t|]; [|done]. intros (s & -> & Hs)%on_path_ok. by repeat constructor.
  - destruct (p path "path") as [s|] eqn:E; [|done]. intros (a & b & ->)%times_ok. split; [done|]. split; [|done]. constructor; [by apply (p_sent _ "path")|constructor].
  - destruct (p path "path") as [s|] eqn:E; [|done]. intros (a & b & ->)%times_ok. split; [done|]. split; [|done]. constructor; [by apply (p_sent _ "path")|constructor].
  - intros (a & b & ->)%times_ok. destruct fd; by repeat constructor.
Qed.

(** *** Who serves it *)

Section served.
Context (pcwd : string) (fileURLToPath : string -> result string).

Lemma granted_boot g onFs key v : granted fileURLToPath pcwd g onFs key v = Ok true -> onFs = true /\ includes key BOOT_KEYS = true.
Proof. unfold granted. destruct onFs, (includes key BOOT_KEYS); done. Qed.

Lemma all_granted_each g onFs key args paths : all_granted fileURLToPath pcwd g onFs key args paths = Ok true ->
  Forall (fun i => exists v, arg_at args i = APath v /\ granted fileURLToPath pcwd g onFs key v = Ok true) paths.
Proof.
  induction paths as [|i paths IH]; [constructor|]. cbn. destruct (arg_at args i) as [| |v] eqn:Ea; try done.
  destruct (granted _ _ _ _ _ v) as [[|]|e] eqn:Eg; cbn; try done. intros H. constructor; [eauto|by apply IH].
Qed.

(** The methods the host's fs may serve by a path: four that look, and open,
    whatever its flags. *)
Definition looks (m : fscall) : bool :=
  match m with FStat _ _ | FLstat _ _ | FRealpath _ _ | FReaddir _ _ => true | _ => false end.
Definition opens (m : fscall) : bool := match m with FOpen _ _ _ => true | _ => false end.

Lemma boot_key m f : on_fs f = true -> includes (key_of m f) BOOT_KEYS = true -> f = SyncForm /\ looks m || opens m = true.
Proof.
  intros Hf Hk. destruct f as [| |]; [|exfalso|done].
  - split; [done|]. by destruct m; vm_compute in Hk.
  - destruct m; vm_compute in Hk; discriminate Hk.
Qed.

Lemma host_only_granted g realFds m f : routed fileURLToPath pcwd g realFds (on_fs f) (key_of m f) (route_of m) (args_of m) = Ok ByOriginal ->
  real_descriptor realFds (route_of m) (args_of m) = true \/
  (f = SyncForm /\ looks m || opens m = true /\
   Forall (fun i => exists v, arg_at (args_of m) i = APath v /\ granted fileURLToPath pcwd g true (key_of m f) v = Ok true)
     (default [] (rt_paths (route_of m)))).
Proof.
  unfold routed. destruct (real_descriptor _ _ _); [by left|]. destruct (rt_paths (route_of m)) as [[|i paths]|]; try done.
  destruct (all_granted _ _ _ _ _ _ _) as [[|]|e] eqn:Ea; cbn; [|by destruct (is_nil _)|done]. intros _. right.
  apply all_granted_each in Ea. pose proof Ea as [(v & _ & Hg) _]%Forall_cons. apply granted_boot in Hg as [Hf Hk].
  rewrite Hf in Ea. apply boot_key in Hk as [-> Hn]; [|done]. done.
Qed.

(** C8: Each method that [define] makes asks the broker for one thing, or for
    nothing: nothing only where its callback is missing, where it would close or
    sync the console, or where an argument is refused, and the refusal comes in
    the form that was called. What is asked is one of the broker's operations, on
    just the paths and the descriptor by which the call was routed, and the answer
    or the error is what the caller gets, at once, in its callback or from its
    promise. The host's own fs serves a call only for a descriptor it opened
    itself, or for the synchronous stat, lstat, realpath or readdir, which change
    nothing, or the synchronous open, of a path that was granted. So of the
    methods that change the file system by a path none but open reaches the
    host's, in any form; and open does with whatever flags it is given, for
    writing too (granted_open_writes). *)
Theorem one_request_as_routed m f :
  (forall tr o, run (defined toUnixTimestamp m f) tr o ->
     (tr = [] /\ (f = CallbackForm false /\ o = ThrowsNow cb_error \/ consoleNoop m = true /\ o = quiet f \/
                  exists e, request toUnixTimestamp m = Throw e /\ o = in_form m f (Throw e))) \/
     (exists c r, tr = [Obs (Call c) r] /\ request toUnixTimestamp m = Ok c /\ o = in_form m f r)) /\
  (forall c, request toUnixTimestamp m = Ok c ->
     (forall op, c <> CUnknown op) /\ Forall2 sent_path (routed_paths m) (call_paths c) /\ call_fd c = sent_fd m) /\
  (forall g realFds, routed fileURLToPath pcwd g realFds (on_fs f) (key_of m f) (route_of m) (args_of m) = Ok ByOriginal ->
     real_descriptor realFds (route_of m) (args_of m) = true \/
     (f = SyncForm /\ looks m || opens m = true /\
      Forall (fun i => exists v, arg_at (args_of m) i = APath v /\ granted fileURLToPath pcwd g true (key_of m f) v = Ok true)
        (default [] (rt_paths (route_of m))))).
Proof.
  split; [|split; [apply request_routed|intros g realFds; apply host_only_granted]].
  intros tr o. unfold defined.
  assert (Hc : forall b, run (if consoleNoop m && b then Ret (quiet f) else match request toUnixTimestamp m with
                Throw e => Ret (in_form m f (Throw e)) | Ok c => Vis (Call c) (fun r => Ret (in_form m f r)) end) tr o ->
     (tr = [] /\ (f = CallbackForm false /\ o = ThrowsNow cb_error \/ consoleNoop m = true /\ o = quiet f \/
                  exists e, request toUnixTimestamp m = Throw e /\ o = in_form m f (Throw e))) \/
     (exists c r, tr = [Obs (Call c) r] /\ request toUnixTimestamp m = Ok c /\ o = in_form m f r)).
  { intros b. destruct (consoleNoop m && b) eqn:Eb.
    - intros [-> <-]%run_ret_inv. left. split; [done|]. right. left. by apply andb_true_iff in Eb as [-> _].
    - destruct (request toUnixTimestamp m) as [c|e] eqn:Er.
      + intros (r & tr' & -> & [-> <-]%run_ret_inv)%run_inv. right. by exists c, r.
      + intros [-> <-]%run_ret_inv. left. split; [done|]. right. right. by exists e. }
  destruct f as [|[|]|]; [apply Hc|apply Hc| |apply Hc]. intros [-> <-]%run_ret_inv. left. split; [done|]. by left.
Qed.
End served.
End facts.

(** The router looks at the path and not at the flags: a granted file opened
    for writing is opened, and emptied, by the host's fs; the descriptor is the
    host's, so what is written to it goes there too. *)
Example granted_open_writes :
  let g := mkGrants [] ["/mods/scan/index.js"%string] [] in
  let open_w := FOpen (mkPath (PStr "/mods/scan/index.js") "") (FlagText "w") JUndef in
  routed (fun _ => Throw (plain_error "")) "/" g [] true (key_of open_w SyncForm) (route_of open_w) (args_of open_w) = Ok ByOriginal /\
  forall len, routed (fun _ => Throw (plain_error "")) "/" g [7] true (key_of (FFtruncate (Fd 7) len) SyncForm) F0
    (args_of (FFtruncate (Fd 7) len)) = Ok ByOriginal.
Proof. split; [vm_compute; reflexivity|]. intros len. vm_compute. reflexivity. Qed.

(** What is already in the environment stays, and of what was read the first of
    a name counts. *)
Lemma loadEnv_lookup parsed env k : assoc k (loadEnvFile parsed env) = match assoc k env with Some v => Some v | None => assoc k parsed end.
Proof.
  revert env. induction parsed as [|[a b] parsed IH]; intros env; [cbn; by destruct (assoc k env)|].
  change (loadEnvFile ((a, b) :: parsed) env) with (loadEnvFile parsed (set_missing env (a, b))).
  rewrite IH. unfold set_missing. cbn [fst snd assoc]. destruct (assoc a env) eqn:Ea; [destruct (assoc k env) eqn:Ek; [done|]|].
  - destruct (String.eqb_spec k a); congruence.
  - rewrite assoc_set_lookup. destruct (String.eqb_spec k a) as [->|]; [by rewrite Ea|]. by destruct (assoc k env).
Qed.
