(* ===== verification/Packages.v ===== *)
(** * The packages of a module and of countinghouse (lib/module-tree-check.js
    and codeRootsFor of lib/fs-broker/identity.js)

    Two walks over installed packages: the check that every dependency of a
    module is installed inside it and that nothing in it is native code, and
    the directories countinghouse's own code is in. The disk does not change
    while one runs; what it answers is a parameter. *)
From Stdlib Require Import Ascii String.
From stdpp Require Import prelude strings.
From S2P Require Import Prelude Paths Namespace Json Host ModuleData ModuleLoader.

Set Default Proof Using "Type".

(** ** What is not seen yet *)

Definition unseen (all seen : list string) : nat := length (List.filter (fun r => negb (includes r seen)) all).

Lemma includes_app (r : string) a b : includes r (a ++ b) = includes r a || includes r b.
Proof.
  destruct (includes r (a ++ b)) eqn:E.
  - apply includes_spec, elem_of_app in E as [E|E]; apply includes_spec in E; rewrite E; [done|by rewrite orb_true_r].
  - symmetry. apply orb_false_iff. rewrite !includes_false in *. set_solver.
Qed.

Lemma unseen_mono all seen more : (unseen all (seen ++ more) <= unseen all seen)%nat.
Proof.
  unfold unseen. induction all as [|r l IH]; [done|]. cbn. rewrite includes_app.
  destruct (includes r seen), (includes r more); cbn; lia.
Qed.

Lemma unseen_less all seen r : r ∈ all -> includes r seen = false -> (unseen all (seen ++ [r]) < unseen all seen)%nat.
Proof.
  unfold unseen. intros Hin Hr. induction all as [|x l IH]; [inversion Hin|]. cbn.
  pose proof (unseen_mono l seen [r]) as Hle. unfold unseen in Hle. rewrite includes_app.
  destruct (decide (x = r)) as [->|Hne].
  - rewrite Hr. assert (includes r [r] = true) as ->; [apply includes_spec; set_solver|]. cbn. lia.
  - apply elem_of_cons in Hin as [->|Hin]; [done|]. specialize (IH Hin).
    assert (includes x [r] = false) as -> by (apply includes_false; set_solver). rewrite orb_false_r.
    destruct (includes x seen); cbn; lia.
Qed.

(** ** The directory above *)

Lemma drop_while_app f (a b : list ascii) : Forall (fun c => f c = true) a -> drop_while f (a ++ b) = drop_while f b.
Proof. induction 1 as [|c a Hc _ IH]; [done|]. cbn. by rewrite Hc. Qed.

Lemma list_ascii_app a b : list_ascii_of_string (a +:+ b) = list_ascii_of_string a ++ list_ascii_of_string b.
Proof. induction a as [|c a IH]; [done|]. rewrite sapp_cons. cbn. by rewrite IH. Qed.

Lemma no_slash_chars w : has_char slash w = false -> Forall (fun c => negb (is_slash c) = true) (list_ascii_of_string w).
Proof.
  induction w as [|c w IH]; [constructor|]. intros H. cbn [has_char] in H. apply orb_false_iff in H as [Hc Hw].
  constructor; [|by apply IH]. unfold is_slash. rewrite Ascii.eqb_sym. by rewrite Hc.
Qed.

(** [path.posix.dirname] of a canonical path takes its last segment off. *)
Lemma dirname_snoc segs w : Forall good_seg (segs ++ [w]) -> segs <> [] -> dirname (path_of (segs ++ [w])) = path_of segs.
Proof.
  intros Hg Hne. apply Forall_app in Hg as [Hs Hw]. apply Forall_singleton in Hw as (Hw & _ & _ & Hns).
  unfold path_of. change ("/" +:+ join "/" (segs ++ [w])) with (String slash (join "/" (segs ++ [w]))).
  cbn [dirname]. rewrite join_app by done. change (join "/" [w]) with w.
  rewrite !list_ascii_app, !rev_app_distr. rewrite <- app_assoc.
  pose proof (no_slash_chars w Hns) as Hc. apply Forall_rev in Hc.
  assert (Hd : drop_while is_slash (rev (list_ascii_of_string w) ++ rev (list_ascii_of_string "/") ++ rev (list_ascii_of_string (join "/" segs)))
    = rev (list_ascii_of_string w) ++ rev (list_ascii_of_string "/") ++ rev (list_ascii_of_string (join "/" segs))).
  { destruct (rev (list_ascii_of_string w)) as [|c l] eqn:E.
    - apply (f_equal (@rev ascii)) in E. rewrite rev_involutive in E. by destruct w.
    - inversion Hc as [|? ? Hh _]; subst. cbn. apply negb_true_iff in Hh. by rewrite Hh. }
  rewrite Hd, drop_while_app by done.
  change (rev (list_ascii_of_string "/")) with [slash]. cbn [app drop_while]. change (is_slash slash) with true. cbn [negb].
  destruct (rev (list_ascii_of_string (join "/" segs))) as [|c l] eqn:E.
  - exfalso. apply (f_equal (@rev ascii)) in E. rewrite rev_involutive in E.
    destruct segs as [|v segs]; [done|]. inversion Hs as [|? ? (Hv & _) _]; subst. destruct v as [|c v]; [done|].
    by rewrite join_cons_char in E.
  - rewrite <- E, rev_involutive, string_of_list_ascii_of_string. done.
Qed.

Section disk.
Context (realpathSync readFileSync : string -> result string) (existsSync : string -> bool).
Context (readdirSync : string -> result (list dirent)) (JSON_parse : string -> result jsval).

(** [readPkg]: no file, one that cannot be read, or what it says. *)
Inductive pkg_file := NoPkg | PkgError (message : string) | Pkg (pkg : jsval).

Definition readPkg (dir : string) : pkg_file :=
  match readFileSync (path_join [dir; "package.json"]) with
  | Throw e => if match e_code e with Some c => String.eqb c "ENOENT" | None => false end then NoPkg else PkgError (e_message e)
  | Ok text => match JSON_parse text with Ok v => Pkg v | Throw e => PkgError (e_message e) end
  end.

(** [read.pkg || {}] *)
Definition pkg_or_empty (p : pkg_file) : jsval := match p with Pkg v => if truthy v then v else JObj [] | _ => JObj [] end.

(** [Object.keys(pkg[k] || {})] *)
Definition keys_of_member (k : string) (pkg : jsval) : list string :=
  let v := jget k pkg in if truthy v then js_keys v else [].

(** [path.relative] of two resolved paths *)
Fixpoint strip_common (a b : list string) : list string * list string :=
  match a, b with
  | x :: a', y :: b' => if String.eqb x y then strip_common a' b' else (a, b)
  | _, _ => (a, b)
  end.
Definition segments (p : string) : list string := List.filter (fun w => negb (String.eqb w "")) (split_on slash p).
Definition path_relative (from to : string) : string :=
  let '(a, b) := strip_common (segments from) (segments to) in join "/" (map (fun _ => ".."%string) a ++ b).

Definition or_dot (s : string) : string := if String.eqb s "" then "."%string else s.

(** ** Dependencies *)

(** [findDependency]: up from the directory to the module's root. *)
Fixpoint find_dependency (fuel : nat) (root dir name : string) : option string :=
  match fuel with
  | O => None
  | S f =>
      let candidate := path_join [dir; "node_modules"%string; name] in
      if existsSync (path_join [candidate; "package.json"%string]) then Some candidate
      else if String.eqb dir root then None
      else find_dependency f root (dirname dir) name
  end.

Definition findDependency (root fromDir name : string) : option string :=
  find_dependency (S (String.length fromDir)) root fromDir name.

(** What the walk has: the real directories seen, and the problems. *)
Definition walked : Type := list string * list string.

Definition not_installed (name label : string) : string :=
  "dependency " +:+ in_quotes name +:+ " (needed by " +:+ label +:+ ") is not installed inside the module -- " +:+
  "install it into the module's own node_modules (npm install --prefix <module>)".
Definition resolves_outside (name label realFound : string) : string :=
  "dependency " +:+ in_quotes name +:+ " (needed by " +:+ label +:+ ") resolves outside the module, to " +:+ realFound.

Definition too_deep : jserr := plain_error "Maximum call stack size exceeded".

(** One dependency of the package at [dir]; [walk] is the walk itself. *)
Definition visit_dependency (walk : string -> string -> walked -> result walked) (root dir label name : string) (st : walked)
  : result walked :=
  match findDependency root dir name with
  | None => Ok (st.1, st.2 ++ [not_installed name label])
  | Some found =>
      let! realFound := realpathSync found in
      if negb (under realFound root) then Ok (st.1, st.2 ++ [resolves_outside name label realFound])
      else walk realFound (or_dot (path_relative root realFound)) st
  end.

Fixpoint for_each_name (visit : string -> walked -> result walked) (names : list string) (st : walked) : result walked :=
  match names with
  | [] => Ok st
  | name :: names => let! st := visit name st in for_each_name visit names st
  end.

(** The packages nest as deep as there are directories not seen. *)
Fixpoint walk (fuel : nat) (root dir label : string) (st : walked) : result walked :=
  match fuel with
  | O => Throw too_deep
  | S f =>
      let! real := realpathSync dir in
      if includes real st.1 then Ok st
      else
        let st := (st.1 ++ [real], st.2) in
        match readPkg dir with
        | PkgError _ => Ok st
        | p => for_each_name (visit_dependency (walk f root) root dir label) (keys_of_member "dependencies" (pkg_or_empty p)) st
        end
  end.

Definition checkDependencies (fuel : nat) (root : string) : result (list string) :=
  let! st := walk fuel root root "the module" ([], []) in Ok st.2.

(** ** Files *)

Definition INSTALL_SCRIPTS : list string := ["preinstall"; "install"; "postinstall"].

(** Problems and warnings. *)
Record report := mkReport { r_problems : list string; r_warnings : list string }.

Definition problem (m : string) : report := mkReport [m] [].
Definition nothing : report := mkReport [] [].
Definition both (a b : report) : report := mkReport (r_problems a ++ r_problems b) (r_warnings a ++ r_warnings b).
Definition all_reports (rs : list report) : report := foldr both nothing rs.

Definition native_code : string := " -- modules may not contain native code".

(** The package.json in [dir]. *)
Definition check_package (root dir rel : string) : report :=
  match readPkg dir with
  | PkgError m => problem (rel +:+ " cannot be parsed: " +:+ m)
  | p =>
      let pkg := pkg_or_empty p in
      let scripts := jget "scripts" pkg in
      mkReport
        (if strict_eq (jget "gypfile" pkg) (JBool true) then [rel +:+ " sets " +:+ in_quotes "gypfile" +:+ ": true" +:+ native_code] else [])
        (map (fun s => or_dot (path_relative root dir) +:+ " has a " +:+ in_quotes s +:+ " script, which npm runs at install time")
           (List.filter (fun s => negb (is_nullish scripts) && negb (is_nullish (jget s scripts))) INSTALL_SCRIPTS))
  end.

Definition check_link (root full rel : string) : report :=
  match realpathSync full with
  | Throw _ => nothing
  | Ok target => if under target root then nothing else problem (rel +:+ " is a symlink to " +:+ target +:+ ", outside the module")
  end.

Definition check_name (root dir name rel : string) : report :=
  all_reports [
    (if ends_with ".node" name then problem ("native addon " +:+ rel +:+ native_code) else nothing);
    (if String.eqb name "binding.gyp" then problem (rel +:+ " builds native code" +:+ native_code) else nothing);
    (if String.eqb name "package.json" then check_package root dir rel else nothing)].

(** The walk nests as deep as directories do. *)
Fixpoint walk_files (fuel : nat) (root dir : string) : report :=
  match fuel with
  | O => nothing
  | S f =>
      match readdirSync dir with
      | Throw e => problem ("cannot read " +:+ or_dot (path_relative root dir) +:+ ": " +:+ default "undefined"%string (e_code e))
      | Ok entries =>
          all_reports (map (fun ent =>
            let full := path_join [dir; de_name ent] in
            let rel := path_relative root full in
            match de_kind ent with
            | KLink => check_link root full rel
            | KDir => walk_files f root full
            | _ => check_name root dir (de_name ent) rel
            end) entries)
      end
  end.

Definition checkFiles (fuel : nat) (root : string) : report := walk_files fuel root root.

Definition checkTree (packages dirs : nat) (pcwd moduleRoot : string) : result report :=
  let! root := realpathSync (resolve pcwd [moduleRoot]) in
  let! problems := checkDependencies packages root in
  Ok (both (mkReport problems []) (checkFiles dirs root)).

(** ** Walking dependencies *)

(** What a package declares, as the walk reads it. *)
Definition dependencies_of (dir : string) : list string :=
  match readPkg dir with PkgError _ => [] | p => keys_of_member "dependencies" (pkg_or_empty p) end.

Section walk.
Context (root : string).

(** The dependency [name] of [dir] is installed inside the module, at [r]. *)
Definition installed (dir name r : string) : Prop :=
  exists c, findDependency root dir name = Some c /\ realpathSync c = Ok r /\ under r root = true.

(** The packages of the module: itself, and what they have installed. *)
Inductive package_of : string -> Prop :=
| pk_root : package_of root
| pk_dependency d name r : package_of d -> name ∈ dependencies_of d -> installed d name r -> package_of r.

(** A real path is its own; there are finitely many in the module; what was
    found has one. *)
Context (all_real : list string).
Hypothesis root_real : realpathSync root = Ok root.
Hypothesis real_idem : forall p r, realpathSync p = Ok r -> realpathSync r = Ok r.
Hypothesis real_finite : forall p r, realpathSync p = Ok r -> under r root = true -> r ∈ all_real.
Hypothesis found_real : forall d name c, findDependency root d name = Some c -> is_ok (realpathSync c) = true.

#[local] Set Default Proof Using "All".

Lemma package_real d : package_of d -> realpathSync d = Ok d /\ under d root = true.
Proof.
  destruct 1 as [|d name r _ _ (c & _ & Hr & Hu)]; [split; [done|apply under_refl]|]. split; [by eapply real_idem|done].
Qed.

(** What a part of the walk adds: packages of the module; if no problem, all
    their dependencies are installed and walked; a problem, if one of them is
    not. *)
Definition adds (st st' : walked) : Prop :=
  exists more new, st' = (st.1 ++ more, st.2 ++ new) /\ Forall package_of more /\
    (new = [] -> forall d name, d ∈ more -> name ∈ dependencies_of d -> exists r, installed d name r /\ r ∈ st.1 ++ more) /\
    (new <> [] -> exists d name, package_of d /\ name ∈ dependencies_of d /\ forall r, ~ installed d name r).

Lemma adds_refl st : adds st st.
Proof. exists [], []. rewrite !app_nil_r. split; [by destruct st|]. split; [constructor|]. split; [intros _ d name H; inversion H|done]. Qed.

Lemma adds_trans st1 st2 st3 : adds st1 st2 -> adds st2 st3 -> adds st1 st3.
Proof.
  intros (m1 & n1 & -> & Hp1 & Hc1 & Hb1) (m2 & n2 & -> & Hp2 & Hc2 & Hb2). cbn in *.
  exists (m1 ++ m2), (n1 ++ n2). rewrite <- !app_assoc. split; [done|]. split; [by apply Forall_app|]. split.
  - intros [-> ->]%app_nil d name [Hd|Hd]%elem_of_app Hn.
    + destruct (Hc1 eq_refl d name Hd Hn) as (r & Hi & Hr). exists r. split; [done|]. set_solver.
    + destruct (Hc2 eq_refl d name Hd Hn) as (r & Hi & Hr). exists r. split; [done|]. by rewrite app_assoc.
  - intros Hne. destruct n1; [by apply Hb2|by apply Hb1].
Qed.

Lemma adds_unseen st st' : adds st st' -> (unseen all_real st'.1 <= unseen all_real st.1)%nat.
Proof. intros (m & n & -> & _). apply unseen_mono. Qed.

(** The walk itself, when it has the fuel for what is not seen. *)
Definition walks (f : nat) : Prop := forall dir label st,
  package_of dir -> (unseen all_real st.1 < f)%nat ->
  exists st', walk f root dir label st = Ok st' /\ adds st st' /\ dir ∈ st'.1.

Lemma for_each_walks f dir label names st :
  walks f -> package_of dir -> (forall name, name ∈ names -> name ∈ dependencies_of dir) -> (unseen all_real st.1 < f)%nat ->
  exists st', for_each_name (visit_dependency (walk f root) root dir label) names st = Ok st' /\ adds st st' /\
    (st'.2 = st.2 -> forall name, name ∈ names -> exists r, installed dir name r /\ r ∈ st'.1).
Proof.
  intros HW Hdir. revert st. induction names as [|name names IH]; intros st Hn Hf.
  { exists st. split; [done|]. split; [apply adds_refl|]. intros _ n H. inversion H. }
  assert (H1 : exists st1, visit_dependency (walk f root) root dir label name st = Ok st1 /\ adds st st1 /\
                 (st1.2 = st.2 -> exists r, installed dir name r /\ r ∈ st1.1)).
  { assert (Hbad : forall m, (forall r, ~ installed dir name r) -> adds st (st.1, st.2 ++ [m])).
    { intros m Hb. exists [], [m]. rewrite app_nil_r. split; [done|]. split; [constructor|]. split; [done|].
      intros _. exists dir, name. split; [done|]. split; [apply Hn; by left|done]. }
    assert (Hlen : forall m, (st.1, st.2 ++ [m]).2 = st.2 -> exists r, installed dir name r /\ r ∈ (st.1, st.2 ++ [m]).1).
    { intros m H. apply (f_equal length) in H. cbn in H. rewrite length_app in H. cbn in H. lia. }
    unfold visit_dependency. destruct (findDependency root dir name) as [c|] eqn:Ec.
    - pose proof (found_real dir name c Ec) as Hr. destruct (realpathSync c) as [r|e] eqn:Er; [|done]. cbn [rbind].
      destruct (under r root) eqn:Eu; cbn [negb].
      + assert (Hi : installed dir name r) by by exists c.
        destruct (HW r (or_dot (path_relative root r)) st) as (st1 & E1 & Ha & Hin); [|done|].
        { apply (pk_dependency dir name); [done|apply Hn; by left|done]. }
        exists st1. split; [done|]. split; [done|]. intros _. by exists r.
      + eexists. split; [done|]. split; [|apply Hlen]. apply Hbad. intros r' (c' & Hc & Hr' & Hu). congruence.
    - eexists. split; [done|]. split; [|apply Hlen]. apply Hbad. intros r' (c' & Hc & _). congruence. }
  destruct H1 as (st1 & E1 & Ha1 & Hi1). pose proof (adds_unseen _ _ Ha1) as Hle.
  destruct (IH st1) as (st2 & E2 & Ha2 & Hi2); [intros n Hin; apply Hn; by right|lia|].
  exists st2. cbn [for_each_name]. rewrite E1. cbn [rbind]. split; [done|]. split; [by eapply adds_trans|].
  intros Heq n. destruct Ha1 as (m1 & n1 & -> & _), Ha2 as (m2 & n2 & -> & _). cbn in *.
  assert (Hnil : n1 ++ n2 = []) by (apply (app_inv_head st.2); by rewrite app_nil_r, app_assoc).
  apply app_nil in Hnil as [-> ->]. specialize (Hi1 (app_nil_r _)). specialize (Hi2 (app_nil_r _)). intros [->|Hin]%elem_of_cons.
  - destruct Hi1 as (r & Hi & Hr). exists r. split; [done|]. apply elem_of_app. by left.
  - by apply Hi2.
Qed.

Lemma walk_walks f : walks f.
Proof.
  induction f as [|f IH]; intros dir label st Hdir Hf; [lia|]. cbn [walk].
  destruct (package_real dir Hdir) as [Hr Hu]. rewrite Hr. cbn [rbind].
  destruct (includes dir st.1) eqn:Es.
  { exists st. split; [done|]. split; [apply adds_refl|]. by apply includes_spec. }
  pose proof (unseen_less all_real st.1 dir (real_finite dir dir Hr Hu) Es) as Hlt.
  assert (Hloop : exists st', for_each_name (visit_dependency (walk f root) root dir label) (dependencies_of dir)
            (st.1 ++ [dir], st.2) = Ok st' /\ adds (st.1 ++ [dir], st.2) st' /\
            (st'.2 = st.2 -> forall name, name ∈ dependencies_of dir -> exists r, installed dir name r /\ r ∈ st'.1))
    by (apply (for_each_walks f dir label _ (st.1 ++ [dir], st.2) IH Hdir); [done|cbn; lia]).
  destruct Hloop as (st' & El & Ha & Hi).
  exists st'. split.
  { unfold dependencies_of in El. destruct (readPkg dir); exact El. }
  destruct Ha as (more & new & -> & Hp & Hc & Hb). cbn in *. split; [|set_solver].
  exists (dir :: more), new. rewrite <- app_assoc in *. split; [done|]. split; [by constructor|]. split; [|done].
  intros -> d name [->|Hd]%elem_of_cons Hn.
  - destruct (Hi (app_nil_r _) name Hn) as (r & Hi' & Hr'). by exists r.
  - destruct (Hc eq_refl d name Hd Hn) as (r & Hi' & Hr'). exists r. split; done.
Qed.

(** The check ends, and finds a problem exactly when a package of the module
    declares a dependency that is not installed inside it. *)
Lemma checkDependencies_exact n : (length all_real < n)%nat ->
  exists problems, checkDependencies n root = Ok problems /\
    (problems = [] <-> forall d name, package_of d -> name ∈ dependencies_of d -> exists r, installed d name r).
Proof.
  intros Hn. destruct (walk_walks n root "the module" ([], [])) as (st & E & (more & new & -> & Hp & Hc & Hb) & Hin); [constructor| |].
  { eapply Nat.le_lt_trans; [|exact Hn]. unfold unseen. apply List.filter_length_le. }
  cbn in *. exists new. unfold checkDependencies. rewrite E. split; [done|]. split.
  - intros ->. assert (Hall : forall d, package_of d -> d ∈ more).
    { induction 1 as [|d name r Hd IHd Hname Hi]; [done|]. destruct (Hc eq_refl d name IHd Hname) as (r' & (c' & E1 & E2 & _) & Hr').
      destruct Hi as (c & E3 & E4 & _). congruence. }
    intros d name Hd Hname. destruct (Hc eq_refl d name (Hall d Hd) Hname) as (r & Hi & _). by exists r.
  - intros Hgood. destruct new as [|m new]; [done|]. destruct Hb as (d & name & Hd & Hname & Hno); [done|].
    destruct (Hgood d name Hd Hname) as [r Hr]. by destruct (Hno r).
Qed.
End walk.

(** ** Walking files *)

(** What the directories of a module may hold. *)
Definition entry_fine (root dir : string) (ent : dirent) : Prop :=
  match de_kind ent with
  | KLink => forall target, realpathSync (path_join [dir; de_name ent]) = Ok target -> under target root = true
  | KDir => True
  | _ => ends_with ".node" (de_name ent) = false /\ de_name ent <> "binding.gyp"%string /\
         (de_name ent = "package.json"%string -> exists p, readPkg dir = p /\ (forall m, p <> PkgError m) /\
            strict_eq (jget "gypfile" (pkg_or_empty p)) (JBool true) = false)
  end.

Definition dir_fine (root dir : string) : Prop :=
  exists entries, readdirSync dir = Ok entries /\ forall ent, ent ∈ entries -> entry_fine root dir ent.

(** The directories of a module, no link followed. *)
Inductive dir_of (root : string) : string -> Prop :=
| dir_root : dir_of root root
| dir_sub d entries ent : dir_of root d -> readdirSync d = Ok entries -> ent ∈ entries -> de_kind ent = KDir ->
    dir_of root (path_join [d; de_name ent]).

(** The same from any directory on. *)
Inductive below (d : string) : string -> Prop :=
| below_here : below d d
| below_sub entries ent d' : readdirSync d = Ok entries -> ent ∈ entries -> de_kind ent = KDir ->
    below (path_join [d; de_name ent]) d' -> below d d'.

(** Directories nest less than [n] deep. *)
Fixpoint shallow (n : nat) (dir : string) : Prop :=
  match n with
  | O => False
  | S n => forall entries ent, readdirSync dir = Ok entries -> ent ∈ entries -> de_kind ent = KDir ->
             shallow n (path_join [dir; de_name ent])
  end.

Lemma below_snoc d d' entries ent :
  below d d' -> readdirSync d' = Ok entries -> ent ∈ entries -> de_kind ent = KDir -> below d (path_join [d'; de_name ent]).
Proof.
  induction 1 as [d|d es e d' He Hin Hk _ IH]; intros Hr He' Hd.
  - apply (below_sub d entries ent); [done..|]. constructor.
  - apply (below_sub d es e); [done..|]. by apply IH.
Qed.

Lemma dir_of_below root d : dir_of root d -> below root d.
Proof. induction 1 as [|d es e _ IH He Hin Hk]; [constructor|]. by apply (below_snoc root d es). Qed.

Lemma below_dir_of root d d' : dir_of root d -> below d d' -> dir_of root d'.
Proof. intros Hd Hb. induction Hb as [d|d es e d' He Hin Hk _ IH]; [done|]. apply IH. by apply (dir_sub root d es). Qed.

Lemma all_reports_nil rs : r_problems (all_reports rs) = [] <-> forall r, r ∈ rs -> r_problems r = [].
Proof.
  induction rs as [|r rs IH]; cbn; [split; [intros _ r H; inversion H|done]|]. rewrite app_nil, IH. split.
  - intros [H1 H2] r' [->|H]%elem_of_cons; [done|by apply H2].
  - intros H. split; [apply H; by left|]. intros r' Hr. apply H. by right.
Qed.

Lemma check_name_nil root dir name rel :
  r_problems (check_name root dir name rel) = [] <->
  ends_with ".node" name = false /\ name <> "binding.gyp"%string /\
  (name = "package.json"%string -> exists p, readPkg dir = p /\ (forall m, p <> PkgError m) /\
     strict_eq (jget "gypfile" (pkg_or_empty p)) (JBool true) = false).
Proof.
  unfold check_name. rewrite all_reports_nil.
  assert (Hp : r_problems (check_package root dir rel) = [] <->
            exists p, readPkg dir = p /\ (forall m, p <> PkgError m) /\ strict_eq (jget "gypfile" (pkg_or_empty p)) (JBool true) = false).
  { unfold check_package. destruct (readPkg dir) as [|m|v] eqn:E; cbn [r_problems].
    - split; [intros _; by exists NoPkg|done].
    - split; [done|]. intros (p & <- & Hp & _). by destruct (Hp m).
    - destruct (strict_eq _ _) eqn:Eg; split; try done.
      + intros (p & <- & _ & H). congruence.
      + intros _. by exists (Pkg v). }
  split.
  - intros H. split_and!.
    + specialize (H _ ltac:(by left)). by destruct (ends_with ".node" name).
    + intros ->. by specialize (H _ ltac:(right; by left)).
    + intros ->. apply Hp. apply (H _ ltac:(right; right; by left)).
  - intros (Hn & Hb & Hpk) r Hr. rewrite Hn in Hr. destruct (String.eqb_spec name "binding.gyp"); [done|].
    destruct (String.eqb_spec name "package.json").
    + apply elem_of_cons in Hr as [->|Hr]; [done|]. apply elem_of_cons in Hr as [->|Hr]; [done|].
      apply list_elem_of_singleton in Hr as ->. apply Hp. by apply Hpk.
    + apply elem_of_cons in Hr as [->|Hr]; [done|]. apply elem_of_cons in Hr as [->|Hr]; [done|].
      by apply list_elem_of_singleton in Hr as ->.
Qed.

(** The walk finds a problem exactly when a directory below has one. *)
Lemma walk_files_exact n root dir : shallow n dir ->
  r_problems (walk_files n root dir) = [] <-> forall d, below dir d -> dir_fine root d.
Proof.
  revert dir. induction n as [|n IH]; intros dir Hs; [done|]. cbn [walk_files shallow] in *.
  destruct (readdirSync dir) as [entries|e] eqn:Er.
  - rewrite all_reports_nil. split.
    + intros H d Hd. inversion Hd as [|es ent d' He Hin Hk Hb]; subst.
      * exists entries. split; [done|]. intros ent Hin. specialize (H _ (list_elem_of_fmap_2 _ _ _ Hin)). cbn in H.
        unfold entry_fine, check_link in *. destruct (de_kind ent); [|done| |]; try by apply check_name_nil in H.
        intros t Ht. rewrite Ht in H. by destruct (under t root).
      * assert (es = entries) as -> by congruence. specialize (H _ (list_elem_of_fmap_2 _ _ _ Hin)). cbn in H. rewrite Hk in H.
        by apply (IH (path_join [dir; de_name ent]) (Hs _ _ eq_refl Hin Hk)).
    + intros H r (ent & -> & Hin)%list_elem_of_fmap. destruct (H dir) as (es & E & Hf); [constructor|].
      assert (es = entries) as -> by congruence. specialize (Hf ent Hin). unfold entry_fine, check_link in *.
      destruct (de_kind ent) eqn:Hk; try by apply check_name_nil.
      * apply (IH _ (Hs _ _ eq_refl Hin Hk)). intros d Hd. apply H. by apply (below_sub dir entries ent).
      * destruct (realpathSync _) as [t|e] eqn:Et; [|done]. by rewrite (Hf t eq_refl).
  - split; [done|]. intros H. destruct (H dir) as (es & E & _); [constructor|]. congruence.
Qed.

(** ** Where a dependency is found *)

(** The nearest directory, from the package up to the module's root, that has
    it: the root's segments and the package's below them, innermost first. *)
Fixpoint nearest (base below_rev : list string) (name : string) : option string :=
  let candidate := path_join [path_of (base ++ rev below_rev); "node_modules"%string; name] in
  if existsSync (path_join [candidate; "package.json"%string]) then Some candidate
  else match below_rev with [] => None | _ :: up => nearest base up name end.

Lemma find_nearest base rds name fuel :
  Forall good_seg base -> base <> [] -> Forall good_seg rds -> (length rds < fuel)%nat ->
  find_dependency fuel (path_of base) (path_of (base ++ rev rds)) name = nearest base rds name.
Proof.
  intros Hb Hne. revert fuel. induction rds as [|w rds IH]; intros [|f] Hr Hf; cbn in Hf; try lia; cbn [find_dependency nearest].
  - cbn [rev]. rewrite app_nil_r, String.eqb_refl. done.
  - destruct (existsSync _); [done|]. inversion Hr as [|? ? Hw Hr']; subst.
    assert (Hall : Forall good_seg (base ++ rev (w :: rds))) by (apply Forall_app; split; [done|by apply Forall_rev]).
    destruct (String.eqb_spec (path_of (base ++ rev (w :: rds))) (path_of base)) as [E|_].
    + apply (f_equal (split_on slash)) in E. rewrite !split_path in E; [|done|done|done|by destruct base].
      injection E as E. apply (f_equal length) in E. rewrite ?app_assoc, !length_app in E. cbn in E. lia.
    + cbn [rev]. rewrite app_assoc, dirname_snoc.
      * apply IH; [done|lia].
      * cbn [rev] in Hall. by rewrite app_assoc in Hall.
      * by destruct base.
Qed.

(** ** The tree of a module *)

(** C20: The check of a module's tree ends, and what it finds is exact. On a disk
    whose real paths are their own and finitely many inside the module, where
    what is found can be resolved and directories nest no deeper than the fuel:
    the check finds no problem exactly when every package of the module -- the
    module itself and what its packages have installed -- has all its
    dependencies installed inside the module, the nearest to it, and every
    directory of the module can be read and holds no link that leads outside, no
    .node file, no binding.gyp and no package.json that cannot be parsed or asks
    for a native build. *)
Theorem tree_check_exact (pcwd moduleRoot root : string) (all_real : list string) (packages dirs : nat) :
  realpathSync (resolve pcwd [moduleRoot]) = Ok root ->
  (forall p r, realpathSync p = Ok r -> realpathSync r = Ok r) ->
  (forall p r, realpathSync p = Ok r -> under r root = true -> r ∈ all_real) ->
  (forall d name c, findDependency root d name = Some c -> is_ok (realpathSync c) = true) ->
  (length all_real < packages)%nat -> shallow dirs root ->
  exists found, checkTree packages dirs pcwd moduleRoot = Ok found /\
    (r_problems found = [] <->
       (forall d name, package_of root d -> name ∈ dependencies_of d -> exists r, installed root d name r) /\
       (forall d, dir_of root d -> dir_fine root d)) /\
    (forall base rds name, root = path_of base -> Forall good_seg base -> base <> [] -> Forall good_seg rds ->
       findDependency root (path_of (base ++ rev rds)) name = nearest base rds name).
Proof.
  intros Hroot Hidem Hfin Hfound Hn Hs.
  destruct (checkDependencies_exact root all_real (Hidem _ _ Hroot) Hidem Hfin Hfound packages Hn) as (ps & Hp & Hiff).
  exists (both (mkReport ps []) (checkFiles dirs root)). unfold checkTree. rewrite Hroot. cbn [rbind]. rewrite Hp. split; [done|].
  split.
  - cbn [r_problems both]. rewrite app_nil. unfold checkFiles. rewrite Hiff, (walk_files_exact dirs root root Hs). split.
    + intros [H1 H2]. split; [done|]. intros d Hd. by apply H2, dir_of_below.
    + intros [H1 H2]. split; [done|]. intros d Hd. apply H2. by apply (below_dir_of root root); [constructor|].
  - intros base rds name -> Hb Hne Hr. unfold findDependency. apply find_nearest; [done..|].
    enough (length rds <= String.length (path_of (base ++ rev rds)))%nat by lia.
    assert (Hl : forall l, Forall good_seg l -> (length l <= String.length (join "/" l))%nat).
    { induction 1 as [|w l (Hw & _) _ IH]; [done|]. destruct l as [|v l]; [destruct w; cbn; [done|lia]|].
      change (join "/" (w :: v :: l)) with (w +:+ "/" +:+ join "/" (v :: l)). rewrite !sapp_length. change (String.length "/") with 1%nat. cbn [length] in *. lia. }
    specialize (Hl (base ++ rev rds)). rewrite length_app, length_rev in Hl. unfold path_of. rewrite sapp_length.
    assert (Hf : Forall good_seg (base ++ rev rds)) by (apply Forall_app; split; [done|by apply Forall_rev]).
    specialize (Hl Hf). lia.
Qed.
End disk.

(** ** countinghouse's own code *)

Section closure.
Context (realpath readFile : string -> result string) (parse : string -> result jsval).
Context (exists_file : string -> bool) (nodeModulePaths : string -> list string).

(** [readDeps]: none of a package.json that cannot be read. *)
Definition readDeps (dir : string) : list string :=
  match (let! text := readFile (path_join [dir; "package.json"%string]) in parse text) with
  | Ok pkg => concat (map (fun k => keys_of_member k pkg) ["dependencies"; "optionalDependencies"; "peerDependencies"]%string)
  | Throw _ => []
  end.

(** [roots] and [realOf]: looked-up spellings with their real paths. *)
Record closure := mkClosure { c_roots : list string; c_realOf : list (string * string) }.

Definition add_root (p : string) (roots : list string) : list string := if includes p roots then roots else roots ++ [p].

(** One dependency of the queue: where Node looks it up. *)
Definition looked_up (name from : string) : option string :=
  match List.find (fun nm => exists_file (path_join [nm; name; "package.json"%string])) (nodeModulePaths from) with
  | Some nm => Some (path_join [nm; name])
  | None => None
  end.

(** The [while]; a turn takes one dependency off the queue. *)
Fixpoint closure_loop (fuel : nat) (queue : list (string * string)) (seen : list string) (c : closure) : option closure :=
  match queue with
  | [] => Some c
  | (name, from) :: queue =>
      match fuel with
      | O => None
      | S f =>
          match looked_up name from with
          | None => closure_loop f queue seen c
          | Some dir =>
              match realpath dir with
              | Throw _ => closure_loop f queue seen c
              | Ok real =>
                  let c := mkClosure (add_root dir (c_roots c))
                             (if String.eqb dir real then c_realOf c else assoc_set dir real (c_realOf c)) in
                  if includes real seen then closure_loop f queue seen c
                  else closure_loop f (queue ++ map (fun dep => (dep, real)) (readDeps real)) (seen ++ [real])
                         (mkClosure (add_root real (c_roots c)) (c_realOf c))
              end
          end
      end
  end.

Definition own_roots (own : list string) : list string :=
  fold_left (fun roots p => match realpath p with Ok r => add_root r roots | Throw _ => roots end) own [].

Definition dependencyClosure (fuel : nat) (installDir : string) (own : list string) : option closure :=
  closure_loop fuel (map (fun name => (name, installDir)) (readDeps installDir)) [] (mkClosure (own_roots own) []).

Definition COUNTINGHOUSE_OWN : list string := ["lib"; "package.json"; "spec/schema.json"].

(** What is excluded: the module's real path, or its resolved spelling. *)
Definition module_roots (pcwd : string) (exclude : list string) : list string :=
  map (fun p => match realpath p with Ok r => r | Throw _ => resolve pcwd [p] end) exclude.

Definition spellings (c : closure) (r : string) : list string := [r; default r (assoc r (c_realOf c))].

Definition apart_from (modules : list string) (p : string) : bool :=
  forallb (fun m => negb (under p m || under m p)) modules.

Definition codeRootsFor (fuel : nat) (pcwd installDir : string) (exclude : list string) : option (list string) :=
  match dependencyClosure fuel installDir (map (fun p => path_join [installDir; p]) COUNTINGHOUSE_OWN) with
  | None => None
  | Some c => Some (List.filter (fun r => forallb (apart_from (module_roots pcwd exclude)) (spellings c r)) (c_roots c))
  end.

(** ** What countinghouse needs *)

Section needs.
Context (installDir : string).

(** The dependencies of the closure: those of the install directory, and those
    of each package found. *)
Inductive needs : string -> string -> Prop :=
| need_direct name : name ∈ readDeps installDir -> needs installDir name
| need_of from name dir real dep :
    needs from name -> looked_up name from = Some dir -> realpath dir = Ok real -> dep ∈ readDeps real -> needs real dep.

Context (all_real : list string).
Hypothesis real_finite : forall p r, realpath p = Ok r -> r ∈ all_real.

#[local] Set Default Proof Using "All".

(** The turns left: the queue, and the dependencies of what is not seen. *)
Definition deps_left (seen : list string) : nat :=
  sum_list (map (fun r => length (readDeps r)) (List.filter (fun r => negb (includes r seen)) all_real)).

Lemma deps_left_seen seen r : r ∈ all_real -> includes r seen = false ->
  (deps_left (seen ++ [r]) + length (readDeps r) <= deps_left seen)%nat.
Proof.
  unfold deps_left. clear real_finite. intros Hin Hr.
  assert (Hle : forall l, (sum_list (map (fun r => length (readDeps r)) (List.filter (fun x => negb (includes x (seen ++ [r]))) l))
                  <= sum_list (map (fun r => length (readDeps r)) (List.filter (fun x => negb (includes x seen)) l)))%nat).
  { induction l as [|x l IH]; [done|]. cbn. rewrite includes_app. destruct (includes x seen), (includes x [r]); cbn; lia. }
  induction all_real as [|x l IH]; [inversion Hin|]. cbn. rewrite includes_app.
  destruct (decide (x = r)) as [->|Hne].
  - rewrite Hr. assert (includes r [r] = true) as -> by (apply includes_spec; set_solver). cbn. specialize (Hle l). lia.
  - apply elem_of_cons in Hin as [->|Hin]; [done|]. specialize (IH Hin).
    assert (includes x [r] = false) as -> by (apply includes_false; set_solver). rewrite orb_false_r.
    destruct (includes x seen); cbn; lia.
Qed.

Definition handled (seen : list string) (c : closure) (name from : string) : Prop :=
  forall dir real, looked_up name from = Some dir -> realpath dir = Ok real ->
  dir ∈ c_roots c /\ real ∈ c_roots c /\ real ∈ seen /\ (dir = real \/ assoc dir (c_realOf c) = Some real).

Definition wanted (seen : list string) (name from : string) : Prop :=
  (from = installDir \/ from ∈ seen) /\ name ∈ readDeps from.

Definition found_for (r : string) : Prop :=
  exists from name dir real, needs from name /\ looked_up name from = Some dir /\ realpath dir = Ok real /\ (r = dir \/ r = real).

Record loop_inv (own : list string) (queue : list (string * string)) (seen : list string) (c : closure) : Prop := {
  inv_wanted : forall name from, wanted seen name from -> (name, from) ∈ queue \/ handled seen c name from;
  inv_needed : forall name from, (name, from) ∈ queue -> needs from name;
  inv_seen : forall r name, r ∈ seen -> name ∈ readDeps r -> needs r name;
  inv_sound : forall r, r ∈ c_roots c -> r ∈ own \/ found_for r;
  inv_own : forall r, r ∈ own -> r ∈ c_roots c;
  inv_roots : forall r, r ∈ seen -> r ∈ c_roots c;
  inv_real : forall r real, assoc r (c_realOf c) = Some real -> realpath r = Ok real
}.

Lemma add_root_elem p x l : x ∈ add_root p l <-> x = p \/ x ∈ l.
Proof.
  unfold add_root. destruct (includes p l) eqn:E; [apply includes_spec in E; naive_solver|]. set_solver.
Qed.

Lemma handled_mono seen seen' c c' name from :
  handled seen c name from -> (forall x, x ∈ seen -> x ∈ seen') -> (forall x, x ∈ c_roots c -> x ∈ c_roots c') ->
  (forall d r, realpath d = Ok r -> assoc d (c_realOf c) = Some r -> assoc d (c_realOf c') = Some r) ->
  handled seen' c' name from.
Proof. intros H Hs Hc Ha dir real Hl Hr. destruct (H dir real Hl Hr) as (A & B & C & [D|D]); auto 6. Qed.

(** A dependency that is not installed, or has no real path, adds nothing. *)
Lemma inv_skip own name from queue seen c :
  loop_inv own ((name, from) :: queue) seen c ->
  (forall dir real, looked_up name from = Some dir -> realpath dir = Ok real -> False) -> loop_inv own queue seen c.
Proof.
  intros [Hw Hn Hs Hso Ho Hro Hre] Hno. split; try done.
  - intros n f Hwant. destruct (Hw n f Hwant) as [[[= -> ->]|H]%elem_of_cons|H]; [right|by left|by right].
    intros dir real Hl Hr. destruct (Hno dir real Hl Hr).
  - intros n f H. apply Hn. by right.
Qed.

Lemma inv_turn own name from dir real queue seen c :
  loop_inv own ((name, from) :: queue) seen c -> looked_up name from = Some dir -> realpath dir = Ok real ->
  let c' := mkClosure (add_root dir (c_roots c)) (if String.eqb dir real then c_realOf c else assoc_set dir real (c_realOf c)) in
  if includes real seen then loop_inv own queue seen c'
  else loop_inv own (queue ++ map (fun dep => (dep, real)) (readDeps real)) (seen ++ [real])
         (mkClosure (add_root real (c_roots c')) (c_realOf c')).
Proof.
  intros [Hw Hn Hs Hso Ho Hro Hre] Hl Hr. cbn zeta.
  assert (Hneed : needs from name) by (apply Hn; by left).
  assert (Hfound : forall x, x = dir \/ x = real -> found_for x) by (intros x Hx; by exists from, name, dir, real).
  assert (Hreal : forall r x, assoc r (if String.eqb dir real then c_realOf c else assoc_set dir real (c_realOf c)) = Some x -> realpath r = Ok x).
  { intros r x. destruct (String.eqb dir real); [apply Hre|]. rewrite assoc_set_lookup.
    destruct (String.eqb_spec r dir) as [->|_]; [by intros [= <-]|apply Hre]. }
  assert (Hkeep : forall d r, realpath d = Ok r -> assoc d (c_realOf c) = Some r ->
            assoc d (if String.eqb dir real then c_realOf c else assoc_set dir real (c_realOf c)) = Some r).
  { intros d r Hd Ha. destruct (String.eqb dir real); [done|]. rewrite assoc_set_lookup.
    destruct (String.eqb_spec d dir) as [->|_]; congruence. }
  assert (Hlink : dir = real \/ assoc dir (if String.eqb dir real then c_realOf c else assoc_set dir real (c_realOf c)) = Some real).
  { destruct (String.eqb_spec dir real); [by left|right]. by rewrite assoc_set_lookup, String.eqb_refl. }
  destruct (includes real seen) eqn:Es.
  - apply includes_spec in Es. split; try done; cbn.
    + intros n f Hwant. destruct (Hw n f Hwant) as [[[= -> ->]|H]%elem_of_cons|H]; [right|by left|right].
      * intros d r Hl' Hr'. assert (d = dir) as -> by congruence. assert (r = real) as -> by congruence.
        cbn. rewrite !add_root_elem. auto 6.
      * eapply handled_mono; [exact H|done| |exact Hkeep]. intros x Hx. apply add_root_elem. by right.
    + intros n f H. apply Hn. by right.
    + intros r [->|Hx]%add_root_elem; [right; apply Hfound; by left|by apply Hso].
    + intros r Hx. apply add_root_elem. right. by apply Ho.
    + intros r Hx. apply add_root_elem. right. by apply Hro.
  - split; cbn.
    + intros n f [Hf Hname].
      assert (Hcase : wanted seen n f \/ f = real) by (unfold wanted; destruct Hf as [->|[H|H%list_elem_of_singleton]%elem_of_app]; [left; auto|left; auto|by right]).
      destruct Hcase as [Hwant| ->].
      * destruct (Hw n f Hwant) as [[[= -> ->]|H]%elem_of_cons|H]; [right|left; apply elem_of_app; by left|right].
        -- intros d r Hl' Hr'. assert (d = dir) as -> by congruence. assert (r = real) as -> by congruence.
           cbn. rewrite !add_root_elem, elem_of_app, list_elem_of_singleton. auto 7.
        -- eapply handled_mono; [exact H|intros x Hx; apply elem_of_app; by left| |exact Hkeep]. intros x Hx. cbn. rewrite !add_root_elem. auto.
      * left. apply elem_of_app. right. apply list_elem_of_fmap. by exists n.
    + intros n f [H|(d & [= -> ->] & Hd)%list_elem_of_fmap]%elem_of_app; [apply Hn; by right|].
      by apply (need_of from name dir).
    + intros r n [H|H%list_elem_of_singleton]%elem_of_app Hd; [by apply Hs|subst]. by apply (need_of from name dir).
    + intros r [->|[->|Hx]%add_root_elem]%add_root_elem; [right; apply Hfound; by right|right; apply Hfound; by left|by apply Hso].
    + intros r Hx. rewrite !add_root_elem. auto.
    + intros r [Hx|Hx%list_elem_of_singleton]%elem_of_app; rewrite !add_root_elem; auto.
    + exact Hreal.
Qed.

(** With a turn for every dependency, the loop ends, and what it ends with is
    what is needed. *)
Lemma closure_loop_ends own fuel queue seen c :
  loop_inv own queue seen c -> (length queue + deps_left seen <= fuel)%nat ->
  exists c' seen', closure_loop fuel queue seen c = Some c' /\ loop_inv own [] seen' c'.
Proof.
  revert queue seen c. induction fuel as [|f IH]; intros [|[name from] queue] seen c Hinv Hf; cbn [length] in Hf; try lia;
    cbn [closure_loop]; try by exists c, seen.
  destruct (looked_up name from) as [dir|] eqn:El; [|apply IH; [eapply inv_skip; [exact Hinv|congruence]|lia]].
  destruct (realpath dir) as [real|e] eqn:Er; [|apply IH; [eapply inv_skip; [exact Hinv|congruence]|lia]].
  pose proof (inv_turn own name from dir real queue seen c Hinv El Er) as Ht. cbn zeta in Ht.
  destruct (includes real seen) eqn:Es; apply IH; try done; [lia|].
  pose proof (deps_left_seen seen real (real_finite dir real Er) Es). rewrite length_app, length_map. lia.
Qed.

Lemma inv_start own :
  loop_inv (own_roots own) (map (fun name => (name, installDir)) (readDeps installDir)) [] (mkClosure (own_roots own) []).
Proof.
  split; cbn; try done.
  - intros name from [[->|H] Hn]; [|inversion H]. left. apply list_elem_of_fmap. by exists name.
  - intros name from (n & [= -> ->] & Hn)%list_elem_of_fmap. by apply need_direct.
  - intros r name H. inversion H.
  - intros r H. by left.
  - intros r H. inversion H.
Qed.

Lemma needed_handled own seen c from name : loop_inv own [] seen c -> needs from name -> handled seen c name from.
Proof.
  intros [Hw _ _ _ _ _ _] Hn. assert (Hall : wanted seen name from).
  { induction Hn as [name Hd|from name dir real dep Hn IH Hl Hr Hd]; [by split; [left|]|]. split; [right|done].
    destruct (Hw name from IH) as [H|H]; [inversion H|]. by destruct (H dir real Hl Hr) as (_ & _ & ? & _). }
  destruct (Hw name from Hall) as [H|H]; [inversion H|done].
Qed.
End needs.

Lemma apart_spec modules p : apart_from modules p = true <-> forall m, m ∈ modules -> under p m = false /\ under m p = false.
Proof.
  unfold apart_from. rewrite forallb_forall. split; intros H m Hm.
  - specialize (H m (proj1 (list_elem_of_In _ _) Hm)). apply negb_true_iff, orb_false_iff in H. done.
  - apply list_elem_of_In in Hm. destruct (H m Hm) as [-> ->]. done.
Qed.

(** Countinghouse's rights do not reach a module. With as many turns as
    there are dependencies to take off the queue, the search for countinghouse's
    own code ends. Every root it answers is one of its own entries, or where a
    package that countinghouse needs is looked up or really is; none of them,
    nor the real path of one that is a link, is a module's root, inside one or
    around one; and a package it needs that is apart from the modules is a root
    under both its names. *)
Theorem code_roots_exact (pcwd installDir : string) (exclude all_real : list string) (fuel : nat) :
  (forall p r, realpath p = Ok r -> r ∈ all_real) ->
  (length (readDeps installDir) + sum_list (map (fun r => length (readDeps r)) all_real) <= fuel)%nat ->
  exists roots, codeRootsFor fuel pcwd installDir exclude = Some roots /\
    (forall r, r ∈ roots ->
       (r ∈ own_roots (map (fun p => path_join [installDir; p]) COUNTINGHOUSE_OWN) \/ found_for installDir r) /\
       (forall m, m ∈ module_roots pcwd exclude -> under r m = false /\ under m r = false)) /\
    (forall from name dir real, needs installDir from name -> looked_up name from = Some dir -> realpath dir = Ok real ->
       (dir ∈ roots -> forall m, m ∈ module_roots pcwd exclude -> under real m = false /\ under m real = false) /\
       (apart_from (module_roots pcwd exclude) dir = true -> apart_from (module_roots pcwd exclude) real = true ->
        realpath real = Ok real -> dir ∈ roots /\ real ∈ roots)).
Proof.
  intros Hfin Hf. set (own := map _ COUNTINGHOUSE_OWN).
  destruct (closure_loop_ends installDir all_real Hfin (own_roots own) fuel _ [] _ (inv_start installDir all_real Hfin own)) as (c & seen & E & Hinv).
  { enough (deps_left all_real [] <= sum_list (map (fun r => length (readDeps r)) all_real))%nat by (rewrite length_map; lia).
    clear. unfold deps_left. induction all_real as [|r l IH]; [done|]. cbn. destruct (negb _); cbn; lia. }
  pose proof Hinv as [_ _ _ Hso _ _ Hre].
  eexists. split; [unfold codeRootsFor, dependencyClosure; fold own; by rewrite E|]. split.
  - intros r Hr. apply list_elem_of_In, List.filter_In in Hr as [Hr Ha]. apply list_elem_of_In in Hr. split; [by apply Hso|].
    cbn in Ha. apply andb_true_iff in Ha as [Ha _]. by apply apart_spec.
  - intros from name dir real Hn Hl Hr.
    destruct (needed_handled installDir all_real Hfin (own_roots own) seen c from name Hinv Hn dir real Hl Hr) as (H1 & H2 & _ & H3). split.
    { intros Hd. apply list_elem_of_In, List.filter_In in Hd as [_ Ha]. apply apart_spec. cbn in Ha.
      apply andb_true_iff in Ha as [Hd Ha]. apply andb_true_iff in Ha as [Ha _].
      destruct H3 as [<- |H3]; [done|]. by rewrite H3 in Ha. }
    intros Hd Hreal Hid.
    assert (Hkeep : forall x, x ∈ c_roots c -> apart_from (module_roots pcwd exclude) x = true ->
              (forall y, realpath x = Ok y -> apart_from (module_roots pcwd exclude) y = true) ->
              x ∈ List.filter (fun r => forallb (apart_from (module_roots pcwd exclude)) (spellings c r)) (c_roots c)).
    { intros x Hx Hax Hy. apply list_elem_of_In, List.filter_In. split; [by apply list_elem_of_In|]. cbn. rewrite Hax. cbn.
      destruct (assoc x (c_realOf c)) as [y|] eqn:Ey; cbn; [rewrite (Hy y (Hre x y Ey)); done|by rewrite Hax]. }
    split; apply Hkeep; try done; intros y Hy; congruence.
Qed.
End closure.

(** ** A module on a disk

    /m depends on a, installed inside it. *)
Definition demo_exists (p : string) : bool := String.eqb p "/m/node_modules/a/package.json".
Definition demo_realpath (p : string) : result string :=
  if demo_exists (path_join [p; "package.json"%string]) then Ok "/m/node_modules/a"%string
  else if String.eqb p "/m" then Ok "/m"%string else Throw (plain_error "missing").
Definition demo_read (p : string) : result string :=
  if String.eqb p "/m/package.json" then Ok "m"%string
  else if demo_exists p then Ok "a"%string else Throw (coded_error "ENOENT" "missing").
Definition demo_parse (text : string) : result jsval :=
  Ok (if String.eqb text "m" then JObj [("dependencies"%string, JObj [("a"%string, JStr "1.0.0")])] else JObj []).
Definition demo_dir (p : string) : result (list dirent) :=
  if String.eqb p "/m" then Ok [mkDirent "package.json" KFile; mkDirent "node_modules" KDir]
  else if String.eqb p "/m/node_modules" then Ok [mkDirent "a" KDir]
  else if String.eqb p "/m/node_modules/a" then Ok [mkDirent "package.json" KFile; mkDirent "index.js" KFile]
  else Throw (plain_error "missing").

Lemma demo_found fuel root d name c : find_dependency demo_exists fuel root d name = Some c -> is_ok (demo_realpath c) = true.
Proof.
  revert d. induction fuel as [|f IH]; intros d; [done|]. cbn [find_dependency].
  destruct (demo_exists (path_join [path_join [d; "node_modules"%string; name]; "package.json"%string])) eqn:E.
  - intros [= <-]. unfold demo_realpath. by rewrite E.
  - destruct (String.eqb d root); [done|]. apply IH.
Qed.

Lemma demo_shallow : shallow demo_dir 4 "/m".
Proof.
  assert (H : forall n d entries, demo_dir d = Ok entries ->
            (forall ent, ent ∈ entries -> de_kind ent = KDir -> shallow demo_dir n (path_join [d; de_name ent])) -> shallow demo_dir (S n) d).
  { intros n d entries E H es ent E' Hin. rewrite E in E'. injection E' as <-. by apply H. }
  apply (H 3%nat "/m"%string [mkDirent "package.json" KFile; mkDirent "node_modules" KDir]); [done|].
  intros ent Hin Hk. rewrite !elem_of_cons, elem_of_nil in Hin. destruct Hin as [->|[->|[]]]; [done|].
  apply (H 2%nat _ [mkDirent "a" KDir]); [done|].
  intros ent Hin' Hk'. rewrite !elem_of_cons, elem_of_nil in Hin'. destruct Hin' as [->|[]].
  apply (H 1%nat _ [mkDirent "package.json" KFile; mkDirent "index.js" KFile]); [done|].
  intros ent Hin'' Hk''. rewrite !elem_of_cons, elem_of_nil in Hin''. by destruct Hin'' as [->|[->|[]]].
Qed.

Lemma tree_check_exact_witness :
  checkTree demo_realpath demo_read demo_exists demo_dir demo_parse 3 4 "/" "/m" = Ok (mkReport [] []) /\
  exists r, installed demo_realpath demo_exists "/m" "/m" "a" r.
Proof.
  split; [vm_compute; reflexivity|].
  destruct (tree_check_exact demo_realpath demo_read demo_exists demo_dir demo_parse "/" "/m" "/m"
    ["/m"%string; "/m/node_modules/a"%string] 3 4) as (found & E & Hiff & _).
  - reflexivity.
  - intros p r. unfold demo_realpath at 1. destruct (demo_exists _); [by intros [= <-]|].
    destruct (String.eqb p "/m"); [by intros [= <-]|done].
  - intros p r. unfold demo_realpath. destruct (demo_exists _); [intros [= <-] _; set_solver|].
    destruct (String.eqb p "/m"); [intros [= <-] _; set_solver|done].
  - intros d name c. apply demo_found.
  - cbn. lia.
  - apply demo_shallow.
  - vm_compute in E. injection E as <-. apply Hiff; [reflexivity|constructor|]. vm_compute. by left.
Defined.

Lemma code_roots_exact_witness :
  exists roots, codeRootsFor demo_realpath demo_read demo_parse demo_exists (fun _ => ["/m/node_modules"%string]) 5 "/" "/m" ["/n"%string]
    = Some roots /\ "/m/node_modules/a"%string ∈ roots.
Proof.
  destruct (code_roots_exact demo_realpath demo_read demo_parse demo_exists (fun _ => ["/m/node_modules"%string]) "/" "/m" ["/n"%string]
    ["/m"%string; "/m/node_modules/a"%string] 5) as (roots & E & _ & Hall).
  - intros p r. unfold demo_realpath. destruct (demo_exists _); [intros [= <-]; set_solver|].
    destruct (String.eqb p "/m"); [intros [= <-]; set_solver|done].
  - vm_compute. lia.
  - exists roots. split; [exact E|].
    refine (proj1 (proj2 (Hall "/m" "a" "/m/node_modules/a" "/m/node_modules/a" _ _ _)%string _ _ _)); try reflexivity.
    constructor. vm_compute. by left.
Defined.
