(* ===== verification/SandboxConfig.v ===== *)
(** * What the sandbox decides before a module's worker starts
    (lib/module-sandbox-config.js)

    The module's tree is checked, its declaration narrowed by the operator's
    policy, and the worker's environment, heap and file permissions come out of
    that. The files are re-read at every spawn. *)
From Stdlib Require Import ZArith Ascii String.
From stdpp Require Import prelude strings.
From S2P Require Import Prelude Paths Json Host Permissions ModuleLoader Packages.

Set Default Proof Using "Type".

Section config.
Context (realpathSync readFileSync : string -> result string) (existsSync : string -> bool).
Context (readdirSync : string -> result (list dirent)) (JSON_parse : string -> result jsval).
(** The policy file as it reads; the walks' fuel; the process's directory. *)
Context (policy_file : string -> parsed_file) (packages dirs : nat) (pcwd : string).

(** [readPackage] *)
Definition readPackage (modulePath : string) : jsval * option string :=
  match (let! text := readFileSync (path_join [modulePath; "package.json"%string]) in JSON_parse text) with
  | Ok v => (v, None)
  | Throw e => (JNull, Some ("package.json could not be read: " +:+ e_message e))
  end.

Record build_opts := mkOpts { o_mode : string; o_modulePolicy : option string; o_serverEnv : list (string * string) }.

Record lockdown_config := mkLockdown { l_mode : string; l_moduleName : string; l_moduleRoot : string; l_net : list net_entry }.

Record sandbox := mkSandbox {
  s_refusal : option string;
  s_notes : list string;
  s_env : list (string * string);
  s_heapMb : option Z;
  s_fs : list fs_entry;
  s_lockdown : lockdown_config;
  s_limits : list (string * Z)
}.

Definition using_empty : string := " -- using an empty policy for this spawn".

(** The policy in force, and what is said when its file does not load. *)
Definition policy_of (modulePolicy : option string) : policy * list string :=
  match modulePolicy with
  | None => (EMPTY, [])
  | Some file => match load file (policy_file file) with
                 | Ok p => (p, [])
                 | Throw e => (EMPTY, [e_message e +:+ using_empty])
                 end
  end.

(** [policy.modules[key]], or null. *)
Definition entry_of_module (p : policy) (key : string) : jsval :=
  let v := default JUndef (assoc key (po_modules p)) in if is_nullish v then JNull else v.

Definition policy_key (pkg : jsval) (name : string) : string :=
  match jget "name" pkg with JStr n => n | _ => name end.

Definition all_problems (read_error : option string) (declared tree : list string) : list string :=
  match read_error with Some e => [e] | None => [] end ++ declared ++ tree.

(** [build]: none with the sandbox off. *)
Definition build (modulePath name : string) (opts : build_opts) : result (option sandbox) :=
  if String.eqb (o_mode opts) "off" then Ok None
  else
    let! moduleRoot := realpathSync (resolve pcwd [modulePath]) in
    let '(pkg, read_error) := readPackage moduleRoot in
    let '(declared, decl_problems) := parseDeclaration pkg in
    let! tree := checkTree realpathSync readFileSync existsSync readdirSync JSON_parse packages dirs pcwd moduleRoot in
    let problems := all_problems read_error decl_problems (r_problems tree) in
    let '(pol, notes) := policy_of (o_modulePolicy opts) in
    let entry := entry_of_module pol (policy_key pkg name) in
    let! eff := narrow declared entry (po_limits pol) (o_mode opts) in
    Ok (Some (mkSandbox
      (if is_nil problems then None else Some (join "; " problems))
      (notes ++ p_ignored eff ++ map (fun w => "warning: " +:+ w) (r_warnings tree))
      (resolveEnv (p_envNames eff) (p_envOverrides eff) (o_serverEnv opts))
      (assoc "heapMb" (p_limits eff))
      (p_fs eff)
      (mkLockdown (o_mode opts) name moduleRoot (p_net eff))
      (p_limits eff))).

(** ** Lemmas *)

Lemma entry_of_empty key : entry_of_module EMPTY key = JNull.
Proof. done. Qed.

(** A policy in force is one that narrows anything. *)
Lemma policy_narrows modulePolicy declared key mode :
  is_ok (narrow declared (entry_of_module (policy_of modulePolicy).1 key) (po_limits (policy_of modulePolicy).1) mode) = true.
Proof.
  unfold policy_of. destruct modulePolicy as [file|]; [|done]. destruct (load file (policy_file file)) as [p|e] eqn:El; [|done].
  cbn [fst]. apply (loaded_narrows file (policy_file file) p declared key); [done|]. unfold entry_of_module.
  destruct (assoc key (po_modules p)) as [v|]; [|by right]. cbn. destruct (is_nullish v) eqn:En; [by right|by left].
Qed.

(** The environment has only the names it is made of, each with its override or
    the server's value. *)
Lemma resolveEnv_spec names overrides server name v :
  assoc name (resolveEnv names overrides server) = Some v ->
  name ∈ names /\ (assoc name overrides = Some v \/ (assoc name overrides = None /\ assoc name server = Some v)).
Proof.
  unfold resolveEnv.
  enough (H : forall out, assoc name (fold_left (fun out name => match assoc name overrides with
      | Some v => assoc_set name v out
      | None => match assoc name server with Some v => assoc_set name v out | None => out end end) names out) = Some v ->
      assoc name out = Some v \/ name ∈ names /\ (assoc name overrides = Some v \/ (assoc name overrides = None /\ assoc name server = Some v))).
  { intros Ha. destruct (H [] Ha) as [[=]|]; done. }
  induction names as [|n names IH]; intros out Ha; [by left|]. cbn in Ha. apply IH in Ha as [Ha|[Hin Hv]]; [|right; split; [by right|done]].
  destruct (assoc n overrides) as [o|] eqn:Eo; [|destruct (assoc n server) as [x|] eqn:Es]; try (by left);
    rewrite assoc_set_lookup in Ha; destruct (String.eqb_spec name n) as [->|_]; try (by left); injection Ha as ->;
    right; (split; [by left|]); [by left|by right].
Qed.

(** ** The decision *)

End config.

