(* ===== verification/ModuleManager.v ===== *)
(** * The module manager of the main thread (lib/module-manager.js)

    Loading, reloading, restarting and unloading modules under worker threads:
    the workers spawned and what each was asked to load, the map of loaded
    modules, the unloads under way, the supervisor's records, and the count of
    modules discovered. A worker is known by its place in the list of spawns.
    Everything the manager waits for -- the name's lock, a worker's replies, its
    exit, a timer -- is an event; the lock itself is Lifecycle.v's. *)
From Stdlib Require Import ZArith Lia Ascii String.
From stdpp Require Import prelude strings gmap.
From S2P Require Import Prelude Paths Json Errors Permissions Supervisor ModuleLoader Packages SandboxConfig.

Set Default Proof Using "Type".

(** ** State *)

(** Whose callback a spawn's is: a request's, the start-up list's next, or the
    supervisor's restart of a record. *)
Inductive caller := Request (n : nat) | Startup | Restarted (record : nat).

(** Where a spawn is: waiting for its name's lock; for its broker; its worker
    asked to set options; its device config being read; the worker asked to
    load; loaded; over, with a worker or before there was one. *)
Inductive stage := Locked | Preparing | SettingOptions | ReadingConfig | Loading | Loaded | Over | Refused.

#[export] Instance stage_eq_dec : EqDecision stage.
Proof. solve_decision. Defined.

Record spawn := mkSpawn {
  sp_name : string;
  sp_path : string;
  sp_version : option string;
  sp_caller : caller;
  sp_stage : stage;
  sp_called : bool;                    (* the callback has been called *)
  sp_exitReason : option string;
  sp_killReason : option string;
  sp_unloading : bool;
  sp_exited : bool;
  sp_terminated : bool;                (* told to terminate *)
  sp_dropped : bool;                   (* taken off the map by a reload that failed *)
  sp_discovering : bool;               (* a discover message without its reply *)
  sp_online : option (string * option string)   (* the path and version a device of it came online with *)
}.

(** What an unload does once its worker is gone. *)
Inductive continuation :=
| AnswerUnload (request : nat)
| ThenSpawn (path name : string) (version : option string) (c : caller)
| ThenLoad (path name : string) (version : option string) (c : caller).

Record unload := mkUnload { un_worker : nat; un_name : string; un_then : continuation; un_finished : bool; un_over : bool }.

Record mm := mkMm {
  modules : list (string * nat);
  spawns : list spawn;
  unloads : list unload;
  sup : option supervisor;
  noofTotalModules : nat;
  noofLoadedModules : nat;
  startup : list (string * string * option string);    (* what [eachSeries] has left *)
  startup_ready : bool                                  (* its next item may start *)
}.

Definition with_modules (m : list (string * nat)) (s : mm) : mm :=
  mkMm m (spawns s) (unloads s) (sup s) (noofTotalModules s) (noofLoadedModules s) (startup s) (startup_ready s).
Definition with_spawns (x : list spawn) (s : mm) : mm :=
  mkMm (modules s) x (unloads s) (sup s) (noofTotalModules s) (noofLoadedModules s) (startup s) (startup_ready s).
Definition with_unloads (x : list unload) (s : mm) : mm :=
  mkMm (modules s) (spawns s) x (sup s) (noofTotalModules s) (noofLoadedModules s) (startup s) (startup_ready s).
Definition with_sup (x : option supervisor) (s : mm) : mm :=
  mkMm (modules s) (spawns s) (unloads s) x (noofTotalModules s) (noofLoadedModules s) (startup s) (startup_ready s).
Definition with_loaded (n : nat) (s : mm) : mm :=
  mkMm (modules s) (spawns s) (unloads s) (sup s) (noofTotalModules s) n (startup s) (startup_ready s).
Definition with_startup (total : nat) (l : list (string * string * option string)) (ready : bool) (s : mm) : mm :=
  mkMm (modules s) (spawns s) (unloads s) (sup s) total (noofLoadedModules s) l ready.

Inductive effect :=
| CallBack (request : nat) (err : option cherr)
| SpawnDone (i : nat) (err : option cherr)         (* a spawn's callback, whosever it is *)
| Purge (i : nat) (reason : string)                (* [emit('purgedevice')] *)
| Terminate (i : nat)
| SendSetOptions (i : nat)
| SendLoadModule (i : nat)
| SendDiscover (i : nat)
| SendUnload (i : nat)
| WorkerLoaded (i : nat)
| ModuleDiscovering
| AllModuleDiscovered
| ReportExit (name reason : string).              (* [supervisor.exited] *)

(** A handler's end: the state, and what it did on the way. *)
Definition res : Type := mm * list effect.
Definition andThen (r : res) (f : mm -> res) : res := let '(s, e) := r in let '(s', e') := f s in (s', e ++ e').
Definition tell (e : list effect) (s : mm) : res := (s, e).
Notation "r >>> f" := (andThen r f) (at level 61, left associativity).

(** A change of one spawn. *)
Definition upd (i : nat) (f : spawn -> spawn) (s : mm) : mm := with_spawns (alter f i (spawns s)) s.

Definition set_stage (st : stage) (p : spawn) : spawn :=
  mkSpawn (sp_name p) (sp_path p) (sp_version p) (sp_caller p) st (sp_called p) (sp_exitReason p) (sp_killReason p) (sp_unloading p)
    (sp_exited p) (sp_terminated p) (sp_dropped p) (sp_discovering p) (sp_online p).
Definition set_called (p : spawn) : spawn :=
  mkSpawn (sp_name p) (sp_path p) (sp_version p) (sp_caller p) (sp_stage p) true (sp_exitReason p) (sp_killReason p) (sp_unloading p)
    (sp_exited p) (sp_terminated p) (sp_dropped p) (sp_discovering p) (sp_online p).
Definition set_exitReason (r : string) (p : spawn) : spawn :=
  mkSpawn (sp_name p) (sp_path p) (sp_version p) (sp_caller p) (sp_stage p) (sp_called p) (Some r) (sp_killReason p) (sp_unloading p)
    (sp_exited p) (sp_terminated p) (sp_dropped p) (sp_discovering p) (sp_online p).
Definition set_killReason (r : string) (p : spawn) : spawn :=
  mkSpawn (sp_name p) (sp_path p) (sp_version p) (sp_caller p) (sp_stage p) (sp_called p) (sp_exitReason p) (Some r) (sp_unloading p)
    (sp_exited p) true (sp_dropped p) (sp_discovering p) (sp_online p).
Definition set_unloading (p : spawn) : spawn :=
  mkSpawn (sp_name p) (sp_path p) (sp_version p) (sp_caller p) (sp_stage p) (sp_called p) (sp_exitReason p) (sp_killReason p) true
    (sp_exited p) (sp_terminated p) (sp_dropped p) (sp_discovering p) (sp_online p).
Definition set_exited (p : spawn) : spawn :=
  mkSpawn (sp_name p) (sp_path p) (sp_version p) (sp_caller p) (sp_stage p) (sp_called p) (sp_exitReason p) (sp_killReason p)
    (sp_unloading p) true (sp_terminated p) (sp_dropped p) (sp_discovering p) (sp_online p).
Definition set_terminated (p : spawn) : spawn :=
  mkSpawn (sp_name p) (sp_path p) (sp_version p) (sp_caller p) (sp_stage p) (sp_called p) (sp_exitReason p) (sp_killReason p)
    (sp_unloading p) (sp_exited p) true (sp_dropped p) (sp_discovering p) (sp_online p).
Definition set_dropped (p : spawn) : spawn :=
  mkSpawn (sp_name p) (sp_path p) (sp_version p) (sp_caller p) (sp_stage p) (sp_called p) (sp_exitReason p) (sp_killReason p)
    (sp_unloading p) (sp_exited p) (sp_terminated p) true (sp_discovering p) (sp_online p).
Definition set_discovering (b : bool) (p : spawn) : spawn :=
  mkSpawn (sp_name p) (sp_path p) (sp_version p) (sp_caller p) (sp_stage p) (sp_called p) (sp_exitReason p) (sp_killReason p)
    (sp_unloading p) (sp_exited p) (sp_terminated p) (sp_dropped p) b (sp_online p).
Definition set_online (o : string * option string) (p : spawn) : spawn :=
  mkSpawn (sp_name p) (sp_path p) (sp_version p) (sp_caller p) (sp_stage p) (sp_called p) (sp_exitReason p) (sp_killReason p)
    (sp_unloading p) (sp_exited p) (sp_terminated p) (sp_dropped p) (sp_discovering p) (Some o).

Definition lookup_module (name : string) (s : mm) : option nat := assoc name (modules s).

(** The worker of a spawn has been started. *)
Definition started (p : spawn) : bool :=
  match sp_stage p with Locked | Preparing | Refused => false | _ => true end.

Definition new_manager (supervised : option Z) : mm := mkMm [] [] [] (option_map new_supervisor supervised) 0 0 [] false.

(** ** Counting what has been discovered *)

(** [noofLoadedModules ++], held to the total, and the event once it is met. *)
Definition count_module (s : mm) : res :=
  let n := S (noofLoadedModules s) in
  let n := if (0 <? noofTotalModules s)%nat && (noofTotalModules s <? n)%nat then noofTotalModules s else n in
  let s := with_loaded n s in
  (s, if (noofTotalModules s =? 0)%nat || (n =? noofTotalModules s)%nat then [AllModuleDiscovered] else []).

Section manager.
Context (ErrorInfo : string -> option string).
(** --hardened, its module root, and the host's real paths; package.json. *)
Context (hardened : bool) (modulesRoot pcwd : string) (realpathSync readFileSync : string -> result string).
Context (existsSync semver_valid : string -> bool) (JSON_parse : string -> result jsval).
(** The sandbox's mode, and its decision for a path and a name. *)
Context (moduleSandbox : string) (build : string -> string -> result (option sandbox)).

(** ** Checks at each way in *)

Definition real (p : string) : string := match realpathSync p with Ok r => r | Throw _ => resolve pcwd [p] end.
Definition insideRoot (modulePath root : string) : bool := under (real modulePath) (real root).

Definition outsideHardenedRoot (modulePath : string) : option cherr :=
  if negb hardened || insideRoot modulePath modulesRoot then None
  else Some (CHError "MODULE_PATH_OUTSIDE_ROOT" [JStr modulePath]).

(** What package.json says: [None] when it cannot be read. *)
Definition packageOf (modulePath : string) : result jsval :=
  let! text := readFileSync (path_join [modulePath; "package.json"%string]) in JSON_parse text.

Definition nameMismatch (modulePath name : string) : option cherr :=
  match packageOf modulePath with
  | Throw _ => None
  | Ok pkg => match jget "name" pkg with
              | JStr n => if String.eqb n name then None else Some (CHError "MODULE_NAME_MISMATCH" [JStr name; JStr n])
              | _ => None
              end
  end.

(** ** Callbacks *)

Definition is_refusal (e : cherr) : bool := strict_eq (c_code e) (JStr "MODULE_SANDBOX_REFUSED").

(** A spawn's callback is its caller's: a request's answer; for the start-up
    list, a failure counts as discovered and the next item may start; for a
    restart, a failure is the supervisor's to deal with. *)
Definition answer_caller (name : string) (c : caller) (err : option cherr) (s : mm) : res :=
  match c with
  | Request n => (s, [CallBack n err])
  | Startup =>
      let s := with_startup (noofTotalModules s) (startup s) true s in
      match err with Some _ => count_module s | None => (s, []) end
  | Restarted id =>
      match err, sup s with
      | Some e, Some u =>
          (with_sup (Some (restart_failed name id (is_refusal e) (message_of ErrorInfo e) u)) s,
           if isCurrent name id u && negb (is_refusal e) then [ReportExit name ("restart failed: " +:+ message_of ErrorInfo e)] else [])
      | _, _ => (s, [])
      end
  end.

(** [done]: the first call only. *)
Definition done_ (i : nat) (err : option cherr) (s : mm) : res :=
  match spawns s !! i with
  | Some p => if sp_called p then (s, [])
              else (upd i set_called s, [SpawnDone i err]) >>> answer_caller (sp_name p) (sp_caller p) err
  | None => (s, [])
  end.

(** ** Spawning *)

Definition LOAD_MODULE_FAIL (name m : string) : cherr := CHError "LOAD_MODULE_FAIL" [JStr name; JStr m].

(** What [spawnModuleWorker] refuses before it waits for the lock. *)
Definition spawn_refusal (path name : string) : option cherr :=
  match outsideHardenedRoot path with
  | Some e => Some e
  | None =>
      match nameMismatch path name with
      | Some e => Some e
      | None =>
          match build path name with
          | Throw e => Some (LOAD_MODULE_FAIL name (e_message e))
          | Ok (Some b) => match s_refusal b with
                           | Some r => if String.eqb moduleSandbox "enforce"
                                       then Some (CHError "MODULE_SANDBOX_REFUSED" [JStr name; JStr r]) else None
                           | None => None
                           end
          | Ok None => None
          end
      end
  end.

Definition new_spawn (path name : string) (version : option string) (c : caller) (st : stage) : spawn :=
  mkSpawn name path version c st false None None false false false false false None.

(** [spawnModuleWorker]; [c] is [Restarted] exactly when [stillWanted] is given. *)
Definition spawnModuleWorker (path name : string) (version : option string) (c : caller) (s : mm) : res :=
  let i := length (spawns s) in
  match spawn_refusal path name with
  | Some e => done_ i (Some e) (with_spawns (spawns s ++ [new_spawn path name version c Refused]) s)
  | None => (with_spawns (spawns s ++ [new_spawn path name version c Locked]) s, [])
  end.

Definition is_restart (c : caller) : bool := match c with Restarted _ => true | _ => false end.

(** The name's worker that has not exited. *)
Definition live_of (name : string) (p : spawn) : bool := started p && negb (sp_exited p) && String.eqb (sp_name p) name.
Definition live (name : string) (s : mm) : option nat := option_map fst (list_find (fun p => live_of name p = true) (spawns s)).

Definition superseded : cherr := Error_ "module sandbox: restart superseded by an operator action".

(** The spawn's turn under the lock. *)
Definition enter_lock (i : nat) (s : mm) : res :=
  match spawns s !! i with
  | Some p =>
      if bool_decide (sp_stage p = Locked) then
        match live (sp_name p) s with
        | Some w => if is_restart (sp_caller p) then (upd i (set_stage Refused) s, []) >>> done_ i (Some superseded)
                    else (upd w set_terminated (upd i (set_stage Preparing) s), [Terminate w])
        | None => (upd i (set_stage Preparing) s, [])
        end
      else (s, [])
  | None => (s, [])
  end.

(** Why there is no worker: it could not be started, the broker's own check
    refused the module, or the broker could not be made. *)
Inductive prep_failure := StartFailed (m : string) | BrokerRefused (m : string) | BrokerFailed (m : string).

Definition prep_error (name : string) (f : prep_failure) : cherr :=
  match f with
  | StartFailed m => LOAD_MODULE_FAIL name m
  | BrokerRefused m => CHError "MODULE_SANDBOX_REFUSED" [JStr name; JStr m]
  | BrokerFailed m => LOAD_MODULE_FAIL name ("file broker: " +:+ m)
  end.

(** Once no worker of the name is left ([lifecycle.settled]), the broker is made
    and the worker started. *)
Definition prepared (i : nat) (failure : option prep_failure) (s : mm) : res :=
  match spawns s !! i with
  | Some p =>
      if bool_decide (sp_stage p = Preparing) && negb (bool_decide (is_Some (live (sp_name p) s))) then
        match failure with
        | Some f => (upd i (set_stage Refused) s, []) >>> done_ i (Some (prep_error (sp_name p) f))
        | None => (upd i (set_stage SettingOptions) s, [SendSetOptions i])
        end
      else (s, [])
  | None => (s, [])
  end.

(** ** The map of modules *)

(** [onModuleLoad], with a worker as the module. *)
Definition onModuleLoad (name : string) (i : nat) (s : mm) : res :=
  (match lookup_module name s with
   | Some m => (with_modules (assoc_set name i (modules s)) (if bool_decide (m = i) then s else upd m set_terminated s),
                Purge m "MODULE RELOADED" :: (if bool_decide (m = i) then [] else [Terminate m]))
   | None => (with_modules (assoc_set name i (modules s)) s, [])
   end) >>> fun s => (upd i (set_discovering true) s, [ModuleDiscovering; SendDiscover i]).

(** [unloadModule] and [onModuleUnload]: whichever module has the name. *)
Definition unloadModule (name reason : string) (s : mm) : res :=
  match lookup_module name s with
  | Some m => (with_modules (assoc_delete name (modules s)) s, [Purge m reason])
  | None => (s, [])
  end.

(** A discover message's reply. *)
Definition discover_reply (i : nat) (s : mm) : res :=
  match spawns s !! i with
  | Some p =>
      if sp_discovering p then
        let s := upd i (set_discovering false) s in
        match lookup_module (sp_name p) s with Some _ => count_module s | None => (s, []) end
      else (s, [])
  | None => (s, [])
  end.

(** ** Loading in a worker *)

Definition options_reply (i : nat) (err : option cherr) (s : mm) : res :=
  match spawns s !! i with
  | Some p =>
      if bool_decide (sp_stage p = SettingOptions) then
        match err with
        | Some e => (upd i set_terminated (upd i (set_stage Over) s), [Terminate i]) >>> done_ i (Some e)
        | None => (upd i (set_stage ReadingConfig) s, [])
        end
      else (s, [])
  | None => (s, [])
  end.

(** The device config is there; a message to a worker that has ended is
    answered at once, and its answer left aside. *)
Definition config_read (i : nat) (s : mm) : res :=
  match spawns s !! i with
  | Some p =>
      if bool_decide (sp_stage p = ReadingConfig) then
        if sp_exited p then (upd i (set_stage Over) s, []) else (upd i (set_stage Loading) s, [SendLoadModule i])
      else (s, [])
  | None => (s, [])
  end.

Definition still_wanted (name : string) (c : caller) (s : mm) : bool :=
  match c, sup s with
  | Restarted id, Some u => isCurrent name id u
  | Restarted _, None => false
  | _, _ => true
  end.

Definition load_reply (i : nat) (err : option cherr) (s : mm) : res :=
  match spawns s !! i with
  | Some p =>
      if bool_decide (sp_stage p = Loading) then
        if sp_called p then (upd i (set_stage Over) s, [])
        else
          match err with
          | Some e => (upd i set_terminated (upd i (set_stage Over) s), [Terminate i]) >>> done_ i (Some e)
          | None =>
              if negb (still_wanted (sp_name p) (sp_caller p) s)
              then (upd i set_terminated (upd i (set_stage Over) s), [Terminate i]) >>> done_ i (Some superseded)
              else
                (upd i (set_stage Loaded)
                   (with_sup (option_map (track (sp_name p) (Some (sp_path p)) (sp_version p)) (sup s)) s), [WorkerLoaded i])
                >>> onModuleLoad (sp_name p) i >>> done_ i None
          end
      else (s, [])
  | None => (s, [])
  end.

(** ** Unloading and what follows it *)

(** [loadModuleByWorker] and [unloadModuleExternal], for a worker of the map:
    the unload is told to the worker, and what comes next waits for its end. *)
Definition begin_unload (w : nat) (name : string) (next : continuation) (s : mm) : res :=
  (with_unloads (unloads s ++ [mkUnload w name next false false]) (upd w set_unloading s), [SendUnload w]).

Definition clear_sup (name : string) (s : mm) : mm := with_sup (option_map (clear name) (sup s)) s.

Definition loadModuleByWorker (path name : string) (version : option string) (c : caller) (s : mm) : res :=
  let s := clear_sup name s in
  match lookup_module name s with
  | None => spawnModuleWorker path name version c s
  | Some w => begin_unload w name (ThenSpawn path name version c) s
  end.

Definition run_next (next : continuation) (s : mm) : res :=
  match next with
  | AnswerUnload n => (s, [CallBack n None])
  | ThenSpawn path name version c => spawnModuleWorker path name version c s
  | ThenLoad path name version c => loadModuleByWorker path name version c s
  end.

Definition set_finished (u : unload) : unload := mkUnload (un_worker u) (un_name u) (un_then u) true (un_over u).
Definition set_over (u : unload) : unload := mkUnload (un_worker u) (un_name u) (un_then u) (un_finished u) true.

(** [finish] of an unload: the worker's answer or the timer, whichever is first. *)
Definition finish_unload (u : nat) (s : mm) : res :=
  match unloads s !! u with
  | Some x =>
      if un_finished x then (s, [])
      else unloadModule (un_name x) "CLEANUP MODULE INFO IN MAIN THREAD" (with_unloads (alter set_finished u (unloads s)) s)
           >>> fun s => (upd (un_worker x) set_terminated s, [Terminate (un_worker x)])
  | None => (s, [])
  end.

(** [terminate()] has resolved: the worker has exited. *)
Definition terminated (u : nat) (s : mm) : res :=
  match unloads s !! u with
  | Some x =>
      match spawns s !! un_worker x with
      | Some p =>
          if un_finished x && negb (un_over x) && sp_exited p
          then run_next (un_then x) (with_unloads (alter set_over u (unloads s)) s) else (s, [])
      | None => (s, [])
      end
  | None => (s, [])
  end.

(** ** A worker's end *)

(** [onUnexpectedExit]: the first event of an end decides the reason; [specs]
    are the worker's devices. *)
Definition onUnexpectedExit (i : nat) (reason offText : string) (specs : list (string * jsval)) (s : mm) : res :=
  match spawns s !! i with
  | Some p =>
      match sp_exitReason p with
      | Some _ => (s, [])
      | None =>
          let why := default reason (sp_killReason p) in
          let s := upd i (set_exitReason why) s in
          if negb (bool_decide (sp_stage p = Loaded))
          then done_ i (Some (LOAD_MODULE_FAIL (sp_name p) ("worker ended while loading: " +:+ why))) s
          else if negb (bool_decide (lookup_module (sp_name p) s = Some i)) || sp_unloading p then (s, [])
          else
            unloadModule (sp_name p) (match sup s with None => offText | Some _ => "WORKER EXIT: " +:+ why end) s
            >>> fun s => match sup s with
                         | None => (s, [])
                         | Some u => (with_sup (Some (exited (sp_name p) why specs u).1) s, [ReportExit (sp_name p) why])
                         end
      end
  | None => (s, [])
  end.

Definition worker_error (i : nat) (heap : bool) (message : string) (specs : list (string * jsval)) (s : mm) : res :=
  match spawns s !! i with
  | Some p =>
      if started p && negb (sp_exited p) then
        onUnexpectedExit i (if heap then "heap limit" else "crash: " +:+ message) ("ERROR MESSAGE FROM WORKER: " +:+ message) specs s
      else (s, [])
  | None => (s, [])
  end.

Fixpoint for_all (l : list nat) (f : nat -> mm -> res) (s : mm) : res :=
  match l with [] => (s, []) | x :: l => f x s >>> for_all l f end.

(** The unloads still waiting for a worker's answer. *)
Definition waiting_unloads (i : nat) (s : mm) : list nat :=
  List.filter (fun u => match unloads s !! u with
                        | Some x => bool_decide (un_worker x = i) && negb (un_finished x)
                        | None => false
                        end) (seq 0 (length (unloads s))).

(** [endWith]: what the worker still owed an answer is answered: the options, the
    load (both after the callback, so left aside), a discover, the unloads. *)
Definition end_with (i : nat) (err : cherr) (s : mm) : res :=
  options_reply i (Some err) s >>> load_reply i (Some err) >>> discover_reply i
  >>> fun s => for_all (waiting_unloads i s) finish_unload s.

Definition worker_exit (i : nat) (code : string) (err : cherr) (specs : list (string * jsval)) (s : mm) : res :=
  match spawns s !! i with
  | Some p =>
      if started p && negb (sp_exited p) then
        (upd i set_exited s, [])
        >>> onUnexpectedExit i ("exit code " +:+ code) ("WORKER EXIT WITH CODE: " +:+ code) specs
        >>> end_with i err
      else (s, [])
  | None => (s, [])
  end.

(** ** Requests *)

(** [loadModuleFromPath], on the main thread *)
Definition loadModuleFromPath (path name : string) (version : option string) (c : caller) (s : mm) : res :=
  match outsideHardenedRoot path with
  | Some e => answer_caller name c (Some e) s
  | None => match nameMismatch path name with
            | Some e => answer_caller name c (Some e) s
            | None => loadModuleByWorker path name version c s
            end
  end.

Definition unloadModuleExternal (name : string) (n : nat) (s : mm) : res :=
  let wasSupervised := match sup s with Some u => bool_decide (is_Some (status name u)) | None => false end in
  let s := clear_sup name s in
  match lookup_module name s with
  | Some w => begin_unload w name (AnswerUnload n) s
  | None => (s, [CallBack n (if wasSupervised then None else Some (CHError "UNLOAD_MODULE_FAIL" [JStr "unknown module"; JStr name]))])
  end.

(** What is recorded, or running: the path and version a restart takes when it
    is given none. *)
Definition restart_target (path : option string) (version : option string) (record : option (option string * option string))
    (m : option spawn) : option string * option string :=
  let online := m ≫= sp_online in
  (match path with
   | Some p => Some p
   | None => match record with Some (p, _) => p | None => option_map fst online end
   end,
   match version with
   | Some v => Some v
   | None => match record with Some (_, v) => v | None => online ≫= snd end
   end).

Definition restartModule (path : option string) (name : string) (version : option string) (n : nat) (s : mm) : res :=
  let m := lookup_module name s in
  let record := match sup s with Some u => recorded name u | None => None end in
  match m, record with
  | None, None => (s, [CallBack n (Some (CHError "RESTART_MODULE_FAIL" [JStr "unknown module"; JStr name]))])
  | _, _ =>
      let '(path, version) := restart_target path version record (m ≫= fun i => spawns s !! i) in
      match path with
      | Some p =>
          if existsSync p then
            match outsideHardenedRoot p with
            | Some e => (s, [CallBack n (Some e)])
            | None => match m with
                      | None => loadModuleByWorker p name version (Request n) s
                      | Some w => begin_unload w name (ThenLoad p name version (Request n)) (clear_sup name s)
                      end
            end
          else (s, [CallBack n (Some (CHError "INVALID_MODULE_PATH" [JStr p]))])
      | None => (s, [CallBack n (Some (CHError "INVALID_MODULE_PATH" [JUndef]))])
      end
  end.

Definition version_valid (v : jsval) : bool := match v with JStr t => semver_valid t | _ => false end.

(** [reloadModule], under worker threads. An unreadable package.json has named
    nothing to unload; the error's stack is left out. *)
Definition reloadModule (path : string) (n : nat) (s : mm) : res :=
  if negb (existsSync path) then (s, [CallBack n (Some (CHError "INVALID_MODULE_PATH" [JStr path]))])
  else match outsideHardenedRoot path with
  | Some e => (s, [CallBack n (Some e)])
  | None =>
      match packageOf path with
      | Throw e => (s, [CallBack n (Some (CHError "LOAD_MODULE_FAIL" [JStr (e_message e)]))])
      | Ok pkg =>
          if is_nullish pkg then (s, [CallBack n (Some (CHError "LOAD_MODULE_FAIL" [JStr "Cannot read properties of null"]))])
          else
            match jget "name" pkg with
            | JStr name =>
                let version := jget "version" pkg in
                if version_valid version
                then loadModuleByWorker path name (match version with JStr v => Some v | _ => None end) (Request n) s
                else
                  (match lookup_module name s with Some w => upd w set_dropped s | None => s end, [])
                  >>> unloadModule name "RELOAD MODULE FAIL DUE TO INVALID VERSION STRING"
                  >>> tell [CallBack n (Some (CHError "MODULE_VERSION_INFO_INVALID" [version]))]
            | v => (s, [CallBack n (Some (CHError "MODULE_PACKAGE_NAME_TYPE_ERROR" [v]))])
            end
      end
  end.

(** The supervisor's timer: a due one asks for a spawn of its record. *)
Definition restart_fires (name : string) (s : mm) : res :=
  match sup s with
  | None => (s, [])
  | Some u =>
      let u' := fire name u in
      let s := with_sup (Some u') s in
      if (length (restarts u) <? length (restarts u'))%nat then
        match assoc name (records u') with
        | Some r => match r_modulePath r with
                    | Some p => spawnModuleWorker p name (r_version r) (Restarted (r_id r)) s
                    | None => (s, [])
                    end
        | None => (s, [])
        end
      else (s, [])
  end.

(** ** Start-up *)

Definition item : Type := string * string * option string.

(** [getModuleInfoFromPath]: those whose package.json reads, and names them. *)
Definition module_info (path : string) : option item :=
  if existsSync path && existsSync (path +:+ "/package.json") then
    match packageOf path with
    | Ok pkg => match jget "name" pkg with
                | JStr name => Some (path, name, match jget "version" pkg with JStr v => Some v | _ => None end)
                | _ => None
                end
    | Throw _ => None
    end
  else None.

Definition getModuleInfoFromPath (paths : list string) : list item := omap module_info paths.

(** [loadAllModules]: no module at all has been discovered at once. *)
Definition loadAllModules (info : list item) (s : mm) : res :=
  let s := with_startup (length info) info true s in
  (s, if is_nil info then [AllModuleDiscovered] else []).

(** [eachSeries]: the next item, once the one before has called back. *)
Definition next_startup (s : mm) : res :=
  match startup_ready s, startup s with
  | true, (path, name, version) :: rest =>
      loadModuleFromPath path name version Startup (with_startup (noofTotalModules s) rest false s)
  | _, _ => (s, [])
  end.

(** ** Events *)

Inductive event :=
| StartUp (info : list item)
| NextStartup
| LoadModule (path name : string) (version : option string) (n : nat)
| UnloadModule (name : string) (n : nat)
| RestartModule (path : option string) (name : string) (version : option string) (n : nat)
| ReloadModule (path : string) (n : nat)
| EntersLock (i : nat)
| Prepared (i : nat) (failure : option prep_failure)
| OptionsReply (i : nat) (err : option cherr)
| ConfigRead (i : nat)
| LoadReply (i : nat) (err : option cherr)
| DiscoverReply (i : nat)
| Online (i : nat) (path : string) (version : option string)
| Killed (i : nat) (reason : string)
| WorkerError (i : nat) (heap : bool) (message : string) (specs : list (string * jsval))
| WorkerExit (i : nat) (code : string) (err : cherr) (specs : list (string * jsval))
| UnloadReply (u : nat)
| UnloadTimer (u : nat)
| Terminated (u : nat)
| RestartFires (name : string)
| Elapses (ms : nat).

Definition step (ev : event) (s : mm) : res :=
  match ev with
  | StartUp info => loadAllModules info s
  | NextStartup => next_startup s
  | LoadModule path name version n => loadModuleFromPath path name version (Request n) s
  | UnloadModule name n => unloadModuleExternal name n s
  | RestartModule path name version n => restartModule path name version n s
  | ReloadModule path n => reloadModule path n s
  | EntersLock i => enter_lock i s
  | Prepared i failure => prepared i failure s
  | OptionsReply i err => options_reply i err s
  | ConfigRead i => config_read i s
  | LoadReply i err => load_reply i err s
  | DiscoverReply i => discover_reply i s
  | Online i path version => (upd i (set_online (path, version)) s, [])
  | Killed i reason =>
      match spawns s !! i with
      | Some p => if started p && negb (sp_exited p) then (upd i (set_killReason reason) s, [Terminate i]) else (s, [])
      | None => (s, [])
      end
  | WorkerError i heap message specs => worker_error i heap message specs s
  | WorkerExit i code err specs => worker_exit i code err specs s
  | UnloadReply u | UnloadTimer u => finish_unload u s
  | Terminated u => terminated u s
  | RestartFires name => restart_fires name s
  | Elapses ms => (with_sup (option_map (Supervisor.step (Elapse ms)) (sup s)) s, [])
  end.

Fixpoint run (evs : list event) (s : mm) : res :=
  match evs with [] => (s, []) | ev :: evs => step ev s >>> run evs end.

(** ** Every request is answered once *)

Definition total {A} (f : A -> nat) (l : list A) : nat := sum_list (map f l).

Lemma total_alter {A} (f : A -> nat) (g : A -> A) (l : list A) i x :
  l !! i = Some x -> (total f (alter g i l) + f x = total f l + f (g x))%nat.
Proof.
  revert i. induction l as [|y l IH]; intros [|i] H; try done; unfold total in *; cbn in *.
  - injection H as ->. lia.
  - specialize (IH i H). cbn in IH. lia.
Qed.

Lemma total_alter_same {A} (f : A -> nat) (g : A -> A) (l : list A) i : (forall x, f (g x) = f x) -> total f (alter g i l) = total f l.
Proof.
  intros Hg. destruct (l !! i) as [x|] eqn:E; [pose proof (total_alter f g l i x E); rewrite Hg in *; lia|].
  assert (alter g i l = l) as ->; [|done]. revert i E. induction l as [|y l IH]; intros [|i] E; try done. cbn. f_equal. by apply IH.
Qed.

Lemma total_app {A} (f : A -> nat) (a b : list A) : total f (a ++ b) = (total f a + total f b)%nat.
Proof. unfold total. induction a; cbn; lia. Qed.

(** Where a request still waits: at a spawn that has not called back, or after an
    unload that is not over. *)
Definition is_request (n : nat) (c : caller) : nat := match c with Request m => if (m =? n)%nat then 1 else 0 | _ => 0 end.
Definition waits_spawn (n : nat) (p : spawn) : nat := if sp_called p then 0 else is_request n (sp_caller p).
Definition waits_next (n : nat) (next : continuation) : nat :=
  match next with
  | AnswerUnload m => if (m =? n)%nat then 1 else 0
  | ThenSpawn _ _ _ c | ThenLoad _ _ _ c => is_request n c
  end.
Definition waits_unload (n : nat) (x : unload) : nat := if un_over x then 0 else waits_next n (un_then x).
Definition waiting (n : nat) (s : mm) : nat := (total (waits_spawn n) (spawns s) + total (waits_unload n) (unloads s))%nat.

Definition answers (n : nat) (effs : list effect) : nat :=
  length (List.filter (fun e => match e with CallBack m _ => (m =? n)%nat | _ => false end) effs).

(** A handler answers the requests it is given, or leaves them waiting. *)
Definition conserves (n k : nat) (s : mm) (r : res) : Prop := (answers n r.2 + waiting n r.1 = waiting n s + k)%nat.

Lemma manager_answers_app n a b : answers n (a ++ b) = (answers n a + answers n b)%nat.
Proof. unfold answers. by rewrite List.filter_app, length_app. Qed.

Lemma conserves_then n k1 k2 s r f : conserves n k1 s r -> conserves n k2 r.1 (f r.1) -> conserves n (k1 + k2) s (r >>> f).
Proof.
  unfold conserves, andThen. destruct r as [s1 e1]. cbn [fst]. destruct (f s1) as [s2 e2]. cbn [fst snd].
  rewrite manager_answers_app. lia.
Qed.

(** A handler given no request, after any other. *)
Lemma conserves_then_0 n k s r f : conserves n k s r -> (forall s, conserves n 0 s (f s)) -> conserves n k s (r >>> f).
Proof. intros H Hf. rewrite <- (Nat.add_0_r k). by apply conserves_then. Qed.

Lemma waiting_upd n i f s : (forall p, waits_spawn n (f p) = waits_spawn n p) -> waiting n (upd i f s) = waiting n s.
Proof. intros Hf. unfold waiting, upd. cbn [spawns unloads with_spawns]. by rewrite (total_alter_same _ f). Qed.

Lemma conserves_quiet n s s' e : waiting n s' = waiting n s -> answers n e = 0%nat -> conserves n 0 s (s', e).
Proof. unfold conserves. cbn [fst snd]. lia. Qed.

Lemma waiting_modules n m s : waiting n (with_modules m s) = waiting n s.
Proof. done. Qed.
Lemma waiting_sup n u s : waiting n (with_sup u s) = waiting n s.
Proof. done. Qed.

(** Any setter but [set_called] leaves a spawn waiting as it was. *)
Ltac quiet := apply conserves_quiet; [repeat first [rewrite waiting_upd by done | rewrite waiting_modules | rewrite waiting_sup]; done|done].

Lemma count_conserves n s : conserves n 0 s (count_module s).
Proof. unfold count_module. apply conserves_quiet; [done|]. by case_match. Qed.

Lemma answer_caller_conserves n name c err s : conserves n (is_request n c) s (answer_caller name c err s).
Proof.
  unfold answer_caller. destruct c as [m| |id]; cbn [is_request].
  - unfold conserves, answers. cbn. destruct (m =? n)%nat; cbn; lia.
  - destruct err; [|quiet]. exact (count_conserves n (with_startup _ _ _ s)).
  - destruct err as [e|], (sup s) as [u|]; try quiet. apply conserves_quiet; [done|]. by case_match.
Qed.

(** The same, seen from a state in which the request waits elsewhere. *)
Lemma conserves_from n k k' s s' r :
  conserves n k' s' r -> (waiting n s' + k' = waiting n s + k)%nat -> conserves n k s r.
Proof. unfold conserves. lia. Qed.

Lemma conserves_told n k s e r : answers n e = 0%nat -> conserves n k s r -> conserves n k s ((s, e) >>> fun _ => r).
Proof. unfold conserves, andThen. destruct r. cbn [fst snd]. rewrite manager_answers_app. lia. Qed.

Lemma done_conserves n i err s : conserves n 0 s (done_ i err s).
Proof.
  unfold done_. destruct (spawns s !! i) as [p|] eqn:Ep; [|quiet]. destruct (sp_called p) eqn:Ec; [quiet|].
  eapply conserves_from; [apply (conserves_told n _ (upd i set_called s)); [done|apply answer_caller_conserves]|].
  unfold waiting, upd. cbn [spawns unloads with_spawns].
  pose proof (total_alter (waits_spawn n) set_called (spawns s) i p Ep) as Ht.
  change (waits_spawn n (set_called p)) with 0%nat in Ht. unfold waits_spawn at 2 in Ht. rewrite Ec in Ht. lia.
Qed.

Lemma waiting_spawned n p s : waiting n (with_spawns (spawns s ++ [p]) s) = (waiting n s + waits_spawn n p)%nat.
Proof. unfold waiting. cbn [spawns unloads with_spawns]. rewrite total_app. unfold total at 2. cbn. lia. Qed.

Lemma spawn_conserves n path name version c s :
  conserves n (is_request n c) s (spawnModuleWorker path name version c s).
Proof.
  unfold spawnModuleWorker. destruct (spawn_refusal path name) as [e|].
  - pose proof (done_conserves n (length (spawns s)) (Some e) (with_spawns (spawns s ++ [new_spawn path name version c Refused]) s)) as H.
    unfold conserves in *. rewrite waiting_spawned in H. unfold waits_spawn in H. cbn [sp_called sp_caller new_spawn] in H. lia.
  - unfold conserves. cbn [fst snd]. rewrite waiting_spawned. unfold waits_spawn. cbn [sp_called sp_caller new_spawn].
    change (answers n []) with 0%nat. lia.
Qed.

Lemma unloadModule_conserves n name reason s : conserves n 0 s (unloadModule name reason s).
Proof. unfold unloadModule. case_match; quiet. Qed.

Lemma onModuleLoad_conserves n name i s : conserves n 0 s (onModuleLoad name i s).
Proof.
  unfold onModuleLoad. apply (conserves_then_0 n 0); [|intros; quiet].
  case_match; [|quiet]. case_bool_decide; quiet.
Qed.

Lemma discover_conserves n i s : conserves n 0 s (discover_reply i s).
Proof.
  unfold discover_reply. destruct (spawns s !! i) as [p|]; [|quiet]. destruct (sp_discovering p); [|quiet].
  destruct (lookup_module _ _); [|quiet].
  pose proof (count_conserves n (upd i (set_discovering false) s)) as H. unfold conserves in *. by rewrite waiting_upd in H.
Qed.

(** An answer to a spawn's caller at the end of what is done about it. *)
Lemma then_done_conserves n s i err r : conserves n 0 s r -> conserves n 0 s (r >>> done_ i err).
Proof. intros H. apply (conserves_then_0 n 0); [done|]. intros. apply done_conserves. Qed.

Ltac step_conserves := repeat first [progress quiet | apply then_done_conserves | case_match].

Lemma enter_conserves n i s : conserves n 0 s (enter_lock i s).
Proof. unfold enter_lock. step_conserves. Qed.
Lemma prepared_conserves n i f s : conserves n 0 s (prepared i f s).
Proof. unfold prepared. step_conserves. Qed.
Lemma options_conserves n i err s : conserves n 0 s (options_reply i err s).
Proof. unfold options_reply. step_conserves. Qed.
Lemma config_conserves n i s : conserves n 0 s (config_read i s).
Proof. unfold config_read. step_conserves. Qed.
Lemma load_reply_conserves n i err s : conserves n 0 s (load_reply i err s).
Proof.
  unfold load_reply. step_conserves. apply (conserves_then_0 n 0); [quiet|]. intros. apply onModuleLoad_conserves.
Qed.

Lemma begin_conserves n w name next s : conserves n (waits_next n next) s (begin_unload w name next s).
Proof.
  unfold conserves, begin_unload. cbn [fst snd]. change (answers n [_]) with 0%nat. unfold waiting.
  cbn [spawns unloads with_unloads with_spawns upd]. rewrite total_app, (total_alter_same _ set_unloading) by done.
  unfold total at 3. cbn [map sum_list]. unfold waits_unload at 2. cbn [un_over un_then]. unfold sum_list, sum_list_with. cbn. lia.
Qed.

Lemma by_worker_conserves n path name version c s :
  conserves n (is_request n c) s (loadModuleByWorker path name version c s).
Proof.
  unfold loadModuleByWorker. case_match.
  - apply (begin_conserves n _ name (ThenSpawn path name version c) (clear_sup name s)).
  - apply (spawn_conserves n path name version c (clear_sup name s)).
Qed.

Lemma run_next_conserves n next s : conserves n (waits_next n next) s (run_next next s).
Proof.
  destruct next; cbn [run_next waits_next]; [|apply spawn_conserves|apply by_worker_conserves].
  unfold conserves, answers. cbn. destruct (_ =? n)%nat; cbn; lia.
Qed.

Lemma finish_conserves n u s : conserves n 0 s (finish_unload u s).
Proof.
  unfold finish_unload. destruct (unloads s !! u) as [x|] eqn:Ex; [|quiet]. destruct (un_finished x); [quiet|].
  apply (conserves_then_0 n 0); [|intros; quiet].
  pose proof (unloadModule_conserves n (un_name x) "CLEANUP MODULE INFO IN MAIN THREAD" (with_unloads (alter set_finished u (unloads s)) s)) as H.
  unfold conserves in *. unfold waiting at 2 in H. cbn [spawns unloads with_unloads] in H.
  by rewrite (total_alter_same _ set_finished) in H.
Qed.

Lemma terminated_conserves n u s : conserves n 0 s (terminated u s).
Proof.
  unfold terminated. destruct (unloads s !! u) as [x|] eqn:Ex; [|quiet]. destruct (spawns s !! un_worker x) as [p|]; [|quiet].
  destruct (un_finished x && negb (un_over x) && sp_exited p) eqn:E; [|quiet].
  apply andb_prop in E as [E _]. apply andb_prop in E as [_ Eo]. apply negb_true_iff in Eo.
  pose proof (run_next_conserves n (un_then x) (with_unloads (alter set_over u (unloads s)) s)) as H.
  pose proof (total_alter (waits_unload n) set_over (unloads s) u x Ex) as Ht.
  change (waits_unload n (set_over x)) with 0%nat in Ht. unfold waits_unload at 2 in Ht. rewrite Eo in Ht.
  unfold conserves in *. unfold waiting at 2 in H. unfold waiting at 2. cbn [spawns unloads with_unloads] in H. lia.
Qed.

Lemma unexpected_conserves n i reason off specs s : conserves n 0 s (onUnexpectedExit i reason off specs s).
Proof.
  unfold onUnexpectedExit. destruct (spawns s !! i) as [p|]; [|quiet]. destruct (sp_exitReason p); [quiet|].
  set (why := default reason _). set (s1 := upd i (set_exitReason why) s).
  assert (forall r, conserves n 0 s1 r -> conserves n 0 s r) as Hs.
  { intros r H. eapply conserves_from; [exact H|]. unfold s1. by rewrite waiting_upd. }
  apply Hs. repeat case_match; [apply done_conserves|quiet|..].
  all: apply (conserves_then_0 n 0); [apply unloadModule_conserves|]; intros; case_match; quiet.
Qed.

Lemma for_all_conserves n l f s : (forall u s, conserves n 0 s (f u s)) -> conserves n 0 s (for_all l f s).
Proof.
  intros Hf. revert s. induction l as [|x l IH]; intros s; cbn [for_all]; [quiet|]. by apply (conserves_then_0 n 0).
Qed.

Lemma end_conserves n i err s : conserves n 0 s (end_with i err s).
Proof.
  unfold end_with. repeat apply (conserves_then_0 n 0); intros.
  - apply options_conserves.
  - apply load_reply_conserves.
  - apply discover_conserves.
  - apply for_all_conserves. intros. apply finish_conserves.
Qed.

Lemma exit_conserves n i code err specs s : conserves n 0 s (worker_exit i code err specs s).
Proof.
  unfold worker_exit. repeat case_match; try quiet. repeat apply (conserves_then_0 n 0); intros.
  - quiet.
  - apply unexpected_conserves.
  - apply end_conserves.
Qed.

(** A request answered at once. *)
Lemma conserves_answered n m err s : conserves n (is_request n (Request m)) s (s, [CallBack m err]).
Proof. unfold conserves, answers. cbn. destruct (m =? n)%nat; cbn; lia. Qed.

Lemma load_conserves n path name version c s : conserves n (is_request n c) s (loadModuleFromPath path name version c s).
Proof. unfold loadModuleFromPath. repeat case_match; [apply answer_caller_conserves..|apply by_worker_conserves]. Qed.

Lemma unload_conserves n name m s : conserves n (is_request n (Request m)) s (unloadModuleExternal name m s).
Proof.
  unfold unloadModuleExternal. destruct (lookup_module name _) as [w|].
  - exact (begin_conserves n w name (AnswerUnload m) (clear_sup name s)).
  - exact (conserves_answered n m _ (clear_sup name s)).
Qed.

Lemma restart_conserves n path name version m s : conserves n (is_request n (Request m)) s (restartModule path name version m s).
Proof.
  unfold restartModule. repeat case_match; try apply conserves_answered; try apply by_worker_conserves.
  all: exact (begin_conserves n _ name (ThenLoad _ name _ (Request m)) (clear_sup name s)).
Qed.

Lemma reload_conserves n path m s : conserves n (is_request n (Request m)) s (reloadModule path m s).
Proof.
  unfold reloadModule. repeat case_match; try apply conserves_answered; try apply by_worker_conserves.
  all: rewrite <- (Nat.add_0_l (is_request n (Request m))); apply conserves_then; [|apply conserves_answered].
  all: apply (conserves_then_0 n 0); [quiet|intros; apply unloadModule_conserves].
Qed.

Lemma fires_conserves n name s : conserves n 0 s (restart_fires name s).
Proof.
  unfold restart_fires. repeat case_match; try quiet. exact (spawn_conserves n _ name _ (Restarted _) (with_sup _ s)).
Qed.

(** The requests an event makes. *)
Definition asks (n : nat) (ev : event) : nat :=
  match ev with
  | LoadModule _ _ _ m | UnloadModule _ m | RestartModule _ _ _ m | ReloadModule _ m => is_request n (Request m)
  | _ => 0
  end.

Lemma step_conserves_all n ev s : conserves n (asks n ev) s (step ev s).
Proof.
  destruct ev; cbn [step asks].
  - apply conserves_quiet; [done|]. by case_match.
  - unfold next_startup. repeat case_match; try quiet. exact (load_conserves n _ _ _ Startup (with_startup _ _ _ s)).
  - apply load_conserves.
  - apply unload_conserves.
  - apply restart_conserves.
  - apply reload_conserves.
  - apply enter_conserves.
  - apply prepared_conserves.
  - apply options_conserves.
  - apply config_conserves.
  - apply load_reply_conserves.
  - apply discover_conserves.
  - quiet.
  - repeat case_match; quiet.
  - unfold worker_error. repeat case_match; try quiet; apply unexpected_conserves.
  - apply exit_conserves.
  - apply finish_conserves.
  - apply finish_conserves.
  - apply terminated_conserves.
  - apply fires_conserves.
  - quiet.
Qed.

Lemma run_conserves n evs s : conserves n (sum_list (map (asks n) evs)) s (run evs s).
Proof.
  revert s. induction evs as [|ev evs IH]; intros s; cbn [run map]; [quiet|].
  change (sum_list (?a :: ?l)) with (a + sum_list l)%nat. apply conserves_then; [apply step_conserves_all|apply IH].
Qed.
End manager.
