(* ===== verification/ManagerSafety.v ===== *)
(** * Safety of the module manager

    What holds of the main thread's modules after any sequence of events of
    ModuleManager.v: which worker the map of modules names, that two workers of
    a name never run together, where a worker that runs is accounted for, and
    which callbacks are still owed; and that each request is answered once. *)
From Stdlib Require Import ZArith Lia Ascii String.
From stdpp Require Import prelude strings gmap.
From S2P Require Import Prelude Paths Json Errors Permissions Supervisor SandboxConfig ModuleManager.

Set Default Proof Using "Type".

(** ** What holds of a spawn, and of the manager *)

(** The spawn has neither loaded nor failed. *)
Definition pending (st : stage) : bool :=
  match st with Locked | Preparing | SettingOptions | ReadingConfig | Loading => true | Loaded | Over | Refused => false end.

(** The worker runs, or is [x], the one whose exit is being handled. *)
Definition alive (x : option nat) (i : nat) (p : spawn) : Prop := started p = true /\ (sp_exited p = false \/ x = Some i).

Record spawn_ok (p : spawn) : Prop := {
  ok_owed : sp_called p = false -> pending (sp_stage p) = true /\ sp_exitReason p = None;
  ok_called : sp_called p = true -> pending (sp_stage p) = true -> sp_exitReason p <> None;
  ok_over : sp_stage p = Over -> sp_terminated p = true \/ sp_exitReason p <> None;
  ok_unloading : sp_unloading p = true -> sp_stage p = Loaded
}.

Definition unfinished (i : nat) (s : mm) : Prop :=
  exists u un, unloads s !! u = Some un /\ un_worker un = i /\ un_finished un = false.

(** No two workers of a name run. *)
Definition unique (x : option nat) (s : mm) : Prop :=
  forall i j p q, spawns s !! i = Some p -> spawns s !! j = Some q -> sp_name p = sp_name q ->
    alive x i p -> alive x j q -> i = j.

(** The reason of a spawn's end is recorded. *)
Definition ended (i : nat) (s : mm) : Prop := exists p, spawns s !! i = Some p /\ sp_exitReason p <> None.

Record inv (x : option nat) (s : mm) : Prop := {
  inv_spawns : forall i p, spawns s !! i = Some p -> spawn_ok p;
  inv_exited : forall i p, spawns s !! i = Some p -> sp_exited p = true -> sp_exitReason p <> None \/ x = Some i;
  inv_kept : forall i p, spawns s !! i = Some p -> sp_stage p = Loaded ->
    lookup_module (sp_name p) s = Some i \/ sp_terminated p = true \/ sp_dropped p = true \/ sp_exitReason p <> None;
  inv_unique : unique x s;
  inv_modules : forall name i, lookup_module name s = Some i ->
    exists p, spawns s !! i = Some p /\ sp_name p = name /\ sp_stage p = Loaded /\ (sp_exited p = false \/ x = Some i) /\
      (sp_exitReason p <> None -> sp_unloading p = true) /\ (sp_unloading p = true -> unfinished i s);
  inv_unloads : forall u un, unloads s !! u = Some un ->
    exists p, spawns s !! un_worker un = Some p /\ sp_stage p = Loaded /\ sp_name p = un_name un /\
      (un_finished un = false -> sp_exited p = false \/ x = Some (un_worker un))
}.

(** ** Changes of one spawn *)

Definition changed (i : nat) (g : spawn -> spawn) (s s' : mm) : Prop :=
  (forall j, spawns s' !! j = if decide (i = j) then g <$> spawns s !! i else spawns s !! j) /\
  modules s' = modules s /\ unloads s' = unloads s.

Lemma changed_upd i g s : changed i g s (upd i g s).
Proof. split; [|done]. intros j. apply list_lookup_alter. Qed.

Lemma changed_trans i f g s s1 s2 : changed i f s s1 -> changed i g s1 s2 -> changed i (fun p => g (f p)) s s2.
Proof.
  intros (H1 & M1 & U1) (H2 & M2 & U2). split; [|by rewrite M2, M1, U2, U1]. intros j. rewrite H2, !H1.
  destruct (decide (i = j)) as [<-|]; [|done]. rewrite decide_True by done. by destruct (spawns s !! i).
Qed.

(** What the manager counts, and the supervisor, are beside the point. *)
Lemma changed_same i g s s1 s2 :
  spawns s2 = spawns s1 -> modules s2 = modules s1 -> unloads s2 = unloads s1 -> changed i g s s1 -> changed i g s s2.
Proof. intros E1 E2 E3 (H & M & U). unfold changed. by rewrite E1, E2, E3. Qed.

Section changed.
Context (i : nat) (g : spawn -> spawn) (s s' : mm) (p : spawn) (Hc : changed i g s s') (Hp : spawns s !! i = Some p).

Lemma changed_cases j q : spawns s' !! j = Some q -> i = j /\ q = g p \/ i <> j /\ spawns s !! j = Some q.
Proof using Hc Hp.
  destruct Hc as [Hs _]. rewrite Hs. destruct (decide (i = j)) as [<-|]; [|auto]. rewrite Hp. intros [= <-]. auto.
Qed.

Lemma changed_here : spawns s' !! i = Some (g p).
Proof using Hc Hp. destruct Hc as [Hs _]. by rewrite Hs, decide_True, Hp by done. Qed.

Lemma changed_there j q : i <> j -> spawns s !! j = Some q -> spawns s' !! j = Some q.
Proof using Hc. destruct Hc as [Hs _]. intros Hne E. by rewrite Hs, decide_False by done. Qed.

Lemma changed_spawns : spawn_ok (g p) -> (forall j q, spawns s !! j = Some q -> spawn_ok q) ->
  forall j q, spawns s' !! j = Some q -> spawn_ok q.
Proof using Hc Hp. intros Hok H j q E. destruct (changed_cases j q E) as [[<- ->]|[_ E2]]; eauto. Qed.

Lemma changed_unique x :
  sp_name (g p) = sp_name p -> (alive x i (g p) -> alive x i p) -> unique x s -> unique x s'.
Proof using Hc Hp.
  intros Hn Ha I j k q q' E E' Hnn A A'.
  destruct (changed_cases j q E) as [[<- ->]|[_ E2]], (changed_cases k q' E') as [[<- ->]|[_ E2']]; [done|..].
  - eapply (I i k p q'); [done|done|congruence|auto..].
  - eapply (I j i q p); [done|done|congruence|auto..].
  - by eapply (I j k q q').
Qed.
End changed.

(** A change that the invariant survives: of the state [s], from [p] to [q]. *)
Record mild (x : option nat) (s : mm) (p q : spawn) : Prop := {
  m_name : sp_name q = sp_name p;
  m_exited : sp_exited q = sp_exited p;
  m_unloading : sp_unloading q = sp_unloading p;
  m_loaded : sp_stage q = Loaded <-> sp_stage p = Loaded;
  m_reason : sp_exitReason p <> None -> sp_exitReason q <> None;
  m_loaded_reason : sp_stage q = Loaded -> sp_exitReason q = sp_exitReason p;
  m_told : sp_terminated p = true -> sp_terminated q = true;
  m_dropped : sp_dropped p = true -> sp_dropped q = true;
  m_started : started q = true -> started p = true \/ (x = None /\ live (sp_name p) s = None);
  m_ok : spawn_ok q
}.

Definition mildly (x : option nat) (i : nat) (s s' : mm) : Prop :=
  exists g, changed i g s s' /\ forall p, spawns s !! i = Some p -> spawn_ok p -> mild x s p (g p).

Lemma live_none name s i p : live name s = None -> spawns s !! i = Some p -> sp_name p = name -> ~ alive None i p.
Proof.
  unfold live. intros H Hp Hn [Hs [He|]]; [|done]. destruct (list_find _ _) as [[j q]|] eqn:E; [done|].
  apply list_find_None in E. eapply Forall_lookup_1 in E; [|exact Hp]. apply E. unfold live_of.
  by rewrite Hs, He, Hn, String.eqb_refl.
Qed.

Section mildly.
Context (x : option nat) (i : nat) (s s' : mm) (M : mildly x i s s') (Hok : forall j p, spawns s !! j = Some p -> spawn_ok p).

Lemma mildly_before j q :
  spawns s' !! j = Some q -> exists p, spawns s !! j = Some p /\ (q = p \/ i = j /\ mild x s p q).
Proof using M Hok.
  destruct M as (g & (Hs & _) & Hg). rewrite Hs. destruct (decide (i = j)) as [<-|]; [|eauto].
  destruct (spawns s !! i) as [p|] eqn:Ep; [|done]. cbn. intros [= <-]. exists p. split; [done|]. right. split; [done|].
  apply Hg; [done|]. by eapply Hok.
Qed.

Lemma mildly_after j p : spawns s !! j = Some p -> exists q, spawns s' !! j = Some q /\ (q = p \/ mild x s p q).
Proof using M Hok.
  destruct M as (g & (Hs & _) & Hg). rewrite Hs. intros E. destruct (decide (i = j)) as [<-|]; [|eauto]. rewrite E.
  exists (g p). split; [done|]. right. apply Hg; [done|]. by eapply Hok.
Qed.

Lemma mildly_lookup name : lookup_module name s' = lookup_module name s.
Proof using M. destruct M as (g & (_ & Hm & _) & _). unfold lookup_module. by rewrite Hm. Qed.

Lemma mildly_unfinished j : unfinished j s' <-> unfinished j s.
Proof using M. destruct M as (g & (_ & _ & Hu) & _). unfold unfinished. by rewrite Hu. Qed.

(** A worker that starts is alone of its name. *)
Lemma mildly_unique : unique x s -> unique x s'.
Proof using M Hok.
  intros I j k q q' E E' Hn A A'.
  destruct (mildly_before j q E) as (p & Ep & Cq). destruct (mildly_before k q' E') as (p' & Ep' & Cq').
  assert (Hnp : sp_name q = sp_name p) by (destruct Cq as [->|[_ Mq]]; [done|apply (m_name _ _ _ _ Mq)]).
  assert (Hnp' : sp_name q' = sp_name p') by (destruct Cq' as [->|[_ Mq]]; [done|apply (m_name _ _ _ _ Mq)]).
  assert (Ha : forall j p q, mild x s p q -> alive x j q -> alive x j p \/ (x = None /\ live (sp_name p) s = None)).
  { intros j' r r' Mr [A1 A2]. destruct (m_started _ _ _ _ Mr A1) as [?|?]; [left|by right].
    split; [done|]. by rewrite <- (m_exited _ _ _ _ Mr). }
  assert (Cs : alive x j p /\ alive x k p' \/ j = k).
  { destruct Cq as [->|[<- Mq]], Cq' as [->|[<- Mq']]; [by left| | |by right].
    - destruct (Ha i p' q' Mq' A') as [?|[-> L]]; [by left|]. exfalso. eapply live_none; [exact L|exact Ep|congruence|done].
    - destruct (Ha i p q Mq A) as [?|[-> L]]; [by left|]. exfalso. eapply live_none; [exact L|exact Ep'|congruence|done]. }
  destruct Cs as [[B B']| ->]; [|done]. eapply (I j k p p'); [done|done|congruence|done|done].
Qed.
End mildly.

Lemma mildly_inv x i s s' : mildly x i s s' -> inv x s -> inv x s'.
Proof.
  intros M [I1 I2 I3 I4 I5 I6]. pose proof (mildly_before x i s s' M I1) as Hq. pose proof (mildly_after x i s s' M I1) as Hp.
  pose proof (mildly_lookup x i s s' M) as Hl. pose proof (mildly_unfinished x i s s' M) as Hf.
  assert (Hu : unloads s' = unloads s) by (by destruct M as (g & (_ & _ & Hu) & _)).
  split.
  - intros j q E. destruct (Hq j q E) as (p & Ep & [->|[_ Mq]]); [by eapply I1|]. apply (m_ok _ _ _ _ Mq).
  - intros j q E X. destruct (Hq j q E) as (p & Ep & [->|[_ Mq]]); [by eapply I2|].
    rewrite (m_exited _ _ _ _ Mq) in X. destruct (I2 j p Ep X) as [R|]; [|by right]. left. by apply (m_reason _ _ _ _ Mq).
  - intros j q E L. rewrite Hl. destruct (Hq j q E) as (p & Ep & [->|[_ Mq]]); [by eapply I3|].
    rewrite (m_name _ _ _ _ Mq). destruct (I3 j p Ep) as [?|[?|[?|?]]]; [by apply (m_loaded _ _ _ _ Mq)|by left|right; left|..].
    + by apply (m_told _ _ _ _ Mq).
    + right; right; left. by apply (m_dropped _ _ _ _ Mq).
    + right; right; right. by apply (m_reason _ _ _ _ Mq).
  - by apply (mildly_unique x i s s').
  - intros name j. rewrite Hl. intros E. destruct (I5 name j E) as (p & Ep & Hn & Hst & Hx & Hr & Hun).
    destruct (Hp j p Ep) as (q & Eq & [->|Mq]).
    + exists p. rewrite Hf. split_and!; eauto.
    + assert (Hst' : sp_stage q = Loaded) by (by apply (m_loaded _ _ _ _ Mq)).
      exists q. rewrite (m_name _ _ _ _ Mq), (m_exited _ _ _ _ Mq), (m_unloading _ _ _ _ Mq), (m_loaded_reason _ _ _ _ Mq Hst'), Hf.
      split_and!; eauto.
  - intros u un. rewrite Hu. intros E. destruct (I6 u un E) as (p & Ep & Hst & Hn & Hx). destruct (Hp _ p Ep) as (q & Eq & [->|Mq]).
    + exists p. split_and!; eauto.
    + exists q. rewrite (m_name _ _ _ _ Mq), (m_exited _ _ _ _ Mq). split_and!; eauto. by apply (m_loaded _ _ _ _ Mq).
Qed.

(** ** Changes of the map and of the unloads *)

(** A spawn more, without a worker. *)
Lemma inv_append x s s' q :
  (forall j, spawns s' !! j = if decide (j = length (spawns s)) then Some q else spawns s !! j) ->
  modules s' = modules s -> unloads s' = unloads s ->
  spawn_ok q -> started q = false -> sp_exited q = false -> inv x s -> inv x s'.
Proof.
  intros Hs Hm Hu Hok Hst Hex [I1 I2 I3 I4 I5 I6].
  assert (Hl : forall name, lookup_module name s' = lookup_module name s) by (intros; unfold lookup_module; by rewrite Hm).
  assert (Hp : forall j p, spawns s !! j = Some p -> spawns s' !! j = Some p).
  { intros j p E. rewrite Hs. rewrite decide_False; [done|]. apply lookup_lt_Some in E. lia. }
  assert (Hq : forall j p, spawns s' !! j = Some p -> spawns s !! j = Some p \/ p = q).
  { intros j p. rewrite Hs. case_decide; [|by left]. intros [= ->]. by right. }
  split.
  - intros j p E. destruct (Hq j p E) as [?| ->]; [by eapply I1|done].
  - intros j p E X. destruct (Hq j p E) as [?| ->]; [by eapply I2|congruence].
  - intros j p E L. destruct (Hq j p E) as [?| ->]; [rewrite Hl; by eapply I3|]. unfold started in Hst. by rewrite L in Hst.
  - intros j k p p' E E' Hn [A A1] [A' A1']. destruct (Hq j p E) as [E2| ->]; [|congruence].
    destruct (Hq k p' E') as [E2'| ->]; [|congruence]. by eapply (I4 j k p p').
  - intros name j. rewrite Hl. intros E. destruct (I5 name j E) as (p & Ep & Hn & HL & Hx & Hr & Hun). exists p.
    split_and!; auto. unfold unfinished. by rewrite Hu.
  - intros u un. rewrite Hu. intros E. destruct (I6 u un E) as (p & Ep & H). exists p. split; [by apply Hp|done].
Qed.

(** The worker whose module has loaded takes its name on the map. *)
Lemma inv_registered i g s s' p :
  spawns s !! i = Some p -> changed i g (with_modules (assoc_set (sp_name p) i (modules s)) s) s' ->
  lookup_module (sp_name p) s = None -> sp_name (g p) = sp_name p -> started p = true -> sp_stage p <> Loaded ->
  sp_stage (g p) = Loaded -> sp_exited (g p) = sp_exited p -> sp_exitReason p = None -> sp_exitReason (g p) = None ->
  sp_unloading (g p) = false -> spawn_ok (g p) -> inv None s -> inv None s'.
Proof.
  intros Ep Hc Hnone Hname Hstarted Hnl Hloaded Hexited Hr Hr' Hun Hok [I1 I2 I3 I4 I5 I6]. pose proof Hc as (_ & Hm & Hu). cbn in Hm, Hu.
  assert (Hex : sp_exited p = false). { destruct (sp_exited p) eqn:E; [|done]. by destruct (I2 i p Ep E). }
  assert (Hl : forall name, lookup_module name s' = if String.eqb name (sp_name p) then Some i else lookup_module name s).
  { intros. unfold lookup_module. by rewrite Hm, assoc_set_lookup. }
  pose proof (changed_cases _ _ _ _ _ Hc Ep) as Hq. cbn in Hq.
  pose proof (changed_here _ _ _ _ _ Hc Ep) as Hi.
  pose proof (changed_there _ _ _ _ Hc) as Hj. cbn in Hj.
  split.
  - by eapply changed_spawns.
  - intros j q E X. destruct (Hq j q E) as [[<- ->]|[_ E2]]; [congruence|by eapply I2].
  - intros j q E L. rewrite Hl. destruct (Hq j q E) as [[<- ->]|[Hne E2]].
    + left. by rewrite Hname, String.eqb_refl.
    + destruct (String.eqb_spec (sp_name q) (sp_name p)) as [En|]; [|by eapply I3].
      destruct (I3 j q E2 L) as [E3|?]; [rewrite En in E3; congruence|by right].
  - apply (changed_unique _ _ _ _ _ Hc Ep); [done| |done]. intros _. split; auto.
  - intros name j. rewrite Hl. destruct (String.eqb_spec name (sp_name p)) as [->|Hne].
    + intros [= <-]. exists (g p). split_and!; [done..|left; congruence|congruence|congruence].
    + intros E. destruct (I5 name j E) as (q & Eq & Hnq & HL & H). exists q. split_and!; [|done|done|apply H..|].
      * apply Hj; [|done]. intros <-. congruence.
      * intros H2. destruct H as (_ & _ & H). specialize (H H2). unfold unfinished in *. by rewrite Hu.
  - intros u un. rewrite Hu. intros E. destruct (I6 u un E) as (q & Eq & HL & H). exists q. split; [|done]. apply Hj; [|done].
    intros E2. rewrite <- E2 in Eq. congruence.
Qed.

(** A worker marked as ended, or as being unloaded: on the map, only one whose
    unload is under way is. *)
Lemma inv_marked x i g s s' p :
  spawns s !! i = Some p -> changed i g s s' -> sp_name (g p) = sp_name p -> sp_stage (g p) = sp_stage p ->
  sp_exited (g p) = sp_exited p -> (sp_exitReason p <> None -> sp_exitReason (g p) <> None) ->
  (sp_terminated p = true -> sp_terminated (g p) = true) -> (sp_dropped p = true -> sp_dropped (g p) = true) ->
  (lookup_module (sp_name p) s = Some i -> sp_exitReason (g p) <> None -> sp_unloading (g p) = true) ->
  (lookup_module (sp_name p) s = Some i -> sp_unloading (g p) = true -> unfinished i s) -> spawn_ok (g p) -> inv x s -> inv x s'.
Proof.
  intros Ep Hc Hname Hstage Hexited Hr Ht Hd Hreg Hunf Hok [I1 I2 I3 I4 I5 I6]. pose proof Hc as (_ & Hm & Hu).
  assert (Hl : forall name, lookup_module name s' = lookup_module name s) by (intros; unfold lookup_module; by rewrite Hm).
  pose proof (changed_cases _ _ _ _ _ Hc Ep) as Hq. pose proof (changed_here _ _ _ _ _ Hc Ep) as Hi.
  pose proof (changed_there _ _ _ _ Hc) as Hj.
  assert (Ha : alive x i (g p) -> alive x i p) by (unfold alive, started; by rewrite Hstage, Hexited).
  split.
  - by eapply changed_spawns.
  - intros j q E X. destruct (Hq j q E) as [[<- ->]|[_ E2]]; [|by eapply I2]. rewrite Hexited in X. destruct (I2 i p Ep X); auto.
  - intros j q E L. rewrite Hl. destruct (Hq j q E) as [[<- ->]|[_ E2]]; [|by eapply I3].
    rewrite Hstage in L. rewrite Hname. destruct (I3 i p Ep L) as [?|[?|[?|?]]]; auto.
  - by eapply changed_unique.
  - intros name j. rewrite Hl. intros E. destruct (I5 name j E) as (q & Eq & Hnq & HL & Hx & H & H').
    assert (unfinished j s' = unfinished j s) as -> by (unfold unfinished; by rewrite Hu).
    destruct (decide (i = j)) as [<-|Hne]; [|exists q; split_and!; auto].
    simplify_eq. exists (g p). rewrite Hexited, Hstage. split_and!; auto.
  - intros u un. rewrite Hu. intros E. destruct (I6 u un E) as (q & Eq & HL & Hn & H).
    destruct (decide (i = un_worker un)) as [E2|]; [|exists q; split_and!; auto]. rewrite <- E2 in *. simplify_eq. exists (g p).
    rewrite Hexited, Hstage, Hname. auto.
Qed.

(** A module taken off the map, its worker told to end or found ended. *)
Lemma inv_removed x i g s s' p :
  spawns s !! i = Some p -> lookup_module (sp_name p) s = Some i ->
  changed i g (with_modules (assoc_delete (sp_name p) (modules s)) s) s' ->
  sp_name (g p) = sp_name p -> sp_stage (g p) = sp_stage p -> sp_exited (g p) = sp_exited p ->
  (sp_exitReason p <> None -> sp_exitReason (g p) <> None) ->
  sp_terminated (g p) = true \/ sp_dropped (g p) = true \/ sp_exitReason (g p) <> None ->
  spawn_ok (g p) -> inv x s -> inv x s'.
Proof.
  intros Ep Hreg Hc Hname Hstage Hexited Hr Htold Hok [I1 I2 I3 I4 I5 I6]. pose proof Hc as (_ & Hm & Hu). cbn in Hm, Hu.
  assert (Hl : forall name, lookup_module name s' = if String.eqb (sp_name p) name then None else lookup_module name s).
  { intros. unfold lookup_module. by rewrite Hm, assoc_delete_lookup. }
  pose proof (changed_cases _ _ _ _ _ Hc Ep) as Hq. cbn in Hq.
  pose proof (changed_there _ _ _ _ Hc) as Hj. cbn in Hj.
  assert (Ha : alive x i (g p) -> alive x i p) by (unfold alive, started; by rewrite Hstage, Hexited).
  split.
  - by eapply changed_spawns.
  - intros j q E X. destruct (Hq j q E) as [[<- ->]|[_ E2]]; [|by eapply I2]. rewrite Hexited in X. destruct (I2 i p Ep X); auto.
  - intros j q E L. rewrite Hl. destruct (Hq j q E) as [[<- ->]|[Hne E2]]; [tauto|].
    destruct (String.eqb_spec (sp_name p) (sp_name q)) as [En|]; [|by eapply I3].
    destruct (I3 j q E2 L) as [E3|?]; [|by right]. rewrite <- En in E3. congruence.
  - by eapply changed_unique.
  - intros name j. rewrite Hl. destruct (String.eqb_spec (sp_name p) name) as [|Hne]; [done|]. intros E.
    destruct (I5 name j E) as (q & Eq & Hnq & HL & Hx & H & H'). exists q.
    assert (unfinished j s' = unfinished j s) as -> by (unfold unfinished; by rewrite Hu).
    split_and!; auto. apply Hj; [|done]. intros <-. congruence.
  - intros u un. rewrite Hu. intros E. destruct (I6 u un E) as (q & Eq & HL & Hn & H).
    destruct (decide (i = un_worker un)) as [E2|]; [|exists q; split_and!; auto]. rewrite <- E2 in *. simplify_eq. exists (g p).
    rewrite Hexited, Hstage, Hname. split_and!; auto. by apply (changed_here _ _ _ _ _ Hc).
Qed.

(** Unloads that are further on; a module under unload keeps one that is not finished. *)
Lemma inv_unloads_on x s U :
  (forall u un', U !! u = Some un' -> exists un, unloads s !! u = Some un /\ un_worker un' = un_worker un /\ un_name un' = un_name un /\
     (un_finished un' = false -> un_finished un = false)) ->
  (forall name i, lookup_module name s = Some i -> unfinished i s -> unfinished i (with_unloads U s)) ->
  inv x s -> inv x (with_unloads U s).
Proof.
  intros HU Hf [I1 I2 I3 I4 I5 I6]. split; [done..| |].
  - intros name i E. destruct (I5 name i E) as (p & Ep & Hn & HL & Hx & Hr & Hun). exists p. split_and!; try done.
    intros H. eapply Hf; [done|auto].
  - intros u un' E. destruct (HU u un' E) as (un & Eu & -> & -> & Hfin). destruct (I6 u un Eu) as (p & Ep & HL & Hn & H).
    exists p. split_and!; auto.
Qed.

(** An unload more, of a worker of the map. *)
Lemma inv_unload_more x w name next s :
  lookup_module name s = Some w -> inv x s -> inv x (with_unloads (unloads s ++ [mkUnload w name next false false]) s).
Proof.
  intros Hw [I1 I2 I3 I4 I5 I6]. split; [done..| |].
  - intros name' j E. destruct (I5 name' j E) as (q & Eq & Hnq & HLq & Hxq & Hrq & Hunq). exists q. split_and!; auto.
    intros H. destruct (Hunq H) as (u & un & Eu & Hun'). exists u, un. split; [|done]. cbn. by apply lookup_app_l_Some.
  - intros u un E. cbn in E. apply lookup_app_Some in E as [E|[_ E]]; [by eapply I6|].
    destruct (u - length (unloads s)) as [|k]; [|done]. injection E as <-. cbn.
    destruct (I5 name w Hw) as (p & Ep & Hn & HL & Hx & _). exists p. split_and!; auto.
Qed.

(** A worker of the map whose unload begins. *)
Lemma inv_begin x w name next s : lookup_module name s = Some w -> inv x s -> inv x (begin_unload w name next s).1.
Proof.
  intros Hw I. pose proof (inv_modules _ _ I name w Hw) as (p & Ep & _ & HL & _). pose proof (inv_spawns _ _ I w p Ep) as [H1 H2 H3 _].
  apply (inv_unload_more x w name next) in I; [|done].
  eapply (inv_marked x w set_unloading (with_unloads _ s) _ p);
    [exact Ep|exact (changed_upd w set_unloading (with_unloads _ s))|done..| |by split|exact I].
  intros _ _. exists (length (unloads s)), (mkUnload w name next false false). split; [|done]. cbn. by apply list_lookup_middle.
Qed.

(** An unload that is finished, of a worker no longer on the map. *)
Lemma inv_finished x u s un :
  unloads s !! u = Some un -> (forall name, lookup_module name s <> Some (un_worker un)) ->
  inv x s -> inv x (with_unloads (alter set_finished u (unloads s)) s).
Proof.
  intros Eu Hno. apply inv_unloads_on.
  - intros v un' E. rewrite list_lookup_alter in E. destruct (decide (u = v)) as [<-|]; [|eauto].
    rewrite Eu in E. injection E as <-. exists un. by split_and!.
  - intros name i E (v & un' & Ev & Hw & Hf). exists v, un'. split; [|done]. cbn. rewrite list_lookup_alter_ne; [done|].
    intros <-. apply (Hno name). congruence.
Qed.

Lemma inv_over x u s : inv x s -> inv x (with_unloads (alter set_over u (unloads s)) s).
Proof.
  apply inv_unloads_on.
  - intros v un' E. rewrite list_lookup_alter in E. destruct (decide (u = v)) as [<-|]; [|eauto].
    destruct (unloads s !! u) as [un|]; [|done]. injection E as <-. exists un. by split_and!.
  - intros name i E (v & un' & Ev & Hw & Hf). destruct (decide (u = v)) as [<-|Hne].
    + exists u, (set_over un'). split_and!; [|done..]. cbn. by rewrite list_lookup_alter_eq, Ev.
    + exists v, un'. split_and!; [|done..]. cbn. by rewrite list_lookup_alter_ne.
Qed.

(** A worker's exit is being handled; and has been, once its reason is recorded
    and its unloads are finished. *)
Lemma inv_exiting i s p :
  spawns s !! i = Some p -> sp_exited p = false -> inv None s -> inv (Some i) (upd i set_exited s).
Proof.
  intros Ep Hex [I1 I2 I3 I4 I5 I6]. pose proof (changed_upd i set_exited s) as Hc.
  pose proof (changed_cases _ _ _ _ _ Hc Ep) as Hq. pose proof (changed_here _ _ _ _ _ Hc Ep) as Hi.
  pose proof (changed_there _ _ _ _ Hc) as Hj. split.
  - eapply changed_spawns; [exact Hc|exact Ep| |done]. by destruct (I1 i p Ep).
  - intros j q E X. destruct (Hq j q E) as [[<- ->]|[_ E2]]; [by right|]. left. by destruct (I2 j q E2 X).
  - intros j q E L. destruct (Hq j q E) as [[<- ->]|[_ E2]]; [exact (I3 i p Ep L)|by eapply I3].
  - apply (changed_unique _ _ _ _ _ Hc Ep); [done|intros [A _]; split; [done|by right]|].
    intros j k q q' E E' Hn [A A1] [A' A1']. eapply (I4 j k q q'); [done..| |]; split; try done.
    + destruct A1 as [?|[= <-]]; left; congruence.
    + destruct A1' as [?|[= <-]]; left; congruence.
  - intros name j E. destruct (I5 name j E) as (q & Eq & Hn & HL & Hx & H). destruct (decide (i = j)) as [<-|].
    + exists (set_exited q). simplify_eq. split_and!; try done; [by right|apply H..].
    + exists q. split_and!; [auto|done|done| |apply H..]. left. by destruct Hx.
  - intros u un E. destruct (I6 u un E) as (q & Eq & HL & Hn & Hx). destruct (decide (i = un_worker un)) as [E2|].
    + exists (set_exited q). rewrite <- E2 in *. simplify_eq. split_and!; try done. by right.
    + exists q. split_and!; [auto|done..|]. intros Hf. left. by destruct (Hx Hf).
Qed.

Lemma inv_closed i s :
  ended i s -> (forall u un, unloads s !! u = Some un -> un_worker un = i -> un_finished un = true) -> inv (Some i) s -> inv None s.
Proof.
  intros (p & Ep & Hr) Hfin [I1 I2 I3 I4 I5 I6].
  assert (Hno : forall name, lookup_module name s <> Some i).
  { intros name E. destruct (I5 name i E) as (q & Eq & _ & _ & _ & H & H'). simplify_eq.
    destruct (H' (H Hr)) as (u & un & Eu & Hw & Hf). by rewrite (Hfin u un Eu Hw) in Hf. }
  split; [done| |done| | |].
  - intros j q E X. destruct (I2 j q E X) as [?|[= <-]]; left; [done|congruence].
  - intros j k q q' E E' Hn [A [A1|]] [A' [A1'|]]; [|done..]. eapply (I4 j k q q'); try done; split; auto.
  - intros name j E. destruct (I5 name j E) as (q & Eq & Hn & HL & Hx & H). exists q. split_and!; [done|done|done| |apply H..].
    left. destruct Hx as [?|[= <-]]; [done|]. by destruct (Hno name).
  - intros u un E. destruct (I6 u un E) as (q & Eq & HL & Hn & Hx). exists q. split_and!; [done..|]. intros Hf. left.
    destruct (Hx Hf) as [?|[= E2]]; [done|]. by rewrite (Hfin u un E) in Hf.
Qed.

(** A step of one spawn, known from what it makes of it. *)
Lemma mildly_intro x i g s s' :
  changed i g s s' -> (forall p, spawns s !! i = Some p -> spawn_ok p -> mild x s p (g p)) -> mildly x i s s'.
Proof. intros H Hg. by exists g. Qed.

Lemma mildly_refl x i s : mildly x i s s.
Proof.
  exists id. split.
  - split; [|done]. intros j. destruct (decide (i = j)) as [->|]; [|done]. by destruct (spawns s !! j).
  - intros p Ep Hok. by split; auto.
Qed.

(** What the manager counts, its list and the supervisor are beside the point. *)
Lemma inv_same x s s' : spawns s' = spawns s -> modules s' = modules s -> unloads s' = unloads s -> inv x s -> inv x s'.
Proof.
  intros E1 E2 E3. apply (mildly_inv x 0). destruct (mildly_refl x 0 s) as (g & H & Hg). exists g. split; [|done].
  by apply (changed_same _ _ _ s).
Qed.

(** The changes the handlers make. *)
Ltac mild_tac :=
  intros; match goal with H : spawn_ok ?p |- mild _ _ ?p _ => destruct H as [Howed Hcalled Hover Hunl]; destruct p; cbn in *; subst end;
  split; unfold started in *; cbn in *; try done; try tauto; try (split; cbn in *; intros; naive_solver).

Section changes.
Context (x : option nat) (s : mm) (p : spawn) (Hok : spawn_ok p).

Lemma mild_terminated : mild x s p (set_terminated p).
Proof using Hok. mild_tac. Qed.
Lemma mild_killed r : mild x s p (set_killReason r p).
Proof using Hok. mild_tac. Qed.
Lemma mild_dropped : mild x s p (set_dropped p).
Proof using Hok. mild_tac. Qed.
Lemma mild_online o : mild x s p (set_online o p).
Proof using Hok. mild_tac. Qed.
Lemma mild_discovering b : mild x s p (set_discovering b p).
Proof using Hok. mild_tac. Qed.
Lemma mild_waits : sp_stage p = Locked -> mild x s p (set_stage Preparing p).
Proof using Hok. mild_tac. Qed.
Lemma mild_refused : sp_stage p = Locked \/ sp_stage p = Preparing -> mild x s p (set_called (set_stage Refused p)).
Proof using Hok. intros [E|E]; mild_tac. Qed.
Lemma mild_reading : sp_stage p = SettingOptions -> mild x s p (set_stage ReadingConfig p).
Proof using Hok. mild_tac. Qed.
Lemma mild_loading : sp_stage p = ReadingConfig -> mild x s p (set_stage Loading p).
Proof using Hok. mild_tac. Qed.
Lemma mild_failed : pending (sp_stage p) = true -> started p = true -> mild x s p (set_called (set_terminated (set_stage Over p))).
Proof using Hok. mild_tac. Qed.
Lemma mild_over : started p = true -> pending (sp_stage p) = true -> sp_exitReason p <> None -> mild x s p (set_stage Over p).
Proof using Hok. mild_tac. Qed.
Lemma mild_ended r : sp_stage p <> Loaded -> mild x s p (set_called (set_exitReason r p)).
Proof using Hok. mild_tac. Qed.
Lemma mild_starts : sp_stage p = Preparing -> live (sp_name p) s = None -> mild None s p (set_stage SettingOptions p).
Proof using Hok. mild_tac. Qed.
End changes.

Lemma then_fst r f : (r >>> f).1 = (f r.1).1.
Proof. unfold andThen. destruct r as [s e]. cbn. by destruct (f s). Qed.

Section manager.
Context (ErrorInfo : string -> option string).
Context (hardened : bool) (modulesRoot pcwd : string) (realpathSync readFileSync : string -> result string).
Context (existsSync semver_valid : string -> bool) (JSON_parse : string -> result jsval).
Context (moduleSandbox : string) (build : string -> string -> result (option sandbox)).

Lemma answer_same name c err s :
  let s' := (answer_caller ErrorInfo name c err s).1 in
  spawns s' = spawns s /\ modules s' = modules s /\ unloads s' = unloads s.
Proof. unfold answer_caller, count_module. cbn zeta. by repeat case_match. Qed.

Lemma set_called_id p : sp_called p = true -> set_called p = p.
Proof. destruct p. cbn. by intros ->. Qed.

Lemma done_changed i err s : changed i set_called s (done_ ErrorInfo i err s).1.
Proof.
  unfold done_. destruct (spawns s !! i) as [p|] eqn:Ep.
  - destruct (sp_called p) eqn:Ec.
    + split; [|done]. intros j. cbn. destruct (decide (i = j)) as [<-|]; [|done]. by rewrite Ep; cbn; rewrite set_called_id.
    + rewrite then_fst. destruct (answer_same (sp_name p) (sp_caller p) err (upd i set_called s)) as (E1 & E2 & E3).
      eapply changed_same; [done..|apply changed_upd].
  - split; [|done]. intros j. cbn. destruct (decide (i = j)) as [<-|]; [|done]. by rewrite Ep.
Qed.

(** A spawn changed by [f], and called back. *)
Lemma changed_done i f err s r : changed i f s r.1 -> changed i (fun p => set_called (f p)) s (r >>> done_ ErrorInfo i err).1.
Proof. intros H. rewrite then_fst. eapply changed_trans; [exact H|apply done_changed]. Qed.

Lemma changed_upd2 i f g s : changed i (fun p => g (f p)) s (upd i g (upd i f s)).
Proof. eapply changed_trans; apply changed_upd. Qed.

Lemma count_same s : let s' := (count_module s).1 in spawns s' = spawns s /\ modules s' = modules s /\ unloads s' = unloads s.
Proof. done. Qed.

(** A handler that makes one change of the spawn it is for. *)
Lemma mildly_upd x i g s : (forall p, spawns s !! i = Some p -> spawn_ok p -> mild x s p (g p)) -> mildly x i s (upd i g s).
Proof. intros H. eapply mildly_intro; [apply changed_upd|done]. Qed.

Lemma mildly_done x i g e err s :
  (forall p, spawns s !! i = Some p -> spawn_ok p -> mild x s p (set_called (g p))) ->
  mildly x i s ((upd i g s, e) >>> done_ ErrorInfo i err).1.
Proof. intros H. eapply mildly_intro; [apply changed_done, changed_upd|done]. Qed.

(** The worker told to end, and its caller the error. *)
Lemma mildly_failed x i e err s p :
  spawns s !! i = Some p -> pending (sp_stage p) = true -> started p = true ->
  mildly x i s ((upd i set_terminated (upd i (set_stage Over) s), e) >>> done_ ErrorInfo i err).1.
Proof.
  intros Ep Hp Hs. eapply mildly_intro; [apply changed_done, changed_upd2|]. intros p' E Hok. simplify_eq. by apply mild_failed.
Qed.

Ltac spawn_case := match goal with |- context [spawns ?s !! ?i] => destruct (spawns s !! i) as [p|] eqn:Ep; [|apply mildly_refl] end.
Ltac stage_case := case_bool_decide as Hst; [|apply mildly_refl].
Ltac started_by Hst := unfold started; by rewrite Hst.

Lemma options_mild x i err s : mildly x i s (options_reply ErrorInfo i err s).1.
Proof.
  unfold options_reply. spawn_case. stage_case. destruct err as [e|].
  - eapply mildly_failed; [done|by rewrite Hst|started_by Hst].
  - apply mildly_upd. intros p' E Hok. simplify_eq. by apply mild_reading.
Qed.

Lemma config_mild i s : inv None s -> mildly None i s (config_read i s).1.
Proof.
  intros I. unfold config_read. spawn_case. stage_case. destruct (sp_exited p) eqn:Ex; apply mildly_upd; intros p' E Hok; simplify_eq.
  - apply mild_over; rewrite ?Hst; [done|started_by Hst|done|]. by destruct (inv_exited _ _ I i p Ep Ex).
  - by apply mild_loading.
Qed.

Lemma load_error_mild x i e s : mildly x i s (load_reply ErrorInfo i (Some e) s).1.
Proof.
  unfold load_reply. spawn_case. stage_case. destruct (sp_called p) eqn:Ec.
  - apply mildly_upd. intros p' E Hok. simplify_eq. apply mild_over; rewrite ?Hst; [done|started_by Hst|done|].
    apply Hok; [done|by rewrite Hst].
  - eapply mildly_failed; [done|by rewrite Hst|started_by Hst].
Qed.

Lemma discover_mild x i s : mildly x i s (discover_reply i s).1.
Proof.
  unfold discover_reply. spawn_case. destruct (sp_discovering p); [|apply mildly_refl].
  eapply mildly_intro; [|intros p' E Hok; apply (mild_discovering x s p' Hok false)]. destruct (lookup_module _ _); [|apply changed_upd].
  by eapply changed_same; [..|apply changed_upd].
Qed.

Lemma enter_mild i s : exists s1, mildly None i s s1 /\ exists j, mildly None j s1 (enter_lock ErrorInfo i s).1.
Proof.
  unfold enter_lock. destruct (spawns s !! i) as [p|] eqn:Ep; [|exists s; split; [|exists i]; apply mildly_refl].
  case_bool_decide as Hst; [|exists s; split; [|exists i]; apply mildly_refl].
  assert (W : mildly None i s (upd i (set_stage Preparing) s)).
  { apply mildly_upd. intros p' E Hok. simplify_eq. by apply mild_waits. }
  destruct (live (sp_name p) s) as [w|].
  - destruct (is_restart (sp_caller p)).
    + exists s. split; [apply mildly_refl|]. exists i. apply mildly_done. intros p' E Hok. simplify_eq. apply mild_refused; auto.
    + exists (upd i (set_stage Preparing) s). split; [done|]. exists w. apply mildly_upd. intros. by apply mild_terminated.
  - exists (upd i (set_stage Preparing) s). split; [done|]. exists i. apply mildly_refl.
Qed.

Lemma prepared_mild i f s : mildly None i s (prepared ErrorInfo i f s).1.
Proof.
  unfold prepared. spawn_case. destruct (bool_decide _ && negb (bool_decide _)) eqn:E; [|apply mildly_refl].
  apply andb_prop in E as [Hst Hl]. apply bool_decide_eq_true in Hst. apply negb_true_iff, bool_decide_eq_false, eq_None_not_Some in Hl.
  destruct f.
  - apply mildly_done. intros p' E Hok. simplify_eq. apply mild_refused; auto.
  - apply mildly_upd. intros p' E Hok. simplify_eq. by apply mild_starts.
Qed.

(** A worker's end, before its module has loaded. *)
Lemma unexpected_mild x i reason off specs s p :
  spawns s !! i = Some p -> sp_stage p <> Loaded -> mildly x i s (onUnexpectedExit ErrorInfo i reason off specs s).1.
Proof.
  intros Ep Hst. unfold onUnexpectedExit. rewrite Ep. destruct (sp_exitReason p); [apply mildly_refl|].
  rewrite bool_decide_eq_false_2 by done. cbn [negb]. eapply mildly_intro.
  - eapply changed_trans; [apply changed_upd|apply done_changed].
  - intros p' E Hok. simplify_eq. by apply mild_ended.
Qed.

(** What is done in the middle of a handler keeps a reason that is recorded. *)
Lemma mildly_ended x i j s s' : mildly x i s s' -> inv x s -> ended j s -> ended j s'.
Proof.
  intros (g & (Hs & _) & Hg) I (p & Ep & Hr). unfold ended. rewrite Hs. destruct (decide (i = j)) as [<-|]; [|eauto].
  rewrite Ep. cbn. eexists. split; [done|]. apply (m_reason x s p (g p)); [|done]. apply Hg; [done|]. by apply (inv_spawns x s I i).
Qed.

(** The map's worker under a name is the one an unfinished unload of the name is of. *)
Lemma unload_owner x s u un m :
  inv x s -> unloads s !! u = Some un -> un_finished un = false -> lookup_module (un_name un) s = Some m -> m = un_worker un.
Proof.
  intros I Eu Hf Hm. destruct (inv_unloads _ _ I u un Eu) as (p & Ep & HL & Hn & Hx).
  destruct (inv_modules _ _ I _ m Hm) as (q & Eq & Hnq & HLq & Hxq & _).
  eapply (inv_unique _ _ I m (un_worker un) q p); [done|done|congruence|..]; (split; [unfold started|auto]); by rewrite ?HL, ?HLq.
Qed.

Lemma finish_inv x u s : inv x s -> inv x (finish_unload u s).1.
Proof.
  intros I. unfold finish_unload. destruct (unloads s !! u) as [un|] eqn:Eu; [|done].
  destruct (un_finished un) eqn:Ef; [done|]. pose proof (unload_owner x s u un) as Ho.
  destruct (inv_unloads _ _ I u un Eu) as (p & Ep & HL & Hn & Hx). pose proof (inv_spawns _ _ I _ p Ep) as Hok.
  rewrite then_fst. unfold unloadModule. change (lookup_module _ (with_unloads _ s)) with (lookup_module (un_name un) s).
  destruct (lookup_module (un_name un) s) as [m|] eqn:Em.
  - specialize (Ho m I Eu Ef eq_refl) as ->. rewrite <- Hn in Em |- *.
    apply (inv_finished x u (upd (un_worker un) set_terminated (with_modules (assoc_delete (sp_name p) (modules s)) s)) un Eu).
    + intros name. cbn. unfold lookup_module. cbn. rewrite assoc_delete_lookup.
      destruct (String.eqb_spec (sp_name p) name) as [|Hne]; [done|]. intros E.
      destruct (inv_modules _ _ I _ _ E) as (q & Eq & Hq & _). congruence.
    + eapply (inv_removed x (un_worker un) set_terminated); [exact Ep|exact Em|apply changed_upd|done..|by left| |done].
      apply (m_ok x s p). by apply mild_terminated.
  - apply (inv_finished x u (upd (un_worker un) set_terminated s) un Eu).
    + intros name E. change (lookup_module name s = Some (un_worker un)) in E.
      destruct (inv_modules _ _ I _ _ E) as (q & Eq & Hq & _). congruence.
    + eapply mildly_inv; [|exact I]. apply mildly_upd. intros. by apply mild_terminated.
Qed.

Lemma finish_marks u s : unloads (finish_unload u s).1 = alter set_finished u (unloads s).
Proof.
  unfold finish_unload. destruct (unloads s !! u) as [un|] eqn:Eu.
  - destruct (un_finished un) eqn:Ef.
    + cbn. apply list_eq. intros v. rewrite list_lookup_alter. destruct (decide (u = v)) as [<-|]; [|done]. rewrite Eu. cbn.
      f_equal. destruct un. cbn in *. by subst.
    + rewrite then_fst. cbn. unfold unloadModule. by case_match.
  - cbn. apply list_eq. intros v. rewrite list_lookup_alter. destruct (decide (u = v)) as [<-|]; [|done]. by rewrite Eu.
Qed.

(** A worker's end. *)
Lemma unexpected_inv x i reason off specs s : inv x s -> inv x (onUnexpectedExit ErrorInfo i reason off specs s).1.
Proof.
  intros I. destruct (spawns s !! i) as [p|] eqn:Ep; [|unfold onUnexpectedExit; by rewrite Ep].
  destruct (decide (sp_stage p = Loaded)) as [HL|HL]; [|eapply mildly_inv; [by eapply unexpected_mild|done]].
  pose proof (inv_spawns _ _ I i p Ep) as [H1 H2 H3 H4].
  unfold onUnexpectedExit. rewrite Ep. destruct (sp_exitReason p) eqn:Er; [done|]. set (why := default reason _).
  assert (Hok : spawn_ok (set_exitReason why p)).
  { split; cbn; rewrite ?HL; [|done..]. intros Hc. destruct (H1 Hc) as [Hp _]. by rewrite HL in Hp. }
  rewrite bool_decide_eq_true_2 by done. cbn [negb].
  change (lookup_module _ (upd _ _ s)) with (lookup_module (sp_name p) s).
  destruct (negb (bool_decide _) || sp_unloading p) eqn:E.
  - eapply (inv_marked x i (set_exitReason why) s _ p); [done|apply changed_upd|done..| | |done|done]; cbn; intros Hl.
    + rewrite bool_decide_eq_true_2 in E by done. by intros _.
    + rewrite bool_decide_eq_true_2 in E by done. intros _.
      destruct (inv_modules _ _ I _ i Hl) as (q & Eq & _ & _ & _ & _ & H). simplify_eq. by apply H.
  - apply orb_false_iff in E as [E _]. apply negb_false_iff, bool_decide_eq_true in E.
    rewrite then_fst. unfold unloadModule. change (lookup_module _ (upd _ _ s)) with (lookup_module (sp_name p) s). rewrite E. cbn [fst].
    assert (inv x (upd i (set_exitReason why) (with_modules (assoc_delete (sp_name p) (modules s)) s))) as I'.
    { eapply (inv_removed x i (set_exitReason why)); [exact Ep|exact E|apply changed_upd|done..|by right; right|done|done]. }
    destruct (sup _); cbn [fst]; [|exact I']. by eapply inv_same; [..|exact I'].
Qed.

Lemma changed_at_end i g s s1 s2 q :
  i = length (spawns s) -> spawns s1 = spawns s ++ [q] -> changed i g s1 s2 ->
  forall j, spawns s2 !! j = if decide (j = length (spawns s)) then Some (g q) else spawns s !! j.
Proof.
  intros -> E (H & _) j. rewrite H, E. destruct (decide (length (spawns s) = j)) as [<-|Hne].
  - rewrite decide_True by done. by rewrite list_lookup_middle.
  - rewrite decide_False by done. destruct (decide (j < length (spawns s))%nat).
    + by rewrite lookup_app_l by lia.
    + rewrite lookup_app_r by lia. rewrite !lookup_ge_None_2; [done|lia|cbn; lia].
Qed.

Notation spawnW := (spawnModuleWorker ErrorInfo hardened modulesRoot pcwd realpathSync readFileSync JSON_parse moduleSandbox build).
Notation byWorker := (loadModuleByWorker ErrorInfo hardened modulesRoot pcwd realpathSync readFileSync JSON_parse moduleSandbox build).

Lemma spawn_inv x path name version c s : inv x s -> inv x (spawnW path name version c s).1.
Proof using All.
  intros I. unfold spawnModuleWorker. destruct (spawn_refusal _ _ _ _ _ _ _ _ _ _).
  - set (q := new_spawn path name version c Refused). set (s1 := with_spawns (spawns s ++ [q]) s).
    pose proof (done_changed (length (spawns s)) (Some c0) s1) as Hc.
    eapply (inv_append x s _ (set_called q)); [by apply (changed_at_end _ _ s s1 _ q eq_refl eq_refl Hc)|apply Hc|apply Hc| |done..].
    by split.
  - set (q := new_spawn path name version c Locked). set (s1 := with_spawns (spawns s ++ [q]) s). cbn [fst].
    eapply (inv_append x s s1 q); [|done|done|by split|done..].
    eapply (changed_at_end _ id s s1 s1 q eq_refl eq_refl). split; [|done]. intros j. case_decide as E; [|done].
    rewrite E. by destruct (spawns s1 !! j).
Qed.

Lemma by_worker_inv x path name version c s : inv x s -> inv x (byWorker path name version c s).1.
Proof using All.
  intros I. unfold loadModuleByWorker. assert (inv x (clear_sup name s)) by (by eapply inv_same; [..|exact I]).
  destruct (lookup_module name (clear_sup name s)) as [w|] eqn:E; [by apply inv_begin|by apply spawn_inv].
Qed.

Lemma load_inv s i err : inv None s -> inv None (load_reply ErrorInfo i err s).1.
Proof.
  intros I. destruct err as [e|]; [eapply mildly_inv; [apply load_error_mild|done]|].
  unfold load_reply. destruct (spawns s !! i) as [p|] eqn:Ep; [|done]. case_bool_decide as Hst; [|done].
  pose proof (inv_spawns _ _ I i p Ep) as Hok. destruct (sp_called p) eqn:Ec.
  - eapply mildly_inv; [|done]. apply mildly_upd. intros p' E _. simplify_eq.
    apply mild_over; rewrite ?Hst; [done|started_by Hst|done|]. apply Hok; [done|by rewrite Hst].
  - destruct (still_wanted _ _ _); cbn [negb].
    2: { eapply mildly_inv; [eapply mildly_failed; [done|by rewrite Hst|started_by Hst]|done]. }
    destruct (ok_owed p Hok Ec) as [_ Hr].
    assert (Hex : sp_exited p = false). { destruct (sp_exited p) eqn:E; [|done]. by destruct (inv_exited _ _ I i p Ep E). }
    assert (Hnone : lookup_module (sp_name p) s = None).
    { destruct (lookup_module (sp_name p) s) as [m|] eqn:Em; [|done]. exfalso.
      destruct (inv_modules _ _ I _ m Em) as (q & Eq & Hnq & HLq & Hxq & _).
      assert (m = i) as ->; [|congruence].
      eapply (inv_unique _ _ I m i q p); [done..| |]; (split; [unfold started|auto]); by rewrite ?HLq, ?Hst. }
    rewrite !then_fst. unfold onModuleLoad. cbn [fst].
    change (lookup_module _ (upd _ _ (with_sup _ _))) with (lookup_module (sp_name p) s). rewrite Hnone. rewrite then_fst. cbn [fst].
    assert (Hun : sp_unloading p = false).
    { destruct (sp_unloading p) eqn:E; [|done]. apply Hok in E. congruence. }
    eapply (inv_registered i (fun p => set_called (set_discovering true (set_stage Loaded p)))); [exact Ep| |done|done| | |done|done|done|done|done| |exact I].
    + eapply changed_trans; [|apply done_changed]. eapply changed_trans; [|apply changed_upd].
      split; [|done]. intros j. cbn. by rewrite list_lookup_alter.
    + started_by Hst.
    + by rewrite Hst.
    + by split.
Qed.

Lemma unexpected_ended i reason off specs s : is_Some (spawns s !! i) -> ended i (onUnexpectedExit ErrorInfo i reason off specs s).1.
Proof.
  intros [p Ep]. unfold onUnexpectedExit. rewrite Ep. destruct (sp_exitReason p) eqn:Er; [exists p; by rewrite Er|].
  set (why := default reason _).
  assert (H : forall s', (forall j, spawns s' !! j = spawns (upd i (set_exitReason why) s) !! j) -> ended i s').
  { intros s' E. exists (set_exitReason why p). rewrite E. split; [|done]. cbn. by rewrite list_lookup_alter_eq, Ep. }
  destruct (negb (bool_decide _)).
  - destruct (done_changed i (Some (LOAD_MODULE_FAIL (sp_name p) ("worker ended while loading: " +:+ why))) (upd i (set_exitReason why) s)) as [E _].
    eexists. rewrite E, decide_True by done. cbn [spawns upd with_spawns]. rewrite list_lookup_alter_eq, Ep. by split.
  - destruct (_ || _); [by apply H|]. rewrite then_fst. apply H. unfold unloadModule. by repeat case_match.
Qed.

Lemma finish_ended i u s : ended i s -> ended i (finish_unload u s).1.
Proof.
  intros (p & Ep & Hr). unfold finish_unload. destruct (unloads s !! u) as [un|]; [|by exists p].
  destruct (un_finished un); [by exists p|]. rewrite then_fst. unfold ended. cbn [fst upd spawns with_spawns].
  rewrite list_lookup_alter. assert (spawns (unloadModule (un_name un) "CLEANUP MODULE INFO IN MAIN THREAD"
    (with_unloads (alter set_finished u (unloads s)) s)).1 = spawns s) as -> by (unfold unloadModule; by case_match).
  destruct (decide (un_worker un = i)) as [->|]; [|by exists p]. exists (set_terminated p). by rewrite Ep.
Qed.

(** Every unload of the list is finished, and none begins. *)
Lemma finish_all x i l s :
  inv x s -> ended i s -> let s' := (for_all l finish_unload s).1 in
  inv x s' /\ ended i s' /\
  forall u un', unloads s' !! u = Some un' -> exists un, unloads s !! u = Some un /\ un_worker un' = un_worker un /\
    (un_finished un' = false -> un_finished un = false /\ u ∉ l).
Proof.
  revert s. induction l as [|v l IH]; intros s I He; cbn [for_all]; cbn zeta.
  - split_and!; [done..|]. intros u un' E. exists un'. split_and!; try done. intros. split; [done|]. by apply not_elem_of_nil.
  - rewrite then_fst. destruct (IH (finish_unload v s).1) as (I' & He' & Hu); [by apply finish_inv|by apply finish_ended|].
    split_and!; [done..|]. intros u un' E. destruct (Hu u un' E) as (un1 & E1 & -> & Hf). rewrite finish_marks, list_lookup_alter in E1.
    destruct (decide (v = u)) as [<-|Hne].
    + destruct (unloads s !! v) as [un|]; [|done]. injection E1 as <-. exists un. split_and!; try done. intros H. by destruct (Hf H).
    + exists un1. split_and!; [done..|]. intros H. destruct (Hf H). split; [done|].
      apply not_elem_of_cons. auto.
Qed.

Lemma waiting_all i s u un :
  unloads s !! u = Some un -> un_worker un = i -> un_finished un = false -> u ∈ waiting_unloads i s.
Proof.
  intros Eu Hw Hf. unfold waiting_unloads. apply list_elem_of_In, filter_In. split.
  - apply in_seq. apply lookup_lt_Some in Eu. lia.
  - by rewrite Eu, Hf, bool_decide_eq_true_2.
Qed.

Lemma exit_inv i code err specs s : inv None s -> inv None (worker_exit ErrorInfo i code err specs s).1.
Proof.
  intros I. unfold worker_exit. destruct (spawns s !! i) as [p|] eqn:Ep; [|done].
  destruct (started p && negb (sp_exited p)) eqn:E; [|done]. apply andb_prop in E as [_ E]. apply negb_true_iff in E.
  pose proof (inv_exiting i s p Ep E I) as I1. rewrite !then_fst. cbn [fst].
  set (s1 := (onUnexpectedExit _ _ _ _ _ _).1).
  assert (I2 : inv (Some i) s1) by (by apply unexpected_inv).
  assert (E2 : ended i s1). { apply unexpected_ended. cbn. rewrite list_lookup_alter_eq, Ep. by eexists. }
  unfold end_with. rewrite !then_fst.
  assert (M : forall s s', mildly (Some i) i s s' -> inv (Some i) s -> ended i s -> inv (Some i) s' /\ ended i s').
  { intros s' s'' Hm I' E'. split; [by eapply mildly_inv|by eapply mildly_ended]. }
  destruct (M _ _ (options_mild (Some i) i (Some err) s1) I2 E2) as [I3 E3].
  destruct (M _ _ (load_error_mild (Some i) i err _) I3 E3) as [I4 E4].
  destruct (M _ _ (discover_mild (Some i) i _) I4 E4) as [I5 E5].
  set (s4 := (discover_reply i _).1) in *. destruct (finish_all (Some i) i (waiting_unloads i s4) s4 I5 E5) as (I6 & E6 & Hu).
  eapply inv_closed; [exact E6| |exact I6]. intros u un' Eu Hw. destruct (Hu u un' Eu) as (un & Eun & Hw' & Hf).
  destruct (un_finished un') eqn:Ef; [done|]. destruct (Hf eq_refl) as [Hf1 Hf2]. exfalso. apply Hf2.
  eapply waiting_all; [exact Eun|congruence|done].
Qed.

Notation stepW := (step ErrorInfo hardened modulesRoot pcwd realpathSync readFileSync existsSync semver_valid JSON_parse moduleSandbox build).
Notation runW := (run ErrorInfo hardened modulesRoot pcwd realpathSync readFileSync existsSync semver_valid JSON_parse moduleSandbox build).

Lemma load_path_inv path name version c s :
  inv None s -> inv None (loadModuleFromPath ErrorInfo hardened modulesRoot pcwd realpathSync readFileSync JSON_parse moduleSandbox build
    path name version c s).1.
Proof using All.
  intros I. unfold loadModuleFromPath.
  assert (forall e, inv None (answer_caller ErrorInfo name c e s).1) by (intros; eapply inv_same; [apply answer_same..|done]).
  repeat case_match; [done..|by apply by_worker_inv].
Qed.

Lemma terminated_inv u s :
  inv None s -> inv None (terminated ErrorInfo hardened modulesRoot pcwd realpathSync readFileSync JSON_parse moduleSandbox build u s).1.
Proof using All.
  intros I. unfold terminated. repeat case_match; try done. pose proof (inv_over None u s I) as I'.
  unfold run_next. destruct (un_then _); [done|by apply spawn_inv|by apply by_worker_inv].
Qed.

Lemma reload_inv path n s :
  inv None s -> inv None (reloadModule ErrorInfo hardened modulesRoot pcwd realpathSync readFileSync existsSync semver_valid JSON_parse
    moduleSandbox build path n s).1.
Proof using All.
  intros I. unfold reloadModule. repeat case_match; try done; [by apply by_worker_inv|..].
  all: rewrite !then_fst; cbn [fst tell]; unfold unloadModule.
  - match goal with H : lookup_module _ s = Some ?w |- _ => rename w into m; rename H into Hm end.
    change (lookup_module _ (upd _ _ s)) with (lookup_module s0 s). rewrite Hm. cbn [fst].
    destruct (inv_modules _ _ I s0 m Hm) as (p & Ep & <- & _).
    eapply (inv_removed None m set_dropped); [exact Ep|exact Hm|exact (changed_upd m set_dropped (with_modules _ s))|done..|by right; left| |done].
    apply (m_ok None s p), mild_dropped, (inv_spawns _ _ I m p Ep).
  - match goal with H : lookup_module _ s = None |- _ => by rewrite H end.
Qed.

Lemma step_inv ev s : inv None s -> inv None (stepW ev s).1.
Proof using All.
  intros I. destruct ev; cbn [step].
  - by eapply inv_same; [..|exact I].
  - unfold next_startup. repeat case_match; try done. apply load_path_inv. by eapply inv_same; [..|exact I].
  - by apply load_path_inv.
  - unfold unloadModuleExternal. assert (inv None (clear_sup name s)) by (by eapply inv_same; [..|exact I]).
    destruct (lookup_module name (clear_sup name s)) eqn:E; [by apply inv_begin|done].
  - unfold restartModule. repeat case_match; try done; try by apply by_worker_inv.
    all: apply inv_begin; [done|by eapply inv_same; [..|exact I]].
  - by apply reload_inv.
  - destruct (enter_mild i s) as (s1 & M1 & j & M2). eapply mildly_inv; [exact M2|]. by eapply mildly_inv.
  - eapply mildly_inv; [apply prepared_mild|done].
  - eapply mildly_inv; [apply options_mild|done].
  - eapply mildly_inv; [by apply config_mild|done].
  - by apply load_inv.
  - eapply mildly_inv; [apply discover_mild|done].
  - eapply mildly_inv; [apply mildly_upd; intros; by apply mild_online|done].
  - repeat case_match; try done. eapply mildly_inv; [apply mildly_upd; intros; by apply mild_killed|done].
  - unfold worker_error. repeat case_match; try done; by apply unexpected_inv.
  - by apply exit_inv.
  - by apply finish_inv.
  - by apply finish_inv.
  - by apply terminated_inv.
  - unfold restart_fires. repeat case_match; try done; try (by eapply inv_same; [..|exact I]).
    apply spawn_inv. by eapply inv_same; [..|exact I].
  - by eapply inv_same; [..|exact I].
Qed.

Lemma new_inv supervised : inv None (new_manager supervised).
Proof. by split. Qed.

Lemma manager_run_inv evs s : inv None s -> inv None (runW evs s).1.
Proof using All.
  revert s. induction evs as [|ev evs IH]; intros s I; cbn [run]; [done|]. rewrite then_fst. by apply IH, step_inv.
Qed.
End manager.

(** ** Properties *)

(** The requests [n] among the events. *)
Definition asked (n : nat) (evs : list event) : nat := sum_list (map (asks n) evs).

(** C15: Loading, unloading, restarting and reloading a module answer each
    request exactly once: after any events -- locks entered, worker replies,
    errors, exits, kills and timers in any order -- the answers a request has
    had and the places it still waits at are as many as the times it was made.
    A spawn that has not called back has a worker still being prepared or
    loading, whose end has not been seen: what a worker that has ended still
    owed is never left waiting. *)
Theorem requests_answered_once ErrorInfo hardened modulesRoot pcwd realpathSync readFileSync existsSync semver_valid JSON_parse
    moduleSandbox build (evs : list event) (supervised : option Z) :
  let r := run ErrorInfo hardened modulesRoot pcwd realpathSync readFileSync existsSync semver_valid JSON_parse moduleSandbox build
             evs (new_manager supervised) in
  (forall n, answers n r.2 + waiting n r.1 = asked n evs)%nat /\
  forall i p, spawns r.1 !! i = Some p -> sp_called p = false ->
    pending (sp_stage p) = true /\ sp_exitReason p = None /\ sp_exited p = false.
Proof.
  cbn zeta. split.
  - intros n. exact (run_conserves ErrorInfo hardened modulesRoot pcwd realpathSync readFileSync existsSync semver_valid JSON_parse
      moduleSandbox build n evs (new_manager supervised)).
  - intros i p Ep Hc. pose proof (manager_run_inv ErrorInfo hardened modulesRoot pcwd realpathSync readFileSync existsSync semver_valid JSON_parse
      moduleSandbox build evs _ (new_inv supervised)) as I.
    destruct (ok_owed p (inv_spawns _ _ I i p Ep) Hc) as [Hp Hr]. split_and!; [done..|].
    destruct (sp_exited p) eqn:E; [|done]. by destruct (inv_exited _ _ I i p Ep E).
Qed.

(** C14: Whatever the order of loads, reloads, restarts, unloads, crashes and
    exits: the map of modules names, for each name, a worker that loaded that
    module and has not exited; no two workers of one name run; and every
    worker that runs is on the map under its name, or still loading, or has
    been told to terminate, or has already reported its end -- or was taken
    off the map by a reload whose version was not valid. An unload that waits
    for its worker's answer is of the worker the name still has on the map,
    if any. *)
Theorem workers_accounted ErrorInfo hardened modulesRoot pcwd realpathSync readFileSync existsSync semver_valid JSON_parse
    moduleSandbox build (evs : list event) (supervised : option Z) :
  let s := (run ErrorInfo hardened modulesRoot pcwd realpathSync readFileSync existsSync semver_valid JSON_parse moduleSandbox build
             evs (new_manager supervised)).1 in
  (forall name i, lookup_module name s = Some i ->
     exists p, spawns s !! i = Some p /\ sp_name p = name /\ sp_stage p = Loaded /\ sp_exited p = false) /\
  (forall name i j p q, spawns s !! i = Some p -> spawns s !! j = Some q ->
     live_of name p = true -> live_of name q = true -> i = j) /\
  (forall i p, spawns s !! i = Some p -> started p = true -> sp_exited p = false ->
     lookup_module (sp_name p) s = Some i \/ pending (sp_stage p) = true \/ sp_terminated p = true \/ sp_exitReason p <> None \/
     sp_dropped p = true) /\
  (forall u un m, unloads s !! u = Some un -> un_finished un = false -> lookup_module (un_name un) s = Some m -> m = un_worker un).
Proof.
  cbn zeta. set (s := (run _ _ _ _ _ _ _ _ _ _ _ _ _).1). assert (I : inv None s) by apply manager_run_inv, new_inv. clearbody s. split_and!.
  - intros name i E. destruct (inv_modules _ _ I name i E) as (p & Ep & Hn & HL & [Hx|] & _); [|done]. by exists p.
  - intros name i j p q Ep Eq Hp Hq. unfold live_of in *.
    apply andb_prop in Hp as [Hp Hn%String.eqb_eq]. apply andb_prop in Hq as [Hq Hn'%String.eqb_eq].
    apply andb_prop in Hp as [Hp Hx%negb_true_iff]. apply andb_prop in Hq as [Hq Hx'%negb_true_iff].
    eapply (inv_unique _ _ I i j p q); [done|done|congruence|..]; (split; [done|by left]).
  - intros i p Ep Hst Hx. pose proof (inv_spawns _ _ I i p Ep) as Hok. destruct (sp_stage p) eqn:E; auto.
    + destruct (inv_kept _ _ I i p Ep E) as [?|[?|[?|?]]]; auto.
    + destruct (ok_over p Hok E); auto.
    + unfold started in Hst. by rewrite E in Hst.
  - intros u un m Eu Hf Hm. by eapply unload_owner.
Qed.

(** ** A small server *)

(** Modules [m] and [n], whose package.json give a version that is not one. *)
Definition demo_package (path : string) : jsval :=
  JObj [("name"%string, JStr (if String.eqb path "/n/package.json" then "n" else "m")); ("version"%string, JStr "one")].
Definition demo_run (evs : list event) (s : mm) : res :=
  run (fun _ => None) false "/" "/" Ok Ok (fun _ => true) (fun v => String.eqb v "1.0.0") (fun path => Ok (demo_package path))
    "off" (fun _ _ => Ok None) evs s.

(** What brings the spawn [i] up. *)
Definition brought_up (i : nat) : list event := [EntersLock i; Prepared i None; OptionsReply i None; ConfigRead i; LoadReply i None].
Definition demo_error : cherr := Error_ "worker ended".
Definition discovered_all (effs : list effect) : bool := List.existsb (fun e => match e with AllModuleDiscovered => true | _ => false end) effs.

(** A start-up module whose worker ends before its discover reply is never
    counted: with no supervisor, the start-up is never complete. *)
Example startup_exit_uncounted :
  let r := demo_run ([StartUp [("/m"%string, "m"%string, None)]; NextStartup] ++ brought_up 0 ++
             [WorkerExit 0 "1" demo_error []; DiscoverReply 0; NextStartup]) (new_manager None) in
  (noofLoadedModules r.1, noofTotalModules r.1, startup r.1) = (0%nat, 1%nat, []) /\ discovered_all r.2 = false /\
  forallb (fun p => sp_called p && negb (sp_discovering p)) (spawns r.1) = true.
Proof. vm_compute. by split_and!. Qed.

(** A supervised module that restarts while the server starts is counted again:
    the start-up is complete with a module that is still loading. *)
Example restart_counted_twice :
  let r := demo_run ([StartUp [("/m"%string, "m"%string, None); ("/n"%string, "n"%string, None)]; NextStartup] ++ brought_up 0 ++
             [DiscoverReply 0; NextStartup; EntersLock 1; Prepared 1 None; WorkerExit 0 "1" demo_error []; Elapses 1000; RestartFires "m"] ++
             brought_up 2 ++ [DiscoverReply 2]) (new_manager (Some 0%Z)) in
  discovered_all r.2 = true /\ option_map sp_stage (spawns r.1 !! 1%nat) = Some SettingOptions.
Proof. vm_compute. by split. Qed.

(** A reload with a version that is not valid takes the module off the map, and
    its worker is neither told to unload nor ended. *)
Example reload_leaves_worker :
  let r := demo_run ([LoadModule "/m" "m" (Some "1.0.0"%string) 0] ++ brought_up 0 ++ [DiscoverReply 0; ReloadModule "/m" 1]) (new_manager None) in
  modules r.1 = [] /\ live "m" r.1 = Some 0%nat /\
  List.existsb (fun e => match e with SendUnload _ | Terminate _ => true | _ => false end) r.2 = false /\ answers 1 r.2 = 1%nat.
Proof. vm_compute. by split_and!. Qed.
