(* ===== verification/Routes.v ===== *)
(** * The HTTP routes (lib/route-manager.js, lib/routes/)

    What a request goes through from the server's first middleware to the
    handler that answers it: the checks of host and origin, the parsers of
    bodies, the caller's check before a BSON body is read, and the stack of each
    route. What a handler then asks (the provider, the metering interface, the
    job queue, the device and module managers) is a request of the program;
    those parts have files of their own. That express calls a route's stack in
    order, for the paths it is mounted on, is express's. *)
From Stdlib Require Import ZArith Lia Ascii String.
From stdpp Require Import prelude strings gmap.
From S2P Require Import Prelude Paths Json Errors Session Auth Prog JobControl Metering.

Set Default Proof Using "Type".

(** ** Requests to the server *)

Inductive http_method := GET | POST.

#[export] Instance http_method_eq_dec : EqDecision http_method.
Proof. solve_decision. Defined.

(** The route express matched; [Elsewhere] is a path below a mount that none
    of its routes is. *)
Inductive admin_route := GetModuleDeviceList | ReloadModule | Shutdown | LoadModule | UnloadModule | RestartModule | UninstallModule | AdminElsewhere.
Inductive device_route := InvokeAction | GetSpec | Schema (path : string) | PackageInfo | AddJob | GetJob | GetJobHistory | RemoveJob | DeviceElsewhere.
Inductive target :=
| McpRoute
| BalanceRoute
| DeviceListRoute
| AdminRoute (r : admin_route)
| DeviceRoute (deviceID : string) (r : device_route)
| NoRoute.

(** A body as its parser left it, or the status of the parser's error. *)
Record request := mkReq {
  rq_method : http_method;
  rq_target : target;
  rq_headers : list (string * string);        (* by lower-case name *)
  rq_json : Z + jsval;                        (* what express.json and express.xml make of the body *)
  rq_bson : bool;                             (* [req.is(BSON_TYPES)] *)
  rq_raw : Z + (string + jsval)               (* express.raw's error, or what [BSON.deserialize] makes of the buffer *)
}.

(** [req.get(name)] *)
Definition header (name : string) (q : request) : jsval :=
  match assoc (lowercase name) (rq_headers q) with Some v => JStr v | None => JUndef end.

(** [req.body]: a buffer has none of the members the routes read. *)
Definition body (q : request) : jsval :=
  if rq_bson q then JObj [] else match rq_json q with inr b => b | inl _ => JObj [] end.

(** ** What the routes ask *)

Inductive module_op :=
| OpDeviceList (name : jsval)
| OpReload (path : jsval)
| OpLoad (path name version : jsval)
| OpUnload (name : jsval)
| OpRestart (path name version : jsval)
| OpUninstall (name : jsval) (keepData : bool).

Inductive device_op :=
| DoInvoke (deviceID : string) (serviceID actionName input : jsval) (s : session)
| DoGetSpec (deviceID : string) (s : session)
| DoGetSchema (deviceID path : string) (s : session).

Inductive job_op :=
| DoAdd (opts deviceID serviceID actionName input : jsval)
| DoGet (id : jsval)
| DoHistory (name : jsval)
| DoRemove (name id isRepeat : jsval).

Inductive list_reply := ListErr (code : jsval) (message : string) | ListOk (result : jsval) | ListThrew.

Inductive rtE : Type -> Type :=
| AskAuth (appKey deviceID serviceID actionName : jsval) : rtE (called auth_result)
| AskDevices (appKey : jsval) : rtE list_reply
| AskRate (appKey : jsval) : rtE rate_reply
| AskBalance (appKey : jsval) : rtE (cherr + jsval)
| AskSpecs : rtE (list (string * jsval))
| AskModule (op : module_op) : rtE (option cherr * jsval)
| ReadPackageName (path : jsval) : rtE jsval
| AskPackageInfo (deviceID : string) : rtE (cherr + jsval)
| AskJob (ctx : auth_ctx) (op : job_op) : rtE cb_result
| HandMcp (body appKey : jsval) : rtE unit
| HandDevice (op : device_op) : rtE unit
| HandDeviceList (s : session) : rtE unit
| Exit : rtE unit
| Effect (e : effect) : rtE unit.

Definition handler : Type := prog rtE unit.

Fixpoint emit (es : list effect) : handler :=
  match es with
  | [] => Ret tt
  | e :: es => do _ <- ask (Effect e) in emit es
  end.
Definition respond (status : Z) (v : jsval) : handler := emit [Respond status v].

(** ** Origin and host *)

Record route_options := mkRoutes {
  ro_auth : options;
  ro_port : string;
  ro_allowedOrigins : list string
}.

Definition all_digits (s : string) : bool :=
  forallb (fun c => let n := nat_of_ascii c in (48 <=? n) && (n <=? 57))%nat (list_ascii_of_string s).
Definition octet (s : string) : bool := all_digits s && (1 <=? String.length s)%nat && (String.length s <=? 3)%nat.

(** The regular expression [loopbackHost], without its port. *)
Definition loopback_name (h : string) : bool :=
  String.eqb (lowercase h) "localhost" || String.eqb h "[::1]" ||
  match split_on "."%char h with
  | [a; b; c; d] => String.eqb a "127" && octet b && octet c && octet d
  | _ => false
  end.
Definition loopbackHost (port h : string) : bool :=
  loopback_name h ||
  (ends_with (":" +:+ port) h && loopback_name (stake (String.length h - S (String.length port)) h)).

Definition refuse (code message : string) : jsval :=
  JObj [("topic", JStr "request"); ("code", JStr code); ("message", JStr message)].

Section routes.
Context (ErrorInfo : string -> option string) (metering : bool) (mcpToolCallCost : Z) (monitor : bool).
Context (o : route_options).

(** [originChecks]: the refusal, if any. *)
Definition originChecks (q : request) : option jsval :=
  let host := match header "host" q with JStr h => h | _ => "" end in
  if o_debug (ro_auth o) && is_nullish (o_debugKey (ro_auth o)) && negb (loopbackHost (ro_port o) host)
  then Some (refuse "HOST_NOT_ALLOWED" "this --debug server answers only requests addressed to its loopback address")
  else match header "origin" q with
       | JStr origin =>
           if includes origin (ro_allowedOrigins o) then None
           else Some (refuse "ORIGIN_NOT_ALLOWED" ("origin " +:+ stake 100 origin +:+ " is not allowed (--allowedOrigins)"))
       | _ => None
       end.

(** The last handler, of errors no route answered; [status] is [err.status],
    when it is an integer. *)
Definition error_answer (status : option Z) : Z * jsval :=
  let status := (match status with Some z => if (400 <=? z) && (z <? 600) then z else 500 | None => 500 end)%Z in
  let code := if (status =? 413)%Z then "REQUEST_TOO_LARGE"%string else if (status <? 500)%Z then "REQUEST_INVALID"%string else "SYSTEM_ERROR"%string in
  let message := if (status =? 413)%Z then "request body too large"%string
                 else if (status <? 500)%Z then "request body could not be read"%string else "internal error"%string in
  (status, refuse code message).
Definition answer_error (status : option Z) : handler := let '(z, b) := error_answer status in respond z b.

(** ** Callers *)

(** The first of the three headers that is there; and the first that is not
    empty. *)
Definition callerKey (q : request) : jsval :=
  let k := header "X-CH-Key" q in
  let a := header "X-App-Key" q in
  let z := header "Authorization" q in
  if negb (is_nullish k) then k else if negb (is_nullish a) then a else if negb (is_nullish z) then z else JNull.
Definition truthyKey (q : request) : jsval :=
  let k := header "X-CH-Key" q in
  let a := header "X-App-Key" q in
  if truthy k then k else if truthy a then a else header "Authorization" q.

(** The one answer a provider gives, as a provider. *)
#[local] Instance OneAnswer : AuthProvider (called auth_result) := {
  authenticate := fun r _ _ _ _ => (r, r);
  listDevices := fun r _ => (r, Failed "")
}.

(** [doUserAuth] asks the provider only outside --debug, and only about a key. *)
Definition userAuth (b deviceID appKey serviceID actionName : jsval) : prog rtE user_auth :=
  let finish r := (doUserAuth (ro_auth o) r b deviceID appKey serviceID actionName false).2 in
  if o_debug (ro_auth o) || is_nullish appKey then Ret (finish (Failed ""))
  else do r <- ask (AskAuth appKey deviceID serviceID actionName) in Ret (finish r).

Definition error_json (e : cherr) : jsval := JObj (error_body ErrorInfo e).

(** A middleware that lets a caller on with its session, or answers. *)
Definition with_session (status : Z) (m : prog rtE user_auth) (next : session -> handler) : handler :=
  do r <- m in
  match r with
  | Refused e => respond status (error_json e)
  | AuthThrew _ => answer_error None
  | Accepted s => next s
  end.

(** [validateUser]: the service and the action from the body, or both from the
    headers. *)
Definition named_action (b : jsval) (q : request) : jsval * jsval :=
  let s := jget "serviceID" b in
  let a := jget "actionName" b in
  if is_nullish s || is_nullish a then (header "serviceID" q, header "actionName" q) else (s, a).
Definition validateUser (deviceID : string) (b : jsval) (q : request) : prog rtE user_auth :=
  let '(serviceID, actionName) := named_action b q in
  userAuth b (JStr deviceID) (callerKey q) serviceID actionName.

Definition adminOnly (q : request) (next : session -> handler) : handler :=
  with_session 403 (userAuth (body q) JNull (callerKey q) JNull JNull) (fun s =>
    if negb (s_isAdmin s) then respond 403 (error_json (CHError "ADMIN_REQUIRED" [])) else next s).

(** [rateLimitGate.guard] *)
Definition guard (s : session) (next : handler) : handler :=
  if is_nullish (s_appKey s) then next
  else do r <- ask (AskRate (s_appKey s)) in
       match guardRequest (Some (fun _ => r)) (Some s) with
       | Deny status e => respond status (error_json e)
       | Go _ => next
       end.

(** [session.callbackWithoutTimer(err, data)] *)
Definition answer (s : session) (err : option cherr) (data : jsval) : handler :=
  emit (callbackWithoutTimer ErrorInfo metering mcpToolCallCost monitor s err data).2.

(** The same, with a string for an error: it has none of an error's members. *)
Definition answer_text (s : session) : handler :=
  respond 500 (JObj [("topic", JUndef); ("code", JUndef); ("message", JUndef)]).

(** *** The device routes (lib/routes/) *)

(** [findKeyInsensitive]: the first member whose name is [key] whatever the
    case of its letters. *)
Definition findKeyInsensitive (obj : jsval) (key : string) : jsval :=
  match obj with
  | JObj kvs => match List.find (fun kv => String.eqb (lowercase kv.1) (lowercase key)) kvs with Some kv => kv.2 | None => JNull end
  | _ => JNull
  end.

Definition ALLOWED_JOB_OPTS : list string := ["name"; "attempts"; "delay"; "timeout"; "repeat"].

(** An array has none of the members asked for. *)
Definition pickJobOpts (raw : jsval) : jsval :=
  match raw with
  | JObj _ => JObj (omap (fun k => match jget k raw with JUndef => None | v => Some (k, v) end) ALLOWED_JOB_OPTS)
  | JArr _ => JObj []
  | _ => raw
  end.

Definition ctx_of (s : session) : auth_ctx := Ctx (s_appKey s) (JBool (s_isAdmin s)).

(** A job operation behind the rate limit; [shape] makes the answer of the
    value. *)
Definition job_route (s : session) (op : job_op) (shape : jsval -> jsval) : handler :=
  guard s (do r <- ask (AskJob (ctx_of s) op) in
           match r with
           | CbErr e => answer s (Some e) JUndef
           | CbErrText _ _ => answer_text s
           | CbOk v => answer s None (shape v)
           end).

Definition named (s : session) (data : jsval) (next : jsval -> jsval -> handler) : handler :=
  let serviceID := findKeyInsensitive data "serviceID" in
  let actionName := findKeyInsensitive data "actionName" in
  if is_nullish serviceID then answer s (Some (CHError "SERVICEID_NOT_AVAILABLE" [])) JUndef
  else if is_nullish actionName then answer s (Some (CHError "ACTIONNAME_NOT_AVAILABLE" [])) JUndef
  else next serviceID actionName.

(** The content type is compared as it is, and a type with parameters is no
    ["application/bson"]: then the body is a buffer, with no such member. *)
Definition exact_bson (q : request) : bool := strict_eq (header "Content-Type" q) (JStr "application/bson").
Definition invoke_action (deviceID : string) (s : session) (q : request) : handler :=
  let go data := named s data (fun serviceID actionName =>
    let s := with_tool s (Some (encodeLegacyTool deviceID (js_text serviceID) (js_text actionName))) in
    ask (HandDevice (DoInvoke deviceID serviceID actionName (jget "input" data) s))) in
  if exact_bson q then
    match rq_raw q with
    | inr (inr data) => go data
    | inr (inl message) => answer s (Some (CHError "INVALID_BSON_REQUEST" [JStr message])) JUndef
    | inl _ => answer s (Some (CHError "INVALID_BSON_REQUEST" [])) JUndef
    end
  else go (body q).

Definition add_job (deviceID : string) (s : session) (q : request) : handler :=
  named s (body q) (fun serviceID actionName =>
    job_route s (DoAdd (pickJobOpts (jget "opts" (body q))) (JStr deviceID) serviceID actionName (jget "input" (body q))) id).

Definition package_info (deviceID : string) (s : session) : handler :=
  guard s (do r <- ask (AskPackageInfo deviceID) in
           match r with
           | inl e => answer s (Some e) JUndef
           | inr info =>
               if is_nullish info then answer s (Some (Error_ "null package info")) JUndef
               else answer s None (JObj [("name", jget "name" info); ("version", jget "version" info)])
           end).

(** express's answer where no handler is. *)
Definition not_found : handler := respond 404 JUndef.

Definition history_of (v : jsval) : jsval := match v with JArr rs => JArr (map publicRecord rs) | _ => v end.

Definition device_route_of (deviceID : string) (r : device_route) (s : session) (q : request) : handler :=
  let b := body q in
  match rq_method q, r with
  | POST, InvokeAction => invoke_action deviceID s q
  | GET, GetSpec => ask (HandDevice (DoGetSpec deviceID s))
  | GET, Schema path => ask (HandDevice (DoGetSchema deviceID path s))
  | GET, PackageInfo => package_info deviceID s
  | POST, AddJob => add_job deviceID s q
  | POST, GetJob => job_route s (DoGet (jget "id" b)) publicRecord
  | POST, GetJobHistory => job_route s (DoHistory (jget "name" b)) history_of
  | POST, RemoveJob => job_route s (DoRemove (jget "name" b) (jget "id" b) (jget "isRepeat" b)) id
  | _, _ => not_found
  end.

(** *** The module routes *)

Definition debug_session (q : request) : session := Session_ (JStr "debug") (JStr "debug") JNull false (body q).

(** A module operation; what it gives is not shown, but for the one list. *)
Definition module_route (q : request) (op : module_op) (shape : jsval -> jsval) : handler :=
  do r <- ask (AskModule op) in
  match r with
  | (Some e, _) => answer (debug_session q) (Some e) JUndef
  | (None, v) => answer (debug_session q) None (shape v)
  end.

Definition load_module (q : request) : handler :=
  let path := jget "path" (body q) in
  let version := jget "version" (body q) in
  do name <- (match jget "name" (body q) with JStr n => Ret (JStr n) | _ => ask (ReadPackageName path) end) in
  module_route q (OpLoad path name version)
    (fun _ => JObj [("loaded", JBool true); ("name", name); ("version", version)]).

(** [Object.assign({uninstalled: true}, result)] *)
Definition uninstalled (v : jsval) : jsval :=
  match v with
  | JObj kvs => JObj (fold_left (fun out kv => assoc_set kv.1 kv.2 out) kvs [("uninstalled", JBool true)])
  | _ => JObj [("uninstalled", JBool true)]
  end.

Definition admin_route_of (r : admin_route) (q : request) : handler :=
  let b := body q in
  let name := jget "name" b in
  match rq_method q, r with
  | POST, GetModuleDeviceList =>
      do r <- ask (AskModule (OpDeviceList name)) in answer (debug_session q) r.1 r.2
  | POST, ReloadModule => module_route q (OpReload (jget "path" b)) (fun _ => JObj [("reloaded", JBool true); ("path", jget "path" b)])
  | POST, Shutdown => ask Exit
  | POST, LoadModule => load_module q
  | POST, UnloadModule => module_route q (OpUnload name) (fun _ => JObj [("unloaded", JBool true); ("name", name)])
  | POST, RestartModule =>
      module_route q (OpRestart (jget "path" b) name (jget "version" b))
        (fun _ => JObj [("restarted", JBool true); ("name", name); ("version", jget "version" b)])
  | POST, UninstallModule => module_route q (OpUninstall name (strict_eq (jget "keepData" b) (JBool true))) uninstalled
  | _, _ => not_found
  end.

(** *** The other routes *)

(** [GET /balance]: the balance of the key that was authenticated. *)
Definition balance (q : request) : handler :=
  with_session 403 (userAuth (body q) JNull (truthyKey q) JNull JNull) (fun s =>
    guard s (do r <- ask (AskBalance (s_appKey s)) in
             match r with
             | inl e => respond 500 (JObj [("topic", JStr (default "countinghouse error" (topic e))); ("code", c_code e);
                                           ("message", JStr (message_of ErrorInfo e))])
             | inr v => respond 200 v
             end)).

(** The devices the caller may call, of those there are. *)
Definition listed (devices : jsval) (specs : list (string * jsval)) : list jsval :=
  let ids := match devices with JArr ids => ids | _ => [] end in
  map snd (List.filter (fun kv => may_call ids (JStr kv.1)) specs).
Definition device_list (q : request) : handler :=
  if o_debug (ro_auth o) then ask (HandDeviceList (Session_ (JStr "unknown") (JStr "device-list") JNull false (body q)))
  else
    let appkey := truthyKey q in
    if is_nullish appkey then respond 403 (error_json (CHError "SYSTEM_ERROR_UNKNOWN_USER" []))
    else do r <- ask (AskDevices appkey) in
         match r with
         | ListErr code m => respond 500 (JObj [("topic", JStr "countinghouse error"); ("code", code); ("message", JStr m)])
         | ListThrew => answer_error None
         | ListOk result => do specs <- ask AskSpecs in respond 200 (JArr (listed (jget "devices" result) specs))
         end.

(** The routes as they are mounted; [early] is the session of a caller checked
    before its body was read. *)
Definition route (early : option session) (q : request) : handler :=
  match rq_target q with
  | NoRoute => not_found
  | McpRoute => match rq_method q with
                | POST => ask (HandMcp (body q) (header "X-CH-Key" q))
                | GET => respond 405 (JObj [("topic", JStr "countinghouse error"); ("message", JStr
                    "this MCP gateway only implements the stateless Streamable HTTP transport (POST /mcp); GET/SSE is not supported")])
                end
  | BalanceRoute => match rq_method q with GET => balance q | POST => not_found end
  | DeviceListRoute => match rq_method q with GET => device_list q | POST => not_found end
  | AdminRoute r => adminOnly q (fun _ => admin_route_of r q)
  | DeviceRoute deviceID r =>
      match early with
      | Some s => device_route_of deviceID r s q
      | None => with_session 500 (validateUser deviceID (body q) q) (fun s => device_route_of deviceID r s q)
      end
  end.

(** The path below which a BSON body is taken. *)
Definition bson_device (t : target) : option string :=
  match t with DeviceRoute deviceID InvokeAction => Some deviceID | _ => None end.

(** A request, from the first middleware on. *)
Definition serve (q : request) : handler :=
  match originChecks q with
  | Some refusal => respond 403 refusal
  | None =>
      match rq_json q with
      | inl status => answer_error (Some status)
      | inr _ =>
          match (if rq_bson q then bson_device (rq_target q) else None) with
          | Some deviceID =>
              with_session 500 (validateUser deviceID (JObj []) q) (fun s =>
                match rq_raw q with
                | inl status => answer_error (Some status)
                | inr _ => route (Some s) q
                end)
          | None => route None q
          end
      end
  end.

(** ** Nothing behind a gate without passing it *)

Definition rt_history : Type := list (obs rtE).

(** The caller with this key is let through for this device: under --debug by
    its key, and otherwise by the provider's answer to a question about them. *)
Definition caller_ok (key deviceID : jsval) (admin : bool) (h : rt_history) : Prop :=
  if o_debug (ro_auth o)
  then admin = true /\ (is_nullish (o_debugKey (ro_auth o)) = true \/ safeEqual key (o_debugKey (ro_auth o)) = true)
  else exists serviceID actionName r,
    Obs (AskAuth key deviceID serviceID actionName) (Answered r) ∈ h /\ a_ok r = true /\ a_isAdmin r = admin.

(** The limiter was asked about the caller, and let it on. *)
Definition within_rate (key : jsval) (h : rt_history) : Prop :=
  is_nullish key = true \/ exists r, Obs (AskRate key) r ∈ h /\ match r with RateResult v => is_true (jget "limited" v) = false | RateError => True end.

(** What ends a request: an answer, or its hand-over to who will answer. *)
Definition is_final (X : Type) (e : rtE X) : bool :=
  match e with
  | Effect (Respond _ _) | HandMcp _ _ | HandDevice _ | HandDeviceList _ | Exit => true
  | _ => false
  end.
Definition finals (h : rt_history) : nat := length (List.filter (fun ob => match ob with Obs e _ => is_final _ e end) h).

Section gated.
Context (q : request).

(** The device a request is for, and the caller let through for it. *)
Definition of_device (deviceID : string) (key : jsval) (h : rt_history) : Prop :=
  (exists r, rq_target q = DeviceRoute deviceID r) /\ key = callerKey q /\ exists admin, caller_ok key (JStr deviceID) admin h.

Definition gated (h : rt_history) (X : Type) (e : rtE X) : Prop :=
  match e with
  | AskAuth key _ _ _ => key = callerKey q \/ (rq_target q = BalanceRoute /\ key = truthyKey q)
  | AskDevices key => rq_target q = DeviceListRoute /\ key = truthyKey q
  | AskRate key => exists deviceID admin, caller_ok key deviceID admin h
  | AskBalance key => rq_target q = BalanceRoute /\ key = truthyKey q /\ (exists admin, caller_ok key JNull admin h) /\ within_rate key h
  | AskSpecs => rq_target q = DeviceListRoute
  | AskModule _ | ReadPackageName _ | Exit => (exists r, rq_target q = AdminRoute r) /\ caller_ok (callerKey q) JNull true h
  | AskPackageInfo deviceID => of_device deviceID (callerKey q) h /\ within_rate (callerKey q) h
  | AskJob ctx op => exists deviceID admin,
      of_device deviceID (callerKey q) h /\ caller_ok (callerKey q) (JStr deviceID) admin h /\
      ctx = Ctx (callerKey q) (JBool admin) /\ within_rate (callerKey q) h /\
      match op with DoAdd _ d _ _ _ => d = JStr deviceID | _ => True end
  | HandMcp _ key => rq_target q = McpRoute /\ key = header "X-CH-Key" q
  | HandDevice (DoInvoke d _ _ _ s) | HandDevice (DoGetSpec d s) | HandDevice (DoGetSchema d _ s) => of_device d (s_appKey s) h
  | HandDeviceList _ => rq_target q = DeviceListRoute /\ o_debug (ro_auth o) = true
  | Effect (Respond _ _) => True
  | Effect _ => False
  end.

Definition is_refusal (X : Type) (e : rtE X) : bool := match e with Effect (Respond status _) => (status =? 403)%Z | _ => false end.

(** Only a request whose host and origin pass asks for anything, and each is
    ended once. *)
Definition request_ok (h : rt_history) (X : Type) (e : rtE X) : Prop :=
  gated h X e /\ (is_final X e = true -> finals h = 0%nat) /\
  (originChecks q <> None -> is_refusal X e = true).

Definition ends (h : rt_history) (m : handler) : Prop := safe any_env request_ok (fun h' _ => finals h' = 1%nat) h m.

Hypothesis Hpass : originChecks q = None.

Lemma ok_intro h X (e : rtE X) : gated h X e -> (is_final X e = true -> finals h = 0%nat) -> request_ok h X e.
Proof using Hpass. intros Hg Hf. split; [done|]. split; [done|]. intros Hr. by destruct Hr. Qed.

Lemma finals_snoc h X (e : rtE X) x : finals (h ++ [Obs e x]) = (finals h + if is_final X e then 1 else 0)%nat.
Proof using Type. unfold finals. rewrite List.filter_app, length_app. cbn. by destruct (is_final X e). Qed.

Lemma caller_mono key d admin h o' : caller_ok key d admin h -> caller_ok key d admin (h ++ [o']).
Proof using Type.
  unfold caller_ok. destruct (o_debug (ro_auth o)); [done|]. intros (sid & act & r & Hin & H). exists sid, act, r.
  split; [apply elem_of_app; by left|done].
Qed.

Lemma device_mono d key h o' : of_device d key h -> of_device d key (h ++ [o']).
Proof using Type. intros (Ht & Hk & admin & Hc). split; [done|]. split; [done|]. exists admin. by apply caller_mono. Qed.

Lemma ends_ask h (e : rtE unit) : gated h unit e -> is_final unit e = true -> finals h = 0%nat -> ends h (ask e).
Proof using Hpass. intros Hg Hf Hn. split; [by apply ok_intro|]. intros x _. cbn. by rewrite finals_snoc, Hf, Hn. Qed.

Lemma ends_respond h status v : finals h = 0%nat -> ends h (respond status v).
Proof using Hpass. intros Hn. unfold respond. cbn [emit]. split; [by apply ok_intro|]. intros x _. cbn. by rewrite finals_snoc, Hn. Qed.

(** A session no call has been made on. *)
Definition fresh (s : session) : Prop := s_local s = false /\ s_device s = None /\ s_meteredTool s = None.

Lemma ends_answer h s err v : fresh s -> finals h = 0%nat -> ends h (answer s err v).
Proof using Hpass.
  intros (Hl & Hd & Hm) Hn. unfold answer, callbackWithoutTimer, logAPICall, response, recordMeteredCall.
  rewrite Hl, Hd, Hm. replace (if negb monitor then [] else []) with (@nil effect) by (by destruct monitor).
  destruct err; by apply ends_respond.
Qed.

Lemma ends_request {X} h (e : rtE X) (k : X -> handler) :
  gated h X e -> is_final X e = false -> finals h = 0%nat ->
  (forall x, finals (h ++ [Obs e x]) = 0%nat -> ends (h ++ [Obs e x]) (k x)) -> ends h (pbind (ask e) k).
Proof using Hpass.
  intros Hg Hf Hn Hk. cbn. split; [apply ok_intro; [done|by rewrite Hf]|]. intros x _. apply Hk. rewrite finals_snoc, Hf, Hn. done.
Qed.

Lemma ends_guard h s next :
  finals h = 0%nat -> (exists d admin, caller_ok (s_appKey s) d admin h) ->
  (within_rate (s_appKey s) h -> ends h next) ->
  (forall r, finals (h ++ [Obs (AskRate (s_appKey s)) r]) = 0%nat -> within_rate (s_appKey s) (h ++ [Obs (AskRate (s_appKey s)) r]) ->
     ends (h ++ [Obs (AskRate (s_appKey s)) r]) next) ->
  ends h (guard s next).
Proof using Hpass.
  intros Hn Hc Hnext Hnext'. unfold guard. destruct (is_nullish (s_appKey s)) eqn:Ek; [apply Hnext; by left|].
  apply ends_request; [done..|]. intros r Hn'. unfold guardRequest, rateLimitGate. rewrite Ek.
  destruct r as [|v]; [|destruct (is_true (jget "limited" v)) eqn:El; [by apply ends_respond|]];
    (apply Hnext'; [done|]; right; eexists; split; [apply elem_of_app; right; by apply list_elem_of_singleton|done]).
Qed.

Lemma ends_session h status b d key serviceID actionName next :
  finals h = 0%nat -> (key = callerKey q \/ (rq_target q = BalanceRoute /\ key = truthyKey q)) ->
  (forall h' s, finals h' = 0%nat -> fresh s -> s_appKey s = key -> caller_ok key d (s_isAdmin s) h' -> ends h' (next s)) ->
  ends h (with_session status (userAuth b d key serviceID actionName) next).
Proof using Hpass.
  intros Hn Hk Hnext. unfold with_session, userAuth, doUserAuth.
  assert (Hc : forall h', finals h' = 0%nat -> o_debug (ro_auth o) = true ->
    is_nullish (o_debugKey (ro_auth o)) = true \/ safeEqual key (o_debugKey (ro_auth o)) = true ->
    ends h' (next (auth_session (JStr "debug") key d serviceID actionName false b true))).
  { intros h' Hn' Hd Ho. apply Hnext; [done..|]. unfold caller_ok. by rewrite Hd. }
  destruct (o_debug (ro_auth o)) eqn:Ed; cbn [orb].
  - cbn [pbind]. destruct (is_nullish (o_debugKey (ro_auth o))) eqn:Eo; cbn; [apply Hc; auto|].
    destruct (safeEqual key (o_debugKey (ro_auth o))) eqn:Es; cbn; [apply Hc; auto|by apply ends_respond].
  - destruct (is_nullish key) eqn:En; cbn [pbind]; [by apply ends_respond|].
    apply ends_request; [done..|]. intros [m|r|e] Hn'; cbn; [by apply ends_respond| |by apply ends_respond].
    destruct (a_ok r) eqn:Ea; cbn; [|by apply ends_respond].
    apply Hnext; [done..|]. unfold caller_ok. rewrite Ed. exists serviceID, actionName, r.
    split; [apply elem_of_app; right; by apply list_elem_of_singleton|done].
Qed.

Lemma ends_job h s op shape deviceID :
  finals h = 0%nat -> fresh s -> s_appKey s = callerKey q -> (exists r, rq_target q = DeviceRoute deviceID r) ->
  caller_ok (callerKey q) (JStr deviceID) (s_isAdmin s) h -> match op with DoAdd _ d _ _ _ => d = JStr deviceID | _ => True end ->
  ends h (job_route s op shape).
Proof using Hpass.
  intros Hn Hf Hk Ht Hc Hop. unfold job_route.
  assert (Hgo : forall h', finals h' = 0%nat -> caller_ok (callerKey q) (JStr deviceID) (s_isAdmin s) h' -> within_rate (s_appKey s) h' ->
    ends h' (do r <- ask (AskJob (ctx_of s) op) in
             match r with CbErr e => answer s (Some e) JUndef | CbErrText _ _ => answer_text s | CbOk v => answer s None (shape v) end)).
  { intros h' Hn' Hc' Hr. apply ends_request; [|done..|].
    - exists deviceID, (s_isAdmin s). rewrite <- Hk. unfold ctx_of. rewrite Hk in Hr |- *. repeat split; try done. by exists (s_isAdmin s).
    - intros [e|t v|v] Hn2; [by apply ends_answer|by apply ends_respond|by apply ends_answer]. }
  apply ends_guard; [done|rewrite Hk; by exists (JStr deviceID), (s_isAdmin s)|by apply Hgo|].
  intros r Hn' Hr. apply Hgo; [done|by apply caller_mono|done].
Qed.

Lemma ends_named h s data next :
  finals h = 0%nat -> fresh s -> (forall a b, ends h (next a b)) -> ends h (named s data next).
Proof using Hpass. intros Hn Hf Hnext. unfold named. repeat case_match; [by apply ends_answer..|apply Hnext]. Qed.

Lemma ends_device h s deviceID r :
  finals h = 0%nat -> fresh s -> s_appKey s = callerKey q -> rq_target q = DeviceRoute deviceID r ->
  caller_ok (callerKey q) (JStr deviceID) (s_isAdmin s) h -> ends h (device_route_of deviceID r s q).
Proof using Hpass.
  intros Hn Hf Hk Ht Hc. assert (Hdev : forall h', caller_ok (callerKey q) (JStr deviceID) (s_isAdmin s) h' -> of_device deviceID (s_appKey s) h').
  { intros h' Hc'. rewrite Hk. split; [by exists r|]. split; [done|by eexists]. }
  assert (Hjob : forall op shape, match op with DoAdd _ d _ _ _ => d = JStr deviceID | _ => True end -> ends h (job_route s op shape)).
  { intros op shape Hop. apply ends_job with (deviceID := deviceID); [done..|by exists r|done|done]. }
  unfold device_route_of. destruct (rq_method q), r; try (by apply ends_respond); try (by apply Hjob).
  - apply ends_ask; [by apply Hdev|done|done].
  - apply ends_ask; [by apply Hdev|done|done].
  - unfold package_info.
    assert (Hgo : forall h', finals h' = 0%nat -> caller_ok (callerKey q) (JStr deviceID) (s_isAdmin s) h' -> within_rate (s_appKey s) h' ->
      ends h' (do r <- ask (AskPackageInfo deviceID) in
        match r with
        | inl e => answer s (Some e) JUndef
        | inr info => if is_nullish info then answer s (Some (Error_ "null package info")) JUndef
                      else answer s None (JObj [("name", jget "name" info); ("version", jget "version" info)])
        end)).
    { intros h' Hn' Hc' Hr. rewrite Hk in Hr. apply ends_request; [|done..|].
      - split; [|done]. rewrite <- Hk. by apply Hdev.
      - intros [e|info] Hn2; [by apply ends_answer|]. case_match; by apply ends_answer. }
    apply ends_guard; [done|rewrite Hk; by eexists _, _|by apply Hgo|].
    intros r Hn' Hr. apply Hgo; [done|by apply caller_mono|done].
  - unfold invoke_action. assert (Hgo : forall data, ends h (named s data (fun serviceID actionName =>
        ask (HandDevice (DoInvoke deviceID serviceID actionName (jget "input" data)
          (with_tool s (Some (encodeLegacyTool deviceID (js_text serviceID) (js_text actionName)))))))))
      by (intros data; apply ends_named; [done..|]; intros a b; apply ends_ask; [by apply Hdev|done|done]).
    repeat case_match; by first [apply ends_answer|apply Hgo].
  - unfold add_job. apply ends_named; [done..|]. intros a b. by apply Hjob.
Qed.

Lemma ends_admin h r : finals h = 0%nat -> rq_target q = AdminRoute r -> ends h (adminOnly q (fun _ => admin_route_of r q)).
Proof using Hpass.
  intros Hn Ht. unfold adminOnly. apply ends_session; [done|by left|]. intros h' s Hn' _ _ Hc.
  destruct (s_isAdmin s) eqn:Ea; cbn [negb]; [|by apply ends_respond].
  assert (Hd : fresh (debug_session q)) by done. assert (Hr : exists r, rq_target q = AdminRoute r) by by exists r.
  assert (Hmod : forall h2 op shape, finals h2 = 0%nat -> caller_ok (callerKey q) JNull true h2 -> ends h2 (module_route q op shape)).
  { intros h2 op shape Hn2 Hc2. apply ends_request; [done..|]. intros [[e|] v] Hn3; by apply ends_answer. }
  unfold admin_route_of. destruct (rq_method q), r; try (by apply ends_respond); try (by apply Hmod).
  - apply ends_request; [done..|]. intros [e v] Hn3. by apply ends_answer.
  - by apply ends_ask.
  - unfold load_module. destruct (jget "name" (body q)); cbn [pbind]; try (by apply Hmod).
    all: apply ends_request; [done..|]; intros n Hn2; apply Hmod; [done|by apply caller_mono].
Qed.

Lemma ends_balance h : finals h = 0%nat -> rq_target q = BalanceRoute -> ends h (balance q).
Proof using Hpass.
  intros Hn Ht. apply ends_session; [done|by right|]. intros h' s Hn' Hf Hk Hc.
  assert (Hgo : forall h', finals h' = 0%nat -> caller_ok (truthyKey q) JNull (s_isAdmin s) h' -> within_rate (s_appKey s) h' ->
    ends h' (do r <- ask (AskBalance (s_appKey s)) in
      match r with
      | inl e => respond 500 (JObj [("topic", JStr (default "countinghouse error" (topic e))); ("code", c_code e); ("message", JStr (message_of ErrorInfo e))])
      | inr v => respond 200 v
      end)).
  { intros h2 Hn2 Hc2 Hr. apply ends_request; [|done..|intros [e|v] Hn3; by apply ends_respond].
    rewrite Hk in Hr |- *. repeat split; try done. by eexists. }
  apply ends_guard; [done|rewrite Hk; by eexists _, _|by apply Hgo|].
  intros r Hn2 Hr. apply Hgo; [done|by apply caller_mono|done].
Qed.

Lemma ends_device_list h : finals h = 0%nat -> rq_target q = DeviceListRoute -> ends h (device_list q).
Proof using Hpass.
  intros Hn Ht. unfold device_list. destruct (o_debug (ro_auth o)) eqn:Ed; [by apply ends_ask|].
  destruct (is_nullish (truthyKey q)); [by apply ends_respond|]. apply ends_request; [done..|].
  intros [c m|result|] Hn2; [by apply ends_respond| |by apply ends_respond].
  apply ends_request; [done..|]. intros specs Hn3. by apply ends_respond.
Qed.

Lemma ends_route h early :
  finals h = 0%nat ->
  match early, rq_target q with
  | Some s, DeviceRoute deviceID _ => fresh s /\ s_appKey s = callerKey q /\ caller_ok (callerKey q) (JStr deviceID) (s_isAdmin s) h
  | Some _, _ => False
  | None, _ => True
  end -> ends h (route early q).
Proof using Hpass.
  intros Hn He. unfold route. destruct (rq_target q) as [| | |r|deviceID r|] eqn:Et.
  - destruct (rq_method q); [by apply ends_respond|by apply ends_ask].
  - destruct (rq_method q); [by apply ends_balance|by apply ends_respond].
  - destruct (rq_method q); [by apply ends_device_list|by apply ends_respond].
  - by apply ends_admin.
  - destruct early as [s|]; [destruct He as (Hf & Hk & Hc); by apply ends_device|].
    unfold validateUser. destruct (named_action _ _) as [sid act]. apply ends_session; [done|by left|].
    intros h' s Hn' Hf Hk Hc. by apply ends_device.
  - by apply ends_respond.
Qed.
End gated.

Lemma serve_ok q : safe any_env (request_ok q) (fun h _ => finals h = 1%nat) [] (serve q).
Proof using Type.
  unfold serve. destruct (originChecks q) as [refusal|] eqn:Eo.
  { unfold respond. cbn. split; [|by intros x _]. split; [done|]. by split. }
  fold (ends q []). destruct (rq_json q); [by apply ends_respond|].
  destruct (if rq_bson q then bson_device (rq_target q) else None) as [deviceID|] eqn:Eb; [|by apply ends_route].
  assert (Ht : rq_target q = DeviceRoute deviceID InvokeAction).
  { destruct (rq_bson q); [|done]. destruct (rq_target q) as [| | | |d []|]; try done. by injection Eb as ->. }
  unfold validateUser. destruct (named_action _ _) as [sid act]. apply ends_session; [done|done|by left|].
  intros h s Hn Hf Hk Hc. destruct (rq_raw q); [by apply ends_respond|]. apply ends_route; [done..|]. by rewrite Ht.
Qed.

(** C9: Whatever the provider, the limiter and the other parts answer, a request
    reaches nothing behind a gate without passing it, and is ended once.
    A request with a host or an origin that is not allowed is answered 403 and
    asks for nothing. A module is loaded, unloaded, restarted, uninstalled or
    listed, and the server shut down, only for a caller the provider says is an
    admin. An action, a specification or a schema is asked of a device, and a
    job made, read or removed, only of the device the URL names and for a
    caller let through for it; a job's owner is that caller and never a member
    of the body. Jobs, balances and package versions are read only within the
    caller's rate. A balance is that of the key that was authenticated. Each
    request is answered, or handed to the part that answers it, exactly once. *)
Theorem routes_gated q tr :
  run (serve q) tr tt -> requests_ok (request_ok q) tr /\ finals tr = 1%nat.
Proof using Type.
  intros Hr. split; [exact (safe_all_requests _ _ _ _ _ (serve_ok q) Hr)|exact (safe_all_run _ _ _ _ _ (serve_ok q) Hr)].
Qed.
End routes.

(** An outside that lets every caller through as an admin. *)
Definition demo_outside (X : Type) (n : nat) (e : rtE X) : X :=
  match e in rtE X return X with
  | AskAuth _ _ _ _ => Answered (granted (JStr "user") true)
  | AskDevices _ => ListErr JUndef ""
  | AskRate _ => RateError
  | AskBalance _ => inr JNull
  | AskSpecs => []
  | AskModule _ => (None, JNull)
  | ReadPackageName _ => JUndef
  | AskPackageInfo _ => inr JNull
  | AskJob _ _ => CbOk JNull
  | HandMcp _ _ | HandDevice _ | HandDeviceList _ | Exit | Effect _ => tt
  end.
Definition demo_options : route_options := mkRoutes (mkOptions false JNull) "9527" [].
Definition demo_request (t : target) (b : jsval) : request :=
  mkReq POST t [("x-ch-key", "k"); ("serviceid", "urn:open"); ("actionname", "read")]%string (inr b) false (inr (inl "")).

Lemma routes_gated_witness :
  let q := demo_request (AdminRoute UnloadModule) (JObj [("name", JStr "m")]) in
  let p := serve (fun _ => None) true 0 false demo_options q in
  let tr := (eval demo_outside 0 p).2 in
  run p tr tt /\ List.length tr = 3%nat /\ requests_ok (request_ok demo_options q) tr /\ finals tr = 1%nat.
Proof.
  set (q := demo_request (AdminRoute UnloadModule) (JObj [("name", JStr "m")])).
  set (p := serve (fun _ => None) true 0 false demo_options q).
  assert (Hr : run p (eval demo_outside 0 p).2 tt).
  { replace tt with (eval demo_outside 0 p).1 by (by destruct (eval demo_outside 0 p).1). apply eval_run. }
  pose proof (routes_gated _ _ _ _ _ _ _ Hr) as [H1 H2].
  split; [exact Hr|]. split; [reflexivity|]. split; [exact H1|exact H2].
Defined.

(** The caller is checked for the service and the action of the headers, as the
    body has no [serviceID]; the route then takes the body's [serviceid]: a
    provider that grants actions one by one is asked about another than the
    one invoked. *)
Example another_action_checked :
  let q := demo_request (DeviceRoute "d" InvokeAction) (JObj [("serviceid", JStr "urn:closed"); ("actionname", JStr "erase")]) in
  exists s, (eval demo_outside 0 (serve (fun _ => None) true 0 false demo_options q)).2 =
    [Obs (AskAuth (JStr "k") (JStr "d") (JStr "urn:open") (JStr "read")) (Answered (granted (JStr "user") true));
     Obs (HandDevice (DoInvoke "d" (JStr "urn:closed") (JStr "erase") JUndef s)) tt].
Proof. eexists. reflexivity. Qed.
