(* ===== verification/ModuleTasks.v ===== *)
(** * Work on a module's files by the main thread (lib/fs-broker/index.js,
    lib/module-data.js ensureDirs, and of lib/module-manager.js uninstallModule,
    sweepValidateRoot and validateModuleSandboxed)

    What is made for a worker before it starts; what is deleted of a module
    that is uninstalled; and the workers that only validate a module. *)
From Stdlib Require Import ZArith Lia Ascii String.
From stdpp Require Import prelude strings gmap.
From S2P Require Import Packages Prelude Paths Json Errors Namespace Quota Prog Host SpawnWalk ModuleData.

Set Default Proof Using "Type".

(** ** A worker's file broker *)

(** What is asked of the host and of the parts that are put together. *)
Inductive wfE : Type -> Type :=
| WMkdir (path : string) : wfE (result (option string))       (* the first directory made, if any *)
| WChmod (path : string) : wfE (result unit)
| WEmptyTmp (tmp : string) : wfE (result unit)
| WMeasure (data tmp : string) : wfE (result walk)
| WRealDir (dir : string) : wfE (result string)
| WCodeRoots (installDir : string) (exclude : list string) : wfE (result (list string))
| WPrepare (cfg : ns_config) : wfE (result (list (string * string)))   (* [namespace.refused] *)
| WReport (rule text : string) : wfE unit
| WBridge (key : string) (q : option quota) : wfE unit.

Definition wprog (A : Type) : Type := prog wfE (result A).
Definition wbind {A B} (m : wprog A) (k : A -> wprog B) : wprog B :=
  pbind m (fun r => match r with Ok a => k a | Throw e => Ret (Throw e) end).
Notation "'let*' x ':=' m 'in' k" := (wbind m (fun x => k)) (at level 200, x name, m at level 100, k at level 200).

Record server_options := mkSrv {
  so_modulePath : string;
  so_moduleDataPath : string;
  so_authConfigPath : option string;
  so_deviceConfigPath : option string;
  so_modulePolicy : option string;
  so_localModulePath : list string
}.

Record disk_limits := mkDisk { diskMb : Z; diskEntries : Z }.

Record worker_cfg := mkWc {
  wc_name : string;
  wc_mode : string;
  wc_modulePath : string;
  wc_declared : list decl;
  wc_limits : option disk_limits
}.

Record created := mkCreated {
  cr_key : string;
  cr_namespace : ns_config;
  cr_dirs : dirs;
  cr_moduleRoot : string;
  cr_installDir : string;
  cr_codeRoots : list string;
  cr_usage : option (Z * Z);
  cr_quota : option quota
}.

Section worker_files.
(** [process.cwd()], the server's own directory, and its options. *)
Context (cwd INSTALL_DIR : string) (o : server_options).

(** [path.resolve(cwd, p)] *)
Definition from_cwd (p : string) : string := resolve cwd [cwd; p].

(** [protectedPaths] *)
Definition protectedPaths : list string :=
  map from_cwd ([INSTALL_DIR; so_modulePath o; so_moduleDataPath o;
                 default (path_join [cwd; "auth.json"%string]) (so_authConfigPath o);
                 default (path_join [cwd; "config"; "devices"]%string) (so_deviceConfigPath o)] ++
                match so_modulePolicy o with Some p => [p] | None => [] end).

Definition moduleRootsOf : list string := map from_cwd (so_modulePath o :: so_localModulePath o).

(** The loop of [ensureDirs] over what one [mkdir] made, from the target up. *)
Fixpoint chmod_up (fuel : nat) (first p : string) : wprog unit :=
  match fuel with
  | O => Ret (Throw (plain_error "loop"))
  | S f => let* _ := ask (WChmod p) in
           if String.eqb p first then Ret (Ok tt) else chmod_up f first (dirname p)
  end.

Definition ensure_dir (target : string) : wprog unit :=
  let* first := ask (WMkdir target) in
  match first with
  | None => Ret (Ok tt)
  | Some first => chmod_up (S (String.length target)) first target
  end.

Definition ensureDirs (name : string) : wprog dirs :=
  match dirsFor cwd (so_moduleDataPath o) (JStr name) with
  | Throw e => Ret (Throw e)
  | Ok d => let* _ := ensure_dir (d_data d) in let* _ := ensure_dir (d_tmp d) in Ret (Ok d)
  end.

Definition no_directory (where_ message : string) : jserr :=
  plain_error ("cannot create the module data directory " +:+ where_ +:+ ": " +:+ message +:+
               " -- set --moduleDataPath to a writable directory").
Definition where_of (name : string) : string :=
  match dirsFor cwd (so_moduleDataPath o) (JStr name) with Ok d => d_root d | Throw _ => so_moduleDataPath o end.

Definition links_text (w : walk) (root : string) : string :=
  "links that could lead outside the module's data (a symlink with an absolute target, or a hard link " +:+
  "with a name outside /data and /tmp): " +:+ join ", " (w_links w) +:+
  (if (0 <? w_more w)%Z then " and " +:+ Z_text (w_more w) +:+ " more" else "") +:+
  " -- remove or replace them under " +:+ root +:+ ", then POST /restart-module".

(** The walk of /data and /tmp, when counting. *)
Definition measured (c : worker_cfg) (d : dirs) : wprog (option walk) :=
  if String.eqb (wc_mode c) "off" then Ret (Ok None)
  else let* w := ask (WMeasure (d_data d) (d_tmp d)) in
       match w_links w with
       | [] => Ret (Ok (Some w))
       | _ => if String.eqb (wc_mode c) "enforce"
              then Ret (Throw (coded_error "MODULE_SANDBOX_REFUSED" (links_text w (d_root d))))
              else pbind (ask (WReport "links" (links_text w (d_root d)))) (fun _ => Ret (Ok (Some w)))
       end.

Fixpoint report_all (refused : list (string * string)) : prog wfE unit :=
  match refused with
  | [] => Ret tt
  | (p, why) :: rest => pbind (ask (WReport "refused" (p +:+ " (" +:+ why +:+ ")"))) (fun _ => report_all rest)
  end.

Definition pool (c : worker_cfg) (usage : option walk) : option quota :=
  match usage, wc_limits c with
  | Some w, Some l => Some (new_quota (diskMb l * 1024 * 1024) (diskEntries l) (String.eqb (wc_mode c) "enforce") (w_bytes w) (w_entries w))
  | _, _ => None
  end.

(** [spawned] workers have been made before. *)
Definition createForWorker (spawned : nat) (c : worker_cfg) : wprog created :=
  pbind (ensureDirs (wc_name c)) (fun r =>
    match r with
    | Throw e => Ret (Throw (no_directory (where_of (wc_name c)) (e_message e)))
    | Ok d =>
        let* _ := ask (WEmptyTmp (d_tmp d)) in
        let* usage := measured c d in
        let* moduleRoot := ask (WRealDir (resolve cwd [wc_modulePath c])) in
        let* installDir := ask (WRealDir INSTALL_DIR) in
        let* codeRoots := ask (WCodeRoots installDir (moduleRootsOf ++ [moduleRoot])) in
        let ns := mkCfg moduleRoot (d_data d) (d_tmp d) (wc_declared c) protectedPaths in
        let* refused := ask (WPrepare ns) in
        pbind (report_all refused) (fun _ =>
          let key := wc_name c +:+ "#" +:+ nat_text (S spawned) in
          pbind (ask (WBridge key (pool c usage))) (fun _ =>
            Ret (Ok (mkCreated key ns d moduleRoot installDir codeRoots
                       (option_map (fun w => (w_bytes w, w_entries w)) usage) (pool c usage)))))
    end).
End worker_files.

(** ** Uninstalling *)

Inductive unE : Type -> Type :=
| UBusy (name : string) : unE (option string)       (* its state, while it is loaded, restarting or suspended *)
| ULock (name : string) : unE unit                  (* the name's turn in the lifecycle's chain *)
| USettled (name : string) : unE unit
| URemoveInfo (name : string) : unE (string + option Z)   (* the rows removed *)
| ULstat (path : string) : unE (result kind)
| URm (path : string) : unE (result unit)
| URmdir (path : string) : unE (result unit).

Inductive un_error := UnCoded (e : cherr) | UnHost (e : jserr).
Record uninstalled := mkUn { un_name : string; un_dataDeleted : bool; un_registryEntryRemoved : bool }.
Definition uprog (A : Type) : Type := prog unE (un_error + A).
Definition ubind {A B} (m : uprog A) (k : A -> uprog B) : uprog B :=
  pbind m (fun r => match r with inr a => k a | inl e => Ret (inl e) end).
Definition uthrow {A} (code : string) (args : list jsval) : uprog A := Ret (inl (UnCoded (CHError code args))).
Notation "'let^' x ':=' m 'in' k" := (ubind m (fun x => k)) (at level 200, x name, m at level 100, k at level 200).

Section uninstall.
Context (cwd moduleDataPath : string) (localModulePath : bool).

(** The registry's entry; none is kept when --loadModule is given. *)
Definition remove_entry (name : string) : uprog bool :=
  if localModulePath then Ret (inr false)
  else pbind (ask (URemoveInfo name)) (fun r =>
         match r with
         | inl m => uthrow "REMOVE_MODULE_INFO_FAIL" [JStr name; JStr m]
         | inr changes => Ret (inr (match changes with Some n => (0 <? n)%Z | None => false end))
         end).

Definition delete_data (name : string) : uprog bool :=
  match dirsFor cwd moduleDataPath (JStr name) with
  | Throw e => Ret (inl (UnHost e))
  | Ok d =>
      pbind (ask (ULstat (d_root d))) (fun st =>
        match st with
        | Throw _ => Ret (inr false)
        | Ok KDir =>
            pbind (ask (URm (d_root d))) (fun r =>
              match r with
              | Throw e => Ret (inl (UnHost e))
              | Ok _ => if starts_with "@" name
                        then pbind (ask (URmdir (dirname (d_root d)))) (fun _ => Ret (inr true))
                        else Ret (inr true)
              end)
        | Ok _ => uthrow "MODULE_DATA_NOT_DIRECTORY" [JStr name; JStr (d_root d)]
        end)
  end.

Definition uninstallModule (name : jsval) (keepData : bool) : uprog uninstalled :=
  match name with
  | JStr n =>
      if negb (safeName name) then uthrow "MODULE_NAME_INVALID" [JStr n]
      else
        pbind (ask (UBusy n)) (fun state =>
          match state with
          | Some st => uthrow "MODULE_LOADED" [JStr n; JStr st]
          | None =>
              pbind (ask (ULock n)) (fun _ =>
                pbind (ask (UBusy n)) (fun now =>
                  match now with
                  | Some st => uthrow "MODULE_LOADED" [JStr n; JStr st]
                  | None =>
                      pbind (ask (USettled n)) (fun _ =>
                        let^ removed := remove_entry n in
                        let^ deleted := (if keepData then Ret (inr false) else delete_data n) in
                        Ret (inr (mkUn n deleted removed)))
                  end))
          end)
  | _ => uthrow "MODULE_NAME_INVALID" [JStr (js_text name)]
  end.
End uninstall.

(** ** A worker has its files ready, and only its own *)

Definition wf_history : Type := list (obs wfE).

(** [mkdir] with recursive names the first directory it made: the target or one
    above it, never the root. *)
Definition mkdir_env (h : wf_history) (X : Type) (e : wfE X) : X -> Prop :=
  match e in wfE X return X -> Prop with
  | WMkdir target => fun r =>
      match r with
      | Ok (Some first) => forall segs, Forall good_seg segs -> target = path_of segs ->
                           exists pre, pre <> [] /\ first = path_of pre /\ pre `prefix_of` segs
      | _ => True
      end
  | _ => fun _ => True
  end.

Section ready.
Context (cwd INSTALL_DIR : string) (o : server_options) (c : worker_cfg) (d : dirs).
Hypothesis Hd : dirsFor cwd (so_moduleDataPath o) (JStr (wc_name c)) = Ok d.

(** [p] is between what [mkdir] made first and its target. *)
Definition just_made (h : wf_history) (p : string) : Prop :=
  exists target first segs pre mid,
    (target = d_data d \/ target = d_tmp d) /\ Obs (WMkdir target) (Ok (Some first)) ∈ h /\
    target = path_of segs /\ first = path_of pre /\ p = path_of mid /\ pre `prefix_of` mid /\ mid `prefix_of` segs.

Definition emptied (h : wf_history) : Prop := Obs (WEmptyTmp (d_tmp d)) (Ok tt) ∈ h.
(** The pool counts what the walk found after /tmp was emptied; nothing is
    counted under off. *)
Definition counted (h : wf_history) (q : option quota) : Prop :=
  if String.eqb (wc_mode c) "off" then q = None
  else exists w, Obs (WMeasure (d_data d) (d_tmp d)) (Ok w) ∈ h /\ (wc_mode c = "enforce"%string -> w_links w = []) /\ q = pool c (Some w).

Definition file_request (h : wf_history) (X : Type) (e : wfE X) : Prop :=
  match e with
  | WMkdir p => p = d_data d \/ p = d_tmp d
  | WChmod p => just_made h p
  | WEmptyTmp t => t = d_tmp d /\ exists r, Obs (WMkdir (d_tmp d)) (Ok r) ∈ h
  | WMeasure dd t => dd = d_data d /\ t = d_tmp d /\ emptied h
  | WBridge _ q => emptied h /\ counted h q
  | WPrepare ns => cfg_dataDir ns = d_data d /\ cfg_tmpDir ns = d_tmp d /\ cfg_declared ns = wc_declared c
  | _ => True
  end.

Definition is_bridge (ob : obs wfE) : bool := match ob with Obs (WBridge _ _) _ => true | _ => false end.
Definition unbridged (h : wf_history) : Prop := existsb is_bridge h = false.

Lemma unbridged_snoc h X (e : wfE X) x : unbridged h -> match e with WBridge _ _ => False | _ => True end -> unbridged (h ++ [Obs e x]).
Proof using Type. unfold unbridged. intros H He. rewrite existsb_app, H. by destruct e. Qed.

Lemma in_last {X} (h : wf_history) (e : wfE X) x : Obs e x ∈ h ++ [Obs e x].
Proof using Type. apply elem_of_app. right. by apply list_elem_of_singleton. Qed.

Lemma in_before (h : wf_history) ob o' : ob ∈ h -> ob ∈ h ++ [o'].
Proof using Type. intros H. apply elem_of_app. by left. Qed.

Lemma chmod_up_safe fuel target first segs pre mid h :
  target = d_data d \/ target = d_tmp d -> Obs (WMkdir target) (Ok (Some first)) ∈ h -> unbridged h ->
  target = path_of segs -> first = path_of pre -> Forall good_seg segs -> pre <> [] -> pre `prefix_of` mid -> mid `prefix_of` segs ->
  (List.length mid < fuel + List.length pre)%nat ->
  safe mkdir_env file_request (fun h' _ => unbridged h' /\ forall ob, ob ∈ h -> ob ∈ h') h (chmod_up fuel first (path_of mid)).
Proof using Type.
  intros Ht Hin Hb Hts Hfp Hg Hpne Hpm Hms. revert mid h Hin Hb Hpm Hms.
  induction fuel as [|fuel IH]; intros mid h Hin Hb Hpm Hms Hf; cbn [chmod_up].
  { apply prefix_length in Hpm. lia. }
  split; [by exists target, first, segs, pre, mid|]. intros [u|e] _; cbn [wbind pbind ask].
  2: { split; [by apply unbridged_snoc|intros ob; apply in_before]. }
  destruct (String.eqb_spec (path_of mid) first) as [_|Hne].
  { split; [by apply unbridged_snoc|intros ob; apply in_before]. }
  assert (Hgm : Forall good_seg mid) by (destruct Hms as [k ->]; by apply Forall_app in Hg as [? _]).
  destruct Hpm as [k ->]. destruct k as [|w k _] using rev_ind; [destruct Hne; by rewrite Hfp, app_nil_r|].
  rewrite app_assoc in Hgm |- *. rewrite dirname_snoc; [|done|by destruct pre].
  eapply safe_mono; [apply IH|].
  - by apply in_before.
  - by apply unbridged_snoc.
  - by eexists.
  - destruct Hms as [j ->]. exists (w :: j). by rewrite <- !app_assoc.
  - rewrite !length_app in Hf. rewrite length_app. cbn in Hf. lia.
  - cbn. intros h' _ [Hb' Hsub]. split; [done|]. intros ob Hob. by apply Hsub, in_before.
Qed.

Lemma ensure_dir_safe target segs h :
  target = d_data d \/ target = d_tmp d -> target = path_of segs -> Forall good_seg segs -> unbridged h ->
  safe mkdir_env file_request
    (fun h' r => unbridged h' /\ (forall ob, ob ∈ h -> ob ∈ h') /\ (r = Ok tt -> exists f, Obs (WMkdir target) (Ok f) ∈ h')) h (ensure_dir target).
Proof using Type.
  intros Ht Hts Hg Hb. unfold ensure_dir. cbn [wbind pbind ask]. split; [done|]. intros [[first|]|e] Hx; cbn in Hx.
  - destruct (Hx segs Hg Hts) as (pre & Hne & Hf & Hp). 
    replace (chmod_up _ first target) with (chmod_up (S (String.length (path_of segs))) first (path_of segs)) by by rewrite Hts.
    eapply safe_mono.
    + apply (chmod_up_safe _ target first segs pre segs); [done|apply in_last|by apply unbridged_snoc|done|done|done|done|done|done|].
      assert (Hlen : (List.length segs <= String.length (path_of segs))%nat).
      { clear -Hg. induction Hg as [|w segs (Hw & _) _ IH]; [cbn; lia|]. destruct segs as [|w' segs].
        - unfold path_of. cbn. rewrite sapp_length in *. destruct w; [done|]. cbn. lia.
        - unfold path_of in *. rewrite join_cons, !sapp_length in * by done. cbn [String.length] in *. destruct w; [done|]. cbn [List.length String.length] in *. lia. }
      destruct pre; [done|]. cbn [List.length]. lia.
    + cbn. intros h' r [Hb' Hsub]. split; [done|]. split; [intros ob Ho; by apply Hsub, in_before|].
      intros _. exists (Some first). apply Hsub, in_last.
  - cbn. split; [by apply unbridged_snoc|]. split; [intros ob; apply in_before|]. intros _. eexists. apply in_last.
  - cbn. split; [by apply unbridged_snoc|]. split; [intros ob; apply in_before|done].
Qed.

(** The name's directories are canonical paths. *)
Lemma dirs_segs : exists sd st, d_data d = path_of sd /\ d_tmp d = path_of st /\ Forall good_seg sd /\ Forall good_seg st.
Proof using Hd.
  assert (Hs : safeName (JStr (wc_name c)) = true) by (unfold dirsFor in Hd; by destruct (safeName _)).
  destruct (resolve_canonical cwd [so_moduleDataPath o]) as (base & Hr & Hb). fold (path_of base) in Hr.
  pose proof Hd as H. rewrite (dirsFor_segs _ _ _ _ Hs Hr Hb) in H. injection H as <-.
  apply safe_name_parts in Hs as (s & [= <-] & Hp). apply safe_parts_good in Hp as [Hg _]. eexists _, _. split; [reflexivity|]. split; [reflexivity|].
  split; repeat (apply Forall_app; split); try done; by apply Forall_singleton.
Qed.

Definition ready_dirs (h : wf_history) (r : result dirs) : Prop :=
  unbridged h /\ match r with Ok d' => d' = d /\ exists f, Obs (WMkdir (d_tmp d)) (Ok f) ∈ h | Throw _ => True end.

Lemma ensureDirs_safe : safe mkdir_env file_request ready_dirs [] (ensureDirs cwd o (wc_name c)).
Proof using Hd.
  destruct dirs_segs as (sd & st & Hsd & Hst & Hgd & Hgt). unfold ensureDirs. rewrite Hd. unfold wbind.
  eapply safe_bind; [eapply ensure_dir_safe; [by left|exact Hsd|done|done]|].
  intros h1 [[]|e] (Hb1 & _ & _); [|by split].
  eapply safe_bind; [eapply ensure_dir_safe; [by right|exact Hst|done|done]|].
  intros h2 [[]|e] (Hb2 & _ & Hm); cbn; split; try done. split; [done|by apply Hm].
Qed.

Definition walked_ok (h : wf_history) (r : result (option walk)) : Prop :=
  unbridged h /\ emptied h /\
  match r with
  | Ok None => wc_mode c = "off"%string
  | Ok (Some w) => wc_mode c <> "off"%string /\ Obs (WMeasure (d_data d) (d_tmp d)) (Ok w) ∈ h /\ (wc_mode c = "enforce"%string -> w_links w = [])
  | Throw _ => True
  end.

Lemma measured_safe h : unbridged h -> emptied h -> safe mkdir_env file_request walked_ok h (measured c d).
Proof using Type.
  intros Hb He. unfold measured. destruct (String.eqb_spec (wc_mode c) "off") as [Eo|Eo]; [done|].
  cbn [wbind pbind ask]. split; [done|].
  intros [w|e] _.
  2: { split; [by apply unbridged_snoc|]. split; [by apply in_before|done]. }
  assert (Hs : forall h', (forall ob, ob ∈ h ++ [Obs (WMeasure (d_data d) (d_tmp d)) (Ok w)] -> ob ∈ h') ->
    unbridged h' -> (wc_mode c = "enforce"%string -> w_links w = []) -> walked_ok h' (Ok (Some w))).
  { intros h' Hsub Hb' Hl. split; [done|]. split; [by apply Hsub, in_before|]. split; [done|]. split; [apply Hsub, in_last|done]. }
  destruct (w_links w) as [|l ls] eqn:El; [apply Hs; [done|by apply unbridged_snoc|done]|].
  destruct (String.eqb_spec (wc_mode c) "enforce") as [Ee|Ee].
  { split; [by apply unbridged_snoc|]. split; [by apply in_before|done]. }
  cbn [pbind ask]. split; [done|]. intros u _. apply Hs; [intros ob; apply in_before| |done]. apply unbridged_snoc; [by apply unbridged_snoc|done].
Qed.

(** What is kept while the broker's parts are put together. *)
Definition steady (w : option walk) (h : wf_history) : Prop := walked_ok h (Ok w).

Lemma steady_snoc w h X (e : wfE X) x : steady w h -> match e with WBridge _ _ => False | _ => True end -> steady w (h ++ [Obs e x]).
Proof using Type.
  intros (Hb & He & Hw) Hn. split; [by apply unbridged_snoc|]. split; [by apply in_before|].
  destruct w as [w|]; [|done]. destruct Hw as (Ho & Hm & Hl). split; [done|]. split; [by apply in_before|done].
Qed.

Lemma report_all_safe w refused h : steady w h -> safe mkdir_env file_request (fun h' _ => steady w h') h (report_all refused).
Proof using Type.
  revert h. induction refused as [|[p why] rest IH]; intros h Hs; cbn [report_all pbind ask]; [done|].
  split; [done|]. intros u _. apply IH. by apply steady_snoc.
Qed.

Lemma steady_counted w h : steady w h -> counted h (pool c w).
Proof using Type.
  intros (_ & _ & Hw). unfold counted. destruct w as [w|].
  - destruct Hw as (Ho & Hm & Hl). apply String.eqb_neq in Ho. rewrite Ho. by exists w.
  - rewrite Hw. by unfold pool.
Qed.

(** A broker is made last, with what its namespace needs; none when anything
    failed. *)
Definition worker_ready (h : wf_history) (r : result created) : Prop :=
  match r with
  | Ok cr => Obs (WBridge (cr_key cr) (cr_quota cr)) tt ∈ h /\ cr_dirs cr = d /\ emptied h /\ counted h (cr_quota cr)
  | Throw _ => unbridged h
  end.

Lemma createForWorker_safe spawned : safe mkdir_env file_request worker_ready [] (createForWorker cwd INSTALL_DIR o spawned c).
Proof using Hd.
  unfold createForWorker. eapply safe_bind; [apply ensureDirs_safe|]. intros h1 [d'|e] [Hb Hm]; [|done].
  destruct Hm as [-> [f Hm]]. unfold wbind. cbn [pbind ask]. split; [split; [done|by exists f]|].
  intros [[]|e] _; [|by apply unbridged_snoc].
  eapply safe_bind; [apply measured_safe; [by apply unbridged_snoc|apply in_last]|].
  intros h2 [w|e] Hw; [|by destruct Hw]. change (steady w h2) in Hw.
  cbn [pbind ask]. split; [done|]. intros [mr|e] _; [|apply unbridged_snoc; [apply Hw|done]].
  pose proof (steady_snoc w h2 _ (WRealDir (resolve cwd [wc_modulePath c])) (Ok mr) Hw I) as H3.
  split; [done|]. intros [inst|e] _; [|apply unbridged_snoc; [apply H3|done]].
  pose proof (steady_snoc w _ _ (WRealDir INSTALL_DIR) (Ok inst) H3 I) as H4.
  split; [done|]. intros [roots|e] _; [|apply unbridged_snoc; [apply H4|done]].
  pose proof (steady_snoc w _ _ (WCodeRoots inst (moduleRootsOf cwd o ++ [mr])) (Ok roots) H4 I) as H5.
  split; [done|]. intros [refused|e] _; [|apply unbridged_snoc; [apply H5|done]].
  eapply safe_bind; [apply report_all_safe with (w := w); by apply steady_snoc|].
  intros h6 u Hs. cbn [pbind ask]. split; [split; [apply Hs|by apply steady_counted]|]. intros v _. destruct v.
  split; [apply in_last|]. split; [done|]. split; [apply in_before, Hs|].
  pose proof (steady_counted w h6 Hs) as Hc. unfold counted in *. destruct (String.eqb _ _); [done|].
  destruct Hc as (w' & Hin & Hc). exists w'. split; [by apply in_before|done].
Qed.
End ready.

(** C17: A module's worker gets its files only when they are ready, and they are
    its own. Whatever the host answers: the only directories made are the
    /data and /tmp of the module's own name; a directory is made private only
    if it was just made for them, so one that was there is left as it is; /tmp
    is emptied before it is measured and before the broker exists; the broker's
    pool counts what was measured, and nothing under off; under enforce no
    broker is made while there are links that could lead outside; and the bridge,
    which holds open ports, is made last, and not at all when anything failed. *)
Theorem worker_files_ready cwd INSTALL_DIR o spawned c d tr r :
  dirsFor cwd (so_moduleDataPath o) (JStr (wc_name c)) = Ok d ->
  run (createForWorker cwd INSTALL_DIR o spawned c) tr r -> allowed mkdir_env [] tr ->
  requests_ok (file_request c d) tr /\ worker_ready c d tr r.
Proof.
  intros Hd Hr Ha. pose proof (createForWorker_safe cwd INSTALL_DIR o c d Hd spawned) as Hs.
  split; [exact (safe_requests _ _ _ _ _ _ Hs Hr Ha)|exact (safe_run _ _ _ [] _ _ _ Hs Hr Ha)].
Qed.

(** A host with the directories there, and nothing in them. *)
Definition demo_host (X : Type) (n : nat) (e : wfE X) : X :=
  match e in wfE X return X with
  | WMkdir _ => Ok None
  | WChmod _ => Ok tt
  | WEmptyTmp _ => Ok tt
  | WMeasure _ _ => Ok (mkWalk [] 0 0 [] 0)
  | WRealDir p => Ok p
  | WCodeRoots _ _ => Ok []
  | WPrepare _ => Ok [("/etc", "protected")]%string
  | WReport _ _ | WBridge _ _ => tt
  end.
Definition demo_server : server_options := mkSrv "/srv/modules" "/srv/data" None None None [].
Definition demo_worker : worker_cfg := mkWc "m" "enforce" "/srv/modules/m" [] (Some (mkDisk 1 10)).

Lemma worker_files_ready_witness :
  let d := mkDirs "/srv/data/m" "/srv/data/m/data" "/srv/data/m/tmp" in
  let p := createForWorker "/" "/opt/ch" demo_server 0 demo_worker in
  let tr := (eval demo_host 0 p).2 in
  dirsFor "/" "/srv/data" (JStr "m") = Ok d /\ List.length tr = 10%nat /\ is_ok (eval demo_host 0 p).1 = true /\
  requests_ok (file_request demo_worker d) tr /\ worker_ready demo_worker d tr (eval demo_host 0 p).1.
Proof.
  set (d := mkDirs "/srv/data/m" "/srv/data/m/data" "/srv/data/m/tmp").
  set (p := createForWorker "/" "/opt/ch" demo_server 0 demo_worker).
  assert (Hd : dirsFor "/" "/srv/data" (JStr "m") = Ok d) by reflexivity.
  assert (Hr : run p (eval demo_host 0 p).2 (eval demo_host 0 p).1) by apply eval_run.
  assert (Ha : allowed mkdir_env [] (eval demo_host 0 p).2) by (vm_compute; repeat split).
  pose proof (worker_files_ready "/" "/opt/ch" demo_server 0 demo_worker d _ _ Hd Hr Ha) as [H1 H2].
  split; [exact Hd|]. split; [reflexivity|]. split; [reflexivity|]. split; [exact H1|exact H2].
Defined.

(** ** Uninstalling deletes one module's data, when nothing uses it *)

Definition un_history : Type := list (obs unE).

Section uninstalling.
Context (cwd moduleDataPath : string) (localModulePath : bool) (n : string) (keepData : bool).

Definition root_of : result string :=
  match dirsFor cwd moduleDataPath (JStr n) with Ok d => Ok (d_root d) | Throw e => Throw e end.

(** In the name's turn, nothing was found to use the module, and then its last
    broker had settled. *)
Definition alone (h : un_history) : Prop :=
  exists h0 rest, h = h0 ++ Obs (ULock n) tt :: Obs (UBusy n) None :: Obs (USettled n) tt :: rest.

(** Its registry entry is gone, where there is a registry. *)
Definition entry_gone (h : un_history) : Prop :=
  localModulePath = true \/ exists changes, Obs (URemoveInfo n) (inr changes) ∈ h.

Definition un_request (h : un_history) (X : Type) (e : unE X) : Prop :=
  match e with
  | UBusy m | ULock m | USettled m => m = n
  | URemoveInfo m => m = n /\ alone h /\ localModulePath = false
  | ULstat p => alone h /\ entry_gone h /\ keepData = false /\ root_of = Ok p
  | URm p => alone h /\ entry_gone h /\ keepData = false /\ root_of = Ok p /\ Obs (ULstat p) (Ok KDir) ∈ h
  | URmdir p => exists r, root_of = Ok r /\ p = dirname r /\ starts_with "@" n = true /\ Obs (URm r) (Ok tt) ∈ h
  end.

Definition deletions (h : un_history) : bool := existsb (fun ob => match ob with Obs (URm _) _ => true | _ => false end) h.
Definition removals (h : un_history) : bool :=
  existsb (fun ob => match ob with Obs e x => match e in unE X return X -> bool with
    | URemoveInfo _ => fun r => match r with inr (Some k) => (0 <? k)%Z | _ => false end
    | _ => fun _ => false end x end) h.

(** What is answered is what was done; nothing is deleted when the registry
    fails or the module is in use. *)
Definition un_outcome (h : un_history) (r : un_error + uninstalled) : Prop :=
  match r with
  | inr u => un_name u = n /\ un_dataDeleted u = deletions h /\ un_registryEntryRemoved u = removals h
  | inl (UnCoded _) => deletions h = false
  | inl (UnHost e) => exists p, Obs (URm p) (Throw e) ∈ h
  end.

Lemma alone_snoc h ob : alone h -> alone (h ++ [ob]).
Proof using Type. intros (h0 & rest & ->). exists h0, (rest ++ [ob]). by rewrite <- app_assoc. Qed.

Lemma gone_snoc h ob : entry_gone h -> entry_gone (h ++ [ob]).
Proof using Type. intros [H|[k H]]; [by left|right]. exists k. apply elem_of_app. by left. Qed.

Lemma deletions_snoc h ob : deletions (h ++ [ob]) = deletions h || match ob with Obs (URm _) _ => true | _ => false end.
Proof using Type. unfold deletions. rewrite existsb_app. cbn. by rewrite orb_false_r. Qed.

Lemma removals_snoc h X (e : unE X) x : match e with URemoveInfo _ => False | _ => True end -> removals (h ++ [Obs e x]) = removals h.
Proof using Type. intros He. unfold removals. rewrite existsb_app. cbn. rewrite orb_false_r. destruct e; try done; by rewrite orb_false_r. Qed.

Lemma un_in_last {X} (h : un_history) (e : unE X) x : Obs e x ∈ h ++ [Obs e x].
Proof using Type. apply elem_of_app. right. by apply list_elem_of_singleton. Qed.

(** The deletion, once nothing else stands in its way. *)
Lemma delete_data_safe removed h :
  safeName (JStr n) = true -> alone h -> entry_gone h -> keepData = false -> deletions h = false -> removals h = removed ->
  safe any_env un_request un_outcome h (let^ deleted := delete_data cwd moduleDataPath n in Ret (inr (mkUn n deleted removed))).
Proof using Type.
  intros Hs Ha Hg Hk Hdel Hrem. unfold delete_data. destruct (dirsFor cwd moduleDataPath (JStr n)) as [d|e] eqn:Hd.
  2: { unfold dirsFor in Hd. by rewrite Hs in Hd. }
  assert (Hroot : root_of = Ok (d_root d)) by (unfold root_of; by rewrite Hd).
  cbn [ubind pbind ask]. split; [done|]. intros [k|e] _.
  2: { cbn. rewrite deletions_snoc, removals_snoc by done. by rewrite Hdel. }
  destruct k; try (cbn; by rewrite deletions_snoc, Hdel).
  cbn [ubind pbind ask]. split.
  { split; [by apply alone_snoc|]. split; [by apply gone_snoc|]. split; [done|]. split; [done|]. apply un_in_last. }
  intros [[]|e] _.
  2: { cbn. exists (d_root d). apply un_in_last. }
  destruct (starts_with "@" n) eqn:Ea; cbn [ubind pbind ask].
  - split; [exists (d_root d); split; [done|]; split; [done|]; split; [done|apply un_in_last]|].
    intros u _. cbn. rewrite !deletions_snoc, !removals_snoc by done. by rewrite orb_true_r.
  - cbn. rewrite !deletions_snoc, !removals_snoc by done. by rewrite orb_true_r.
Qed.

Lemma uninstall_safe : safe any_env un_request un_outcome [] (uninstallModule cwd moduleDataPath localModulePath (JStr n) keepData).
Proof using Type.
  unfold uninstallModule. destruct (safeName (JStr n)) eqn:Hs; cbn [negb]; [|done].
  cbn [pbind ask]. split; [done|]. intros [st|] _; [done|]. split; [done|]. intros [] _. split; [done|]. intros [st|] _; [done|].
  split; [done|]. intros [] _.
  set (h := (((([] ++ [Obs (UBusy n) None]) ++ [Obs (ULock n) tt]) ++ [Obs (UBusy n) None]) ++ [Obs (USettled n) tt])).
  assert (Ha : alone h) by (by exists [Obs (UBusy n) None], []).
  assert (Hgo : forall h' removed, alone h' -> entry_gone h' -> deletions h' = false -> removals h' = removed ->
    safe any_env un_request un_outcome h' (let^ deleted := (if keepData then Ret (inr false) else delete_data cwd moduleDataPath n) in
      Ret (inr (mkUn n deleted removed)))).
  { intros h' removed Ha' Hg' Hd' Hr'. destruct keepData eqn:Ek; [by cbn|by apply delete_data_safe]. }
  unfold remove_entry. destruct localModulePath eqn:El; [apply Hgo; [done|by left|done|done]|].
  cbn [ubind pbind ask]. split; [done|]. intros [m|changes] _; [done|].
  apply Hgo; [by apply alone_snoc|right; exists changes; apply un_in_last|by rewrite deletions_snoc|].
  unfold removals. rewrite existsb_app. cbn. by rewrite orb_false_r.
Qed.
End uninstalling.

(** C18: Uninstalling deletes the data of the one module it names, and only when
    nothing uses it. Whatever the parts answer: files are removed only inside the
    module's own data directory, which was just seen to be a directory and no
    link, only in the name's turn and after it was found neither loaded nor
    restarting nor suspended and its last broker had settled, and only once
    the registry's entry, where there is one, is gone, so that a failing registry
    deletes nothing; a scope's directory is removed only after a scoped name's
    and only empty; what is kept is kept; and the answer says what was done. *)
Theorem uninstall_confined cwd moduleDataPath localModulePath n keepData tr r :
  run (uninstallModule cwd moduleDataPath localModulePath (JStr n) keepData) tr r ->
  requests_ok (un_request cwd moduleDataPath localModulePath n keepData) tr /\ un_outcome n tr r.
Proof.
  intros Hr. pose proof (uninstall_safe cwd moduleDataPath localModulePath n keepData) as Hs.
  split; [exact (safe_all_requests _ _ _ _ _ Hs Hr)|exact (safe_all_run _ _ _ _ _ Hs Hr)].
Qed.

Definition demo_uninstall (X : Type) (i : nat) (e : unE X) : X :=
  match e in unE X return X with
  | UBusy _ => None
  | ULock _ | USettled _ => tt
  | URemoveInfo _ => inr (Some 1%Z)
  | ULstat _ => Ok KDir
  | URm _ | URmdir _ => Ok tt
  end.

Lemma uninstall_confined_witness :
  let p := uninstallModule "/" "/srv/data" false (JStr "@s/m") false in
  let tr := (eval demo_uninstall 0 p).2 in
  run p tr (inr (mkUn "@s/m" true true)) /\ List.length tr = 8%nat /\ requests_ok (un_request "/" "/srv/data" false "@s/m" false) tr.
Proof.
  set (p := uninstallModule "/" "/srv/data" false (JStr "@s/m") false).
  assert (Hr : run p (eval demo_uninstall 0 p).2 (eval demo_uninstall 0 p).1) by apply eval_run.
  pose proof (uninstall_confined _ _ _ _ _ _ _ Hr) as [H1 _].
  split; [exact Hr|]. split; [reflexivity|exact H1].
Defined.
