(* ===== verification/Validation.v ===== *)
(** * Validating a module in a worker of its own (lib/module-manager.js:
    sweepValidateRoot, validateModuleSandboxed)

    A validation is a worker set up as a load of the module would be and then
    discarded. Its making, its worker's messages and end, its timer and its
    teardown come in any order; each of them is a step. *)
From Stdlib Require Import ZArith Lia Ascii String.
From stdpp Require Import prelude strings gmap.
From S2P Require Import Prelude Paths Json Errors Host ModuleData SandboxConfig.

Set Default Proof Using "Type".

Definition VALIDATE_MAX : nat := 2.

(** A validation: its broker being made; its worker asked to set its options,
    or to validate; its teardown; over, with its answer still to be given in a
    turn of its own, or given. *)
Inductive vstage := Making | Starting | Asking | Closing | Released | Answered_.

#[export] Instance vstage_eq_dec : EqDecision vstage.
Proof. solve_decision. Defined.

Record validation := mkVal {
  va_call : nat;                       (* the request it answers *)
  va_shown : string;
  va_name : string;
  va_limited : bool;                   (* its sandbox has limits *)
  va_timeout : Z;
  va_stage : vstage;
  va_broker : bool;
  va_worker : bool;
  va_result : option (cherr + jsval)
}.

Record validator := mkVs { vs_validating : nat; vs_calls : nat; vs_all : list validation }.
Definition new_validator : validator := mkVs 0 0 [].

Inductive veffect :=
| AnswerV (call : nat) (r : cherr + jsval)
| MakeBroker (i : nat) (name path : string)
| MakeWorker (i : nat)
| SendOptions (i : nat)
| WatchLimits (i : nat)
| SendValidate (i : nat)
| TerminateV (i : nat)
| SettleAfterExit (i : nat)           (* the worker gone, then its bridge closed, then its broker idle *)
| RemoveTmp (i : nat).

Inductive made := NoBroker (message : string) | NoWorker (message : string) | WorkerMade.

Inductive vevent :=
| CallValidate (path : string) (timeout : Z)
| Made (i : nat) (m : made)
| WorkerError (i : nat) (message : string)
| WorkerExit (i : nat) (code : Z)
| Timeout_ (i : nat)
| OptionsSet (i : nat) (err : option cherr)
| Validated (i : nat) (r : cherr + jsval)
| Settled (i : nat)                    (* the worker gone, the bridge closed, the broker idle or given up on *)
| Turn (i : nat).                      (* setImmediate *)

(** *** Answers *)

Definition problem_of (stage shown message : string) (fix_ : jsval) : jsval :=
  JObj [("ok", JBool false); ("module", JStr shown);
        ("problems", JArr [JObj [("stage", JStr stage); ("module", JStr shown); ("message", JStr message); ("fix", fix_)]])].
Definition failed (shown message : string) : jsval := problem_of "validateModuleSandbox" shown message JNull.

Definition error_fix : string := "Check the module's main entry for anything that throws, exits or runs away while being required.".
Definition exit_fix : string := "Check the module's main entry for a process.exit() call.".
Definition timeout_fix : string := "Check the module's main entry for an infinite loop or a wait that never ends.".
Definition busy_text : string :=
  "the server is busy: " +:+ nat_text VALIDATE_MAX +:+ " validations are already running; try again shortly".

Section validating.
(** The host's files; --hardened's check of a path; the name in a package.json;
    the sandbox of a module by its path and name; whether refusals hold. *)
Context (cwd : string) (is_directory : string -> bool) (outsideHardenedRoot : string -> option cherr).
Context (ErrorInfo : string -> option string) (package_name : string -> jsval).
Context (build : string -> string -> result (option sandbox)) (enforce : bool).

(** What stops a validation before it takes a slot: an error, or a result. *)
Definition name_for (resolved : string) : string :=
  match package_name resolved with JStr n => if safeName (JStr n) then n else "validate"%string | _ => "validate"%string end.

Definition prelude_check (s : validator) (resolved : string) : (cherr + jsval) + (string * bool) :=
  let shown := basename resolved in
  if negb (is_directory resolved) then inl (inl (Error_ (resolved +:+ " is not a directory")))
  else match outsideHardenedRoot resolved with
  | Some e => inl (inr (failed shown (message_of ErrorInfo e)))
  | None =>
      if (VALIDATE_MAX <=? vs_validating s)%nat then inl (inr (failed shown busy_text))
      else
        let name := name_for resolved in
        match build resolved name with
        | Throw e => inl (inr (failed shown (e_message e)))
        | Ok sandbox =>
            match match sandbox with Some b => s_refusal b | None => None end with
            | Some why => if enforce then inl (inr (failed shown ("refused under enforce, the module's code was not run: " +:+ why)))
                          else inr (name, bool_decide (is_Some sandbox))
            | None => inr (name, bool_decide (is_Some sandbox))
            end
        end
  end.

Definition validateModuleSandboxed (path : string) (timeout : Z) (s : validator) : validator * list veffect :=
  let resolved := resolve cwd [path] in
  let n := vs_calls s in
  match prelude_check s resolved with
  | inl r => (mkVs (vs_validating s) (S n) (vs_all s), [AnswerV n r])
  | inr (name, limited) =>
      (mkVs (S (vs_validating s)) (S n)
         (vs_all s ++ [mkVal n (basename resolved) name limited timeout Making false false None]),
       [MakeBroker (length (vs_all s)) name resolved])
  end.

Definition put (i : nat) (v : validation) (s : validator) : validator := mkVs (vs_validating s) (vs_calls s) (<[i := v]> (vs_all s)).
Definition at_stage (v : validation) (st : vstage) : validation :=
  mkVal (va_call v) (va_shown v) (va_name v) (va_limited v) (va_timeout v) st (va_broker v) (va_worker v) (va_result v).
Definition with_parts (v : validation) (broker worker : bool) : validation :=
  mkVal (va_call v) (va_shown v) (va_name v) (va_limited v) (va_timeout v) (va_stage v) broker worker (va_result v).
Definition with_result (v : validation) (r : cherr + jsval) : validation :=
  mkVal (va_call v) (va_shown v) (va_name v) (va_limited v) (va_timeout v) Closing (va_broker v) (va_worker v) (Some r).

(** [finish]: the first end of a validation is its answer, and starts the
    teardown. *)
Definition finish (i : nat) (v : validation) (r : cherr + jsval) (s : validator) : validator * list veffect :=
  match va_result v with
  | Some _ => (s, [])
  | None => (put i (with_result v r) s,
             (if va_worker v then [TerminateV i] else []) ++ (if va_broker v then [SettleAfterExit i] else []))
  end.

Definition on_made (i : nat) (v : validation) (m : made) (s : validator) : validator * list veffect :=
  match va_stage v, m with
  | Making, NoBroker e => finish i v (inr (failed (va_shown v) ("file broker: " +:+ e))) s
  | Making, NoWorker e => finish i (with_parts v true false) (inr (failed (va_shown v) ("file broker: " +:+ e))) s
  | Making, WorkerMade => (put i (at_stage (with_parts v true true) Starting) s, [MakeWorker i; SendOptions i])
  | _, _ => (s, [])
  end.

Definition on_options (i : nat) (v : validation) (err : option cherr) (s : validator) : validator * list veffect :=
  let asks := (if va_limited v then [WatchLimits i] else []) ++ [SendValidate i] in
  match va_stage v, err with
  | (Making | Asking), _ => (s, [])
  | _, Some e => finish i v (inr (failed (va_shown v) (message_of ErrorInfo e))) s
  | Starting, None => (put i (at_stage v Asking) s, asks)
  | _, None => (s, asks)
  end.

(** The slot is released however the teardown ended, and the answer given in
    the next turn. *)
Definition on_settled (i : nat) (v : validation) (s : validator) : validator * list veffect :=
  match va_stage v with
  | Closing => (mkVs (pred (vs_validating s)) (vs_calls s) (<[i := at_stage v Released]> (vs_all s)), [RemoveTmp i])
  | _ => (s, [])
  end.

Definition on_turn (i : nat) (v : validation) (s : validator) : validator * list veffect :=
  match va_stage v, va_result v with
  | Released, Some r => (put i (at_stage v Answered_) s, [AnswerV (va_call v) r])
  | _, _ => (s, [])
  end.

(** The worker of a validation: what ends it before it answers. *)
Definition running (v : validation) : bool := va_worker v.

Definition vstep (ev : vevent) (s : validator) : validator * list veffect :=
  let at_ i (k : validation -> validator * list veffect) := match vs_all s !! i with Some v => k v | None => (s, []) end in
  let ends i (v : validation) r := if running v then finish i v r s else (s, []) in
  match ev with
  | CallValidate path timeout => validateModuleSandboxed path timeout s
  | Made i m => at_ i (fun v => on_made i v m s)
  | WorkerError i message => at_ i (fun v =>
      ends i v (inr (problem_of "validateModuleSandbox" (va_shown v) ("the module ended its validation: " +:+ message) (JStr error_fix))))
  | WorkerExit i code => at_ i (fun v =>
      ends i v (inr (problem_of "validateModuleSandbox" (va_shown v)
                       ("the module ended its validation (exit code " +:+ Z_text code +:+ ")") (JStr exit_fix))))
  | Timeout_ i => at_ i (fun v =>
      ends i v (inr (problem_of "validateModuleSandbox" (va_shown v)
                       ("the validation did not finish within " +:+ Z_text (va_timeout v) +:+ " ms") (JStr timeout_fix))))
  | OptionsSet i err => at_ i (fun v => on_options i v err s)
  | Validated i r => at_ i (fun v => match va_stage v with Making | Starting => (s, []) | _ => ends i v r end)
  | Settled i => at_ i (fun v => on_settled i v s)
  | Turn i => at_ i (fun v => on_turn i v s)
  end.

Fixpoint vrun (evs : list vevent) (s : validator) : validator * list veffect :=
  match evs with
  | [] => (s, [])
  | ev :: evs => let '(s1, e1) := vstep ev s in let '(s2, e2) := vrun evs s1 in (s2, e1 ++ e2)
  end.
End validating.

(** The worker of a validation has no main-thread services: any request of it
    is refused by name. *)
Definition refused_message (msg : jsval) : option jsval :=
  if is_nullish msg || negb (strict_eq (jget "category" msg) (JStr "child")) || strict_eq (jget "command" msg) (JStr "sandbox-violation")
  then None
  else if is_nullish (jget "id" msg) then None
  else Some (JObj [("command", JStr "refused-reply"); ("msgID", jget "id" msg);
                   ("errMsg", JStr "a validation has no main-thread services"); ("errCode", JStr "VALIDATE_REFUSED")]).

(** [sweepValidateRoot]: what clearing a path does, by what is there. *)
Inductive sweep := LeaveIt | UnlinkIt | RemoveTree.
Definition sweepValidateRoot (there : option kind) : sweep :=
  match there with None => LeaveIt | Some KDir => RemoveTree | Some _ => UnlinkIt end.

(** ** Slots are bounded and released, and each caller answered once *)

Definition holds_slot (v : validation) : bool := match va_stage v with Released | Answered_ => false | _ => true end.
Definition answers_to (n : nat) (es : list veffect) : nat :=
  length (List.filter (fun e => match e with AnswerV m _ => (m =? n)%nat | _ => false end) es).
Definition removals_of (i : nat) (es : list veffect) : nat :=
  length (List.filter (fun e => match e with RemoveTmp j => (j =? i)%nat | _ => false end) es).
Definition slots (vs : list validation) : nat := length (List.filter holds_slot vs).

(** What holds of a validation at each stage, after the effects [es]. *)
Definition valid_at (es : list veffect) (i : nat) (v : validation) : Prop :=
  (bool_decide (is_Some (va_result v)) = match va_stage v with Making | Starting | Asking => false | _ => true end) /\
  answers_to (va_call v) es = (match va_stage v with Answered_ => 1 | _ => 0 end)%nat /\
  removals_of i es = (if holds_slot v then 0 else 1)%nat /\
  (va_worker v = true -> va_stage v <> Making) /\ (va_broker v = false -> va_worker v = false).

(** Each call that has no validation was answered when it was made. *)
Record vinv (s : validator) (es : list veffect) : Prop := {
  vi_slots : vs_validating s = slots (vs_all s);
  vi_bound : (vs_validating s <= VALIDATE_MAX)%nat;
  vi_each : forall i v, vs_all s !! i = Some v -> valid_at es i v;
  vi_calls : NoDup (map va_call (vs_all s));
  vi_old : forall v, v ∈ vs_all s -> (va_call v < vs_calls s)%nat;
  vi_answers : forall n, (n < vs_calls s)%nat -> n ∉ map va_call (vs_all s) -> answers_to n es = 1%nat;
  vi_later : forall n, (vs_calls s <= n)%nat -> answers_to n es = 0%nat;
  vi_fresh : forall i, (length (vs_all s) <= i)%nat -> removals_of i es = 0%nat
}.

Lemma vanswers_app n es es' : answers_to n (es ++ es') = (answers_to n es + answers_to n es')%nat.
Proof. unfold answers_to. by rewrite List.filter_app, length_app. Qed.
Lemma removals_app i es es' : removals_of i (es ++ es') = (removals_of i es + removals_of i es')%nat.
Proof. unfold removals_of. by rewrite List.filter_app, length_app. Qed.

Definition slot (v : validation) : nat := if holds_slot v then 1%nat else 0%nat.

Lemma slots_cons x l : slots (x :: l) = (slot x + slots l)%nat.
Proof. unfold slots, slot. cbn. by destruct (holds_slot x). Qed.

Lemma slots_insert i v v' l : l !! i = Some v -> (slots (<[i := v']> l) + slot v = slots l + slot v')%nat.
Proof.
  revert i. induction l as [|x l IH]; intros [|i] H; [done..| |].
  - injection H as ->. change (<[0%nat := v']> (v :: l)) with (v' :: l). rewrite !slots_cons. lia.
  - change (<[S i := v']> (x :: l)) with (x :: <[i := v']> l). specialize (IH i H). rewrite !slots_cons. lia.
Qed.

Lemma slots_pos i v l : l !! i = Some v -> holds_slot v = true -> (0 < slots l)%nat.
Proof.
  intros Hl Hs. pose proof (slots_insert i v (at_stage v Released) l Hl) as H. unfold slot in H. rewrite Hs in H. cbn in H. lia.
Qed.

Lemma map_call_insert i v v' l : l !! i = Some v -> va_call v' = va_call v -> map va_call (<[i := v']> l) = map va_call l.
Proof.
  intros Hl Hc. change (va_call <$> <[i := v']> l = va_call <$> l). rewrite list_fmap_insert, Hc.
  apply list_insert_id. by rewrite list_lookup_fmap, Hl.
Qed.

Lemma same_call s es i j v w : vinv s es -> vs_all s !! i = Some v -> vs_all s !! j = Some w -> va_call v = va_call w -> i = j.
Proof.
  intros Hi Hv Hw Hc. apply (NoDup_lookup (map va_call (vs_all s)) i j (va_call v)); [apply Hi| |].
  - change (map va_call (vs_all s)) with (va_call <$> vs_all s). by rewrite list_lookup_fmap, Hv.
  - change (map va_call (vs_all s)) with (va_call <$> vs_all s). by rewrite list_lookup_fmap, Hw, Hc.
Qed.

#[local] Opaque slots slot answers_to removals_of.

(** A step that changes one validation. *)
Lemma vinv_update s es i v v' k es' :
  vinv s es -> vs_all s !! i = Some v -> va_call v' = va_call v -> (k + slot v = vs_validating s + slot v')%nat ->
  (slot v' <= slot v)%nat -> (forall m, m <> va_call v -> answers_to m es' = 0%nat) ->
  (forall j, j <> i -> removals_of j es' = 0%nat) -> valid_at (es ++ es') i v' ->
  vinv (mkVs k (vs_calls s) (<[i := v']> (vs_all s))) (es ++ es').
Proof.
  intros Hi Hl Hc Hk Hs Ha Hr Hv. pose proof (slots_insert i v v' _ Hl) as Hsl.
  assert (Hin : v ∈ vs_all s) by (by apply list_elem_of_lookup_2 in Hl).
  split; cbn.
  - rewrite (vi_slots _ _ Hi) in Hk. lia.
  - pose proof (vi_bound _ _ Hi). lia.
  - intros j w Hw. destruct (decide (j = i)) as [->|Hne].
    + rewrite list_lookup_insert_eq in Hw by (by apply lookup_lt_Some in Hl). by injection Hw as <-.
    + rewrite list_lookup_insert_ne in Hw by done. destruct (vi_each _ _ Hi j w Hw) as (H1 & H2 & H3 & H4).
      split; [done|]. rewrite vanswers_app, removals_app, H2, H3, Hr, Ha, !Nat.add_0_r; [done| |done].
      intros E. by apply Hne, (same_call s es j i w v).
  - rewrite (map_call_insert i v v') by done. apply Hi.
  - intros w Hw. apply list_elem_of_lookup_1 in Hw as [j Hw]. destruct (decide (j = i)) as [->|Hne].
    + rewrite list_lookup_insert_eq in Hw by (by apply lookup_lt_Some in Hl). injection Hw as <-. rewrite Hc. by apply Hi.
    + rewrite list_lookup_insert_ne in Hw by done. apply Hi. by apply list_elem_of_lookup_2 in Hw.
  - intros n Hn Hni. rewrite (map_call_insert i v v') in Hni by done. rewrite vanswers_app, (vi_answers _ _ Hi n Hn Hni), Ha; [done|].
    intros ->. apply Hni. by apply list_elem_of_fmap_2.
  - intros n Hn. rewrite vanswers_app, (vi_later _ _ Hi n Hn), Ha; [done|]. pose proof (vi_old _ _ Hi v Hin). lia.
  - intros j Hj. rewrite length_insert in Hj. rewrite removals_app, (vi_fresh _ _ Hi j Hj), Hr; [done|].
    apply lookup_lt_Some in Hl. lia.
Qed.

(** A step that only says something. *)
Lemma vinv_says s es es' : vinv s es -> (forall n, answers_to n es' = 0%nat) -> (forall j, removals_of j es' = 0%nat) -> vinv s (es ++ es').
Proof.
  intros Hi Ha Hr. split; try apply Hi.
  - intros i v Hv. destruct (vi_each _ _ Hi i v Hv) as (H1 & H2 & H3 & H4). split; [done|]. by rewrite vanswers_app, removals_app, Ha, Hr, !Nat.add_0_r.
  - intros n Hn Hni. rewrite vanswers_app, Ha, Nat.add_0_r. by apply Hi.
  - intros n Hn. rewrite vanswers_app, Ha, Nat.add_0_r. by apply Hi.
  - intros j Hj. rewrite removals_app, Hr, Nat.add_0_r. by apply Hi.
Qed.
#[local] Transparent slots slot answers_to removals_of.

Lemma quiet_answers n es : Forall (fun e => match e with AnswerV _ _ => False | _ => True end) es -> answers_to n es = 0%nat.
Proof. induction 1 as [|e es He _ IH]; [done|]. unfold answers_to in *. cbn. by destruct e. Qed.
Lemma quiet_removals j es : Forall (fun e => match e with RemoveTmp _ => False | _ => True end) es -> removals_of j es = 0%nat.
Proof. induction 1 as [|e es He _ IH]; [done|]. unfold removals_of in *. cbn. by destruct e. Qed.

(** A step whose effects are neither answers nor removals, and that keeps what
    the stages have in common. *)
Lemma vinv_moves s es i v v' es' :
  vinv s es -> vs_all s !! i = Some v -> va_call v' = va_call v -> holds_slot v = true -> holds_slot v' = true ->
  Forall (fun e => match e with AnswerV _ _ | RemoveTmp _ => False | _ => True end) es' ->
  bool_decide (is_Some (va_result v')) = (match va_stage v' with Making | Starting | Asking => false | _ => true end) ->
  (va_worker v' = true -> va_stage v' <> Making) -> (va_broker v' = false -> va_worker v' = false) ->
  vinv (put i v' s) (es ++ es').
Proof.
  intros Hi Hl Hc Hs Hs' Hq Hr Hw Hb. destruct (vi_each _ _ Hi i v Hl) as (_ & Ha & Hrm & _ & _).
  assert (Hqa : forall n, answers_to n es' = 0%nat) by (intros n; apply quiet_answers; eapply Forall_impl; [exact Hq|]; by intros []).
  assert (Hqr : forall j, removals_of j es' = 0%nat) by (intros j; apply quiet_removals; eapply Forall_impl; [exact Hq|]; by intros []).
  apply (vinv_update s es i v v'); [done..|unfold slot; by rewrite Hs, Hs'|unfold slot; by rewrite Hs, Hs'|auto|auto|].
  split; [done|]. rewrite vanswers_app, removals_app, Hqa, Hqr, !Nat.add_0_r, Hc, Ha, Hrm, Hs, Hs'.
  split; [|done]. unfold holds_slot in Hs, Hs'. by destruct (va_stage v), (va_stage v').
Qed.

Lemma vfinish_inv s es i v0 v r :
  vinv s es -> vs_all s !! i = Some v0 -> va_call v = va_call v0 -> va_stage v = va_stage v0 -> va_result v = va_result v0 ->
  (va_broker v = false -> va_worker v = false) -> vinv (finish i v r s).1 (es ++ (finish i v r s).2).
Proof.
  intros Hi Hl Hc Hst Hr Hb. unfold finish. destruct (va_result v) as [x|] eqn:Ev; cbn [fst snd]; [by rewrite app_nil_r|].
  destruct (vi_each _ _ Hi i v0 Hl) as (Hres & _). rewrite <- Hr, <- Hst in Hres. cbn in Hres.
  apply (vinv_moves s es i v0); [done|done|done| |done| |done|done|done].
  - unfold holds_slot. rewrite <- Hst. by destruct (va_stage v).
  - destruct (va_worker v), (va_broker v); repeat constructor.
Qed.

Section steps.
Context (cwd : string) (is_directory : string -> bool) (outsideHardenedRoot : string -> option cherr).
Context (ErrorInfo : string -> option string) (package_name : string -> jsval).
Context (build : string -> string -> result (option sandbox)) (enforce : bool).

Let step := vstep cwd is_directory outsideHardenedRoot ErrorInfo package_name build enforce.

Lemma call_inv path timeout s es :
  vinv s es ->
  let '(s', e) := validateModuleSandboxed cwd is_directory outsideHardenedRoot ErrorInfo package_name build enforce path timeout s in
  vinv s' (es ++ e).
Proof using Type.
  intros Hi. unfold validateModuleSandboxed. destruct (prelude_check _ _ _ _ _ _ _ _) as [r|[name limited]] eqn:Ep.
  - assert (Ha : forall m, answers_to m [AnswerV (vs_calls s) r] = if (m =? vs_calls s)%nat then 1%nat else 0%nat)
      by (intros m; unfold answers_to; cbn; rewrite (Nat.eqb_sym m); by destruct (vs_calls s =? m)%nat).
    split; cbn [vs_validating vs_calls vs_all]; try apply Hi.
    + intros i v Hv. destruct (vi_each _ _ Hi i v Hv) as (H1 & H2 & H3 & H4). split; [done|].
      rewrite vanswers_app, removals_app, Ha. apply list_elem_of_lookup_2 in Hv. pose proof (vi_old _ _ Hi v Hv) as Ho.
      rewrite (proj2 (Nat.eqb_neq _ _)) by lia. by rewrite !Nat.add_0_r.
    + intros v Hv. pose proof (vi_old _ _ Hi v Hv). lia.
    + intros n Hn Hni. rewrite vanswers_app, Ha. destruct (Nat.eqb_spec n (vs_calls s)) as [->|Hne].
      * by rewrite (vi_later _ _ Hi) by lia.
      * rewrite (vi_answers _ _ Hi) by (done || lia). done.
    + intros n Hn. rewrite vanswers_app, Ha, (vi_later _ _ Hi) by lia. rewrite (proj2 (Nat.eqb_neq _ _)) by lia. done.
    + intros j Hj. by rewrite removals_app, (vi_fresh _ _ Hi) by done.
  - assert (Hlt : (vs_validating s < VALIDATE_MAX)%nat).
    { unfold prelude_check in Ep. repeat case_match; try done; bool_hyps; lia. }
    assert (Ha : forall m, answers_to m [MakeBroker (length (vs_all s)) name (resolve cwd [path])] = 0%nat) by done.
    assert (Hrm : forall m, removals_of m [MakeBroker (length (vs_all s)) name (resolve cwd [path])] = 0%nat) by done.
    split; cbn [vs_validating vs_calls vs_all].
    + rewrite (vi_slots _ _ Hi). unfold slots. rewrite List.filter_app, length_app. cbn. lia.
    + lia.
    + intros i v Hv. apply lookup_app_Some in Hv as [Hv|[Hge Hv]].
      * destruct (vi_each _ _ Hi i v Hv) as (H1 & H2 & H3 & H4). split; [done|]. by rewrite vanswers_app, removals_app, Ha, Hrm, !Nat.add_0_r.
      * apply list_lookup_singleton_Some in Hv as [Hz <-]. split; [done|].
        rewrite vanswers_app, removals_app, Ha, Hrm, (vi_later _ _ Hi), (vi_fresh _ _ Hi) by (cbn; lia). by split_and!.
    + rewrite map_app. apply NoDup_snoc; [apply Hi|]. intros H. apply list_elem_of_fmap in H as (v & Hc & Hin).
      pose proof (vi_old _ _ Hi v Hin). cbn in Hc. lia.
    + intros v Hv. apply elem_of_app in Hv as [Hv|Hv]; [pose proof (vi_old _ _ Hi v Hv); lia|].
      apply list_elem_of_singleton in Hv as ->. cbn. lia.
    + intros n Hn Hni. rewrite map_app in Hni. rewrite vanswers_app, Ha, Nat.add_0_r. apply Hi.
      * assert (n <> vs_calls s) by (intros ->; apply Hni, elem_of_app; right; by left). lia.
      * intros H. apply Hni, elem_of_app. by left.
    + intros n Hn. rewrite vanswers_app, Ha, Nat.add_0_r. apply Hi. lia.
    + intros j Hj. rewrite length_app in Hj. cbn in Hj. rewrite removals_app, Hrm, Nat.add_0_r. apply Hi. lia.
Qed.

(** A step on a validation that the event names. *)
Definition one_inv (s : validator) (es : list veffect) (i : nat) (k : validation -> validator * list veffect) : Prop :=
  forall v, vs_all s !! i = Some v -> vinv (k v).1 (es ++ (k v).2).

Lemma ends_inv s es i v r : vinv s es -> vs_all s !! i = Some v ->
  vinv (if running v then finish i v r s else (s, [])).1 (es ++ (if running v then finish i v r s else (s, [])).2).
Proof using Type.
  intros Hi Hl. destruct (vi_each _ _ Hi i v Hl) as (_ & _ & _ & _ & Hb).
  destruct (running v); [by apply (vfinish_inv s es i v)|cbn; by rewrite app_nil_r].
Qed.

Lemma made_inv s es i m : vinv s es -> one_inv s es i (fun v => on_made i v m s).
Proof using Type.
  intros Hi v Hl. destruct (vi_each _ _ Hi i v Hl) as (Hr & _ & _ & _ & Hb). unfold on_made.
  destruct (va_stage v) eqn:Es; try (cbn; by rewrite app_nil_r). destruct m.
  - by apply (vfinish_inv s es i v).
  - by apply (vfinish_inv s es i v).
  - cbn [fst snd]. apply (vinv_moves s es i v); [done|done|done|unfold holds_slot; by rewrite Es|done|by repeat constructor|done|done|done].
Qed.

Lemma options_inv s es i err : vinv s es -> one_inv s es i (fun v => on_options ErrorInfo i v err s).
Proof using Type.
  intros Hi v Hl. destruct (vi_each _ _ Hi i v Hl) as (Hr & _ & _ & _ & Hb). unfold on_options.
  assert (Hq : Forall (fun e => match e with AnswerV _ _ | RemoveTmp _ => False | _ => True end)
                 ((if va_limited v then [WatchLimits i] else []) ++ [SendValidate i])) by (destruct (va_limited v); by repeat constructor).
  assert (Hsays : vinv s (es ++ (if va_limited v then [WatchLimits i] else []) ++ [SendValidate i])).
  { apply vinv_says; [done|intros n; apply quiet_answers|intros j; apply quiet_removals]; (eapply Forall_impl; [exact Hq|]; by intros []). }
  destruct (va_stage v) eqn:Es, err; try (cbn; by rewrite app_nil_r); try (by apply (vfinish_inv s es i v)); try exact Hsays.
  cbn [fst snd]. apply (vinv_moves s es i v); [done|done|done|unfold holds_slot; by rewrite Es|done|done|done|done|done].
Qed.

Lemma settled_inv s es i : vinv s es -> one_inv s es i (fun v => on_settled i v s).
Proof using Type.
  intros Hi v Hl. destruct (vi_each _ _ Hi i v Hl) as (Hr & Ha & Hrm & Hw & Hb). unfold on_settled.
  destruct (va_stage v) eqn:Es; try (cbn; by rewrite app_nil_r). cbn [fst snd].
  assert (Hs : holds_slot v = true) by (unfold holds_slot; by rewrite Es).
  pose proof (slots_pos i v _ Hl Hs) as Hpos. rewrite <- (vi_slots _ _ Hi) in Hpos.
  apply (vinv_update s es i v); [done|done|done|unfold slot; rewrite Hs; cbn; lia|unfold slot; cbn; lia|done| |].
  - intros j Hj. unfold removals_of. cbn. by rewrite (proj2 (Nat.eqb_neq i j)) by done.
  - rewrite Hs in Hrm. split; [exact Hr|].
    change (va_call (at_stage v Released)) with (va_call v). rewrite vanswers_app, removals_app, Ha, Hrm. split; [done|]. split; [|by split].
    unfold removals_of. cbn. by rewrite Nat.eqb_refl.
Qed.

Lemma turn_inv s es i : vinv s es -> one_inv s es i (fun v => on_turn i v s).
Proof using Type.
  intros Hi v Hl. destruct (vi_each _ _ Hi i v Hl) as (Hr & Ha & Hrm & Hw & Hb). unfold on_turn.
  destruct (va_stage v) eqn:Es, (va_result v) as [r|] eqn:Er; try (cbn; by rewrite app_nil_r). cbn [fst snd].
  assert (Hs : holds_slot v = false) by (unfold holds_slot; by rewrite Es).
  apply (vinv_update s es i v); [done|done|done|unfold slot; rewrite Hs; cbn; lia|unfold slot; cbn; lia| |done|].
  - intros m Hm. unfold answers_to. cbn. by rewrite (proj2 (Nat.eqb_neq (va_call v) m)) by done.
  - rewrite Hs in Hrm. split; [cbn; by rewrite Er|].
    change (va_call (at_stage v Answered_)) with (va_call v). rewrite vanswers_app, removals_app, Ha, Hrm.
    split; [unfold answers_to; cbn; by rewrite Nat.eqb_refl|]. by split_and!.
Qed.

Lemma vstep_inv ev s es : vinv s es -> vinv (step ev s).1 (es ++ (step ev s).2).
Proof using Type.
  intros Hi. assert (Hat : forall i k, one_inv s es i k ->
    vinv (match vs_all s !! i with Some v => k v | None => (s, []) end).1 (es ++ (match vs_all s !! i with Some v => k v | None => (s, []) end).2)).
  { intros i k Hk. destruct (vs_all s !! i) as [v|] eqn:E; [by apply Hk|cbn; by rewrite app_nil_r]. }
  unfold step. destruct ev; cbn [vstep].
  - pose proof (call_inv path timeout s es Hi) as H. by destruct (validateModuleSandboxed _ _ _ _ _ _ _ _ _ _).
  - by apply Hat, made_inv.
  - apply Hat. intros v Hl. by apply ends_inv.
  - apply Hat. intros v Hl. by apply ends_inv.
  - apply Hat. intros v Hl. by apply ends_inv.
  - by apply Hat, options_inv.
  - apply Hat. intros v Hl. destruct (va_stage v); try (cbn; by rewrite app_nil_r); by apply ends_inv.
  - by apply Hat, settled_inv.
  - by apply Hat, turn_inv.
Qed.

Lemma vrun_inv evs s es : vinv s es ->
  let '(s', e) := vrun cwd is_directory outsideHardenedRoot ErrorInfo package_name build enforce evs s in vinv s' (es ++ e).
Proof using Type.
  revert s es. induction evs as [|ev evs IH]; intros s es Hi; cbn [vrun]; [by rewrite app_nil_r|].
  pose proof (vstep_inv ev s es Hi) as H. unfold step in H. destruct (vstep _ _ _ _ _ _ _ ev s) as [s1 e1]. cbn [fst snd] in H.
  specialize (IH s1 (es ++ e1) H). destruct (vrun _ _ _ _ _ _ _ evs s1) as [s2 e2]. by rewrite app_assoc.
Qed.

Lemma vinv_new : vinv new_validator [].
Proof using Type. split; try done; cbn; [lia|constructor|intros v Hv; by apply not_elem_of_nil in Hv|lia]. Qed.

(** What a validation was first ended with is kept by every step. *)
Definition keeps (s s' : validator) : Prop :=
  forall i v r, vs_all s !! i = Some v -> va_result v = Some r -> exists v', vs_all s' !! i = Some v' /\ va_result v' = Some r.

Lemma vkeeps_refl s : keeps s s.
Proof using Type. intros i v r Hl Hr. by exists v. Qed.

Lemma keeps_at s s' j v v' :
  vs_all s !! j = Some v -> vs_all s' = <[j := v']> (vs_all s) -> (forall r, va_result v = Some r -> va_result v' = Some r) -> keeps s s'.
Proof using Type.
  intros Hl E Hk i w r Hi Hr. rewrite E. destruct (decide (i = j)) as [->|Hne].
  - exists v'. rewrite list_lookup_insert_eq by (by apply lookup_lt_Some in Hl). rewrite Hl in Hi. injection Hi as <-. auto.
  - exists w. by rewrite list_lookup_insert_ne.
Qed.

Lemma finish_keeps s j v0 v r : vs_all s !! j = Some v0 -> va_result v = va_result v0 -> keeps s (finish j v r s).1.
Proof using Type.
  intros Hl Hv. unfold finish. destruct (va_result v) eqn:E; [apply vkeeps_refl|].
  apply (keeps_at _ _ j v0 (with_result v r)); [done|done|]. intros x Hx. congruence.
Qed.

Lemma step_keeps ev s : keeps s (step ev s).1.
Proof using Type.
  pose proof vkeeps_refl as Hrefl. pose proof finish_keeps as Hfin. unfold step. destruct ev; cbn [vstep].
  1: { unfold validateModuleSandboxed. destruct (prelude_check _ _ _ _ _ _ _ _) as [?|[? ?]];
         intros j v r Hl Hr; exists v; (split; [|done]); [done|]. by apply lookup_app_l_Some. }
  all: destruct (vs_all s !! i) as [v|] eqn:Hl; [|apply Hrefl].
  all: try (destruct (running v); [by eapply Hfin|apply Hrefl]).
  - unfold on_made. destruct (va_stage v), m; try apply Hrefl; try (by eapply Hfin). eapply (keeps_at _ _ i v _ Hl); [reflexivity|done].
  - unfold on_options. destruct (va_stage v), err; try apply Hrefl; try (by eapply Hfin). eapply (keeps_at _ _ i v _ Hl); [reflexivity|done].
  - destruct (va_stage v); try apply Hrefl; (destruct (running v); [by eapply Hfin|apply Hrefl]).
  - unfold on_settled. destruct (va_stage v); try apply Hrefl. eapply (keeps_at _ _ i v _ Hl); [reflexivity|done].
  - unfold on_turn. destruct (va_stage v), (va_result v); try apply Hrefl. eapply (keeps_at _ _ i v _ Hl); [reflexivity|done].
Qed.

(** C19: Over any order of calls, replies, errors, ends, timers and teardowns: at
    most two validations hold a slot, and a slot is held from a validation's
    start until its teardown is over, and then released, whatever ended it; its
    throwaway directory is removed then, once; a caller whose validation was
    refused is answered at once, and any other exactly once, in the turn after
    its slot was released, with the first thing that ended it. *)
Theorem validations_bounded evs :
  let '(s, es) := vrun cwd is_directory outsideHardenedRoot ErrorInfo package_name build enforce evs new_validator in
  (vs_validating s <= VALIDATE_MAX)%nat /\ vs_validating s = slots (vs_all s) /\
  (forall i v, vs_all s !! i = Some v ->
     removals_of i es = (if holds_slot v then 0 else 1)%nat /\
     answers_to (va_call v) es = (match va_stage v with Answered_ => 1 | _ => 0 end)%nat /\
     (va_stage v = Released -> exists r, va_result v = Some r /\ (step (Turn i) s).2 = [AnswerV (va_call v) r])) /\
  (forall n, answers_to n es = if (n <? vs_calls s)%nat && bool_decide (n ∉ map va_call (vs_all s)) then 1%nat
             else match List.find (fun v => (va_call v =? n)%nat) (vs_all s) with
                  | Some v => match va_stage v with Answered_ => 1 | _ => 0 end
                  | None => 0
                  end%nat) /\
  (forall ev, keeps s (step ev s).1).
Proof using Type.
  pose proof (vrun_inv evs new_validator [] vinv_new) as Hi. destruct (vrun _ _ _ _ _ _ _ evs new_validator) as [s es]. cbn [app] in Hi.
  split; [apply Hi|]. split; [apply Hi|]. split; [|split; [|intros ev; apply step_keeps]].
  - intros i v Hl. destruct (vi_each _ _ Hi i v Hl) as (Hr & Ha & Hrm & _). split; [done|]. split; [done|]. intros Es.
    rewrite Es in Hr. apply bool_decide_eq_true in Hr as [r Hr]. exists r. split; [done|].
    unfold step. cbn [vstep]. rewrite Hl. unfold on_turn. by rewrite Es, Hr.
  - intros n. destruct (Nat.ltb_spec n (vs_calls s)) as [Hn|Hn]; cbn [andb].
    + case_bool_decide as Hni; [by apply Hi|]. destruct (List.find _ _) as [v|] eqn:Ef.
      * apply find_some in Ef as [Hin Heq]. apply Nat.eqb_eq in Heq as <-. apply list_elem_of_In, list_elem_of_lookup_1 in Hin as [i Hl].
        by destruct (vi_each _ _ Hi i v Hl) as (_ & Ha & _).
      * exfalso. apply list_elem_of_fmap in Hni as (v & -> & Hin). apply list_elem_of_In in Hin.
        pose proof (find_none _ _ Ef v Hin) as H. cbn in H. by rewrite Nat.eqb_refl in H.
    + rewrite (vi_later _ _ Hi) by done. destruct (List.find _ _) as [v|] eqn:Ef; [|done].
      apply find_some in Ef as [Hin Heq]. apply Nat.eqb_eq in Heq as <-. apply list_elem_of_In in Hin. pose proof (vi_old _ _ Hi v Hin). lia.
Qed.
End steps.
