(* ===== verification/Hardened.v ===== *)
(** * The server under Node's permission model (lib/hardened-launch.js,
    lib/hardened-realpaths.js)

    --hardened starts the server again with a list of granted paths. Node takes
    the grants as flags; the real paths of the granted directories are resolved
    before, and handed to the new process. *)
From Stdlib Require Import ZArith Lia Ascii String.
From stdpp Require Import prelude strings.
From S2P Require Import Prelude Paths Json Options.

Set Default Proof Using "Type".

(** [path.resolve(cwd, v)]: it throws on what is no text. *)
Definition path_arg (cwd : string) (v : jsval) : result string :=
  match v with
  | JStr p => Ok (resolve cwd [cwd; p])
  | _ => Throw (coded_error "ERR_INVALID_ARG_TYPE" "The paths[1] argument must be of type string.")
  end.

(** *** permissionFlags *)

Definition READ : string := "--allow-fs-read=".
Definition WRITE : string := "--allow-fs-write=".

Record grants := mkGrants { g_read : list string; g_write : list string; g_addons : bool }.
Definition may_read (p : string) (g : grants) : grants := mkGrants (g_read g ++ [p]) (g_write g) (g_addons g).
Definition may_write (p : string) (g : grants) : grants := mkGrants (g_read g) (g_write g ++ [p]) (g_addons g).
Definition with_addons (g : grants) : grants := mkGrants (g_read g) (g_write g) true.

Section grants.
(** The options, the install directory, the current directory; the code roots
    [Packages.codeRootsFor] finds; what exists on the host. *)
Context (o : options) (installDir cwd : string) (codeRoots : list string) (existsSync : string -> bool).

Definition hoisted (read : list string) : list string :=
  fold_left (fun read r => if negb (String.eqb r installDir) && negb (starts_with (installDir +:+ "/") r) && negb (includes r read)
                           then read ++ [r] else read) codeRoots read.

Definition auth_file (g : grants) : result grants :=
  if negb (debug o) && strict_eq (authProvider o) (JStr "file")
  then let! authFile := path_arg cwd (or_default (authConfigPath o) "auth.json") in
       Ok (if existsSync authFile then may_read authFile g else may_write authFile (may_read authFile g))
  else Ok g.

Definition device_config (g : grants) : result grants :=
  if is_nullish (deviceConfigPath o) then Ok (may_read (resolve cwd [cwd; "config"; "devices"]%string) g)
  else let! p := path_arg cwd (deviceConfigPath o) in Ok (may_read p g).

Definition module_policy (g : grants) : result grants :=
  if is_nullish (modulePolicy o) then Ok g else let! p := path_arg cwd (modulePolicy o) in Ok (may_read p g).

Definition sqlite_db (g : grants) : result grants :=
  if strict_eq (authProvider o) (JStr "sqlite")
  then let! db := path_arg cwd (or_default (authConfigPath o) "auth.sqlite3") in
       Ok (with_addons (may_write (dirname db) (may_read (dirname db) g)))
  else Ok g.

Definition granted : result grants :=
  let! modules := path_arg cwd (modulePath o) in
  let! data := path_arg cwd (moduleDataPath o) in
  let g := mkGrants (hoisted [installDir; modules; data]) [modules; data] (is_nullish (localModulePath o)) in
  let! g := auth_file g in
  let! g := device_config g in
  let! g := module_policy g in
  sqlite_db g.

Definition flags_of (g : grants) : list string :=
  ["--permission"; "--allow-worker"]%string ++ (if g_addons g then ["--allow-addons"%string] else []) ++
  (if authoringTools o then ["--allow-child-process"%string] else []) ++
  map (fun p => READ +:+ p) (g_read g) ++ map (fun p => WRITE +:+ p) (g_write g).
Definition permissionFlags : result (list string) := let! g := granted in Ok (flags_of g).

(** [prepareGrants]: the directory made, when it is not there, and made private. *)
Inductive prepare := Mkdir_ (p : string) (mode : Z) | Chmod_ (p : string) (mode : Z).
Definition prepareGrants : result (list prepare) :=
  let! dir := path_arg cwd (moduleDataPath o) in
  Ok (if existsSync dir then [] else [Mkdir_ dir 448; Chmod_ dir 448]).
End grants.

(** *** Checking the grants before the new process needs them *)

(** [/^--allow-fs-(?:read|write)=(.+)$/]: a line, not empty. *)
Definition line_end (c : ascii) : bool := let n := nat_of_ascii c in ((n =? 10) || (n =? 13))%nat.
Definition one_line (s : string) : bool := negb (String.eqb s "") && negb (existsb line_end (list_ascii_of_string s)).
Definition path_of_flag (f : string) : option string :=
  let rest := if starts_with READ f then Some (sdrop (String.length READ) f)
              else if starts_with WRITE f then Some (sdrop (String.length WRITE) f) else None in
  match rest with Some p => if one_line p then Some p else None | None => None end.

Definition grantedPaths (flags : list string) : list string :=
  fold_left (fun out f => match path_of_flag f with Some p => if includes p out then out else out ++ [p] | None => out end) flags [].

(** [b] extends the name of [a], and is no path inside it. *)
Definition extends_name (a b : string) : bool :=
  (String.length a <? String.length b)%nat && starts_with a b && negb (starts_with "/" (sdrop (String.length a) b)).

Definition grantOverlaps (flags : list string) : list (string * string) :=
  let paths := sort_str (grantedPaths flags) in
  concat (map (fun a => concat (map (fun b => if extends_name a b then [(a, b)] else []) paths)) paths).

Record refusal := mkRefusal { rf_op : string; rf_path : string; rf_code : string }.
Record probe := mkProbe { pr_ok : bool; pr_refused : list refusal; pr_error : option string }.

(** What the probing process did: its exit status, the refusals it printed, if
    that can be read, and why it failed. *)
Record probe_run := mkRun { ru_status : option Z; ru_refused : option (list refusal); ru_why : string }.

Section probing.
Context (isDir : string -> bool) (run : list string -> list string -> probe_run).

Definition probed (flags skip : list string) : list string :=
  List.filter isDir (List.filter (fun p => negb (includes p skip)) (grantedPaths flags)).

Definition probeGrants (flags skip : list string) : probe :=
  match probed flags skip with
  | [] => mkProbe true [] None
  | dirs =>
      let r := run flags dirs in
      match ru_status r, ru_refused r with
      | Some 0%Z, Some refused => mkProbe (is_nil refused) refused None
      | _, _ => mkProbe false [] (Some (stake 500 (ru_why r)))
      end
  end.
End probing.

Definition nl : string := String (ascii_of_nat 10) "".
Definition refusalMessage (p : probe) (overlaps : list (string * string)) (version : string) : string :=
  join nl
    ([("--hardened: Node " +:+ version +:+ "'s permission model refuses this server's file grants, so it would fail after relaunching.")] ++
     match pr_error p with
     | Some e => [("  The grant check could not run: " +:+ e)]
     | None => map (fun r => "  refused: " +:+ rf_op r +:+ " " +:+ rf_path r +:+ " (" +:+ rf_code r +:+ ")") (firstn 5 (pr_refused p))
     end ++
     match overlaps with
     | [] => ["  See nodejs/node#66812 (https://github.com/nodejs/node/issues/66812)."%string]
     | _ => "  Granted paths whose name another grant extends (nodejs/node#66812, https://github.com/nodejs/node/issues/66812):"%string ::
            map (fun ab => "    " +:+ fst ab +:+ " and " +:+ snd ab) (firstn 10 overlaps)
     end ++
     [("  What to do: give the granted paths you configured (--moduleDataPath, --modulePath, the auth, device" +:+
       " config and policy paths) names that do not extend another grant's, e.g. $HOME/.countinghouse/module_data;" +:+
       " or run without --hardened.")]).

(** *** Real paths resolved before the new process *)

Section realpaths.
Context (cwd : string).

(** [recorder(realpath)] over a list of calls, those that throw included. *)
Section recorder.
Context (realpath : string -> result string).
Definition record (seen : list (string * string)) (p : string) : list (string * string) :=
  match realpath p with Ok r => assoc_set (resolve cwd [p]) r seen | Throw _ => seen end.
Definition precompute (ps : list string) (seen : list (string * string)) : list (string * string) := fold_left record ps seen.
End recorder.

(** [receive]: only in a process with the marker, which is taken away. *)
Definition ENV : string := "COUNTINGHOUSE_HARDENED_REALPATHS".
Definition FD : string := "3".
Definition childEnv (env : list (string * string)) : list (string * string) := assoc_set ENV FD env.
Definition receive (env : list (string * string)) (sent : list (string * string)) : list (string * string) * option (list (string * string)) :=
  match assoc ENV env with
  | Some v => if String.eqb v FD then (List.filter (fun kv => negb (String.eqb (fst kv) ENV)) env, Some sent) else (env, None)
  | None => (env, None)
  end.

(** [has] and [realpathSync], over what [fs.realpathSync] answers here. *)
Definition has (known : option (list (string * string))) (p : string) : bool :=
  match known with Some k => match assoc (resolve cwd [p]) k with Some _ => true | None => false end | None => false end.
Definition known_realpathSync (known : option (list (string * string))) (fs_realpathSync : string -> result string) (p : string)
    : result string :=
  match known with
  | Some k => match assoc (resolve cwd [p]) k with Some r => Ok r | None => fs_realpathSync p end
  | None => fs_realpathSync p
  end.
End realpaths.

(** ** What is granted *)

Section exact.
Context (o : options) (installDir cwd : string) (codeRoots : list string) (existsSync : string -> bool).

#[local] Notation the_path := (path_arg cwd).

(** The authentication file, and the sqlite database's directory. *)
Definition file_provider (p : string) : Prop :=
  debug o = false /\ authProvider o = JStr "file" /\ the_path (or_default (authConfigPath o) "auth.json") = Ok p.
Definition sqlite_dir (p : string) : Prop :=
  authProvider o = JStr "sqlite" /\ exists db, the_path (or_default (authConfigPath o) "auth.sqlite3") = Ok db /\ p = dirname db.
Definition device_configs (p : string) : Prop :=
  if is_nullish (deviceConfigPath o) then p = resolve cwd [cwd; "config"; "devices"]%string else the_path (deviceConfigPath o) = Ok p.

Definition outside_install (r : string) : Prop := r <> installDir /\ starts_with (installDir +:+ "/") r = false.

Definition may_be_read (p : string) : Prop :=
  p = installDir \/ the_path (modulePath o) = Ok p \/ the_path (moduleDataPath o) = Ok p \/
  (p ∈ codeRoots /\ outside_install p) \/ file_provider p \/ device_configs p \/
  (is_nullish (modulePolicy o) = false /\ the_path (modulePolicy o) = Ok p) \/ sqlite_dir p.
Definition may_be_written (p : string) : Prop :=
  the_path (modulePath o) = Ok p \/ the_path (moduleDataPath o) = Ok p \/ (file_provider p /\ existsSync p = false) \/ sqlite_dir p.

Lemma hoisted_elem read p : p ∈ hoisted installDir codeRoots read <-> p ∈ read \/ (p ∈ codeRoots /\ outside_install p).
Proof using Type.
  clear existsSync. unfold hoisted. revert read. induction codeRoots as [|r roots IH]; intros read; cbn [fold_left]; [set_solver|].
  rewrite IH, elem_of_cons. unfold outside_install, includes.
  destruct (String.eqb r installDir) eqn:En; [apply String.eqb_eq in En; cbn [negb andb]; naive_solver|]. apply String.eqb_neq in En.
  destruct (starts_with (installDir +:+ "/") r) eqn:Es; cbn [negb andb]; [intuition congruence|].
  case_bool_decide as Hin; cbn [negb].
  - set_solver.
  - rewrite elem_of_app, list_elem_of_singleton. naive_solver.
Qed.

Lemma auth_file_elem g g' : auth_file o cwd existsSync g = Ok g' ->
  (forall p, p ∈ g_read g' <-> p ∈ g_read g \/ file_provider p) /\
  (forall p, p ∈ g_write g' <-> p ∈ g_write g \/ (file_provider p /\ existsSync p = false)) /\ g_addons g' = g_addons g.
Proof using Type.
  unfold auth_file, file_provider. destruct (debug o); cbn [negb andb]; [intros [= <-]; naive_solver|].
  destruct (authProvider o) as [| | | | |s| |] eqn:Ea; cbn [strict_eq]; try (intros [= <-]; naive_solver).
  destruct (String.eqb_spec s "file") as [->|Hn]; [|intros [= <-]; naive_solver].
  destruct (the_path (or_default (authConfigPath o) "auth.json")) as [f|] eqn:Ef; [|done]. cbn [rbind]. intros [= <-].
  destruct (existsSync f) eqn:Ex; cbn [may_read may_write g_read g_write g_addons];
    (split; [|split; [|done]]; intros p; rewrite ?elem_of_app, ?list_elem_of_singleton; intuition congruence).
Qed.

Lemma device_config_elem g g' : device_config o cwd g = Ok g' ->
  (forall p, p ∈ g_read g' <-> p ∈ g_read g \/ device_configs p) /\ g_write g' = g_write g /\ g_addons g' = g_addons g.
Proof using Type.
  clear existsSync codeRoots. unfold device_config, device_configs. destruct (is_nullish (deviceConfigPath o)).
  - intros [= <-]. cbn. setoid_rewrite elem_of_app. setoid_rewrite list_elem_of_singleton. naive_solver.
  - destruct (the_path (deviceConfigPath o)) as [f|] eqn:Ef; [|done]. intros [= <-]. cbn.
    setoid_rewrite elem_of_app. setoid_rewrite list_elem_of_singleton. naive_solver.
Qed.

Lemma module_policy_elem g g' : module_policy o cwd g = Ok g' ->
  (forall p, p ∈ g_read g' <-> p ∈ g_read g \/ (is_nullish (modulePolicy o) = false /\ the_path (modulePolicy o) = Ok p)) /\
  g_write g' = g_write g /\ g_addons g' = g_addons g.
Proof using Type.
  clear existsSync codeRoots. unfold module_policy. destruct (is_nullish (modulePolicy o)).
  - intros [= <-]. naive_solver.
  - destruct (the_path (modulePolicy o)) as [f|] eqn:Ef; [|done]. intros [= <-]. cbn.
    setoid_rewrite elem_of_app. setoid_rewrite list_elem_of_singleton. naive_solver.
Qed.

Lemma sqlite_db_elem g g' : sqlite_db o cwd g = Ok g' ->
  (forall p, p ∈ g_read g' <-> p ∈ g_read g \/ sqlite_dir p) /\ (forall p, p ∈ g_write g' <-> p ∈ g_write g \/ sqlite_dir p) /\
  g_addons g' = g_addons g || strict_eq (authProvider o) (JStr "sqlite").
Proof using Type.
  clear existsSync codeRoots. unfold sqlite_db, sqlite_dir. destruct (authProvider o) as [| | | | |s| |]; cbn [strict_eq];
    try (intros [= <-]; rewrite orb_false_r; naive_solver).
  destruct (String.eqb_spec s "sqlite") as [->|Hn]; [|intros [= <-]; rewrite orb_false_r; naive_solver].
  destruct (the_path (or_default (authConfigPath o) "auth.sqlite3")) as [db|] eqn:Ef; [|done]. intros [= <-]. cbn.
  setoid_rewrite elem_of_app. setoid_rewrite list_elem_of_singleton. rewrite orb_true_r. naive_solver.
Qed.

Lemma granted_elem g : granted o installDir cwd codeRoots existsSync = Ok g ->
  (forall p, p ∈ g_read g <-> may_be_read p) /\ (forall p, p ∈ g_write g <-> may_be_written p) /\
  g_addons g = is_nullish (localModulePath o) || strict_eq (authProvider o) (JStr "sqlite").
Proof using Type.
  unfold granted. destruct (the_path (modulePath o)) as [m|] eqn:Em; [|done]. cbn [rbind].
  destruct (the_path (moduleDataPath o)) as [d|] eqn:Ed; [|done]. cbn [rbind].
  destruct (auth_file _ _ _ _) as [g1|] eqn:E1; [|done]. cbn [rbind]. destruct (device_config _ _ _) as [g2|] eqn:E2; [|done]. cbn [rbind].
  destruct (module_policy _ _ _) as [g3|] eqn:E3; [|done]. cbn [rbind]. intros E4.
  apply auth_file_elem in E1 as (R1 & W1 & A1). apply device_config_elem in E2 as (R2 & W2 & A2).
  apply module_policy_elem in E3 as (R3 & W3 & A3). apply sqlite_db_elem in E4 as (R4 & W4 & A4).
  unfold may_be_read, may_be_written. rewrite Em, Ed. cbn in R1, W1, A1.
  assert (Hok : forall (a p : string), Ok a = Ok p <-> p = a) by (intros a p; split; congruence).
  split; [|split].
  - intros p. rewrite R4, R3, R2, R1, hoisted_elem, !Hok, !elem_of_cons. pose proof (not_elem_of_nil p). tauto.
  - intros p. rewrite W4, W3, W2, W1, !Hok, !elem_of_cons. pose proof (not_elem_of_nil p). tauto.
  - by rewrite A4, A3, A2, A1.
Qed.

(** What may be written may be read. *)
Lemma written_read p : may_be_written p -> may_be_read p.
Proof using Type. unfold may_be_written, may_be_read. tauto. Qed.

Lemma flags_elem g f : f ∈ flags_of o g <->
  f = "--permission"%string \/ f = "--allow-worker"%string \/ (g_addons g = true /\ f = "--allow-addons"%string) \/
  (authoringTools o = true /\ f = "--allow-child-process"%string) \/
  (exists p, f = READ +:+ p /\ p ∈ g_read g) \/ (exists p, f = WRITE +:+ p /\ p ∈ g_write g).
Proof using Type.
  clear existsSync installDir codeRoots cwd. unfold flags_of. rewrite !elem_of_app, (list_elem_of_fmap (fun q => READ +:+ q)), (list_elem_of_fmap (fun q => WRITE +:+ q)).
  destruct (g_addons g), (authoringTools o); rewrite !elem_of_cons; pose proof (not_elem_of_nil f); intuition congruence.
Qed.

Lemma prefixed_elem pre p (l : list string) : (exists q, pre +:+ p = pre +:+ q /\ q ∈ l) <-> p ∈ l.
Proof using Type. split; [|by exists p]. by intros (q & Hq%sapp_inj_l & Hin); subst. Qed.

(** The flags of --hardened grant exactly what the options name. A path may be
    written only if it is the module path or the module data path, the key file
    the file provider is to make on its first run, or the directory of the
    sqlite keys; a path may be read only if it may be written, or is the install
    directory, a code root hoisted outside it, the key file, the device
    configurations or the policy. Child processes are allowed only for the
    authoring tools, and native code only for a database; and there is no other
    flag but that of the model itself and of the workers. *)
Theorem flags_grant_exactly flags :
  permissionFlags o installDir cwd codeRoots existsSync = Ok flags ->
  (forall p, READ +:+ p ∈ flags <-> may_be_read p) /\ (forall p, WRITE +:+ p ∈ flags <-> may_be_written p) /\
  ("--allow-child-process"%string ∈ flags <-> authoringTools o = true) /\
  ("--allow-addons"%string ∈ flags <-> is_nullish (localModulePath o) = true \/ authProvider o = JStr "sqlite") /\
  (forall p, may_be_written p -> may_be_read p) /\
  (forall f, f ∈ flags -> f ∈ ["--permission"; "--allow-worker"; "--allow-addons"; "--allow-child-process"]%string \/
                          (exists p, f = READ +:+ p) \/ (exists p, f = WRITE +:+ p)).
Proof using Type.
  unfold permissionFlags. destruct (granted _ _ _ _ _) as [g|] eqn:Eg; [|done]. intros [= <-].
  apply granted_elem in Eg as (R & W & A).
  assert (Hsq : strict_eq (authProvider o) (JStr "sqlite") = true <-> authProvider o = JStr "sqlite").
  { destruct (authProvider o); cbn; try done. rewrite String.eqb_eq. split; congruence. }
  split_and!.
  - intros p. rewrite <- R, flags_elem, prefixed_elem. naive_solver.
  - intros p. rewrite <- W, flags_elem, prefixed_elem. naive_solver.
  - rewrite flags_elem. naive_solver.
  - rewrite <- Hsq, <- orb_true_iff, <- A, flags_elem. naive_solver.
  - apply written_read.
  - intros f. rewrite flags_elem, !elem_of_cons. naive_solver.
Qed.
End exact.

(** The overlaps shown are the pairs of grants where one extends the other's
    name, and no others. *)
Theorem overlaps_exact flags a b :
  (a, b) ∈ grantOverlaps flags <-> a ∈ grantedPaths flags /\ b ∈ grantedPaths flags /\ extends_name a b = true.
Proof.
  unfold grantOverlaps. set (l := sort_str (grantedPaths flags)).
  assert (Hl : forall x, x ∈ grantedPaths flags <-> x ∈ l) by (intros x; unfold l; by rewrite sort_str_perm).
  rewrite !Hl, list_elem_of_In, in_concat. clearbody l. split.
  - intros (ps & Hin & Hab). apply in_map_iff in Hin as (x & <- & Hx). apply in_concat in Hab as (qs & Hq & Hab).
    apply in_map_iff in Hq as (y & <- & Hy). destruct (extends_name x y) eqn:E; [|done].
    destruct Hab as [[= <- <-]|[]]. by rewrite !list_elem_of_In.
  - intros (Ha & Hb & E). rewrite list_elem_of_In in Ha, Hb.
    exists (concat (map (fun b => if extends_name a b then [(a, b)] else []) l)). split; [apply in_map_iff; by exists a|].
    apply in_concat. exists [(a, b)]. split; [|by left]. apply in_map_iff. exists b. by rewrite E.
Qed.

(** An operator's command line: sqlite keys in a directory of their own, no
    module named. *)
Definition demo_options : options :=
  setOptions (JStr "/home/op") (fun _ => NaN) (fun _ => NaN) (fun _ => NaN)
    (JObj [("modulePath", JStr "/srv/modules"); ("moduleDataPath", JStr "/srv/data"); ("authProvider", JStr "sqlite");
           ("authConfigPath", JStr "keys/auth.db")]) JUndef.
Definition demo_flags : list string :=
  ["--permission"; "--allow-worker"; "--allow-addons"; "--allow-fs-read=/opt/ch"; "--allow-fs-read=/srv/modules";
   "--allow-fs-read=/srv/data"; "--allow-fs-read=/opt/redis"; "--allow-fs-read=/srv/config/devices"; "--allow-fs-read=/srv/keys";
   "--allow-fs-write=/srv/modules"; "--allow-fs-write=/srv/data"; "--allow-fs-write=/srv/keys"]%string.

Lemma flags_grant_exactly_witness :
  let f := permissionFlags demo_options "/opt/ch" "/srv" ["/opt/ch/lib"; "/opt/redis"]%string (fun _ => false) in
  f = Ok demo_flags /\ ~ may_be_written demo_options "/srv" (fun _ => false) "/opt/redis" /\
  (READ +:+ "/opt/redis" ∈ demo_flags <-> may_be_read demo_options "/opt/ch" "/srv" ["/opt/ch/lib"; "/opt/redis"]%string "/opt/redis").
Proof.
  assert (Hf : permissionFlags demo_options "/opt/ch" "/srv" ["/opt/ch/lib"; "/opt/redis"]%string (fun _ => false) = Ok demo_flags)
    by reflexivity.
  destruct (flags_grant_exactly demo_options "/opt/ch" "/srv" ["/opt/ch/lib"; "/opt/redis"]%string (fun _ => false) demo_flags Hf)
    as (R & W & _).
  split; [exact Hf|]. split; [|exact (R "/opt/redis"%string)].
  intros Hw%W. revert Hw. apply (bool_decide_unpack (~ _)). exact I.
Defined.
