(* ===== verification/Startup.v ===== *)
(** * Starting the server (framework.js)

    The command line is checked, the server may start itself again under Node's
    permission model, and what it serves with is set up, in this order. *)
From Stdlib Require Import ZArith Lia Ascii String.
From stdpp Require Import prelude strings.
From S2P Require Import Prelude Paths Json Permissions ModuleLoader Options Hardened.

Set Default Proof Using "Type".

(** What the server does as it starts, as far as others see it. *)
Inductive action :=
| Prepared_ (ps : list prepare)                       (* the data directory made for the grants *)
| Received                                            (* the parent's real paths taken *)
| FacadeInstalled                                     (* single-thread mode: fs and os as modules see them *)
| AuthReady
| ModuleFolder (path : jsval)
| RegistryOpened (path : jsval)
| ValidationsSwept
| RoutesMade
| JobsStarted
| ModulesLoading.

Inductive outcome :=
| Exit (code : Z) (message : string)
| Crash (e : jserr)                                   (* thrown at the top: logged, and nothing more runs *)
| Relaunched (flags : list string) (known : list (string * string))
| Serving.

(** What the host answers. *)
Record host := mkHost {
  h_version : string;                                 (* process.version *)
  h_argv : list string;                               (* process.argv *)
  h_need_flag : bool;                                 (* COUNTINGHOUSE_TEST_REQUIRE_THREAD_FLAG *)
  h_permission : bool;                                (* process.permission *)
  h_exists : string -> bool;
  h_prepare : list prepare -> option jserr;           (* mkdirSync and chmodSync *)
  h_realpath : string -> result string;
  h_code_roots : list string -> list string * list (string * string);   (* the roots found, and the real paths resolved on the way *)
  h_is_dir : string -> bool;
  h_probe : list string -> list string -> probe_run;
  h_policy : jsval -> result policy;                  (* module-policy.load *)
  h_auth : option jserr;                              (* the provider's constructor *)
  h_module_folder : option jserr                      (* mkdirSync and accessSync *)
}.

Definition start : Type := list action * outcome.
Definition doing (a : action) (k : start) : start := (a :: fst k, snd k).
Definition stop (code : Z) (message : string) : start := ([], Exit code message).

Section startup.
(** [process.cwd()], [__dirname], and the host. *)
Context (cwd dirname_ : string) (h : host).

Definition MODES : list string := ["off"; "audit"; "enforce"].

(** [moduleRootsOf] and [protectedPaths] of the file brokers. *)
Definition texts (v : jsval) : list string :=
  match v with JStr s => [s] | JArr xs => omap (fun x => match x with JStr s => Some s | _ => None end) xs | _ => [] end.
Definition module_root_paths (o : options) : list string := map (fun p => resolve cwd [cwd; p]) (texts (modulePath o) ++ texts (localModulePath o)).
Definition protected_paths (o : options) : list jsval :=
  List.filter (fun v => negb (is_nullish v))
    [JStr dirname_; modulePath o; moduleDataPath o; js_or (authConfigPath o) (JStr (path_join [cwd; "auth.json"%string]));
     js_or (deviceConfigPath o) (JStr (path_join [cwd; "config"; "devices"]%string)); modulePolicy o].

(** What the parent resolves before it starts the child: what the walk of its
    own code resolved, and every path the child would resolve itself. *)
Definition known_paths (o : options) (seen : list (string * string)) (protected : list string) : list (string * string) :=
  precompute cwd (h_realpath h) ([dirname_; dirname_] ++ module_root_paths o ++ protected) seen.

Fixpoint all_paths (vs : list jsval) : result (list string) :=
  match vs with
  | [] => Ok []
  | v :: vs => let! p := path_arg cwd v in let! ps := all_paths vs in Ok (p :: ps)
  end.

(** --hardened, in the first process. *)
Definition relaunch (o : options) : start :=
  if negb (workerThread o) then stop 2 "--hardened needs --workerThread: module workers are what it protects the process from"
  else
    let cannot (e : jserr) := stop 2 ("--hardened: cannot create the module data directory " +:+ js_text (moduleDataPath o) +:+ ": " +:+ e_message e +:+
                                      " -- set --moduleDataPath to a writable directory") in
    match prepareGrants o cwd (h_exists h) with
    | Throw e => cannot e
    | Ok ps =>
        match h_prepare h ps with
        | Some e => cannot e
        | None =>
            let '(roots, seen) := h_code_roots h (module_root_paths o) in
            doing (Prepared_ ps)
              (match (let! flags := permissionFlags o dirname_ cwd roots (h_exists h) in
                      let! protected := all_paths (protected_paths o) in Ok (flags, protected)) with
               | Throw e => ([], Crash e)
               | Ok (flags, protected) =>
                   let known := known_paths o seen protected in
                   let p := probeGrants (h_is_dir h) (h_probe h) flags (map fst known ++ map snd known) in
                   if pr_ok p then ([], Relaunched flags known)
                   else stop 2 (refusalMessage p (grantOverlaps flags) (h_version h))
               end)
        end
    end.

(** What follows in the process that serves. *)
Definition folders (o : options) : start :=
  match h_module_folder h with
  | Some e => stop (-1) ("cannot access module folder: " +:+ e_message e)
  | None =>
      doing (ModuleFolder (modulePath o))
        (let registry k := if is_nullish (localModulePath o) then doing (RegistryOpened (modulePath o)) k else k in
         let swept k := if workerThread o then doing ValidationsSwept k else k in
         let jobs k := if workerThread o then doing JobsStarted k else k in
         registry (swept (doing RoutesMade (jobs (doing ModulesLoading ([], Serving))))))
  end.

Definition providers (o : options) : start :=
  if debug o then folders o
  else match h_auth h with
       | Some e => stop (-1) ("AuthProvider (--authProvider " +:+ js_text (authProvider o) +:+ ") failed to initialize: " +:+ e_message e)
       | None => doing AuthReady (folders o)
       end.

Definition policies (o : options) : start :=
  if is_nullish (modulePolicy o) then providers o
  else match h_policy h (modulePolicy o) with Throw e => stop 2 (e_message e) | Ok _ => providers o end.

Definition sandbox_mode (o : options) : start :=
  if negb (includes (moduleSandbox o) MODES)
  then stop 2 ("--moduleSandbox must be one of off, audit, enforce (got " +:+ in_quotes (moduleSandbox o) +:+ ")")
  else if negb (String.eqb (moduleSandbox o) "off") && negb (workerThread o)
  then stop 2 ("--moduleSandbox " +:+ moduleSandbox o +:+ " needs --workerThread: the sandbox applies to module workers")
  else if negb (workerThread o) then doing FacadeInstalled (policies o)
  else match h_realpath h dirname_ with
       | Throw e => ([], Crash e)
       | Ok real => match codeUnderVroot real [] with
                    | [] => policies o
                    | clash :: _ => stop 2 (underVrootMessage clash)
                    end
       end.

(** *** framework.js, from the top *)
Definition framework (o : options) : start :=
  if negb (supported (h_version h)) then stop 2 (version_message (h_version h))
  else if h_need_flag h && negb (existsb (fun a => includes a ["--no-workerThread"; "--workerThread"]%string || starts_with "--workerThread=" a) (h_argv h))
  then stop 3 "no thread flag given (pass --workerThread or --no-workerThread)"
  else if debugKeyMissing o then stop 2 "--debugKey needs a value (--debugKey <key>)"
  else if debug o && negb (bool_decide (is_Some (debugKey o))) && negb (isLoopback (hostIp o))
  then stop 2 ("--debug without --debugKey accepts every request as an admin, so it binds only to loopback; " +:+
    "this server would bind " +:+ js_text (hostIp o) +:+ ". Give --debugKey <key>, or drop --bindAddr (it defaults to 127.0.0.1).")
  else if hardened o && negb (h_permission h) then relaunch o
  else if h_permission h then doing Received (sandbox_mode o) else sandbox_mode o.
End startup.

(** ** What holds of a server that serves *)

Section gates.
Context (cwd dirname_ : string) (h : host) (o : options).

(** The first [b] comes after an [a]. *)
Definition made_before (a b : action) (acts : list action) : Prop :=
  exists l1 l2, acts = l1 ++ a :: l2 /\ b ∉ l1 /\ b ∈ l2.

Lemma made_before_cons a b x acts : x <> b -> made_before a b acts -> made_before a b (x :: acts).
Proof using Type.
  intros Hx (l1 & l2 & -> & H1 & H2). exists (x :: l1), l2. split; [done|]. split; [|done].
  by intros [?|?]%elem_of_cons.
Qed.

Lemma made_first a b acts : b ∈ acts -> made_before a b (a :: acts).
Proof using Type. intros H. exists [], acts. split; [done|]. split; [apply not_elem_of_nil|done]. Qed.

(** What was checked before anything was served. *)
Record served (acts : list action) : Prop := {
  sv_version : supported (h_version h) = true;
  sv_key : debugKeyMissing o = false;
  sv_debug : debug o = true -> is_Some (debugKey o) \/ isLoopback (hostIp o) = true;
  sv_hardened : hardened o = true -> h_permission h = true;
  sv_mode : moduleSandbox o ∈ MODES;
  sv_threads : moduleSandbox o <> "off"%string -> workerThread o = true;
  sv_facade : workerThread o = false -> made_before FacadeInstalled RoutesMade acts;
  sv_vroot : workerThread o = true -> exists real, h_realpath h dirname_ = Ok real /\ under real VROOT = false;
  sv_policy : is_nullish (modulePolicy o) = true \/ is_ok (h_policy h (modulePolicy o)) = true;
  sv_auth : debug o = false -> h_auth h = None /\ made_before AuthReady RoutesMade acts;
  sv_folder : h_module_folder h = None /\ made_before (ModuleFolder (modulePath o)) RoutesMade acts;
  sv_routes : made_before RoutesMade ModulesLoading acts;
  sv_registry : RegistryOpened (modulePath o) ∈ acts <-> is_nullish (localModulePath o) = true;
  sv_last : exists before, acts = before ++ [ModulesLoading]
}.

Lemma doing_out a k : snd (doing a k) = snd k.
Proof using Type. done. Qed.

(** Each part of the start, when it ends in serving. *)
Lemma folders_serve : snd (folders h o) = Serving ->
  (h_module_folder h = None /\ made_before (ModuleFolder (modulePath o)) RoutesMade (fst (folders h o))) /\
  made_before RoutesMade ModulesLoading (fst (folders h o)) /\
  (RegistryOpened (modulePath o) ∈ fst (folders h o) <-> is_nullish (localModulePath o) = true) /\
  exists before, fst (folders h o) = before ++ [ModulesLoading].
Proof using Type.
  unfold folders. destruct (h_module_folder h); [done|]. intros _.
  destruct (is_nullish (localModulePath o)), (workerThread o); cbn;
    (split; [split; [done|]; apply made_first; set_solver|]);
    (split; [repeat first [apply made_first; set_solver|apply made_before_cons; [done|]]|]); (split; [set_solver|]).
  - by eexists [_; _; _; _; _].
  - by eexists [_; _; _].
  - by eexists [_; _; _; _].
  - by eexists [_; _].
Qed.

Definition ends_loading (acts : list action) : Prop := exists before, acts = before ++ [ModulesLoading].
Lemma ends_loading_cons a acts : ends_loading acts -> ends_loading (a :: acts).
Proof using Type. intros [before ->]. by exists (a :: before). Qed.

(** The gates from the providers on. *)
Definition with_providers (acts : list action) : Prop :=
  (debug o = false -> h_auth h = None /\ made_before AuthReady RoutesMade acts) /\
  (h_module_folder h = None /\ made_before (ModuleFolder (modulePath o)) RoutesMade acts) /\
  made_before RoutesMade ModulesLoading acts /\
  (RegistryOpened (modulePath o) ∈ acts <-> is_nullish (localModulePath o) = true) /\ ends_loading acts.

Lemma with_providers_cons a acts :
  a <> RegistryOpened (modulePath o) -> a <> RoutesMade -> a <> ModulesLoading ->
  with_providers acts -> with_providers (a :: acts).
Proof using Type.
  intros Ha Hr Hl (H1 & [H2 H2'] & H3 & H4 & H5). split_and!; try done; try by apply made_before_cons.
  - intros Hd. destruct (H1 Hd). split; [done|by apply made_before_cons].
  - rewrite elem_of_cons, <- H4. naive_solver.
  - by apply ends_loading_cons.
Qed.

Lemma routes_made acts : with_providers acts -> RoutesMade ∈ acts.
Proof using Type. intros (_ & [_ (l1 & l2 & -> & _ & H)] & _). set_solver. Qed.

Lemma providers_serve : snd (providers h o) = Serving -> with_providers (fst (providers h o)).
Proof using Type.
  unfold providers. destruct (debug o) eqn:Ed.
  - intros H. split; [congruence|by apply folders_serve].
  - destruct (h_auth h) eqn:Ea; [done|]. rewrite doing_out. intros H. destruct (folders_serve H) as ([H1 H1'] & H2 & H3 & H4).
    cbn [doing fst]. split_and!; try done; try by apply made_before_cons.
    + intros _. split; [done|]. apply made_first. destruct H1' as (l1 & l2 & -> & _ & ?). set_solver.
    + rewrite elem_of_cons, H3. naive_solver.
    + by apply ends_loading_cons.
Qed.

Definition with_policies (acts : list action) : Prop :=
  (is_nullish (modulePolicy o) = true \/ is_ok (h_policy h (modulePolicy o)) = true) /\ with_providers acts.

Lemma policies_serve : snd (policies h o) = Serving -> with_policies (fst (policies h o)).
Proof using Type.
  unfold policies. destruct (is_nullish (modulePolicy o)) eqn:En.
  - intros H. split; [by left|by apply providers_serve].
  - destruct (h_policy h (modulePolicy o)) eqn:Ep; [|done]. intros H. split; [right; by rewrite Ep|by apply providers_serve].
Qed.

Definition with_mode (acts : list action) : Prop :=
  moduleSandbox o ∈ MODES /\ (moduleSandbox o <> "off"%string -> workerThread o = true) /\
  (workerThread o = false -> made_before FacadeInstalled RoutesMade acts) /\
  (workerThread o = true -> exists real, h_realpath h dirname_ = Ok real /\ under real VROOT = false) /\ with_policies acts.

Lemma mode_serves : snd (sandbox_mode dirname_ h o) = Serving -> with_mode (fst (sandbox_mode dirname_ h o)).
Proof using Type.
  unfold sandbox_mode, with_mode. destruct (includes (moduleSandbox o) MODES) eqn:Em; [|done]. cbn [negb].
  apply bool_decide_eq_true in Em. destruct (String.eqb_spec (moduleSandbox o) "off") as [Eo|Eo], (workerThread o) eqn:Ew; cbn [negb andb].
  all: try done.
  2: { rewrite doing_out. intros H. apply policies_serve in H as [H1 H2]. split; [done|]. split; [done|].
       split; [intros _; by apply made_first, routes_made|]. split; [done|].
       split; [done|]. by apply with_providers_cons. }
  all: destruct (h_realpath h dirname_) as [real|] eqn:Er; [|done]; unfold codeUnderVroot; cbn [List.filter];
    destruct (under real VROOT) eqn:Eu; [done|]; intros H; apply policies_serve in H;
    split; [done|]; split; [done|]; split; [done|]; split; [by exists real|done].
Qed.

(** A start that ends otherwise loads no module. *)
Definition quiet (k : start) : Prop := snd k = Serving \/ ModulesLoading ∉ fst k.

Lemma quiet_stop code m : quiet (stop code m).
Proof using Type. right. by apply not_elem_of_nil. Qed.
Lemma quiet_crash e : quiet ([], Crash e).
Proof using Type. right. by apply not_elem_of_nil. Qed.
Lemma quiet_doing a k : a <> ModulesLoading -> quiet k -> quiet (doing a k).
Proof using Type. intros Ha [H|H]; [by left|right; cbn; by apply not_elem_of_cons]. Qed.

#[local] Hint Resolve quiet_stop quiet_crash quiet_doing : core.

Lemma policies_quiet : quiet (policies h o).
Proof using Type.
  assert (Hf : quiet (folders h o)).
  { unfold folders. destruct (h_module_folder h); [done|]. left. by destruct (is_nullish (localModulePath o)), (workerThread o). }
  assert (Hp : quiet (providers h o)).
  { unfold providers. destruct (debug o); [done|]. destruct (h_auth h); auto. }
  unfold policies. destruct (is_nullish _); [done|]. destruct (h_policy h _); auto.
Qed.

Lemma mode_quiet : quiet (sandbox_mode dirname_ h o).
Proof using Type.
  pose proof policies_quiet. unfold sandbox_mode. repeat case_match; auto.
Qed.

Lemma relaunch_quiet : snd (relaunch cwd dirname_ h o) <> Serving /\ quiet (relaunch cwd dirname_ h o).
Proof using Type.
  unfold relaunch. repeat case_match; split; try done; auto.
  all: try (by apply quiet_doing; [|auto]).
  apply quiet_doing; [done|]. right. by apply not_elem_of_nil.
Qed.

(** C11: The server serves only after its gates: a supported Node; no valueless
    debug key; under --debug a key, or an address that is taken for loopback,
    as every caller is an admin then; under --hardened, Node's permission model
    on; a sandbox mode that is one of the three, and on only with worker
    threads; in single-thread mode the facade, in place before the routes are
    made; with workers, code that is not under the path modules see as their
    own; a policy that loads; without --debug an authentication provider that
    its constructor made, before the routes are; a writable module folder,
    found before them too; the registry exactly when no module was named; the
    routes before a module is loaded, and modules are loaded last of all.
    Whatever stops the start stops it before a module is loaded. *)
Theorem startup_gated :
  let '(acts, out) := framework cwd dirname_ h o in
  match out with Serving => served acts | _ => ModulesLoading ∉ acts end.
Proof using Type.
  assert (Hq : quiet (framework cwd dirname_ h o) /\
               (snd (framework cwd dirname_ h o) = Serving -> served (fst (framework cwd dirname_ h o)))).
  { pose proof mode_quiet as Hmq. pose proof mode_serves as Hms. pose proof relaunch_quiet as [Hrs Hrq]. unfold framework.
    assert (Hstop : forall code m, quiet (stop code m) /\ (snd (stop code m) = Serving -> served (fst (stop code m)))) by (split; [auto|done]).
    destruct (supported (h_version h)) eqn:Ev; [|apply Hstop]. cbn [negb].
    destruct (h_need_flag h && _); [apply Hstop|]. destruct (debugKeyMissing o) eqn:Ek; [apply Hstop|].
    destruct (debug o && negb _ && _) eqn:Ed; [apply Hstop|].
    destruct (hardened o && _) eqn:Eh; [by split|].
    assert (Hd : debug o = true -> is_Some (debugKey o) \/ isLoopback (hostIp o) = true).
    { intros Hdb. rewrite Hdb in Ed. destruct (isLoopback (hostIp o)); [by right|left]. case_bool_decide; [done|by cbn in Ed]. }
    assert (Hh : hardened o = true -> h_permission h = true).
    { intros Hh. rewrite Hh in Eh. by destruct (h_permission h). }
    assert (Hserved : forall acts, with_mode acts -> served acts).
    { intros acts (H1 & H2 & H3 & H4 & H5 & H6 & H7 & H8 & H9 & H10). by split. }
    destruct (h_permission h) eqn:Ep; (split; [auto|]).
    - rewrite doing_out. intros H. apply Hserved. destruct (Hms H) as (H1 & H2 & H3 & H4 & H5 & H6).
      split; [done|]. split; [done|]. split; [intros Hw; apply made_before_cons; auto|]. split; [done|]. split; [done|]. by apply with_providers_cons.
    - auto. }
  destruct (framework cwd dirname_ h o) as [acts out]. destruct Hq as [[Hq|Hq] Hs]; cbn in *; [rewrite Hq in *; auto|].
  destruct out; auto.
Qed.

(** *** The server started again under --permission *)

Definition relaunches (out : outcome) : bool := match out with Relaunched _ _ => true | _ => false end.

Lemma mode_no_relaunch : relaunches (snd (sandbox_mode dirname_ h o)) = false.
Proof using Type.
  assert (Hf : relaunches (snd (folders h o)) = false).
  { unfold folders. destruct (h_module_folder h); [done|]. by destruct (is_nullish (localModulePath o)), (workerThread o). }
  assert (Hp : relaunches (snd (policies h o)) = false).
  { unfold policies, providers. by repeat case_match. }
  unfold sandbox_mode. by repeat case_match.
Qed.

(** What the parent's start says, when it starts a child. *)
Lemma framework_relaunches acts flags known :
  framework cwd dirname_ h o = (acts, Relaunched flags known) ->
  hardened o = true /\ h_permission h = false /\ relaunch cwd dirname_ h o = (acts, Relaunched flags known).
Proof using Type.
  intros H. pose proof mode_no_relaunch as Hm. unfold framework in H. repeat (case_match; try done); bool_hyps; try done.
  - injection H as _ H. by rewrite H in Hm.
  - by rewrite H in Hm.
Qed.

Lemma permission_no_relaunch : h_permission h = true -> relaunches (snd (framework cwd dirname_ h o)) = false.
Proof using Type.
  intros Hp. destruct (framework cwd dirname_ h o) as [acts out] eqn:E. destruct out; try done.
  apply framework_relaunches in E as (_ & Hn & _). congruence.
Qed.

Definition prepared_for (acts : list action) (flags : list string) (known : list (string * string)) : Prop :=
  exists ps protected seen roots,
    prepareGrants o cwd (h_exists h) = Ok ps /\ h_prepare h ps = None /\ acts = [Prepared_ ps] /\
    h_code_roots h (module_root_paths cwd o) = (roots, seen) /\
    permissionFlags o dirname_ cwd roots (h_exists h) = Ok flags /\
    all_paths cwd (protected_paths cwd dirname_ o) = Ok protected /\ known = known_paths cwd dirname_ h o seen protected.

Lemma relaunch_prepared acts flags known :
  relaunch cwd dirname_ h o = (acts, Relaunched flags known) ->
  workerThread o = true /\ prepared_for acts flags known /\
  pr_ok (probeGrants (h_is_dir h) (h_probe h) flags (map fst known ++ map snd known)) = true.
Proof using Type.
  unfold relaunch. destruct (workerThread o); [|done]. cbn [negb].
  destruct (prepareGrants o cwd (h_exists h)) as [ps|] eqn:Ep; [|done]. destruct (h_prepare h ps) eqn:Eh; [done|].
  destruct (h_code_roots h (module_root_paths cwd o)) as [roots seen] eqn:Ec.
  destruct (permissionFlags o dirname_ cwd roots (h_exists h)) as [fl|] eqn:Ef; [|done].
  destruct (all_paths cwd (protected_paths cwd dirname_ o)) as [prot|] eqn:Ea; [|done]. cbn [rbind].
  destruct (pr_ok _) eqn:Ek; [|done]. intros [= <- <- <-]. split; [done|]. split; [|done]. by exists ps, prot, seen, roots.
Qed.

(** The real paths sent are the host's. *)
Definition answers_true (known : list (string * string)) : Prop :=
  forall k r, assoc k known = Some r -> h_realpath h k = Ok r.

Section answers.
Hypothesis resolved_first : forall p, h_realpath h (resolve cwd [p]) = h_realpath h p.

Lemma record_true seen p : answers_true seen -> answers_true (record cwd (h_realpath h) seen p).
Proof using resolved_first.
  intros Hs k r. unfold record. destruct (h_realpath h p) as [q|] eqn:E; [|apply Hs]. rewrite assoc_set_lookup.
  destruct (String.eqb_spec k (resolve cwd [p])) as [->|]; [|apply Hs]. intros [= <-]. by rewrite resolved_first.
Qed.

Lemma precompute_true ps seen : answers_true seen -> answers_true (precompute cwd (h_realpath h) ps seen).
Proof using resolved_first. revert seen. induction ps as [|p ps IH]; intros seen Hs; [done|]. apply IH. by apply record_true. Qed.

Lemma record_kept seen p k : is_Some (assoc k seen) -> is_Some (assoc k (record cwd (h_realpath h) seen p)).
Proof using Type. unfold record. destruct (h_realpath h p); [|done]. rewrite assoc_set_lookup. by destruct (String.eqb _ _). Qed.

Lemma precompute_kept ps seen k : is_Some (assoc k seen) -> is_Some (assoc k (precompute cwd (h_realpath h) ps seen)).
Proof using Type. revert seen. induction ps as [|p ps IH]; intros seen Hs; [done|]. apply IH. by apply record_kept. Qed.

Lemma precompute_has ps seen p r : p ∈ ps -> h_realpath h p = Ok r -> is_Some (assoc (resolve cwd [p]) (precompute cwd (h_realpath h) ps seen)).
Proof using Type.
  revert seen. induction ps as [|q ps IH]; intros seen Hin Hr; [by apply not_elem_of_nil in Hin|].
  change (precompute cwd (h_realpath h) (q :: ps) seen) with (precompute cwd (h_realpath h) ps (record cwd (h_realpath h) seen q)).
  apply elem_of_cons in Hin as [->|Hin]; [|by apply IH]. apply precompute_kept. unfold record. rewrite Hr, assoc_set_lookup.
  by rewrite String.eqb_refl.
Qed.
End answers.

(** Every granted directory was resolved for the child, or is what another was
    resolved to, or could be resolved by a process with exactly these grants. *)
Definition child_can_resolve (flags : list string) (known : list (string * string)) : Prop :=
  forall p, p ∈ grantedPaths flags -> h_is_dir h p = true ->
  p ∈ map fst known \/ p ∈ map snd known \/
  exists dirs, p ∈ dirs /\ ru_status (h_probe h flags dirs) = Some 0%Z /\ ru_refused (h_probe h flags dirs) = Some [].

Lemma probe_covers flags known :
  pr_ok (probeGrants (h_is_dir h) (h_probe h) flags (map fst known ++ map snd known)) = true -> child_can_resolve flags known.
Proof using Type.
  unfold probeGrants. intros Hok p Hp Hd. destruct (decide (p ∈ map fst known ++ map snd known)) as [Hk|Hk].
  { apply elem_of_app in Hk as [Hk|Hk]; auto. }
  assert (Hin : p ∈ probed (h_is_dir h) flags (map fst known ++ map snd known)).
  { unfold probed. apply list_elem_of_In, List.filter_In. split; [|done]. apply List.filter_In. split; [by apply list_elem_of_In|].
    unfold includes. by rewrite bool_decide_eq_false_2. }
  right. right. exists (probed (h_is_dir h) flags (map fst known ++ map snd known)). split; [done|].
  destruct (probed _ _ _) as [|d ds]; [by apply not_elem_of_nil in Hin|]. cbn zeta in Hok.
  destruct (ru_status _) as [[]|]; try done. destruct (ru_refused _) as [[|]|]; done.
Qed.
End gates.

(** ** The child of --hardened *)

Section child.
Context (cwd dirname_ : string) (h : host) (o : options).
(** A relative path is resolved from the current directory; what the walk of
    the code roots resolved is recorded under a resolved path. *)
Hypothesis resolved_first : forall p, h_realpath h (resolve cwd [p]) = h_realpath h p.
Hypothesis walk_recorded : forall exclude k r, assoc k (snd (h_code_roots h exclude)) = Some r -> h_realpath h k = Ok r.

(** C12: The server starts itself again only under --hardened with worker threads,
    from a process without the permission model, and only once: whatever the
    child's host answers, a process with the model does not start another. By
    then the data directory is there. Every real path the child is sent is what
    the host answers, for any spelling of the path; the install directory, the
    module roots and the protected paths are among them wherever they exist;
    and each directory the flags grant was resolved for the child, or was
    resolved by a process with exactly these flags, so the child's own start is
    not refused. *)
Theorem hardened_child_ready acts flags known :
  framework cwd dirname_ h o = (acts, Relaunched flags known) ->
  (hardened o = true /\ workerThread o = true /\ h_permission h = false /\
   exists ps, prepareGrants o cwd (h_exists h) = Ok ps /\ h_prepare h ps = None /\ acts = [Prepared_ ps]) /\
  (forall fs_realpath p r, assoc (resolve cwd [p]) known = Some r ->
     known_realpathSync cwd (Some known) fs_realpath p = Ok r /\ h_realpath h p = Ok r) /\
  (forall protected p r, all_paths cwd (protected_paths cwd dirname_ o) = Ok protected ->
     p ∈ dirname_ :: module_root_paths cwd o ++ protected -> h_realpath h p = Ok r -> assoc (resolve cwd [p]) known = Some r) /\
  child_can_resolve h flags known /\
  (forall h' o', h_permission h' = true -> relaunches (snd (framework cwd dirname_ h' o')) = false).
Proof using resolved_first walk_recorded.
  intros H. apply framework_relaunches in H as (Hh & Hp & H). apply relaunch_prepared in H as (Hw & Hpre & Hok).
  destruct Hpre as (ps & prot & seen & roots & Hps & Hprep & Hacts & Hroots & Hflags & Hprot & Hknown).
  assert (Htrue : answers_true h known).
  { rewrite Hknown. apply precompute_true; [done|]. intros k r. pose proof (walk_recorded (module_root_paths cwd o) k r) as Hr.
    by rewrite Hroots in Hr. }
  split; [split_and!; [done..|by exists ps]|]. split.
  { intros fsr p r Hr. split; [unfold known_realpathSync; by rewrite Hr|]. rewrite <- resolved_first. by apply Htrue. }
  split; [|split; [by apply probe_covers|intros h' o'; apply permission_no_relaunch]].
  intros protected p r Hall Hin Hr. rewrite Hprot in Hall. injection Hall as <-.
  destruct (precompute_has cwd h ([dirname_; dirname_] ++ module_root_paths cwd o ++ prot) seen p r) as [q Hq]; [set_solver|done|].
  change (assoc (resolve cwd [p]) (known_paths cwd dirname_ h o seen prot) = Some q) in Hq. rewrite <- Hknown in Hq.
  rewrite Hq. apply Htrue in Hq. rewrite resolved_first in Hq. congruence.
Qed.
End child.

(** A host where every path is a directory of its own name, and none is
    refused. *)
Definition demo_host (permission : bool) (cwd : string) : host :=
  mkHost "v24.15.0" [] false permission (fun p => negb (String.eqb p "/srv/data")) (fun _ => None) (fun p => Ok (resolve cwd [p]))
    (fun _ => (["/opt/ch/lib"; "/opt/redis"]%string, [("/opt/redis", "/opt/redis")]%string)) (fun _ => true)
    (fun _ _ => mkRun (Some 0%Z) (Some []) "") (fun _ => Ok EMPTY) None None.
Definition demo_start : options :=
  setOptions (JStr "/home/op") (fun _ => NaN) (fun _ => NaN) (fun _ => NaN)
    (JObj [("hardened", JBool true); ("modulePath", JStr "/srv/modules"); ("moduleDataPath", JStr "/srv/data")]) JUndef.

Lemma hardened_child_ready_witness :
  let h := demo_host false "/srv" in
  let known := [("/opt/redis", "/opt/redis"); ("/opt/ch", "/opt/ch"); ("/srv/modules", "/srv/modules"); ("/srv/data", "/srv/data");
                ("/srv/auth.json", "/srv/auth.json"); ("/srv/config/devices", "/srv/config/devices")]%string in
  exists flags, framework "/srv" "/opt/ch" h demo_start = ([Prepared_ [Mkdir_ "/srv/data" 448; Chmod_ "/srv/data" 448]], Relaunched flags known) /\
  child_can_resolve h flags known /\
  relaunches (snd (framework "/srv" "/opt/ch" (demo_host true "/srv") demo_start)) = false /\
  snd (framework "/srv" "/opt/ch" (demo_host true "/srv") demo_start) = Serving.
Proof.
  intros h known.
  destruct (framework "/srv" "/opt/ch" h demo_start) as [acts out] eqn:E. vm_compute in E. injection E as <- <-.
  eexists. split; [reflexivity|].
  assert (Hres : forall p, h_realpath h (resolve "/srv" [p]) = h_realpath h p).
  { intros p. cbn. f_equal. exact (resolve_canonical_id "/srv" [] _ (resolve_canonical "/srv" [p])). }
  assert (Hwalk : forall exclude k r, assoc k (snd (h_code_roots h exclude)) = Some r -> h_realpath h k = Ok r).
  { intros e k r. cbn [h demo_host h_code_roots snd assoc]. destruct (String.eqb_spec k "/opt/redis") as [->|]; [|done]. by intros [= <-]. }
  destruct (hardened_child_ready "/srv" "/opt/ch" h demo_start Hres Hwalk _ _ known eq_refl) as (_ & _ & _ & H4 & H5).
  split; [exact H4|]. split; [by apply H5|reflexivity].
Defined.
