(* ===== verification/ModuleValidator.v ===== *)
(** * Checking a module without a server (lib/module-validator.js), and a spec
    (lib/validator.js: detectLegacySpec, validateDeviceSpec)

    A directory in, a list of problems out. The checks are those a load makes;
    this file has the spec's own, the loading of handlers/ (lib/handler-map.js)
    and how the validator puts them together. *)
From Stdlib Require Import ZArith Lia Ascii String.
From stdpp Require Import prelude strings.
From S2P Require Import Packages Prelude Paths Json Errors Address Permissions Host Service HandlerMap SandboxConfig.

Set Default Proof Using "Type".

(** ** A device's spec *)

Record ajv_error := mkAjv { ae_instancePath : string; ae_message : string; ae_schemaPath : string }.
Record spec_error := mkSpecErr { se_message : string; se_validationErrors : option (list ajv_error) }.

Definition type_error : jserr := plain_error "Cannot read properties of null".

(** A property read of [null] or [undefined] throws. *)
Definition get_of (k : string) (v : jsval) : result jsval := if is_nullish v then Throw type_error else Ok (jget k v).

Fixpoint legacy_services (services : list (string * jsval)) : result (option string) :=
  match services with
  | [] => Ok None
  | (serviceID, service) :: services =>
      let! table := get_of "serviceStateTable" service in
      if negb (is_nullish table) then Ok (Some ("a serviceStateTable in service " +:+ serviceID))
      else if negb (is_nullish (jget "actionList" service)) && negb (is_array (jget "actionList" service))
      then Ok (Some ("an object actionList (5.0.0 expects an array) in service " +:+ serviceID))
      else legacy_services services
  end.

Definition detectLegacySpec (spec : jsval) : result (option string) :=
  if is_nullish spec || negb (is_object spec) then Ok None
  else
    let! found := legacy_services (declared_services spec) in
    match found with
    | Some f => Ok (Some f)
    | None => if negb (is_nullish (jget "specVersion" spec)) then Ok (Some "a top-level specVersion"%string)
              else if negb (is_nullish (jget "configId" spec)) then Ok (Some "a top-level configId"%string)
              else Ok None
    end.

Definition legacy_text (found : string) : string :=
  "this api.json is in the pre-5.0.0 spec format (found " +:+ found +:+
  "). Convert it with: npx countinghouse-migrate-spec <module directory> -- see MIGRATION.md for what changes.".

(** One service's names, in turn: the first that was seen. [seen] is a plain
    object, whose prototype cannot be set to [true]. *)
Fixpoint duplicate_name (actions : list jsval) (seen : list string) : result (option string) :=
  match actions with
  | [] => Ok None
  | a :: actions =>
      let! name := get_of "name" a in
      if includes (js_text name) seen then Ok (Some (js_text name))
      else duplicate_name actions (if String.eqb (js_text name) "__proto__" then seen else js_text name :: seen)
  end.

Definition actions_of (service : jsval) : result (list jsval) :=
  let! l := get_of "actionList" service in
  match l with
  | JArr actions => Ok actions
  | JStr s => Ok (repeat (JStr "") (String.length s))
  | JUndef | JNull => Throw type_error
  | _ => Ok []
  end.

Fixpoint duplicates (services : list (string * jsval)) : result (option spec_error) :=
  match services with
  | [] => Ok None
  | (serviceID, service) :: services =>
      let! actions := actions_of service in
      let! dup := duplicate_name actions [] in
      match dup with
      | Some name => Ok (Some (mkSpecErr ("duplicate action name. Service: " +:+ serviceID +:+ ", action: " +:+ name) None))
      | None => duplicates services
      end
  end.

Section validateDeviceSpec.
(** The compiled meta-schema (spec/schema.json, by ajv): valid, or its errors. *)
Context (deviceSchemaValidator : jsval -> result (option (list ajv_error))).

Definition or_root (p : string) : string := if String.eqb p "" then "(root)"%string else p.

Definition meta_schema_error (spec : jsval) : option spec_error :=
  match deviceSchemaValidator spec with
  | Ok None => None
  | Ok (Some errors) =>
      let errors := map (fun e => mkAjv (or_root (ae_instancePath e)) (ae_message e) (ae_schemaPath e)) errors in
      let message := join "; " (map (fun e => ae_instancePath e +:+ ": " +:+ ae_message e) errors) in
      if String.eqb message "" then None else Some (mkSpecErr message (Some errors))
  | Throw e => if String.eqb (e_message e) "" then None else Some (mkSpecErr (e_message e) None)
  end.

Definition validateDeviceSpec (spec : jsval) : result (option spec_error) :=
  let! legacy := detectLegacySpec spec in
  match legacy with
  | Some found => Ok (Some (mkSpecErr (legacy_text found) None))
  | None =>
      match meta_schema_error spec with
      | Some e => Ok (Some e)
      | None => let! device := get_of "device" spec in
                let! _ := get_of "serviceList" device in
                duplicates (declared_services spec)
      end
  end.
End validateDeviceSpec.

(** ** handlers/ (loadConventionHandlers) and the two shapes of a module *)

(** What [require] of a handler file gives: an object with a function as its
    [default], a function, or something else. *)
Inductive loaded := DefaultFn (h : handler) | Fn (h : handler) | OtherValue.

Section handlers.
Context (existsSync : string -> bool) (isDirectory : string -> result bool) (names_in : string -> result (list string)).
Context (requireFile : string -> result loaded).

Definition handler_of (l : loaded) : option handler := match l with DefaultFn h | Fn h => Some h | OtherValue => None end.

Definition js_files (names : list string) : list string := List.filter (ends_with ".js") (sort_str names).

Fixpoint load_actions (serviceRoot : string) (files : list string) : result (list (string * option handler)) :=
  match files with
  | [] => Ok []
  | file :: files =>
      let! l := requireFile (path_join [serviceRoot; file]) in
      let! rest := load_actions serviceRoot files in
      Ok ((stake (String.length file - 3) file, handler_of l) :: rest)
  end.

Fixpoint load_services (root : string) (dirs : list string) : result (list (string * exported_service)) :=
  match dirs with
  | [] => Ok []
  | dir :: dirs =>
      let serviceRoot := path_join [root; dir] in
      let! is_dir := isDirectory serviceRoot in
      if negb is_dir then load_services root dirs
      else
        let! names := names_in serviceRoot in
        let! actions := load_actions serviceRoot (js_files names) in
        let! rest := load_services root dirs in
        Ok ((dir, Actions actions []) :: rest)
  end.

Definition loadConventionHandlers (modulePath : string) : result (option exported) :=
  let root := path_join [modulePath; "handlers"%string] in
  if negb (existsSync root) then Ok None
  else
    let! is_dir := isDirectory root in
    if negb is_dir then Ok None
    else
      let! dirs := names_in root in
      let! services := load_services root (sort_str dirs) in
      Ok (Some (mkExported true services [])).

(** [resolveHandlerMap]: what the main entry exported, when it is a map, or the
    handlers/ directory. *)
Definition resolveHandlerMap (modulePath : string) (main : option exported) : result (option (exported * string)) :=
  match main with
  | Some x => if isHandlerMap x then Ok (Some (x, "module export"%string)) else
                let! c := loadConventionHandlers modulePath in Ok (option_map (fun x => (x, "handlers/ directory"%string)) c)
  | None => let! c := loadConventionHandlers modulePath in Ok (option_map (fun x => (x, "handlers/ directory"%string)) c)
  end.
End handlers.

(** ** The validator *)

Record finding := mkFinding { fd_stage : string; fd_module : jsval; fd_message : string; fd_fix : option string }.
Record verdict_ := mkVerdict { vd_ok : bool; vd_module : jsval; vd_problems : list finding; vd_warnings : list finding }.
(** What calls the callback: an error, or a verdict. *)
Inductive answer := NotADirectory (message : string) | Judged (v : verdict_).

Definition ADDRESS_FORM : string := "<module>/<service>.<action>".

(** One pass over the declared calls; [seen] is a plain object, as above. *)
Fixpoint calls_walk (moduleName : jsval) (calls : list jsval) (seen : list string) : list finding :=
  match calls with
  | [] => []
  | address :: calls =>
      let t := js_text address in
      (if includes t seen then [mkFinding "countinghouse.calls" moduleName ("countinghouse.calls lists " +:+ in_quotes t +:+ " more than once.")
                                  (Some "Remove the duplicate entry."%string)] else []) ++
      (if bool_decide (is_Some (parseAddress address)) then []
       else [mkFinding "countinghouse.calls" moduleName (in_quotes t +:+ " is not a valid composition address -- expected " +:+ ADDRESS_FORM +:+ ".")
               (Some ("This only checks the address shape -- whether the target module, service and " +:+
                      "action actually exist is resolved when this module is loaded, not here."))]) ++
      calls_walk moduleName calls (if String.eqb t "__proto__" then seen else t :: seen)
  end.

Definition callsProblems (pkg moduleName : jsval) : list finding :=
  let calls := jget "calls" (jget "countinghouse" pkg) in
  match calls with
  | JUndef | JNull => []
  | JArr addresses => calls_walk moduleName addresses []
  | _ => [mkFinding "countinghouse.calls" moduleName "countinghouse.calls must be an array of composition address strings."
            (Some ("Each entry names a target this module may call, in " +:+ ADDRESS_FORM +:+ " form."))]
  end.

Definition specProblems (e : spec_error) (moduleName : jsval) : list finding :=
  match se_validationErrors e with
  | Some (x :: xs) => map (fun a => mkFinding "validateDeviceSpec" moduleName (ae_instancePath a +:+ ": " +:+ ae_message a)
                                      (Some "Fix the named path in api.json, or its schema.json pointer."%string)) (x :: xs)
  | _ => [mkFinding "validateDeviceSpec" moduleName (se_message e) None]
  end.

Section validateModule.
(** The disk and the loader, as in [Packages] and [SandboxConfig]. *)
Context (realpathSync readFileSync : string -> result string) (existsSync : string -> bool).
Context (readdirSync : string -> result (list dirent)) (JSON_parse : string -> result jsval).
Context (isDirectory : string -> result bool) (names_in : string -> result (list string)).
Context (packages dirs : nat) (pcwd : string).
(** [require.resolve] finds the file; [require] of the main entry, and of a
    handler file; the compiled meta-schema; the texts of errors. *)
Context (resolves : string -> bool) (requireEntry : string -> result (option exported)) (requireFile : string -> result loaded).
Context (deviceSchemaValidator : jsval -> result (option (list ajv_error))) (ErrorInfo : string -> option string).

Definition readJSON (file : string) : result jsval := let! text := readFileSync file in JSON_parse text.

Record entry := mkEntry { en_exported : option exported; en_pkg : jsval; en_pkgError : option string; en_path : string;
                          en_exists : bool; en_requireError : option string }.

Definition loadExported (modulePath : string) : result entry :=
  match readJSON (path_join [modulePath; "package.json"%string]) with
  | Throw e => Ok (mkEntry None JUndef (Some (e_message e)) "" false None)
  | Ok pkg =>
      let! main := get_of "main" pkg in
      match (if truthy main then main else JStr "index.js") with
      | JStr m =>
          let entryPath := path_join [modulePath; m] in
          match requireEntry entryPath with
          | Ok x => Ok (mkEntry x pkg None entryPath (resolves entryPath) None)
          | Throw e => Ok (mkEntry None pkg None entryPath (resolves entryPath) (Some (e_message e)))
          end
      | _ => Throw (coded_error "ERR_INVALID_ARG_TYPE" "The path argument must be of type string.")
      end
  end.

(** [readRootSchema]'s exception, if there is one. *)
Definition schema_problem (modulePath : string) (moduleName : jsval) : option string :=
  let file := path_join [modulePath; "schema.json"%string] in
  if negb (existsSync file) then None
  else match readJSON file with
       | Ok _ => None
       | Throw e => Some (message_of ErrorInfo (CHError "MODULE_ASSEMBLY_FAIL"
                         [moduleName; JStr ("stage=readRootSchema -- " +:+ file +:+ " is not valid JSON: " +:+ e_message e)]))
       end.

Definition entry_problem (e : entry) (moduleName : jsval) : list finding :=
  match en_exists e, en_requireError e with
  | true, Some message =>
      [mkFinding "loadModuleEntry" moduleName
         (en_path e +:+ " exists but threw while being required: " +:+ message +:+ ". " +:+
          "This may be a genuine bug in the module, or the module may depend on something " +:+ "only present in the real server load path.")
         (Some ("If this module references CHUtil or CHDevice directly, it may be written for the " +:+
                "sandboxed load path, where lib/sandbox.js sets those as globals before requiring " +:+
                "the module -- they are not set here or by a plain require(). Otherwise, fix the " +:+
                "exception at the top of the main entry file."))]
  | _, _ => []
  end.

(** The checks before api.json is read. *)
Definition package_problems (e : entry) (tree : report) (moduleName : jsval) : list finding :=
  match en_pkgError e with
  | Some m => [mkFinding "readPackageJson" moduleName ("package.json could not be read: " +:+ m)
                 (Some "Every module needs a package.json with a name."%string)]
  | None => []
  end ++
  entry_problem e moduleName ++ callsProblems (en_pkg e) moduleName ++
  map (fun m => mkFinding "countinghouse.permissions" moduleName m (Some ("See " +:+ in_quotes "Declaring permissions" +:+ " in docs/module-development.md.")))
    (snd (parseDeclaration (en_pkg e))) ++
  map (fun m => mkFinding "checkTree" moduleName m None) (r_problems tree).

Definition handler_problems (modulePath : string) (main : option exported) (spec moduleName : jsval) : list finding :=
  let none_found := mkFinding "resolveHandlerMap" moduleName
    (js_text moduleName +:+ ": no handler map found -- neither a handlers/ directory nor a handler-map export.")
    (Some ("This may be a legacy discovery-style module, which the runtime still " +:+ "supports but this validator cannot check beyond its spec.")) in
  match resolveHandlerMap existsSync isDirectory names_in requireFile modulePath main with
  | Throw e => [mkFinding "resolveHandlerMap" moduleName ("handler map could not be loaded: " +:+ e_message e)
                  (Some "A handler file threw while being required."%string); none_found]
  | Ok None => [none_found]
  | Ok (Some (x, _)) => map (fun m => mkFinding "assembleHandlerMap" moduleName m None) (validateHandlerMap spec x (js_text moduleName))
  end.

Definition validateModule (modulePath : string) : result answer :=
  let resolved := resolve pcwd [modulePath] in
  let! is_dir := (if existsSync resolved then isDirectory resolved else Ok false) in
  if negb is_dir then Ok (NotADirectory (resolved +:+ " is not a directory"))
  else
    let! e := loadExported resolved in
    let name := jget "name" (en_pkg e) in
    let moduleName := if truthy name then name else JStr (basename resolved) in
    let! tree := checkTree realpathSync readFileSync existsSync readdirSync JSON_parse packages dirs pcwd resolved in
    let warnings := map (fun m => mkFinding "checkTree" moduleName m None) (r_warnings tree) in
    let before := package_problems e tree moduleName in
    let apiPath := path_join [resolved; "api.json"%string] in
    match readJSON apiPath with
    | Throw err =>
        Ok (Judged (mkVerdict false moduleName
              (before ++ [mkFinding "readApiJson" moduleName (apiPath +:+ " could not be read: " +:+ e_message err)
                            (Some "api.json declares the device, its services and their actions."%string)]) warnings))
    | Ok spec =>
        let schema := match schema_problem resolved moduleName with
                      | Some m => [mkFinding "readRootSchema" moduleName m (Some "schema.json must be valid JSON when present."%string)]
                      | None => []
                      end in
        let! spec_err := validateDeviceSpec deviceSchemaValidator spec in
        let problems := before ++ schema ++ handler_problems resolved (en_exported e) spec moduleName ++
                        match spec_err with Some err => specProblems err moduleName | None => [] end in
        Ok (Judged (mkVerdict (is_nil problems) moduleName problems warnings))
    end.
End validateModule.

(** ** A verdict is exact *)

(** Composition addresses that are declared once each. *)
Inductive calls_fine : list jsval -> list string -> Prop :=
| calls_nil seen : calls_fine [] seen
| calls_cons address calls seen :
    js_text address ∉ seen -> is_Some (parseAddress address) ->
    calls_fine calls (js_text address :: seen) -> calls_fine (address :: calls) seen.

Definition calls_ok (pkg : jsval) : Prop :=
  let calls := jget "calls" (jget "countinghouse" pkg) in
  is_nullish calls = true \/ exists addresses, calls = JArr addresses /\ calls_fine addresses [].

(** An address that parses is no name a plain object could not keep. *)
Lemma address_kept a : is_Some (parseAddress a) -> String.eqb (js_text a) "__proto__" = false.
Proof.
  intros [x Hx]. destruct a as [| | | | |s| |]; try done. cbn [js_text]. destruct (String.eqb_spec s "__proto__") as [->|]; [|done]. done.
Qed.

Lemma calls_walk_nil moduleName calls seen : calls_walk moduleName calls seen = [] <-> calls_fine calls seen.
Proof.
  revert seen. induction calls as [|a calls IH]; intros seen; cbn [calls_walk].
  - split; [constructor|done].
  - destruct (includes (js_text a) seen) eqn:Ei.
    { split; [done|]. intros H. inversion H; subst. apply includes_spec in Ei. done. }
    assert (Hn : js_text a ∉ seen) by (intros Hin; apply includes_spec in Hin; congruence).
    case_bool_decide as Hp; cbn [app].
    + rewrite (address_kept a Hp), IH. split; [by constructor|]. intros H. by inversion H.
    + split; [done|]. intros H. by inversion H.
Qed.

Lemma callsProblems_nil pkg moduleName : callsProblems pkg moduleName = [] <-> calls_ok pkg.
Proof.
  unfold callsProblems, calls_ok. cbn zeta. destruct (jget "calls" (jget "countinghouse" pkg)) as [| | | | | |xs|]; cbn [is_nullish].
  1,2: by split; [left|].
  1-4,6: split; [done|intros [?|(? & ? & _)]; done].
  rewrite calls_walk_nil. split; [right; by exists xs|]. intros [?|(ys & [= ->] & H)]; done.
Qed.

Lemma specProblems_some e moduleName : specProblems e moduleName <> [].
Proof. unfold specProblems. by destruct (se_validationErrors e) as [[|]|]. Qed.

Lemma map_nil_iff {A B} (f : A -> B) l : map f l = [] <-> l = [].
Proof. by destruct l. Qed.

(** The sandbox decision for a module whose checks found nothing. *)
Lemma build_unrefused realpathSync readFileSync existsSync readdirSync JSON_parse policy_file packages dirs pcwd path name opts s dir pkg :
  SandboxConfig.build realpathSync readFileSync existsSync readdirSync JSON_parse policy_file packages dirs pcwd path name opts = Ok (Some s) ->
  realpathSync (resolve pcwd [path]) = Ok dir ->
  readJSON readFileSync JSON_parse (path_join [dir; "package.json"%string]) = Ok pkg -> snd (parseDeclaration pkg) = [] ->
  (exists tree, checkTree realpathSync readFileSync existsSync readdirSync JSON_parse packages dirs pcwd dir = Ok tree /\ r_problems tree = []) ->
  s_refusal s = None.
Proof.
  intros Hb Hr Hj Hd (tree & Ht & Hn). unfold build in Hb. destruct (String.eqb _ _); [done|]. rewrite Hr in Hb. cbn [rbind] in Hb.
  assert (Hrp : readPackage readFileSync JSON_parse dir = (pkg, None)).
  { unfold readPackage. unfold readJSON in Hj. by rewrite Hj. }
  rewrite Hrp in Hb. destruct (parseDeclaration pkg) as [declared ps]. cbn in Hd. subst ps. rewrite Ht in Hb. cbn [rbind] in Hb.
  destruct (policy_of _ _) as [pol notes]. destruct (narrow _ _ _ _) as [eff|]; [|done]. cbn [rbind] in Hb.
  injection Hb as <-. cbn [s_refusal]. by rewrite Hn.
Qed.

Section exact.
Context (realpathSync readFileSync : string -> result string) (existsSync : string -> bool).
Context (readdirSync : string -> result (list dirent)) (JSON_parse : string -> result jsval).
Context (isDirectory : string -> result bool) (names_in : string -> result (list string)).
Context (packages dirs : nat) (pcwd : string).
Context (resolves : string -> bool) (requireEntry : string -> result (option exported)) (requireFile : string -> result loaded).
Context (deviceSchemaValidator : jsval -> result (option (list ajv_error))) (ErrorInfo : string -> option string).

#[local] Notation read_json := (readJSON readFileSync JSON_parse).
#[local] Notation load_entry := (loadExported readFileSync JSON_parse resolves requireEntry).
#[local] Notation tree_of := (checkTree realpathSync readFileSync existsSync readdirSync JSON_parse packages dirs pcwd).
#[local] Notation handler_map := (resolveHandlerMap existsSync isDirectory names_in requireFile).
#[local] Notation validate := (validateModule realpathSync readFileSync existsSync readdirSync JSON_parse isDirectory names_in
  packages dirs pcwd resolves requireEntry requireFile deviceSchemaValidator ErrorInfo).

(** What a module has to be, check by check. *)
Record passes (dir : string) (e : entry) (tree : report) (spec : jsval) (x : exported) : Prop := {
  ps_loaded : load_entry dir = Ok e;
  ps_package : en_pkgError e = None;
  ps_entry : en_exists e = true -> en_requireError e = None;
  ps_calls : calls_ok (en_pkg e);
  ps_declared : snd (parseDeclaration (en_pkg e)) = [];
  ps_walked : tree_of dir = Ok tree;
  ps_tree : r_problems tree = [];
  ps_api : read_json (path_join [dir; "api.json"%string]) = Ok spec;
  ps_schema : existsSync (path_join [dir; "schema.json"%string]) = true ->
              is_ok (read_json (path_join [dir; "schema.json"%string])) = true;
  ps_handlers : exists source, handler_map dir (en_exported e) = Ok (Some (x, source));
  ps_map : lines_up spec x;
  ps_spec : validateDeviceSpec deviceSchemaValidator spec = Ok None
}.

Lemma entry_problem_nil e moduleName : entry_problem e moduleName = [] <-> (en_exists e = true -> en_requireError e = None).
Proof using Type. unfold entry_problem. destruct (en_exists e), (en_requireError e); split; try done; intros H; by specialize (H eq_refl). Qed.

Lemma package_problems_nil e tree moduleName :
  package_problems e tree moduleName = [] <->
  en_pkgError e = None /\ (en_exists e = true -> en_requireError e = None) /\ calls_ok (en_pkg e) /\
  snd (parseDeclaration (en_pkg e)) = [] /\ r_problems tree = [].
Proof using Type.
  unfold package_problems. rewrite !app_nil, entry_problem_nil, callsProblems_nil.
  rewrite !map_nil_iff. destruct (en_pkgError e); [split; by intros [? _]|]. split; by intros (_ & H).
Qed.

Lemma schema_problem_none dir moduleName :
  schema_problem readFileSync existsSync JSON_parse ErrorInfo dir moduleName = None <->
  (existsSync (path_join [dir; "schema.json"%string]) = true -> is_ok (read_json (path_join [dir; "schema.json"%string])) = true).
Proof using Type.
  unfold schema_problem. cbn zeta. destruct (existsSync _); [|done]. cbn [negb]. destruct (readJSON _ _ _); cbn; [done|].
  split; [done|]. intros H. by specialize (H eq_refl).
Qed.

Lemma handler_problems_nil dir main spec moduleName :
  handler_problems existsSync isDirectory names_in requireFile dir main spec moduleName = [] <->
  exists x source, handler_map dir main = Ok (Some (x, source)) /\ lines_up spec x.
Proof using Type.
  unfold handler_problems. cbn zeta. destruct (handler_map dir main) as [[[x source]|]|e].
  - rewrite map_nil_iff, validate_lines_up. split; [intros H; by exists x, source|]. by intros (y & src & [= -> ->] & H).
  - split; [done|]. by intros (? & ? & ? & _).
  - split; [done|]. by intros (? & ? & ? & _).
Qed.

Lemma verdict_of p v : validate p = Ok (Judged v) ->
  let dir := resolve pcwd [p] in
  exists e tree, load_entry dir = Ok e /\ tree_of dir = Ok tree /\
    ((exists err, read_json (path_join [dir; "api.json"%string]) = Throw err /\ vd_ok v = false /\ vd_problems v <> []) \/
     exists spec spec_err, read_json (path_join [dir; "api.json"%string]) = Ok spec /\
       validateDeviceSpec deviceSchemaValidator spec = Ok spec_err /\
       vd_ok v = is_nil (vd_problems v) /\
       (vd_problems v = [] <->
        package_problems e tree (vd_module v) = [] /\
        schema_problem readFileSync existsSync JSON_parse ErrorInfo dir (vd_module v) = None /\
        handler_problems existsSync isDirectory names_in requireFile dir (en_exported e) spec (vd_module v) = [] /\ spec_err = None)).
Proof using Type.
  cbn zeta. unfold validateModule. cbn zeta. set (dir := resolve pcwd [p]).
  destruct (if existsSync dir then isDirectory dir else Ok false) as [[]|]; try done. cbn [rbind negb].
  destruct (load_entry dir) as [e|] eqn:Ee; [|done]. cbn [rbind]. destruct (tree_of dir) as [tree|] eqn:Et; [|done]. cbn [rbind].
  destruct (read_json _) as [spec|err] eqn:Ea.
  2: { intros [= <-]. exists e, tree. split; [done|]. split; [done|]. left. exists err. split; [done|]. split; [done|].
       cbn. by intros [_ H]%app_eq_nil. }
  destruct (validateDeviceSpec deviceSchemaValidator spec) as [spec_err|] eqn:Es; [|done]. cbn [rbind]. intros [= <-].
  exists e, tree. split; [done|]. split; [done|]. right. exists spec, spec_err. split; [done|]. split; [done|]. split; [done|].
  cbn [vd_problems vd_module]. set (name := if truthy (jget "name" (en_pkg e)) then _ else _). rewrite !app_nil.
  assert (Hs : match spec_err with Some err => specProblems err name | None => [] end = [] <-> spec_err = None).
  { destruct spec_err as [se|]; [|done]. split; [|done]. intros H. by apply specProblems_some in H. }
  rewrite Hs. destruct (schema_problem _ _ _ _ _ _); [split; [by intros (_ & ? & _)|by intros (_ & ? & _)]|].
  split; by intros (? & _ & ? & ?).
Qed.

Lemma loaded_package dir e : load_entry dir = Ok e -> en_pkgError e = None -> read_json (path_join [dir; "package.json"%string]) = Ok (en_pkg e).
Proof using Type.
  unfold loadExported. destruct (readJSON _ _ _) as [pkg|err]; [|by intros [= <-]].
  destruct (get_of "main" pkg) as [m|]; [|done]. cbn [rbind]. destruct (if truthy m then m else _); try done.
  by destruct (requireEntry _); intros [= <-].
Qed.

(** C22: The validator's verdict is exact, and holds at load time. A module is
    judged fine exactly when there is nothing to say: its package.json parses,
    its main entry is not there or loads, its calls are well-formed addresses
    each declared once, its permissions and its tree have no problem, api.json
    parses, schema.json parses if there is one, a handler map is found that lines
    up with api.json in both directions, and the spec is valid. A module that was
    judged fine, at its real path, is then not refused by the sandbox decision
    under any mode and policy, and its handler map is assembled, or fails only
    where the device's own services do. *)
Theorem validator_exact p v :
  validate p = Ok (Judged v) ->
  let dir := resolve pcwd [p] in
  (vd_ok v = true <-> vd_problems v = []) /\
  (vd_ok v = true <-> exists e tree spec x, passes dir e tree spec x) /\
  (vd_ok v = true -> realpathSync dir = Ok dir -> forall policy_file name opts s,
     SandboxConfig.build realpathSync readFileSync existsSync readdirSync JSON_parse policy_file packages dirs pcwd p name opts = Ok (Some s) ->
     s_refusal s = None) /\
  (forall e tree spec x, passes dir e tree spec x -> forall compile rootSchema name source g,
     assemble compile rootSchema spec x name source g =
     match initServices compile (mkDevice rootSchema []) spec with
     | Some (d, _) => inr (wire spec x (g, d))
     | None => inl (Error_ "this.services[i].updateSpec is not a function")
     end).
Proof using Type.
  intros H. cbn zeta. set (dir := resolve pcwd [p]). destruct (verdict_of p v H) as (e & tree & He & Ht & Hv). fold dir in He, Ht, Hv.
  assert (Hok : vd_ok v = true <-> vd_problems v = []).
  { destruct Hv as [(err & _ & -> & Hn)|(spec & se & _ & _ & -> & _)]; [done|]. by destruct (vd_problems v). }
  assert (Hps : vd_ok v = true <-> exists e tree spec x, passes dir e tree spec x).
  { rewrite Hok. split.
    - intros Hnil. destruct Hv as [(err & _ & _ & Hn)|(spec & se & Ha & Hs & _ & Hall)]; [done|].
      apply Hall in Hnil as (Hp & Hsc & Hh & ->). apply package_problems_nil in Hp as (H1 & H2 & H3 & H4 & H5).
      pose proof (proj1 (schema_problem_none _ _) Hsc) as Hsch. apply handler_problems_nil in Hh as (x & source & Hx & Hl).
      exists e, tree, spec, x. split; try done. by exists source.
    - intros (e' & tree' & spec & x & Hp). destruct Hp as [P1 P2 P3 P4 P5 P6 P7 P8 P9 [source P10] P11 P12].
      rewrite He in P1. injection P1 as <-. rewrite Ht in P6. injection P6 as <-.
      destruct Hv as [(err & Hbad & _)|(spec' & se & Ha & Hs & _ & Hall)]; [by rewrite Hbad in P8|].
      rewrite Ha in P8. injection P8 as ->. rewrite Hs in P12. injection P12 as ->. apply Hall.
      split; [by apply package_problems_nil|]. split; [by apply schema_problem_none|]. split; [|done].
      apply handler_problems_nil. by exists x, source. }
  split; [done|]. split; [done|]. split.
  - intros Hv' Hr policy_file name opts s Hb. apply Hps in Hv' as (e' & tree' & spec & x & Hp).
    destruct Hp as [P1 P2 _ _ P5 P6 P7 _ _ _ _ _].
    by eapply (build_unrefused _ _ _ _ _ _ _ _ _ _ _ _ _ dir (en_pkg e') Hb Hr (loaded_package _ _ P1 P2) P5); exists tree'.
  - intros e' tree' spec x Hp compile rootSchema name source g. unfold assemble.
    by rewrite (proj2 (validate_lines_up spec x name) (ps_map _ _ _ _ _ Hp)).
Qed.
End exact.

(** A module of one service with one action, whose main entry exports its map. *)
Definition demo_module_pkg : jsval :=
  JObj [("name", JStr "m"); ("countinghouse", JObj [("calls", JArr [JStr "other/s.a"])])].
Definition demo_api : jsval :=
  JObj [("device", JObj [("serviceList", JObj [("urn:x:serviceID:s", JObj [("actionList", JArr [JObj [("name", JStr "a")]])])])])].
Definition demo_read_file (p : string) : result string :=
  if String.eqb p "/m/package.json" then Ok "package"%string else if String.eqb p "/m/api.json" then Ok "api"%string
  else Throw (coded_error "ENOENT" "no such file").
Definition demo_json (t : string) : result jsval :=
  if String.eqb t "package" then Ok demo_module_pkg else if String.eqb t "api" then Ok demo_api else Throw (plain_error "not JSON").
Definition demo_map : exported := mkExported true [("s", Actions [("a", Some "handler")] [])]%string [].
Definition demo_verdict (entry : result (option exported)) : result answer :=
  validateModule (fun p => Ok p) demo_read_file (fun p => String.eqb p "/m") (fun _ => Ok []) demo_json (fun _ => Ok true) (fun _ => Ok [])
    8 8 "/" (fun _ => true) (fun _ => entry) (fun _ => Ok OtherValue) (fun _ => Ok None) (fun _ => None) "/m".

Lemma validator_exact_witness :
  let fine := mkVerdict true (JStr "m") [] [] in
  demo_verdict (Ok (Some demo_map)) = Ok (Judged fine) /\
  (exists e tree spec x,
     passes (fun p => Ok p) demo_read_file (fun p => String.eqb p "/m") (fun _ => Ok []) demo_json (fun _ => Ok true) (fun _ => Ok [])
       8 8 "/" (fun _ => true) (fun _ => Ok (Some demo_map)) (fun _ => Ok OtherValue) (fun _ => Ok None) "/m" e tree spec x) /\
  (match demo_verdict (Throw (plain_error "boom")) with Ok (Judged v) => map fd_stage (vd_problems v) | _ => [] end)
    = ["loadModuleEntry"; "resolveHandlerMap"]%string.
Proof.
  assert (Hf : demo_verdict (Ok (Some demo_map)) = Ok (Judged (mkVerdict true (JStr "m") [] []))) by (vm_compute; reflexivity).
  pose proof Hf as Hv. unfold demo_verdict in Hv. apply validator_exact in Hv as (_ & H2 & _).
  split; [exact Hf|]. split; [exact (proj1 H2 eq_refl)|vm_compute; reflexivity].
Defined.

(** A service that is [null] in api.json is no problem to report: reading it
    throws out of the validator. *)
Definition null_service : jsval := JObj [("device", JObj [("serviceList", JObj [("urn:x:serviceID:s", JNull)])])].
Example null_service_throws validator : validateDeviceSpec validator null_service = Throw type_error.
Proof. reflexivity. Qed.

(** So does a package.json that is [null]. *)
Example null_package_throws resolves requireEntry :
  loadExported (fun _ => Ok "null"%string) (fun _ => Ok JNull) resolves requireEntry "/m" = Throw type_error.
Proof. reflexivity. Qed.
