(* ===== verification/Migration.v ===== *)
(** * Converting a pre-5.0.0 api.json (bin/countinghouse-migrate-spec.js)

    An old spec declares its actions as the members of an object, and an
    argument's schema through a state variable; a new one has an array of
    actions that carry the pointers themselves. The converter is what the
    validator ([ModuleValidator.detectLegacySpec]) tells an author to run. *)
From Stdlib Require Import ZArith Lia Ascii String.
From stdpp Require Import prelude strings.
From S2P Require Import Prelude Paths Json Errors Address Permissions Service HandlerMap ModuleValidator.

Set Default Proof Using "Type".

(** [for (const k in v)], with the values: of a text, its characters. *)
Definition for_in (v : jsval) : list (string * jsval) :=
  match v with
  | JStr s => zip (map nat_text (seq 0 (String.length s))) (map (fun c => JStr (String c "")) (list_ascii_of_string s))
  | _ => members v
  end.

Definition DROPPED_ACTION_KEYS : list string :=
  ["argumentList"; "realPrice"; "priceInfo"; "freeCount"; "apiCache"; "apiLog"]%string.

(** A service's own part of the old format. *)
Definition old_service (service : jsval) : result bool :=
  let! table := get_of "serviceStateTable" service in
  Ok (negb (is_nullish table) || negb (is_array (jget "actionList" service))).

Fixpoint any_old (services : list (string * jsval)) : result bool :=
  match services with
  | [] => Ok false
  | (_, service) :: services => let! old := old_service service in if old : bool then Ok true else any_old services
  end.

Definition isOldFormat (spec : jsval) : result bool :=
  if is_nullish spec || is_nullish (jget "device" spec) || is_nullish (serviceList_of spec) then Ok false
  else any_old (for_in (serviceList_of spec)).

Definition js_error (m : string) : jserr := plain_error m.

(** [stateTable && stateTable[varName]]: a name that every object has finds a
    function, which has no schema. *)
Definition state_var (stateTable : jsval) (varName : string) : jsval :=
  if negb (truthy stateTable) then stateTable
  else match jget varName stateTable with
       | JUndef => if includes varName object_members then JObj [] else JUndef
       | v => v
       end.

Definition schemaPointerFor (stateTable argument : jsval) (where_ : string) : result jsval :=
  if is_nullish argument then Ok JNull
  else
    let varName := jget "relatedStateVariable" argument in
    if is_nullish varName then Throw (js_error (where_ +:+ ": argument has no relatedStateVariable, nothing to convert it to"))
    else
      let stateVar := state_var stateTable (js_text varName) in
      if is_nullish stateVar
      then Throw (js_error (where_ +:+ ": relatedStateVariable " +:+ in_quotes (js_text varName) +:+ " is not in serviceStateTable"))
      else match jget "schema" stateVar with
           | JStr ptr => Ok (JStr ptr)
           | _ => Throw (js_error (where_ +:+ ": state variable " +:+ in_quotes (js_text varName) +:+ " has no schema pointer " +:+
                                   "(dataType " +:+ js_text (jget "dataType" stateVar) +:+ "). Only object arguments carry over " +:+
                                   "to the 5.0.0 format."))
           end.

Definition carried (key : string) : bool :=
  negb (includes key (["name"; "description"; "fault"]%string ++ DROPPED_ACTION_KEYS)).

(** [out[key] = value] on a plain object. *)
Definition set_own (out : list (string * jsval)) (kv : string * jsval) : list (string * jsval) :=
  if String.eqb kv.1 "__proto__" then out else assoc_set kv.1 kv.2 out.

(** The members an action starts with, before those carried over. *)
Definition first_members (actionName : string) (description input output fault : jsval) : list (string * jsval) :=
  [("name"%string, JStr actionName)] ++
  (if is_nullish description then [] else [("description"%string, description)]) ++
  (if is_nullish input then [] else [("input"%string, JObj [("schema"%string, input)])]) ++
  (if is_nullish output then [] else [("output"%string, JObj [("schema"%string, output)])]) ++
  (if is_nullish fault then [] else [("fault"%string, json_copy fault)]).

Definition migrateAction (actionName : string) (action stateTable : jsval) (where_ : string) : result jsval :=
  let! description := get_of "description" action in
  let argumentList := if truthy (jget "argumentList" action) then jget "argumentList" action else JObj [] in
  let! inputPtr := schemaPointerFor stateTable (jget "input" argumentList) (where_ +:+ "/input") in
  let! outputPtr := schemaPointerFor stateTable (jget "output" argumentList) (where_ +:+ "/output") in
  let out := first_members actionName description inputPtr outputPtr (jget "fault" action) in
  Ok (JObj (fold_left set_own (List.filter (fun kv => carried kv.1) (for_in action)) out)).

Fixpoint migrate_actions (actions : list (string * jsval)) (stateTable : jsval) (where_ : string) : result (list jsval) :=
  match actions with
  | [] => Ok []
  | (actionName, action) :: actions =>
      let! a := migrateAction actionName action stateTable (where_ +:+ "/" +:+ actionName) in
      let! rest := migrate_actions actions stateTable where_ in
      Ok (a :: rest)
  end.

(** [delete o[k]] *)
Definition without (k : string) (v : jsval) : jsval :=
  match v with JObj kvs => JObj (List.filter (fun kv => negb (String.eqb k kv.1)) kvs) | _ => v end.

Definition migrate_service (prefix serviceID : string) (service : jsval) : result jsval :=
  let! actionList := get_of "actionList" service in
  if is_array actionList then Ok service
  else
    let! actions := migrate_actions (for_in actionList) (jget "serviceStateTable" service) (prefix +:+ serviceID) in
    Ok (without "serviceStateTable" (with_member "actionList" (JArr actions) service)).

Fixpoint migrate_services (prefix : string) (services : list (string * jsval)) : result (list (string * jsval)) :=
  match services with
  | [] => Ok []
  | (serviceID, service) :: services =>
      let! s := migrate_service prefix serviceID service in
      let! rest := migrate_services prefix services in
      Ok ((serviceID, s) :: rest)
  end.

(** The services of a list, each in its place. *)
Definition migrate_list (prefix : string) (serviceList : jsval) : result jsval :=
  let! services := migrate_services prefix (for_in serviceList) in
  Ok (match serviceList with JObj _ => JObj services | JArr _ => JArr (map snd services) | v => v end).

Definition migrate (spec : jsval) (label : option string) : result jsval :=
  let! old := isOldFormat spec in
  if negb old then Ok spec
  else
    let prefix := match label with Some l => if String.eqb l "" then "" else l +:+ " " | None => "" end%string in
    let out := without "specVersion" (without "configId" (json_copy spec)) in
    let! serviceList := migrate_list prefix (serviceList_of out) in
    Ok (with_member "device" (with_member "serviceList" serviceList (jget "device" out)) out).

(** ** The command *)

(** What it prints and writes; a text of [JSON.stringify(v, null, 2)] is given
    by its value. *)
Inductive said := Usage | Printed (v : jsval) | Unchanged (file : string) | Wrote (file : string) (v : jsval) | Migrated (file : string)
  | Complained (file message : string).

Section command.
Context (isDirectory : string -> result bool) (readFileSync : string -> result string) (JSON_parse : string -> result jsval)
  (writes : string -> jsval -> option jserr).

Definition apiJsonPathFor (target : string) : result string :=
  let! is_dir := isDirectory target in Ok (if is_dir : bool then path_join [target; "api.json"%string] else target).

(** One target, in its [try]: what it said, and an exception. *)
Definition one_file (toStdout : bool) (file : string) : list said * option jserr :=
  match (let! text := readFileSync file in let! spec := JSON_parse text in let! old := isOldFormat spec in Ok (spec, old)) with
  | Throw e => ([], Some e)
  | Ok (spec, false) => ([if toStdout then Printed spec else Unchanged file], None)
  | Ok (spec, true) =>
      match migrate spec None with
      | Throw e => ([], Some e)
      | Ok out => if toStdout then ([Printed out], None)
                  else match writes file out with Some e => ([], Some e) | None => ([Wrote file out; Migrated file], None) end
      end
  end.

Fixpoint targets_done (toStdout : bool) (targets : list string) (failed : nat) : result (list said * nat) :=
  match targets with
  | [] => Ok ([], failed)
  | target :: targets =>
      let! file := apiJsonPathFor target in
      let '(said, err) := one_file toStdout file in
      let line := match err with Some e => [Complained file (e_message e)] | None => [] end in
      let! rest := targets_done toStdout targets (match err with Some _ => S failed | None => failed end) in
      Ok (said ++ line ++ fst rest, snd rest)
  end.

(** The exit code; an exception of [statSync] is not caught. *)
Definition main (argv : list string) : result (list said * Z) :=
  let toStdout := includes "--stdout"%string argv in
  match List.filter (fun a => negb (String.eqb a "--stdout")) argv with
  | [] => Ok ([Usage], 2%Z)
  | targets => let! r := targets_done toStdout targets 0 in Ok (fst r, if (snd r =? 0)%nat then 0%Z else 1%Z)
  end.
End command.

(** ** What a conversion gives *)

(** What [JSON.parse] gives. *)
Inductive json_value : jsval -> Prop :=
| json_scalar v : match v with JUndef | JArr _ | JObj _ => False | _ => True end -> json_value v
| json_array xs : Forall json_value xs -> json_value (JArr xs)
| json_object kvs : NoDup (map fst kvs) -> Forall (fun kv => json_value kv.2) kvs -> json_value (JObj kvs).

Lemma json_defined v : json_value v -> is_undef v = false.
Proof. by destruct 1 as [[]| |]. Qed.

Lemma json_copy_id v : json_value v -> json_copy v = v.
Proof.
  revert v. fix IH 2. intros v [w Hw|xs Hf|kvs _ Hf].
  - by destruct w.
  - cbn. f_equal. induction Hf as [|x xs Hx Hf IHf]; [done|]. cbn [map]. by rewrite (json_defined x Hx), (IH x Hx), IHf.
  - cbn. f_equal. induction Hf as [|[k x] kvs Hx Hf IHf]; [done|]. by rewrite (json_defined x Hx), (IH x Hx), IHf.
Qed.

Lemma json_object_parts kvs : json_value (JObj kvs) -> NoDup (map fst kvs) /\ forall k v, (k, v) ∈ kvs -> json_value v.
Proof. intros H. inversion H as [? Hs| |? Hnd Hf]; subst; [done|]. split; [done|]. intros k v Hk. rewrite Forall_forall in Hf. by apply (Hf (k, v)). Qed.

Lemma json_member k v : json_value v -> jget k v <> JUndef -> json_value (jget k v).
Proof.
  intros [w Hw|xs Hf|kvs _ Hf] Hk; [by destruct w|done|]. cbn in *. destruct (assoc k kvs) as [x|] eqn:E; [|done].
  rewrite Forall_forall in Hf. by apply (Hf (k, x)), assoc_elem.
Qed.

(** A spec in the old format: its services are objects, whose actions are the
    members of an object, each an object. *)
Definition old_shape (s : string * jsval) : Prop :=
  exists kvs actions, s.2 = JObj kvs /\ jget "actionList" s.2 = JObj actions /\ Forall (fun a => exists members, a.2 = JObj members) actions.
Definition old_spec (spec : jsval) (services : list (string * jsval)) : Prop :=
  json_value spec /\ serviceList_of spec = JObj services /\ services <> [] /\ Forall old_shape services.

(** What an argument becomes. *)
Definition points (table argument v : jsval) : Prop :=
  (is_nullish argument = true /\ v = JUndef) \/
  (exists var ptr, jget "relatedStateVariable" argument = var /\ is_nullish argument = false /\ is_nullish var = false /\
     jget "schema" (state_var table (js_text var)) = JStr ptr /\ v = JObj [("schema"%string, JStr ptr)]).

Definition arguments_of (action : jsval) : jsval :=
  if truthy (jget "argumentList" action) then jget "argumentList" action else JObj [].

Definition convertible (table action : jsval) : Prop :=
  forall side, side ∈ ["input"; "output"]%string -> exists v, points table (jget side (arguments_of action)) v.

Record action_converted (table : jsval) (nameAction : string * jsval) (a : jsval) : Prop := {
  ac_name : jget "name" a = JStr nameAction.1;
  ac_carried k : carried k = true -> k <> "__proto__"%string -> jget k nameAction.2 <> JUndef -> jget k a = jget k nameAction.2;
  ac_described k : k ∈ ["description"; "fault"]%string ->
    jget k a = if is_nullish (jget k nameAction.2) then JUndef else jget k nameAction.2;
  ac_schema side : side ∈ ["input"; "output"]%string -> jget side nameAction.2 = JUndef ->
    points table (jget side (arguments_of nameAction.2)) (jget side a);
  ac_dropped k : k ∈ DROPPED_ACTION_KEYS -> jget k a = JUndef
}.

Lemma schemaPointer_points table argument w v :
  schemaPointerFor table argument w = Ok v -> points table argument (if is_nullish v then JUndef else JObj [("schema"%string, v)]).
Proof.
  unfold schemaPointerFor. destruct (is_nullish argument) eqn:Ea; [intros [= <-]; by left|].
  destruct (is_nullish (jget "relatedStateVariable" argument)) eqn:Ev; [done|].
  destruct (is_nullish (state_var _ _)) eqn:Es; [done|]. destruct (jget "schema" _) eqn:Ep; try done. intros [= <-].
  right. cbn. eauto 10.
Qed.

Lemma points_pointer table argument w v : points table argument v -> is_ok (schemaPointerFor table argument w) = true.
Proof.
  unfold schemaPointerFor. intros [[-> _]|(var & ptr & <- & -> & Hv & Hp & _)]; [done|]. rewrite Hv, Hp.
  by destruct (state_var _ _).
Qed.

Lemma set_own_other k l : forall out, k ∉ map fst l -> assoc k (fold_left set_own l out) = assoc k out.
Proof.
  induction l as [|[k' v] l IH]; intros out Hk; [done|]. cbn in *. apply not_elem_of_cons in Hk as [Hne Hk].
  rewrite (IH _ Hk). unfold set_own. cbn. destruct (String.eqb _ _); [done|]. rewrite assoc_set_lookup.
  by destruct (String.eqb_spec k k').
Qed.

Lemma set_own_lookup k v l : forall out, NoDup (map fst l) -> k <> "__proto__"%string -> assoc k l = Some v ->
  assoc k (fold_left set_own l out) = Some v.
Proof.
  induction l as [|[k' v'] l IH]; intros out Hnd Hp Hk; [done|]. cbn in *. apply NoDup_cons in Hnd as [Hn Hnd].
  destruct (String.eqb_spec k k') as [->|Hne]; [|by apply IH]. injection Hk as ->.
  rewrite (set_own_other _ _ _ Hn). unfold set_own. cbn. apply String.eqb_neq in Hp. rewrite Hp, assoc_set_lookup.
  by rewrite String.eqb_refl.
Qed.

Lemma carried_lookup k (v : jsval) l : NoDup (map fst l) -> carried k = true -> assoc k l = Some v ->
  assoc k (List.filter (fun kv => carried kv.1) l) = Some v.
Proof. intros Hnd Hc Hk. by apply assoc_filter_keep. Qed.

Lemma not_carried k (l : list (string * jsval)) : carried k = false -> k ∉ map fst (List.filter (fun kv => carried kv.1) l).
Proof. intros Hc (x & -> & Hx%list_elem_of_In)%list_elem_of_fmap. apply filter_In in Hx as [_ Hx]. congruence. Qed.

Lemma first_lookup n d i o f k :
  assoc k (first_members n d i o f) =
  if String.eqb k "name" then Some (JStr n)
  else if String.eqb k "description" then if is_nullish d then None else Some d
  else if String.eqb k "input" then if is_nullish i then None else Some (JObj [("schema"%string, i)])
  else if String.eqb k "output" then if is_nullish o then None else Some (JObj [("schema"%string, o)])
  else if String.eqb k "fault" then if is_nullish f then None else Some (json_copy f) else None.
Proof.
  unfold first_members. rewrite !assoc_app. cbn [assoc].
  destruct (String.eqb_spec k "name") as [->|?]; [done|].
  destruct (String.eqb_spec k "description") as [->|?]; [by destruct (is_nullish d), (is_nullish i), (is_nullish o), (is_nullish f)|].
  destruct (String.eqb_spec k "input") as [->|?]; [by destruct (is_nullish d), (is_nullish i), (is_nullish o), (is_nullish f)|].
  destruct (String.eqb_spec k "output") as [->|?]; [by destruct (is_nullish d), (is_nullish i), (is_nullish o), (is_nullish f)|].
  destruct (is_nullish d), (is_nullish i), (is_nullish o), (is_nullish f); cbn [assoc];
    repeat match goal with H : k <> ?x |- _ => rewrite (proj2 (String.eqb_neq k x) H); clear H end; by destruct (String.eqb k "fault").
Qed.

Lemma migrateAction_converted n action members table w a :
  action = JObj members -> json_value action -> migrateAction n action table w = Ok a -> action_converted table (n, action) a.
Proof.
  intros -> Hj H. destruct (json_object_parts _ Hj) as [Hnd Hall].
  assert (Hdef : forall k, jget k (JObj members) = JUndef -> assoc k members = None).
  { intros k Hk. cbn in Hk. destruct (assoc k members) as [v|] eqn:E; [|done]. subst v.
    by apply assoc_elem, Hall, json_defined in E. }
  unfold migrateAction, get_of in H. cbn [is_nullish rbind] in H. fold (arguments_of (JObj members)) in H.
  destruct (schemaPointerFor _ (jget "input" _) _) as [i|] eqn:Ei; [|done]. cbn [rbind] in H.
  destruct (schemaPointerFor _ (jget "output" _) _) as [o|] eqn:Eo; [|done]. cbn [rbind] in H.
  apply (f_equal (fun r => match r with Ok x => x | Throw _ => JUndef end)) in H. subst a.
  apply schemaPointer_points in Ei, Eo.
  remember (jget "description" (JObj members)) as d eqn:Ed. remember (jget "fault" (JObj members)) as f eqn:Ef.
  remember (fold_left set_own _ (first_members n d i o f)) as out eqn:Eout.
  assert (Hfirst : forall k, carried k = false -> jget k (JObj out) = default JUndef (assoc k (first_members n d i o f))).
  { intros k Hk. cbn [jget]. rewrite Eout, (set_own_other k) by by apply not_carried. by destruct (assoc k _). }
  split; cbn [fst snd].
  - by rewrite (Hfirst "name"%string), first_lookup.
  - intros k Hc Hp Hk. cbn [jget] in *. destruct (assoc k members) as [v|] eqn:E; [|done].
    by rewrite Eout, (set_own_lookup k v _ _ (map_NoDup_filter _ _ _ Hnd) Hp (carried_lookup k v _ Hnd Hc E)).
  - intros k Hk. apply list_elem_of_In in Hk as [<-|[<-|[]]]; rewrite Hfirst, first_lookup by done; cbn [String.eqb Ascii.eqb Bool.eqb].
    + rewrite <- Ed. by destruct (is_nullish d).
    + rewrite <- Ef. destruct (is_nullish f) eqn:En; [done|]. cbn [default]. rewrite Ef.
      apply json_copy_id, json_member; [done|]. by intros Hu; rewrite Ef, Hu in En.
  - intros side Hs Hu. apply Hdef in Hu. cbn [jget]. rewrite Eout, set_own_other, first_lookup.
    + apply list_elem_of_In in Hs as [<-|[<-|[]]]; cbn [String.eqb Ascii.eqb Bool.eqb].
      * by destruct (is_nullish i).
      * by destruct (is_nullish o).
    + intros (x & -> & Hx%list_elem_of_In)%list_elem_of_fmap. apply filter_In in Hx as [Hx _].
      apply list_elem_of_In in Hx. destruct x as [k v]. cbn in *. by rewrite (assoc_distinct k v members Hnd Hx) in Hu.
  - intros k Hk. rewrite Hfirst, first_lookup;
      repeat (apply list_elem_of_In in Hk; destruct Hk as [<-|Hk]; [done|apply list_elem_of_In in Hk]); by apply not_elem_of_nil in Hk.
Qed.

Lemma convertible_ok n members table w :
  is_ok (migrateAction n (JObj members) table w) = true <-> convertible table (JObj members).
Proof.
  unfold migrateAction, get_of. cbn [is_nullish rbind]. fold (arguments_of (JObj members)). split.
  - destruct (schemaPointerFor _ (jget "input" _) _) as [i|] eqn:Ei; [|done]. cbn [rbind].
    destruct (schemaPointerFor _ (jget "output" _) _) as [o|] eqn:Eo; [|done]. intros _ side Hs.
    apply schemaPointer_points in Ei, Eo. apply list_elem_of_In in Hs as [<-|[<-|[]]]; eauto.
  - intros Hc. destruct (Hc "input"%string) as [i Hi]; [by left|]. destruct (Hc "output"%string) as [o Ho]; [by right; left|].
    apply points_pointer with (w := w +:+ "/input") in Hi. apply points_pointer with (w := w +:+ "/output") in Ho.
    destruct (schemaPointerFor _ _ (w +:+ "/input")); [|done]. cbn [rbind]. by destruct (schemaPointerFor _ _ (w +:+ "/output")).
Qed.

Lemma migrate_actions_converted table w actions :
  Forall (fun a => exists members, a.2 = JObj members) actions -> Forall (fun a => json_value a.2) actions ->
  (is_ok (migrate_actions actions table w) = true <-> Forall (fun a => convertible table a.2) actions) /\
  (forall out, migrate_actions actions table w = Ok out -> Forall2 (action_converted table) actions out).
Proof.
  induction actions as [|[n action] actions IH]; intros Hs Hj; cbn [migrate_actions].
  { split; [split; [constructor|done]|]. intros out [= <-]. constructor. }
  apply Forall_cons in Hs as [[members Hm] Hs]. apply Forall_cons in Hj as [Ha Hj]. cbn in Hm, Ha. subst action.
  destruct (IH Hs Hj) as [IHok IHout]. pose proof (convertible_ok n members table (w +:+ "/" +:+ n)) as Hok. rewrite Forall_cons. cbn [snd].
  destruct (migrateAction _ _ _ _) as [a|] eqn:Ea; cbn [rbind is_ok] in *.
  - destruct (migrate_actions actions _ _) as [rest|] eqn:Er; cbn [rbind is_ok] in *; split.
    + split; [|done]. intros _. split; [by apply Hok|by apply IHok].
    + intros out [= <-]. constructor; [by eapply migrateAction_converted|by apply IHout].
    + split; [done|]. intros [_ Hf]. by apply IHok in Hf.
    + done.
  - split; [|done]. split; [done|]. intros [Hc _]. by apply Hok in Hc.
Qed.

Lemma jget_without k k' v : jget k (without k' v) = if String.eqb k k' then JUndef else jget k v.
Proof.
  destruct v as [| | | | | | |kvs]; cbn [without jget]; try by destruct (String.eqb k k').
  induction kvs as [|[a b] kvs IH]; [by destruct (String.eqb k k')|]. cbn [List.filter assoc fst].
  destruct (String.eqb_spec k' a) as [<-|Ha]; cbn [negb assoc].
  - rewrite IH. by destruct (String.eqb k k').
  - destruct (String.eqb_spec k a) as [->|]; [|done]. apply String.eqb_neq in Ha. by rewrite String.eqb_sym, Ha.
Qed.

(** A service, converted: under its own id, with the actions of its list in
    their order, and nothing else changed. *)
Definition service_converted (s s' : string * jsval) : Prop :=
  s'.1 = s.1 /\ jget "serviceStateTable" s'.2 = JUndef /\
  (forall k, k ∉ ["actionList"; "serviceStateTable"]%string -> jget k s'.2 = jget k s.2) /\
  exists kvs actions actions', s'.2 = JObj kvs /\ jget "actionList" s.2 = JObj actions /\ jget "actionList" s'.2 = JArr actions' /\
    Forall2 (action_converted (jget "serviceStateTable" s.2)) actions actions' /\ NoDup (map fst actions).

Definition service_convertible (s : string * jsval) : Prop :=
  forall actions, jget "actionList" s.2 = JObj actions -> Forall (fun a => convertible (jget "serviceStateTable" s.2) a.2) actions.

Lemma migrate_service_converted prefix id service :
  old_shape (id, service) -> json_value service ->
  (is_ok (migrate_service prefix id service) = true <-> service_convertible (id, service)) /\
  (forall out, migrate_service prefix id service = Ok out -> service_converted (id, service) (id, out)).
Proof.
  intros (kvs & actions & Hk & Hl & Hs) Hj. cbn [snd] in Hk, Hl. subst service. unfold migrate_service, get_of. cbn [is_nullish rbind]. rewrite Hl.
  cbn [is_array for_in members].
  assert (Hal : json_value (JObj actions)) by (rewrite <- Hl; apply json_member; [done|by rewrite Hl]).
  apply json_object_parts in Hal as [Hnd Hal].
  assert (Hja : Forall (fun a => json_value a.2) actions) by (apply Forall_forall; intros [k v] Hk; by eapply Hal).
  destruct (migrate_actions_converted (jget "serviceStateTable" (JObj kvs)) (prefix +:+ id) actions Hs Hja) as [Hok Hout].
  unfold service_convertible. cbn [snd]. rewrite Hl.
  destruct (migrate_actions actions _ _) as [out|] eqn:Eo; cbn [rbind is_ok] in *.
  - split; [split; [|done]|].
    + intros _ l [= <-]. by apply Hok.
    + intros o Ho. apply (f_equal (fun r => match r with Ok x => x | Throw _ => JUndef end)) in Ho. subst o.
      split; [done|]. cbn [snd]. split; [by rewrite jget_without|]. split.
      * intros k Hk. rewrite jget_without, jget_with.
        destruct (String.eqb_spec k "serviceStateTable") as [->|]; [by destruct Hk; right; left|].
        destruct (String.eqb_spec k "actionList") as [->|]; [by destruct Hk; left|done].
      * eexists _, actions, out. split; [done|]. split; [done|]. split; [by rewrite jget_without, jget_with|]. by auto.
  - split; [|done]. split; [done|]. intros Hc. by apply Hok, Hc.
Qed.

Lemma migrate_services_converted prefix services :
  Forall old_shape services -> Forall (fun s => json_value s.2) services ->
  (is_ok (migrate_services prefix services) = true <-> Forall service_convertible services) /\
  (forall out, migrate_services prefix services = Ok out -> Forall2 service_converted services out).
Proof.
  induction services as [|[id service] services IH]; intros Hs Hj; cbn [migrate_services].
  { split; [split; [constructor|done]|]. intros out [= <-]. constructor. }
  apply Forall_cons in Hs as [H Hs]. apply Forall_cons in Hj as [Ha Hj]. destruct (IH Hs Hj) as [IHok IHout].
  destruct (migrate_service_converted prefix id service H Ha) as [Hok Hout]. rewrite Forall_cons.
  destruct (migrate_service _ _ _) as [a|] eqn:Ea; cbn [rbind is_ok] in *.
  - destruct (migrate_services _ services) as [rest|] eqn:Er; cbn [rbind is_ok] in *; split.
    + split; [|done]. intros _. split; [by apply Hok|by apply IHok].
    + intros out [= <-]. constructor; [by apply Hout|by apply IHout].
    + split; [done|]. intros [_ Hf]. by apply IHok in Hf.
    + done.
  - split; [|done]. split; [done|]. intros [Hc _]. by apply Hok in Hc.
Qed.

Lemma converted_distinct table actions out : Forall2 (action_converted table) actions out ->
  forall seen, NoDup (map fst actions) -> (forall n, n ∈ map fst actions -> n ∉ seen) -> duplicate_name out seen = Ok None.
Proof.
  induction 1 as [|[n action] a actions out [Hname _ _ _ _] _ IH]; intros seen Hnd Hseen; [done|]. cbn in Hname, Hnd, Hseen.
  apply NoDup_cons in Hnd as [Hn Hnd]. cbn [duplicate_name]. unfold get_of.
  destruct (is_nullish a) eqn:Ea; [by destruct a|]. cbn [rbind]. rewrite Hname. cbn [js_text].
  unfold includes. rewrite bool_decide_eq_false_2 by (apply Hseen; set_solver).
  apply IH; [done|]. intros m Hm. destruct (String.eqb n "__proto__"); [apply Hseen; set_solver|].
  rewrite not_elem_of_cons. split; [by intros ->|apply Hseen; set_solver].
Qed.

Lemma converted_service_new s s' : service_converted s s' ->
  old_service s'.2 = Ok false /\ exists actions, actions_of s'.2 = Ok actions /\ duplicate_name actions [] = Ok None.
Proof.
  intros (_ & Ht & _ & kvs & actions & actions' & Hs & _ & Hl & Hf & Hnd). split.
  - unfold old_service, get_of. rewrite Hs. cbn [is_nullish rbind]. rewrite <- Hs, Ht, Hl. done.
  - exists actions'. split; [|eapply converted_distinct; [done|done|]; intros n _; apply not_elem_of_nil].
    unfold actions_of, get_of. rewrite Hs. cbn [is_nullish rbind]. by rewrite <- Hs, Hl.
Qed.

Lemma converted_services_new services services' : Forall2 service_converted services services' ->
  any_old services' = Ok false /\ legacy_services services' = Ok None /\ duplicates services' = Ok None.
Proof.
  induction 1 as [|s [id' s'] services services' Hs _ (IH1 & IH2 & IH3)]; [done|].
  pose proof (converted_service_new _ _ Hs) as (Ho & actions & Ha & Hd). cbn [snd] in *. cbn [any_old legacy_services duplicates].
  rewrite Ho, Ha. cbn [rbind]. rewrite Hd. cbn [rbind]. split; [done|]. split; [|done].
  unfold old_service in Ho. destruct (get_of _ s') as [t|]; [|done]. cbn [rbind] in *. injection Ho as [Ht Hl]%orb_false_iff.
  rewrite Ht. apply negb_false_iff in Hl. by rewrite Hl, andb_false_r.
Qed.

Lemma jget_object k v x : jget k v = x -> x <> JUndef -> exists kvs, v = JObj kvs.
Proof. intros <- Hx. destruct v; cbn in Hx; try done. eauto. Qed.

Lemma migrate_out spec services label : old_spec spec services ->
  isOldFormat spec = Ok true /\
  exists kvs device, jget "device" (JObj kvs) = JObj device /\
    (forall k, jget k (JObj kvs) = if includes k ["configId"; "specVersion"]%string then JUndef else jget k spec) /\
    migrate spec label =
      let! services' := migrate_services (match label with Some l => if String.eqb l "" then "" else l +:+ " " | None => "" end)%string services in
      Ok (with_member "device" (with_member "serviceList" (JObj services') (JObj device)) (JObj kvs)).
Proof.
  intros (Hj & Hl & Hne & Hold). unfold serviceList_of in Hl.
  destruct (jget_object _ _ _ Hl) as [device Hd]; [done|]. destruct (jget_object _ _ _ Hd) as [members ->]; [done|].
  assert (Hf : isOldFormat (JObj members) = Ok true).
  { unfold isOldFormat, serviceList_of. rewrite Hd, <- Hd, Hl. cbn [is_nullish orb for_in Service.members]. rewrite Hd. cbn [is_nullish orb].
    destruct services as [|[id s] services]; [done|]. apply Forall_cons in Hold as [(kvs & actions & Hs & Ha & _) _]. cbn in Hs, Ha. subst s.
    cbn [any_old]. unfold old_service, get_of. cbn [is_nullish rbind]. rewrite Ha. cbn. by rewrite orb_true_r. }
  split; [done|]. destruct (without "specVersion" (without "configId" (JObj members))) as [| | | | | | |kvs] eqn:Ek; try done.
  assert (Hk : forall k, jget k (JObj kvs) = if includes k ["configId"; "specVersion"]%string then JUndef else jget k (JObj members)).
  { intros k. rewrite <- Ek, !jget_without. unfold includes.
    destruct (String.eqb_spec k "specVersion") as [->|]; [done|]. destruct (String.eqb_spec k "configId") as [->|]; [done|].
    rewrite bool_decide_eq_false_2; [done|]. set_solver. }
  exists kvs, device. split; [by rewrite Hk, Hd|]. split; [done|].
  unfold migrate. rewrite Hf. cbn [rbind negb]. rewrite (json_copy_id _ Hj), Ek. unfold serviceList_of, migrate_list.
  rewrite (Hk "device"%string). cbn [includes]. change (includes "device"%string ["configId"; "specVersion"]%string) with false. cbv iota.
  rewrite Hl. cbn [for_in Service.members]. destruct (migrate_services _ services); [|done]. cbn [rbind]. by rewrite Hd.
Qed.

(** C33: An old spec converts exactly when each argument of its actions names a
    state variable with a schema pointer. What comes out is in the new format,
    and so is left alone by a second conversion; the validator finds nothing of
    the old format in it and no action twice, so that only the meta-schema is
    left to decide. The same services are there in the same order, with their
    actions in the order the members had, so the tools a module publishes keep
    theirs; an action has its name, its pointers in place of its arguments, its
    description and its fault, every member that is not retired, and none that
    is. *)
Theorem spec_converted spec services label :
  old_spec spec services ->
  (is_ok (migrate spec label) = true <-> Forall service_convertible services) /\
  forall out, migrate spec label = Ok out ->
    isOldFormat out = Ok false /\ (forall label', migrate out label' = Ok out) /\
    (forall deviceSchemaValidator, validateDeviceSpec deviceSchemaValidator out = Ok (meta_schema_error deviceSchemaValidator out)) /\
    (exists services', serviceList_of out = JObj services' /\ Forall2 service_converted services services') /\
    (forall k, k <> "device"%string -> jget k out = if includes k ["configId"; "specVersion"]%string then JUndef else jget k spec) /\
    (forall k, k <> "serviceList"%string -> jget k (jget "device" out) = jget k (jget "device" spec)).
Proof.
  intros Hold. destruct (migrate_out spec services label Hold) as (_ & kvs & device & Hd & Hk & ->).
  destruct Hold as (Hj & Hl & Hne & Hs). unfold serviceList_of in Hl.
  assert (Hds : jget "device" spec = JObj device) by (by rewrite <- Hd, Hk).
  assert (Hjs : Forall (fun s => json_value s.2) services).
  { assert (Hjl : json_value (JObj services)).
    { rewrite <- Hl. apply json_member; [|by rewrite Hl]. apply json_member; [done|]. by rewrite Hds. }
    apply json_object_parts in Hjl as [_ Hjl]. apply Forall_forall. intros [k v] Hin. by eapply Hjl. }
  destruct (migrate_services_converted (match label with Some l => if String.eqb l "" then "" else l +:+ " " | None => "" end)%string
              services Hs Hjs) as [Hok Hout].
  destruct (migrate_services _ services) as [services'|]; cbn [rbind is_ok] in *; [|done].
  split; [done|]. intros out Ho. apply (f_equal (fun r => match r with Ok x => x | Throw _ => JUndef end)) in Ho. subst out.
  specialize (Hout services' eq_refl). pose proof (converted_services_new _ _ Hout) as (Ha & Hg & Hu).
  set (out := with_member "device" _ (JObj kvs)).
  assert (Hod : jget "device" out = with_member "serviceList" (JObj services') (JObj device)) by (unfold out; by rewrite jget_with).
  assert (Hol : serviceList_of out = JObj services') by (unfold serviceList_of; by rewrite Hod, jget_with).
  assert (Hot : forall k, k <> "device"%string -> jget k out = if includes k ["configId"; "specVersion"]%string then JUndef else jget k spec).
  { intros k Hne'. unfold out. rewrite jget_with, <- Hk. by rewrite (proj2 (String.eqb_neq _ _) Hne'). }
  assert (Hnew : isOldFormat out = Ok false).
  { unfold isOldFormat. rewrite Hol, Hod. cbn. exact Ha. }
  split; [done|]. split; [intros label'; unfold migrate; by rewrite Hnew|]. split; [|split; [by exists services'|]; split; [done|]].
  - intros V. unfold validateDeviceSpec, detectLegacySpec, declared_services. rewrite Hol. cbn [Service.members].
    assert (E : is_nullish out || negb (is_object out) = false) by done. rewrite E, Hg. cbn [rbind].
    rewrite (Hot "specVersion"%string), (Hot "configId"%string) by done. cbn [rbind].
    change (includes "specVersion"%string ["configId"; "specVersion"]%string) with true.
    change (includes "configId"%string ["configId"; "specVersion"]%string) with true. cbn [is_nullish negb rbind].
    destruct (meta_schema_error V out); [done|]. unfold get_of. rewrite Hod. cbn [is_nullish with_member rbind]. done.
  - intros k Hne'. rewrite Hod, Hds, jget_with. by rewrite (proj2 (String.eqb_neq _ _) Hne').
Qed.

(** An echo service of one action, in the old format. *)
Definition old_action : jsval :=
  JObj [("argumentList", JObj [("input", JObj [("relatedStateVariable", JStr "A"); ("direction", JStr "in")])]);
        ("realPrice", JNum 0); ("annotations", JObj [])]%string.
Definition old_echo : string * jsval :=
  ("urn:x:serviceID:echo", JObj [("serviceStateTable", JObj [("A", JObj [("schema", JStr "/echo/input")])]);
                                 ("actionList", JObj [("say", old_action)])])%string.
Definition old_demo : jsval :=
  JObj [("configId", JNum 1); ("device", JObj [("friendlyName", JStr "echo"); ("serviceList", JObj [old_echo])])]%string.
Definition new_demo : jsval :=
  JObj [("device", JObj [("friendlyName", JStr "echo");
    ("serviceList", JObj [("urn:x:serviceID:echo",
       JObj [("actionList", JArr [JObj [("name", JStr "say"); ("input", JObj [("schema", JStr "/echo/input")]); ("annotations", JObj [])]])])])])]%string.

Ltac json := repeat (first [apply json_scalar; exact I | apply json_array | apply json_object; [apply (bool_decide_unpack _); vm_compute; exact I|]
                           | apply Forall_nil_2 | apply Forall_cons_2]; cbn [snd]).

Lemma spec_converted_witness :
  old_spec old_demo [old_echo] /\ migrate old_demo None = Ok new_demo /\
  isOldFormat new_demo = Ok false /\ validateDeviceSpec (fun _ => Ok None) new_demo = Ok None.
Proof.
  assert (Ho : old_spec old_demo [old_echo]).
  { split; [unfold old_demo, old_echo, old_action; json|]. split; [reflexivity|]. split; [discriminate|].
    apply Forall_cons_2; [|apply Forall_nil_2]. eexists _, _. split; [reflexivity|]. split; [reflexivity|].
    apply Forall_cons_2; [|apply Forall_nil_2]. eexists. reflexivity. }
  assert (Hm : migrate old_demo None = Ok new_demo) by (vm_compute; reflexivity).
  destruct (spec_converted old_demo [old_echo] None Ho) as [_ H]. destruct (H new_demo Hm) as (H1 & _ & H3 & _).
  split; [exact Ho|]. split; [exact Hm|]. split; [exact H1|]. exact (H3 (fun _ => Ok None)).
Defined.

(** A spec whose only old members are at its top is one the validator sends to
    the converter, and the converter leaves as it is. *)
Definition top_level_old : jsval := JObj [("configId", JNum 1); ("device", JObj [("serviceList", JObj [])])]%string.
Example top_level_only_unchanged :
  migrate top_level_old None = Ok top_level_old /\ detectLegacySpec top_level_old = Ok (Some "a top-level configId"%string).
Proof. vm_compute. done. Qed.

(** So is a service with an array of actions and a state table, which is said
    to be converted each time. *)
Definition half_converted : jsval :=
  JObj [("device", JObj [("serviceList", JObj [("urn:x:serviceID:s", JObj [("serviceStateTable", JObj []); ("actionList", JArr [])])])])]%string.
Example half_converted_kept :
  main (fun _ => Ok false) (fun _ => Ok ""%string) (fun _ => Ok half_converted) (fun _ _ => None) ["api.json"%string]
    = Ok ([Wrote "api.json" half_converted; Migrated "api.json"], 0%Z) /\
  isOldFormat half_converted = Ok true.
Proof. vm_compute. done. Qed.
