(* ===== verification/Facade.v ===== *)
(** * Single-thread mode's virtual paths (lib/single-thread-facade.js)

    There is no sandbox in this mode, only translation: code of a registered
    module that asks for fs, fs/promises or os gets an object of its own module,
    which maps /app, /data and /tmp to the host and results back; its CommonJS
    files are given virtual names by a prefix put into their source.

    A source text is a list of UTF-16 code units, as the scanner looks at units
    that other parts never see; names are strings as everywhere else. *)
From Stdlib Require Import ZArith Lia Ascii String.
From stdpp Require Import prelude strings.
From S2P Require Import Prelude Paths Namespace Json ModuleLoader.

Set Default Proof Using "Type".

Local Notation units := (list Z).

(** ** The registered modules *)

Record info := mkInfo { if_name : string; if_data : string; if_tmp : string }.
(** [modules], and the keys of [facades]. *)
Record facade := mkFacade { fc_modules : list (string * info); fc_made : list (string * string) }.

Definition register (hostRoot : string) (i : info) (f : facade) : facade := mkFacade (assoc_set hostRoot i (fc_modules f)) (fc_made f).

Definition longer (best : option string) (root : string) : bool :=
  match best with None => true | Some b => (String.length b <? String.length root)%nat end.
Definition rootOf (modules : list (string * info)) (hostFile : string) : option string :=
  fold_left (fun best root => if under hostFile root && longer best root then Some root else best) (map fst modules) None.

Section facade.
(** Node's [url]. *)
Context (fileURLToPath : string -> result string).

(** *** Paths *)

Section paths.
Context (root : string) (m : info).

Definition host_of (s : string) : string :=
  let s := if is_absolute s then s else resolve "/" ["/app"; s]%string in
  if under s "/app" then root +:+ sdrop 4 s
  else if under s "/data" then if_data m +:+ sdrop 5 s
  else if under s "/tmp" then if_tmp m +:+ sdrop 4 s
  else s.

Definition text_of (v : pathval) : result string :=
  match v with PStr s | PBuffer s => Ok s | PUrl href => fileURLToPath href | POther => Ok "[object Object]"%string end.

Definition toHost (v : pathval) : result string := let! s := text_of v in Ok (host_of s).

Definition toVirtual (h : string) : string :=
  if under h (if_data m) then "/data" +:+ sdrop (String.length (if_data m)) h
  else if under h (if_tmp m) then "/tmp" +:+ sdrop (String.length (if_tmp m)) h
  else if under h root then "/app" +:+ sdrop (String.length root) h
  else h.

(** *** A call of a replaced function *)

Definition TWO_PATHS : list string := ["rename"; "renameSync"; "copyFile"; "copyFileSync"; "link"; "linkSync"; "cp"; "cpSync"].
Definition RESULT_PATH : list string := ["realpath"; "realpathSync"; "mkdtemp"; "mkdtempSync"; "mkdir"; "mkdirSync"].

Inductive farg := AnArg (v : jsval) | APath (v : pathval) | AFunction (name : string).
Definition pathLike (a : farg) : bool := match a with APath POther => false | APath _ => true | _ => false end.

Definition to_host_arg (a : farg) : result farg :=
  match a with APath v => let! h := toHost v in Ok (APath (PStr h)) | _ => Ok a end.

(** [String(v)] of a path; a URL prints as itself. *)
Definition printed (v : pathval) : string := match v with PStr s | PBuffer s | PUrl s => s | POther => "[object Object]" end.

Definition symlink_target (a : farg) : result farg :=
  match a with
  | APath v => if pathLike a && is_absolute (printed v) then Ok (APath (PStr (host_of (printed v)))) else Ok a
  | _ => Ok a
  end.

Definition path_arg (a : farg) : result farg := if pathLike a then to_host_arg a else Ok a.

Fixpoint first_paths (n : nat) (args : list farg) : result (list farg) :=
  match n, args with
  | S n, a :: args => let! a := path_arg a in let! rest := first_paths n args in Ok (a :: rest)
  | _, _ => Ok args
  end.

Definition host_args (key : string) (args : list farg) : result (list farg) :=
  if starts_with "symlink" key then
    match args with
    | [] => Ok []
    | target :: args => let! target := symlink_target target in let! rest := first_paths 1 args in Ok (target :: rest)
    end
  else first_paths (if includes key TWO_PATHS then 2 else 1) args.

(** A value of [fs]: a text, a list with the entries of a directory in it, or
    another; an error. *)
Inductive item := Dirent (name parentPath : string) | Item (v : jsval).
Inductive fvalue := Text (s : string) | Items (l : list item) | Value (v : jsval).
Inductive ferror := ErrorObject (e : jserr) | ErrorValue (v : jsval).

Definition translateError (e : ferror) : ferror :=
  match e with
  | ErrorObject e => ErrorObject (mkErr (e_message e) (e_code e) (e_errno e) (e_syscall e) (option_map toVirtual (e_path e)) (option_map toVirtual (e_dest e)))
  | ErrorValue v => ErrorValue v
  end.

Definition translateResult (key : string) (r : fvalue) : fvalue :=
  match r with
  | Text s => if includes key RESULT_PATH then Text (toVirtual s) else Text s
  | Items l => Items (map (fun d => match d with Dirent name p => Dirent name (toVirtual p) | Item v => Item v end) l)
  | Value v => Value v
  end.

(** What the real function does with a call, and what the module sees of it: a
    value, an exception, a promise settled, or its callback called. *)
Inductive outcome := Returned (r : fvalue) | Thrown (e : ferror) | Resolved (r : fvalue) | Rejected (e : ferror)
  | CalledBack (e : ferror) (r : fvalue).

(** The last argument is wrapped where it is a function and the call is not
    synchronous. *)
Definition wraps_callback (key : string) (args : list farg) : bool :=
  match last args with Some (AFunction _) => negb (ends_with "Sync" key) | _ => false end.

Definition delivered (key : string) (wrapped : bool) (o : outcome) : outcome :=
  match o with
  | Returned r => Returned (translateResult key r)
  | Thrown e => Thrown (translateError e)
  | Resolved r => Resolved (translateResult key r)
  | Rejected e => Rejected (translateError e)
  | CalledBack e r => if wrapped then CalledBack (translateError e) (translateResult key r) else CalledBack e r
  end.

(** A replaced function: what it calls the real one with, and how what that
    does reaches the module; or what its own arguments throw. *)
Definition wrapFn (key : string) (args : list farg) : result (list farg * (outcome -> outcome)) :=
  let! hosted := host_args key args in Ok (hosted, delivered key (wraps_callback key args)).
End paths.

(** *** A module's own fs and os *)

Definition KINDS : list (string * string) :=
  [("fs", "fs"); ("node:fs", "fs"); ("fs/promises", "fs/promises"); ("node:fs/promises", "fs/promises"); ("os", "os"); ("node:os", "os")].

(** [KINDS[specifier]]: a plain object, which has members of its own kind too. *)
Definition inherited_text (name : string) : string :=
  if String.eqb name "__proto__" then "[object Object]"
  else if String.eqb name "constructor" then "function Object() { [native code] }"
  else "function " +:+ name +:+ "() { [native code] }".
Definition kind_of (specifier : string) : option string :=
  match assoc specifier KINDS with
  | Some kind => Some kind
  | None => if includes specifier object_members then Some (inherited_text specifier) else None
  end.

(** A member of the real object: its name, whether it is a function, and
    whether that has a [native] of its own. *)
Record member := mkMember { mb_key : string; mb_function : bool; mb_native : bool }.
(** A member of a facade: the real one, one that is wrapped (with its [native]
    wrapped too), the os's own /tmp, or the facade of fs/promises. *)
Inductive made := Real (key : string) | Wrapped (key : string) (native : bool) | TmpDir | Promises.

Definition upper_first (s : string) : bool :=
  match s with String c _ => let n := nat_of_ascii c in ((65 <=? n) && (n <=? 90))%nat | EmptyString => false end.

Definition made_of (b : member) : string * made :=
  (mb_key b, if mb_function b && negb (upper_first (mb_key b))
             then Wrapped (mb_key b) (includes (mb_key b) ["realpath"; "realpathSync"]%string && mb_native b)
             else Real (mb_key b)).

Definition facade_members (kind : string) (real : list member) : list (string * made) :=
  if String.eqb kind "os" then assoc_set "tmpdir" TmpDir (map (fun b => (mb_key b, Real (mb_key b))) real)
  else let f := map made_of real in if String.eqb kind "fs" then assoc_set "promises" Promises f else f.

(** [forModule]: made once for a root and a kind. *)
Definition forModule (root kind : string) (f : facade) : facade :=
  if includes (root, kind) (fc_made f) then f
  else mkFacade (fc_modules f) ((root, kind) :: (if String.eqb kind "fs" && negb (includes (root, "fs/promises"%string) (fc_made f))
                                                 then [(root, "fs/promises"%string)] else []) ++ fc_made f).

Definition RESERVED : list string :=
  ["break"; "case"; "catch"; "class"; "const"; "continue"; "debugger"; "default"; "delete"; "do"; "else"; "enum"; "export"; "extends";
   "false"; "finally"; "for"; "function"; "if"; "import"; "in"; "instanceof"; "new"; "null"; "return"; "super"; "switch"; "this";
   "throw"; "true"; "try"; "typeof"; "var"; "void"; "while"; "with"; "yield"; "let"; "static"; "implements"; "interface"; "package";
   "private"; "protected"; "public"; "await"].

Definition letter (c : ascii) : bool := let n := nat_of_ascii c in ((65 <=? n) && (n <=? 90) || (97 <=? n) && (n <=? 122))%nat.
Definition word_char (c : ascii) : bool :=
  let n := nat_of_ascii c in letter c || ((48 <=? n) && (n <=? 57) || (n =? 95))%nat.
Definition dollar (c : ascii) : bool := (nat_of_ascii c =? 36)%nat.

Definition exportable (k : string) : bool :=
  match k with
  | EmptyString => false
  | String c k' => (letter c || (nat_of_ascii c =? 95)%nat || dollar c) && forallb (fun d => word_char d || dollar d) (list_ascii_of_string k')
  end && negb (includes k RESERVED).
End facade.

(** ** Which files are CommonJS, and which root a caller is of *)

Section files.
Context (fileURLToPath : string -> result string) (readFileSync : string -> option string) (JSON_parse : string -> option jsval).

(** From a directory up to the module's root: the nearest package.json decides,
    and so does one that does not parse. *)
Fixpoint nearest_type (fuel : nat) (root dir : string) : bool :=
  match fuel with
  | O => true
  | S fuel =>
      if negb (under dir root) then true
      else match readFileSync (path_join [dir; "package.json"%string]) with
           | Some raw => match JSON_parse raw with
                         | None | Some JNull => true
                         | Some pkg => negb (strict_eq (jget "type" pkg) (JStr "module"))
                         end
           | None => if String.eqb dir root then true else nearest_type fuel root (dirname dir)
           end
  end.

Definition isCommonJs (root hostFile : string) : bool :=
  let ext := extname hostFile in
  if String.eqb ext ".cjs" then true
  else if negb (String.eqb ext ".js") then false
  else nearest_type (S (String.length hostFile)) root (dirname hostFile).

Definition frame_file (f : string) : result string := if starts_with "file:" f then fileURLToPath f else Ok f.

(** [hostFromCaller]: the frames below the caller, a frame with no file among
    them as [None]. *)
Fixpoint caller_file (modules : list (string * info)) (frames : list (option string)) : result (option string) :=
  match frames with
  | [] => Ok None
  | None :: frames => caller_file modules frames
  | Some f :: frames =>
      let! file := frame_file f in
      if bool_decide (is_Some (rootOf modules file)) then Ok (Some file) else caller_file modules frames
  end.

Definition hostFromCaller (modules : list (string * info)) (p : string) (frames : list (option string)) : result string :=
  let! file := caller_file modules frames in
  match file with
  | None => Ok p
  | Some file => match rootOf modules file with
                 | Some root => match assoc root modules with Some m => Ok (host_of root m p) | None => Ok p end
                 | None => Ok p
                 end
  end.

(** ** The hooks *)

(** [encodeURIComponent] and its inverse, on the bytes of the text. *)
Definition unreserved (c : ascii) : bool :=
  let n := nat_of_ascii c in
  letter c || ((48 <=? n) && (n <=? 57))%nat || existsb (Nat.eqb n) [45; 95; 46; 33; 126; 42; 39; 40; 41]%nat.
Definition upper_hex (n : nat) : ascii := ascii_of_nat (if (n <? 10)%nat then 48 + n else 55 + n).
Definition percent : ascii := ascii_of_nat 37.

Fixpoint encodeURIComponent (s : string) : string :=
  match s with
  | EmptyString => EmptyString
  | String c s =>
      if unreserved c then String c (encodeURIComponent s)
      else String percent (String (upper_hex (nat_of_ascii c / 16)) (String (upper_hex (nat_of_ascii c mod 16)) (encodeURIComponent s)))
  end.

Definition hex_value (c : ascii) : option nat :=
  let n := nat_of_ascii c in
  if ((48 <=? n) && (n <=? 57))%nat then Some (n - 48)%nat
  else if ((65 <=? n) && (n <=? 70))%nat then Some (n - 55)%nat
  else if ((97 <=? n) && (n <=? 102))%nat then Some (n - 87)%nat else None.

Fixpoint decodeURIComponent (s : string) : result string :=
  match s with
  | EmptyString => Ok EmptyString
  | String c s' =>
      if Ascii.eqb c percent
      then match s' with
           | String a (String b s'') =>
               match hex_value a, hex_value b with
               | Some x, Some y => let! t := decodeURIComponent s'' in Ok (String (ascii_of_nat (16 * x + y)) t)
               | _, _ => Throw (plain_error "URI malformed")
               end
           | _ => Throw (plain_error "URI malformed")
           end
      else let! t := decodeURIComponent s' in Ok (String c t)
  end.

Definition FACADE : string := "countinghouse-facade:".

(** What the resolve hook answers: a facade's own URL, or what Node's next
    resolver gives for a specifier. *)
Inductive resolving_as := Own (url format : string) | Next (specifier : string).

(** [conditions] is a list of texts, or no array. *)
Definition imports (conditions : option (list string)) : bool :=
  match conditions with Some cs => includes "import"%string cs && negb (includes "require"%string cs) | None => false end.

Definition parent_root (modules : list (string * info)) (parentURL : jsval) : result (option string) :=
  match parentURL with
  | JStr u => if starts_with "file:" u then let! parent := fileURLToPath u in Ok (rootOf modules parent) else Ok None
  | _ => Ok None
  end.

Definition facade_url (kind root : string) (esm : bool) : string :=
  FACADE +:+ kind +:+ "?" +:+ encodeURIComponent root +:+ (if esm then "&esm" else "").

Definition facade_resolve (modules : list (string * info)) (specifier : string) (parentURL : jsval) (conditions : option (list string))
  : result resolving_as :=
  let! root := parent_root modules parentURL in
  Ok match root with
     | None => Next specifier
     | Some root =>
         match kind_of specifier with
         | Some kind => let esm := imports conditions in Own (facade_url kind root esm) (if esm then "module" else "commonjs")
         | None => if String.eqb specifier "/app" || starts_with "/app/" specifier then Next (root +:+ sdrop 4 specifier) else Next specifier
         end
     end.

(** ** The identity prefix *)

Definition code (s : string) : units := map (fun c => Z.of_nat (nat_of_ascii c)) (list_ascii_of_string s).

Definition LF : Z := 10.
Definition is_blank (c : Z) : bool := existsb (Z.eqb c) [32; 9; 13; 11; 12; 160; 65279]%Z.
Definition is_newline (c : Z) : bool := existsb (Z.eqb c) [10; 8232; 8233]%Z.
Definition is_quote (c : Z) : bool := existsb (Z.eqb c) [39; 34]%Z.
Definition CONTINUES : units := code "([.`+-*/%,?=<>&|^!".

(** From a line comment to its newline. *)
Fixpoint to_newline (s : units) : units := match s with [] => [] | c :: s' => if Z.eqb c LF then s else to_newline s' end.

(** From a block comment's text to what follows it, and whether a newline was
    in it; a comment that does not end takes the rest. *)
Fixpoint block_end (s : units) (saw : bool) : units * bool :=
  match s with
  | 42%Z :: ((47%Z :: s'') as s') => (s'', saw)
  | c :: s' => block_end s' (saw || is_newline c)
  | [] => ([], saw)
  end.

(** [skipSpaceAndComments], from what is left of the source: what is left
    after, and [sawNewline]. *)
Fixpoint skip (fuel : nat) (s : units) (saw : bool) : units * bool :=
  match fuel with
  | O => (s, saw)
  | S fuel =>
      match s with
      | [] => (s, saw)
      | c :: s' =>
          if is_blank c then skip fuel s' saw
          else if is_newline c then skip fuel s' true
          else match c, s' with
               | 47%Z, 47%Z :: _ => skip fuel (to_newline s) saw
               | 47%Z, 42%Z :: body => let '(rest, nl) := block_end body false in skip fuel rest (saw || nl)
               | _, _ => (s, saw)
               end
      end
  end.
Definition skipSpaceAndComments (s : units) : units * bool := skip (S (length s)) s false.

(** [stringEnd], after the opening quote: what follows the closing one. *)
Fixpoint stringEnd (quote : Z) (s : units) : option units :=
  match s with
  | [] => None
  | 92%Z :: s' => match s' with [] => None | _ :: s'' => stringEnd quote s'' end
  | c :: s' => if Z.eqb c quote then Some s' else if Z.eqb c LF then None else stringEnd quote s'
  end.

Definition unit_word (c : Z) : bool := ((48 <=? c) && (c <=? 57) || (65 <=? c) && (c <=? 90) || (97 <=? c) && (c <=? 122) || (c =? 95))%Z.
Fixpoint word_at (w s : units) : bool :=
  match w, s with
  | [], [] => true
  | [], c :: _ => negb (unit_word c)
  | a :: w, b :: s => Z.eqb a b && word_at w s
  | _, [] => false
  end.

(** The directive prologue: what is left of the source where the prefix goes,
    and what goes before it. *)
Fixpoint prologue_end (fuel : nat) (i : units) : units * units :=
  match fuel with
  | O => (i, [])
  | S fuel =>
      let p := fst (skipSpaceAndComments i) in
      match p with
      | [] => (p, [])
      | quote :: s =>
          if negb (is_quote quote) then (p, [])
          else match stringEnd quote s with
               | None => (p, [])
               | Some q =>
                   let '(after, sawNewline) := skipSpaceAndComments q in
                   match after with
                   | [] => (q, [59%Z])
                   | c :: after' =>
                       if (c =? 59)%Z then prologue_end fuel after'
                       else if (c =? 125)%Z then (q, [59%Z])
                       else if sawNewline && negb (existsb (Z.eqb c) CONTINUES) && negb (word_at (code "instanceof") after || word_at (code "in") after)
                       then prologue_end fuel q
                       else (p, [])
                   end
               end
      end
  end.

Definition insert_text (virtualFile : string) : string :=
  "var __filename = " +:+ json_quote virtualFile +:+ ", __dirname = " +:+ json_quote (dirname virtualFile) +:+ ";".

(** A byte-order mark, and a hashbang line; [None]: there is nothing else. *)
Definition after_hashbang (source : units) : option units :=
  let s := match source with 65279%Z :: s => s | _ => source end in
  match s with
  | 35%Z :: 33%Z :: _ => match to_newline s with [] => None | _ :: rest => Some rest end
  | _ => Some s
  end.

Definition prefixSource (source : units) (virtualFile : string) : units :=
  match after_hashbang source with
  | None => source
  | Some i => let '(rest, lead) := prologue_end (S (length i)) i in
              take (length source - length rest) source ++ lead ++ code (insert_text virtualFile) ++ rest
  end.

(** ** The load hook *)

Inductive loading_as := CommonJs (source : units) | FacadeOf (kind root : string) (esm : bool) | NextLoad.

(** The texts of a facade's own modules name [forModule(root, kind)]; the ES
    one exports its members of exportable names. *)
Definition facade_load (modules : list (string * info)) (read_units : string -> result units) (hookUrl : string) : result loading_as :=
  let own : result loading_as :=
    if starts_with FACADE hookUrl
    then match split_on "?" (sdrop (String.length FACADE) hookUrl) with
         | kind :: query :: _ =>
             let parts := split_on "&" query in
             let! root := decodeURIComponent (default EmptyString (head parts)) in
             Ok (FacadeOf kind root (bool_decide (parts !! 1%nat = Some "esm"%string)))
         | _ => Throw (plain_error "Cannot read properties of undefined")
         end
    else Ok NextLoad in
  if starts_with "file:" hookUrl then
    let! host := fileURLToPath hookUrl in
    match rootOf modules host with
    | Some root => match assoc root modules with
                   | Some m => if isCommonJs root host then let! source := read_units host in Ok (CommonJs (prefixSource source (toVirtual root m host)))
                               else own
                   | None => own
                   end
    | None => own
    end
  else own.

Definition named_exports (members : list (string * made)) : list string := List.filter exportable (map fst members).
End files.

(** ** The prefix goes after the prologue *)

(** From [s] to [r] there is only white space and comments; whether a newline
    is in it, outside line comments. A line comment goes to a line feed or the
    end, a block comment to its first closing mark or the end. *)
Inductive gap : units -> units -> bool -> Prop :=
| gap_none s : gap s s false
| gap_blank c s r nl : is_blank c = true -> gap s r nl -> gap (c :: s) r nl
| gap_newline c s r nl : is_newline c = true -> gap s r nl -> gap (c :: s) r true
| gap_line l s r nl : LF ∉ l -> (s = [] \/ exists s', s = LF :: s') -> gap s r nl -> gap (code "//" ++ l ++ s) r nl
| gap_block b s r nl1 nl2 :
    block_end (b ++ code "*/") false = ([], nl1) -> gap s r nl2 -> gap (code "/*" ++ b ++ code "*/" ++ s) r (nl1 || nl2)
| gap_open b nl : block_end b false = ([], nl) -> gap (code "/*" ++ b) [] nl.

Lemma gap_length s r nl : gap s r nl -> (length r <= length s)%nat.
Proof. induction 1; cbn [length app] in *; rewrite ?length_app in *; cbn [length code] in *; try lia. Qed.

Lemma to_newline_split s : exists l, s = l ++ to_newline s /\ LF ∉ l /\ (to_newline s = [] \/ exists r, to_newline s = LF :: r).
Proof.
  induction s as [|c s (l & Hs & Hl & Hr)]; [exists []; split; [done|]; split; [apply not_elem_of_nil|by left]|]. cbn [to_newline].
  destruct (Z.eqb_spec c LF) as [->|Hc].
  - exists []. split; [done|]. split; [apply not_elem_of_nil|]. right. by exists s.
  - exists (c :: l). split; [cbn; by rewrite <- Hs|]. split; [|done]. intros [?|?]%elem_of_cons; congruence.
Qed.

Lemma block_end_step c s saw : block_end (c :: s) saw = match c, s with 42%Z, 47%Z :: r => (r, saw) | _, _ => block_end s (saw || is_newline c) end.
Proof. reflexivity. Qed.

Lemma block_split n : forall s saw, (length s <= n)%nat ->
  (exists b, s = b ++ code "*/" ++ fst (block_end s saw) /\ block_end (b ++ code "*/") saw = ([], snd (block_end s saw))) \/
  fst (block_end s saw) = [].
Proof.
  induction n as [|n IH]; intros s saw Hn; [destruct s; [by right|cbn in Hn; lia]|].
  destruct s as [|c s]; [by right|]. cbn [length] in Hn.
  assert (Hgo : block_end (c :: s) saw = block_end s (saw || is_newline c) ->
    (forall t, t <> [] -> head t = head s \/ s = [] -> block_end (c :: t) saw = block_end t (saw || is_newline c)) ->
    (exists b, c :: s = b ++ code "*/" ++ fst (block_end (c :: s) saw) /\ block_end (b ++ code "*/") saw = ([], snd (block_end (c :: s) saw))) \/ fst (block_end (c :: s) saw) = []).
  { intros -> Ht. destruct (IH s (saw || is_newline c)) as [(b & Hs & Hb)|Hb]; [lia| |by right]. left. exists (c :: b).
    split; [change ((c :: b) ++ ?x) with (c :: (b ++ x)); by f_equal|]. cbn [app]. rewrite Ht; [done|by destruct b|]. left. rewrite Hs. by destruct b. }
  assert (Hskip : forall t, (c <> 42%Z \/ exists d r, t = d :: r /\ d <> 47%Z) -> block_end (c :: t) saw = block_end t (saw || is_newline c)).
  { intros t Ht. rewrite block_end_step. destruct c as [|p|p]; try done. destruct Ht as [Hc|(d & r & -> & Hd)].
    - repeat (destruct p as [p|p|]; try done).
    - destruct d as [|q|q]; repeat (destruct p as [p|p|]; try done); repeat (destruct q as [q|q|]; try done). }
  destruct (Z.eqb_spec c 42) as [->|Hc].
  - destruct s as [|d s]; [by right|]. destruct (Z.eqb_spec d 47) as [->|Hd]; [left; exists []; by split|].
    apply Hgo; [apply Hskip; eauto|]. intros t Hne [Ht|Ht]; [|done]. destruct t as [|e t]; [done|]. injection Ht as ->. apply Hskip. eauto.
  - apply Hgo; [apply Hskip; by left|]. intros t _ _. apply Hskip. by left.
Qed.

(** Where code, a string or the end is. *)
Definition comment_start (c : Z) (s : units) : bool := match c, s with 47%Z, 47%Z :: _ | 47%Z, 42%Z :: _ => true | _, _ => false end.
Definition code_start (s : units) : Prop :=
  match s with [] => True | c :: s => is_blank c = false /\ is_newline c = false /\ comment_start c s = false end.

Lemma skip_step fuel c s saw :
  skip (S fuel) (c :: s) saw =
  if is_blank c then skip fuel s saw
  else if is_newline c then skip fuel s true
  else if negb (comment_start c s) then (c :: s, saw)
  else match s with
       | 47%Z :: _ => skip fuel (to_newline (c :: s)) saw
       | _ :: body => skip fuel (fst (block_end body false)) (saw || snd (block_end body false))
       | [] => (c :: s, saw)
       end.
Proof.
  cbn [skip]. destruct (is_blank c); [done|]. destruct (is_newline c); [done|]. unfold comment_start.
  destruct s as [|d s]; [by destruct c as [|p|p]; repeat (destruct p as [p|p|]; try done)|].
  destruct (Z.eqb_spec c 47) as [->|Hc].
  - destruct (Z.eqb_spec d 47) as [->|Hd]; [done|]. destruct (Z.eqb_spec d 42) as [->|Hd'].
    + by destruct (block_end s false).
    + destruct d as [|p|p]; try done. repeat (destruct p as [p|p|]; try done).
  - destruct c as [|p|p]; try done. repeat (destruct p as [p|p|]; try done).
Qed.

Lemma comment_cases c s : comment_start c s = true -> c = 47%Z /\ ((exists r, s = 47%Z :: r) \/ exists r, s = 42%Z :: r).
Proof.
  unfold comment_start. destruct s as [|d s]; [by destruct c as [|p|p]; repeat (destruct p as [p|p|]; try done)|].
  destruct (Z.eqb_spec c 47) as [->|Hc].
  - destruct (Z.eqb_spec d 47) as [->|Hd]; [eauto|]. destruct (Z.eqb_spec d 42) as [->|Hd']; [eauto|].
    destruct d as [|p|p]; try done. repeat (destruct p as [p|p|]; try done).
  - destruct c as [|p|p]; try done. repeat (destruct p as [p|p|]; try done).
Qed.

Lemma block_gap body r nl :
  gap (fst (block_end body false)) r nl -> gap (47%Z :: 42%Z :: body) r (snd (block_end body false) || nl).
Proof.
  intros Hg. destruct (block_split (length body) body false (le_n _)) as [(b & Hs & Hb)|Hb].
  - rewrite Hs at 1. by apply (gap_block b).
  - rewrite Hb in Hg. assert (r = [] /\ nl = false) as [-> ->] by by inversion Hg.
    rewrite orb_false_r. apply (gap_open body). by rewrite <-Hb, <-surjective_pairing.
Qed.

Lemma line_gap s r nl : gap (to_newline (47%Z :: 47%Z :: s)) r nl -> gap (47%Z :: 47%Z :: s) r nl.
Proof.
  destruct (to_newline_split s) as (l & Hs & Hl & Hr). cbn [to_newline]. change (Z.eqb 47 LF) with false. cbv iota.
  intros Hg. rewrite Hs. by apply (gap_line l).
Qed.

Lemma skip_gap fuel : forall s saw, exists nl,
  gap s (fst (skip fuel s saw)) nl /\ snd (skip fuel s saw) = saw || nl.
Proof.
  assert (Hnone : forall s saw, exists nl, gap s s nl /\ saw = saw || nl).
  { intros s saw. exists false. by rewrite orb_false_r; split; [constructor|]. }
  induction fuel as [|fuel IH]; intros s saw; [apply Hnone|]. destruct s as [|c s]; [apply Hnone|]. rewrite skip_step.
  destruct (is_blank c) eqn:Eb; [destruct (IH s saw) as (nl & Hg & Hn); exists nl; split; [by constructor|done]|].
  destruct (is_newline c) eqn:En.
  { destruct (IH s true) as (nl & Hg & Hn). exists true. rewrite orb_true_r. split; [by eapply gap_newline|exact Hn]. }
  destruct (comment_start c s) eqn:Ec; [|apply Hnone]. cbn [negb]. apply comment_cases in Ec as [-> [[r ->]|[r ->]]].
  - destruct (IH (to_newline (47%Z :: 47%Z :: r)) saw) as (nl & Hg & Hn). exists nl. split; [by apply line_gap|done].
  - destruct (IH (fst (block_end r false)) (saw || snd (block_end r false))) as (nl & Hg & Hn).
    exists (snd (block_end r false) || nl). split; [by apply block_gap|]. by rewrite orb_assoc.
Qed.

Lemma skipped s : gap s (fst (skipSpaceAndComments s)) (snd (skipSpaceAndComments s)).
Proof. unfold skipSpaceAndComments. destruct (skip_gap (S (length s)) s false) as (nl & Hg & ->). exact Hg. Qed.

Lemma skip_done fuel : forall s saw, (length s < fuel)%nat -> code_start (fst (skip fuel s saw)).
Proof.
  induction fuel as [|fuel IH]; intros s saw Hf; [lia|]. destruct s as [|c s]; [done|]. cbn [length] in Hf. rewrite skip_step.
  destruct (is_blank c) eqn:Eb; [apply IH; lia|]. destruct (is_newline c) eqn:En; [apply IH; lia|].
  destruct (comment_start c s) eqn:Ec; [|done]. cbn [negb]. apply comment_cases in Ec as [-> [[r ->]|[r ->]]]; cbn [length] in Hf.
  - apply IH. pose proof (to_newline_split r) as (l & Hl & _). apply (f_equal length) in Hl. rewrite length_app in Hl.
    cbn [to_newline]. change (Z.eqb 47 LF) with false. cbv iota. lia.
  - apply IH. destruct (block_split (length r) r false (le_n _)) as [(b & Hs & _)|Hb]; [|rewrite Hb; cbn; lia].
    apply (f_equal length) in Hs. rewrite !length_app in Hs. lia.
Qed.

Lemma stringEnd_step q c s : stringEnd q (c :: s) =
  if (c =? 92)%Z then match s with [] => None | _ :: s => stringEnd q s end
  else if Z.eqb c q then Some s else if Z.eqb c LF then None else stringEnd q s.
Proof.
  cbn [stringEnd]. destruct (Z.eqb_spec c 92) as [->|Hc]; [done|].
  destruct c as [|p|p]; try done. repeat (destruct p as [p|p|]; try done).
Qed.

Lemma stringEnd_split q n : forall s r, is_quote q = true -> (length s <= n)%nat -> stringEnd q s = Some r ->
  exists b, s = b ++ q :: r /\ stringEnd q (b ++ [q]) = Some [].
Proof.
  induction n as [|n IH]; intros s r Hq Hn Hs; [by destruct s; [|cbn in Hn; lia]|].
  assert (Hq92 : (q =? 92)%Z = false) by (destruct (Z.eqb_spec q 92) as [->|]; done).
  destruct s as [|c s]; [done|]. cbn [length] in Hn. rewrite stringEnd_step in Hs. destruct (Z.eqb_spec c 92) as [->|Hc].
  - destruct s as [|d s]; [done|]. cbn [length] in Hn. destruct (IH s r Hq ltac:(lia) Hs) as (b & -> & Hb).
    exists (92%Z :: d :: b). split; [done|]. cbn [app]. by rewrite stringEnd_step.
  - destruct (Z.eqb_spec c q) as [->|Hcq].
    + injection Hs as ->. exists []. split; [done|]. cbn [app]. by rewrite stringEnd_step, Hq92, Z.eqb_refl.
    + destruct (Z.eqb c LF) eqn:El; [done|]. destruct (IH s r Hq ltac:(lia) Hs) as (b & -> & Hb).
      exists (c :: b). split; [done|]. cbn [app]. rewrite stringEnd_step, El.
      by rewrite (proj2 (Z.eqb_neq c 92) Hc), (proj2 (Z.eqb_neq c q) Hcq).
Qed.

(** After a string, what goes on with it as an expression. *)
Definition goes_on (r : units) : Prop :=
  match r with
  | c :: _ => c ∈ CONTINUES \/ word_at (code "instanceof") r = true \/ word_at (code "in") r = true
  | [] => False
  end.

(** A string is a directive when its statement ends after it: at a semicolon,
    at the end or before a brace, or at a newline where what follows cannot go
    on with it. [statement_end after r]: [r] follows that statement. *)
Inductive statement_end : units -> units -> Prop :=
| se_semicolon after r nl : gap after (59%Z :: r) nl -> statement_end after r
| se_last after r nl : gap after r nl -> r = [] \/ (exists s, r = 125%Z :: s) -> statement_end after after
| se_newline after r : gap after r true -> code_start r -> ~ goes_on r -> statement_end after after.

(** [s] is white space, comments and directives, then [rest]. *)
Inductive directives : units -> units -> Prop :=
| di_none s rest nl : gap s rest nl -> directives s rest
| di_string s q b after r rest nl :
    gap s (q :: b ++ q :: after) nl -> is_quote q = true -> stringEnd q (b ++ [q]) = Some [] ->
    statement_end after r -> directives r rest -> directives s rest.

(** A string followed by what makes it part of an expression. *)
Definition continued (after : units) : Prop :=
  exists c r nl, gap after (c :: r) nl /\ code_start (c :: r) /\ c <> 59%Z /\ c <> 125%Z /\ (nl = false \/ goes_on (c :: r)).

(** Where a prologue ends: after its last string, where there is nothing or a
    brace to follow; or before what is no string, or one that does not end or
    is part of an expression. *)
Definition stops (lead rest : units) : Prop :=
  (lead = code ";" /\ exists r nl, gap rest r nl /\ (r = [] \/ exists s, r = 125%Z :: s)) \/
  (lead = [] /\ code_start rest /\
   match rest with [] => True | q :: s => is_quote q = false \/ match stringEnd q s with Some after => continued after | None => True end end).

Lemma prologue_directives fuel : forall i, (length i < fuel)%nat ->
  directives i (fst (prologue_end fuel i)) /\ stops (snd (prologue_end fuel i)) (fst (prologue_end fuel i)).
Proof.
  induction fuel as [|fuel IH]; intros i Hf; [lia|]. cbn [prologue_end].
  pose proof (skipped i) as Hi. pose proof (skip_done (S (length i)) i false (le_n _)) as Hc. fold (skipSpaceAndComments i) in Hc.
  destruct (fst (skipSpaceAndComments i)) as [|q s] eqn:Ep; [split; [by eapply di_none|by right]|].
  destruct (is_quote q) eqn:Eq; cbn [negb]; [|split; [by eapply di_none|right; split; [done|]; split; [done|by left]]].
  destruct (stringEnd q s) as [after|] eqn:Es;
    [|split; [by eapply di_none|right; split; [done|]; split; [done|right; by rewrite Es]]].
  destruct (stringEnd_split q (length s) s after Eq (le_n _) Es) as (b & Hs & Hb).
  rewrite Hs in Hi. assert (Hdi : forall r rest, statement_end after r -> directives r rest -> directives i rest)
    by (intros r rest; by eapply di_string).
  assert (Hlen : (length after < length i)%nat).
  { apply gap_length in Hi. cbn [length] in Hi. rewrite length_app in Hi. cbn [length] in Hi. lia. }
  pose proof (skipped after) as Hr. pose proof (skip_done (S (length after)) after false (le_n _)) as Hca.
  fold (skipSpaceAndComments after) in Hca.
  destruct (skipSpaceAndComments after) as [[|c r] nl] eqn:Ea; cbn [fst snd] in *.
  { split; [eapply Hdi; [by eapply se_last; [|left]|eapply di_none, gap_none]|]. left. split; [done|]. exists [], nl. split; [done|by left]. }
  destruct (Z.eqb_spec c 59) as [->|H59].
  { destruct (IH r) as [H1 H2]; [apply gap_length in Hr; cbn [length] in Hr; lia|].
    split; [eapply Hdi; [by eapply se_semicolon|done]|done]. }
  destruct (Z.eqb_spec c 125) as [->|H125].
  { split; [eapply Hdi; [eapply se_last; [done|right; eauto]|eapply di_none, gap_none]|]. left. split; [done|]. exists (125%Z :: r), nl. eauto. }
  destruct (nl && _ && _) eqn:Econt.
  { destruct (IH after) as [H1 H2]; [lia|]. split; [|done]. eapply Hdi; [|done].
    apply andb_true_iff in Econt as [[-> Hk%negb_true_iff]%andb_true_iff [Hw1 Hw2]%negb_true_iff%orb_false_iff].
    eapply se_newline; [done|done|]. intros [Hin|Hw]; [|destruct Hw; congruence].
    apply not_true_iff_false in Hk. apply Hk, existsb_exists. exists c. split; [by apply list_elem_of_In|apply Z.eqb_refl]. }
  split; [by eapply di_none; rewrite Hs|]. right. cbn [fst snd]. split; [done|]. split; [done|]. right. rewrite Es.
  exists c, r, nl. split_and!; try done. destruct nl; [|by left]. right. cbn [andb] in Econt.
  apply andb_false_iff in Econt as [Econt|Econt]; apply negb_false_iff in Econt.
  - left. apply existsb_exists in Econt as (x & Hx & ->%Z.eqb_eq). by apply list_elem_of_In.
  - right. by apply orb_true_iff in Econt.
Qed.

(** What was skipped is the start of the source. *)
Lemma gap_suffix s r nl : gap s r nl -> exists p, s = p ++ r.
Proof.
  induction 1 as [s|c s r nl _ _ [p ->]|c s r nl _ _ [p ->]|l s r nl _ _ _ [p ->]|b s r n1 n2 _ _ [p ->]|b nl _];
    [by exists []|by exists (c :: p)|by exists (c :: p)|exists (code "//" ++ l ++ p)|exists (code "/*" ++ b ++ code "*/" ++ p)|].
  1,2: by rewrite <-!app_assoc. exists (code "/*" ++ b). by rewrite app_nil_r.
Qed.

Lemma directives_suffix s r : directives s r -> exists p, s = p ++ r.
Proof.
  assert (Hend : forall after r, statement_end after r -> exists p, after = p ++ r).
  { intros after r' [? r0 nl Hg|? r0 nl _ _|? r0 _ _ _]; [|by exists []|by exists []].
    destruct (gap_suffix _ _ _ Hg) as [p ->]. exists (p ++ [59%Z]). by rewrite <-app_assoc. }
  induction 1 as [s rest nl Hg|s q b after r rest nl Hg _ _ He _ [p ->]]; [by eapply gap_suffix|].
  destruct (gap_suffix _ _ _ Hg) as [p1 ->], (Hend _ _ He) as [p2 ->].
  exists (p1 ++ (q :: b ++ q :: p2) ++ p). rewrite <-!app_assoc. cbn. by rewrite <-!app_assoc.
Qed.

(** A byte-order mark and a hashbang line, each there or not. *)
Definition first_line (first : units) : Prop :=
  exists bom line, first = bom ++ line /\ bom ∈ [[]; [65279%Z]] /\ (line = [] \/ exists s, line = code "#!" ++ s ++ [LF] /\ LF ∉ s).

Lemma hashbang_split source :
  match after_hashbang source with
  | Some i => exists first, source = first ++ i /\ first_line first
  | None => exists bom s, source = bom ++ code "#!" ++ s /\ bom ∈ [[]; [65279%Z]] /\ LF ∉ s
  end.
Proof.
  assert (Hbom : exists bom s, source = bom ++ s /\ bom ∈ [[]; [65279%Z]] /\
            after_hashbang source = match s with 35%Z :: 33%Z :: _ => match to_newline s with [] => None | _ :: rest => Some rest end | _ => Some s end).
  { unfold after_hashbang. destruct source as [|c source]; [exists [], []; set_solver|].
    destruct (Z.eqb_spec c 65279) as [->|Hc]; [exists [65279%Z], source; set_solver|].
    exists [], (c :: source). split; [done|]. split; [set_solver|]. destruct c as [|p|p]; try done. repeat (destruct p as [p|p|]; try done). }
  destruct Hbom as (bom & s & -> & Hb & ->).
  assert (Hcase : (exists t, s = 35%Z :: 33%Z :: t) \/
            match s with 35%Z :: 33%Z :: _ => match to_newline s with [] => None | _ :: rest => Some rest end | _ => Some s end = Some s).
  { destruct s as [|c s]; [by right|]. destruct (Z.eqb_spec c 35) as [->|Hc].
    - destruct s as [|d s]; [by right|]. destruct (Z.eqb_spec d 33) as [->|Hd]; [left; eauto|]. right.
      destruct d as [|p|p]; try done. repeat (destruct p as [p|p|]; try done).
    - right. destruct c as [|p|p]; try done. repeat (destruct p as [p|p|]; try done). }
  destruct Hcase as [[t ->]| ->]; [|exists bom; split; [done|]; exists bom, []; rewrite app_nil_r; auto].
  destruct (to_newline_split t) as (l & Ht & Hl & Hr). cbn [to_newline]. change (Z.eqb 35 LF) with false. change (Z.eqb 33 LF) with false. cbv iota.
  destruct Hr as [Hr|[r Hr]]; rewrite Hr in *.
  - exists bom, l. rewrite app_nil_r in Ht. subst. done.
  - exists (bom ++ code "#!" ++ l ++ [LF]). split; [rewrite Ht, <- !app_assoc; done|].
    exists bom, (code "#!" ++ l ++ [LF]). split; [done|]. split; [done|]. right. eauto.
Qed.

Lemma code_app a b : code (a +:+ b) = code a ++ code b.
Proof. induction a as [|c a IH]; [done|]. change (code (String c a +:+ b)) with (Z.of_nat (nat_of_ascii c) :: code (a +:+ b)). by rewrite IH. Qed.

Definition inline (s : units) : Prop := Forall (fun c => is_newline c = false) s.

Lemma inline_quote s : inline (code (json_quote s)).
Proof.
  assert (Hc : forall c, inline (code (quote_char c))).
  { intros c. unfold inline. destruct c as [[] [] [] [] [] [] [] []]; vm_compute; repeat constructor. }
  unfold json_quote, inline. cbn [code list_ascii_of_string map]. constructor; [done|]. fold (code (quote_chars s +:+ String dquote "")).
  rewrite code_app. apply Forall_app. split; [|repeat constructor]. induction s as [|c s IH]; [constructor|]. cbn [quote_chars].
  rewrite code_app. apply Forall_app. split; [apply Hc|exact IH].
Qed.

Lemma insert_inline virtualFile : inline (code (insert_text virtualFile)).
Proof.
  unfold insert_text, inline. rewrite !code_app. repeat (apply Forall_app; split); try apply inline_quote;
    vm_compute; repeat constructor.
Qed.



(** A line comment is taken to end at a line feed only. In a file whose lines
    end in a carriage return alone the code after one is taken for the comment:
    the names are declared after all of it, and undefined in it. *)
Example carriage_return_ends_no_comment :
  prefixSource (code "// c" ++ [13%Z] ++ code "go(__dirname)") "/app/a.js"
    = code "// c" ++ [13%Z] ++ code "go(__dirname)" ++ code (insert_text "/app/a.js").
Proof. vm_compute. done. Qed.

(** ** Names go out and come back *)

Lemma rootOf_spec modules f :
  match rootOf modules f with
  | Some r => r ∈ map fst modules /\ under f r = true /\
              forall r', r' ∈ map fst modules -> under f r' = true -> (String.length r' <= String.length r)%nat
  | None => forall r', r' ∈ map fst modules -> under f r' = false
  end.
Proof.
  unfold rootOf. rewrite <- (fold_left_rev_right). set (step := fun root best => _).
  rewrite <- (rev_involutive (map fst modules)). generalize (rev (map fst modules)) as l. intros l. rewrite rev_involutive.
  enough (H : match foldr step None l with
              | Some r => r ∈ l /\ under f r = true /\ forall r', r' ∈ l -> under f r' = true -> (String.length r' <= String.length r)%nat
              | None => forall r', r' ∈ l -> under f r' = false end).
  { destruct (foldr step None l) as [r|].
    - destruct H as (H1 & H2 & H3). split; [by rewrite <- Permutation_rev|]. split; [done|]. intros r'. rewrite <- Permutation_rev. apply H3.
    - intros r'. rewrite <- Permutation_rev. apply H. }
  induction l as [|x l IH]; [intros r' Hr; by apply not_elem_of_nil in Hr|]. cbn [foldr]. unfold step at 1.
  destruct (foldr step None l) as [r|].
  - destruct IH as (H1 & H2 & H3). destruct (under f x) eqn:Ex; cbn [andb longer].
    + destruct (Nat.ltb_spec (String.length r) (String.length x)) as [Hl|Hl].
      * split; [by left|]. split; [done|]. intros r' [->|Hr]%elem_of_cons Hu; [lia|]. specialize (H3 r' Hr Hu). lia.
      * split; [by right|]. split; [done|]. intros r' [->|Hr]%elem_of_cons Hu; [lia|]. by apply H3.
    + split; [by right|]. split; [done|]. intros r' [->|Hr]%elem_of_cons Hu; [congruence|]. by apply H3.
  - destruct (under f x) eqn:Ex; cbn [andb longer].
    + split; [by left|]. split; [done|]. intros r' [->|Hr]%elem_of_cons Hu; [lia|]. specialize (IH r' Hr). congruence.
    + intros r' [->|Hr]%elem_of_cons; [done|]. by apply IH.
Qed.

Lemma decode_encode s : decodeURIComponent (encodeURIComponent s) = Ok s.
Proof.
  assert (H : forall c s, decodeURIComponent (encodeURIComponent (String c s)) =
                          let! t := decodeURIComponent (encodeURIComponent s) in Ok (String c t)).
  { clear s. intros c s. destruct c as [[] [] [] [] [] [] [] []]; reflexivity. }
  induction s as [|c s IH]; [done|]. by rewrite H, IH.
Qed.

Lemma encode_clean s : has_char "?" (encodeURIComponent s) = false /\ has_char "&" (encodeURIComponent s) = false.
Proof.
  assert (H : forall d c s, d ∈ ["?"; "&"]%char -> has_char d (encodeURIComponent (String c s)) = has_char d (encodeURIComponent s)).
  { clear s. intros d c s Hd. apply list_elem_of_In in Hd as [<-|[<-|[]]]; destruct c as [[] [] [] [] [] [] [] []]; reflexivity. }
  induction s as [|c s [IH1 IH2]]; [done|]. rewrite !H; [done| |]; set_solver.
Qed.

Lemma kind_clean specifier kind : kind_of specifier = Some kind -> has_char "?" kind = false.
Proof.
  unfold kind_of. destruct (assoc specifier KINDS) as [k|] eqn:Ek.
  - intros [= <-]. apply assoc_elem, list_elem_of_In in Ek. cbn in Ek. repeat (destruct Ek as [[= _ <-]|Ek]; [done|]). done.
  - destruct (includes specifier object_members) eqn:Ei; [|done]. intros [= <-]. apply bool_decide_eq_true in Ei.
    apply list_elem_of_In in Ei. cbn in Ei. repeat (destruct Ei as [<-|Ei]; [done|]). done.
Qed.

Lemma facade_url_loads fileURLToPath readFileSync JSON_parse modules read kind root esm : has_char "?" kind = false ->
  facade_load fileURLToPath readFileSync JSON_parse modules read (facade_url kind root esm) = Ok (FacadeOf kind root esm).
Proof.
  intros Hp. unfold facade_load, facade_url. change (starts_with "file:" (FACADE +:+ ?x)) with false.
  rewrite starts_with_app, sdrop_app. change ("?" +:+ ?x) with (String "?" x). rewrite (split_on_app _ _ _ Hp).
  destruct (encode_clean root) as [H1 H2].
  rewrite split_on_none by (destruct esm; rewrite has_char_app, H1; done). destruct esm.
  - change ("&esm") with (String "&" "esm"). rewrite (split_on_app _ _ _ H2). simpl. by rewrite decode_encode.
  - rewrite sapp_nil_r, (split_on_none _ _ H2). simpl. by rewrite decode_encode.
Qed.

Lemma common_prefix a b : forall x y, a +:+ x = b +:+ y -> (exists c, b = a +:+ c /\ x = c +:+ y) \/ (exists c, a = b +:+ c /\ y = c +:+ x).
Proof.
  revert b. induction a as [|c a IH]; intros b x y H; [left; by exists b|]. destruct b as [|d b]; [right; by exists (String c a)|].
  rewrite !sapp_cons in H. injection H as -> H. destruct (IH b x y H) as [(e & -> & ->)|(e & -> & ->)]; [left|right]; by exists e.
Qed.

Lemma under_both p a b : under p a = true -> under p b = true -> under a b = true \/ under b a = true.
Proof.
  intros Ha Hb. assert (Hx : forall q r, under q r = true -> exists x, q = r +:+ x /\ (x = "" \/ exists u, x = "/" +:+ u)).
  { intros q r [->|[u ->]]%under_iff; [exists ""%string; by rewrite sapp_nil_r; auto|eauto]. }
  destruct (Hx _ _ Ha) as (x & -> & Hxa). destruct (Hx _ _ Hb) as (y & He & Hyb). apply common_prefix in He as [(c & -> & ->)|(c & -> & ->)].
  - right. destruct c as [|d c]; [by rewrite sapp_nil_r, under_refl|]. destruct Hxa as [Hxa|[u Hxa]]; [done|].
    rewrite sapp_cons in Hxa. injection Hxa as -> _. apply under_below.
  - left. destruct c as [|d c]; [by rewrite sapp_nil_r, under_refl|]. destruct Hyb as [Hyb|[u Hyb]]; [done|].
    rewrite sapp_cons in Hyb. injection Hyb as -> _. apply under_below.
Qed.

(** A module's directories on the host, none under another. *)
Definition apart (root : string) (m : info) : Prop :=
  forall a b, a ∈ [root; if_data m; if_tmp m] -> b ∈ [root; if_data m; if_tmp m] -> a <> b -> under a b = false.

Definition virtual (p : string) : bool := under p "/app" || under p "/data" || under p "/tmp".

Lemma under_split p r : under p r = true -> exists x, p = r +:+ x /\ (x = "" \/ exists u, x = "/" +:+ u).
Proof. intros [->|[u ->]]%under_iff; [exists ""%string; by rewrite sapp_nil_r; auto|eauto]. Qed.

Lemma below x r : x = ""%string \/ (exists u, x = "/" +:+ u) -> under (r +:+ x) r = true.
Proof. intros [->|[u ->]]; [by rewrite sapp_nil_r, under_refl|apply under_below]. Qed.

Lemma host_back root m h : is_absolute h = true ->
  virtual h = false \/ under h root || under h (if_data m) || under h (if_tmp m) = true -> host_of root m (toVirtual root m h) = h.
Proof.
  intros Habs Hh. unfold toVirtual.
  destruct (under h (if_data m)) eqn:Ed.
  { destruct (under_split _ _ Ed) as (x & -> & Hx). rewrite sdrop_app. destruct Hx as [->|[u ->]]; done. }
  destruct (under h (if_tmp m)) eqn:Et.
  { destruct (under_split _ _ Et) as (x & -> & Hx). rewrite sdrop_app. destruct Hx as [->|[u ->]]; done. }
  destruct (under h root) eqn:Er.
  { destruct (under_split _ _ Er) as (x & -> & Hx). rewrite sdrop_app. destruct Hx as [->|[u ->]]; done. }
  destruct Hh as [Hh|Hh]; [|done]. unfold virtual in Hh. apply orb_false_iff in Hh as [[Ha Hb]%orb_false_iff Hc].
  unfold host_of. by rewrite Habs, Ha, Hb, Hc.
Qed.

Lemma virtual_back root m p : apart root m -> NoDup [root; if_data m; if_tmp m] -> virtual p = true -> toVirtual root m (host_of root m p) = p.
Proof.
  intros Hap Hnd Hp.
  assert (Hcut : forall a b x, a ∈ [root; if_data m; if_tmp m] -> b ∈ [root; if_data m; if_tmp m] -> a <> b ->
    x = ""%string \/ (exists u, x = "/" +:+ u) -> under (a +:+ x) b = false).
  { intros a b x Ha Hb Hne Hx. destruct (under (a +:+ x) b) eqn:E; [|done].
    destruct (under_both _ _ _ (below x a Hx) E) as [H|H]; [by rewrite (Hap a b) in H|by rewrite (Hap b a) in H]. }
  assert (Hd : root <> if_data m /\ root <> if_tmp m /\ if_data m <> if_tmp m).
  { repeat (apply NoDup_cons in Hnd as [? Hnd]). set_solver. }
  destruct Hd as (H1 & H2 & H3). unfold virtual in Hp. apply orb_true_iff in Hp as [[Hp|Hp]%orb_true_iff|Hp];
    destruct (under_split _ _ Hp) as (x & -> & Hx).
  - assert (E : host_of root m ("/app" +:+ x) = root +:+ x) by (destruct Hx as [->|[u ->]]; done). rewrite E. unfold toVirtual.
    rewrite (Hcut root (if_data m)), (Hcut root (if_tmp m)), below, sdrop_app; try done; set_solver.
  - assert (E : host_of root m ("/data" +:+ x) = if_data m +:+ x) by (destruct Hx as [->|[u ->]]; done). rewrite E. unfold toVirtual.
    by rewrite below, sdrop_app.
  - assert (E : host_of root m ("/tmp" +:+ x) = if_tmp m +:+ x) by (destruct Hx as [->|[u ->]]; done). rewrite E. unfold toVirtual.
    rewrite (Hcut (if_tmp m) (if_data m)), below, sdrop_app; try done; set_solver.
Qed.

(** C39: In single-thread mode a module's file is of the innermost registered root
    it is under, and is given fs, fs/promises and os of that root alone: the URL
    the resolve hook answers is read back by the load hook as that root and that
    kind, whatever characters the root has; code that is under no root gets
    Node's own. A host path in one of the module's directories, or one that is
    named like none of /app, /data and /tmp, is read back from the name the
    module sees; and where none of the directories is under another, a name the
    module uses is read back from its place on the host. *)
Theorem own_names_roundtrip fileURLToPath readFileSync JSON_parse modules read :
  (forall f, match rootOf modules f with
             | Some r => r ∈ map fst modules /\ under f r = true /\
                         forall r', r' ∈ map fst modules -> under f r' = true -> (String.length r' <= String.length r)%nat
             | None => forall r', r' ∈ map fst modules -> under f r' = false
             end) /\
  (forall specifier parentURL conditions a, facade_resolve fileURLToPath modules specifier parentURL conditions = Ok a ->
     match parent_root fileURLToPath modules parentURL with
     | Ok (Some root) =>
         match kind_of specifier with
         | Some kind => exists url format, a = Own url format /\
             facade_load fileURLToPath readFileSync JSON_parse modules read url = Ok (FacadeOf kind root (imports conditions))
         | None => a = Next (if under specifier "/app" then root +:+ sdrop 4 specifier else specifier)
         end
     | _ => a = Next specifier
     end) /\
  (forall root m h, is_absolute h = true ->
     virtual h = false \/ under h root || under h (if_data m) || under h (if_tmp m) = true -> host_of root m (toVirtual root m h) = h) /\
  (forall root m p, apart root m -> NoDup [root; if_data m; if_tmp m] -> virtual p = true -> toVirtual root m (host_of root m p) = p).
Proof.
  split; [intros f; apply rootOf_spec|]. split; [|split; [apply host_back|apply virtual_back]].
  intros specifier parentURL conditions a. unfold facade_resolve. destruct (parent_root _ _ _) as [[root|]|]; cbn [rbind]; [|by intros [= <-]|done].
  change (String.eqb specifier "/app" || starts_with "/app/" specifier) with (under specifier "/app").
  intros H. apply (f_equal (fun r => match r with Ok x => x | Throw _ => a end)) in H. subst a.
  destruct (kind_of specifier) as [kind|] eqn:Ek.
  - eexists _, _. split; [done|]. by apply facade_url_loads, (kind_clean specifier).
  - by destruct (under specifier "/app").
Qed.

Definition demo_root : string := "/srv/a b?&c".
Definition demo_modules : list (string * info) := [(demo_root, mkInfo "m" "/var/m/data" "/var/m/tmp")].
Definition demo_path (u : string) : result string := Ok (sdrop 7 u).

Lemma own_names_roundtrip_witness :
  facade_load demo_path (fun _ => None) (fun _ => None) demo_modules (fun _ => Ok []) (facade_url "fs" demo_root true)
    = Ok (FacadeOf "fs" demo_root true) /\
  toVirtual demo_root (mkInfo "m" "/var/m/data" "/var/m/tmp") (host_of demo_root (mkInfo "m" "/var/m/data" "/var/m/tmp") "/tmp/x") = "/tmp/x"%string.
Proof.
  destruct (own_names_roundtrip demo_path (fun _ => None) (fun _ => None) demo_modules (fun _ => Ok [])) as (_ & H2 & _ & H4). split.
  - specialize (H2 "node:fs"%string (JStr ("file://" +:+ demo_root +:+ "/i.mjs")) (Some ["node"; "import"]%string) _ eq_refl).
    cbn in H2. destruct H2 as (url & format & [= <- _] & H). exact H.
  - apply H4; [|apply (bool_decide_unpack _); vm_compute; exact I|reflexivity].
    intros a b Ha Hb Hne. apply list_elem_of_In in Ha as [<-|[<-|[<-|[]]]]; apply list_elem_of_In in Hb as [<-|[<-|[<-|[]]]]; done.
Defined.

(** A package with the name of a member of every object is taken for a kind:
    what a module gets in its place is a facade of fs/promises. *)
Example inherited_kind_taken :
  facade_resolve demo_path demo_modules "constructor" (JStr ("file://" +:+ demo_root +:+ "/i.js")) None
    = Ok (Own (facade_url "function Object() { [native code] }" demo_root false) "commonjs").
Proof. vm_compute. done. Qed.

(** ** A call of a replaced function *)

(** Argument [b] in the place of [a]: the host's path where a path is meant. *)
Definition hosted_arg (fileURLToPath : string -> result string) (root : string) (m : info) (is_path : bool) (a b : farg) : Prop :=
  if is_path && pathLike a then exists v h, a = APath v /\ toHost fileURLToPath root m v = Ok h /\ b = APath (PStr h) else b = a.

Lemma first_paths_hosted fileURLToPath root m n : forall args out, first_paths fileURLToPath root m n args = Ok out ->
  length out = length args /\
  forall i a, args !! i = Some a -> exists b, out !! i = Some b /\ hosted_arg fileURLToPath root m (i <? n)%nat a b.
Proof.
  induction n as [|n IH]; intros args out.
  { intros [= <-]. split; [done|]. intros i a Ha. exists a. by split. }
  destruct args as [|a args]; [intros [= <-]; by split|]. cbn [first_paths].
  destruct (path_arg fileURLToPath root m a) as [b|] eqn:Eb; [|done]. cbn [rbind].
  destruct (first_paths fileURLToPath root m n args) as [rest|] eqn:Er; [|done]. intros [= <-].
  destruct (IH _ _ Er) as [Hl Hi]. split; [cbn; by rewrite Hl|]. intros [|i] a' Ha; [|by apply Hi].
  injection Ha as <-. exists b. split; [done|]. unfold hosted_arg. change (0 <? S n)%nat with true. cbn [andb]. unfold path_arg in Eb.
  destruct (pathLike a) eqn:Ep; [|by injection Eb as <-]. destruct a as [v|v|f]; try done. cbn [to_host_arg] in Eb.
  destruct (toHost fileURLToPath root m v) as [h|] eqn:Eh; [|done]. injection Eb as <-. eauto.
Qed.

(** What a replaced function does with a call that is no symlink: the arguments
    that name files are the host's, the others untouched; a path that an error
    gives back is the module's own name for it, which leads to the same file;
    and so is the path of a result that is one. *)
Theorem calls_translated fileURLToPath root m key args hosted deliver :
  starts_with "symlink" key = false -> wrapFn fileURLToPath root m key args = Ok (hosted, deliver) ->
  length hosted = length args /\
  (forall i a, args !! i = Some a ->
     exists b, hosted !! i = Some b /\ hosted_arg fileURLToPath root m (i <? (if includes key TWO_PATHS then 2 else 1))%nat a b) /\
  (forall o e' h, deliver o = Thrown (ErrorObject e') \/ deliver o = Rejected (ErrorObject e') -> e_path e' = Some h ->
     exists e host, (o = Thrown (ErrorObject e) \/ o = Rejected (ErrorObject e)) /\ e_path e = Some host /\ h = toVirtual root m host /\
       (is_absolute host = true -> under host root || under host (if_data m) || under host (if_tmp m) = true -> host_of root m h = host)) /\
  (forall host, includes key RESULT_PATH = true -> deliver (Returned (Text host)) = Returned (Text (toVirtual root m host)) /\
     deliver (Resolved (Text host)) = Resolved (Text (toVirtual root m host))).
Proof.
  intros Hk. unfold wrapFn, host_args. rewrite Hk. destruct (first_paths _ _ _ _ args) as [out|] eqn:Ef; [|done]. intros [= <- <-].
  destruct (first_paths_hosted _ _ _ _ _ _ Ef) as [Hl Hi]. split; [done|]. split; [done|]. split.
  - intros o e' h Ho Hp. assert (Hx : exists e, (o = Thrown (ErrorObject e) \/ o = Rejected (ErrorObject e)) /\ ErrorObject e' = translateError root m (ErrorObject e)).
    { destruct o as [r|[e|v]|r|[e|v]|e r]; cbn [delivered] in Ho; destruct Ho as [Ho|Ho]; try done.
      - exists e. split; [by left|]. by injection Ho as <-.
      - exists e. split; [by right|]. by injection Ho as <-.
      - by destruct (wraps_callback _ _).
      - by destruct (wraps_callback _ _). }
    destruct Hx as (e & Hoe & [= ->]). cbn in Hp. destruct (e_path e) as [host|] eqn:Ep; [|done]. injection Hp as <-.
    exists e, host. split; [done|]. split; [done|]. split; [done|]. intros Ha Hu. apply host_back; [done|by right].
  - intros host Hr. cbn [delivered translateResult]. by rewrite Hr.
Qed.

Example rename_translated :
  let m := mkInfo "m" "/var/m/data" "/var/m/tmp" in
  exists deliver, wrapFn demo_path demo_root m "rename" [APath (PStr "/data/a"); APath (PBuffer "b"); AFunction "cb"]
    = Ok ([APath (PStr "/var/m/data/a"); APath (PStr "/srv/a b?&c/b"); AFunction "cb"], deliver) /\
  (forall e, deliver (Thrown (ErrorObject (mkErr e None None None (Some "/var/m/tmp/x"%string) None)))
     = Thrown (ErrorObject (mkErr e None None None (Some "/tmp/x"%string) None))).
Proof.
  intros m. eexists. split; [vm_compute; reflexivity|]. intros e. vm_compute. reflexivity.
Qed.
