(* ===== verification/LocalDevices.v ===== *)
(** * The modules and devices of one worker (lib/module-manager.js and
    lib/device-manager.js as they run in a module worker)

    On the main thread a module is a worker and a device is its worker
    ([ModuleManager], [DeviceManager]). In the worker itself the same two
    classes hold the real ones: the module's instance, which answers 'discover'
    by emitting its devices, and the device objects. This file is that half:
    the loading of a module's code, its discovery, what a device passes before
    it is put on the map and the main thread is told of it, and its end.

    Here [isMainThread] is false and [options.workerThread] is false, as
    lib/sandbox.js sets it. What a module's own code does when it is called is a
    step of its own, but for a device's _destroyDevice, which runs in the middle
    of a purge. Members the framework itself keeps on a device are written by
    the framework alone; names of modules are not those of Object.prototype. *)
From Stdlib Require Import ZArith Lia Ascii String.
From stdpp Require Import prelude strings.
From S2P Require Import Prelude Paths Json Errors ModuleData Packages Service HandlerMap ModuleValidator ModuleManager.

Set Default Proof Using "Type".

(** ** The worker's objects *)

(** A module's instance: assembled from a handler map, or of the module's own
    class, with whether it listens for 'discover'; [None] is no emitter. *)
Inductive kind := HandlerModule (spec : jsval) (x : exported) (rootSchema : jsval) | ClassModule (listens : option bool).
(** What [loadModuleCode] bound to its events, and [discoverState]. *)
Record instance := mkInstance { in_kind : kind; in_packageInfo : jsval; in_modulePath : string; in_discovering : bool }.

(** A device object: one made for a handler map, or a class module's own. *)
Inductive ref := Made (n : nat) | Own (n : nat).
#[export] Instance ref_eq_dec : EqDecision ref.
Proof. solve_decision. Defined.

Record object := mkObject {
  ob_chdevice : bool; ob_deviceID : jsval; ob_spec : jsval; ob_device : device;
  ob_error : option string; ob_module : option nat; ob_moduleName : string; ob_packageInfo : jsval; ob_modulePath : string;
  ob_online : option bool
}.

(** What leaves the two classes: messages to the main thread, logged errors, a
    module's events, callbacks, the code of a device's _destroyDevice. *)
Inductive effect :=
| DeviceOnline (data : jsval)
| PeerSelfInvalidate
| Replied (msgID : jsval) (err : option jserr) (data : document)
| LoggedError (e : cherr)
| ModuleEvent (i : nat) (event : string)
| Told (callback : nat) (r : ref)
| Destroyed (r : ref)
| CachePurged (prefix : string)
| Dereference (msgID doc : jsval) (pointer : string)
| Uncaught (e : jserr).

Record thread := mkThread {
  th_modules : list (string * nat); th_instances : list instance;
  th_deviceMap : list (string * ref); th_objects : ref -> option object;
  th_allLoaded : bool; th_notify : list (string * list nat);
  th_globals : globals; th_made : nat; th_config : jsval; th_timers : list jsval; th_out : list effect
}.

Definition new_thread : thread := mkThread [] [] [] (fun _ => None) false [] [] 0 JNull [] [].

Definition with_modules (m : list (string * nat)) (s : thread) : thread :=
  mkThread m (th_instances s) (th_deviceMap s) (th_objects s) (th_allLoaded s) (th_notify s) (th_globals s) (th_made s) (th_config s) (th_timers s) (th_out s).
Definition with_instances (l : list instance) (s : thread) : thread :=
  mkThread (th_modules s) l (th_deviceMap s) (th_objects s) (th_allLoaded s) (th_notify s) (th_globals s) (th_made s) (th_config s) (th_timers s) (th_out s).
Definition with_map (m : list (string * ref)) (s : thread) : thread :=
  mkThread (th_modules s) (th_instances s) m (th_objects s) (th_allLoaded s) (th_notify s) (th_globals s) (th_made s) (th_config s) (th_timers s) (th_out s).
Definition with_object (r : ref) (o : object) (s : thread) : thread :=
  mkThread (th_modules s) (th_instances s) (th_deviceMap s) (fun r' => if bool_decide (r' = r) then Some o else th_objects s r')
    (th_allLoaded s) (th_notify s) (th_globals s) (th_made s) (th_config s) (th_timers s) (th_out s).
Definition with_notify (n : list (string * list nat)) (s : thread) : thread :=
  mkThread (th_modules s) (th_instances s) (th_deviceMap s) (th_objects s) (th_allLoaded s) n (th_globals s) (th_made s) (th_config s) (th_timers s) (th_out s).
Definition with_globals (g : globals) (n : nat) (s : thread) : thread :=
  mkThread (th_modules s) (th_instances s) (th_deviceMap s) (th_objects s) (th_allLoaded s) (th_notify s) g n (th_config s) (th_timers s) (th_out s).
Definition with_config (c : jsval) (s : thread) : thread :=
  mkThread (th_modules s) (th_instances s) (th_deviceMap s) (th_objects s) (th_allLoaded s) (th_notify s) (th_globals s) (th_made s) c (th_timers s) (th_out s).
Definition with_timers (t : list jsval) (s : thread) : thread :=
  mkThread (th_modules s) (th_instances s) (th_deviceMap s) (th_objects s) (th_allLoaded s) (th_notify s) (th_globals s) (th_made s) (th_config s) t (th_out s).
Definition emitting (e : effect) (s : thread) : thread :=
  mkThread (th_modules s) (th_instances s) (th_deviceMap s) (th_objects s) (th_allLoaded s) (th_notify s) (th_globals s) (th_made s) (th_config s)
    (th_timers s) (th_out s ++ [e]).

(** Code that changes the thread, and may throw on its way. *)
Definition run (A : Type) : Type := thread -> result A * thread.
Definition rpure {A} (a : A) : run A := fun s => (Ok a, s).
Definition rthrow {A} (e : jserr) : run A := fun s => (Throw e, s).
Definition rthen {A B} (m : run A) (k : A -> run B) : run B :=
  fun s => match m s with (Ok a, s) => k a s | (Throw e, s) => (Throw e, s) end.
Definition rget : run thread := fun s => (Ok s, s).
Definition rmodify (f : thread -> thread) : run unit := fun s => (Ok tt, f s).
Definition rlift {A} (r : result A) : run A := fun s => (r, s).
Definition rcatch {A} (m : run A) (h : jserr -> run A) : run A :=
  fun s => match m s with (Ok a, s) => (Ok a, s) | (Throw e, s) => h e s end.
Definition emit (e : effect) : run unit := rmodify (emitting e).

Local Notation "'let>' x ':=' m 'in' k" := (rthen m (fun x => k)) (at level 200, x name, m at level 100, k at level 200).
Local Notation "m ';>' k" := (rthen m (fun _ => k)) (at level 100, k at level 200, right associativity).

Definition rwhen (b : bool) (m : run unit) : run unit := if b then m else rpure tt.

(** [for (const x of xs)]. *)
Fixpoint reach {A} (xs : list A) (f : A -> run unit) : run unit :=
  match xs with [] => rpure tt | x :: xs => f x ;> reach xs f end.

Section worker.
Context (ErrorInfo : string -> option string).
(** --verifyModule, --directPeerChannels; the specs' compiled meta-schema and
    schemas; a name's UUID. *)
Context (verifyModule directPeerChannels : bool).
Context (deviceSchemaValidator : jsval -> result (option (list ajv_error))) (compile : jsval -> result (jsval -> verdict)).
Context (deviceIDForName : string -> string).

(** An error object as what is thrown. *)
Definition thrown_error (e : cherr) : jserr :=
  mkErr (message_of ErrorInfo e) (match c_code e with JStr c => Some c | _ => None end) None None None None.

Definition object_at (r : ref) : run object :=
  let> s := rget in match th_objects s r with Some o => rpure o | None => rthrow type_error end.
Definition update (r : ref) (f : object -> object) : run unit :=
  let> o := object_at r in rmodify (with_object r (f o)).

Definition set_error (m : string) (o : object) : object :=
  mkObject (ob_chdevice o) (ob_deviceID o) (ob_spec o) (ob_device o) (Some m) (ob_module o) (ob_moduleName o) (ob_packageInfo o) (ob_modulePath o) (ob_online o).
Definition set_online (b : bool) (o : object) : object :=
  mkObject (ob_chdevice o) (ob_deviceID o) (ob_spec o) (ob_device o) (ob_error o) (ob_module o) (ob_moduleName o) (ob_packageInfo o) (ob_modulePath o) (Some b).
Definition set_home (i : option nat) (name : string) (packageInfo : jsval) (modulePath : string) (o : object) : object :=
  mkObject (ob_chdevice o) (ob_deviceID o) (ob_spec o) (ob_device o) (ob_error o) i name packageInfo modulePath (Some true).

(** [LOG.DE(device, e)]: the error is kept on the device, and its name read for
    the log. *)
Definition DE (r : ref) (e : cherr) : run unit :=
  update r (set_error (message_of ErrorInfo e)) ;>
  let> o := object_at r in
  (if truthy (ob_spec o) && is_nullish (jget "device" (ob_spec o)) then rthrow type_error else emit (LoggedError e)).

(** ** A device comes online (device-manager.js) *)

Definition checkDeviceInterface (r : ref) : run bool :=
  let> o := object_at r in
  match ob_error o with
  | Some _ => rpure false
  | None => if ob_chdevice o then rpure true
            else DE r (CHError "DEVICE_OBJECT_NOT_VALID_CDIF_DEVICE" []) ;> rpure false
  end.

Definition no_device_online (name : string) (o : object) : cherr :=
  CHError "MODULE_NO_DEVICE_ONLINE" [JStr name;
    JStr ("stage=checkDeviceInterface -- the device object failed its interface check" +:+
          match ob_error o with Some m => " (earlier error on this device: " +:+ m +:+ ")" | None => " (not a CHDevice instance)" end)].

Definition spec_detail (e : spec_error) : string :=
  "stage=validateDeviceSpec" +:+
  match se_validationErrors e with
  | Some (x :: xs) => " -- " +:+ nat_text (length (x :: xs)) +:+ " schema error(s): " +:+
                      join " | " (map (fun a => ae_instancePath a +:+ " " +:+ ae_message a) (x :: xs))
  | _ => " -- " +:+ se_message e
  end.

(** The module path of what an id is registered to. *)
Definition registered_at (s : thread) (id : string) : option jsval :=
  match assoc id (th_deviceMap s) with
  | Some r => match th_objects s r with Some o => Some (JStr (ob_modulePath o)) | None => None end
  | None => if includes id object_members then Some JUndef else None
  end.

Definition object_conflict (o : object) (path uuid : jsval) : cherr :=
  CHError "DEVICE_OBJECT_CONFLICT"
    [JStr ("friendlyName " +:+ in_quotes (js_text (jget "friendlyName" (jget "device" (ob_spec o)))) +:+ " is already registered by " +:+
           js_text path +:+ " -- deviceID " +:+ js_text uuid +:+ " is derived from friendlyName, so two modules " +:+
           "cannot share one. Rename one of them.")].

(** Those waiting for the device, while discovery goes on. *)
Definition tell_waiting (id : string) (r : ref) : run unit :=
  let> s := rget in
  if th_allLoaded s then rpure tt
  else match assoc id (th_notify s) with
       | None => rpure tt
       | Some cbs => reach cbs (fun cb => emit (Told cb r)) ;>
                     rmodify (fun s => with_notify (List.filter (fun e => negb (String.eqb id e.1)) (th_notify s)) s)
       end.

Definition register (r : ref) (i : option nat) (name : string) (packageInfo : jsval) (modulePath : string) (uuid : jsval) : run unit :=
  update r (set_home i name packageInfo modulePath) ;>
  rmodify (fun s => with_map (assoc_set (js_text uuid) r (th_deviceMap s)) s) ;>
  let> o := object_at r in
  emit (DeviceOnline (JObj [("deviceID", uuid); ("spec", ob_spec o); ("moduleName", JStr name); ("packageInfo", packageInfo);
                            ("modulePath", JStr modulePath)])) ;>
  tell_waiting (js_text uuid) r.

(** From the id on. *)
Definition identified (r : ref) (i : option nat) (name : string) (packageInfo : jsval) (modulePath : string) : run unit :=
  let> o := object_at r in
  let uuid := ob_deviceID o in
  if is_nullish uuid then DE r (CHError "DEVICE_ID_INVALID_OR_NULL" [])
  else
    let> s := rget in
    match conflictingModulePath (registered_at s (js_text uuid)) (JStr modulePath) with
    | Some path => (if is_nullish (ob_spec o) || is_nullish (jget "device" (ob_spec o)) then rthrow type_error else DE r (object_conflict o path uuid)) ;>
                   rwhen verifyModule (register r i name packageInfo modulePath uuid)
    | None => register r i name packageInfo modulePath uuid
    end.

(** The instance there must be. *)
Definition with_instance (r : ref) (i : option nat) (name : string) (packageInfo : jsval) (modulePath : string) : run unit :=
  match i with
  | Some _ => identified r i name packageInfo modulePath
  | None =>
      let> o := object_at r in
      (if is_nullish (ob_spec o) || is_nullish (jget "device" (ob_spec o)) then rthrow type_error
       else DE r (CHError "INVALID_MODULE_INSTANCE" [jget "friendlyName" (jget "device" (ob_spec o))])) ;>
      rwhen verifyModule (identified r i name packageInfo modulePath)
  end.

(** The spec. *)
Definition validated (r : ref) (i : option nat) (name : string) (packageInfo : jsval) (modulePath : string) : run unit :=
  let> o := object_at r in
  let> err := rlift (validateDeviceSpec deviceSchemaValidator (ob_spec o)) in
  match err with
  | Some e => emit (LoggedError (CHError "DEVICE_SPEC_VALIDATION_FAIL" [JStr name; JStr (spec_detail e)])) ;>
              DE r (CHError "DEVICE_SPEC_VALIDATION_FAIL" [JStr (se_message e)]) ;>
              rwhen verifyModule (with_instance r i name packageInfo modulePath)
  | None => with_instance r i name packageInfo modulePath
  end.

Definition onDeviceOnline (dev : option ref) (i : option nat) (name : string) (packageInfo : jsval) (modulePath : string) : run unit :=
  match dev with
  | None => rthrow type_error
  | Some r =>
      let> fine := checkDeviceInterface r in
      if fine : bool then validated r i name packageInfo modulePath
      else (let> o := object_at r in emit (LoggedError (no_device_online name o))) ;>
           rwhen verifyModule (validated r i name packageInfo modulePath)
  end.

Definition onDeviceOffline (dev : option ref) : run unit :=
  match dev with
  | None => rthrow type_error
  | Some r =>
      let> o := object_at r in
      if is_nullish (ob_spec o) || is_nullish (jget "device" (ob_spec o)) then rthrow type_error
      else DE r (CHError "DEVICE_OFFLINE" [jget "friendlyName" (jget "device" (ob_spec o))]) ;> update r (set_online false)
  end.

(** ** What an instance emits (module-manager.js) *)

(** Both listeners: for each name of the map the instance is under. *)
Definition names_of (i : option nat) (s : thread) : list string :=
  match i with
  | Some i => map fst (List.filter (fun e => Nat.eqb e.2 i) (th_modules s))
  | None => []
  end.

Definition instance_online (packageInfo : jsval) (modulePath : string) (dev : option ref) (i : option nat) : run unit :=
  let> s := rget in
  match names_of i s with
  | [] => emit (LoggedError (CHError "CORRESPONDING_MODULE_NOT_FOUND" [JStr "device online"]))
  | names => reach names (fun name => onDeviceOnline dev i name packageInfo modulePath)
  end.

Definition instance_offline (dev : option ref) (i : option nat) : run unit :=
  let> s := rget in
  match names_of i s with
  | [] => emit (LoggedError (CHError "CORRESPONDING_MODULE_NOT_FOUND" [JStr "device offline"]))
  | names => reach names (fun _ => onDeviceOffline dev)
  end.

(** What a class module gives its emitter: the device, as it is then, and the
    instance it says it is of. *)
Record announcement := mkAnnounce {
  an_emitter : nat; an_online : bool; an_device : option nat; an_chdevice : bool; an_deviceID : jsval; an_spec : jsval; an_services : device; an_of : option nat
}.

Definition shown (a : announcement) (n : nat) : run unit :=
  let> s := rget in
  rmodify (with_object (Own n)
    match th_objects s (Own n) with
    | Some o => mkObject (ob_chdevice o) (an_deviceID a) (an_spec a) (an_services a) (ob_error o) (ob_module o) (ob_moduleName o) (ob_packageInfo o)
                  (ob_modulePath o) (ob_online o)
    | None => mkObject (an_chdevice a) (an_deviceID a) (an_spec a) (an_services a) None None "" JUndef "" None
    end).

Definition announce (a : announcement) : run unit :=
  let> s := rget in
  match th_instances s !! an_emitter a with
  | None => rpure tt
  | Some m =>
      match an_device a with Some n => shown a n | None => rpure tt end ;>
      (if an_online a then instance_online (in_packageInfo m) (in_modulePath m) (Own <$> an_device a) (an_of a)
       else instance_offline (Own <$> an_device a) (an_of a))
  end.

(** ** A module's devices go (device-manager.js) *)

(** What a device's _destroyDevice does: what it has announced by the time it
    returns or throws; [None] where the device has none. *)
Context (destroyDevice : ref -> option (list announcement * option string)).

Definition destroyCdifDevice (r : ref) : run unit :=
  match destroyDevice r with
  | None => rpure tt
  | Some (announced, failure) =>
      emit (Destroyed r) ;>
      rcatch (reach announced announce ;> match failure with Some m => rthrow (plain_error m) | None => rpure tt end)
             (fun e => DE r (DeviceError "DESTROY_DEVICE_FAIL" [JStr (e_message e)]))
  end.

Definition purge_one (i : nat) (id : string) : run unit :=
  let> s := rget in
  match assoc id (th_deviceMap s) with
  | None => rpure tt
  | Some r =>
      let> o := object_at r in
      if bool_decide (ob_module o = Some i) then
        (if ob_chdevice o then destroyCdifDevice r else rpure tt) ;>
        rmodify (fun s => with_map (List.filter (fun e => negb (String.eqb id e.1)) (th_deviceMap s)) s)
      else rpure tt
  end.

(** [for (const deviceID in this.deviceMap)]: the ids there were when it began. *)
Definition onPurgeDevice (i : nat) : run unit :=
  let> s := rget in
  reach (map fst (th_deviceMap s)) (purge_one i) ;>
  rwhen directPeerChannels (emit PeerSelfInvalidate).

(** ** Loading a module's code (module-manager.js) *)

(** The module's files and countinghouse's own loader, as in [ModuleValidator];
    the main entry, required: its value, when it is a function or a map. *)
Context (pcwd : string) (readFileSync : string -> result string) (existsSync : string -> bool) (JSON_parse : string -> result jsval).
Context (isDirectory : string -> result bool) (names_in : string -> result (list string)) (requireFile : string -> result loaded).
Context (requireMain : string -> result (option exported)).
(** [new moduleConstructor()]: the instance, as above, or an exception. *)
Context (construct : string -> result (option bool)).

Definition readRootSchema (modulePath name : string) : result jsval :=
  let file := path_join [modulePath; "schema.json"%string] in
  if negb (existsSync file) then Ok JNull
  else match readJSON readFileSync JSON_parse file with
       | Ok v => Ok v
       | Throw e => Throw (thrown_error (CHError "MODULE_ASSEMBLY_FAIL"
                      [JStr name; JStr ("stage=readRootSchema -- " +:+ file +:+ " is not valid JSON: " +:+ e_message e)]))
       end.

Definition mismatch (name source : string) (problems : list string) : cherr :=
  CHError "MODULE_HANDLER_MISMATCH" [JStr name;
    JStr ("handler map (from " +:+ source +:+ ") does not match api.json -- " +:+ nat_text (length problems) +:+
          " problem(s):" +:+ String (ascii_of_nat 10) "  - " +:+ join (String (ascii_of_nat 10) "  - ") problems)].

(** [assemble], up to the class of its device. *)
Definition assembled (modulePath name : string) (x : exported) (source : string) : result kind :=
  let file := path_join [modulePath; "api.json"%string] in
  match readJSON readFileSync JSON_parse file with
  | Throw e => Throw (thrown_error (CHError "MODULE_ASSEMBLY_FAIL"
                 [JStr name; JStr ("stage=readApiJson -- " +:+ file +:+ " could not be read: " +:+ e_message e)]))
  | Ok spec =>
      match validateHandlerMap spec x name with
      | [] => let! root := readRootSchema modulePath name in Ok (HandlerModule spec x root)
      | problems => Throw (thrown_error (mismatch name source problems))
      end
  end.

Definition instantiateModule (modulePath name : string) : run kind :=
  let moduleRoot := resolve pcwd [modulePath] in
  emit (CachePurged (moduleRoot +:+ "/")) ;>
  rlift
    (let main := match requireMain moduleRoot with Ok m => m | Throw _ => None end in
     let! resolved := resolveHandlerMap existsSync isDirectory names_in requireFile modulePath main in
     match resolved with
     | Some (x, source) => assembled modulePath name x source
     | None => match main with
               | None => Throw (thrown_error (CHError "INVALID_MODULE_PATH" [JStr modulePath]))
               | Some _ => let! listens := construct moduleRoot in Ok (ClassModule listens)
               end
     end).

Definition not_a_function : jserr := plain_error "is not a function".

Definition not_discoverable (name : string) : cherr :=
  CHError "MODULE_NOT_DISCOVERABLE" [JStr name;
    JStr ("its main entry point registers no " +:+ in_quotes "discover" +:+ " listener, so it can never emit " +:+ in_quotes "deviceonline" +:+ " " +:+
          "and its devices will never load. package.json " +:+ in_quotes "main" +:+ " must point at the device *module* " +:+
          "(conventionally index.js, which does this.on(" +:+ in_quotes "discover" +:+ ", ...) and emits " +:+ in_quotes "deviceonline" +:+ " " +:+
          "with a new Device()), not at the CHDevice subclass in device.js. " +:+ "See docs/module-development.md")].

(** [applyDeviceConfig], in a worker. *)
Definition applyDeviceConfig (config : jsval) (s : thread) : thread :=
  if is_nullish config then if is_nullish (th_config s) then with_config (JObj []) s else s
  else with_config (json_copy config) s.

Definition set_discovering (b : bool) (m : instance) : instance := mkInstance (in_kind m) (in_packageInfo m) (in_modulePath m) b.
Definition discovering (i : nat) (b : bool) : run unit := rmodify (fun s => with_instances (alter (set_discovering b) i (th_instances s)) s).

(** [onModuleLoad]. In a worker the module waits for the main thread's
    'discover-device'. *)
Definition onModuleLoad (name : string) (i : nat) : run unit :=
  discovering i false ;>
  let> s := rget in
  match assoc name (th_modules s) with
  | Some old => discovering old false ;> onPurgeDevice old ;> rmodify (fun s => with_modules (assoc_set name i (th_modules s)) s)
  | None => rmodify (fun s => with_modules (assoc_set name i (th_modules s)) s)
  end.

(** [loadModuleCode], once there is an instance. *)
Definition installed (modulePath name : string) (deviceConfig pkg : jsval) (k : kind) : run (jserr + nat) :=
  let> s := rget in
  let i := length (th_instances s) in
  rmodify (fun s => with_instances (th_instances s ++ [mkInstance k pkg modulePath false]) s) ;>
  rmodify (applyDeviceConfig deviceConfig) ;>
  onModuleLoad name i ;>
  rpure (inr i).

(** The instance, or the error its callback is given. *)
Definition loadModuleCode (modulePath name : string) (deviceConfig : jsval) : run (jserr + nat) :=
  let> made := rcatch (let> pkg := rlift (readJSON readFileSync JSON_parse (path_join [modulePath; "package.json"%string])) in
                       let> k := instantiateModule modulePath name in rpure (inr (pkg, k)))
                      (fun e => rpure (inl e)) in
  match made with
  | inl e => emit (LoggedError (CHError "LOAD_MODULE_FAIL" [JStr name; JStr (e_message e)])) ;> rpure (inl e)
  | inr (pkg, k) =>
      match k with
      | ClassModule None => emit (LoggedError (not_discoverable name)) ;> rthrow not_a_function
      | ClassModule (Some false) => emit (LoggedError (not_discoverable name))
      | _ => rpure tt
      end ;>
      installed modulePath name deviceConfig pkg k
  end.

Definition loadModuleFromPath (modulePath name : string) (deviceConfig : jsval) : run (jserr + nat) :=
  match nameMismatch readFileSync JSON_parse modulePath name with
  | Some e => rpure (inl (thrown_error e))
  | None => if negb (existsSync modulePath) then rpure (inl (thrown_error (CHError "INVALID_MODULE_PATH" [JStr modulePath])))
            else loadModuleCode modulePath name deviceConfig
  end.

(** ** Unloading *)

(** [unloadModuleExternal], [unloadModule] and [onModuleUnload]: the error the
    callback is given. *)
Definition unloadModuleExternal (name : string) : run (option jserr) :=
  let> s := rget in
  match assoc name (th_modules s) with
  | None => rpure (Some (thrown_error (CHError "UNLOAD_MODULE_FAIL" [JStr "unknown module"; JStr name])))
  | Some i =>
      discovering i false ;>
      onPurgeDevice i ;>
      rmodify (fun s => with_modules (List.filter (fun e => negb (String.eqb name e.1)) (th_modules s)) s) ;>
      rpure None
  end.

(** ** Discovery *)

(** [new DeviceClass()]: the services of the spec, the id of its name, and the
    handlers in their places. *)
Definition annotated (spec : jsval) (id : string) : jsval := with_member "device" (with_member "deviceID" (JStr id) (jget "device" spec)) spec.

Definition new_device (spec : jsval) (x : exported) (rootSchema : jsval) : run ref :=
  let> s := rget in
  match initServices compile (mkDevice rootSchema []) spec with
  | None => rthrow (plain_error "this.services[i].updateSpec is not a function")
  | Some (d, _) =>
      if is_nullish (jget "device" spec) then rthrow type_error
      else
        let id := deviceIDForName (js_text (jget "friendlyName" (jget "device" spec))) in
        let err := if is_nullish (jget "serviceList" (jget "device" spec))
                   then Some (message_of ErrorInfo (DeviceError "NO_VALID_DEVICE_SPEC" [JStr "HandlerMapDevice"])) else None in
        let '(g, d) := wire spec x (th_globals s, d) in
        let r := Made (th_made s) in
        rmodify (with_globals g (S (th_made s))) ;>
        rmodify (with_object r (mkObject true (JStr id) (annotated spec id) d err None "" JUndef "" None)) ;>
        rpure r
  end.

(** [module.emit('discover')]: the framework's own listener, or the class's. *)
Definition emit_discover (i : nat) : run unit :=
  let> s := rget in
  match th_instances s !! i with
  | None => rpure tt
  | Some m =>
      match in_kind m with
      | HandlerModule spec x rootSchema =>
          let> r := new_device spec x rootSchema in instance_online (in_packageInfo m) (in_modulePath m) (Some r) (Some i)
      | ClassModule _ => emit (ModuleEvent i "discover")
      end
  end.

(** The loops return at the first module that is already in the state. *)
Fixpoint discover_from (ids : list nat) : run unit :=
  match ids with
  | [] => rpure tt
  | i :: ids =>
      let> s := rget in
      if match th_instances s !! i with Some m => in_discovering m | None => false end then rpure tt
      else emit_discover i ;> discovering i true ;> discover_from ids
  end.
Definition discoverAllDevices : run unit := let> s := rget in discover_from (map snd (th_modules s)).

Fixpoint stop_from (ids : list nat) : run unit :=
  match ids with
  | [] => rpure tt
  | i :: ids =>
      let> s := rget in
      match th_instances s !! i with
      | Some m => if negb (in_discovering m) then rpure tt
                  else match in_kind m with ClassModule _ => emit (ModuleEvent i "stopdiscover") | _ => rpure tt end ;>
                       discovering i false ;> stop_from ids
      | None => stop_from ids
      end
  end.
Definition stopDiscoverAllDevices : run unit := let> s := rget in stop_from (map snd (th_modules s)).

(** ** What the main thread asks of the worker (sandbox.js) *)

Definition ensureDeviceState (s : thread) (deviceID : jsval) : result (cherr + option ref) :=
  match assoc (js_text deviceID) (th_deviceMap s) with
  | Some r => match th_objects s r with
              | Some o => Ok (if bool_decide (ob_online o = Some false) then inl (CHError "DEVICE_OFFLINE" []) else inr (Some r))
              | None => Throw type_error
              end
  | None => Ok (if includes (js_text deviceID) object_members then inr None else inl (CHError "DEVICE_NOT_FOUND" [deviceID]))
  end.

Definition reply (msgID : jsval) (err : option jserr) (data : jsval) : run unit := emit (Replied msgID err (Doc data)).
Definition get_spec (msgID deviceID : jsval) : run unit :=
  let> s := rget in
  let> found := rlift (ensureDeviceState s deviceID) in
  match found with
  | inl e => reply msgID (Some (thrown_error e)) JNull
  | inr None => rthrow not_a_function
  | inr (Some r) =>
      let> o := object_at r in
      if negb (ob_chdevice o) then rthrow not_a_function
      else match ob_spec o with
           | JNull => reply msgID (Some (thrown_error (CHError "CANNOT_GET_DEVICE_SPEC" []))) JNull
           | spec => reply msgID None spec
           end
  end.

(** A schema answered at once, or once it is dereferenced. *)
Definition schema_reply (msgID : jsval) (r : cherr + document) : run unit :=
  match r with
  | inl e => reply msgID (Some (thrown_error e)) JNull
  | inr document => emit (Replied msgID None document)
  end.

Definition get_schema (msgID deviceID path : jsval) : run unit :=
  let> s := rget in
  let> found := rlift (ensureDeviceState s deviceID) in
  match found with
  | inl e => reply msgID (Some (thrown_error e)) JNull
  | inr None => rthrow not_a_function
  | inr (Some r) =>
      let> o := object_at r in
      if negb (ob_chdevice o) then rthrow not_a_function
      else match resolveSchemaFromPath (dv_schemaDoc (ob_device o)) path with
           | Now r => schema_reply msgID r
           | Later doc pointer => emit (Dereference msgID doc pointer)
           end
  end.

Inductive event :=
| LoadModule (msgID : jsval) (path name : string) (deviceConfig : jsval)
| UnloadModule (msgID : jsval) (name : string)
| DiscoverDevice (msgID : jsval)
| DiscoverTimer
| GetSpec (msgID deviceID : jsval)
| GetSchema (msgID deviceID path : jsval)
| Dereferenced (msgID : jsval) (r : result document)
| ModuleEmits (a : announcement).

Definition handle (ev : event) : run unit :=
  match ev with
  | LoadModule msgID path name config =>
      let> r := loadModuleFromPath path name config in
      reply msgID (match r with inl e => Some e | inr _ => None end) JNull
  | UnloadModule msgID name => unloadModuleExternal name ;> reply msgID None JNull
  | DiscoverDevice msgID => rmodify (fun s => with_timers (th_timers s ++ [msgID]) s) ;> discoverAllDevices
  | DiscoverTimer =>
      let> s := rget in
      match th_timers s with
      | [] => rpure tt
      | msgID :: rest => rmodify (with_timers rest) ;> stopDiscoverAllDevices ;> reply msgID None JNull
      end
  | GetSpec msgID deviceID => get_spec msgID deviceID
  | GetSchema msgID deviceID path => get_schema msgID deviceID path
  | Dereferenced msgID r => schema_reply msgID (dereferenced r)
  | ModuleEmits a => announce a
  end.

(** An exception of a listener goes to whoever emitted: the module's own code,
    or the thread. *)
Definition step (ev : event) (s : thread) : thread :=
  match handle ev s with
  | (Ok _, s) => s
  | (Throw e, s) => match ev with ModuleEmits _ => s | _ => emitting (Uncaught e) s end
  end.
Definition thread_run (evs : list event) (s : thread) : thread := fold_left (fun s ev => step ev s) evs s.

(** ** Lemmas *)

(** Where a device belongs. *)
Definition home (o : object) : option nat * string * string := (ob_module o, ob_moduleName o, ob_modulePath o).

(** The messages that say a device is online are set apart. *)
Definition other_effect (e : effect) : Prop := match e with DeviceOnline _ => False | _ => True end.

(** What leaves modules, the device map and every device's home as they are. *)
Record frame (s s' : thread) : Prop := {
  fr_modules : th_modules s' = th_modules s;
  fr_kinds : map in_kind (th_instances s') = map in_kind (th_instances s);
  fr_map : th_deviceMap s' = th_deviceMap s;
  fr_objects r o : th_objects s r = Some o -> exists o', th_objects s' r = Some o' /\ home o' = home o;
  fr_fresh n : (th_made s <= n)%nat -> th_objects s (Made n) = None -> th_objects s' (Made n) = None \/ (n < th_made s')%nat;
  fr_made : (th_made s <= th_made s')%nat;
  fr_out : exists ext, th_out s' = th_out s ++ ext /\ Forall other_effect ext
}.

Lemma thread_frame_refl s : frame s s.
Proof. split; eauto. exists []. by rewrite app_nil_r. Qed.
Lemma frame_out_nil s s' : th_out s' = th_out s -> exists ext, th_out s' = th_out s ++ ext /\ Forall other_effect ext.
Proof. intros ->. exists []. by rewrite app_nil_r. Qed.
#[local] Hint Resolve frame_out_nil : core.

Lemma thread_frame_trans a b c : frame a b -> frame b c -> frame a c.
Proof.
  intros [A1 A2 A3 A4 A5 A6 (x & A7 & A8)] [B1 B2 B3 B4 B5 B6 (y & B7 & B8)]. split; try congruence; try lia.
  - intros r o Ho. destruct (A4 r o Ho) as (o1 & H1 & E1). destruct (B4 r o1 H1) as (o2 & H2 & E2). exists o2. split; [done|congruence].
  - intros n Hn Hx. destruct (A5 n Hn Hx) as [H|H]; [|right; lia]. destruct (decide (th_made b <= n)%nat) as [Hb|Hb]; [by apply B5|right; lia].
  - exists (x ++ y). rewrite B7, A7, app_assoc. split; [done|by apply Forall_app].
Qed.

Definition framed {A} (m : run A) : Prop := forall s, frame s (snd (m s)).

Lemma framed_pure {A} (a : A) : framed (rpure a).
Proof. intros s. apply thread_frame_refl. Qed.
Lemma framed_throw {A} e : framed (rthrow (A := A) e).
Proof. intros s. apply thread_frame_refl. Qed.
Lemma framed_lift {A} (r : result A) : framed (rlift r).
Proof. intros s. apply thread_frame_refl. Qed.
Lemma framed_then {A B} (m : run A) (k : A -> run B) : framed m -> (forall a, framed (k a)) -> framed (rthen m k).
Proof.
  intros Hm Hk s. specialize (Hm s). unfold rthen. destruct (m s) as [[a|e] s1]; [|done]. eapply thread_frame_trans; [exact Hm|apply Hk].
Qed.
Lemma framed_get {A} (k : thread -> run A) : (forall s, framed (k s)) -> framed (rthen rget k).
Proof. intros Hk s. apply Hk. Qed.
Lemma framed_emit e : other_effect e -> framed (emit e).
Proof. intros He s. split; eauto. Qed.
Lemma framed_when b m : framed m -> framed (rwhen b m).
Proof. intros Hm. destruct b; [done|apply framed_pure]. Qed.
Lemma framed_catch {A} (m : run A) (h : jserr -> run A) : framed m -> (forall e, framed (h e)) -> framed (rcatch m h).
Proof.
  intros Hm Hk s. specialize (Hm s). unfold rcatch. destruct (m s) as [[a|e] s1]; [done|]. eapply thread_frame_trans; [exact Hm|apply Hk].
Qed.
Lemma framed_reach {A} (f : A -> run unit) xs : (forall x, framed (f x)) -> framed (reach xs f).
Proof. intros Hf. induction xs as [|x xs IH]; [apply framed_pure|]. apply framed_then; [apply Hf|by intros _]. Qed.

Lemma frame_object s r o o' : th_objects s r = Some o -> home o' = home o -> frame s (with_object r o' s).
Proof.
  intros Ho Hh. split; auto.
  - intros r1 o1 H1. cbn. case_bool_decide as Hr; [|eauto]. subst r1. exists o'. split; [done|congruence].
  - intros n _ Hx. cbn. case_bool_decide as Hr; [|by left]. subst r. congruence.
Qed.

Lemma framed_object_at r : framed (object_at r).
Proof. unfold object_at. apply framed_get. intros s. destruct (th_objects s r); [apply framed_pure|apply framed_throw]. Qed.

Lemma framed_update r f : (forall o, home (f o) = home o) -> framed (update r f).
Proof.
  intros Hf s. unfold update, object_at, rthen, rget. destruct (th_objects s r) as [o|] eqn:E; [|apply thread_frame_refl]. cbn. by eapply frame_object.
Qed.

Lemma framed_DE r e : framed (DE r e).
Proof.
  unfold DE. apply framed_then; [by apply framed_update|]. intros _. apply framed_then; [apply framed_object_at|]. intros o.
  destruct (_ && _); [apply framed_throw|by apply framed_emit].
Qed.

Lemma framed_config f : (forall s, th_modules (f s) = th_modules s /\ th_instances (f s) = th_instances s /\ th_deviceMap (f s) = th_deviceMap s /\
  th_objects (f s) = th_objects s /\ th_made (f s) = th_made s /\ th_out (f s) = th_out s) -> framed (rmodify f).
Proof.
  intros Hf s. destruct (Hf s) as (H1 & H2 & H3 & H4 & H5 & H6). cbn. split; try congruence; [| |by rewrite H5|auto].
  - intros r o Ho. rewrite H4. eauto.
  - intros n _ Hx. rewrite H4. by left.
Qed.

#[local] Hint Resolve framed_pure framed_throw framed_lift framed_emit framed_object_at framed_DE framed_when : framing.
#[local] Hint Extern 1 (other_effect _) => exact I : framing.

Lemma framed_tell_waiting id r : framed (tell_waiting id r).
Proof.
  unfold tell_waiting. apply framed_get. intros s. destruct (th_allLoaded s); [auto with framing|]. destruct (assoc id (th_notify s)); [|auto with framing].
  apply framed_then; [apply framed_reach; auto with framing|]. intros _. by apply framed_config.
Qed.

Lemma framed_check r : framed (checkDeviceInterface r).
Proof.
  unfold checkDeviceInterface. apply framed_then; [auto with framing|]. intros o. destruct (ob_error o); [auto with framing|].
  destruct (ob_chdevice o); [auto with framing|]. apply framed_then; auto with framing.
Qed.

Lemma framed_offline dev : framed (onDeviceOffline dev).
Proof.
  destruct dev as [r|]; [|apply framed_throw]. apply framed_then; [auto with framing|]. intros o. destruct (_ || _); [auto with framing|].
  apply framed_then; [auto with framing|]. intros _. by apply framed_update.
Qed.

Lemma framed_instance_offline dev i : framed (instance_offline dev i).
Proof.
  unfold instance_offline. apply framed_get. intros s. destruct (names_of i s); [auto with framing|]. apply framed_reach. intros _. apply framed_offline.
Qed.

(** The worker's own invariant: a name is of one instance and an instance of one
    name, an id is of one device, whose module is on the map, and of which the
    main thread was told. *)
Record thread_ok (s : thread) : Prop := {
  ok_names : NoDup (map fst (th_modules s));
  ok_instances : NoDup (map snd (th_modules s));
  ok_known name i : (name, i) ∈ th_modules s -> (i < length (th_instances s))%nat;
  ok_ids : NoDup (map fst (th_deviceMap s));
  ok_homes id r : assoc id (th_deviceMap s) = Some r ->
    exists o i, th_objects s r = Some o /\ ob_module o = Some i /\ assoc (ob_moduleName o) (th_modules s) = Some i;
  ok_told id : id ∈ map fst (th_deviceMap s) -> exists data, DeviceOnline data ∈ th_out s /\ js_text (jget "deviceID" data) = id;
  ok_fresh n : (th_made s <= n)%nat -> th_objects s (Made n) = None
}.

Lemma home_parts o o' : home o' = home o -> ob_module o' = ob_module o /\ ob_moduleName o' = ob_moduleName o /\ ob_modulePath o' = ob_modulePath o.
Proof. by intros [= -> -> ->]. Qed.

Lemma frame_length s s' : frame s s' -> length (th_instances s') = length (th_instances s).
Proof. intros H. pose proof (fr_kinds _ _ H) as Hk. apply (f_equal length) in Hk. by rewrite !length_map in Hk. Qed.

Lemma thread_frame_ok s s' : thread_ok s -> frame s s' -> thread_ok s'.
Proof.
  intros [O1 O2 O3 O4 O5 O6 O7] Hf. pose proof (frame_length _ _ Hf) as Hl. destruct Hf as [F1 F2 F3 F4 F5 F6 (ext & F7 & _)]. split.
  - by rewrite F1.
  - by rewrite F1.
  - intros name i. rewrite F1, Hl. apply O3.
  - by rewrite F3.
  - intros id r. rewrite F3, F1. intros Hr. destruct (O5 id r Hr) as (o & i & Ho & Hm & Hn). destruct (F4 r o Ho) as (o' & Ho' & Hh).
    apply home_parts in Hh as (E1 & E2 & _). exists o', i. by rewrite E1, E2.
  - intros id. rewrite F3, F7. intros Hid. destruct (O6 id Hid) as (data & Hd & E). exists data. split; [|done]. apply elem_of_app. by left.
  - intros n Hn. destruct (F5 n) as [H|H]; [lia|by apply O7; lia|done|lia].
Qed.

(** What [register] leaves before it tells those waiting. *)
Definition put (r : ref) (o : object) (i : option nat) (name : string) (packageInfo : jsval) (modulePath : string) (uuid : jsval) (s : thread) : thread :=
  emitting (DeviceOnline (JObj [("deviceID", uuid); ("spec", ob_spec o); ("moduleName", JStr name); ("packageInfo", packageInfo);
                                ("modulePath", JStr modulePath)]))
    (with_map (assoc_set (js_text uuid) r (th_deviceMap s)) (with_object r (set_home i name packageInfo modulePath o) s)).

Lemma register_put r o i name packageInfo modulePath uuid s : th_objects s r = Some o ->
  register r i name packageInfo modulePath uuid s = tell_waiting (js_text uuid) r (put r o i name packageInfo modulePath uuid s).
Proof.
  intros Ho. unfold register, update, object_at, rthen, rget, rmodify, emit. rewrite Ho. cbn [rpure]. cbn. by rewrite bool_decide_eq_true_2.
Qed.

Lemma put_ok r o i name packageInfo modulePath uuid s : thread_ok s -> th_objects s r = Some o -> assoc name (th_modules s) = Some i ->
  thread_ok (put r o (Some i) name packageInfo modulePath uuid s).
Proof.
  intros [O1 O2 O3 O4 O5 O6 O7] Ho Hn. split; try done.
  - by apply assoc_set_NoDup.
  - intros id r1. cbn. rewrite assoc_set_lookup. intros Hr.
    assert (Hc : r1 = r \/ exists o1 i1, th_objects s r1 = Some o1 /\ ob_module o1 = Some i1 /\ assoc (ob_moduleName o1) (th_modules s) = Some i1).
    { destruct (String.eqb id (js_text uuid)); [injection Hr as <-; by left|right; by eapply O5]. }
    case_bool_decide as E; [eexists _, i; split; [done|]; by split|]. by destruct Hc.
  - intros id. cbn. rewrite assoc_set_keys. intros Hid. assert (Hc : id = js_text uuid \/ id ∈ map fst (th_deviceMap s)) by (clear -Hid; case_bool_decide; set_solver).
    destruct Hc as [->|Hc]; [eexists; split; [apply elem_of_app; right; by left|done]|].
    destruct (O6 id Hc) as (data & Hd & E). exists data. split; [|done]. apply elem_of_app. by left.
  - intros n Hm. cbn. case_bool_decide as E; [|by apply O7]. subst r. rewrite O7 in Ho; done.
Qed.

(** A run that puts at most one device on the map: one whose id was free, or of
    the same module, unless a module is only being verified. *)
Inductive moves (i : nat) (name path : string) (s s' : thread) : Prop :=
| mv_frame : frame s s' -> moves i name path s s'
| mv_put r o packageInfo s1 : frame s s1 -> th_objects s1 r = Some o ->
    (verifyModule = false -> conflictingModulePath (registered_at s1 (js_text (ob_deviceID o))) (JStr path) = None) ->
    frame (put r o (Some i) name packageInfo path (ob_deviceID o) s1) s' -> moves i name path s s'.

Definition moving {A} (i : nat) (name path : string) (m : run A) : Prop := forall s, moves i name path s (snd (m s)).

Lemma moving_framed {A} i name path (m : run A) : framed m -> moving i name path m.
Proof. intros H s. by apply mv_frame. Qed.

Lemma moving_then {A B} i name path (m : run A) (k : A -> run B) : framed m -> (forall a, moving i name path (k a)) -> moving i name path (rthen m k).
Proof.
  intros Hm Hk s. specialize (Hm s). unfold rthen. destruct (m s) as [[a|e] s1]; [|by apply mv_frame]. cbn in Hm.
  destruct (Hk a s1) as [Hf|r o pkg s2 Hf Ho Hc Hp]; [apply mv_frame; by eapply thread_frame_trans|].
  eapply mv_put; [by eapply thread_frame_trans|exact Ho|exact Hc|exact Hp].
Qed.

Lemma moving_when i name path b m : (b = true -> moving i name path m) -> moving i name path (rwhen b m).
Proof. destruct b; [auto|intros _; apply moving_framed, framed_pure]. Qed.

Lemma moves_ok i name path s s' : thread_ok s -> assoc name (th_modules s) = Some i -> moves i name path s s' ->
  thread_ok s' /\ th_modules s' = th_modules s /\ map in_kind (th_instances s') = map in_kind (th_instances s).
Proof.
  intros Hok Hn [Hf|r o pkg s1 Hf Ho _ Hp].
  - split; [by eapply thread_frame_ok|]. split; [apply Hf|apply Hf].
  - assert (Hok1 : thread_ok s1) by by eapply thread_frame_ok. rewrite <- (fr_modules _ _ Hf) in Hn.
    split; [eapply thread_frame_ok; [|exact Hp]; by apply put_ok|].
    rewrite (fr_modules _ _ Hp), (fr_kinds _ _ Hp). cbn. by rewrite (fr_modules _ _ Hf), (fr_kinds _ _ Hf).
Qed.

Lemma object_at_eq {A} r s (k : object -> run A) o : th_objects s r = Some o -> rthen (object_at r) k s = k o s.
Proof. intros Ho. unfold rthen, object_at, rget. cbn. by rewrite Ho. Qed.
Lemma object_at_none {A} r s (k : object -> run A) : th_objects s r = None -> snd (rthen (object_at r) k s) = s.
Proof. intros Ho. unfold rthen, object_at, rget. cbn. by rewrite Ho. Qed.

Lemma moving_identified r i name packageInfo path : moving i name path (identified r (Some i) name packageInfo path).
Proof.
  intros s. destruct (th_objects s r) as [o|] eqn:Ho.
  2: { apply mv_frame. unfold identified. rewrite object_at_none by done. apply thread_frame_refl. }
  assert (Hreg : forall s1 o1, frame s s1 -> th_objects s1 r = Some o1 -> ob_deviceID o1 = ob_deviceID o ->
            (verifyModule = false -> conflictingModulePath (registered_at s1 (js_text (ob_deviceID o1))) (JStr path) = None) ->
            moves i name path s (snd (register r (Some i) name packageInfo path (ob_deviceID o) s1))).
  { intros s1 o1 Hf Ho1 He Hc. rewrite (register_put _ _ _ _ _ _ _ _ Ho1), <- He. eapply mv_put; [exact Hf|exact Ho1|exact Hc|]. apply framed_tell_waiting. }
  unfold identified. rewrite (object_at_eq _ _ _ _ Ho). destruct (is_nullish (ob_deviceID o)); [apply mv_frame, framed_DE|].
  unfold rthen at 1, rget at 1. destruct (conflictingModulePath _ _) as [p|] eqn:Ec.
  - destruct verifyModule eqn:Ev.
    + destruct (_ || _); [apply mv_frame, thread_frame_refl|]. unfold rthen at 1.
      assert (Hde : forall e, exists o1, th_objects (snd (DE r e s)) r = Some o1 /\ ob_deviceID o1 = ob_deviceID o).
      { intros e. unfold DE, update, object_at, rthen, rget, rmodify. rewrite Ho. cbn. rewrite bool_decide_eq_true_2 by done. cbn.
        destruct (_ && _); cbn; rewrite bool_decide_eq_true_2 by done; eauto. }
      destruct (Hde (object_conflict o p (ob_deviceID o))) as (o1 & Ho1 & He).
      pose proof (framed_DE r (object_conflict o p (ob_deviceID o)) s) as Hf.
      destruct (DE r _ s) as [[[]|e] s1]; [|by apply mv_frame]. cbn in Ho1, Hf. by apply (Hreg s1 o1).
    + apply mv_frame. apply framed_then; [destruct (_ || _); auto with framing|]. intros _. apply framed_pure.
  - by apply (Hreg s o (thread_frame_refl s) Ho).
Qed.

Lemma moving_validated r i name packageInfo path : moving i name path (validated r (Some i) name packageInfo path).
Proof.
  unfold validated. apply moving_then; [auto with framing|]. intros o. apply moving_then; [auto with framing|]. intros [e|]; [|apply moving_identified].
  apply moving_then; [auto with framing|]. intros _. apply moving_then; [auto with framing|]. intros _. apply moving_when. intros _. apply moving_identified.
Qed.

Lemma moving_online dev i name packageInfo path : moving i name path (onDeviceOnline dev (Some i) name packageInfo path).
Proof.
  destruct dev as [r|]; [|apply moving_framed, framed_throw]. unfold onDeviceOnline. apply moving_then; [apply framed_check|].
  intros [|]; [apply moving_validated|]. apply moving_then; [apply framed_then; auto with framing|]. intros _. apply moving_when.
  intros _. apply moving_validated.
Qed.

Lemma names_of_one i s : thread_ok s -> names_of (Some i) s = [] \/ exists name, names_of (Some i) s = [name] /\ assoc name (th_modules s) = Some i.
Proof.
  intros Hok. pose proof (ok_names _ Hok) as H1. pose proof (ok_instances _ Hok) as H2. unfold names_of. clear Hok.
  induction (th_modules s) as [|[n j] l IH]; [by left|]. cbn in H1, H2. apply NoDup_cons in H1 as [Hn H1]. apply NoDup_cons in H2 as [Hj H2].
  cbn [List.filter snd]. destruct (Nat.eqb_spec j i) as [->|Hne].
  - right. exists n. cbn. rewrite String.eqb_refl. split; [|done]. f_equal. clear IH H1 Hn H2. induction l as [|[a b] l IH]; [done|].
    cbn in Hj |- *. apply not_elem_of_cons in Hj as [Hb Hj]. apply Nat.eqb_neq in Hb. rewrite Nat.eqb_sym, Hb. by apply IH.
  - destruct (IH H1 H2) as [E|(name & E & Ha)]; [by left|]. right. exists name. split; [done|]. cbn [assoc].
    destruct (String.eqb_spec name n) as [->|]; [|done]. destruct Hn. apply assoc_elem in Ha. apply list_elem_of_fmap. by exists (n, i).
Qed.

Lemma online_moves packageInfo path dev oi s : thread_ok s ->
  frame s (snd (instance_online packageInfo path dev oi s)) \/
  exists i name, oi = Some i /\ assoc name (th_modules s) = Some i /\ moves i name path s (snd (instance_online packageInfo path dev oi s)).
Proof.
  intros Hok. unfold instance_online, rthen at 1, rget at 1, rthen at 1, rget at 1. destruct oi as [i|]; [|left; by apply framed_emit].
  destruct (names_of_one i s Hok) as [->|(name & -> & Ha)]; [left; by apply framed_emit|]. right. exists i, name. split; [done|]. split; [done|].
  cbn [reach]. pose proof (moving_online dev i name packageInfo path s) as Hm. unfold rthen. by destruct (onDeviceOnline _ _ _ _ _ s) as [[[]|] ?].
Qed.

(** What keeps the invariant, the modules and what their instances are. *)
Definition kept (s s' : thread) : Prop :=
  thread_ok s -> thread_ok s' /\ th_modules s' = th_modules s /\ map in_kind (th_instances s') = map in_kind (th_instances s).
Definition keeping {A} (m : run A) : Prop := forall s, kept s (snd (m s)).

Lemma keeping_framed {A} (m : run A) : framed m -> keeping m.
Proof. intros Hm s Hok. specialize (Hm s). split; [by eapply thread_frame_ok|]. split; apply Hm. Qed.

Lemma keeping_then {A B} (m : run A) (k : A -> run B) : keeping m -> (forall a, keeping (k a)) -> keeping (rthen m k).
Proof.
  intros Hm Hk s Hok. destruct (Hm s Hok) as (H1 & H2 & H3). unfold rthen. destruct (m s) as [[a|e] s1]; [|done].
  destruct (Hk a s1 H1) as (K1 & K2 & K3). cbn in *. split; [done|]. split; congruence.
Qed.

Lemma keeping_get {A} (k : thread -> run A) : (forall s, keeping (k s)) -> keeping (rthen rget k).
Proof. intros Hk s. apply Hk. Qed.

Lemma keeping_reach {A} (f : A -> run unit) xs : (forall x, keeping (f x)) -> keeping (reach xs f).
Proof. intros Hf. induction xs as [|x xs IH]; [apply keeping_framed, framed_pure|]. apply keeping_then; [apply Hf|by intros _]. Qed.

Lemma keeping_online packageInfo path dev i : keeping (instance_online packageInfo path dev i).
Proof.
  intros s Hok. destruct (online_moves packageInfo path dev i s Hok) as [Hf|(j & name & -> & Ha & Hm)]; [|by eapply moves_ok].
  split; [by eapply thread_frame_ok|]. split; apply Hf.
Qed.

Lemma framed_shown a n : framed (shown a n).
Proof.
  unfold shown. intros s. unfold rthen, rget, rmodify. destruct (th_objects s (Own n)) as [o|] eqn:E; cbn [snd]; [by eapply frame_object|].
  split; auto.
  - intros r o Ho. cbn. case_bool_decide as Hr; [|eauto]. subst. congruence.
Qed.

Lemma keeping_announce a : keeping (announce a).
Proof.
  unfold announce. apply keeping_get. intros s. destruct (th_instances s !! an_emitter a); [|apply keeping_framed, framed_pure].
  apply keeping_then; [apply keeping_framed; destruct (an_device a); [apply framed_shown|apply framed_pure]|]. intros _.
  destruct (an_online a); [apply keeping_online|apply keeping_framed, framed_instance_offline].
Qed.

(** *** A purge *)

Definition of_module (s : thread) (i : nat) (r : ref) : bool :=
  match th_objects s r with Some o => bool_decide (ob_module o = Some i) | None => false end.

(** From [s] to [s'] some devices of module [i] are gone, and nothing else. *)
Record purged (i : nat) (s s' : thread) : Prop := {
  pg_frame : frame s (with_map (th_deviceMap s) s');
  pg_map : exists p, th_deviceMap s' = List.filter p (th_deviceMap s) /\
                     forall id r, (id, r) ∈ th_deviceMap s -> of_module s i r = false -> p (id, r) = true
}.

Lemma with_map_id s : with_map (th_deviceMap s) s = s.
Proof. by destruct s. Qed.

Lemma frame_map m s s' : frame s s' -> frame (with_map m s) (with_map m s').
Proof. intros [F1 F2 F3 F4 F5 F6 F7]. by split. Qed.

Lemma filter_all {A} (f : A -> bool) l : (forall x, x ∈ l -> f x = true) -> List.filter f l = l.
Proof. induction l as [|a l IH]; intros H; [done|]. cbn. rewrite H by by left. f_equal. apply IH. intros x Hx. apply H. by right. Qed.

Lemma purged_frame i s s' : frame s s' -> purged i s s'.
Proof.
  intros Hf. split.
  - rewrite <- (fr_map _ _ Hf), with_map_id. done.
  - exists (fun _ => true). split; [|done]. by rewrite filter_all, (fr_map _ _ Hf).
Qed.

Lemma of_module_kept i s s' r : (forall r o, th_objects s r = Some o -> exists o', th_objects s' r = Some o' /\ home o' = home o) ->
  th_objects s r <> None -> of_module s' i r = of_module s i r.
Proof.
  intros Hh Hr. unfold of_module. destruct (th_objects s r) as [o|] eqn:E; [|done]. destruct (Hh r o E) as (o' & -> & Ho).
  apply home_parts in Ho as (-> & _). done.
Qed.

Lemma filter_twice {A} (f g : A -> bool) l : List.filter g (List.filter f l) = List.filter (fun x => f x && g x) l.
Proof. induction l as [|a l IH]; [done|]. cbn. destruct (f a); cbn; [destruct (g a); by rewrite ?IH|done]. Qed.

Lemma device_object s id r : thread_ok s -> (id, r) ∈ th_deviceMap s -> th_objects s r <> None.
Proof. intros Hok Hr. destruct (ok_homes _ Hok id r) as (o & _ & -> & _); [by apply assoc_distinct; [apply Hok|]|done]. Qed.

Lemma purged_trans i s1 s2 s3 : thread_ok s1 -> purged i s1 s2 -> purged i s2 s3 -> purged i s1 s3.
Proof.
  intros Hok [F1 [p [P1 Q1]]] [F2 [q [P2 Q2]]]. split.
  - eapply thread_frame_trans; [exact F1|]. apply (frame_map (th_deviceMap s1)) in F2. exact F2.
  - exists (fun x => p x && q x). split; [by rewrite P2, P1, filter_twice|]. intros id r Hr Ho. rewrite (Q1 id r Hr Ho). apply Q2.
    + rewrite P1. apply list_elem_of_In, filter_In. split; [by apply list_elem_of_In|by apply Q1].
    + rewrite <- Ho. apply of_module_kept; [|by eapply device_object]. intros r' o' Ho'. exact (fr_objects _ _ F1 r' o' Ho').
Qed.

Lemma purged_ok i s s' : thread_ok s -> purged i s s' -> thread_ok s' /\ th_modules s' = th_modules s /\ map in_kind (th_instances s') = map in_kind (th_instances s).
Proof.
  intros Hok [Hf [p [Hp _]]]. pose proof (thread_frame_ok _ _ Hok Hf) as [O1 O2 O3 O4 O5 O6 O7]. pose proof (ok_ids _ Hok) as Hnd. split.
  - split; try done.
    + rewrite Hp. by apply map_NoDup_filter.
    + intros id r Hr. apply (O5 id r). cbn. rewrite Hp in Hr. apply assoc_elem, list_elem_of_In, filter_In in Hr as [Hr _].
      apply assoc_distinct; [done|by apply list_elem_of_In].
    + intros id Hid. apply O6. cbn. rewrite Hp in Hid. apply list_elem_of_fmap in Hid as ([id' r] & -> & Hx).
      apply list_elem_of_In, filter_In in Hx as [Hx _]. apply list_elem_of_fmap. exists (id', r). split; [done|by apply list_elem_of_In].
  - split; apply Hf.
Qed.

Section quiet.
(** A device's _destroyDevice announces no device. *)
Hypothesis destroy_quiet : forall r announced failure, destroyDevice r = Some (announced, failure) -> announced = [].

Lemma framed_destroy r : framed (destroyCdifDevice r).
Proof using destroy_quiet.
  unfold destroyCdifDevice. destruct (destroyDevice r) as [[l f]|] eqn:E; [|apply framed_pure]. rewrite (destroy_quiet _ _ _ E).
  apply framed_then; [by apply framed_emit|]. intros _. apply framed_catch; [|intros e; apply framed_DE].
  apply framed_then; [apply framed_pure|]. intros _. destruct f; [apply framed_throw|apply framed_pure].
Qed.

Lemma purge_one_purged i id s : thread_ok s ->
  purged i s (snd (purge_one i id s)) /\
  (fst (purge_one i id s) = Ok tt -> forall r, (id, r) ∈ th_deviceMap (snd (purge_one i id s)) -> of_module s i r = false).
Proof using destroy_quiet.
  intros Hok. unfold purge_one, rthen at 1 4 7, rget. destruct (assoc id (th_deviceMap s)) as [r|] eqn:Er.
  2: { split; [apply purged_frame, thread_frame_refl|]. intros _ r Hr. cbn in Hr. by rewrite (assoc_distinct id r _ (ok_ids _ Hok) Hr) in Er. }
  destruct (ok_homes _ Hok id r Er) as (o & j & Ho & Hj & _).
  assert (Hof : of_module s i r = bool_decide (ob_module o = Some i)) by (unfold of_module; by rewrite Ho).
  rewrite (object_at_eq _ _ _ _ Ho). case_bool_decide as Em.
  2: { split; [apply purged_frame, thread_frame_refl|]. intros _ r' Hr. cbn in Hr. rewrite (assoc_distinct id r' _ (ok_ids _ Hok) Hr) in Er. by injection Er as ->. }
  assert (Hd : framed (if ob_chdevice o then destroyCdifDevice r else rpure tt)) by (destruct (ob_chdevice o); [apply framed_destroy|apply framed_pure]).
  specialize (Hd s). unfold rthen. destruct ((if ob_chdevice o then destroyCdifDevice r else rpure tt) s) as [[[]|e] s1]; cbn [fst snd] in *.
  2: { split; [by apply purged_frame|done]. }
  split.
  - split.
    + cbn. rewrite <- (fr_map _ _ Hd). change (frame s (with_map (th_deviceMap s1) s1)). by rewrite with_map_id.
    + cbn. eexists. split; [by rewrite (fr_map _ _ Hd)|]. intros id' r' Hr' Hf'. cbn. apply negb_true_iff, String.eqb_neq. intros <-.
      rewrite (assoc_distinct id r' _ (ok_ids _ Hok) Hr') in Er. injection Er as ->. by rewrite Hf' in Hof.
  - intros _ r' Hr. cbn in Hr. apply list_elem_of_In, filter_In in Hr as [_ Hr]. cbn in Hr. by rewrite String.eqb_refl in Hr.
Qed.

Lemma purge_loop i ids : forall s, thread_ok s ->
  purged i s (snd (reach ids (purge_one i) s)) /\
  (fst (reach ids (purge_one i) s) = Ok tt ->
   forall id r, id ∈ ids -> (id, r) ∈ th_deviceMap (snd (reach ids (purge_one i) s)) -> of_module s i r = false).
Proof using destroy_quiet.
  induction ids as [|id ids IH]; intros s Hok.
  { split; [apply purged_frame, thread_frame_refl|]. intros _ id r Hid. by apply not_elem_of_nil in Hid. }
  cbn [reach]. destruct (purge_one_purged i id s Hok) as [Hp Hg]. unfold rthen. destruct (purge_one i id s) as [[[]|e] s1]; cbn [fst snd] in *; [|done].
  destruct (purged_ok _ _ _ Hok Hp) as (Hok1 & _). destruct (IH s1 Hok1) as [Hp2 Hg2].
  split; [by eapply purged_trans|]. intros Hr id' r Hid Hin.
  assert (H1 : (id', r) ∈ th_deviceMap s1).
  { destruct (pg_map _ _ _ Hp2) as (q & Hq & _). rewrite Hq in Hin. apply list_elem_of_In, filter_In in Hin as [Hin _]. by apply list_elem_of_In. }
  assert (H0 : (id', r) ∈ th_deviceMap s).
  { destruct (pg_map _ _ _ Hp) as (q & Hq & _). rewrite Hq in H1. apply list_elem_of_In, filter_In in H1 as [H1 _]. by apply list_elem_of_In. }
  assert (Hk : of_module s1 i r = of_module s i r).
  { apply of_module_kept; [|by eapply device_object]. exact (fr_objects _ _ (pg_frame _ _ _ Hp)). }
  apply elem_of_cons in Hid as [->|Hid]; [by apply Hg|]. rewrite <- Hk. by eapply Hg2.
Qed.

(** All of the module's devices, and no other. *)
Lemma purge_exact i s : thread_ok s ->
  purged i s (snd (onPurgeDevice i s)) /\
  (fst (onPurgeDevice i s) = Ok tt ->
   th_deviceMap (snd (onPurgeDevice i s)) = List.filter (fun e => negb (of_module s i e.2)) (th_deviceMap s)).
Proof using destroy_quiet.
  intros Hok. unfold onPurgeDevice, rthen at 1 3, rget. destruct (purge_loop i (map fst (th_deviceMap s)) s Hok) as [Hp Hg].
  unfold rthen. destruct (reach _ _ s) as [[[]|e] s1]; cbn [fst snd] in *; [|done].
  assert (Hw : framed (rwhen directPeerChannels (emit PeerSelfInvalidate))) by (by apply framed_when, framed_emit). specialize (Hw s1).
  split; [eapply purged_trans; [exact Hok|exact Hp|by apply purged_frame]|]. intros _. rewrite (fr_map _ _ Hw).
  destruct (pg_map _ _ _ Hp) as (p & Hm & Hall). rewrite Hm. apply filter_ext_in. intros [id r] Hin%list_elem_of_In. cbn [snd].
  destruct (of_module s i r) eqn:E; cbn [negb]; [|by apply Hall].
  destruct (p (id, r)) eqn:Epr; [|done]. assert (H1 : (id, r) ∈ th_deviceMap s1).
  { rewrite Hm. apply list_elem_of_In, filter_In. split; [by apply list_elem_of_In|done]. }
  assert (Hid : id ∈ map fst (th_deviceMap s)) by (apply list_elem_of_fmap; by exists (id, r)).
  by rewrite (Hg eq_refl id r Hid H1) in E.
Qed.


(** *** Loading and unloading *)

Lemma alter_kinds i b (l : list instance) : map in_kind (alter (set_discovering b) i l) = map in_kind l.
Proof. revert i. induction l as [|m l IH]; intros [|i]; [done|done|done|]. cbn. f_equal. apply IH. Qed.

Lemma framed_discovering i b : framed (discovering i b).
Proof. intros s. unfold discovering, rmodify. cbn [snd]. split; eauto. cbn. apply alter_kinds. Qed.

Lemma assoc_set_snd {A} k (v x : A) l : x ∈ map snd (assoc_set k v l) -> x = v \/ x ∈ map snd l.
Proof.
  induction l as [|[a b] l IH]; cbn; [by intros ->%list_elem_of_singleton; left|]. destruct (String.eqb k a); cbn; rewrite !elem_of_cons.
  - intros [->|H]; [by left|right; by right].
  - intros [->|H]; [right; by left|]. destruct (IH H) as [->|H']; [by left|right; by right].
Qed.

Lemma assoc_set_snd_NoDup {A} k (v : A) l : v ∉ map snd l -> NoDup (map snd l) -> NoDup (map snd (assoc_set k v l)).
Proof.
  induction l as [|[a b] l IH]; cbn; [intros _ _; apply NoDup_singleton|]. intros [Hv Hl]%not_elem_of_cons [Hb Hd]%NoDup_cons.
  destruct (String.eqb k a); cbn; apply NoDup_cons; [done|]. split; [|by apply IH].
  intros [->|H]%assoc_set_snd; [done|by apply Hb].
Qed.

(** A name's module may change hands, or go, once its devices have gone. *)
Definition no_devices (name : string) (s : thread) : Prop :=
  forall id r i, assoc id (th_deviceMap s) = Some r -> assoc name (th_modules s) = Some i -> of_module s i r = false.

Lemma other_name name s id r o i : no_devices name s -> assoc id (th_deviceMap s) = Some r -> th_objects s r = Some o -> ob_module o = Some i ->
  assoc (ob_moduleName o) (th_modules s) = Some i -> ob_moduleName o <> name.
Proof.
  intros Hno Hr Ho Hm Hn E. specialize (Hno id r i Hr). rewrite <- E in Hno. specialize (Hno Hn). unfold of_module in Hno. rewrite Ho, Hm in Hno. by rewrite bool_decide_eq_true_2 in Hno.
Qed.

Lemma load_name_ok name i s : thread_ok s -> (i < length (th_instances s))%nat -> i ∉ map snd (th_modules s) -> no_devices name s ->
  thread_ok (with_modules (assoc_set name i (th_modules s)) s).
Proof.
  intros Hok Hi Hf Hno. pose proof Hok as [O1 O2 O3 O4 O5 O6 O7]. split; try done; cbn.
  - by apply assoc_set_NoDup.
  - by apply assoc_set_snd_NoDup.
  - intros n j Hin. assert (Hj : j ∈ map snd (assoc_set name i (th_modules s))) by (apply list_elem_of_fmap; by exists (n, j)).
    apply assoc_set_snd in Hj as [->|Hj]; [done|]. apply list_elem_of_fmap in Hj as ([n' j'] & -> & Hj). by apply (O3 n').
  - intros id r Hr. destruct (O5 id r Hr) as (o & j & Ho & Hm & Hn). exists o, j. split; [done|]. split; [done|].
    rewrite assoc_set_lookup. destruct (String.eqb_spec (ob_moduleName o) name) as [E|]; [|done].
    by destruct (other_name name s id r o j Hno Hr Ho Hm Hn).
Qed.

Lemma unload_name_ok name s : thread_ok s -> no_devices name s ->
  thread_ok (with_modules (List.filter (fun e => negb (String.eqb name e.1)) (th_modules s)) s).
Proof.
  intros Hok Hno. pose proof Hok as [O1 O2 O3 O4 O5 O6 O7]. split; try done; cbn.
  - by apply map_NoDup_filter.
  - by apply map_NoDup_filter.
  - intros n j Hin. apply list_elem_of_In, filter_In in Hin as [Hin _]. apply (O3 n). by apply list_elem_of_In.
  - intros id r Hr. destruct (O5 id r Hr) as (o & j & Ho & Hm & Hn). exists o, j. split; [done|]. split; [done|].
    rewrite (assoc_filter_key (fun k => negb (String.eqb name k))); [done|].
    apply negb_true_iff, String.eqb_neq, not_eq_sym. by apply (other_name name s id r o j).
Qed.

Lemma purge_none name i s : thread_ok s -> assoc name (th_modules s) = Some i -> fst (onPurgeDevice i s) = Ok tt ->
  no_devices name (snd (onPurgeDevice i s)).
Proof using destroy_quiet.
  intros Hok Ha Hr id r j Hid Hj. destruct (purge_exact i s Hok) as [Hp Hm]. specialize (Hm Hr).
  pose proof (fr_modules _ _ (pg_frame _ _ _ Hp)) as E.
  change (th_modules (snd (onPurgeDevice i s)) = th_modules s) in E. rewrite E, Ha in Hj. injection Hj as <-.
  rewrite Hm in Hid. apply assoc_elem, list_elem_of_In, filter_In in Hid as [Hin Hf]. cbn in Hf. apply negb_true_iff in Hf.
  rewrite <- Hf. apply of_module_kept; [exact (fr_objects _ _ (pg_frame _ _ _ Hp))|]. eapply device_object; [done|by apply list_elem_of_In].
Qed.

(** What a module's new code, or none, leaves of the map. *)
Definition left_by (name : string) (s : thread) : list (string * ref) :=
  match assoc name (th_modules s) with
  | Some old => List.filter (fun e => negb (of_module s old e.2)) (th_deviceMap s)
  | None => th_deviceMap s
  end.

Definition stopped (i : nat) (s : thread) : thread := with_instances (alter (set_discovering false) i (th_instances s)) s.

Lemma onModuleLoad_eq name i s : onModuleLoad name i s =
  match assoc name (th_modules s) with
  | Some old => let '(r, s2) := onPurgeDevice old (stopped old (stopped i s)) in
                match r with
                | Ok _ => (Ok tt, with_modules (assoc_set name i (th_modules s2)) s2)
                | Throw e => (Throw e, s2)
                end
  | None => (Ok tt, with_modules (assoc_set name i (th_modules s)) (stopped i s))
  end.
Proof.
  unfold onModuleLoad, discovering, rthen at 1, rmodify at 1, rthen at 1, rget. cbn [th_modules with_instances]. destruct (assoc name _) as [old|]; [|done].
  unfold rthen at 1, rmodify at 1, rthen at 1. change (with_instances _ _) with (stopped old (stopped i s)). by destruct (onPurgeDevice _ _) as [[[]|e] s2].
Qed.

Lemma onModuleLoad_ok name i s : thread_ok s -> (i < length (th_instances s))%nat -> i ∉ map snd (th_modules s) ->
  thread_ok (snd (onModuleLoad name i s)) /\
  (fst (onModuleLoad name i s) = Ok tt ->
   th_modules (snd (onModuleLoad name i s)) = assoc_set name i (th_modules s) /\ th_deviceMap (snd (onModuleLoad name i s)) = left_by name s).
Proof using destroy_quiet.
  intros Hok Hi Hf. rewrite onModuleLoad_eq. unfold left_by. pose proof (framed_discovering i false s) as Hd. change (frame s (stopped i s)) in Hd.
  pose proof (thread_frame_ok _ _ Hok Hd) as Hok0. destruct (assoc name (th_modules s)) as [old|] eqn:Ea.
  - assert (Hd2 : frame s (stopped old (stopped i s))) by (eapply thread_frame_trans; [exact Hd|apply (framed_discovering old false)]).
    pose proof (thread_frame_ok _ _ Hok Hd2) as Hok2. destruct (purge_exact old _ Hok2) as [Hp Hm].
    pose proof (purge_none name old _ Hok2 Ea) as Hno. destruct (purged_ok _ _ _ Hok2 Hp) as (Hok3 & Em & Ek).
    destruct (onPurgeDevice old (stopped old (stopped i s))) as [[[]|e] s2]; cbn [fst snd] in *; [|done]. split.
    + apply load_name_ok; [done| | |by apply Hno].
      * apply (f_equal length) in Ek. rewrite !length_map in Ek. rewrite Ek, (frame_length _ _ Hd2). done.
      * by rewrite Em.
    + intros _. cbn. rewrite Em. split; [done|by apply Hm].
  - cbn [fst snd]. split; [|done]. apply (load_name_ok name i (stopped i s)); [done|by rewrite (frame_length _ _ Hd)|done|]. intros id r j _ Hj.
    change (assoc name (th_modules s) = Some j) in Hj. by rewrite Ea in Hj.
Qed.

Lemma framed_instantiate path name : framed (instantiateModule path name).
Proof. unfold instantiateModule. apply framed_then; [by apply framed_emit|]. intros _. apply framed_lift. Qed.

(** A new instance. *)
Lemma add_instance_ok m s : thread_ok s -> thread_ok (with_instances (th_instances s ++ [m]) s).
Proof.
  intros [O1 O2 O3 O4 O5 O6 O7]. split; try done. cbn. intros name i Hi. specialize (O3 name i Hi). rewrite length_app. cbn. lia.
Qed.

Lemma framed_applyDeviceConfig c : framed (rmodify (applyDeviceConfig c)).
Proof.
  intros s. unfold rmodify, applyDeviceConfig. cbn. destruct (is_nullish c); [destruct (is_nullish (th_config s))|]; split; eauto.
Qed.

Lemma new_instance s : thread_ok s -> length (th_instances s) ∉ map snd (th_modules s).
Proof. intros Hok Hi. apply list_elem_of_fmap in Hi as ([n i] & E & Hi). cbn in E. pose proof (ok_known _ Hok n i Hi). lia. Qed.

Lemma left_by_frame name s s1 : thread_ok s -> frame s s1 -> left_by name s1 = left_by name s.
Proof.
  intros Hok Hf. unfold left_by. rewrite (fr_modules _ _ Hf), (fr_map _ _ Hf). destruct (assoc name (th_modules s)) as [old|]; [|done].
  apply filter_ext_in. intros [id r] Hin%list_elem_of_In. f_equal. apply of_module_kept; [apply Hf|by eapply device_object].
Qed.

(** The end of a framed beginning. *)
Lemma after_frame {A B} (m : run A) (k : A -> run B) s : framed m ->
  exists s1, frame s s1 /\ ((exists e, rthen m k s = (Throw e, s1)) \/ exists a, rthen m k s = k a s1).
Proof.
  intros Hm. specialize (Hm s). exists (snd (m s)). split; [done|]. unfold rthen. destruct (m s) as [[a|e] s1]; [right|left]; eauto.
Qed.

(** What a load comes to: an error, or the name's new instance. *)
Definition load_done (name : string) (s : thread) (m : run (jserr + nat)) : Prop :=
  thread_ok (snd (m s)) /\
  (forall i, fst (m s) = Ok (inr i) ->
   th_modules (snd (m s)) = assoc_set name (length (th_instances s)) (th_modules s) /\ th_deviceMap (snd (m s)) = left_by name s).

Lemma load_done_frame name s s1 m : thread_ok s -> frame s s1 -> (forall i, fst (m s) <> Ok (inr i)) -> snd (m s) = s1 -> load_done name s m.
Proof. intros Hok Hf Hn E. split; [rewrite E; by eapply thread_frame_ok|]. intros i Hi. by destruct (Hn i). Qed.

Lemma load_done_after name s s1 (m m1 : run (jserr + nat)) : thread_ok s -> frame s s1 -> m s = m1 s1 -> load_done name s1 m1 -> load_done name s m.
Proof.
  intros Hok Hf E [H1 H2]. unfold load_done. rewrite E. split; [done|]. intros i Hi. destruct (H2 i Hi) as [-> ->].
  rewrite (frame_length _ _ Hf), (fr_modules _ _ Hf). split; [done|by apply left_by_frame].
Qed.

Definition adding (path : string) (pkg : jsval) (k : kind) (s : thread) : thread :=
  with_instances (th_instances s ++ [mkInstance k pkg path false]) s.

Lemma installed_eq path name c pkg k s : installed path name c pkg k s =
  let '(r, s') := onModuleLoad name (length (th_instances s)) (applyDeviceConfig c (adding path pkg k s)) in
  (match r with Ok _ => Ok (inr (length (th_instances s))) | Throw e => Throw e end, s').
Proof.
  unfold installed, rthen at 1, rget, rthen at 1, rmodify at 1, rthen at 1, rmodify at 1, rthen at 1. change (with_instances _ _) with (adding path pkg k s).
  by destruct (onModuleLoad _ _ _) as [[[]|e] s'].
Qed.

Lemma installed_done path name c pkg k s : thread_ok s -> load_done name s (installed path name c pkg k).
Proof using destroy_quiet.
  intros Hok. unfold load_done. rewrite installed_eq. pose proof (add_instance_ok (mkInstance k pkg path false) s Hok) as Hok1.
  change (thread_ok (adding path pkg k s)) in Hok1. pose proof (framed_applyDeviceConfig c (adding path pkg k s)) as Hf. cbn [snd rmodify] in Hf.
  pose proof (thread_frame_ok _ _ Hok1 Hf) as Hok2. destruct (onModuleLoad_ok name (length (th_instances s)) _ Hok2) as [H1 H2].
  - rewrite (frame_length _ _ Hf). cbn. rewrite length_app. cbn. lia.
  - rewrite (fr_modules _ _ Hf). by apply (new_instance s).
  - rewrite (fr_modules _ _ Hf), (left_by_frame name _ _ Hok1 Hf) in H2. destruct (onModuleLoad _ _ _) as [[[]|e] s']; cbn [fst snd] in *; [|done].
    split; [done|]. intros _ _. exact (H2 eq_refl).
Qed.

Lemma loadModuleCode_done path name c s : thread_ok s -> load_done name s (loadModuleCode path name c).
Proof using destroy_quiet.
  intros Hok. unfold loadModuleCode.
  match goal with |- load_done _ _ (rthen ?m ?k) => destruct (after_frame m k s) as (s1 & Hf & [[e E]|[a E]]) end.
  { apply framed_catch; [|intros e; apply framed_pure]. apply framed_then; [apply framed_lift|]. intros pkg.
    apply framed_then; [apply framed_instantiate|]. intros k. apply framed_pure. }
  { apply (load_done_frame _ _ _ _ Hok Hf); rewrite E; done. }
  destruct a as [e|[pkg k]].
  { apply (load_done_frame _ s (snd (emit (LoggedError (CHError "LOAD_MODULE_FAIL" [JStr name; JStr (e_message e)])) s1)) _ Hok);
      [eapply thread_frame_trans; [exact Hf|by apply framed_emit]|by rewrite E|by rewrite E]. }
  apply (load_done_after _ _ _ _ _ Hok Hf E). pose proof (thread_frame_ok _ _ Hok Hf) as Hok1. clear E Hf Hok s.
  match goal with |- load_done _ _ (rthen ?m ?k) => destruct (after_frame m k s1) as (s2 & Hf & [[e E]|[[] E]]) end.
  { destruct k as [|[[|]|]]; [apply framed_pure|apply framed_pure|by apply framed_emit|]. apply framed_then; [by apply framed_emit|]. intros _. apply framed_throw. }
  { apply (load_done_frame _ _ _ _ Hok1 Hf); rewrite E; done. }
  apply (load_done_after _ _ _ _ _ Hok1 Hf E), installed_done. by eapply thread_frame_ok.
Qed.

Lemma loadModuleFromPath_done path name c s : thread_ok s -> load_done name s (loadModuleFromPath path name c).
Proof using destroy_quiet.
  intros Hok. unfold loadModuleFromPath. destruct (nameMismatch _ _ _ _); [by apply (load_done_frame _ _ _ _ Hok (thread_frame_refl s))|].
  destruct (negb _); [by apply (load_done_frame _ _ _ _ Hok (thread_frame_refl s))|]. by apply loadModuleCode_done.
Qed.

Lemma unload_eq name s : unloadModuleExternal name s =
  match assoc name (th_modules s) with
  | None => (Ok (Some (thrown_error (CHError "UNLOAD_MODULE_FAIL" [JStr "unknown module"; JStr name]))), s)
  | Some i => let '(r, s2) := onPurgeDevice i (stopped i s) in
              match r with
              | Ok _ => (Ok None, with_modules (List.filter (fun e => negb (String.eqb name e.1)) (th_modules s2)) s2)
              | Throw e => (Throw e, s2)
              end
  end.
Proof.
  unfold unloadModuleExternal, rthen at 1, rget. destruct (assoc name _) as [i|]; [|done].
  unfold rthen at 1, discovering, rmodify at 1, rthen at 1. change (with_instances _ _) with (stopped i s). by destruct (onPurgeDevice _ _) as [[[]|e] s2].
Qed.

Lemma filter_named_out {A} name (l : list (string * A)) : assoc name (List.filter (fun e => negb (String.eqb name e.1)) l) = None.
Proof.
  induction l as [|[a b] l IH]; [done|]. cbn. destruct (String.eqb name a) eqn:E; cbn; [done|]. by rewrite E.
Qed.

Lemma unload_ok name s : thread_ok s ->
  thread_ok (snd (unloadModuleExternal name s)) /\
  (forall r, fst (unloadModuleExternal name s) = Ok r ->
   assoc name (th_modules (snd (unloadModuleExternal name s))) = None /\ th_deviceMap (snd (unloadModuleExternal name s)) = left_by name s).
Proof using destroy_quiet.
  intros Hok. rewrite unload_eq. unfold left_by. destruct (assoc name (th_modules s)) as [i|] eqn:Ea; [|done].
  pose proof (framed_discovering i false s) as Hd. change (frame s (stopped i s)) in Hd. pose proof (thread_frame_ok _ _ Hok Hd) as Hok0.
  destruct (purge_exact i _ Hok0) as [Hp Hm]. pose proof (purge_none name i _ Hok0 Ea) as Hno. destruct (purged_ok _ _ _ Hok0 Hp) as (Hok3 & Em & _).
  destruct (onPurgeDevice i (stopped i s)) as [[[]|e] s2]; cbn [fst snd] in *; [|done]. split.
  - apply unload_name_ok; [done|by apply Hno].
  - intros r _. split; [apply filter_named_out|by apply Hm].
Qed.

(** *** Discovery and requests *)

Lemma frame_new_device spec x root s : thread_ok s -> frame s (snd (new_device spec x root s)).
Proof.
  intros Hok. unfold new_device, rthen at 1, rget. destruct (initServices _ _ _) as [[d u]|]; [|apply thread_frame_refl].
  destruct (is_nullish _); [apply thread_frame_refl|]. destruct (wire _ _ _) as [g d']. unfold rthen, rmodify, rpure. cbn [snd]. split; eauto; cbn; [| |lia].
  - intros r o Ho. case_bool_decide as E; [|eauto]. subst r. rewrite (ok_fresh _ Hok) in Ho; [done|lia].
  - intros n Hn Ho. case_bool_decide as E; [|by left]. injection E as ->. right. lia.
Qed.

Lemma keeping_discover i : keeping (emit_discover i).
Proof.
  intros s. unfold emit_discover, rthen at 1, rget. destruct (th_instances s !! i) as [m|]; [|apply (keeping_framed _ (framed_pure tt) s)].
  destruct (in_kind m) as [spec x root|]; [|apply (keeping_framed _ (framed_emit (ModuleEvent i "discover") I) s)]. intros Hok.
  pose proof (frame_new_device spec x root s Hok) as Hf. unfold rthen. destruct (new_device spec x root s) as [[r|e] s1]; cbn [snd] in *.
  - pose proof (thread_frame_ok _ _ Hok Hf) as Hok1. destruct (keeping_online (in_packageInfo m) (in_modulePath m) (Some r) (Some i) s1 Hok1) as (H1 & H2 & H3).
    split; [done|]. by rewrite H2, H3, (fr_modules _ _ Hf), (fr_kinds _ _ Hf).
  - split; [by eapply thread_frame_ok|]. split; apply Hf.
Qed.

Lemma keeping_discover_from ids : keeping (discover_from ids).
Proof.
  induction ids as [|i ids IH]; [apply keeping_framed, framed_pure|]. cbn [discover_from]. apply keeping_get. intros s.
  destruct (match _ with Some m => _ | None => _ end); [apply keeping_framed, framed_pure|]. apply keeping_then; [apply keeping_discover|]. intros _.
  apply keeping_then; [apply keeping_framed, framed_discovering|]. by intros _.
Qed.

Lemma framed_stop_from ids : framed (stop_from ids).
Proof.
  induction ids as [|i ids IH]; [apply framed_pure|]. cbn [stop_from]. apply framed_get. intros s. destruct (_ !! i) as [m|]; [|done].
  destruct (negb _); [apply framed_pure|]. apply framed_then; [destruct (in_kind m); auto with framing|]. intros _.
  apply framed_then; [apply framed_discovering|]. by intros _.
Qed.

Lemma framed_reply msgID err data : framed (reply msgID err data).
Proof. by apply framed_emit. Qed.
#[local] Hint Resolve framed_reply : framing.

Lemma framed_schema_reply msgID r : framed (schema_reply msgID r).
Proof. destruct r; by apply framed_emit. Qed.

Lemma framed_get_spec msgID id : framed (get_spec msgID id).
Proof.
  unfold get_spec. apply framed_get. intros s. apply framed_then; [auto with framing|]. intros [e|[r|]]; [auto with framing| |auto with framing].
  apply framed_then; [auto with framing|]. intros o. destruct (negb _); [auto with framing|]. destruct (ob_spec o); auto with framing.
Qed.

Lemma framed_get_schema msgID id path : framed (get_schema msgID id path).
Proof.
  unfold get_schema. apply framed_get. intros s. apply framed_then; [auto with framing|]. intros [e|[r|]]; [auto with framing| |auto with framing].
  apply framed_then; [auto with framing|]. intros o. destruct (negb _); [auto with framing|].
  destruct (resolveSchemaFromPath _ _); [apply framed_schema_reply|by apply framed_emit].
Qed.

(** *** Every step *)

Definition safe {A} (m : run A) : Prop := forall s, thread_ok s -> thread_ok (snd (m s)).

Lemma safe_keeping {A} (m : run A) : keeping m -> safe m.
Proof. intros Hm s Hok. by apply Hm. Qed.
Lemma safe_framed {A} (m : run A) : framed m -> safe m.
Proof. intros Hm s Hok. by eapply thread_frame_ok. Qed.
Lemma safe_then {A B} (m : run A) (k : A -> run B) : safe m -> (forall a, safe (k a)) -> safe (rthen m k).
Proof. intros Hm Hk s Hok. specialize (Hm s Hok). unfold rthen. destruct (m s) as [[a|e] s1]; [by apply Hk|done]. Qed.
Lemma framed_timers t : framed (rmodify (with_timers t)).
Proof. by apply framed_config. Qed.

Lemma handle_ok ev : safe (handle ev).
Proof using destroy_quiet.
  destruct ev as [msgID path name c|msgID name|msgID| |msgID id|msgID id path|msgID r|a]; cbn [handle].
  - apply safe_then; [|intros r; apply safe_framed, framed_reply]. intros s Hok. by apply loadModuleFromPath_done.
  - apply safe_then; [|intros r; apply safe_framed, framed_reply]. intros s Hok. by apply unload_ok.
  - apply safe_then; [by apply safe_framed, framed_config|]. intros _. apply safe_keeping, keeping_get. intros s. apply keeping_discover_from.
  - apply safe_framed, framed_get. intros s. destruct (th_timers s) as [|m rest]; [apply framed_pure|].
    apply framed_then; [apply framed_timers|]. intros _. apply framed_then; [|intros _; apply framed_reply].
    apply framed_get. intros s1. apply framed_stop_from.
  - apply safe_framed, framed_get_spec.
  - apply safe_framed, framed_get_schema.
  - apply safe_framed, framed_schema_reply.
  - apply safe_keeping, keeping_announce.
Qed.

Lemma thread_step_ok ev s : thread_ok s -> thread_ok (step ev s).
Proof using destroy_quiet.
  intros Hok. unfold step. pose proof (handle_ok ev s Hok) as H. destruct (handle ev s) as [[[]|e] s1]; [done|]. cbn in H.
  destruct ev; try done; by eapply thread_frame_ok; [|apply (framed_emit (Uncaught e) I)].
Qed.

Lemma new_thread_ok : thread_ok new_thread.
Proof.
  split; cbn; try apply NoDup_nil_2; try done.
  - intros name i H. by apply not_elem_of_nil in H.
  - intros id H. by apply not_elem_of_nil in H.
Qed.

Lemma thread_run_ok evs s : thread_ok s -> thread_ok (thread_run evs s).
Proof using destroy_quiet. revert s. induction evs as [|ev evs IH]; [done|]. intros s Hok. apply IH. by apply thread_step_ok. Qed.

(** *** What is told of *)

(** From [s] to [s'] the main thread is told only of ids that were free, or that
    the same module path held. *)
Definition takes_own (s s' : thread) : Prop :=
  forall data, DeviceOnline data ∈ drop (length (th_out s)) (th_out s') ->
    let id := js_text (jget "deviceID" data) in registered_at s id = None \/ registered_at s id = Some (jget "modulePath" data).

Lemma registered_frame s s1 id : thread_ok s -> frame s s1 -> registered_at s1 id = registered_at s id.
Proof.
  intros Hok Hf. unfold registered_at. rewrite (fr_map _ _ Hf). destruct (assoc id (th_deviceMap s)) as [r|] eqn:E; [|done].
  destruct (ok_homes _ Hok id r E) as (o & i & Ho & _). destruct (fr_objects _ _ Hf r o Ho) as (o' & Ho' & Hh).
  apply home_parts in Hh as (_ & _ & Hp). by rewrite Ho, Ho', Hp.
Qed.

Lemma frame_out s s' : frame s s' -> exists ext, th_out s' = th_out s ++ ext /\ forall data, DeviceOnline data ∉ ext.
Proof.
  intros Hf. destruct (fr_out _ _ Hf) as (ext & E & He). exists ext. split; [done|]. intros data Hin.
  rewrite Forall_forall in He. exact (He _ Hin).
Qed.

Lemma free_or_own v path : conflictingModulePath v (JStr path) = None -> v = None \/ v = Some (JStr path).
Proof.
  unfold conflictingModulePath. destruct v as [p|]; [|by left]. destruct (is_nullish p); [done|]. destruct (strict_eq p (JStr path)) eqn:E; [|done].
  intros _. right. destruct p; try done. cbn in E. apply String.eqb_eq in E. by subst.
Qed.

Lemma moves_own i name path s s1 s' : verifyModule = false -> thread_ok s -> frame s s1 -> moves i name path s1 s' -> takes_own s s'.
Proof.
  intros Hv Hok Hf Hm. destruct (frame_out _ _ Hf) as (x & Ex & Hx). intros data. destruct Hm as [Hf2|r o pkg s2 Hf2 Ho Hc Hp].
  - destruct (frame_out _ _ Hf2) as (y & Ey & Hy). rewrite Ey, Ex, <- app_assoc, drop_app_length. intros [H|H]%elem_of_app; [by apply Hx in H|by apply Hy in H].
  - destruct (frame_out _ _ Hf2) as (y & Ey & Hy). destruct (frame_out _ _ Hp) as (z & Ez & Hz). rewrite Ez. cbn [put emitting th_out with_map with_object].
    rewrite Ey, Ex, <- !app_assoc, drop_app_length. intros [H|[H|[H%list_elem_of_singleton|H]%elem_of_app]%elem_of_app]%elem_of_app;
      [by apply Hx in H|by apply Hy in H| |by apply Hz in H].
    injection H as ->. cbn. apply Hc, free_or_own in Hv. rewrite (registered_frame s s2 _ Hok) in Hv; [done|by eapply thread_frame_trans].
Qed.

Lemma frame_own s s' : frame s s' -> takes_own s s'.
Proof. intros Hf data. destruct (frame_out _ _ Hf) as (x & -> & Hx). rewrite drop_app_length. intros H. by apply Hx in H. Qed.

Lemma online_own packageInfo path dev oi s s1 : verifyModule = false -> thread_ok s -> frame s s1 ->
  takes_own s (snd (instance_online packageInfo path dev oi s1)).
Proof.
  intros Hv Hok Hf. destruct (online_moves packageInfo path dev oi s1 (thread_frame_ok _ _ Hok Hf)) as [Hf2|(i & name & _ & _ & Hm)].
  - apply frame_own. by eapply thread_frame_trans.
  - by eapply moves_own.
Qed.

Lemma announce_own a s : verifyModule = false -> thread_ok s -> takes_own s (snd (announce a s)).
Proof.
  intros Hv Hok. unfold announce, rthen at 1, rget. destruct (th_instances s !! an_emitter a) as [m|]; [|apply frame_own, thread_frame_refl].
  match goal with |- context [rthen ?m ?k s] => destruct (after_frame m k s) as (s1 & Hf & [[e E]|[[] E]]) end; rewrite ?E.
  - destruct (an_device a); [apply framed_shown|apply framed_pure].
  - by apply frame_own.
  - destruct (an_online a); [by apply online_own|]. apply frame_own. eapply thread_frame_trans; [exact Hf|apply framed_instance_offline].
Qed.

Lemma discover_own i s : verifyModule = false -> thread_ok s -> takes_own s (snd (emit_discover i s)).
Proof.
  intros Hv Hok. unfold emit_discover, rthen at 1, rget. destruct (th_instances s !! i) as [m|]; [|apply frame_own, thread_frame_refl].
  destruct (in_kind m) as [spec x root|]; [|by apply frame_own, framed_emit]. pose proof (frame_new_device spec x root s Hok) as Hf.
  unfold rthen. destruct (new_device spec x root s) as [[r|e] s1]; [by apply online_own|by apply frame_own].
Qed.

(** *** What a discovery brings *)

Lemma told_ok cbs r s : fst (reach cbs (fun cb => emit (Told cb r)) s) = Ok tt.
Proof. revert s. induction cbs as [|cb cbs IH]; [done|]. intros s. cbn. apply IH. Qed.

Lemma tell_waiting_ok id r s : fst (tell_waiting id r s) = Ok tt.
Proof.
  unfold tell_waiting, rthen at 1, rget. destruct (th_allLoaded s); [done|]. destruct (assoc id (th_notify s)) as [cbs|]; [|done].
  unfold rthen. pose proof (told_ok cbs r s) as H. by destruct (reach _ _ s) as [[[]|e] s1].
Qed.

Definition device_message (id : string) (spec : jsval) (name path : string) (packageInfo : jsval) : effect :=
  DeviceOnline (JObj [("deviceID", JStr id); ("spec", spec); ("moduleName", JStr name); ("packageInfo", packageInfo); ("modulePath", JStr path)]).

Lemma online_clear r o i name packageInfo path s : th_objects s r = Some o -> ob_error o = None -> ob_chdevice o = true ->
  validateDeviceSpec deviceSchemaValidator (ob_spec o) = Ok None -> is_nullish (ob_deviceID o) = false ->
  registered_at s (js_text (ob_deviceID o)) = None ->
  onDeviceOnline (Some r) (Some i) name packageInfo path s =
    tell_waiting (js_text (ob_deviceID o)) r (put r o (Some i) name packageInfo path (ob_deviceID o) s).
Proof.
  intros Ho He Hc Hv Hid Hr. unfold onDeviceOnline. unfold rthen at 1, checkDeviceInterface. rewrite (object_at_eq _ _ _ _ Ho), He, Hc. cbn [rpure].
  unfold validated. rewrite (object_at_eq _ _ _ _ Ho). unfold rthen at 1, rlift. rewrite Hv. cbn [with_instance].
  unfold identified. rewrite (object_at_eq _ _ _ _ Ho), Hid. unfold rthen at 1, rget. rewrite Hr. cbn [conflictingModulePath].
  by apply register_put.
Qed.

(** The device a discovery makes, and what is said of it. *)
Definition discovered (i : nat) (spec : jsval) (name path : string) (packageInfo : jsval) (s s' : thread) : Prop :=
  let id := deviceIDForName (js_text (jget "friendlyName" (jget "device" spec))) in
  exists r o, th_deviceMap s' = assoc_set id r (th_deviceMap s) /\ th_objects s' r = Some o /\ home o = (Some i, name, path) /\
    device_message id (annotated spec id) name path packageInfo ∈ th_out s'.

Lemma new_device_made spec x root s : initServices compile (mkDevice root []) spec <> None ->
  is_nullish (jget "serviceList" (jget "device" spec)) = false ->
  let id := deviceIDForName (js_text (jget "friendlyName" (jget "device" spec))) in
  exists r s1 o, new_device spec x root s = (Ok r, s1) /\ th_objects s1 r = Some o /\ ob_error o = None /\ ob_chdevice o = true /\
    ob_deviceID o = JStr id /\ ob_spec o = annotated spec id.
Proof.
  intros Hi Hs id. assert (Hd : is_nullish (jget "device" spec) = false) by (destruct (jget "device" spec); done).
  unfold new_device, rthen at 1, rget. destruct (initServices _ _ _) as [[d u]|]; [|done]. rewrite Hd, Hs. destruct (wire _ _ _) as [g d'].
  eexists _, _, _. split; [done|]. cbn. rewrite bool_decide_eq_true_2 by done. done.
Qed.

Lemma discover_one i m spec x root name s : thread_ok s -> th_instances s !! i = Some m -> in_kind m = HandlerModule spec x root ->
  assoc name (th_modules s) = Some i -> initServices compile (mkDevice root []) spec <> None ->
  is_nullish (jget "serviceList" (jget "device" spec)) = false ->
  let id := deviceIDForName (js_text (jget "friendlyName" (jget "device" spec))) in
  validateDeviceSpec deviceSchemaValidator (annotated spec id) = Ok None -> registered_at s id = None ->
  fst (emit_discover i s) = Ok tt /\ discovered i spec name (in_modulePath m) (in_packageInfo m) s (snd (emit_discover i s)).
Proof.
  intros Hok Hm Hk Hn Hi Hs id Hv Hr. pose proof (frame_new_device spec x root s Hok) as Hf.
  destruct (new_device_made spec x root s Hi Hs) as (r & s1 & o & E & Ho & He & Hc & Hid & Hsp). fold id in Hid, Hsp. rewrite E in Hf. cbn [snd] in Hf.
  pose proof (thread_frame_ok _ _ Hok Hf) as Hok1.
  assert (En : names_of (Some i) s1 = [name]).
  { destruct (names_of_one i s1 Hok1) as [E1|(n & E1 & Ha)]; [|rewrite E1; f_equal]; rewrite <- (fr_modules _ _ Hf) in Hn.
    - unfold names_of in E1. apply assoc_elem in Hn. assert (Hx : name ∈ @nil string); [|by apply not_elem_of_nil in Hx].
      rewrite <- E1. apply list_elem_of_fmap. exists (name, i). split; [done|]. apply list_elem_of_In, filter_In. split; [by apply list_elem_of_In|]. apply Nat.eqb_refl.
    - pose proof (ok_instances _ Hok1) as Hnd. apply assoc_elem in Hn, Ha.
      apply list_elem_of_lookup in Hn as [a Hn], Ha as [b Ha].
      assert (a = b) as <-; [|congruence]. apply (NoDup_lookup _ a b i Hnd); rewrite list_lookup_fmap; [by rewrite Hn|by rewrite Ha]. }
  assert (Ed : emit_discover i s = tell_waiting id r (put r o (Some i) name (in_packageInfo m) (in_modulePath m) (JStr id) s1)).
  { unfold emit_discover, rthen at 1, rget. rewrite Hm, Hk. unfold rthen at 1. rewrite E. unfold instance_online, rthen at 1, rget. rewrite En.
    cbn [reach]. unfold rthen. rewrite (online_clear r o) by (rewrite ?Hid, ?Hsp; try done; by rewrite (registered_frame s s1 _ Hok Hf)).
    rewrite Hid. pose proof (tell_waiting_ok id r (put r o (Some i) name (in_packageInfo m) (in_modulePath m) (JStr id) s1)) as Ht.
    cbn [js_text]. by destruct (tell_waiting _ _ _) as [[[]|e] s2]. }
  rewrite Ed. split; [apply tell_waiting_ok|]. unfold discovered. fold id. set (s2 := put _ _ _ _ _ _ _ _).
  pose proof (framed_tell_waiting id r s2) as Ht. destruct (fr_objects _ _ Ht r (set_home (Some i) name (in_packageInfo m) (in_modulePath m) o)) as (o' & Ho' & Hh).
  { cbn. by rewrite bool_decide_eq_true_2. }
  exists r, o'. rewrite (fr_map _ _ Ht). split; [by rewrite <- (fr_map _ _ Hf)|]. split; [done|]. split; [by rewrite Hh|].
  destruct (fr_out _ _ Ht) as (ext & -> & _). apply elem_of_app. left. apply elem_of_app. right. unfold device_message. rewrite <- Hsp. by left.
Qed.

(** C25: Whatever the main thread asks of a worker and its modules emit, so long
    as no device announces another while it is destroyed: names, instances and
    device ids are distinct; every device on the map belongs to the instance now
    under its module's name, and the main thread has been told of it. A load that
    succeeds puts the new instance under the name, and of the map takes exactly the
    devices of the one it replaces; an unload takes the name off and exactly its
    module's devices. Without --verifyModule an event of a module, or a
    discovery, gets the main thread told only of ids that were free or of the same
    module path. A handler-map module whose spec initialises and passes validation
    and whose id is free comes online when it is discovered, under its own name
    and instance, and the main thread is told of it with its annotated spec. *)
Theorem worker_devices_sound evs ev :
  let s := thread_run evs new_thread in
  let s' := step ev s in
  NoDup (map fst (th_modules s)) /\ NoDup (map snd (th_modules s)) /\ NoDup (map fst (th_deviceMap s)) /\
  (forall id r, assoc id (th_deviceMap s) = Some r ->
     (exists o i, th_objects s r = Some o /\ ob_module o = Some i /\ assoc (ob_moduleName o) (th_modules s) = Some i) /\
     exists data, DeviceOnline data ∈ th_out s /\ js_text (jget "deviceID" data) = id) /\
  (forall msgID path name config i, ev = LoadModule msgID path name config -> fst (loadModuleFromPath path name config s) = Ok (inr i) ->
     th_modules s' = assoc_set name (length (th_instances s)) (th_modules s) /\ th_deviceMap s' = left_by name s) /\
  (forall msgID name r, ev = UnloadModule msgID name -> fst (unloadModuleExternal name s) = Ok r ->
     assoc name (th_modules s') = None /\ th_deviceMap s' = left_by name s) /\
  (verifyModule = false -> (forall a, ev = ModuleEmits a -> takes_own s s') /\ forall i, takes_own s (snd (emit_discover i s))) /\
  (forall i m spec x root name, th_instances s !! i = Some m -> in_kind m = HandlerModule spec x root -> assoc name (th_modules s) = Some i ->
     initServices compile (mkDevice root []) spec <> None -> is_nullish (jget "serviceList" (jget "device" spec)) = false ->
     let id := deviceIDForName (js_text (jget "friendlyName" (jget "device" spec))) in
     validateDeviceSpec deviceSchemaValidator (annotated spec id) = Ok None -> registered_at s id = None ->
     discovered i spec name (in_modulePath m) (in_packageInfo m) s (snd (emit_discover i s))).
Proof using destroy_quiet.
  intros s s'. assert (Hok : thread_ok s) by apply thread_run_ok, new_thread_ok. clearbody s.
  split; [apply Hok|]. split; [apply Hok|]. split; [apply Hok|]. split; [|split; [|split; [|split]]].
  - intros id r Hr. split; [by apply (ok_homes _ Hok id)|]. apply (ok_told _ Hok), assoc_in_keys. by rewrite Hr.
  - intros msgID path name config i -> Hl. destruct (loadModuleFromPath_done path name config s Hok) as [_ H]. specialize (H i Hl).
    subst s'. unfold step, handle, rthen. destruct (loadModuleFromPath path name config s) as [[l|e] s1]; exact H.
  - intros msgID name r -> Hu. destruct (unload_ok name s Hok) as [_ H]. specialize (H r Hu).
    subst s'. unfold step, handle, rthen. destruct (unloadModuleExternal name s) as [[l|e] s1]; exact H.
  - intros Hv. split; [|intros i; by apply discover_own]. intros a ->. pose proof (announce_own a s Hv Hok) as H.
    subst s'. unfold step, handle. destruct (announce a s) as [[l|e] s1]; exact H.
  - intros i m spec x root name Hm Hk Hn Hi Hs id Hv Hr. by apply (discover_one i m spec x root name s).
Qed.
End quiet.
End worker.

(** ** A worker with the module of one handler map *)
Definition demo_worker (verify : bool) (destroy : ref -> option (list announcement * option string)) (evs : list event) (s : thread) : thread :=
  thread_run (fun _ => None) verify true (fun _ => Ok None) (fun _ => Ok (fun _ => Valid)) (fun n => "id-" +:+ n) destroy
    "/" demo_read_file (fun p => String.eqb p "/m") demo_json (fun _ => Ok true) (fun _ => Ok []) (fun _ => Ok OtherValue)
    (fun _ => Ok (Some demo_map)) (fun _ => Ok (Some true)) evs s.
Definition demo_events : list event := [LoadModule (JStr "1") "/m" "m" JNull; DiscoverDevice (JStr "2"); DiscoverTimer].
Definition demo_ids (s : thread) : list (string * ref) * list (string * nat) := (th_deviceMap s, th_modules s).

Lemma worker_devices_sound_witness :
  demo_ids (demo_worker false (fun _ => None) demo_events new_thread) = ([("id-undefined", Made 0)], [("m", 0%nat)])%string /\
  demo_ids (demo_worker false (fun _ => None) (demo_events ++ [UnloadModule (JStr "3") "m"]) new_thread) = ([], []) /\
  NoDup (map fst (th_deviceMap (demo_worker false (fun _ => None) demo_events new_thread))).
Proof.
  split; [vm_compute; reflexivity|]. split; [vm_compute; reflexivity|].
  assert (Hq : forall (r : ref) (l : list announcement) (f : option string), (fun _ : ref => @None (list announcement * option string)) r = Some (l, f) -> l = [])
    by (intros r l f H; discriminate H).
  exact (proj1 (proj2 (proj2 (worker_devices_sound (fun _ => None) false true (fun _ => Ok None) (fun _ => Ok (fun _ => Valid)) (fun n => "id-" +:+ n) (fun _ => None)
    "/" demo_read_file (fun p => String.eqb p "/m") demo_json (fun _ => Ok true) (fun _ => Ok []) (fun _ => Ok OtherValue)
    (fun _ => Ok (Some demo_map)) (fun _ => Ok (Some true)) Hq demo_events DiscoverTimer)))).
Defined.

(** A device that is announced while another of its module is destroyed joins the
    map after the purge has taken the ids it goes through, and outlives the
    module. *)
Definition late_announcement : announcement := mkAnnounce 0 true (Some 7%nat) true (JStr "late") demo_api (mkDevice JNull []) (Some 0%nat).
Example late_device_outlives_its_module :
  demo_ids (demo_worker false (fun r => if bool_decide (r = Made 0) then Some ([late_announcement], None) else None)
              (demo_events ++ [UnloadModule (JStr "3") "m"]) new_thread) = ([("late", Own 7)], [])%string.
Proof. vm_compute. reflexivity. Qed.
